(* ===== verification/_CoqProject ===== *)
-Q . S2P
Prelude.v
GoStrings.v
EntityRef.v
PolicyTypes.v
PolicyAST.v
PolicyEval.v
PolicyCompile.v
CircuitBreaker.v
AttrResolver.v
AttrResolverFacts.v
PolicyCache.v
PolicyEngine.v
PolicyEngineFacts.v
AccessScenarios.v
PluginPolicy.v
CommandInput.v
CommandInputFacts.v
RateLimit.v
Dispatcher.v
DispatcherFacts.v
TopoSort.v
PluginDeps.v
Lifecycle.v
PolicyHealth.v
Sql.v
GoText.v
SceneTypes.v
SceneRender.v
PoseOrder.v
SceneStore.v
ScenePublishStore.v
SceneProg.v
SceneService.v
ScenePublish.v
SceneInv.v
ScenePubInv.v
SceneWorld.v
SceneSafety.v
ScenePoses.v
SceneGates.v
SceneSnapshot.v
Programs.v
DekTypes.v
EventCrypto.v
DekCache.v
DekCacheFacts.v
DekStore.v
DekManager.v
Rekey.v
DekInv.v
DekInvOps.v
DekInvTx.v
DekSafety.v
RekeySafety.v
RekeyProgress.v
RekeyCompletes.v
DekWorld.v
DekClaims.v
BusTypes.v
EventPublish.v
AuditProjection.v
AuthGuard.v
HistoryRead.v
BusFacts.v
BusSafety.v
BusCluster.v
BusClaims.v
DecryptAudit.v
GoJson.v
WorldTypes.v
WorldWire.v
WorldStore.v
WorldService.v
Outbox.v
WorldInv.v
WorldFacts.v
OutboxFacts.v
AuthStore.v
OperatorAuth.v
OperatorFacts.v
