(* ===== verification/Prelude.v ===== *)
(** * HoloMUSH: access control, commands, plugins, lifecycle, scenes, keys, events, world and operators

    HoloMUSH is a multi-user game server in Go.  Every action a character, a
    plugin or the server takes is put to an attribute-based access-control (ABAC)
    engine; players' input reaches command handlers and plugins through a
    dispatcher guarded by that engine; plugins are loaded in dependency order and
    the server's subsystems are started and stopped by an orchestrator.  The
    largest plugin runs scenes: characters write together, and may vote to publish
    what they wrote.  Everything that happens is an event on a stream; the payloads
    of sensitive events are encrypted under keys kept per context, which operators
    replace by rekeys, and an audit projection archives every event.  The world itself
    (places, exits, objects, characters) is kept in tables; every change of it is
    announced by an envelope written in the same transaction, which a relay publishes
    to the stream in order and consumers apply once.  Operators reach the server through
    a door of its own: a password, a one-time code and the admin role, and for the gravest
    operations the approval of a second operator.  This library translates those parts into functions, programs of calls and step relations and
    proves what makes them correct.

    ** The parts, and the files that model them

    Shared:
    - Prelude.v: errors, [result] and [outcome] (a call that may panic), generic
      lemmas, tactics and hints.
    - GoStrings.v: the functions of Go's [strings] and [strconv] packages in use, on
      bytes.  GoText.v: runes and JSON string encoding.  GoJson.v: [encoding/json] on
      values, with the round trip of its encoder and decoder.
    - Sql.v: transactions on tables and the errors of the SQL driver.
    - Programs.v: programs of calls on shared state, a rely-guarantee logic for
      them, and the machine that interleaves programs, cuts them off anywhere and
      lets the outside act in between.

    Access control, [internal/access]:
    - EntityRef.v: [prefix.go], [access.go]: references "type:id".
    - PolicyTypes.v: [policy/types/types.go], [grants.go], [context.go]: requests,
      attribute bags, decisions, schemas.  Attribute values ([any]) keep Go's
      integer widths and binary64 floats.
    - PolicyAST.v: [policy/dsl/ast.go] with the checks and analyses of [parser.go],
      [refs.go], [extract.go], [validate.go].
    - PolicyEval.v: [policy/dsl/evaluator.go].
    - PolicyCompile.v: [policy/compiler.go].
    - CircuitBreaker.v: [policy/attribute/circuit_breaker.go].
    - AttrResolver.v: [policy/attribute/resolver.go], [cache.go], [schema.go],
      [provider.go]; theorems in AttrResolverFacts.v.  The class through which
      the engine uses it, and the laws the engine relies on, are in PolicyTypes.v.
    - PolicyCache.v: [policy/cache.go], the cache shared by writers, a reload
      loop, a poller and readers, as a step function on events.
    - PolicyEngine.v: [policy/engine.go], over any attribute resolution; theorems
      in PolicyEngineFacts.v.  The class through which clients use
      it ([types.AccessPolicyEngine]) is at the end of PolicyEngine.v.
    - AccessScenarios.v: the stack put together on concrete policies.

    Commands, [internal/command]:
    - CommandInput.v: [parser.go], [validation.go], [alias.go]; theorems in
      CommandInputFacts.v.
    - RateLimit.v: [ratelimit.go], [rate_limit_middleware.go].
    - Dispatcher.v: [dispatcher.go], [access.go], [registry.go], [types.go],
      [focus_redirect.go], [focus_reader.go]; theorems and a concrete server
      in DispatcherFacts.v.

    Plugins, [internal/plugin]:
    - PluginPolicy.v: [policy_validator.go], the trust boundary of the policies a
      manifest brings.
    - TopoSort.v: Kahn's algorithm, used by the next two.
    - PluginDeps.v: [dependency.go], [dependency_type.go], [capability_vocab.go]
      and [resolveLoadOrder] of [manager.go], with theorems.

    Lifecycle, [internal/lifecycle]:
    - Lifecycle.v: [orchestrator.go], [tracker.go], [health.go], with theorems.
    - PolicyHealth.v: [access/policy/poller.go] and the wiring of poller, store
      callback, health tracker and engine in [access/setup/setup.go].

    Scenes, [plugins/core-scenes]:
    - SceneTypes.v: [types.go], [participants.go], [lifecycle.go],
      [publish_types.go], [publish_state.go]: data, enumerations and the two state
      machines.  SceneRender.v: [publish_render.go].  PoseOrder.v: [poseorder.go].
    - SceneStore.v and ScenePublishStore.v: [store.go], [ops_events.go],
      [publish_store.go] and the log of [audit.go], as transactions on tables
      with the keys, foreign keys, CHECKs and unique indexes of [migrations/].
    - SceneProg.v: handlers as programs of store and host calls.  SceneService.v:
      [service.go], [content_warnings.go], [resolver.go], [idle_scheduler.go].
      ScenePublish.v: [publish_service.go], [publish_events.go],
      [publish_snapshot.go], [publish_scheduler.go], [export.go], [audit.go].
    - SceneInv.v, ScenePubInv.v: the invariant of the tables, the
      steps they may take, and that every store call respects both.  SceneWorld.v:
      requests and scheduler sweeps running concurrently, and the rely-guarantee
      logic in which every handler is shown safe; a run from the empty tables to a
      published scene.
    - Theorems: SceneSafety.v (worlds and runs), SceneGates.v (traces of calls),
      ScenePoses.v, SceneSnapshot.v.

    Keys of encrypted events, [internal/eventbus/crypto/dek], [codec], [crypto/aad]:
    - EventCrypto.v: [codec/*.go], [aad/aad.go]: codecs and the metadata bound into
      the authentication tag; the AEAD and the protobuf encoding are parameters.
    - DekTypes.v: rows, checkpoints and their state machine ([checkpoint_fsm.go]).
      DekCache.v: [cache.go], [participants_cache.go]; theorems in DekCacheFacts.v.
      DekStore.v: [store.go], [checkpoint.go] as transactions on the tables.
      DekManager.v: the calls of the subsystem's programs and [manager.go].
      Rekey.v: [rekey*.go], [sweep.go], [audit_chain.go] and the operators'
      commands of [cmd/holomush/crypto_rekey_wiring.go].
    - DekInv.v, DekInvOps.v, DekInvTx.v: the invariant of the tables and caches, the
      steps they may take, and that every call keeps both.  DekSafety.v,
      RekeySafety.v: what the manager's methods and each phase of a rekey achieve
      among other programs.  DekWorld.v: the cluster, with a concrete run.
      RekeyProgress.v, RekeyCompletes.v: rekeys that nothing disturbs.  DekClaims.v:
      theorems over all runs, and that undisturbed rekeys end.

    The event bus, [internal/eventbus]:
    - BusTypes.v: [types.go], [qualify.go], headers, and the calls of the programs
      below.  EventPublish.v: [publisher.go], [rendering_publisher.go].
    - AuditProjection.v: [audit/projection.go], [manifest_subjects.go], [dlq.go],
      [replay.go], [auditheader/auditheader.go]; theorems in BusClaims.v.
    - AuthGuard.v: [authguard/*.go] and the manifest declarations it reads.
      DecryptAudit.v: [authguard/audit/emitter.go] with its theorems.
    - HistoryRead.v: decoding, authorization and decryption of one event
      ([history/dispatcher.go], [cold_postgres.go], [hot_jetstream.go],
      [history/source]).
    - BusFacts.v, BusSafety.v: what is stamped and sealed can be read, and what each
      program achieves among others.  BusCluster.v: publishers, readers, rekeys and
      archiving run against one database and one stream, with a concrete run.
      BusClaims.v: theorems over all runs.

    The world, [internal/world], and the services of [internal/auth] on its tables:
    - WorldTypes.v: aggregates, validation ([validation.go], [location.go], [exit.go],
      [object.go], [character.go], [property.go]), intents, envelopes and payloads
      ([wmodel], [payloads.go]).  WorldWire.v: the wire form of envelopes and the
      registry of their kinds ([outbox/wire.go], [outbox/taxonomy.go]).
    - WorldStore.v: the tables with their constraints and the repositories
      ([postgres/*_repo.go], [feed_counter.go], [outbox_store.go], [genesis_store.go],
      [reaping_guard.go]).  WorldService.v: [service.go], [mutator.go],
      [auth/character_genesis.go], [auth/character_reaping.go], [outbox/genesis.go] as
      programs of reads, transactions and questions to the policy engine.
    - Outbox.v: the relay ([outbox/relay.go]) over leases
      ([postgres/outbox_lease.go]), the operator's skip ([skip.go]), and the consumer
      ([consumer.go]) over its checkpoints ([consumer_checkpoint_store.go]).
    - WorldInv.v: what holds of the tables, the feed and the stream, and that every
      transaction extends the feed by envelopes that describe it.  WorldFacts.v:
      requests and relays run concurrently, theorems on commands.  OutboxFacts.v:
      theorems on the stream and its consumers.

    Accounts, second factors and operators, [internal/auth], [internal/totp],
    [internal/admin]:
    - AuthStore.v: players, roles, one-time-code secrets, approvals and operators'
      sessions, with the calls of the programs below ([auth/postgres/player_repo.go],
      [store/role_store.go], [totp/repo.go], [admin/approval/repo.go],
      [admin/auth/session.go]).  Its state keeps a log of what happened.
    - OperatorAuth.v: credentials ([auth/registration.go], [ratelimit.go], [player.go]),
      one-time codes ([totp/service.go], [provisioning.go]) and their audit
      ([admin/totp_audit/auditing.go]), the operators' sign-in and sessions
      ([admin/auth/*.go]), and the approval by a second operator
      ([admin/approval], [readstream/handler.go]), as programs of calls.
    - OperatorFacts.v: the invariant of tables and log, requests running concurrently,
      and theorems over all runs, with a concrete run.

    ** How code becomes definitions

    A method that mutates its receiver takes the state and returns the new one.
    [(T, error)] is [result T], or a pair where the value is used along with the
    error; a Go panic is [Panic].  A method that holds its mutex throughout is one
    function; where several critical sections interleave (PolicyCache.v) each is
    an event and an execution is a list of events.  Clock readings are arguments,
    in nanoseconds.  Ranging over a Go map takes the order of the visit as an
    argument when the result may depend on it.  SQL statements become functions on
    finite maps, refused where a constraint of the schema refuses them; a
    transaction is atomic and rolled back on error, and any call to the database
    may fail before or after it takes effect.  Libraries are parameters:
    participle's parser, gobwas/glob, semver, ULID printing, password hashing, TOTP codes;
    so are attribute providers, command handlers and plugins.  The code of a wrapped
    oops error is the deepest one in its chain, as the library reports it.  Log output, traces
    and metrics are left out.

    ** What the theorems show

    - The engine: deny-overrides exactly ([Evaluate_deny_overrides]); every allowing
      decision has a permit behind it ([Evaluate_allow_sound]); every error denies
      ([Evaluate_fail_closed]); what is decided is audited ([Evaluate_audited]); the
      order of policies does not matter ([Evaluate_order_independent]); pre-flight
      does not hide what evaluation would allow ([preflight_complete]); and an
      outage of the policy store ends in deny-all, and nothing else does
      ([degraded_mode_exact]).
    - Conditions and compilation: evaluation agrees with a reference semantics up
      to the depth limit ([EvaluateConditions_correct]); a policy compiled
      with its globs behaves as without ([Compile_globs_faithful], a lemma).
    - Attributes: where they may come from ([Resolve_provenance]), that the cache
      is transparent and correct ([Resolve_cache_transparent],
      [lru_cache_correct]), that failures surface
      ([failing_provider_fails_closed]), and that registration keeps the resolver
      well formed ([registration_wf], [register_unregister_roundtrip]).
    - Circuit breaker and policy cache: one probe at a time, an exact window
      ([probe_exclusive], [RecordCall_window]); fresh reads and no lost wake-up in
      every interleaving ([snapshot_fresh], [barrier_progress]); no change lost by
      polling ([poller_covers]).
    - Dispatch: nothing runs unauthorised, for any engine and for the engine of the
      code ([Dispatch_guarded], [Dispatch_needs_permit]); authorised commands run
      ([Dispatch_complete]); plugins cannot choose the identity they act for or
      forge audit entries ([delivered_identity],
      [audit_hints_unforgeable]); no
      panics ([Dispatch_no_panic]).
    - Input: exact cycle detection, acyclicity preserved by updates, complete
      expansion ([wouldBeCircular_exact], [SetPlayerAlias_acyclic],
      [LoadSystemAliasesValidated_acyclic], [resolveWithDepth_complete]).
    - Plugins: sound load orders, exact cycles and grants ([load_order_sound],
      [cycles_exact], [grants_exact]); confinement of accepted command policies
      ([accepted_command_policy_confined]).
    - Lifecycle: two-phase start, rollback, determinism, tiers ([StartAll_barrier],
      [StartAll_rollback], [topoSort_deterministic], [health_tiers_explained]).
    - References: constructors and parsers agree ([entity_ref_roundtrip]).
    - Scenes, in every interleaving of requests and sweeps and under every database
      fault: publication is unanimous and decided attempts are final
      ([published_unanimous], [decided_attempts_final]), attempts stay within their
      budget and well typed ([attempts_bounded], [attempt_rows_typed]), scenes only
      move forward ([scenes_move_forward]), archives are read back as rendered and
      do not depend on anything private ([archive_read_whole],
      [public_archive_opaque]); a sweep decides what has expired
      ([sweep_decides_expired]) and decryption in batches is decryption of the
      whole log ([decryptAndRender_unbatched]).  In every trace of a handler,
      changes come after a permit and private reads after the membership check
      ([mutations_need_permit], [private_content_gated], [history_private]).  Pose
      order is exact and never leaves a scene without a next character
      ([pose_gaps_exact], [pose_order_never_stuck]).
    - Keys, in every interleaving of the cluster and under every database fault and
      crash: events archived under a key stay readable through rekeys, with the
      payload they had ([archived_events_stay_readable]); a rekey that reports
      completion has moved every row off the old key, which is destroyed
      ([completed_rekey_is_complete], [destroyed_keys_are_retired]); checkpoints
      follow their state machine, one live per context
      ([rekeys_follow_the_state_machine]); caches hold stored keys
      ([cached_keys_are_stored_keys]) and implement an LRU with expiry
      ([cache_refines_lru]); the bound metadata determines the event
      ([aad_injective]).  Undisturbed, a rekey terminates and destroys the old key,
      from the start or from a checkpoint left behind
      ([undisturbed_rekey_completes], [interrupted_rekey_resumes]).
    - Events: what was published is what is read, from the stream or the archive,
      across rekeys ([published_events_read_back]); plaintext reaches only those the
      guard admits ([plaintext_only_to_the_entitled]); callers cannot forge the
      headers readers rely on ([system_headers_unforgeable]); the projection loses
      no event ([acknowledged_events_are_archived]).
    - The world, with requests and relays interleaved in any order, cut off anywhere,
      calls failing before or after they take effect: replaying the feed gives the
      versions of every row, positions without gaps ([feed_replays_to_world]); a
      command that succeeds is announced by one envelope that says what it did
      ([commands_are_announced]), one that fails alone changes nothing
      ([commands_are_atomic]), none writes without a permit ([writes_need_permit]);
      edits of characters are not lost ([updates_are_not_lost]); reaping a guest
      announces every character before the player goes
      ([reaped_guests_are_announced]); moves keep containment without cycles and
      within its depth ([moves_keep_containment]).
    - The feed on its way out: envelopes survive encoding ([wire_round_trip]); the
      stream misses nothing but what a reset put aside and carries no envelope before
      its predecessors ([stream_follows_feed]); an undisturbed pass publishes all
      ([drain_publishes_all]); a skip of an envelope that cannot be published adds one
      marker however often it is tried ([skips_publish_one_marker]); retries back off within bounds
      ([backoff_doubles_up_to_cap]); a consumer's state is the effects of the first
      envelopes of the feed, each once ([consumer_applies_feed]).

    - Operators, with requests interleaved in any order, cut off anywhere, calls failing
      before or after they take effect: a one-time code is accepted once
      ([totp_codes_are_not_replayed]); after the limit of wrong codes a player waits out
      the lock ([wrong_codes_are_spaced]); recovery codes, the bootstrap and
      approvals are spent once
      ([secrets_are_spent_once]); a session is issued only after password, code and
      role were all checked ([operator_sessions_take_all_factors]); what needs two
      operators is done only with the approval of another one
      ([dual_control_takes_two]), and waiting for it ends ([waiting_ends]).

    A few theorems record behaviour that modelling showed and that the code's
    comments and specifications do not intend:
    [deep_negation_compiles_but_never_fires], [open_breaker_lifts_forbid],
    [half_open_absorbing], [poller_restores_stale_policies],
    [late_notification_stays_degraded], [command_policy_escapes],
    [rate_limit_bypass_never_granted] and [untrimmed_name_unreachable]; those on
    scenes are collected in SceneSnapshot.v; on events there are
    [destroyed_key_bars_participants], [throttle_can_stick] and
    [decrypt_records_are_refused], on consumers [reset_can_lose_a_change], and on operators
    [wrong_password_is_internal], [stale_sign_in_restores_password],
    [dual_control_error_code_hidden] and [enrolment_can_lose_its_recovery_codes].

    ** Fuel

    Only loops that are not structural take fuel.  Kahn's loop gets one unit per
    node, which [drain_total] shows is enough.  The alias loops are bounded by
    MaxExpansionDepth in the source, which is their fuel.  The evaluator recurses
    on the syntax tree.  A log cut into decryption batches takes one unit per row;
    batches are not empty, so that is enough ([decryptAndRender_unbatched] holds
    with that fuel).  The batch loop of a rekey's Phase 3 takes its fuel as an
    argument: every safety theorem holds for any fuel, and one unit per row of the
    archive and one more are enough for it to end ([undisturbed_rekey_completes]).  So
    does a pass of the relay, for which one unit per unpublished row and one more are
    enough ([drain_publishes_all]).  Waiting for an approval
    takes the number of polls as an argument; one per interval up to the deadline and
    one more are enough ([waiting_ends]).  The recursive queries on containment are
    bounded by the depth written in them.

    ** Not modelled

    The participle grammar, the attribute providers and the policy store (SQL);
    plugin processes, gRPC and the Lua runtime; of the event bus, the paging of the
    two history tiers, subscriptions, plugin consumers and partitions, and the
    coordinator that tells the servers to drop keys, which is an outside call of the
    rekey model; of the world, fuzzy search, scene membership, properties other than
    their listing and cascade, and the waiting of the relay between passes; of
    accounts, registration, password resets and players' sessions; of the operators'
    door, the socket server and the scan of encrypted streams; gateways.  They are I/O, or code the modelled parts
    only call.  In the runs among requests and relays there are no skips and no
    pruning of the outbox: a skip can mark an envelope it did not publish when an
    epoch is reset meanwhile, and nothing calls the pruning.  Transactions of the world are atomic, as if serialised; the locks
    and the isolation level they rely on are not modelled.  A JSONB column gives back
    the value written, its keys in their order. *)

From Stdlib Require Export Ascii.
From stdpp Require Export gmap strings list.
From Stdlib Require Export ZArith Lia.

Set Warnings "-register-all".
Set Warnings "-clear-no-such-hyp".

(** ** Errors

    The shape of the errors the Go code builds: [errors.New] and [fmt.Errorf]
    ([ErrNew]), [oops.Code(c).Errorf] ([ErrCode]), wrapping without and with a
    code, and [errors.Join].  The context key/values of [oops.With] are not
    kept: no branch of the modelled code reads them. *)
Inductive error : Type :=
| ErrNew (msg : string)
| ErrCode (code msg : string)
| ErrWrap (msg : string) (cause : error)
| ErrWrapCode (code : string) (cause : error)
| ErrJoin (errs : list error).

(** A fallible computation: the [(T, error)] pairs of Go whose value is unused
    when the error is not nil. *)
Inductive result (A : Type) : Type :=
| Ok (a : A)
| Err (e : error).
Arguments Ok {A} a.
Arguments Err {A} e.

#[export] Instance result_ret : MRet result := fun A a => Ok a.
#[export] Instance result_bind : MBind result := fun A B f m =>
  match m with Ok a => f a | Err e => Err e end.

Definition is_ok {A} (r : result A) : bool :=
  match r with Ok _ => true | Err _ => false end.

(** A computation that may panic. *)
Inductive outcome (A : Type) : Type :=
| Return (a : A)
| Panic (msg : string).
Arguments Return {A} a.
Arguments Panic {A} msg.

#[export] Instance outcome_ret : MRet outcome := fun A a => Return a.
#[export] Instance outcome_bind : MBind outcome := fun A B f m =>
  match m with Return a => f a | Panic p => Panic p end.

(** A boolean check of a computed outcome gives the outcome. *)
Definition outcome_check {A} (o : outcome A) (P : A -> bool) : bool :=
  match o with Return a => P a | Panic _ => false end.

Lemma outcome_check_true {A} (o : outcome A) (P : A -> bool) :
  outcome_check o P = true -> exists a, o = Return a /\ P a = true.
Proof. destruct o; simpl; [eauto|done]. Qed.

Lemma obind_Return {A B} (m : outcome A) (f : A -> outcome B) b :
  (m ≫= f) = Return b -> exists a, m = Return a /\ f a = Return b.
Proof. destruct m; simpl; [eauto|done]. Qed.

(** [errors.Join]: nil when no error was collected. *)
Definition errors_Join (es : list error) : option error :=
  match es with [] => None | _ :: _ => Some (ErrJoin es) end.

Lemma errors_Join_None es : errors_Join es = None <-> es = [].
Proof. destruct es; split; naive_solver. Qed.

(** ** Automation *)
Create HintDb holo.

(** Case analysis on the scrutinee of a match in the goal or a hypothesis. *)
Ltac break_match :=
  match goal with
  | |- context [match ?x with _ => _ end] => destruct x eqn:?
  | H : context [match ?x with _ => _ end] |- _ => destruct x eqn:?
  end.

Ltac simp_res :=
  repeat match goal with
         | H : Ok _ = Ok _ |- _ => injection H as H; subst
         | H : Err _ = Err _ |- _ => injection H as H; subst
         | H : Return _ = Return _ |- _ => injection H as H; subst
         | H : Some _ = Some _ |- _ => injection H as H; subst
         | H : (_, _) = (_, _) |- _ => injection H as H; subst
         | H : Ok _ = Err _ |- _ => discriminate H
         | H : Err _ = Ok _ |- _ => discriminate H
         | H : Return _ = Panic _ |- _ => discriminate H
         | H : Panic _ = Return _ |- _ => discriminate H
         | H : Some _ = None |- _ => discriminate H
         | H : None = Some _ |- _ => discriminate H
         | H : true = false |- _ => discriminate H
         | H : false = true |- _ => discriminate H
         end.

(** Turns boolean connectives in hypotheses and goal into propositions. *)
Ltac bool_prop :=
  repeat match goal with
         | H : _ && _ = true |- _ => apply andb_true_iff in H as [? ?]
         | H : _ || _ = false |- _ => apply orb_false_iff in H as [? ?]
         | H : negb _ = true |- _ => apply negb_true_iff in H
         | H : negb _ = false |- _ => apply negb_false_iff in H
         | H : bool_decide _ = true |- _ => apply bool_decide_eq_true in H
         | H : bool_decide _ = false |- _ => apply bool_decide_eq_false in H
         | |- _ && _ = true => apply andb_true_iff; split
         | |- _ || _ = false => apply orb_false_iff; split
         end.

(** ** Boolean list lemmas shared by the components *)
Lemma existsb_In {A} (f : A -> bool) l :
  existsb f l = true <-> exists x, x ∈ l /\ f x = true.
Proof.
  rewrite existsb_exists. split; intros (x & Hin & Hf); exists x; split; auto;
    by apply list_elem_of_In.
Qed.

Lemma existsb_false {A} (f : A -> bool) l :
  existsb f l = false <-> forall x, x ∈ l -> f x = false.
Proof.
  rewrite <- not_true_iff_false, existsb_In. split.
  - intros H x Hx. apply not_true_iff_false. naive_solver.
  - intros H (x & Hx & Hf). rewrite H in Hf; done.
Qed.

Lemma forallb_In {A} (f : A -> bool) l :
  forallb f l = true <-> forall x, x ∈ l -> f x = true.
Proof.
  rewrite forallb_forall. split; intros H x Hx; apply H;
    by apply list_elem_of_In.
Qed.

Lemma existsb_ext_In {A} (f g : A -> bool) l :
  (forall x, x ∈ l -> f x = g x) -> existsb f l = existsb g l.
Proof.
  induction l as [|a l IH]; intros H; simpl; [done|].
  rewrite (H a) by set_solver. rewrite IH; [done|]. set_solver.
Qed.

Lemma forallb_ext_In {A} (f g : A -> bool) l :
  (forall x, x ∈ l -> f x = g x) -> forallb f l = forallb g l.
Proof.
  induction l as [|a l IH]; intros H; simpl; [done|].
  rewrite (H a) by set_solver. rewrite IH; [done|]. set_solver.
Qed.

Lemma existsb_Permutation {A} (f : A -> bool) l1 l2 :
  l1 ≡ₚ l2 -> existsb f l1 = existsb f l2.
Proof.
  intros HP. apply eq_true_iff_eq. rewrite !existsb_In.
  split; intros (x & Hx & Hf); exists x; split; auto; [by rewrite <- HP | by rewrite HP].
Qed.

Lemma find_existsb {A} (f : A -> bool) l :
  (exists x, List.find f l = Some x) <-> existsb f l = true.
Proof.
  induction l as [|a l IH]; simpl; [naive_solver|].
  destruct (f a); naive_solver.
Qed.

(** [p != nil]. *)
Definition is_set {A} (o : option A) : bool := match o with Some _ => true | None => false end.

(** Membership test on string slices, [slices.Contains]-style loops. *)
Fixpoint str_mem (x : string) (l : list string) : bool :=
  match l with
  | [] => false
  | y :: l' => if String.eqb y x then true else str_mem x l'
  end.

Lemma str_mem_spec x l : str_mem x l = true <-> x ∈ l.
Proof.
  induction l as [|y l IH]; simpl; [set_solver|].
  destruct (String.eqb_spec y x); set_solver.
Qed.

Lemma str_mem_false x l : str_mem x l = false <-> x ∉ l.
Proof. rewrite <- str_mem_spec. destruct (str_mem x l); naive_solver. Qed.

#[export] Hint Resolve str_mem_spec : holo.
