(* ===== verification/GoStrings.v ===== *)
(** The part of Go's [strings] and [strconv] packages the modelled code calls.

    A Go string is a sequence of bytes; [Stdlib]'s [string] is a list of 8-bit
    [ascii] values, so the two coincide and [len] is [String.length].  Every
    function below works on bytes; the functions of Go that decode UTF-8
    ([TrimSpace]) match the byte encodings of the Unicode white-space runes.
    [FormatUint], [ParseUint] and [ParseInt] are in base 10. *)

From S2P Require Import Prelude.
From Stdlib Require Import DecimalString DecimalN DecimalFacts.

Open Scope string_scope.
Open Scope list_scope.

(** [strings.HasPrefix(s, p)]. *)
Definition HasPrefix (s p : string) : bool := String.prefix p s.

(** [s[n:]] for [n <= len(s)]. *)
Fixpoint str_drop (n : nat) (s : string) : string :=
  match n, s with
  | 0, _ => s
  | S _, EmptyString => EmptyString
  | S n', String _ s' => str_drop n' s'
  end.

Fixpoint str_take (n : nat) (s : string) : string :=
  match n, s with
  | 0, _ => EmptyString
  | S _, EmptyString => EmptyString
  | S n', String c s' => String c (str_take n' s')
  end.

(** [strings.TrimPrefix(s, p)]. *)
Definition TrimPrefix (s p : string) : string :=
  if HasPrefix s p then str_drop (String.length p) s else s.

(** [strings.TrimSuffix(s, suf)]. *)
Definition TrimSuffix (s suf : string) : string :=
  let n := String.length s - String.length suf in
  if (String.length suf <=? String.length s)%nat && String.eqb (str_drop n s) suf
  then str_take n s else s.

(** The first occurrence of a byte: what precedes it and what follows it. *)
Fixpoint cut (c : ascii) (s : string) : option (string * string) :=
  match s with
  | EmptyString => None
  | String a s' =>
    if Ascii.eqb a c then Some (EmptyString, s')
    else match cut c s' with
         | Some (x, y) => Some (String a x, y)
         | None => None
         end
  end.

(** [strings.SplitN(s, c, 2)] for a one-byte separator. *)
Definition SplitN2 (c : ascii) (s : string) : list string :=
  match cut c s with
  | Some (a, b) => [a; b]
  | None => [s]
  end.

(** [strings.Join(parts, sep)]. *)
Fixpoint Join (parts : list string) (sep : string) : string :=
  match parts with
  | [] => EmptyString
  | [p] => p
  | p :: rest => p +:+ sep +:+ Join rest sep
  end.

(** [strings.Contains(s, sub)]. *)
Fixpoint Contains (s sub : string) : bool :=
  String.prefix sub s ||
  match s with
  | EmptyString => false
  | String _ s' => Contains s' sub
  end.

(** Number of bytes satisfying a predicate. *)
Fixpoint count_bytes (p : ascii -> bool) (s : string) : nat :=
  match s with
  | EmptyString => 0
  | String c s' => (if p c then 1 else 0) + count_bytes p s'
  end.

(** Byte classes. *)
Definition code (c : ascii) : N := N_of_ascii c.

Definition is_blank (c : ascii) : bool := (* the cutset of space and tab *)
  (code c =? 32)%N || (code c =? 9)%N.

(** [strings.TrimLeft(s, cutset)] with the cutset of space and tab. *)
Fixpoint TrimLeftBlank (s : string) : string :=
  match s with
  | EmptyString => EmptyString
  | String c s' => if is_blank c then TrimLeftBlank s' else s
  end.

(** Splits at the first byte satisfying [p]: [strings.IndexAny] followed by the
    slices [s[:idx]] and [s[idx+1:]]; [None] is index -1. *)
Fixpoint cut_any (p : ascii -> bool) (s : string) : option (string * string) :=
  match s with
  | EmptyString => None
  | String a s' =>
    if p a then Some (EmptyString, s')
    else match cut_any p s' with
         | Some (x, y) => Some (String a x, y)
         | None => None
         end
  end.

(** ** [strings.TrimSpace] *)

Definition space1 (a : ascii) : bool :=
  ((9 <=? code a) && (code a <=? 13))%N || (code a =? 32)%N.

(** U+0085 and U+00A0. *)
Definition space2 (a b : ascii) : bool :=
  ((code a =? 194) && ((code b =? 133) || (code b =? 160)))%N.

(** U+1680, U+2000..U+200A, U+2028, U+2029, U+202F, U+205F, U+3000. *)
Definition space3 (a b c : ascii) : bool :=
  ((code a =? 225) && (code b =? 154) && (code c =? 128)
   || (code a =? 226) && (code b =? 128) &&
        ((128 <=? code c) && (code c <=? 138)
         || (code c =? 168) || (code c =? 169) || (code c =? 175))
   || (code a =? 226) && (code b =? 129) && (code c =? 159)
   || (code a =? 227) && (code b =? 128) && (code c =? 128))%N.

Fixpoint TrimLeftSpace (s : string) : string :=
  match s with
  | EmptyString => EmptyString
  | String a s1 =>
    if space1 a then TrimLeftSpace s1 else
    match s1 with
    | EmptyString => s
    | String b s2 =>
      if space2 a b then TrimLeftSpace s2 else
      match s2 with
      | EmptyString => s
      | String c s3 => if space3 a b c then TrimLeftSpace s3 else s
      end
    end
  end.

(** The same on the reversed bytes, which trims the end of the string: the last
    rune of a string is a white-space rune exactly when its last bytes are one
    of the encodings above. *)
Fixpoint TrimLeftSpaceRev (s : string) : string :=
  match s with
  | EmptyString => EmptyString
  | String a s1 =>
    if space1 a then TrimLeftSpaceRev s1 else
    match s1 with
    | EmptyString => s
    | String b s2 =>
      if space2 b a then TrimLeftSpaceRev s2 else
      match s2 with
      | EmptyString => s
      | String c s3 => if space3 c b a then TrimLeftSpaceRev s3 else s
      end
    end
  end.

Fixpoint str_rev_app (s acc : string) : string :=
  match s with
  | EmptyString => acc
  | String c s' => str_rev_app s' (String c acc)
  end.
Definition str_rev (s : string) : string := str_rev_app s EmptyString.

Definition TrimRightSpace (s : string) : string := str_rev (TrimLeftSpaceRev (str_rev s)).
Definition TrimSpace (s : string) : string := TrimRightSpace (TrimLeftSpace s).

Definition is_empty (s : string) : bool :=
  match s with EmptyString => true | String _ _ => false end.

(** ** Lemmas *)

Lemma is_empty_spec s : is_empty s = true <-> s = EmptyString.
Proof. destruct s; naive_solver. Qed.

Lemma is_empty_false s : is_empty s = false <-> s <> EmptyString.
Proof. destruct s; naive_solver. Qed.

Lemma app_cons_str c s t : String c s +:+ t = String c (s +:+ t).
Proof. done. Qed.

Lemma app_nil_r_str s : s +:+ EmptyString = s.
Proof. induction s as [|c s IH]; [done|]. by rewrite app_cons_str, IH. Qed.

Lemma app_assoc_str s t u : (s +:+ t) +:+ u = s +:+ (t +:+ u).
Proof. induction s as [|c s IH]; [done|]. by rewrite !app_cons_str, IH. Qed.

Lemma prefix_app p s : String.prefix p (p +:+ s) = true.
Proof.
  induction p as [|c p IH]; simpl; [by destruct s|].
  by destruct (ascii_dec c c).
Qed.

Lemma prefix_inv p s : String.prefix p s = true -> exists t, s = p +:+ t.
Proof.
  revert s. induction p as [|c p IH]; intros s H; [by exists s|].
  destruct s as [|a s]; simpl in H; [done|].
  destruct (ascii_dec c a); [|done]. subst.
  destruct (IH _ H) as [t ->]. by exists t.
Qed.

Lemma str_drop_app p s : str_drop (String.length p) (p +:+ s) = s.
Proof. by induction p; simpl. Qed.

Lemma TrimPrefix_app p s : TrimPrefix (p +:+ s) p = s.
Proof. unfold TrimPrefix, HasPrefix. by rewrite prefix_app, str_drop_app. Qed.

Fixpoint str_in (c : ascii) (s : string) : Prop :=
  match s with
  | EmptyString => False
  | String a s' => a = c \/ str_in c s'
  end.

Lemma cut_Some c s a b :
  cut c s = Some (a, b) <-> s = a +:+ String c b /\ ~ str_in c a.
Proof.
  revert a b. induction s as [|x s IH]; intros a b; simpl.
  - split; [done|]. intros [H _]. by destruct a.
  - destruct (Ascii.eqb_spec x c) as [->|Hne].
    + split.
      * intros [= <- <-]. split; [done|]. simpl. tauto.
      * intros [H Hn]. destruct a as [|y a]; [by injection H as ->|].
        rewrite app_cons_str in H. injection H as -> _. simpl in Hn. tauto.
    + destruct (cut c s) as [[u v]|] eqn:E.
      * destruct (proj1 (IH u v) eq_refl) as [-> Hn]. split.
        -- intros [= <- <-]. split; [done|]. simpl. naive_solver.
        -- intros [H Hn']. destruct a as [|y a]; [by injection H as -> _|].
           rewrite app_cons_str in H. injection H as -> H.
           assert (Some (u, v) = Some (a, b)) as [= -> ->]; [|done].
           apply IH. split; [done|]. simpl in Hn'. tauto.
      * split; [done|]. intros [H Hn]. destruct a as [|y a].
        -- by injection H as -> _.
        -- rewrite app_cons_str in H. injection H as -> H.
           assert (None = Some (a, b)); [|done]. apply IH. simpl in Hn. tauto.
Qed.

Lemma cut_None c s : cut c s = None <-> ~ str_in c s.
Proof.
  induction s as [|x s IH]; simpl; [tauto|].
  destruct (Ascii.eqb_spec x c); [naive_solver|].
  destruct (cut c s) as [[? ?]|]; naive_solver.
Qed.

Lemma cut_app c a b : ~ str_in c a -> cut c (a +:+ String c b) = Some (a, b).
Proof. intros H. by apply cut_Some. Qed.

Lemma cut_any_Some p s a b :
  cut_any p s = Some (a, b) ->
  exists c, s = a +:+ String c b /\ p c = true /\ count_bytes p a = 0.
Proof.
  revert a b. induction s as [|x s IH]; intros a b; simpl; [done|].
  destruct (p x) eqn:E.
  - intros [= <- <-]. by exists x.
  - destruct (cut_any p s) as [[u v]|] eqn:F; [|done]. intros [= <- <-].
    destruct (IH _ _ eq_refl) as (c & -> & Hc & Hn). exists c. simpl. by rewrite E.
Qed.

Lemma cut_any_None p s : cut_any p s = None <-> count_bytes p s = 0.
Proof.
  induction s as [|x s IH]; simpl; [done|].
  destruct (p x); [naive_solver lia|].
  destruct (cut_any p s) as [[? ?]|]; naive_solver lia.
Qed.

Lemma cut_any_lift p a c b :
  count_bytes p a = 0 -> p c = true -> cut_any p (a +:+ String c b) = Some (a, b).
Proof.
  induction a as [|x a IH]; intros Hn Hc; simpl in *; [by rewrite Hc|].
  destruct (p x); [lia|]. rewrite IH by (auto; lia). done.
Qed.

Lemma TrimLeftBlank_head s :
  match TrimLeftBlank s with
  | EmptyString => True
  | String c _ => is_blank c = false
  end.
Proof. induction s as [|c s IH]; simpl; [done|]. by destruct (is_blank c) eqn:E. Qed.

Lemma TrimLeftBlank_id s :
  (match s with EmptyString => True | String c _ => is_blank c = false end) ->
  TrimLeftBlank s = s.
Proof. destruct s; simpl; [done|]. by intros ->. Qed.

Lemma TrimLeftBlank_idem s : TrimLeftBlank (TrimLeftBlank s) = TrimLeftBlank s.
Proof. apply TrimLeftBlank_id, TrimLeftBlank_head. Qed.

Lemma Join_single p sep : Join [p] sep = p.
Proof. done. Qed.

Example TrimSpace_ex : TrimSpace "  say hi  " = "say hi".
Proof. reflexivity. Qed.


Lemma length_app_str s t : String.length (s +:+ t) = String.length s + String.length t.
Proof. induction s as [|c s IH]; [done|]. rewrite app_cons_str. simpl. by rewrite IH. Qed.

Lemma app_inj_r_str s1 s2 t : s1 +:+ t = s2 +:+ t -> s1 = s2.
Proof.
  revert s2. induction s1 as [|c s1 IH]; intros [|d s2] H; [done| | |].
  - apply (f_equal String.length) in H. rewrite !length_app_str in H. simpl in H. lia.
  - apply (f_equal String.length) in H. rewrite !length_app_str in H. simpl in H. lia.
  - rewrite !app_cons_str in H. injection H as -> H. f_equal. auto.
Qed.

Lemma app_inj_l_str s t1 t2 : s +:+ t1 = s +:+ t2 -> t1 = t2.
Proof. induction s as [|c s IH]; intros H; [done|]. rewrite !app_cons_str in H. injection H as H. auto. Qed.

(** ** [TrimSpace] keeps a stretch of its argument *)
Lemma str_rev_app_spec s acc : str_rev_app s acc = str_rev s +:+ acc.
Proof.
  unfold str_rev. revert acc. induction s as [|c s IH]; intros acc; [done|]. simpl.
  rewrite (IH (String c acc)), (IH (String c EmptyString)), app_assoc_str. done.
Qed.

Lemma str_rev_cons c s : str_rev (String c s) = str_rev s +:+ String c EmptyString.
Proof. apply (str_rev_app_spec s (String c EmptyString)). Qed.

Lemma str_rev_append s t : str_rev (s +:+ t) = str_rev t +:+ str_rev s.
Proof.
  induction s as [|c s IH]; [by rewrite app_nil_r_str|].
  rewrite app_cons_str, !str_rev_cons, IH. apply app_assoc_str.
Qed.

Lemma str_rev_involutive s : str_rev (str_rev s) = s.
Proof. induction s as [|c s IH]; [done|]. rewrite str_rev_cons, str_rev_append, IH. done. Qed.

Lemma TrimLeftSpace_head s :
  match TrimLeftSpace s with EmptyString => True | String a _ => space1 a = false end.
Proof.
  remember (String.length s) as n eqn:Hn. revert s Hn.
  induction (lt_wf n) as [n _ IH]. intros s ->. destruct s as [|a s1]; [done|]. simpl.
  destruct (space1 a) eqn:Ea; [apply (IH (String.length s1)); simpl; lia|].
  destruct s1 as [|b s2]; [done|]. destruct (space2 a b); [apply (IH (String.length s2)); simpl; lia|].
  destruct s2 as [|c s3]; [done|]. destruct (space3 a b c); [apply (IH (String.length s3)); simpl; lia|done].
Qed.

Lemma TrimLeftSpaceRev_suffix s : exists p, s = p +:+ TrimLeftSpaceRev s.
Proof.
  remember (String.length s) as n eqn:Hn. revert s Hn.
  induction (lt_wf n) as [n _ IH]. intros s ->. destruct s as [|a s1]; [by exists EmptyString|]. simpl.
  destruct (space1 a).
  { destruct (IH (String.length s1) ltac:(simpl; lia) s1 eq_refl) as [p Hp].
    exists (String a p). by rewrite app_cons_str, <- Hp. }
  destruct s1 as [|b s2]; [by exists EmptyString|]. destruct (space2 b a).
  { destruct (IH (String.length s2) ltac:(simpl; lia) s2 eq_refl) as [p Hp].
    exists (String a (String b p)). by rewrite !app_cons_str, <- Hp. }
  destruct s2 as [|c s3]; [by exists EmptyString|]. destruct (space3 c b a); [|by exists EmptyString].
  destruct (IH (String.length s3) ltac:(simpl; lia) s3 eq_refl) as [p Hp].
  exists (String a (String b (String c p))). by rewrite !app_cons_str, <- Hp.
Qed.

Lemma TrimRightSpace_prefix s : exists p, s = TrimRightSpace s +:+ p.
Proof.
  unfold TrimRightSpace. destruct (TrimLeftSpaceRev_suffix (str_rev s)) as [p Hp].
  exists (str_rev p). rewrite <- str_rev_append, <- Hp. by rewrite str_rev_involutive.
Qed.

(** A trimmed string does not start with a white-space byte. *)
Lemma TrimSpace_head s :
  match TrimSpace s with EmptyString => True | String a _ => space1 a = false end.
Proof.
  unfold TrimSpace. pose proof (TrimLeftSpace_head s) as H.
  destruct (TrimRightSpace_prefix (TrimLeftSpace s)) as [p Hp].
  destruct (TrimRightSpace (TrimLeftSpace s)) as [|a t]; [done|].
  rewrite Hp in H. done.
Qed.

Lemma blank_space1 c : is_blank c = true -> space1 c = true.
Proof.
  unfold is_blank, space1. rewrite !orb_true_iff, andb_true_iff, !N.leb_le, !N.eqb_eq.
  generalize (code c) as n. intros n. destruct (N.eqb_spec n 32); lia.
Qed.

(** ** The order of strings: bytes, lexicographically *)
Lemma str_compare_trans a b c :
  String.compare a b = Lt -> String.compare b c = Lt -> String.compare a c = Lt.
Proof.
  revert b c. induction a as [|x a IH]; intros [|y b] [|z c]; cbn; try done.
  unfold Ascii.compare.
  destruct (N.compare_spec (N_of_ascii x) (N_of_ascii y)) as [E1|E1|E1];
    destruct (N.compare_spec (N_of_ascii y) (N_of_ascii z)) as [E2|E2|E2];
    destruct (N.compare_spec (N_of_ascii x) (N_of_ascii z)) as [E3|E3|E3]; try done; try lia.
  apply IH.
Qed.

Lemma str_ltb_compare a b : String.ltb a b = true <-> String.compare a b = Lt.
Proof. unfold String.ltb. by destruct (String.compare a b). Qed.

Lemma str_ltb_trans a b c : String.ltb a b = true -> String.ltb b c = true -> String.ltb a c = true.
Proof. rewrite !str_ltb_compare. apply str_compare_trans. Qed.

Lemma str_compare_refl a : String.compare a a = Eq.
Proof. induction a as [|x a IH]; cbn; [done|]. unfold Ascii.compare. by rewrite N.compare_refl. Qed.

Lemma str_ltb_irrefl a : String.ltb a a = false.
Proof. unfold String.ltb. by rewrite str_compare_refl. Qed.

Lemma str_ltb_leb a b : String.ltb a b = negb (String.leb b a).
Proof.
  unfold String.ltb, String.leb. rewrite (String.compare_antisym b a). by destruct (String.compare a b).
Qed.

Lemma str_leb_ltb a b : String.leb a b = true <-> a = b \/ String.ltb a b = true.
Proof.
  rewrite str_ltb_compare. unfold String.leb. split.
  - destruct (String.compare a b) eqn:E; [|auto|done]. intros _. left. by apply String.compare_eq_iff.
  - intros [-> | ->]; [by rewrite str_compare_refl|done].
Qed.

Lemma str_leb_trans a b c : String.leb a b = true -> String.leb b c = true -> String.leb a c = true.
Proof. rewrite !str_leb_ltb. intros [-> |H1] [-> |H2]; auto. right. by eapply str_ltb_trans. Qed.

#[local] Open Scope Z_scope.

Definition digits_of (n : N) : string := NilZero.string_of_uint (N.to_uint n).

(** Digits only, at least one. *)
Definition value_of (s : string) : option N := N.of_uint <$> NilZero.uint_of_string s.

Definition FormatUint (z : Z) : string := digits_of (Z.to_N z).

Definition ParseUint (bits : Z) (s : string) : result Z :=
  match value_of s with
  | Some n => if Z.of_N n <? 2 ^ bits then Ok (Z.of_N n) else Err (ErrNew "strconv.ParseUint: value out of range")
  | None => Err (ErrNew "strconv.ParseUint: invalid syntax")
  end.

(** An optional sign. *)
Definition sign_of (s : string) : bool * string :=
  match s with
  | String c r => if Ascii.eqb c "-" then (true, r) else if Ascii.eqb c "+" then (false, r) else (false, s)
  | EmptyString => (false, s)
  end.

Definition ParseInt (bits : Z) (s : string) : result Z :=
  let '(neg, u) := sign_of s in
  match value_of u with
  | None => Err (ErrNew "strconv.ParseInt: invalid syntax")
  | Some n =>
      let z := if neg then - Z.of_N n else Z.of_N n in
      if (- 2 ^ (bits - 1) <=? z) && (z <? 2 ^ (bits - 1)) then Ok z
      else Err (ErrNew "strconv.ParseInt: value out of range")
  end.

(** ** Round trips *)
Lemma value_digits n : value_of (digits_of n) = Some n.
Proof.
  unfold value_of, digits_of. rewrite NilZero.usu; [cbn; by rewrite DecimalN.Unsigned.of_to|].
  intros Hn. assert (Hz : n = 0%N) by by rewrite <- (DecimalN.Unsigned.of_to n), Hn. by rewrite Hz in Hn.
Qed.

Lemma value_sign s n : value_of s = Some n -> sign_of s = (false, s).
Proof.
  destruct s as [|c s]; [done|]. unfold value_of, sign_of. intros H.
  destruct (Ascii.eqb_spec c "-") as [->|_]; [by cbn in H; destruct (NilEmpty.uint_of_string s)|].
  destruct (Ascii.eqb_spec c "+") as [->|_]; [by cbn in H; destruct (NilEmpty.uint_of_string s)|]. done.
Qed.

Lemma Parse_FormatUint bits z : 0 <= z < 2 ^ bits -> ParseUint bits (FormatUint z) = Ok z.
Proof.
  intros Hz. unfold ParseUint, FormatUint. rewrite value_digits, Z2N.id by lia.
  by rewrite (proj2 (Z.ltb_lt _ _)) by lia.
Qed.

Lemma ParseInt_FormatUint bits z : 0 <= z < 2 ^ (bits - 1) -> ParseInt bits (FormatUint z) = Ok z.
Proof.
  intros Hz. unfold ParseInt, FormatUint. rewrite (value_sign _ _ (value_digits _)), value_digits, Z2N.id by lia.
  by rewrite (proj2 (Z.leb_le _ _)), (proj2 (Z.ltb_lt _ _)) by lia.
Qed.

Lemma FormatUint_nonempty z : is_empty (FormatUint z) = false.
Proof.
  apply is_empty_false. intros H. pose proof (value_digits (Z.to_N z)) as Hv. unfold FormatUint in H. by rewrite H in Hv.
Qed.

Example strconv_examples :
  FormatUint 1042 = "1042" /\ ParseInt 64 "-7" = Ok (-7) /\ ParseInt 32 "+12" = Ok 12
  /\ ParseUint 32 "4294967295" = Ok 4294967295 /\ (exists e, ParseUint 32 "4294967296" = Err e)
  /\ (exists e, ParseInt 32 "12a" = Err e) /\ (exists e, ParseUint 63 "-1" = Err e).
Proof. vm_compute. repeat split; eauto. Qed.
