(* ===== verification/EntityRef.v ===== *)
(** Entity references: [internal/access/prefix.go] and [internal/access/access.go].

    Subjects and resources of access requests are strings ["<type>:<id>"] or the
    bare ["system"].  The constructors of prefix.go panic on an empty id; the
    parsers split a reference back into its type and id. *)

From S2P Require Import Prelude GoStrings.

Open Scope string_scope.
Open Scope list_scope.

(** Prefix constants. *)
Definition SubjectCharacter : string := "character:".
Definition SubjectPlugin : string := "plugin:".
Definition SubjectSystem : string := "system".
Definition SubjectSession : string := "session:".
Definition SubjectPlayer : string := "player:".

Definition ResourceCharacter : string := "character:".
Definition ResourceLocation : string := "location:".
Definition ResourceObject : string := "object:".
Definition ResourceCommand : string := "command:".
Definition ResourceProperty : string := "property:".
Definition ResourceStream : string := "stream:".
Definition ResourceExit : string := "exit:".
Definition ResourceScene : string := "scene:".
Definition ResourceKV : string := "kv:".
Definition ResourceCharacterDirectory : string := "character_directory:".

Definition knownPrefixes : list string :=
  [SubjectCharacter; SubjectPlugin; SubjectSession; SubjectPlayer;
   ResourceCharacter; ResourceLocation; ResourceObject; ResourceCommand;
   ResourceProperty; ResourceStream; ResourceExit; ResourceScene; ResourceKV;
   ResourceCharacterDirectory].

(** The eleven one-argument constructors share one body: panic on the empty
    id, otherwise concatenate. *)
Definition prefixed (panic_msg prefix id : string) : outcome string :=
  if is_empty id then Panic panic_msg else Return (prefix +:+ id).

Definition PluginSubject (name : string) : outcome string :=
  prefixed "access.PluginSubject: empty name would bypass access control" SubjectPlugin name.
Definition CharacterSubject (charID : string) : outcome string :=
  prefixed "access.CharacterSubject: empty charID would bypass access control" SubjectCharacter charID.
Definition PlayerSubject (playerID : string) : outcome string :=
  prefixed "access.PlayerSubject: empty playerID would bypass access control" SubjectPlayer playerID.
Definition CharacterResource (charID : string) : outcome string :=
  prefixed "access.CharacterResource: empty charID would create invalid resource reference" ResourceCharacter charID.
Definition LocationResource (locationID : string) : outcome string :=
  prefixed "access.LocationResource: empty locationID would create invalid resource reference" ResourceLocation locationID.
Definition ExitResource (exitID : string) : outcome string :=
  prefixed "access.ExitResource: empty exitID would create invalid resource reference" ResourceExit exitID.
Definition ObjectResource (objectID : string) : outcome string :=
  prefixed "access.ObjectResource: empty objectID would create invalid resource reference" ResourceObject objectID.
Definition SceneResource (sceneID : string) : outcome string :=
  prefixed "access.SceneResource: empty sceneID would create invalid resource reference" ResourceScene sceneID.
Definition CommandResource (commandName : string) : outcome string :=
  prefixed "access.CommandResource: empty commandName would create invalid resource reference" ResourceCommand commandName.
Definition PropertyResource (propPath : string) : outcome string :=
  prefixed "access.PropertyResource: empty propPath would create invalid resource reference" ResourceProperty propPath.
Definition StreamResource (streamID : string) : outcome string :=
  prefixed "access.StreamResource: empty streamID would create invalid resource reference" ResourceStream streamID.

Definition CharacterDirectoryResource : string := ResourceCharacterDirectory +:+ "all".

Definition KVResource (namespace key : string) : outcome string :=
  if is_empty namespace then Panic "access.KVResource: empty namespace would bypass access control"
  else if is_empty key then Panic "access.KVResource: empty key would bypass access control"
  else Return (ResourceKV +:+ namespace +:+ ":" +:+ key).

(** The prefix loop of [ParseEntityRef]. *)
Fixpoint parse_with_prefixes (prefixes : list string) (ref : string) : result (string * string) :=
  match prefixes with
  | [] => Err (ErrCode "INVALID_ENTITY_REF" "unknown entity reference prefix")
  | prefix :: rest =>
    if HasPrefix ref prefix then
      let typeName := TrimSuffix prefix ":" in
      let id := str_drop (String.length prefix) ref in
      if is_empty id then Err (ErrCode "INVALID_ENTITY_REF" "empty ID in entity reference")
      else Ok (typeName, id)
    else parse_with_prefixes rest ref
  end.

Definition ParseEntityRef (ref : string) : result (string * string) :=
  if is_empty ref then Err (ErrCode "INVALID_ENTITY_REF" "empty entity reference")
  else if String.eqb ref SubjectSystem then Ok ("system", EmptyString)
  else parse_with_prefixes knownPrefixes ref.

Definition ParseSubject (subject : string) : string * string :=
  if is_empty subject then (EmptyString, EmptyString)
  else if String.eqb subject "system" then ("system", EmptyString)
  else match SplitN2 ":" subject with
       | a :: b :: _ => (a, b)
       | _ => (EmptyString, subject)
       end.

(** [parseEntityType] of engine.go: the text before the first colon, empty when
    there is none. *)
Definition parseEntityType (id : string) : string :=
  match SplitN2 ":" id with
  | a :: _ :: _ => a
  | _ => EmptyString
  end.

(** ** Properties *)

Lemma prefixed_Return m p id r :
  prefixed m p id = Return r <-> r = p +:+ id /\ id <> EmptyString.
Proof. unfold prefixed. destruct id; simpl; naive_solver. Qed.

(** No prefix of the table hides another one: the first match is the only one. *)
Definition prefix_table_ok : bool :=
  forallb (fun p => forallb (fun q =>
    implb (String.prefix p q || String.prefix q p) (String.eqb p q)) knownPrefixes) knownPrefixes.

Lemma prefix_comparable p q s :
  String.prefix p s = true -> String.prefix q s = true ->
  String.prefix p q = true \/ String.prefix q p = true.
Proof.
  revert q s. induction p as [|c p IH]; intros q s Hp Hq; [left; by destruct q|].
  destruct q as [|d q]; [by right|].
  destruct s as [|a s]; [done|]. simpl in *.
  destruct (ascii_dec c a), (ascii_dec d a); try done. subst.
  destruct (ascii_dec a a); [|done]. by eapply IH.
Qed.

Lemma known_prefix_unique p q s :
  p ∈ knownPrefixes -> q ∈ knownPrefixes ->
  String.prefix p s = true -> String.prefix q s = true -> p = q.
Proof.
  intros Hp Hq Hps Hqs.
  assert (prefix_table_ok = true) as Hok by reflexivity.
  unfold prefix_table_ok in Hok. rewrite forallb_In in Hok.
  specialize (Hok p Hp). rewrite forallb_In in Hok. specialize (Hok q Hq).
  destruct (prefix_comparable p q s Hps Hqs) as [H|H]; rewrite H in Hok; simpl in Hok;
    rewrite ?orb_true_r in Hok; simpl in Hok; by apply String.eqb_eq in Hok.
Qed.

Lemma parse_with_prefixes_Ok ps ref t id :
  parse_with_prefixes ps ref = Ok (t, id) ->
  exists p, p ∈ ps /\ ref = p +:+ id /\ id <> EmptyString /\ t = TrimSuffix p ":".
Proof.
  induction ps as [|p ps IH]; simpl; [done|].
  destruct (HasPrefix ref p) eqn:E.
  - destruct (is_empty _) eqn:F; [done|]. intros [= <- <-].
    apply prefix_inv in E as [s ->]. rewrite str_drop_app in *.
    exists p. apply is_empty_false in F. set_solver.
  - intros H. destruct (IH H) as (q & ? & ?). exists q. set_solver.
Qed.

Lemma parse_with_prefixes_complete ps p id :
  (forall q, q ∈ ps -> String.prefix q (p +:+ id) = true -> q = p) ->
  p ∈ ps -> id <> EmptyString ->
  parse_with_prefixes ps (p +:+ id) = Ok (TrimSuffix p ":", id).
Proof.
  induction ps as [|q ps IH]; intros Huniq Hin Hne; [set_solver|]. simpl.
  unfold HasPrefix. destruct (String.prefix q (p +:+ id)) eqn:E.
  - rewrite (Huniq q) by (set_solver || done).
    rewrite str_drop_app. by destruct id.
  - apply IH; [set_solver| |done]. apply elem_of_cons in Hin as [->|]; [|done].
    by rewrite prefix_app in E.
Qed.

Lemma known_prefix_not_system p id : p ∈ knownPrefixes -> p +:+ id <> SubjectSystem.
Proof.
  intros Hp. unfold knownPrefixes in Hp.
  repeat (apply elem_of_cons in Hp as [->|Hp]; [discriminate|]). set_solver.
Qed.

Lemma known_prefix_nonempty p id : p ∈ knownPrefixes -> is_empty (p +:+ id) = false.
Proof.
  intros Hp. unfold knownPrefixes in Hp.
  repeat (apply elem_of_cons in Hp as [->|Hp]; [reflexivity|]). set_solver.
Qed.

Lemma ParseEntityRef_known p id :
  p ∈ knownPrefixes -> id <> EmptyString ->
  ParseEntityRef (p +:+ id) = Ok (TrimSuffix p ":", id).
Proof.
  intros Hp Hid. unfold ParseEntityRef. rewrite known_prefix_nonempty by done.
  destruct (String.eqb_spec (p +:+ id) SubjectSystem) as [H|_];
    [by apply known_prefix_not_system in H|].
  apply parse_with_prefixes_complete; [|done|done].
  intros q Hq Hpre. apply (known_prefix_unique q p (p +:+ id)); auto using prefix_app.
Qed.

(** ParseEntityRef accepts exactly "system" and the strings made of a known
    prefix followed by a non-empty id, and returns the type name of that prefix
    with that id; everything else (empty, unknown or legacy prefix, empty id) is
    an INVALID_ENTITY_REF error. *)
Theorem ParseEntityRef_spec ref t id :
  ParseEntityRef ref = Ok (t, id) <->
  (ref = SubjectSystem /\ t = "system" /\ id = EmptyString) \/
  (exists p, p ∈ knownPrefixes /\ ref = p +:+ id /\ id <> EmptyString /\ t = TrimSuffix p ":").
Proof.
  split.
  - unfold ParseEntityRef. destruct (is_empty ref); [done|].
    destruct (String.eqb_spec ref SubjectSystem) as [->|_]; [naive_solver|].
    intros H. right. by apply parse_with_prefixes_Ok.
  - intros [(-> & -> & ->)|(p & Hp & -> & Hid & ->)]; [reflexivity|].
    by apply ParseEntityRef_known.
Qed.

(** Every reference a constructor of prefix.go builds is parsed back into the
    type and id it was built from. *)
Theorem entity_ref_roundtrip (mk : string -> outcome string) p t id ref :
  In (mk, p, t)
    [(PluginSubject, SubjectPlugin, "plugin"); (CharacterSubject, SubjectCharacter, "character");
     (PlayerSubject, SubjectPlayer, "player"); (CharacterResource, ResourceCharacter, "character");
     (LocationResource, ResourceLocation, "location"); (ExitResource, ResourceExit, "exit");
     (ObjectResource, ResourceObject, "object"); (SceneResource, ResourceScene, "scene");
     (CommandResource, ResourceCommand, "command"); (PropertyResource, ResourceProperty, "property");
     (StreamResource, ResourceStream, "stream")] ->
  mk id = Return ref -> ParseEntityRef ref = Ok (t, id) /\ ParseSubject ref = (t, id).
Proof.
  intros Hin Hmk. simpl in Hin.
  assert (p ∈ knownPrefixes /\ TrimSuffix p ":" = t /\ p = t +:+ ":" /\ cut ":" t = None
          /\ ref = p +:+ id /\ id <> EmptyString) as (Hp & Ht & Hpt & Hc & -> & Hid).
  { repeat destruct Hin as [Hin|Hin]; try done;
      injection Hin as <- <- <-; apply prefixed_Return in Hmk as [-> Hid];
      (split; [set_solver|]); repeat split; done. }
  split; [by rewrite <- Ht; apply ParseEntityRef_known|].
  unfold ParseSubject. rewrite known_prefix_nonempty by done.
  destruct (String.eqb_spec (p +:+ id) "system") as [H|_];
    [by apply known_prefix_not_system in H|].
  unfold SplitN2. rewrite Hpt, app_assoc_str. change (":" +:+ id) with (String ":" id).
  rewrite cut_app; [done|]. by apply cut_None.
Qed.

Lemma entity_ref_roundtrip_witness :
  CharacterSubject "01ABC" = Return "character:01ABC" /\
  ParseEntityRef "character:01ABC" = Ok ("character", "01ABC") /\
  ParseSubject "character:01ABC" = ("character", "01ABC").
Proof.
  split; [reflexivity|].
  apply (entity_ref_roundtrip CharacterSubject SubjectCharacter "character" "01ABC");
    [simpl; tauto|reflexivity].
Defined.

Lemma parseEntityType_prefixed t id :
  cut ":" t = None -> parseEntityType (t +:+ String ":" id) = t.
Proof.
  intros H. unfold parseEntityType, SplitN2. rewrite cut_app; [done|]. by apply cut_None.
Qed.
