(* ===== verification/PolicyTypes.v ===== *)
(** The data of the ABAC engine: [internal/access/policy/types/types.go] and the
    grant lookup of [internal/access/grants.go]; and what the engine relies on from
    attribute resolution.

    The engine holds an [*attribute.Resolver] and calls two of its methods.  The
    class [AttributeResolution] states them over an abstract resolver state, and
    [ResolutionLaws] what they promise on the states satisfying [good]; the engine
    is proved against these, and AttrResolverFacts.v discharges them for the
    resolver of the code. *)

From S2P Require Import Prelude GoStrings EntityRef.
From Stdlib Require Import SpecFloat.

Open Scope string_scope.
Open Scope list_scope.

(** ** float64

    IEEE 754 binary64 as [Stdlib]'s executable [spec_float], with 53 bits of
    precision and maximal exponent 1024. *)
Abbreviation float64 := spec_float.
Definition prec64 : Z := 53.
Definition emax64 : Z := 1024.

(** [float64(n)] for a Go integer: round to nearest, ties to even. *)
Definition float64_of_int (n : Z) : float64 := binary_normalize prec64 emax64 n 0 false.

(** [float64(f)] for a [float32]: exact; only the representation is rescaled. *)
Definition float64_of_float32 (f : spec_float) : float64 :=
  match f with
  | S754_finite s m e => binary_normalize prec64 emax64 (cond_Zopp s (Zpos m)) e s
  | _ => f
  end.

(** ** Dynamically typed attribute values ([any] in a [map[string]any]) *)
Inductive int_kind : Type :=
| K_int | K_int8 | K_int16 | K_int32 | K_int64
| K_uint | K_uint8 | K_uint16 | K_uint32 | K_uint64.

Inductive any : Type :=
| ANil
| AString (s : string)
| ABool (b : bool)
| AFloat64 (f : float64)
| AFloat32 (f : spec_float)
| AInt (k : int_kind) (n : Z)
| AStrings (l : list string)          (* []string, not nil *)
| ANilStrings                         (* []string(nil) *)
| ASlice (l : list any)               (* []any *)
| AMap (m : list (string * any))      (* map[string]any *)
| AOther (tag : string).              (* any other Go type *)

(** ** Effects *)
Inductive Effect : Type :=
| EffectDefaultDeny
| EffectAllow
| EffectDeny
| EffectSystemBypass.

#[export] Instance Effect_eq_dec : EqDecision Effect.
Proof. solve_decision. Defined.

Definition Effect_String (e : Effect) : string :=
  match e with
  | EffectDefaultDeny => "default_deny"
  | EffectAllow => "allow"
  | EffectDeny => "deny"
  | EffectSystemBypass => "system_bypass"
  end.

(** [PolicyEffect] is a Go string type. *)
Definition PolicyEffectPermit : string := "permit".
Definition PolicyEffectForbid : string := "forbid".

Definition ParsePolicyEffect (s : string) : result string :=
  if String.eqb s "permit" then Ok PolicyEffectPermit
  else if String.eqb s "forbid" then Ok PolicyEffectForbid
  else Err (ErrNew "invalid policy effect").

Definition ToEffect (pe : string) : Effect :=
  if String.eqb pe PolicyEffectPermit then EffectAllow
  else if String.eqb pe PolicyEffectForbid then EffectDeny
  else EffectDefaultDeny.

(** ** Attribute bags

    A nil map and an empty map are told apart by no operation of the modelled
    code, so a bag is a [gmap]. *)
Record AttributeBags : Type := mkBags {
  Subject : gmap string any;
  Resource : gmap string any;
  Action : gmap string any;
  Environment : gmap string any
}.

Definition NewAttributeBags : AttributeBags := mkBags ∅ ∅ ∅ ∅.

(** ** Access requests *)
Record AccessRequest : Type := mkRequest {
  req_Subject : string;
  req_Action : string;
  req_Resource : string;
  req_Attributes : gmap string any
}.

Definition reservedActionKeys : list string := ["name"].
Definition IsReservedActionKey (key : string) : bool := str_mem key reservedActionKeys.

(** The range loop over the attribute keys. *)
Definition has_reserved_key (attrs : gmap string any) : bool :=
  existsb (fun kv => IsReservedActionKey kv.1) (map_to_list attrs).

(** Deep copy of the mutable attribute values; no copy is a nil slice. *)
Fixpoint cloneAttrValue (v : any) : any :=
  match v with
  | AStrings l => AStrings (map (fun s => s) l)
  | ANilStrings => AStrings []
  | ASlice l => ASlice (map cloneAttrValue l)
  | AMap m => AMap (map (fun kv => (kv.1, cloneAttrValue kv.2)) m)
  | _ => v
  end.

Definition NewAccessRequest (subject action resource : string) (attrs : gmap string any)
  : result AccessRequest :=
  if is_empty subject then Err (ErrNew "access request: subject must not be empty")
  else if is_empty action then Err (ErrNew "access request: action must not be empty")
  else if is_empty resource then Err (ErrNew "access request: resource must not be empty")
  else if has_reserved_key attrs
  then Err (ErrCode "ACCESS_REQUEST_RESERVED_ATTRIBUTE" "caller-supplied attribute key is server-reserved")
  else Ok (mkRequest subject action resource (cloneAttrValue <$> attrs)).

(** ** Decisions *)
Record PolicyMatch : Type := mkMatch {
  pm_PolicyID : string;
  pm_PolicyName : string;
  pm_Effect : Effect;
  pm_ConditionsMet : bool
}.

Record Decision : Type := mkDecision {
  d_allowed : bool;
  d_effect : Effect;
  d_reason : string;
  d_policyID : string;
  d_policies : list PolicyMatch;
  d_attributes : option AttributeBags
}.

(** The zero value [types.Decision{}]. *)
Definition zeroDecision : Decision :=
  mkDecision false EffectDefaultDeny EmptyString EmptyString [] None.

Definition grants (e : Effect) : bool :=
  bool_decide (e = EffectAllow) || bool_decide (e = EffectSystemBypass).

Definition NewDecision (effect : Effect) (reason policyID : string) : Decision :=
  mkDecision (grants effect) effect reason policyID [] None.

Definition IsAllowed (d : Decision) : bool := d_allowed d.

Definition SetPolicies (p : list PolicyMatch) (d : Decision) : Decision :=
  mkDecision (d_allowed d) (d_effect d) (d_reason d) (d_policyID d) p (d_attributes d).

Definition SetAttributes (a : AttributeBags) (d : Decision) : Decision :=
  mkDecision (d_allowed d) (d_effect d) (d_reason d) (d_policyID d) (d_policies d) (Some a).

Definition IsInfraFailure (d : Decision) : bool := HasPrefix (d_policyID d) "infra:".

(** [Decision.Validate]: the allowed flag agrees with the effect. *)
Definition Decision_Validate (d : Decision) : option error :=
  if eqb (d_allowed d) (grants (d_effect d)) then None
  else Some (ErrNew "decision invariant violated").

(** ** Attribute schema *)
Inductive AttrType : Type :=
| AttrTypeString | AttrTypeInt | AttrTypeFloat | AttrTypeBool | AttrTypeStringList.

Record NamespaceSchema : Type := mkNS { Attributes : gmap string AttrType }.
Record AttributeSchema : Type := mkSchema { namespaces : gmap string NamespaceSchema }.

Definition NewAttributeSchema : AttributeSchema := mkSchema ∅.
Definition schema_Register (s : AttributeSchema) (ns : string) (sch : NamespaceSchema) : AttributeSchema :=
  mkSchema (<[ns := sch]> (namespaces s)).
Definition HasNamespace (s : AttributeSchema) (ns : string) : bool :=
  match namespaces s !! ns with Some _ => true | None => false end.
Definition IsRegistered (s : AttributeSchema) (ns key : string) : bool :=
  match namespaces s !! ns with
  | None => false
  | Some sch => match Attributes sch !! key with Some _ => true | None => false end
  end.
Definition schema_Remove (s : AttributeSchema) (ns : string) : AttributeSchema :=
  mkSchema (delete ns (namespaces s)).

(** ** Request contexts

    What the modelled code reads of a [context.Context]: its error, the system
    marker of [access.WithSystemSubject] and the resolver's re-entrance mark. *)
Record context : Type := mkCtx {
  ctx_Err : option error;
  IsSystemContext : bool;
  in_resolution : bool
}.

(** ** Player grants (grants.go)

    [resolve] is the [SubjectResolver] argument; it returns nil bags as [None]. *)
Definition PlayerGrantsAttribute : string := "player.grants".

Definition HasPlayerGrant
  (resolve : string -> string -> option AttributeBags * option error)
  (playerID grant : string) : outcome (bool * option error) :=
  if is_empty playerID then Return (false, Some (ErrCode "PLAYER_ID_EMPTY" "playerID must be non-empty"))
  else if is_empty grant then Return (false, Some (ErrCode "GRANT_EMPTY" "grant must be non-empty"))
  else match PlayerSubject playerID with
  | Panic p => Panic p
  | Return subject =>
    let '(bags, err) := resolve subject EmptyString in
    Return match err with
    | Some e => (false, Some (ErrWrap EmptyString e))
    | None =>
      match bags with
      | None => (false, None)
      | Some b =>
        match Subject b !! PlayerGrantsAttribute with
        | Some (AStrings gs) => (str_mem grant gs, None)
        | _ => (false, None)
        end
      end
    end
  end.

(** ** Lemmas *)

(** Induction over [any] through its nested lists. *)
Fixpoint any_nested_ind (P : any -> Prop)
  (Hatom : forall v, (forall l, v <> ASlice l) -> (forall m, v <> AMap m) -> P v)
  (Hslice : forall l, Forall P l -> P (ASlice l))
  (Hmap : forall m, Forall (fun kv => P kv.2) m -> P (AMap m))
  (v : any) : P v :=
  match v with
  | ASlice l => Hslice l
      ((fix go (l : list any) : Forall P l :=
          match l with
          | [] => Forall_nil_2 _
          | x :: l' => Forall_cons_2 _ _ _ (any_nested_ind P Hatom Hslice Hmap x) (go l')
          end) l)
  | AMap m => Hmap m
      ((fix go (m : list (string * any)) : Forall (fun kv => P kv.2) m :=
          match m with
          | [] => Forall_nil_2 _
          | (k, x) :: m' => Forall_cons_2 _ (k, x) _ (any_nested_ind P Hatom Hslice Hmap x) (go m')
          end) m)
  | v => Hatom v ltac:(intros ? [=]) ltac:(intros ? [=])
  end.

(** A copy is itself, nil slices apart. *)
Lemma cloneAttrValue_idem v : cloneAttrValue (cloneAttrValue v) = cloneAttrValue v.
Proof.
  induction v as [v Hs Hm|l IH|m IH] using any_nested_ind.
  - destruct v; simpl; try done; [by rewrite !map_id|by destruct (Hs l)|by destruct (Hm m)].
  - simpl. f_equal. induction IH as [|x l Hx _ IHl]; simpl; congruence.
  - simpl. f_equal. induction IH as [|[k x] l Hx _ IHl]; [done|].
    simpl in Hx |- *. by rewrite Hx, IHl.
Qed.

Lemma has_reserved_key_false attrs :
  has_reserved_key attrs = false <-> attrs !! "name" = None.
Proof.
  unfold has_reserved_key. rewrite existsb_false. split.
  - intros H. destruct (attrs !! "name") as [v|] eqn:E; [|done].
    apply elem_of_map_to_list in E. by specialize (H _ E).
  - intros H [k v] Hin. apply elem_of_map_to_list in Hin. simpl.
    apply str_mem_false. intros Hk. apply list_elem_of_singleton in Hk as ->. congruence.
Qed.

(** NewAccessRequest succeeds exactly on non-empty subject, action and resource
    with no reserved key among the attributes, and then carries the arguments, the
    attributes copied. *)
Lemma NewAccessRequest_spec s a r attrs req :
  NewAccessRequest s a r attrs = Ok req <->
  s <> EmptyString /\ a <> EmptyString /\ r <> EmptyString /\ attrs !! "name" = None /\
  req = mkRequest s a r (cloneAttrValue <$> attrs).
Proof.
  unfold NewAccessRequest.
  pose proof (is_empty_spec s). pose proof (is_empty_spec a). pose proof (is_empty_spec r).
  pose proof (has_reserved_key_false attrs).
  destruct (is_empty s), (is_empty a), (is_empty r), (has_reserved_key attrs); naive_solver.
Qed.

Lemma NewDecision_valid e reason pid : Decision_Validate (NewDecision e reason pid) = None.
Proof. unfold Decision_Validate, NewDecision. simpl. by rewrite eqb_reflx. Qed.

Lemma NewDecision_allowed e reason pid :
  IsAllowed (NewDecision e reason pid) = true <-> e = EffectAllow \/ e = EffectSystemBypass.
Proof. destruct e; simpl; naive_solver. Qed.

Lemma SetPolicies_allowed p d : IsAllowed (SetPolicies p d) = IsAllowed d.
Proof. done. Qed.
Lemma SetAttributes_allowed a d : IsAllowed (SetAttributes a d) = IsAllowed d.
Proof. done. Qed.
Lemma SetPolicies_valid p d : Decision_Validate (SetPolicies p d) = Decision_Validate d.
Proof. done. Qed.
Lemma SetAttributes_valid a d : Decision_Validate (SetAttributes a d) = Decision_Validate d.
Proof. done. Qed.

#[export] Hint Resolve NewDecision_valid : holo.

(** HasPlayerGrant answers true exactly when the resolver succeeded with bags
    whose subject bag holds, under player.grants, a string list with the grant. *)
Lemma HasPlayerGrant_true resolve playerID grant err :
  HasPlayerGrant resolve playerID grant = Return (true, err) <->
  err = None /\ playerID <> EmptyString /\ grant <> EmptyString /\
  exists b gs, resolve (SubjectPlayer +:+ playerID) EmptyString = (Some b, None) /\
    Subject b !! PlayerGrantsAttribute = Some (AStrings gs) /\ grant ∈ gs.
Proof.
  unfold HasPlayerGrant, PlayerSubject, prefixed.
  destruct (is_empty playerID) eqn:E1.
  { apply is_empty_spec in E1. naive_solver. }
  apply is_empty_false in E1.
  destruct (is_empty grant) eqn:E2.
  { apply is_empty_spec in E2. naive_solver. }
  apply is_empty_false in E2. simpl.
  destruct (resolve _ _) as [bags [e|]]; [naive_solver|].
  destruct bags as [b|]; [|naive_solver].
  destruct (Subject b !! PlayerGrantsAttribute) as [v|] eqn:EG; [|naive_solver].
  destruct v; try naive_solver.
  split.
  - intros [= H1 <-]. repeat split; auto. exists b, l. by rewrite <- str_mem_spec.
  - intros (-> & _ & _ & b' & gs & [= <-] & HG & Hin).
    rewrite EG in HG. injection HG as ->. apply str_mem_spec in Hin. by rewrite Hin.
Qed.

Open Scope string_scope.
Open Scope list_scope.

Class AttributeResolution (R : Type) : Type := {
  res_Resolve : context -> AccessRequest -> R ->
    outcome ((option AttributeBags * option error) * R);
  res_ResolveSubjectAttributes : context -> string -> string -> R ->
    outcome ((option AttributeBags * option error) * R)
}.

Definition has_colon (ref : string) : bool :=
  match cut ":" ref with Some _ => true | None => false end.

Class ResolutionLaws (R : Type) {HR : AttributeResolution R} (good : R -> Prop) : Prop := {
  (* Outside a resolution, resolving does not panic. *)
  law_total : forall ctx req r, in_resolution ctx = false -> good r ->
    exists res, res_Resolve ctx req r = Return res /\ good res.2;
  law_subject_total : forall ctx subject action r, in_resolution ctx = false -> good r ->
    exists res, res_ResolveSubjectAttributes ctx subject action r = Return res /\ good res.2;
  (* A successful resolution has bags, whose action bag is the action's name. *)
  law_bags : forall ctx req r ob r', good r -> res_Resolve ctx req r = Return ((ob, None), r') ->
    exists b, ob = Some b /\ Action b = {["name" := AString (req_Action req)]};
  (* A resource reference without a colon is never resolved. *)
  law_resource_ref : forall ctx req r ob err r', good r ->
    res_Resolve ctx req r = Return ((ob, err), r') ->
    req_Resource req <> EmptyString -> has_colon (req_Resource req) = false -> err <> None;
  (* Pre-flight resolution leaves the resource bag empty and agrees with the
     full one on the subject and the action. *)
  law_preflight : forall ctx req r b r1 ob err r2, good r ->
    res_Resolve ctx req r = Return ((Some b, None), r1) -> req_Subject req <> EmptyString ->
    res_ResolveSubjectAttributes ctx (req_Subject req) (req_Action req) r = Return ((ob, err), r2) ->
    exists b', ob = Some b' /\ Subject b' = Subject b /\ Action b' = Action b /\ Resource b' = ∅
}.
