(* ===== verification/PolicyAST.v ===== *)
(** The policy DSL: its syntax tree ([dsl/ast.go]), the checks after parsing
    ([dsl/parser.go]) and the static analyses over conditions ([dsl/refs.go],
    [dsl/extract.go], [dsl/validate.go]).

    The Go structs [Condition], [Expr] and [Literal] hold one pointer per
    alternative, of which the grammar sets exactly one: they are tagged unions
    and become inductive types, with a constructor for the value no field of
    which is set ([CEmpty], [EEmpty], [LEmpty]).  Source positions, which no
    operation reads, are left out.  The text-to-tree step is participle's. *)

From S2P Require Import Prelude GoStrings PolicyTypes.

Open Scope string_scope.
Open Scope list_scope.

Inductive Literal : Type :=
| LStr (s : string)
| LNumber (f : float64)
| LBool (b : string)
| LEmpty.

Record AttrRef : Type := mkAttrRef { ar_Root : string; ar_Path : list string }.

Inductive Expr : Type :=
| EAttrRef (a : AttrRef)
| ELiteral (l : Literal)
| EEmpty.

Record HasCondition : Type := mkHas { has_Root : string; has_Path : list string }.
Record ContainsCondition : Type := mkContains {
  cc_Root : string; cc_Path : list string; cc_Op : string; cc_List : list Literal }.
Record LikeCondition : Type := mkLike { lk_Left : Expr; lk_Pattern : string }.
Record InListCondition : Type := mkInList { il_Left : Expr; il_List : list Literal }.
Record InExprCondition : Type := mkInExpr { ie_Left : Expr; ie_Right : Expr }.
Record Comparison : Type := mkComparison {
  cmp_Left : Expr; cmp_Comparator : string; cmp_Right : Expr }.

(** A block is a disjunction of conjunctions: the outer list is
    [ConditionBlock.Disjunctions], an inner one [Conjunction.Conditions]. *)
Inductive Condition : Type :=
| CNegation (c : Condition)
| CParenthesized (cb : list (list Condition))
| CIfThenElse (i t e : Condition)
| CHas (h : HasCondition)
| CContains (c : ContainsCondition)
| CLike (l : LikeCondition)
| CInList (l : InListCondition)
| CInExpr (i : InExprCondition)
| CComparison (c : Comparison)
| CBoolLiteral (b : string)
| CEmpty.

Abbreviation Conjunction := (list Condition).
Abbreviation ConditionBlock := (list (list Condition)).

Record PrincipalClause : Type := mkPrincipal { pc_Type : string }.
Record ActionClause : Type := mkAction { ac_Actions : list string }.
Record ResourceClause : Type := mkResource { rc_Type : string; rc_Equality : string }.
Record Target : Type := mkTarget {
  t_Principal : PrincipalClause; t_Action : ActionClause; t_Resource : ResourceClause }.
Record Policy : Type := mkPolicy {
  p_Effect : string; p_Target : Target; p_Conditions : option ConditionBlock }.

Definition IsBoolTrue (c : Condition) : bool :=
  match c with CBoolLiteral b => String.eqb b "true" | _ => false end.
Definition IsBoolFalse (c : Condition) : bool :=
  match c with CBoolLiteral b => String.eqb b "false" | _ => false end.

Definition reservedWords : list string :=
  ["permit"; "forbid"; "when"; "principal"; "resource"; "action"; "env";
   "is"; "in"; "has"; "like"; "true"; "false"; "if"; "then"; "else";
   "containsAll"; "containsAny"].
Definition IsReservedWord (word : string) : bool := str_mem word reservedWords.

(** ** Post-parse validation (parser.go) *)
Definition MaxNestingDepth : Z := 32.

(** A loop that returns the first error its body reports. *)
Fixpoint first_err {A} (f : A -> option error) (l : list A) : option error :=
  match l with
  | [] => None
  | x :: l' => match f x with Some e => Some e | None => first_err f l' end
  end.

Definition validateAttrPaths (path : list string) : option error :=
  first_err (fun seg => if IsReservedWord seg
                        then Some (ErrNew "reserved word cannot be used as an attribute name")
                        else None) path.
Definition validateHasPaths (path : list string) : option error := validateAttrPaths path.

Definition validateExpr (e : Expr) : option error :=
  match e with EAttrRef a => validateAttrPaths (ar_Path a) | _ => None end.
Definition validateExprs (es : list Expr) : option error := first_err validateExpr es.

(** [validateConditionBlock], with the validator of one condition as argument. *)
Definition validateConditionBlock_with (vc : Condition -> Z -> option error)
  (cb : ConditionBlock) (depth : Z) : option error :=
  if (depth >? MaxNestingDepth)%Z then Some (ErrNew "nesting depth exceeds maximum")
  else first_err (fun cj => first_err (fun c => vc c depth) cj) cb.

Fixpoint validateCondition (c : Condition) (depth : Z) : option error :=
  match c with
  | CNegation c' => validateCondition c' (depth + 1)
  | CParenthesized cb => validateConditionBlock_with validateCondition cb (depth + 1)
  | CIfThenElse i t e =>
    match validateCondition i (depth + 1) with
    | Some err => Some err
    | None => match validateCondition t (depth + 1) with
              | Some err => Some err
              | None => validateCondition e (depth + 1)
              end
    end
  | CHas h => validateHasPaths (has_Path h)
  | CComparison c => validateExprs [cmp_Left c; cmp_Right c]
  | CLike l => validateExpr (lk_Left l)
  | CInList l => validateExpr (il_Left l)
  | CInExpr i => validateExprs [ie_Left i; ie_Right i]
  | CContains c =>
    match cc_Path c with
    | [] => Some (ErrNew "contains condition requires at least one attribute path segment")
    | _ :: _ => validateHasPaths (cc_Path c)
    end
  | CBoolLiteral _ | CEmpty => None
  end.

Definition validateConditionBlock : ConditionBlock -> Z -> option error :=
  validateConditionBlock_with validateCondition.

Definition validatePolicy (p : Policy) : option error :=
  match p_Conditions p with
  | None => None
  | Some cb => validateConditionBlock cb 0
  end.

(** [dsl.Parse], with participle's [ParseString] as argument. *)
Definition Parse (parse_string : string -> result Policy) (dslText : string) : result Policy :=
  match parse_string dslText with
  | Err e => Err (ErrWrap "parsing DSL policy" e)
  | Ok policy => match validatePolicy policy with
                 | Some e => Err e
                 | None => Ok policy
                 end
  end.

(** ** References to resource attributes (refs.go) *)
Definition exprRefsResource (e : Expr) : bool :=
  match e with EAttrRef a => String.eqb (ar_Root a) "resource" | _ => false end.

Fixpoint conditionRefsResource (c : Condition) : bool :=
  match c with
  | CNegation c' => conditionRefsResource c'
  | CParenthesized cb => existsb (fun cj => existsb conditionRefsResource cj) cb
  | CIfThenElse i t e =>
    conditionRefsResource i || conditionRefsResource t || conditionRefsResource e
  | CHas h => String.eqb (has_Root h) "resource"
  | CContains c => String.eqb (cc_Root c) "resource"
  | CLike l => exprRefsResource (lk_Left l)
  | CInList l => exprRefsResource (il_Left l)
  | CInExpr i => exprRefsResource (ie_Left i) || exprRefsResource (ie_Right i)
  | CComparison c => exprRefsResource (cmp_Left c) || exprRefsResource (cmp_Right c)
  | CBoolLiteral _ | CEmpty => false
  end.

Definition ReferencesResourceAttrs (block : option ConditionBlock) : bool :=
  match block with
  | None => false
  | Some cb => existsb (fun cj => existsb conditionRefsResource cj) cb
  end.

(** ** Command names named by a condition block (extract.go) *)
Definition isCommandNameRef (e : Expr) : bool :=
  match e with
  | EAttrRef a =>
    String.eqb (ar_Root a) "resource" &&
    match ar_Path a with
    | [p0; p1] => String.eqb p0 "command" && String.eqb p1 "name"
    | _ => false
    end
  | _ => false
  end.

Definition extractFromComparison (cmp : Comparison) (acc : list string) : list string :=
  match isCommandNameRef (cmp_Left cmp), cmp_Right cmp with
  | true, ELiteral (LStr s) => acc ++ [s]
  | _, _ =>
    match isCommandNameRef (cmp_Right cmp), cmp_Left cmp with
    | true, ELiteral (LStr s) => acc ++ [s]
    | _, _ => acc
    end
  end.

Fixpoint literal_strings (l : list Literal) : list string :=
  match l with
  | [] => []
  | LStr s :: l' => s :: literal_strings l'
  | _ :: l' => literal_strings l'
  end.

Definition extractFromInList (il : InListCondition) (acc : list string) : list string :=
  if isCommandNameRef (il_Left il) then acc ++ literal_strings (il_List il) else acc.

Definition extractFromCondition (c : Condition) (acc : list string) : list string :=
  match c with
  | CNegation _ | CParenthesized _ | CIfThenElse _ _ _ => acc
  | CComparison cmp => extractFromComparison cmp acc
  | CInList il => extractFromInList il acc
  | _ => acc
  end.

(** A nil result and an empty one are both the empty list. *)
Definition ExtractCommandNames (block : option ConditionBlock) : list string :=
  match block with
  | None => []
  | Some cb => fold_left (fun acc cj =>
                 fold_left (fun acc c => extractFromCondition c acc) cj acc) cb []
  end.

(** ** Principal scope of plugin policies (validate.go)

    The pair [(ok, foreignName)] is [None] for [(true, "")] and [Some name] for
    [(false, name)]. *)
Definition isPrincipalNameRef (e : Expr) : bool :=
  match e with
  | EAttrRef a =>
    String.eqb (ar_Root a) "principal" &&
    (2 <=? length (ar_Path a))%nat &&
    match last (ar_Path a) with Some p => String.eqb p "name" | None => false end
  | _ => false
  end.

Definition checkComparison (cmp : Comparison) (expected : string) : option string :=
  let left_ref :=
    match isPrincipalNameRef (cmp_Left cmp), cmp_Right cmp with
    | true, ELiteral (LStr name) => if String.eqb name expected then None else Some name
    | _, _ => None
    end in
  match left_ref with
  | Some n => Some n
  | None =>
    match isPrincipalNameRef (cmp_Right cmp), cmp_Left cmp with
    | true, ELiteral (LStr name) => if String.eqb name expected then None else Some name
    | _, _ => None
    end
  end.

Definition checkLike (lc : LikeCondition) (expected : string) : option string :=
  if isPrincipalNameRef (lk_Left lc) then
    if HasPrefix (lk_Pattern lc) expected then None else Some (lk_Pattern lc)
  else None.

Fixpoint first_some {A B} (f : A -> option B) (l : list A) : option B :=
  match l with
  | [] => None
  | x :: l' => match f x with Some e => Some e | None => first_some f l' end
  end.

Fixpoint walkCondition (cond : Condition) (expected : string) : option string :=
  match cond with
  | CNegation c => walkCondition c expected
  | CParenthesized cb =>
    first_some (fun cj => first_some (fun c => walkCondition c expected) cj) cb
  | CIfThenElse i t e =>
    match walkCondition i expected with
    | Some n => Some n
    | None => match walkCondition t expected with
              | Some n => Some n
              | None => walkCondition e expected
              end
    end
  | CComparison cmp => checkComparison cmp expected
  | CLike l => checkLike l expected
  | _ => None
  end.

Definition walkConjunction (cj : Conjunction) (expected : string) : option string :=
  first_some (fun c => walkCondition c expected) cj.
Definition walkConditionBlock (cb : ConditionBlock) (expected : string) : option string :=
  first_some (fun cj => walkConjunction cj expected) cb.
Definition ValidatePrincipalScope (p : Policy) (expectedName : string) : option string :=
  match p_Conditions p with
  | None => None
  | Some cb => walkConditionBlock cb expectedName
  end.

(** ** Induction over conditions *)
Section nested_induction.
  Variable P : Condition -> Prop.
  Hypothesis Hneg : forall c, P c -> P (CNegation c).
  Hypothesis Hpar : forall cb, Forall (Forall P) cb -> P (CParenthesized cb).
  Hypothesis Hite : forall i t e, P i -> P t -> P e -> P (CIfThenElse i t e).
  Hypothesis Hhas : forall h, P (CHas h).
  Hypothesis Hcon : forall c, P (CContains c).
  Hypothesis Hlike : forall l, P (CLike l).
  Hypothesis Hinl : forall l, P (CInList l).
  Hypothesis Hine : forall i, P (CInExpr i).
  Hypothesis Hcmp : forall c, P (CComparison c).
  Hypothesis Hlit : forall b, P (CBoolLiteral b).
  Hypothesis Hemp : P CEmpty.

Fixpoint Condition_nested_ind (c : Condition) : P c :=
  match c with
  | CNegation c' => Hneg c' (Condition_nested_ind c')
  | CParenthesized cb => Hpar cb
      ((fix go (cb : ConditionBlock) : Forall (Forall P) cb :=
          match cb with
          | [] => Forall_nil_2 _
          | cj :: cb' => Forall_cons_2 _ _ _
              ((fix go2 (cs : Conjunction) : Forall P cs :=
                  match cs with
                  | [] => Forall_nil_2 _
                  | x :: cs' => Forall_cons_2 _ _ _ (Condition_nested_ind x) (go2 cs')
                  end) cj) (go cb')
          end) cb)
  | CIfThenElse i t e =>
      Hite i t e (Condition_nested_ind i) (Condition_nested_ind t) (Condition_nested_ind e)
  | CHas h => Hhas h
  | CContains x => Hcon x
  | CLike l => Hlike l
  | CInList l => Hinl l
  | CInExpr i => Hine i
  | CComparison x => Hcmp x
  | CBoolLiteral b => Hlit b
  | CEmpty => Hemp
  end.
End nested_induction.

(** The nesting of a condition as the evaluator counts it: every negation,
    parenthesis and branch is one level. *)
Definition list_maxZ (l : list Z) : Z := fold_right Z.max 0%Z l.

Fixpoint nesting (c : Condition) : Z :=
  match c with
  | CNegation c' => 1 + nesting c'
  | CParenthesized cb => 1 + list_maxZ (map (fun cj => list_maxZ (map nesting cj)) cb)
  | CIfThenElse i t e => 1 + Z.max (nesting i) (Z.max (nesting t) (nesting e))
  | _ => 0
  end%Z.

Definition block_nesting (cb : ConditionBlock) : Z :=
  list_maxZ (map (fun cj => list_maxZ (map nesting cj)) cb).

(** ** Lemmas *)
Lemma list_maxZ_nonneg l : (0 <= list_maxZ l)%Z.
Proof. induction l; simpl; lia. Qed.

Lemma list_maxZ_In x l : x ∈ l -> (x <= list_maxZ l)%Z.
Proof. induction l as [|a l IH]; intros H; [set_solver|]. apply elem_of_cons in H as [->|H]; simpl; [lia|]. apply IH in H. lia. Qed.

Lemma list_maxZ_map_In {A} (f : A -> Z) x l : x ∈ l -> (f x <= list_maxZ (map f l))%Z.
Proof. intros H. apply list_maxZ_In. apply list_elem_of_fmap. eauto. Qed.

Lemma nesting_nonneg c : (0 <= nesting c)%Z.
Proof.
  induction c using Condition_nested_ind; simpl; try lia.
  pose proof (list_maxZ_nonneg (map (fun cj => list_maxZ (map nesting cj)) cb)). lia.
Qed.

Lemma block_nesting_cond cb cj c :
  cj ∈ cb -> c ∈ cj -> (nesting c <= block_nesting cb)%Z.
Proof.
  intros H1 H2. pose proof (list_maxZ_map_In nesting c cj H2).
  pose proof (list_maxZ_map_In (fun cj => list_maxZ (map nesting cj)) cj cb H1).
  unfold block_nesting. simpl in *. lia.
Qed.

Lemma first_err_None {A} (f : A -> option error) l :
  first_err f l = None <-> forall x, x ∈ l -> f x = None.
Proof.
  induction l as [|a l IH]; simpl; [set_solver|].
  destruct (f a) eqn:E; split; intros H; try done.
  - by rewrite H in E by set_solver.
  - intros x Hx. apply elem_of_cons in Hx as [->|Hx]; [done|]. by apply IH.
  - apply IH. set_solver.
Qed.

Lemma first_some_None {A B} (f : A -> option B) l :
  first_some f l = None <-> forall x, x ∈ l -> f x = None.
Proof.
  induction l as [|a l IH]; simpl; [set_solver|].
  destruct (f a) eqn:E; split; intros H; try done.
  - by rewrite H in E by set_solver.
  - intros x Hx. apply elem_of_cons in Hx as [->|Hx]; [done|]. by apply IH.
  - apply IH. set_solver.
Qed.

(** [validateCondition] bounds the depth only where it meets a parenthesised
    block: what it accepts has every block of the tree within the limit. *)
Fixpoint blocks_within (limit depth : Z) (c : Condition) : bool :=
  match c with
  | CNegation c' => blocks_within limit (depth + 1) c'
  | CParenthesized cb =>
    (depth + 1 <=? limit)%Z && forallb (forallb (blocks_within limit (depth + 1))) cb
  | CIfThenElse i t e =>
    blocks_within limit (depth + 1) i && blocks_within limit (depth + 1) t
    && blocks_within limit (depth + 1) e
  | _ => true
  end.

Lemma validateCondition_blocks c depth :
  validateCondition c depth = None -> blocks_within MaxNestingDepth depth c = true.
Proof.
  revert depth. induction c using Condition_nested_ind; intros depth Hv; simpl in *; auto.
  - unfold validateConditionBlock_with in Hv.
    destruct (Z.gtb_spec (depth + 1) MaxNestingDepth); [done|].
    bool_prop; [lia|]. rewrite first_err_None in Hv.
    apply forallb_In. intros cj Hconj. apply forallb_In. intros c Hc.
    rewrite Forall_forall in H. specialize (H cj Hconj).
    rewrite Forall_forall in H. apply H; [done|].
    specialize (Hv cj Hconj). rewrite first_err_None in Hv. by apply Hv.
  - destruct (validateCondition c1 (depth + 1)) eqn:E1; [done|].
    destruct (validateCondition c2 (depth + 1)) eqn:E2; [done|].
    bool_prop; auto.
Qed.

(** The names [ExtractCommandNames] collects, without the accumulator. *)
Lemma extractFromCondition_acc c acc :
  extractFromCondition c acc = acc ++ extractFromCondition c [].
Proof.
  destruct c; simpl; rewrite ?app_nil_r; try done.
  - unfold extractFromInList. destruct (isCommandNameRef _); simpl; by rewrite ?app_nil_r.
  - unfold extractFromComparison.
    repeat case_match; simplify_eq; simpl; by rewrite ?app_nil_r.
Qed.

Lemma fold_extract_conj cj acc :
  fold_left (fun acc c => extractFromCondition c acc) cj acc =
  acc ++ concat (map (fun c => extractFromCondition c []) cj).
Proof.
  revert acc. induction cj as [|c cj IH]; intros acc; simpl; [by rewrite app_nil_r|].
  by rewrite IH, extractFromCondition_acc, app_assoc.
Qed.

Lemma fold_extract_block cb acc :
  fold_left (fun acc cj => fold_left (fun acc c => extractFromCondition c acc) cj acc) cb acc =
  acc ++ concat (map (fun cj => concat (map (fun c => extractFromCondition c []) cj)) cb).
Proof.
  revert acc. induction cb as [|cj cb IH]; intros acc; simpl; [by rewrite app_nil_r|].
  by rewrite IH, fold_extract_conj, app_assoc.
Qed.

Lemma ExtractCommandNames_concat cb :
  ExtractCommandNames (Some cb) =
  concat (map (fun cj => concat (map (fun c => extractFromCondition c []) cj)) cb).
Proof. apply (fold_extract_block cb []). Qed.

Lemma ExtractCommandNames_In cb cj c s :
  cj ∈ cb -> c ∈ cj -> s ∈ extractFromCondition c [] -> s ∈ ExtractCommandNames (Some cb).
Proof.
  intros H1 H2 H3. rewrite ExtractCommandNames_concat.
  apply list_elem_of_In, in_concat. eexists. split.
  - apply in_map_iff. exists cj. split; [reflexivity|]. by apply list_elem_of_In.
  - apply in_concat. eexists. split; [|by apply list_elem_of_In].
    apply in_map_iff. exists c. split; [reflexivity|]. by apply list_elem_of_In.
Qed.
