(* ===== verification/PolicyEval.v ===== *)
(** Evaluation of policy conditions: [dsl/evaluator.go].

    The evaluator walks the tree with a nesting counter and a sticky
    [depthExceeded] flag in its context; the flag is threaded as an argument
    and a result.  [glob_compile] stands for gobwas/glob's
    [glob.Compile(pattern, ':')]; a compiled glob is its [Match] method. *)

From S2P Require Import Prelude GoStrings PolicyTypes PolicyAST.
From Stdlib Require Import SpecFloat.

Open Scope string_scope.
Open Scope list_scope.

Definition Glob : Type := string -> bool.

Record EvalContext : Type := mkEval {
  ec_Bags : option AttributeBags;
  ec_MaxDepth : Z;
  ec_GlobCache : gmap string Glob
}.

Definition effectiveMaxDepth (ec : EvalContext) : Z :=
  if (ec_MaxDepth ec <=? 0)%Z then MaxNestingDepth else ec_MaxDepth ec.

(** ** Value resolution *)
Definition getBag (ctx : EvalContext) (root : string) : gmap string any :=
  match ec_Bags ctx with
  | None => ∅
  | Some b =>
    if String.eqb root "principal" then Subject b
    else if String.eqb root "resource" then Resource b
    else if String.eqb root "action" then Action b
    else if String.eqb root "env" then Environment b
    else ∅
  end.

Definition resolveLiteral (l : Literal) : any :=
  match l with
  | LStr s => AString s
  | LNumber n => AFloat64 n
  | LBool b => ABool (String.eqb b "true")
  | LEmpty => ANil
  end.

Definition resolveAttrRef (ctx : EvalContext) (ar : AttrRef) : option any :=
  getBag ctx (ar_Root ar) !! Join (ar_Path ar) ".".

Definition resolveExpr (ctx : EvalContext) (e : Expr) : option any :=
  match e with
  | EAttrRef a => resolveAttrRef ctx a
  | ELiteral l => match resolveLiteral l with ANil => None | v => Some v end
  | EEmpty => None
  end.

(** ** Coercions and comparisons *)
Definition toFloat64 (v : any) : option float64 :=
  match v with
  | AFloat64 f => Some f
  | AFloat32 f => Some (float64_of_float32 f)
  | AInt _ n => Some (float64_of_int n)
  | _ => None
  end.

Fixpoint all_strings (l : list any) : option (list string) :=
  match l with
  | [] => Some []
  | AString s :: l' => match all_strings l' with Some r => Some (s :: r) | None => None end
  | _ :: _ => None
  end.

(** [None] is a nil slice, which is what the caller looks for. *)
Definition toStringSlice (v : any) : option (list string) :=
  match v with
  | AStrings l => Some l
  | ASlice l => all_strings l
  | _ => None
  end.

Definition literalListToStrings (l : list Literal) : list string := literal_strings l.

Definition compareNumbers (l r : float64) (op : string) : bool :=
  if String.eqb op "==" then SFeqb l r
  else if String.eqb op "!=" then negb (SFeqb l r)
  else if String.eqb op ">" then SFltb r l
  else if String.eqb op ">=" then SFleb r l
  else if String.eqb op "<" then SFltb l r
  else if String.eqb op "<=" then SFleb l r
  else false.

Definition compareStrings (l r op : string) : bool :=
  if String.eqb op "==" then String.eqb l r
  else if String.eqb op "!=" then negb (String.eqb l r)
  else if String.eqb op ">" then String.ltb r l
  else if String.eqb op ">=" then String.leb r l
  else if String.eqb op "<" then String.ltb l r
  else if String.eqb op "<=" then String.leb l r
  else false.

Definition compareBools (l r : bool) (op : string) : bool :=
  if String.eqb op "==" then eqb l r
  else if String.eqb op "!=" then negb (eqb l r)
  else false.

Definition valuesEqual (a b : any) : bool :=
  match toFloat64 a, toFloat64 b with
  | Some x, Some y => SFeqb x y
  | _, _ =>
    match a, b with
    | AString x, AString y => String.eqb x y
    | ABool x, ABool y => eqb x y
    | _, _ => false
    end
  end.

Definition containsAll (haystack needles : list string) : bool :=
  forallb (fun n => str_mem n haystack) needles.
Definition containsAny (haystack needles : list string) : bool :=
  existsb (fun n => str_mem n haystack) needles.

(** ** Leaf operators *)
Definition evalComparison (ctx : EvalContext) (cmp : Comparison) : bool :=
  match resolveExpr ctx (cmp_Left cmp), resolveExpr ctx (cmp_Right cmp) with
  | Some lv, Some rv =>
    match toFloat64 lv, toFloat64 rv with
    | Some l, Some r => compareNumbers l r (cmp_Comparator cmp)
    | _, _ =>
      match lv, rv with
      | AString l, AString r => compareStrings l r (cmp_Comparator cmp)
      | ABool l, ABool r => compareBools l r (cmp_Comparator cmp)
      | _, _ => false
      end
    end
  | _, _ => false
  end.

Definition evalHas (ctx : EvalContext) (h : HasCondition) : bool :=
  match getBag ctx (has_Root h) !! Join (has_Path h) "." with
  | Some _ => true
  | None => false
  end.

Definition evalContains (ctx : EvalContext) (cc : ContainsCondition) : bool :=
  match getBag ctx (cc_Root cc) !! Join (cc_Path cc) "." with
  | None => false
  | Some v =>
    match toStringSlice v with
    | None => false
    | Some bagStrings =>
      let needles := literalListToStrings (cc_List cc) in
      if String.eqb (cc_Op cc) "containsAll" then containsAll bagStrings needles
      else if String.eqb (cc_Op cc) "containsAny" then containsAny bagStrings needles
      else false
    end
  end.

Definition maxGlobPatternLen : nat := 100.
Definition maxGlobWildcards : nat := 5.

(** A rune of the pattern is a star or a question mark exactly when a byte is. *)
Definition is_wildcard (c : ascii) : bool := Ascii.eqb c "*" || Ascii.eqb c "?".

Definition validateGlobPattern (pattern : string) : bool :=
  if (maxGlobPatternLen <? String.length pattern)%nat then false
  else if Contains pattern "[" || Contains pattern "{" || Contains pattern "**" then false
  else (count_bytes is_wildcard pattern <=? maxGlobWildcards)%nat.

Definition evalInList (ctx : EvalContext) (il : InListCondition) : bool :=
  match resolveExpr ctx (il_Left il) with
  | None => false
  | Some val =>
    existsb (fun lit => match resolveLiteral lit with
                        | ANil => false
                        | litVal => valuesEqual val litVal
                        end) (il_List il)
  end.

Definition evalInExpr (ctx : EvalContext) (ie : InExprCondition) : bool :=
  match resolveExpr ctx (ie_Left ie), resolveExpr ctx (ie_Right ie) with
  | Some leftVal, Some rightVal =>
    match rightVal with
    | AStrings s => match leftVal with AString x => str_mem x s | _ => false end
    | ASlice s => existsb (fun v => valuesEqual leftVal v) s
    | _ => false
    end
  | _, _ => false
  end.

Section evaluator.
  Variable glob_compile : string -> option Glob.

Definition evalLike (ctx : EvalContext) (lc : LikeCondition) : bool :=
  if validateGlobPattern (lk_Pattern lc) then
    match resolveExpr ctx (lk_Left lc) with
    | Some (AString str) =>
      match ec_GlobCache ctx !! lk_Pattern lc with
      | Some compiled => compiled str
      | None => match glob_compile (lk_Pattern lc) with
                | Some compiled => compiled str
                | None => false
                end
      end
    | _ => false
    end
  else false.

(** ** Boolean structure

    Results are pairs of the truth value and the depthExceeded flag. *)
Definition conj_loop (ev : Condition -> bool -> bool * bool) :=
  fix loop (cs : list Condition) (de : bool) : bool * bool :=
    match cs with
    | [] => (true, de)
    | c :: cs' => let '(r, de') := ev c de in
                  if r then loop cs' de' else (false, de')
    end.

Definition evalConjunction_with (ev : Condition -> bool -> bool * bool)
  (cj : Conjunction) (de : bool) : bool * bool :=
  if de then (false, de) else conj_loop ev cj de.

Definition disj_loop (ev : Condition -> bool -> bool * bool) :=
  fix loop (cb : list (list Condition)) (de : bool) : bool * bool :=
    match cb with
    | [] => (false, de)
    | cj :: cb' => let '(r, de') := evalConjunction_with ev cj de in
                   if r then (true, de') else loop cb' de'
    end.

Definition evalBlock_with (ev : Condition -> bool -> bool * bool)
  (cb : ConditionBlock) (de : bool) : bool * bool :=
  if de then (false, de)
  else match cb with
       | [] => (true, de)
       | _ :: _ => disj_loop ev cb de
       end.

Fixpoint evalCondition (ctx : EvalContext) (depth : Z) (c : Condition) (de : bool) : bool * bool :=
  if de then (false, de)
  else if (depth >? effectiveMaxDepth ctx)%Z then (false, true)
  else match c with
  | CNegation c' =>
    let '(result, de') := evalCondition ctx (depth + 1) c' de in
    if de' then (false, de') else (negb result, de')
  | CParenthesized cb => evalBlock_with (evalCondition ctx (depth + 1)) cb de
  | CIfThenElse i t e =>
    let '(ri, de1) := evalCondition ctx (depth + 1) i de in
    if ri then evalCondition ctx (depth + 1) t de1 else evalCondition ctx (depth + 1) e de1
  | CHas h => (evalHas ctx h, de)
  | CContains cc => (evalContains ctx cc, de)
  | CLike l => (evalLike ctx l, de)
  | CInList il => (evalInList ctx il, de)
  | CInExpr ie => (evalInExpr ctx ie, de)
  | CComparison cmp => (evalComparison ctx cmp, de)
  | CBoolLiteral _ => (IsBoolTrue c, de)
  | CEmpty => (false, de)
  end.

Definition evalConjunction (ctx : EvalContext) (depth : Z) : Conjunction -> bool -> bool * bool :=
  evalConjunction_with (evalCondition ctx depth).
Definition evalBlock (ctx : EvalContext) (depth : Z) : ConditionBlock -> bool -> bool * bool :=
  evalBlock_with (evalCondition ctx depth).

Definition EvaluateConditions (ctx : EvalContext) (cond : option ConditionBlock) : bool :=
  match cond with
  | None => true
  | Some cb => (evalBlock ctx 0 cb false).1
  end.

(** ** Reference semantics: the same conditions with no depth limit *)
Fixpoint holds (ctx : EvalContext) (c : Condition) : bool :=
  match c with
  | CNegation c' => negb (holds ctx c')
  | CParenthesized cb =>
    match cb with [] => true | _ :: _ => existsb (forallb (holds ctx)) cb end
  | CIfThenElse i t e => if holds ctx i then holds ctx t else holds ctx e
  | CHas h => evalHas ctx h
  | CContains cc => evalContains ctx cc
  | CLike l => evalLike ctx l
  | CInList il => evalInList ctx il
  | CInExpr ie => evalInExpr ctx ie
  | CComparison cmp => evalComparison ctx cmp
  | CBoolLiteral b => IsBoolTrue c
  | CEmpty => false
  end.

Definition holds_block (ctx : EvalContext) (cb : ConditionBlock) : bool :=
  match cb with [] => true | _ :: _ => existsb (forallb (holds ctx)) cb end.

Definition conditions_hold (ctx : EvalContext) (cond : option ConditionBlock) : bool :=
  match cond with None => true | Some cb => holds_block ctx cb end.

(** ** The evaluator against the reference semantics *)

(** A result agrees with the truth value [h]: it is false once the depth limit
    was hit, and [h] otherwise. *)
Definition agrees (p : bool * bool) (h : bool) : Prop :=
  (p.2 = true -> p.1 = false) /\ (p.2 = false -> p.1 = h).

Lemma evalCondition_flagged ctx depth c : evalCondition ctx depth c true = (false, true).
Proof. by destruct c. Qed.

Lemma conj_loop_agrees ev (h : Condition -> bool) cs :
  (forall c, ev c true = (false, true)) ->
  (forall c, c ∈ cs -> agrees (ev c false) (h c)) ->
  agrees (conj_loop ev cs false) (forallb h cs).
Proof.
  intros Hfl. induction cs as [|c cs IH]; intros Hc; [done|]. simpl.
  pose proof (Hc c ltac:(set_solver)) as [H1 H2].
  destruct (ev c false) as [r de] eqn:E. simpl in *. destruct r.
  - destruct de; [by specialize (H1 eq_refl)|].
    rewrite <- (H2 eq_refl). simpl. apply IH. set_solver.
  - split; simpl; [done|]. intros ->. by rewrite <- (H2 eq_refl).
Qed.

Lemma disj_loop_flagged ev cb : disj_loop ev cb true = (false, true).
Proof. by induction cb. Qed.

Lemma disj_loop_agrees ev (h : Condition -> bool) cb :
  (forall c, ev c true = (false, true)) ->
  (forall cj c, cj ∈ cb -> c ∈ cj -> agrees (ev c false) (h c)) ->
  agrees (disj_loop ev cb false) (existsb (forallb h) cb).
Proof.
  intros Hfl. induction cb as [|cj cb IH]; intros Hc; [done|].
  pose proof (conj_loop_agrees ev h cj Hfl) as [H1 H2].
  { intros c Hin. apply (Hc cj); set_solver. }
  simpl.
  destruct (conj_loop ev cj false) as [r de]. simpl in *. destruct r.
  - destruct de; [by specialize (H1 eq_refl)|]. rewrite <- (H2 eq_refl). done.
  - destruct de; [by rewrite disj_loop_flagged|].
    rewrite <- (H2 eq_refl). simpl. apply IH. set_solver.
Qed.

Lemma evalBlock_with_agrees ev (h : Condition -> bool) cb :
  (forall c, ev c true = (false, true)) ->
  (forall cj c, cj ∈ cb -> c ∈ cj -> agrees (ev c false) (h c)) ->
  agrees (evalBlock_with ev cb false)
         (match cb with [] => true | _ :: _ => existsb (forallb h) cb end).
Proof.
  intros Hfl Hc. unfold evalBlock_with. destruct cb; [done|].
  by apply disj_loop_agrees.
Qed.

Lemma evalCondition_agrees ctx c depth : agrees (evalCondition ctx depth c false) (holds ctx c).
Proof.
  revert depth. induction c using Condition_nested_ind; intros depth; simpl;
    destruct (Z.gtb_spec depth (effectiveMaxDepth ctx)); try done.
  - specialize (IHc (depth + 1)%Z) as [H1 H2].
    destruct (evalCondition ctx (depth + 1) c false) as [r de]. simpl in *.
    destruct de; [done|]. split; simpl; [done|]. intros _. by rewrite H2.
  - apply evalBlock_with_agrees; [apply evalCondition_flagged|].
    intros cj c Hcj Hin. rewrite Forall_forall in H. specialize (H cj Hcj).
    rewrite Forall_forall in H. by apply H.
  - specialize (IHc1 (depth + 1)%Z) as [H1 H2].
    destruct (evalCondition ctx (depth + 1) c1 false) as [r de]. simpl in *.
    destruct de.
    + rewrite (H1 eq_refl), evalCondition_flagged. done.
    + rewrite <- (H2 eq_refl). by destruct r.
Qed.

Lemma evalBlock_agrees ctx depth cb : agrees (evalBlock ctx depth cb false) (holds_block ctx cb).
Proof.
  apply evalBlock_with_agrees; [apply evalCondition_flagged|].
  intros. apply evalCondition_agrees.
Qed.

(** Within the limit the flag stays down. *)
Lemma conj_loop_unflagged ev cs :
  (forall c, c ∈ cs -> (ev c false).2 = false) -> (conj_loop ev cs false).2 = false.
Proof.
  induction cs as [|c cs IH]; intros Hc; [done|]. simpl.
  pose proof (Hc c ltac:(set_solver)) as H1.
  destruct (ev c false) as [r de]. simpl in *. subst de.
  destruct r; [|done]. apply IH. set_solver.
Qed.

Lemma evalBlock_with_unflagged ev cb :
  (forall cj c, cj ∈ cb -> c ∈ cj -> (ev c false).2 = false) ->
  (evalBlock_with ev cb false).2 = false.
Proof.
  intros Hc. unfold evalBlock_with. destruct cb as [|cj0 cb0]; [done|].
  revert Hc. generalize (cj0 :: cb0) as cb. clear cj0 cb0.
  induction cb as [|cj cb IH]; intros Hc; [done|]. simpl.
  assert ((conj_loop ev cj false).2 = false) as Hcj.
  { apply conj_loop_unflagged. intros c Hin. apply (Hc cj c); set_solver. }
  destruct (conj_loop ev cj false) as [r de]. simpl in *. subst de.
  destruct r; [done|]. apply IH. set_solver.
Qed.

Lemma evalCondition_unflagged ctx c depth :
  (depth + nesting c <= effectiveMaxDepth ctx)%Z ->
  (evalCondition ctx depth c false).2 = false.
Proof.
  revert depth. induction c using Condition_nested_ind; intros depth Hd; simpl in *;
    destruct (Z.gtb_spec depth (effectiveMaxDepth ctx)); try lia; try done.
  - pose proof (nesting_nonneg c). lia.
  - specialize (IHc (depth + 1)%Z ltac:(lia)).
    destruct (evalCondition ctx (depth + 1) c false) as [r de]. simpl in *. by subst de.
  - pose proof (list_maxZ_nonneg (map (fun cj => list_maxZ (map nesting cj)) cb)). lia.
  - apply evalBlock_with_unflagged. intros cj c Hcj Hin.
    rewrite Forall_forall in H. specialize (H cj Hcj). rewrite Forall_forall in H.
    apply H; [done|]. pose proof (block_nesting_cond cb cj c Hcj Hin).
    unfold block_nesting in *. lia.
  - pose proof (nesting_nonneg c1). pose proof (nesting_nonneg c2). lia.
  - specialize (IHc1 (depth + 1)%Z ltac:(lia)).
    destruct (evalCondition ctx (depth + 1) c1 false) as [r de]. simpl in *. subst de.
    destruct r; [apply IHc2; lia|apply IHc3; lia].
Qed.

(** What evaluates to true holds. *)
Lemma EvaluateConditions_holds ctx cond :
  EvaluateConditions ctx cond = true -> conditions_hold ctx cond = true.
Proof.
  destruct cond as [cb|]; [|done]. unfold EvaluateConditions, conditions_hold.
  pose proof (evalBlock_agrees ctx 0 cb) as [H1 H2]. intros Ht.
  destruct (evalBlock ctx 0 cb false) as [r de]. simpl in *.
  destruct de; [by rewrite H1 in Ht|]. by rewrite <- H2.
Qed.

(** The depth limit can only turn a condition false.  A block that evaluates
    to true holds in the unlimited reference semantics, and a block nested no
    deeper than the limit evaluates to exactly its reference value. *)
Theorem EvaluateConditions_correct ctx cond :
  (EvaluateConditions ctx cond = true -> conditions_hold ctx cond = true) /\
  (match cond with
   | None => True
   | Some cb => (block_nesting cb <= effectiveMaxDepth ctx)%Z
   end -> EvaluateConditions ctx cond = conditions_hold ctx cond).
Proof.
  split; [apply EvaluateConditions_holds|]. destruct cond as [cb|]; [|done].
  unfold EvaluateConditions, conditions_hold. intros Hd. apply (evalBlock_agrees ctx 0 cb).
  apply evalBlock_with_unflagged. intros cj c Hcj Hin.
  apply evalCondition_unflagged. pose proof (block_nesting_cond cb cj c Hcj Hin). lia.
Qed.

(** Independence of the resource bag: a condition that references no resource
    attribute has the same value whatever the resource bag holds. *)
Definition with_resource (r : gmap string any) (ctx : EvalContext) : EvalContext :=
  mkEval (match ec_Bags ctx with
          | None => None
          | Some b => Some (mkBags (Subject b) r (Action b) (Environment b))
          end) (ec_MaxDepth ctx) (ec_GlobCache ctx).

Lemma getBag_with_resource r ctx root :
  String.eqb root "resource" = false -> getBag (with_resource r ctx) root = getBag ctx root.
Proof. intros H. unfold getBag. simpl. destruct (ec_Bags ctx); [|done]. simpl. by rewrite H. Qed.

Lemma resolveExpr_with_resource r ctx e :
  exprRefsResource e = false -> resolveExpr (with_resource r ctx) e = resolveExpr ctx e.
Proof.
  destruct e as [a| |]; simpl; intros H; [|done|done].
  unfold resolveAttrRef. by rewrite getBag_with_resource.
Qed.

Lemma conj_loop_ext ev1 ev2 cs de :
  (forall c de, c ∈ cs -> ev1 c de = ev2 c de) -> conj_loop ev1 cs de = conj_loop ev2 cs de.
Proof.
  revert de. induction cs as [|c cs IH]; intros de H; [done|]. simpl.
  rewrite (H c de) by set_solver. destruct (ev2 c de) as [[] de']; [|done].
  apply IH. set_solver.
Qed.

Lemma evalBlock_with_ext ev1 ev2 cb de :
  (forall cj c de, cj ∈ cb -> c ∈ cj -> ev1 c de = ev2 c de) ->
  evalBlock_with ev1 cb de = evalBlock_with ev2 cb de.
Proof.
  intros H. unfold evalBlock_with. destruct de; [done|]. destruct cb as [|cj0 cb0]; [done|].
  revert H. generalize (cj0 :: cb0) as cb. generalize false as de. clear cj0 cb0.
  intros de cb. revert de.
  induction cb as [|cj cb IH]; intros de H; [done|]. simpl.
  assert (evalConjunction_with ev1 cj de = evalConjunction_with ev2 cj de) as ->.
  { unfold evalConjunction_with. destruct de; [done|]. apply conj_loop_ext.
    intros. apply (H cj); set_solver. }
  destruct (evalConjunction_with ev2 cj de) as [[] de']; [done|]. apply IH. set_solver.
Qed.

(** Two contexts that agree on the leaves of a condition agree on it. *)
Definition leaf_value (ctx : EvalContext) (c : Condition) : bool :=
  match c with
  | CNegation _ | CParenthesized _ | CIfThenElse _ _ _ => false
  | _ => holds ctx c
  end.

Fixpoint leaves (c : Condition) : list Condition :=
  match c with
  | CNegation c' => leaves c'
  | CParenthesized cb => concat (map (fun cj => concat (map leaves cj)) cb)
  | CIfThenElse i t e => leaves i ++ leaves t ++ leaves e
  | c => [c]
  end.

Lemma leaves_block cb cj c l :
  cj ∈ cb -> c ∈ cj -> l ∈ leaves c -> l ∈ leaves (CParenthesized cb).
Proof.
  intros H1 H2 H3. simpl. rewrite !list_elem_of_In in *. apply in_concat.
  exists (concat (map leaves cj)). split; [by apply (in_map (fun cj => concat (map leaves cj)))|].
  apply in_concat. exists (leaves c). split; [by apply in_map|done].
Qed.

Lemma evalCondition_leaves ctx1 ctx2 c depth de :
  effectiveMaxDepth ctx1 = effectiveMaxDepth ctx2 ->
  (forall l, l ∈ leaves c -> leaf_value ctx1 l = leaf_value ctx2 l) ->
  evalCondition ctx1 depth c de = evalCondition ctx2 depth c de.
Proof.
  intros Hmd. revert depth de. induction c using Condition_nested_ind; intros depth de Hl; simpl;
    (destruct de; [done|]); rewrite Hmd; (destruct (_ >? _)%Z; [done|]);
    try (f_equal; apply (Hl _ ltac:(simpl; left))).
  - rewrite IHc; [done|]. intros l Hin. by apply Hl.
  - apply evalBlock_with_ext. intros cj c de Hcj Hc.
    rewrite Forall_forall in H. specialize (H cj Hcj). rewrite Forall_forall in H.
    apply H; [done|]. intros l Hin. apply Hl. by eapply leaves_block.
  - rewrite IHc1 by (intros; apply Hl; set_solver).
    destruct (evalCondition ctx2 (depth + 1) c1 false) as [[] de'];
      [apply IHc2|apply IHc3]; intros; apply Hl; set_solver.
Qed.

Lemma EvaluateConditions_leaves ctx1 ctx2 cb :
  effectiveMaxDepth ctx1 = effectiveMaxDepth ctx2 ->
  (forall cj c l, cj ∈ cb -> c ∈ cj -> l ∈ leaves c -> leaf_value ctx1 l = leaf_value ctx2 l) ->
  EvaluateConditions ctx1 (Some cb) = EvaluateConditions ctx2 (Some cb).
Proof.
  intros Hmd Hl. unfold EvaluateConditions, evalBlock. f_equal. apply evalBlock_with_ext.
  intros. apply evalCondition_leaves; [done|]. intros. by eapply Hl.
Qed.

Lemma leaf_refs c l :
  l ∈ leaves c -> conditionRefsResource c = false -> conditionRefsResource l = false.
Proof.
  induction c using Condition_nested_ind; simpl; intros Hin Href; auto;
    try (apply list_elem_of_singleton in Hin as ->; done).
  - rewrite list_elem_of_In, in_concat in Hin. destruct Hin as (x & Hx & Hin).
    apply in_map_iff in Hx as (cj & <- & Hcj). apply in_concat in Hin as (y & Hy & Hin).
    apply in_map_iff in Hy as (c & <- & Hc). apply list_elem_of_In in Hcj, Hc, Hin.
    rewrite Forall_forall in H. specialize (H cj Hcj). rewrite Forall_forall in H.
    apply (H c Hc Hin). rewrite existsb_false in Href. specialize (Href cj Hcj).
    rewrite existsb_false in Href. by apply Href.
  - bool_prop. apply elem_of_app in Hin as [?|Hin]; [auto|].
    apply elem_of_app in Hin as [?|?]; auto.
Qed.

Lemma leaf_with_resource r ctx c :
  conditionRefsResource c = false -> leaf_value (with_resource r ctx) c = leaf_value ctx c.
Proof.
  intros H. destruct c as [c|cb|i t e|h|cc|l|l|ie|cmp|b|]; simpl in *; try done.
  - unfold evalHas. by rewrite getBag_with_resource.
  - unfold evalContains. by rewrite getBag_with_resource.
  - unfold evalLike. by rewrite resolveExpr_with_resource.
  - unfold evalInList. by rewrite resolveExpr_with_resource.
  - bool_prop. unfold evalInExpr. by rewrite !resolveExpr_with_resource.
  - bool_prop. unfold evalComparison. by rewrite !resolveExpr_with_resource.
Qed.

(** A condition block ReferencesResourceAttrs reports free of resource
    attributes evaluates to the same value under every resource bag. *)
Lemma EvaluateConditions_resource_independent r ctx cond :
  ReferencesResourceAttrs cond = false ->
  EvaluateConditions (with_resource r ctx) cond = EvaluateConditions ctx cond.
Proof.
  destruct cond as [cb|]; [|done]. simpl. intros Href. apply EvaluateConditions_leaves; [done|].
  intros cj c l Hcj Hc Hl. apply leaf_with_resource. apply (leaf_refs c); [done|].
  rewrite existsb_false in Href. specialize (Href cj Hcj). rewrite existsb_false in Href. auto.
Qed.
End evaluator.
