(* ===== verification/PolicyCompile.v ===== *)
(** The policy compiler: [internal/access/policy/compiler.go].

    [parse_string] is participle's parser and [glob_compile] gobwas/glob's
    [Compile(pattern, ':')].  The theorems tie what compilation checks to what
    evaluation relies on: the pattern limits of compiler.go and evaluator.go
    are the same test, a compiled policy carries a glob for each of its
    patterns, and evaluating with that cache is evaluating without one. *)

From S2P Require Import Prelude GoStrings PolicyTypes PolicyAST PolicyEval.

Open Scope string_scope.
Open Scope list_scope.

Record CompiledTarget : Type := mkCTarget {
  PrincipalType : option string;
  ActionList : list string;
  ResourceType : option string;
  ResourceExact : option string
}.

Record CompiledPolicy : Type := mkCompiled {
  GrammarVersion : Z;
  cp_Effect : string;
  cp_Target : CompiledTarget;
  cp_Conditions : option ConditionBlock;
  cp_GlobCache : gmap string Glob;
  DSLText : string
}.

Definition dsl_GrammarVersion : Z := 1.

Record ValidationWarning : Type := mkWarning { Message : string }.

(** ** Target and effect *)
Definition non_empty (s : string) : option string :=
  if is_empty s then None else Some s.

(** The grammar always sets the three clauses, so their nil checks hold. *)
Definition buildTarget (t : Target) : CompiledTarget :=
  mkCTarget (non_empty (pc_Type (t_Principal t)))
            (ac_Actions (t_Action t))
            (non_empty (rc_Type (t_Resource t)))
            (non_empty (rc_Equality (t_Resource t))).

Definition mapEffect (effect : string) : result string :=
  if String.eqb effect "permit" then Ok PolicyEffectPermit
  else if String.eqb effect "forbid" then Ok PolicyEffectForbid
  else Err (ErrNew "unknown effect: %q").

(** ** Attribute references *)
Record attrRefInfo : Type := mkRef { namespace : string; key : string }.

Definition path_ref (root : string) (path : list string) : list attrRefInfo :=
  match path with
  | [] => []
  | _ :: _ => [mkRef root (Join path ".")]
  end.

Definition collectFromExpr (e : Expr) : list attrRefInfo :=
  match e with
  | EAttrRef a => path_ref (ar_Root a) (ar_Path a)
  | _ => []
  end.

Fixpoint collectFromCondition (c : Condition) : list attrRefInfo :=
  match c with
  | CNegation c' => collectFromCondition c'
  | CParenthesized cb => concat (map (fun cj => concat (map collectFromCondition cj)) cb)
  | CIfThenElse i t e =>
    collectFromCondition i ++ collectFromCondition t ++ collectFromCondition e
  | CHas h => path_ref (has_Root h) (has_Path h)
  | CContains cc => path_ref (cc_Root cc) (cc_Path cc)
  | CComparison cmp => collectFromExpr (cmp_Left cmp) ++ collectFromExpr (cmp_Right cmp)
  | CLike l => collectFromExpr (lk_Left l)
  | CInList il => collectFromExpr (il_Left il)
  | CInExpr ie => collectFromExpr (ie_Left ie) ++ collectFromExpr (ie_Right ie)
  | CBoolLiteral _ | CEmpty => []
  end.

Definition collectAttrRefs (cb : ConditionBlock) : list attrRefInfo :=
  concat (map (fun cj => concat (map collectFromCondition cj)) cb).

Fixpoint validateRefs (schema : AttributeSchema) (refs : list attrRefInfo)
  (warnings : list ValidationWarning) : result (list ValidationWarning) :=
  match refs with
  | [] => Ok warnings
  | ref :: refs' =>
    if negb (HasNamespace schema (namespace ref)) then validateRefs schema refs' warnings
    else if IsRegistered schema (namespace ref) (key ref) then validateRefs schema refs' warnings
    else if String.eqb (namespace ref) "action"
    then Err (ErrNew "unregistered action attribute %q: action namespace is registered but attribute is not")
    else validateRefs schema refs'
           (warnings ++ [mkWarning "unknown attribute %q in registered namespace %q"])
  end.

Definition validateAttributes (schema : AttributeSchema) (cb : ConditionBlock)
  : result (list ValidationWarning) :=
  validateRefs schema (collectAttrRefs cb) [].

(** ** Warnings *)
Definition alwaysTrueWarning : ValidationWarning :=
  mkWarning "condition block is always true; consider removing the when clause".
Definition unreachableWarning : ValidationWarning :=
  mkWarning "unreachable conditions: conjunction starts with false".

Definition starts_false (cj : Conjunction) : bool :=
  match cj with
  | first :: _ :: _ => IsBoolFalse first
  | _ => false
  end.

Definition detectConditionWarnings (cb : ConditionBlock) : list ValidationWarning :=
  (match cb with
   | [[cond]] => if IsBoolTrue cond then [alwaysTrueWarning] else []
   | _ => []
   end) ++
  concat (map (fun cj => if starts_false cj then [unreachableWarning] else []) cb).

(** ** Globs *)

(** compiler.go's [validateGlobPattern]: the checks of evaluator.go's, in the
    same order, each with its own error. *)
Definition compiler_validateGlobPattern (pattern : string) : option error :=
  if (maxGlobPatternLen <? String.length pattern)%nat
  then Some (ErrNew "glob pattern exceeds maximum length of %d: %d characters")
  else if Contains pattern "["
  then Some (ErrNew "glob pattern contains bracket character class (not allowed): %q")
  else if Contains pattern "{"
  then Some (ErrNew "glob pattern contains brace alternation (not allowed): %q")
  else if Contains pattern "**"
  then Some (ErrNew "glob pattern contains globstar (not allowed): %q")
  else if (maxGlobWildcards <? count_bytes is_wildcard pattern)%nat
  then Some (ErrNew "glob pattern has %d wildcard characters (maximum %d)")
  else None.

Fixpoint collectPatternsFromCondition (c : Condition) : list string :=
  match c with
  | CNegation c' => collectPatternsFromCondition c'
  | CParenthesized cb => concat (map (fun cj => concat (map collectPatternsFromCondition cj)) cb)
  | CIfThenElse i t e =>
    collectPatternsFromCondition i ++ collectPatternsFromCondition t ++ collectPatternsFromCondition e
  | CLike l => [lk_Pattern l]
  | _ => []
  end.

Definition collectLikePatterns (cb : ConditionBlock) : list string :=
  concat (map (fun cj => concat (map collectPatternsFromCondition cj)) cb).

Section compiler.
  Variable parse_string : string -> result Policy.
  Variable glob_compile : string -> option Glob.

Fixpoint precompile_loop (patterns : list string) (cache : gmap string Glob)
  : result (gmap string Glob) :=
  match patterns with
  | [] => Ok cache
  | pattern :: rest =>
    match cache !! pattern with
    | Some _ => precompile_loop rest cache
    | None =>
      match compiler_validateGlobPattern pattern with
      | Some e => Err e
      | None =>
        match glob_compile pattern with
        | None => Err (ErrWrap "invalid glob pattern %q" (ErrNew "glob.Compile"))
        | Some compiled => precompile_loop rest (<[pattern := compiled]> cache)
        end
      end
    end
  end.

(** The nil cache of a policy without patterns is the empty map. *)
Definition precompileGlobs (cb : option ConditionBlock) : result (gmap string Glob) :=
  match cb with
  | None => Ok ∅
  | Some cb => precompile_loop (collectLikePatterns cb) ∅
  end.

Definition Compile (schema : AttributeSchema) (dslText : string)
  : result (CompiledPolicy * list ValidationWarning) :=
  match Parse parse_string dslText with
  | Err e => Err (ErrWrap "parse error" e)
  | Ok parsed =>
    let target := buildTarget (p_Target parsed) in
    effect ← mapEffect (p_Effect parsed);
    warnings ← match p_Conditions parsed with
               | None => Ok []
               | Some cb => validateAttributes schema cb
               end;
    let warnings := match p_Conditions parsed with
                    | None => warnings
                    | Some cb => warnings ++ detectConditionWarnings cb
                    end in
    globCache ← precompileGlobs (p_Conditions parsed);
    Ok (mkCompiled dsl_GrammarVersion effect target (p_Conditions parsed) globCache dslText,
        warnings)
  end.

(** ** Lemmas *)

(** The two validators of glob patterns accept the same patterns. *)
Lemma glob_validators_agree pattern :
  compiler_validateGlobPattern pattern = None <-> validateGlobPattern pattern = true.
Proof.
  unfold compiler_validateGlobPattern, validateGlobPattern.
  destruct (maxGlobPatternLen <? String.length pattern)%nat; [done|].
  destruct (Contains pattern "["), (Contains pattern "{"), (Contains pattern "**"); simpl; try done.
  destruct (Nat.ltb_spec maxGlobWildcards (count_bytes is_wildcard pattern)).
  - split; [done|]. rewrite Nat.leb_le. lia.
  - rewrite Nat.leb_le. split; [intros _; lia|done].
Qed.

(** A cache is coherent when each entry is the glob of its pattern. *)
Definition cache_coherent (cache : gmap string Glob) : Prop :=
  forall p g, cache !! p = Some g -> glob_compile p = Some g.

Lemma precompile_loop_spec patterns cache cache' :
  cache_coherent cache ->
  (forall p g, cache !! p = Some g -> validateGlobPattern p = true) ->
  precompile_loop patterns cache = Ok cache' ->
  cache_coherent cache' /\
  (forall p g, cache' !! p = Some g -> validateGlobPattern p = true) /\
  (forall p, p ∈ patterns \/ is_Some (cache !! p) <-> is_Some (cache' !! p)).
Proof.
  revert cache. induction patterns as [|p ps IH]; intros cache Hc Hv Hl; simpl in Hl.
  { simp_res. split_and!; auto. set_solver. }
  destruct (cache !! p) as [g|] eqn:Ep.
  { destruct (IH cache Hc Hv Hl) as (H1 & H2 & H3). split_and!; auto.
    intros q. rewrite <- H3. set_solver. }
  destruct (compiler_validateGlobPattern p) eqn:Ev; [done|].
  destruct (glob_compile p) as [g|] eqn:Eg; [|done].
  destruct (IH (<[p:=g]> cache)) as (H1 & H2 & H3).
  - intros q h [[<- <-]|[_ Hq]]%lookup_insert_Some; [done|by apply Hc].
  - intros q h [[<- <-]|[_ Hq]]%lookup_insert_Some; [by apply glob_validators_agree|by eapply Hv].
  - done.
  - split_and!; auto. intros q. rewrite <- H3.
    destruct (decide (p = q)) as [->|]; [rewrite lookup_insert_eq; set_solver|].
    rewrite lookup_insert_ne by done. set_solver.
Qed.

Lemma precompileGlobs_spec cb cache :
  precompileGlobs cb = Ok cache ->
  cache_coherent cache /\
  (forall p g, cache !! p = Some g -> validateGlobPattern p = true) /\
  (forall p, is_Some (cache !! p) <-> p ∈ match cb with
                                          | None => []
                                          | Some b => collectLikePatterns b
                                          end).
Proof.
  destruct cb as [cb|]; simpl.
  - intros H. apply precompile_loop_spec in H as (H1 & H2 & H3); [|done|done].
    split_and!; auto. intros p. rewrite <- H3, lookup_empty. split; [|by left].
    intros [?|[? [=]]]; done.
  - intros H. simp_res. split_and!; [done|done|].
    intros p. rewrite lookup_empty. split; [intros [? [=]]|set_solver].
Qed.

(** The parts of a successful compilation. *)
Lemma Compile_inv schema text cp ws :
  Compile schema text = Ok (cp, ws) ->
  exists parsed, Parse parse_string text = Ok parsed /\
    mapEffect (p_Effect parsed) = Ok (cp_Effect cp) /\
    cp_Target cp = buildTarget (p_Target parsed) /\
    cp_Conditions cp = p_Conditions parsed /\
    precompileGlobs (p_Conditions parsed) = Ok (cp_GlobCache cp) /\
    (forall cb, p_Conditions parsed = Some cb ->
       exists ws0, validateAttributes schema cb = Ok ws0 /\ ws = ws0 ++ detectConditionWarnings cb).
Proof.
  unfold Compile. destruct (Parse parse_string text) as [parsed|]; [|done]. simpl.
  destruct (mapEffect _) as [eff|] eqn:E1; [|done]. simpl.
  destruct (match p_Conditions parsed with None => _ | Some cb => _ end) as [w|] eqn:E2; [|done].
  simpl. destruct (precompileGlobs _) as [gc|] eqn:E3; [|done]. simpl. intros H. simp_res.
  exists parsed. split_and!; auto. intros cb Hcb. rewrite Hcb in *. eauto.
Qed.

Lemma mapEffect_values e pe : mapEffect e = Ok pe -> pe = e /\ (pe = "permit" \/ pe = "forbid").
Proof.
  unfold mapEffect. destruct (String.eqb_spec e "permit"); [naive_solver|].
  destruct (String.eqb_spec e "forbid"); naive_solver.
Qed.

Lemma Compile_cache_coherent schema text cp ws :
  Compile schema text = Ok (cp, ws) -> cache_coherent (cp_GlobCache cp).
Proof.
  intros (parsed & _ & _ & _ & _ & Hg & _)%Compile_inv. by apply precompileGlobs_spec in Hg as [? _].
Qed.

(** Evaluation does not observe a coherent cache. *)
Definition with_cache (gc : gmap string Glob) (ctx : EvalContext) : EvalContext :=
  mkEval (ec_Bags ctx) (ec_MaxDepth ctx) gc.

Lemma leaf_with_cache gc ctx c :
  cache_coherent gc ->
  leaf_value glob_compile (with_cache gc ctx) c = leaf_value glob_compile (with_cache ∅ ctx) c.
Proof.
  intros Hc. destruct c as [| | | | |l| | | | |]; try done. simpl. unfold evalLike. simpl.
  destruct (validateGlobPattern (lk_Pattern l)); [|done].
  change (resolveExpr (with_cache gc ctx) (lk_Left l)) with (resolveExpr (with_cache ∅ ctx) (lk_Left l)).
  destruct (resolveExpr _ _) as [[]|]; try done. rewrite lookup_empty.
  destruct (gc !! lk_Pattern l) as [g|] eqn:E; [|done]. by rewrite (Hc _ _ E).
Qed.

Lemma EvaluateConditions_cache gc ctx cond :
  cache_coherent gc ->
  EvaluateConditions glob_compile (with_cache gc ctx) cond =
  EvaluateConditions glob_compile (with_cache ∅ ctx) cond.
Proof.
  intros Hc. destruct cond as [cb|]; [|done]. apply EvaluateConditions_leaves; [done|].
  intros. by apply leaf_with_cache.
Qed.

(** Evaluating a compiled policy with the globs compiled ahead of time gives
    the decision of compiling each glob on the spot, and the cache holds a glob
    for exactly the like-patterns of the policy, each within the safety limits. *)
Theorem Compile_globs_faithful schema text cp ws ctx :
  Compile schema text = Ok (cp, ws) ->
  EvaluateConditions glob_compile (with_cache (cp_GlobCache cp) ctx) (cp_Conditions cp) =
  EvaluateConditions glob_compile (with_cache ∅ ctx) (cp_Conditions cp) /\
  (forall p, is_Some (cp_GlobCache cp !! p) <->
             p ∈ match cp_Conditions cp with None => [] | Some b => collectLikePatterns b end) /\
  (forall p, is_Some (cp_GlobCache cp !! p) -> validateGlobPattern p = true).
Proof.
  intros (parsed & _ & _ & _ & Hcd & Hg & _)%Compile_inv.
  apply precompileGlobs_spec in Hg as (H1 & H2 & H3). rewrite Hcd.
  split_and!; [by apply EvaluateConditions_cache|done|]. intros p [g Hp]. eauto.
Qed.

(** Warnings mean what they say.  A block reported always true evaluates to
    true in every context, and a conjunction reported unreachable is false in
    every context. *)
Theorem condition_warnings_sound ctx cb :
  (alwaysTrueWarning ∈ detectConditionWarnings cb ->
   EvaluateConditions glob_compile ctx (Some cb) = true) /\
  (forall cj, starts_false cj = true -> forallb (holds glob_compile ctx) cj = false).
Proof.
  split.
  - unfold detectConditionWarnings. rewrite elem_of_app. intros [H|H].
    + destruct cb as [|[|c []] []]; try by apply elem_of_nil in H.
      destruct c; simpl in H; try by apply elem_of_nil in H.
      destruct (String.eqb b "true") eqn:E; [|by apply elem_of_nil in H].
      unfold EvaluateConditions, evalBlock. simpl.
      assert ((0 >? effectiveMaxDepth ctx)%Z = false) as ->.
      { unfold effectiveMaxDepth, MaxNestingDepth. destruct (Z.leb_spec (ec_MaxDepth ctx) 0); lia. }
      simpl. by rewrite E.
    + apply list_elem_of_In, in_concat in H as (l & Hl & Hw).
      apply in_map_iff in Hl as (cj & <- & _). destruct (starts_false cj); [|done].
      destruct Hw as [[=]|[]].
  - intros [|c [|c' cj]]; try done. simpl. destruct c; try done. simpl. intros H.
    apply String.eqb_eq in H as ->. done.
Qed.
End compiler.
