(* ===== verification/CircuitBreaker.v ===== *)
(** The per-provider circuit breaker of the attribute resolver:
    [internal/access/policy/attribute/circuit_breaker.go].

    Times and durations are nanoseconds in [Z]; an operation that reads the
    clock takes the reading as [now].  Each operation holds the breaker's mutex
    throughout, so an execution is a sequence of operations ([cb_op]). *)

From S2P Require Import Prelude PolicyTypes.
From Stdlib Require Import SpecFloat Sorted.

Open Scope string_scope.
Open Scope list_scope.

Inductive CircuitState : Type :=
| CircuitStateClosed
| CircuitStateOpen
| CircuitStateHalfOpen.

#[export] Instance CircuitState_eq_dec : EqDecision CircuitState.
Proof. solve_decision. Defined.

Record CircuitBreakerConfig : Type := mkCBConfig {
  WindowDuration : Z;
  BudgetThreshold : float64;
  CallRatioThreshold : float64;
  MinCalls : Z;
  OpenDuration : Z
}.

Definition float64_one : float64 := float64_of_int 1.
Definition float64_zero : float64 := S754_zero false.

Definition CircuitBreakerConfig_Validate (c : CircuitBreakerConfig) : option error :=
  if (WindowDuration c <=? 0)%Z then Some (ErrNew "WindowDuration must be positive, got %v")
  else if SFleb (BudgetThreshold c) float64_zero || SFltb float64_one (BudgetThreshold c)
  then Some (ErrNew "BudgetThreshold must be in (0,1], got %v")
  else if SFleb (CallRatioThreshold c) float64_zero || SFltb float64_one (CallRatioThreshold c)
  then Some (ErrNew "CallRatioThreshold must be in (0,1], got %v")
  else if (MinCalls c <=? 0)%Z then Some (ErrNew "MinCalls must be positive, got %d")
  else if (OpenDuration c <=? 0)%Z then Some (ErrNew "OpenDuration must be positive, got %v")
  else None.

Definition time_Second : Z := 1000000000.

(** 0.8 and 0.5 as binary64. *)
Definition float64_0_8 : float64 := S754_finite false 7205759403792794 (-53).
Definition float64_0_5 : float64 := S754_finite false 4503599627370496 (-53).

Definition DefaultCircuitBreakerConfig : CircuitBreakerConfig :=
  mkCBConfig (60 * time_Second) float64_0_8 float64_0_5 10 (60 * time_Second).

Record callRecord : Type := mkCall { timestamp : Z; utilization : float64 }.

(** The provider name and the trips counter feed logs and metrics only. *)
Record CircuitBreaker : Type := mkCB {
  cb_config : CircuitBreakerConfig;
  cb_state : CircuitState;
  cb_calls : list callRecord;
  cb_openedAt : Z;
  cb_probeInFlight : bool
}.

Definition NewCircuitBreaker (config : CircuitBreakerConfig) : CircuitBreaker :=
  mkCB config CircuitStateClosed [] 0 false.

Definition set_state (s : CircuitState) (cb : CircuitBreaker) : CircuitBreaker :=
  mkCB (cb_config cb) s (cb_calls cb) (cb_openedAt cb) (cb_probeInFlight cb).
Definition set_calls (l : list callRecord) (cb : CircuitBreaker) : CircuitBreaker :=
  mkCB (cb_config cb) (cb_state cb) l (cb_openedAt cb) (cb_probeInFlight cb).
Definition set_openedAt (t : Z) (cb : CircuitBreaker) : CircuitBreaker :=
  mkCB (cb_config cb) (cb_state cb) (cb_calls cb) t (cb_probeInFlight cb).
Definition set_probe (b : bool) (cb : CircuitBreaker) : CircuitBreaker :=
  mkCB (cb_config cb) (cb_state cb) (cb_calls cb) (cb_openedAt cb) b.

Definition maybeTransitionToHalfOpen (now : Z) (cb : CircuitBreaker) : CircuitBreaker :=
  if bool_decide (cb_state cb = CircuitStateOpen) &&
     (OpenDuration (cb_config cb) <=? now - cb_openedAt cb)%Z
  then set_probe false (set_state CircuitStateHalfOpen cb)
  else cb.

Definition State (now : Z) (cb : CircuitBreaker) : CircuitState * CircuitBreaker :=
  let cb := maybeTransitionToHalfOpen now cb in (cb_state cb, cb).

Definition ShouldSkip (now : Z) (cb : CircuitBreaker) : bool * CircuitBreaker :=
  let cb := maybeTransitionToHalfOpen now cb in
  (bool_decide (cb_state cb = CircuitStateOpen) ||
   (bool_decide (cb_state cb = CircuitStateHalfOpen) && cb_probeInFlight cb), cb).

Definition TryAcquireProbe (now : Z) (cb : CircuitBreaker) : bool * CircuitBreaker :=
  let cb := maybeTransitionToHalfOpen now cb in
  if bool_decide (cb_state cb = CircuitStateHalfOpen) && negb (cb_probeInFlight cb)
  then (true, set_probe true cb)
  else (false, cb).

Fixpoint drop_before (cutoff : Z) (calls : list callRecord) : list callRecord :=
  match calls with
  | [] => []
  | c :: calls' => if (timestamp c <? cutoff)%Z then drop_before cutoff calls' else calls
  end.

Definition pruneOldCalls (now : Z) (cb : CircuitBreaker) : CircuitBreaker :=
  set_calls (drop_before (now - WindowDuration (cb_config cb)) (cb_calls cb)) cb.

Definition exceeding (threshold : float64) (calls : list callRecord) : Z :=
  Z.of_nat (length (List.filter (fun c => SFltb threshold (utilization c)) calls)).

(** float64 division of two Go integers. *)
Definition float64_ratio (a b : Z) : float64 :=
  SFdiv prec64 emax64 (float64_of_int a) (float64_of_int b).

Definition trips (cb : CircuitBreaker) : bool :=
  let n := Z.of_nat (length (cb_calls cb)) in
  (MinCalls (cb_config cb) <=? n)%Z &&
  SFltb (CallRatioThreshold (cb_config cb))
        (float64_ratio (exceeding (BudgetThreshold (cb_config cb)) (cb_calls cb)) n).

Definition checkTrip (now : Z) (cb : CircuitBreaker) : CircuitBreaker :=
  if negb (bool_decide (cb_state cb = CircuitStateClosed)) then cb
  else if trips cb then set_openedAt now (set_state CircuitStateOpen cb)
  else cb.

Definition RecordCall (now actualDuration budget : Z) (cb : CircuitBreaker) : CircuitBreaker :=
  if (budget <=? 0)%Z then cb
  else checkTrip now (pruneOldCalls now
         (set_calls (cb_calls cb ++ [mkCall now (float64_ratio actualDuration budget)]) cb)).

Definition RecordProbeSuccess (cb : CircuitBreaker) : CircuitBreaker :=
  set_probe false (set_calls [] (set_state CircuitStateClosed cb)).

Definition RecordProbeFailure (now : Z) (cb : CircuitBreaker) : CircuitBreaker :=
  set_probe false (set_openedAt now (set_state CircuitStateOpen cb)).

(** ** Executions *)
Inductive cb_op : Type :=
| OpState (now : Z)
| OpShouldSkip (now : Z)
| OpTryAcquireProbe (now : Z)
| OpRecordCall (now actualDuration budget : Z)
| OpRecordProbeSuccess
| OpRecordProbeFailure (now : Z).

Definition cb_step (cb : CircuitBreaker) (op : cb_op) : CircuitBreaker :=
  match op with
  | OpState now => (State now cb).2
  | OpShouldSkip now => (ShouldSkip now cb).2
  | OpTryAcquireProbe now => (TryAcquireProbe now cb).2
  | OpRecordCall now d b => RecordCall now d b cb
  | OpRecordProbeSuccess => RecordProbeSuccess cb
  | OpRecordProbeFailure now => RecordProbeFailure now cb
  end.

Definition cb_run (cb : CircuitBreaker) (ops : list cb_op) : CircuitBreaker :=
  fold_left cb_step ops cb.

(** A breaker has a probe in flight only when half open. *)
Definition cb_inv (cb : CircuitBreaker) : Prop :=
  cb_probeInFlight cb = true -> cb_state cb = CircuitStateHalfOpen.

Lemma maybeTransition_inv now cb : cb_inv cb -> cb_inv (maybeTransitionToHalfOpen now cb).
Proof.
  unfold cb_inv, maybeTransitionToHalfOpen. destruct (_ && _); simpl; [done|auto].
Qed.

Lemma maybeTransition_closed now cb :
  cb_state (maybeTransitionToHalfOpen now cb) = CircuitStateClosed ->
  cb_state cb = CircuitStateClosed.
Proof. unfold maybeTransitionToHalfOpen. by destruct (_ && _). Qed.

Lemma maybeTransition_not_open now cb :
  cb_state cb <> CircuitStateOpen -> maybeTransitionToHalfOpen now cb = cb.
Proof.
  intros H. unfold maybeTransitionToHalfOpen. by rewrite bool_decide_eq_false_2.
Qed.

Lemma RecordCall_state now d b cb :
  cb_state (RecordCall now d b cb) = cb_state cb \/
  cb_state cb = CircuitStateClosed /\ cb_state (RecordCall now d b cb) = CircuitStateOpen.
Proof.
  unfold RecordCall, checkTrip. destruct (b <=? 0)%Z; [by left|]. simpl.
  destruct (bool_decide_reflect (cb_state cb = CircuitStateClosed)); simpl; [|by left].
  destruct (trips _); simpl; auto.
Qed.

Lemma RecordCall_probe now d b cb : cb_probeInFlight (RecordCall now d b cb) = cb_probeInFlight cb.
Proof.
  unfold RecordCall, checkTrip. destruct (b <=? 0)%Z; [done|]. simpl.
  destruct (bool_decide _); simpl; [|done]. by destruct (trips _).
Qed.

Lemma cb_step_inv cb op : cb_inv cb -> cb_inv (cb_step cb op).
Proof.
  intros Hi. destruct op as [now|now|now|now d b| |now]; simpl; try by apply maybeTransition_inv.
  - unfold TryAcquireProbe. pose proof (maybeTransition_inv now cb Hi) as Hm.
    destruct (bool_decide_reflect (cb_state (maybeTransitionToHalfOpen now cb) = CircuitStateHalfOpen));
      simpl; [|done]. destruct (cb_probeInFlight (maybeTransitionToHalfOpen now cb)); simpl; [done|].
    by intros _.
  - unfold cb_inv. rewrite RecordCall_probe. intros Hp. specialize (Hi Hp).
    destruct (RecordCall_state now d b cb) as [->|[? _]]; congruence.
  - by unfold cb_inv.
  - by unfold cb_inv.
Qed.

Lemma cb_run_inv ops cb : cb_inv cb -> cb_inv (cb_run cb ops).
Proof. revert cb. induction ops as [|op ops IH]; intros cb H; [done|]. by apply IH, cb_step_inv. Qed.

(** Operations of the callers that did not acquire the probe. *)
Definition no_probe_result (op : cb_op) : bool :=
  match op with OpRecordProbeSuccess | OpRecordProbeFailure _ => false | _ => true end.

Lemma probe_held_step cb op :
  cb_state cb = CircuitStateHalfOpen -> cb_probeInFlight cb = true -> no_probe_result op = true ->
  cb_state (cb_step cb op) = CircuitStateHalfOpen /\ cb_probeInFlight (cb_step cb op) = true.
Proof.
  intros Hs Hp Hop. assert (cb_state cb <> CircuitStateOpen) as Hno by congruence.
  destruct op as [now|now|now|now d b| |now]; simpl in *; try done;
    unfold TryAcquireProbe; rewrite ?(maybeTransition_not_open now cb Hno); auto.
  - rewrite Hs, Hp. auto.
  - rewrite RecordCall_probe. destruct (RecordCall_state now d b cb) as [->|[? _]]; [auto|congruence].
Qed.

Lemma probe_held_run ops cb :
  cb_state cb = CircuitStateHalfOpen -> cb_probeInFlight cb = true ->
  forallb no_probe_result ops = true ->
  cb_state (cb_run cb ops) = CircuitStateHalfOpen /\ cb_probeInFlight (cb_run cb ops) = true.
Proof.
  revert cb. induction ops as [|op ops IH]; intros cb Hs Hp Hops; [done|]. simpl in *. bool_prop.
  destruct (probe_held_step cb op) as [Hs' Hp']; auto.
Qed.

(** At most one probe is in flight.  Once a caller of any reachable breaker
    has acquired the probe, every caller until its result is recorded is told
    to skip the provider and is refused the probe. *)
Theorem probe_exclusive config ops now ops' now' :
  let cb := cb_run (NewCircuitBreaker config) ops in
  (TryAcquireProbe now cb).1 = true ->
  forallb no_probe_result ops' = true ->
  let cb' := cb_run (TryAcquireProbe now cb).2 ops' in
  (TryAcquireProbe now' cb').1 = false /\ (ShouldSkip now' cb').1 = true.
Proof.
  intros cb Hacq Hops cb'.
  assert (cb_state cb' = CircuitStateHalfOpen /\ cb_probeInFlight cb' = true) as [Hs Hp].
  { apply probe_held_run; [| |done]; revert Hacq; unfold TryAcquireProbe;
      (destruct (bool_decide_reflect
         (cb_state (maybeTransitionToHalfOpen now cb) = CircuitStateHalfOpen)) as [E|]; [|done]);
      by destruct (cb_probeInFlight (maybeTransitionToHalfOpen now cb)). }
  unfold TryAcquireProbe, ShouldSkip. rewrite maybeTransition_not_open by congruence.
  rewrite Hs, Hp. done.
Qed.

(** ** The sliding window *)
Lemma drop_before_suffix cutoff l : exists p, l = p ++ drop_before cutoff l.
Proof.
  induction l as [|c l [p IH]]; simpl; [by exists []|].
  destruct (timestamp c <? cutoff)%Z; [|by exists []]. exists (c :: p). simpl. by rewrite <- IH.
Qed.

Lemma drop_before_spec cutoff l :
  StronglySorted (fun a b => (timestamp a <= timestamp b)%Z) l ->
  forall c, c ∈ drop_before cutoff l <-> c ∈ l /\ (cutoff <= timestamp c)%Z.
Proof.
  induction 1 as [|c l Hs IH Hle]; intros x; simpl; [set_solver|].
  destruct (Z.ltb_spec (timestamp c) cutoff).
  - rewrite IH, elem_of_cons. split; [naive_solver|]. intros [[->|?] ?]; [lia|done].
  - rewrite elem_of_cons. split; [|naive_solver]. intros [->|Hx]; split; auto.
    rewrite Forall_forall in Hle. specialize (Hle x Hx). simpl in Hle. lia.
Qed.

(** With a clock that does not run backwards, after a recorded call the
    breaker holds exactly the calls of the sliding window, the new one
    included, and it is open exactly if it was open before or it was closed
    and the window trips it. *)
Theorem RecordCall_window now d b cb :
  StronglySorted (fun a b => (timestamp a <= timestamp b)%Z) (cb_calls cb) ->
  (forall c, c ∈ cb_calls cb -> (timestamp c <= now)%Z) ->
  (0 < b)%Z -> (0 < WindowDuration (cb_config cb))%Z ->
  let cb' := RecordCall now d b cb in
  (forall c, c ∈ cb_calls cb' <->
     (c ∈ cb_calls cb \/ c = mkCall now (float64_ratio d b)) /\
     (now - WindowDuration (cb_config cb) <= timestamp c)%Z) /\
  (cb_state cb' = CircuitStateOpen <->
     cb_state cb = CircuitStateOpen \/ cb_state cb = CircuitStateClosed /\ trips cb' = true).
Proof.
  intros Hsort Hle Hb Hw cb'.
  set (calls' := cb_calls cb ++ [mkCall now (float64_ratio d b)]).
  assert (cb_calls cb' = drop_before (now - WindowDuration (cb_config cb)) calls' /\
          cb_config cb' = cb_config cb) as [Hcalls Hcfg].
  { unfold cb', RecordCall. destruct (Z.leb_spec b 0); [lia|]. unfold checkTrip, pruneOldCalls. simpl.
    destruct (bool_decide _); simpl; [|done]. by destruct (trips _). }
  split.
  - intros c. rewrite Hcalls, drop_before_spec; [set_solver|].
    unfold calls'. clear -Hsort Hle. induction Hsort as [|x l Hs IH Hf]; simpl; constructor.
    + constructor.
    + constructor.
    + apply IH. set_solver.
    + apply Forall_app. split; [done|]. constructor; [|done]. apply Hle. set_solver.
  - unfold trips. rewrite Hcalls, Hcfg.
    unfold cb', RecordCall. destruct (Z.leb_spec b 0); [lia|]. unfold checkTrip, pruneOldCalls. simpl.
    fold calls'. unfold trips. simpl.
    destruct (bool_decide_reflect (cb_state cb = CircuitStateClosed)) as [Ec|Ec]; simpl; [|naive_solver].
    destruct (_ && _) eqn:Et; simpl; rewrite ?Ec; split; try done; [auto|].
    intros [?|[_ ?]]; congruence.
Qed.

(** ** The operations the resolver uses

    [resolveEntity] calls [ShouldSkip] and [RecordCall] and nothing else. *)
Definition resolver_op (op : cb_op) : bool :=
  match op with OpShouldSkip _ | OpRecordCall _ _ _ => true | _ => false end.

(** Under the operations the resolver performs, a breaker that was half-opened
    with no probe in flight stays so forever: it neither closes nor opens
    again, and never tells the resolver to skip the provider, however many
    calls fail. *)
Theorem half_open_absorbing cb ops now :
  cb_state cb = CircuitStateHalfOpen -> cb_probeInFlight cb = false ->
  forallb resolver_op ops = true ->
  cb_state (cb_run cb ops) = CircuitStateHalfOpen /\
  (ShouldSkip now (cb_run cb ops)).1 = false.
Proof.
  intros Hs Hp Hops.
  assert (cb_state (cb_run cb ops) = CircuitStateHalfOpen /\
          cb_probeInFlight (cb_run cb ops) = false) as [Hs' Hp'].
  { revert cb Hs Hp Hops. induction ops as [|op ops IH]; intros cb Hs Hp Hops; [done|].
    simpl in *. bool_prop. assert (cb_state cb <> CircuitStateOpen) as Hno by congruence.
    apply IH; [| |done]; destruct op as [|now'| |now' d b| |]; try done; simpl;
      rewrite ?(maybeTransition_not_open now' cb Hno), ?RecordCall_probe; auto.
    destruct (RecordCall_state now' d b cb) as [->|[? _]]; [done|congruence]. }
  split; [done|]. unfold ShouldSkip. rewrite maybeTransition_not_open by congruence.
  by rewrite Hs', Hp'.
Qed.

(** Ten failed calls, the cool-down, then any number of failures. *)
Definition failed_call (now : Z) : cb_op :=
  OpRecordCall now (60 * time_Second) ((60 * time_Second) ÷ 2).

Lemma half_open_absorbing_witness :
  let cb := cb_run (NewCircuitBreaker DefaultCircuitBreakerConfig)
                   (repeat (failed_call 0) 10 ++ [OpShouldSkip (60 * time_Second)]) in
  (ShouldSkip 1 (cb_run (NewCircuitBreaker DefaultCircuitBreakerConfig)
                        (repeat (failed_call 0) 10))).1 = true /\
  (ShouldSkip 61 (cb_run cb (repeat (failed_call (61 * time_Second)) 20))).1 = false.
Proof.
  split; [by vm_compute|].
  apply (half_open_absorbing _ (repeat (failed_call (61 * time_Second)) 20) 61);
    vm_compute; reflexivity.
Defined.

Lemma probe_exclusive_witness :
  let cb := cb_run (NewCircuitBreaker DefaultCircuitBreakerConfig) (repeat (failed_call 0) 10) in
  (TryAcquireProbe (60 * time_Second) cb).1 = true /\
  (ShouldSkip (70 * time_Second) (cb_run (TryAcquireProbe (60 * time_Second) cb).2
     [OpTryAcquireProbe (60 * time_Second); OpShouldSkip (61 * time_Second)])).1 = true.
Proof.
  split; [by vm_compute|].
  apply (probe_exclusive DefaultCircuitBreakerConfig (repeat (failed_call 0) 10)
           (60 * time_Second) [OpTryAcquireProbe (60 * time_Second); OpShouldSkip (61 * time_Second)]);
    vm_compute; reflexivity.
Defined.

Lemma RecordCall_window_witness :
  (mkCall 5 (float64_ratio 2 1)) ∈
    cb_calls (RecordCall 5 2 1 (NewCircuitBreaker DefaultCircuitBreakerConfig)).
Proof.
  apply (RecordCall_window 5 2 1 (NewCircuitBreaker DefaultCircuitBreakerConfig)); simpl.
  - constructor.
  - intros c H. by apply elem_of_nil in H.
  - lia.
  - unfold time_Second. lia.
  - split; [by right|]. unfold time_Second. lia.
Defined.
