(* ===== verification/AttrResolver.v ===== *)
(** Attribute resolution: [internal/access/policy/attribute]: the LRU cache of
    one resolution ([cache.go]), the schema registry ([schema.go]), the provider
    interfaces ([provider.go]) and the resolver ([resolver.go]).

    Providers are interfaces implemented elsewhere: a provider is a record of
    functions.  A call receives the clock reading at which it starts and says
    what it returned (or that it panicked) and how long it took; the clock
    advances only in provider calls. *)

From S2P Require Import Prelude GoStrings PolicyTypes CircuitBreaker.

Open Scope string_scope.
Open Scope list_scope.

Abbreviation attrs := (gmap string any).

(** ** The per-resolution LRU cache

    [lru] lists the entries from the front (most recent) to the back; the map
    from keys to list elements is kept as its key set [items]. *)
Record attributeCache : Type := mkCache {
  capacity : nat;
  items : gset string;
  lru : list (string * attrs)
}.

Definition newAttributeCache (cap : nat) : attributeCache := mkCache cap ∅ [].

Definition lru_find (k : string) (l : list (string * attrs)) : option attrs :=
  match List.find (fun e => String.eqb e.1 k) l with Some e => Some e.2 | None => None end.

Definition lru_remove (k : string) (l : list (string * attrs)) : list (string * attrs) :=
  List.filter (fun e => negb (String.eqb e.1 k)) l.

Definition cache_Get (k : string) (c : attributeCache) : option attrs * attributeCache :=
  if bool_decide (k ∈ items c) then
    match lru_find k (lru c) with
    | Some v => (Some v, mkCache (capacity c) (items c) ((k, v) :: lru_remove k (lru c)))
    | None => (None, c)
    end
  else (None, c).

Definition cache_Put (k : string) (v : attrs) (c : attributeCache) : attributeCache :=
  if bool_decide (k ∈ items c) then
    mkCache (capacity c) (items c) ((k, v) :: lru_remove k (lru c))
  else
    let l := (k, v) :: lru c in
    let its := {[k]} ∪ items c in
    if (capacity c <? length l)%nat then
      match last l with
      | Some oldest => mkCache (capacity c) (its ∖ {[oldest.1]}) (removelast l)
      | None => mkCache (capacity c) its l
      end
    else mkCache (capacity c) its l.

(** ** Schema registry *)

(** [SchemaRegistry.Register]; the attribute types are an inductive type, so the
    range check of the Go integers cannot fail. *)
Definition registry_Register (r : AttributeSchema) (ns : string) (schema : option NamespaceSchema)
  : result AttributeSchema :=
  if is_empty ns then Err (ErrNew "namespace cannot be empty")
  else if HasNamespace r ns then Err (ErrNew "namespace already registered: %s")
  else match schema with
  | None => Err (ErrNew "schema cannot be nil")
  | Some s =>
    if bool_decide (Attributes s = ∅) then Err (ErrNew "schema must have at least one attribute")
    else Ok (schema_Register r ns s)
  end.

Definition UnregisterForRollback (r : AttributeSchema) (ns : string) : AttributeSchema :=
  schema_Remove r ns.

(** ** Providers *)
Inductive provider_result : Type :=
| PReturn (a : option attrs) (err : option error)
| PPanic.

Record AttributeProvider : Type := mkProvider {
  ap_Namespace : string;
  ap_ResolveSubject : Z -> string -> provider_result * Z;
  ap_ResolveResource : Z -> string -> provider_result * Z;
  ap_Schema : option NamespaceSchema
}.

Record EnvironmentProvider : Type := mkEnvProvider {
  ep_Namespace : string;
  ep_Resolve : Z -> provider_result * Z;
  ep_Schema : option NamespaceSchema
}.

Record Resolver : Type := mkResolver {
  registry : AttributeSchema;
  providers : gmap string AttributeProvider;
  envProviders : gmap string EnvironmentProvider;
  providerOrder : list string;
  circuitBreakers : gmap string CircuitBreaker;
  envProviderOrder : list string
}.

Definition NewResolver (reg : AttributeSchema) : Resolver := mkResolver reg ∅ ∅ [] ∅ [].

Definition register_schema (r : Resolver) (ns : string) (schema : option NamespaceSchema)
  : Resolver * option error :=
  match schema with
  | None => (r, None)
  | Some _ =>
    if HasNamespace (registry r) ns then (r, None)
    else match registry_Register (registry r) ns schema with
    | Ok reg => (mkResolver reg (providers r) (envProviders r) (providerOrder r)
                            (circuitBreakers r) (envProviderOrder r), None)
    | Err e => (r, Some (ErrWrap "failed to register schema for namespace %q" e))
    end
  end.

Definition RegisterProvider (p : AttributeProvider) (r : Resolver) : Resolver * option error :=
  let ns := ap_Namespace p in
  if is_empty ns then (r, Some (ErrNew "provider namespace cannot be empty"))
  else match providers r !! ns with
  | Some _ => (r, Some (ErrNew "provider for namespace %q already registered"))
  | None =>
    register_schema
      (mkResolver (registry r) (<[ns := p]> (providers r)) (envProviders r)
                  (providerOrder r ++ [ns])
                  (<[ns := NewCircuitBreaker DefaultCircuitBreakerConfig]> (circuitBreakers r))
                  (envProviderOrder r))
      ns (ap_Schema p)
  end.

Fixpoint remove_first (x : string) (l : list string) : list string :=
  match l with
  | [] => []
  | y :: l' => if String.eqb y x then l' else y :: remove_first x l'
  end.

Definition UnregisterProvider (ns : string) (r : Resolver) : Resolver * bool :=
  match providers r !! ns with
  | None => (r, false)
  | Some _ =>
    (mkResolver (UnregisterForRollback (registry r) ns) (delete ns (providers r)) (envProviders r)
                (remove_first ns (providerOrder r)) (delete ns (circuitBreakers r))
                (envProviderOrder r), true)
  end.

Definition RegisteredNamespaces (r : Resolver) : list string := providerOrder r.

Definition RegisterEnvironmentProvider (p : EnvironmentProvider) (r : Resolver)
  : Resolver * option error :=
  let ns := ep_Namespace p in
  if is_empty ns then (r, Some (ErrNew "environment provider namespace cannot be empty"))
  else match envProviders r !! ns with
  | Some _ => (r, Some (ErrNew "environment provider for namespace %q already registered"))
  | None =>
    register_schema
      (mkResolver (registry r) (providers r) (<[ns := p]> (envProviders r)) (providerOrder r)
                  (circuitBreakers r) (envProviderOrder r ++ [ns]))
      ns (ep_Schema p)
  end.

(** ** Resolution *)
Definition validateEntityRef (ref : string) : option error :=
  match SplitN2 ":" ref with
  | [t; id] => if is_empty t || is_empty id
               then Some (ErrCode "INVALID_ENTITY_REF" "invalid entity ref format: expected 'type:id'")
               else None
  | _ => Some (ErrCode "INVALID_ENTITY_REF" "invalid entity ref format: expected 'type:id'")
  end.

Definition bag_key (ns key : string) : string := ns +:+ "." +:+ key.

(** The range loop over the provider's attributes. *)
Definition mergeAttributes (reg : AttributeSchema) (ns : string) (a bag : attrs) : attrs :=
  map_fold (fun key value bag =>
              if IsRegistered reg ns key then <[bag_key ns key := value]> bag else bag) bag a.

Inductive resolve_type : Type := RSubject | RResource.

(** The string of the resolve type, as the cache key and the switch of
    [safeResolve] have it; its default branch is never taken. *)
Definition resolve_type_string (t : resolve_type) : string :=
  match t with RSubject => "subject" | RResource => "resource" end.

Definition provider_call (p : AttributeProvider) (t : resolve_type) : Z -> string -> provider_result * Z :=
  match t with RSubject => ap_ResolveSubject p | RResource => ap_ResolveResource p end.

(** What [safeResolve] and [safeResolveEnvironment] make of the answer. *)
Definition recover_result (res : provider_result) : result (option attrs) :=
  match res with
  | PPanic => Err (ErrNew "provider %s panicked during %s resolution")
  | PReturn _ (Some e) => Err (ErrWrap EmptyString e)
  | PReturn a None => Ok a
  end.

Definition safeResolve (p : AttributeProvider) (t : resolve_type) (now : Z) (ref : string)
  : result (option attrs) * Z :=
  let '(res, d) := provider_call p t now ref in (recover_result res, d).

Definition safeResolveEnvironment (p : EnvironmentProvider) (now : Z)
  : result (option attrs) * Z :=
  let '(res, d) := ep_Resolve p now in (recover_result res, d).

(** The mutable state a resolution works on. *)
Record rstate : Type := mkRS {
  rs_breakers : gmap string CircuitBreaker;
  rs_cache : attributeCache;
  rs_now : Z
}.

(** The record of one call in the namespace's breaker. *)
Definition record_call (ns : string) (now d : Z) (failed : bool)
  (cbs : gmap string CircuitBreaker) : gmap string CircuitBreaker :=
  match cbs !! ns with
  | None => cbs
  | Some cb =>
    let od := OpenDuration (cb_config cb) in
    <[ns := if failed then RecordCall now od (od ÷ 2) cb else RecordCall now d od cb]> cbs
  end.

Definition check_breaker (ns : string) (now : Z) (cbs : gmap string CircuitBreaker)
  : bool * gmap string CircuitBreaker :=
  match cbs !! ns with
  | None => (false, cbs)
  | Some cb => let '(skip, cb') := ShouldSkip now cb in (skip, <[ns := cb']> cbs)
  end.

Definition cache_key (t : resolve_type) (ns ref : string) : string :=
  resolve_type_string t +:+ ":" +:+ ns +:+ ":" +:+ ref.

(** One iteration of the loop of [resolveEntity]: the bag, the collected errors
    and the state after it.  A namespace of the order always has a provider (see
    [resolver_wf]): the branch for a missing one is not taken. *)
Definition resolve_one (r : Resolver) (t : resolve_type) (ref ns : string)
  (bag : attrs) (errs : list error) (st : rstate) : attrs * list error * rstate :=
  let '(skip, cbs) := check_breaker ns (rs_now st) (rs_breakers st) in
  if skip then (bag, errs, mkRS cbs (rs_cache st) (rs_now st))
  else
    let '(cached, cache) := cache_Get (cache_key t ns ref) (rs_cache st) in
    match cached with
    | Some a => (mergeAttributes (registry r) ns a bag, errs, mkRS cbs cache (rs_now st))
    | None =>
      let '(res, d) := match providers r !! ns with
                       | Some p => safeResolve p t (rs_now st) ref
                       | None => (Err (ErrNew "provider %s panicked during %s resolution"), 0%Z)
                       end in
      let now := (rs_now st + d)%Z in
      let cbs := record_call ns now d (negb (is_ok res)) cbs in
      match res with
      | Err e => (bag, errs ++ [e], mkRS cbs cache now)
      | Ok None => (bag, errs, mkRS cbs cache now)
      | Ok (Some a) =>
        (mergeAttributes (registry r) ns a bag, errs,
         mkRS cbs (cache_Put (cache_key t ns ref) a cache) now)
      end
    end.

Fixpoint resolve_loop (r : Resolver) (t : resolve_type) (ref : string) (order : list string)
  (bag : attrs) (errs : list error) (st : rstate) : attrs * list error * rstate :=
  match order with
  | [] => (bag, errs, st)
  | ns :: order' =>
    let '(bag, errs, st) := resolve_one r t ref ns bag errs st in
    resolve_loop r t ref order' bag errs st
  end.

Definition resolveEntity (r : Resolver) (t : resolve_type) (ref : string) (bag : attrs) (st : rstate)
  : attrs * option error * rstate :=
  let '(bag, errs, st) := resolve_loop r t ref (providerOrder r) bag [] st in
  (bag, errors_Join errs, st).

Fixpoint env_loop (r : Resolver) (order : list string) (bag : attrs) (errs : list error) (now : Z)
  : attrs * list error * Z :=
  match order with
  | [] => (bag, errs, now)
  | ns :: order' =>
    let '(res, d) := match envProviders r !! ns with
                     | Some p => safeResolveEnvironment p now
                     | None => (Err (ErrNew "environment provider %s panicked during resolution"), 0%Z)
                     end in
    let now := (now + d)%Z in
    match res with
    | Err e => env_loop r order' bag (errs ++ [e]) now
    | Ok None => env_loop r order' bag errs now
    | Ok (Some a) => env_loop r order' (mergeAttributes (registry r) ns a bag) errs now
    end
  end.

Definition resolveEnvironment (r : Resolver) (bag : attrs) (now : Z) : attrs * option error * Z :=
  let '(bag, errs, now) := env_loop r (envProviderOrder r) bag [] now in
  (bag, errors_Join errs, now).

Definition collect (errs : list error) (e : option error) : list error :=
  match e with Some e => errs ++ [e] | None => errs end.

(** The subject and resource blocks of [Resolve]: the reference is checked, the
    raw id injected, the providers asked. *)
Definition resolve_ref (r : Resolver) (t : resolve_type) (ref : string) (errs : list error) (st : rstate)
  : attrs * list error * rstate :=
  match validateEntityRef ref with
  | Some e => (∅, errs ++ [ErrWrap EmptyString e], st)
  | None =>
    let bag := match cut ":" ref with Some (_, id) => {["id" := AString id]} | None => ∅ end in
    let '(bag, err, st) := resolveEntity r t ref bag st in
    (bag, collect errs err, st)
  end.

Definition with_breakers (r : Resolver) (cbs : gmap string CircuitBreaker) : Resolver :=
  mkResolver (registry r) (providers r) (envProviders r) (providerOrder r) cbs (envProviderOrder r).

Definition action_bag (action : string) : attrs := {["name" := AString action]}.

(** A resolution returns the bags, the joined error, the resolver with its
    breakers updated and the clock. *)
Definition resolution : Type := (option AttributeBags * option error) * (Resolver * Z).

Definition reentrance_panic : string :=
  "resolver re-entrance detected: resolver cannot be called recursively".

Definition Resolve (ctx : context) (req : AccessRequest) (r : Resolver) (now : Z) : outcome resolution :=
  if in_resolution ctx then Panic reentrance_panic
  else
    let st := mkRS (circuitBreakers r) (newAttributeCache 100) now in
    let '(sbag, errs, st) :=
      if is_empty (req_Subject req) then (∅, [], st)
      else resolve_ref r RSubject (req_Subject req) [] st in
    let '(rbag, errs, st) :=
      if is_empty (req_Resource req) then (∅, errs, st)
      else resolve_ref r RResource (req_Resource req) errs st in
    let '(ebag, err, now) := resolveEnvironment r ∅ (rs_now st) in
    let errs := collect errs err in
    Return ((Some (mkBags sbag rbag (action_bag (req_Action req)) ebag), errors_Join errs),
            (with_breakers r (rs_breakers st), now)).

Definition resolveSubjectAttributes (ctx : context) (subject action : string) (skipEnv : bool)
  (r : Resolver) (now : Z) : outcome resolution :=
  if is_empty subject then
    Return ((None, Some (ErrCode "INVALID_ENTITY_REF" "subject is required for ResolveSubjectAttributes")),
            (r, now))
  else if in_resolution ctx then Panic reentrance_panic
  else
    let st := mkRS (circuitBreakers r) (newAttributeCache 100) now in
    let '(sbag, errs, st) := resolve_ref r RSubject subject [] st in
    let '(ebag, err, now) :=
      if skipEnv then (∅, None, rs_now st) else resolveEnvironment r ∅ (rs_now st) in
    let errs := collect errs err in
    Return ((Some (mkBags sbag ∅ (action_bag action) ebag), errors_Join errs),
            (with_breakers r (rs_breakers st), now)).

Definition ResolveSubjectAttributes (ctx : context) (subject action : string) (r : Resolver) (now : Z)
  : outcome resolution :=
  resolveSubjectAttributes ctx subject action false r now.

Definition ResolveSubject (ctx : context) (subject : string) (r : Resolver) (now : Z)
  : outcome ((option attrs * option error) * (Resolver * Z)) :=
  '((bags, err), st) ← resolveSubjectAttributes ctx subject EmptyString true r now;
  Return (match err with
          | Some e => (None, Some e)
          | None => (Subject <$> bags, None)
          end, st).
