(* ===== verification/AttrResolverFacts.v ===== *)
(** Theorems on attribute resolution (AttrResolver.v): the resolver's
    registration invariant, provenance of every resolved attribute, the
    per-resolution cache, and failure handling; and the interface of the
    resolver that the policy engine is proved against. *)

From S2P Require Import Prelude GoStrings PolicyTypes CircuitBreaker AttrResolver.

Open Scope string_scope.
Open Scope list_scope.

(** ** Registration *)

(** The order lists, once each, exactly the namespaces that have a provider,
    and each of them has a breaker. *)
Record resolver_wf (r : Resolver) : Prop := {
  wf_nodup : NoDup (providerOrder r);
  wf_providers : forall ns, ns ∈ providerOrder r <-> is_Some (providers r !! ns);
  wf_breakers : forall ns, is_Some (providers r !! ns) <-> is_Some (circuitBreakers r !! ns);
  wf_nonempty : forall ns, ns ∈ providerOrder r -> ns <> EmptyString;
  wf_env_nodup : NoDup (envProviderOrder r);
  wf_env_providers : forall ns, ns ∈ envProviderOrder r <-> is_Some (envProviders r !! ns)
}.

Lemma NewResolver_wf reg : resolver_wf (NewResolver reg).
Proof.
  constructor; simpl.
  - constructor.
  - intros ns. rewrite lookup_empty. split; [set_solver|by intros [? [=]]].
  - intros ns. by rewrite !lookup_empty, !is_Some_alt.
  - set_solver.
  - constructor.
  - intros ns. rewrite lookup_empty. split; [set_solver|by intros [? [=]]].
Qed.

Lemma register_schema_same r ns s :
  let r' := (register_schema r ns s).1 in
  providers r' = providers r /\ envProviders r' = envProviders r /\
  providerOrder r' = providerOrder r /\ circuitBreakers r' = circuitBreakers r /\
  envProviderOrder r' = envProviderOrder r.
Proof.
  unfold register_schema. destruct s as [s|]; [|done].
  destruct (HasNamespace _ _); [done|]. by destruct (registry_Register _ _ _).
Qed.

Lemma resolver_wf_same r r' :
  providers r' = providers r -> envProviders r' = envProviders r ->
  providerOrder r' = providerOrder r -> circuitBreakers r' = circuitBreakers r ->
  envProviderOrder r' = envProviderOrder r -> resolver_wf r -> resolver_wf r'.
Proof. intros H1 H2 H3 H4 H5 [? ? ? ? ? ?]. constructor; rewrite ?H1, ?H2, ?H3, ?H4, ?H5; auto. Qed.

Lemma register_schema_wf r ns s : resolver_wf r -> resolver_wf (register_schema r ns s).1.
Proof.
  destruct (register_schema_same r ns s) as (? & ? & ? & ? & ?). by apply resolver_wf_same.
Qed.

Lemma insert_is_Some {A} (m : gmap string A) k v k' :
  is_Some (<[k := v]> m !! k') <-> k' = k \/ is_Some (m !! k').
Proof.
  destruct (decide (k = k')) as [->|]; [rewrite lookup_insert_eq|rewrite lookup_insert_ne by done];
    naive_solver.
Qed.

Lemma delete_is_Some {A} (m : gmap string A) k k' :
  is_Some (delete k m !! k') <-> k' <> k /\ is_Some (m !! k').
Proof.
  destruct (decide (k = k')) as [->|]; [rewrite lookup_delete_eq|rewrite lookup_delete_ne by done].
  - split; [intros [? [=]]|naive_solver].
  - naive_solver.
Qed.

Lemma RegisterProvider_wf p r : resolver_wf r -> resolver_wf (RegisterProvider p r).1.
Proof.
  intros Hw. unfold RegisterProvider. destruct (is_empty (ap_Namespace p)) eqn:E; [done|].
  apply is_empty_false in E. destruct (providers r !! ap_Namespace p) eqn:Ep; [done|].
  apply register_schema_wf. destruct Hw as [H1 H2 H3 H4 H5 H6]. constructor; simpl; auto.
  - apply NoDup_app. split_and!; [done| |apply NoDup_singleton].
    intros ns Hin ->%list_elem_of_singleton. apply H2 in Hin. rewrite Ep in Hin. by destruct Hin.
  - intros ns. rewrite insert_is_Some, elem_of_app, list_elem_of_singleton, H2. tauto.
  - intros ns. rewrite !insert_is_Some, H3. tauto.
  - intros ns [Hin| ->%list_elem_of_singleton]%elem_of_app; auto.
Qed.

Lemma RegisterEnvironmentProvider_wf p r :
  resolver_wf r -> resolver_wf (RegisterEnvironmentProvider p r).1.
Proof.
  intros Hw. unfold RegisterEnvironmentProvider. destruct (is_empty (ep_Namespace p)); [done|].
  destruct (envProviders r !! ep_Namespace p) eqn:Ep; [done|].
  apply register_schema_wf. destruct Hw as [H1 H2 H3 H4 H5 H6]. constructor; simpl; auto.
  - apply NoDup_app. split_and!; [done| |apply NoDup_singleton].
    intros ns Hin ->%list_elem_of_singleton. apply H6 in Hin. rewrite Ep in Hin. by destruct Hin.
  - intros ns. rewrite insert_is_Some, elem_of_app, list_elem_of_singleton, H6. tauto.
Qed.

Lemma remove_first_In x l y : NoDup l -> y ∈ remove_first x l <-> y ∈ l /\ y <> x.
Proof.
  induction 1 as [|z l Hz Hl IH]; simpl; [set_solver|].
  destruct (String.eqb_spec z x) as [->|]; set_solver.
Qed.

Lemma remove_first_NoDup x l : NoDup l -> NoDup (remove_first x l).
Proof.
  induction 1 as [|z l Hz Hl IH]; simpl; [constructor|].
  destruct (String.eqb z x); [done|]. constructor; [|done].
  rewrite remove_first_In by done. tauto.
Qed.

Lemma UnregisterProvider_wf ns r : resolver_wf r -> resolver_wf (UnregisterProvider ns r).1.
Proof.
  intros Hw. unfold UnregisterProvider. destruct (providers r !! ns) eqn:Ep; [|done].
  destruct Hw as [H1 H2 H3 H4 H5 H6]. constructor; simpl; auto.
  - by apply remove_first_NoDup.
  - intros m. rewrite remove_first_In, delete_is_Some, H2 by done. tauto.
  - intros m. rewrite !delete_is_Some, H3. tauto.
  - intros m Hm. apply remove_first_In in Hm as [? _]; auto.
Qed.

(** Executions of the registration phase. *)
Inductive reg_op : Type :=
| RegProvider (p : AttributeProvider)
| RegEnvironment (p : EnvironmentProvider)
| Unreg (ns : string).

Definition reg_step (r : Resolver) (op : reg_op) : Resolver :=
  match op with
  | RegProvider p => (RegisterProvider p r).1
  | RegEnvironment p => (RegisterEnvironmentProvider p r).1
  | Unreg ns => (UnregisterProvider ns r).1
  end.

Lemma reg_step_wf r op : resolver_wf r -> resolver_wf (reg_step r op).
Proof.
  destruct op; simpl; [apply RegisterProvider_wf|apply RegisterEnvironmentProvider_wf|
                        apply UnregisterProvider_wf].
Qed.

(** Whatever sequence of registrations and rollbacks has run, the resolver is
    well formed: providers, order and breakers name the same namespaces, with
    no duplicates. *)
Theorem registration_wf reg ops : resolver_wf (fold_left reg_step ops (NewResolver reg)).
Proof.
  generalize (NewResolver_wf reg). generalize (NewResolver reg) as r.
  induction ops as [|op ops IH]; intros r Hr; [done|]. by apply IH, reg_step_wf.
Qed.

(** Rollback is clean.  Registering a provider for a namespace that nothing
    has registered and rolling it back restores the resolver. *)
Theorem register_unregister_roundtrip p r :
  resolver_wf r -> providers r !! ap_Namespace p = None ->
  HasNamespace (registry r) (ap_Namespace p) = false -> ap_Namespace p <> EmptyString ->
  (UnregisterProvider (ap_Namespace p) (RegisterProvider p r).1).1 = r.
Proof.
  intros Hw Hp Hreg Hne. unfold RegisterProvider.
  apply is_empty_false in Hne. rewrite Hne, Hp.
  set (ns := ap_Namespace p) in *.
  set (r1 := mkResolver _ _ _ _ _ _).
  assert (circuitBreakers r !! ns = None) as Hcb.
  { destruct (circuitBreakers r !! ns) eqn:E; [|done].
    assert (is_Some (providers r !! ns)) as [? ?] by (apply (wf_breakers r Hw); eauto). congruence. }
  assert (remove_first ns (providerOrder r ++ [ns]) = providerOrder r) as Hord.
  { assert (ns ∉ providerOrder r) as Hni.
    { rewrite (wf_providers r Hw), Hp. by intros [? [=]]. }
    revert Hni. generalize (providerOrder r) as l. induction l as [|y l IH]; intros Hni; simpl.
    - by rewrite String.eqb_refl.
    - destruct (String.eqb_spec y ns); [set_solver|]. f_equal. apply IH. set_solver. }
  assert (delete ns (namespaces (registry r)) = namespaces (registry r)) as Hsch.
  { apply delete_id. unfold HasNamespace in Hreg. by destruct (namespaces (registry r) !! ns). }
  destruct (register_schema_same r1 ns (ap_Schema p)) as (E1 & E2 & E3 & E4 & E5).
  assert (schema_Remove (registry (register_schema r1 ns (ap_Schema p)).1) ns = registry r) as Er.
  { unfold register_schema. destruct (ap_Schema p) as [s|]; simpl.
    - rewrite Hreg. unfold registry_Register. rewrite Hne, Hreg.
      destruct (bool_decide _); simpl; unfold schema_Remove; simpl.
      + rewrite Hsch. by destruct (registry r).
      + rewrite delete_insert_id.
        * by destruct (registry r).
        * unfold HasNamespace in Hreg. by destruct (namespaces (registry r) !! ns).
    - unfold schema_Remove. rewrite Hsch. by destruct (registry r). }
  unfold UnregisterProvider, UnregisterForRollback. rewrite E1, E2, E3, E4, E5, Er. simpl.
  rewrite lookup_insert_eq. simpl. rewrite Hord, !delete_insert_id by done.
  by destruct r.
Qed.

(** ** Merging *)
Lemma bag_key_inj ns k1 k2 : bag_key ns k1 = bag_key ns k2 -> k1 = k2.
Proof. intros H. do 2 apply app_inj_l_str in H. done. Qed.

Lemma bag_key_not_id ns k : bag_key ns k <> "id".
Proof.
  unfold bag_key. destruct ns as [|a [|b [|c ns]]]; simpl; intros H; try discriminate H.
Qed.

(** What a lookup in a bag finds after merging attributes [a] over it. *)
Definition merged (reg : AttributeSchema) (ns : string) (a bag : attrs) (k : string) (v : any) : Prop :=
  (exists key, k = bag_key ns key /\ IsRegistered reg ns key = true /\ a !! key = Some v) \/
  ((forall key, k = bag_key ns key -> IsRegistered reg ns key = true -> a !! key = None) /\
   bag !! k = Some v).

Lemma merged_ext reg ns a a' bag k v :
  (forall key, k = bag_key ns key -> IsRegistered reg ns key = true -> a !! key = a' !! key) ->
  merged reg ns a bag k v <-> merged reg ns a' bag k v.
Proof.
  intros H. unfold merged. split; (intros [(key & H1 & H2 & H3)|[H1 H2]]; [left|right]).
  - exists key. rewrite <- H by done. done.
  - split; [|done]. intros key Hk Hr. rewrite <- H by done. auto.
  - exists key. rewrite H by done. done.
  - split; [|done]. intros key Hk Hr. rewrite H by done. auto.
Qed.

Lemma mergeAttributes_lookup reg ns a bag k v :
  mergeAttributes reg ns a bag !! k = Some v <-> merged reg ns a bag k v.
Proof.
  unfold mergeAttributes. revert k v.
  apply (map_fold_weak_ind (fun res a => forall k v, res !! k = Some v <-> merged reg ns a bag k v)).
  - intros k v. unfold merged. split; [auto|]. intros [(? & _ & _ & [=])|[_ ?]]; done.
  - intros key x m res Hm IH k v. destruct (IsRegistered reg ns key) eqn:Er.
    + destruct (decide (bag_key ns key = k)) as [<-|Hne].
      * rewrite lookup_insert_eq. split.
        -- intros [= ->]. left. exists key. by rewrite lookup_insert_eq.
        -- intros [(key' & Hk & _ & Hl)|[Hn _]].
           ++ apply bag_key_inj in Hk as <-. by rewrite lookup_insert_eq in Hl.
           ++ specialize (Hn key eq_refl Er). by rewrite lookup_insert_eq in Hn.
      * rewrite lookup_insert_ne, IH by done. apply merged_ext.
        intros key' -> _. rewrite lookup_insert_ne; congruence.
    + rewrite IH. apply merged_ext. intros key' _ Hr. rewrite lookup_insert_ne; congruence.
Qed.

Lemma mergeAttributes_id reg ns a bag : mergeAttributes reg ns a bag !! "id" = bag !! "id".
Proof.
  apply option_eq. intros v. rewrite mergeAttributes_lookup. unfold merged. split.
  - intros [(key & Hk & _)|[_ ?]]; [|done]. by destruct (bag_key_not_id ns key).
  - intros H. right. split; [|done]. intros key Hk. by destruct (bag_key_not_id ns key).
Qed.

(** ** The LRU cache *)
Record cache_wf (c : attributeCache) : Prop := {
  cwf_nodup : NoDup (map fst (lru c));
  cwf_items : forall k, k ∈ items c <-> k ∈ map fst (lru c);
  cwf_cap : length (lru c) <= capacity c
}.

Lemma lru_remove_keys k l x : x ∈ map fst (lru_remove k l) <-> x ∈ map fst l /\ x <> k.
Proof.
  induction l as [|[y v] l IH]; simpl; [set_solver|].
  destruct (String.eqb_spec y k) as [->|]; simpl; set_solver.
Qed.

Lemma lru_remove_NoDup k l : NoDup (map fst l) -> NoDup (map fst (lru_remove k l)).
Proof.
  induction l as [|[y v] l IH]; simpl; [done|]. intros [Hy Hl]%NoDup_cons.
  destruct (String.eqb_spec y k) as [->|]; simpl; [auto|]. constructor; [|auto].
  rewrite lru_remove_keys. tauto.
Qed.

Lemma lru_remove_length k l : length (lru_remove k l) <= length l.
Proof. apply filter_length_le. Qed.

Lemma lru_remove_length_In k l :
  NoDup (map fst l) -> k ∈ map fst l -> S (length (lru_remove k l)) = length l.
Proof.
  induction l as [|[y v] l IH]; simpl; [set_solver|]. intros [Hy Hl]%NoDup_cons Hin.
  destruct (String.eqb_spec y k) as [->|Hne]; simpl.
  - f_equal. f_equal. clear -Hy. induction l as [|[z w] l IH]; simpl; [done|].
    destruct (String.eqb_spec z k) as [->|]; simpl; [set_solver|]. f_equal. apply IH. set_solver.
  - f_equal. apply IH; [done|]. set_solver.
Qed.

Lemma lru_find_Some k l v :
  NoDup (map fst l) -> lru_find k l = Some v <-> (k, v) ∈ l.
Proof.
  unfold lru_find. induction l as [|[y w] l IH]; simpl.
  - intros _. split; [done|set_solver].
  - intros [Hy Hl]%NoDup_cons. destruct (String.eqb_spec y k) as [->|]; simpl.
    + rewrite elem_of_cons. split; [intros [= ->]; auto|]. intros [[= ->]|Hin]; [done|].
      destruct Hy. apply list_elem_of_fmap. by exists (k, v).
    + rewrite IH, elem_of_cons by done. naive_solver.
Qed.

Lemma lru_remove_In k l e : e ∈ lru_remove k l <-> e ∈ l /\ e.1 <> k.
Proof.
  unfold lru_remove. rewrite !list_elem_of_In, filter_In.
  destruct (String.eqb_spec e.1 k); simpl; naive_solver.
Qed.

Lemma touch_wf k v c :
  cache_wf c -> k ∈ items c ->
  cache_wf (mkCache (capacity c) (items c) ((k, v) :: lru_remove k (lru c))).
Proof.
  intros [H1 H2 H3] Hk. constructor; simpl.
  - constructor; [rewrite lru_remove_keys; tauto|by apply lru_remove_NoDup].
  - intros x. rewrite elem_of_cons, lru_remove_keys, H2. apply H2 in Hk.
    destruct (decide (x = k)) as [->|]; tauto.
  - rewrite lru_remove_length_In; [done|done|by apply H2].
Qed.

Lemma cache_Get_wf k c : cache_wf c -> cache_wf (cache_Get k c).2.
Proof.
  intros Hw. unfold cache_Get. destruct (bool_decide_reflect (k ∈ items c)); [|done].
  destruct (lru_find k (lru c)); [by apply touch_wf|done].
Qed.

Lemma removelast_last {A} (l : list A) x : last l = Some x -> l = removelast l ++ [x].
Proof.
  intros H. apply last_Some in H as [l' ->]. by rewrite removelast_last.
Qed.

Lemma cache_Put_wf k v c : cache_wf c -> cache_wf (cache_Put k v c).
Proof.
  intros Hw. unfold cache_Put. destruct (bool_decide_reflect (k ∈ items c)) as [Hk|Hk];
    [by apply touch_wf|]. destruct Hw as [H1 H2 H3].
  assert (NoDup (map fst ((k, v) :: lru c))) as Hnd.
  { simpl. constructor; [by rewrite <- H2|done]. }
  destruct (Nat.ltb_spec (capacity c) (length ((k, v) :: lru c))).
  - destruct (last ((k, v) :: lru c)) as [[ok ov]|] eqn:El.
    2:{ apply last_None in El. discriminate. }
    apply removelast_last in El. set (l := removelast ((k, v) :: lru c)) in *.
    assert (map fst ((k, v) :: lru c) = map fst l ++ [ok]) as Em by (rewrite El, map_app; done).
    constructor; simpl.
    + rewrite Em in Hnd. by apply NoDup_app in Hnd as (? & _ & _).
    + intros x. rewrite elem_of_difference, elem_of_union, !elem_of_singleton, H2.
      rewrite Em in Hnd. apply NoDup_app in Hnd as (_ & Hd & _).
      assert (x ∈ map fst ((k, v) :: lru c) <-> x ∈ map fst l \/ x = ok) as Hx.
      { by rewrite Em, elem_of_app, list_elem_of_singleton. }
      simpl in Hx. rewrite elem_of_cons in Hx. specialize (Hd x).
      rewrite list_elem_of_singleton in Hd. tauto.
    + apply (f_equal length) in El. rewrite length_app in El. simpl in El, H. lia.
  - constructor; simpl; [done| |simpl in H; lia].
    intros x. rewrite elem_of_union, elem_of_singleton, H2. by rewrite elem_of_cons.
Qed.

Lemma last_cons_ne {A} (x y : A) l : last (x :: l) = Some y -> l <> [] -> last l = Some y.
Proof. destruct l; done. Qed.

(** The LRU cache.  Its invariant (keys unique, index in step with the list,
    at most capacity entries) is preserved by every operation; a stored entry
    is found again; and storing a new key keeps every other entry except, when
    the cache is full, the least recently used one. *)
Theorem lru_cache_correct k v c :
  cache_wf c -> 0 < capacity c ->
  cache_wf (cache_Put k v c) /\ cache_wf (cache_Get k c).2 /\
  (cache_Get k (cache_Put k v c)).1 = Some v /\
  (forall k' w, k' <> k -> (cache_Get k' c).1 = Some w ->
     (cache_Get k' (cache_Put k v c)).1 = Some w \/
     (length (lru c) = capacity c /\ last (lru c) = Some (k', w))).
Proof.
  intros Hw Hcap. pose proof (cache_Put_wf k v c Hw) as Hw'.
  assert (forall c x w, cache_wf c -> (cache_Get x c).1 = Some w <-> (x, w) ∈ lru c) as Hget.
  { intros c' x w Hc'. unfold cache_Get. destruct (bool_decide_reflect (x ∈ items c')) as [Hx|Hx].
    - rewrite <- lru_find_Some by apply Hc'. by destruct (lru_find x (lru c')).
    - split; [done|]. intros Hin. destruct Hx. apply (cwf_items c' Hc').
      apply list_elem_of_fmap. by exists (x, w). }
  split_and!; [done|by apply cache_Get_wf| |].
  - apply Hget; [done|]. unfold cache_Put. destruct (bool_decide (k ∈ items c)); simpl; [set_solver|].
    destruct (Nat.ltb_spec (capacity c) (S (length (lru c)))); simpl; [|set_solver].
    destruct (lru c) as [|e l]; [simpl in *; lia|]. simpl. destruct (last _); simpl; set_solver.
  - intros k' w Hne Hg. rewrite Hget by done. apply Hget in Hg; [|done].
    unfold cache_Put. destruct (bool_decide (k ∈ items c)); simpl.
    { left. rewrite elem_of_cons, lru_remove_In. auto. }
    destruct (Nat.ltb_spec (capacity c) (S (length (lru c)))); simpl; [|left; set_solver].
    pose proof (cwf_cap c Hw). destruct (last ((k, v) :: lru c)) as [e|] eqn:El; simpl; [|left; set_solver].
    assert ((k', w) ∈ (k, v) :: lru c) as Hin by set_solver.
    pose proof El as El'. apply removelast_last in El'. rewrite El' in Hin.
    apply elem_of_app in Hin as [Hin|Hin]; [by left|right]. apply list_elem_of_singleton in Hin as <-.
    split; [lia|]. apply last_cons_ne in El; [done|]. intros El0. rewrite El0 in Hg. set_solver.
Qed.

(** ** Resolution without the cache

    The reference: the same providers asked in the same order, each once, and no
    cache. *)
Definition plain_one (r : Resolver) (t : resolve_type) (ref ns : string)
  (bag : attrs) (errs : list error) (cbs : gmap string CircuitBreaker) (now : Z)
  : attrs * list error * (gmap string CircuitBreaker * Z) :=
  let '(skip, cbs) := check_breaker ns now cbs in
  if skip then (bag, errs, (cbs, now))
  else
    let '(res, d) := match providers r !! ns with
                     | Some p => safeResolve p t now ref
                     | None => (Err (ErrNew "provider %s panicked during %s resolution"), 0%Z)
                     end in
    let cbs := record_call ns (now + d) d (negb (is_ok res)) cbs in
    match res with
    | Err e => (bag, errs ++ [e], (cbs, (now + d)%Z))
    | Ok None => (bag, errs, (cbs, (now + d)%Z))
    | Ok (Some a) => (mergeAttributes (registry r) ns a bag, errs, (cbs, (now + d)%Z))
    end.

Fixpoint plain_loop (r : Resolver) (t : resolve_type) (ref : string) (order : list string)
  (bag : attrs) (errs : list error) (cbs : gmap string CircuitBreaker) (now : Z)
  : attrs * list error * (gmap string CircuitBreaker * Z) :=
  match order with
  | [] => (bag, errs, (cbs, now))
  | ns :: order' =>
    let '(bag, errs, (cbs, now)) := plain_one r t ref ns bag errs cbs now in
    plain_loop r t ref order' bag errs cbs now
  end.

Definition id_bag (ref : string) : attrs :=
  match cut ":" ref with Some (_, id) => {["id" := AString id]} | None => ∅ end.

Definition plain_ref (r : Resolver) (t : resolve_type) (ref : string) (errs : list error)
  (cbs : gmap string CircuitBreaker) (now : Z)
  : attrs * list error * (gmap string CircuitBreaker * Z) :=
  match validateEntityRef ref with
  | Some e => (∅, errs ++ [ErrWrap EmptyString e], (cbs, now))
  | None =>
    let '(bag, es, st) := plain_loop r t ref (providerOrder r) (id_bag ref) [] cbs now in
    (bag, collect errs (errors_Join es), st)
  end.

Definition plain_Resolve (req : AccessRequest) (r : Resolver) (now : Z) : resolution :=
  let '(sbag, errs, (cbs, now)) :=
    if is_empty (req_Subject req) then (∅, [], (circuitBreakers r, now))
    else plain_ref r RSubject (req_Subject req) [] (circuitBreakers r) now in
  let '(rbag, errs, (cbs, now)) :=
    if is_empty (req_Resource req) then (∅, errs, (cbs, now))
    else plain_ref r RResource (req_Resource req) errs cbs now in
  let '(ebag, err, now) := resolveEnvironment r ∅ now in
  ((Some (mkBags sbag rbag (action_bag (req_Action req)) ebag), errors_Join (collect errs err)),
   (with_breakers r cbs, now)).

Lemma cache_Put_items k v c : items (cache_Put k v c) ⊆ {[k]} ∪ items c.
Proof.
  unfold cache_Put. destruct (bool_decide (k ∈ items c)); simpl; [set_solver|].
  destruct (_ <? _)%nat; simpl; [|set_solver].
  destruct (last _) as [e|]; simpl; set_solver.
Qed.

Lemma cache_key_inj t ns ns' ref : cache_key t ns ref = cache_key t ns' ref -> ns = ns'.
Proof.
  unfold cache_key. intros H. do 2 apply app_inj_l_str in H. by apply app_inj_r_str in H.
Qed.

Lemma cache_key_types ns ns' ref ref' : cache_key RSubject ns ref <> cache_key RResource ns' ref'.
Proof. unfold cache_key. simpl. intros H. discriminate H. Qed.

Lemma resolve_one_plain r t ref ns bag errs st :
  cache_key t ns ref ∉ items (rs_cache st) ->
  exists c', items c' ⊆ {[cache_key t ns ref]} ∪ items (rs_cache st) /\
    let '(b, e, (cbs, now)) := plain_one r t ref ns bag errs (rs_breakers st) (rs_now st) in
    resolve_one r t ref ns bag errs st = (b, e, mkRS cbs c' now).
Proof.
  intros Hni. unfold resolve_one, plain_one.
  destruct (check_breaker ns (rs_now st) (rs_breakers st)) as [[] cbs].
  { exists (rs_cache st). split; [set_solver|done]. }
  unfold cache_Get. rewrite bool_decide_eq_false_2 by done.
  destruct (match providers r !! ns with Some p => _ | None => _ end) as [[[a|]|e] d];
    (eexists; split; [|reflexivity]; first [apply cache_Put_items|set_solver]).
Qed.

Lemma resolve_loop_plain r t ref order bag errs st :
  NoDup order -> (forall ns, ns ∈ order -> cache_key t ns ref ∉ items (rs_cache st)) ->
  exists c', (forall k, k ∈ items c' ->
                k ∈ items (rs_cache st) \/ exists ns, ns ∈ order /\ k = cache_key t ns ref) /\
    let '(b, e, (cbs, now)) := plain_loop r t ref order bag errs (rs_breakers st) (rs_now st) in
    resolve_loop r t ref order bag errs st = (b, e, mkRS cbs c' now).
Proof.
  revert bag errs st. induction order as [|ns order IH]; intros bag errs st Hnd Hf; simpl.
  { exists (rs_cache st). split; [auto|]. by destruct st. }
  apply NoDup_cons in Hnd as [Hni Hnd].
  destruct (resolve_one_plain r t ref ns bag errs st) as (c1 & Hc1 & Heq).
  { apply Hf. set_solver. }
  destruct (plain_one r t ref ns bag errs (rs_breakers st) (rs_now st)) as [[b e] [cbs now]].
  rewrite Heq. destruct (IH b e (mkRS cbs c1 now) Hnd) as (c2 & Hc2 & Heq2).
  { intros ns' Hin Hk. simpl in Hk. apply Hc1, elem_of_union in Hk as [Hk|Hk].
    - apply elem_of_singleton in Hk. apply cache_key_inj in Hk as ->. done.
    - revert Hk. apply Hf. set_solver. }
  simpl in *. exists c2. split; [|done]. intros k Hk.
  destruct (Hc2 k Hk) as [Hk1|(ns' & Hin & ->)]; [|right; exists ns'; set_solver].
  apply Hc1 in Hk1. apply elem_of_union in Hk1 as [Hk1|Hk1]; [|by left].
  apply elem_of_singleton in Hk1 as ->. right. exists ns. set_solver.
Qed.

Lemma resolve_ref_plain r t ref errs st :
  NoDup (providerOrder r) ->
  (forall ns, cache_key t ns ref ∉ items (rs_cache st)) ->
  exists c', (forall k, k ∈ items c' ->
                k ∈ items (rs_cache st) \/ exists ns, k = cache_key t ns ref) /\
    let '(b, e, (cbs, now)) := plain_ref r t ref errs (rs_breakers st) (rs_now st) in
    resolve_ref r t ref errs st = (b, e, mkRS cbs c' now).
Proof.
  intros Hnd Hf. unfold resolve_ref, plain_ref. destruct (validateEntityRef ref).
  { exists (rs_cache st). split; [auto|]. by destruct st. }
  unfold resolveEntity. fold (id_bag ref).
  destruct (resolve_loop_plain r t ref (providerOrder r) (id_bag ref) [] st Hnd)
    as (c' & Hc & Heq); [auto|].
  destruct (plain_loop r t ref (providerOrder r) (id_bag ref) [] (rs_breakers st) (rs_now st))
    as [[b e] [cbs now]].
  exists c'. rewrite Heq. split; [|done]. intros k Hk. destruct (Hc k Hk) as [?|(ns & _ & ->)]; eauto.
Qed.

Lemma Resolve_plain ctx req r now :
  resolver_wf r -> in_resolution ctx = false ->
  Resolve ctx req r now = Return (plain_Resolve req r now).
Proof.
  intros Hw Hctx. unfold Resolve, plain_Resolve. rewrite Hctx. pose proof (wf_nodup r Hw) as Hnd.
  set (st := mkRS (circuitBreakers r) (newAttributeCache 100) now).
  assert (exists c1, (forall ns, cache_key RResource ns (req_Resource req) ∉ items c1) /\
    let '(b, e, (cbs, now)) := if is_empty (req_Subject req) then (∅, [], (circuitBreakers r, now))
      else plain_ref r RSubject (req_Subject req) [] (circuitBreakers r) now in
    (if is_empty (req_Subject req) then (∅, [], st)
     else resolve_ref r RSubject (req_Subject req) [] st) = (b, e, mkRS cbs c1 now)) as (c1 & Hc1 & E1).
  { destruct (is_empty (req_Subject req)).
    - exists (newAttributeCache 100). split; [set_solver|done].
    - destruct (resolve_ref_plain r RSubject (req_Subject req) [] st Hnd) as (c' & Hc & Heq);
        [set_solver|]. exists c'. split; [|done]. intros ns Hk.
      destruct (Hc _ Hk) as [?|(ns' & E)]; [set_solver|]. by symmetry in E; apply cache_key_types in E. }
  destruct (if is_empty (req_Subject req) then (∅, [], (circuitBreakers r, now)) else _)
    as [[sb es] [cbs now1]]. rewrite E1.
  destruct (is_empty (req_Resource req)).
  { simpl. by destruct (resolveEnvironment r ∅ now1) as [[? ?] ?]. }
  destruct (resolve_ref_plain r RResource (req_Resource req) es (mkRS cbs c1 now1) Hnd Hc1)
    as (c2 & _ & E2). simpl in E2.
  destruct (plain_ref r RResource (req_Resource req) es cbs now1) as [[rb er] [cbs2 now2]].
  rewrite E2. simpl. by destruct (resolveEnvironment r ∅ now2) as [[? ?] ?].
Qed.

(** C38: the per-resolution cache is transparent.  For a well-formed resolver a
    resolution returns exactly what asking every provider of the order once
    and keeping no cache returns, breakers and clock included. *)
Theorem Resolve_cache_transparent ctx req r now :
  resolver_wf r -> in_resolution ctx = false ->
  Resolve ctx req r now = Return (plain_Resolve req r now).
Proof. apply Resolve_plain. Qed.

(** ** Provenance *)
Lemma validateEntityRef_None ref :
  validateEntityRef ref = None <->
  exists t id, ref = t +:+ ":" +:+ id /\ ~ str_in ":" t /\ t <> EmptyString /\ id <> EmptyString.
Proof.
  unfold validateEntityRef, SplitN2. destruct (cut ":" ref) as [[t id]|] eqn:E.
  - apply cut_Some in E as [-> Hn].
    destruct (is_empty t) eqn:Et; [|destruct (is_empty id) eqn:Ei]; simpl;
      rewrite ?is_empty_spec, ?is_empty_false in *.
    + subst. split; [done|]. intros (t' & id' & H & Hn' & Ht & _).
      destruct t' as [|c t']; [done|]. rewrite app_cons_str in H. injection H as <- _. simpl in Hn'. tauto.
    + subst. split; [done|]. intros (t' & id' & H & Hn' & Ht & Hid).
      assert (cut ":" (t +:+ String ":" EmptyString) = Some (t', id')) as E by (apply cut_Some; auto).
      rewrite cut_app in E by done. injection E as _ <-. done.
    + split; [|done]. intros _. exists t, id. auto.
  - split; [done|]. intros (t & id & -> & Hn & _).
    assert (cut ":" (t +:+ String ":" id) = None) as E' by done. by rewrite cut_app in E'.
Qed.

(** Attribute [k] with value [v] comes from a provider of the order: the
    provider returned it for [ref], under a key its namespace registered. *)
Definition provided (r : Resolver) (t : resolve_type) (ref : string) (order : list string)
  (k : string) (v : any) : Prop :=
  exists ns key p a nw d, ns ∈ order /\ k = bag_key ns key /\ IsRegistered (registry r) ns key = true /\
    providers r !! ns = Some p /\ provider_call p t nw ref = (PReturn (Some a) None, d) /\
    a !! key = Some v.

Lemma provided_mono r t ref o1 o2 k v :
  (forall x, x ∈ o1 -> x ∈ o2) -> provided r t ref o1 k v -> provided r t ref o2 k v.
Proof. intros H (ns & key & p & a & nw & d & ? & ?). exists ns, key, p, a, nw, d. naive_solver. Qed.

Lemma safeResolve_Ok p t now ref a d :
  safeResolve p t now ref = (Ok a, d) -> provider_call p t now ref = (PReturn a None, d).
Proof.
  unfold safeResolve. destruct (provider_call p t now ref) as [[b [e|]|] d']; simpl; naive_solver.
Qed.

Lemma plain_one_bag r t ref ns bag errs cbs now :
  let '(b, _, _) := plain_one r t ref ns bag errs cbs now in
  b !! "id" = bag !! "id" /\
  forall k v, b !! k = Some v -> bag !! k = Some v \/ provided r t ref [ns] k v.
Proof.
  unfold plain_one. destruct (check_breaker ns now cbs) as [[] cbs']; [auto|].
  destruct (providers r !! ns) as [p|] eqn:Ep; [|simpl; auto].
  destruct (safeResolve p t now ref) as [[[a|]|e] d] eqn:Es; simpl; auto.
  split; [apply mergeAttributes_id|]. intros k v [(key & -> & Hr & Ha)|[_ Hb]]%mergeAttributes_lookup; auto.
  right. apply safeResolve_Ok in Es. exists ns, key, p, a, now, d. split_and!; auto. set_solver.
Qed.

Lemma plain_loop_bag r t ref order bag errs cbs now :
  let '(b, _, _) := plain_loop r t ref order bag errs cbs now in
  b !! "id" = bag !! "id" /\
  forall k v, b !! k = Some v -> bag !! k = Some v \/ provided r t ref order k v.
Proof.
  revert bag errs cbs now. induction order as [|ns order IH]; intros bag errs cbs now; simpl; [auto|].
  pose proof (plain_one_bag r t ref ns bag errs cbs now) as H.
  destruct (plain_one r t ref ns bag errs cbs now) as [[b e] [cbs1 now1]]. destruct H as [Hid Hk].
  specialize (IH b e cbs1 now1).
  destruct (plain_loop r t ref order b e cbs1 now1) as [[b2 e2] st2]. destruct IH as [Hid2 Hk2].
  split; [congruence|]. intros k v Hb. destruct (Hk2 k v Hb) as [Hb'|Hp].
  - destruct (Hk k v Hb') as [?|Hp]; [auto|]. right. eapply provided_mono; [|done]. set_solver.
  - right. eapply provided_mono; [|done]. set_solver.
Qed.

(** The resolved bag of a reference: exactly its raw id under "id", and
    provider attributes. *)
Definition bag_from (r : Resolver) (t : resolve_type) (ref : string) (b : attrs) : Prop :=
  (forall v, b !! "id" = Some v -> exists ty id, ref = ty +:+ ":" +:+ id /\ ~ str_in ":" ty /\ v = AString id) /\
  (forall k v, k <> "id" -> b !! k = Some v -> provided r t ref (providerOrder r) k v) /\
  (validateEntityRef ref = None -> is_Some (b !! "id")).

Lemma id_bag_lookup ref k v :
  id_bag ref !! k = Some v <->
  k = "id" /\ exists ty id, ref = ty +:+ ":" +:+ id /\ ~ str_in ":" ty /\ v = AString id.
Proof.
  unfold id_bag. destruct (cut ":" ref) as [[ty id]|] eqn:E.
  - apply cut_Some in E as [-> Hn]. rewrite lookup_singleton_Some. split.
    + intros [<- <-]. split; [done|]. exists ty, id. auto.
    + intros (-> & ty' & id' & H & Hn' & ->). split; [done|].
      assert (cut ":" (ty +:+ String ":" id) = Some (ty', id')) as E by (apply cut_Some; auto).
      rewrite cut_app in E by done. congruence.
  - rewrite lookup_empty. split; [done|]. intros (_ & ty & id & -> & Hn & _).
    assert (cut ":" (ty +:+ String ":" id) = None) as E' by done. by rewrite cut_app in E'.
Qed.

Lemma plain_ref_bag r t ref errs cbs now :
  let '(b, e, _) := plain_ref r t ref errs cbs now in
  bag_from r t ref b \/ (b = ∅ /\ e <> [] ).
Proof.
  unfold plain_ref. destruct (validateEntityRef ref) eqn:Ev.
  { right. split; [done|]. by destruct errs. }
  pose proof (plain_loop_bag r t ref (providerOrder r) (id_bag ref) [] cbs now) as H.
  destruct (plain_loop _ _ _ _ _ _ _ _) as [[b e] st]. destruct H as [Hid Hk]. left. split_and!.
  - intros v Hv. rewrite Hid in Hv. by apply id_bag_lookup in Hv as [_ ?].
  - intros k v Hne Hb. destruct (Hk k v Hb) as [Hb'|?]; [|done]. by apply id_bag_lookup in Hb' as [? _].
  - intros _. rewrite Hid. apply validateEntityRef_None in Ev as (ty & id & -> & Hn & _).
    exists (AString id). apply id_bag_lookup. split; [done|]. exists ty, id. auto.
Qed.

(** The errors collected before a step are kept by it. *)
Lemma collect_nil errs e : collect errs e = [] <-> errs = [] /\ e = None.
Proof. destruct e; simpl; [|naive_solver]. destruct errs; naive_solver. Qed.

Lemma plain_ref_errs r t ref errs cbs now :
  (plain_ref r t ref errs cbs now).1.2 = [] -> errs = [] /\ validateEntityRef ref = None.
Proof.
  unfold plain_ref. destruct (validateEntityRef ref); simpl.
  - destruct errs; naive_solver.
  - destruct (plain_loop _ _ _ _ _ _ _ _) as [[b e] st]. simpl.
    intros [? _]%collect_nil. done.
Qed.

(** Provenance of attributes (rule S6).  When a resolution succeeds, both
    references are well formed, every attribute of the subject and resource
    bags is either the raw id of the reference under "id", or was returned by
    a registered provider for that reference under a key its namespace
    declares, stored under "namespace.key"; the action bag holds only the
    action's name.  No provider can forge "id" or "name". *)
Theorem Resolve_provenance ctx req r now b st' :
  resolver_wf r -> Resolve ctx req r now = Return ((b, None), st') ->
  req_Subject req <> EmptyString -> req_Resource req <> EmptyString ->
  exists bags, b = Some bags /\
    validateEntityRef (req_Subject req) = None /\ validateEntityRef (req_Resource req) = None /\
    bag_from r RSubject (req_Subject req) (Subject bags) /\
    bag_from r RResource (req_Resource req) (Resource bags) /\
    Action bags = action_bag (req_Action req).
Proof.
  intros Hw HR Hs Hr. destruct (in_resolution ctx) eqn:Hctx; [unfold Resolve in HR; by rewrite Hctx in HR|].
  rewrite Resolve_plain in HR by done. injection HR as HR. revert HR. unfold plain_Resolve.
  apply is_empty_false in Hs, Hr. rewrite Hs, Hr.
  pose proof (plain_ref_bag r RSubject (req_Subject req) [] (circuitBreakers r) now) as HS.
  pose proof (plain_ref_errs r RSubject (req_Subject req) [] (circuitBreakers r) now) as HSe.
  destruct (plain_ref _ RSubject _ _ _ _) as [[sb es] [cbs now1]].
  pose proof (plain_ref_bag r RResource (req_Resource req) es cbs now1) as HB.
  pose proof (plain_ref_errs r RResource (req_Resource req) es cbs now1) as HBe.
  destruct (plain_ref _ RResource _ _ _ _) as [[rb er] [cbs2 now2]]. simpl in *.
  destruct (resolveEnvironment r ∅ now2) as [[eb ee] now3]. intros [= <- Hn _].
  apply errors_Join_None, collect_nil in Hn as [-> _].
  destruct (HBe eq_refl) as [-> ?]. destruct (HSe eq_refl) as [_ ?].
  destruct HS as [HS|[_ ?]]; [|done]. destruct HB as [HB|[_ ?]]; [|done].
  eexists. split; [reflexivity|]. auto.
Qed.

(** ** Fail-closed *)

(** A breaker that lets calls through. *)
Definition breaker_ready (cb : CircuitBreaker) : Prop :=
  cb_state cb <> CircuitStateOpen /\ cb_probeInFlight cb = false.

Lemma ShouldSkip_ready now cb : breaker_ready cb -> ShouldSkip now cb = (false, cb).
Proof.
  intros [H1 H2]. unfold ShouldSkip. rewrite maybeTransition_not_open by done.
  rewrite H2, andb_false_r, bool_decide_eq_false_2 by done. done.
Qed.

Lemma check_breaker_other ns ns' now cbs :
  ns <> ns' -> (check_breaker ns now cbs).2 !! ns' = cbs !! ns'.
Proof.
  intros H. unfold check_breaker. destruct (cbs !! ns); [|done].
  destruct (ShouldSkip now c). simpl. by rewrite lookup_insert_ne.
Qed.

Lemma record_call_other ns ns' now d f cbs :
  ns <> ns' -> record_call ns now d f cbs !! ns' = cbs !! ns'.
Proof. intros H. unfold record_call. destruct (cbs !! ns); [|done]. by rewrite lookup_insert_ne. Qed.

Lemma plain_one_other r t ref ns ns' bag errs cbs now :
  ns <> ns' ->
  let '(_, e, (cbs', _)) := plain_one r t ref ns bag errs cbs now in
  cbs' !! ns' = cbs !! ns' /\ (errs <> [] -> e <> []).
Proof.
  intros H. unfold plain_one. pose proof (check_breaker_other ns ns' now cbs H) as Hc.
  destruct (check_breaker ns now cbs) as [[] cbs']; simpl in Hc; [auto|].
  destruct (match providers r !! ns with Some p => _ | None => _ end) as [[[a|]|e] d]; simpl;
    rewrite record_call_other by done; split; auto. by destruct errs.
Qed.

Lemma plain_loop_errs_mono r t ref order bag errs cbs now :
  errs <> [] -> (plain_loop r t ref order bag errs cbs now).1.2 <> [].
Proof.
  revert bag errs cbs now. induction order as [|ns order IH]; intros bag errs cbs now H; simpl; [done|].
  assert (ns <> ns +:+ "x") as Hne.
  { intros E. apply (f_equal String.length) in E. rewrite length_app_str in E. simpl in E. lia. }
  pose proof (plain_one_other r t ref ns _ bag errs cbs now Hne) as Ho.
  destruct (plain_one r t ref ns bag errs cbs now) as [[b e] [cbs1 now1]]. apply IH. by apply Ho.
Qed.

(** The provider fails on [ref] whenever it is asked. *)
Definition fails (p : AttributeProvider) (t : resolve_type) (ref : string) : Prop :=
  forall nw, is_ok (safeResolve p t nw ref).1 = false.

Lemma plain_loop_fails r t ref ns p cb order bag errs cbs now :
  ns ∈ order -> providers r !! ns = Some p -> fails p t ref ->
  cbs !! ns = Some cb -> breaker_ready cb ->
  (plain_loop r t ref order bag errs cbs now).1.2 <> [].
Proof.
  intros Hin Hp Hf Hcb Hrdy. revert bag errs cbs now Hin Hcb.
  induction order as [|m order IH]; intros bag errs cbs now Hin Hcb; [set_solver|]. simpl.
  destruct (decide (m = ns)) as [->|Hne].
  - unfold plain_one, check_breaker. rewrite Hcb, ShouldSkip_ready, Hp by done.
    specialize (Hf now). destruct (safeResolve p t now ref) as [[a|e] d]; [done|].
    apply plain_loop_errs_mono. by destruct errs.
  - pose proof (plain_one_other r t ref m ns bag errs cbs now Hne) as Ho.
    destruct (plain_one r t ref m bag errs cbs now) as [[b e] [cbs1 now1]].
    apply IH; [set_solver|]. destruct Ho as [-> _]. done.
Qed.

(** A failing or panicking subject provider fails the resolution, so the
    engine denies, as long as its breaker lets the call through. *)
Theorem failing_provider_fails_closed ctx req r now ns p cb b err st' :
  resolver_wf r -> Resolve ctx req r now = Return ((b, err), st') ->
  req_Subject req <> EmptyString ->
  providers r !! ns = Some p -> fails p RSubject (req_Subject req) ->
  circuitBreakers r !! ns = Some cb -> breaker_ready cb ->
  err <> None.
Proof.
  intros Hw HR Hs Hp Hf Hcb Hrdy.
  destruct (in_resolution ctx) eqn:Hctx; [unfold Resolve in HR; by rewrite Hctx in HR|].
  rewrite Resolve_plain in HR by done. injection HR as HR. revert HR. unfold plain_Resolve.
  apply is_empty_false in Hs. rewrite Hs.
  assert ((plain_ref r RSubject (req_Subject req) [] (circuitBreakers r) now).1.2 <> []) as He.
  { unfold plain_ref. destruct (validateEntityRef _); [done|].
    pose proof (plain_loop_fails r RSubject (req_Subject req) ns p cb (providerOrder r)
                  (id_bag (req_Subject req)) [] (circuitBreakers r) now) as H.
    destruct (plain_loop _ _ _ _ _ _ _ _) as [[? e] ?]. simpl in *.
    rewrite collect_nil, errors_Join_None. intros [_ ->]. apply H; auto.
    apply (wf_providers r Hw). eauto. }
  destruct (plain_ref _ RSubject _ _ _ _) as [[sb es] [cbs now1]]. simpl in He.
  assert (forall x, (plain_ref r RResource x es cbs now1).1.2 <> []) as He2.
  { intros x Hx. by apply plain_ref_errs in Hx as [? _]. }
  specialize (He2 (req_Resource req)).
  destruct (is_empty (req_Resource req)); simpl.
  - destruct (resolveEnvironment r ∅ now1) as [[? ?] ?]. intros [= _ <- _].
    rewrite errors_Join_None, collect_nil. tauto.
  - destruct (plain_ref _ RResource _ _ _ _) as [[rb er] [cbs2 now2]]. simpl in He2.
    destruct (resolveEnvironment r ∅ now2) as [[? ?] ?]. intros [= _ <- _].
    rewrite errors_Join_None, collect_nil. tauto.
Qed.

(** ** The resolver implements the interface of the engine *)
#[export] Instance resolver_resolution : AttributeResolution (Resolver * Z) := {
  res_Resolve := fun ctx req st => Resolve ctx req st.1 st.2;
  res_ResolveSubjectAttributes := fun ctx s a st => ResolveSubjectAttributes ctx s a st.1 st.2
}.

Definition same_dom (c1 c2 : gmap string CircuitBreaker) : Prop :=
  forall ns, is_Some (c1 !! ns) <-> is_Some (c2 !! ns).

Lemma same_dom_trans c1 c2 c3 : same_dom c1 c2 -> same_dom c2 c3 -> same_dom c1 c3.
Proof. intros H1 H2 ns. by rewrite (H1 ns). Qed.

Lemma check_breaker_dom ns now cbs : same_dom cbs (check_breaker ns now cbs).2.
Proof.
  intros m. unfold check_breaker. destruct (cbs !! ns) as [cb|] eqn:E; [|done].
  destruct (ShouldSkip now cb). simpl. rewrite insert_is_Some.
  split; [auto|]. intros [->|?]; [by rewrite E|done].
Qed.

Lemma record_call_dom ns now d f cbs : same_dom cbs (record_call ns now d f cbs).
Proof.
  intros m. unfold record_call. destruct (cbs !! ns) as [cb|] eqn:E; [|done].
  rewrite insert_is_Some. split; [auto|]. intros [->|?]; [by rewrite E|done].
Qed.

Lemma plain_loop_dom r t ref order bag errs cbs now :
  same_dom cbs (plain_loop r t ref order bag errs cbs now).2.1.
Proof.
  revert bag errs cbs now. induction order as [|ns order IH]; intros bag errs cbs now; [done|]. simpl.
  assert (same_dom cbs (plain_one r t ref ns bag errs cbs now).2.1) as H.
  { unfold plain_one. pose proof (check_breaker_dom ns now cbs) as Hc.
    destruct (check_breaker ns now cbs) as [[] cbs1]; simpl in *; [done|].
    destruct (match providers r !! ns with Some p => _ | None => _ end) as [[[a|]|e] d]; simpl;
      (eapply same_dom_trans; [done|apply record_call_dom]). }
  destruct (plain_one r t ref ns bag errs cbs now) as [[b e] [cbs1 now1]]. simpl in H.
  eapply same_dom_trans; [exact H|apply IH].
Qed.

Lemma plain_ref_dom r t ref errs cbs now : same_dom cbs (plain_ref r t ref errs cbs now).2.1.
Proof.
  unfold plain_ref. destruct (validateEntityRef ref); [done|].
  pose proof (plain_loop_dom r t ref (providerOrder r) (id_bag ref) [] cbs now) as H.
  by destruct (plain_loop _ _ _ _ _ _ _ _) as [[b e] st].
Qed.

Lemma with_breakers_wf r cbs :
  resolver_wf r -> same_dom (circuitBreakers r) cbs -> resolver_wf (with_breakers r cbs).
Proof.
  intros [? ? H3 ? ? ?] Hd. constructor; simpl; auto. intros ns. by rewrite H3, (Hd ns).
Qed.

Lemma plain_Resolve_wf req r now : resolver_wf r -> resolver_wf (plain_Resolve req r now).2.1.
Proof.
  intros Hw. unfold plain_Resolve.
  set (s1 := if is_empty (req_Subject req) then _ else _).
  assert (same_dom (circuitBreakers r) s1.2.1) as H1
    by (unfold s1; destruct (is_empty _); [done|apply plain_ref_dom]).
  destruct s1 as [[sb es] [cbs1 now1]]. simpl in H1.
  set (s2 := if is_empty (req_Resource req) then _ else _).
  assert (same_dom cbs1 s2.2.1) as H2
    by (unfold s2; destruct (is_empty _); [done|apply plain_ref_dom]).
  destruct s2 as [[rb er] [cbs2 now2]]. simpl in H2.
  destruct (resolveEnvironment r ∅ now2) as [[eb ee] now3]. simpl.
  apply with_breakers_wf; [done|]. by eapply same_dom_trans.
Qed.

(** ResolveSubjectAttributes in terms of the reference. *)
Lemma ResolveSubjectAttributes_plain ctx subject action r now :
  resolver_wf r -> in_resolution ctx = false -> subject <> EmptyString ->
  ResolveSubjectAttributes ctx subject action r now =
  Return (let '(sbag, errs, (cbs, now)) := plain_ref r RSubject subject [] (circuitBreakers r) now in
          let '(ebag, err, now) := resolveEnvironment r ∅ now in
          ((Some (mkBags sbag ∅ (action_bag action) ebag), errors_Join (collect errs err)),
           (with_breakers r cbs, now))).
Proof.
  intros Hw Hctx Hs. unfold ResolveSubjectAttributes, resolveSubjectAttributes.
  apply is_empty_false in Hs. rewrite Hs, Hctx.
  destruct (resolve_ref_plain r RSubject subject []
              (mkRS (circuitBreakers r) (newAttributeCache 100) now) (wf_nodup r Hw)) as (c & _ & E);
    [set_solver|]. simpl in E.
  destruct (plain_ref r RSubject subject [] (circuitBreakers r) now) as [[sb es] [cbs now1]].
  rewrite E. simpl. by destruct (resolveEnvironment r ∅ now1) as [[? ?] ?].
Qed.

Lemma resolver_preflight ctx req r now b st1 ob err st2 :
  resolver_wf r -> Resolve ctx req r now = Return ((Some b, None), st1) ->
  req_Subject req <> EmptyString ->
  ResolveSubjectAttributes ctx (req_Subject req) (req_Action req) r now = Return ((ob, err), st2) ->
  exists b', ob = Some b' /\ Subject b' = Subject b /\ Action b' = Action b /\ Resource b' = ∅.
Proof.
  intros Hw HR Hs HS.
  destruct (in_resolution ctx) eqn:Hctx; [unfold Resolve in HR; by rewrite Hctx in HR|].
  rewrite ResolveSubjectAttributes_plain in HS by done.
  rewrite Resolve_plain in HR by done. unfold plain_Resolve in HR.
  apply is_empty_false in Hs. rewrite Hs in HR.
  destruct (plain_ref r RSubject (req_Subject req) [] (circuitBreakers r) now) as [[sb es] [cbs now1]].
  destruct (resolveEnvironment r ∅ now1) as [[eb1 ee1] now1'].
  destruct (if is_empty (req_Resource req) then _ else _) as [[rb er] [cbs2 now2]].
  destruct (resolveEnvironment r ∅ now2) as [[eb2 ee2] now2'].
  injection HR as <- _ _. injection HS as <- _ _. eexists. split; [reflexivity|done].
Qed.

#[export] Instance resolver_laws : ResolutionLaws (Resolver * Z) (fun st => resolver_wf st.1).
Proof.
  constructor.
  - intros ctx req [r now] Hctx Hw. simpl in *. eexists. split; [by apply Resolve_plain|].
    by apply plain_Resolve_wf.
  - intros ctx s a [r now] Hctx Hw. simpl in *.
    destruct (decide (s = EmptyString)) as [->|Hs]; [by eexists|].
    eexists. split; [by apply ResolveSubjectAttributes_plain|].
    pose proof (plain_ref_dom r RSubject s [] (circuitBreakers r) now) as Hd.
    destruct (plain_ref _ _ _ _ _ _) as [[sb es] [cbs now1]]. simpl in *.
    destruct (resolveEnvironment r ∅ now1) as [[? ?] ?]. by apply with_breakers_wf.
  - intros ctx req [r now] ob r' Hw HR. simpl in *.
    destruct (in_resolution ctx) eqn:Hctx; [unfold Resolve in HR; by rewrite Hctx in HR|].
    rewrite Resolve_plain in HR by done. injection HR as HR. revert HR.
    unfold plain_Resolve. destruct (if is_empty (req_Subject req) then _ else _) as [[? ?] [? ?]].
    destruct (if is_empty (req_Resource req) then _ else _) as [[? ?] [? ?]].
    destruct (resolveEnvironment r ∅ _) as [[? ?] ?]. intros [= <- _ _]. by eexists.
  - intros ctx req [r now] ob err r' Hw HR Hne Hcolon. simpl in *.
    destruct (in_resolution ctx) eqn:Hctx; [unfold Resolve in HR; by rewrite Hctx in HR|].
    rewrite Resolve_plain in HR by done. injection HR as HR. revert HR.
    unfold plain_Resolve. destruct (if is_empty (req_Subject req) then _ else _) as [[? es] [cbs nw]].
    apply is_empty_false in Hne. rewrite Hne.
    pose proof (plain_ref_errs r RResource (req_Resource req) es cbs nw) as He.
    destruct (plain_ref _ RResource _ _ _ _) as [[rb er] [? nw2]]. simpl in He.
    destruct (resolveEnvironment r ∅ nw2) as [[? ?] ?]. intros [= _ <- _] Hn.
    apply errors_Join_None, collect_nil in Hn as [-> _]. destruct (He eq_refl) as [_ Hv].
    apply validateEntityRef_None in Hv as (t & id & E & Hn & _). unfold has_colon in Hcolon.
    assert (cut ":" (req_Resource req) = Some (t, id)) as Ec by (apply cut_Some; auto).
    by rewrite Ec in Hcolon.
  - intros ctx req [r now] b r1 ob err r2. simpl. apply resolver_preflight.
Qed.

(** Type-level pre-flight sees the same principal as the full resolution: for
    the same request both produce identical subject and action bags, and the
    pre-flight resource bag is empty. *)
Theorem preflight_same_subject ctx req r now b st1 ob err st2 :
  resolver_wf r -> Resolve ctx req r now = Return ((Some b, None), st1) ->
  req_Subject req <> EmptyString ->
  ResolveSubjectAttributes ctx (req_Subject req) (req_Action req) r now = Return ((ob, err), st2) ->
  exists b', ob = Some b' /\ Subject b' = Subject b /\ Action b' = Action b /\ Resource b' = ∅.
Proof. apply resolver_preflight. Qed.
