(* ===== verification/PolicyCache.v ===== *)
(** The policy cache and its read barrier: [internal/access/policy/cache.go].

    The cache is shared by mutators of the policy store (which call
    [Invalidate] after committing), one reload loop, the poller (which calls
    [Reload] on its own) and readers ([Snapshot]).  Each lock-protected section
    and each access to the store or the snapshot is one event, and an execution
    is a sequence of events.  Barriers ([*readBarrier] values) are numbered; a
    barrier is closed with the error written to it.

    [version] counts the writes to the store; it, the version each snapshot was
    read at and the version [needed] by each barrier are ghost state. *)

From S2P Require Import Prelude PolicyCompile.

Open Scope string_scope.
Open Scope list_scope.

Record StoredPolicy : Type := mkStored {
  sp_ID : string;
  sp_Name : string;
  sp_DSLText : string
}.

Record CachedPolicy : Type := mkCached {
  cap_ID : string;
  cap_Name : string;
  cap_Compiled : option CompiledPolicy
}.

Section cache.
  Variable compile : string -> result CompiledPolicy.

(** The compile loop of [Reload]. *)
Fixpoint compile_all (stored : list StoredPolicy) (acc : list CachedPolicy)
  : result (list CachedPolicy) :=
  match stored with
  | [] => Ok acc
  | sp :: rest =>
    match compile (sp_DSLText sp) with
    | Err e => Err (ErrWrap "policy cache reload: compile %q (id=%s)" e)
    | Ok compiled => compile_all rest (acc ++ [mkCached (sp_ID sp) (sp_Name sp) (Some compiled)])
    end
  end.

(** What [Reload] computes from the answer of [store.ListEnabled]. *)
Definition build_snapshot (listed : result (list StoredPolicy)) : result (list CachedPolicy) :=
  match listed with
  | Err e => Err (ErrWrap "policy cache reload: list enabled" e)
  | Ok stored => compile_all stored []
  end.

Record Snapshot : Type := mkSnap { Policies : list CachedPolicy; snap_version : nat }.

(** The reload loop's program counter; [b] is its local barrier variable. *)
Inductive loop_pc : Type :=
| LIdle
| LReload (b : nat)
| LBuilt (b : nat) (built : result (list CachedPolicy)) (ver : nat)
| LSwapped (b : nat) (err : option error).

(** The poller's call of [Reload]. *)
Inductive poll_pc : Type :=
| PIdle
| PBuilt (built : result (list CachedPolicy)) (ver : nat).

(** A call of [Snapshot]: waiting on barrier [b], or returned.  [since] is the
    ghost version of the last invalidation before the call. *)
Inductive reader : Type :=
| RWaiting (b : nat) (since : nat)
| RDone (since : nat) (res : result Snapshot).

(** The cache: the snapshot, the closed barriers with their errors, the current
    barrier (barriers are numbered in order of creation, so it is the newest)
    and the dirty flag. *)
Record Cache : Type := mkPC {
  snapshot : Snapshot;
  closed : gmap nat (option error);
  barrier : nat;
  dirty : bool
}.

(** The whole system: the store, the cache, its users and the ghost state. *)
Record system : Type := mkSys {
  db : list StoredPolicy;
  version : nat;
  cache : Cache;
  loop : loop_pc;
  poller : poll_pc;
  readers : gmap nat reader;
  needed : gmap nat nat;
  invalidated : nat
}.

(** [NewCache]: an empty snapshot behind a closed barrier. *)
Definition NewCache : Cache := mkPC (mkSnap [] 0) {[0 := None]} 0 false.

Definition init (d : list StoredPolicy) : system :=
  mkSys d 0 NewCache LIdle PIdle ∅ {[0 := 0]} 0.

Definition set_snapshot (s : Snapshot) (c : Cache) : Cache :=
  mkPC s (closed c) (barrier c) (dirty c).
Definition close_barrier (b : nat) (err : option error) (c : Cache) : Cache :=
  mkPC (snapshot c) (<[b := err]> (closed c)) (barrier c) (dirty c).
Definition is_closed (b : nat) (c : Cache) : bool :=
  match closed c !! b with Some _ => true | None => false end.

(** [Invalidate] up to the end of its critical section; the flag says whether
    the caller goes on to run the reload loop. *)
Definition Invalidate (c : Cache) : Cache * bool :=
  if is_closed (barrier c) c then
    (mkPC (snapshot c) (closed c) (S (barrier c)) false, true)
  else
    (mkPC (snapshot c) (closed c) (if dirty c then barrier c else S (barrier c)) true, false).

(** The swap at the end of [Reload]: nothing happens to the snapshot on error. *)
Definition finish_reload (built : result (list CachedPolicy)) (ver : nat) (c : Cache)
  : Cache * option error :=
  match built with
  | Ok ps => (set_snapshot (mkSnap ps ver) c, None)
  | Err e => (c, Some e)
  end.

(** The critical section of [barrierReloadLoop] after a reload: the cache and the
    barrier of the next cycle, if there is one. *)
Definition release (b : nat) (err : option error) (c : Cache) : Cache * option nat :=
  let c' := close_barrier b err c in
  if dirty c then (mkPC (snapshot c') (closed c') (barrier c') false, Some (barrier c))
  else (c', None).

(** The rest of [Snapshot] once barrier [b] is closed. *)
Definition read_snapshot (berr : option error) (c : Cache) : result Snapshot :=
  match berr with
  | Some e => Err (ErrWrap "policy cache reload failed" e)
  | None => Ok (snapshot c)
  end.

Inductive event : Type :=
| EvMutate (d : list StoredPolicy)        (* a committed store write *)
| EvInvalidate                            (* Invalidate's critical section *)
| EvLoopList (fail : option error)        (* the loop's Reload lists and compiles *)
| EvLoopSwap                              (* ... and swaps the snapshot *)
| EvLoopRelease                           (* the loop's critical section *)
| EvPollList (fail : option error)        (* the poller's Reload *)
| EvPollSwap
| EvReaderStart (id : nat)                (* Snapshot takes the barrier *)
| EvReaderRead (id : nat)                 (* the barrier is closed: Snapshot returns *)
| EvReaderExpire (id : nat) (e : error).  (* its context expires first *)

Definition listed (s : system) (fail : option error) : result (list StoredPolicy) :=
  match fail with Some e => Err e | None => Ok (db s) end.

(** One event; [None] when it is not enabled. *)
Definition step (s : system) (ev : event) : option system :=
  match ev with
  | EvMutate d =>
    Some (mkSys d (S (version s)) (cache s) (loop s) (poller s) (readers s) (needed s) (invalidated s))
  | EvInvalidate =>
    let '(c, run) := Invalidate (cache s) in
    Some (mkSys (db s) (version s) c (if run then LReload (barrier c) else loop s) (poller s) (readers s)
                (<[barrier c := version s]> (needed s)) (version s))
  | EvLoopList fail =>
    match loop s with
    | LReload b =>
      Some (mkSys (db s) (version s) (cache s) (LBuilt b (build_snapshot (listed s fail)) (version s))
                  (poller s) (readers s) (needed s) (invalidated s))
    | _ => None
    end
  | EvLoopSwap =>
    match loop s with
    | LBuilt b built ver =>
      let '(c, err) := finish_reload built ver (cache s) in
      Some (mkSys (db s) (version s) c (LSwapped b err) (poller s) (readers s) (needed s) (invalidated s))
    | _ => None
    end
  | EvLoopRelease =>
    match loop s with
    | LSwapped b err =>
      let '(c, next) := release b err (cache s) in
      Some (mkSys (db s) (version s) c (match next with Some b' => LReload b' | None => LIdle end)
                  (poller s) (readers s) (needed s) (invalidated s))
    | _ => None
    end
  | EvPollList fail =>
    match poller s with
    | PIdle =>
      Some (mkSys (db s) (version s) (cache s) (loop s)
                  (PBuilt (build_snapshot (listed s fail)) (version s))
                  (readers s) (needed s) (invalidated s))
    | _ => None
    end
  | EvPollSwap =>
    match poller s with
    | PBuilt built ver =>
      let '(c, _) := finish_reload built ver (cache s) in
      Some (mkSys (db s) (version s) c (loop s) PIdle (readers s) (needed s) (invalidated s))
    | _ => None
    end
  | EvReaderStart id =>
    match readers s !! id with
    | Some _ => None
    | None => Some (mkSys (db s) (version s) (cache s) (loop s) (poller s)
                (<[id := RWaiting (barrier (cache s)) (invalidated s)]> (readers s))
                (needed s) (invalidated s))
    end
  | EvReaderRead id =>
    match readers s !! id with
    | Some (RWaiting b since) =>
      match closed (cache s) !! b with
      | Some berr => Some (mkSys (db s) (version s) (cache s) (loop s) (poller s)
                       (<[id := RDone since (read_snapshot berr (cache s))]> (readers s))
                       (needed s) (invalidated s))
      | None => None
      end
    | _ => None
    end
  | EvReaderExpire id e =>
    match readers s !! id with
    | Some (RWaiting b since) =>
      Some (mkSys (db s) (version s) (cache s) (loop s) (poller s)
        (<[id := RDone since (Err (ErrWrap "policy cache snapshot: context expired" e))]> (readers s))
        (needed s) (invalidated s))
    | _ => None
    end
  end.

Fixpoint run (s : system) (evs : list event) : option system :=
  match evs with
  | [] => Some s
  | ev :: evs' => match step s ev with Some s' => run s' evs' | None => None end
  end.

(** ** Reload is all-or-nothing *)
Lemma compile_all_spec stored acc ps :
  compile_all stored acc = Ok ps <->
  exists ps', ps = acc ++ ps' /\
    Forall2 (fun sp cp => exists c, compile (sp_DSLText sp) = Ok c /\
                            cp = mkCached (sp_ID sp) (sp_Name sp) (Some c)) stored ps'.
Proof.
  revert acc. induction stored as [|sp stored IH]; intros acc; simpl.
  - split.
    + intros [= <-]. exists []. by rewrite app_nil_r.
    + intros (ps' & -> & H). inversion H; subst. by rewrite app_nil_r.
  - destruct (compile (sp_DSLText sp)) as [c|e] eqn:E.
    + rewrite IH. split.
      * intros (ps' & -> & H). eexists. rewrite <- app_assoc. split; [reflexivity|].
        constructor; eauto.
      * intros (ps' & -> & H). inversion H as [|? ? ? l (c' & Hc & ->) Hl]; subst.
        exists l. rewrite <- app_assoc. rewrite E in Hc. by injection Hc as <-.
    + split; [done|]. intros (ps' & _ & H). inversion H as [|? ? ? l (c' & Hc & _)]; subst. congruence.
Qed.

(** ** The invariant of executions without the poller *)
Definition no_poll (ev : event) : bool :=
  match ev with EvPollList _ | EvPollSwap => false | _ => true end.

Definition need (s : system) (b : nat) : nat := default 0 (needed s !! b).

(** What holds of the reload loop: its barrier is open; the current barrier is
    its own, or a queued one if dirty; what it has read is recent enough. *)
Definition loop_inv (s : system) : Prop :=
  let owns b := closed (cache s) !! b = None /\ closed (cache s) !! barrier (cache s) = None /\
    (if dirty (cache s) then b < barrier (cache s) else b = barrier (cache s)) in
  match loop s with
  | LIdle => is_Some (closed (cache s) !! barrier (cache s)) /\ dirty (cache s) = false
  | LReload b => owns b
  | LBuilt b built ver =>
    owns b /\ need s b <= ver <= version s /\ snap_version (snapshot (cache s)) <= ver
  | LSwapped b err => owns b /\ (err = None -> need s b <= snap_version (snapshot (cache s)))
  end.

Record cache_inv (s : system) : Prop := {
  inv_poll : poller s = PIdle;
  inv_loop : loop_inv s;
  inv_snap : snap_version (snapshot (cache s)) <= version s;
  inv_need : forall b, need s b <= version s;
  inv_last : need s (barrier (cache s)) = invalidated s;
  inv_barrier : forall b, is_Some (closed (cache s) !! b) -> b <= barrier (cache s);
  inv_closed : forall b, closed (cache s) !! b = Some None ->
    need s b <= snap_version (snapshot (cache s));
  inv_readers : forall id r, readers s !! id = Some r ->
    match r with
    | RWaiting b since => since <= need s b /\ b <= barrier (cache s)
    | RDone since (Ok snap) => since <= snap_version snap
    | RDone _ (Err _) => True
    end
}.

Lemma init_inv d : cache_inv (init d).
Proof.
  constructor; simpl; try done.
  - intros b. unfold need. simpl. destruct ({[0 := 0]} !! b) as [n|] eqn:E; [|done].
    apply lookup_singleton_Some in E as [_ <-]. done.
  - intros b [x Hx]. apply lookup_singleton_Some in Hx as [<- _]. lia.
  - intros b Hb. apply lookup_singleton_Some in Hb as [<- _]. by vm_compute.
Qed.

Lemma mutate_inv s d :
  cache_inv s ->
  cache_inv (mkSys d (S (version s)) (cache s) (loop s) (poller s) (readers s) (needed s) (invalidated s)).
Proof.
  intros [H1 H2 H3 H4 H5 H6 H7 H8]. constructor; auto.
  - unfold loop_inv in *. simpl. unfold need in *. simpl. destruct (loop s); auto. naive_solver lia.
  - simpl. lia.
  - intros b. specialize (H4 b). unfold need in *. simpl. lia.
Qed.

Lemma invalidate_inv s s' : cache_inv s -> step s EvInvalidate = Some s' -> cache_inv s'.
Proof.
  intros [H1 H2 H3 H4 H5 H6 H7 H8]. simpl. unfold Invalidate, is_closed.
  set (B := barrier (cache s)) in *.
  assert (forall b', b' <> B -> B < b' -> closed (cache s) !! b' = None) as Hfresh.
  { intros b' _ Hlt. destruct (closed (cache s) !! b') eqn:E; [|done].
    specialize (H6 b' ltac:(eauto)). lia. }
  assert (forall nb b, need (mkSys (db s) (version s) (cache s) (loop s) (poller s) (readers s)
            (<[nb := version s]> (needed s)) (version s)) b =
            if decide (nb = b) then version s else need s b) as Hneed.
  { intros nb b. unfold need. simpl. rewrite lookup_insert. by destruct (decide (nb = b)). }
  unfold need in Hneed. simpl in Hneed. fold (need s) in Hneed.
  destruct (closed (cache s) !! B) as [x|] eqn:EB; intros [= <-].
  - (* no reload in progress: this caller runs the loop on a new barrier *)
    assert (loop s = LIdle) as Hidle.
    { revert H2. unfold loop_inv. fold B. destruct (loop s); naive_solver. }
    constructor; unfold need; simpl; auto.
    + unfold loop_inv. simpl. rewrite Hfresh by lia. auto.
    + intros b. rewrite Hneed. destruct (decide _); [lia|apply H4].
    + rewrite Hneed. by rewrite decide_True.
    + intros b Hb. rewrite Hneed. destruct (decide _) as [<-|]; [|by apply H7].
      rewrite Hfresh in Hb by lia. done.
    + intros id r Hr. specialize (H8 id r Hr). destruct r; [|done]. rewrite Hneed.
      destruct (decide _); [lia|]. unfold need in *. lia.
  - (* a reload is in progress: the next generation is queued *)
    set (nb := if dirty (cache s) then B else S B).
    assert (closed (cache s) !! nb = None) as Hnb.
    { unfold nb. destruct (dirty (cache s)); [done|]. apply Hfresh; lia. }
    assert (B <= nb) as Hle by (unfold nb; destruct (dirty (cache s)); lia).
    constructor; unfold need; simpl; auto.
    + unfold loop_inv in *. simpl. fold B in H2. unfold need. simpl.
      destruct (loop s) as [|b|b built ver|b err]; simpl.
      * destruct H2 as [[y Hy] _]. congruence.
      * destruct H2 as (? & ? & Hd). split_and!; auto. unfold nb. destruct (dirty (cache s)); lia.
      * destruct H2 as ((? & ? & Hd) & Hv & Hs).
        assert (b < nb) by (unfold nb; destruct (dirty (cache s)); lia).
        rewrite Hneed, decide_False by lia. unfold need in Hv. auto.
      * destruct H2 as ((? & ? & Hd) & Hv).
        assert (b < nb) by (unfold nb; destruct (dirty (cache s)); lia).
        rewrite Hneed, decide_False by lia. unfold need in Hv. auto.
    + intros b. rewrite Hneed. destruct (decide _); [lia|apply H4].
    + rewrite Hneed. by rewrite decide_True.
    + intros b Hb. specialize (H6 b Hb). lia.
    + intros b Hb. rewrite Hneed. destruct (decide _) as [<-|]; [congruence|by apply H7].
    + intros id r Hr. specialize (H8 id r Hr). destruct r as [b since|]; [|done]. rewrite Hneed.
      destruct H8 as [Hs Hb]. split; [|lia]. destruct (decide _) as [<-|]; [|done].
      specialize (H4 nb). lia.
Qed.

Lemma loop_list_inv s fail s' : cache_inv s -> step s (EvLoopList fail) = Some s' -> cache_inv s'.
Proof.
  intros [H1 H2 H3 H4 H5 H6 H7 H8]. simpl. destruct (loop s) as [|b| |] eqn:El; try done.
  intros [= <-]. constructor; auto. unfold loop_inv in *. rewrite El in H2. simpl.
  destruct H2 as (? & ? & ?). split_and!; auto. apply H4.
Qed.

Lemma loop_swap_inv s s' : cache_inv s -> step s EvLoopSwap = Some s' -> cache_inv s'.
Proof.
  intros [H1 H2 H3 H4 H5 H6 H7 H8]. simpl. destruct (loop s) as [| |b built ver|] eqn:El; try done.
  unfold loop_inv in H2. rewrite El in H2. destruct H2 as ((Ho1 & Ho2 & Ho3) & Hv & Hs).
  destruct built as [ps|e]; simpl; intros [= <-]; constructor; auto; simpl; try lia.
  - unfold loop_inv. simpl. unfold need in *. simpl. split_and!; auto. lia.
  - intros b' Hb'. specialize (H7 b' Hb'). unfold need in *. simpl. lia.
  - unfold loop_inv. simpl. split_and!; auto. done.
Qed.

Lemma loop_release_inv s s' : cache_inv s -> step s EvLoopRelease = Some s' -> cache_inv s'.
Proof.
  intros [H1 H2 H3 H4 H5 H6 H7 H8]. simpl. destruct (loop s) as [| | |b err] eqn:El; try done.
  unfold loop_inv in H2. rewrite El in H2. destruct H2 as ((Ho1 & Ho2 & Ho3) & Hv).
  assert (forall x, is_Some (<[b := err]> (closed (cache s)) !! x) -> x <= barrier (cache s)) as Hb.
  { intros x Hx. destruct (decide (b = x)) as [<-|].
    - destruct (dirty (cache s)); lia.
    - rewrite lookup_insert_ne in Hx by done. by apply H6. }
  assert (forall x, <[b := err]> (closed (cache s)) !! x = Some None ->
                    need s x <= snap_version (snapshot (cache s))) as Hc.
  { intros x. destruct (decide (b = x)) as [<-|].
    - rewrite lookup_insert_eq. intros [= ->]. auto.
    - rewrite lookup_insert_ne by done. apply H7. }
  unfold release. destruct (dirty (cache s)) eqn:Ed; intros [= <-]; constructor; auto; simpl.
  - unfold loop_inv. simpl. rewrite lookup_insert_ne by lia. auto.
  - unfold loop_inv. simpl. rewrite <- Ho3, lookup_insert_eq. split; [by eexists|done].
Qed.

Lemma set_reader_inv s id r :
  cache_inv s ->
  match r with
  | RWaiting b since => since <= need s b /\ b <= barrier (cache s)
  | RDone since (Ok snap) => since <= snap_version snap
  | RDone _ (Err _) => True
  end ->
  cache_inv (mkSys (db s) (version s) (cache s) (loop s) (poller s) (<[id := r]> (readers s))
                   (needed s) (invalidated s)).
Proof.
  intros [H1 H2 H3 H4 H5 H6 H7 H8] Hr. constructor; auto. simpl. intros i x.
  rewrite lookup_insert_Some. intros [[<- <-]|[_ Hx]]; [done|by apply (H8 i)].
Qed.

Lemma step_inv s ev s' : cache_inv s -> no_poll ev = true -> step s ev = Some s' -> cache_inv s'.
Proof.
  intros Hi Hp Hs. destruct ev as [d| |fail| | |fail| |id|id|id e]; try done.
  - injection Hs as <-. by apply mutate_inv.
  - by eapply invalidate_inv.
  - by eapply loop_list_inv.
  - by eapply loop_swap_inv.
  - by eapply loop_release_inv.
  - simpl in Hs. destruct (readers s !! id); [done|]. injection Hs as <-.
    apply set_reader_inv; [done|]. rewrite (inv_last s Hi). auto.
  - simpl in Hs. destruct (readers s !! id) as [[b since|]|] eqn:Er; try done.
    destruct (closed (cache s) !! b) as [berr|] eqn:Ec; [|done]. injection Hs as <-.
    apply set_reader_inv; [done|]. pose proof (inv_readers s Hi id _ Er) as [Hn _].
    destruct berr; simpl; [done|]. pose proof (inv_closed s Hi b Ec). lia.
  - simpl in Hs. destruct (readers s !! id) as [[b since|]|]; try done. injection Hs as <-.
    by apply set_reader_inv.
Qed.

Lemma run_inv s evs s' :
  cache_inv s -> forallb no_poll evs = true -> run s evs = Some s' -> cache_inv s'.
Proof.
  revert s. induction evs as [|ev evs IH]; intros s Hi Hp Hr; simpl in *; [by injection Hr as <-|].
  bool_prop. destruct (step s ev) as [s1|] eqn:Es; [|done]. eapply IH; [|done|done].
  by eapply step_inv.
Qed.

(** C21: the read barrier.  In every execution in which the poller does not run, a
    call of Snapshot that started after an invalidation never returns policies
    read from the store before that invalidation: it returns a snapshot at
    least as recent as the last invalidation, or an error. *)
Theorem snapshot_fresh d evs s id since snap :
  forallb no_poll evs = true -> run (init d) evs = Some s ->
  readers s !! id = Some (RDone since (Ok snap)) -> since <= snap_version snap.
Proof.
  intros Hp Hr Hd. assert (cache_inv s) as Hi by (eapply run_inv; [apply init_inv|done|done]).
  exact (inv_readers s Hi id _ Hd).
Qed.

(** No lost wake-up.  When the reload loop is idle the current barrier is
    closed, so no reader is left waiting on a barrier nobody will close; and
    while it is active its three events are enabled in turn. *)
Theorem barrier_progress d evs s :
  forallb no_poll evs = true -> run (init d) evs = Some s ->
  match loop s with
  | LIdle => is_Some (closed (cache s) !! barrier (cache s))
  | LReload _ => is_Some (step s (EvLoopList None))
  | LBuilt _ _ _ => is_Some (step s EvLoopSwap)
  | LSwapped b _ => exists s', step s EvLoopRelease = Some s' /\ is_Some (closed (cache s') !! b)
  end.
Proof.
  intros Hp Hr. assert (cache_inv s) as Hi by (eapply run_inv; [apply init_inv|done|done]).
  pose proof (inv_loop s Hi) as Hl. unfold loop_inv in Hl. simpl.
  destruct (loop s) as [|b|b built ver|b err].
  - by destruct Hl.
  - by eexists.
  - destruct (finish_reload built ver (cache s)). by eexists.
  - unfold release. destruct (dirty (cache s)); eexists; (split; [reflexivity|]); simpl;
      rewrite lookup_insert_eq; by eexists.
Qed.

(** Reload is all-or-nothing.  A swap either replaces the snapshot by the
    compiled form of every policy listed, in order, or, when one failed to
    compile or the listing failed, leaves the snapshot as it was and reports
    the error. *)
Theorem reload_all_or_nothing lst ver c :
  match finish_reload (build_snapshot lst) ver c with
  | (c', None) => exists stored ps, lst = Ok stored /\ snapshot c' = mkSnap ps ver /\
      Forall2 (fun sp cp => exists k, compile (sp_DSLText sp) = Ok k /\
                              cp = mkCached (sp_ID sp) (sp_Name sp) (Some k)) stored ps
  | (c', Some _) => c' = c /\ (match lst with
                               | Err _ => True
                               | Ok stored => exists sp e, sp ∈ stored /\ compile (sp_DSLText sp) = Err e
                               end)
  end.
Proof.
  destruct lst as [stored|e]; simpl; [|done].
  destruct (compile_all stored []) as [ps|e] eqn:E; simpl.
  - apply compile_all_spec in E as (ps' & -> & H). eauto.
  - split; [done|]. revert E. generalize (@nil CachedPolicy) as acc.
    induction stored as [|sp stored IH]; intros acc; simpl; [done|].
    destruct (compile (sp_DSLText sp)) as [k|e'] eqn:Ec.
    + intros H. destruct (IH _ H) as (x & ex & Hin & Hx). exists x, ex. split; [set_solver|done].
    + intros _. exists sp, e'. split; [set_solver|done].
Qed.
End cache.

(** ** Witnesses and the race with the poller *)
Definition demo_compile (text : string) : result CompiledPolicy :=
  Ok (mkCompiled 1 text (mkCTarget None [] None None) None ∅ text).
Definition demo_policy (text : string) : StoredPolicy := mkStored "01P" "p" text.

Lemma snapshot_fresh_witness :
  exists s snap, run demo_compile (init [demo_policy "permit"])
    [EvMutate [demo_policy "forbid"]; EvInvalidate; EvReaderStart 1; EvLoopList None;
     EvMutate []; EvInvalidate; EvReaderStart 2; EvLoopSwap; EvLoopRelease; EvReaderRead 1;
     EvLoopList None; EvLoopSwap; EvLoopRelease; EvReaderRead 2] = Some s /\
    readers s !! 2 = Some (RDone 2 (Ok snap)) /\ 2 <= snap_version snap.
Proof.
  eexists. eexists. split; [vm_compute; reflexivity|]. split; [vm_compute; reflexivity|].
  eapply (snapshot_fresh demo_compile [demo_policy "permit"]
    [EvMutate [demo_policy "forbid"]; EvInvalidate; EvReaderStart 1; EvLoopList None;
     EvMutate []; EvInvalidate; EvReaderStart 2; EvLoopSwap; EvLoopRelease; EvReaderRead 1;
     EvLoopList None; EvLoopSwap; EvLoopRelease; EvReaderRead 2] _ 2 2);
    [reflexivity|vm_compute; reflexivity|vm_compute; reflexivity].
Defined.

Lemma barrier_progress_witness :
  match run demo_compile (init []) [EvInvalidate; EvLoopList None; EvLoopSwap] with
  | Some s => exists s', step demo_compile s EvLoopRelease = Some s' /\ is_Some (closed (cache s') !! 1)
  | None => False
  end.
Proof.
  pose proof (barrier_progress demo_compile [] [EvInvalidate; EvLoopList None; EvLoopSwap]) as H.
  vm_compute in H. vm_compute. apply (H _ eq_refl eq_refl).
Defined.

(** The poller's Reload takes neither the barrier nor a version check, so it
    can undo an invalidation.  It lists the policies, a policy is then changed,
    the invalidation's reload completes and closes the barrier, and the
    poller's late swap puts the old policies back: a reader that started after
    the invalidation completed is handed the policies from before it. *)
Theorem poller_restores_stale_policies :
  exists s snap, run demo_compile (init [demo_policy "permit"])
    [EvPollList None; EvMutate [demo_policy "forbid"]; EvInvalidate; EvLoopList None; EvLoopSwap;
     EvLoopRelease; EvPollSwap; EvReaderStart 1; EvReaderRead 1] = Some s /\
    db s = [demo_policy "forbid"] /\
    readers s !! 1 = Some (RDone 1 (Ok snap)) /\ snap_version snap = 0 /\
    (DSLText <$> (p ← head (Policies snap); cap_Compiled p)) = Some "permit".
Proof. eexists. eexists. vm_compute. split_and!; reflexivity. Qed.
