(* ===== verification/PolicyEngine.v ===== *)
(** The policy engine: [internal/access/policy/engine.go].

    The resolver is any implementation of [AttributeResolution]; [sessions] is
    the session resolver, [error_code] the code [oops] attaches to an error, and
    [snap] what the policy cache answers.  Audit events are returned in the order
    logged; a failure of the audit log is only counted by the code and changes
    nothing.  Log output, durations and metrics are left out.

    At the end, the engine as its clients see it: the interface
    [types.AccessPolicyEngine] over an abstract engine state, and its implementation
    by this engine. *)

From S2P Require Import Prelude GoStrings EntityRef PolicyTypes PolicyAST PolicyEval PolicyCompile PolicyCache.

Open Scope string_scope.
Open Scope list_scope.

(** ** Degraded mode

    [degraded] is the engine's flag; the count of degraded engines and the gauge
    are shared by the process. *)
Record Engine : Type := mkEngine { degraded : bool }.
Record process : Type := mkProcess { degradedCount : Z; degradedModeGauge : Z }.

Definition EnterDegradedMode (e : Engine) (p : process) : Engine * process :=
  if degraded e then (e, p)
  else (mkEngine true, mkProcess (degradedCount p + 1) 1).

Definition ClearDegradedMode (e : Engine) (p : process) : Engine * process :=
  if degraded e then
    let count := (degradedCount p - 1)%Z in
    (mkEngine false, mkProcess count (if (count <=? 0)%Z then 0 else degradedModeGauge p))
  else (e, p).

Definition IsDegraded (e : Engine) : bool := degraded e.

(** ** Audit events *)
Record AuditEvent : Type := mkAudit {
  ae_ID : string;
  ae_Name : string;
  ae_Source : string;
  ae_Subject : string;
  ae_Action : string;
  ae_Resource : string;
  ae_Effect : Effect
}.

Definition SourceEngine : string := "engine".
Definition SourceSystem : string := "system".

Definition engine_event (id name : string) (req : AccessRequest) (e : Effect) : AuditEvent :=
  mkAudit id name SourceEngine (req_Subject req) (req_Action req) (req_Resource req) e.

(** ** Pure parts *)
Definition contains (slice : list string) (value : string) : bool := str_mem value slice.

Definition bad_subject (subject : string) : bool :=
  match SplitN2 ":" subject with
  | [t; id] => is_empty (TrimSpace t) || is_empty (TrimSpace id)
  | _ => true
  end.

Definition validateRequest (req : AccessRequest) : option error :=
  if is_empty (TrimSpace (req_Subject req)) || is_empty (TrimSpace (req_Action req)) ||
     is_empty (TrimSpace (req_Resource req))
  then Some (ErrCode "INVALID_REQUEST" "subject, action, and resource must be non-empty")
  else if bad_subject (req_Subject req)
  then Some (ErrCode "INVALID_ENTITY_REF" "subject must be in 'type:id' format with non-empty type and id")
  else None.

Definition policyNameFromMatches (policyID : string) (matches : list PolicyMatch) : string :=
  if is_empty policyID then EmptyString
  else match List.find (fun m => String.eqb (pm_PolicyID m) policyID) matches with
       | Some m => pm_PolicyName m
       | None => EmptyString
       end.

Definition combineDecisions (satisfied : list PolicyMatch) : Decision :=
  match List.find (fun m => pm_ConditionsMet m && bool_decide (pm_Effect m = EffectDeny)) satisfied with
  | Some m => SetPolicies satisfied (NewDecision EffectDeny "forbid policy satisfied" (pm_PolicyID m))
  | None =>
    match List.find (fun m => pm_ConditionsMet m && bool_decide (pm_Effect m = EffectAllow)) satisfied with
    | Some m => SetPolicies satisfied (NewDecision EffectAllow "permit policy satisfied" (pm_PolicyID m))
    | None => SetPolicies satisfied (NewDecision EffectDefaultDeny "no policies satisfied" EmptyString)
    end
  end.

(** The target tests of the loop of [findApplicablePolicies], for a policy whose
    compiled form is [cp]. *)
Definition target_matches (req : AccessRequest) (t : CompiledTarget) : bool :=
  (match PrincipalType t with
   | Some ty => String.eqb (parseEntityType (req_Subject req)) ty
   | None => true
   end) &&
  (match ActionList t with
   | [] => true
   | _ :: _ => contains (ActionList t) (req_Action req)
   end) &&
  (match ResourceExact t with
   | Some r => String.eqb (req_Resource req) r
   | None => match ResourceType t with
             | Some ty => String.eqb (parseEntityType (req_Resource req)) ty
             | None => true
             end
   end).

(** The policies whose target matches, with their compiled forms. *)
Fixpoint findApplicablePolicies (req : AccessRequest) (policies : list CachedPolicy)
  : list (CachedPolicy * CompiledPolicy) :=
  match policies with
  | [] => []
  | p :: rest =>
    match cap_Compiled p with
    | None => findApplicablePolicies req rest
    | Some cp => if target_matches req (cp_Target cp)
                 then (p, cp) :: findApplicablePolicies req rest
                 else findApplicablePolicies req rest
    end
  end.

(** The filter of [CanPerformAction]: type-level, so policies on one resource are
    skipped. *)
Definition preflight_matches (subjectType action resourceType : string) (t : CompiledTarget) : bool :=
  (match PrincipalType t with Some ty => String.eqb ty subjectType | None => true end) &&
  (match ActionList t with [] => true | _ :: _ => contains (ActionList t) action end) &&
  (match ResourceExact t with
   | Some _ => false
   | None => match ResourceType t with Some ty => String.eqb ty resourceType | None => true end
   end).

Fixpoint preflight_candidates (subjectType action resourceType : string) (policies : list CachedPolicy)
  : list CompiledPolicy :=
  match policies with
  | [] => []
  | p :: rest =>
    match cap_Compiled p with
    | None => preflight_candidates subjectType action resourceType rest
    | Some cp => if preflight_matches subjectType action resourceType (cp_Target cp)
                 then cp :: preflight_candidates subjectType action resourceType rest
                 else preflight_candidates subjectType action resourceType rest
    end
  end.

(** Overlay of the caller's per-call attributes: the caller wins. *)
Definition overlay_action (a : gmap string any) (b : AttributeBags) : AttributeBags :=
  mkBags (Subject b) (Resource b) (a ∪ Action b) (Environment b).

Section engine.
  Variable glob_compile : string -> option Glob.
  Context {R : Type} {HR : AttributeResolution R}.
  Variable sessions : context -> string -> result string.
  Variable error_code : error -> option string.

Definition evaluatePolicy (cp : CompiledPolicy) (bags : option AttributeBags) : bool :=
  EvaluateConditions glob_compile (mkEval bags 0 (cp_GlobCache cp)) (cp_Conditions cp).

Definition match_of (bags : AttributeBags) (c : CachedPolicy * CompiledPolicy) : PolicyMatch :=
  mkMatch (cap_ID c.1) (cap_Name c.1) (ToEffect (cp_Effect c.2)) (evaluatePolicy c.2 (Some bags)).

(** Steps 7 (from the snapshot's policies) to 10. *)
Definition decide_policies (req : AccessRequest) (bags : AttributeBags) (policies : list CachedPolicy)
  : Decision * option error * list AuditEvent :=
  let candidates := findApplicablePolicies req policies in
  match candidates with
  | [] =>
    let decision := SetAttributes bags
      (NewDecision EffectDefaultDeny "no applicable policies" EmptyString) in
    match Decision_Validate decision with
    | Some e => (decision, Some (ErrWrap "decision validation failed" e), [])
    | None => (decision, None, [engine_event EmptyString EmptyString req EffectDefaultDeny])
    end
  | _ :: _ =>
    let satisfied := map (match_of bags) candidates in
    let decision := SetAttributes bags (combineDecisions satisfied) in
    match Decision_Validate decision with
    | Some e => (decision, Some (ErrWrap "decision validation failed" e), [])
    | None => (decision, None,
        [engine_event (d_policyID decision)
                      (policyNameFromMatches (d_policyID decision) (d_policies decision))
                      req (d_effect decision)])
    end
  end.

Definition eval_result : Type := (Decision * option error * list AuditEvent) * R.

(** Step 5: [inl] is the early return. *)
Definition resolve_session (ctx : context) (req : AccessRequest)
  : outcome ((Decision * option error * list AuditEvent) + AccessRequest) :=
  if HasPrefix (req_Subject req) "session:" then
    match sessions ctx (TrimPrefix (req_Subject req) "session:") with
    | Err e =>
      let decision :=
        if bool_decide (error_code e = Some "SESSION_INVALID")
        then NewDecision EffectDefaultDeny "session invalid" "infra:session-invalid"
        else NewDecision EffectDefaultDeny "session store error" "infra:session-store-error" in
      Return (inl match Decision_Validate decision with
                  | Some ve => (decision, Some (ErrWrap "decision validation failed" ve), [])
                  | None => (decision, None,
                             [engine_event (d_policyID decision) EmptyString req EffectDefaultDeny])
                  end)
    | Ok characterID =>
      s ← CharacterSubject characterID;
      Return (inr (mkRequest s (req_Action req) (req_Resource req) (req_Attributes req)))
    end
  else Return (inr req).

(** Steps 6 to 10, with the subject resolved to an entity reference.  A resolver
    never returns nil bags without an error ([law_bags]), so the branch that
    dereferences them is not taken. *)
Definition evaluate_resolved (ctx : context) (req : AccessRequest) (snap : result (list CachedPolicy)) (r : R)
  : outcome eval_result :=
  '((bags, resolveErr), r') ← res_Resolve ctx req r;
  match resolveErr with
  | Some e =>
    Return ((NewDecision EffectDefaultDeny "attribute resolution failed" "infra:attribute-resolution",
             Some (ErrWrap EmptyString e),
             [engine_event "infra:attribute-resolution-failed" EmptyString req EffectDefaultDeny]), r')
  | None =>
    if has_reserved_key (req_Attributes req) then
      Return ((zeroDecision,
               Some (ErrCode "ACCESS_REQUEST_RESERVED_ATTRIBUTE"
                 "hand-built AccessRequest contained reserved attribute key %q (bypassed NewAccessRequest)"),
               []), r')
    else match bags with
    | None => Panic "nil pointer dereference"
    | Some bags =>
      let bags := overlay_action (req_Attributes req) bags in
      match snap with
      | Err e => Return ((NewDecision EffectDefaultDeny "policy cache unavailable" "infra:cache",
                          Some (ErrWrap EmptyString e), []), r')
      | Ok policies => Return (decide_policies req bags policies, r')
      end
    end
  end.

Definition Evaluate (e : Engine) (ctx : context) (req : AccessRequest)
  (snap : result (list CachedPolicy)) (r : R) : outcome eval_result :=
  match ctx_Err ctx with
  | Some err =>
    Return ((NewDecision EffectDefaultDeny "context cancelled" "infra:context-cancelled",
             Some (ErrWrap "context cancelled before evaluation" err), []), r)
  | None =>
    if String.eqb (req_Subject req) "system" then
      if negb (IsSystemContext ctx) then
        Return ((zeroDecision,
                 Some (ErrCode "SYSTEM_SUBJECT_REJECTED" "system subject is only allowed from system context"),
                 []), r)
      else
        let decision := NewDecision EffectSystemBypass "system bypass" EmptyString in
        match Decision_Validate decision with
        | Some ve => Return ((decision, Some (ErrWrap "decision validation failed" ve), []), r)
        | None =>
          Return ((decision, None,
                   [mkAudit EmptyString EmptyString SourceSystem (req_Subject req) (req_Action req)
                            (req_Resource req) EffectSystemBypass]), r)
        end
    else if degraded e then
      Return ((NewDecision EffectDefaultDeny "degraded_mode" "infra:degraded-mode", None,
               [engine_event "infra:degraded-mode" EmptyString req EffectDefaultDeny]), r)
    else match validateRequest req with
    | Some err => Return ((zeroDecision, Some err, []), r)
    | None =>
      step5 ← resolve_session ctx req;
      match step5 with
      | inl early => Return (early, r)
      | inr req => evaluate_resolved ctx req snap r
      end
    end
  end.

(** One iteration of the loop of [CanPerformAction]. *)
Definition preflight_step (bags : option AttributeBags) (acc : bool * bool) (cp : CompiledPolicy) : bool * bool :=
  let '(anyForbid, anyPermit) := acc in
  let conditionsMet := evaluatePolicy cp bags in
  let effect := ToEffect (cp_Effect cp) in
  if conditionsMet then
    match effect with
    | EffectDeny => (true, anyPermit)
    | EffectAllow => (anyForbid, true)
    | _ => acc
    end
  else if bool_decide (effect = EffectAllow) && ReferencesResourceAttrs (cp_Conditions cp)
  then (anyForbid, true)
  else acc.

Definition CanPerformAction (e : Engine) (ctx : context) (subject action resourceType : string)
  (snap : result (list CachedPolicy)) (r : R) : outcome (bool * option error * R) :=
  match ctx_Err ctx with
  | Some err => Return (false, Some (ErrWrap "context cancelled before CanPerformAction" err), r)
  | None =>
    if degraded e then Return (false, Some (ErrNew "ABAC engine in degraded mode"), r)
    else if bad_subject subject then
      Return (false, Some (ErrCode "INVALID_ENTITY_REF"
                "subject must be in 'type:id' format with non-empty type and id"), r)
    else
      '((bags, resolveErr), r') ← res_ResolveSubjectAttributes ctx subject action r;
      match resolveErr with
      | Some err => Return (false, Some (ErrWrap EmptyString err), r')
      | None =>
        match snap with
        | Err err => Return (false, Some (ErrWrap EmptyString err), r')
        | Ok policies =>
          let candidates := preflight_candidates (parseEntityType subject) action resourceType policies in
          let '(anyForbid, anyPermit) := fold_left (preflight_step bags) candidates (false, false) in
          if anyForbid then Return (false, None, r')
          else if anyPermit then Return (true, None, r')
          else Return (false, None, r')
        end
      end
  end.
End engine.

Open Scope string_scope.
Open Scope list_scope.

(** [CanPerformAction]'s scope argument is ignored by the engine and left out. *)
Class AccessPolicyEngine (E : Type) : Type := {
  ape_Evaluate : context -> AccessRequest -> E -> outcome ((Decision * option error) * E);
  ape_CanPerformAction : context -> string -> string -> string -> E -> outcome ((bool * option error) * E)
}.

(** The engine does not panic in context [ctx], from the states satisfying [inv]. *)
Class EngineTotal (E : Type) {HE : AccessPolicyEngine E} (ctx : context) (inv : E -> Prop) : Prop := {
  Evaluate_returns : forall req e, inv e -> exists res e', ape_Evaluate ctx req e = Return (res, e') /\ inv e';
  CanPerformAction_returns : forall s a r e, inv e ->
    exists res e', ape_CanPerformAction ctx s a r e = Return (res, e') /\ inv e'
}.

(** The state of an engine: its mode, the resolver, what the policy cache
    answers, and the audit events logged so far. *)
Record engine_state (R : Type) : Type := mkES {
  es_engine : Engine;
  es_resolver : R;
  es_snapshot : result (list CachedPolicy);
  es_audit : list AuditEvent
}.
Arguments mkES {R}. Arguments es_engine {R}. Arguments es_resolver {R}.
Arguments es_snapshot {R}. Arguments es_audit {R}.

Section instance.
  Variable glob_compile : string -> option Glob.
  Context {R : Type} {HR : AttributeResolution R}.
  Variable sessions : context -> string -> result string.
  Variable error_code : error -> option string.

Definition engine_policy_engine : AccessPolicyEngine (engine_state R) := {|
  ape_Evaluate := fun ctx req e =>
    '((d, err, evs), r) ← Evaluate glob_compile sessions error_code (es_engine e) ctx req (es_snapshot e) (es_resolver e);
    Return ((d, err), mkES (es_engine e) r (es_snapshot e) (es_audit e ++ evs));
  ape_CanPerformAction := fun ctx subject action rt e =>
    '((ok, err), r) ← CanPerformAction glob_compile (es_engine e) ctx subject action rt (es_snapshot e) (es_resolver e);
    Return ((ok, err), mkES (es_engine e) r (es_snapshot e) (es_audit e))
|}.
End instance.
