(* ===== verification/PolicyEngineFacts.v ===== *)
(** Theorems on the policy engine (PolicyEngine.v), for any attribute resolver
    that satisfies the interface laws: what is allowed and why, fail-closed
    behaviour on every error path, independence of the order of policies, audit
    completeness, and the relation of the type-level pre-flight to evaluation. *)

From S2P Require Import Prelude GoStrings EntityRef PolicyTypes PolicyAST PolicyEval.
From S2P Require Import PolicyCompile PolicyCache PolicyTypes PolicyEngine.

Open Scope string_scope.
Open Scope list_scope.

(** ** Degraded mode *)
Inductive mode_op : Type := MEnter (i : nat) | MClear (i : nat).

(** The engines of a process and its counters. *)
Definition mode_step (st : list Engine * process) (op : mode_op) : list Engine * process :=
  let '(es, p) := st in
  let apply f i := match es !! i with
                   | Some e => let '(e', p') := f e p in (<[i := e']> es, p')
                   | None => (es, p)
                   end in
  match op with
  | MEnter i => apply EnterDegradedMode i
  | MClear i => apply ClearDegradedMode i
  end.

Definition count_degraded (es : list Engine) : Z := Z.of_nat (length (List.filter degraded es)).

Lemma count_degraded_insert es i e e' :
  es !! i = Some e ->
  count_degraded (<[i := e']> es) =
  (count_degraded es + (if degraded e' then 1 else 0) - (if degraded e then 1 else 0))%Z.
Proof.
  unfold count_degraded. revert i. induction es as [|x es IH]; intros i Hi; [done|].
  destruct i as [|i]; simpl in Hi.
  - injection Hi as ->. simpl. destruct (degraded e), (degraded e'); simpl; lia.
  - simpl. specialize (IH i Hi). destruct (degraded x); simpl; lia.
Qed.

Definition gauge_ok (st : list Engine * process) : Prop :=
  degradedCount st.2 = count_degraded st.1 /\
  degradedModeGauge st.2 = (if (0 <? count_degraded st.1)%Z then 1 else 0)%Z.

Lemma mode_step_ok st op : gauge_ok st -> gauge_ok (mode_step st op).
Proof.
  destruct st as [es p]. intros [Hc Hg]. simpl in *.
  assert (0 <= count_degraded es)%Z as Hpos by (unfold count_degraded; lia).
  destruct op as [i|i]; simpl; destruct (es !! i) as [e|] eqn:Ei; try done.
  - unfold EnterDegradedMode. destruct (degraded e) eqn:Ed.
    + by rewrite list_insert_id.
    + split; simpl; rewrite (count_degraded_insert es i e) by done; rewrite Ed; simpl; [lia|].
      destruct (Z.ltb_spec 0 (count_degraded es + 1 - 0)); lia.
  - unfold ClearDegradedMode. destruct (degraded e) eqn:Ed; [|by rewrite list_insert_id].
    split; simpl; rewrite (count_degraded_insert es i e) by done; rewrite Ed; simpl; [lia|].
    rewrite Hc. destruct (Z.leb_spec (count_degraded es - 1) 0);
      destruct (Z.ltb_spec 0 (count_degraded es + 0 - 1)); try lia.
    rewrite Hg. destruct (Z.ltb_spec 0 (count_degraded es)); lia.
Qed.

(** The process-wide degraded-mode gauge is 1 exactly when some engine is in
    degraded mode, after any sequence of mode changes of any engines (calls not
    overlapping), repeated ones included. *)
Theorem degraded_gauge_accurate n ops :
  gauge_ok (fold_left mode_step ops (repeat (mkEngine false) n, mkProcess 0 0)).
Proof.
  assert (gauge_ok (repeat (mkEngine false) n, mkProcess 0 0)) as H.
  { assert (count_degraded (repeat (mkEngine false) n) = 0%Z) as E.
    { unfold count_degraded. induction n; simpl; [done|]. apply IHn. }
    split; simpl; by rewrite E. }
  revert H. generalize (repeat (mkEngine false) n, mkProcess 0 0) as st.
  induction ops as [|op ops IH]; intros st Hst; [done|]. by apply IH, mode_step_ok.
Qed.

(** ** Applicability and combination *)
Lemma findApplicable_In req ps c :
  c ∈ findApplicablePolicies req ps <->
  c.1 ∈ ps /\ cap_Compiled c.1 = Some c.2 /\ target_matches req (cp_Target c.2) = true.
Proof.
  destruct c as [p cp]. simpl. induction ps as [|q ps IH]; simpl; [set_solver|].
  destruct (cap_Compiled q) as [cq|] eqn:Eq.
  - destruct (target_matches req (cp_Target cq)) eqn:Et; rewrite ?elem_of_cons, IH.
    + split.
      * intros [[= -> ->]|(? & ? & ?)]; auto.
      * intros ([->|?] & Hc & Hm); [left; congruence|auto].
    + split; [tauto|]. intros ([->|?] & Hc & Hm); [congruence|auto].
  - rewrite IH, elem_of_cons. split; [tauto|]. intros ([->|?] & Hc & Hm); [congruence|auto].
Qed.

Section engine_facts.
  Variable glob_compile : string -> option Glob.

(** A policy of the snapshot with effect [e] applies to the request and its
    conditions hold in the bags. *)
Definition fires (e : Effect) (req : AccessRequest) (bags : AttributeBags) (ps : list CachedPolicy) : Prop :=
  exists p cp, p ∈ ps /\ cap_Compiled p = Some cp /\ target_matches req (cp_Target cp) = true /\
    ToEffect (cp_Effect cp) = e /\ evaluatePolicy glob_compile cp (Some bags) = true.

Definition met_with (e : Effect) (m : PolicyMatch) : bool :=
  pm_ConditionsMet m && bool_decide (pm_Effect m = e).

Lemma fires_existsb e req bags ps :
  existsb (met_with e) (map (match_of glob_compile bags) (findApplicablePolicies req ps)) = true <->
  fires e req bags ps.
Proof.
  rewrite existsb_In. split.
  - intros (m & Hm & Hf). apply list_elem_of_fmap in Hm as ([p cp] & -> & Hin).
    apply findApplicable_In in Hin as (H1 & H2 & H3). unfold met_with in Hf. simpl in *. bool_prop.
    exists p, cp. auto.
  - intros (p & cp & H1 & H2 & H3 & H4 & H5). exists (match_of glob_compile bags (p, cp)). split.
    + apply list_elem_of_fmap. exists (p, cp). split; [done|]. by apply findApplicable_In.
    + unfold met_with. simpl. rewrite H5, H4. by rewrite bool_decide_eq_true_2.
Qed.

(** The effect that combination chooses, as a function of which kinds of policy
    fired. *)
Lemma combineDecisions_effect ms :
  d_effect (combineDecisions ms) =
    (if existsb (met_with EffectDeny) ms then EffectDeny
     else if existsb (met_with EffectAllow) ms then EffectAllow else EffectDefaultDeny).
Proof.
  unfold combineDecisions.
  assert (forall e, existsb (met_with e) ms =
    match List.find (fun m => pm_ConditionsMet m && bool_decide (pm_Effect m = e)) ms with
    | Some _ => true | None => false end) as Hx.
  { intros e. pose proof (find_existsb (met_with e) ms) as Hf. unfold met_with in *.
    destruct (List.find _ ms) eqn:E; [apply Hf; eauto|].
    destruct (existsb _ ms); [|done]. destruct (proj2 Hf eq_refl). congruence. }
  rewrite !Hx. destruct (List.find _ ms); [done|]. by destruct (List.find _ ms).
Qed.

Lemma combineDecisions_valid ms : Decision_Validate (combineDecisions ms) = None.
Proof.
  unfold combineDecisions. destruct (List.find _ ms); [done|]. by destruct (List.find _ ms).
Qed.

Lemma valid_allowed d : Decision_Validate d = None -> IsAllowed d = grants (d_effect d).
Proof.
  unfold Decision_Validate, IsAllowed. by destruct (eqb_spec (d_allowed d) (grants (d_effect d))).
Qed.

(** The decision on resolved bags: its effect, and its single audit event. *)
Lemma decide_policies_effect req bags ps :
  let '(d, err, evs) := decide_policies glob_compile req bags ps in
  err = None /\ Decision_Validate d = None /\ d_attributes d = Some bags /\
  d_effect d =
    (if existsb (met_with EffectDeny) (map (match_of glob_compile bags) (findApplicablePolicies req ps))
     then EffectDeny
     else if existsb (met_with EffectAllow) (map (match_of glob_compile bags) (findApplicablePolicies req ps))
     then EffectAllow else EffectDefaultDeny) /\
  exists ev, evs = [ev] /\ ae_Effect ev = d_effect d /\ ae_Subject ev = req_Subject req /\
    ae_Action ev = req_Action req /\ ae_Resource ev = req_Resource req.
Proof.
  unfold decide_policies. destruct (findApplicablePolicies req ps) as [|c cs] eqn:Ec.
  { simpl. split_and!; try done. by eexists. }
  set (ms := map (match_of glob_compile bags) (c :: cs)).
  pose proof (combineDecisions_effect ms) as He. pose proof (combineDecisions_valid ms) as Hv.
  rewrite SetAttributes_valid, Hv. simpl. split_and!; auto. eexists. split; [reflexivity|done].
Qed.

Lemma effect_of_cases (b1 b2 : bool) :
  grants (if b1 then EffectDeny else if b2 then EffectAllow else EffectDefaultDeny) = true <->
  b2 = true /\ b1 = false.
Proof. destruct b1, b2; naive_solver. Qed.

Lemma decide_policies_allowed req bags ps d err evs :
  decide_policies glob_compile req bags ps = (d, err, evs) ->
  IsAllowed d = true <-> fires EffectAllow req bags ps /\ ~ fires EffectDeny req bags ps.
Proof.
  intros E. pose proof (decide_policies_effect req bags ps) as H. rewrite E in H.
  destruct H as (_ & Hv & _ & He & _). rewrite (valid_allowed d Hv), He, effect_of_cases.
  rewrite fires_existsb, <- not_true_iff_false, fires_existsb. done.
Qed.

  Context {R : Type} {HR : AttributeResolution R} (good : R -> Prop) {HL : ResolutionLaws R good}.
  Variable sessions : context -> string -> result string.
  Variable error_code : error -> option string.

Abbreviation evaluate := (Evaluate glob_compile sessions error_code).

(** The request step 5 goes on with: itself, or the session's character. *)
Inductive session_request (ctx : context) (req : AccessRequest) : AccessRequest -> Prop :=
| sr_same : HasPrefix (req_Subject req) "session:" = false -> session_request ctx req req
| sr_session c : HasPrefix (req_Subject req) "session:" = true ->
    sessions ctx (TrimPrefix (req_Subject req) "session:") = Ok c -> c <> EmptyString ->
    session_request ctx req
      (mkRequest (SubjectCharacter +:+ c) (req_Action req) (req_Resource req) (req_Attributes req)).

Lemma session_request_same ctx req req' :
  session_request ctx req req' ->
  req_Action req' = req_Action req /\ req_Resource req' = req_Resource req /\
  req_Attributes req' = req_Attributes req.
Proof. by destruct 1. Qed.

Lemma resolve_session_inr ctx req req' :
  resolve_session sessions error_code ctx req = Return (inr req') <-> session_request ctx req req'.
Proof.
  unfold resolve_session. destruct (HasPrefix (req_Subject req) "session:") eqn:Eh.
  - destruct (sessions ctx _) as [c|e] eqn:Es.
    + destruct (CharacterSubject c) as [x|m] eqn:Ex; simpl; rewrite ?Ex; simpl.
      * unfold CharacterSubject in Ex. apply prefixed_Return in Ex as [-> Hc]. split.
        -- intros [= <-]. by apply sr_session.
        -- intros H. inversion H as [H1|c' H1 H2 H3]; subst; congruence.
      * split; [done|]. intros H. inversion H as [H1|c' H1 H2 H3]; [congruence|].
        rewrite Es in H2. injection H2 as ->. unfold CharacterSubject, prefixed in Ex.
        apply is_empty_false in H3. by rewrite H3 in Ex.
    + split; [by destruct (Decision_Validate _)|].
      intros H. inversion H as [H1|c' H1 H2 H3]; congruence.
  - split; [intros [= ->]; by constructor|]. intros H. inversion H as [H1|c' H1 H2 H3]; congruence.
Qed.

(** Early returns of step 5 are audited denials without error. *)
Lemma resolve_session_inl ctx req x :
  resolve_session sessions error_code ctx req = Return (inl x) ->
  exists d ev, x = (d, None, [ev]) /\ d_effect d = EffectDefaultDeny /\ Decision_Validate d = None /\
    ae_Effect ev = EffectDefaultDeny /\ ae_Action ev = req_Action req /\ ae_Resource ev = req_Resource req.
Proof.
  unfold resolve_session. destruct (HasPrefix (req_Subject req) "session:"); [|done].
  destruct (sessions ctx _) as [c|e].
  - by destruct (CharacterSubject c).
  - destruct (bool_decide _); simpl; intros [= <-]; eexists; eexists; split_and!; reflexivity.
Qed.

(** How an evaluation ends: a decision by the policies on resolved attributes,
    the system bypass, or a denial. *)
Inductive eval_outcome (e : Engine) (ctx : context) (req : AccessRequest)
  (snap : result (list CachedPolicy)) (r : R) : Decision -> option error -> list AuditEvent -> R -> Prop :=
| eo_policies req' b ps d evs r' :
    req_Subject req <> "system" -> degraded e = false -> validateRequest req = None ->
    session_request ctx req req' ->
    res_Resolve ctx req' r = Return ((Some b, None), r') -> has_reserved_key (req_Attributes req) = false ->
    snap = Ok ps ->
    decide_policies glob_compile req' (overlay_action (req_Attributes req) b) ps = (d, None, evs) ->
    eval_outcome e ctx req snap r d None evs r'
| eo_system d ev r' : req_Subject req = "system" -> IsSystemContext ctx = true ->
    d = NewDecision EffectSystemBypass "system bypass" EmptyString ->
    ae_Effect ev = EffectSystemBypass -> ae_Action ev = req_Action req -> ae_Resource ev = req_Resource req ->
    eval_outcome e ctx req snap r d None [ev] r'
| eo_denied d ev r' : d_effect d = EffectDefaultDeny -> Decision_Validate d = None ->
    ae_Effect ev = EffectDefaultDeny -> ae_Action ev = req_Action req -> ae_Resource ev = req_Resource req ->
    eval_outcome e ctx req snap r d None [ev] r'
| eo_error d err evs r' : d_effect d = EffectDefaultDeny -> Decision_Validate d = None ->
    eval_outcome e ctx req snap r d (Some err) evs r'.

Lemma Evaluate_outcome e ctx req snap r d err evs r' :
  evaluate e ctx req snap r = Return ((d, err, evs), r') ->
  ctx_Err ctx = None /\ eval_outcome e ctx req snap r d err evs r' \/
  (exists x, err = Some x) /\ d_effect d = EffectDefaultDeny /\ Decision_Validate d = None.
Proof.
  unfold Evaluate. destruct (ctx_Err ctx) as [ce|].
  { intros [= <- <- <- <-]. right. split_and!; eauto. }
  intros HE. left. split; [done|]. revert HE.
  destruct (String.eqb_spec (req_Subject req) "system") as [Hsys|Hsys].
  { destruct (IsSystemContext ctx) eqn:Eic; simpl; intros [= <- <- <- <-].
    - by apply eo_system.
    - by apply eo_error. }
  destruct (degraded e) eqn:Ed.
  { intros [= <- <- <- <-]. by apply eo_denied. }
  destruct (validateRequest req) eqn:Ev.
  { intros [= <- <- <- <-]. by apply eo_error. }
  destruct (resolve_session sessions error_code ctx req) as [[early|req']|pm] eqn:Es; simpl; [| |done].
  { apply resolve_session_inl in Es as (d' & ev & -> & H1 & H2 & H3 & H4 & H5).
    intros [= <- <- <- <-]. by apply eo_denied. }
  apply resolve_session_inr in Es as Hsr. destruct (session_request_same _ _ _ Hsr) as (Ha & Hr & Hat).
  unfold evaluate_resolved. rewrite Hat.
  destruct (res_Resolve ctx req' r) as [[[ob [re|]] r1]|pm] eqn:Er; simpl; [| |done].
  { intros [= <- <- <- <-]. by apply eo_error. }
  destruct (has_reserved_key (req_Attributes req)) eqn:Ek.
  { intros [= <- <- <- <-]. by apply eo_error. }
  destruct ob as [b|]; [|done]. destruct snap as [ps|se].
  2:{ intros [= <- <- <- <-]. by apply eo_error. }
  intros [= Hd <-].
  pose proof (decide_policies_effect req' (overlay_action (req_Attributes req) b) ps) as He.
  rewrite Hd in He. destruct He as (-> & _). by eapply eo_policies.
Qed.

(** When nothing stands in the way, the policies decide. *)
Lemma Evaluate_decides e ctx req req' ps r b r' :
  ctx_Err ctx = None -> req_Subject req <> "system" -> degraded e = false ->
  validateRequest req = None -> session_request ctx req req' ->
  res_Resolve ctx req' r = Return ((Some b, None), r') -> has_reserved_key (req_Attributes req) = false ->
  evaluate e ctx req (Ok ps) r =
    Return (decide_policies glob_compile req' (overlay_action (req_Attributes req) b) ps, r').
Proof.
  intros Hctx Hsys Hdeg Hval Hsr Hres Hk. destruct (session_request_same _ _ _ Hsr) as (Ha & Hr & Hat).
  unfold Evaluate. rewrite Hctx, Hdeg, Hval. apply String.eqb_neq in Hsys. rewrite Hsys.
  apply resolve_session_inr in Hsr. rewrite Hsr. simpl. unfold evaluate_resolved.
  rewrite Hres. simpl. by rewrite Hat, Hk.
Qed.

(** C11: access control soundness.  Whenever Evaluate returns an allowing decision
    there was no error, the context was live, and either the request is the
    system subject in a system context, or: the engine is not degraded, the
    attributes of the request (after session resolution) were resolved without
    error, some permit policy of the snapshot whose target matches has its
    conditions satisfied, and no matching forbid policy has; and the action name
    the conditions saw is the request's own, whatever attributes the caller
    supplied. *)
Theorem Evaluate_allow_sound e ctx req snap r d err evs r' :
  good r -> evaluate e ctx req snap r = Return ((d, err, evs), r') -> IsAllowed d = true ->
  err = None /\ ctx_Err ctx = None /\
  ((req_Subject req = "system" /\ IsSystemContext ctx = true /\ d_effect d = EffectSystemBypass) \/
   (degraded e = false /\ exists req' b ps,
      session_request ctx req req' /\ res_Resolve ctx req' r = Return ((Some b, None), r') /\
      snap = Ok ps /\
      let bags := overlay_action (req_Attributes req) b in
      fires EffectAllow req' bags ps /\ ~ fires EffectDeny req' bags ps /\
      Action bags !! "name" = Some (AString (req_Action req)))).
Proof.
  intros Hg HE Ha. apply Evaluate_outcome in HE as [[Hctx Ho]|(_ & He & Hv)].
  2:{ rewrite (valid_allowed d Hv), He in Ha. done. }
  destruct Ho as [req' b ps d evs r' Hsys Hdeg Hval Hsr Hres Hk Hsnap Hd|d ev r' Hs Hc -> _ _ _|
                  d ev r' He Hv _ _ _|d x evs r' He Hv].
  - split_and!; [done|done|]. right. split; [done|]. exists req', b, ps.
    apply (decide_policies_allowed _ _ _ _ _ _ Hd) in Ha as [H1 H2]. split_and!; auto. simpl.
    destruct (law_bags ctx req' r (Some b) r' Hg Hres) as (b' & [= <-] & Hact).
    destruct (session_request_same _ _ _ Hsr) as (Hra & _ & _).
    rewrite Hact, Hra, lookup_union_r; [by rewrite lookup_singleton_eq|by apply has_reserved_key_false].
  - split_and!; auto.
  - rewrite (valid_allowed d Hv), He in Ha. done.
  - rewrite (valid_allowed d Hv), He in Ha. done.
Qed.

(** C1: deny-overrides, exactly.  For a well-formed request to a live, healthy
    engine whose attributes resolve and whose cache answers, Evaluate returns,
    without error, EffectDeny if a matching forbid policy is satisfied,
    EffectAllow if none is but a matching permit policy is, and
    EffectDefaultDeny otherwise; it logs one audit event with that effect. *)
Theorem Evaluate_deny_overrides e ctx req req' ps r b r' :
  ctx_Err ctx = None -> req_Subject req <> "system" -> degraded e = false ->
  validateRequest req = None -> session_request ctx req req' ->
  res_Resolve ctx req' r = Return ((Some b, None), r') -> req_Attributes req !! "name" = None ->
  let bags := overlay_action (req_Attributes req) b in
  exists d ev, evaluate e ctx req (Ok ps) r = Return ((d, None, [ev]), r') /\
    (d_effect d = EffectDeny <-> fires EffectDeny req' bags ps) /\
    (d_effect d = EffectAllow <-> fires EffectAllow req' bags ps /\ ~ fires EffectDeny req' bags ps) /\
    (d_effect d = EffectDefaultDeny <-> ~ fires EffectAllow req' bags ps /\ ~ fires EffectDeny req' bags ps) /\
    IsAllowed d = bool_decide (d_effect d = EffectAllow) /\
    ae_Effect ev = d_effect d /\ ae_Subject ev = req_Subject req'.
Proof.
  intros Hctx Hsys Hdeg Hval Hsr Hres Hk bags. apply has_reserved_key_false in Hk.
  destruct (session_request_same _ _ _ Hsr) as (Ha & Hr & Hat).
  pose proof (decide_policies_effect req' bags ps) as He.
  destruct (decide_policies glob_compile req' bags ps) as [[d err] evs] eqn:Ed.
  destruct He as (-> & Hv & _ & Heff & ev & -> & Hev & Hes & _).
  exists d, ev. split.
  - rewrite (Evaluate_decides e ctx req req' ps r b r') by done. fold bags. by rewrite Ed.
  - pose proof (fires_existsb EffectDeny req' bags ps) as HD.
    pose proof (fires_existsb EffectAllow req' bags ps) as HA.
    rewrite (valid_allowed d Hv). rewrite Heff.
    destruct (existsb (met_with EffectDeny) _), (existsb (met_with EffectAllow) _);
      split_and!; try done; intuition congruence.
Qed.

(** C35: fail-closed.  Whatever Evaluate returns is a consistent decision, and a
    decision returned with an error, on any path, denies. *)
Theorem Evaluate_fail_closed e ctx req snap r d err evs r' :
  evaluate e ctx req snap r = Return ((d, err, evs), r') ->
  Decision_Validate d = None /\ (err <> None -> IsAllowed d = false) /\
  (degraded e = true -> req_Subject req <> "system" -> IsAllowed d = false).
Proof.
  intros HE. apply Evaluate_outcome in HE as [[Hctx Ho]|(_ & He & Hv)].
  2:{ rewrite (valid_allowed d Hv), He. done. }
  destruct Ho as [req' b ps d evs r' Hsys Hdeg Hval Hsr Hres Hk Hsnap Hd|d ev r' Hs Hc -> _ _ _|
                  d ev r' He Hv _ _ _|d x evs r' He Hv].
  - pose proof (decide_policies_effect req' (overlay_action (req_Attributes req) b) ps) as H.
    rewrite Hd in H. destruct H as (_ & Hv & _). split_and!; [done|done|congruence].
  - split_and!; done.
  - rewrite (valid_allowed d Hv), He. done.
  - rewrite (valid_allowed d Hv), He. done.
Qed.

(** Audit completeness.  Every decision returned without an error was logged
    by exactly one audit event, with the effect of the decision and the action
    and resource of the request. *)
Theorem Evaluate_audited e ctx req snap r d evs r' :
  Evaluate glob_compile sessions error_code e ctx req snap r = Return ((d, None, evs), r') ->
  exists ev, evs = [ev] /\ ae_Effect ev = d_effect d /\
    ae_Action ev = req_Action req /\ ae_Resource ev = req_Resource req.
Proof.
  intros HE. apply Evaluate_outcome in HE as [[Hctx Ho]|([x [=]] & _)].
  inversion Ho as [req' b ps d0 evs0 r0 Hsys Hdeg Hval Hsr Hres Hk Hsnap Hd|d0 ev r0 Hs Hc -> H1 H2 H3|
                  d0 ev r0 He Hv H1 H2 H3|]; subst.
  - pose proof (decide_policies_effect req' (overlay_action (req_Attributes req) b) ps) as H.
    rewrite Hd in H. destruct H as (_ & _ & _ & _ & ev & -> & Hev & _ & Ha & Hr).
    destruct (session_request_same _ _ _ Hsr) as (Ha' & Hr' & _).
    exists ev. split_and!; congruence.
  - eauto.
  - exists ev. split_and!; congruence.
Qed.

Lemma fires_Permutation eff req bags ps ps' :
  ps ≡ₚ ps' -> fires eff req bags ps <-> fires eff req bags ps'.
Proof. intros HP. unfold fires. by setoid_rewrite HP. Qed.

Lemma decide_policies_iff req bags ps ps' :
  (forall eff, fires eff req bags ps <-> fires eff req bags ps') ->
  d_effect (decide_policies glob_compile req bags ps).1.1 =
  d_effect (decide_policies glob_compile req bags ps').1.1.
Proof.
  intros Hf. pose proof (decide_policies_effect req bags ps) as H1.
  pose proof (decide_policies_effect req bags ps') as H2.
  destruct (decide_policies _ _ _ ps) as [[d1 ?] ?], (decide_policies _ _ _ ps') as [[d2 ?] ?].
  destruct H1 as (_ & _ & _ & H1 & _), H2 as (_ & _ & _ & H2 & _). simpl. rewrite H1, H2.
  assert (forall eff, existsb (met_with eff) (map (match_of glob_compile bags) (findApplicablePolicies req ps)) =
    existsb (met_with eff) (map (match_of glob_compile bags) (findApplicablePolicies req ps'))) as E.
  { intros eff. apply eq_true_iff_eq. rewrite !fires_existsb. apply Hf. }
  by rewrite !E.
Qed.

(** The decision does not depend on the order in which the policies are
    stored: reordering the snapshot changes neither the effect nor the error. *)
Theorem Evaluate_order_independent e ctx req ps ps' r d err evs r1 d' err' evs' r2 :
  ps ≡ₚ ps' ->
  Evaluate glob_compile sessions error_code e ctx req (Ok ps) r = Return ((d, err, evs), r1) ->
  Evaluate glob_compile sessions error_code e ctx req (Ok ps') r = Return ((d', err', evs'), r2) ->
  d_effect d = d_effect d' /\ err = err' /\ r1 = r2.
Proof.
  intros HP. unfold Evaluate. destruct (ctx_Err ctx); [naive_solver|].
  destruct (String.eqb _ _); [destruct (negb _); naive_solver|].
  destruct (degraded e); [naive_solver|]. destruct (validateRequest req); [naive_solver|].
  destruct (resolve_session _ _ ctx req) as [[early|req']|]; simpl; [naive_solver| |done].
  unfold evaluate_resolved. destruct (res_Resolve ctx req' r) as [[[ob [re|]] rr]|]; simpl;
    [naive_solver| |done].
  destruct (has_reserved_key _); [naive_solver|]. destruct ob as [b|]; [|done].
  intros [= H1 <-] [= H2 <-]. split_and!; [|..|done].
  - pose proof (decide_policies_iff req' (overlay_action (req_Attributes req') b) ps ps') as H.
    rewrite H1, H2 in H. apply H. intros eff. by apply fires_Permutation.
  - pose proof (decide_policies_effect req' (overlay_action (req_Attributes req') b) ps) as E1.
    pose proof (decide_policies_effect req' (overlay_action (req_Attributes req') b) ps') as E2.
    rewrite H1 in E1. rewrite H2 in E2. destruct E1 as [-> _], E2 as [-> _]. done.
Qed.

(** Restrictions only restrict.  Adding policies none of which is a permit
    never turns a denial into an allowance. *)
Theorem Evaluate_forbids_monotone e ctx req ps ps' r d err evs r1 d' err' evs' r2 :
  (forall p, p ∈ ps -> p ∈ ps') ->
  (forall p cp, p ∈ ps' -> p ∈ ps \/ (cap_Compiled p = Some cp -> ToEffect (cp_Effect cp) <> EffectAllow)) ->
  evaluate e ctx req (Ok ps) r = Return ((d, err, evs), r1) ->
  evaluate e ctx req (Ok ps') r = Return ((d', err', evs'), r2) ->
  IsAllowed d' = true -> IsAllowed d = true.
Proof.
  intros Hsub Hnew HE HE' Ha. apply Evaluate_outcome in HE' as [[Hctx Ho]|(_ & He & Hv)].
  2:{ rewrite (valid_allowed d' Hv), He in Ha. done. }
  inversion Ho as [q b ps1 d0 evs0 r0 Hsys Hdeg Hval Hsr Hres Hk Hsn Hd|? ? ? Hsys Hic|d0 ? ? He Hv|d0 ? ? ? He Hv];
    subst; try (rewrite (valid_allowed d' Hv), He in Ha; done).
  - injection Hsn as <-. rewrite (Evaluate_decides e ctx req q ps r b r2) in HE by done.
    injection HE as HE _. apply (decide_policies_allowed _ _ _ _ _ _ HE).
    apply (decide_policies_allowed _ _ _ _ _ _ Hd) in Ha as [HA HD]. split.
    + destruct HA as (p & cp & Hin & Hc & Hm & He & Hev).
      destruct (Hnew p cp Hin) as [?|Hne]; [by exists p, cp|]. by destruct (Hne Hc).
    + intros (p & cp & Hin & Hrest). apply HD. exists p, cp. auto.
  - revert HE. unfold Evaluate. rewrite Hctx, Hsys, Hic. simpl. by intros [= <- _ _ _].
Qed.

(** ** Pre-flight *)
Definition preflight_forbids (bags : option AttributeBags) (cp : CompiledPolicy) : bool :=
  evaluatePolicy glob_compile cp bags && bool_decide (ToEffect (cp_Effect cp) = EffectDeny).
Definition preflight_permits (bags : option AttributeBags) (cp : CompiledPolicy) : bool :=
  (evaluatePolicy glob_compile cp bags || ReferencesResourceAttrs (cp_Conditions cp)) &&
  bool_decide (ToEffect (cp_Effect cp) = EffectAllow).

Lemma preflight_fold bags cs f p :
  fold_left (preflight_step glob_compile bags) cs (f, p) =
  (f || existsb (preflight_forbids bags) cs, p || existsb (preflight_permits bags) cs).
Proof.
  revert f p. induction cs as [|cp cs IH]; intros f p; simpl; [by rewrite !orb_false_r|].
  unfold preflight_step at 1, preflight_forbids at 1, preflight_permits at 1.
  destruct (evaluatePolicy glob_compile cp bags), (ToEffect (cp_Effect cp)),
    (ReferencesResourceAttrs (cp_Conditions cp)); simpl; rewrite IH; f_equal; rewrite ?orb_true_r; done.
Qed.

Lemma preflight_In st a rt ps cp :
  cp ∈ preflight_candidates st a rt ps <->
  exists p, p ∈ ps /\ cap_Compiled p = Some cp /\ preflight_matches st a rt (cp_Target cp) = true.
Proof.
  induction ps as [|q ps IH]; simpl; [set_solver|].
  assert ((exists p, p ∈ q :: ps /\ cap_Compiled p = Some cp /\
             preflight_matches st a rt (cp_Target cp) = true) <->
          (cap_Compiled q = Some cp /\ preflight_matches st a rt (cp_Target cp) = true) \/
          cp ∈ preflight_candidates st a rt ps) as ->.
  { rewrite IH. split.
    - intros (p & [->|Hp]%elem_of_cons & ?); [by left|right; eauto].
    - intros [?|(p & Hp & ?)]; [exists q|exists p]; (split; [|done]); apply elem_of_cons; auto. }
  destruct (cap_Compiled q) as [cq|]; [destruct (preflight_matches st a rt (cp_Target cq)) eqn:Em|];
    rewrite ?elem_of_cons; intuition congruence.
Qed.

Lemma preflight_target req t :
  ResourceExact t = None ->
  preflight_matches (parseEntityType (req_Subject req)) (req_Action req)
    (parseEntityType (req_Resource req)) t = target_matches req t.
Proof.
  intros H. unfold preflight_matches, target_matches. rewrite H.
  destruct (PrincipalType t), (ResourceType t); rewrite ?(String.eqb_sym s), ?(String.eqb_sym s0); done.
Qed.

Lemma preflight_matches_exact st a rt t :
  preflight_matches st a rt t = true -> ResourceExact t = None.
Proof.
  unfold preflight_matches. intros H. apply andb_true_iff in H as [_ H]. by destruct (ResourceExact t).
Qed.

Lemma evaluatePolicy_resource cp b b' :
  Subject b' = Subject b -> Action b' = Action b -> Environment b' = Environment b ->
  ReferencesResourceAttrs (cp_Conditions cp) = false ->
  evaluatePolicy glob_compile cp (Some b') = evaluatePolicy glob_compile cp (Some b).
Proof.
  intros H1 H2 H3 Href. unfold evaluatePolicy.
  rewrite <- (EvaluateConditions_resource_independent glob_compile (Resource b') (mkEval (Some b) 0 _) _ Href).
  unfold with_resource. simpl. f_equal. f_equal. f_equal. destruct b'; simpl in *. by subst.
Qed.

(** Pre-flight is complete.  If Evaluate allows a request that carries no
    per-call attributes, then CanPerformAction on the type of its resource,
    from the same state and policies, answers true whenever it answers without
    error, provided the environment attributes resolve alike, no permit names
    a single resource, and no forbid of that type tests resource attributes. *)
Theorem preflight_complete e ctx req ps r d evs r1 ok r2 :
  good r -> evaluate e ctx req (Ok ps) r = Return ((d, None, evs), r1) -> IsAllowed d = true ->
  req_Subject req <> "system" -> HasPrefix (req_Subject req) "session:" = false ->
  req_Attributes req = ∅ ->
  (forall b b' s1 s2 e2, res_Resolve ctx req r = Return ((Some b, None), s1) ->
     res_ResolveSubjectAttributes ctx (req_Subject req) (req_Action req) r = Return ((Some b', e2), s2) ->
     Environment b' = Environment b) ->
  (forall p cp, p ∈ ps -> cap_Compiled p = Some cp ->
     match ToEffect (cp_Effect cp) with
     | EffectAllow => ResourceExact (cp_Target cp) = None
     | EffectDeny => ReferencesResourceAttrs (cp_Conditions cp) = false
     | _ => True
     end) ->
  CanPerformAction glob_compile e ctx (req_Subject req) (req_Action req)
    (parseEntityType (req_Resource req)) (Ok ps) r = Return (ok, None, r2) ->
  ok = true.
Proof.
  intros Hg HE Ha Hsys Hns Hat Henv Hps HC.
  apply Evaluate_outcome in HE as [[Hctx Ho]|(_ & He & Hv)].
  2:{ rewrite (valid_allowed d Hv), He in Ha. done. }
  inversion Ho as [q b ps1 d0 evs0 r0 _ Hdeg Hval Hsr Hres Hk Hsn Hd|? ? ? Hsys'|d0 ? ? He Hv|d0 ? ? ? He Hv];
    subst; try (rewrite (valid_allowed d Hv), He in Ha; done); [|done].
  injection Hsn as <-. destruct Hsr as [_|c Hs]; [|congruence].
  apply (decide_policies_allowed _ _ _ _ _ _ Hd) in Ha as [HA HD]. rewrite Hat in HA, HD.
  revert HC. unfold CanPerformAction. rewrite Hctx, Hdeg.
  destruct (bad_subject (req_Subject req)) eqn:Ebad; [done|].
  destruct (res_ResolveSubjectAttributes ctx (req_Subject req) (req_Action req) r)
    as [[[ob [x|]] s2]|] eqn:Es; simpl; [done| |done].
  destruct (law_preflight ctx req r b r1 ob None s2 Hg Hres) as (b' & -> & HS & HAc & HRs); [|done|].
  { intros E. unfold bad_subject in Ebad. by rewrite E in Ebad. }
  pose proof (Henv b b' r1 s2 None Hres eq_refl) as HEn.
  assert (overlay_action ∅ b = b) as Hov.
  { unfold overlay_action. rewrite (left_id_L ∅ (∪)). by destruct b. }
  rewrite Hov in HA, HD. rewrite preflight_fold. simpl.
  rewrite (proj2 (existsb_false _ _)), (proj2 (existsb_In _ _)); [by intros [= <- _]| |].
  - destruct HA as (p & cp & Hin & Hc & Hm & He & Hev). exists cp.
    pose proof (Hps p cp Hin Hc) as Hx. rewrite He in Hx. split.
    + apply preflight_In. exists p. split_and!; auto. by rewrite preflight_target.
    + unfold preflight_permits. rewrite He. simpl. rewrite andb_true_r.
      destruct (ReferencesResourceAttrs (cp_Conditions cp)) eqn:Eref; [apply orb_true_r|].
      by rewrite (evaluatePolicy_resource cp b b'), Hev.
  - intros cp Hin. apply preflight_In in Hin as (p & Hin & Hc & Hm). unfold preflight_forbids.
    destruct (bool_decide_reflect (ToEffect (cp_Effect cp) = EffectDeny)) as [Hf|]; [|by rewrite andb_false_r].
    pose proof (Hps p cp Hin Hc) as Hx. rewrite Hf in Hx.
    rewrite (evaluatePolicy_resource cp b b') by done.
    destruct (evaluatePolicy glob_compile cp (Some b)) eqn:Ev; [|done]. destruct HD.
    exists p, cp. split_and!; auto. rewrite <- preflight_target; [done|].
    by eapply preflight_matches_exact.
Qed.
End engine_facts.
