(* ===== verification/AccessScenarios.v ===== *)
(** The access-control stack put together: the engine over the resolver of the
    code, on concrete providers and policies.  Holds the concrete instances of
    the theorems on the resolver, the compiler and the engine, and two
    behaviours of the composed system that its parts do not show. *)

From S2P Require Import Prelude GoStrings EntityRef PolicyTypes PolicyAST PolicyEval PolicyCompile.
From S2P Require Import PolicyCache CircuitBreaker AttrResolver PolicyTypes AttrResolverFacts.
From S2P Require Import PolicyEngine PolicyEngineFacts.

Open Scope string_scope.
Open Scope list_scope.

(** ** A concrete system *)
Definition demo_glob (pattern : string) : option Glob := Some (fun s => String.eqb s pattern).
Definition demo_ctx : context := mkCtx None false false.

(** Provider "character" knows whether a subject is banned; [up] says whether it
    answers at all. *)
Definition demo_schema : NamespaceSchema := mkNS {["banned" := AttrTypeBool]}.
Definition character_provider (up banned : bool) : AttributeProvider :=
  let answer := if up then PReturn (Some {["banned" := ABool banned]}) None
                else PReturn None (Some (ErrNew "connection refused")) in
  mkProvider "character" (fun _ _ => (answer, 0%Z)) (fun _ _ => (answer, 0%Z)) (Some demo_schema).

Definition demo_resolver (up banned : bool) : Resolver :=
  (RegisterProvider (character_provider up banned) (NewResolver NewAttributeSchema)).1.

Lemma demo_resolver_wf up banned : resolver_wf (demo_resolver up banned).
Proof. apply RegisterProvider_wf, NewResolver_wf. Qed.

Definition any_target : CompiledTarget := mkCTarget None [] None None.

Definition permit_all : CachedPolicy :=
  mkCached "01PERMIT" "permit-all" (Some (mkCompiled 1 PolicyEffectPermit any_target None ∅ "permit(principal, action, resource);")).

(** forbid(principal, action, resource) when { principal.character.banned == true }; *)
Definition banned_condition : ConditionBlock :=
  [[CComparison (mkComparison (EAttrRef (mkAttrRef "principal" ["character"; "banned"])) "=="
                              (ELiteral (LBool "true")))]].
Definition forbid_banned : CachedPolicy :=
  mkCached "01FORBID" "forbid-banned" (Some (mkCompiled 1 PolicyEffectForbid any_target
    (Some banned_condition) ∅ "forbid(principal, action, resource) when { principal.character.banned == true };")).

Definition demo_req : AccessRequest := mkRequest "character:01A" "look" "location:01L" ∅.

Definition demo_sessions (_ : context) (id : string) : result string :=
  Err (ErrCode "SESSION_INVALID" "no session").
Definition demo_code (e : error) : option string :=
  match e with ErrCode c _ => Some c | _ => None end.

Definition demo_eval (ps : list CachedPolicy) (r : Resolver * Z) : outcome (eval_result (R := Resolver * Z)) :=
  Evaluate demo_glob demo_sessions demo_code (mkEngine false) demo_ctx demo_req (Ok ps) r.

(** ** Instances of the resolver theorems *)
Lemma register_unregister_roundtrip_witness :
  (UnregisterProvider "character" (demo_resolver true true)).1 = NewResolver NewAttributeSchema.
Proof.
  apply (register_unregister_roundtrip (character_provider true true) (NewResolver NewAttributeSchema)).
  - apply NewResolver_wf.
  - reflexivity.
  - reflexivity.
  - discriminate.
Defined.

Lemma lru_cache_correct_witness :
  (cache_Get "k" (cache_Put "k" ∅ (newAttributeCache 100))).1 = Some ∅.
Proof.
  apply (lru_cache_correct "k" ∅ (newAttributeCache 100)); [|simpl; lia].
  constructor; simpl; [constructor|set_solver|lia].
Defined.

Lemma Resolve_cache_transparent_witness :
  Resolve demo_ctx demo_req (demo_resolver true true) 0 =
  Return (plain_Resolve demo_req (demo_resolver true true) 0).
Proof. apply Resolve_cache_transparent; [apply demo_resolver_wf|reflexivity]. Defined.

(** The resolution of the request succeeds with the attributes of a banned
    character. *)
Definition banned_bags (res : resolution) : bool :=
  match res with
  | ((Some b, None), _) =>
    match Subject b !! "character.banned", Subject b !! "id" with
    | Some (ABool true), Some (AString id) => String.eqb id "01A"
    | _, _ => false
    end
  | _ => false
  end.

Lemma demo_resolves :
  exists b st, Resolve demo_ctx demo_req (demo_resolver true true) 0 = Return ((Some b, None), st) /\
    Subject b !! "character.banned" = Some (ABool true) /\ Subject b !! "id" = Some (AString "01A").
Proof.
  destruct (outcome_check_true (Resolve demo_ctx demo_req (demo_resolver true true) 0) banned_bags)
    as ([[ob err] st] & E & H); [vm_compute; reflexivity|].
  unfold banned_bags in H. destruct ob as [b|], err; try discriminate H. exists b, st.
  destruct (Subject b !! "character.banned") as [[]|]; try discriminate H.
  destruct b0; [|discriminate H].
  destruct (Subject b !! "id") as [[]|]; try discriminate H.
  apply String.eqb_eq in H as ->. split; [exact E|]. split; reflexivity.
Qed.

Lemma Resolve_provenance_witness :
  exists b, bag_from (demo_resolver true true) RSubject "character:01A" (Subject b) /\
            Subject b !! "character.banned" = Some (ABool true) /\ Subject b !! "id" = Some (AString "01A").
Proof.
  destruct demo_resolves as (b & st & E & H1 & H2).
  destruct (Resolve_provenance demo_ctx demo_req (demo_resolver true true) 0 (Some b) st)
    as (b' & Hb & _ & _ & H & _); [apply demo_resolver_wf|exact E|discriminate|discriminate|].
  exists b. injection Hb as <-. split; [exact H|]. split; assumption.
Defined.

Lemma failing_provider_fails_closed_witness :
  exists b err st, Resolve demo_ctx demo_req (demo_resolver false true) 0 = Return ((b, err), st) /\ err <> None.
Proof.
  destruct (outcome_check_true (Resolve demo_ctx demo_req (demo_resolver false true) 0) (fun _ => true))
    as ([[b err] st] & E & _); [vm_compute; reflexivity|].
  exists b, err, st. split; [exact E|].
  eapply (failing_provider_fails_closed demo_ctx demo_req (demo_resolver false true) 0 "character").
  - apply demo_resolver_wf.
  - exact E.
  - discriminate.
  - vm_compute; reflexivity.
  - intros nw. reflexivity.
  - vm_compute; reflexivity.
  - split; [discriminate|reflexivity].
Defined.

Lemma preflight_same_subject_witness :
  exists b b', Subject b' = Subject b /\ Resource b' = ∅ /\ Subject b !! "character.banned" = Some (ABool true).
Proof.
  destruct demo_resolves as (b & st & E & H1 & H2).
  destruct (outcome_check_true (ResolveSubjectAttributes demo_ctx "character:01A" "look" (demo_resolver true true) 0)
    (fun _ => true)) as ([[ob2 err2] st2] & E2 & _); [vm_compute; reflexivity|].
  destruct (preflight_same_subject demo_ctx demo_req (demo_resolver true true) 0 b st ob2 err2 st2)
    as (b' & _ & HS & _ & HR); [apply demo_resolver_wf|exact E|discriminate|exact E2|].
  exists b, b'. split; [exact HS|]. split; [exact HR|]. exact H1.
Defined.

(** ** Instances of the engine theorems *)
Definition wf_state (st : Resolver * Z) : Prop := resolver_wf st.1.

(** The outcome of an evaluation: no error, and the given verdict. *)
Definition verdict (allowed : bool) (res : eval_result (R := Resolver * Z)) : bool :=
  match res with
  | ((d, None, _), _) => eqb (IsAllowed d) allowed
  | _ => false
  end.

Lemma demo_eval_verdict allowed ps up banned :
  outcome_check (demo_eval ps (demo_resolver up banned, 0%Z)) (verdict allowed) = true ->
  exists d evs st, demo_eval ps (demo_resolver up banned, 0%Z) = Return ((d, None, evs), st) /\
    IsAllowed d = allowed.
Proof.
  intros H. apply outcome_check_true in H as ([[[d err] evs] st] & E & H). unfold verdict in H.
  destruct err; [discriminate H|]. apply eqb_prop in H. exists d, evs, st. split; assumption.
Qed.

Lemma Evaluate_allow_sound_witness :
  exists req' bags, fires demo_glob EffectAllow req' bags [permit_all; forbid_banned] /\
    ~ fires demo_glob EffectDeny req' bags [permit_all; forbid_banned].
Proof.
  destruct (demo_eval_verdict true [permit_all; forbid_banned] true false) as (d & evs & st & E & Ha);
    [vm_compute; reflexivity|].
  destruct (Evaluate_allow_sound demo_glob wf_state demo_sessions demo_code (mkEngine false) demo_ctx demo_req
              (Ok [permit_all; forbid_banned]) (demo_resolver true false, 0%Z) d None evs st)
    as (_ & _ & [(Hs & _)|(_ & req' & b & ps & _ & _ & Hps & H1 & H2 & _)]).
  - apply demo_resolver_wf.
  - exact E.
  - exact Ha.
  - discriminate Hs.
  - injection Hps as <-. exists req', (overlay_action (req_Attributes demo_req) b). split; assumption.
Defined.

Lemma demo_session_request : session_request demo_sessions demo_ctx demo_req demo_req.
Proof. apply sr_same. reflexivity. Qed.

Lemma Evaluate_deny_overrides_witness :
  exists b d ev st, Subject b !! "character.banned" = Some (ABool true) /\
    demo_eval [permit_all; forbid_banned] (demo_resolver true true, 0%Z) = Return ((d, None, [ev]), st) /\
    (d_effect d = EffectDeny <->
     fires demo_glob EffectDeny demo_req (overlay_action ∅ b) [permit_all; forbid_banned]).
Proof.
  destruct demo_resolves as (b & st & E & H1 & _).
  destruct (Evaluate_deny_overrides demo_glob demo_sessions demo_code (mkEngine false) demo_ctx demo_req demo_req
              [permit_all; forbid_banned] (demo_resolver true true, 0%Z) b st) as (d & ev & HE & HD & _).
  - reflexivity.
  - discriminate.
  - reflexivity.
  - vm_compute; reflexivity.
  - exact demo_session_request.
  - exact E.
  - reflexivity.
  - exists b, d, ev, st. split; [exact H1|]. split; [exact HE|exact HD].
Defined.

Lemma Evaluate_fail_closed_witness :
  exists d err evs st, demo_eval [permit_all] (demo_resolver false false, 0%Z) = Return ((d, Some err, evs), st) /\
    IsAllowed d = false.
Proof.
  destruct (outcome_check_true (demo_eval [permit_all] (demo_resolver false false, 0%Z))
    (fun res => match res with ((_, Some _, _), _) => true | _ => false end))
    as ([[[d err] evs] st] & E & H); [vm_compute; reflexivity|].
  destruct err as [err|]; [|discriminate H].
  exists d, err, evs, st. split; [exact E|].
  destruct (Evaluate_fail_closed demo_glob demo_sessions demo_code (mkEngine false) demo_ctx demo_req
           (Ok [permit_all]) (demo_resolver false false, 0%Z) d (Some err) evs st E) as (_ & Hf & _).
  apply Hf. discriminate.
Defined.

Lemma Evaluate_audited_witness :
  exists d ev st, demo_eval [forbid_banned] (demo_resolver true true, 0%Z) = Return ((d, None, [ev]), st) /\
    ae_Effect ev = d_effect d /\ ae_Resource ev = "location:01L".
Proof.
  destruct (demo_eval_verdict false [forbid_banned] true true) as (d & evs & st & E & _);
    [vm_compute; reflexivity|].
  destruct (Evaluate_audited demo_glob demo_sessions demo_code (mkEngine false) demo_ctx demo_req
              (Ok [forbid_banned]) (demo_resolver true true, 0%Z) d evs st E) as (ev & -> & H1 & _ & H2).
  exists d, ev, st. split; [exact E|]. split; assumption.
Defined.

Lemma Evaluate_order_independent_witness :
  exists d d' evs evs' st st',
    demo_eval [permit_all; forbid_banned] (demo_resolver true true, 0%Z) = Return ((d, None, evs), st) /\
    demo_eval [forbid_banned; permit_all] (demo_resolver true true, 0%Z) = Return ((d', None, evs'), st') /\
    d_effect d = d_effect d'.
Proof.
  destruct (demo_eval_verdict false [permit_all; forbid_banned] true true) as (d & evs & st & E & _);
    [vm_compute; reflexivity|].
  destruct (demo_eval_verdict false [forbid_banned; permit_all] true true) as (d' & evs' & st' & E' & _);
    [vm_compute; reflexivity|].
  exists d, d', evs, evs', st, st'. split; [exact E|]. split; [exact E'|].
  apply (Evaluate_order_independent demo_glob demo_sessions demo_code (mkEngine false) demo_ctx demo_req
           [permit_all; forbid_banned] [forbid_banned; permit_all] (demo_resolver true true, 0%Z)
           d None evs st d' None evs' st'); [apply perm_swap|exact E|exact E'].
Defined.

Lemma Evaluate_forbids_monotone_witness :
  exists d d' evs evs' st st',
    demo_eval [permit_all] (demo_resolver true false, 0%Z) = Return ((d, None, evs), st) /\
    demo_eval [permit_all; forbid_banned] (demo_resolver true false, 0%Z) = Return ((d', None, evs'), st') /\
    IsAllowed d = true.
Proof.
  destruct (demo_eval_verdict true [permit_all] true false) as (d & evs & st & E & _);
    [vm_compute; reflexivity|].
  destruct (demo_eval_verdict true [permit_all; forbid_banned] true false) as (d' & evs' & st' & E' & Ha);
    [vm_compute; reflexivity|].
  exists d, d', evs, evs', st, st'. split; [exact E|]. split; [exact E'|].
  apply (Evaluate_forbids_monotone demo_glob demo_sessions demo_code (mkEngine false) demo_ctx demo_req
           [permit_all] [permit_all; forbid_banned] (demo_resolver true false, 0%Z)
           d None evs st d' None evs' st'); [| |exact E|exact E'|exact Ha].
  - intros p Hp. apply elem_of_cons. left. by apply list_elem_of_singleton in Hp.
  - intros p cp Hp. apply elem_of_cons in Hp as [->|Hp]; [left; by apply list_elem_of_singleton|].
    apply list_elem_of_singleton in Hp as ->. right. intros [= <-]. discriminate.
Defined.

Lemma preflight_complete_witness :
  exists st, CanPerformAction demo_glob (mkEngine false) demo_ctx "character:01A" "look" "location"
    (Ok [permit_all; forbid_banned]) (demo_resolver true false, 0%Z) = Return (true, None, st).
Proof.
  destruct (demo_eval_verdict true [permit_all; forbid_banned] true false) as (d & evs & st & E & Ha);
    [vm_compute; reflexivity|].
  destruct (outcome_check_true (CanPerformAction demo_glob (mkEngine false) demo_ctx "character:01A" "look" "location"
    (Ok [permit_all; forbid_banned]) (demo_resolver true false, 0%Z))
    (fun res => match res with (_, None, _) => true | _ => false end))
    as ([[ok err] st'] & E' & H); [vm_compute; reflexivity|].
  destruct err; [discriminate H|]. exists st'.
  assert (ok = true) as Hok; [|rewrite Hok in E'; exact E'].
  eapply (preflight_complete demo_glob wf_state demo_sessions demo_code (mkEngine false) demo_ctx demo_req
           [permit_all; forbid_banned] (demo_resolver true false, 0%Z) d evs st ok st').
  - apply demo_resolver_wf.
  - exact E.
  - exact Ha.
  - discriminate.
  - reflexivity.
  - reflexivity.
  - intros b b' s1 s2 e2 HR HS.
    assert (forall x, outcome_check x (fun res : resolution => match res with
              ((Some b, _), _) => bool_decide (Environment b = ∅) | _ => false end) = true ->
              forall b e s, x = Return ((Some b, e), s) -> Environment b = ∅) as Henv.
    { intros x Hx b0 e0 s0 ->. simpl in Hx. by apply bool_decide_eq_true in Hx. }
    assert (Environment b = ∅) as ->.
    { refine (Henv (Resolve demo_ctx demo_req (demo_resolver true false) 0) _ b None s1 HR).
      vm_compute; reflexivity. }
    refine (Henv (ResolveSubjectAttributes demo_ctx "character:01A" "look" (demo_resolver true false) 0)
              _ b' e2 s2 HS). vm_compute; reflexivity.
  - intros p cp Hp Hc. apply elem_of_cons in Hp as [->|Hp].
    + injection Hc as <-. reflexivity.
    + apply list_elem_of_singleton in Hp as ->. injection Hc as <-. reflexivity.
  - exact E'.
Defined.

(** ** The composed system *)

(** Runs the same request [n] times, each from the state the last one left. *)
Fixpoint demo_runs (n : nat) (ps : list CachedPolicy) (st : Resolver * Z)
  : list (bool * bool) * (Resolver * Z) :=
  match n with
  | 0 => ([], st)
  | S n' =>
    match demo_eval ps st with
    | Return ((d, err, _), st') =>
      let '(l, st'') := demo_runs n' ps st' in
      ((IsAllowed d, match err with Some _ => true | None => false end) :: l, st'')
    | Panic _ => ([], st)
    end
  end.

(** An open circuit breaker lifts forbids.  While its provider is down every
    evaluation fails closed with an error; but the failures open the
    provider's breaker (here the fifth request makes the tenth failed call),
    and from then on the provider is skipped without an error: the forbid
    policy that needs its attribute no longer matches and the request is
    allowed, although the provider is as unavailable as before. *)
Theorem open_breaker_lifts_forbid :
  (demo_runs 7 [permit_all; forbid_banned] (demo_resolver false true, 0%Z)).1 =
  [(false, true); (false, true); (false, true); (false, true); (false, true);
   (true, false); (true, false)].
Proof. vm_compute. reflexivity. Qed.

(** [n] negations around [true]. *)
Fixpoint negations (n : nat) : Condition :=
  match n with 0 => CBoolLiteral "true" | S n' => CNegation (negations n') end.

Definition deep_policy : Policy :=
  mkPolicy "forbid" (mkTarget (mkPrincipal EmptyString) (mkAction []) (mkResource EmptyString EmptyString))
           (Some [[negations 34]]).

(** The parser's depth check and the evaluator's disagree.  A forbid policy
    whose condition is 34 negations around true, which is true, passes the
    parser's and the compiler's checks; the evaluator gives up at depth 32 and
    takes the condition for false, so the policy never applies. *)
Theorem deep_negation_compiles_but_never_fires :
  exists cp, Compile (fun _ => Ok deep_policy) demo_glob NewAttributeSchema "forbid" = Ok (cp, []) /\
    cp_Effect cp = PolicyEffectForbid /\
    forall bags, conditions_hold demo_glob (mkEval (Some bags) 0 ∅) (cp_Conditions cp) = true /\
                 evaluatePolicy demo_glob cp (Some bags) = false.
Proof.
  eexists. split; [vm_compute; reflexivity|]. split; [reflexivity|]. intros bags.
  split; vm_compute; reflexivity.
Qed.

(** A policy with a like-pattern, for the compiler. *)
Definition like_policy : Policy :=
  mkPolicy "permit" (mkTarget (mkPrincipal "character") (mkAction ["look"]) (mkResource "location" EmptyString))
    (Some [[CLike (mkLike (EAttrRef (mkAttrRef "resource" ["location"; "name"])) "void:*")]]).

Lemma Compile_globs_faithful_witness :
  exists cp, Compile (fun _ => Ok like_policy) demo_glob NewAttributeSchema "permit" = Ok (cp, []) /\
    is_Some (cp_GlobCache cp !! "void:*") /\ validateGlobPattern "void:*" = true.
Proof.
  eexists. split; [vm_compute; reflexivity|].
  match goal with |- is_Some (cp_GlobCache ?cp !! _) /\ _ =>
    destruct (Compile_globs_faithful (fun _ => Ok like_policy) demo_glob NewAttributeSchema "permit" cp []
                (mkEval None 0 ∅) eq_refl) as (_ & H2 & H3)
  end.
  split; [|apply H3]; apply H2; vm_compute; by left.
Defined.
