(* ===== verification/PluginPolicy.v ===== *)
(** The trust boundary of plugin policies: [internal/plugin/policy_validator.go].

    A plugin's manifest brings policies of its own; before one is installed it
    is checked against what the plugin declares.  [parse_string] is participle's
    parser, as in PolicyAST.v. *)

From S2P Require Import Prelude GoStrings PolicyTypes PolicyAST PolicyEval.

Open Scope string_scope.
Open Scope list_scope.

Record PolicyValidationContext : Type := mkPVC {
  PluginName : string;
  ResourceTypes : list string;
  CommandNames : list string;
  TrustEscalated : bool
}.

Record ManifestPolicy : Type := mkManifestPolicy { mp_Name : string; mp_DSL : string }.

Definition ProtectedResourceTypes : list string :=
  ["character"; "location"; "exit"; "object"; "stream"; "property"; "command";
   "system"; "server"; "player"].

Definition isInSlice (needle : string) (haystack : list string) : bool := str_mem needle haystack.

Definition validateCommandPolicy (ctx : PolicyValidationContext) (parsed : Policy) : option error :=
  match ExtractCommandNames (p_Conditions parsed) with
  | [] => Some (ErrNew "command policy without command name condition requires trust escalation")
  | names =>
    first_err (fun name => if isInSlice name (CommandNames ctx) then None
                           else Some (ErrNew "policy references foreign command %q")) names
  end.

Definition validateCharacterPolicy (ctx : PolicyValidationContext) (parsed : Policy)
  (resourceType : string) : option error :=
  if TrustEscalated ctx then None
  else if String.eqb resourceType "command" then validateCommandPolicy ctx parsed
  else if negb (is_empty resourceType) && isInSlice resourceType (ResourceTypes ctx) then None
  else if str_mem resourceType ProtectedResourceTypes
  then Some (ErrNew "resource type %q is protected")
  else if negb (is_empty resourceType)
  then Some (ErrNew "resource type %q is not in plugin's resource_types")
  else Some (ErrNew "character policy with unconstrained resource requires trust escalation").

Section validator.
  Variable parse_string : string -> result Policy.

(** The grammar always sets the target and its clauses, so their nil checks
    are not needed. *)
Definition ValidatePluginPolicy (ctx : PolicyValidationContext) (mp : ManifestPolicy) : option error :=
  match Parse parse_string (mp_DSL mp) with
  | Err e => Some (ErrWrap "invalid DSL" e)
  | Ok parsed =>
    match ValidatePrincipalScope parsed (PluginName ctx) with
    | Some foreign => Some (ErrNew "policy references foreign principal %q")
    | None =>
      let principalType := pc_Type (t_Principal (p_Target parsed)) in
      let resourceType := rc_Type (t_Resource (p_Target parsed)) in
      if String.eqb principalType "plugin" then None
      else if String.eqb principalType "system"
      then Some (ErrNew "plugins must not install policies for principal type system")
      else if String.eqb principalType "character"
      then validateCharacterPolicy ctx parsed resourceType
      else if is_empty principalType then
        if negb (TrustEscalated ctx)
        then Some (ErrNew "policy with unconstrained principal requires trust escalation")
        else validateCharacterPolicy ctx parsed resourceType
      else Some (ErrNew "unrecognized principal type %q")
    end
  end.

(** ** What acceptance means *)
Lemma validateCommandPolicy_None ctx parsed :
  validateCommandPolicy ctx parsed = None <->
  ExtractCommandNames (p_Conditions parsed) <> [] /\
  forall n, n ∈ ExtractCommandNames (p_Conditions parsed) -> n ∈ CommandNames ctx.
Proof.
  unfold validateCommandPolicy. destruct (ExtractCommandNames (p_Conditions parsed)) as [|x l].
  { split; [done|]. by intros [? _]. }
  rewrite first_err_None. split.
  - intros H. split; [done|]. intros n Hn. specialize (H n Hn). apply str_mem_spec.
    unfold isInSlice in H. by destruct (str_mem n (CommandNames ctx)).
  - intros [_ H] n Hn. unfold isInSlice. specialize (H n Hn). apply str_mem_spec in H. by rewrite H.
Qed.

Lemma validateCharacterPolicy_None ctx parsed rt :
  validateCharacterPolicy ctx parsed rt = None <->
  TrustEscalated ctx = true \/
  (rt = "command" /\ validateCommandPolicy ctx parsed = None) \/
  (rt <> "command" /\ rt <> EmptyString /\ rt ∈ ResourceTypes ctx).
Proof.
  unfold validateCharacterPolicy. destruct (TrustEscalated ctx); [intuition congruence|].
  destruct (String.eqb_spec rt "command"); [intuition congruence|].
  unfold isInSlice. destruct (is_empty rt) eqn:Ee; cbn [negb andb].
  - apply is_empty_spec in Ee as ->. split; [done|intuition congruence].
  - apply is_empty_false in Ee. destruct (str_mem rt (ResourceTypes ctx)) eqn:Em.
    + apply str_mem_spec in Em. intuition congruence.
    + apply str_mem_false in Em. split; [by destruct (str_mem rt ProtectedResourceTypes)|].
      intros [?|[[? _]|(_ & _ & ?)]]; done.
Qed.

(** The plugin trust boundary, exactly.  A manifest policy is accepted iff it
    parses, its principal-name tests name only the plugin, and: it targets
    plugin principals; or the plugin is trust-escalated and it targets
    characters or any principal; or it targets characters and either a
    non-command resource type the plugin declared, or commands with at least
    one name test and only the plugin's own names extracted.  In particular
    policies for the system principal are never accepted. *)
Theorem ValidatePluginPolicy_spec ctx mp :
  ValidatePluginPolicy ctx mp = None <->
  exists parsed, Parse parse_string (mp_DSL mp) = Ok parsed /\
    ValidatePrincipalScope parsed (PluginName ctx) = None /\
    let pt := pc_Type (t_Principal (p_Target parsed)) in
    let rt := rc_Type (t_Resource (p_Target parsed)) in
    pt = "plugin" \/
    (TrustEscalated ctx = true /\ (pt = "character" \/ pt = EmptyString)) \/
    (pt = "character" /\ rt <> "command" /\ rt <> EmptyString /\ rt ∈ ResourceTypes ctx) \/
    (pt = "character" /\ rt = "command" /\ ExtractCommandNames (p_Conditions parsed) <> [] /\
     forall n, n ∈ ExtractCommandNames (p_Conditions parsed) -> n ∈ CommandNames ctx).
Proof.
  unfold ValidatePluginPolicy. destruct (Parse parse_string (mp_DSL mp)) as [parsed|e]; [|naive_solver].
  destruct (ValidatePrincipalScope parsed (PluginName ctx)) eqn:Es.
  { split; [done|]. intros (p & [= <-] & H & _). congruence. }
  transitivity (let pt := pc_Type (t_Principal (p_Target parsed)) in
    let rt := rc_Type (t_Resource (p_Target parsed)) in
    pt = "plugin" \/ (pt = "character" \/ pt = EmptyString /\ TrustEscalated ctx = true) /\
    validateCharacterPolicy ctx parsed rt = None).
  - simpl. destruct (String.eqb_spec (pc_Type (t_Principal (p_Target parsed))) "plugin"); [tauto|].
    destruct (String.eqb_spec (pc_Type (t_Principal (p_Target parsed))) "system") as [->|];
      [split; [done|]; intros [?|[[?|[? _]] _]]; discriminate|].
    destruct (String.eqb_spec (pc_Type (t_Principal (p_Target parsed))) "character") as [->|];
      [intuition congruence|].
    destruct (is_empty (pc_Type (t_Principal (p_Target parsed)))) eqn:Ee.
    + apply is_empty_spec in Ee. destruct (TrustEscalated ctx); simpl; intuition congruence.
    + apply is_empty_false in Ee. intuition congruence.
  - simpl. rewrite validateCharacterPolicy_None, validateCommandPolicy_None. split.
    + intros H. exists parsed. split; [done|]. split; [done|]. tauto.
    + intros (p & [= <-] & _ & H). tauto.
Qed.
End validator.

(** ** What an accepted command policy can match *)

(** A top-level test that pins the command name to the literals extracted. *)
Definition name_test (c : Condition) : bool :=
  match c with
  | CComparison cmp =>
    String.eqb (cmp_Comparator cmp) "==" &&
    ((isCommandNameRef (cmp_Left cmp) && match cmp_Right cmp with ELiteral (LStr _) => true | _ => false end) ||
     (isCommandNameRef (cmp_Right cmp) && match cmp_Left cmp with ELiteral (LStr _) => true | _ => false end))
  | CInList il =>
    isCommandNameRef (il_Left il) && forallb (fun l => match l with LStr _ => true | _ => false end) (il_List il)
  | _ => false
  end.

(** Every alternative of the condition carries such a test. *)
Definition pinned (cb : ConditionBlock) : bool :=
  match cb with [] => false | _ :: _ => forallb (existsb name_test) cb end.

Section matching.
  Variable glob_compile : string -> option Glob.

Definition command_name (ctx : EvalContext) : option any := getBag ctx "resource" !! "command.name".

Lemma isCommandNameRef_resolve ctx e :
  isCommandNameRef e = true -> resolveExpr ctx e = command_name ctx.
Proof.
  destruct e as [[root path]| |]; simpl; try done. intros H. bool_prop.
  apply String.eqb_eq in H as ->. destruct path as [|p0 [|p1 [|]]]; try done. bool_prop.
  apply String.eqb_eq in H, H0. by subst.
Qed.

Lemma str_compare_eq v s cmp :
  match toFloat64 v, toFloat64 (AString s) with
  | Some l, Some r => compareNumbers l r cmp
  | _, _ => match v, AString s with
            | AString l, AString r => compareStrings l r cmp
            | ABool l, ABool r => compareBools l r cmp
            | _, _ => false
            end
  end = true -> cmp = "==" -> v = AString s.
Proof.
  intros H ->. simpl in H. destruct v; simpl in H; try done.
  unfold compareStrings in H. simpl in H. by apply String.eqb_eq in H as ->.
Qed.

Lemma str_compare_eq' v s cmp :
  match toFloat64 (AString s), toFloat64 v with
  | Some l, Some r => compareNumbers l r cmp
  | _, _ => match AString s, v with
            | AString l, AString r => compareStrings l r cmp
            | ABool l, ABool r => compareBools l r cmp
            | _, _ => false
            end
  end = true -> cmp = "==" -> v = AString s.
Proof.
  intros H ->. simpl in H. destruct v; simpl in H; try done.
  unfold compareStrings in H. simpl in H. by apply String.eqb_eq in H as ->.
Qed.

(** A satisfied name test puts the command's name among the extracted ones. *)
Lemma name_test_sound ctx c :
  name_test c = true -> holds glob_compile ctx c = true ->
  exists n, command_name ctx = Some (AString n) /\ n ∈ extractFromCondition c [].
Proof.
  destruct c as [| | | | | |il| |cmp| |]; simpl; try done.
  - intros Ht Hh. bool_prop. unfold evalInList in Hh. rewrite (isCommandNameRef_resolve ctx _ H) in Hh.
    unfold extractFromInList. rewrite H. simpl.
    destruct (command_name ctx) as [v|]; [|done]. apply existsb_In in Hh as (l & Hl & Hv).
    rewrite forallb_In in H0. specialize (H0 l Hl). destruct l as [s| | |]; try done. simpl in Hv.
    assert (v = AString s) as ->.
    { unfold valuesEqual in Hv. destruct v; simpl in Hv; try done. by apply String.eqb_eq in Hv as ->. }
    exists s. split; [done|]. clear -Hl. induction (il_List il) as [|x l IH]; [set_solver|].
    apply elem_of_cons in Hl as [<-|Hl]; simpl; [set_solver|]. destruct x; set_solver.
  - intros Ht Hh. bool_prop. apply String.eqb_eq in H as Hc. unfold evalComparison in Hh.
    unfold extractFromComparison. apply orb_true_iff in H0 as [H0|H0]; bool_prop.
    + rewrite H0 in *. rewrite (isCommandNameRef_resolve ctx _ H0) in Hh.
      destruct (cmp_Right cmp) as [|[s| | |]|]; try done. simpl in Hh.
      destruct (command_name ctx) as [v|]; [|done]. exists s. split; [|set_solver].
      f_equal. by apply (str_compare_eq v s (cmp_Comparator cmp)).
    + rewrite H0 in *. rewrite (isCommandNameRef_resolve ctx _ H0) in Hh.
      destruct (cmp_Left cmp) as [|[s| | |]|]; try done. simpl in *.
      destruct (command_name ctx) as [v|]; [|done]. exists s. split; [|set_solver].
      f_equal. by apply (str_compare_eq' v s (cmp_Comparator cmp)).
Qed.

(** For a command policy whose every alternative tests the name by equality
    or list membership, acceptance confines it: whenever the accepted policy's
    conditions are satisfied, the command is one of the plugin's own. *)
Theorem accepted_command_policy_confined pvc parsed cb ctx :
  p_Conditions parsed = Some cb -> pinned cb = true -> validateCommandPolicy pvc parsed = None ->
  EvaluateConditions glob_compile ctx (p_Conditions parsed) = true ->
  exists n, command_name ctx = Some (AString n) /\ n ∈ CommandNames pvc.
Proof.
  intros Hc Hp Hv HE. apply EvaluateConditions_holds in HE. rewrite Hc in HE. simpl in HE.
  apply validateCommandPolicy_None in Hv as [_ Hv]. rewrite Hc in Hv.
  unfold pinned in Hp. unfold holds_block in HE. destruct cb as [|cj0 cb0]; [done|].
  apply existsb_In in HE as (cj & Hcj & Hall). rewrite forallb_In in Hp.
  specialize (Hp cj Hcj). apply existsb_In in Hp as (c & Hin & Ht).
  rewrite forallb_In in Hall. destruct (name_test_sound ctx c Ht (Hall c Hin)) as (n & Hn & Hx).
  exists n. split; [done|]. apply Hv. by eapply ExtractCommandNames_In.
Qed.
End matching.

(** ** Instances, and policies that escape *)
Definition widget_pvc : PolicyValidationContext := mkPVC "widgets" ["widget"] ["widget"] false.
Definition command_policy (cb : ConditionBlock) : Policy :=
  mkPolicy "permit" (mkTarget (mkPrincipal "character") (mkAction ["execute"]) (mkResource "command" EmptyString))
           (Some cb).
Definition name_cmp (op n : string) : Condition :=
  CComparison (mkComparison (EAttrRef (mkAttrRef "resource" ["command"; "name"])) op (ELiteral (LStr n))).
Definition command_ctx (n : string) : EvalContext :=
  mkEval (Some (mkBags ∅ {["command.name" := AString n]} ∅ ∅)) 0 ∅.
Definition no_glob (_ : string) : option Glob := None.

Lemma accepted_command_policy_confined_witness :
  exists n, command_name (command_ctx "widget") = Some (AString n) /\ n ∈ CommandNames widget_pvc.
Proof.
  apply (accepted_command_policy_confined no_glob widget_pvc (command_policy [[name_cmp "==" "widget"]])
           [[name_cmp "==" "widget"]] (command_ctx "widget")); reflexivity.
Defined.

(** Acceptance alone does not confine a command policy.  The name extractor
    ignores the comparison operator and collects names across alternatives, so
    a plugin that owns only "widget" may install a character policy that is
    satisfied by the foreign command "shutdown": one that tests
    name != "widget", or one that reads name == "widget" || true. *)
Theorem command_policy_escapes :
  Forall (fun cb =>
    ValidatePluginPolicy (fun _ => Ok (command_policy cb)) widget_pvc (mkManifestPolicy "p" "permit") = None /\
    EvaluateConditions no_glob (command_ctx "shutdown") (Some cb) = true /\
    "shutdown" ∉ CommandNames widget_pvc)
  [ [[name_cmp "!=" "widget"]];
    [[name_cmp "==" "widget"]; [CBoolLiteral "true"]] ].
Proof.
  repeat constructor; try (vm_compute; reflexivity);
    by intros H%list_elem_of_singleton.
Qed.
