(* ===== verification/CommandInput.v ===== *)
(** Command input: the parser ([internal/command/parser.go]), name validation
    ([validation.go]) and aliases ([alias.go]).

    A ULID is a 128-bit number; player ids are only compared, so they are [N]
    and the zero ULID is 0.  The alias cache's methods hold its lock throughout,
    so each is one function on the state. *)

From S2P Require Import Prelude GoStrings.

Open Scope string_scope.
Open Scope list_scope.

(** ** Parser *)
Record ParsedCommand : Type := mkParsed { pc_Name : string; pc_Args : string; pc_Raw : string }.

Definition Parse (input : string) : result ParsedCommand :=
  let trimmed := TrimSpace input in
  if is_empty trimmed then Err (ErrCode "EMPTY_INPUT" "no command provided")
  else match cut_any is_blank trimmed with
  | None => Ok (mkParsed trimmed EmptyString input)
  | Some (name, rest) => Ok (mkParsed name (TrimLeftBlank rest) input)
  end.

(** ** Names *)
Definition MaxNameLength : nat := 20.
Definition CodeInvalidName : string := "INVALID_NAME".

Definition is_letter (c : ascii) : bool :=
  ((65 <=? code c) && (code c <=? 90))%N || ((97 <=? code c) && (code c <=? 122))%N.
Definition is_digit (c : ascii) : bool := ((48 <=? code c) && (code c <=? 57))%N.
(** Underscore and the characters ! ? @ # $ % ^ + - *)
Definition is_special (c : ascii) : bool :=
  existsb (fun n => code c =? n)%N [95; 33; 63; 64; 35; 36; 37; 94; 43; 45]%N.
Definition is_name_char (c : ascii) : bool := is_letter c || is_digit c || is_special c.

Fixpoint all_bytes (p : ascii -> bool) (s : string) : bool :=
  match s with EmptyString => true | String c s' => p c && all_bytes p s' end.

(** namePattern: a letter and at most 19 name characters. *)
Definition namePattern (s : string) : bool :=
  match s with
  | EmptyString => false
  | String c s' => is_letter c && all_bytes is_name_char s' && (String.length s' <=? 19)%nat
  end.

Definition validateName (name kind : string) : option error :=
  let trimmed := TrimSpace name in
  if is_empty trimmed then Some (ErrCode CodeInvalidName (kind +:+ " name cannot be empty"))
  else if (MaxNameLength <? String.length trimmed)%nat
  then Some (ErrCode CodeInvalidName (kind +:+ " name exceeds maximum length of 20"))
  else if negb (namePattern trimmed)
  then Some (ErrCode CodeInvalidName (kind +:+ " name must start with a letter and contain only letters, digits, or _!?@#$%^+-"))
  else None.

Definition ValidateCommandName (name : string) : option error := validateName name "command".
Definition ValidateAliasName (name : string) : option error := validateName name "alias".

(** ** Aliases *)
Abbreviation ulid := N.
Definition MaxExpansionDepth : nat := 10.

Record AliasCache : Type := mkAC {
  playerAliases : gmap ulid (gmap string string);
  systemAliases : gmap string string
}.

Definition NewAliasCache : AliasCache := mkAC ∅ ∅.

Definition splitFirstWord (input : string) : string * string :=
  let input := TrimLeftBlank input in
  if is_empty input then (EmptyString, EmptyString)
  else match cut_any is_blank input with
  | None => (input, EmptyString)
  | Some (first, rest) => (first, TrimLeftBlank rest)
  end.

(** The player's alias if there is one, else the system's. *)
Definition player_alias (c : AliasCache) (pid : ulid) (cmd : string) : option string :=
  match playerAliases c !! pid with Some m => m !! cmd | None => None end.
Definition lookup_alias (c : AliasCache) (pid : ulid) (cmd : string) : option string :=
  match player_alias c pid cmd with
  | Some e => Some e
  | None => systemAliases c !! cmd
  end.

(** The loop of [wouldBeCircularLocked]; [fuel] is the number of iterations
    left, [MaxExpansionDepth] at the start. *)
Fixpoint circular_loop (c : AliasCache) (pid : ulid) (fuel : nat) (visited : list string) (cmd : string) : bool :=
  match fuel with
  | 0 => true
  | S fuel' =>
    if str_mem cmd visited then true
    else match lookup_alias c pid cmd with
    | Some next =>
      let '(nextFirst, _) := splitFirstWord next in
      if is_empty nextFirst then false else circular_loop c pid fuel' (cmd :: visited) nextFirst
    | None => false
    end
  end.

Definition wouldBeCircularLocked (c : AliasCache) (pid : ulid) (alias : string) : bool :=
  circular_loop c pid MaxExpansionDepth [] alias.

Definition ErrCircularAlias : error := ErrCode "CIRCULAR_ALIAS" "alias rejected: circular reference detected".

Definition set_system (m : gmap string string) (c : AliasCache) : AliasCache := mkAC (playerAliases c) m.
Definition set_player (pid : ulid) (m : gmap string string) (c : AliasCache) : AliasCache :=
  mkAC (<[pid := m]> (playerAliases c)) (systemAliases c).
Definition player_map (pid : ulid) (c : AliasCache) : gmap string string := default ∅ (playerAliases c !! pid).

(** Putting back the entry a tentative update replaced. *)
Definition restore (old : option string) (alias : string) (m : gmap string string) : gmap string string :=
  match old with Some v => <[alias := v]> m | None => delete alias m end.

Definition SetSystemAlias (alias command : string) (c : AliasCache) : AliasCache * option error :=
  let old := systemAliases c !! alias in
  let c1 := set_system (<[alias := command]> (systemAliases c)) c in
  if wouldBeCircularLocked c1 0 alias
  then (set_system (restore old alias (systemAliases c1)) c1, Some ErrCircularAlias)
  else (c1, None).

Definition SetPlayerAlias (pid : ulid) (alias command : string) (c : AliasCache) : AliasCache * option error :=
  let m := player_map pid c in
  let old := m !! alias in
  let c1 := set_player pid (<[alias := command]> m) c in
  if wouldBeCircularLocked c1 pid alias
  then (set_player pid (restore old alias (<[alias := command]> m)) c1, Some ErrCircularAlias)
  else (c1, None).

Definition RemoveSystemAlias (alias : string) (c : AliasCache) : AliasCache :=
  set_system (delete alias (systemAliases c)) c.
Definition RemovePlayerAlias (pid : ulid) (alias : string) (c : AliasCache) : AliasCache :=
  match playerAliases c !! pid with
  | Some m => set_player pid (delete alias m) c
  | None => c
  end.
Definition ClearPlayer (pid : ulid) (c : AliasCache) : AliasCache :=
  mkAC (delete pid (playerAliases c)) (systemAliases c).

Definition GetPlayerAlias (c : AliasCache) (pid : ulid) (alias : string) : option string := player_alias c pid alias.
Definition GetSystemAlias (c : AliasCache) (alias : string) : option string := systemAliases c !! alias.
Definition ListPlayerAliases (c : AliasCache) (pid : ulid) : gmap string string := player_map pid c.
Definition ListSystemAliases (c : AliasCache) : gmap string string := systemAliases c.
Definition ShadowsSystemAlias (c : AliasCache) (alias : string) : option string := systemAliases c !! alias.

(** ** Bulk loading *)
Definition LoadSystemAliases (aliases : gmap string string) (c : AliasCache) : AliasCache := set_system aliases c.
Definition LoadPlayerAliases (pid : ulid) (aliases : gmap string string) (c : AliasCache) : AliasCache :=
  set_player pid (aliases ∪ player_map pid c) c.

(** The loops over the map stop at the first offending entry; which one that is
    depends on the iteration order, which Go leaves open. *)
Definition validateAliasEntries (aliases : gmap string string) : option error :=
  if existsb (fun kv => is_empty (TrimSpace kv.1) || is_empty (TrimSpace kv.2)) (map_to_list aliases)
  then Some (ErrCode CodeInvalidName "empty alias key or value in bulk load") else None.

Fixpoint detect_loop (aliases : gmap string string) (fuel : nat) (visited : list string) (cmd : string) : bool :=
  match fuel with
  | 0 => true
  | S fuel' =>
    if str_mem cmd visited then true
    else match aliases !! cmd with
    | None => false
    | Some next =>
      let '(nextFirst, _) := splitFirstWord next in
      if is_empty nextFirst then false else detect_loop aliases fuel' (cmd :: visited) nextFirst
    end
  end.

Definition detectCycleInSet (aliases : gmap string string) (start : string) : bool :=
  detect_loop aliases MaxExpansionDepth [] start.

Definition ValidateAliasSet (aliases : gmap string string) : option error :=
  if existsb (fun kv => detectCycleInSet aliases kv.1) (map_to_list aliases)
  then Some ErrCircularAlias else None.

Definition LoadSystemAliasesValidated (aliases : gmap string string) (c : AliasCache)
  : AliasCache * option error :=
  match validateAliasEntries aliases with
  | Some e => (c, Some e)
  | None => match ValidateAliasSet aliases with
            | Some e => (c, Some e)
            | None => (LoadSystemAliases aliases c, None)
            end
  end.

Definition LoadPlayerAliasesValidated (pid : ulid) (aliases : gmap string string) (c : AliasCache)
  : AliasCache * option error :=
  match validateAliasEntries aliases with
  | Some e => (c, Some e)
  | None => match ValidateAliasSet aliases with
            | Some e => (c, Some e)
            | None => (LoadPlayerAliases pid aliases c, None)
            end
  end.

(** ** Resolution *)

(** [resolveWithDepth]; [fuel] is [MaxExpansionDepth - depth]. *)
Fixpoint resolve_fuel (c : AliasCache) (pid : ulid) (fuel : nat) (cmd : string) : string :=
  match fuel with
  | 0 => cmd
  | S fuel' =>
    match lookup_alias c pid cmd with
    | None => cmd
    | Some expanded =>
      let '(expandedFirst, expandedArgs) := splitFirstWord expanded in
      if is_empty expandedFirst then expanded
      else
        let further := resolve_fuel c pid fuel' expandedFirst in
        if is_empty expandedArgs then further else further +:+ " " +:+ expandedArgs
    end
  end.

Definition resolveWithDepth (c : AliasCache) (pid : ulid) (cmd : string) (depth : nat) : string :=
  resolve_fuel c pid (MaxExpansionDepth - depth) cmd.

Record AliasResult : Type := mkAR { Resolved : string; WasAlias : bool; AliasUsed : string }.
Definition NewAliasResult (resolved aliasUsed : string) : AliasResult :=
  mkAR resolved (negb (is_empty aliasUsed)) aliasUsed.
Definition NoAliasResult (input : string) : AliasResult := mkAR input false EmptyString.

Record aliasLookupResult : Type := mkLookup {
  resolvedCmd : string;
  expanded : bool;
  aliasUsed : string;
  isPrefix : bool;
  rest : string
}.

Definition resolvePlayerAliasLocked (c : AliasCache) (pid : ulid) (firstWord : string) : option aliasLookupResult :=
  match player_alias c pid firstWord with
  | Some _ => Some (mkLookup (resolveWithDepth c pid firstWord 0) true firstWord false EmptyString)
  | None => None
  end.

Definition resolveSystemAliasLocked (c : AliasCache) (firstWord : string) : option aliasLookupResult :=
  match systemAliases c !! firstWord with
  | Some _ => Some (mkLookup (resolveWithDepth c 0 firstWord 0) true firstWord false EmptyString)
  | None => None
  end.

Definition resolvePrefixLocked (c : AliasCache) (pid : ulid) (firstWord : string) : option aliasLookupResult :=
  match firstWord with
  | EmptyString | String _ EmptyString => None
  | String a rest =>
    let prefix := String a EmptyString in
    match player_alias c pid prefix with
    | Some prefixCmd => Some (mkLookup prefixCmd true prefix true rest)
    | None =>
      match systemAliases c !! prefix with
      | Some prefixCmd => Some (mkLookup prefixCmd true prefix true rest)
      | None => None
      end
    end
  end.

Definition buildResult (lookup : aliasLookupResult) (args : string) : AliasResult :=
  let parts := [resolvedCmd lookup] ++ (if isPrefix lookup then [rest lookup] else []) ++
               (if is_empty args then [] else [args]) in
  NewAliasResult (Join parts " ") (aliasUsed lookup).

(** [registered] is the registry's [Get], false for a nil registry. *)
Definition resolveExactLocked (input : string) (registered : string -> bool) : bool :=
  if is_empty input then false else registered input.

Definition Resolve (c : AliasCache) (pid : ulid) (input : string) (registered : string -> bool) : AliasResult :=
  if is_empty input then NoAliasResult input
  else
    let '(firstWord, args) := splitFirstWord input in
    if is_empty firstWord then NoAliasResult input
    else if resolveExactLocked firstWord registered then NoAliasResult input
    else match resolvePlayerAliasLocked c pid firstWord with
    | Some result => buildResult result args
    | None =>
      match resolveSystemAliasLocked c firstWord with
      | Some result => buildResult result args
      | None =>
        match resolvePrefixLocked c pid firstWord with
        | Some result => buildResult result args
        | None => NoAliasResult input
        end
      end
    end.
