(* ===== verification/CommandInputFacts.v ===== *)
(** Theorems on command input (CommandInput.v): parsing and its round trip,
    accepted names, cycle detection against its reference, preservation of
    acyclicity by every alias update, and alias resolution. *)

From S2P Require Import Prelude GoStrings CommandInput.

Open Scope string_scope.
Open Scope list_scope.

(** ** Words *)
Definition blank_free (s : string) : Prop := count_bytes is_blank s = 0.
Definition no_lead (s : string) : Prop :=
  match s with EmptyString => True | String c _ => is_blank c = false end.

Lemma cut_any_word w c r : blank_free w -> is_blank c = true ->
  cut_any is_blank (w +:+ String c r) = Some (w, r).
Proof. apply cut_any_lift. Qed.

Lemma blank_free_no_lead w s : blank_free w -> w <> EmptyString -> no_lead (w +:+ s).
Proof.
  unfold blank_free. destruct w as [|c w]; simpl; [done|]. destruct (is_blank c); [lia|done].
Qed.

Lemma splitFirstWord_blank_free s : blank_free (splitFirstWord s).1.
Proof.
  unfold splitFirstWord. destruct (is_empty (TrimLeftBlank s)); [done|].
  destruct (cut_any is_blank (TrimLeftBlank s)) as [[a b]|] eqn:E; simpl.
  - by apply cut_any_Some in E as (c & _ & _ & H).
  - by apply cut_any_None in E.
Qed.

Lemma splitFirstWord_word w : blank_free w -> w <> EmptyString -> splitFirstWord w = (w, EmptyString).
Proof.
  intros Hb Hne. unfold splitFirstWord. rewrite TrimLeftBlank_id.
  2:{ rewrite <- (app_nil_r_str w). by apply blank_free_no_lead. }
  apply is_empty_false in Hne. rewrite Hne. apply cut_any_None in Hb. by rewrite Hb.
Qed.

Lemma splitFirstWord_args w c args :
  blank_free w -> w <> EmptyString -> is_blank c = true ->
  splitFirstWord (w +:+ String c args) = (w, TrimLeftBlank args).
Proof.
  intros Hb Hne Hc. unfold splitFirstWord. rewrite TrimLeftBlank_id by by apply blank_free_no_lead.
  destruct (is_empty (w +:+ String c args)) eqn:E.
  { apply is_empty_spec in E. destruct w; [done|discriminate E]. }
  by rewrite cut_any_word.
Qed.

(** ** Parsing *)

Lemma TrimSpace_no_lead s : no_lead (TrimSpace s).
Proof.
  pose proof (TrimSpace_head s) as H. unfold no_lead. destruct (TrimSpace s) as [|a t]; [done|].
  destruct (is_blank a) eqn:E; [|done]. apply blank_space1 in E. congruence.
Qed.

(** The parser's result.  A parsed command keeps the raw input; its name is a
    non-empty word without blanks, its arguments do not start with a blank, and
    the trimmed input is the name alone, or the name followed by a blank and
    text that is the arguments after its leading blanks.  Only blank input is
    refused. *)
Theorem Parse_spec input :
  match Parse input with
  | Err _ => TrimSpace input = EmptyString
  | Ok p => pc_Raw p = input /\ pc_Name p <> EmptyString /\ blank_free (pc_Name p) /\
      no_lead (pc_Args p) /\
      (TrimSpace input = pc_Name p /\ pc_Args p = EmptyString \/
       exists c r, is_blank c = true /\ TrimSpace input = pc_Name p +:+ String c r /\
         pc_Args p = TrimLeftBlank r)
  end.
Proof.
  unfold Parse. pose proof (TrimSpace_no_lead input) as Hl.
  destruct (is_empty (TrimSpace input)) eqn:Ee; [by apply is_empty_spec in Ee|].
  apply is_empty_false in Ee.
  destruct (cut_any is_blank (TrimSpace input)) as [[name r]|] eqn:Ec; simpl.
  - apply cut_any_Some in Ec as (c & Heq & Hc & Hb). rewrite Heq in Hl. split_and!; auto.
    + intros ->. simpl in Hl. congruence.
    + apply TrimLeftBlank_head.
    + right. eauto.
  - apply cut_any_None in Ec. split_and!; auto.
Qed.

Lemma Parse_blank_free input p : Parse input = Ok p -> blank_free (pc_Name p).
Proof.
  unfold Parse. destruct (is_empty (TrimSpace input)); [done|].
  destruct (cut_any is_blank (TrimSpace input)) as [[name r]|] eqn:Ec; simpl; intros [= <-]; simpl.
  - by apply cut_any_Some in Ec as (c & _ & _ & Hb).
  - by apply cut_any_None in Ec.
Qed.

(** Print and parse.  Printing a command as its name, a blank and its
    arguments and parsing the line gives the command back, whenever the name
    is a word, the arguments do not start with a blank and the line has no
    surrounding white space. *)
Theorem Parse_roundtrip name args :
  name <> EmptyString -> blank_free name -> args <> EmptyString -> no_lead args ->
  TrimSpace (name +:+ " " +:+ args) = name +:+ " " +:+ args ->
  Parse (name +:+ " " +:+ args) = Ok (mkParsed name args (name +:+ " " +:+ args)).
Proof.
  intros Hn Hb Ha Hl Ht. unfold Parse. rewrite Ht.
  destruct (is_empty (name +:+ " " +:+ args)) eqn:E.
  { apply is_empty_spec in E. destruct name; [done|discriminate E]. }
  change (" " +:+ args) with (String " " args). rewrite cut_any_word by done.
  by rewrite TrimLeftBlank_id.
Qed.

Lemma Parse_roundtrip_witness :
  Parse ("say" +:+ " " +:+ "hello  there") =
  Ok (mkParsed "say" "hello  there" ("say" +:+ " " +:+ "hello  there")).
Proof. apply Parse_roundtrip; [discriminate|reflexivity|discriminate|reflexivity|reflexivity]. Defined.

(** ** Names *)
Lemma name_char_not_space c : is_name_char c = true -> space1 c = false /\ is_blank c = false.
Proof.
  intros H. assert (space1 c = false) as Hs.
  { destruct (space1 c) eqn:E; [|done]. revert H E. unfold is_name_char, is_letter, is_digit, is_special, space1.
    simpl. rewrite !orb_true_iff, !andb_true_iff, !N.leb_le, !N.eqb_eq. generalize (code c) as n. lia. }
  split; [done|]. destruct (is_blank c) eqn:E; [|done]. apply blank_space1 in E. congruence.
Qed.

Lemma name_chars_blank_free s : all_bytes is_name_char s = true -> blank_free s.
Proof.
  unfold blank_free. induction s as [|c s IH]; simpl; [done|]. intros H. bool_prop.
  destruct (name_char_not_space c) as [_ ->]; auto.
Qed.

Lemma namePattern_word s : namePattern s = true -> blank_free s /\ s <> EmptyString.
Proof.
  destruct s as [|c s]; simpl; [done|]. intros H. bool_prop. split; [|done].
  apply name_chars_blank_free. simpl. bool_prop; [|done]. unfold is_name_char. by rewrite H.
Qed.

(** An accepted name, trimmed, is a single word of 1 to 20 bytes that starts
    with a letter; the alias machinery takes it as exactly that word. *)
Theorem validateName_spec name kind :
  validateName name kind = None <->
  namePattern (TrimSpace name) = true /\ String.length (TrimSpace name) <= MaxNameLength /\
  splitFirstWord (TrimSpace name) = (TrimSpace name, EmptyString).
Proof.
  unfold validateName. destruct (is_empty (TrimSpace name)) eqn:Ee.
  { apply is_empty_spec in Ee. rewrite Ee. split; [done|]. intros [H _]. discriminate H. }
  destruct (Nat.ltb_spec MaxNameLength (String.length (TrimSpace name))).
  { split; [done|]. intros (_ & H' & _). lia. }
  destruct (namePattern (TrimSpace name)) eqn:Ep; simpl; [|split; [done|]; by intros [? _]].
  split; [|done]. intros _. split_and!; [done|lia|].
  destruct (namePattern_word _ Ep). by apply splitFirstWord_word.
Qed.

(** ** Alias chains *)

(** The word an alias leads to; none when the word is not an alias or its
    expansion is blank. *)
Definition first_word (e : string) : option string :=
  let w := (splitFirstWord e).1 in if is_empty w then None else Some w.
Definition next_word (c : AliasCache) (pid : ulid) (cmd : string) : option string :=
  match lookup_alias c pid cmd with Some e => first_word e | None => None end.

(** The chain from [cmd] ends in fewer than [n] steps: the reference for cycle
    detection, with no visited set. *)
Fixpoint reaches_end (next : string -> option string) (n : nat) (cmd : string) : bool :=
  match n with
  | 0 => false
  | S n' => match next cmd with None => true | Some w => reaches_end next n' w end
  end.

(** Every chain ends. *)
Inductive terminates (next : string -> option string) : string -> Prop :=
| term_end cmd : next cmd = None -> terminates next cmd
| term_step cmd w : next cmd = Some w -> terminates next w -> terminates next cmd.

Lemma reaches_end_terminates next n cmd : reaches_end next n cmd = true -> terminates next cmd.
Proof.
  revert cmd. induction n as [|n IH]; intros cmd; simpl; [done|].
  destruct (next cmd) as [w|] eqn:E; intros H; [eapply term_step; eauto|by apply term_end].
Qed.

(** A word on a cycle. *)
Fixpoint leads (next : string -> option string) (k : nat) (a b : string) : Prop :=
  match k with
  | 0 => a = b
  | S k' => exists w, next a = Some w /\ leads next k' w b
  end.

Lemma leads_step next k a b w : leads next k a b -> next b = Some w -> leads next (S k) a w.
Proof.
  revert a. induction k as [|k IH]; intros a; simpl.
  - intros ->. eauto.
  - intros (x & Hx & Hl) Hb. exists x. split; [done|]. by apply IH.
Qed.

Lemma reaches_end_leads next k n a b :
  leads next k a b -> reaches_end next n a = true -> exists m, m + k <= n /\ reaches_end next m b = true.
Proof.
  revert n a. induction k as [|k IH]; intros n a; simpl.
  - intros ->. exists n. split; [lia|done].
  - intros (w & Hw & Hl) H. destruct n as [|n]; [done|]. simpl in H. rewrite Hw in H.
    destruct (IH n w Hl H) as (m & Hm & Hr). exists m. split; [lia|done].
Qed.

Lemma cycle_never_ends next k a n : leads next (S k) a a -> reaches_end next n a = false.
Proof.
  intros Hl. induction (lt_wf n) as [n _ IH]. apply not_true_iff_false. intros H.
  destruct (reaches_end_leads next (S k) n a a Hl H) as (m & Hm & Hr).
  rewrite IH in Hr by lia. done.
Qed.

(** The loop of both cycle detectors, over a successor function. *)
Fixpoint detect (next : string -> option string) (fuel : nat) (visited : list string) (cmd : string) : bool :=
  match fuel with
  | 0 => true
  | S fuel' => if str_mem cmd visited then true
               else match next cmd with Some w => detect next fuel' (cmd :: visited) w | None => false end
  end.

Lemma circular_loop_detect c pid fuel visited cmd :
  circular_loop c pid fuel visited cmd = detect (next_word c pid) fuel visited cmd.
Proof.
  revert visited cmd. induction fuel as [|fuel IH]; intros visited cmd; simpl; [done|].
  destruct (str_mem cmd visited); [done|]. unfold next_word at 1. destruct (lookup_alias c pid cmd) as [e|]; [|done].
  unfold first_word. destruct (splitFirstWord e) as [w r]. simpl. destruct (is_empty w); [done|]. apply IH.
Qed.

Definition set_next (aliases : gmap string string) (cmd : string) : option string :=
  match aliases !! cmd with Some e => first_word e | None => None end.

Lemma detect_loop_detect aliases fuel visited cmd :
  detect_loop aliases fuel visited cmd = detect (set_next aliases) fuel visited cmd.
Proof.
  revert visited cmd. induction fuel as [|fuel IH]; intros visited cmd; simpl; [done|].
  destruct (str_mem cmd visited); [done|]. unfold set_next at 1. destruct (aliases !! cmd) as [e|]; [|done].
  unfold first_word. destruct (splitFirstWord e) as [w r]. simpl. destruct (is_empty w); [done|]. apply IH.
Qed.

Lemma detect_spec next fuel visited cmd :
  (forall v, v ∈ visited -> exists k, leads next (S k) v cmd) ->
  detect next fuel visited cmd = negb (reaches_end next fuel cmd).
Proof.
  revert visited cmd. induction fuel as [|fuel IH]; intros visited cmd Hv; [done|]. cbn [detect].
  destruct (str_mem cmd visited) eqn:Em.
  - apply str_mem_spec in Em. destruct (Hv cmd Em) as [k Hk]. by rewrite (cycle_never_ends next k).
  - simpl. destruct (next cmd) as [w|] eqn:E; [|done]. apply IH. intros v Hin.
    apply elem_of_cons in Hin as [->|Hin].
    + exists 0. simpl. eauto.
    + destruct (Hv v Hin) as [k Hk]. exists (S k). by eapply leads_step.
Qed.

(** Cycle detection is exact up to the depth limit.  An alias is reported
    circular iff its expansion chain, player aliases over system ones, does not
    end within MaxExpansionDepth words; in particular every cycle is reported,
    and an alias not reported has a terminating chain. *)
Theorem wouldBeCircular_exact c pid alias :
  wouldBeCircularLocked c pid alias = negb (reaches_end (next_word c pid) MaxExpansionDepth alias) /\
  (wouldBeCircularLocked c pid alias = false -> terminates (next_word c pid) alias) /\
  (forall k, leads (next_word c pid) (S k) alias alias -> wouldBeCircularLocked c pid alias = true).
Proof.
  unfold wouldBeCircularLocked. rewrite circular_loop_detect, detect_spec by set_solver.
  split_and!; [done| |].
  - intros H%negb_false_iff. by eapply reaches_end_terminates.
  - intros k Hk. by rewrite (cycle_never_ends _ k).
Qed.

Lemma not_circular_terminates c pid alias :
  wouldBeCircularLocked c pid alias = false -> terminates (next_word c pid) alias.
Proof.
  unfold wouldBeCircularLocked. rewrite circular_loop_detect, detect_spec by set_solver.
  intros H%negb_false_iff. by eapply reaches_end_terminates.
Qed.

(** ** Updates keep every chain finite *)
Lemma terminates_update next next' alias :
  (forall cmd, cmd <> alias -> next' cmd = next cmd) -> terminates next' alias ->
  forall cmd, terminates next cmd -> terminates next' cmd.
Proof.
  intros Hsame Ha cmd Ht. induction Ht as [cmd He|cmd w Hs _ IH].
  - destruct (decide (cmd = alias)) as [->|Hne]; [done|]. apply term_end. by rewrite Hsame.
  - destruct (decide (cmd = alias)) as [->|Hne]; [done|]. eapply term_step; [|done]. by rewrite Hsame.
Qed.

Lemma restore_insert old alias cmd (m : gmap string string) :
  m !! alias = old -> restore old alias (<[alias := cmd]> m) = m.
Proof.
  intros H. unfold restore. destruct old as [v|].
  - by rewrite insert_insert_eq, insert_id.
  - by rewrite delete_insert_id.
Qed.

(** Setting a system alias.  A rejected update leaves the cache unchanged; an
    accepted one stores the alias, and if every chain of system aliases was
    finite it still is. *)
Theorem SetSystemAlias_acyclic alias command c :
  match SetSystemAlias alias command c with
  | (c', Some _) => c' = c
  | (c', None) => systemAliases c' = <[alias := command]> (systemAliases c) /\
      playerAliases c' = playerAliases c /\
      ((forall cmd, terminates (next_word c 0) cmd) -> forall cmd, terminates (next_word c' 0) cmd)
  end.
Proof.
  unfold SetSystemAlias. destruct (wouldBeCircularLocked _ 0 alias) eqn:E.
  - unfold set_system. simpl. rewrite restore_insert by done. by destruct c.
  - split_and!; [done|done|]. intros Ht cmd. apply not_circular_terminates in E.
    eapply (terminates_update (next_word c 0)); [|done|apply Ht].
    intros x Hx. unfold next_word, lookup_alias, player_alias. simpl.
    by rewrite lookup_insert_ne.
Qed.

Lemma player_map_insert pid m c : player_map pid (set_player pid m c) = m.
Proof. unfold player_map, set_player. simpl. by rewrite lookup_insert_eq. Qed.

Lemma lookup_alias_player_map c pid cmd :
  lookup_alias c pid cmd = match player_map pid c !! cmd with Some e => Some e | None => systemAliases c !! cmd end.
Proof.
  unfold lookup_alias, player_alias, player_map. destruct (playerAliases c !! pid); simpl; [done|].
  by rewrite lookup_empty.
Qed.

(** Setting a player alias.  A rejected update changes no lookup of any
    player; an accepted one stores the alias, and if every chain that player
    sees was finite it still is. *)
Theorem SetPlayerAlias_acyclic pid alias command c :
  match SetPlayerAlias pid alias command c with
  | (c', Some _) => forall q cmd, lookup_alias c' q cmd = lookup_alias c q cmd
  | (c', None) => GetPlayerAlias c' pid alias = Some command /\
      ((forall cmd, terminates (next_word c pid) cmd) -> forall cmd, terminates (next_word c' pid) cmd)
  end.
Proof.
  unfold SetPlayerAlias. destruct (wouldBeCircularLocked _ pid alias) eqn:E.
  - intros q cmd. rewrite restore_insert by done. rewrite !lookup_alias_player_map.
    unfold set_player, player_map. simpl. destruct (decide (pid = q)) as [<-|].
    + by rewrite lookup_insert_eq.
    + by rewrite !lookup_insert_ne.
  - split.
    + unfold GetPlayerAlias, player_alias, set_player. simpl. by rewrite !lookup_insert_eq.
    + intros Ht cmd. apply not_circular_terminates in E.
      eapply (terminates_update (next_word c pid)); [|done|apply Ht].
      intros x Hx. unfold next_word. rewrite !lookup_alias_player_map, player_map_insert.
      simpl. by rewrite lookup_insert_ne.
Qed.

Lemma ValidateAliasSet_terminates aliases :
  ValidateAliasSet aliases = None -> forall cmd, terminates (set_next aliases) cmd.
Proof.
  unfold ValidateAliasSet. destruct (existsb _ _) eqn:E; [done|]. intros _ cmd.
  rewrite existsb_false in E. destruct (aliases !! cmd) as [e|] eqn:Ec.
  - apply elem_of_map_to_list in Ec. specialize (E _ Ec). simpl in E.
    unfold detectCycleInSet in E. rewrite detect_loop_detect, detect_spec in E by set_solver.
    apply negb_false_iff in E. by eapply reaches_end_terminates.
  - apply term_end. unfold set_next. by rewrite Ec.
Qed.

(** A validated bulk load of system aliases makes every chain of system
    aliases finite, when the zero player has no aliases of its own; a refused
    one changes nothing. *)
Theorem LoadSystemAliasesValidated_acyclic aliases c :
  playerAliases c !! 0%N = None ->
  match LoadSystemAliasesValidated aliases c with
  | (c', Some _) => c' = c
  | (c', None) => systemAliases c' = aliases /\ forall cmd, terminates (next_word c' 0) cmd
  end.
Proof.
  intros H0. unfold LoadSystemAliasesValidated. destruct (validateAliasEntries aliases); [done|].
  destruct (ValidateAliasSet aliases) eqn:Ev; [done|]. split; [done|]. intros cmd.
  assert (forall x, next_word (LoadSystemAliases aliases c) 0 x = set_next aliases x) as Hn.
  { intros x. unfold next_word, set_next, lookup_alias, player_alias. simpl. by rewrite H0. }
  pose proof (ValidateAliasSet_terminates aliases Ev cmd) as Ht.
  induction Ht as [x He|x w Hs _ IH]; [apply term_end|eapply term_step; [|done]]; by rewrite Hn.
Qed.

Lemma LoadSystemAliasesValidated_acyclic_witness :
  let loaded := LoadSystemAliasesValidated {["l" := "look"; "p" := "pose"; "px" := "p happily"]} NewAliasCache in
  loaded.2 = None /\ forall cmd, terminates (next_word loaded.1 0) cmd.
Proof.
  pose proof (LoadSystemAliasesValidated_acyclic {["l" := "look"; "p" := "pose"; "px" := "p happily"]}
                NewAliasCache eq_refl) as H.
  split; [reflexivity|]. vm_compute in H |- *. apply H.
Defined.

(** ** Resolution *)
Lemma app_words w args : args <> EmptyString ->
  blank_free w -> w <> EmptyString ->
  (splitFirstWord (w +:+ " " +:+ args)).1 = w.
Proof.
  intros _ Hb Hne. change (" " +:+ args) with (String " " args). by rewrite splitFirstWord_args.
Qed.

(** The resolved text of a chain that ends: either its first word is the end of
    the chain, or it is the blank expansion the chain stops at. *)
Lemma resolve_fuel_spec c pid n cmd :
  reaches_end (next_word c pid) n cmd = true -> blank_free cmd -> cmd <> EmptyString ->
  let r := resolve_fuel c pid n cmd in
  (exists w tl, r = w +:+ tl /\ blank_free w /\ w <> EmptyString /\ (splitFirstWord r).1 = w /\
     lookup_alias c pid w = None /\ (tl = EmptyString \/ exists a, tl = String " " a)) \/
  (exists e tl, r = e +:+ tl /\ first_word e = None /\ exists k w, leads (next_word c pid) k cmd w /\ lookup_alias c pid w = Some e).
Proof.
  revert cmd. induction n as [|n IH]; intros cmd Hr Hb Hne; [done|]. cbn [resolve_fuel].
  cbn [reaches_end] in Hr. unfold next_word at 1 in Hr.
  destruct (lookup_alias c pid cmd) as [e|] eqn:El.
  2:{ left. exists cmd, EmptyString. rewrite app_nil_r_str. split_and!; auto. by rewrite splitFirstWord_word. }
  unfold first_word in Hr. destruct (splitFirstWord e) as [w args] eqn:Es. simpl in Hr.
  destruct (is_empty w) eqn:Ew.
  { right. exists e, EmptyString. rewrite app_nil_r_str. split; [done|]. split.
    - unfold first_word. rewrite Es. simpl. by rewrite Ew.
    - exists 0, cmd. done. }
  assert (blank_free w) as Hbw by (pose proof (splitFirstWord_blank_free e) as H; by rewrite Es in H).
  apply is_empty_false in Ew as Hnw.
  assert (next_word c pid cmd = Some w) as Hnext.
  { unfold next_word. rewrite El. unfold first_word. rewrite Es. simpl. by rewrite Ew. }
  destruct (IH w Hr Hbw Hnw) as [(v & tl & Heq & Hbv & Hnv & Hsv & Hlv & Htl)|(e' & tl & Heq & He & k & v & Hk & Hl)].
  - left. destruct (is_empty args) eqn:Ea; [exists v, tl; split_and!; auto|].
    exists v. eexists. rewrite Heq, app_assoc_str. split; [reflexivity|]. split_and!; auto.
    + destruct Htl as [->|[a ->]].
      * change (EmptyString +:+ " " +:+ args) with (String " " args). by rewrite splitFirstWord_args.
      * rewrite app_cons_str. by rewrite splitFirstWord_args.
    + right. destruct Htl as [->|[a ->]]; [exists args; done|]. by eexists; rewrite app_cons_str.
  - right. assert (leads (next_word c pid) (S k) cmd v) as Hk' by (simpl; eauto).
    destruct (is_empty args); [exists e', tl; split_and!; eauto|].
    exists e'. eexists. rewrite Heq, app_assoc_str. split; [reflexivity|]. split_and!; eauto.
Qed.

(** Expansion runs to the end.  Expanding an alias that is not circular, whose
    chain meets no blank expansion, yields text whose first word is not an
    alias: resolving again would change nothing. *)
Theorem resolveWithDepth_complete c pid cmd :
  wouldBeCircularLocked c pid cmd = false -> blank_free cmd -> cmd <> EmptyString ->
  (forall w e, lookup_alias c pid w = Some e -> first_word e <> None) ->
  lookup_alias c pid (splitFirstWord (resolveWithDepth c pid cmd 0)).1 = None.
Proof.
  intros Hc Hb Hne Hblank. unfold wouldBeCircularLocked in Hc.
  rewrite circular_loop_detect, detect_spec in Hc by set_solver. apply negb_false_iff in Hc.
  unfold resolveWithDepth. rewrite Nat.sub_0_r.
  destruct (resolve_fuel_spec c pid MaxExpansionDepth cmd Hc Hb Hne)
    as [(w & tl & Heq & _ & _ & Hs & Hl & _)|(e & tl & _ & He & k & w & _ & Hl)].
  - by rewrite Hs.
  - by destruct (Hblank w e Hl).
Qed.

(** Precedence.  A registered command is never rewritten by an alias; a
    player's alias wins over the system's; and input whose first word is
    neither a command nor an alias, nor starts with a one-character alias, is
    returned unchanged. *)
Theorem Resolve_precedence c pid input registered w args :
  splitFirstWord input = (w, args) -> w <> EmptyString ->
  (registered w = true -> Resolve c pid input registered = NoAliasResult input) /\
  (registered w = false -> player_alias c pid w <> None ->
   Resolve c pid input registered =
   NewAliasResult (if is_empty args then resolveWithDepth c pid w 0
                   else resolveWithDepth c pid w 0 +:+ " " +:+ args) w) /\
  (registered w = false -> lookup_alias c pid w = None -> resolvePrefixLocked c pid w = None ->
   Resolve c pid input registered = NoAliasResult input).
Proof.
  intros Hs Hw. apply is_empty_false in Hw as Ew.
  assert (is_empty input = false) as Ei.
  { destruct input; [|done]. vm_compute in Hs. injection Hs as <- _. done. }
  unfold Resolve, resolveExactLocked. rewrite Ei, Hs, Ew. split_and!.
  - by intros ->.
  - intros -> Hp. unfold resolvePlayerAliasLocked. destruct (player_alias c pid w); [|done].
    unfold buildResult. simpl. by destruct (is_empty args).
  - intros -> Hl Hpre. unfold lookup_alias in Hl. unfold resolvePlayerAliasLocked, resolveSystemAliasLocked.
    destruct (player_alias c pid w); [done|]. by rewrite Hl, Hpre.
Qed.

Definition demo_aliases : AliasCache :=
  (SetPlayerAlias 7 "k" "kiss softly" (SetSystemAlias "l" "look" (SetSystemAlias "ll" "l here" NewAliasCache).1).1).1.

Lemma resolveWithDepth_complete_witness :
  lookup_alias demo_aliases 7 (splitFirstWord (resolveWithDepth demo_aliases 7 "ll" 0)).1 = None.
Proof.
  apply resolveWithDepth_complete; [vm_compute; reflexivity|reflexivity|discriminate|].
  intros w e H. unfold lookup_alias in H.
  destruct (player_alias demo_aliases 7 w) as [e'|] eqn:E.
  - assert (player_alias demo_aliases 7 w = ({["k" := "kiss softly"]} : gmap string string) !! w) as E' by reflexivity.
    rewrite E' in E. apply lookup_singleton_Some in E as [_ <-]. injection H as <-. discriminate.
  - assert (systemAliases demo_aliases = <["l" := "look"]> {["ll" := "l here"]}) as E' by (vm_compute; reflexivity).
    rewrite E' in H. apply lookup_insert_Some in H as [[_ <-]|[_ H]]; [discriminate|].
    apply lookup_singleton_Some in H as [_ <-]. discriminate.
Defined.

Lemma Resolve_precedence_witness :
  Resolve demo_aliases 7 "k Bob" (fun _ => false) = NewAliasResult "kiss softly Bob" "k".
Proof.
  destruct (Resolve_precedence demo_aliases 7 "k Bob" (fun _ => false) "k" "Bob") as (_ & H & _);
    [reflexivity|discriminate|]. rewrite H; [vm_compute; reflexivity|reflexivity|vm_compute; discriminate].
Defined.
