(* ===== verification/RateLimit.v ===== *)
(** Command rate limiting: the token bucket of [internal/command/ratelimit.go]
    and the middleware of [rate_limit_middleware.go].

    Tokens and rates are binary64 ([spec_float]), computed operation by operation
    as on amd64, where Go does not fuse multiply and add.  Times are nanoseconds;
    [now] is the clock reading of a call. *)

From S2P Require Import Prelude GoStrings EntityRef PolicyTypes CircuitBreaker CommandInput PolicyEngine.
From Stdlib Require Import SpecFloat.

Open Scope string_scope.
Open Scope list_scope.

Definition DefaultBurstCapacity : Z := 10.
Definition DefaultSustainedRate : float64 := float64_of_int 2.
Definition MinBurstCapacity : Z := 1.
(** 0.1 as binary64. *)
Definition MinSustainedRate : float64 := S754_finite false 7205759403792794 (-56).
Definition CapabilityRateLimitBypass : string := "admin.ratelimit.bypass".
Definition DefaultSessionMaxAge : Z := 3600 * time_Second.

Record RateLimiterConfig : Type := mkRLConfig {
  BurstCapacity : Z;
  SustainedRate : float64;
  SessionMaxAge : Z
}.

Record sessionBucket : Type := mkBucket { tokens : float64; lastCheck : Z }.

Record RateLimiter : Type := mkRL {
  rl_sessions : gmap ulid sessionBucket;
  burstCapacity : Z;
  sustainedRate : float64;
  sessionMaxAge : Z
}.

Definition newRateLimiter (cfg : RateLimiterConfig) : RateLimiter :=
  let burst := if (BurstCapacity cfg <=? 0)%Z then DefaultBurstCapacity else BurstCapacity cfg in
  let burst := if (burst <? MinBurstCapacity)%Z then MinBurstCapacity else burst in
  let rate := if SFleb (SustainedRate cfg) float64_zero then DefaultSustainedRate else SustainedRate cfg in
  let rate := if SFltb rate MinSustainedRate then MinSustainedRate else rate in
  let age := if (SessionMaxAge cfg <=? 0)%Z then DefaultSessionMaxAge else SessionMaxAge cfg in
  mkRL ∅ burst rate age.

(** [time.Duration.Seconds]. *)
Definition Seconds (d : Z) : float64 :=
  SFadd prec64 emax64 (float64_of_int (d ÷ time_Second))
    (SFdiv prec64 emax64 (float64_of_int (Z.rem d time_Second)) (float64_of_int 1000000000)).

(** [int64(f)]: truncation toward zero. *)
Definition int64_of_float (f : float64) : Z :=
  match f with
  | S754_finite s m e => cond_Zopp s (if (0 <=? e)%Z then Zpos m * 2 ^ e else Zpos m ÷ 2 ^ (- e))%Z
  | _ => 0
  end.

(** The refill: elapsed time times rate, capped. *)
Definition refill (rl : RateLimiter) (t : float64) (elapsed : Z) : float64 :=
  let t := SFadd prec64 emax64 t (SFmul prec64 emax64 (Seconds elapsed) (sustainedRate rl)) in
  if SFltb (float64_of_int (burstCapacity rl)) t then float64_of_int (burstCapacity rl) else t.

(** Taking a token from a refilled bucket: the answer and the tokens left. *)
Definition take (rl : RateLimiter) (t : float64) : (bool * Z) * float64 :=
  if SFleb float64_one t then ((true, 0%Z), SFsub prec64 emax64 t float64_one)
  else
    let deficit := SFsub prec64 emax64 float64_one t in
    let cooldownSeconds := SFdiv prec64 emax64 deficit (sustainedRate rl) in
    ((false, int64_of_float (SFmul prec64 emax64 cooldownSeconds (float64_of_int 1000))), t).

Definition set_sessions (m : gmap ulid sessionBucket) (rl : RateLimiter) : RateLimiter :=
  mkRL m (burstCapacity rl) (sustainedRate rl) (sessionMaxAge rl).

Definition Allow (now : Z) (sessionID : ulid) (rl : RateLimiter) : (bool * Z) * RateLimiter :=
  let bucket := match rl_sessions rl !! sessionID with
                | Some b => b
                | None => mkBucket (float64_of_int (burstCapacity rl)) now
                end in
  let t := refill rl (tokens bucket) (now - lastCheck bucket) in
  let '(answer, t) := take rl t in
  (answer, set_sessions (<[sessionID := mkBucket t now]> (rl_sessions rl)) rl).

Definition SessionCount (rl : RateLimiter) : nat := size (rl_sessions rl).

Definition Cleanup (now maxAge : Z) (rl : RateLimiter) : RateLimiter :=
  set_sessions (filter (fun kv => bool_decide (~ (lastCheck kv.2 < now - maxAge)%Z) = true) (rl_sessions rl)) rl.

(** One tick of [cleanupLoop]. *)
Definition cleanup_tick (now : Z) (rl : RateLimiter) : RateLimiter := Cleanup now (sessionMaxAge rl) rl.

(** ** The middleware *)
Definition CodeRateLimited : string := "RATE_LIMITED".
Definition ErrRateLimited : error := ErrCode CodeRateLimited "Too many commands. Please slow down.".

Section middleware.
  Context {E : Type} {HE : AccessPolicyEngine E}.
  (** ulid's [String]. *)
  Variable ulid_string : ulid -> string.

Definition hasBypass (ctx : context) (subject : string) (e : E) : outcome ((bool * option error) * E) :=
  match NewAccessRequest subject "execute" CapabilityRateLimitBypass ∅ with
  | Err err => Return ((false, Some err), e)
  | Ok req =>
    '((d, err), e') ← ape_Evaluate ctx req e;
    Return (match err with
            | Some x => (false, Some x)
            | None => if IsInfraFailure d
                      then (false, Some (ErrNew "infrastructure failure during bypass check"))
                      else (IsAllowed d, None)
            end, e')
  end.

(** [Enforce]: nil when the command may proceed. *)
Definition Enforce (ctx : context) (characterID sessionID : ulid) (now : Z) (e : E) (rl : RateLimiter)
  : outcome (option error * E * RateLimiter) :=
  subject ← CharacterSubject (ulid_string characterID);
  '((bypass, err), e') ← hasBypass ctx subject e;
  if match err with None => bypass | Some _ => false end then Return (None, e', rl)
  else
    let '((allowed, cooldownMs), rl') := Allow now sessionID rl in
    Return (if allowed then None else Some ErrRateLimited, e', rl').
End middleware.

(** ** Properties of the bucket *)
Lemma SFltb_irrefl f : SFltb f f = false.
Proof.
  unfold SFltb, SFcompare. destruct f as [s|s| |s m e]; try done; destruct s; try done.
  - rewrite Z.compare_refl. change (Pos.compare_cont Eq m m) with (Pos.compare m m). by rewrite Pos.compare_refl.
  - rewrite Z.compare_refl. change (Pos.compare_cont Eq m m) with (Pos.compare m m). by rewrite Pos.compare_refl.
Qed.

(** The bucket in isolation.  A refilled bucket never holds more than the
    burst capacity; a call that finds a token takes one and succeeds, one that
    does not is refused with the tokens kept; and neither touches the bucket
    of any other session. *)
Theorem Allow_spec now sid rl :
  let t := refill rl (match rl_sessions rl !! sid with
                      | Some b => tokens b
                      | None => float64_of_int (burstCapacity rl)
                      end) (match rl_sessions rl !! sid with Some b => now - lastCheck b | None => 0 end)%Z in
  let '((allowed, cooldown), rl') := Allow now sid rl in
  SFltb (float64_of_int (burstCapacity rl)) t = false /\
  allowed = SFleb float64_one t /\
  rl_sessions rl' !! sid =
    Some (mkBucket (if allowed then SFsub prec64 emax64 t float64_one else t) now) /\
  (allowed = true -> cooldown = 0%Z) /\
  (forall s, s <> sid -> rl_sessions rl' !! s = rl_sessions rl !! s) /\
  burstCapacity rl' = burstCapacity rl /\ sustainedRate rl' = sustainedRate rl.
Proof.
  intros t. unfold Allow.
  assert ((match rl_sessions rl !! sid with Some b => b
           | None => mkBucket (float64_of_int (burstCapacity rl)) now end) =
          mkBucket (match rl_sessions rl !! sid with Some b => tokens b
                    | None => float64_of_int (burstCapacity rl) end)
                   (match rl_sessions rl !! sid with Some b => lastCheck b | None => now end)) as ->.
  { by destruct (rl_sessions rl !! sid) as [[]|]. }
  simpl.
  assert ((now - match rl_sessions rl !! sid with Some b => lastCheck b | None => now end =
           match rl_sessions rl !! sid with Some b => now - lastCheck b | None => 0 end)%Z) as ->.
  { destruct (rl_sessions rl !! sid); lia. }
  fold t. assert (SFltb (float64_of_int (burstCapacity rl)) t = false) as Hcap.
  { unfold t, refill. destruct (SFltb _ (SFadd _ _ _ _)) eqn:E; [apply SFltb_irrefl|done]. }
  unfold take. destruct (SFleb float64_one t) eqn:Et; simpl; rewrite lookup_insert_eq;
    (split_and!; try done; intros s Hs; by rewrite lookup_insert_ne).
Qed.

(** Cleanup forgets exactly the sessions idle for longer than the age given,
    and no other. *)
Theorem Cleanup_spec now maxAge rl sid b :
  rl_sessions (Cleanup now maxAge rl) !! sid = Some b <->
  rl_sessions rl !! sid = Some b /\ (now - maxAge <= lastCheck b)%Z.
Proof.
  unfold Cleanup. simpl. rewrite map_lookup_filter_Some. simpl. rewrite bool_decide_eq_true.
  split; intros [H1 H2]; (split; [done|lia]).
Qed.

(** A run of calls of one session at given times. *)
Fixpoint allow_at (sid : ulid) (times : list Z) (rl : RateLimiter) : list (bool * Z) * RateLimiter :=
  match times with
  | [] => ([], rl)
  | now :: ts =>
    let '(a, rl') := Allow now sid rl in
    let '(l, rl'') := allow_at sid ts rl' in (a :: l, rl'')
  end.

Definition default_limiter : RateLimiter := newRateLimiter (mkRLConfig 0 float64_zero 0).

(** The bucket of one session. *)
Definition with_bucket (sid : ulid) (t : float64) (now : Z) (rl : RateLimiter) : RateLimiter :=
  set_sessions (<[sid := mkBucket t now]> (rl_sessions rl)) rl.

Lemma Allow_bucket sid t last now rl :
  Allow now sid (with_bucket sid t last rl) =
  let '(a, t') := take rl (refill rl t (now - last)) in (a, with_bucket sid t' now rl).
Proof.
  unfold Allow, with_bucket. simpl. rewrite lookup_insert_eq. simpl.
  change (refill (set_sessions _ rl)) with (refill rl). change (take (set_sessions _ rl)) with (take rl).
  destruct (take rl _) as [a t']. unfold set_sessions. simpl. by rewrite insert_insert_eq.
Qed.

Lemma Allow_new sid now :
  Allow now sid default_limiter = Allow now sid (with_bucket sid (float64_of_int 10) now default_limiter).
Proof.
  rewrite Allow_bucket. unfold Allow. change (rl_sessions default_limiter) with (∅ : gmap ulid sessionBucket).
  rewrite lookup_empty. reflexivity.
Qed.

(** The token count after each call of a burst, and the answers. *)
Fixpoint burst (n : nat) (t : float64) : list (bool * Z) * float64 :=
  match n with
  | 0 => ([], t)
  | S n' => let '(a, t') := take default_limiter (refill default_limiter t 0) in
            let '(l, t'') := burst n' t' in (a :: l, t'')
  end.

Lemma allow_at_burst sid n t now :
  allow_at sid (repeat now n) (with_bucket sid t now default_limiter) =
  let '(l, t') := burst n t in (l, with_bucket sid t' now default_limiter).
Proof.
  revert t. induction n as [|n IH]; intros t; [done|]. cbn [repeat allow_at burst].
  rewrite Allow_bucket, Z.sub_diag. destruct (take _ _) as [a t']. rewrite IH.
  by destruct (burst n t') as [l t''].
Qed.

(** The default limits.  At any instant, a new session may run exactly ten
    commands at once; the eleventh is refused and told to wait half a second,
    and half a second later it is accepted. *)
Theorem default_burst_limit sid now :
  (allow_at sid (repeat now 11 ++ [now + time_Second ÷ 2])%Z default_limiter).1 =
  repeat (true, 0%Z) 10 ++ [(false, 500%Z); (true, 0%Z)].
Proof.
  assert (forall ts1 ts2 rl, allow_at sid (ts1 ++ ts2) rl =
    let '(l1, rl1) := allow_at sid ts1 rl in let '(l2, rl2) := allow_at sid ts2 rl1 in (l1 ++ l2, rl2)) as Happ.
  { induction ts1 as [|x ts1 IH]; intros ts2 rl; simpl.
    - by destruct (allow_at sid ts2 rl).
    - destruct (Allow x sid rl) as [a rl']. rewrite IH. destruct (allow_at sid ts1 rl') as [l1 rl1].
      by destruct (allow_at sid ts2 rl1). }
  assert (allow_at sid (repeat now 11) default_limiter =
          allow_at sid (repeat now 11) (with_bucket sid (float64_of_int 10) now default_limiter)) as Hfirst.
  { change (repeat now 11) with (now :: repeat now 10). cbn [allow_at]. by rewrite Allow_new. }
  rewrite Happ, Hfirst, allow_at_burst.
  destruct (burst 11 (float64_of_int 10)) as [l t] eqn:Eb. vm_compute in Eb. injection Eb as <- <-.
  cbn [allow_at]. rewrite Allow_bucket.
  replace (now + time_Second ÷ 2 - now)%Z with (time_Second ÷ 2)%Z by lia.
  vm_compute. reflexivity.
Qed.
