(* ===== verification/Dispatcher.v ===== *)
(** Command dispatch: [internal/command/dispatcher.go] with the registry
    ([registry.go]), the command entries ([types.go]), the two access layers
    ([access.go]) and focus redirection ([focus_redirect.go], [focus_reader.go]).

    The policy engine is any [AccessPolicyEngine]; command handlers, the plugin
    deliverer and the focus reader are parameters.  The effects a dispatch has on
    the world outside are returned in order; logs, traces and metrics counters
    are left out, except for the status the dispatch ends with. *)

From S2P Require Import Prelude GoStrings EntityRef PolicyTypes CommandInput PolicyEngine RateLimit.

Open Scope string_scope.
Open Scope list_scope.

(** ** Command entries *)
Record Capability : Type := mkCap { cap_Action : string; cap_Resource : string; cap_Scope : string }.

Definition validScopes : list string := [EmptyString; "local"; "global"].

Definition Capability_Validate (c : Capability) : option error :=
  if is_empty (cap_Action c) then Some (ErrCode "INVALID_CAPABILITY" "action is required")
  else if is_empty (cap_Resource c) then Some (ErrCode "INVALID_CAPABILITY" "resource is required")
  else if negb (str_mem (cap_Scope c) validScopes)
  then Some (ErrCode "INVALID_CAPABILITY" "unknown scope %q")
  else None.

(** What dispatch and handlers may set of an execution context ... *)
Record exec_vars : Type := mkVars {
  Args : string;
  InvokedAs : string;
  bootedSessions : list string;    (* their session ids *)
  endSession : bool;
  responseIsError : bool
}.

(** ... and the whole of it; the identity fields have no setters. *)
Record CommandExecution : Type := mkExec {
  characterID : ulid;
  locationID : ulid;
  characterName : string;
  playerID : ulid;
  sessionID : ulid;
  connectionID : ulid;
  output : bool;                   (* the output writer is not nil *)
  services : bool;                 (* the Services pointer is not nil *)
  vars : exec_vars
}.

Definition set_vars (v : exec_vars) (x : CommandExecution) : CommandExecution :=
  mkExec (characterID x) (locationID x) (characterName x) (playerID x) (sessionID x) (connectionID x)
         (output x) (services x) v.

Definition exec_Args (x : CommandExecution) : string := Args (vars x).
Definition exec_InvokedAs (x : CommandExecution) : string := InvokedAs (vars x).

Definition with_invocation (args invokedAs : string) (x : CommandExecution) : CommandExecution :=
  let v := vars x in
  set_vars (mkVars args invokedAs (bootedSessions v) (endSession v) (responseIsError v)) x.
Definition SetResponseIsError (b : bool) (x : CommandExecution) : CommandExecution :=
  let v := vars x in set_vars (mkVars (Args v) (InvokedAs v) (bootedSessions v) (endSession v) b) x.
Definition SetEndSession (b : bool) (x : CommandExecution) : CommandExecution :=
  let v := vars x in set_vars (mkVars (Args v) (InvokedAs v) (bootedSessions v) b (responseIsError v)) x.
Definition RecordBootedSession (sid : string) (x : CommandExecution) : CommandExecution :=
  let v := vars x in
  set_vars (mkVars (Args v) (InvokedAs v) (bootedSessions v ++ [sid]) (endSession v) (responseIsError v)) x.

(** A handler may set the variable part of the execution context, and may fail. *)
Abbreviation CommandHandler := (CommandExecution -> exec_vars * option error).

Record CommandEntry : Type := mkEntry {
  ce_Name : string;
  ce_handler : option CommandHandler;
  ce_pluginName : string;
  ce_capabilities : list Capability;
  ce_Source : string
}.

(** The validation loop of [NewCommandEntry]. *)
Fixpoint first_invalid (caps : list Capability) : option error :=
  match caps with
  | [] => None
  | c :: caps' => match Capability_Validate c with Some e => Some e | None => first_invalid caps' end
  end.

Definition NewCommandEntry (name : string) (handler : option CommandHandler) (plugin : string)
  (caps : list Capability) (source : string) : result CommandEntry :=
  if is_empty name then Err (ErrCode "EMPTY_NAME" "Name is required")
  else match handler, is_empty plugin with
  | None, true => Err (ErrCode "NIL_HANDLER" "Handler or PluginName is required")
  | Some _, false => Err (ErrCode "AMBIGUOUS_HANDLER" "cannot set both Handler and PluginName")
  | _, _ =>
    match first_invalid caps with
    | Some e => Err (ErrWrapCode "INVALID_CAPABILITY" e)
    | None => Ok (mkEntry name handler plugin caps source)
    end
  end.

(** ** Registry *)
Record Registry : Type := mkRegistry { commands : gmap string CommandEntry }.
Definition NewRegistry : Registry := mkRegistry ∅.

Definition Register (entry : CommandEntry) (r : Registry) : Registry * option error :=
  if is_empty (ce_Name entry) then (r, Some (ErrNew "command name cannot be empty"))
  else match ValidateCommandName (ce_Name entry) with
  | Some e => (r, Some e)
  | None =>
    match ce_handler entry, is_empty (ce_pluginName entry) with
    | None, true => (r, Some (ErrNew "command handler cannot be nil"))
    | _, _ => (mkRegistry (<[ce_Name entry := entry]> (commands r)), None)
    end
  end.

Definition Get (name : string) (r : Registry) : option CommandEntry := commands r !! name.

Definition Unregister (name : string) (r : Registry) : Registry * option error :=
  match commands r !! name with
  | None => (r, Some (ErrNew "cannot unregister unknown command: %s"))
  | Some _ => (mkRegistry (delete name (commands r)), None)
  end.

Definition All (r : Registry) : list CommandEntry := (map_to_list (commands r)).*2.

(** ** Focus redirection *)
Abbreviation FocusRedirectTable := (gmap string (gmap string string)).
Definition Redirects (t : FocusRedirectTable) (verb : string) : bool :=
  match t !! verb with Some _ => true | None => false end.
Definition Target (t : FocusRedirectTable) (verb focusKind : string) : option string :=
  match t !! verb with Some byKind => byKind !! focusKind | None => None end.

(** [storeFocusReader.ConnectionFocusKind]; [get_connection] answers the
    connection's focus key kind, none when it has no focus. *)
Definition ConnectionFocusKind (error_code : error -> option string)
  (get_connection : ulid -> result (option string)) (conn : ulid) : result string :=
  match get_connection conn with
  | Err e => if bool_decide (error_code e = Some "CONNECTION_NOT_FOUND") then Ok EmptyString else Err e
  | Ok None => Ok EmptyString
  | Ok (Some kind) => Ok kind
  end.

(** ** Plugin commands *)
Record CommandRequest : Type := mkCmdReq {
  cr_Command : string;
  cr_Args : string;
  cr_CharacterID : string;
  cr_CharacterName : string;
  cr_LocationID : string;
  cr_SessionID : string;
  cr_PlayerID : string;
  cr_InvokedAs : string;
  cr_ConnectionID : string
}.

Inductive CommandStatus : Type := CommandOK | CommandError | CommandFailure | CommandFatal | CommandStatusOther.

Record AuditHint : Type := mkHint {
  ah_ID : string;
  ah_Name : string;
  ah_Message : string;
  ah_Effect : string;
  ah_ActionQualifier : string;
  ah_Resource : string;
  ah_Attributes : gmap string string
}.

Record CommandResponse : Type := mkResp {
  resp_Status : CommandStatus;
  resp_Events : list string;
  resp_Output : string;
  resp_BootedSessions : list string;
  resp_EndSession : bool;
  resp_AuditHints : list AuditHint
}.

(** An audit event on its way to the log. *)
Record PluginAuditEvent : Type := mkPAE {
  pae_ID : string;
  pae_Name : string;
  pae_Message : string;
  pae_Source : string;
  pae_Component : string;
  pae_Subject : string;
  pae_Action : string;
  pae_Resource : string;
  pae_Effect : Effect;
  pae_Attributes : gmap string any
}.

(** What the dispatch context tells the plugin host about the caller: the acting
    character and, when known, the player that owns it. *)
Record dispatch_ctx : Type := mkDC { dc_actor : string; dc_owner : option string }.

(** Effects of a dispatch, in order. *)
Inductive effect : Type :=
| EHandler (name : string)
| EDeliver (plugin : string) (dc : dispatch_ctx) (req : CommandRequest)
| EEmit (plugin : string) (event : string)
| EOutput (text : string)
| EActivity (session : string)
| EAudit (ev : PluginAuditEvent).

Definition StatusSuccess : string := "success".
Definition StatusError : string := "error".
Definition StatusNotFound : string := "not_found".
Definition StatusPermissionDenied : string := "permission_denied".
Definition StatusRateLimited : string := "rate_limited".
Definition StatusEngineFailure : string := "engine_failure".
Definition CodePermissionDenied : string := "PERMISSION_DENIED".
Definition CodeAccessEvaluationFailed : string := "ACCESS_EVALUATION_FAILED".
Definition SourcePlugin : string := "plugin".

Definition ErrNoCharacter : error := ErrCode "NO_CHARACTER" "no character associated with session".
Definition ErrNilServices : error := ErrCode "NIL_SERVICES" "command execution context missing services".
Definition ErrUnknownCommand : error := ErrCode "UNKNOWN_COMMAND" "unknown command: %s".
Definition ErrPermissionDenied : error := ErrCode CodePermissionDenied "permission denied for command %s".
Definition ErrInsufficientCapability : error := ErrCode CodePermissionDenied "insufficient capability".
Definition ErrFocusReadFailed : error := ErrCode "FOCUS_READ_FAILED" "focus read failed".
Definition ErrSessionEnded : error := ErrNew "session ended".
Definition ErrCapabilityCheckFailed : error := ErrNew "capability check failed".

Definition isValidResourceRef (ref : string) : bool :=
  match cut ":" ref with
  | Some (t, id) => negb (is_empty t) && negb (is_empty id)
  | None => false
  end.

(** [errors.Is(err, ErrSessionEnded)]. *)
Fixpoint is_session_ended (e : error) : bool :=
  match e with
  | ErrNew m => String.eqb m "session ended"
  | ErrCode _ _ => false
  | ErrWrap _ c | ErrWrapCode _ c => is_session_ended c
  | ErrJoin es => existsb is_session_ended es
  end.

Section dispatcher.
  Context {E : Type} {HE : AccessPolicyEngine E}.
  (** ulid's [String] and [Parse], oops' code lookup, and the plugin manager's
      two methods; delivering a command may also record audit events in the
      dispatch context. *)
  Variable ulid_string : ulid -> string.
  Variable ulid_parse : string -> option ulid.
  Variable error_code : error -> option string.
  Variable deliver : dispatch_ctx -> string -> CommandRequest ->
                     result (option CommandResponse) * list PluginAuditEvent.
  Variable emit : dispatch_ctx -> string -> string -> option error.

(** ** Access layers *)
Definition CheckCommandExecution (ctx : context) (subject cmdName : string) (e : E)
  : outcome (option error * E) :=
  match NewAccessRequest subject "execute" ("command:" +:+ cmdName) ∅ with
  | Err reqErr =>
    Return (Some (ErrWrapCode CodeAccessEvaluationFailed (ErrJoin [ErrCapabilityCheckFailed; reqErr])), e)
  | Ok req =>
    '((decision, evalErr), e') ← ape_Evaluate (E:=E) ctx req e;
    Return (match evalErr with
            | Some x => Some (ErrWrapCode CodeAccessEvaluationFailed (ErrJoin [ErrCapabilityCheckFailed; x]))
            | None =>
              if negb (IsAllowed decision) then
                if IsInfraFailure decision
                then Some (ErrWrapCode CodeAccessEvaluationFailed ErrCapabilityCheckFailed)
                else Some ErrPermissionDenied
              else None
            end, e')
  end.

Fixpoint CheckCapabilityPreFlight (ctx : context) (subject : string) (caps : list Capability) (e : E)
  : outcome (option error * E) :=
  match caps with
  | [] => Return (None, e)
  | c :: caps' =>
    '((allowed, err), e') ← ape_CanPerformAction (E:=E) ctx subject (cap_Action c) (cap_Resource c) e;
    match err with
    | Some x => Return (Some (ErrWrapCode CodeAccessEvaluationFailed x), e')
    | None => if (allowed : bool) then CheckCapabilityPreFlight ctx subject caps' e'
              else Return (Some ErrInsufficientCapability, e')
    end
  end.

(** ** The dispatcher *)
Record Dispatcher : Type := mkDispatcher {
  registry : Registry;
  aliasCache : option AliasCache;
  rateLimiter : bool;                                 (* configured *)
  pluginDeliverer : bool;                             (* configured *)
  focusReader : option (ulid -> result string);
  focusRedirects : option FocusRedirectTable;
  auditLogger : bool                                  (* configured *)
}.

(** The options of [NewDispatcher], in the order they are applied. *)
Inductive DispatcherOption : Type :=
| WithAliasCache (cache : option AliasCache)
| WithPluginDeliverer (configured : bool)
| WithFocusReader (fr : option (ulid -> result string))
| WithFocusRedirects (t : option FocusRedirectTable)
| WithAuditLogger (configured : bool)
| WithRateLimiter (limiter : bool).                   (* not nil *)

Definition ErrNilRegistry : error := ErrNew "registry cannot be nil".
Definition ErrNilDispatcherEngine : error := ErrNew "dispatcher: policy engine cannot be nil".
Definition ErrNilRateLimiter : error := ErrNew "rate limiter cannot be nil".
Definition ErrFocusRedirectWiringIncomplete : error :=
  ErrCode "FOCUS_REDIRECT_WIRING_INCOMPLETE"
    "dispatcher: WithFocusReader and WithFocusRedirects must both be provided or both omitted".

Definition apply_option (opt : DispatcherOption) (d : Dispatcher) : result Dispatcher :=
  match opt with
  | WithAliasCache c => Ok (mkDispatcher (registry d) c (rateLimiter d) (pluginDeliverer d)
                                         (focusReader d) (focusRedirects d) (auditLogger d))
  | WithPluginDeliverer b => Ok (mkDispatcher (registry d) (aliasCache d) (rateLimiter d) b
                                         (focusReader d) (focusRedirects d) (auditLogger d))
  | WithFocusReader fr => Ok (mkDispatcher (registry d) (aliasCache d) (rateLimiter d) (pluginDeliverer d)
                                         fr (focusRedirects d) (auditLogger d))
  | WithFocusRedirects t => Ok (mkDispatcher (registry d) (aliasCache d) (rateLimiter d) (pluginDeliverer d)
                                         (focusReader d) t (auditLogger d))
  | WithAuditLogger b => Ok (mkDispatcher (registry d) (aliasCache d) (rateLimiter d) (pluginDeliverer d)
                                         (focusReader d) (focusRedirects d) b)
  | WithRateLimiter false => Err ErrNilRateLimiter
  | WithRateLimiter true => Ok (mkDispatcher (registry d) (aliasCache d) true (pluginDeliverer d)
                                         (focusReader d) (focusRedirects d) (auditLogger d))
  end.

Fixpoint apply_options (opts : list DispatcherOption) (d : Dispatcher) : result Dispatcher :=
  match opts with
  | [] => Ok d
  | o :: opts' => d' ← apply_option o d; apply_options opts' d'
  end.

Definition is_some {A} (o : option A) : bool := match o with Some _ => true | None => false end.

(** [engine] says whether the engine is not nil. *)
Definition NewDispatcher (reg : option Registry) (engine : bool) (opts : list DispatcherOption)
  : result Dispatcher :=
  match reg with
  | None => Err ErrNilRegistry
  | Some reg =>
    if negb engine then Err ErrNilDispatcherEngine
    else
      d ← apply_options opts (mkDispatcher reg None false false None None false);
      if negb (eqb (is_some (focusReader d)) (is_some (focusRedirects d)))
      then Err ErrFocusRedirectWiringIncomplete
      else Ok d
  end.

(** The mutable state of a dispatch: the engine, the limiter and the metrics
    status. *)
Record dstate : Type := mkDS { ds_engine : E; ds_limiter : RateLimiter; ds_status : string }.

Definition set_status (s : string) (d : dstate) : dstate := mkDS (ds_engine d) (ds_limiter d) s.
Definition set_engine (e : E) (d : dstate) : dstate := mkDS e (ds_limiter d) (ds_status d).

(** The verb replaced, if a redirect was applied, with the rewritten command. *)
Definition maybeRedirectForFocus (d : Dispatcher) (parsed : ParsedCommand) (conn : ulid)
  : result (ParsedCommand * bool) :=
  match focusRedirects d, focusReader d with
  | Some table, Some read =>
    if (conn =? 0)%N || negb (Redirects table (pc_Name parsed)) then Ok (parsed, false)
    else match read conn with
    | Err e => Err (ErrWrap EmptyString e)
    | Ok kind =>
      match Target table (pc_Name parsed) kind with
      | None => Ok (parsed, false)
      | Some target =>
        Ok (mkParsed target (TrimSpace (pc_Name parsed +:+ " " +:+ pc_Args parsed)) (pc_Raw parsed), true)
      end
    end
  | _, _ => Ok (parsed, false)
  end.

(** The alias step of [Dispatch]. *)
Definition resolve_alias (d : Dispatcher) (input : string) (x : CommandExecution) : AliasResult :=
  match aliasCache d with
  | Some c => Resolve c (playerID x) input
                (fun n => match Get n (registry d) with Some _ => true | None => false end)
  | None => NoAliasResult input
  end.

(** [Dispatch] up to the focus redirect: the name the command was invoked by, and
    the effective command; [None] is a focus-read failure. *)
Definition prepare (d : Dispatcher) (input : string) (x : CommandExecution)
  : result (string * option ParsedCommand) :=
  if (characterID x =? 0)%N then Err ErrNoCharacter
  else if negb (services x) then Err ErrNilServices
  else
    original ← Parse input;
    let aliasResult := resolve_alias d input x in
    let invokedAs := if WasAlias aliasResult && negb (is_empty (AliasUsed aliasResult))
                     then AliasUsed aliasResult else pc_Name original in
    parsed ← Parse (Resolved aliasResult);
    Ok (invokedAs, match maybeRedirectForFocus d parsed (connectionID x) with
                   | Ok (p, _) => Some p
                   | Err _ => None
                   end).

(** The status of a refused access check. *)
Definition access_status (e : error) : string :=
  if bool_decide (error_code e = Some CodePermissionDenied) then StatusPermissionDenied
  else StatusEngineFailure.

(** Everything before execution.  [inl] is an early return. *)
Definition authorize (d : Dispatcher) (ctx : context) (now : Z) (input : string) (x : CommandExecution)
  (st : dstate) : outcome ((error + (CommandEntry * ParsedCommand * string)) * dstate) :=
  match prepare d input x with
  | Err e => Return (inl e, st)
  | Ok (invokedAs, None) => Return (inl ErrFocusReadFailed, set_status StatusEngineFailure st)
  | Ok (invokedAs, Some parsed) =>
    subject ← CharacterSubject (ulid_string (characterID x));
    '(rateErr, eng, rl) ←
      (if rateLimiter d then Enforce ulid_string ctx (characterID x) (sessionID x) now (ds_engine st) (ds_limiter st)
       else Return (None, ds_engine st, ds_limiter st));
    let st := mkDS eng rl (ds_status st) in
    match rateErr with
    | Some e => Return (inl e, set_status StatusRateLimited st)
    | None =>
      match Get (pc_Name parsed) (registry d) with
      | None => Return (inl ErrUnknownCommand, set_status StatusNotFound st)
      | Some entry =>
        '(execErr, eng) ← CheckCommandExecution ctx subject (pc_Name parsed) (ds_engine st);
        let st := set_engine eng st in
        match execErr with
        | Some e => Return (inl e, set_status (access_status e) st)
        | None =>
          '(preErr, eng) ← CheckCapabilityPreFlight ctx subject (ce_capabilities entry) (ds_engine st);
          let st := set_engine eng st in
          match preErr with
          | Some e => Return (inl e, set_status (access_status e) st)
          | None => Return (inr (entry, parsed, invokedAs), st)
          end
        end
      end
    end
  end.

(** ** Execution *)

(** The events [extractAuditHints] puts on the context. *)
Definition hint_event (entry : CommandEntry) (x : CommandExecution) (subject : string) (h : AuditHint)
  : list PluginAuditEvent :=
  let component := if is_empty (ce_pluginName entry) then "unknown-plugin" else ce_pluginName entry in
  let action := if is_empty (ah_ActionQualifier h) then ce_Name entry
                else ce_Name entry +:+ ":" +:+ ah_ActionQualifier h in
  let make eff := [mkPAE (ah_ID h) (ah_Name h) (ah_Message h) SourcePlugin component subject action
                         (ah_Resource h) eff
                         (<["command.invoked_as" := AString (exec_InvokedAs x)]> (AString <$> ah_Attributes h))] in
  if String.eqb (ah_Effect h) "allow" then make EffectAllow
  else if String.eqb (ah_Effect h) "deny" then make EffectDeny
  else [].

Definition extractAuditHints (entry : CommandEntry) (x : CommandExecution) (hints : list AuditHint)
  : outcome (list PluginAuditEvent) :=
  match hints with
  | [] => Return []
  | _ :: _ =>
    subject ← CharacterSubject (ulid_string (characterID x));
    Return (concat (map (hint_event entry x subject) hints))
  end.

(** The events of the context are logged with the host's fields filled in. *)
Definition stamp (x : CommandExecution) (subject : string) (ev : PluginAuditEvent) : PluginAuditEvent :=
  mkPAE (pae_ID ev) (pae_Name ev) (pae_Message ev) (pae_Source ev) (pae_Component ev)
        (if is_empty (pae_Subject ev) then subject else pae_Subject ev)
        (if is_empty (pae_Action ev) then exec_InvokedAs x else pae_Action ev)
        (pae_Resource ev) (pae_Effect ev) (pae_Attributes ev).

Definition flushPluginAuditEvents (d : Dispatcher) (x : CommandExecution) (evs : list PluginAuditEvent)
  : outcome (list effect) :=
  match evs with
  | [] => Return []
  | _ :: _ =>
    if auditLogger d then
      subject ← CharacterSubject (ulid_string (characterID x));
      Return (map (fun ev => EAudit (stamp x subject ev)) evs)
    else Return []
  end.

Definition bump_activity (x : CommandExecution) : list effect :=
  if (sessionID x =? 0)%N then [] else [EActivity (ulid_string (sessionID x))].

(** The emit loop: stops at the first failure. *)
Fixpoint emit_events (dc : dispatch_ctx) (plugin : string) (evs : list string) : list effect * option error :=
  match evs with
  | [] => ([], None)
  | ev :: evs' =>
    match emit dc plugin ev with
    | Some e => ([EEmit plugin ev], Some (ErrWrap EmptyString e))
    | None => let '(effs, err) := emit_events dc plugin evs' in (EEmit plugin ev :: effs, err)
    end
  end.

Fixpoint boot_sessions (sids : list string) (x : CommandExecution) : CommandExecution :=
  match sids with
  | [] => x
  | sid :: sids' =>
    match ulid_parse sid with
    | None => boot_sessions sids' x
    | Some u => boot_sessions sids' (RecordBootedSession (ulid_string u) x)
    end
  end.

Definition plugin_request (entry : CommandEntry) (x : CommandExecution) (invokedAs : string) : CommandRequest :=
  mkCmdReq (ce_Name entry) (exec_Args x) (ulid_string (characterID x)) (characterName x)
           (ulid_string (locationID x)) (ulid_string (sessionID x)) (ulid_string (playerID x)) invokedAs
           (if (connectionID x =? 0)%N then EmptyString else ulid_string (connectionID x)).

Definition dispatch_context (x : CommandExecution) : dispatch_ctx :=
  mkDC (ulid_string (characterID x))
       (if (playerID x =? 0)%N then None else Some (ulid_string (playerID x))).

(** Result of execution: error, execution context, metrics status (when set),
    effects, and audit events put on the context. *)
Definition exec_result : Type :=
  option error * CommandExecution * option string * list effect * list PluginAuditEvent.

Definition dispatchToPlugin (d : Dispatcher) (entry : CommandEntry) (x : CommandExecution) (invokedAs : string)
  : outcome exec_result :=
  if negb (pluginDeliverer d) then
    Return (Some (ErrCode "NO_PLUGIN_DELIVERER"
      "command is plugin-backed but no PluginCommandDeliverer configured"), x, None, [], [])
  else
    let cmd := plugin_request entry x invokedAs in
    let dc := dispatch_context x in
    let '(res, pushed) := deliver dc (ce_pluginName entry) cmd in
    let effs := [EDeliver (ce_pluginName entry) dc cmd] in
    match res with
    | Err e => Return (Some (ErrWrap EmptyString e), x, None, effs, pushed)
    | Ok None => Return (None, x, None, effs, pushed)
    | Ok (Some resp) =>
      hints ← extractAuditHints entry x (resp_AuditHints resp);
      let events := pushed ++ hints in
      let continue status x effs :=
        let '(emitted, emitErr) := emit_events dc (ce_pluginName entry) (resp_Events resp) in
        let effs := effs ++ emitted in
        match emitErr with
        | Some e => Return (Some e, x, Some status, effs, events)
        | None =>
          let effs := effs ++ (if is_empty (resp_Output resp) || negb (output x) then [] else [EOutput (resp_Output resp)]) in
          let x := boot_sessions (resp_BootedSessions resp) x in
          if resp_EndSession resp
          then Return (Some (ErrWrapCode "SESSION_ENDED" ErrSessionEnded), SetEndSession true x, Some status, effs, events)
          else Return (None, x, Some status, effs, events)
        end in
      match resp_Status resp with
      | CommandOK => continue StatusSuccess x (effs ++ bump_activity x)
      | CommandError =>
        let x := SetResponseIsError true x in continue StatusSuccess x (effs ++ bump_activity x)
      | CommandFailure => continue StatusError (SetResponseIsError true x) effs
      | CommandFatal =>
        Return (Some (ErrNew "plugin command returned fatal status"), SetResponseIsError true x,
                Some StatusError, effs, events)
      | CommandStatusOther =>
        Return (Some (ErrNew "plugin command returned unknown status"), x, None, effs, events)
      end
    end.

(** The execution part of [Dispatch]. *)
Definition execute (d : Dispatcher) (entry : CommandEntry) (parsed : ParsedCommand) (invokedAs : string)
  (x : CommandExecution) : outcome exec_result :=
  let x := with_invocation (pc_Args parsed) invokedAs x in
  if negb (is_empty (ce_pluginName entry)) then
    '(err, x, status, effs, events) ← dispatchToPlugin d entry x invokedAs;
    Return (err, x, match err with
                    | Some e => if is_session_ended e then status else Some StatusError
                    | None => status
                    end, effs, events)
  else
    match ce_handler entry with
    | None => Panic "nil handler"
    | Some h =>
      let '(v, err) := h x in
      let x := set_vars v x in
      match err with
      | Some e => Return (Some e, x, if is_session_ended e then None else Some StatusError,
                          [EHandler (ce_Name entry)], [])
      | None => Return (None, x, Some StatusSuccess, EHandler (ce_Name entry) :: bump_activity x, [])
      end
    end.

Definition Dispatch (d : Dispatcher) (ctx : context) (now : Z) (input : string) (x : CommandExecution) (st : dstate)
  : outcome (option error * CommandExecution * list effect * dstate) :=
  '(auth, st) ← authorize d ctx now input x st;
  match auth with
  | inl e => Return (Some e, x, [], st)
  | inr (entry, parsed, invokedAs) =>
    '(err, x, status, effs, events) ← execute d entry parsed invokedAs x;
    logged ← flushPluginAuditEvents d x events;
    Return (err, x, effs ++ logged,
            match status with Some s => set_status s st | None => st end)
  end.
End dispatcher.
