(* ===== verification/DispatcherFacts.v ===== *)
(** Theorems on command dispatch (Dispatcher.v): nothing runs that was not
    authorised, for any policy engine and then for the engine of the code; focus
    routing; the identity and audit fields a plugin cannot choose; and two
    consequences of how the parts are wired.  A concrete server, the dispatcher over
    the access-control stack of AccessScenarios.v with one plugin command, gives the
    instances. *)

From S2P Require Import Prelude GoStrings EntityRef PolicyTypes PolicyEval AttrResolver AttrResolverFacts PolicyCache PolicyEngine PolicyEngineFacts AccessScenarios CommandInput CommandInputFacts RateLimit Dispatcher.

Open Scope string_scope.
Open Scope list_scope.

Lemma character_subject id s :
  CharacterSubject id = Return s -> s = "character:" +:+ id /\ id <> EmptyString.
Proof. unfold CharacterSubject. by intros [-> H]%prefixed_Return. Qed.

Section guarded.
  Context {E : Type} {HE : AccessPolicyEngine E}.
  Variable ulid_string : ulid -> string.
  Variable ulid_parse : string -> option ulid.
  Variable error_code : error -> option string.
  Variable deliver : dispatch_ctx -> string -> CommandRequest ->
                     result (option CommandResponse) * list PluginAuditEvent.
  Variable emit : dispatch_ctx -> string -> string -> option error.

Abbreviation dispatch := (Dispatch ulid_string ulid_parse error_code deliver emit).
Abbreviation enforce := (Enforce ulid_string).

(** ** Authorisation *)

(** Every capability is granted, one after the other. *)
Inductive granted (ctx : context) (subject : string) : list Capability -> E -> E -> Prop :=
| granted_nil e : granted ctx subject [] e e
| granted_cons c caps e e1 e2 :
    ape_CanPerformAction ctx subject (cap_Action c) (cap_Resource c) e = Return ((true, None), e1) ->
    granted ctx subject caps e1 e2 -> granted ctx subject (c :: caps) e e2.

(** What has to happen before a command runs: the engine states are those of
    each call, in order. *)
Record authorized (d : Dispatcher) (ctx : context) (now : Z) (input : string) (x : CommandExecution)
  (st : dstate) (parsed : ParsedCommand) (invokedAs : string) (entry : CommandEntry) (e3 : E) : Prop := {
  au_prepared : prepare d input x = Ok (invokedAs, Some parsed);
  au_registered : Get (pc_Name parsed) (registry d) = Some entry;
  au_access : let subject := "character:" +:+ ulid_string (characterID x) in
    exists e1 rl dec e2,
      (if rateLimiter d
       then enforce ctx (characterID x) (sessionID x) now (ds_engine st) (ds_limiter st) = Return (None, e1, rl)
       else ulid_string (characterID x) <> EmptyString /\ e1 = ds_engine st) /\
      ape_Evaluate ctx (mkRequest subject "execute" ("command:" +:+ pc_Name parsed) ∅) e1 =
        Return ((dec, None), e2) /\
      IsAllowed dec = true /\
      granted ctx subject (ce_capabilities entry) e2 e3
}.

Lemma CheckCapabilityPreFlight_granted ctx subject caps e e' :
  CheckCapabilityPreFlight ctx subject caps e = Return (None, e') <-> granted ctx subject caps e e'.
Proof.
  split.
  - revert e. induction caps as [|c caps IH]; simpl; intros e H.
    + simp_res. constructor.
    + apply obind_Return in H as ([[ok err] e1] & H1 & H). destruct err; [by simp_res|].
      destruct ok; [|by simp_res]. econstructor; eauto.
  - induction 1 as [e|c caps e e1 e2 H1 _ IH]; simpl; [done|]. by rewrite H1.
Qed.

Lemma execute_request id cmd :
  NewAccessRequest ("character:" +:+ id) "execute" ("command:" +:+ cmd) ∅ =
  Ok (mkRequest ("character:" +:+ id) "execute" ("command:" +:+ cmd) ∅).
Proof. by apply NewAccessRequest_spec. Qed.

Lemma CheckCommandExecution_allowed ctx id cmd e e' :
  CheckCommandExecution ctx ("character:" +:+ id) cmd e = Return (None, e') <->
  exists dec, ape_Evaluate ctx (mkRequest ("character:" +:+ id) "execute" ("command:" +:+ cmd) ∅) e =
                Return ((dec, None), e') /\ IsAllowed dec = true.
Proof.
  unfold CheckCommandExecution. rewrite execute_request. split.
  - intros H. apply obind_Return in H as ([[dec err] e1] & H1 & H). exists dec.
    destruct err; [by simp_res|]. destruct (IsAllowed dec); simpl in H; [by simp_res|].
    destruct (IsInfraFailure dec); by simp_res.
  - intros (dec & H1 & H2). rewrite H1. simpl. by rewrite H2.
Qed.

Lemma authorize_sound d ctx now input x st entry parsed invokedAs st' :
  authorize ulid_string error_code d ctx now input x st = Return (inr (entry, parsed, invokedAs), st') ->
  authorized d ctx now input x st parsed invokedAs entry (ds_engine st').
Proof.
  unfold authorize. destruct (prepare d input x) as [[inv [p|]]|] eqn:Ep; [|by intros H; simp_res..].
  intros H. apply obind_Return in H as (subject & Hs & H).
  apply character_subject in Hs as [-> Hid].
  apply obind_Return in H as ([[rateErr e1] rl] & Hr & H).
  destruct rateErr; [by simp_res|]. destruct (Get (pc_Name p) (registry d)) as [en|] eqn:Eg; [|by simp_res].
  apply obind_Return in H as ([execErr e2] & Hx & H). destruct execErr; [by simp_res|].
  apply obind_Return in H as ([preErr e3] & Hc & H). destruct preErr; [by simp_res|].
  simpl in *. simp_res. apply CheckCommandExecution_allowed in Hx as (dec & He & Ha).
  apply CheckCapabilityPreFlight_granted in Hc. constructor; [done|done|]. simpl.
  exists e1, rl, dec, e2. split_and!; auto. destruct (rateLimiter d); [done|by simp_res].
Qed.

Lemma authorize_complete d ctx now input x st entry parsed invokedAs e3 :
  authorized d ctx now input x st parsed invokedAs entry e3 ->
  exists st', authorize ulid_string error_code d ctx now input x st = Return (inr (entry, parsed, invokedAs), st') /\
    ds_engine st' = e3.
Proof.
  intros [Hp Hg Ha]. simpl in Ha. destruct Ha as (e1 & rl & dec & e2 & Hr & He & Hd & Hc).
  unfold authorize. rewrite Hp.
  assert (CharacterSubject (ulid_string (characterID x)) = Return ("character:" +:+ ulid_string (characterID x))) as Hs.
  { destruct (rateLimiter d).
    - unfold Enforce in Hr. apply obind_Return in Hr as (s & Hs & _). rewrite Hs.
      by apply character_subject in Hs as [-> _].
    - destruct Hr as [Hr _]. unfold CharacterSubject, prefixed. apply is_empty_false in Hr. by rewrite Hr. }
  rewrite Hs. simpl.
  assert (exists rl, (if rateLimiter d then enforce ctx (characterID x) (sessionID x) now (ds_engine st) (ds_limiter st)
          else Return (None, ds_engine st, ds_limiter st)) = Return (None, e1, rl)) as [rl' Hr'].
  { destruct (rateLimiter d); [eauto|]. destruct Hr as [_ ->]. eauto. }
  rewrite Hr'. simpl. rewrite Hg.
  rewrite (proj2 (CheckCommandExecution_allowed _ _ _ _ _)) by eauto. simpl.
  rewrite (proj2 (CheckCapabilityPreFlight_granted _ _ _ _ _)) by eauto. simpl. eauto.
Qed.

(** ** Execution *)

(** The one effect that runs the command: the handler is called, or the command
    delivered to its plugin with the identity of the execution context. *)
Definition started (entry : CommandEntry) (x : CommandExecution) (parsed : ParsedCommand) (invokedAs : string)
  : effect :=
  if is_empty (ce_pluginName entry) then EHandler (ce_Name entry)
  else EDeliver (ce_pluginName entry) (dispatch_context ulid_string x)
         (plugin_request ulid_string entry (with_invocation (pc_Args parsed) invokedAs x) invokedAs).

Definition runs (eff : effect) : bool :=
  match eff with EHandler _ | EDeliver _ _ _ => true | _ => false end.

(** [effs] is [first] followed by effects none of which is a [P]: with [runs], a
    command started once and what it led to. *)
Definition headed (P : effect -> bool) (first : effect) (effs : list effect) : Prop :=
  exists rest, effs = first :: rest /\ existsb P rest = false.
Abbreviation started_once := (headed runs).

(** What only happens at the start of a dispatch or at its end. *)
Definition outer (eff : effect) : bool :=
  match eff with EHandler _ | EDeliver _ _ _ | EAudit _ => true | _ => false end.

Lemma headed_outer first effs : headed outer first effs -> headed runs first effs.
Proof.
  intros (rest & -> & H). exists rest. split; [done|]. apply existsb_false. intros eff Hin.
  apply (proj1 (existsb_false _ _) H) in Hin. by destruct eff.
Qed.

Lemma headed_app P first effs more :
  headed P first effs -> existsb P more = false -> headed P first (effs ++ more).
Proof.
  intros (rest & -> & H) Hm. exists (rest ++ more). split; [done|]. by rewrite existsb_app, H, Hm.
Qed.

Lemma headed_nil P first : headed P first [first].
Proof. by exists []. Qed.

Lemma bump_activity_outer x : existsb outer (bump_activity ulid_string x) = false.
Proof. unfold bump_activity. by destruct (_ =? _)%N. Qed.

Lemma emit_events_outer dc plugin evs : existsb outer (emit_events emit dc plugin evs).1 = false.
Proof.
  induction evs as [|ev evs IH]; simpl; [done|]. destruct (emit dc plugin ev); [done|].
  by destruct (emit_events emit dc plugin evs).
Qed.

Lemma extractAuditHints_Return entry x hs :
  ulid_string (characterID x) <> EmptyString -> exists evs, extractAuditHints ulid_string entry x hs = Return evs.
Proof.
  intros H. unfold extractAuditHints. destruct hs; [eauto|]. unfold CharacterSubject, prefixed.
  apply is_empty_false in H. rewrite H. simpl. eauto.
Qed.

Abbreviation to_plugin := (dispatchToPlugin ulid_string ulid_parse deliver emit).

(** Whatever the plugin answers, delivery is the first effect and the only one
    that runs the command, and the character does not change. *)
Lemma dispatchToPlugin_effects d entry x invokedAs :
  pluginDeliverer d = true -> ulid_string (characterID x) <> EmptyString ->
  exists err x' status effs evs, to_plugin d entry x invokedAs = Return (err, x', status, effs, evs) /\
    headed outer (EDeliver (ce_pluginName entry) (dispatch_context ulid_string x)
                           (plugin_request ulid_string entry x invokedAs)) effs /\
    characterID x' = characterID x.
Proof.
  intros Hd Hid. unfold dispatchToPlugin. rewrite Hd. cbn [negb].
  destruct (deliver _ _ _) as [[[resp|]|e] pushed].
  2,3: do 5 eexists; split; [reflexivity|split; [apply headed_nil|done]].
  destruct (extractAuditHints_Return entry x (resp_AuditHints resp) Hid) as [hs ->]. cbn [mbind outcome_bind].
  set (first := EDeliver _ _ _).
  assert (forall sids y, characterID (boot_sessions ulid_string ulid_parse sids y) = characterID y) as Hboot.
  { induction sids as [|sid sids IH]; intros y; simpl; [done|]. destruct (ulid_parse sid); [|auto]. by rewrite IH. }
  pose proof (emit_events_outer (dispatch_context ulid_string x) (ce_pluginName entry) (resp_Events resp)) as Hem.
  destruct (emit_events emit _ _ _) as [emitted emitErr]. simpl in Hem.
  assert (forall y base, headed outer first base ->
    headed outer first ((base ++ emitted) ++
      (if is_empty (resp_Output resp) || negb (output y) then [] else [EOutput (resp_Output resp)]))) as Hout.
  { intros y base Hb. apply headed_app; [by apply headed_app|]. by destruct (_ || _). }
  pose proof (headed_nil outer first) as Hf. pose proof (bump_activity_outer x) as Hba.
  assert (headed outer first ([first] ++ bump_activity ulid_string x)) as Hfb by by apply headed_app.
  destruct (resp_Status resp);
    try (destruct emitErr; [|destruct (resp_EndSession resp)]);
    (do 5 eexists; split; [reflexivity|]; split; [eauto using headed_app|simpl; by rewrite ?Hboot]).
Qed.

(** ** Audit *)

(** The fields of an audit event that the host controls, for a command of a
    plugin. *)
Definition host_fields (entry : CommandEntry) (x : CommandExecution) (invokedAs : string) (ev : PluginAuditEvent)
  : Prop :=
  pae_Source ev = SourcePlugin /\ pae_Component ev = ce_pluginName entry /\
  pae_Subject ev = "character:" +:+ ulid_string (characterID x) /\
  (pae_Action ev = ce_Name entry \/ exists q, pae_Action ev = ce_Name entry +:+ ":" +:+ q) /\
  pae_Attributes ev !! "command.invoked_as" = Some (AString invokedAs).

Lemma hint_event_fields entry x h ev :
  ce_pluginName entry <> EmptyString ->
  ev ∈ hint_event entry x ("character:" +:+ ulid_string (characterID x)) h ->
  host_fields entry x (exec_InvokedAs x) ev.
Proof.
  intros Hp Hin. unfold hint_event in Hin. apply is_empty_false in Hp. rewrite Hp in Hin.
  assert (exists eff, ev = mkPAE (ah_ID h) (ah_Name h) (ah_Message h) SourcePlugin (ce_pluginName entry)
            ("character:" +:+ ulid_string (characterID x))
            (if is_empty (ah_ActionQualifier h) then ce_Name entry
             else ce_Name entry +:+ ":" +:+ ah_ActionQualifier h)
            (ah_Resource h) eff
            (<["command.invoked_as" := AString (exec_InvokedAs x)]> (AString <$> ah_Attributes h))) as [eff ->].
  { destruct (String.eqb _ "allow"); [apply list_elem_of_singleton in Hin; eauto|].
    destruct (String.eqb _ "deny"); [apply list_elem_of_singleton in Hin; eauto|].
    by apply elem_of_nil in Hin. }
  unfold host_fields. simpl. split_and!; try done.
  - destruct (is_empty (ah_ActionQualifier h)); eauto.
  - apply lookup_insert_eq.
Qed.

Lemma extractAuditHints_fields entry x hs evs ev :
  ce_pluginName entry <> EmptyString -> extractAuditHints ulid_string entry x hs = Return evs -> ev ∈ evs ->
  host_fields entry x (exec_InvokedAs x) ev.
Proof.
  intros Hp H Hin. unfold extractAuditHints in H. destruct hs as [|h hs].
  { simp_res. by apply elem_of_nil in Hin. }
  apply obind_Return in H as (subject & Hs & H). apply character_subject in Hs as [-> _]. injection H as <-.
  apply list_elem_of_In, (proj1 (in_concat (map _ (h :: hs)) ev)) in Hin as (evs & Hin & Hev). apply in_map_iff in Hin as (h' & <- & _).
  apply list_elem_of_In in Hev.
  by apply (hint_event_fields _ _ h').
Qed.

(** What is put on the context during delivery is what the plugin's host pushed
    and the hints of the response. *)
Lemma dispatchToPlugin_events d entry x invokedAs err x' status effs evs ev :
  (forall dc plugin req, (deliver dc plugin req).2 = []) -> ce_pluginName entry <> EmptyString ->
  to_plugin d entry x invokedAs = Return (err, x', status, effs, evs) -> ev ∈ evs ->
  host_fields entry x (exec_InvokedAs x) ev.
Proof.
  intros Hpush Hp H Hin. unfold dispatchToPlugin in H. destruct (pluginDeliverer d); simpl in H.
  2:{ simp_res. by apply elem_of_nil in Hin. }
  specialize (Hpush (dispatch_context ulid_string x) (ce_pluginName entry) (plugin_request ulid_string entry x invokedAs)).
  destruct (deliver _ _ _) as [[[resp|]|e] pushed]; simpl in *; subst pushed.
  2,3: simp_res; by apply elem_of_nil in Hin.
  apply obind_Return in H as (hs & Hh & H). simpl in H. apply (extractAuditHints_fields _ _ _ _ _ Hp Hh).
  destruct (emit_events emit _ _ _) as [emitted [emitErr|]]; destruct (resp_Status resp);
    try (destruct (resp_EndSession resp)); by simp_res.
Qed.

Lemma stamp_host_fields entry x x' i ev subject :
  ce_Name entry <> EmptyString -> host_fields entry x i ev -> stamp x' subject ev = ev.
Proof.
  intros Hn (_ & _ & Hs & Ha & _). unfold stamp. rewrite Hs. simpl.
  assert (is_empty (pae_Action ev) = false) as ->.
  { apply is_empty_false. destruct Ha as [->|[q ->]]; [done|]. by destruct (ce_Name entry). }
  rewrite <- Hs. by destruct ev.
Qed.

Lemma authorized_character d ctx now input x st parsed invokedAs entry e3 :
  authorized d ctx now input x st parsed invokedAs entry e3 ->
  characterID x <> 0%N /\ services x = true /\ ulid_string (characterID x) <> EmptyString.
Proof.
  intros [Hp _ Ha]. simpl in Ha. destruct Ha as (e1 & rl & dec & e2 & Hr & _). split_and!.
  - unfold prepare in Hp. destruct (N.eqb_spec (characterID x) 0); [done|done].
  - unfold prepare in Hp. destruct (_ =? _)%N, (services x); done.
  - destruct (rateLimiter d); [|apply Hr]. unfold Enforce in Hr.
    apply obind_Return in Hr as (s & Hs & _). by apply character_subject in Hs as [_ ?].
Qed.

Lemma flush_runs d x evs logged :
  flushPluginAuditEvents ulid_string d x evs = Return logged -> existsb runs logged = false.
Proof.
  unfold flushPluginAuditEvents. destruct evs as [|ev evs]; [by intros; simp_res|].
  destruct (auditLogger d); [|by intros; simp_res].
  intros (s & _ & H)%obind_Return. simp_res. simpl. by induction evs.
Qed.

(** A command that can be executed: its handler is there, or its plugin can be
    reached. *)
Definition executable (d : Dispatcher) (entry : CommandEntry) : bool :=
  if is_empty (ce_pluginName entry) then is_some (ce_handler entry) else pluginDeliverer d.

Lemma execute_effects d entry parsed invokedAs x :
  executable d entry = true -> ulid_string (characterID x) <> EmptyString ->
  exists err x' status effs evs,
    execute ulid_string ulid_parse deliver emit d entry parsed invokedAs x = Return (err, x', status, effs, evs) /\
    headed outer (started entry x parsed invokedAs) effs /\ characterID x' = characterID x.
Proof.
  unfold executable, execute, started. intros Hx Hid. destruct (is_empty (ce_pluginName entry)); simpl in *.
  - destruct (ce_handler entry) as [h|]; [|done].
    destruct (h _) as [v [err|]]; do 5 eexists; (split; [reflexivity|split; [|done]]).
    + apply headed_nil.
    + eexists. split; [reflexivity|apply bump_activity_outer].
  - destruct (dispatchToPlugin_effects d entry (with_invocation (pc_Args parsed) invokedAs x) invokedAs)
      as (err & x' & status & effs & evs & H & Hs & Hc); [done|done|].
    rewrite H. simpl. do 5 eexists. split; [reflexivity|]. split; [exact Hs|done].
Qed.

Lemma execute_inert d entry parsed invokedAs x res :
  executable d entry = false ->
  execute ulid_string ulid_parse deliver emit d entry parsed invokedAs x = Return res ->
  exists err x' status, res = (err, x', status, [], []).
Proof.
  unfold executable, execute. intros Hx. destruct (is_empty (ce_pluginName entry)); simpl in *.
  - by destruct (ce_handler entry).
  - unfold dispatchToPlugin. rewrite Hx. simpl. intros [= <-]. eauto.
Qed.

Lemma Dispatch_started d ctx now input x st err x' effs st' :
  dispatch d ctx now input x st = Return (err, x', effs, st') -> effs <> [] ->
  exists parsed invokedAs entry,
    authorized d ctx now input x st parsed invokedAs entry (ds_engine st') /\
    executable d entry = true /\ started_once (started entry x parsed invokedAs) effs.
Proof.
  unfold Dispatch. intros (res & Ha & H)%obind_Return Hne. destruct res as [[e|[[entry parsed] invokedAs]] st1].
  { by simp_res. }
  apply authorize_sound in Ha as Hau. exists parsed, invokedAs, entry.
  destruct (authorized_character _ _ _ _ _ _ _ _ _ _ Hau) as (Hc & Hs & Hid).
  apply obind_Return in H as (res & He & H). destruct (executable d entry) eqn:Ex.
  - destruct (execute_effects d entry parsed invokedAs x Ex Hid) as (err1 & x1 & status & effs1 & evs & He' & Hst & _).
    rewrite He' in He. simp_res. apply obind_Return in H as (logged & Hl & H). simp_res. split_and!; auto.
    + by destruct status.
    + eauto using headed_app, headed_outer, flush_runs.
  - apply (execute_inert _ _ _ _ _ _ Ex) in He as (? & ? & ? & ->). simpl in H. by simp_res.
Qed.

(** Nothing runs unauthorised.  If a dispatch has any effect at all (a handler
    called, a command delivered to a plugin, an event, output, an audit entry),
    then before it: the context has a character and services, the input parsed
    and, after aliases and focus routing, names a registered command; the rate
    limiter, if any, let it pass; the engine allowed the character to execute
    that command, without error; and it granted each capability the command
    declares.  The command is started exactly once, as the first effect. *)
Theorem Dispatch_guarded d ctx now input x st err x' effs st' :
  dispatch d ctx now input x st = Return (err, x', effs, st') -> effs <> [] ->
  exists parsed invokedAs entry,
    characterID x <> 0%N /\ services x = true /\
    authorized d ctx now input x st parsed invokedAs entry (ds_engine st') /\
    started_once (started entry x parsed invokedAs) effs.
Proof.
  intros H Hne. destruct (Dispatch_started _ _ _ _ _ _ _ _ _ _ H Hne) as (p & i & entry & Hau & _ & Hs).
  exists p, i, entry. destruct (authorized_character _ _ _ _ _ _ _ _ _ _ Hau) as (? & ? & _). done.
Qed.

(** What is authorised runs.  When the checks pass and the command can be
    executed, dispatch does not panic and starts it, once and first, whatever
    the handler or the plugin answers. *)
Theorem Dispatch_complete d ctx now input x st parsed invokedAs entry e3 :
  authorized d ctx now input x st parsed invokedAs entry e3 -> executable d entry = true ->
  exists err x' effs st',
    dispatch d ctx now input x st = Return (err, x', effs, st') /\
    started_once (started entry x parsed invokedAs) effs.
Proof.
  intros Hau Hx. destruct (authorized_character _ _ _ _ _ _ _ _ _ _ Hau) as (_ & _ & Hid).
  destruct (authorize_complete _ _ _ _ _ _ _ _ _ _ Hau) as (st1 & Ha & _).
  destruct (execute_effects d entry parsed invokedAs x Hx Hid) as (err & x' & status & effs & evs & He & Hst & Hc).
  unfold Dispatch. rewrite Ha. simpl. rewrite He. simpl.
  assert (exists logged, flushPluginAuditEvents ulid_string d x' evs = Return logged) as [logged Hl].
  { unfold flushPluginAuditEvents. destruct evs; [eauto|]. destruct (auditLogger d); [|eauto].
    unfold CharacterSubject, prefixed. rewrite Hc. apply is_empty_false in Hid. rewrite Hid. simpl. eauto. }
  rewrite Hl. simpl. do 4 eexists. split; [reflexivity|]. eauto using headed_app, headed_outer, flush_runs.
Qed.

(** The identity a plugin sees.  A command delivered to a plugin carries the
    executing character as actor, in the request and in the context; an owning
    player is vouched for exactly when the execution context has one, and is
    that player; and the name the command was invoked by is the one recorded. *)
Theorem delivered_identity d ctx now input x st err x' effs st' plugin dc req :
  dispatch d ctx now input x st = Return (err, x', effs, st') -> EDeliver plugin dc req ∈ effs ->
  dc_actor dc = ulid_string (characterID x) /\ cr_CharacterID req = dc_actor dc /\
  dc_owner dc = (if decide (playerID x = 0%N) then None else Some (ulid_string (playerID x))) /\
  cr_ConnectionID req = (if decide (connectionID x = 0%N) then EmptyString else ulid_string (connectionID x)) /\
  exists parsed entry e3, authorized d ctx now input x st parsed (cr_InvokedAs req) entry e3 /\
    plugin = ce_pluginName entry /\ plugin <> EmptyString /\ cr_Command req = ce_Name entry /\
    cr_Args req = pc_Args parsed.
Proof.
  intros H Hin. assert (effs <> []) as Hne by (intros ->; by apply elem_of_nil in Hin).
  destruct (Dispatch_started _ _ _ _ _ _ _ _ _ _ H Hne) as (p & i & entry & Hau & _ & rest & -> & Hr).
  assert (EDeliver plugin dc req = started entry x p i) as Heq.
  { apply elem_of_cons in Hin as [?|Hin]; [done|].
    apply (proj1 (existsb_false _ _) Hr) in Hin. discriminate Hin. }
  unfold started in Heq. destruct (is_empty (ce_pluginName entry)) eqn:Ee; [discriminate Heq|].
  injection Heq as -> -> ->. simpl. apply is_empty_false in Ee.
  assert (forall n, (n =? 0)%N = bool_decide (n = 0%N)) as Hb.
  { intros n. destruct (N.eqb_spec n 0); [by rewrite bool_decide_eq_true_2|by rewrite bool_decide_eq_false_2]. }
  rewrite !Hb. split_and!; try done; try (by case_bool_decide; case_decide).
  exists p, entry, (ds_engine st'). done.
Qed.

(** Focus routing fails closed.  When the effective verb is one that focus may
    redirect and reading the connection's focus fails, dispatch ends with
    FOCUS_READ_FAILED before anything happens: no effect, no token taken, no
    engine call. *)
Theorem focus_read_failure_closed d ctx now input x st original parsed table read e :
  characterID x <> 0%N -> services x = true -> Parse input = Ok original ->
  Parse (Resolved (resolve_alias d input x)) = Ok parsed ->
  focusRedirects d = Some table -> focusReader d = Some read ->
  connectionID x <> 0%N -> Redirects table (pc_Name parsed) = true -> read (connectionID x) = Err e ->
  dispatch d ctx now input x st = Return (Some ErrFocusReadFailed, x, [], set_status StatusEngineFailure st).
Proof.
  intros Hc Hs Ho Hp Ht Hf Hconn Hr Hread. unfold Dispatch, authorize, prepare.
  apply N.eqb_neq in Hc, Hconn. rewrite Hc, Hs, Ho. simpl. rewrite Hp. simpl.
  unfold maybeRedirectForFocus. rewrite Ht, Hf, Hconn, Hr. simpl. by rewrite Hread.
Qed.

(** Plugins cannot forge audit entries.  When audit events reach the log only
    through the hints of plugin responses, every entry a dispatch logs is
    marked as a plugin's, under the plugin that owns the command; its subject
    is the executing character, its action the command's name, alone or with a
    qualifier after it, and its invoked-as attribute the name the command was
    invoked by, whatever the response contains. *)
Theorem audit_hints_unforgeable d ctx now input x st err x' effs st' ev :
  (forall dc plugin req, (deliver dc plugin req).2 = []) ->
  dispatch d ctx now input x st = Return (err, x', effs, st') -> EAudit ev ∈ effs ->
  (forall name entry, Get name (registry d) = Some entry -> ce_Name entry <> EmptyString) ->
  exists parsed invokedAs entry, authorized d ctx now input x st parsed invokedAs entry (ds_engine st') /\
    host_fields entry x invokedAs ev.
Proof.
  intros Hpush H Hin Hreg. unfold Dispatch in H. apply obind_Return in H as (res & Ha & H).
  destruct res as [[e|[[entry parsed] invokedAs]] st1]. { simp_res. by apply elem_of_nil in Hin. }
  apply authorize_sound in Ha as Hau. exists parsed, invokedAs, entry.
  destruct (authorized_character _ _ _ _ _ _ _ _ _ _ Hau) as (_ & _ & Hid).
  specialize (Hreg _ _ (au_registered _ _ _ _ _ _ _ _ _ _ Hau)).
  apply obind_Return in H as (res & He & H). destruct (executable d entry) eqn:Ex.
  2:{ apply (execute_inert _ _ _ _ _ _ Ex) in He as (? & ? & ? & ->). simpl in H. simp_res. by apply elem_of_nil in Hin. }
  destruct (execute_effects d entry parsed invokedAs x Ex Hid)
    as (err1 & x1 & status & effs1 & evs & He' & (rest & -> & Hst) & Hc).
  rewrite He' in He. simp_res. apply obind_Return in H as (logged & Hl & H). simp_res.
  split; [by destruct status|]. apply (elem_of_app (_ :: rest) logged) in Hin as [Hin|Hin].
  { apply elem_of_cons in Hin as [Hin|Hin]; [unfold started in Hin; by destruct (is_empty _)|].
    by apply (proj1 (existsb_false _ _) Hst) in Hin. }
  unfold flushPluginAuditEvents in Hl. destruct evs as [|ev0 evs]; [simp_res; by apply elem_of_nil in Hin|].
  destruct (auditLogger d); [|simp_res; by apply elem_of_nil in Hin].
  apply obind_Return in Hl as (subject & _ & Hl). injection Hl as <-.
  apply (list_elem_of_fmap (fun ev => EAudit (stamp x' subject ev)) (ev0 :: evs)) in Hin as (ev1 & [= ->] & Hin).
  assert (host_fields entry x invokedAs ev1) as Hh; [|by rewrite (stamp_host_fields _ _ _ _ _ _ Hreg Hh)].
  unfold execute in He'. destruct (is_empty (ce_pluginName entry)) eqn:Ep; simpl in He'.
  { destruct (ce_handler entry); [|done]. destruct (p _) as [v [?|]]; discriminate He'. }
  apply is_empty_false in Ep. apply obind_Return in He' as (res & Hp & He'). destruct res as [[[[? ?] ?] ?] ?].
  simp_res. by apply (dispatchToPlugin_events _ _ _ _ _ _ _ _ _ ev1 Hpush Ep Hp).
Qed.
End guarded.

(** ** The registry *)
Definition entry_ok (name : string) (entry : CommandEntry) : Prop :=
  ce_Name entry = name /\ name <> EmptyString /\ ValidateCommandName name = None /\
  (ce_handler entry <> None \/ ce_pluginName entry <> EmptyString).

Definition registry_ok (r : Registry) : Prop := forall name entry, Get name r = Some entry -> entry_ok name entry.

Inductive registry_op : Type := OpRegister (entry : CommandEntry) | OpUnregister (name : string).

Definition registry_step (r : Registry) (op : registry_op) : Registry :=
  match op with
  | OpRegister entry => (Register entry r).1
  | OpUnregister name => (Unregister name r).1
  end.

Lemma Register_ok entry r : registry_ok r -> registry_ok (Register entry r).1.
Proof.
  intros Hr. unfold Register. destruct (is_empty (ce_Name entry)) eqn:En; [done|].
  destruct (ValidateCommandName (ce_Name entry)) eqn:Ev; [done|].
  assert (ce_handler entry <> None \/ ce_pluginName entry <> EmptyString ->
          registry_ok (mkRegistry (<[ce_Name entry := entry]> (commands r)))) as Hins.
  { intros Hh name entry'. unfold Get. simpl. intros [[<- <-]|[_ H]]%lookup_insert_Some; [|by apply Hr].
    apply is_empty_false in En. done. }
  destruct (ce_handler entry) eqn:Eh, (is_empty (ce_pluginName entry)) eqn:Ep; try done; simpl; apply Hins.
  - by left.
  - by left.
  - right. by apply is_empty_false.
Qed.

Lemma Unregister_ok name r : registry_ok r -> registry_ok (Unregister name r).1.
Proof.
  intros Hr. unfold Unregister. destruct (commands r !! name); [|done]. intros n entry. unfold Get. simpl.
  intros [_ H]%lookup_delete_Some. by apply Hr.
Qed.

Lemma registry_reachable ops : registry_ok (fold_left registry_step ops NewRegistry).
Proof.
  assert (registry_ok NewRegistry) as H by by intros name entry.
  revert H. generalize NewRegistry as r. induction ops as [|[entry|name] ops IH]; intros r Hr; simpl; [done|..].
  - apply IH, Register_ok, Hr.
  - apply IH, Unregister_ok, Hr.
Qed.

Section total.
  Context {E : Type} {HE : AccessPolicyEngine E}.
  Variable ulid_string : ulid -> string.
  Variable ulid_parse : string -> option ulid.
  Variable error_code : error -> option string.
  Variable deliver : dispatch_ctx -> string -> CommandRequest ->
                     result (option CommandResponse) * list PluginAuditEvent.
  Variable emit : dispatch_ctx -> string -> string -> option error.
  Variable ctx : context.
  Variable inv : E -> Prop.
  Context {HT : EngineTotal E ctx inv}.

Lemma Enforce_total id sid now e rl :
  ulid_string id <> EmptyString -> inv e ->
  exists err e' rl', Enforce ulid_string ctx id sid now e rl = Return (err, e', rl') /\ inv e'.
Proof.
  intros Hid Hi. unfold Enforce, CharacterSubject, prefixed. apply is_empty_false in Hid. rewrite Hid. simpl.
  unfold hasBypass. destruct (NewAccessRequest _ _ _ _) as [req|err]; simpl.
  - destruct (Evaluate_returns req e Hi) as ([dec err] & e' & -> & Hi'). simpl.
    destruct (match err with Some x => _ | None => _ end) as [b err'].
    destruct (match err' with None => b | Some _ => false end); [eauto|].
    destruct (Allow now sid rl) as [[? ?] ?]. eauto.
  - destruct (Allow now sid rl) as [[? ?] ?]. eauto.
Qed.

Lemma preflight_total subject caps e :
  inv e -> exists err e', CheckCapabilityPreFlight ctx subject caps e = Return (err, e') /\ inv e'.
Proof.
  revert e. induction caps as [|c caps IH]; intros e Hi; simpl; [eauto|].
  destruct (CanPerformAction_returns subject (cap_Action c) (cap_Resource c) e Hi) as ([ok err] & e' & -> & Hi').
  simpl. destruct err; [eauto|]. destruct ok; eauto.
Qed.

Lemma authorize_total d now input x st :
  ulid_string (characterID x) <> EmptyString -> inv (ds_engine st) ->
  exists auth st', authorize ulid_string error_code d ctx now input x st = Return (auth, st') /\ inv (ds_engine st').
Proof.
  intros Hid Hi. unfold authorize. destruct (prepare d input x) as [[i [p|]]|]; [|eauto..].
  unfold CharacterSubject, prefixed. pose proof Hid as Hid'. apply is_empty_false in Hid'. rewrite Hid'. simpl.
  assert (exists err e' rl', (if rateLimiter d then Enforce ulid_string ctx (characterID x) (sessionID x) now (ds_engine st) (ds_limiter st)
          else Return (None, ds_engine st, ds_limiter st)) = Return (err, e', rl') /\ inv e') as (rateErr & e1 & rl & -> & Hi1).
  { destruct (rateLimiter d); [by apply Enforce_total|eauto]. }
  simpl. destruct rateErr; [eauto|]. destruct (Get _ _) as [entry|]; [|eauto].
  unfold CheckCommandExecution. rewrite (execute_request (ulid_string (characterID x))).
  destruct (Evaluate_returns (mkRequest ("character:" +:+ ulid_string (characterID x)) "execute" ("command:" +:+ pc_Name p) ∅) e1 Hi1)
    as ([dec err] & e2 & -> & Hi2). simpl. destruct (match err with Some _ => _ | None => _ end); [eauto|].
  destruct (preflight_total ("character:" +:+ ulid_string (characterID x)) (ce_capabilities entry) e2 Hi2) as (pre & e3 & Hp & Hi3).
  unfold SubjectCharacter. rewrite Hp. simpl. destruct pre; eauto.
Qed.

(** Dispatch never panics.  With a registry built by Register and Unregister,
    character ids that print to something, and an engine that does not panic,
    every input is answered: in particular no nil handler is ever called, and
    no empty subject reaches the engine. *)
Theorem Dispatch_no_panic d now input x st :
  registry_ok (registry d) -> ulid_string (characterID x) <> EmptyString -> inv (ds_engine st) ->
  exists res, Dispatch ulid_string ulid_parse error_code deliver emit d ctx now input x st = Return res.
Proof.
  intros Hr Hid Hi. unfold Dispatch.
  destruct (authorize_total d now input x st Hid Hi) as ([e|[[entry parsed] i]] & st1 & Ha & _); rewrite Ha; simpl; [eauto|].
  apply authorize_sound in Ha as [_ Hg _]. apply Hr in Hg as (_ & _ & _ & Hh).
  assert (exists err x' status effs evs,
    execute ulid_string ulid_parse deliver emit d entry parsed i x = Return (err, x', status, effs, evs) /\
    characterID x' = characterID x) as (err & x' & status & effs & evs & He & Hc).
  { destruct (executable d entry) eqn:Ex.
    - edestruct execute_effects as (err & x' & status & effs & evs & He & _ & Hc); [done|done|]. eauto 10.
    - unfold executable in Ex. unfold execute. destruct (is_empty (ce_pluginName entry)) eqn:Ep; simpl.
      + apply is_empty_spec in Ep. destruct (ce_handler entry); [done|]. destruct Hh; done.
      + unfold dispatchToPlugin. rewrite Ex. simpl. do 5 eexists. split; [reflexivity|done]. }
  rewrite He. simpl. unfold flushPluginAuditEvents. destruct evs; simpl; [eauto|].
  destruct (auditLogger d); simpl; [|eauto]. unfold CharacterSubject, prefixed. rewrite Hc.
  apply is_empty_false in Hid. rewrite Hid. simpl. eauto.
Qed.
End total.

(** ** With the engine of the code *)
Section stack.
  Variable glob_compile : string -> option Glob.
  Context {R : Type} {HR : AttributeResolution R} (good : R -> Prop) {HL : ResolutionLaws R good}.
  Variable sessions : context -> string -> result string.
  Variable ulid_string : ulid -> string.
  Variable ulid_parse : string -> option ulid.
  Variable error_code : error -> option string.
  Variable deliver : dispatch_ctx -> string -> CommandRequest ->
                     result (option CommandResponse) * list PluginAuditEvent.
  Variable emit : dispatch_ctx -> string -> string -> option error.

#[local] Instance stack_engine : AccessPolicyEngine (engine_state R) :=
  engine_policy_engine glob_compile sessions error_code.

Definition engine_good (e : engine_state R) : Prop := good (es_resolver e).

(** An engine call moves the resolver and appends audit events. *)
Definition same_engine (e e' : engine_state R) : Prop :=
  es_engine e' = es_engine e /\ es_snapshot e' = es_snapshot e.

Lemma ape_Evaluate_inv ctx req e dec err e' :
  ape_Evaluate ctx req e = Return ((dec, err), e') ->
  same_engine e e' /\ exists evs,
    Evaluate glob_compile sessions error_code (es_engine e) ctx req (es_snapshot e) (es_resolver e) =
      Return ((dec, err, evs), es_resolver e').
Proof.
  simpl. intros ([[[d er] evs] r'] & H & Heq)%obind_Return. simp_res. split; [done|]. simpl. eauto.
Qed.

(** The engine does not panic, provided a session never resolves to an empty
    character id. *)
Lemma Evaluate_total ctx req e snap r :
  (forall id, sessions ctx id <> Ok EmptyString) -> in_resolution ctx = false -> good r ->
  exists res r', Evaluate glob_compile sessions error_code e ctx req snap r = Return (res, r') /\ good r'.
Proof.
  intros Hses Hin Hg. unfold Evaluate. destruct (ctx_Err ctx); [eauto|].
  destruct (String.eqb _ "system").
  { destruct (IsSystemContext ctx); simpl; eauto. }
  destruct (degraded e); [eauto|]. destruct (validateRequest req); [eauto|].
  assert (exists s5, resolve_session sessions error_code ctx req = Return s5) as [s5 ->].
  { unfold resolve_session. destruct (HasPrefix _ _); [|eauto].
    destruct (sessions ctx _) as [c|] eqn:Es; [|eauto]. unfold CharacterSubject, prefixed.
    assert (is_empty c = false) as ->; [|simpl; eauto].
    apply is_empty_false. intros ->. by apply Hses in Es. }
  simpl. destruct s5 as [early|req']; [eauto|]. unfold evaluate_resolved.
  destruct (law_total ctx req' r Hin Hg) as ([[ob err] r'] & Hres & Hg'). rewrite Hres. simpl in *.
  destruct err; [eauto|]. destruct (has_reserved_key _); [eauto|].
  destruct (law_bags ctx req' r ob r' Hg Hres) as (b & -> & _). destruct snap; eauto.
Qed.

Lemma CanPerformAction_total ctx s a rt e snap r :
  in_resolution ctx = false -> good r ->
  exists res r', CanPerformAction glob_compile e ctx s a rt snap r = Return (res, r') /\ good r'.
Proof.
  intros Hin Hg. unfold CanPerformAction. destruct (ctx_Err ctx); [eauto|]. destruct (degraded e); [eauto|].
  destruct (bad_subject s); [eauto|].
  destruct (law_subject_total ctx s a r Hin Hg) as ([[ob err] r'] & Hres & Hg'). rewrite Hres. simpl in *.
  destruct err; [eauto|]. destruct snap as [ps|]; [|eauto].
  destruct (fold_left _ _ _) as [f p]. destruct f; [eauto|]. destruct p; eauto.
Qed.

Lemma stack_total ctx :
  (forall id, sessions ctx id <> Ok EmptyString) -> in_resolution ctx = false ->
  EngineTotal (engine_state R) ctx engine_good.
Proof.
  intros Hses Hin. split.
  - intros req e Hg. simpl.
    destruct (Evaluate_total ctx req (es_engine e) (es_snapshot e) (es_resolver e) Hses Hin Hg)
      as ([[d err] evs] & r' & -> & Hg'). simpl. eauto.
  - intros s a rt e Hg. simpl.
    destruct (CanPerformAction_total ctx s a rt (es_engine e) (es_snapshot e) (es_resolver e) Hin Hg)
      as ([ok err] & r' & -> & Hg'). simpl. eauto.
Qed.

(** A decision on a character subject that allows: the policies decided it. *)
Lemma character_allowed ctx id a rs e dec err e' :
  engine_good e ->
  ape_Evaluate ctx (mkRequest ("character:" +:+ id) a rs ∅) e = Return ((dec, err), e') -> IsAllowed dec = true ->
  let req := mkRequest ("character:" +:+ id) a rs ∅ in
  exists ps b, es_snapshot e = Ok ps /\ degraded (es_engine e) = false /\ err = None /\
    res_Resolve ctx req (es_resolver e) = Return ((Some b, None), es_resolver e') /\
    fires glob_compile EffectAllow req (overlay_action ∅ b) ps /\
    ~ fires glob_compile EffectDeny req (overlay_action ∅ b) ps.
Proof.
  intros Hg H Ha. apply ape_Evaluate_inv in H as (_ & evs & H).
  apply Evaluate_outcome in H as [[_ Ho]|(_ & He & Hv)].
  2:{ rewrite (valid_allowed _ Hv), He in Ha. done. }
  inversion Ho as [req' b ps d evs' r' Hsys Hdeg Hval Hsr Hres Hk Hsnap Hd|d ev r' Hs|d ev r' He Hv|d x evs' r' He Hv];
    subst; try (rewrite (valid_allowed _ Hv), He in Ha; done); [|done].
  destruct (proj1 (decide_policies_allowed _ _ _ _ _ _ _ Hd) Ha) as [Hf Hnf].
  assert (req' = mkRequest ("character:" +:+ id) a rs ∅) as -> by by inversion Hsr.
  exists ps, b. done.
Qed.

Lemma ape_Evaluate_good ctx req e res e' :
  (forall id, sessions ctx id <> Ok EmptyString) -> in_resolution ctx = false -> engine_good e ->
  ape_Evaluate ctx req e = Return (res, e') -> engine_good e' /\ same_engine e e'.
Proof.
  intros Hses Hin Hg H. destruct res as [dec err].
  destruct (proj1 (ape_Evaluate_inv _ _ _ _ _ _ H)) as [? ?]. split; [|done].
  destruct (stack_total ctx Hses Hin) as [Ht _]. destruct (Ht req e Hg) as (res & e1 & He & Hg1).
  rewrite He in H. by simp_res.
Qed.

Lemma Enforce_good ctx id sid now e rl err e' rl' :
  (forall i, sessions ctx i <> Ok EmptyString) -> in_resolution ctx = false -> engine_good e ->
  Enforce ulid_string ctx id sid now e rl = Return (err, e', rl') -> engine_good e' /\ same_engine e e'.
Proof.
  intros Hses Hin Hg (s & _ & H)%obind_Return. apply obind_Return in H as ([[b er] e1] & Hb & H).
  assert (engine_good e1 /\ same_engine e e1) as Hg1.
  { unfold hasBypass in Hb. destruct (NewAccessRequest _ _ _ _) as [req|]; [|by simp_res].
    apply obind_Return in Hb as ([[d err1] e2] & Hb & Heq). simp_res. by apply ape_Evaluate_good in Hb. }
  destruct (match er with None => b | Some _ => false end); [by simp_res|].
  destruct (Allow now sid rl) as [[? ?] ?]. by simp_res.
Qed.

(** C7: commands and policies, end to end.  With the engine of the code, over any
    resolver that satisfies its laws, any effect of a dispatch implies that the
    policy set holds a permit policy, whose target and conditions match the
    executing character, the action "execute" and the command actually run, on
    the attributes that this dispatch's question to the engine resolved, and no
    matching forbid policy; and that the engine was not in degraded mode.  The
    question is put once the rate limiter, if there is one, has let the command
    through, to the engine as the limiter left it; its answer was to allow, and the
    command's capabilities were checked and granted from there on. *)
Theorem Dispatch_needs_permit d ctx now input x st err x' effs st' :
  (forall id, sessions ctx id <> Ok EmptyString) -> in_resolution ctx = false -> engine_good (ds_engine st) ->
  Dispatch ulid_string ulid_parse error_code deliver emit d ctx now input x st = Return (err, x', effs, st') ->
  effs <> [] ->
  exists parsed invokedAs entry e1 rl dec e2 ps b,
    let subject := "character:" +:+ ulid_string (characterID x) in
    let req := mkRequest subject "execute" ("command:" +:+ pc_Name parsed) ∅ in
    Get (pc_Name parsed) (registry d) = Some entry /\ headed runs (started ulid_string entry x parsed invokedAs) effs /\
    (if rateLimiter d
     then Enforce ulid_string ctx (characterID x) (sessionID x) now (ds_engine st) (ds_limiter st) = Return (None, e1, rl)
     else e1 = ds_engine st) /\
    ape_Evaluate ctx req e1 = Return ((dec, None), e2) /\ IsAllowed dec = true /\
    granted ctx subject (ce_capabilities entry) e2 (ds_engine st') /\
    es_snapshot (ds_engine st) = Ok ps /\ degraded (es_engine (ds_engine st)) = false /\
    res_Resolve ctx req (es_resolver e1) = Return ((Some b, None), es_resolver e2) /\
    fires glob_compile EffectAllow req (overlay_action ∅ b) ps /\
    ~ fires glob_compile EffectDeny req (overlay_action ∅ b) ps.
Proof.
  intros Hses Hin Hg H Hne.
  destruct (Dispatch_started _ _ _ _ _ _ _ _ _ _ _ _ _ _ _ H Hne) as (p & i & entry & [_ Hget Hacc] & _ & Hs).
  simpl in Hacc. destruct Hacc as (e1 & rl & dec & e2 & Hr & He & Hd & Hgr).
  assert (engine_good e1 /\ same_engine (ds_engine st) e1) as [Hg1 [Heng Hsn]].
  { destruct (rateLimiter d); [by apply Enforce_good in Hr|]. destruct Hr as [_ ->]. done. }
  destruct (character_allowed _ _ _ _ _ _ _ _ Hg1 He Hd) as (ps & b & H1 & H2 & _ & H3 & H4 & H5).
  exists p, i, entry, e1, rl, dec, e2, ps, b. rewrite Hsn in H1. rewrite Heng in H2. cbv zeta.
  repeat (split; [assumption|]). split; [|by repeat split].
  destruct (rateLimiter d); [exact Hr|apply Hr].
Qed.

(** The rate-limit bypass exempts nobody.  The middleware asks the engine about
    the resource "admin.ratelimit.bypass", which has no type prefix and so is
    never resolved: for every character and every set of policies, Enforce
    charges the bucket and follows its answer. *)
Theorem rate_limit_bypass_never_granted ctx id sid now e rl err e' rl' :
  engine_good e ->
  Enforce ulid_string ctx id sid now e rl = Return (err, e', rl') ->
  exists cooldown, Allow now sid rl = ((bool_decide (err = None), cooldown), rl').
Proof.
  intros Hg (s & Hs & H)%obind_Return. apply character_subject in Hs as [-> _].
  apply obind_Return in H as ([[b er] e1] & Hb & H).
  assert (match er with None => b | Some _ => false end = false) as Hno.
  { unfold hasBypass in Hb.
    destruct (NewAccessRequest _ _ _ _) as [req|] eqn:Er; [|by simp_res].
    apply NewAccessRequest_spec in Er as (_ & _ & _ & _ & ->).
    apply obind_Return in Hb as ([[d err1] e2] & Hb & Heq). destruct err1; [by simp_res|].
    destruct (IsInfraFailure d); [by simp_res|]. simp_res. apply not_true_iff_false. intros Ha.
    destruct (character_allowed _ _ _ _ _ _ _ _ Hg Hb Ha) as (ps & bags & _ & _ & _ & Hres & _).
    by apply (law_resource_ref ctx _ (es_resolver e) _ _ _ Hg) in Hres. }
  rewrite Hno in H. destruct (Allow now sid rl) as [[allowed cooldown] rl1]. exists cooldown.
  destruct allowed; simp_res; done.
Qed.
End stack.

(** A registered command nobody can type.  Registration validates the trimmed
    name but stores the name as given: " look " is accepted, yet no input parses
    to a command of that name. *)
Theorem untrimmed_name_unreachable :
  exists entry r, Register entry NewRegistry = (r, None) /\ Get (ce_Name entry) r = Some entry /\
    forall input p, Parse input = Ok p -> pc_Name p <> ce_Name entry.
Proof.
  exists (mkEntry " look " None "core" [] "core").
  exists (mkRegistry {[ " look " := mkEntry " look " None "core" [] "core" ]}). split_and!.
  - reflexivity.
  - reflexivity.
  - intros input p H Hn. apply Parse_blank_free in H. rewrite Hn in H. vm_compute in H. discriminate H.
Qed.

Open Scope string_scope.
Open Scope list_scope.

Definition demo_ulid (id : ulid) : string := if (id =? 0)%N then "00" else if (id =? 1)%N then "01A" else "01X".
Definition demo_parse (_ : string) : option ulid := None.

(** The plugin answers with an event and an audit hint that names another
    command's alias. *)
Definition demo_hint : AuditHint :=
  mkHint "h1" "hint" "said" "allow" "quiet" "location:01L" {["command.invoked_as" := "forged"]}.
Definition demo_deliver (_ : dispatch_ctx) (_ : string) (_ : CommandRequest)
  : result (option CommandResponse) * list PluginAuditEvent :=
  (Ok (Some (mkResp CommandOK ["said"] "You say hi." [] false [demo_hint])), []).
Definition demo_emit (_ : dispatch_ctx) (_ _ : string) : option error := None.

Definition say_entry : CommandEntry := mkEntry "say" None "core-say" [mkCap "look" "location" EmptyString] "core-say".
Definition demo_registry : Registry := fold_left registry_step [OpRegister say_entry] NewRegistry.
Definition demo_table : FocusRedirectTable := {["say" := {["scene" := "scene"]}]}.
Definition demo_dispatcher (read : ulid -> result string) : Dispatcher :=
  mkDispatcher demo_registry None true true (Some read) (Some demo_table) true.

Definition no_focus (_ : ulid) : result string := Ok EmptyString.
Definition failing_focus (_ : ulid) : result string := Err (ErrNew "store unavailable").

Definition demo_exec : CommandExecution :=
  mkExec 1 2 "Ada" 3 4 5 true true (mkVars EmptyString EmptyString [] false false).

Definition demo_engine (ps : list CachedPolicy) : engine_state (Resolver * Z) :=
  mkES (mkEngine false) (demo_resolver true false, 0%Z) (Ok ps) [].
Definition demo_state (ps : list CachedPolicy) : dstate := mkDS (demo_engine ps) default_limiter EmptyString.

#[local] Instance demo_policy_engine : AccessPolicyEngine (engine_state (Resolver * Z)) :=
  stack_engine demo_glob demo_sessions demo_code.

Definition demo_dispatch (read : ulid -> result string) (ps : list CachedPolicy) (input : string) :=
  Dispatch demo_ulid demo_parse demo_code demo_deliver demo_emit (demo_dispatcher read) demo_ctx 0 input demo_exec
           (demo_state ps).

(** The effects of the demo dispatch: delivery, activity, the event, the output
    and the audit entry. *)
Definition said (res : option error * CommandExecution * list effect * dstate (E := engine_state (Resolver * Z))) : bool :=
  match res with
  | (None, _, [EDeliver p dc req; EActivity _; EEmit _ _; EOutput _; EAudit ev], _) =>
    String.eqb p "core-say" && String.eqb (cr_Args req) "hi"
  | _ => false
  end.

Lemma demo_said :
  exists x' p dc req s q t o ev st',
    demo_dispatch no_focus [permit_all] "say hi" =
      Return (None, x', [EDeliver p dc req; EActivity s; EEmit q t; EOutput o; EAudit ev], st').
Proof.
  destruct (outcome_check_true (demo_dispatch no_focus [permit_all] "say hi") said)
    as ([[[err x'] effs] st'] & E & H); [vm_compute; reflexivity|].
  unfold said in H. repeat (case_match; try discriminate H). subst. do 10 eexists. exact E.
Qed.

Lemma Dispatch_guarded_witness :
  exists parsed invokedAs entry e3,
    authorized demo_ulid (demo_dispatcher no_focus) demo_ctx 0 "say hi" demo_exec (demo_state [permit_all])
      parsed invokedAs entry e3.
Proof.
  destruct demo_said as (x' & p & dc & req & s & q & t & o & ev & st' & E).
  destruct (Dispatch_guarded demo_ulid demo_parse demo_code demo_deliver demo_emit (demo_dispatcher no_focus)
              demo_ctx 0 "say hi" demo_exec (demo_state [permit_all]) _ _ _ _ E)
    as (parsed & invokedAs & entry & _ & _ & H & _); [discriminate|].
  exists parsed, invokedAs, entry, (ds_engine st'). exact H.
Defined.

Lemma demo_authorized :
  exists parsed invokedAs e3,
    authorized demo_ulid (demo_dispatcher no_focus) demo_ctx 0 "say hi" demo_exec (demo_state [permit_all])
      parsed invokedAs say_entry e3.
Proof.
  destruct demo_said as (x' & p & dc & req & s & q & t & o & ev & st' & E).
  destruct (Dispatch_started demo_ulid demo_parse demo_code demo_deliver demo_emit (demo_dispatcher no_focus)
              demo_ctx 0 "say hi" demo_exec (demo_state [permit_all]) _ _ _ _ E)
    as (parsed & invokedAs & entry & H & _); [discriminate|].
  exists parsed, invokedAs, (ds_engine st'). destruct H as [Hp Hg Ha].
  assert (entry = say_entry) as ->; [|by constructor].
  assert (is_ok (prepare (demo_dispatcher no_focus) "say hi" demo_exec) = true) as _ by (vm_compute; reflexivity).
  assert (exists q, prepare (demo_dispatcher no_focus) "say hi" demo_exec = Ok ("say", Some (mkParsed "say" "hi" q)))
    as [q' Hq] by (eexists; vm_compute; reflexivity).
  rewrite Hq in Hp. injection Hp as <- <-. simpl in Hg.
  assert (Get "say" demo_registry = Some say_entry) as Hs by (vm_compute; reflexivity). congruence.
Qed.

Lemma Dispatch_complete_witness :
  exists err x' effs st', demo_dispatch no_focus [permit_all] "say hi" = Return (err, x', effs, st') /\ effs <> [].
Proof.
  destruct demo_authorized as (parsed & invokedAs & e3 & H).
  destruct (Dispatch_complete demo_ulid demo_parse demo_code demo_deliver demo_emit (demo_dispatcher no_focus)
              demo_ctx 0 "say hi" demo_exec (demo_state [permit_all]) _ _ _ _ H) as (err & x' & effs & st' & E & Hs).
  - reflexivity.
  - exists err, x', effs, st'. split; [exact E|]. destruct Hs as (rest & -> & _). discriminate.
Defined.

Lemma delivered_identity_witness :
  exists dc req, dc_actor dc = "01A" /\ dc_owner dc = Some "01X" /\ cr_CharacterID req = "01A".
Proof.
  destruct demo_said as (x' & p & dc & req & s & q & t & o & ev & st' & E).
  destruct (delivered_identity demo_ulid demo_parse demo_code demo_deliver demo_emit (demo_dispatcher no_focus)
              demo_ctx 0 "say hi" demo_exec (demo_state [permit_all]) _ _ _ _ p dc req E) as (H1 & H2 & H3 & _).
  - apply elem_of_cons. left. reflexivity.
  - exists dc, req. rewrite H2, H1, H3. split; [reflexivity|]. split; reflexivity.
Defined.

Lemma focus_read_failure_closed_witness :
  demo_dispatch failing_focus [permit_all] "say hi" =
  Return (Some ErrFocusReadFailed, demo_exec, [], set_status StatusEngineFailure (demo_state [permit_all])).
Proof.
  apply (focus_read_failure_closed demo_ulid demo_parse demo_code demo_deliver demo_emit
           (demo_dispatcher failing_focus) demo_ctx 0 "say hi" demo_exec (demo_state [permit_all])
           (mkParsed "say" "hi" "say hi") (mkParsed "say" "hi" "say hi") demo_table failing_focus
           (ErrNew "store unavailable")).
  all: try reflexivity; discriminate.
Defined.

Lemma audit_hints_unforgeable_witness :
  exists ev, pae_Subject ev = "character:01A" /\ pae_Source ev = "plugin".
Proof.
  destruct demo_said as (x' & p & dc & req & s & q & t & o & ev & st' & E).
  destruct (audit_hints_unforgeable demo_ulid demo_parse demo_code demo_deliver demo_emit (demo_dispatcher no_focus)
              demo_ctx 0 "say hi" demo_exec (demo_state [permit_all]) None x'
              [EDeliver p dc req; EActivity s; EEmit q t; EOutput o; EAudit ev] st' ev) as (parsed & i & entry & _ & H).
  - reflexivity.
  - exact E.
  - rewrite !elem_of_cons. right. right. right. right. left. reflexivity.
  - intros name entry Hg. apply (registry_reachable [OpRegister say_entry]) in Hg as (-> & Hne & _). exact Hne.
  - exists ev. destruct H as (H1 & _ & H2 & _). split; [exact H2|exact H1].
Defined.

Lemma demo_sessions_nonempty ctx id : demo_sessions ctx id <> Ok EmptyString.
Proof. discriminate. Qed.

Lemma demo_engine_good ps : engine_good wf_state (demo_engine ps).
Proof. apply demo_resolver_wf. Qed.

Lemma Dispatch_no_panic_witness : exists res, demo_dispatch no_focus [permit_all] "dance" = Return res.
Proof.
  apply (Dispatch_no_panic demo_ulid demo_parse demo_code demo_deliver demo_emit demo_ctx (engine_good wf_state)
           (HT := stack_total demo_glob wf_state demo_sessions demo_code demo_ctx
                    (demo_sessions_nonempty demo_ctx) eq_refl)).
  - apply (registry_reachable [OpRegister say_entry]).
  - discriminate.
  - apply demo_engine_good.
Defined.

Lemma Dispatch_needs_permit_witness :
  exists req bags, fires demo_glob EffectAllow req bags [permit_all] /\
    ~ fires demo_glob EffectDeny req bags [permit_all].
Proof.
  destruct demo_said as (x' & p & dc & req & s & q & t & o & ev & st' & E).
  destruct (Dispatch_needs_permit demo_glob wf_state demo_sessions demo_ulid demo_parse demo_code demo_deliver demo_emit
              (demo_dispatcher no_focus) demo_ctx 0 "say hi" demo_exec (demo_state [permit_all]) _ _ _ _
              (demo_sessions_nonempty demo_ctx) eq_refl (demo_engine_good _) E)
    as (parsed & i & entry & e1 & rl & dec & e2 & ps & b & _ & _ & _ & _ & _ & _ & Hps & _ & _ & H1 & H2); [discriminate|].
  injection Hps as <-. eexists. eexists. split; [exact H1|exact H2].
Defined.

Lemma rate_limit_bypass_never_granted_witness :
  exists err rl' cooldown, Allow 0 4 default_limiter = ((bool_decide (err = @None error), cooldown), rl').
Proof.
  destruct (outcome_check_true (Enforce demo_ulid demo_ctx 1 4 0 (demo_engine [permit_all]) default_limiter) (fun _ => true))
    as ([[err e'] rl'] & E & _); [vm_compute; reflexivity|].
  exists err, rl'. exact (rate_limit_bypass_never_granted demo_glob wf_state demo_sessions demo_ulid demo_code
    demo_ctx 1 4 0 (demo_engine [permit_all]) default_limiter err e' rl' (demo_engine_good _) E).
Defined.
