(* ===== verification/TopoSort.v ===== *)
(** Kahn's algorithm, as [internal/plugin/dependency.go] and
    [internal/lifecycle/orchestrator.go] both write it: a queue of nodes whose
    prerequisites are all placed, and a map of the in-degrees left.  The two
    differ in how the nodes a step makes ready are put in order before they are
    queued ([arrange]).

    [drain] takes fuel; one unit per node is enough ([drain_total]). *)

From S2P Require Import Prelude.

Open Scope list_scope.

Section degrees.
  Context {K : Type} `{Countable K}.

Definition degree (deg : gmap K Z) (c : K) : Z := default 0%Z (deg !! c).

Lemma degree_insert deg x v c : degree (<[x := v]> deg) c = if decide (x = c) then v else degree deg c.
Proof. unfold degree. rewrite lookup_insert. by case_decide. Qed.

(** The graph is built edge by edge, from prerequisite to consumer: the consumer
    is added to the prerequisite's list, and its in-degree goes up. *)
Definition addEdge (g : gmap K (list K) * gmap K Z) (e : K * K) : gmap K (list K) * gmap K Z :=
  let '(graph, inDegree) := g in
  let '(prereq, consumer) := e in
  (<[prereq := default [] (graph !! prereq) ++ [consumer]]> graph,
   <[consumer := (degree inDegree consumer + 1)%Z]> inDegree).

Definition dependents_of (graph : gmap K (list K)) (name : K) : list K := default [] (graph !! name).

(** The inner loop: the in-degree of each consumer goes down by one; those that
    reach zero are ready, in that order. *)
Fixpoint relax (cs : list K) (deg : gmap K Z) : list K * gmap K Z :=
  match cs with
  | [] => ([], deg)
  | c :: cs' =>
    let n := (degree deg c - 1)%Z in
    let '(ready, deg') := relax cs' (<[c := n]> deg) in
    (if (n =? 0)%Z then c :: ready else ready, deg')
  end.

(** ** Counting *)
Definition cnt (c : K) (l : list K) : nat := length (filter (fun x => x = c) l).

Lemma cnt_cons c x l : cnt c (x :: l) = (if decide (x = c) then S (cnt c l) else cnt c l).
Proof. unfold cnt. rewrite filter_cons. by case_decide. Qed.

Lemma cnt_app c l1 l2 : cnt c (l1 ++ l2) = cnt c l1 + cnt c l2.
Proof. unfold cnt. by rewrite filter_app, length_app. Qed.

Lemma cnt_pos c l : 0 < cnt c l <-> c ∈ l.
Proof.
  induction l as [|x l IH]; [unfold cnt; simpl; split; [lia|by intros ?%elem_of_nil]|].
  rewrite cnt_cons, elem_of_cons. case_decide; subst; [split; [auto|lia]|].
  rewrite IH. split; [auto|by intros [->|?]].
Qed.

Lemma cnt_zero c l : cnt c l = 0 <-> c ∉ l.
Proof. rewrite <- cnt_pos. lia. Qed.

Lemma cnt_Permutation c l1 l2 : l1 ≡ₚ l2 -> cnt c l1 = cnt c l2.
Proof. intros HP. unfold cnt. by rewrite HP. Qed.

(** ** The graph *)
Lemma addEdge_dependents es graph deg a :
  dependents_of ((fold_left addEdge es (graph, deg)).1) a =
  dependents_of graph a ++ (filter (fun e => e.1 = a) es).*2.
Proof.
  revert graph deg. induction es as [|[x y] es IH]; intros graph deg; simpl; [by rewrite app_nil_r|].
  rewrite IH, filter_cons. unfold dependents_of at 1. rewrite lookup_insert. simpl.
  destruct (decide (x = a)) as [->|]; simpl; [|done]. unfold dependents_of. by rewrite <- app_assoc.
Qed.

Lemma addEdge_degree es graph deg c :
  degree ((fold_left addEdge es (graph, deg)).2) c = (degree deg c + Z.of_nat (cnt c (es.*2)))%Z.
Proof.
  revert graph deg. induction es as [|[x y] es IH]; intros graph deg.
  { unfold cnt. simpl. lia. }
  rewrite fmap_cons, cnt_cons. cbn [fold_left addEdge]. rewrite IH, degree_insert. simpl.
  destruct (decide (y = c)); subst; lia.
Qed.

(** Every edge is counted at its source. *)
Lemma cnt_by_source (nodes : list K) (es : list (K * K)) c :
  NoDup nodes -> (forall e, e ∈ es -> e.1 ∈ nodes) ->
  cnt c (nodes ≫= fun a => (filter (fun e => e.1 = a) es).*2) = cnt c (es.*2).
Proof.
  intros Hnd. induction es as [|[x y] es IH]; intros Hin.
  { induction nodes as [|n nodes IHn]; [done|]. rewrite bind_cons, cnt_app.
    inversion Hnd; subst. rewrite IHn; [done|done|]. by intros e ?%elem_of_nil. }
  assert (forall l, cnt c (l ≫= fun a => (filter (fun e => e.1 = a) ((x, y) :: es)).*2) =
                    cnt c (l ≫= fun a => (filter (fun e => e.1 = a) es).*2) + (if decide (y = c) then cnt x l else 0)) as Hl.
  { induction l as [|n l IHl]; [by case_decide|]. rewrite !bind_cons, !cnt_app, IHl, filter_cons, cnt_cons. cbn [fst].
    destruct (decide (x = n)) as [->|Hne].
    - rewrite fmap_cons, cnt_cons, (decide_True (P := n = n)) by done. cbn [snd]. destruct (decide (y = c)); lia.
    - rewrite (decide_False (P := n = x)) by congruence. destruct (decide (y = c)); lia. }
  rewrite Hl, IH by (intros e He; apply Hin; set_solver). rewrite fmap_cons, cnt_cons. cbn [snd].
  assert (cnt x nodes = 1) as Hx.
  { assert (x ∈ nodes) as Hxn by (apply (Hin (x, y)); set_solver). apply list_elem_of_split in Hxn as (l1 & l2 & ->).
    apply NoDup_app in Hnd as (_ & Hd & H2). apply NoDup_cons in H2 as [H2 _].
    rewrite cnt_app, cnt_cons, decide_True by done. apply cnt_zero in H2.
    assert (cnt x l1 = 0) as H1; [|lia]. apply cnt_zero. intros Hx1. apply (Hd x); set_solver. }
  destruct (decide (y = c)); lia.
Qed.

(** ** The inner loop *)
Lemma relax_spec cs deg ready deg' :
  relax cs deg = (ready, deg') -> (forall c, Z.of_nat (cnt c cs) <= degree deg c)%Z ->
  (forall c, degree deg' c = degree deg c - Z.of_nat (cnt c cs))%Z /\
  NoDup ready /\
  (forall c, c ∈ ready <-> 0 < cnt c cs /\ degree deg c = Z.of_nat (cnt c cs)).
Proof.
  revert deg ready deg'. induction cs as [|x cs IH]; simpl; intros deg ready deg' Hr Hle.
  { injection Hr as <- <-. split_and!; [intros c; unfold cnt; simpl; lia|constructor|].
    intros c. unfold cnt. simpl. split; [by intros ?%elem_of_nil|lia]. }
  destruct (relax cs (<[x := degree deg x - 1]> deg))%Z as [ready1 deg1] eqn:E1. injection Hr as Hr <-.
  assert (forall c, degree (<[x := degree deg x - 1]> deg) c =
                    if decide (x = c) then degree deg c - 1 else degree deg c)%Z as Hd.
  { intros c. rewrite degree_insert. by case_decide; subst. }
  destruct (IH _ _ _ E1) as (H1 & H2 & H3).
  { intros c. rewrite Hd. specialize (Hle c). rewrite cnt_cons in Hle. case_decide; lia. }
  assert (x ∈ ready1 <-> 0 < cnt x cs /\ (degree deg x - 1 = Z.of_nat (cnt x cs))%Z) as Hx.
  { rewrite H3, Hd. by rewrite decide_True. }
  pose proof (Hle x) as Hlex. rewrite cnt_cons, decide_True in Hlex by done. split_and!.
  - intros c. rewrite H1, Hd, cnt_cons. case_decide; lia.
  - subst ready. destruct (Z.eqb_spec (degree deg x - 1) 0); [|done]. constructor; [|done].
    rewrite Hx. lia.
  - intros c. rewrite cnt_cons. subst ready. destruct (Z.eqb_spec (degree deg x - 1) 0).
    + rewrite elem_of_cons. destruct (decide (x = c)) as [->|Hne].
      * split; [lia|auto].
      * rewrite H3, Hd, decide_False by done. split; [intros [->|?]; [done|done]|auto].
    + destruct (decide (x = c)) as [->|Hne].
      * rewrite Hx. lia.
      * by rewrite H3, Hd, decide_False.
Qed.
Lemma relax_Permutation (cs1 cs2 : list K) deg1 deg2 ready1 deg1' ready2 deg2' :
  cs1 ≡ₚ cs2 -> (forall c, degree deg1 c = degree deg2 c) ->
  (forall c, Z.of_nat (cnt c cs1) <= degree deg1 c)%Z ->
  relax cs1 deg1 = (ready1, deg1') -> relax cs2 deg2 = (ready2, deg2') ->
  ready1 ≡ₚ ready2 /\ (forall c, degree deg1' c = degree deg2' c).
Proof.
  intros HP Hdeg Hle H1 H2. pose proof (fun c => cnt_Permutation c _ _ HP) as Hc.
  destruct (relax_spec _ _ _ _ H1 Hle) as (D1 & N1 & R1).
  destruct (relax_spec _ _ _ _ H2) as (D2 & N2 & R2). { intros c. rewrite <- Hdeg, <- Hc. auto. }
  split.
  - apply NoDup_Permutation; [done|done|]. intros c. by rewrite R1, R2, Hdeg, Hc.
  - intros c. by rewrite D1, D2, Hdeg, Hc.
Qed.

End degrees.

(** ** The queue loop *)
Section kahn.
  Context {K : Type} `{Countable K}.
  (** The consumers of a node, with repetitions, and how nodes that become ready
      together are put in order. *)
  Variable dependents : K -> list K.
  Variable arrange : list K -> list K.

(** The queue loop. *)
Fixpoint drain (fuel : nat) (queue : list K) (deg : gmap K Z) (order : list K)
  : option (list K * gmap K Z) :=
  match queue with
  | [] => Some (order, deg)
  | cur :: queue' =>
    match fuel with
    | 0 => None
    | S fuel' =>
      let '(ready, deg') := relax (dependents cur) deg in
      drain fuel' (queue' ++ arrange ready) deg' (order ++ [cur])
    end
  end.

Lemma bind_Permutation (l1 l2 : list K) : l1 ≡ₚ l2 -> l1 ≫= dependents ≡ₚ l2 ≫= dependents.
Proof. intros HP. by rewrite HP. Qed.

  Variable nodes : list K.
  Hypothesis nodes_NoDup : NoDup nodes.
  Hypothesis dependents_nodes : forall a b, b ∈ dependents a -> b ∈ nodes.
  Hypothesis arrange_Permutation : forall l, arrange l ≡ₚ l.

(** [a] has to come before [b]. *)
Definition edge (a b : K) : Prop := a ∈ nodes /\ b ∈ dependents a.

(** Every prerequisite of a node of the list is earlier in it. *)
Definition topological (order : list K) : Prop :=
  forall l1 b l2, order = l1 ++ b :: l2 -> forall a, edge a b -> a ∈ l1.

(** The state of the loop; [rest] are the nodes not yet placed. *)
Record loop_state (order queue rest : list K) (deg : gmap K Z) : Prop := {
  ls_rest : order ++ rest ≡ₚ nodes;
  ls_degree : forall c, degree deg c = Z.of_nat (cnt c (rest ≫= dependents));
  ls_NoDup : NoDup (order ++ queue);
  ls_nodes : forall c, c ∈ order ++ queue -> c ∈ nodes;
  ls_ready : forall c, c ∈ nodes -> (c ∈ order ++ queue <-> degree deg c = 0%Z);
  ls_topological : topological order
}.

Lemma topological_snoc order cur :
  topological order -> (forall a, edge a cur -> a ∈ order) -> topological (order ++ [cur]).
Proof.
  intros Ht Hc l1 b l2 Heq a He. destruct l2 as [|x l2 _] using rev_ind.
  - apply app_inj_tail in Heq as [-> ->]. auto.
  - rewrite app_comm_cons, app_assoc in Heq. apply app_inj_tail in Heq as [-> _]. by apply (Ht l1 b l2).
Qed.

Lemma loop_step order cur queue rest deg ready deg' :
  loop_state order (cur :: queue) rest deg -> relax (dependents cur) deg = (ready, deg') ->
  exists rest', rest ≡ₚ cur :: rest' /\ loop_state (order ++ [cur]) (queue ++ arrange ready) rest' deg'.
Proof.
  intros [Hrest Hdeg Hnd Hin Hz Ht] Hrel.
  assert (cur ∈ nodes) as Hcn by (apply Hin; set_solver).
  assert (cur ∉ order) as Hco by (apply NoDup_app in Hnd as (_ & Hd & _); intros ?; apply (Hd cur); set_solver).
  assert (cur ∈ rest) as Hcr.
  { rewrite <- Hrest in Hcn. apply elem_of_app in Hcn as [?|?]; done. }
  apply elem_of_Permutation in Hcr as (rest' & Hp). exists rest'. split; [done|].
  assert (forall c, cnt c (rest ≫= dependents) = cnt c (dependents cur) + cnt c (rest' ≫= dependents)) as Hc.
  { intros c. rewrite (cnt_Permutation _ _ _ (bind_Permutation _ _ Hp)), bind_cons. apply cnt_app. }
  destruct (relax_spec _ _ _ _ Hrel) as (H1 & H2 & H3). { intros c. rewrite Hdeg, Hc. lia. }
  assert (forall c, degree deg' c = Z.of_nat (cnt c (rest' ≫= dependents))) as Hdeg'.
  { intros c. rewrite H1, Hdeg, Hc. lia. }
  assert (forall c, c ∈ (order ++ [cur]) ++ queue ++ arrange ready <-> c ∈ order ++ cur :: queue \/ c ∈ ready) as Hmem.
  { intros c. rewrite !elem_of_app, !elem_of_cons, elem_of_nil, (arrange_Permutation ready). tauto. }
  assert (forall c, c ∈ ready -> c ∈ nodes /\ (degree deg c > 0)%Z) as Hrdy.
  { intros c [Hp0 Hd]%H3. split; [by apply (dependents_nodes cur), cnt_pos|lia]. }
  constructor; auto.
  - rewrite <- Hrest, Hp, <- app_assoc. done.
  - rewrite (arrange_Permutation ready), <- app_assoc. change ([cur] ++ queue ++ ready) with ((cur :: queue) ++ ready).
    rewrite app_assoc. apply NoDup_app. split_and!; [done| |done].
    intros c Hc1 Hc2. destruct (Hrdy c Hc2) as [Hn Hgt]. apply Hz in Hc1; [lia|done].
  - intros c Hmc. apply Hmem in Hmc as [?|?]; [auto|]. by apply Hrdy.
  - intros c Hn. rewrite Hmem, (Hz c Hn), H3, Hdeg', Hdeg, Hc. lia.
  - apply topological_snoc; [done|]. intros a [Ha Hb].
    assert (degree deg cur = 0%Z) as H0 by (apply Hz; set_solver).
    rewrite <- Hrest in Ha. apply elem_of_app in Ha as [?|Ha]; [done|]. exfalso.
    rewrite Hdeg in H0. assert (cur ∉ rest ≫= dependents) as Hno by (apply cnt_zero; lia).
    apply Hno, list_elem_of_bind. eauto.
Qed.

Lemma drain_total fuel order queue rest deg :
  loop_state order queue rest deg -> length rest <= fuel ->
  exists order' rest' deg', drain fuel queue deg order = Some (order', deg') /\ loop_state order' [] rest' deg'.
Proof.
  revert order queue rest deg. induction fuel as [|fuel IH]; intros order queue rest deg Hs Hf;
    destruct queue as [|cur queue]; simpl; eauto.
  - destruct (relax (dependents cur) deg) as [ready deg'] eqn:E.
    destruct (loop_step _ _ _ _ _ _ _ Hs E) as (rest' & Hp & _). apply Permutation_length in Hp. simpl in Hp. lia.
  - destruct (relax (dependents cur) deg) as [ready deg'] eqn:E.
    destruct (loop_step _ _ _ _ _ _ _ Hs E) as (rest' & Hp & Hs').
    apply (IH _ _ rest'); [done|]. apply Permutation_length in Hp. simpl in Hp. lia.
Qed.

(** ** The result *)
Definition acyclic : Prop := forall a, ~ tc edge a a.

(** A full order is a linearisation of the graph, which is then acyclic. *)
Lemma topological_tc order a b l1 l2 :
  topological order -> order = l1 ++ b :: l2 -> tc edge a b -> a ∈ l1.
Proof.
  intros Ht Heq Htc. revert l1 l2 Heq. induction Htc as [a b He|a x b He Htc IH]; intros l1 l2 Heq.
  - by apply (Ht l1 b l2).
  - assert (x ∈ l1) as Hx by eauto. apply list_elem_of_split in Hx as (k1 & k2 & ->).
    rewrite <- app_assoc in Heq. apply (Ht k1 x (k2 ++ b :: l2)) in He; [|exact Heq]. set_solver.
Qed.

Lemma topological_acyclic order : NoDup order -> nodes ⊆ order -> topological order -> acyclic.
Proof.
  intros Hnd Hin Ht a Htc. assert (a ∈ order) as Ha.
  { apply Hin. inversion Htc as [? ? He|? ? ? He]; subst; apply He. }
  apply list_elem_of_split in Ha as (l1 & l2 & Heq).
  apply (topological_tc order a a l1 l2) in Htc; [|done|done].
  rewrite Heq in Hnd. apply NoDup_app in Hnd as (_ & Hd & _). apply (Hd a); set_solver.
Qed.

(** When the queue is empty, each node left has a prerequisite that is left: an
    acyclic graph leaves none. *)
Lemma loop_end_acyclic order rest deg : loop_state order [] rest deg -> acyclic -> rest = [].
Proof.
  intros [Hrest Hdeg Hnd Hin Hz Ht] Hac.
  assert (forall c, c ∈ rest -> exists a, a ∈ rest /\ edge a c) as Hpred.
  { intros c Hc. assert (c ∈ nodes) as Hn by (rewrite <- Hrest; set_solver).
    assert (c ∉ order) as Hno.
    { intros Ho. rewrite <- Hrest in nodes_NoDup. apply NoDup_app in nodes_NoDup as (_ & Hd & _). by apply (Hd c). }
    assert (degree deg c <> 0%Z) as Hd0. { intros H0. apply Hz in H0; [|done]. rewrite app_nil_r in H0. done. }
    rewrite Hdeg in Hd0. assert (c ∈ rest ≫= dependents) as Hb by (apply cnt_pos; lia).
    apply list_elem_of_bind in Hb as (a & Hca & Ha). exists a. split; [done|]. split; [|done].
    rewrite <- Hrest. set_solver. }
  assert (forall x, x ∈ rest -> sn (flip edge) x) as Hsn.
  { intros x _. apply tc_finite_sn.
    - assert (forall a b, tc (flip edge) a b -> tc edge b a) as Hflip.
      { induction 1 as [a b Hab|a b c Hab _ IH]; [by apply tc_once|]. eapply tc_r; [exact IH|exact Hab]. }
      intros y Hy. by apply (Hac y), Hflip.
    - exists nodes. intros y Hy. induction Hy as [a b Hab|a b c _ _ IH]; [apply Hab|exact IH]. }
  assert (forall x, x ∈ rest -> False) as Hnone.
  { intros x Hx. specialize (Hsn x Hx). revert Hx. induction Hsn as [y _ IH]. intros Hy.
    destruct (Hpred y Hy) as (a & Ha & He). exact (IH a He Ha). }
  destruct rest as [|x rest]; [done|]. destruct (Hnone x); set_solver.
Qed.

Lemma loop_start queue deg :
  (forall c, degree deg c = Z.of_nat (cnt c (nodes ≫= dependents))) ->
  NoDup queue -> (forall c, c ∈ queue <-> c ∈ nodes /\ degree deg c = 0%Z) -> loop_state [] queue nodes deg.
Proof.
  intros Hdeg Hnd Hq. constructor; simpl; auto;
    [intros c Hc; by apply Hq in Hc as [? _]|intros c Hc; rewrite Hq; tauto|].
  intros l1 b l2 Heq. by destruct l1.
Qed.

(** The number of nodes is enough fuel; the order found is topological and free
    of duplicates, and it holds every node exactly when the graph is acyclic. *)
Lemma drain_correct queue deg :
  (forall c, degree deg c = Z.of_nat (cnt c (nodes ≫= dependents))) ->
  NoDup queue -> (forall c, c ∈ queue <-> c ∈ nodes /\ degree deg c = 0%Z) ->
  exists order deg', drain (length nodes) queue deg [] = Some (order, deg') /\
    NoDup order /\ order ⊆ nodes /\ topological order /\
    (length order = length nodes <-> acyclic) /\ (length order = length nodes -> order ≡ₚ nodes).
Proof.
  intros Hdeg Hnd Hq. pose proof (loop_start _ _ Hdeg Hnd Hq) as Hs.
  destruct (drain_total (length nodes) [] queue nodes deg Hs) as (order & rest & deg' & Hd & Hs'); [lia|].
  exists order, deg'. pose proof Hs' as [Hrest _ Hnd' Hin _ Ht]. rewrite app_nil_r in *.
  assert (length order = length nodes -> order ≡ₚ nodes) as Hfull.
  { intros Hl. apply Permutation_length in Hrest as Hl'. rewrite length_app in Hl'.
    destruct rest; [by rewrite app_nil_r in Hrest|simpl in Hl'; lia]. }
  split_and!; auto.
  split.
  - intros Hl. apply (topological_acyclic order); [done| |done]. intros c Hc. by rewrite (Hfull Hl).
  - intros Hac. apply (loop_end_acyclic _ _ _ Hs') in Hac as ->. apply Permutation_length in Hrest.
    rewrite length_app in Hrest. simpl in Hrest. lia.
Qed.
End kahn.

(** ** Independence of the order of consumers

    When [arrange] depends only on which nodes became ready, the result does not
    depend on the order in which the consumers of a node are listed. *)
Section determinism.
  Context {K : Type} `{Countable K}.
  Variable arrange : list K -> list K.
  Hypothesis arrange_Permutation : forall l, arrange l ≡ₚ l.
  Hypothesis arrange_unique : forall l1 l2, l1 ≡ₚ l2 -> arrange l1 = arrange l2.
  Variables dependents1 dependents2 : K -> list K.
  Hypothesis same_dependents : forall a, dependents1 a ≡ₚ dependents2 a.
  Variable nodes : list K.
  Hypothesis nodes_NoDup : NoDup nodes.
  Hypothesis dependents_nodes : forall a b, b ∈ dependents1 a -> b ∈ nodes.

Lemma drain_deterministic fuel order queue rest deg1 deg2 :
  loop_state dependents1 nodes order queue rest deg1 -> (forall c, degree deg1 c = degree deg2 c) ->
  fst <$> drain dependents1 arrange fuel queue deg1 order = fst <$> drain dependents2 arrange fuel queue deg2 order.
Proof.
  revert order queue rest deg1 deg2.
  induction fuel as [|fuel IH]; intros order queue rest deg1 deg2 Hs Hdeg; destruct queue as [|cur queue]; try done.
  cbn [drain]. destruct (relax (dependents1 cur) deg1) as [ready1 deg1'] eqn:E1.
  destruct (relax (dependents2 cur) deg2) as [ready2 deg2'] eqn:E2.
  destruct (loop_step dependents1 arrange nodes nodes_NoDup dependents_nodes arrange_Permutation _ _ _ _ _ _ _ Hs E1)
    as (rest' & Hp & Hs').
  assert (forall c, Z.of_nat (cnt c (dependents1 cur)) <= degree deg1 c)%Z as Hle.
  { intros c. rewrite (ls_degree _ _ _ _ _ _ Hs), (cnt_Permutation c _ _ (bind_Permutation dependents1 _ _ Hp)).
    rewrite bind_cons, cnt_app. lia. }
  destruct (relax_Permutation _ _ _ _ _ _ _ _ (same_dependents cur) Hdeg Hle E1 E2) as [Hr Hd].
  rewrite <- (arrange_unique _ _ Hr). by apply (IH _ _ rest').
Qed.
End determinism.

(** ** Kahn's algorithm on a list of edges *)
Section graph.
  Context {K : Type} `{Countable K}.
  Variable arrange : list K -> list K.
  Hypothesis arrange_Permutation : forall l, arrange l ≡ₚ l.
  Variable nodes : list K.
  Hypothesis nodes_NoDup : NoDup nodes.
  Variable es : list (K * K).
  Hypothesis es_nodes : forall a b, (a, b) ∈ es -> a ∈ nodes /\ b ∈ nodes.

Definition listed_edge (a b : K) : Prop := (a, b) ∈ es.

Lemma graph_facts deg0 graph deg :
  fold_left addEdge es (∅, deg0) = (graph, deg) -> (forall c, degree deg0 c = 0%Z) ->
  (forall a, dependents_of graph a = (filter (fun e => e.1 = a) es).*2) /\
  (forall a b, b ∈ dependents_of graph a <-> (a, b) ∈ es) /\
  (forall c, degree deg c = Z.of_nat (cnt c (es.*2))) /\
  (forall c, degree deg c = Z.of_nat (cnt c (nodes ≫= dependents_of graph))).
Proof.
  intros Hg H0. pose proof (addEdge_dependents es ∅ deg0) as Hdep.
  pose proof (addEdge_degree es ∅ deg0) as Hdeg. rewrite Hg in Hdep, Hdeg. cbn [fst snd] in *.
  assert (forall a, dependents_of graph a = (filter (fun e => e.1 = a) es).*2) as Hdep'.
  { intros a. rewrite Hdep. unfold dependents_of. by rewrite lookup_empty. }
  split_and!; [done| | |].
  - intros a b. rewrite Hdep', list_elem_of_fmap. split.
    + intros ([x y] & -> & [Hx Hxy]%list_elem_of_filter). simpl in *. by subst.
    + intros Hab. exists (a, b). split; [done|]. by apply list_elem_of_filter.
  - intros c. by rewrite Hdeg, H0.
  - intros c. rewrite Hdeg, H0, Z.add_0_l, <- (cnt_by_source nodes es c nodes_NoDup).
    + do 2 f_equal. apply list_bind_ext; [|done]. intros a. by rewrite Hdep'.
    + intros [x y] Hxy. by apply es_nodes in Hxy as [? _].
Qed.

Lemma kahn_correct deg0 graph deg queue :
  fold_left addEdge es (∅, deg0) = (graph, deg) -> (forall c, degree deg0 c = 0%Z) ->
  NoDup queue -> (forall c, c ∈ queue <-> c ∈ nodes /\ degree deg c = 0%Z) ->
  exists order deg', drain (dependents_of graph) arrange (length nodes) queue deg [] = Some (order, deg') /\
    NoDup order /\ order ⊆ nodes /\
    (forall l1 b l2, order = l1 ++ b :: l2 -> forall a, (a, b) ∈ es -> a ∈ l1) /\
    (length order = length nodes <-> forall a, ~ tc listed_edge a a) /\
    (length order = length nodes -> order ≡ₚ nodes).
Proof.
  intros Hg H0 Hnd Hq. destruct (graph_facts _ _ _ Hg H0) as (_ & Hb & _ & Hdeg).
  assert (forall a b, edge (dependents_of graph) nodes a b <-> listed_edge a b) as Hedge.
  { intros a b. unfold edge. rewrite Hb. split; [by intros [_ ?]|]. intros Hab. split; [|done]. by apply es_nodes in Hab as [? _]. }
  destruct (drain_correct (dependents_of graph) arrange nodes nodes_NoDup) with (queue := queue) (deg := deg)
    as (order & deg' & Hd & Hno & Hsub & Ht & Hac & Hperm); [|done|done|done|done|].
  { intros a b Hab%Hb. by apply es_nodes in Hab as [_ ?]. }
  exists order, deg'. split_and!; [done..| | |done].
  - intros l1 b l2 Heq a Hab. apply (Ht l1 b l2 Heq). by apply Hedge.
  - rewrite Hac. unfold acyclic.
    assert (forall a b, tc (edge (dependents_of graph) nodes) a b <-> tc listed_edge a b) as Htc.
    { intros a b. split; (induction 1 as [x y Hxy|x y z Hxy _ IH]; apply Hedge in Hxy;
        [by apply tc_once|by apply (tc_l _ x y z)]). }
    split; intros HA a; [rewrite <- Htc|rewrite Htc]; auto.
Qed.
End graph.

(** The order in which the edges were added does not matter, when [arrange] sees
    through it. *)
Lemma kahn_deterministic {K} `{Countable K} (arrange : list K -> list K) nodes es1 es2 deg0 graph1 deg1 graph2 deg2 queue fuel :
  (forall l, arrange l ≡ₚ l) -> (forall l1 l2, l1 ≡ₚ l2 -> arrange l1 = arrange l2) ->
  NoDup nodes -> (forall a b, (a, b) ∈ es1 -> a ∈ nodes /\ b ∈ nodes) -> es1 ≡ₚ es2 ->
  fold_left addEdge es1 (∅, deg0) = (graph1, deg1) -> fold_left addEdge es2 (∅, deg0) = (graph2, deg2) ->
  (forall c, degree deg0 c = 0%Z) -> NoDup queue -> (forall c, c ∈ queue <-> c ∈ nodes /\ degree deg1 c = 0%Z) ->
  fst <$> drain (dependents_of graph1) arrange fuel queue deg1 [] =
  fst <$> drain (dependents_of graph2) arrange fuel queue deg2 [].
Proof.
  intros Harr Huniq Hnd Hin HP Hg1 Hg2 H0 Hndq Hq.
  destruct (graph_facts nodes Hnd es1 Hin _ _ _ Hg1 H0) as (D1 & B1 & C1 & N1).
  destruct (graph_facts nodes Hnd es2) with (2 := Hg2) (3 := H0) as (D2 & _ & C2 & _).
  { intros a b. rewrite <- HP. apply Hin. }
  apply (drain_deterministic arrange Harr Huniq) with (nodes := nodes) (rest := nodes).
  - intros a. rewrite D1, D2. by rewrite HP.
  - done.
  - intros a b Hb%B1. by apply Hin in Hb as [_ ?].
  - by apply (loop_start _ nodes).
  - intros c. rewrite C1, C2. by rewrite (cnt_Permutation c _ _ (fmap_Permutation snd _ _ HP)).
Qed.
