(* ===== verification/PluginDeps.v ===== *)
(** Plugin dependencies: [ResolveDependencyOrder] and [versionSatisfies] of
    [internal/plugin/dependency.go], [resolveLoadOrder] and its policy
    ([internal/plugin/manager.go]), and the capability
    vocabulary of [capability_vocab.go]; and that a load order is sound, and a cycle
    reported exactly when there is one.

    The semver library is a parameter.  Ranging over a Go map visits the keys in
    any order: the two loops over a manifest's named dependencies take the order
    they find as parameters; and so does the sort by priority the order it leaves
    plugins of one priority in. *)

From S2P Require Import Prelude GoStrings TopoSort.

Open Scope string_scope.
Open Scope list_scope.

(** ** Data *)
Definition DependencyCapability : string := "capability".
Definition DependencyService : string := "service".

(** Scope and access are not read by the resolver. *)
Record Dependency : Type := mkDep {
  dep_Kind : string;
  dep_Name : string;
  dep_Version : string;
  dep_Optional : bool
}.

(** The fields the resolver reads. *)
Record Manifest : Type := mkManifest {
  m_Name : string;
  m_Version : string;
  m_Requires : list Dependency;
  m_Provides : list string;
  m_Dependencies : gmap string string;
  m_Priority : option Z
}.

Definition LoadPriorityDefault : Z := 100.
Definition EffectivePriority (m : Manifest) : Z := default LoadPriorityDefault (m_Priority m).

Record DiscoveredPlugin : Type := mkPlugin { dp_Manifest : Manifest; dp_Dir : string }.
Definition plugin_name (p : DiscoveredPlugin) : string := m_Name (dp_Manifest p).

Definition RequiredServiceNames (m : Manifest) : list string :=
  map dep_Name (List.filter (fun d => String.eqb (dep_Kind d) DependencyService) (m_Requires m)).

Abbreviation CapabilityVocabulary := (gset string).
Definition NewCapabilityVocabulary : CapabilityVocabulary := ∅.
Definition vocab_Register (name : string) (v : CapabilityVocabulary) : CapabilityVocabulary := {[name]} ∪ v.
Definition vocab_Has (v : CapabilityVocabulary) (name : string) : bool := bool_decide (name ∈ v).

Definition CapabilityServiceNames : gmap string string := list_to_map [
  ("world.query", "WorldQueryService"); ("world.mutation", "WorldMutationService");
  ("property", "PropertyService"); ("session", "SessionService");
  ("session.admin", "SessionAdminService"); ("focus", "FocusService");
  ("eval", "EvalService"); ("emit", "EmitService"); ("settings", "SettingsService");
  ("kv", "KVService"); ("stream.history", "StreamHistoryService");
  ("stream.subscription", "StreamSubscriptionService"); ("audit", "AuditService");
  ("command-registry", "CommandRegistryService")].
Definition DefaultCapabilityVocabulary : CapabilityVocabulary :=
  fold_left (fun v kv => vocab_Register kv.1 v) (map_to_list CapabilityServiceNames) NewCapabilityVocabulary.

Record UnsatisfiedDep : Type := mkUnsat { un_Plugin : string; un_Entry : Dependency; un_Reason : string }.

(** Nil grants have a host fall back on what the manifest requires. *)
Record ResolveResult : Type := mkResolve {
  Ordered : list DiscoveredPlugin;
  Unsatisfied : list UnsatisfiedDep;
  Cycles : list (list string);
  Grants : option (gmap string (list string))
}.

Definition errDuplicatePlugin : error := ErrCode "DUPLICATE_PLUGIN_NAME" "plugin %q is declared by both %q and %q".
Definition errDuplicateProvider : error :=
  ErrCode "DUPLICATE_SERVICE_PROVIDER" "service %q is provided by both %q and %q".

Section resolver.
  (** semver: [NewConstraint], [NewVersion] and [Constraints.Check]. *)
  Context {C V : Type}.
  Variable new_constraint : string -> option C.
  Variable new_version : string -> option V.
  Variable check : C -> V -> bool.
  (** The orders in which the two loops over a manifest's dependencies run. *)
  Variables range_missing range_edges : gmap string string -> list string.

Definition versionSatisfies (version constraint : string) : bool :=
  match new_constraint constraint with
  | None => false
  | Some c => match new_version version with None => false | Some v => check c v end
  end.

(** ** Indexing *)
Fixpoint index_plugins (plugins : list DiscoveredPlugin) (byName : gmap string DiscoveredPlugin)
  : result (gmap string DiscoveredPlugin) :=
  match plugins with
  | [] => Ok byName
  | p :: ps =>
    match byName !! plugin_name p with
    | Some _ => Err errDuplicatePlugin
    | None => index_plugins ps (<[plugin_name p := p]> byName)
    end
  end.

(** The empty name stands for the server. *)
Definition server_provides (serverServices : list string) : gmap string string :=
  fold_left (fun m svc => <[svc := EmptyString]> m) serverServices ∅.

Fixpoint add_provides (name : string) (svcs : list string) (m : gmap string string) : result (gmap string string) :=
  match svcs with
  | [] => Ok m
  | svc :: svcs' =>
    match m !! svc with
    | Some _ => Err errDuplicateProvider
    | None => add_provides name svcs' (<[svc := name]> m)
    end
  end.

Fixpoint index_services (plugins : list DiscoveredPlugin) (m : gmap string string) : result (gmap string string) :=
  match plugins with
  | [] => Ok m
  | p :: ps => m' ← add_provides (plugin_name p) (m_Provides (dp_Manifest p)) m; index_services ps m'
  end.

(** ** Per-entry validation *)

(** The reason an entry is unsatisfied, if it is, and whether it is granted.
    A service's provider is always indexed (see [index_services_spec]). *)
Definition check_entry (byName : gmap string DiscoveredPlugin) (svcProvider : gmap string string)
  (vocab : CapabilityVocabulary) (dep : Dependency) : option string * bool :=
  let unless_optional reason := if dep_Optional dep then None else Some reason in
  if String.eqb (dep_Kind dep) DependencyCapability then
    if negb (vocab_Has vocab (dep_Name dep)) then
      match svcProvider !! dep_Name dep with
      | Some _ => (Some "MISDECLARED_DEPENDENCY", false)
      | None => (unless_optional "UNSATISFIED_CAPABILITY", false)
      end
    else (None, true)
  else if String.eqb (dep_Kind dep) DependencyService then
    match svcProvider !! dep_Name dep with
    | None => if vocab_Has vocab (dep_Name dep) then (Some "MISDECLARED_DEPENDENCY", false)
              else (unless_optional "UNSATISFIED_SERVICE", false)
    | Some provider =>
      let provider_version := match byName !! provider with
                              | Some q => m_Version (dp_Manifest q)
                              | None => EmptyString
                              end in
      if negb (is_empty provider) && negb (is_empty (dep_Version dep)) &&
         negb (versionSatisfies provider_version (dep_Version dep))
      then (unless_optional "VERSION_UNSATISFIED", false)
      else (None, true)
    end
  else (unless_optional "UNKNOWN_DEPENDENCY_KIND", false).

Definition record_entry byName svcProvider vocab (name : string)
  (acc : list UnsatisfiedDep * gmap string (list string)) (dep : Dependency)
  : list UnsatisfiedDep * gmap string (list string) :=
  let '(uns, grants) := acc in
  let '(reason, granted) := check_entry byName svcProvider vocab dep in
  (match reason with Some r => uns ++ [mkUnsat name dep r] | None => uns end,
   if granted then <[name := default [] (grants !! name) ++ [dep_Name dep]]> grants else grants).

(** Named dependencies that were not discovered. *)
Definition missing_named (byName : gmap string DiscoveredPlugin) (p : DiscoveredPlugin) : list UnsatisfiedDep :=
  map (fun dep => mkUnsat (plugin_name p) (mkDep DependencyService dep EmptyString false) "UNSATISFIED_DEPENDENCY")
      (List.filter (fun dep => match byName !! dep with Some _ => false | None => true end)
                   (range_missing (m_Dependencies (dp_Manifest p)))).

Definition validate_plugin byName svcProvider vocab
  (acc : list UnsatisfiedDep * gmap string (list string)) (p : DiscoveredPlugin)
  : list UnsatisfiedDep * gmap string (list string) :=
  let '(uns, grants) :=
    fold_left (record_entry byName svcProvider vocab (plugin_name p)) (m_Requires (dp_Manifest p)) acc in
  (uns ++ missing_named byName p, grants).

(** ** The graph *)

(** The edges a plugin adds, from prerequisite to consumer, in the order the code
    adds them. *)
Definition plugin_edges (byName : gmap string DiscoveredPlugin) (svcProvider : gmap string string)
  (p : DiscoveredPlugin) : list (string * string) :=
  concat (map (fun svc => match svcProvider !! svc with
                          | Some provider => if is_empty provider then [] else [(provider, plugin_name p)]
                          | None => []
                          end) (RequiredServiceNames (dp_Manifest p))) ++
  concat (map (fun dep => match byName !! dep with Some _ => [(dep, plugin_name p)] | None => [] end)
              (range_edges (m_Dependencies (dp_Manifest p)))).

Definition initial_degrees (plugins : list DiscoveredPlugin) : gmap string Z :=
  fold_left (fun m p => match m !! plugin_name p with
                        | Some _ => m
                        | None => <[plugin_name p := 0%Z]> m
                        end) plugins ∅.

Definition ResolveDependencyOrder (plugins : list DiscoveredPlugin) (serverServices : list string)
  (vocab : CapabilityVocabulary) : result ResolveResult :=
  byName ← index_plugins plugins ∅;
  svcProvider ← index_services plugins (server_provides serverServices);
  let '(uns, grants) := fold_left (validate_plugin byName svcProvider vocab) plugins ([], ∅) in
  let '(dependents, inDegree) :=
    fold_left addEdge (concat (map (plugin_edges byName svcProvider) plugins)) (∅, initial_degrees plugins) in
  let queue := List.filter (fun name => (degree inDegree name =? 0)%Z) (map plugin_name plugins) in
  match drain (dependents_of dependents) (fun ready => ready) (length plugins) queue inDegree [] with
  | None => Err (ErrNew "unreachable")            (* never: [drain_correct] *)
  | Some (order, inDegree') =>
    let ordered := omap (fun name => byName !! name) order in
    if negb (Nat.eqb (length ordered) (length plugins)) then
      Ok (mkResolve [] uns [(filter (fun kv => (0 < kv.2)%Z) (map_to_list inDegree')).*1] (Some grants))
    else Ok (mkResolve ordered uns [] (Some grants))
  end.

Definition defaultResolvePolicy (res : ResolveResult) : option error :=
  match Unsatisfied res, Cycles res with
  | [], [] => None
  | _, _ => Some (ErrCode "PLUGIN_DEPENDENCY_UNSATISFIED" "plugin dependency resolution failed; fail-closed (INV-PLUGIN-43)")
  end.

(** [sort.Slice]: it takes the order to sort by. *)
Variable sort_slice : (DiscoveredPlugin -> DiscoveredPlugin -> bool) -> list DiscoveredPlugin -> list DiscoveredPlugin.

Definition prioritySort (discovered : list DiscoveredPlugin) : list DiscoveredPlugin :=
  sort_slice (fun a b => (EffectivePriority (dp_Manifest a) <? EffectivePriority (dp_Manifest b))%Z) discovered.

(** [registry] are the names of the services the registry lists, if there is one;
    [capVocab] is the configured vocabulary, if any. *)
Definition resolveLoadOrder (registry : option (list string)) (capVocab : option CapabilityVocabulary)
  (discovered : list DiscoveredPlugin) : result ResolveResult :=
  match registry with
  | None => Ok (mkResolve (prioritySort discovered) [] [] None)
  | Some services =>
      let vocab := default DefaultCapabilityVocabulary capVocab in
      match ResolveDependencyOrder discovered services vocab with
      | Err e => Err (ErrWrapCode "PLUGIN_DEPENDENCY_RESOLVE_FAILED" e)
      | Ok res => match defaultResolvePolicy res with Some e => Err e | None => Ok res end
      end
  end.
End resolver.

Open Scope string_scope.
Open Scope list_scope.

(** ** Indexes *)
Lemma index_plugins_spec ps m m' :
  index_plugins ps m = Ok m' ->
  NoDup (map plugin_name ps) /\ (forall p, p ∈ ps -> m !! plugin_name p = None) /\
  (forall n q, m' !! n = Some q <-> m !! n = Some q \/ q ∈ ps /\ plugin_name q = n).
Proof.
  revert m. induction ps as [|p ps IH]; intros m H; simpl in H.
  { injection H as <-. split_and!; [constructor|by intros p ?%elem_of_nil|].
    intros n q. split; [auto|]. by intros [?|[?%elem_of_nil _]]. }
  destruct (m !! plugin_name p) eqn:Ep; [done|]. destruct (IH _ H) as (Hnd & Hn & Hl).
  assert (forall q, q ∈ ps -> plugin_name q <> plugin_name p /\ m !! plugin_name q = None) as Hq.
  { intros q Hq. apply Hn in Hq as Hq'. by apply lookup_insert_None in Hq' as [? ?]. }
  split_and!.
  - simpl. constructor; [|done]. intros (q & Heq & Hin)%list_elem_of_fmap. apply Hq in Hin as [? _]. congruence.
  - intros q [->|Hin]%elem_of_cons; [done|]. by apply Hq in Hin as [_ ?].
  - intros n q. rewrite Hl, lookup_insert_Some, elem_of_cons. split.
    + intros [[[<- <-]|[Hne ?]]|[? ?]]; auto.
    + intros [Hmn|[[->|?] <-]]; auto. left. right. split; [|done]. intros <-. congruence.
Qed.

Lemma add_provides_spec name svcs m m' :
  add_provides name svcs m = Ok m' ->
  forall svc n, m' !! svc = Some n <-> m !! svc = Some n \/ svc ∈ svcs /\ n = name.
Proof.
  revert m. induction svcs as [|s svcs IH]; intros m H svc n; simpl in H.
  { injection H as <-. split; [auto|]. by intros [?|[?%elem_of_nil _]]. }
  destruct (m !! s) eqn:Es; [done|]. rewrite (IH _ H), lookup_insert_Some, elem_of_cons. split.
  - intros [[[<- <-]|[_ ?]]|[? ?]]; auto.
  - intros [Hm|[[->|?] ->]]; auto. left. right. split; [|done]. intros <-. congruence.
Qed.

Lemma index_services_spec ps m m' :
  index_services ps m = Ok m' ->
  forall svc n, m' !! svc = Some n <->
    m !! svc = Some n \/ exists q, q ∈ ps /\ svc ∈ m_Provides (dp_Manifest q) /\ plugin_name q = n.
Proof.
  revert m. induction ps as [|p ps IH]; intros m H svc n; simpl in H.
  { injection H as <-. split; [auto|]. by intros [?|(q & ?%elem_of_nil & _)]. }
  destruct (add_provides _ _ m) as [m1|] eqn:E1; [|done]. simpl in H.
  rewrite (IH _ H), (add_provides_spec _ _ _ _ E1). split.
  - intros [[?|[? ->]]|(q & ? & ? & ?)]; [auto|right; exists p; set_solver|right; exists q; set_solver].
  - intros [?|(q & [->|?]%elem_of_cons & ? & ?)]; [auto|left; auto|right; eauto].
Qed.

Lemma server_provides_spec ss svc n :
  server_provides ss !! svc = Some n <-> svc ∈ ss /\ n = EmptyString.
Proof.
  unfold server_provides.
  assert (forall m : gmap string string, (fold_left (fun m svc => <[svc := EmptyString]> m) ss m) !! svc = Some n <->
                    svc ∈ ss /\ n = EmptyString \/ svc ∉ ss /\ m !! svc = Some n) as Hf.
  { induction ss as [|s ss IH]; intros m; simpl; [set_solver|].
    rewrite IH, lookup_insert_Some, elem_of_cons. split.
    - intros [[? ->]|[Hn [[<- <-]|[? ?]]]]; [auto|auto|]. right. split; [|done]. intros [->|?]; done.
    - destruct (decide (svc ∈ ss)); [|destruct (decide (s = svc)) as [->|Hne]].
      + intros [[_ ->]|[Hno _]]; [auto|]. destruct Hno; auto.
      + intros [[_ ->]|[Hno _]]; [auto|]. destruct Hno; auto.
      + intros [[[->|?] _]|[Hno ?]]; [done|done|auto]. }
  rewrite Hf, lookup_empty. split; [|auto]. by intros [?|[_ ?]].
Qed.

Lemma initial_degrees_zero ps c : degree (initial_degrees ps) c = 0%Z.
Proof.
  unfold initial_degrees.
  assert (forall m, (forall x, degree m x = 0%Z) -> degree (fold_left (fun m p => match m !! plugin_name p with
            | Some _ => m | None => <[plugin_name p := 0%Z]> m end) ps m) c = 0%Z) as Hf.
  { induction ps as [|p ps IH]; intros m Hm; simpl; [done|]. apply IH. intros x.
    destruct (m !! plugin_name p); [done|]. rewrite degree_insert. case_decide; [done|]. apply Hm. }
  by apply Hf.
Qed.

Section resolver_facts.
  Context {C V : Type}.
  Variable new_constraint : string -> option C.
  Variable new_version : string -> option V.
  Variable check : C -> V -> bool.
  Variables range_missing range_edges : gmap string string -> list string.
  (** Ranging over a map visits each key once. *)
  Hypothesis range_missing_keys : forall m k, k ∈ range_missing m <-> is_Some (m !! k).
  Hypothesis range_edges_keys : forall m k, k ∈ range_edges m <-> is_Some (m !! k).

Abbreviation version_ok := (versionSatisfies new_constraint new_version check).
Abbreviation entry_check := (check_entry new_constraint new_version check).
Abbreviation resolve_order := (ResolveDependencyOrder new_constraint new_version check range_missing range_edges).
Abbreviation load_order := (resolveLoadOrder new_constraint new_version check range_missing range_edges).

(** ** Specifications *)

(** An entry that some provider satisfies. *)
Inductive satisfied (ps : list DiscoveredPlugin) (ss : list string) (vocab : gset string) (dep : Dependency) : Prop :=
| sat_capability : dep_Kind dep = DependencyCapability -> dep_Name dep ∈ vocab -> satisfied ps ss vocab dep
| sat_server : dep_Kind dep = DependencyService -> dep_Name dep ∈ ss -> satisfied ps ss vocab dep
| sat_plugin q : dep_Kind dep = DependencyService -> q ∈ ps -> dep_Name dep ∈ m_Provides (dp_Manifest q) ->
    (dep_Version dep = EmptyString \/ version_ok (m_Version (dp_Manifest q)) (dep_Version dep) = true) ->
    satisfied ps ss vocab dep.

(** [a] has to be loaded before [p]: it provides a service [p] requires, or [p]
    names it. *)
Definition needs (ps : list DiscoveredPlugin) (p a : DiscoveredPlugin) : Prop :=
  p ∈ ps /\ a ∈ ps /\
  ((exists dep, dep ∈ m_Requires (dp_Manifest p) /\ dep_Kind dep = DependencyService /\
      dep_Name dep ∈ m_Provides (dp_Manifest a)) \/
   is_Some (m_Dependencies (dp_Manifest p) !! plugin_name a)).

(** What the two indexes hold. *)
Record indexed (ps : list DiscoveredPlugin) (ss : list string) (byName : gmap string DiscoveredPlugin)
  (svcProvider : gmap string string) : Prop := {
  ix_names : NoDup (map plugin_name ps);
  ix_byName : forall n q, byName !! n = Some q <-> q ∈ ps /\ plugin_name q = n;
  ix_services : forall svc n, svcProvider !! svc = Some n <->
    svc ∈ ss /\ n = EmptyString \/
    exists q, q ∈ ps /\ svc ∈ m_Provides (dp_Manifest q) /\ plugin_name q = n
}.

Lemma indexes_ok ps ss byName svcProvider :
  index_plugins ps ∅ = Ok byName -> index_services ps (server_provides ss) = Ok svcProvider ->
  indexed ps ss byName svcProvider.
Proof.
  intros H1 H2. destruct (index_plugins_spec _ _ _ H1) as (Hnd & _ & Hl). constructor; [done| |].
  - intros n q. rewrite Hl, lookup_empty. split; [|auto]. by intros [?|?].
  - intros svc n. by rewrite (index_services_spec _ _ _ H2), server_provides_spec.
Qed.

(** ** Entries *)
Lemma check_entry_satisfied ps ss vocab byName svcProvider dep :
  indexed ps ss byName svcProvider -> (forall q, q ∈ ps -> plugin_name q <> EmptyString) ->
  (entry_check byName svcProvider vocab dep).2 = true <-> satisfied ps ss vocab dep.
Proof.
  intros [Hnd Hby Hsvc] Hne. unfold check_entry.
  destruct (String.eqb_spec (dep_Kind dep) DependencyCapability) as [Hc|Hc].
  { unfold vocab_Has. case_bool_decide; simpl.
    - split; [by constructor|done].
    - split; [by destruct (svcProvider !! _)|]. intros [? ?|Hk ?|q Hk ? ? ?]; [done| |]; rewrite Hc in Hk; discriminate Hk. }
  destruct (String.eqb_spec (dep_Kind dep) DependencyService) as [Hs|Hs].
  2:{ split; [done|]. by intros [? ?|? ?|q ? ? ? ?]. }
  destruct (svcProvider !! dep_Name dep) as [n|] eqn:En.
  - apply Hsvc in En as [[Hin ->]|(q & Hq & Hp & <-)].
    + simpl. split; [|done]. intros _. by apply sat_server.
    + assert (is_empty (plugin_name q) = false) as -> by (apply is_empty_false; auto).
      assert (byName !! plugin_name q = Some q) as -> by (by apply Hby). simpl.
      destruct (is_empty (dep_Version dep)) eqn:Ev; simpl.
      { apply is_empty_spec in Ev. split; [|done]. intros _. apply (sat_plugin _ _ _ _ q); auto. }
      destruct (version_ok _ _) eqn:Eo; simpl; split; try done.
      * intros _. apply (sat_plugin _ _ _ _ q); auto.
      * intros [? ?|_ Hin|q' _ Hq' Hp' [Hv|Hv]].
        -- done.
        -- assert (svcProvider !! dep_Name dep = Some EmptyString) as H1 by (apply Hsvc; auto).
           assert (svcProvider !! dep_Name dep = Some (plugin_name q)) as H2 by (apply Hsvc; eauto).
           rewrite H1 in H2. injection H2 as H2. by destruct (Hne q Hq).
        -- rewrite Hv in Ev. discriminate Ev.
        -- assert (svcProvider !! dep_Name dep = Some (plugin_name q')) as H1 by (apply Hsvc; eauto).
           assert (svcProvider !! dep_Name dep = Some (plugin_name q)) as H2 by (apply Hsvc; eauto).
           rewrite H1 in H2. injection H2 as H2.
           assert (byName !! plugin_name q = Some q') as H3 by (by apply Hby).
           assert (byName !! plugin_name q = Some q) as H4 by (by apply Hby). congruence.
  - split; [by destruct (vocab_Has vocab (dep_Name dep))|]. intros [? ?|_ Hin|q _ Hq Hp _]; [done| |].
    + assert (svcProvider !! dep_Name dep = Some EmptyString) as H1 by (apply Hsvc; auto). congruence.
    + assert (svcProvider !! dep_Name dep = Some (plugin_name q)) as H1 by (apply Hsvc; eauto). congruence.
Qed.

(** An entry that is not optional is either granted or reported. *)
Lemma check_entry_required byName svcProvider vocab dep :
  dep_Optional dep = false -> (entry_check byName svcProvider vocab dep).1 = None ->
  (entry_check byName svcProvider vocab dep).2 = true.
Proof.
  unfold check_entry. intros ->. destruct (String.eqb _ DependencyCapability).
  { destruct (vocab_Has _ _); simpl; [done|]. by destruct (svcProvider !! _). }
  destruct (String.eqb _ DependencyService); [|done].
  destruct (svcProvider !! _); [|by destruct (vocab_Has _ _)]. by destruct (_ && _).
Qed.

(** ** The validation pass *)
Abbreviation entry_step := (record_entry new_constraint new_version check).
Abbreviation plugin_step := (validate_plugin new_constraint new_version check range_missing).

Definition tokens (grants : gmap string (list string)) (n : string) : list string := default [] (grants !! n).

Lemma record_entries_spec byName svcProvider vocab name deps uns grants uns' grants' :
  fold_left (entry_step byName svcProvider vocab name) deps (uns, grants) = (uns', grants') ->
  (exists more, uns' = uns ++ more /\
     (more = [] -> forall dep, dep ∈ deps -> (entry_check byName svcProvider vocab dep).1 = None)) /\
  (forall n t, t ∈ tokens grants' n <-> t ∈ tokens grants n \/
     n = name /\ exists dep, dep ∈ deps /\ (entry_check byName svcProvider vocab dep).2 = true /\ dep_Name dep = t).
Proof.
  revert uns grants. induction deps as [|dep deps IH]; intros uns grants H; simpl in H.
  { injection H as <- <-. split.
    - exists []. rewrite app_nil_r. split; [done|]. by intros _ dep ?%elem_of_nil.
    - intros n t. split; [auto|]. by intros [?|(_ & dep & ?%elem_of_nil & _)]. }
  destruct (entry_check byName svcProvider vocab dep) as [reason granted] eqn:Ec. apply IH in H as [(more & -> & Hm) Hg].
  split.
  - destruct reason as [r|].
    + exists (mkUnsat name dep r :: more). rewrite <- app_assoc. split; [done|]. done.
    + exists more. split; [done|]. intros -> dep' [->|Hin]%elem_of_cons; [by rewrite Ec|auto].
  - intros n t. rewrite Hg.
    assert (t ∈ tokens (if granted then <[name := default [] (grants !! name) ++ [dep_Name dep]]> grants else grants) n <->
            t ∈ tokens grants n \/ n = name /\ granted = true /\ dep_Name dep = t) as ->.
    { destruct granted; [|naive_solver]. unfold tokens. rewrite lookup_insert. case_decide; subst; simpl.
      - rewrite elem_of_app, list_elem_of_singleton. naive_solver.
      - naive_solver. }
    setoid_rewrite elem_of_cons. split.
    + intros [[?|(-> & -> & <-)]|(-> & d & ? & ? & ?)]; [auto| |]; right; (split; [done|]).
      * exists dep. rewrite Ec. auto.
      * exists d. auto.
    + intros [?|(-> & d & [->|?] & Hd & <-)]; [auto| |].
      * left. right. rewrite Ec in Hd. auto.
      * right. split; [done|]. eauto.
Qed.

Lemma validate_plugins_spec byName svcProvider vocab ps uns grants uns' grants' :
  fold_left (plugin_step byName svcProvider vocab) ps (uns, grants) = (uns', grants') ->
  (exists more, uns' = uns ++ more /\
     (more = [] -> forall p, p ∈ ps ->
        (forall dep, dep ∈ m_Requires (dp_Manifest p) -> (entry_check byName svcProvider vocab dep).1 = None) /\
        missing_named range_missing byName p = [])) /\
  (forall n t, t ∈ tokens grants' n <-> t ∈ tokens grants n \/
     exists p dep, p ∈ ps /\ plugin_name p = n /\ dep ∈ m_Requires (dp_Manifest p) /\
       (entry_check byName svcProvider vocab dep).2 = true /\ dep_Name dep = t).
Proof.
  revert uns grants. induction ps as [|p ps IH]; intros uns grants H; simpl in H.
  { injection H as <- <-. split.
    - exists []. rewrite app_nil_r. split; [done|]. by intros _ p ?%elem_of_nil.
    - intros n t. split; [auto|]. by intros [?|(p & dep & ?%elem_of_nil & _)]. }
  unfold validate_plugin in H at 2.
  destruct (fold_left (entry_step _ _ _ _) _ _) as [uns1 grants1] eqn:E1.
  apply record_entries_spec in E1 as [(more1 & -> & Hm1) Hg1]. apply IH in H as [(more & -> & Hm) Hg]. split.
  - exists (more1 ++ missing_named range_missing byName p ++ more). split; [by rewrite !app_assoc|].
    intros [-> [Hmiss ->]%app_eq_nil]%app_eq_nil p' [->|Hin]%elem_of_cons; [|by apply Hm].
    split; [by apply Hm1|done].
  - intros n t. rewrite Hg, Hg1. setoid_rewrite elem_of_cons. split.
    + intros [[?|(-> & dep & ? & ? & ?)]|(q & dep & ? & ? & ? & ? & ?)]; [auto| |]; right; [exists p, dep|exists q, dep]; auto.
    + intros [?|(q & dep & [->|?] & <- & ? & ? & ?)]; [auto| |]; [left; right; eauto|right; exists q, dep; auto].
Qed.

(** ** Ordering *)
Abbreviation edges_of := (plugin_edges range_edges).

Lemma plugin_edges_spec byName svcProvider p x y :
  (x, y) ∈ edges_of byName svcProvider p <->
  y = plugin_name p /\
  ((exists dep, dep ∈ m_Requires (dp_Manifest p) /\ dep_Kind dep = DependencyService /\
      svcProvider !! dep_Name dep = Some x /\ x <> EmptyString) \/
   is_Some (m_Dependencies (dp_Manifest p) !! x) /\ is_Some (byName !! x)).
Proof.
  unfold plugin_edges. rewrite elem_of_app, !list_elem_of_In, !in_concat. split.
  - intros [(l & (svc & <- & Hs)%in_map_iff & Hin)|(l & (dep & <- & Hs)%in_map_iff & Hin)].
    + unfold RequiredServiceNames in Hs. apply in_map_iff in Hs as (dep & <- & [Hd Hk]%List.filter_In).
      apply String.eqb_eq in Hk. destruct (svcProvider !! dep_Name dep) as [n|] eqn:En; [|done].
      destruct (is_empty n) eqn:Ee; [done|]. apply is_empty_false in Ee. destruct Hin as [[= <- <-]|[]].
      split; [done|]. left. exists dep. rewrite list_elem_of_In. auto.
    + apply list_elem_of_In, range_edges_keys in Hs. destruct (byName !! dep) eqn:Eb; [|done].
      destruct Hin as [[= <- <-]|[]]. split; [done|]. right. rewrite Eb. auto.
  - intros [-> [(dep & Hd & Hk & Hs & Hx)|[Hd [q Hq]]]]; [left|right].
    + exists [(x, plugin_name p)]. split; [|by left]. apply in_map_iff. exists (dep_Name dep).
      apply is_empty_false in Hx. rewrite Hs, Hx. split; [done|]. unfold RequiredServiceNames.
      apply in_map_iff. exists dep. split; [done|]. apply List.filter_In. rewrite <- list_elem_of_In, Hk. auto.
    + exists [(x, plugin_name p)]. split; [|by left]. apply in_map_iff. exists x. rewrite Hq. split; [done|].
      by apply list_elem_of_In, range_edges_keys.
Qed.

Definition all_edges byName svcProvider (ps : list DiscoveredPlugin) : list (string * string) :=
  concat (map (edges_of byName svcProvider) ps).

Lemma all_edges_spec ps ss byName svcProvider x y :
  indexed ps ss byName svcProvider -> (forall q, q ∈ ps -> plugin_name q <> EmptyString) ->
  (x, y) ∈ all_edges byName svcProvider ps <->
  exists p a, needs ps p a /\ plugin_name a = x /\ plugin_name p = y.
Proof.
  intros [Hnd Hby Hsvc] Hne. unfold all_edges. rewrite list_elem_of_In, in_concat. split.
  - intros (l & (p & <- & Hp)%in_map_iff & Hin). apply list_elem_of_In in Hp, Hin.
    apply plugin_edges_spec in Hin as [-> [(dep & Hd & Hk & Hs & Hx)|[Hd [q Hq]]]].
    + apply Hsvc in Hs as [[_ ->]|(q & Hq & Hpr & <-)]; [done|]. exists p, q. split; [|done].
      split_and!; [done|done|]. left. eauto.
    + apply Hby in Hq as [Hq <-]. exists p, q. split; [|done]. split_and!; auto.
  - intros (p & a & (Hp & Ha & Hn) & <- & <-). exists (edges_of byName svcProvider p). split.
    + apply in_map_iff. exists p. rewrite <- list_elem_of_In. done.
    + rewrite <- list_elem_of_In. apply plugin_edges_spec. split; [done|].
      destruct Hn as [(dep & Hd & Hk & Hpr)|Hn]; [left|right].
      * exists dep. split_and!; auto. apply Hsvc. right. eauto.
      * split; [done|]. exists a. by apply Hby.
Qed.

Lemma name_injective ps ss byName svcProvider p q :
  indexed ps ss byName svcProvider -> p ∈ ps -> q ∈ ps -> plugin_name p = plugin_name q -> p = q.
Proof.
  intros [_ Hby _] Hp Hq Hn. assert (byName !! plugin_name p = Some p) as H1 by (by apply Hby).
  assert (byName !! plugin_name p = Some q) as H2 by (by apply Hby). congruence.
Qed.

(** The plugins of a list of names. *)
Lemma lookup_names ps ss byName svcProvider order :
  indexed ps ss byName svcProvider -> order ⊆ map plugin_name ps ->
  map plugin_name (omap (fun name => byName !! name) order) = order /\
  omap (fun name => byName !! name) order ⊆ ps.
Proof.
  intros Hix. induction order as [|n order IH]; intros Hsub; [split; [done|set_solver]|].
  change (omap (fun name => byName !! name) (n :: order)) with
    (match byName !! n with
     | Some q => q :: omap (fun name => byName !! name) order
     | None => omap (fun name => byName !! name) order
     end).
  assert (n ∈ map plugin_name ps) as Hn by set_solver. apply list_elem_of_fmap in Hn as (q & -> & Hq).
  assert (byName !! plugin_name q = Some q) as -> by (by apply (ix_byName _ _ _ _ Hix)).
  destruct IH as [IH1 IH2]; [set_solver|]. rewrite map_cons, IH1. split; [done|set_solver].
Qed.

(** The graph of names and the declared dependencies agree on cycles. *)
Lemma needs_acyclic ps ss byName svcProvider (R : string -> string -> Prop) :
  indexed ps ss byName svcProvider ->
  (forall a b, R a b <-> exists p q, needs ps p q /\ plugin_name q = a /\ plugin_name p = b) ->
  (forall p, ~ tc (needs ps) p p) <-> (forall a, ~ tc R a a).
Proof.
  intros Hix HR.
  assert (forall p q, tc (needs ps) p q -> tc R (plugin_name q) (plugin_name p)) as H1.
  { induction 1 as [p q Hn|p x q Hn _ IH].
    - apply tc_once, HR. eauto.
    - eapply tc_r; [exact IH|]. apply HR. eauto. }
  assert (forall a b, tc R a b -> exists p q, p ∈ ps /\ q ∈ ps /\ tc (needs ps) p q /\ plugin_name q = a /\ plugin_name p = b) as H2.
  { induction 1 as [a b He|a c b He _ IH].
    - apply HR in He as (p & q & Hn & <- & <-). exists p, q. destruct Hn as (? & ? & ?).
      split_and!; try done. by apply tc_once.
    - apply HR in He as (p & q & Hn & <- & <-). destruct IH as (p' & q' & Hp' & Hq' & Htc & Hname & <-).
      assert (q' = p) as -> by (eapply name_injective; [done|done|apply Hn|done]).
      exists p', q. split_and!; try done; [apply Hn|]. by eapply tc_r. }
  split.
  - intros Hac a Hc. apply H2 in Hc as (p & q & Hp & Hq & Htc & Ha & Hb).
    assert (p = q) as -> by (eapply name_injective; [done|done|done|congruence]). by apply (Hac q).
  - intros Hac p Hc. by apply (Hac (plugin_name p)), H1.
Qed.

(** The order of names that draining the queue finds. *)
Lemma graph_drain ps ss byName svcProvider :
  indexed ps ss byName svcProvider -> (forall q, q ∈ ps -> plugin_name q <> EmptyString) ->
  let '(dependents, deg) := fold_left addEdge (all_edges byName svcProvider ps) (∅, initial_degrees ps) in
  exists order deg',
    drain (dependents_of dependents) (fun ready => ready) (length ps)
      (List.filter (fun name => (degree deg name =? 0)%Z) (map plugin_name ps)) deg [] = Some (order, deg') /\
    NoDup order /\ order ⊆ map plugin_name ps /\
    (forall l1 b l2, order = l1 ++ b :: l2 -> forall p a, needs ps p a -> plugin_name p = b -> plugin_name a ∈ l1) /\
    (length order = length ps <-> forall p, ~ tc (needs ps) p p).
Proof.
  intros Hix Hne. pose proof (fun x y => all_edges_spec ps ss byName svcProvider x y Hix Hne) as Hes.
  destruct (fold_left addEdge _ _) as [graph deg] eqn:Eg.
  assert (forall q, q ∈ ps -> plugin_name q ∈ map plugin_name ps) as Hin by (intros q Hq; apply list_elem_of_fmap; eauto).
  destruct (kahn_correct (K := string) (fun ready => ready)) with (nodes := map plugin_name ps)
    (es := all_edges byName svcProvider ps) (deg0 := initial_degrees ps) (graph := graph) (deg := deg)
    (queue := List.filter (fun name => (degree deg name =? 0)%Z) (map plugin_name ps))
    as (order & deg' & Hd & Hno & Hsub & Ht & Hac & _); auto.
  { apply Hix. }
  { intros a b (p & q & Hn & <- & <-)%Hes. split; apply Hin, Hn. }
  { intros c. apply initial_degrees_zero. }
  { apply NoDup_ListNoDup, List.NoDup_filter, NoDup_ListNoDup, Hix. }
  { intros c. rewrite !list_elem_of_In, List.filter_In, Z.eqb_eq. done. }
  exists order, deg'. rewrite length_map in Hd, Hac. split_and!; [done..| |].
  - intros l1 b l2 Heq p a Hn <-. apply (Ht l1 _ l2 Heq), Hes. eauto.
  - rewrite Hac. symmetry. by apply (needs_acyclic ps ss byName svcProvider).
Qed.

(** What the resolver computes, in terms of the declared dependencies. *)
Lemma resolve_order_spec ps ss vocab res :
  resolve_order ps ss vocab = Ok res -> (forall q, q ∈ ps -> plugin_name q <> EmptyString) ->
  exists byName svcProvider, indexed ps ss byName svcProvider /\
    fold_left (plugin_step byName svcProvider vocab) ps ([], ∅) = (Unsatisfied res, default ∅ (Grants res)) /\
    (Cycles res = [] <-> forall p, ~ tc (needs ps) p p) /\
    (Cycles res = [] -> Ordered res ≡ₚ ps /\
       forall l1 p l2, Ordered res = l1 ++ p :: l2 -> forall a, needs ps p a -> a ∈ l1) /\
    (Cycles res <> [] -> Ordered res = []).
Proof.
  unfold ResolveDependencyOrder. intros H Hne.
  destruct (index_plugins ps ∅) as [byName|] eqn:E1; [|done]. simpl in H.
  destruct (index_services ps _) as [svcProvider|] eqn:E2; [|done]. simpl in H.
  pose proof (indexes_ok _ _ _ _ E1 E2) as Hix. exists byName, svcProvider. split; [done|].
  destruct (fold_left (plugin_step _ _ _) ps _) as [uns grants] eqn:Ev.
  pose proof (graph_drain ps ss byName svcProvider Hix Hne) as Hg. unfold all_edges in Hg.
  destruct (fold_left addEdge _ _) as [dependents deg]. destruct Hg as (order & deg' & Hd & Hno & Hsub & Ht & Hac).
  rewrite Hd in H. destruct (lookup_names _ _ _ _ order Hix Hsub) as [Hnames Hps].
  set (ordered := omap (fun name => byName !! name) order) in *.
  pose proof (f_equal length Hnames) as Hlo. rewrite length_map in Hlo.
  rewrite Hlo in H. destruct (Nat.eqb_spec (length order) (length ps)) as [Hl|Hl]; simpl in H; injection H as <-; simpl.
  - split_and!; [done|by split; [intros _; apply Hac|]| |done]. intros _. split.
    + apply submseteq_length_Permutation; [|lia]. apply NoDup_submseteq; [|done].
      apply (NoDup_fmap_1 plugin_name). unfold fmap. change (list_fmap _ _ plugin_name ordered) with (map plugin_name ordered).
      by rewrite Hnames.
    + intros l1 p l2 Heq a Hn.
      assert (order = map plugin_name l1 ++ plugin_name p :: map plugin_name l2) as Ho.
      { rewrite <- Hnames, Heq. by rewrite map_app. }
      destruct (proj1 (list_elem_of_fmap _ _ _) (Ht _ _ _ Ho p a Hn eq_refl)) as (q & Hq & Hin).
      assert (a = q) as ->; [|done]. eapply name_injective; [done|apply Hn| |done]. apply Hps. rewrite Heq. set_solver.
  - split_and!; [done| |done|done]. split; [done|]. intros Hc. by apply Hac in Hc.
Qed.

(** ** Theorems *)

(** C34: the load order.  With a service registry, and every plugin named: when
    plugins are resolved without an error, the order is
    a permutation of those discovered, and for each plugin: every service it
    requires that another plugin provides, optional or not, is provided by a
    plugin loaded before it; every required service comes from the server or
    from such a plugin, in a version the entry accepts; every required
    capability is in the vocabulary; and every plugin it names is loaded before
    it.  (Without a registry plugins are sorted by priority, and nothing of this is
    looked at.) *)
Theorem load_order_sound sort_slice ps ss capVocab res :
  (forall q, q ∈ ps -> plugin_name q <> EmptyString) -> load_order sort_slice (Some ss) capVocab ps = Ok res ->
  Ordered res ≡ₚ ps /\
  forall l1 p l2, Ordered res = l1 ++ p :: l2 ->
    (forall dep, dep ∈ m_Requires (dp_Manifest p) -> dep_Optional dep = false ->
       satisfied l1 ss (default DefaultCapabilityVocabulary capVocab) dep) /\
    (forall dep q, dep ∈ m_Requires (dp_Manifest p) -> dep_Kind dep = DependencyService ->
       q ∈ ps -> dep_Name dep ∈ m_Provides (dp_Manifest q) -> q ∈ l1) /\
    (forall n, is_Some (m_Dependencies (dp_Manifest p) !! n) -> exists q, q ∈ l1 /\ plugin_name q = n).
Proof.
  unfold resolveLoadOrder. intros Hne H. set (vocab := default _ capVocab) in *. destruct (resolve_order ps ss vocab) as [r|] eqn:E; [|done].
  unfold defaultResolvePolicy in H. destruct (Unsatisfied r) as [|] eqn:Eu; [|done].
  destruct (Cycles r) eqn:Ecy; [|done]. injection H as <-.
  destruct (resolve_order_spec _ _ _ _ E Hne) as (byName & svcProvider & Hix & Hv & _ & Hord & _).
  destruct (Hord Ecy) as [Hperm Hbefore]. split; [done|]. intros l1 p l2 Heq.
  rewrite Eu in Hv. apply validate_plugins_spec in Hv as [(more & Hm & Hok) _]. symmetry in Hm. apply app_eq_nil in Hm as [_ ->].
  assert (p ∈ ps) as Hp by (rewrite <- Hperm, Heq; set_solver). destruct (Hok eq_refl p Hp) as [Hent Hmiss].
  assert (forall dep q, dep ∈ m_Requires (dp_Manifest p) -> dep_Kind dep = DependencyService ->
       q ∈ ps -> dep_Name dep ∈ m_Provides (dp_Manifest q) -> q ∈ l1) as Hprov.
  { intros dep q Hd Hk Hq Hpr. apply (Hbefore l1 p l2 Heq). split_and!; [done|done|]. left. eauto. }
  split_and!; [|done|].
  - intros dep Hd Ho. pose proof (check_entry_required _ _ _ _ Ho (Hent dep Hd)) as Hg.
    apply (check_entry_satisfied ps ss vocab byName svcProvider dep Hix Hne) in Hg as [? ?|? ?|q Hk Hq Hpr Hver].
    + by apply sat_capability.
    + by apply sat_server.
    + apply (sat_plugin _ _ _ _ q); auto. by apply (Hprov dep).
  - intros n Hn. destruct (byName !! n) as [q|] eqn:Eb.
    + apply (ix_byName _ _ _ _ Hix) in Eb as [Hq <-]. exists q. split; [|done].
      apply (Hbefore l1 p l2 Heq). split_and!; auto.
    + exfalso. unfold missing_named in Hmiss. apply map_eq_nil in Hmiss.
      assert (In n (List.filter (fun dep => match byName !! dep with Some _ => false | None => true end)
                (range_missing (m_Dependencies (dp_Manifest p))))) as Hin.
      { apply List.filter_In. rewrite Eb, <- list_elem_of_In. split; [by apply range_missing_keys|done]. }
      by rewrite Hmiss in Hin.
Qed.

(** Cycles are found exactly.  If the names and the services are declared once
    each, resolution reports a cycle if and only if the declared dependencies
    have one, and then returns no order. *)
Theorem cycles_exact ps ss vocab res :
  (forall q, q ∈ ps -> plugin_name q <> EmptyString) -> resolve_order ps ss vocab = Ok res ->
  (Cycles res = [] <-> forall p, ~ tc (needs ps) p p) /\ (Cycles res <> [] -> Ordered res = []).
Proof.
  intros Hne H. by destruct (resolve_order_spec _ _ _ _ H Hne) as (byName & svcProvider & _ & _ & Hc & _ & Ho).
Qed.

(** C30: least privilege.  When plugins, all of them named, have been resolved, the
    grant set of a plugin's name holds a token exactly when a plugin of that name
    declares an entry for the token that is satisfied: a known capability, a server
    service, or a plugin's service in a version the entry accepts.  An entry that is
    not satisfied grants nothing, optional or not, and nobody is granted what only
    another plugin declared. *)
Theorem grants_exact ps ss vocab res n t :
  (forall q, q ∈ ps -> plugin_name q <> EmptyString) -> resolve_order ps ss vocab = Ok res ->
  t ∈ tokens (default ∅ (Grants res)) n <->
  exists p dep, p ∈ ps /\ plugin_name p = n /\ dep ∈ m_Requires (dp_Manifest p) /\ dep_Name dep = t /\
    satisfied ps ss vocab dep.
Proof.
  intros Hne H. destruct (resolve_order_spec _ _ _ _ H Hne) as (byName & svcProvider & Hix & Hv & _).
  apply validate_plugins_spec in Hv as [_ Hg]. rewrite Hg. unfold tokens at 1. rewrite lookup_empty. simpl. split.
  - intros [?%elem_of_nil|(p & dep & ? & ? & ? & Hc & ?)]; [done|]. exists p, dep.
    apply (check_entry_satisfied ps ss vocab byName svcProvider dep Hix Hne) in Hc. done.
  - intros (p & dep & ? & ? & ? & ? & Hc). right. exists p, dep.
    apply (check_entry_satisfied ps ss vocab byName svcProvider dep Hix Hne) in Hc. done.
Qed.
End resolver_facts.

(** ** A concrete plugin set

    "b" requires a service of "a" and a capability, and is discovered first. *)
Definition demo_range (m : gmap string string) : list string := (map_to_list m).*1.
Definition demo_constraint (s : string) : option string := Some s.

Definition plugin_a : DiscoveredPlugin := mkPlugin (mkManifest "a" "1.0" [] ["a.v1"] ∅ None) "plugins/a".
Definition plugin_b : DiscoveredPlugin :=
  mkPlugin (mkManifest "b" "1.0" [mkDep DependencyService "a.v1" "1.0" false; mkDep DependencyCapability "kv" EmptyString false]
              [] {["a" := "1.0"]} (Some 10%Z)) "plugins/b".
Definition demo_vocab : gset string := vocab_Register "kv" NewCapabilityVocabulary.
Definition demo_resolve : list DiscoveredPlugin -> list string -> gset string -> result ResolveResult :=
  ResolveDependencyOrder demo_constraint demo_constraint String.eqb demo_range demo_range.

Lemma demo_range_keys m k : k ∈ demo_range m <-> is_Some (m !! k).
Proof.
  unfold demo_range. rewrite list_elem_of_fmap. split.
  - intros ([k' v] & -> & H%elem_of_map_to_list). by exists v.
  - intros [v H]. exists (k, v). split; [done|]. by apply elem_of_map_to_list.
Qed.

Lemma demo_names q : q ∈ [plugin_b; plugin_a] -> plugin_name q <> EmptyString.
Proof. by intros [->|[->|?%elem_of_nil]%elem_of_cons]%elem_of_cons. Qed.

Definition good_result (r : result ResolveResult) : bool :=
  match r with
  | Ok (mkResolve [p; q] [] [] g) =>
    String.eqb (plugin_name p) "a" && String.eqb (plugin_name q) "b" &&
    (if decide (tokens (default ∅ g) "b" = ["a.v1"; "kv"]) then true else false)
  | _ => false
  end.

Lemma demo_resolve_ok :
  exists res, demo_resolve [plugin_b; plugin_a] [] demo_vocab = Ok res /\ good_result (Ok res) = true.
Proof.
  assert (good_result (demo_resolve [plugin_b; plugin_a] [] demo_vocab) = true) as H by (vm_compute; reflexivity).
  destruct (demo_resolve [plugin_b; plugin_a] [] demo_vocab) as [res|]; [|discriminate H]. eauto.
Qed.

Lemma load_order_sound_witness :
  exists res, demo_resolve [plugin_b; plugin_a] [] demo_vocab = Ok res /\ Ordered res ≡ₚ [plugin_b; plugin_a].
Proof.
  destruct demo_resolve_ok as (res & E & Hg). exists res. split; [exact E|].
  apply (load_order_sound demo_constraint demo_constraint String.eqb demo_range demo_range
           demo_range_keys demo_range_keys (fun _ l => l) [plugin_b; plugin_a] [] (Some demo_vocab) res demo_names).
  unfold resolveLoadOrder. cbn [default from_option id]. fold demo_resolve. rewrite E.
  destruct res as [[|p [|q [|]]] [|] [|] g]; try discriminate Hg. reflexivity.
Defined.

Lemma cycles_exact_witness :
  exists res, demo_resolve [plugin_b; plugin_a] [] demo_vocab = Ok res /\
    forall p, ~ tc (needs [plugin_b; plugin_a]) p p.
Proof.
  destruct demo_resolve_ok as (res & E & Hg). exists res. split; [exact E|].
  apply (cycles_exact demo_constraint demo_constraint String.eqb demo_range demo_range
           demo_range_keys demo_range_keys [plugin_b; plugin_a] [] demo_vocab res demo_names E).
  destruct res as [[|p [|q [|]]] [|] [|] g]; try discriminate Hg. reflexivity.
Defined.

Lemma grants_exact_witness :
  exists p dep, p ∈ [plugin_b; plugin_a] /\ plugin_name p = "b" /\ dep_Name dep = "kv" /\
    satisfied demo_constraint demo_constraint String.eqb [plugin_b; plugin_a] [] demo_vocab dep.
Proof.
  destruct demo_resolve_ok as (res & E & Hg).
  destruct (proj1 (grants_exact demo_constraint demo_constraint String.eqb demo_range demo_range
           demo_range_keys demo_range_keys [plugin_b; plugin_a] [] demo_vocab res "b" "kv" demo_names E))
    as (p & dep & Hp & Hn & _ & Ht & Hs).
  - destruct res as [[|p [|q [|]]] [|] [|] g]; try discriminate Hg. unfold good_result in Hg. simpl.
    destruct (decide (tokens (default ∅ g) "b" = ["a.v1"; "kv"])) as [Heq|]; [|rewrite andb_false_r in Hg; discriminate Hg].
    rewrite Heq. apply elem_of_cons. right. apply elem_of_cons. left. reflexivity.
  - exists p, dep. auto.
Defined.
