(* ===== verification/Lifecycle.v ===== *)
(** Start and stop of the subsystems ([internal/lifecycle]): the orchestrator and the
    health tracker, with the start order and its independence of map iteration, the
    barrier between preparing and activating, complete rollback, and the tiers a
    subsystem goes through. *)

From S2P Require Import Prelude TopoSort.
From stdpp Require Import sorting.

Open Scope string_scope.
Open Scope list_scope.

(** ** The orchestrator *)
Abbreviation SubsystemID := Z.

Record Orchestrator : Type := mkOrch {
  subsystems : gmap SubsystemID (list SubsystemID);      (* [DependsOn] of each *)
  preparedOrder : list SubsystemID;
  activatedOrder : list SubsystemID
}.

Definition NewOrchestrator : Orchestrator := mkOrch ∅ [] [].

Definition Register (id : SubsystemID) (dependsOn : list SubsystemID) (o : Orchestrator) : outcome Orchestrator :=
  match subsystems o !! id with
  | Some _ => Panic "lifecycle: duplicate subsystem registration"
  | None => Return (mkOrch (<[id := dependsOn]> (subsystems o)) (preparedOrder o) (activatedOrder o))
  end.

(** [sort.Slice] by [<] on distinct integers. *)
Definition sort_ids (l : list SubsystemID) : list SubsystemID := merge_sort Z.le l.

Definition deps_of (o : Orchestrator) (id : SubsystemID) : list SubsystemID := default [] (subsystems o !! id).

(** The edges a subsystem adds. *)
Definition subsystem_edges (o : Orchestrator) (id : SubsystemID) : list (SubsystemID * SubsystemID) :=
  map (fun dep => (dep, id)) (deps_of o id).

Definition is_registered (o : Orchestrator) (id : SubsystemID) : bool :=
  match subsystems o !! id with Some _ => true | None => false end.

(** The graph-building loop, over the subsystems in the order [ids]. *)
Fixpoint build_graph (o : Orchestrator) (ids : list SubsystemID)
  (g : gmap SubsystemID (list SubsystemID) * gmap SubsystemID Z)
  : result (gmap SubsystemID (list SubsystemID) * gmap SubsystemID Z) :=
  match ids with
  | [] => Ok g
  | id :: ids' =>
    if forallb (is_registered o) (deps_of o id)
    then build_graph o ids' (fold_left addEdge (subsystem_edges o id) g)
    else Err (ErrNew "subsystem %s has missing dependency: %s")
  end.

(** [ids] and [ids'] are the orders of the two range loops. *)
Definition topoSort (o : Orchestrator) (ids ids' : list SubsystemID) : result (list SubsystemID) :=
  '(dependents, inDegree) ← build_graph o ids (∅, ∅);
  let queue := sort_ids (List.filter (fun id => (degree inDegree id =? 0)%Z) ids') in
  match drain (dependents_of dependents) sort_ids (size (subsystems o)) queue inDegree [] with
  | None => Err (ErrNew "unreachable")                   (* never: [topoSort_spec] *)
  | Some (order, _) =>
    if Nat.eqb (length order) (size (subsystems o)) then Ok order
    else Err (ErrNew "dependency cycle detected among subsystems")
  end.

(** ** A run *)

(** How a call of [Stop] ends: it returns, with the context done by then or not,
    or the context's deadline passes while it runs. *)
Inductive stop_outcome : Type := Stopped (err : option error) (expired : bool) | DeadlinePassed.

Record behaviour : Type := mkBeh {
  Prepare : SubsystemID -> option error;
  Activate : SubsystemID -> option error;
  Stop : SubsystemID -> stop_outcome
}.

Inductive call : Type :=
| CPrepare (id : SubsystemID)
| CActivate (id : SubsystemID)
| CStop (id : SubsystemID).

(** The reverse walk of [StopAll], given the prepared subsystems in reverse; the
    rest is abandoned once the deadline has passed. *)
Fixpoint stop_loop (b : behaviour) (expired : bool) (rev_prepared : list SubsystemID) : list call :=
  if expired then [] else
  match rev_prepared with
  | [] => []
  | id :: rest =>
    match Stop b id with
    | Stopped _ expired => CStop id :: stop_loop b expired rest
    | DeadlinePassed => [CStop id]
    end
  end.

Definition StopAll (b : behaviour) (expired : bool) (o : Orchestrator) : list call :=
  stop_loop b expired (rev (preparedOrder o)).

(** A fresh context: not expired. *)
Definition rollback (b : behaviour) (o : Orchestrator) : list call := StopAll b false o.

Definition errStartFailed (e : error) : error := ErrWrapCode "SUBSYSTEM_START_FAILED" e.

Fixpoint prepare_sweep (b : behaviour) (order : list SubsystemID) (o : Orchestrator)
  : list call * Orchestrator * option error :=
  match order with
  | [] => ([], o, None)
  | id :: order' =>
    let o := mkOrch (subsystems o) (preparedOrder o ++ [id]) (activatedOrder o) in
    match Prepare b id with
    | Some e => (CPrepare id :: rollback b o, o, Some (errStartFailed e))
    | None => let '(calls, o, err) := prepare_sweep b order' o in (CPrepare id :: calls, o, err)
    end
  end.

Fixpoint activate_sweep (b : behaviour) (order : list SubsystemID) (o : Orchestrator)
  : list call * Orchestrator * option error :=
  match order with
  | [] => ([], o, None)
  | id :: order' =>
    match Activate b id with
    | Some e => (CActivate id :: rollback b o, o, Some (errStartFailed e))
    | None =>
      let o := mkOrch (subsystems o) (preparedOrder o) (activatedOrder o ++ [id]) in
      let '(calls, o, err) := activate_sweep b order' o in (CActivate id :: calls, o, err)
    end
  end.

Definition StartAll (b : behaviour) (ids ids' : list SubsystemID) (o : Orchestrator)
  : list call * Orchestrator * option error :=
  match topoSort o ids ids' with
  | Err e => ([], o, Some e)
  | Ok order =>
    let o := mkOrch (subsystems o) [] [] in
    let '(calls, o, err) := prepare_sweep b order o in
    match err with
    | Some _ => (calls, o, err)
    | None =>
      let '(calls', o, err) := activate_sweep b order o in (calls ++ calls', o, err)
    end
  end.

(** ** Health *)
Inductive HealthTier : Type := HealthWarm | HealthDegraded | HealthStale | HealthDead.
#[export] Instance HealthTier_eq_dec : EqDecision HealthTier.
Proof. solve_decision. Defined.

Definition IsReady (t : HealthTier) : bool :=
  match t with HealthWarm | HealthDegraded => true | _ => false end.

Record TrackerConfig : Type := mkTC { GracePeriod : Z; MaxFailures : Z }.

Record HealthTracker : Type := mkHT {
  ht_cfg : TrackerConfig;
  tier : HealthTier;
  reason : string;
  since : Z;
  degradedAt : Z;
  staleFailures : Z
}.

(** 60 seconds, in nanoseconds. *)
Definition default_grace : Z := 60000000000.

Definition NewHealthTracker (cfg : TrackerConfig) (now : Z) : HealthTracker :=
  let grace := if (GracePeriod cfg =? 0)%Z then default_grace else GracePeriod cfg in
  let max := if (MaxFailures cfg <=? 0)%Z then 30%Z else MaxFailures cfg in
  mkHT (mkTC grace max) HealthWarm "initialized" now 0 0.

Definition transitionLocked (to : HealthTier) (why : string) (now : Z) (h : HealthTracker) : HealthTracker :=
  mkHT (ht_cfg h) to why now (degradedAt h) (staleFailures h).

Definition set_degradedAt (t : Z) (h : HealthTracker) : HealthTracker :=
  mkHT (ht_cfg h) (tier h) (reason h) (since h) t (staleFailures h).
Definition set_staleFailures (n : Z) (h : HealthTracker) : HealthTracker :=
  mkHT (ht_cfg h) (tier h) (reason h) (since h) (degradedAt h) n.

(** The tracker and the tier change to announce, if any. *)
Definition RecordSuccess (now : Z) (h : HealthTracker) : HealthTracker * option (HealthTier * HealthTier) :=
  match tier h with
  | HealthDead => (h, None)
  | HealthWarm => (set_staleFailures 0 h, None)
  | t => (set_staleFailures 0 (transitionLocked HealthWarm "recovered" now h), Some (t, HealthWarm))
  end.

(** [now] is the clock reading at the start, [set] that of the transition. *)
Definition RecordFailure (why : string) (now set : Z) (h : HealthTracker)
  : HealthTracker * option (HealthTier * HealthTier) :=
  match tier h with
  | HealthWarm =>
    (set_degradedAt now (transitionLocked HealthDegraded why set h), Some (HealthWarm, HealthDegraded))
  | HealthDegraded =>
    if (GracePeriod (ht_cfg h) <=? now - degradedAt h)%Z
    then (set_staleFailures 1 (transitionLocked HealthStale why set h), Some (HealthDegraded, HealthStale))
    else (h, None)
  | HealthStale =>
    let h := set_staleFailures (staleFailures h + 1) h in
    if (MaxFailures (ht_cfg h) <=? staleFailures h)%Z
    then (transitionLocked HealthDead why set h, Some (HealthStale, HealthDead))
    else (h, None)
  | HealthDead => (h, None)
  end.

Definition HealthStatus (h : HealthTracker) : HealthTier * string * Z := (tier h, reason h, since h).

Open Scope string_scope.
Open Scope list_scope.

(** ** Sorting *)
Lemma sort_ids_Permutation l : sort_ids l ≡ₚ l.
Proof. apply merge_sort_Permutation. Qed.

Lemma sort_ids_unique l1 l2 : l1 ≡ₚ l2 -> sort_ids l1 = sort_ids l2.
Proof.
  intros HP. apply (Sorted_unique Z.le).
  - apply Sorted_merge_sort; apply _.
  - apply Sorted_merge_sort; apply _.
  - by rewrite !sort_ids_Permutation.
Qed.

(** ** The start order *)
Definition ids_of (o : Orchestrator) : list SubsystemID := (map_to_list (subsystems o)).*1.

Definition graph_edges (o : Orchestrator) (ids : list SubsystemID) : list (SubsystemID * SubsystemID) :=
  ids ≫= subsystem_edges o.

Lemma ids_of_NoDup o : NoDup (ids_of o).
Proof. apply NoDup_fst_map_to_list. Qed.

Lemma ids_of_length o : length (ids_of o) = size (subsystems o).
Proof. unfold ids_of. by rewrite length_fmap, length_map_to_list. Qed.

Lemma ids_of_registered o id : id ∈ ids_of o <-> is_registered o id = true.
Proof.
  unfold ids_of, is_registered. rewrite list_elem_of_fmap. split.
  - intros ([k v] & -> & H%elem_of_map_to_list). simpl. by rewrite H.
  - destruct (subsystems o !! id) as [v|] eqn:E; [|done]. intros _. exists (id, v). split; [done|].
    by apply elem_of_map_to_list.
Qed.

Lemma build_graph_spec o ids g :
  build_graph o ids g =
  if forallb (fun id => forallb (is_registered o) (deps_of o id)) ids
  then Ok (fold_left addEdge (graph_edges o ids) g)
  else Err (ErrNew "subsystem %s has missing dependency: %s").
Proof.
  revert g. induction ids as [|id ids IH]; intros g; [done|].
  change (graph_edges o (id :: ids)) with (subsystem_edges o id ++ graph_edges o ids). cbn [build_graph forallb].
  destruct (forallb (is_registered o) (deps_of o id)); cbn [andb]; [|done].
  by rewrite IH, fold_left_app.
Qed.

Lemma graph_edges_spec o ids a b :
  ids ≡ₚ ids_of o -> (a, b) ∈ graph_edges o ids <-> a ∈ deps_of o b.
Proof.
  intros HP. unfold graph_edges. rewrite list_elem_of_bind. unfold subsystem_edges. split.
  - intros (id & (dep & [= -> ->] & Hd)%list_elem_of_fmap & _). done.
  - intros Ha. exists b. split; [apply list_elem_of_fmap; eauto|]. rewrite HP. apply ids_of_registered.
    unfold is_registered. unfold deps_of in Ha. destruct (subsystems o !! b); [done|]. by apply elem_of_nil in Ha.
Qed.

(** Every dependency is registered. *)
Definition closed (o : Orchestrator) : Prop := forall id dep, dep ∈ deps_of o id -> dep ∈ ids_of o.

Definition depends (o : Orchestrator) (b a : SubsystemID) : Prop := a ∈ deps_of o b.

Lemma closed_forallb o ids :
  ids ≡ₚ ids_of o -> forallb (fun id => forallb (is_registered o) (deps_of o id)) ids = true <-> closed o.
Proof.
  intros HP. rewrite forallb_In. unfold closed. split.
  - intros Hf id dep Hd. apply ids_of_registered. destruct (decide (id ∈ ids)) as [Hi|Hi].
    + specialize (Hf id Hi). rewrite forallb_In in Hf. auto.
    + exfalso. apply Hi. rewrite HP. apply ids_of_registered. unfold is_registered, deps_of in *.
      destruct (subsystems o !! id); [done|]. by apply elem_of_nil in Hd.
  - intros Hc id _. apply forallb_In. intros dep Hd. by apply ids_of_registered, (Hc id).
Qed.

Lemma depends_acyclic o (R : Z -> Z -> Prop) :
  (forall a b, R a b <-> depends o b a) ->
  (forall a, ~ tc R a a) <-> (forall a, ~ tc (depends o) a a).
Proof.
  intros HR.
  assert (forall a b, tc R a b -> tc (depends o) b a) as H1.
  { induction 1 as [a b Hab|a b c Hab _ IH]; apply HR in Hab; [by apply tc_once|by eapply tc_r]. }
  assert (forall a b, tc (depends o) a b -> tc R b a) as H2.
  { induction 1 as [a b Hab|a b c Hab _ IH]; apply HR in Hab; [by apply tc_once|by eapply tc_r]. }
  split; intros HA a Ha; apply (HA a); auto.
Qed.

Lemma edges_registered o ids a b :
  ids ≡ₚ ids_of o -> closed o -> (a, b) ∈ graph_edges o ids -> a ∈ ids_of o /\ b ∈ ids_of o.
Proof.
  intros HP Hc Hab. apply (graph_edges_spec o ids a b HP) in Hab. split; [by apply (Hc b)|].
  apply ids_of_registered. unfold is_registered, deps_of in *.
  destruct (subsystems o !! b); [done|]. by apply elem_of_nil in Hab.
Qed.

(** The seeds of the queue: the ids without dependencies, sorted. *)
Definition seeds (deg : gmap Z Z) (ids : list SubsystemID) : list SubsystemID :=
  sort_ids (List.filter (fun id => (degree deg id =? 0)%Z) ids).

Lemma seeds_NoDup o deg ids : ids ≡ₚ ids_of o -> NoDup (seeds deg ids).
Proof.
  intros HP. unfold seeds. rewrite sort_ids_Permutation.
  apply NoDup_ListNoDup, List.NoDup_filter, NoDup_ListNoDup. rewrite HP. apply ids_of_NoDup.
Qed.

Lemma seeds_In o deg ids c : ids ≡ₚ ids_of o -> c ∈ seeds deg ids <-> c ∈ ids_of o /\ degree deg c = 0%Z.
Proof.
  intros HP. unfold seeds. rewrite sort_ids_Permutation, list_elem_of_In, List.filter_In, Z.eqb_eq, <- list_elem_of_In.
  by rewrite HP.
Qed.

(** What [topoSort] computes. *)
Lemma topoSort_spec o ids ids' :
  ids ≡ₚ ids_of o -> ids' ≡ₚ ids_of o ->
  match topoSort o ids ids' with
  | Ok order => order ≡ₚ ids_of o /\ closed o /\ (forall a, ~ tc (depends o) a a) /\
      forall l1 b l2, order = l1 ++ b :: l2 -> forall a, a ∈ deps_of o b -> a ∈ l1
  | Err _ => ~ closed o \/ ~ (forall a, ~ tc (depends o) a a)
  end.
Proof.
  intros HP HP'. unfold topoSort. rewrite build_graph_spec. pose proof (closed_forallb o ids HP) as Hcl.
  destruct (forallb _ ids); simpl; [|left; intros Hc; apply Hcl in Hc; done].
  pose proof (proj1 Hcl eq_refl) as Hc. clear Hcl. destruct (fold_left addEdge _ _) as [graph deg] eqn:Eg.
  destruct (kahn_correct (K := Z) sort_ids) with (nodes := ids_of o) (es := graph_edges o ids) (deg0 := ∅ : gmap Z Z)
    (graph := graph) (deg := deg) (queue := sort_ids (List.filter (fun id => (degree deg id =? 0)%Z) ids'))
    as (order & deg' & Hd & Hno & Hsub & Ht & Hac & Hperm); auto.
  { apply sort_ids_Permutation. }
  { apply ids_of_NoDup. }
  { intros a b. by apply edges_registered. }
  { by apply (seeds_NoDup o). }
  { intros c. by apply seeds_In. }
  rewrite ids_of_length in Hd, Hac, Hperm. rewrite Hd.
  assert ((forall a, ~ tc (listed_edge (graph_edges o ids)) a a) <-> forall a, ~ tc (depends o) a a) as Hacy.
  { apply depends_acyclic. intros a b. by apply graph_edges_spec. }
  destruct (Nat.eqb_spec (length order) (size (subsystems o))) as [Hl|Hl].
  - split_and!; [auto|done|by apply Hacy, Hac|]. intros l1 b l2 Heq a Ha. apply (Ht l1 b l2 Heq). by apply graph_edges_spec.
  - right. intros HA. by apply Hl, Hac, Hacy.
Qed.

Lemma graph_edges_Permutation o ids1 ids2 : ids1 ≡ₚ ids2 -> graph_edges o ids1 ≡ₚ graph_edges o ids2.
Proof. intros HP. unfold graph_edges. by rewrite HP. Qed.

Lemma forallb_Permutation {A} (f : A -> bool) l1 l2 : l1 ≡ₚ l2 -> forallb f l1 = forallb f l2.
Proof.
  intros HP. apply eq_true_iff_eq. rewrite !forallb_In. split; intros H x Hx; apply H; [by rewrite HP|by rewrite <- HP].
Qed.

(** The start order is deterministic.  Whatever orders the Go runtime visits
    the map of subsystems in, [topoSort] gives the same answer. *)
Theorem topoSort_deterministic o ids1 ids1' ids2 ids2' :
  ids1 ≡ₚ ids_of o -> ids1' ≡ₚ ids_of o -> ids2 ≡ₚ ids_of o -> ids2' ≡ₚ ids_of o ->
  topoSort o ids1 ids1' = topoSort o ids2 ids2'.
Proof.
  intros HP1 HP1' HP2 HP2'. unfold topoSort. rewrite !build_graph_spec.
  assert (ids1 ≡ₚ ids2) as HP by by rewrite HP1, HP2. rewrite (forallb_Permutation _ ids2 ids1) by by rewrite HP.
  pose proof (closed_forallb o ids1 HP1) as Hcl. destruct (forallb _ ids1); [|done]. simpl.
  pose proof (proj1 Hcl eq_refl) as Hc. clear Hcl.
  pose proof (graph_edges_Permutation o _ _ HP) as Hes.
  destruct (fold_left addEdge (graph_edges o ids1) _) as [graph1 deg1] eqn:E1.
  destruct (fold_left addEdge (graph_edges o ids2) _) as [graph2 deg2] eqn:E2.
  fold (seeds deg1 ids1') (seeds deg2 ids2').
  assert (seeds deg1 ids1' = seeds deg2 ids2') as Hq.
  { apply sort_ids_unique. rewrite <- (sort_ids_Permutation (List.filter _ ids1')), <- (sort_ids_Permutation (List.filter _ ids2')).
    apply NoDup_Permutation; [by apply (seeds_NoDup o)|by apply (seeds_NoDup o)|]. intros c.
    fold (seeds deg1 ids1') (seeds deg2 ids2'). rewrite (seeds_In o), (seeds_In o) by done.
    destruct (graph_facts (ids_of o) (ids_of_NoDup o) _ (fun a b => edges_registered o ids1 a b HP1 Hc) _ _ _ E1) as (_ & _ & C1 & _); [done|].
    destruct (graph_facts (ids_of o) (ids_of_NoDup o) _ (fun a b => edges_registered o ids2 a b HP2 Hc) _ _ _ E2) as (_ & _ & C2 & _); [done|].
    by rewrite C1, C2, (cnt_Permutation c _ _ (fmap_Permutation snd _ _ Hes)). }
  rewrite <- Hq.
  pose proof (kahn_deterministic sort_ids (ids_of o) _ _ ∅ graph1 deg1 graph2 deg2 (seeds deg1 ids1') (size (subsystems o))
    sort_ids_Permutation sort_ids_unique (ids_of_NoDup o) (fun a b => edges_registered o ids1 a b HP1 Hc) Hes E1 E2) as Hd.
  specialize (Hd (fun _ => eq_refl) (seeds_NoDup o deg1 ids1' HP1') (fun c => seeds_In o deg1 ids1' c HP1')).
  destruct (drain _ _ _ _ deg1 _) as [[order1 ?]|], (drain _ _ _ _ deg2 _) as [[order2 ?]|]; simpl in Hd; try done.
  by injection Hd as ->.
Qed.

(** ** Starting and stopping *)
Lemma prepare_sweep_spec b order o calls o' err :
  prepare_sweep b order o = (calls, o', err) ->
  subsystems o' = subsystems o /\ activatedOrder o' = activatedOrder o /\
  exists done,
    preparedOrder o' = preparedOrder o ++ done /\
    match err with
    | None => done = order /\ calls = map CPrepare done
    | Some _ => done `prefix_of` order /\ calls = map CPrepare done ++ rollback b o'
    end.
Proof.
  revert o calls. induction order as [|id order IH]; intros o calls H; simpl in H.
  { injection H as <- <- <-. split_and!; [done|done|]. exists []. by rewrite app_nil_r. }
  destruct (Prepare b id) as [e|].
  { injection H as <- <- <-. split_and!; [done|done|]. exists [id]. split_and!; [done|by exists order|done]. }
  destruct (prepare_sweep b order _) as [[calls1 o1] err1] eqn:E. injection H as <- <- <-.
  destruct (IH _ _ E) as (H1 & H2 & done & H3 & H4). simpl in *. split_and!; [done|done|].
  exists (id :: done). split; [by rewrite H3, <- app_assoc|]. destruct err1.
  - destruct H4 as [Hp ->]. split; [by apply prefix_cons|done].
  - by destruct H4 as [-> ->].
Qed.

Lemma activate_sweep_spec b order o calls o' err :
  activate_sweep b order o = (calls, o', err) ->
  subsystems o' = subsystems o /\ preparedOrder o' = preparedOrder o /\
  match err with
  | None => activatedOrder o' = activatedOrder o ++ order /\ calls = map CActivate order
  | Some _ => exists done, done `prefix_of` order /\ calls = map CActivate done ++ rollback b o'
  end.
Proof.
  revert o calls. induction order as [|id order IH]; intros o calls H; simpl in H.
  { injection H as <- <- <-. by rewrite app_nil_r. }
  destruct (Activate b id) as [e|].
  { injection H as <- <- <-. split_and!; [done|done|]. exists [id]. split; [by exists order|done]. }
  destruct (activate_sweep b order _) as [[calls1 o1] err1] eqn:E. injection H as <- <- <-.
  destruct (IH _ _ E) as (H1 & H2 & H3). simpl in *. split_and!; [done|done|]. destruct err1.
  - destruct H3 as (done & Hp & ->). exists (id :: done). split; [by apply prefix_cons|done].
  - destruct H3 as [-> ->]. by rewrite <- app_assoc.
Qed.

Definition is_stop (c : call) : bool := match c with CStop _ => true | _ => false end.

Lemma stop_loop_stops b e l c : c ∈ stop_loop b e l -> is_stop c = true.
Proof.
  revert e. induction l as [|id l IH]; intros e; simpl; destruct e; try (by intros ?%elem_of_nil).
  destruct (Stop b id); intros [->|H]%elem_of_cons; [done|by apply IH in H|done|by apply elem_of_nil in H].
Qed.

(** The calls of a run: a part of the start sequence, then stops. *)
Lemma StartAll_calls b ids ids' o calls o' err :
  StartAll b ids ids' o = (calls, o', err) ->
  (calls = [] /\ topoSort o ids ids' = Err (default (ErrNew EmptyString) err)) \/
  exists order prepared activated,
    topoSort o ids ids' = Ok order /\ subsystems o' = subsystems o /\
    preparedOrder o' = prepared /\ prepared `prefix_of` order /\ activated `prefix_of` order /\
    (activated = [] \/ prepared = order) /\
    calls = map CPrepare prepared ++ map CActivate activated ++ match err with Some _ => rollback b o' | None => [] end /\
    (err = None -> prepared = order /\ activated = order /\ activatedOrder o' = order).
Proof.
  unfold StartAll. destruct (topoSort o ids ids') as [order|e]; [|intros [= <- <- <-]; by left].
  destruct (prepare_sweep b order _) as [[calls1 o1] err1] eqn:E1. intros H. right. exists order.
  destruct (prepare_sweep_spec _ _ _ _ _ _ E1) as (S1 & A1 & prepared & P1 & C1). simpl in *.
  destruct err1 as [e|].
  - injection H as <- <- <-. destruct C1 as [Hp ->]. exists prepared, []. split_and!; try done; [apply prefix_nil|by left].
  - destruct C1 as [-> ->]. destruct (activate_sweep b order o1) as [[calls2 o2] err2] eqn:E2. injection H as <- <- <-.
    destruct (activate_sweep_spec _ _ _ _ _ _ E2) as (S2 & P2 & C2). destruct err2 as [e|].
    + destruct C2 as (activated & Ha & ->). exists order, activated. split_and!; try done; [congruence|congruence|by right].
    + destruct C2 as [Ha ->]. exists order, order. split_and!; try done; try congruence; [by right|by rewrite app_nil_r|].
      intros _. split_and!; [done|done|]. by rewrite Ha, A1.
Qed.

Lemma elem_of_map {A B} (f : A -> B) l y : y ∈ map f l <-> exists x, y = f x /\ x ∈ l.
Proof. apply list_elem_of_fmap. Qed.

Lemma split_activate A S l1 id l2 :
  (forall c, c ∈ S -> is_stop c = true) -> map CActivate A ++ S = l1 ++ CActivate id :: l2 ->
  exists a1 a2, A = a1 ++ id :: a2 /\ l1 = map CActivate a1.
Proof.
  intros HS. revert l1. induction A as [|x A IH]; intros l1 H; simpl in H.
  { assert (CActivate id ∈ S) as Hin by (rewrite H; set_solver). by apply HS in Hin. }
  destruct l1 as [|c l1]; injection H as <- H; [by exists [], A|].
  apply IH in H as (a1 & a2 & -> & ->). by exists (x :: a1), a2.
Qed.

Lemma split_activate_prepared P A S l1 id l2 :
  (forall c, c ∈ S -> is_stop c = true) -> map CPrepare P ++ map CActivate A ++ S = l1 ++ CActivate id :: l2 ->
  exists a1 a2, A = a1 ++ id :: a2 /\ l1 = map CPrepare P ++ map CActivate a1.
Proof.
  intros HS. revert l1. induction P as [|x P IH]; intros l1 H; simpl in H; [by apply (split_activate A S l1 id l2)|].
  destruct l1 as [|c l1]; [discriminate H|]. injection H as <- H.
  apply IH in H as (a1 & a2 & -> & ->). by exists a1, a2.
Qed.

Lemma split_prepare P A S l1 id l2 :
  (forall c, c ∈ S -> is_stop c = true) -> map CPrepare P ++ map CActivate A ++ S = l1 ++ CPrepare id :: l2 ->
  exists p1 p2, P = p1 ++ id :: p2 /\ l1 = map CPrepare p1.
Proof.
  intros HS. revert l1. induction P as [|x P IH]; intros l1 H; simpl in H.
  { assert (CPrepare id ∈ map CActivate A ++ S) as Hin by (rewrite H; set_solver).
    apply elem_of_app in Hin as [(y & ? & _)%elem_of_map|Hin]; [done|by apply HS in Hin]. }
  destruct l1 as [|c l1]; injection H as <- H; [by exists [], P|].
  apply IH in H as (p1 & p2 & -> & ->). by exists (x :: p1), p2.
Qed.

Lemma prefix_dependencies o order part :
  (forall l1 b l2, order = l1 ++ b :: l2 -> forall a, a ∈ deps_of o b -> a ∈ l1) -> part `prefix_of` order ->
  forall l1 b l2, part = l1 ++ b :: l2 -> forall a, a ∈ deps_of o b -> a ∈ l1.
Proof. intros Hd [k ->] l1 b l2 -> a Ha. rewrite <- app_assoc in Hd. by apply (Hd l1 b (l2 ++ k)). Qed.

(** Acquire before serve.  In every run of StartAll, failing or not: a
    subsystem is prepared, and activated, only after everything it depends on;
    none is activated before every registered subsystem has been prepared; and
    when StartAll succeeds, each has been prepared once and activated once, and
    none stopped. *)
Theorem StartAll_barrier b ids ids' o calls o' err :
  ids ≡ₚ ids_of o -> ids' ≡ₚ ids_of o -> StartAll b ids ids' o = (calls, o', err) ->
  (forall l1 id l2, calls = l1 ++ CPrepare id :: l2 -> forall dep, dep ∈ deps_of o id -> CPrepare dep ∈ l1) /\
  (forall l1 id l2, calls = l1 ++ CActivate id :: l2 ->
     (forall dep, dep ∈ deps_of o id -> CActivate dep ∈ l1) /\ forall x, x ∈ ids_of o -> CPrepare x ∈ l1) /\
  (err = None -> calls ≡ₚ map CPrepare (ids_of o) ++ map CActivate (ids_of o)).
Proof.
  intros HP HP' H. pose proof (topoSort_spec o ids ids' HP HP') as Ht.
  destruct (StartAll_calls _ _ _ _ _ _ _ H) as [[-> He]|(order & P & A & Ho & _ & _ & Hp & Ha & Hor & -> & Hok)].
  { split_and!; [by intros [|]|by intros [|]|]. intros ->. unfold StartAll in H. rewrite He in H. done. }
  rewrite Ho in Ht. destruct Ht as (Hperm & _ & _ & Hdep).
  assert (forall c, c ∈ match err with Some _ => rollback b o' | None => [] end -> is_stop c = true) as HS.
  { intros c. destruct err; [apply stop_loop_stops|by intros ?%elem_of_nil]. }
  split_and!.
  - intros l1 id l2 (p1 & p2 & Heq & ->)%split_prepare dep Hd; [|done].
    apply elem_of_map. exists dep. split; [done|]. by apply (prefix_dependencies o order P Hdep Hp p1 id p2).
  - intros l1 id l2 (a1 & a2 & Heq & ->)%split_activate_prepared; [|done]. split.
    + intros dep Hd. apply elem_of_app. right. apply elem_of_map. exists dep. split; [done|].
      by apply (prefix_dependencies o order A Hdep Ha a1 id a2).
    + intros x Hx. destruct Hor as [-> | ->]; [by destruct a1|]. apply elem_of_app. left. apply elem_of_map.
      exists x. split; [done|]. by rewrite Hperm.
  - intros ->. destruct (Hok eq_refl) as (-> & -> & _). rewrite app_nil_r. by rewrite Hperm.
Qed.

Lemma stop_loop_prefix b e l :
  exists stopped, stop_loop b e l = map CStop stopped /\ stopped `prefix_of` l /\
    (e = false -> (forall id, exists r, Stop b id = Stopped r false) -> stopped = l).
Proof.
  revert e. induction l as [|id l IH]; intros e; simpl.
  { exists []. split_and!; [by destruct e|done|done]. }
  destruct e; [exists []; split_and!; [done|apply prefix_nil|done]|].
  destruct (Stop b id) as [r e'|] eqn:Es.
  - destruct (IH e') as (stopped & -> & Hp & Hall). exists (id :: stopped). split_and!; [done|by apply prefix_cons|].
    intros _ Hr. f_equal. apply Hall; [|done]. destruct (Hr id) as [r' Hr']. congruence.
  - exists [id]. split_and!; [done|by exists l|]. intros _ Hr. destruct (Hr id) as [r' Hr']. congruence.
Qed.

(** Rollback.  When starting fails once the order is known, the run is a part
    of the start sequence followed by stops only; the stops are of the prepared
    subsystems, the failed one included, most recent first, and of all of them
    unless a stop outlives the rollback's deadline. *)
Theorem StartAll_rollback b ids ids' o calls o' e order :
  topoSort o ids ids' = Ok order -> StartAll b ids ids' o = (calls, o', Some e) ->
  exists starts stopped, calls = starts ++ map CStop stopped /\
    (forall c, c ∈ starts -> is_stop c = false) /\
    (forall id, CPrepare id ∈ starts <-> id ∈ preparedOrder o') /\
    (forall id, CActivate id ∈ starts -> id ∈ preparedOrder o') /\
    stopped `prefix_of` rev (preparedOrder o') /\
    ((forall id, exists r, Stop b id = Stopped r false) -> stopped = rev (preparedOrder o')).
Proof.
  intros Ho H.
  destruct (StartAll_calls _ _ _ _ _ _ _ H) as [[_ He]|(order' & P & A & Ho' & _ & HP & Hp & Ha & Hor & -> & _)];
    [congruence|].
  destruct (stop_loop_prefix b false (rev (preparedOrder o'))) as (stopped & Hs & Hpre & Hall).
  exists (map CPrepare P ++ map CActivate A), stopped. rewrite HP in *. split_and!; [|..|done|auto].
  - unfold rollback, StopAll. by rewrite HP, Hs, <- app_assoc.
  - intros c [(x & -> & _)%elem_of_map|(x & -> & _)%elem_of_map]%elem_of_app; done.
  - intros id. rewrite elem_of_app, !elem_of_map. split; [|eauto]. intros [(x & [= ->] & ?)|(x & ? & _)]; done.
  - intros id. rewrite elem_of_app, !elem_of_map. intros [(x & ? & _)|(x & [= ->] & Hx)]; [done|].
    destruct Hor as [-> | ->]; [by apply elem_of_nil in Hx|]. destruct Ha as [k ->]. set_solver.
Qed.

(** ** Health *)
Inductive health_op : Type := HSuccess (now : Z) | HFailure (why : string) (now set : Z).

Definition health_step (h : HealthTracker) (op : health_op) : HealthTracker :=
  match op with
  | HSuccess now => (RecordSuccess now h).1
  | HFailure why now set => (RecordFailure why now set h).1
  end.

Definition health_run (cfg : TrackerConfig) (now : Z) (ops : list health_op) : HealthTracker :=
  fold_left health_step ops (NewHealthTracker cfg now).

Definition is_failure (op : health_op) : bool := match op with HFailure _ _ _ => true | HSuccess _ => false end.

(** [ops] ends with an unbroken run of failures that began at [t0]. *)
Definition failing_since (t0 : Z) (ops : list health_op) : Prop :=
  exists pre why s mid, ops = pre ++ HFailure why t0 s :: mid /\ forallb is_failure mid = true.

(** [ops] ends with an unbroken run of failures that began at [t0], of which the
    last [n] came no earlier than the grace period after. *)
Definition stale_since (grace t0 n : Z) (ops : list health_op) : Prop :=
  exists pre why s mid why1 t1 s1 late,
    ops = pre ++ HFailure why t0 s :: mid ++ HFailure why1 t1 s1 :: late /\
    forallb is_failure mid = true /\ forallb is_failure late = true /\
    (grace <= t1 - t0)%Z /\ n = Z.of_nat (S (length late)).

(** What the tier says of the calls so far. *)
Definition tier_explained (h : HealthTracker) (ops : list health_op) : Prop :=
  let grace := GracePeriod (ht_cfg h) in
  match tier h with
  | HealthWarm => True
  | HealthDegraded => failing_since (degradedAt h) ops
  | HealthStale => stale_since grace (degradedAt h) (staleFailures h) ops
  | HealthDead => exists ops1 ops2, ops = ops1 ++ ops2 /\
      exists t0 n, stale_since grace t0 n ops1 /\ (MaxFailures (ht_cfg h) <= n)%Z
  end.

Lemma failing_since_snoc t0 ops op : is_failure op = true -> failing_since t0 ops -> failing_since t0 (ops ++ [op]).
Proof.
  intros Hf (pre & why & s & mid & -> & Hm). exists pre, why, s, (mid ++ [op]). split; [by rewrite <- app_assoc|].
  rewrite forallb_app, Hm. simpl. by rewrite Hf.
Qed.

Lemma stale_since_snoc grace t0 n ops op :
  is_failure op = true -> stale_since grace t0 n ops -> stale_since grace t0 (n + 1) (ops ++ [op]).
Proof.
  intros Hf (pre & why & s & mid & why1 & t1 & s1 & late & -> & Hm & Hl & Hg & ->).
  exists pre, why, s, mid, why1, t1, s1, (late ++ [op]). split_and!; auto.
  - rewrite <- app_assoc. simpl. by rewrite <- app_assoc.
  - rewrite forallb_app, Hl. simpl. by rewrite Hf.
  - rewrite length_app. simpl. lia.
Qed.

Lemma tier_explained_step h ops op : tier_explained h ops -> tier_explained (health_step h op) (ops ++ [op]).
Proof.
  unfold tier_explained. intros H. destruct op as [now|why now set]; simpl.
  - unfold RecordSuccess. destruct (tier h) eqn:Et; simpl; rewrite ?Et; try done.
    destruct H as (ops1 & ops2 & -> & H). exists ops1, (ops2 ++ [HSuccess now]). split; [by rewrite app_assoc|done].
  - unfold RecordFailure. destruct (tier h) eqn:Et; simpl.
    + by exists ops, why, set, [].
    + destruct (Z.leb_spec (GracePeriod (ht_cfg h)) (now - degradedAt h)); simpl; rewrite ?Et.
      * destruct H as (pre & w & s & mid & -> & Hm). exists pre, w, s, mid, why, now, set, []. by rewrite <- app_assoc.
      * by apply failing_since_snoc.
    + destruct (Z.leb_spec (MaxFailures (ht_cfg h)) (staleFailures h + 1)); simpl; rewrite ?Et.
      * exists (ops ++ [HFailure why now set]), []. rewrite app_nil_r. split; [done|].
        exists (degradedAt h), (staleFailures h + 1)%Z. split; [by apply stale_since_snoc|done].
      * by apply stale_since_snoc.
    + rewrite Et. destruct H as (ops1 & ops2 & -> & H). exists ops1, (ops2 ++ [HFailure why now set]).
      split; [by rewrite app_assoc|done].
Qed.

(** Health tiers.  A tracker is degraded only while failing without a break;
    stale only when failures have lasted, without a success, for the grace
    period; and dead only if at some point that many consecutive failures
    followed a full grace period of failing.  Dead is final. *)
Theorem health_tiers_explained cfg now ops :
  tier_explained (health_run cfg now ops) ops /\
  (tier (health_run cfg now ops) = HealthDead -> forall more, tier (health_run cfg now (ops ++ more)) = HealthDead).
Proof.
  split.
  - unfold health_run. induction ops as [|op ops IH] using rev_ind; [done|].
    rewrite fold_left_app. by apply tier_explained_step.
  - intros Hd more. unfold health_run in *. rewrite fold_left_app. revert Hd.
    generalize (fold_left health_step ops (NewHealthTracker cfg now)) as h.
    induction more as [|op more IH]; intros h Hd; [done|]. simpl. apply IH.
    destruct op; simpl; unfold RecordSuccess, RecordFailure; by rewrite Hd.
Qed.

(** ** A concrete server: the database, access control on top of it, and the
    gateway on top of both. *)
Definition demo_orch : Orchestrator := mkOrch (<[8 := [2; 0]]> (<[2 := [0]]> {[0 := []]}))%Z [] [].
Definition demo_behaviour (broken : SubsystemID) : behaviour :=
  mkBeh (fun _ => None) (fun id => if (id =? broken)%Z then Some (ErrNew "bind: address in use") else None)
        (fun _ => Stopped None false).

Lemma demo_ids : [0; 2; 8]%Z ≡ₚ ids_of demo_orch.
Proof.
  apply NoDup_Permutation; [by apply (bool_decide_unpack _)|apply ids_of_NoDup|]. intros x.
  rewrite ids_of_registered. unfold is_registered, demo_orch. simpl.
  destruct (decide (x ∈ [0; 2; 8]%Z)) as [H|H].
  - split; [|done]. intros _. set_unfold in H. destruct H as [->|[->|[->|[]]]]; reflexivity.
  - split; [done|]. intros Hx. exfalso. apply H.
    destruct (decide (x = 8%Z)) as [->|]; [set_solver|]. destruct (decide (x = 2%Z)) as [->|]; [set_solver|].
    destruct (decide (x = 0%Z)) as [->|]; [set_solver|].
    by rewrite !lookup_insert_ne, lookup_singleton_ne in Hx by done.
Qed.

Lemma topoSort_deterministic_witness :
  topoSort demo_orch [0; 2; 8]%Z [0; 2; 8]%Z = topoSort demo_orch [8; 2; 0]%Z [2; 8; 0]%Z.
Proof.
  assert ([8; 2; 0]%Z ≡ₚ [0; 2; 8]%Z) as H1 by (apply (bool_decide_unpack _); vm_compute; exact I).
  assert ([2; 8; 0]%Z ≡ₚ [0; 2; 8]%Z) as H2 by (apply (bool_decide_unpack _); vm_compute; exact I).
  apply topoSort_deterministic.
  - exact demo_ids.
  - exact demo_ids.
  - rewrite H1. exact demo_ids.
  - rewrite H2. exact demo_ids.
Defined.

Lemma StartAll_barrier_witness :
  exists calls o' err, StartAll (demo_behaviour 8) [0; 2; 8]%Z [0; 2; 8]%Z demo_orch = (calls, o', err) /\
    forall l1 id l2, calls = l1 ++ CActivate id :: l2 -> forall x, x ∈ ids_of demo_orch -> CPrepare x ∈ l1.
Proof.
  destruct (StartAll (demo_behaviour 8) [0; 2; 8]%Z [0; 2; 8]%Z demo_orch) as [[calls o'] err] eqn:E.
  exists calls, o', err. split; [reflexivity|].
  destruct (StartAll_barrier (demo_behaviour 8) [0; 2; 8]%Z [0; 2; 8]%Z demo_orch calls o' err demo_ids demo_ids E)
    as (_ & H & _).
  intros l1 id l2 Heq. exact (proj2 (H l1 id l2 Heq)).
Defined.

Definition is_rollback (r : list call * Orchestrator * option error) : bool :=
  match r with
  | ([CPrepare 0; CPrepare 2; CPrepare 8; CActivate 0; CActivate 2; CActivate 8; CStop 8; CStop 2; CStop 0]%Z, _, Some _) => true
  | _ => false
  end.

Lemma StartAll_rollback_witness :
  exists starts calls o', calls = starts ++ map CStop (rev (preparedOrder o')) /\ CStop 8 ∈ calls.
Proof.
  assert (is_rollback (StartAll (demo_behaviour 8) [0; 2; 8]%Z [0; 2; 8]%Z demo_orch) = true) as Hr
    by (vm_compute; reflexivity).
  destruct (StartAll (demo_behaviour 8) [0; 2; 8]%Z [0; 2; 8]%Z demo_orch) as [[calls o'] err] eqn:E.
  destruct err as [e|]; [|unfold is_rollback in Hr; repeat (case_match; try discriminate Hr)].
  destruct (topoSort demo_orch [0; 2; 8]%Z [0; 2; 8]%Z) as [order|] eqn:Eo.
  2:{ unfold StartAll in E. rewrite Eo in E. injection E as <- _ _. discriminate Hr. }
  destruct (StartAll_rollback (demo_behaviour 8) [0; 2; 8]%Z [0; 2; 8]%Z demo_orch calls o' e order Eo E)
    as (starts & stopped & Hc & _ & _ & _ & _ & Hall).
  exists starts, calls, o'. split.
  - rewrite <- Hall; [exact Hc|]. intros id. exists None. reflexivity.
  - unfold is_rollback in Hr. repeat (case_match; try discriminate Hr). subst. set_solver.
Defined.
