(* ===== verification/PolicyHealth.v ===== *)
(** Degraded mode, end to end: the policy poller
    ([internal/access/policy/poller.go]) and the wiring of poller, store
    callback, health tracker and engine in [internal/access/setup/setup.go].

    The tracker changes under its lock and calls [OnTierChange] after releasing
    it, on the goroutine of the caller (the poller's, or that of a store
    mutation).  So a record and its notification are two events, and
    notifications wait in [st_pending] in the order of their records. *)

From S2P Require Import Prelude GoStrings PolicyTypes PolicyEval PolicyCache PolicyEngine.
From S2P Require Import AttrResolver AttrResolverFacts AccessScenarios Lifecycle.

Open Scope string_scope.
Open Scope list_scope.

(** ** The poller *)

(** The zero time and count before the first reload are never read. *)
Record Poller : Type := mkPoller {
  p_Interval : Z;
  lastUpdated : Z;
  lastCount : Z;
  initialized : bool
}.

(** [hasQuerier] and the like: the field of the configuration is not nil. *)
Definition NewPoller (hasQuerier hasReloader hasTracker : bool) (interval : Z) : result Poller :=
  if negb hasQuerier then Err (ErrNew "policy poller: Querier is required")
  else if negb hasReloader then Err (ErrNew "policy poller: Reloader is required")
  else if negb hasTracker then Err (ErrNew "policy poller: Tracker is required")
  else Ok (mkPoller (if (interval <=? 0)%Z then 10000000000 else interval) 0 0 false).

(** What a poll tells the tracker. *)
Inductive verdict : Type := RecSuccess | RecFailure (why : string).

(** The calls of a poll: what the querier answered, what [Reload] returned if it
    was called, and what was recorded. *)
Record poll_trace : Type := mkTrace {
  pt_query : result (Z * Z);
  pt_reload : option (option error);
  pt_record : verdict
}.

Section poller.
  (** [error.Error()]. *)
  Variable error_text : error -> string.

(** [query] is the querier's answer, [reload] what [Reload] returns if called. *)
Definition poll (p : Poller) (query : result (Z * Z)) (reload : option error) : Poller * poll_trace :=
  match query with
  | Err err => (p, mkTrace query None (RecFailure ("poll query failed: " +:+ error_text err)))
  | Ok (latest, count) =>
    let advanced := mkPoller (p_Interval p) latest count true in
    if negb (initialized p) then
      match reload with
      | Some e => (p, mkTrace query (Some reload) (RecFailure ("initial reload failed: " +:+ error_text e)))
      | None => (advanced, mkTrace query (Some reload) RecSuccess)
      end
    else
      let changed := (lastUpdated p <? latest)%Z || negb (count =? lastCount p)%Z in
      if negb changed then (p, mkTrace query None RecSuccess)
      else match reload with
      | Some e => (p, mkTrace query (Some reload) (RecFailure ("reload failed: " +:+ error_text e)))
      | None => (advanced, mkTrace query (Some reload) RecSuccess)
      end
  end.

(** [Run]: one poll at once and one per tick, until the context is done. *)
Fixpoint poll_run (p : Poller) (inputs : list (result (Z * Z) * option error)) : list poll_trace :=
  match inputs with
  | [] => []
  | (query, reload) :: rest => let '(p', t) := poll p query reload in t :: poll_run p' rest
  end.

(** ** The stack *)

Definition on_tier_change (st : Engine * process) (change : HealthTier * HealthTier) : Engine * process :=
  let '(from, to) := change in
  match to with
  | HealthDead | HealthStale => EnterDegradedMode st.1 st.2
  | HealthWarm =>
    match from with HealthStale | HealthDead => ClearDegradedMode st.1 st.2 | _ => st end
  | HealthDegraded => st
  end.

(** [st_ops], the calls of the tracker so far, is ghost state. *)
Record stack : Type := mkStack {
  st_poller : Poller;
  st_tracker : HealthTracker;
  st_pending : list (HealthTier * HealthTier);
  st_engine : Engine;
  st_process : process;
  st_ops : list health_op
}.

Definition setup_config : TrackerConfig := mkTC 60000000000 30.
Definition setup_stack (p : Poller) (now : Z) : stack :=
  mkStack p (NewHealthTracker setup_config now) [] (mkEngine false) (mkProcess 0 0) [].

Inductive stack_event : Type :=
| SvPoll (query : result (Z * Z)) (reload : option error) (now set : Z)    (* the poller polls *)
| SvMutated (invalidate : option error) (now set : Z)      (* the store's callback, after [Invalidate] *)
| SvNotify (k : nat).                                      (* the k-th waiting notification is made *)

Definition op_of (v : verdict) (now set : Z) : health_op :=
  match v with RecSuccess => HSuccess now | RecFailure why => HFailure why now set end.

Definition record_op (op : health_op) (h : HealthTracker) : HealthTracker * option (HealthTier * HealthTier) :=
  match op with
  | HSuccess now => RecordSuccess now h
  | HFailure why now set => RecordFailure why now set h
  end.

Definition stack_record (op : health_op) (s : stack) : stack :=
  let '(h, change) := record_op op (st_tracker s) in
  mkStack (st_poller s) h (st_pending s ++ match change with Some c => [c] | None => [] end)
    (st_engine s) (st_process s) (st_ops s ++ [op]).

Definition set_poller (p : Poller) (s : stack) : stack :=
  mkStack p (st_tracker s) (st_pending s) (st_engine s) (st_process s) (st_ops s).

Definition stack_step (s : stack) (ev : stack_event) : option stack :=
  match ev with
  | SvPoll query reload now set =>
    let '(p, t) := poll (st_poller s) query reload in
    Some (stack_record (op_of (pt_record t) now set) (set_poller p s))
  | SvMutated (Some e) now set =>
    Some (stack_record (HFailure ("invalidation failed: " +:+ error_text e) now set) s)
  | SvMutated None now set => Some (stack_record (HSuccess now) s)
  | SvNotify k =>
    match st_pending s !! k with
    | None => None
    | Some change =>
      let '(e, p) := on_tier_change (st_engine s, st_process s) change in
      Some (mkStack (st_poller s) (st_tracker s) (delete k (st_pending s)) e p (st_ops s))
    end
  end.

Fixpoint stack_run (s : stack) (evs : list stack_event) : option stack :=
  match evs with
  | [] => Some s
  | ev :: evs' => match stack_step s ev with Some s' => stack_run s' evs' | None => None end
  end.

(** ** Polls *)

(** The baseline of an initialised poller was reloaded. *)
Definition baseline (p : Poller) (past : list poll_trace) : Prop :=
  initialized p = true ->
  exists t, t ∈ past /\ pt_query t = Ok (lastUpdated p, lastCount p) /\ pt_reload t = Some None.

(** A successful poll has seen a version no newer than one already reloaded. *)
Definition covered (past : list poll_trace) (t : poll_trace) : Prop :=
  pt_record t = RecSuccess ->
  exists l c t' l', pt_query t = Ok (l, c) /\ t' ∈ past ++ [t] /\ pt_query t' = Ok (l', c) /\ (l <= l')%Z /\
    pt_reload t' = Some None.

Lemma poll_baseline p query reload past :
  baseline p past ->
  baseline (poll p query reload).1 (past ++ [(poll p query reload).2]) /\ covered past (poll p query reload).2.
Proof.
  intros Hb. assert (forall t, baseline p (past ++ [t])) as Hb'.
  { intros t Hi. destruct (Hb Hi) as (t' & Ht & ?). exists t'. split; [set_solver|done]. }
  unfold poll. destruct query as [[latest count]|err]; [|by split].
  assert (covered past (mkTrace (Ok (latest, count)) (Some None) RecSuccess)) as Hc.
  { intros _. exists latest, count, (mkTrace (Ok (latest, count)) (Some None) RecSuccess), latest.
    split_and!; [done|set_solver|done|lia|done]. }
  assert (forall i, baseline (mkPoller i latest count true)
            (past ++ [mkTrace (Ok (latest, count)) (Some None) RecSuccess])) as Hn.
  { intros i _. eexists. split; [apply elem_of_app; right; by apply list_elem_of_singleton|done]. }
  destruct (initialized p) eqn:Ei; simpl; [|destruct reload; split; done || apply Hn].
  destruct (Z.ltb_spec (lastUpdated p) latest); destruct (Z.eqb_spec count (lastCount p)); simpl;
    try (destruct reload; split; done || apply Hn).
  split; [done|]. intros _. destruct (Hb Ei) as (t & Ht & Hq & Hr). subst count.
  exists latest, (lastCount p), t, (lastUpdated p). split_and!; [done|set_solver|done|lia|done].
Qed.

Lemma poll_run_covered p inputs past pre t post :
  baseline p past -> poll_run p inputs = pre ++ t :: post -> covered (past ++ pre) t.
Proof.
  revert p past pre. induction inputs as [|[q r] inputs IH]; intros p past pre Hb Heq; simpl in Heq.
  { by destruct pre. }
  destruct (poll_baseline p q r past Hb) as [Hb' Hc]. destruct (poll p q r) as [p' t0]. simpl in *.
  destruct pre as [|x pre]; simpl in Heq; injection Heq as <- Heq; [by rewrite app_nil_r|].
  rewrite cons_middle, app_assoc. by apply (IH p').
Qed.

Lemma poll_query p q r : pt_query (poll p q r).2 = q.
Proof. unfold poll. by repeat case_match. Qed.

(** A failed reload is tried again. *)
Lemma poll_retries p q r l c q2 r2 l2 :
  (poll p q r).2 = mkTrace (Ok (l, c)) (Some (Some q2)) (pt_record (poll p q r).2) -> (l <= l2)%Z ->
  pt_reload (poll (poll p q r).1 (Ok (l2, c)) r2).2 = Some r2.
Proof.
  destruct q as [[l' c']|]; simpl; [|done]. destruct (initialized p) eqn:Ei; simpl.
  - destruct (_ || _) eqn:Ec; simpl; [|done]. destruct r; simpl; [|done]. intros [= -> -> ->] Hl. rewrite Ei. simpl.
    assert ((lastUpdated p <? l2)%Z || negb (c =? lastCount p)%Z = true) as ->.
    { destruct (Z.ltb_spec (lastUpdated p) l), (Z.ltb_spec (lastUpdated p) l2); simpl in *; try done. lia. }
    by destruct r2.
  - destruct r; simpl; [|done]. intros [= -> -> ->] _. rewrite Ei. by destruct r2.
Qed.

Lemma poll_run_retries p inputs pre t t2 post l c e l2 :
  poll_run p inputs = pre ++ t :: t2 :: post -> pt_query t = Ok (l, c) -> pt_reload t = Some (Some e) ->
  pt_query t2 = Ok (l2, c) -> (l <= l2)%Z -> pt_reload t2 <> None.
Proof.
  revert p pre. induction inputs as [|[q r] inputs IH]; intros p pre Heq Hq Hr Hq2 Hl; simpl in Heq; [by destruct pre|].
  destruct (poll p q r) as [p' t0] eqn:E. destruct pre as [|x pre]; simpl in Heq; injection Heq as -> Heq; [|eauto].
  destruct inputs as [|[q2 r2] inputs]; simpl in Heq; [done|].
  destruct (poll p' q2 r2) as [p'' t2'] eqn:E2. injection Heq as -> _.
  assert (q2 = Ok (l2, c)) as -> by (rewrite <- Hq2, <- (poll_query p' q2 r2); by rewrite E2).
  pose proof (poll_retries p q r l c e r2 l2) as H. rewrite E in H. cbn [fst snd] in H. rewrite E2 in H. cbn [fst snd] in H.
  rewrite H; [done| |done]. destruct t; simpl in *; by subst.
Qed.

(** No policy change is lost by polling.  Every poll recorded as a success has
    seen a version of the policy table (latest change, number of policies) that
    is no newer than one for which a reload succeeded, at that poll or before;
    and when a reload fails, the next poll that still sees that version reloads
    again. *)
Theorem poller_covers interval p inputs :
  NewPoller true true true interval = Ok p ->
  (forall pre t post, poll_run p inputs = pre ++ t :: post -> covered pre t) /\
  (forall pre t t2 post l c e l2, poll_run p inputs = pre ++ t :: t2 :: post ->
     pt_query t = Ok (l, c) -> pt_reload t = Some (Some e) -> pt_query t2 = Ok (l2, c) -> (l <= l2)%Z ->
     pt_reload t2 <> None).
Proof.
  intros [= <-]. split.
  - intros pre t post Heq. eapply (poll_run_covered _ inputs [] pre t post); [|exact Heq]. by intros ?.
  - intros. by eapply poll_run_retries.
Qed.

(** ** Health and degraded mode *)

(** The order in which notifications are made is that of the tier changes. *)
Definition fifo (ev : stack_event) : bool := match ev with SvNotify (S _) => false | _ => true end.

Lemma health_step_record h op : health_step h op = (record_op op h).1.
Proof. by destruct op. Qed.

(** A reported change is the change of tier, and one of five. *)
Inductive tier_move : HealthTier -> HealthTier -> Prop :=
| tm_degrade : tier_move HealthWarm HealthDegraded
| tm_stale : tier_move HealthDegraded HealthStale
| tm_die : tier_move HealthStale HealthDead
| tm_recover : tier_move HealthDegraded HealthWarm
| tm_restore : tier_move HealthStale HealthWarm.
#[local] Hint Constructors tier_move : core.

Lemma record_op_change op h :
  match (record_op op h).2 with
  | None => tier (record_op op h).1 = tier h
  | Some (from, to) => from = tier h /\ to = tier (record_op op h).1 /\ tier_move from to
  end.
Proof.
  destruct op as [now|why now set]; simpl; unfold RecordSuccess, RecordFailure; destruct (tier h) eqn:Et; simpl;
    rewrite ?Et; auto 6; destruct (_ <=? _)%Z; simpl; rewrite ?Et; auto 6.
Qed.

Lemma on_tier_change_degraded st from to :
  tier_move from to -> degraded st.1 = negb (IsReady from) ->
  degraded (on_tier_change st (from, to)).1 = negb (IsReady to).
Proof.
  destruct st as [e p]. intros Hm Hd. simpl in Hd. destruct Hm; simpl in *; try done;
    unfold EnterDegradedMode, ClearDegradedMode; by rewrite Hd.
Qed.

(** Once the waiting notifications are made in order, the engine is degraded
    exactly when the tracker's tier is not servable. *)
Record stack_inv (now : Z) (s : stack) : Prop := {
  si_tracker : st_tracker s = health_run setup_config now (st_ops s);
  si_mode : degraded (fold_left on_tier_change (st_pending s) (st_engine s, st_process s)).1 =
            negb (IsReady (tier (st_tracker s)))
}.

Lemma stack_record_inv now op s : stack_inv now s -> stack_inv now (stack_record op s).
Proof.
  intros [Ht Hm]. unfold stack_record. pose proof (record_op_change op (st_tracker s)) as Hc.
  pose proof (health_step_record (st_tracker s) op) as Hs.
  destruct (record_op op (st_tracker s)) as [h [[from to]|]]; simpl in *; subst h; split; simpl.
  1,3: unfold health_run; rewrite fold_left_app; simpl; by rewrite Ht.
  - rewrite fold_left_app. destruct Hc as (-> & Hto & Hmv). cbn [fold_left].
    by rewrite (on_tier_change_degraded _ _ _ Hmv Hm), Hto.
  - by rewrite app_nil_r, Hc.
Qed.

Lemma stack_step_inv now s ev s' :
  fifo ev = true -> stack_inv now s -> stack_step s ev = Some s' -> stack_inv now s'.
Proof.
  intros Hf Hi. destruct ev as [q r t set|[e|] t set|[|k]]; simpl; [| | | |done].
  - destruct (poll (st_poller s) q r) as [p tr]. intros [= <-]. apply stack_record_inv. by destruct Hi.
  - intros [= <-]. by apply stack_record_inv.
  - intros [= <-]. by apply stack_record_inv.
  - destruct Hi as [Ht Hm]. destruct (st_pending s) as [|c rest] eqn:Ep; simpl; [done|]. simpl in Hm.
    destruct (on_tier_change (st_engine s, st_process s) c) as [e p]. intros [= <-]. by split.
Qed.

Lemma stack_run_inv now s evs s' :
  forallb fifo evs = true -> stack_inv now s -> stack_run s evs = Some s' -> stack_inv now s'.
Proof.
  revert s. induction evs as [|ev evs IH]; intros s Hf Hi Hr; simpl in *; [by injection Hr as <-|].
  bool_prop. destruct (stack_step s ev) as [s1|] eqn:Es; [|done]. eapply IH; [done| |done]. by eapply stack_step_inv.
Qed.
End poller.

(** ** Outages *)

(** The calls end with failures only, from a first one at [t0], after a success or
    from the start, to one at least [grace] later. *)
Definition outage (grace : Z) (ops : list health_op) : Prop :=
  exists pre why t0 s0 mid why1 t1 s1 late,
    ops = pre ++ HFailure why t0 s0 :: mid ++ HFailure why1 t1 s1 :: late /\
    forallb is_failure mid = true /\ forallb is_failure late = true /\ (grace <= t1 - t0)%Z /\
    (pre = [] \/ exists pre' now, pre = pre' ++ [HSuccess now]).

Lemma health_step_cfg h op : ht_cfg (health_step h op) = ht_cfg h.
Proof.
  destruct op; simpl; unfold RecordSuccess, RecordFailure; destruct (tier h); simpl; try done; by destruct (_ <=? _)%Z.
Qed.

Lemma health_fold_cfg ops h : ht_cfg (fold_left health_step ops h) = ht_cfg h.
Proof. revert h. induction ops as [|op ops IH]; intros h; simpl; [done|]. by rewrite IH, health_step_cfg. Qed.

Lemma failures_keep_unready ops h :
  forallb is_failure ops = true -> IsReady (tier h) = false -> IsReady (tier (fold_left health_step ops h)) = false.
Proof.
  revert h. induction ops as [|op ops IH]; intros h Hf Hr; simpl in *; [done|]. bool_prop. apply IH; [done|].
  destruct op as [|why now set]; [done|]. simpl. unfold RecordFailure.
  destruct (tier h) eqn:Et; try done; simpl; rewrite ?Et; [|done]. by destruct (_ <=? _)%Z; simpl; rewrite ?Et.
Qed.

(** While failures go on, the tracker waits out the grace period or has left it. *)
Lemma failures_from_degraded ops h t0 :
  forallb is_failure ops = true -> tier h = HealthDegraded -> degradedAt h = t0 ->
  let h' := fold_left health_step ops h in
  tier h' = HealthDegraded /\ degradedAt h' = t0 /\ ht_cfg h' = ht_cfg h \/ IsReady (tier h') = false.
Proof.
  revert h. induction ops as [|op ops IH]; intros h Hf Ht Hd; simpl in *; [by left|]. bool_prop.
  pose proof (health_step_cfg h op) as Hcfg.
  destruct op as [|why now set]; [done|]. simpl in *. unfold RecordFailure in *. rewrite Ht in *.
  destruct (_ <=? _)%Z; simpl in *; [|by apply IH]. right. by apply failures_keep_unready.
Qed.

Lemma outage_unready cfg now ops :
  outage (GracePeriod (ht_cfg (NewHealthTracker cfg now))) ops -> IsReady (tier (health_run cfg now ops)) = false.
Proof.
  intros (pre & why & t0 & s0 & mid & why1 & t1 & s1 & late & -> & Hm & Hl & Hg & Hpre).
  unfold health_run. rewrite fold_left_app.
  set (h := fold_left health_step pre (NewHealthTracker cfg now)).
  assert (ht_cfg h = ht_cfg (NewHealthTracker cfg now)) as Hcfg by apply health_fold_cfg.
  assert (tier h = HealthWarm \/ tier h = HealthDead) as Hw.
  { unfold h. destruct Hpre as [->|(pre' & t & ->)]; [by left|]. rewrite fold_left_app. simpl.
    unfold RecordSuccess. destruct (tier (fold_left _ pre' _)) eqn:E; simpl; rewrite ?E; auto. }
  cbn [fold_left]. destruct Hw as [Hw|Hw].
  2:{ apply failures_keep_unready.
      - rewrite forallb_app. simpl. by rewrite Hm, Hl.
      - simpl. unfold RecordFailure. rewrite Hw. simpl. by rewrite Hw. }
  assert (tier (health_step h (HFailure why t0 s0)) = HealthDegraded /\
          degradedAt (health_step h (HFailure why t0 s0)) = t0) as [Ht Hd].
  { simpl. unfold RecordFailure. by rewrite Hw. }
  rewrite fold_left_app. cbn [fold_left]. apply failures_keep_unready; [done|].
  destruct (failures_from_degraded mid _ t0 Hm Ht Hd) as [(Ht' & Hd' & Hc')|Hr].
  - rewrite health_step_cfg, Hcfg in Hc'. cbn [health_step] in *. unfold RecordFailure at 1. rewrite Ht', Hd', Hc'.
    apply Z.leb_le in Hg. by rewrite Hg.
  - by apply (failures_keep_unready [HFailure why1 t1 s1]).
Qed.

(** Degraded mode has a cause: at some point failures had outlasted the grace
    period. *)
Lemma unready_explained h ops :
  tier_explained h ops -> IsReady (tier h) = false ->
  exists ops1 ops2 t0 n, ops = ops1 ++ ops2 /\ stale_since (GracePeriod (ht_cfg h)) t0 n ops1.
Proof.
  unfold tier_explained. destruct (tier h); try done; intros H _.
  - exists ops, [], (degradedAt h), (staleFailures h). by rewrite app_nil_r.
  - destruct H as (ops1 & ops2 & -> & t0 & n & H & _). by exists ops1, ops2, t0, n.
Qed.

Lemma health_run_explained cfg now ops : tier_explained (health_run cfg now ops) ops.
Proof.
  unfold health_run. induction ops as [|op ops IH] using rev_ind; [done|]. rewrite fold_left_app. by apply tier_explained_step.
Qed.

(** ** Theorems *)
Section degraded_mode.
  Variable glob_compile : string -> option Glob.
  Context {R : Type} {HR : AttributeResolution R}.
  Variable sessions : context -> string -> result string.
  Variable error_code : error -> option string.
  Variable error_text : error -> string.

Lemma degraded_denies e ctx req snap r d err evs r' :
  degraded e = true -> req_Subject req <> "system" ->
  Evaluate glob_compile sessions error_code e ctx req snap r = Return ((d, err, evs), r') -> IsAllowed d = false.
Proof.
  intros Hd Hs. unfold Evaluate. destruct (ctx_Err ctx); [by intros [= <- _ _ _]|].
  apply String.eqb_neq in Hs. rewrite Hs, Hd. by intros [= <- _ _ _].
Qed.

(** Degraded mode, exactly.  Whatever the poller and the store's callback
    report, as long as notifications are made in the order of the tier changes:
    once none is waiting, the engine is degraded exactly when the tracker's tier
    is stale or dead; it is degraded after every outage, a run of failures longer
    than a minute; it is degraded only if there was one; and while it is, every
    request of a subject other than the system is denied. *)
Theorem degraded_mode_exact p now evs s :
  forallb fifo evs = true -> stack_run error_text (setup_stack p now) evs = Some s -> st_pending s = [] ->
  IsDegraded (st_engine s) = negb (IsReady (tier (st_tracker s))) /\
  (outage 60000000000 (st_ops s) -> IsDegraded (st_engine s) = true) /\
  (IsDegraded (st_engine s) = true ->
     (exists ops1 ops2 t0 n, st_ops s = ops1 ++ ops2 /\ stale_since 60000000000 t0 n ops1) /\
     forall ctx req snap r d err aevs r', req_Subject req <> "system" ->
       Evaluate glob_compile sessions error_code (st_engine s) ctx req snap r = Return ((d, err, aevs), r') ->
       IsAllowed d = false).
Proof.
  intros Hf Hr Hp.
  assert (stack_inv now s) as [Ht Hm] by (eapply stack_run_inv; [exact Hf| |exact Hr]; by split).
  rewrite Hp in Hm. simpl in Hm. unfold IsDegraded. split_and!; [done| |].
  - intros Ho. rewrite Hm, Ht, (outage_unready setup_config now); [done|]. exact Ho.
  - intros Hd. split; [|intros; by eapply degraded_denies].
    pose proof (health_run_explained setup_config now (st_ops s)) as Hx. rewrite <- Ht in Hx.
    apply unready_explained in Hx; [|by destruct (IsReady _); simpl in *; congruence].
    replace (GracePeriod (ht_cfg (st_tracker s))) with 60000000000%Z in Hx; [done|].
    rewrite Ht. unfold health_run. by rewrite health_fold_cfg.
Qed.
End degraded_mode.

(** ** Concrete runs *)
Definition no_text (_ : error) : string := EmptyString.
Definition down : result (Z * Z) := Err (ErrNew "connection refused").
Definition fresh_poller : Poller := mkPoller 10000000000 0 0 false.

(** The database is down for a minute. *)
Definition minute_outage : list stack_event :=
  [SvPoll down None 0 0; SvNotify 0; SvPoll down None 60000000000 60000000000].

Lemma poller_covers_witness :
  covered [mkTrace (Ok (5, 2)%Z) (Some None) RecSuccess] (mkTrace (Ok (4, 2)%Z) None RecSuccess).
Proof.
  destruct (poller_covers no_text 0 fresh_poller [(Ok (5, 2)%Z, None); (Ok (4, 2)%Z, None)] eq_refl) as [H _].
  exact (H [mkTrace (Ok (5, 2)%Z) (Some None) RecSuccess] (mkTrace (Ok (4, 2)%Z) None RecSuccess) [] eq_refl).
Defined.

Lemma degraded_mode_exact_witness :
  exists s, stack_run no_text (setup_stack fresh_poller 0) (minute_outage ++ [SvNotify 0]) = Some s /\
    IsDegraded (st_engine s) = true.
Proof.
  destruct (stack_run no_text (setup_stack fresh_poller 0) (minute_outage ++ [SvNotify 0])) as [s|] eqn:E;
    [|vm_compute in E; discriminate E].
  exists s. split; [reflexivity|].
  destruct (degraded_mode_exact (R := Resolver * Z) demo_glob demo_sessions demo_code no_text fresh_poller 0
              (minute_outage ++ [SvNotify 0]) s) as (_ & H & _); [reflexivity|exact E| |].
  - vm_compute in E. injection E as <-. reflexivity.
  - apply H. exists [], "poll query failed: ", 0%Z, 0%Z, [], "poll query failed: ", 60000000000%Z, 60000000000%Z, [].
    vm_compute in E. injection E as <-. split_and!; [reflexivity..|lia|by left].
Defined.

(** Notifications are made outside the tracker's lock, so two can be made in the
    wrong order.  Here the tracker goes stale, and a store mutation succeeds
    before the poller's notification is made: the recovery is announced first,
    and the engine ends up degraded under a warm tracker, where no later success
    clears it. *)
Theorem late_notification_stays_degraded :
  exists s, stack_run no_text (setup_stack fresh_poller 0)
      (minute_outage ++ [SvMutated None 60000000001 60000000001; SvNotify 1; SvNotify 0]) = Some s /\
    st_pending s = [] /\ tier (st_tracker s) = HealthWarm /\ IsDegraded (st_engine s) = true /\
    forall later, exists s', stack_run no_text s (map (fun t => SvMutated None t t) later) = Some s' /\
      tier (st_tracker s') = HealthWarm /\ IsDegraded (st_engine s') = true.
Proof.
  eexists. split; [reflexivity|]. split_and!; [reflexivity..|].
  intros later. match goal with |- context [stack_run _ ?x _] => generalize (eq_refl : tier (st_tracker x) = HealthWarm),
    (eq_refl : IsDegraded (st_engine x) = true); generalize x end.
  induction later as [|t later IH]; intros s Ht Hd; simpl; [by exists s|]. apply IH.
  - unfold stack_record. simpl. unfold RecordSuccess. by rewrite Ht.
  - unfold stack_record. simpl. unfold RecordSuccess. by rewrite Ht.
Qed.
