(* ===== verification/Sql.v ===== *)
(** What the stores share: transactions on tables, the errors of pgx and oops, and
    the queries of SQL statements on finite maps. *)

From S2P Require Import Prelude GoStrings.
From stdpp Require Import sorting.

Open Scope Z_scope.

(** ** Transactions

    A transaction is a function on the tables [S]. *)
Definition txn (S A : Type) : Type := S -> result A * S.

#[export] Instance txn_ret S : MRet (txn S) := fun A a db => (Ok a, db).
#[export] Instance txn_bind S : MBind (txn S) := fun A B f m db =>
  match m db with
  | (Ok a, db') => f a db'
  | (Err e, db') => (Err e, db')
  end.

Section Tx.
Context {S : Type}.

Definition fail {A} (e : error) : txn S A := fun db => (Err e, db).
Definition read {A} (f : S -> A) : txn S A := fun db => (Ok (f db), db).
Definition write (f : S -> S) : txn S unit := fun db => (Ok tt, f db).

(** [defer tx.Rollback] with a [Commit] at the end. *)
Definition atomically {A} (m : txn S A) : txn S A := fun db =>
  match m db with
  | (Ok a, db') => (Ok a, db')
  | (Err e, _) => (Err e, db)
  end.

(** Re-wrapping of an inner error under an operation's own code. *)
Definition wrap_code {A} (code : string) (m : txn S A) : txn S A := fun db =>
  match m db with
  | (Err e, db') => (Err (ErrWrapCode code e), db')
  | r => r
  end.

(** The error of [m], wrapped. *)
Definition on_error {A} (f : error -> error) (m : txn S A) : txn S A := fun db =>
  match m db with
  | (Err e, db') => (Err (f e), db')
  | r => r
  end.

Lemma read_bind {A B} (f : S -> A) (k : A -> txn S B) db : (read f ≫= k) db = k (f db) db.
Proof. done. Qed.

Lemma write_bind {B} (f : S -> S) (k : unit -> txn S B) db : (write f ≫= k) db = k tt (f db).
Proof. done. Qed.

Lemma on_error_Ok {A} f (m : txn S A) db a db' : on_error f m db = (Ok a, db') -> m db = (Ok a, db').
Proof. unfold on_error. destruct (m db) as [[] ]; naive_solver. Qed.

Lemma on_error_2 {A} f (m : txn S A) db : (on_error f m db).2 = (m db).2.
Proof. unfold on_error. by destruct (m db) as [[] ]. Qed.

Lemma atomically_2 {A} (m : txn S A) db :
  (atomically m db).2 = match m db with (Ok _, db') => db' | (Err _, _) => db end.
Proof. unfold atomically. by destruct (m db) as [[] ]. Qed.

Lemma atomically_Ok {A} (m : txn S A) db a db' : atomically m db = (Ok a, db') <-> m db = (Ok a, db').
Proof. unfold atomically. destruct (m db) as [[] ]; split; naive_solver. Qed.

Lemma txn_bind_Ok {A B} (m : txn S A) (f : A -> txn S B) db b db' :
  (m ≫= f) db = (Ok b, db') -> exists a db1, m db = (Ok a, db1) /\ f a db1 = (Ok b, db').
Proof. unfold mbind, txn_bind. destruct (m db) as [[a|e] db1]; [eauto|done]. Qed.

Lemma wrap_code_Ok {A} c (m : txn S A) db a db' : wrap_code c m db = (Ok a, db') -> m db = (Ok a, db').
Proof. unfold wrap_code. destruct (m db) as [[] ]; naive_solver. Qed.
End Tx.

(** One step of a transaction: a read, a write, a return or a failure. *)
Ltac tx_cbn := repeat (rewrite ?read_bind, ?write_bind; cbn [mret txn_ret read write fail fst snd]; cbn beta).
Ltac tx_cbn_in H := repeat (rewrite ?read_bind, ?write_bind in H; cbn [mret txn_ret read write fail fst snd] in H; cbn beta in H).

(** ** Errors *)
Definition ErrNoRows : error := ErrNew "no rows in result set".
(** A [pgconn.PgError] with SQLSTATE 23505 raised by the named index. *)
Definition unique_violation (index : string) : error := ErrNew ("23505:" +:+ index).
Definition sql_error (what : string) : error := ErrNew what.

(** [oops.AsOops(err).Code()]: the code of the deepest coded error of the chain, which
    a code put around it does not hide. *)
Fixpoint oops_code (e : error) : option string :=
  match e with
  | ErrCode c _ => Some c
  | ErrWrapCode c e' => match oops_code e' with Some c' => Some c' | None => Some c end
  | ErrWrap _ e' => oops_code e'
  | ErrNew _ => None
  | ErrJoin es =>
      (fix first (es : list error) : option string :=
         match es with [] => None | e :: es' => match oops_code e with Some c => Some c | None => first es' end end) es
  end.

Definition has_code (e : error) (c : string) : bool := bool_decide (oops_code e = Some c).

(** [errors.Is(err, pgx.ErrNoRows)]: some error of the chain is the sentinel. *)
Fixpoint is_no_rows (e : error) : bool :=
  match e with
  | ErrNew m => String.eqb m "no rows in result set"
  | ErrWrap _ e' | ErrWrapCode _ e' => is_no_rows e'
  | ErrCode _ _ => false
  | ErrJoin es => existsb is_no_rows es
  end.

(** [errors.As(err, &pgErr) && pgErr.Code == "23505"]. *)
Fixpoint is_unique_violation (e : error) : bool :=
  match e with
  | ErrNew m => HasPrefix m "23505:"
  | ErrWrap _ e' | ErrWrapCode _ e' => is_unique_violation e'
  | ErrCode _ _ => false
  | ErrJoin es => existsb is_unique_violation es
  end.

(** [errors.Is]: the sentinel, known by its message, is in the chain. *)
Fixpoint error_Is (target : string) (e : error) : bool :=
  match e with
  | ErrNew m => String.eqb m target
  | ErrWrap _ e' | ErrWrapCode _ e' => error_Is target e'
  | ErrCode _ _ => false
  | ErrJoin es => existsb (error_Is target) es
  end.

(** ** Queries *)
Definition rows_where {K V} `{Countable K} (P : K -> V -> bool) (m : gmap K V) : list (K * V) :=
  filter (fun kv => P kv.1 kv.2 = true) (map_to_list m).

Definition count_where {K V} `{Countable K} (P : K -> V -> bool) (m : gmap K V) : Z :=
  Z.of_nat (length (rows_where P m)).

(** [ORDER BY]: a stable sort by a total preorder on rows. *)
Definition order_by {A} (le : A -> A -> bool) (l : list A) : list A :=
  merge_sort (fun a b => Is_true (le a b)) l.

(** The range of an INTEGER column. *)
Definition int4_max : Z := 2 ^ 31 - 1.
Definition int4_ok (z : Z) : bool := (- 2 ^ 31 <=? z) && (z <=? int4_max).
(** The range of a BIGINT expression. *)
Definition int8_ok (z : Z) : bool := (- 2 ^ 63 <=? z) && (z <=? 2 ^ 63 - 1).

Lemma rows_where_elem {K V} `{Countable K} (P : K -> V -> bool) (m : gmap K V) k v :
  (k, v) ∈ rows_where P m <-> m !! k = Some v /\ P k v = true.
Proof. unfold rows_where. rewrite list_elem_of_filter, elem_of_map_to_list. cbn. tauto. Qed.

Lemma NoDup_rows_where {K V} `{Countable K} (P : K -> V -> bool) (m : gmap K V) : NoDup (rows_where P m).
Proof. unfold rows_where. apply NoDup_filter, NoDup_map_to_list. Qed.

Lemma rows_where_nil {K V} `{Countable K} (P : K -> V -> bool) (m : gmap K V) :
  rows_where P m = [] <-> forall k v, m !! k = Some v -> P k v = false.
Proof.
  split.
  - intros Hn k v Hm. apply not_true_iff_false. intros HP.
    pose proof (proj2 (rows_where_elem P m k v) (conj Hm HP)) as Hin. rewrite Hn in Hin. set_solver.
  - intros Hn. destruct (rows_where P m) as [|[k v] l] eqn:E; [done|].
    assert (Hin : (k, v) ∈ rows_where P m) by (rewrite E; set_solver).
    apply rows_where_elem in Hin as [Hm HP]. rewrite (Hn _ _ Hm) in HP. done.
Qed.

Lemma elem_of_order_by {A} (le : A -> A -> bool) (l : list A) x : x ∈ order_by le l <-> x ∈ l.
Proof. unfold order_by. by rewrite merge_sort_Permutation. Qed.
