(* ===== verification/GoText.v ===== *)
(** Text handling of Go's standard library: iteration over the runes of a string
    and [encoding/json]'s string encoding. *)

From S2P Require Import Prelude GoStrings.

Open Scope string_scope.
Open Scope list_scope.

(** ** Runes

    [for _, r := range s] decodes UTF-8; a byte that does not start a valid
    encoding yields U+FFFD and is skipped alone.  A rune is given by the bytes
    [WriteRune] writes for it. *)
Definition between (lo hi : N) (a : ascii) : bool := ((lo <=? code a) && (code a <=? hi))%N.
Definition cont (a : ascii) : bool := between 128 191 a.

Definition enc2 (a b : ascii) : bool := between 194 223 a && cont b.
Definition enc3 (a b c : ascii) : bool :=
  (between 224 224 a && between 160 191 b
   || between 225 236 a && cont b
   || between 237 237 a && between 128 159 b
   || between 238 239 a && cont b) && cont c.
Definition enc4 (a b c d : ascii) : bool :=
  (between 240 240 a && between 144 191 b
   || between 241 243 a && cont b
   || between 244 244 a && between 128 143 b) && cont c && cont d.

(** What the decoder finds: an encoded rune, or a byte it replaces. *)
Inductive rune : Type :=
| Rune (bytes : string)
| BadByte (b : ascii).

Definition str1 (a : ascii) : string := String a EmptyString.
Definition byte (n : N) : ascii := ascii_of_N n.
Definition replacement : string := String (byte 239) (String (byte 191) (str1 (byte 189))).

Definition rune_bytes (r : rune) : string :=
  match r with Rune bs => bs | BadByte _ => replacement end.

Fixpoint runes (s : string) : list rune :=
  match s with
  | EmptyString => []
  | String a s1 =>
    if (code a <? 128)%N then Rune (str1 a) :: runes s1 else
    match s1 with
    | EmptyString => [BadByte a]
    | String b s2 =>
      if enc2 a b then Rune (String a (str1 b)) :: runes s2 else
      match s2 with
      | EmptyString => BadByte a :: runes s1
      | String c s3 =>
        if enc3 a b c then Rune (String a (String b (str1 c))) :: runes s3 else
        match s3 with
        | EmptyString => BadByte a :: runes s1
        | String d s4 =>
          if enc4 a b c d then Rune (String a (String b (String c (str1 d)))) :: runes s4
          else BadByte a :: runes s1
        end
      end
    end
  end.

Fixpoint concat_str (l : list string) : string :=
  match l with [] => EmptyString | s :: l' => s +:+ concat_str l' end.

(** [utf8.ValidString]. *)
Definition valid_utf8 (s : string) : bool :=
  forallb (fun r => match r with Rune _ => true | BadByte _ => false end) (runes s).

(** ** [encoding/json] strings *)
Definition hex_digit (n : N) : ascii := if (n <? 10)%N then byte (48 + n) else byte (87 + n).

(** [\u00XX]. *)
Definition u00 (a : ascii) : string :=
  "\u00" +:+ String (hex_digit (code a / 16)) (str1 (hex_digit (code a mod 16))).

Definition backslash : ascii := byte 92.
Definition quote : ascii := byte 34.
Definition newline : ascii := byte 10.

Definition json_ascii (a : ascii) : string :=
  let n := code a in
  if (n =? 34)%N || (n =? 92)%N then String backslash (str1 a)
  else if (n =? 8)%N then "\b"
  else if (n =? 12)%N then "\f"
  else if (n =? 10)%N then "\n"
  else if (n =? 13)%N then "\r"
  else if (n =? 9)%N then "\t"
  else if (n <? 32)%N || (n =? 60)%N || (n =? 62)%N || (n =? 38)%N then u00 a
  else str1 a.

Definition json_rune (r : rune) : string :=
  match r with
  | BadByte _ => "\ufffd"
  | Rune (String a EmptyString) => json_ascii a
  | Rune bs =>
      if String.eqb bs (String (byte 226) (String (byte 128) (str1 (byte 168)))) then "\u2028"
      else if String.eqb bs (String (byte 226) (String (byte 128) (str1 (byte 169)))) then "\u2029"
      else bs
  end.

Definition json_string (s : string) : string :=
  str1 quote +:+ concat_str (map json_rune (runes s)) +:+ str1 quote.

(** ** Lemmas *)
Fixpoint str_forall (P : ascii -> bool) (s : string) : bool :=
  match s with EmptyString => true | String a s' => P a && str_forall P s' end.

Lemma str_forall_app P s t : str_forall P (s +:+ t) = str_forall P s && str_forall P t.
Proof.
  induction s as [|a s IH]; [done|]. rewrite app_cons_str. cbn [str_forall].
  by rewrite IH, andb_assoc.
Qed.

Lemma str_forall_concat P l :
  forallb (str_forall P) l = true -> str_forall P (concat_str l) = true.
Proof.
  induction l as [|s l IH]; [done|]. cbn [forallb concat_str]. intros H. bool_prop. rewrite str_forall_app.
  bool_prop; auto.
Qed.

Lemma str_forall_impl (P Q : ascii -> bool) s :
  (forall a, P a = true -> Q a = true) -> str_forall P s = true -> str_forall Q s = true.
Proof. intros HPQ. induction s as [|a s IH]; cbn; [done|]. intros H. bool_prop; auto. Qed.

(** Strong induction along the decoder. *)
Lemma string_len_ind (P : string -> Prop) :
  (forall s, (forall t, (String.length t < String.length s)%nat -> P t) -> P s) -> forall s, P s.
Proof.
  intros H s. remember (String.length s) as n eqn:E. revert s E.
  induction n as [n IH] using lt_wf_ind. intros s ->. apply H. intros t Ht. eapply IH; eauto.
Qed.

(** What [runes] does to a non-empty string: it decodes one rune and goes on. *)
Lemma runes_step a s :
  (exists bs rest, String a s = bs +:+ rest /\ runes (String a s) = Rune bs :: runes rest /\ bs <> EmptyString
     /\ (bs = str1 a /\ (code a <? 128)%N = true \/ str_forall (fun c => negb (code c <? 128)%N) bs = true))
  \/ (runes (String a s) = BadByte a :: runes s /\ (code a <? 128)%N = false).
Proof.
  assert (Hc : forall lo hi c, (128 <=? lo)%N = true -> between lo hi c = true -> negb (code c <? 128)%N = true).
  { intros lo hi c Hlo Hb. unfold between in Hb. bool_prop.
    rewrite N.leb_le in *. apply negb_true_iff, N.ltb_ge. lia. }
  assert (Hcont : forall c, cont c = true -> negb (code c <? 128)%N = true) by (intros c; by apply Hc).
  cbn [runes]. destruct (code a <? 128)%N eqn:Ea.
  { left. exists (str1 a), s. repeat split; try done. by left. }
  destruct s as [|b s2]; [by right|].
  destruct (enc2 a b) eqn:E2.
  { left. exists (String a (str1 b)), s2. repeat split; try done. right.
    unfold enc2 in E2. bool_prop. cbn [str_forall str1]. rewrite Ea. by rewrite Hcont. }
  destruct s2 as [|c s3]; [by right|].
  destruct (enc3 a b c) eqn:E3.
  { left. exists (String a (String b (str1 c))), s3. repeat split; try done. right.
    unfold enc3 in E3. bool_prop. cbn [str_forall str1]. rewrite Ea, (Hcont c) by done.
    assert (negb (code b <? 128)%N = true) as ->; [|done].
    rewrite !orb_true_iff, !andb_true_iff in *.
    destruct_or!; destruct_and!; (eapply Hc; [|eassumption]; done). }
  destruct s3 as [|d s4]; [by right|].
  destruct (enc4 a b c d) eqn:E4; [|by right].
  left. exists (String a (String b (String c (str1 d)))), s4. repeat split; try done. right.
  unfold enc4 in E4. bool_prop. cbn [str_forall str1]. rewrite Ea, (Hcont c), (Hcont d) by done.
  assert (negb (code b <? 128)%N = true) as ->; [|done].
  rewrite !orb_true_iff, !andb_true_iff in *.
    destruct_or!; destruct_and!; (eapply Hc; [|eassumption]; done).
Qed.

(** The runes of a valid string spell it. *)
Lemma runes_spell s : valid_utf8 s = true -> concat_str (map rune_bytes (runes s)) = s.
Proof.
  induction s as [s IH] using string_len_ind. destruct s as [|a s]; [done|].
  unfold valid_utf8 in *.
  destruct (runes_step a s) as [(bs & rest & E & R & Hne & _)|[R _]]; rewrite R; cbn [forallb map concat_str rune_bytes]; [|done].
  intros H. rewrite E. f_equal. apply IH; [|done].
  rewrite E, length_app_str. destruct bs; [done|]. cbn. lia.
Qed.

(** Every rune is one ASCII byte or made of bytes above 127. *)
Lemma runes_shape s :
  Forall (fun r => match r with
                   | Rune bs => (exists a, bs = str1 a) \/ str_forall (fun c => negb (code c <? 128)%N) bs = true
                   | BadByte _ => True end) (runes s).
Proof.
  induction s as [s IH] using string_len_ind. destruct s as [|a s]; [constructor|].
  destruct (runes_step a s) as [(bs & rest & E & R & Hne & Hs)|[R _]]; rewrite R; constructor; try done.
  - destruct Hs as [[-> _]|Hs]; eauto.
  - apply IH. rewrite E, length_app_str. destruct bs; [done|]. cbn. lia.
  - apply IH. cbn. lia.
Qed.

(** A JSON string holds no line break. *)
Definition not_newline (a : ascii) : bool := negb (Ascii.eqb a newline).

Lemma json_ascii_one_line a : str_forall not_newline (json_ascii a) = true.
Proof. by destruct a as [[] [] [] [] [] [] [] []]. Qed.

Lemma high_not_newline s : str_forall (fun c => negb (code c <? 128)%N) s = true -> str_forall not_newline s = true.
Proof. apply str_forall_impl. intros a. by destruct a as [[] [] [] [] [] [] [] []]. Qed.

Lemma json_string_one_line s : str_forall not_newline (json_string s) = true.
Proof.
  unfold json_string. rewrite !str_forall_app. bool_prop; [done| |done].
  apply str_forall_concat. apply forallb_In. intros x Hx.
  apply list_elem_of_fmap in Hx as (r & -> & Hr).
  pose proof (proj1 (Forall_forall _ _) (runes_shape s) r Hr) as H. destruct r as [bs|b]; [|done].
  destruct H as [[a ->]|H]; [apply json_ascii_one_line|].
  destruct bs as [|a [|b bs]]; [done| |].
  - apply json_ascii_one_line.
  - cbn [json_rune]. repeat case_match; try done. by apply high_not_newline.
Qed.
