(* ===== verification/SceneTypes.v ===== *)
(** The scenes plugin, data and pure functions: [plugins/core-scenes/types.go],
    [participants.go], [lifecycle.go], [publish_types.go], [publish_state.go] and
    the kinds of [ops_events.go].

    Go's string enumerations become inductive types with one constructor per
    constant and, where code meets values that are none of them, an [Other]
    constructor.  Timestamps ([pgnanos.Time]) and durations are nanoseconds. *)

From S2P Require Import Prelude GoStrings.

Open Scope Z_scope.

(** ** Scene state, visibility, pose-order mode *)
Inductive SceneState : Type :=
| SceneStateActive
| SceneStatePaused
| SceneStateEnded
| SceneStateArchived
| SceneStateOther (s : string).

#[export] Instance SceneState_eq_dec : EqDecision SceneState.
Proof. solve_decision. Defined.

Definition SceneState_IsValid (s : SceneState) : bool :=
  match s with SceneStateOther _ => false | _ => true end.

Definition SceneVisibilityOpen : string := "open".
Definition SceneVisibilityPrivate : string := "private".

Inductive PoseOrderMode : Type :=
| PoseOrderModeFree
| PoseOrderModeStrict
| PoseOrderMode3PR
| PoseOrderMode5PR
| PoseOrderModeOther (s : string).

(** The conversion [PoseOrderMode(mode)] of a stored string. *)
Definition PoseOrderMode_of (s : string) : PoseOrderMode :=
  if String.eqb s "free" then PoseOrderModeFree
  else if String.eqb s "strict" then PoseOrderModeStrict
  else if String.eqb s "3pr" then PoseOrderMode3PR
  else if String.eqb s "5pr" then PoseOrderMode5PR
  else PoseOrderModeOther s.

(** ** Lifecycle, [lifecycle.go] *)
Definition IsValidTransition (from to : SceneState) : bool :=
  if negb (SceneState_IsValid from) || negb (SceneState_IsValid to) then false
  else match from with
       | SceneStateActive => bool_decide (to = SceneStatePaused) || bool_decide (to = SceneStateEnded)
       | SceneStatePaused => bool_decide (to = SceneStateActive) || bool_decide (to = SceneStateEnded)
       | SceneStateEnded => bool_decide (to = SceneStateArchived)
       | SceneStateArchived => false
       | SceneStateOther _ => false
       end.

Definition CanEnd (s : SceneState) : bool :=
  bool_decide (s = SceneStateActive) || bool_decide (s = SceneStatePaused).
Definition CanPause (s : SceneState) : bool := bool_decide (s = SceneStateActive).
Definition CanResume (s : SceneState) : bool := bool_decide (s = SceneStatePaused).
Definition CanUpdate (s : SceneState) : bool :=
  bool_decide (s = SceneStateActive) || bool_decide (s = SceneStatePaused).

(** ** Participants, [participants.go] *)
Inductive ParticipantRole : Type :=
| ParticipantRoleOwner
| ParticipantRoleMember
| ParticipantRoleInvited
| ParticipantRoleObserver.

#[export] Instance ParticipantRole_eq_dec : EqDecision ParticipantRole.
Proof. solve_decision. Defined.

Definition role_string (r : ParticipantRole) : string :=
  match r with
  | ParticipantRoleOwner => "owner"
  | ParticipantRoleMember => "member"
  | ParticipantRoleInvited => "invited"
  | ParticipantRoleObserver => "observer"
  end.

Record ParticipantRow : Type := mkParticipantRow {
  pr_SceneID : string;
  pr_CharacterID : string;
  pr_Role : ParticipantRole;
  pr_JoinedAt : Z
}.

Inductive ParticipantOpResult : Type :=
| OpInserted
| OpPromoted
| OpNoChange
| ParticipantUpgraded.

#[export] Instance ParticipantOpResult_eq_dec : EqDecision ParticipantOpResult.
Proof. solve_decision. Defined.

Inductive ObserverAddResult : Type :=
| ObserverAdded
| ObserverAlreadyParticipant
| ObserverSceneNotFound
| ObserverSceneNotOpen
| ObserverSceneNotActive.

(** Pose metadata of a participant; [pm_LastPoseSeq] is an [int32]. *)
Record ParticipantWithPoseMeta : Type := mkPoseMeta {
  pm_CharacterID : string;
  pm_JoinedAt : Z;
  pm_LastPoseAt : option Z;
  pm_LastPoseSeq : option Z
}.

(** [pp_TotalPoseCount] is a [uint32]. *)
Record ParticipantsWithPoseMeta : Type := mkPoseMetas {
  pp_TotalPoseCount : Z;
  pp_Participants : list ParticipantWithPoseMeta
}.

(** ** Publication attempts, [publish_types.go] *)
Inductive PublishedSceneStatus : Type :=
| StatusCollecting
| StatusCoolOff
| StatusPublished
| StatusAttemptFailed
| StatusOther (s : string).

#[export] Instance PublishedSceneStatus_eq_dec : EqDecision PublishedSceneStatus.
Proof. solve_decision. Defined.

Definition Status_IsValid (s : PublishedSceneStatus) : bool :=
  match s with StatusOther _ => false | _ => true end.

Definition IsTerminal (s : PublishedSceneStatus) : bool :=
  bool_decide (s = StatusPublished) || bool_decide (s = StatusAttemptFailed).

Definition status_string (s : PublishedSceneStatus) : string :=
  match s with
  | StatusCollecting => "COLLECTING"
  | StatusCoolOff => "COOLOFF"
  | StatusPublished => "PUBLISHED"
  | StatusAttemptFailed => "ATTEMPT_FAILED"
  | StatusOther s => s
  end.

Inductive PublishFailureReason : Type :=
| FailureAnyNo
| FailureTimeout
| FailureWithdrawn
| FailureSnapshotDecryptFailed
| FailureSnapshotRenderFailed
| FailureCoolOffInvariantBroken.

#[export] Instance PublishFailureReason_eq_dec : EqDecision PublishFailureReason.
Proof. solve_decision. Defined.

Definition reason_string (r : PublishFailureReason) : string :=
  match r with
  | FailureAnyNo => "ANY_NO"
  | FailureTimeout => "TIMEOUT"
  | FailureWithdrawn => "WITHDRAWN"
  | FailureSnapshotDecryptFailed => "SNAPSHOT_DECRYPT_FAILED"
  | FailureSnapshotRenderFailed => "SNAPSHOT_RENDER_FAILED"
  | FailureCoolOffInvariantBroken => "COOLOFF_INVARIANT_BROKEN"
  end.

Inductive EntryKind : Type :=
| EntryKindPose
| EntryKindSay
| EntryKindEmit
| EntryKindOther (s : string).

#[export] Instance EntryKind_eq_dec : EqDecision EntryKind.
Proof. solve_decision. Defined.

Definition EntryKind_IsValid (k : EntryKind) : bool :=
  match k with EntryKindOther _ => false | _ => true end.

Definition kind_string (k : EntryKind) : string :=
  match k with
  | EntryKindPose => "pose"
  | EntryKindSay => "say"
  | EntryKindEmit => "emit"
  | EntryKindOther s => s
  end.

Record PublishedSceneEntry : Type := mkEntry {
  en_Speaker : string;
  en_Kind : EntryKind;
  en_Content : string
}.

#[export] Instance PublishedSceneEntry_eq_dec : EqDecision PublishedSceneEntry.
Proof. solve_decision. Defined.

Record PublishedScene : Type := mkPublishedScene {
  ps_ID : string;
  ps_SceneID : string;
  ps_AttemptNumber : Z;
  ps_Status : PublishedSceneStatus;
  ps_InitiatedBy : string;
  ps_InitiatedAt : Z;
  ps_CoolOffStartedAt : option Z;
  ps_ResolvedAt : option Z;
  ps_VoteWindow : Z;
  ps_CoolOffWindow : Z;
  ps_MaxAttemptsSnapshot : Z;
  ps_ContentEntries : list PublishedSceneEntry;
  ps_TitleSnapshot : option string;
  ps_ParticipantsSnapshot : list string;
  ps_PublishedAt : option Z;
  ps_FailureReason : option PublishFailureReason
}.

Record PublishedSceneVote : Type := mkVote {
  vt_PublishedSceneID : string;
  vt_CharacterID : string;
  vt_Vote : option bool;
  vt_VotedAt : option Z;
  vt_LastChangedAt : option Z
}.

(** ** The state machine of an attempt, [publish_state.go] *)
Inductive PublishTrigger : Type :=
| TriggerAllYes
| TriggerAllVotedAnyNo
| TriggerTimeout
| TriggerWithdraw
| TriggerCoolOffElapsed
| TriggerFlipNo
| TriggerSnapshotFailed.

Definition NextStatus (from : PublishedSceneStatus) (t : PublishTrigger)
    : option PublishedSceneStatus :=
  match from with
  | StatusCollecting =>
      match t with
      | TriggerAllYes => Some StatusCoolOff
      | TriggerAllVotedAnyNo | TriggerTimeout | TriggerWithdraw => Some StatusAttemptFailed
      | _ => None
      end
  | StatusCoolOff =>
      match t with
      | TriggerCoolOffElapsed => Some StatusPublished
      | TriggerFlipNo => Some StatusCollecting
      | TriggerWithdraw | TriggerSnapshotFailed => Some StatusAttemptFailed
      | _ => None
      end
  | _ => None
  end.

Definition FailureReasonForTrigger (t : PublishTrigger) : option PublishFailureReason :=
  match t with
  | TriggerAllVotedAnyNo => Some FailureAnyNo
  | TriggerTimeout => Some FailureTimeout
  | TriggerWithdraw => Some FailureWithdrawn
  | _ => None
  end.

Record VoteTally : Type := mkTally { Yes : Z; No : Z; Pending : Z }.

Definition ResolveFromTally (t : VoteTally) : option PublishTrigger :=
  if 0 <? Pending t then None
  else if (Yes t =? 0) && (No t =? 0) then None
  else if 0 <? No t then Some TriggerAllVotedAnyNo
  else Some TriggerAllYes.

Definition IsEligibleVoterRole (role : ParticipantRole) : bool :=
  bool_decide (role = ParticipantRoleOwner) || bool_decide (role = ParticipantRoleMember).

(** ** Ops events, [ops_events.go] *)
Inductive OpsEventKind : Type :=
| OpsKindMembershipInvite
| OpsKindMembershipJoin
| OpsKindMembershipLeave
| OpsKindMembershipKick
| OpsKindMembershipOwnershipTransferred
| OpsKindLifecycleCreated
| OpsKindLifecycleEnded
| OpsKindLifecyclePaused
| OpsKindLifecycleResumed
| OpsKindSettingsUpdated
| OpsKindOther (s : string).

#[export] Instance OpsEventKind_eq_dec : EqDecision OpsEventKind.
Proof. solve_decision. Defined.

Definition OpsEventKind_IsValid (k : OpsEventKind) : bool :=
  match k with OpsKindOther _ => false | _ => true end.

(** ** Scene rows and updates, [store.go]

    A [TEXT[]] column is a list; the slices of an update keep Go's distinction
    between nil and empty, since the driver writes a nil slice as NULL. *)
Record SceneRow : Type := mkSceneRow {
  sr_ID : string;
  sr_Title : string;
  sr_Description : string;
  sr_LocationID : option string;
  sr_OwnerID : string;
  sr_State : SceneState;
  sr_PoseOrder : string;
  sr_Visibility : string;
  sr_IdleTimeoutSecs : option Z;
  sr_TemplateID : option string;
  sr_ContentWarnings : list string;
  sr_Tags : list string;
  sr_CreatedAt : Z;
  sr_EndedAt : option Z;
  sr_ArchivedAt : option Z;
  sr_LastActivityMs : Z
}.

Record SceneUpdate : Type := mkSceneUpdate {
  su_Title : option string;
  su_Description : option string;
  su_Visibility : option string;
  su_PoseOrder : option string;
  su_LocationID : option string;
  su_ContentWarnings : option (list string);
  su_UpdateContentWarnings : bool;
  su_Tags : option (list string);
  su_UpdateTags : bool
}.

Definition emptySceneUpdate : SceneUpdate :=
  mkSceneUpdate None None None None None None false None false.


Definition HasChanges (u : SceneUpdate) : bool :=
  is_set (su_Title u) || is_set (su_Description u) || is_set (su_Visibility u)
  || is_set (su_PoseOrder u) || is_set (su_LocationID u)
  || su_UpdateContentWarnings u || su_UpdateTags u.

(** ** Subjects, [store.go] *)
Definition dotStyleSceneSubject (gameID sceneID : string) : string :=
  "events." +:+ gameID +:+ ".scene." +:+ sceneID.
Definition dotStyleSceneSubjectIC (gameID sceneID : string) : string :=
  dotStyleSceneSubject gameID sceneID +:+ ".ic".
Definition dotStyleSceneSubjectOOC (gameID sceneID : string) : string :=
  dotStyleSceneSubject gameID sceneID +:+ ".ooc".

(** ** Facts about the state machines *)

(** A terminal status admits no trigger. *)
Lemma NextStatus_terminal s t : IsTerminal s = true -> NextStatus s t = None.
Proof. destruct s, t; done. Qed.

(** The transitions of a scene never return from [ended] or [archived]. *)
Lemma IsValidTransition_forward s1 s2 :
  IsValidTransition s1 s2 = true -> CanUpdate s1 = false ->
  s1 = SceneStateEnded /\ s2 = SceneStateArchived.
Proof. destruct s1, s2; done. Qed.

Lemma IsEligibleVoterRole_spec r :
  IsEligibleVoterRole r = true <-> r = ParticipantRoleOwner \/ r = ParticipantRoleMember.
Proof. destruct r; cbv; split; naive_solver. Qed.

Lemma ResolveFromTally_AllYes t :
  ResolveFromTally t = Some TriggerAllYes -> Pending t <= 0 /\ No t <= 0 /\ ~ (Yes t = 0 /\ No t = 0).
Proof.
  unfold ResolveFromTally. repeat case_match; try done. intros _.
  rewrite Z.ltb_ge in *. rewrite andb_false_iff, !Z.eqb_neq in *. lia.
Qed.
