(* ===== verification/SceneRender.v ===== *)
(** Rendering of published scenes: [plugins/core-scenes/publish_render.go], and
    the file names of [export.go]. *)

From S2P Require Import Prelude GoStrings GoText SceneTypes.

Open Scope string_scope.
Open Scope list_scope.

(** ** Markdown *)
Definition is_meta (a : ascii) : bool :=
  Ascii.eqb a "*" || Ascii.eqb a "_" || Ascii.eqb a "[" || Ascii.eqb a "]"
  || Ascii.eqb a "`" || Ascii.eqb a backslash.

Definition escape_rune (r : rune) : string :=
  match r with
  | Rune (String a EmptyString) => if is_meta a then String backslash (str1 a) else str1 a
  | _ => rune_bytes r
  end.

Definition escapeMarkdown (s : string) : string := concat_str (map escape_rune (runes s)).

Definition nl : string := str1 newline.
Definition dquote : string := str1 quote.

Definition markdown_entry (e : PublishedSceneEntry) : string :=
  match en_Kind e with
  | EntryKindPose =>
      "**" +:+ escapeMarkdown (en_Speaker e) +:+ "** " +:+ escapeMarkdown (en_Content e) +:+ nl +:+ nl
  | EntryKindSay =>
      "**" +:+ escapeMarkdown (en_Speaker e) +:+ "** says, " +:+ dquote
        +:+ escapeMarkdown (en_Content e) +:+ dquote +:+ nl +:+ nl
  | EntryKindEmit => "_" +:+ escapeMarkdown (en_Content e) +:+ "_" +:+ nl +:+ nl
  | EntryKindOther _ => escapeMarkdown (en_Content e) +:+ nl +:+ nl
  end.

Definition renderMarkdown (entries : list PublishedSceneEntry) : string :=
  match entries with
  | [] => "_No content was recorded for this scene._" +:+ nl
  | _ => concat_str (map markdown_entry entries)
  end.

(** ** Plain text *)
Definition plain_entry (e : PublishedSceneEntry) : string :=
  match en_Kind e with
  | EntryKindPose => en_Speaker e +:+ " " +:+ en_Content e +:+ nl
  | EntryKindSay => en_Speaker e +:+ " says, " +:+ dquote +:+ en_Content e +:+ dquote +:+ nl
  | EntryKindEmit => en_Content e +:+ nl
  | EntryKindOther _ => en_Content e +:+ nl
  end.

Definition renderPlainText (entries : list PublishedSceneEntry) : string :=
  match entries with
  | [] => "No content was recorded for this scene." +:+ nl
  | _ => concat_str (map plain_entry entries)
  end.

(** ** JSON Lines *)
Definition json_field (k v : string) : string := json_string k +:+ ":" +:+ json_string v.

Definition entry_json (e : PublishedSceneEntry) : string :=
  "{" +:+ json_field "speaker" (en_Speaker e) +:+ "," +:+ json_field "kind" (kind_string (en_Kind e))
  +:+ "," +:+ json_field "content" (en_Content e) +:+ "}".

(** Marshalling a struct of strings does not fail. *)
Definition renderJSONL (entries : list PublishedSceneEntry) : result string :=
  Ok (concat_str (map (fun e => entry_json e +:+ nl) entries)).

(** ** Formats *)
Definition publishRenderMime (format : string) : option string :=
  if String.eqb format "markdown" then Some "text/markdown"
  else if String.eqb format "plain_text" then Some "text/plain"
  else if String.eqb format "jsonl" then Some "application/jsonl"
  else None.

Definition renderPublishedScene (format : string) (entries : list PublishedSceneEntry) : result string :=
  if String.eqb format "markdown" then Ok (renderMarkdown entries)
  else if String.eqb format "plain_text" then Ok (renderPlainText entries)
  else if String.eqb format "jsonl" then renderJSONL entries
  else Err (ErrCode "SCENE_PUBLISH_FORMAT_UNSUPPORTED" "unsupported download format").

Definition exportRenderMime (format : string) : option string :=
  if String.eqb format "markdown" then Some "text/markdown"
  else if String.eqb format "jsonl" then Some "application/jsonl"
  else None.

Definition exportFileExt (format : string) : string :=
  if String.eqb format "markdown" then ".md"
  else if String.eqb format "jsonl" then ".jsonl"
  else EmptyString.

(** [strings.ToLower] on one rune, as far as a slug can tell: ASCII letters, and
    the two other runes whose lower case is ASCII (U+0130 and U+212A); [None] for
    a rune outside [a-z0-9]. *)
Definition slug_rune (r : rune) : option ascii :=
  match r with
  | Rune (String a EmptyString) =>
      if between 48 57 a || between 97 122 a then Some a
      else if between 65 90 a then Some (byte (code a + 32))
      else None
  | Rune bs =>
      if String.eqb bs (String (byte 196) (str1 (byte 176))) then Some "i"%char
      else if String.eqb bs (String (byte 226) (String (byte 132) (str1 (byte 170)))) then Some "k"%char
      else None
  | BadByte _ => None
  end.

(** [slugRe.ReplaceAllString(s, "-")] and [strings.Trim(s, "-")] in one pass:
    runs of other runes become one dash, and no dash is written at the ends. *)
Fixpoint slug_go (pending started : bool) (rs : list (option ascii)) : string :=
  match rs with
  | [] => EmptyString
  | Some a :: rs' =>
      (if pending && started then str1 "-" else EmptyString) +:+ String a (slug_go false true rs')
  | None :: rs' => slug_go true started rs'
  end.

Definition slugify (title : string) : string := slug_go false false (map slug_rune (runes title)).

(** ** Facts *)

(** Reading escaped text back: a backslash quotes the next byte. *)
Fixpoint unescape (s : string) : string :=
  match s with
  | EmptyString => EmptyString
  | String a s' =>
      if Ascii.eqb a backslash then
        match s' with
        | String b s'' => String b (unescape s'')
        | EmptyString => str1 a
        end
      else String a (unescape s')
  end.

(** A reader of Markdown meets a live metacharacter, or a dangling backslash. *)
Fixpoint live_meta (s : string) : bool :=
  match s with
  | EmptyString => false
  | String a s' =>
      if Ascii.eqb a backslash then
        match s' with String _ s'' => live_meta s'' | EmptyString => true end
      else is_meta a || live_meta s'
  end.

Lemma high_not_meta a : negb (code a <? 128)%N = true -> is_meta a = false /\ Ascii.eqb a backslash = false.
Proof. by destruct a as [[] [] [] [] [] [] [] []]. Qed.

Lemma high_run s t :
  str_forall (fun c => negb (code c <? 128)%N) s = true ->
  unescape (s +:+ t) = s +:+ unescape t /\ live_meta (s +:+ t) = live_meta t.
Proof.
  induction s as [|a s IH]; [done|]. rewrite !app_cons_str. cbn [str_forall unescape live_meta].
  intros [Ha Hs]%andb_true_iff. destruct (high_not_meta a Ha) as [-> ->].
  destruct (IH Hs) as [IH1 IH2]. by rewrite IH1, IH2.
Qed.

Lemma escape_rune_run r t :
  match r with
  | Rune bs => (exists a, bs = str1 a) \/ str_forall (fun c => negb (code c <? 128)%N) bs = true
  | BadByte _ => True end ->
  unescape (escape_rune r +:+ t) = rune_bytes r +:+ unescape t /\ live_meta (escape_rune r +:+ t) = live_meta t.
Proof.
  assert (Hs : forall a, unescape (escape_rune (Rune (str1 a)) +:+ t) = str1 a +:+ unescape t
                    /\ live_meta (escape_rune (Rune (str1 a)) +:+ t) = live_meta t).
  { intros a. cbn [escape_rune str1]. destruct (is_meta a) eqn:Em.
    - rewrite app_cons_str. unfold str1. rewrite app_cons_str. cbn [unescape live_meta].
      by destruct (Ascii.eqb backslash backslash) eqn:E; [|by apply Ascii.eqb_neq in E].
    - unfold str1. rewrite !app_cons_str. cbn [unescape live_meta].
      assert (Ascii.eqb a backslash = false) as ->; [|by rewrite Em].
      unfold is_meta in Em. bool_prop. done. }
  destruct r as [bs|b]; [|intros _; by apply (high_run replacement)].
  intros [[a ->]|H]; [apply Hs|].
  destruct bs as [|a [|b bs]]; [done|apply Hs|]. by apply high_run.
Qed.

Lemma escapeMarkdown_run s :
  unescape (escapeMarkdown s) = concat_str (map rune_bytes (runes s))
  /\ live_meta (escapeMarkdown s) = false.
Proof.
  unfold escapeMarkdown. induction (runes_shape s) as [|r rs Hr _ [IH1 IH2]]; [done|].
  cbn [map concat_str]. destruct (escape_rune_run r (concat_str (map escape_rune rs)) Hr) as [-> ->].
  by rewrite IH1, IH2.
Qed.

(** Escaping loses nothing and leaves no live metacharacter. *)
Lemma escapeMarkdown_inert s : live_meta (escapeMarkdown s) = false.
Proof. apply escapeMarkdown_run. Qed.

Lemma escapeMarkdown_unescape s : valid_utf8 s = true -> unescape (escapeMarkdown s) = s.
Proof. intros H. destruct (escapeMarkdown_run s) as [-> _]. by apply runes_spell. Qed.

(** Splitting a document at line breaks, each line complete. *)
Fixpoint lines_go (cur s : string) : list string :=
  match s with
  | EmptyString => []
  | String a s' => if Ascii.eqb a newline then str_rev cur :: lines_go EmptyString s'
                   else lines_go (String a cur) s'
  end.
Definition lines (s : string) : list string := lines_go EmptyString s.

Lemma lines_go_line l cur t :
  str_forall not_newline l = true ->
  lines_go cur (l +:+ nl +:+ t) = (str_rev cur +:+ l) :: lines t.
Proof.
  revert cur. induction l as [|a l IH]; intros cur H.
  - cbn. by rewrite app_nil_r_str.
  - rewrite app_cons_str. cbn [str_forall] in H. bool_prop. cbn [lines_go].
    unfold not_newline in *. bool_prop. rewrite H, IH by done.
    by rewrite str_rev_cons, app_assoc_str.
Qed.

Lemma json_field_one_line k v : str_forall not_newline (json_field k v) = true.
Proof. unfold json_field. by rewrite !str_forall_app, !json_string_one_line. Qed.

Lemma entry_json_one_line e : str_forall not_newline (entry_json e) = true.
Proof. unfold entry_json. by rewrite !str_forall_app, !json_field_one_line. Qed.

(** One line per entry, whatever the text of the entry. *)
Lemma renderJSONL_lines entries :
  exists doc, renderJSONL entries = Ok doc /\ lines doc = map entry_json entries.
Proof.
  eexists; split; [done|]. induction entries as [|e es IH]; [done|].
  cbn [map concat_str]. rewrite app_assoc_str. unfold lines in *.
  rewrite lines_go_line by apply entry_json_one_line. cbn [str_rev str_rev_app].
  f_equal. exact IH.
Qed.

(** A format is served exactly when it has a MIME type. *)
Lemma renderPublishedScene_total format entries :
  is_ok (renderPublishedScene format entries) = is_set (publishRenderMime format).
Proof. unfold renderPublishedScene, publishRenderMime. repeat case_match; done. Qed.

(** A line break in the text of an entry is copied to the document, so text can
    open a Markdown block of its own (a heading) in spite of the escaping. *)
Example markdown_block_injection :
  lines (renderMarkdown [mkEntry "Ann" EntryKindPose ("waves" +:+ nl +:+ "# Chapter")])
  = ["**Ann** waves"; "# Chapter"; EmptyString].
Proof. vm_compute. reflexivity. Qed.

(** Slugs are safe file names. *)
Definition slug_char (a : ascii) : bool := between 48 57 a || between 97 122 a || Ascii.eqb a "-".

Lemma slug_rune_char r a : slug_rune r = Some a -> between 48 57 a || between 97 122 a = true.
Proof.
  destruct r as [bs|b]; [|done]. destruct bs as [|c [|d bs]]; [done| |].
  - cbn. destruct (between 48 57 c || between 97 122 c) eqn:E1; [by intros [= <-]|].
    destruct (between 65 90 c) eqn:E2; [|done]. intros [= <-]. clear E1.
    revert E2. by destruct c as [[] [] [] [] [] [] [] []].
  - cbn [slug_rune]. repeat case_match; try done; intros [= <-]; done.
Qed.

Lemma slug_go_chars p st rs :
  Forall (fun o => forall a, o = Some a -> between 48 57 a || between 97 122 a = true) rs ->
  str_forall slug_char (slug_go p st rs) = true.
Proof.
  intros H. revert p st. induction H as [|[a|] rs Ha _ IH]; intros p st; cbn [slug_go]; [done| |auto].
  rewrite str_forall_app. bool_prop; [by destruct (p && st)|].
  cbn [str_forall]. bool_prop; [|auto]. unfold slug_char. by rewrite (Ha a).
Qed.

Lemma slugify_safe title : str_forall slug_char (slugify title) = true.
Proof.
  apply slug_go_chars. apply Forall_forall. intros o Ho a ->.
  apply list_elem_of_fmap in Ho as (r & Hr & _). by eapply slug_rune_char.
Qed.

Example slugify_example : slugify "  Tea at the Manor!" = "tea-at-the-manor".
Proof. reflexivity. Qed.
