(* ===== verification/PoseOrder.v ===== *)
(** Pose order of a scene: [plugins/core-scenes/poseorder.go]. *)

From S2P Require Import Prelude GoStrings SceneTypes.
From stdpp Require Import sorting.

Open Scope Z_scope.

Record PoseOrderEntry : Type := mkPoseEntry {
  po_CharacterID : string;
  po_CharacterName : string;
  po_Eligible : bool;
  po_LastPosedAt : option Z;
  po_PosesSinceLast : option Z
}.

(** ** Sorting

    [sort.SliceStable].  On a strict weak order the stable sort is unique, so an
    insertion sort stands for it. *)
Section StableSort.
Context {A : Type} (less : A -> A -> bool).

Fixpoint insert_stable (x : A) (l : list A) : list A :=
  match l with
  | [] => [x]
  | y :: l' => if less y x then y :: insert_stable x l' else x :: y :: l'
  end.

Definition sort_stable (l : list A) : list A := fold_right insert_stable [] l.
End StableSort.

(** The comparison of [sortStrictQueue]. *)
Definition strict_less (a b : ParticipantWithPoseMeta) : bool :=
  let aNever := negb (is_set (pm_LastPoseSeq a)) in
  let bNever := negb (is_set (pm_LastPoseSeq b)) in
  if negb (Bool.eqb aNever bNever) then aNever
  else if aNever && bNever then pm_JoinedAt a <? pm_JoinedAt b
  else match pm_LastPoseAt a, pm_LastPoseAt b with
       | Some x, Some y => if x =? y then pm_JoinedAt a <? pm_JoinedAt b else x <? y
       | _, _ => pm_JoinedAt a <? pm_JoinedAt b
       end.

Definition joined_less (a b : ParticipantWithPoseMeta) : bool := pm_JoinedAt a <? pm_JoinedAt b.

Definition sortStrictQueue (ps : list ParticipantWithPoseMeta) := sort_stable strict_less ps.
Definition sortByJoinedAt (ps : list ParticipantWithPoseMeta) := sort_stable joined_less ps.

(** ** Eligibility, on [uint32] and [int32] values *)
Definition u32 (z : Z) : Z := z mod 2 ^ 32.

Definition eligibleByThreshold (totalPoseCount : Z) (lastPoseSeq : option Z) (threshold : Z) : bool :=
  match lastPoseSeq with
  | None => true
  | Some s =>
      if s <? 0 then true
      else let seq := u32 s in
           if totalPoseCount <? seq then true
           else threshold <=? u32 (totalPoseCount - seq)
  end.

Definition posesSinceLast (totalPoseCount : Z) (lastPoseSeq : option Z) : Z :=
  match lastPoseSeq with
  | None => totalPoseCount
  | Some s =>
      if s <? 0 then totalPoseCount
      else let seq := u32 s in
           if totalPoseCount <? seq then 0 else u32 (totalPoseCount - seq)
  end.

Definition eligibility (mode : string) (totalPoseCount : Z) (p : ParticipantWithPoseMeta) (index : nat) : bool :=
  match PoseOrderMode_of mode with
  | PoseOrderModeStrict => (index =? 0)%nat
  | PoseOrderMode3PR => eligibleByThreshold totalPoseCount (pm_LastPoseSeq p) 3
  | PoseOrderMode5PR => eligibleByThreshold totalPoseCount (pm_LastPoseSeq p) 5
  | _ => true
  end.

Definition resolveName (id : string) (names : gmap string string) : string :=
  match names !! id with
  | Some name => if is_empty name then id else name
  | None => id
  end.

Definition pose_entry (mode : string) (totalPoseCount : Z) (names : gmap string string)
    (index : nat) (p : ParticipantWithPoseMeta) : PoseOrderEntry :=
  mkPoseEntry (pm_CharacterID p) (resolveName (pm_CharacterID p) names)
    (eligibility mode totalPoseCount p index) (pm_LastPoseAt p)
    (match PoseOrderMode_of mode with
     | PoseOrderMode3PR | PoseOrderMode5PR => Some (posesSinceLast totalPoseCount (pm_LastPoseSeq p))
     | _ => None
     end).

Definition sort_for (mode : string) (ps : list ParticipantWithPoseMeta) : list ParticipantWithPoseMeta :=
  match PoseOrderMode_of mode with
  | PoseOrderModeStrict | PoseOrderMode3PR | PoseOrderMode5PR => sortStrictQueue ps
  | _ => sortByJoinedAt ps
  end.

Definition Compute_ (mode : string) (totalPoseCount : Z) (participants : list ParticipantWithPoseMeta)
    (names : gmap string string) : list PoseOrderEntry :=
  imap (pose_entry mode totalPoseCount names) (sort_for mode participants).

(** ** The order *)
Section SortFacts.
Context {A : Type} (less : A -> A -> bool).

Lemma insert_stable_perm x l : insert_stable less x l ≡ₚ x :: l.
Proof.
  induction l as [|y l IH]; [done|]. cbn. destruct (less y x); [|done].
  rewrite IH. by constructor.
Qed.

Lemma sort_stable_perm l : sort_stable less l ≡ₚ l.
Proof. induction l as [|x l IH]; [done|]. cbn. by rewrite insert_stable_perm, IH. Qed.

(** Elements never follow one that is less than them. *)
Definition ordered (l : list A) : Prop := StronglySorted (fun a b => less b a = false) l.

Context (P : A -> Prop)
  (less_trans : forall a b c, P a -> P b -> P c -> less b a = false -> less c b = false -> less c a = false)
  (less_asym : forall a b, less a b = true -> less b a = false).

Lemma insert_stable_ordered x l :
  P x -> Forall P l -> ordered l -> ordered (insert_stable less x l).
Proof.
  intros Hx Hl Hs. induction Hs as [|y l Hs IH Hy]; cbn; [by repeat constructor|].
  inversion Hl as [|? ? HPy HPl]; subst. destruct (less y x) eqn:E.
  - constructor; [by apply IH|]. rewrite insert_stable_perm. constructor; [by apply less_asym|done].
  - constructor; [by constructor|]. constructor; [done|].
    rewrite Forall_forall in Hy, HPl |- *. intros z Hz.
    eapply (less_trans x y z); auto.
Qed.

Lemma sort_stable_ordered l : Forall P l -> ordered (sort_stable less l).
Proof.
  induction 1 as [|x l Hx Hl IH]; [constructor|].
  apply (insert_stable_ordered x (sort_stable less l)); [done| |done]. by rewrite sort_stable_perm.
Qed.
End SortFacts.

(** Metadata as [InsertScenePose] writes it: the time and number of a last pose
    are set together. *)
Definition pose_wf (p : ParticipantWithPoseMeta) : Prop :=
  is_set (pm_LastPoseAt p) = is_set (pm_LastPoseSeq p).

Lemma joined_less_trans a b c :
  joined_less b a = false -> joined_less c b = false -> joined_less c a = false.
Proof. unfold joined_less. rewrite !Z.ltb_ge. lia. Qed.

Lemma strict_less_asym a b : strict_less a b = true -> strict_less b a = false.
Proof.
  unfold strict_less. destruct (pm_LastPoseSeq a), (pm_LastPoseSeq b), (pm_LastPoseAt a), (pm_LastPoseAt b);
    cbn; try done; repeat case_match; rewrite ?Z.ltb_lt, ?Z.ltb_ge, ?Z.eqb_eq, ?Z.eqb_neq in *; lia.
Qed.

Lemma strict_less_trans a b c :
  pose_wf a -> pose_wf b -> pose_wf c ->
  strict_less b a = false -> strict_less c b = false -> strict_less c a = false.
Proof.
  unfold strict_less, pose_wf.
  destruct (pm_LastPoseSeq a), (pm_LastPoseSeq b), (pm_LastPoseSeq c),
    (pm_LastPoseAt a), (pm_LastPoseAt b), (pm_LastPoseAt c); cbn; try done;
    intros _ _ _; repeat case_match; rewrite ?Z.ltb_lt, ?Z.ltb_ge, ?Z.eqb_eq, ?Z.eqb_neq in *; lia.
Qed.

Lemma sort_for_perm mode ps : sort_for mode ps ≡ₚ ps.
Proof. unfold sort_for. case_match; apply sort_stable_perm. Qed.

Lemma strict_queue_ordered ps :
  Forall pose_wf ps -> ordered strict_less (sortStrictQueue ps).
Proof.
  apply sort_stable_ordered; [|exact strict_less_asym]. intros a b c. apply strict_less_trans.
Qed.

Lemma joined_ordered ps : ordered joined_less (sortByJoinedAt ps).
Proof.
  apply (sort_stable_ordered _ (fun _ => True)); [| |by apply Forall_true].
  - intros a b c _ _ _. apply joined_less_trans.
  - intros a b. unfold joined_less. rewrite Z.ltb_lt, Z.ltb_ge. lia.
Qed.

(** ** Bounds *)
Definition uint32 (z : Z) : Prop := 0 <= z < 2 ^ 32.
Definition int32 (z : Z) : Prop := - 2 ^ 31 <= z < 2 ^ 31.

Lemma u32_id z : uint32 z -> u32 z = z.
Proof. apply Z.mod_small. Qed.

(** The subtraction never wraps around: the displayed gap is the true number of
    poses since, and is a [uint32]. *)
Lemma posesSinceLast_exact total seq :
  uint32 total -> (forall s, seq = Some s -> int32 s) ->
  posesSinceLast total seq
  = match seq with
    | Some s => if s <? 0 then total else Z.max 0 (total - s)
    | None => total
    end
  /\ uint32 (posesSinceLast total seq).
Proof.
  unfold uint32, int32. intros Ht Hs. destruct seq as [s|]; cbn; [|done].
  specialize (Hs s eq_refl). destruct (s <? 0) eqn:E; [done|]. rewrite Z.ltb_ge in E.
  rewrite (u32_id s) by (unfold uint32; lia).
  destruct (total <? s) eqn:E2; rewrite ?Z.ltb_lt, ?Z.ltb_ge in E2; [lia|].
  rewrite u32_id by (unfold uint32; lia). lia.
Qed.

Lemma eligibleByThreshold_exact total seq k :
  uint32 total -> (forall s, seq = Some s -> int32 s) -> 0 < k ->
  eligibleByThreshold total seq k = true <->
  match seq with
  | Some s => s < 0 \/ total < s \/ k <= posesSinceLast total seq
  | None => True
  end.
Proof.
  intros Ht Hs Hk. destruct seq as [s|]; [|done]. specialize (Hs s eq_refl). cbn.
  unfold uint32, int32 in *.
  destruct (s <? 0) eqn:E; rewrite ?Z.ltb_lt, ?Z.ltb_ge in E; [naive_solver lia|].
  rewrite (u32_id s) by (unfold uint32; lia).
  destruct (total <? s) eqn:E2; rewrite ?Z.ltb_lt, ?Z.ltb_ge in E2; [naive_solver lia|].
  rewrite Z.leb_le. naive_solver lia.
Qed.

(** A participant eligible under the five-pose rule is eligible under the
    three-pose rule. *)
Lemma eligible_5_3 total seq :
  eligibleByThreshold total seq 5 = true -> eligibleByThreshold total seq 3 = true.
Proof.
  unfold eligibleByThreshold. repeat case_match; try done. rewrite !Z.leb_le. lia.
Qed.

(** Distinct numbers of an interval are no more than its length. *)
Lemma NoDup_interval (l : list Z) lo n :
  0 <= n -> NoDup l -> (forall x, x ∈ l -> lo < x <= lo + n) -> Z.of_nat (length l) <= n.
Proof.
  intros Hn Hd Hl.
  assert (length l <= Z.to_nat n)%nat; [|lia].
  rewrite <- (length_seqZ (lo + 1) n). apply submseteq_length, NoDup_submseteq; [done|].
  intros x Hx. apply elem_of_seqZ. specialize (Hl x Hx). lia.
Qed.

(** Under a [k]-pose rule somebody may pose once more than [k] participants share
    the scene: their last poses have distinct numbers, so one is old enough. *)
Lemma someone_eligible total seqs k :
  uint32 total -> 0 < k < 2 ^ 32 ->
  Forall (fun o => forall s, o = Some s -> 0 < s <= total /\ int32 s) seqs ->
  NoDup (omap id seqs) ->
  k < Z.of_nat (length seqs) ->
  exists o, o ∈ seqs /\ eligibleByThreshold total o k = true.
Proof.
  intros Ht Hk Hs Hd Hlen.
  destruct (existsb (fun o => eligibleByThreshold total o k) seqs) eqn:E.
  { apply existsb_In in E. naive_solver. }
  exfalso. rewrite existsb_false in E.
  assert (Hall : length (omap id seqs) = length seqs).
  { clear -E. induction seqs as [|[s|] l IH]; [done| |].
    - cbn. f_equal. apply IH. intros x Hx. apply E. set_solver.
    - by specialize (E None ltac:(set_solver)). }
  rewrite <- Hall in Hlen.
  assert (Z.of_nat (length (omap id seqs)) <= k); [|lia].
  apply (NoDup_interval _ (total - k)); [lia|done|].
  intros s Hin. apply list_elem_of_omap in Hin as (o & Ho & Hid). destruct o as [s'|]; [|done].
  injection Hid as ->. specialize (E _ Ho). rewrite Forall_forall in Hs.
  destruct (Hs _ Ho s eq_refl) as [Hr Hi].
  apply not_true_iff_false in E. rewrite eligibleByThreshold_exact in E by (auto with lia; naive_solver).
  destruct (posesSinceLast_exact total (Some s) Ht) as [Heq _]; [naive_solver|].
  rewrite Heq in E. destruct (s <? 0) eqn:E0; rewrite ?Z.ltb_lt, ?Z.ltb_ge in E0; lia.
Qed.
