(* ===== verification/SceneStore.v ===== *)
(** The scenes plugin's tables and the operations of [plugins/core-scenes/store.go],
    [ops_events.go] and the log store of [audit.go].

    The tables are finite maps keyed by their primary keys, with the constraints
    of [migrations/]: foreign keys, CHECKs, unique indexes, NOT NULL and the
    widths of integer columns.  A transaction is a function on the tables that is
    rolled back when it ends in an error; it is atomic, as the row locks and
    unique indexes of the code make its conflicting writers wait for each other.
    [Clock] holds what one call reads from outside: [time.Now()], the database's
    transaction timestamp, and a random identifier. *)

From S2P Require Import Prelude GoStrings Sql SceneTypes.
From stdpp Require Import sorting.

Open Scope Z_scope.

(** ** Tables *)
Record scene_rec : Type := mkSceneRec {
  sc_row : SceneRow;
  sc_max_publish_attempts : Z;
  sc_total_pose_count : Z
}.

Record part_rec : Type := mkPart {
  pt_role : ParticipantRole;
  pt_joined_at : Z;
  pt_last_pose_at : option Z;
  pt_last_pose_seq : option Z
}.

Inductive payload_val : Type :=
| PStr (s : string)
| PBool (b : bool)
| PInt (z : Z)
| PStrs (l : list string).

Record ops_event : Type := mkOpsEvent {
  oe_id : string;
  oe_scene_id : string;
  oe_kind : OpsEventKind;
  oe_actor_id : string;
  oe_target_id : option string;
  oe_payload : list (string * payload_val)
}.

(** A row of [scene_log] without its id. *)
Record log_rec : Type := mkLogRec {
  lg_subject : string;
  lg_type : string;
  lg_timestamp : Z;
  lg_actor_kind : string;
  lg_actor_id : string;
  lg_payload : string;
  lg_schema_ver : Z;
  lg_codec : string;
  lg_dek_ref : option Z;
  lg_dek_version : option Z
}.

(** A row of [published_scenes] without its id; windows are [INTERVAL]s in
    microseconds. *)
Record pub_rec : Type := mkPub {
  pb_scene_id : string;
  pb_attempt_number : Z;
  pb_status : PublishedSceneStatus;
  pb_initiated_by : string;
  pb_initiated_at : Z;
  pb_cooloff_started_at : option Z;
  pb_resolved_at : option Z;
  pb_vote_window : Z;
  pb_cooloff_window : Z;
  pb_max_attempts_snapshot : Z;
  pb_content_entries : option (list PublishedSceneEntry);
  pb_title_snapshot : option string;
  pb_participants_snapshot : option (list string);
  pb_published_at : option Z;
  pb_failure_reason : option PublishFailureReason
}.

Record vote_rec : Type := mkVoteRec {
  vr_vote : option bool;
  vr_voted_at : option Z;
  vr_last_changed_at : option Z
}.

Record DB : Type := mkDB {
  db_scenes : gmap string scene_rec;
  db_participants : gmap (string * string) part_rec;
  db_ops_events : list ops_event;
  db_log : gmap string log_rec;
  db_published : gmap string pub_rec;
  db_votes : gmap (string * string) vote_rec;
  db_notify : gmap (string * option string) (bool * string)
}.

Definition empty_db : DB := mkDB ∅ ∅ [] ∅ ∅ ∅ ∅.

Definition set_scenes (db : DB) m : DB :=
  mkDB m (db_participants db) (db_ops_events db) (db_log db) (db_published db) (db_votes db) (db_notify db).
Definition set_participants (db : DB) m : DB :=
  mkDB (db_scenes db) m (db_ops_events db) (db_log db) (db_published db) (db_votes db) (db_notify db).
Definition set_ops_events (db : DB) l : DB :=
  mkDB (db_scenes db) (db_participants db) l (db_log db) (db_published db) (db_votes db) (db_notify db).
Definition set_log (db : DB) m : DB :=
  mkDB (db_scenes db) (db_participants db) (db_ops_events db) m (db_published db) (db_votes db) (db_notify db).
Definition set_published (db : DB) m : DB :=
  mkDB (db_scenes db) (db_participants db) (db_ops_events db) (db_log db) m (db_votes db) (db_notify db).
Definition set_votes (db : DB) m : DB :=
  mkDB (db_scenes db) (db_participants db) (db_ops_events db) (db_log db) (db_published db) m (db_notify db).
Definition set_notify (db : DB) m : DB :=
  mkDB (db_scenes db) (db_participants db) (db_ops_events db) (db_log db) (db_published db) (db_votes db) m.

Record Clock : Type := mkClock {
  ck_go : Z;      (* time.Now() *)
  ck_db : Z;      (* transaction_timestamp(), in nanoseconds *)
  ck_id : string  (* a fresh ULID *)
}.

(** ** Transactions *)
Abbreviation tx := (txn DB).

Definition live_state (s : SceneState) : bool :=
  bool_decide (s = SceneStateActive) || bool_decide (s = SceneStatePaused).

Definition with_row (r : scene_rec) (row : SceneRow) : scene_rec :=
  mkSceneRec row (sc_max_publish_attempts r) (sc_total_pose_count r).

Definition put_scene (id : string) (r : scene_rec) : tx unit :=
  write (fun db => set_scenes db (<[id := r]> (db_scenes db))).
Definition put_part (k : string * string) (p : part_rec) : tx unit :=
  write (fun db => set_participants db (<[k := p]> (db_participants db))).
Definition del_part (k : string * string) : tx unit :=
  write (fun db => set_participants db (delete k (db_participants db))).

Definition part_row (k : string * string) (p : part_rec) : ParticipantRow :=
  mkParticipantRow k.1 k.2 (pt_role p) (pt_joined_at p).

Definition set_role (p : part_rec) (r : ParticipantRole) : part_rec :=
  mkPart r (pt_joined_at p) (pt_last_pose_at p) (pt_last_pose_seq p).

(** [idx_scene_participants_one_owner]: a second owner row of a scene is refused. *)
Definition other_owner (db : DB) (sceneID characterID : string) : bool :=
  existsb (fun kv => String.eqb kv.1.1 sceneID && negb (String.eqb kv.1.2 characterID)
                     && bool_decide (pt_role kv.2 = ParticipantRoleOwner))
    (map_to_list (db_participants db)).

(** ** Ops events *)
Definition recordOpsEventTx (ck : Clock) (sceneID : string) (kind : OpsEventKind)
    (actorID targetID : string) (payload : list (string * payload_val)) : tx unit :=
  if negb (OpsEventKind_IsValid kind)
  then fail (ErrCode "SCENE_OPS_EVENT_INVALID_KIND" "unknown ops event kind")
  else
    let id := "ope-" +:+ ck_id ck in
    db ← read (fun db => db);
    if existsb (fun e => String.eqb (oe_id e) id) (db_ops_events db)
       || negb (is_set (db_scenes db !! sceneID))
    then fail (ErrWrapCode "SCENE_OPS_EVENT_INSERT_FAILED" (sql_error "constraint"))
    else
      let target := if is_empty targetID then None else Some targetID in
      write (fun db => set_ops_events db
        (db_ops_events db ++ [mkOpsEvent id sceneID kind actorID target payload])).

(** ** Creating and reading scenes *)
Definition insert_scene (ck : Clock) (row : SceneRow) : tx unit :=
  db ← read (fun db => db);
  if is_set (db_scenes db !! sr_ID row) || negb (SceneState_IsValid (sr_State row))
  then fail (ErrWrapCode "SCENE_CREATE_FAILED" (sql_error "constraint"))
  else put_scene (sr_ID row)
         (mkSceneRec (mkSceneRow (sr_ID row) (sr_Title row) (sr_Description row) (sr_LocationID row)
                        (sr_OwnerID row) (sr_State row) (sr_PoseOrder row) (sr_Visibility row)
                        (sr_IdleTimeoutSecs row) (sr_TemplateID row) (sr_ContentWarnings row)
                        (sr_Tags row) (ck_db ck) None None 0) 3 0).

Definition Create (ck : Clock) (row : SceneRow) : tx unit := atomically (insert_scene ck row).

Definition CreateWithOwner (ck : Clock) (row : SceneRow) : tx unit := atomically (
  _ ← insert_scene ck row;
  db ← read (fun db => db);
  let k := (sr_ID row, sr_OwnerID row) in
  _ ← (if is_set (db_participants db !! k) || other_owner db (sr_ID row) (sr_OwnerID row)
       then fail (ErrWrapCode "SCENE_CREATE_OWNER_PARTICIPANT_FAILED" (sql_error "constraint"))
       else put_part k (mkPart ParticipantRoleOwner (ck_db ck) None None));
  wrap_code "SCENE_CREATE_OPS_EVENT_FAILED"
    (recordOpsEventTx ck (sr_ID row) OpsKindLifecycleCreated (sr_OwnerID row) EmptyString
       [("visibility", PStr (sr_Visibility row)); ("from_template", PBool (is_set (sr_TemplateID row)))])).

Definition Get (id : string) : tx SceneRow :=
  db ← read (fun db => db);
  match db_scenes db !! id with
  | Some r => mret (sc_row r)
  | None => fail (ErrWrapCode "SCENE_NOT_FOUND" ErrNoRows)
  end.

(** Character ids of a scene's rows with one of the given roles, in no
    particular order ([array_agg]). *)
Definition roster (db : DB) (id : string) (P : ParticipantRole -> bool) : list string :=
  map (fun kv => kv.1.2)
    (rows_where (fun k p => String.eqb k.1 id && P (pt_role p)) (db_participants db)).

Definition is_role (r : ParticipantRole) (r' : ParticipantRole) : bool := bool_decide (r' = r).

Definition GetWithMembership (id : string) : tx (SceneRow * list string * list string) :=
  row ← Get id;
  db ← read (fun db => db);
  mret (row, roster db id IsEligibleVoterRole, roster db id (is_role ParticipantRoleInvited)).

Definition GetWithMembershipAndObservers (id : string)
    : tx (SceneRow * list string * list string * list string) :=
  r ← GetWithMembership id;
  db ← read (fun db => db);
  mret (r.1.1, r.1.2, r.2, roster db id (is_role ParticipantRoleObserver)).

Definition role_of (db : DB) (sceneID characterID : string) : option ParticipantRole :=
  pt_role <$> db_participants db !! (sceneID, characterID).

Definition is_participant (db : DB) (sceneID characterID : string) : bool :=
  match role_of db sceneID characterID with
  | Some r => IsEligibleVoterRole r
  | None => false
  end.

Definition IsMember (sceneID characterID : string) : tx bool :=
  read (fun db => is_participant db sceneID characterID).

Definition IsParticipant (sceneID characterID : string) : tx bool :=
  read (fun db => is_participant db sceneID characterID).

(** ** Transitions *)
Definition classifyTransitionMiss {A} (id op : string) : tx A :=
  db ← read (fun db => db);
  match db_scenes db !! id with
  | None => fail (ErrWrapCode "SCENE_NOT_FOUND" ErrNoRows)
  | Some _ => fail (ErrCode "SCENE_TRANSITION_FORBIDDEN" op)
  end.

Definition set_state (row : SceneRow) (s : SceneState) : SceneRow :=
  mkSceneRow (sr_ID row) (sr_Title row) (sr_Description row) (sr_LocationID row) (sr_OwnerID row)
    s (sr_PoseOrder row) (sr_Visibility row) (sr_IdleTimeoutSecs row) (sr_TemplateID row)
    (sr_ContentWarnings row) (sr_Tags row) (sr_CreatedAt row) (sr_EndedAt row) (sr_ArchivedAt row)
    (sr_LastActivityMs row).

Definition set_ended (row : SceneRow) (at_ : Z) : SceneRow :=
  mkSceneRow (sr_ID row) (sr_Title row) (sr_Description row) (sr_LocationID row) (sr_OwnerID row)
    SceneStateEnded (sr_PoseOrder row) (sr_Visibility row) (sr_IdleTimeoutSecs row) (sr_TemplateID row)
    (sr_ContentWarnings row) (sr_Tags row) (sr_CreatedAt row) (Some at_) (sr_ArchivedAt row)
    (sr_LastActivityMs row).

Definition state_string (s : SceneState) : string :=
  match s with
  | SceneStateActive => "active"
  | SceneStatePaused => "paused"
  | SceneStateEnded => "ended"
  | SceneStateArchived => "archived"
  | SceneStateOther s => s
  end.

Definition End_ (ck : Clock) (id : string) : tx SceneRow := atomically (
  db ← read (fun db => db);
  match db_scenes db !! id with
  | Some r =>
      if live_state (sr_State (sc_row r)) then
        let row := set_ended (sc_row r) (ck_go ck) in
        _ ← put_scene id (with_row r row);
        _ ← wrap_code "SCENE_END_OPS_EVENT_FAILED"
              (recordOpsEventTx ck id OpsKindLifecycleEnded (sr_OwnerID row) EmptyString
                 [("prior_state", PStr (state_string (sr_State (sc_row r))))]);
        mret row
      else classifyTransitionMiss id "end"
  | None => classifyTransitionMiss id "end"
  end).

Definition Pause (ck : Clock) (id : string) : tx SceneRow := atomically (
  db ← read (fun db => db);
  match db_scenes db !! id with
  | Some r =>
      if bool_decide (sr_State (sc_row r) = SceneStateActive) then
        let row := set_state (sc_row r) SceneStatePaused in
        _ ← put_scene id (with_row r row);
        _ ← wrap_code "SCENE_PAUSE_OPS_EVENT_FAILED"
              (recordOpsEventTx ck id OpsKindLifecyclePaused (sr_OwnerID row) EmptyString []);
        mret row
      else classifyTransitionMiss id "pause"
  | None => classifyTransitionMiss id "pause"
  end).

Definition Resume (ck : Clock) (id : string) : tx SceneRow := atomically (
  db ← read (fun db => db);
  match db_scenes db !! id with
  | Some r =>
      if bool_decide (sr_State (sc_row r) = SceneStatePaused) then
        let row := set_state (sc_row r) SceneStateActive in
        _ ← put_scene id (with_row r row);
        _ ← wrap_code "SCENE_RESUME_OPS_EVENT_FAILED"
              (recordOpsEventTx ck id OpsKindLifecycleResumed (sr_OwnerID row) EmptyString []);
        mret row
      else classifyTransitionMiss id "resume"
  | None => classifyTransitionMiss id "resume"
  end).

(** ** Update *)

(** The columns [addSet] collects, in the order of the code. *)
Definition update_paths (u : SceneUpdate) : list string :=
  (if is_set (su_Title u) then ["title"] else [])
  ++ (if is_set (su_Description u) then ["description"] else [])
  ++ (if is_set (su_Visibility u) then ["visibility"] else [])
  ++ (if is_set (su_PoseOrder u) then ["pose_order"] else [])
  ++ (if is_set (su_LocationID u) then ["location_id"] else [])
  ++ (if su_UpdateContentWarnings u then ["content_warnings"] else [])
  ++ (if su_UpdateTags u then ["tags"] else []).

(** A nil slice reaches the NOT NULL array columns as NULL. *)
Definition writes_null (u : SceneUpdate) : bool :=
  (su_UpdateContentWarnings u && negb (is_set (su_ContentWarnings u)))
  || (su_UpdateTags u && negb (is_set (su_Tags u))).

Definition or_else {A} (o : option A) (d : A) : A := match o with Some a => a | None => d end.

Definition apply_update (u : SceneUpdate) (row : SceneRow) : SceneRow :=
  mkSceneRow (sr_ID row) (or_else (su_Title u) (sr_Title row))
    (or_else (su_Description u) (sr_Description row))
    (match su_LocationID u with
     | Some l => if is_empty l then None else Some l
     | None => sr_LocationID row
     end)
    (sr_OwnerID row) (sr_State row) (or_else (su_PoseOrder u) (sr_PoseOrder row))
    (or_else (su_Visibility u) (sr_Visibility row)) (sr_IdleTimeoutSecs row) (sr_TemplateID row)
    (if su_UpdateContentWarnings u then or_else (su_ContentWarnings u) [] else sr_ContentWarnings row)
    (if su_UpdateTags u then or_else (su_Tags u) [] else sr_Tags row)
    (sr_CreatedAt row) (sr_EndedAt row) (sr_ArchivedAt row) (sr_LastActivityMs row).

Definition Update (ck : Clock) (id : string) (update : option SceneUpdate) : tx SceneRow :=
  match update with
  | None => Get id
  | Some u =>
      if negb (HasChanges u) then Get id
      else atomically (
        db ← read (fun db => db);
        match db_scenes db !! id with
        | Some r =>
            if live_state (sr_State (sc_row r)) then
              if writes_null u
              then fail (ErrWrapCode "SCENE_UPDATE_FAILED" (sql_error "not-null constraint"))
              else
                let row := apply_update u (sc_row r) in
                _ ← put_scene id (with_row r row);
                _ ← wrap_code "SCENE_UPDATE_OPS_EVENT_FAILED"
                      (recordOpsEventTx ck id OpsKindSettingsUpdated (sr_OwnerID row) EmptyString
                         [("paths", PStrs (update_paths u))]);
                mret row
            else classifyTransitionMiss id "update"
        | None => classifyTransitionMiss id "update"
        end)
  end.

(** ** Participants *)
Definition classifyJoinMiss {A} (sceneID : string) : tx A :=
  db ← read (fun db => db);
  match db_scenes db !! sceneID with
  | None => fail (ErrWrapCode "SCENE_NOT_FOUND" ErrNoRows)
  | Some r =>
      if negb (live_state (sr_State (sc_row r)))
      then fail (ErrCode "SCENE_TRANSITION_FORBIDDEN" "join")
      else fail (ErrCode "SCENE_JOIN_NOT_INVITED" "character not invited to private scene")
  end.

(** The condition of the upsert's SELECT. *)
Definition may_join (db : DB) (sceneID characterID : string) : bool :=
  match db_scenes db !! sceneID with
  | None => false
  | Some r =>
      live_state (sr_State (sc_row r))
      && (String.eqb (sr_Visibility (sc_row r)) SceneVisibilityOpen
          || is_set (db_participants db !! (sceneID, characterID)))
  end.

(** The row the upsert leaves, and whether it was inserted. *)
Definition upsert_member (ck : Clock) (prior : option part_rec) : part_rec * bool :=
  match prior with
  | None => (mkPart ParticipantRoleMember (ck_db ck) None None, true)
  | Some p =>
      match pt_role p with
      | ParticipantRoleInvited | ParticipantRoleObserver =>
          (mkPart ParticipantRoleMember (ck_db ck) (pt_last_pose_at p) (pt_last_pose_seq p), false)
      | _ => (p, false)
      end
  end.

Definition join_result (ck : Clock) (prior : option part_rec) (p : part_rec) (wasInserted : bool)
    : ParticipantOpResult :=
  if wasInserted then OpInserted
  else if negb (ck_db ck <=? pt_joined_at p) then OpNoChange
  else match prior with
       | Some q => if bool_decide (pt_role q = ParticipantRoleObserver)
                   then ParticipantUpgraded else OpPromoted
       | None => OpPromoted
       end.

Definition AddParticipant (ck : Clock) (sceneID characterID : string)
    : tx (ParticipantRow * ParticipantOpResult) := atomically (
  db ← read (fun db => db);
  let k := (sceneID, characterID) in
  if negb (may_join db sceneID characterID) then classifyJoinMiss sceneID
  else
    let prior := db_participants db !! k in
    let '(p, wasInserted) := upsert_member ck prior in
    _ ← put_part k p;
    let res := join_result ck prior p wasInserted in
    _ ← (if bool_decide (res = OpNoChange) then mret tt
         else
           let visibility := match db_scenes db !! sceneID with
                             | Some r => sr_Visibility (sc_row r) | None => EmptyString end in
           wrap_code "SCENE_JOIN_OPS_EVENT_FAILED"
             (recordOpsEventTx ck sceneID OpsKindMembershipJoin characterID characterID
                [("visibility", PStr visibility);
                 ("from_invited", PBool (bool_decide (res = OpPromoted)));
                 ("from_observer", PBool (bool_decide (res = ParticipantUpgraded)))]));
    mret (part_row k p, res)).

Definition AddObserver (ck : Clock) (sceneID characterID : string)
    : tx (option ParticipantRow * ObserverAddResult) := atomically (
  db ← read (fun db => db);
  match db_scenes db !! sceneID with
  | None => mret (None, ObserverSceneNotFound)
  | Some r =>
      if negb (String.eqb (sr_Visibility (sc_row r)) SceneVisibilityOpen)
      then mret (None, ObserverSceneNotOpen)
      else if negb (bool_decide (sr_State (sc_row r) = SceneStateActive))
              && negb (bool_decide (sr_State (sc_row r) = SceneStatePaused))
      then mret (None, ObserverSceneNotActive)
      else
        let k := (sceneID, characterID) in
        match db_participants db !! k with
        | Some p => mret (Some (part_row k p), ObserverAlreadyParticipant)
        | None =>
            let p := mkPart ParticipantRoleObserver (ck_db ck) None None in
            _ ← put_part k p;
            mret (Some (part_row k p), ObserverAdded)
        end
  end).

Definition RemoveParticipant (ck : Clock) (sceneID characterID : string)
    : tx ParticipantRow := atomically (
  db ← read (fun db => db);
  let k := (sceneID, characterID) in
  match db_participants db !! k with
  | None => fail (ErrWrapCode "SCENE_PARTICIPANT_NOT_FOUND" ErrNoRows)
  | Some p =>
      if bool_decide (pt_role p = ParticipantRoleOwner)
      then fail (ErrCode "SCENE_OWNER_CANNOT_LEAVE"
                   "scene owners cannot leave; use scene end or transfer ownership")
      else
        _ ← del_part k;
        _ ← wrap_code "SCENE_LEAVE_OPS_EVENT_FAILED"
              (recordOpsEventTx ck sceneID OpsKindMembershipLeave characterID characterID
                 [("prior_role", PStr (role_string (pt_role p)))]);
        mret (part_row k p)
  end).

Definition InviteParticipant (ck : Clock) (sceneID inviterID targetID : string)
    : tx ParticipantRow := atomically (
  db ← read (fun db => db);
  let k := (sceneID, targetID) in
  match db_participants db !! k with
  | Some p =>
      if bool_decide (pt_role p = ParticipantRoleInvited)
      then mret (mkParticipantRow sceneID targetID ParticipantRoleInvited 0)
      else fail (ErrCode "SCENE_INVITE_TARGET_ALREADY_MEMBER" (role_string (pt_role p)))
  | None =>
      if negb (is_set (db_scenes db !! sceneID))
      then fail (ErrWrapCode "SCENE_INVITE_FAILED" (sql_error "foreign key"))
      else
        let p := mkPart ParticipantRoleInvited (ck_go ck) None None in
        _ ← put_part k p;
        _ ← wrap_code "SCENE_INVITE_OPS_EVENT_FAILED"
              (recordOpsEventTx ck sceneID OpsKindMembershipInvite inviterID targetID []);
        mret (part_row k p)
  end).

Definition KickParticipant (ck : Clock) (sceneID kickerID targetID : string)
    : tx ParticipantRow := atomically (
  db ← read (fun db => db);
  let k := (sceneID, targetID) in
  match db_participants db !! k with
  | None => fail (ErrWrapCode "SCENE_PARTICIPANT_NOT_FOUND" ErrNoRows)
  | Some p =>
      if bool_decide (pt_role p = ParticipantRoleOwner)
      then fail (ErrCode "SCENE_KICK_FORBIDDEN" "scene owner cannot be kicked")
      else
        _ ← del_part k;
        _ ← wrap_code "SCENE_KICK_OPS_EVENT_FAILED"
              (recordOpsEventTx ck sceneID OpsKindMembershipKick kickerID targetID
                 [("prior_role", PStr (role_string (pt_role p)))]);
        mret (part_row k p)
  end).

(** Reads the committed tables: the caller's transaction is about to roll back. *)
Definition classifyTransferMiss {A} (db : DB) (sceneID currentOwnerID newOwnerID : string) : tx A :=
  match db_scenes db !! sceneID with
  | None => fail (ErrWrapCode "SCENE_NOT_FOUND" ErrNoRows)
  | Some r =>
      if negb (live_state (sr_State (sc_row r)))
      then fail (ErrCode "SCENE_TRANSITION_FORBIDDEN" "transfer-ownership")
      else if negb (String.eqb (sr_OwnerID (sc_row r)) currentOwnerID)
      then fail (ErrCode "SCENE_NOT_OWNER" "caller is not the current owner")
      else if negb (bool_decide (role_of db sceneID newOwnerID = Some ParticipantRoleMember))
      then fail (ErrCode "SCENE_TRANSFER_TARGET_NOT_MEMBER" "transfer target must be an existing member")
      else fail (ErrCode "SCENE_TRANSFER_FAILED" "unexpected classify state")
  end.

Definition set_owner (row : SceneRow) (o : string) : SceneRow :=
  mkSceneRow (sr_ID row) (sr_Title row) (sr_Description row) (sr_LocationID row) o
    (sr_State row) (sr_PoseOrder row) (sr_Visibility row) (sr_IdleTimeoutSecs row) (sr_TemplateID row)
    (sr_ContentWarnings row) (sr_Tags row) (sr_CreatedAt row) (sr_EndedAt row) (sr_ArchivedAt row)
    (sr_LastActivityMs row).

Definition TransferOwnership (ck : Clock) (sceneID currentOwnerID newOwnerID : string) : tx unit :=
  if String.eqb currentOwnerID newOwnerID then mret tt
  else atomically (
    db0 ← read (fun db => db);
    match db_participants db0 !! (sceneID, currentOwnerID) with
    | Some p =>
        if negb (bool_decide (pt_role p = ParticipantRoleOwner))
        then classifyTransferMiss db0 sceneID currentOwnerID newOwnerID
        else
          _ ← put_part (sceneID, currentOwnerID) (set_role p ParticipantRoleMember);
          db1 ← read (fun db => db);
          match db_participants db1 !! (sceneID, newOwnerID) with
          | Some q =>
              if negb (bool_decide (pt_role q = ParticipantRoleMember))
              then classifyTransferMiss db0 sceneID currentOwnerID newOwnerID
              else if other_owner db1 sceneID newOwnerID
              then fail (ErrWrapCode "SCENE_TRANSFER_FAILED"
                           (unique_violation "idx_scene_participants_one_owner"))
              else
                _ ← put_part (sceneID, newOwnerID) (set_role q ParticipantRoleOwner);
                match db_scenes db1 !! sceneID with
                | Some r =>
                    if String.eqb (sr_OwnerID (sc_row r)) currentOwnerID && live_state (sr_State (sc_row r))
                    then
                      _ ← put_scene sceneID (with_row r (set_owner (sc_row r) newOwnerID));
                      wrap_code "SCENE_TRANSFER_OPS_EVENT_FAILED"
                        (recordOpsEventTx ck sceneID OpsKindMembershipOwnershipTransferred
                           currentOwnerID newOwnerID [("from", PStr currentOwnerID)])
                    else classifyTransferMiss db0 sceneID currentOwnerID newOwnerID
                | None => classifyTransferMiss db0 sceneID currentOwnerID newOwnerID
                end
          | None => classifyTransferMiss db0 sceneID currentOwnerID newOwnerID
          end
    | None => classifyTransferMiss db0 sceneID currentOwnerID newOwnerID
    end).

Definition joined_le (a b : Z * string) : bool :=
  (a.1 <? b.1) || ((a.1 =? b.1) && String.leb a.2 b.2).

Definition ListParticipants (sceneID : string) : tx (list ParticipantRow) :=
  read (fun db =>
    order_by (fun a b => joined_le (pr_JoinedAt a, pr_CharacterID a) (pr_JoinedAt b, pr_CharacterID b))
      (map (fun kv => part_row kv.1 kv.2)
         (rows_where (fun k _ => String.eqb k.1 sceneID) (db_participants db)))).

Definition GetParticipant (sceneID characterID : string) : tx ParticipantRow :=
  db ← read (fun db => db);
  match db_participants db !! (sceneID, characterID) with
  | Some p => mret (part_row (sceneID, characterID) p)
  | None => fail (ErrWrapCode "SCENE_PARTICIPANT_NOT_FOUND" ErrNoRows)
  end.

Definition scene_live (db : DB) (id : string) : bool :=
  match db_scenes db !! id with Some r => live_state (sr_State (sc_row r)) | None => false end.

Definition ListScenesForCharacter (characterID : string) : tx (list string) :=
  read (fun db =>
    map snd
      (order_by joined_le
         (map (fun kv => (pt_joined_at kv.2, kv.1.1))
            (rows_where (fun k p => String.eqb k.2 characterID && IsEligibleVoterRole (pt_role p)
                                    && scene_live db k.1) (db_participants db))))).

(** Reads the INTEGER counter into a [uint32]. *)
Definition ListParticipantsWithPoseMeta (sceneID : string) : tx ParticipantsWithPoseMeta :=
  read (fun db =>
    match db_scenes db !! sceneID with
    | None => mkPoseMetas 0 []
    | Some r =>
        let ps := order_by (fun a b => joined_le (pm_JoinedAt a, pm_CharacterID a) (pm_JoinedAt b, pm_CharacterID b))
                    (map (fun kv => mkPoseMeta kv.1.2 (pt_joined_at kv.2) (pt_last_pose_at kv.2) (pt_last_pose_seq kv.2))
                       (rows_where (fun k p => String.eqb k.1 sceneID && IsEligibleVoterRole (pt_role p))
                          (db_participants db))) in
        match ps with
        | [] => mkPoseMetas 0 []
        | _ => mkPoseMetas (sc_total_pose_count r mod 2 ^ 32) ps
        end
    end).

(** ** Listings *)
Definition defaultBoardLimit : Z := 50.
Definition maxBoardLimit : Z := 200.

Record BoardQuery : Type := mkBoardQuery {
  bq_Limit : Z; bq_Offset : Z; bq_Tags : list string; bq_BlockedCW : list string
}.

Definition norm_limit (dflt cap l : Z) : Z :=
  if l <=? 0 then dflt else if cap <? l then cap else l.
Definition norm_offset (o : Z) : Z := if o <? 0 then 0 else o.

Definition page {A} (limit offset : Z) (l : list A) : list A :=
  take (Z.to_nat limit) (drop (Z.to_nat offset) l).

(** [a @> b] and [a && b] on arrays. *)
Definition array_contains (a b : list string) : bool := forallb (fun x => str_mem x a) b.
Definition array_overlaps (a b : list string) : bool := existsb (fun x => str_mem x a) b.

Definition newest (l : list Z) : option Z :=
  match l with [] => None | x :: l' => Some (fold_left Z.max l' x) end.

Definition last_activity_ms (db : DB) (icPrefix id : string) : Z :=
  match newest (map (fun kv => lg_timestamp kv.2)
                  (rows_where (fun _ l => String.eqb (lg_subject l) (icPrefix +:+ id +:+ ".ic")) (db_log db))) with
  | Some t => Z.quot t 1000000
  | None => 0
  end.

Definition with_activity (row : SceneRow) (ms : Z) : SceneRow :=
  mkSceneRow (sr_ID row) (sr_Title row) (sr_Description row) (sr_LocationID row) (sr_OwnerID row)
    (sr_State row) (sr_PoseOrder row) (sr_Visibility row) (sr_IdleTimeoutSecs row) (sr_TemplateID row)
    (sr_ContentWarnings row) (sr_Tags row) (sr_CreatedAt row) (sr_EndedAt row) (sr_ArchivedAt row) ms.

(** [ORDER BY created_at DESC, id ASC]. *)
Definition board_le (a b : SceneRow) : bool :=
  (sr_CreatedAt b <? sr_CreatedAt a)
  || ((sr_CreatedAt a =? sr_CreatedAt b) && String.leb (sr_ID a) (sr_ID b)).

Definition on_board (q : BoardQuery) (row : SceneRow) : bool :=
  String.eqb (sr_Visibility row) SceneVisibilityOpen && live_state (sr_State row)
  && (match bq_Tags q with [] => true | ts => array_contains (sr_Tags row) ts end)
  && (match bq_BlockedCW q with [] => true | cs => negb (array_overlaps (sr_ContentWarnings row) cs) end).

Definition ListBoard (q : BoardQuery) (icSubjectPrefix : string) : tx (list SceneRow) :=
  read (fun db =>
    page (norm_limit defaultBoardLimit maxBoardLimit (bq_Limit q)) (norm_offset (bq_Offset q))
      (order_by board_le
         (map (fun kv => with_activity (sc_row kv.2) (last_activity_ms db icSubjectPrefix kv.1))
            (rows_where (fun _ r => on_board q (sc_row r)) (db_scenes db))))).

Record CharacterSceneResult : Type := mkCharacterScene {
  cs_Scene : SceneRow;
  cs_Role : ParticipantRole;
  cs_LastActivityMS : Z;
  cs_EntryCount : Z
}.

(** The join of the character's participant rows with their scenes. *)
Definition scenes_of (db : DB) (characterID : string) : list (ParticipantRole * SceneRow) :=
  omap (fun kv => r ← db_scenes db !! kv.1.1; Some (pt_role kv.2, sc_row r))
    (rows_where (fun k _ => String.eqb k.2 characterID) (db_participants db)).

Definition ListCharacterScenes (characterID icSubjectPrefix : string) : tx (list CharacterSceneResult) :=
  read (fun db =>
    order_by (fun a b => cs_LastActivityMS b <=? cs_LastActivityMS a)
      (map (fun rs =>
              let id := sr_ID rs.2 in
              mkCharacterScene rs.2 rs.1 (last_activity_ms db icSubjectPrefix id)
                (count_where (fun _ l => String.eqb (lg_subject l) (icSubjectPrefix +:+ id +:+ ".ic")) (db_log db)))
         (List.filter (fun rs => negb (is_set (sr_ArchivedAt rs.2))) (scenes_of db characterID)))).

(** [HasSuffix], and [LIKE '%scene.' || id || '.ic'] for an id without wildcards. *)
Definition HasSuffix (s suf : string) : bool := HasPrefix (str_rev s) (str_rev suf).

Definition idle_base (db : DB) (id : string) (created_at : Z) : Z :=
  or_else (newest (map (fun kv => lg_timestamp kv.2)
             (rows_where (fun _ l => HasSuffix (lg_subject l) ("scene." +:+ id +:+ ".ic")) (db_log db))))
    created_at.

Definition idle_deadline (db : DB) (dflt : Z) (id : string) (row : SceneRow) : Z :=
  idle_base db id (sr_CreatedAt row) + or_else (sr_IdleTimeoutSecs row) dflt * 1000000000.

(** The sum is a BIGINT expression: the query fails if it leaves the range. *)
Definition ListScenesIdlePastThreshold (nowNs defaultIdleTimeoutSecs : Z)
    : tx (list (string * SceneState)) :=
  db ← read (fun db => db);
  let active := rows_where (fun _ r => bool_decide (sr_State (sc_row r) = SceneStateActive)) (db_scenes db) in
  let deadline kv := idle_deadline db defaultIdleTimeoutSecs kv.1 (sc_row kv.2) in
  if forallb (fun kv => int8_ok (deadline kv)) active
  then mret (map (fun kv => (kv.1, sr_State (sc_row kv.2)))
               (order_by (fun a b => String.leb a.1 b.1)
                  (List.filter (fun kv => deadline kv <=? nowNs) active)))
  else fail (ErrWrapCode "SCENE_LIST_IDLE_FAILED" (sql_error "bigint out of range")).

(** ** Notification preferences *)
Definition realtime : string := "realtime".

Definition upsert_muted (k : string * option string) (muted : bool) : tx unit :=
  write (fun db => set_notify db
    (<[k := (muted, match db_notify db !! k with Some (_, m) => m | None => realtime end)]> (db_notify db))).

Definition SetSceneMute (characterID sceneID : string) (muted : bool) : tx unit :=
  upsert_muted (characterID, Some sceneID) muted.

Definition SetSceneNotifyPref (characterID : string) (enabled : bool) : tx unit :=
  upsert_muted (characterID, None) (negb enabled).

Definition GetSceneNotifyPref (characterID : string) : tx (bool * string) :=
  read (fun db =>
    match db_notify db !! (characterID, None) with
    | Some (muted, mode) => (negb muted, mode)
    | None => (true, realtime)
    end).

Definition ListMutedScenes (characterID : string) : tx (list string) :=
  read (fun db =>
    order_by String.leb
      (omap (fun kv => if String.eqb kv.1.1 characterID && kv.2.1 then kv.1.2 else None)
         (map_to_list (db_notify db)))).

(** ** The log store of [audit.go] *)

(** [INSERT ... ON CONFLICT (id) DO NOTHING]; whether a row was inserted. *)
Definition insertSceneLogTx (id : string) (l : log_rec) : tx bool :=
  db ← read (fun db => db);
  match db_log db !! id with
  | Some _ => mret false
  | None => _ ← write (fun db => set_log db (<[id := l]> (db_log db))); mret true
  end.

Definition audit_Insert (id : string) (l : log_rec) : tx unit :=
  atomically (wrap_code "SCENE_AUDIT_INSERT_FAILED" (_ ← insertSceneLogTx id l; mret tt)).

Definition with_poses (r : scene_rec) (n : Z) : scene_rec :=
  mkSceneRec (sc_row r) (sc_max_publish_attempts r) n.

Definition posed (p : part_rec) (at_ seq : Z) : part_rec :=
  mkPart (pt_role p) (pt_joined_at p) (Some at_) (Some seq).

Definition InsertScenePose (id : string) (l : log_rec) (sceneID posedCharID : string) : tx unit :=
  atomically (wrap_code "SCENE_AUDIT_TX_FAILED" (
    inserted ← insertSceneLogTx id l;
    if negb inserted then mret tt
    else
      db ← read (fun db => db);
      match db_scenes db !! sceneID with
      | None => fail (ErrWrapCode "SCENE_TOTAL_POSE_COUNT_UPDATE_FAILED" ErrNoRows)
      | Some r =>
          let newSeq := sc_total_pose_count r + 1 in
          if negb (int4_ok newSeq)
          then fail (ErrWrapCode "SCENE_TOTAL_POSE_COUNT_UPDATE_FAILED" (sql_error "integer out of range"))
          else
            _ ← put_scene sceneID (with_poses r newSeq);
            match db_participants db !! (sceneID, posedCharID) with
            | Some p => put_part (sceneID, posedCharID) (posed p (lg_timestamp l) newSeq)
            | None => mret tt
            end
      end)).

Definition in_window (after before : string) (notBefore notAfter : option Z) (id : string) (l : log_rec) : bool :=
  (is_empty after || String.ltb after id)
  && (is_empty before || String.ltb id before)
  && (match notBefore with Some t => t <=? lg_timestamp l | None => true end)
  && (match notAfter with Some t => lg_timestamp l <=? t | None => true end).

Definition queryLog (subject after before : string) (notBefore notAfter : option Z)
    (reverse : bool) (pageSize : Z) : tx (list (string * log_rec)) :=
  read (fun db =>
    take (Z.to_nat pageSize)
      (order_by (fun a b => if reverse then String.leb b.1 a.1 else String.leb a.1 b.1)
         (rows_where (fun id l => String.eqb (lg_subject l) subject
                                  && in_window after before notBefore notAfter id l) (db_log db)))).
