(* ===== verification/ScenePublishStore.v ===== *)
(** Publication attempts and votes: [plugins/core-scenes/publish_store.go].

    [published_scenes] carries three unique indexes (one active and one published
    attempt per scene, distinct attempt numbers) and the CHECK that ties
    [failure_reason] to the status [ATTEMPT_FAILED]; every write below is refused
    as PostgreSQL refuses it.  JSON columns hold the decoded value. *)

From S2P Require Import Prelude GoStrings Sql SceneTypes SceneStore.

Open Scope Z_scope.

(** ** Constraints of [published_scenes] *)
Definition is_active (s : PublishedSceneStatus) : bool :=
  bool_decide (s = StatusCollecting) || bool_decide (s = StatusCoolOff).

(** Whether another row of the scene satisfies [P]. *)
Definition other_pub (m : gmap string pub_rec) (id sceneID : string) (P : pub_rec -> bool) : bool :=
  existsb (fun kv => negb (String.eqb kv.1 id) && String.eqb (pb_scene_id kv.2) sceneID && P kv.2)
    (map_to_list m).

(** The violated unique index, if any, when the row [id] becomes [r]. *)
Definition pub_conflict (m : gmap string pub_rec) (id : string) (r : pub_rec) : option string :=
  if is_active (pb_status r) && other_pub m id (pb_scene_id r) (fun r' => is_active (pb_status r'))
  then Some "published_scenes_one_active_per_scene"
  else if bool_decide (pb_status r = StatusPublished)
          && other_pub m id (pb_scene_id r) (fun r' => bool_decide (pb_status r' = StatusPublished))
  then Some "published_scenes_one_published_per_scene"
  else if other_pub m id (pb_scene_id r) (fun r' => pb_attempt_number r' =? pb_attempt_number r)
  then Some "published_scenes_attempt_unique"
  else None.

(** The CHECK constraints and INTEGER ranges of a row. *)
Definition pub_check (r : pub_rec) : bool :=
  Status_IsValid (pb_status r)
  && Bool.eqb (bool_decide (pb_status r = StatusAttemptFailed)) (is_set (pb_failure_reason r))
  && int4_ok (pb_attempt_number r) && int4_ok (pb_max_attempts_snapshot r).

(** An INSERT or UPDATE of one row. *)
Definition put_pub (code id : string) (r : pub_rec) : tx unit :=
  db ← read (fun db => db);
  if negb (pub_check r) then fail (ErrWrapCode code (sql_error "check constraint"))
  else match pub_conflict (db_published db) id r with
       | Some ix => fail (ErrWrapCode code (unique_violation ix))
       | None => write (fun db => set_published db (<[id := r]> (db_published db)))
       end.

(** ** Intervals *)

(** [d.Microseconds()] truncates; reading back multiplies. *)
Definition durationToInterval (d : Z) : Z := Z.quot d 1000.
Definition intervalToDuration (us : Z) : Z := us * 1000.

(** [EXTRACT(EPOCH FROM w)::BIGINT]: whole seconds, halves away from zero. *)
Definition interval_seconds (us : Z) : Z :=
  Z.sgn us * ((2 * Z.abs us + 1000000) / 2000000).

(** ** Creating an attempt *)
Record CreatePublishAttemptInput : Type := mkCreateInput {
  ci_SceneID : string;
  ci_AttemptNumber : Z;
  ci_InitiatedBy : string;
  ci_VoteWindow : Z;
  ci_CoolOffWindow : Z;
  ci_MaxAttempts : Z
}.

Definition isUniqueViolation (e : error) (index : string) : bool :=
  match e with
  | ErrNew m => String.eqb m ("23505:" +:+ index)
  | _ => false
  end.

(** The codes under which a failed INSERT is reported. *)
Definition create_error (e : error) : error :=
  if isUniqueViolation e "published_scenes_one_active_per_scene"
  then ErrWrapCode "SCENE_PUBLISH_ALREADY_ACTIVE" e
  else if isUniqueViolation e "published_scenes_one_published_per_scene"
  then ErrWrapCode "SCENE_PUBLISH_ALREADY_PUBLISHED" e
  else if isUniqueViolation e "published_scenes_attempt_unique"
  then ErrWrapCode "SCENE_PUBLISH_ATTEMPT_NUMBER_TAKEN" e
  else ErrWrapCode "SCENE_PUBLISH_CREATE_FAILED" e.

(** The character ids seeded as voters: the scene's owner and members. *)
Definition voters (db : DB) (sceneID : string) : list string := roster db sceneID IsEligibleVoterRole.

Definition seed_votes (id : string) (cs : list string) (m : gmap (string * string) vote_rec)
    : gmap (string * string) vote_rec :=
  fold_right (fun c m => <[(id, c) := mkVoteRec None None None]> m) m cs.

Definition new_pub (ck : Clock) (inp : CreatePublishAttemptInput) : pub_rec :=
  mkPub (ci_SceneID inp) (ci_AttemptNumber inp) StatusCollecting (ci_InitiatedBy inp) (ck_go ck)
    None None (durationToInterval (ci_VoteWindow inp)) (durationToInterval (ci_CoolOffWindow inp))
    (ci_MaxAttempts inp) None None None None None.

Definition header_of (id : string) (r : pub_rec) : PublishedScene :=
  mkPublishedScene id (pb_scene_id r) (pb_attempt_number r) (pb_status r) (pb_initiated_by r)
    (pb_initiated_at r) (pb_cooloff_started_at r) (pb_resolved_at r)
    (intervalToDuration (pb_vote_window r)) (intervalToDuration (pb_cooloff_window r))
    (pb_max_attempts_snapshot r) [] (pb_title_snapshot r)
    (or_else (pb_participants_snapshot r) []) (pb_published_at r) (pb_failure_reason r).

Definition CreatePublishAttempt (ck : Clock) (inp : CreatePublishAttemptInput)
    : tx PublishedScene := atomically (
  db ← read (fun db => db);
  let id := ck_id ck in
  let r := new_pub ck inp in
  _ ← (if is_set (db_published db !! id)
       then fail (create_error (unique_violation "published_scenes_pkey"))
       else if negb (pub_check r) then fail (create_error (sql_error "check constraint"))
       else match pub_conflict (db_published db) id r with
            | Some ix => fail (create_error (unique_violation ix))
            | None => write (fun db => set_published db (<[id := r]> (db_published db)))
            end);
  let vs := voters db (ci_SceneID inp) in
  _ ← write (fun db => set_votes db (seed_votes id vs (db_votes db)));
  if (length vs =? 0)%nat
  then fail (ErrCode "SCENE_PUBLISH_NO_ELIGIBLE_VOTERS"
               "scene has no owner or member participants to seed the vote roster")
  else mret (mkPublishedScene id (ci_SceneID inp) (ci_AttemptNumber inp) StatusCollecting
               (ci_InitiatedBy inp) (ck_go ck) None None (ci_VoteWindow inp) (ci_CoolOffWindow inp)
               (ci_MaxAttempts inp) [] None [] None None)).

(** ** Votes *)
Definition vote_rows (db : DB) (id : string) : list (string * string * vote_rec) :=
  rows_where (fun k _ => String.eqb k.1 id) (db_votes db).

Definition ListPublishVoters (id : string) : tx (list PublishedSceneVote) :=
  read (fun db =>
    order_by (fun a b => String.leb (vt_CharacterID a) (vt_CharacterID b))
      (map (fun kv => mkVote kv.1.1 kv.1.2 (vr_vote kv.2) (vr_voted_at kv.2) (vr_last_changed_at kv.2))
         (vote_rows db id))).

Record CastVoteResult : Type := mkCastResult { cv_Vote : bool; cv_IsChange : bool }.

Definition CastVote (ck : Clock) (id characterID : string) (vote : bool)
    : tx CastVoteResult := atomically (
  db ← read (fun db => db);
  match db_published db !! id with
  | None => fail (ErrWrapCode "SCENE_PUBLISH_NOT_FOUND" ErrNoRows)
  | Some r =>
      if IsTerminal (pb_status r)
      then fail (ErrCode "SCENE_PUBLISH_INVALID_STATE"
                   "vote on a terminal publication attempt is rejected")
      else match db_votes db !! (id, characterID) with
           | None => fail (ErrWrapCode "SCENE_PUBLISH_NOT_A_VOTER" ErrNoRows)
           | Some v =>
               let isChange := match vr_vote v with Some prior => negb (Bool.eqb prior vote) | None => false end in
               let v' := mkVoteRec (Some vote)
                           (match vr_voted_at v with Some t => Some t | None => Some (ck_go ck) end)
                           (Some (ck_go ck)) in
               _ ← write (fun db => set_votes db (<[(id, characterID) := v']> (db_votes db)));
               mret (mkCastResult vote isChange)
           end
  end).

Definition count_votes (db : DB) (id : string) (P : option bool -> bool) : Z :=
  count_where (fun k v => String.eqb k.1 id && P (vr_vote v)) (db_votes db).

Definition tally (db : DB) (id : string) : VoteTally :=
  mkTally (count_votes db id (fun v => bool_decide (v = Some true)))
          (count_votes db id (fun v => bool_decide (v = Some false)))
          (count_votes db id (fun v => negb (is_set v))).

Definition TallyVotes (id : string) : tx VoteTally := read (fun db => tally db id).
Definition TallyVotesTx (id : string) : tx VoteTally := read (fun db => tally db id).

(** ** Reads *)
Definition GetPublishedSceneHeader (id : string) : tx (option PublishedScene) :=
  read (fun db => header_of id <$> db_published db !! id).

Definition GetPublishedSceneContent (id : string) : tx (list PublishedSceneEntry) :=
  read (fun db =>
    match db_published db !! id with
    | Some r => or_else (pb_content_entries r) []
    | None => []
    end).

(** ** Transitions *)
Record TransitionInput : Type := mkTransition {
  ti_To : PublishedSceneStatus;
  ti_FailureReason : option PublishFailureReason;
  ti_SetCoolOffAt : option Z;
  ti_ClearCoolOff : bool;
  ti_Resolved : bool
}.

Definition legalFromStatuses (to : PublishedSceneStatus) : list PublishedSceneStatus :=
  match to with
  | StatusCoolOff => [StatusCollecting]
  | StatusCollecting => [StatusCoolOff]
  | StatusPublished => [StatusCoolOff]
  | StatusAttemptFailed => [StatusCollecting; StatusCoolOff]
  | StatusOther _ => []
  end.

Definition transition_row (now : Z) (t : TransitionInput) (r : pub_rec) : pub_rec :=
  mkPub (pb_scene_id r) (pb_attempt_number r) (ti_To t) (pb_initiated_by r) (pb_initiated_at r)
    (match ti_SetCoolOffAt t with
     | Some a => Some a
     | None => if ti_ClearCoolOff t then None else pb_cooloff_started_at r
     end)
    (if ti_Resolved t then Some now else pb_resolved_at r)
    (pb_vote_window r) (pb_cooloff_window r) (pb_max_attempts_snapshot r)
    (pb_content_entries r) (pb_title_snapshot r) (pb_participants_snapshot r)
    (if bool_decide (ti_To t = StatusPublished) then Some now else pb_published_at r)
    (match ti_FailureReason t with Some f => Some f | None => pb_failure_reason r end).

Definition TransitionStatus (ck : Clock) (id : string) (t : TransitionInput) : tx unit :=
  let legalFrom := legalFromStatuses (ti_To t) in
  if (length legalFrom =? 0)%nat
  then fail (ErrCode "SCENE_PUBLISH_INVALID_TRANSITION" "unknown transition target status")
  else
    db ← read (fun db => db);
    match db_published db !! id with
    | Some r =>
        if bool_decide (pb_status r ∈ legalFrom)
        then put_pub "SCENE_PUBLISH_TRANSITION_FAILED" id (transition_row (ck_go ck) t r)
        else fail (ErrCode "SCENE_PUBLISH_INVALID_TRANSITION"
                     "row missing or not in a legal source status for this transition")
    | None => fail (ErrCode "SCENE_PUBLISH_INVALID_TRANSITION"
                      "row missing or not in a legal source status for this transition")
    end.

Definition failed_row (now : Z) (reason : PublishFailureReason) (r : pub_rec) : pub_rec :=
  mkPub (pb_scene_id r) (pb_attempt_number r) StatusAttemptFailed (pb_initiated_by r) (pb_initiated_at r)
    (pb_cooloff_started_at r) (Some now) (pb_vote_window r) (pb_cooloff_window r)
    (pb_max_attempts_snapshot r) (pb_content_entries r) (pb_title_snapshot r)
    (pb_participants_snapshot r) (pb_published_at r) (Some reason).

Definition FailAttemptTx (ck : Clock) (id : string) (reason : PublishFailureReason) : tx unit :=
  db ← read (fun db => db);
  match db_published db !! id with
  | Some r =>
      if bool_decide (pb_status r = StatusCoolOff)
      then put_pub "SCENE_PUBLISH_TRANSITION_FAILED" id (failed_row (ck_go ck) reason r)
      else fail (ErrCode "SCENE_PUBLISH_INVALID_TRANSITION" "row missing or no longer in COOLOFF for fail transition")
  | None => fail (ErrCode "SCENE_PUBLISH_INVALID_TRANSITION" "row missing or no longer in COOLOFF for fail transition")
  end.

Definition LockForSnapshot (id : string) : tx PublishedScene :=
  db ← read (fun db => db);
  match db_published db !! id with
  | None => fail (ErrWrapCode "SCENE_PUBLISH_NOT_FOUND" ErrNoRows)
  | Some r =>
      if bool_decide (pb_status r = StatusCoolOff) then mret (header_of id r)
      else fail (ErrCode "SCENE_PUBLISH_INVALID_STATE" "snapshot requires COOLOFF status")
  end.

(** ** Attempt budget *)
Record AttemptCounts : Type := mkCounts { ac_Total : Z; ac_Active : Z; ac_Published : Z }.

Definition pubs_of (db : DB) (sceneID : string) : list (string * pub_rec) :=
  rows_where (fun _ r => String.eqb (pb_scene_id r) sceneID) (db_published db).

Definition attempt_counts (db : DB) (sceneID : string) : AttemptCounts :=
  let n P := count_where (fun _ r => String.eqb (pb_scene_id r) sceneID && P (pb_status r)) (db_published db) in
  mkCounts (n (fun _ => true)) (n is_active) (n (fun s => bool_decide (s = StatusPublished))).

Definition CountAttempts (sceneID : string) : tx AttemptCounts :=
  read (fun db => attempt_counts db sceneID).

Definition GetSceneMaxPublishAttempts (sceneID : string) : tx Z :=
  db ← read (fun db => db);
  match db_scenes db !! sceneID with
  | Some r => mret (sc_max_publish_attempts r)
  | None => fail (ErrWrapCode "SCENE_PUBLISH_NOT_FOUND" ErrNoRows)
  end.

Definition with_max (r : scene_rec) (n : Z) : scene_rec :=
  mkSceneRec (sc_row r) n (sc_total_pose_count r).

(** [max_publish_attempts] is an INTEGER with [CHECK (max_publish_attempts > 0)]. *)
Definition ExtendMaxPublishAttempts (sceneID : string) (additional : Z) : tx Z :=
  db ← read (fun db => db);
  match db_scenes db !! sceneID with
  | None => fail (ErrWrapCode "SCENE_PUBLISH_NOT_FOUND" ErrNoRows)
  | Some r =>
      let n := sc_max_publish_attempts r + additional in
      if negb (int4_ok n) || negb (0 <? n)
      then fail (ErrWrapCode "SCENE_PUBLISH_EXTEND_FAILED" (sql_error "integer out of range or check"))
      else _ ← put_scene sceneID (with_max r n); mret n
  end.

(** ** The log, for snapshots and exports *)
Record LogRow : Type := mkLogRow {
  lr_ID : string;
  lr_Type : string;
  lr_Timestamp : Z;
  lr_ActorKind : string;
  lr_ActorID : string;
  lr_Payload : string;
  lr_SchemaVer : Z;
  lr_Codec : string;
  lr_DEKRef : option Z;
  lr_DEKVersion : option Z
}.

Definition log_row (kv : string * log_rec) : LogRow :=
  mkLogRow kv.1 (lg_type kv.2) (lg_timestamp kv.2) (lg_actor_kind kv.2) (lg_actor_id kv.2)
    (lg_payload kv.2) (lg_schema_ver kv.2) (lg_codec kv.2) (lg_dek_ref kv.2) (lg_dek_version kv.2).

Definition content_types : list string :=
  ["core-scenes:scene_pose"; "core-scenes:scene_say"; "core-scenes:scene_emit"].

Definition content_rows (db : DB) (subject : string) : list LogRow :=
  map log_row
    (order_by (fun a b => String.leb a.1 b.1)
       (rows_where (fun _ l => String.eqb (lg_subject l) subject && str_mem (lg_type l) content_types) (db_log db))).

Definition ReadSceneLogForSnapshot (subject : string) : tx (list LogRow) :=
  read (fun db => content_rows db subject).

Definition exportLogMaxRows : Z := 10000.

Definition ReadSceneLogForExport (fullSubject : string) : tx (list LogRow) :=
  rows ← read (fun db => take (Z.to_nat (exportLogMaxRows + 1)) (content_rows db fullSubject));
  if exportLogMaxRows <? Z.of_nat (length rows)
  then fail (ErrCode "SCENE_EXPORT_TOO_LARGE" "scene log exceeds export ceiling")
  else mret rows.

(** ** Listings *)
Definition ListSceneAttempts (sceneID : string) : tx (list PublishedScene) :=
  read (fun db =>
    order_by (fun a b => ps_AttemptNumber a <=? ps_AttemptNumber b)
      (map (fun kv => header_of kv.1 kv.2) (pubs_of db sceneID))).

Record ListPublishedScenesQuery : Type := mkPubQuery { pq_Limit : Z; pq_Offset : Z; pq_Tags : list string }.

Record PublishedSceneArchiveSummary : Type := mkSummary {
  as_ID : string;
  as_TitleSnapshot : string;
  as_ParticipantsSnapshot : list string;
  as_ContentEntries : list PublishedSceneEntry;
  as_PublishedAtNS : option Z;
  as_Tags : list string
}.

Definition defaultPublishedLimit : Z := 50.
Definition maxPublishedLimit : Z := 200.

(** [ORDER BY published_at DESC], which puts NULLs first. *)
Definition published_le (a b : PublishedSceneArchiveSummary) : bool :=
  match as_PublishedAtNS a, as_PublishedAtNS b with
  | None, _ => true
  | Some _, None => false
  | Some x, Some y => y <=? x
  end.

Definition summary_of (db : DB) (q : ListPublishedScenesQuery) (kv : string * pub_rec)
    : option PublishedSceneArchiveSummary :=
  let r := kv.2 in
  match db_scenes db !! pb_scene_id r with
  | Some s =>
      if bool_decide (pb_status r = StatusPublished)
         && (match pq_Tags q with [] => true | ts => array_contains (sr_Tags (sc_row s)) ts end)
      then Some (mkSummary kv.1 (or_else (pb_title_snapshot r) EmptyString)
                   (or_else (pb_participants_snapshot r) []) (or_else (pb_content_entries r) [])
                   (pb_published_at r) (sr_Tags (sc_row s)))
      else None
  | None => None
  end.

Definition ListPublishedScenes (q : ListPublishedScenesQuery) : tx (list PublishedSceneArchiveSummary) :=
  read (fun db =>
    page (norm_limit defaultPublishedLimit maxPublishedLimit (pq_Limit q)) (norm_offset (pq_Offset q))
      (order_by published_le (omap (summary_of db q) (map_to_list (db_published db))))).

(** ** The snapshot's write *)
Record MarkPublishedInput : Type := mkMark {
  mp_ContentEntries : list PublishedSceneEntry;
  mp_TitleSnapshot : string;
  mp_ParticipantsSnapshot : list string;
  mp_PublishedAt : Z
}.

Definition published_row (m : MarkPublishedInput) (r : pub_rec) : pub_rec :=
  mkPub (pb_scene_id r) (pb_attempt_number r) StatusPublished (pb_initiated_by r) (pb_initiated_at r)
    (pb_cooloff_started_at r) (Some (mp_PublishedAt m)) (pb_vote_window r) (pb_cooloff_window r)
    (pb_max_attempts_snapshot r) (Some (mp_ContentEntries m)) (Some (mp_TitleSnapshot m))
    (Some (mp_ParticipantsSnapshot m)) (Some (mp_PublishedAt m)) (pb_failure_reason r).

Definition MarkPublished (id : string) (m : MarkPublishedInput) : tx unit :=
  db ← read (fun db => db);
  match db_published db !! id with
  | Some r =>
      if bool_decide (pb_status r = StatusCoolOff)
      then put_pub "SCENE_PUBLISH_MARK_PUBLISHED_FAILED" id (published_row m r)
      else fail (ErrCode "SCENE_PUBLISH_INVALID_TRANSITION"
                   "published_scenes row missing or no longer in COOLOFF at publish write")
  | None => fail (ErrCode "SCENE_PUBLISH_INVALID_TRANSITION"
                    "published_scenes row missing or no longer in COOLOFF at publish write")
  end.

(** Whether a row was updated. *)
Definition ArchiveSceneStateForPublish (sceneID : string) : tx bool :=
  db ← read (fun db => db);
  match db_scenes db !! sceneID with
  | None => mret false
  | Some r => _ ← put_scene sceneID (with_row r (set_state (sc_row r) SceneStateArchived)); mret true
  end.

Record SnapshotSceneMeta : Type := mkMeta { mt_Title : string; mt_Participants : list string }.

Definition ReadSceneMetaForSnapshot (sceneID : string) : tx SnapshotSceneMeta :=
  read (fun db =>
    match db_scenes db !! sceneID with
    | None => mkMeta EmptyString []
    | Some r =>
        mkMeta (sr_Title (sc_row r))
          (map snd (order_by joined_le
             (map (fun kv => (pt_joined_at kv.2, kv.1.2))
                (rows_where (fun k p => String.eqb k.1 sceneID && IsEligibleVoterRole (pt_role p))
                   (db_participants db)))))
    end).

(** ** The scheduler's scans *)
Record scheduledAttempt : Type := mkScheduled { sa_ID : string; sa_SceneID : string }.

Definition vote_deadline (r : pub_rec) : Z :=
  pb_initiated_at r + interval_seconds (pb_vote_window r) * 1000000000.

Definition cooloff_deadline (r : pub_rec) (started : Z) : Z :=
  started + interval_seconds (pb_cooloff_window r) * 1000000000.

(** The deadline of a row in the scanned status, if it has one. *)
Definition expired (deadline : pub_rec -> option Z) (code : string) (st : PublishedSceneStatus) (nowNs : Z)
    : tx (list scheduledAttempt) :=
  db ← read (fun db => db);
  let rows := rows_where (fun _ r => bool_decide (pb_status r = st)) (db_published db) in
  if forallb (fun kv => match deadline kv.2 with Some d => int8_ok d | None => true end) rows
  then mret (omap (fun kv => d ← deadline kv.2;
                             if d <=? nowNs then Some (mkScheduled kv.1 (pb_scene_id kv.2)) else None) rows)
  else fail (ErrWrapCode code (sql_error "bigint out of range")).

Definition ListExpiredCollecting (nowNs : Z) : tx (list scheduledAttempt) :=
  expired (fun r => Some (vote_deadline r)) "SCENE_SCHEDULER_LIST_EXPIRED_COLLECTING_FAILED"
    StatusCollecting nowNs.

Definition ListExpiredCoolOff (nowNs : Z) : tx (list scheduledAttempt) :=
  expired (fun r => cooloff_deadline r <$> pb_cooloff_started_at r)
    "SCENE_SCHEDULER_LIST_EXPIRED_COOLOFF_FAILED" StatusCoolOff nowNs.
