(* ===== verification/SceneProg.v ===== *)
(** Programs of the scenes service.

    A handler is a sequence of calls: to the store (the interface [sceneStorer] of
    [plugins/core-scenes/service.go], with the scheduler's and the audit server's
    store interfaces) and to the host (the policy evaluator, settings, the event
    sink, focus, decryption, the clock).  [prog] is such a sequence, each call
    followed by what the handler does with the answer, so that the calls of
    several handlers can be interleaved: every store call is one transaction, and
    nothing else is atomic.

    Answers are not under the handler's control.  A store call may fail before
    taking effect or after ([fault]: the database is unreachable, or the reply to
    a commit is lost), and the answers of host calls are arbitrary. *)

From S2P Require Import Prelude GoStrings Sql SceneTypes SceneStore ScenePublishStore.

Open Scope Z_scope.

(** ** The write transaction of the snapshot

    [runSnapshot] of [publish_snapshot.go] from [LockForSnapshot] to [Commit],
    for content decoded beforehand ([failReason] set if that failed). *)
Inductive SnapshotOutcome : Type :=
| SnapshotNoop
| SnapshotFailed (reason : PublishFailureReason)
| SnapshotPublished (t : VoteTally) (archived : bool).

Definition snapshot_tx (ck : Clock) (attemptID sceneID : string)
    (entries : list PublishedSceneEntry) (failReason : option PublishFailureReason)
    : tx SnapshotOutcome :=
  atomically (fun db =>
    match LockForSnapshot attemptID db with
    | (Err e, db1) =>
        if has_code e "SCENE_PUBLISH_INVALID_STATE" then (Ok SnapshotNoop, db) else (Err e, db1)
    | (Ok pub, db1) =>
        (t ← TallyVotesTx (ps_ID pub);
         if (Yes t =? 0) || (0 <? No t) || (0 <? Pending t)
         then _ ← FailAttemptTx ck attemptID FailureCoolOffInvariantBroken;
              mret (SnapshotFailed FailureCoolOffInvariantBroken)
         else match failReason with
              | Some reason =>
                  _ ← FailAttemptTx ck attemptID reason; mret (SnapshotFailed reason)
              | None =>
                  meta ← ReadSceneMetaForSnapshot sceneID;
                  _ ← MarkPublished attemptID
                        (mkMark entries (mt_Title meta) (mt_Participants meta) (ck_go ck));
                  archived ← ArchiveSceneStateForPublish sceneID;
                  mret (SnapshotPublished t archived)
              end) db1
    end).

(** ** Calls *)
Inductive store_call : Type -> Type :=
| SCreateWithOwner (row : SceneRow) : store_call unit
| SGet (id : string) : store_call SceneRow
| SGetWithMembership (id : string) : store_call (SceneRow * list string * list string)
| SGetWithMembershipAndObservers (id : string) : store_call (SceneRow * list string * list string * list string)
| SAddObserver (sceneID characterID : string) : store_call (option ParticipantRow * ObserverAddResult)
| SEnd (id : string) : store_call SceneRow
| SPause (id : string) : store_call SceneRow
| SResume (id : string) : store_call SceneRow
| SUpdate (id : string) (u : SceneUpdate) : store_call SceneRow
| SAddParticipant (sceneID characterID : string) : store_call (ParticipantRow * ParticipantOpResult)
| SRemoveParticipant (sceneID characterID : string) : store_call ParticipantRow
| SInviteParticipant (sceneID inviterID targetID : string) : store_call ParticipantRow
| SKickParticipant (sceneID kickerID targetID : string) : store_call ParticipantRow
| STransferOwnership (sceneID currentOwnerID newOwnerID : string) : store_call unit
| SGetParticipant (sceneID characterID : string) : store_call ParticipantRow
| SIsMember (sceneID characterID : string) : store_call bool
| SIsParticipant (sceneID characterID : string) : store_call bool
| SListParticipantsWithPoseMeta (sceneID : string) : store_call ParticipantsWithPoseMeta
| SListBoard (q : BoardQuery) (icSubjectPrefix : string) : store_call (list SceneRow)
| SListCharacterScenes (characterID icSubjectPrefix : string) : store_call (list CharacterSceneResult)
| SSetSceneMute (characterID sceneID : string) (muted : bool) : store_call unit
| SSetSceneNotifyPref (characterID : string) (enabled : bool) : store_call unit
| SGetSceneNotifyPref (characterID : string) : store_call (bool * string)
| SListMutedScenes (characterID : string) : store_call (list string)
| SListScenesIdlePastThreshold (nowNs dflt : Z) : store_call (list (string * SceneState))
| SCreatePublishAttempt (inp : CreatePublishAttemptInput) : store_call PublishedScene
| SListPublishVoters (id : string) : store_call (list PublishedSceneVote)
| SCastVote (id characterID : string) (vote : bool) : store_call CastVoteResult
| STallyVotes (id : string) : store_call VoteTally
| SGetPublishedSceneHeader (id : string) : store_call (option PublishedScene)
| SGetPublishedSceneContent (id : string) : store_call (list PublishedSceneEntry)
| STransitionStatus (id : string) (t : TransitionInput) : store_call unit
| SCountAttempts (sceneID : string) : store_call AttemptCounts
| SGetSceneMaxPublishAttempts (sceneID : string) : store_call Z
| SExtendMaxPublishAttempts (sceneID : string) (additional : Z) : store_call Z
| SListSceneAttempts (sceneID : string) : store_call (list PublishedScene)
| SListPublishedScenes (q : ListPublishedScenesQuery) : store_call (list PublishedSceneArchiveSummary)
| SReadSceneLogForSnapshot (subject : string) : store_call (list LogRow)
| SReadSceneLogForExport (fullSubject : string) : store_call (list LogRow)
| SSnapshotTx (attemptID sceneID : string) (entries : list PublishedSceneEntry)
    (failReason : option PublishFailureReason) : store_call SnapshotOutcome
| SListExpiredCollecting (nowNs : Z) : store_call (list scheduledAttempt)
| SListExpiredCoolOff (nowNs : Z) : store_call (list scheduledAttempt)
| SAuditInsert (id : string) (l : log_rec) : store_call unit
| SInsertScenePose (id : string) (l : log_rec) (sceneID posedCharID : string) : store_call unit
| SQueryLog (subject after before : string) (notBefore notAfter : option Z) (reverse : bool) (pageSize : Z)
    : store_call (list (string * log_rec)).

Definition run_call (ck : Clock) {A} (c : store_call A) : tx A :=
  match c in store_call A return tx A with
  | SCreateWithOwner row => CreateWithOwner ck row
  | SGet id => Get id
  | SGetWithMembership id => GetWithMembership id
  | SGetWithMembershipAndObservers id => GetWithMembershipAndObservers id
  | SAddObserver s c => AddObserver ck s c
  | SEnd id => End_ ck id
  | SPause id => Pause ck id
  | SResume id => Resume ck id
  | SUpdate id u => Update ck id (Some u)
  | SAddParticipant s c => AddParticipant ck s c
  | SRemoveParticipant s c => RemoveParticipant ck s c
  | SInviteParticipant s i t => InviteParticipant ck s i t
  | SKickParticipant s k t => KickParticipant ck s k t
  | STransferOwnership s c n => TransferOwnership ck s c n
  | SGetParticipant s c => GetParticipant s c
  | SIsMember s c => IsMember s c
  | SIsParticipant s c => IsParticipant s c
  | SListParticipantsWithPoseMeta s => ListParticipantsWithPoseMeta s
  | SListBoard q p => ListBoard q p
  | SListCharacterScenes c p => ListCharacterScenes c p
  | SSetSceneMute c s m => SetSceneMute c s m
  | SSetSceneNotifyPref c e => SetSceneNotifyPref c e
  | SGetSceneNotifyPref c => GetSceneNotifyPref c
  | SListMutedScenes c => ListMutedScenes c
  | SListScenesIdlePastThreshold n d => ListScenesIdlePastThreshold n d
  | SCreatePublishAttempt inp => CreatePublishAttempt ck inp
  | SListPublishVoters id => ListPublishVoters id
  | SCastVote id c v => CastVote ck id c v
  | STallyVotes id => TallyVotes id
  | SGetPublishedSceneHeader id => GetPublishedSceneHeader id
  | SGetPublishedSceneContent id => GetPublishedSceneContent id
  | STransitionStatus id t => TransitionStatus ck id t
  | SCountAttempts s => CountAttempts s
  | SGetSceneMaxPublishAttempts s => GetSceneMaxPublishAttempts s
  | SExtendMaxPublishAttempts s n => ExtendMaxPublishAttempts s n
  | SListSceneAttempts s => ListSceneAttempts s
  | SListPublishedScenes q => ListPublishedScenes q
  | SReadSceneLogForSnapshot s => ReadSceneLogForSnapshot s
  | SReadSceneLogForExport s => ReadSceneLogForExport s
  | SSnapshotTx a s es f => snapshot_tx ck a s es f
  | SListExpiredCollecting n => ListExpiredCollecting n
  | SListExpiredCoolOff n => ListExpiredCoolOff n
  | SAuditInsert id l => audit_Insert id l
  | SInsertScenePose id l s c => InsertScenePose id l s c
  | SQueryLog s a b nb na r p => queryLog s a b nb na r p
  end.

(** What the plugin asks of its host. *)
Inductive SettingScope : Type := SettingScopeGame | SettingScopePlayer | SettingScopeCharacter.

(** [pluginsdk.EmitIntent], with the JSON payload as its fields. *)
Record EmitIntent : Type := mkIntent {
  ei_Subject : string;
  ei_Type : string;
  ei_Payload : list (string * payload_val);
  ei_Sensitive : bool
}.

Inductive ActorKind : Type := ActorCharacter | ActorPlayer | ActorSystem | ActorPlugin | ActorUnspecified.

#[export] Instance ActorKind_eq_dec : EqDecision ActorKind.
Proof. solve_decision. Defined.

(** [pluginv1.AuditRow]; DEK fields are unsigned. *)
Record AuditRow : Type := mkAuditRow {
  ar_Id : string;
  ar_Subject : string;
  ar_Type : string;
  ar_Timestamp : option Z;
  ar_Actor : option (ActorKind * string);
  ar_Codec : string;
  ar_Payload : string;
  ar_SchemaVer : Z;
  ar_DekRef : option Z;
  ar_DekVersion : option Z
}.

(** [pluginv1.RowResult]: the plaintext, or the reason there is none. *)
Record RowResult : Type := mkRowResult { rr_Plaintext : string; rr_NoPlaintextReason : string }.

Inductive host_call : Type -> Type :=
| HEvaluate (action resource : string) : host_call (result bool)
| HGetSetting (scope : SettingScope) (principal key : string) : host_call (result (option (list string)))
| HDecryptOwnAuditRows (rows : list AuditRow) : host_call (result (list RowResult))
| HEmit (intent : EmitIntent) : host_call (result unit)
| HJoinFocus (sessionID sceneID : string) : host_call (result unit)
| HSend (row : AuditRow) : host_call (result unit)
| HNow : host_call Z
| HNewID : host_call (result string).

(** ** Programs *)
Inductive prog (B : Type) : Type :=
| Done (b : B)
| Store {A : Type} (c : store_call A) (k : result A -> prog B)
| Host {A : Type} (c : host_call A) (k : A -> prog B).
Arguments Done {B} b.
Arguments Store {B A} c k.
Arguments Host {B A} c k.

Fixpoint prog_bind {A B} (p : prog A) (f : A -> prog B) : prog B :=
  match p with
  | Done a => f a
  | Store c k => Store c (fun r => prog_bind (k r) f)
  | Host c k => Host c (fun r => prog_bind (k r) f)
  end.

#[export] Instance prog_ret : MRet prog := fun A a => Done a.
#[export] Instance prog_mbind : MBind prog := fun A B f p => prog_bind p f.

Definition call {A} (c : store_call A) : prog (result A) := Store c Done.
Definition host {A} (c : host_call A) : prog A := Host c Done.

(** [x, err := m; if err != nil { h }; k]. *)
Definition try_ {A B} (m : prog (result A)) (h : error -> prog B) (k : A -> prog B) : prog B :=
  r ← m; match r with Ok a => k a | Err e => h e end.

Declare Scope prog_scope.
Notation "x <~ m @@ h ;; k" := (try_ m h (fun x => k))
  (at level 100, m at next level, h at next level, right associativity) : prog_scope.

Fixpoint forM_ {A} (l : list A) (f : A -> prog unit) : prog unit :=
  match l with [] => Done tt | a :: l' => _ ← f a; forM_ l' f end.

(** ** Execution *)
Inductive fault : Type :=
| NoFault
| Refused (e : error)   (* no effect *)
| Unanswered (e : error)  (* the effect, but an error for an answer *).

(** What the environment supplies for one step. *)
Record environment : Type := mkEnv {
  en_clock : Clock;
  en_fault : fault;
  en_host : forall A, host_call A -> A
}.

Definition exec_store (en : environment) {A} (c : store_call A) (db : DB) : result A * DB :=
  match en_fault en with
  | NoFault => run_call (en_clock en) c db
  | Refused e => (Err e, db)
  | Unanswered e => (Err e, (run_call (en_clock en) c db).2)
  end.

(** One call of a handler. *)
Definition step_prog {B} (en : environment) (p : prog B) (db : DB) : prog B * DB :=
  match p with
  | Done b => (Done b, db)
  | Store c k => let '(r, db') := exec_store en c db in (k r, db')
  | Host c k => (k (en_host en _ c), db)
  end.

(** A handler run alone, one environment per call. *)
Fixpoint run_alone {B} (ens : list environment) (p : prog B) (db : DB) : prog B * DB :=
  match ens with
  | [] => (p, db)
  | en :: ens' => let '(p', db') := step_prog en p db in run_alone ens' p' db'
  end.

(** ** gRPC results *)
Inductive grpc_code : Type :=
| NotFound | InvalidArgument | PermissionDenied | FailedPrecondition | AlreadyExists | Internal | Unknown.

#[export] Instance grpc_code_eq_dec : EqDecision grpc_code.
Proof. solve_decision. Defined.

Inductive rpc (A : Type) : Type :=
| Reply (a : A)
| Status (c : grpc_code) (msg : string).
Arguments Reply {A} a.
Arguments Status {A} c msg.

(** ** The service's wiring

    [sv_has_*] tell which injected clients are not nil; [ulid_bytes] and
    [ulid_text] are oklog/ulid's [ParseStrict] and [String], [decode_payload]
    decodes an {actor_id, text} payload. *)
Record Svc : Type := mkSvc {
  sv_gameID : string;
  sv_DefaultVoteWindow : Z;
  sv_DefaultCoolOffWindow : Z;
  sv_has_evaluator : bool;
  sv_has_decryptor : bool;
  sv_has_settings : bool;
  sv_has_focus : bool;
  sv_has_sink : bool;
  ulid_bytes : string -> option string;
  ulid_text : string -> string;
  decode_payload : string -> option (string * string)
}.

(** The actor the incoming metadata names, if any. *)
Definition Ctx : Type := option (ActorKind * string).
