(* ===== verification/SceneService.v ===== *)
(** Handlers of the scenes service: [plugins/core-scenes/service.go],
    [content_warnings.go], [publish_helpers.go] (errors), the attribute resolver
    [resolver.go] and the idle sweep [idle_scheduler.go], as programs over store
    and host calls.  Field validation of requests (protovalidate) happens before
    a handler runs and is not part of it. *)

From S2P Require Import Prelude GoStrings Sql SceneTypes SceneStore ScenePublishStore PoseOrder SceneProg.

Open Scope Z_scope.
Open Scope prog_scope.

(** ** Errors on the wire *)
Definition internalErr {A} : rpc A := Status Internal "internal error".

Definition mapStoreErr {A} (e : error) : rpc A :=
  match oops_code e with
  | Some code =>
      if str_mem code ["SCENE_PUBLISH_ALREADY_ACTIVE"; "SCENE_PUBLISH_ALREADY_PUBLISHED";
                       "SCENE_PUBLISH_ATTEMPTS_EXHAUSTED"; "SCENE_PUBLISH_NO_ELIGIBLE_VOTERS";
                       "SCENE_PUBLISH_INVALID_STATE"; "SCENE_NOT_WATCHABLE"; "SCENE_EXPORT_TOO_LARGE"]
      then Status FailedPrecondition code
      else if str_mem code ["SCENE_PUBLISH_NOT_A_VOTER"; "SCENE_PUBLISH_NOT_OWNER";
                            "SCENE_PUBLISH_NOT_PARTICIPANT"; "SCENE_PRIVACY_BOUNDARY_BLOCK";
                            "SCENE_EXPORT_NOT_PARTICIPANT"]
      then Status PermissionDenied code
      else if str_mem code ["SCENE_PUBLISH_CALLER_REQUIRED"; "SCENE_PUBLISH_CALLER_MALFORMED";
                            "SCENE_PUBLISH_FORMAT_UNSUPPORTED"; "SCENE_PUBLISH_REF_INVALID";
                            "SCENE_PUBLISH_EXTEND_INVALID"; "SCENE_PUBLISH_NO_FOCUSED_SCENE";
                            "SCENE_EXPORT_BAD_FORMAT"]
      then Status InvalidArgument code
      else if str_mem code ["SCENE_PUBLISH_NOT_FOUND"; "SCENE_NOT_FOUND"]
      then Status NotFound code
      else internalErr
  | None => internalErr
  end.

(** [None] when the error is not a transition error. *)
Definition mapTransitionError {A} (e : error) (sceneID : string) : option (rpc A) :=
  if has_code e "SCENE_NOT_FOUND" then Some (Status NotFound ("scene not found: " +:+ sceneID))
  else if has_code e "SCENE_TRANSITION_FORBIDDEN"
  then Some (Status FailedPrecondition "scene transition forbidden")
  else None.

Definition transition_status {A} (sceneID : string) (e : error) : prog (rpc A) :=
  Done (match mapTransitionError e sceneID with Some s => s | None => internalErr end).

Definition mapped {A} (e : error) : prog (rpc A) := Done (mapStoreErr e).
Definition internal {A} (e : error) : prog (rpc A) := Done internalErr.

(** ** Responses *)
Record ParticipantInfo : Type := mkPartInfo {
  pi_CharacterId : string; pi_CharacterName : string; pi_Role : string; pi_JoinedAt : option Z
}.

Record SceneInfo : Type := mkSceneInfo {
  si_Id : string;
  si_Title : string;
  si_Description : string;
  si_OwnerId : string;
  si_State : string;
  si_Visibility : string;
  si_PoseOrderMode : string;
  si_ContentWarnings : list string;
  si_Tags : list string;
  si_CreatedAt : Z;
  si_LastActivityMs : Z;
  si_LocationId : string;
  si_Participants : list ParticipantInfo;
  si_Observers : list ParticipantInfo;
  si_ActivePublishAttemptId : string;
  si_PublishStatus : string
}.

Definition rowToProto (row : SceneRow) (createdAt : Z) : SceneInfo :=
  mkSceneInfo (sr_ID row) (sr_Title row) (sr_Description row) (sr_OwnerID row)
    (state_string (sr_State row)) (sr_Visibility row) (sr_PoseOrder row) (sr_ContentWarnings row)
    (sr_Tags row) createdAt (sr_LastActivityMs row) (or_else (sr_LocationID row) EmptyString)
    [] [] EmptyString EmptyString.

(** ** Guards shared by the handlers *)

(** Present actor metadata that contradicts the acting character. *)
Definition mismatchedActingCharacter (ctx : Ctx) (characterID : string) : bool :=
  match ctx with
  | Some (ActorCharacter, id) => negb (String.eqb id characterID)
  | _ => false
  end.

Definition callerNotVouchedAsCharacter (ctx : Ctx) (characterID : string) : bool :=
  match ctx with
  | Some (ActorCharacter, id) => negb (String.eqb id characterID)
  | _ => true
  end.

(** The policy gate: no evaluator, an evaluation error and a denial all stop. *)
Definition gate {A} (s : Svc) (action sceneID denied : string) (k : prog (rpc A)) : prog (rpc A) :=
  if negb (sv_has_evaluator s) then Done (Status Internal "permission check unavailable")
  else
    allowed <~ host (HEvaluate action ("scene:" +:+ sceneID)) @@ internal ;;
    if negb allowed then Done (Status PermissionDenied denied) else k.

(** The identity cross-check and the policy gate, as the lifecycle and
    membership handlers start. *)
Definition gated {A} (s : Svc) (ctx : Ctx) (action characterID sceneID mismatch denied : string)
    (k : prog (rpc A)) : prog (rpc A) :=
  if mismatchedActingCharacter ctx characterID then Done (Status PermissionDenied mismatch)
  else gate s action sceneID denied k.

(** ** Content warnings *)
Definition DefaultCWTaxonomy : list string :=
  ["violence"; "sexual-content"; "death"; "substance-use"; "self-harm"; "body-horror"; "abuse"].

Definition effectiveTaxonomy (s : Svc) : prog (list string) :=
  if negb (sv_has_settings s) then Done DefaultCWTaxonomy
  else
    r ← host (HGetSetting SettingScopeGame EmptyString "content.cw_taxonomy");
    match r with
    | Ok (Some (v :: vs)) => Done (v :: vs)
    | _ => Done DefaultCWTaxonomy
    end.

Definition validateContentWarnings (s : Svc) (cws : list string) : prog (rpc unit) :=
  match cws with
  | [] => Done (Reply tt)
  | _ =>
      taxonomy ← effectiveTaxonomy s;
      Done (if forallb (fun cw => str_mem cw taxonomy) cws then Reply tt
            else Status InvalidArgument "unknown content warning")
  end.

(** ** Events *)
Definition ic_event (s : Svc) (sceneID type : string) (payload : list (string * payload_val)) : EmitIntent :=
  mkIntent (dotStyleSceneSubjectIC (sv_gameID s) sceneID) type payload false.

(** Best-effort emission of a notice: failures are logged only. *)
Definition notice (s : Svc) (i : EmitIntent) : prog unit :=
  if sv_has_sink s then _ ← host (HEmit i); Done tt else Done tt.

Definition emitSceneJoinIC (s : Svc) (sceneID actorID : string) (res : ParticipantOpResult) : prog unit :=
  let fromRole := match res with
                  | OpPromoted => "invited" | ParticipantUpgraded => "observer" | _ => "none" end in
  notice s (ic_event s sceneID "core-scenes:scene_join_ic"
              [("actor_id", PStr actorID); ("scene_id", PStr sceneID); ("from_role", PStr fromRole)]).

Definition emitSceneLeaveIC (s : Svc) (sceneID actorID reason removedBy : string) : prog unit :=
  notice s (ic_event s sceneID "core-scenes:scene_leave_ic"
              ([("actor_id", PStr actorID); ("scene_id", PStr sceneID); ("reason", PStr reason)]
               ++ (if is_empty removedBy then [] else [("removed_by", PStr removedBy)]))).

Definition emitScenePoseOrderChangedIC (s : Svc) (sceneID actorID oldMode newMode : string) : prog unit :=
  notice s (ic_event s sceneID "core-scenes:scene_pose_order_changed_ic"
              [("actor_id", PStr actorID); ("scene_id", PStr sceneID);
               ("old_mode", PStr oldMode); ("new_mode", PStr newMode)]).

Definition sceneCreatedIntent (s : Svc) (row : SceneRow) : EmitIntent :=
  mkIntent (dotStyleSceneSubject (sv_gameID s) (sr_ID row)) "system"
    [("kind", PStr "scene.lifecycle.created"); ("scene_id", PStr (sr_ID row));
     ("owner_id", PStr (sr_OwnerID row)); ("title", PStr (sr_Title row))] false.

(** ** Creating and reading *)
Record CreateSceneRequest : Type := mkCreateReq {
  cq_CharacterId : string;
  cq_Title : string;
  cq_Description : string;
  cq_LocationId : string;
  cq_Visibility : string;
  cq_PoseOrderMode : string;
  cq_Tags : list string;
  cq_ContentWarnings : list string
}.

Definition scene_of_request (id title : string) (req : CreateSceneRequest) : SceneRow :=
  mkSceneRow id title (cq_Description req)
    (if is_empty (cq_LocationId req) then None else Some (cq_LocationId req))
    (cq_CharacterId req) SceneStateActive "free"
    (if is_empty (cq_Visibility req) then SceneVisibilityOpen else cq_Visibility req)
    None None (cq_ContentWarnings req) [] 0 None None 0.

Definition CreateScene (s : Svc) (ctx : Ctx) (req : CreateSceneRequest) : prog (rpc SceneInfo) :=
  if mismatchedActingCharacter ctx (cq_CharacterId req)
  then Done (Status PermissionDenied "not permitted to create for this character")
  else
    let title := TrimSpace (cq_Title req) in
    if is_empty title then Done (Status InvalidArgument "title cannot be whitespace-only")
    else
      v ← validateContentWarnings s (cq_ContentWarnings req);
      match v with
      | Status c m => Done (Status c m)
      | Reply _ =>
          id <~ host HNewID @@ internal ;;
          let row := scene_of_request id title req in
          if negb (sv_has_sink s) then Done internalErr
          else
            _ <~ call (SCreateWithOwner row) @@ internal ;;
            _ <~ host (HEmit (sceneCreatedIntent s row)) @@ internal ;;
            now ← host HNow;
            Done (Reply (rowToProto row now))
      end.

Definition activeAttemptID (attempts : list PublishedScene) : option string :=
  ps_ID <$> List.find (fun a => negb (IsTerminal (ps_Status a))) attempts.

Definition with_roster (i : SceneInfo) (ps os : list ParticipantInfo) : SceneInfo :=
  mkSceneInfo (si_Id i) (si_Title i) (si_Description i) (si_OwnerId i) (si_State i) (si_Visibility i)
    (si_PoseOrderMode i) (si_ContentWarnings i) (si_Tags i) (si_CreatedAt i) (si_LastActivityMs i)
    (si_LocationId i) ps os (si_ActivePublishAttemptId i) (si_PublishStatus i).

Definition with_attempt (i : SceneInfo) (id st : string) : SceneInfo :=
  mkSceneInfo (si_Id i) (si_Title i) (si_Description i) (si_OwnerId i) (si_State i) (si_Visibility i)
    (si_PoseOrderMode i) (si_ContentWarnings i) (si_Tags i) (si_CreatedAt i) (si_LastActivityMs i)
    (si_LocationId i) (si_Participants i) (si_Observers i) id st.

Definition GetScene (sceneID characterID : string) : prog (rpc SceneInfo) :=
  r ← call (SGetWithMembershipAndObservers sceneID);
  match r with
  | Err e => if has_code e "SCENE_NOT_FOUND" then Done (Status NotFound "scene not found") else Done internalErr
  | Ok (row, participants, invitees, observers) =>
      if negb (String.eqb (sr_Visibility row) SceneVisibilityOpen)
         && negb (str_mem characterID participants) && negb (str_mem characterID invitees)
         && negb (str_mem characterID observers)
      then Done (Status NotFound "scene not found")
      else
        let info := with_roster (rowToProto row (sr_CreatedAt row))
          (map (fun id => mkPartInfo id id (if String.eqb id (sr_OwnerID row) then "owner" else "member") None) participants)
          (map (fun id => mkPartInfo id id "observer" None) observers) in
        a ← call (SListSceneAttempts (sr_ID row));
        Done (Reply
          (match a with
           | Ok attempts =>
               match activeAttemptID attempts with
               | Some attID =>
                   with_attempt info attID
                     (match List.find (fun x => String.eqb (ps_ID x) attID) attempts with
                      | Some x => status_string (ps_Status x) | None => EmptyString end)
               | None => info
               end
           | Err _ => info
           end))
  end.

Record ListScenesRequest : Type := mkListReq {
  lq_Limit : Z; lq_Offset : Z; lq_Tags : list string; lq_ExcludeContentWarnings : list string;
  lq_PlayerId : string; lq_CharacterId : string
}.

(** The values a scope's [content.cw_block] contributes; errors contribute none. *)
Definition cw_block (scope : SettingScope) (principal : string) : prog (list string) :=
  r ← host (HGetSetting scope principal "content.cw_block");
  Done (match r with Ok (Some vs) => vs | _ => [] end).

Definition resolveBlockedCW (s : Svc) (req : ListScenesRequest) : prog (list string) :=
  if negb (sv_has_settings s) then Done (remove_dups (lq_ExcludeContentWarnings req))
  else
    g ← cw_block SettingScopeGame EmptyString;
    p ← cw_block SettingScopePlayer (lq_PlayerId req);
    c ← cw_block SettingScopeCharacter (lq_CharacterId req);
    Done (remove_dups (lq_ExcludeContentWarnings req ++ g ++ p ++ c)).

Definition ic_prefix (s : Svc) : string := "events." +:+ sv_gameID s +:+ ".scene.".

Definition ListScenes (s : Svc) (req : ListScenesRequest) : prog (rpc (list SceneInfo)) :=
  blocked ← resolveBlockedCW s req;
  rows <~ call (SListBoard (mkBoardQuery (lq_Limit req) (lq_Offset req) (lq_Tags req) blocked) (ic_prefix s))
    @@ (fun _ => Done (Status Internal "failed to list scenes")) ;;
  Done (Reply (map (fun row => rowToProto row (sr_CreatedAt row)) rows)).

Record CharacterSceneInfo : Type := mkCharScene {
  ch_Scene : SceneInfo; ch_Role : string; ch_LastActivityMs : Z; ch_EntryCount : Z; ch_Muted : bool
}.

Definition ListCharacterScenes_rpc (s : Svc) (characterID : string)
    : prog (rpc (list CharacterSceneInfo * bool)) :=
  results <~ call (SListCharacterScenes characterID (ic_prefix s)) @@ internal ;;
  m ← call (SListMutedScenes characterID);
  g ← call (SGetSceneNotifyPref characterID);
  let '(muted, enabled) := match m, g with
                           | Ok ids, Ok (en, _) => (ids, en)
                           | _, _ => ([], true)
                           end in
  Done (Reply (map (fun r => mkCharScene (rowToProto (cs_Scene r) (sr_CreatedAt (cs_Scene r)))
                               (role_string (cs_Role r)) (cs_LastActivityMS r) (cs_EntryCount r)
                               (str_mem (sr_ID (cs_Scene r)) muted)) results, enabled)).

(** ** Lifecycle *)
Definition EndScene (s : Svc) (ctx : Ctx) (characterID sceneID : string) : prog (rpc SceneInfo) :=
  gated s ctx "end" characterID sceneID "not permitted to end for this character"
    "not permitted to end this scene"
    (row <~ call (SEnd sceneID) @@ transition_status sceneID ;;
     Done (Reply (rowToProto row (sr_CreatedAt row)))).

Definition PauseScene (s : Svc) (ctx : Ctx) (characterID sceneID : string) : prog (rpc SceneInfo) :=
  gated s ctx "pause" characterID sceneID "not permitted to pause for this character"
    "not permitted to pause this scene"
    (row <~ call (SPause sceneID) @@ transition_status sceneID ;;
     Done (Reply (rowToProto row (sr_CreatedAt row)))).

Definition ResumeScene (s : Svc) (ctx : Ctx) (characterID sceneID : string) : prog (rpc SceneInfo) :=
  gated s ctx "resume" characterID sceneID "not permitted to resume for this character"
    "not permitted to resume this scene"
    (row <~ call (SResume sceneID) @@ transition_status sceneID ;;
     Done (Reply (rowToProto row (sr_CreatedAt row)))).

(** ** Notification preferences *)
Definition MuteScene (s : Svc) (ctx : Ctx) (characterID sceneID : string) (muted : bool) : prog (rpc unit) :=
  gated s ctx "mute" characterID sceneID "not permitted to mute for this character"
    "not permitted to mute this scene"
    (_ <~ call (SSetSceneMute characterID sceneID muted) @@ internal ;; Done (Reply tt)).

Definition SetSceneNotifyPref_rpc (ctx : Ctx) (characterID : string) (enabled : bool) : prog (rpc unit) :=
  if callerNotVouchedAsCharacter ctx characterID
  then Done (Status PermissionDenied "not permitted to set prefs for this character")
  else _ <~ call (SSetSceneNotifyPref characterID enabled) @@ internal ;; Done (Reply tt).

Definition GetSceneNotifyPref_rpc (ctx : Ctx) (characterID : string) : prog (rpc (bool * string)) :=
  if callerNotVouchedAsCharacter ctx characterID
  then Done (Status PermissionDenied "not permitted to read prefs for this character")
  else p <~ call (SGetSceneNotifyPref characterID) @@ internal ;; Done (Reply p).

Definition ListMutedScenes_rpc (ctx : Ctx) (characterID : string) : prog (rpc (list string)) :=
  if callerNotVouchedAsCharacter ctx characterID
  then Done (Status PermissionDenied "not permitted to list muted scenes for this character")
  else ids <~ call (SListMutedScenes characterID) @@ internal ;; Done (Reply ids).

(** ** Updating *)
Record UpdateSceneRequest : Type := mkUpdateReq {
  uq_CharacterId : string;
  uq_SceneId : string;
  uq_Mask : list string;
  uq_Title : string;
  uq_Description : string;
  uq_Visibility : string;
  uq_PoseOrderMode : string;
  uq_LocationId : string;
  uq_ContentWarnings : list string;
  uq_Tags : list string
}.

(** A repeated protobuf field without elements is a nil slice. *)
Definition repeated (l : list string) : option (list string) :=
  match l with [] => None | _ => Some l end.

Definition set_Title u t := mkSceneUpdate (Some t) (su_Description u) (su_Visibility u) (su_PoseOrder u) (su_LocationID u) (su_ContentWarnings u) (su_UpdateContentWarnings u) (su_Tags u) (su_UpdateTags u).
Definition set_Description u d := mkSceneUpdate (su_Title u) (Some d) (su_Visibility u) (su_PoseOrder u) (su_LocationID u) (su_ContentWarnings u) (su_UpdateContentWarnings u) (su_Tags u) (su_UpdateTags u).
Definition set_Visibility u v := mkSceneUpdate (su_Title u) (su_Description u) (Some v) (su_PoseOrder u) (su_LocationID u) (su_ContentWarnings u) (su_UpdateContentWarnings u) (su_Tags u) (su_UpdateTags u).
Definition set_PoseOrder u p := mkSceneUpdate (su_Title u) (su_Description u) (su_Visibility u) (Some p) (su_LocationID u) (su_ContentWarnings u) (su_UpdateContentWarnings u) (su_Tags u) (su_UpdateTags u).
Definition set_LocationID u l := mkSceneUpdate (su_Title u) (su_Description u) (su_Visibility u) (su_PoseOrder u) (Some l) (su_ContentWarnings u) (su_UpdateContentWarnings u) (su_Tags u) (su_UpdateTags u).
Definition set_ContentWarnings u c := mkSceneUpdate (su_Title u) (su_Description u) (su_Visibility u) (su_PoseOrder u) (su_LocationID u) c true (su_Tags u) (su_UpdateTags u).
Definition set_Tags u t := mkSceneUpdate (su_Title u) (su_Description u) (su_Visibility u) (su_PoseOrder u) (su_LocationID u) (su_ContentWarnings u) (su_UpdateContentWarnings u) t true.

(** One path of the field mask. *)
Definition mask_path (req : UpdateSceneRequest) (u : SceneUpdate) (path : string) : rpc SceneUpdate :=
  if String.eqb path "title" then
    let t := TrimSpace (uq_Title req) in
    if is_empty t then Status InvalidArgument "title cannot be empty or whitespace-only"
    else Reply (set_Title u t)
  else if String.eqb path "description" then Reply (set_Description u (uq_Description req))
  else if String.eqb path "visibility" then
    if is_empty (uq_Visibility req)
    then Status InvalidArgument "visibility cannot be empty when in update_mask"
    else Reply (set_Visibility u (uq_Visibility req))
  else if String.eqb path "pose_order_mode" then
    if is_empty (uq_PoseOrderMode req)
    then Status InvalidArgument "pose_order_mode cannot be empty when in update_mask"
    else Reply (set_PoseOrder u (uq_PoseOrderMode req))
  else if String.eqb path "location_id" then Reply (set_LocationID u (uq_LocationId req))
  else if String.eqb path "content_warnings"
  then Reply (set_ContentWarnings u (repeated (uq_ContentWarnings req)))
  else if String.eqb path "tags" then Reply (set_Tags u (repeated (uq_Tags req)))
  else Status InvalidArgument "unknown update_mask path".

Fixpoint mask_loop (req : UpdateSceneRequest) (u : SceneUpdate) (paths : list string) : rpc SceneUpdate :=
  match paths with
  | [] => Reply u
  | p :: ps => match mask_path req u p with
               | Reply u' => mask_loop req u' ps
               | Status c m => Status c m
               end
  end.

Definition buildSceneUpdate (req : UpdateSceneRequest) : rpc SceneUpdate :=
  mask_loop req emptySceneUpdate (uq_Mask req).

Definition UpdateScene (s : Svc) (ctx : Ctx) (req : UpdateSceneRequest) : prog (rpc SceneInfo) :=
  gated s ctx "update" (uq_CharacterId req) (uq_SceneId req) "not permitted to update for this character"
    "not permitted to update this scene"
    (match buildSceneUpdate req with
     | Status c m => Done (Status c m)
     | Reply update =>
         v ← (if su_UpdateContentWarnings update
              then validateContentWarnings s (or_else (su_ContentWarnings update) [])
              else Done (Reply tt));
         match v with
         | Status c m => Done (Status c m)
         | Reply _ =>
             pre ← (if is_set (su_PoseOrder update)
                    then r ← call (SGet (uq_SceneId req));
                         Done (match r with Ok row => Some (sr_PoseOrder row) | Err _ => None end)
                    else Done None);
             row <~ call (SUpdate (uq_SceneId req) update) @@ transition_status (uq_SceneId req) ;;
             _ ← (match pre with
                  | Some preMode =>
                      if String.eqb preMode (sr_PoseOrder row) then Done tt
                      else emitScenePoseOrderChangedIC s (uq_SceneId req) (uq_CharacterId req)
                             preMode (sr_PoseOrder row)
                  | None => Done tt
                  end);
             Done (Reply (rowToProto row (sr_CreatedAt row)))
         end
     end).

(** ** Membership *)
Definition join_status {A} (sceneID : string) (e : error) : rpc A :=
  if has_code e "SCENE_NOT_FOUND" then Status NotFound ("scene not found: " +:+ sceneID)
  else if has_code e "SCENE_TRANSITION_FORBIDDEN"
  then Status FailedPrecondition "scene cannot be joined in its current state"
  else if has_code e "SCENE_JOIN_NOT_INVITED"
  then Status PermissionDenied "character not invited to private scene"
  else internalErr.

Definition JoinScene (s : Svc) (ctx : Ctx) (characterID sceneID : string) : prog (rpc unit) :=
  if mismatchedActingCharacter ctx characterID
  then Done (Status PermissionDenied "not permitted to join for this character")
  else
    rr <~ call (SAddParticipant sceneID characterID) @@ (fun e => Done (join_status sceneID e)) ;;
    _ ← (if bool_decide (rr.2 = OpNoChange) then Done tt else emitSceneJoinIC s sceneID characterID rr.2);
    Done (Reply tt).

Definition WatchScene (s : Svc) (ctx : Ctx) (characterID sceneID sessionID : string)
    : prog (rpc ParticipantInfo) :=
  if mismatchedActingCharacter ctx characterID
  then Done (Status PermissionDenied "not permitted to watch this scene")
  else
    scene <~ call (SGet sceneID) @@ mapped ;;
    if negb (String.eqb (sr_Visibility scene) SceneVisibilityOpen)
       || (negb (bool_decide (sr_State scene = SceneStateActive))
           && negb (bool_decide (sr_State scene = SceneStatePaused)))
    then Done (mapStoreErr (ErrCode "SCENE_NOT_WATCHABLE" "scene is not watchable"))
    else gate s "spectate" sceneID "not permitted to watch this scene"
      (rr <~ call (SAddObserver sceneID characterID) @@ mapped ;;
       match rr.2, rr.1 with
       | ObserverSceneNotFound, _ => Done (Status NotFound ("scene not found: " +:+ sceneID))
       | ObserverSceneNotOpen, _ | ObserverSceneNotActive, _ =>
           Done (Status FailedPrecondition "SCENE_NOT_WATCHABLE")
       | _, None => Done internalErr
       | _, Some row =>
           if negb (sv_has_focus s) then Done (Status Internal "focus registration unavailable")
           else
             j ← host (HJoinFocus sessionID sceneID);
             match j with
             | Err e =>
                 if has_code e "FOCUS_ALREADY_MEMBER"
                 then Done (Reply (mkPartInfo (pr_CharacterID row) (pr_CharacterID row)
                                     (role_string (pr_Role row)) (Some (pr_JoinedAt row))))
                 else Done internalErr
             | Ok _ => Done (Reply (mkPartInfo (pr_CharacterID row) (pr_CharacterID row)
                                      (role_string (pr_Role row)) (Some (pr_JoinedAt row))))
             end
       end).

Definition leave_status {A} (e : error) : rpc A :=
  if has_code e "SCENE_PARTICIPANT_NOT_FOUND" then Status NotFound "character not in scene"
  else if has_code e "SCENE_OWNER_CANNOT_LEAVE" then Status FailedPrecondition "scene owners cannot leave"
  else internalErr.

Definition LeaveScene (s : Svc) (ctx : Ctx) (characterID sceneID : string) : prog (rpc unit) :=
  gated s ctx "leave" characterID sceneID "not permitted to leave for this character"
    "not permitted to leave this scene"
    (scene <~ call (SGet sceneID)
       @@ (fun e => Done (if has_code e "SCENE_NOT_FOUND"
                          then Status NotFound ("scene not found: " +:+ sceneID) else internalErr)) ;;
     if String.eqb (sr_OwnerID scene) characterID
     then Done (Status FailedPrecondition
                  "scene owners cannot leave; use `scene end` to terminate the scene or transfer ownership first")
     else
       _ <~ call (SRemoveParticipant sceneID characterID) @@ (fun e => Done (leave_status e)) ;;
       _ ← emitSceneLeaveIC s sceneID characterID "left" EmptyString;
       Done (Reply tt)).

Definition InviteToScene (s : Svc) (ctx : Ctx) (characterID sceneID targetID : string) : prog (rpc unit) :=
  gated s ctx "invite" characterID sceneID "not permitted to invite for this character"
    "not permitted to invite to this scene"
    (_ <~ call (SInviteParticipant sceneID characterID targetID)
       @@ (fun e => Done (if has_code e "SCENE_INVITE_TARGET_ALREADY_MEMBER"
                          then Status AlreadyExists "character is already a member of this scene"
                          else internalErr)) ;;
     Done (Reply tt)).

Definition kick_status {A} (e : error) : rpc A :=
  if has_code e "SCENE_PARTICIPANT_NOT_FOUND" then Status NotFound "target not in scene"
  else if has_code e "SCENE_KICK_FORBIDDEN" then Status FailedPrecondition "scene owner cannot be kicked"
  else internalErr.

Definition KickFromScene (s : Svc) (ctx : Ctx) (characterID sceneID targetID : string) : prog (rpc unit) :=
  gated s ctx "kick" characterID sceneID "not permitted to kick for this character"
    "not permitted to kick from this scene"
    (_ <~ call (SKickParticipant sceneID characterID targetID) @@ (fun e => Done (kick_status e)) ;;
     _ ← emitSceneLeaveIC s sceneID targetID "kicked" characterID;
     Done (Reply tt)).

Definition transfer_status {A} (sceneID : string) (e : error) : rpc A :=
  if has_code e "SCENE_NOT_FOUND" then Status NotFound ("scene not found: " +:+ sceneID)
  else if has_code e "SCENE_NOT_OWNER"
  then Status PermissionDenied "only the scene owner can transfer ownership"
  else if has_code e "SCENE_TRANSITION_FORBIDDEN"
  then Status FailedPrecondition "scene cannot have ownership transferred in its current state"
  else if has_code e "SCENE_TRANSFER_TARGET_NOT_MEMBER"
  then Status FailedPrecondition "transfer target must be an existing member of the scene"
  else internalErr.

Definition TransferOwnership_rpc (s : Svc) (ctx : Ctx) (characterID sceneID newOwnerID : string) : prog (rpc unit) :=
  gated s ctx "transfer-ownership" characterID sceneID "not permitted to transfer for this character"
    "not permitted to transfer this scene"
    (_ <~ call (STransferOwnership sceneID characterID newOwnerID)
       @@ (fun e => Done (transfer_status sceneID e)) ;;
     Done (Reply tt)).

(** ** Pose order *)
Record GetPoseOrderResponse : Type := mkPoseOrderResp {
  gp_Mode : string; gp_TotalPoseCount : Z; gp_Entries : list PoseOrderEntry
}.

Definition GetPoseOrder (characterID sceneID : string) : prog (rpc GetPoseOrderResponse) :=
  ok <~ call (SIsParticipant sceneID characterID)
    @@ (fun _ => Done (Status Internal "participant check failed")) ;;
  if negb ok then Done (Status PermissionDenied "not a participant of scene")
  else
    scene <~ call (SGet sceneID)
      @@ (fun e => Done (if has_code e "SCENE_NOT_FOUND"
                         then Status NotFound ("scene not found: " +:+ sceneID)
                         else Status Internal "scene lookup failed")) ;;
    meta <~ call (SListParticipantsWithPoseMeta sceneID)
      @@ (fun _ => Done (Status Internal "pose metadata lookup failed")) ;;
    Done (Reply (mkPoseOrderResp (sr_PoseOrder scene) (pp_TotalPoseCount meta)
                   (Compute_ (sr_PoseOrder scene) (pp_TotalPoseCount meta) (pp_Participants meta) ∅))).

(** ** The attribute resolver *)
Definition resourceTypeScene : string := "scene".

(** The attributes of a scene; [location] is absent when there is none. *)
Definition scene_attributes (row : SceneRow) (participants invitees : list string)
    : list (string * payload_val) :=
  [("id", PStr (sr_ID row)); ("owner", PStr (sr_OwnerID row)); ("state", PStr (state_string (sr_State row)));
   ("visibility", PStr (sr_Visibility row)); ("participants", PStrs participants); ("invitees", PStrs invitees)]
  ++ match sr_LocationID row with
     | Some l => if is_empty l then [("has_location", PBool false)]
                 else [("location", PStr l); ("has_location", PBool true)]
     | None => [("has_location", PBool false)]
     end.

Definition ResolveResource (resourceType resourceID : string) : prog (rpc (list (string * payload_val))) :=
  if negb (String.eqb resourceType resourceTypeScene)
  then Done (Status InvalidArgument "core-scenes only resolves its own resource type")
  else
    r <~ call (SGetWithMembership resourceID)
      @@ (fun e => Done (if has_code e "SCENE_NOT_FOUND"
                         then Status NotFound ("scene not found: " +:+ resourceID)
                         else Status Internal "failed to resolve scene")) ;;
    Done (Reply (scene_attributes r.1.1 r.1.2 r.2)).

(** ** The idle sweep *)
Definition idle_pause (s : Svc) (nudge : bool) (sc : string * SceneState) : prog unit :=
  if negb (IsValidTransition sc.2 SceneStatePaused) then Done tt
  else
    r ← call (SPause sc.1);
    match r with
    | Err _ => Done tt
    | Ok _ => if nudge
              then notice s (ic_event s sc.1 "core-scenes:scene_idle_nudge" [("scene_id", PStr sc.1)])
              else Done tt
    end.

Definition idle_sweep (s : Svc) (dflt : Z) (nudge : bool) : prog (result unit) :=
  nowNs ← host HNow;
  scenes <~ call (SListScenesIdlePastThreshold nowNs dflt)
    @@ (fun e => Done (Err (ErrWrapCode "SCENE_IDLE_SCHEDULER_SCAN_FAILED" e))) ;;
  _ ← forM_ scenes (idle_pause s nudge);
  Done (Ok tt).
