(* ===== verification/ScenePublish.v ===== *)
(** Publication of scenes: the handlers of [plugins/core-scenes/publish_service.go],
    the notices of [publish_events.go], the snapshot pipeline of
    [publish_snapshot.go], the scheduler's sweep of [publish_scheduler.go], log
    export ([export.go]) and the audit server of [audit.go]. *)

From S2P Require Import Prelude GoStrings Sql SceneTypes SceneRender SceneStore ScenePublishStore SceneProg SceneService.

Open Scope Z_scope.
Open Scope prog_scope.

(** ** Callers *)
Definition zero_ulid : string := String.concat EmptyString (repeat (String Ascii.zero EmptyString) 16).

Definition parseCallerCharacterID (s : Svc) (id : string) : result string :=
  if is_empty id then Err (ErrCode "SCENE_PUBLISH_CALLER_REQUIRED" "caller_character_id is required")
  else match ulid_bytes s id with
       | None => Err (ErrWrapCode "SCENE_PUBLISH_CALLER_MALFORMED" (ErrNew "ulid"))
       | Some b =>
           if String.eqb b zero_ulid
           then Err (ErrCode "SCENE_PUBLISH_CALLER_MALFORMED" "caller_character_id is the zero ULID")
           else Ok (ulid_text s b)
       end.

(** ** Notices *)
Definition seconds (d : Z) : Z := Z.quot d 1000000000.

(** The header the notices look up for the scene id; they are not sent without it. *)
Definition notify (s : Svc) (attemptID type : string) (payload : PublishedScene -> list (string * payload_val))
    : prog unit :=
  if negb (sv_has_sink s) then Done tt
  else
    r ← call (SGetPublishedSceneHeader attemptID);
    match r with
    | Ok (Some pub) => notice s (ic_event s (ps_SceneID pub) type (payload pub))
    | _ => Done tt
    end.

Definition emitPublishStarted (s : Svc) (pub : PublishedScene) : prog unit :=
  if negb (sv_has_sink s) then Done tt
  else
    r ← call (SListPublishVoters (ps_ID pub));
    match r with
    | Err _ => Done tt
    | Ok voters =>
        notice s (ic_event s (ps_SceneID pub) "core-scenes:scene_publish_started"
          [("attemptId", PStr (ps_ID pub)); ("attemptNumber", PInt (ps_AttemptNumber pub));
           ("initiatedBy", PStr (ps_InitiatedBy pub)); ("voteWindowSeconds", PInt (seconds (ps_VoteWindow pub)));
           ("cooloffWindowSeconds", PInt (seconds (ps_CoolOffWindow pub)));
           ("rosterCharacterIds", PStrs (map vt_CharacterID voters))])
    end.

Definition emitVoteCast (s : Svc) (attemptID characterID : string) (res : CastVoteResult) : prog unit :=
  notify s attemptID "core-scenes:scene_publish_vote_cast" (fun _ =>
    [("attemptId", PStr attemptID); ("characterId", PStr characterID);
     ("vote", PBool (cv_Vote res)); ("isChange", PBool (cv_IsChange res))]).

(** The deadline falls back to the clock when the start is unset. *)
Definition emitCoolOffStarted (s : Svc) (attemptID : string) (window : Z) : prog unit :=
  if negb (sv_has_sink s) then Done tt
  else
    r ← call (SGetPublishedSceneHeader attemptID);
    match r with
    | Ok (Some pub) =>
        now ← host HNow;
        notice s (ic_event s (ps_SceneID pub) "core-scenes:scene_publish_cooloff_started"
          [("attemptId", PStr attemptID);
           ("cooloffEndsAtUnixNs", PInt (or_else (ps_CoolOffStartedAt pub) now + window))])
    | _ => Done tt
    end.

Definition emitResolved (s : Svc) (attemptID : string) (final : PublishedSceneStatus)
    (reason : option PublishFailureReason) (t : option VoteTally) : prog unit :=
  notify s attemptID "core-scenes:scene_publish_resolved" (fun _ =>
    [("attemptId", PStr attemptID); ("outcome", PStr (status_string final));
     ("failureReason", PStr (match reason with Some r => reason_string r | None => EmptyString end));
     ("tallyYes", PInt (match t with Some t => Yes t | None => 0 end));
     ("tallyNo", PInt (match t with Some t => No t | None => 0 end));
     ("tallyPending", PInt (match t with Some t => Pending t | None => 0 end))]).

Definition emitWithdrawn (s : Svc) (attemptID withdrawnBy : string) : prog unit :=
  notify s attemptID "core-scenes:scene_publish_withdrawn" (fun _ =>
    [("attemptId", PStr attemptID); ("withdrawnBy", PStr withdrawnBy)]).

Definition emitAttemptsExtended (s : Svc) (sceneID adminID : string) (additional newMax : Z) : prog unit :=
  notice s (ic_event s sceneID "core-scenes:scene_publish_vote_attempts_extended"
    [("sceneId", PStr sceneID); ("adminId", PStr adminID); ("additional", PInt additional);
     ("newMax", PInt newMax)]).

(** ** Starting an attempt *)
Definition StartScenePublish (s : Svc) (callerID sceneID : string) : prog (rpc (string * Z)) :=
  match parseCallerCharacterID s callerID with
  | Err e => mapped e
  | Ok caller =>
      scene <~ call (SGet sceneID) @@ mapped ;;
      isParticipant <~ call (SIsParticipant sceneID caller) @@ internal ;;
      if negb isParticipant
      then mapped (ErrCode "SCENE_PUBLISH_NOT_PARTICIPANT" "only a scene participant may start a publish vote")
      else if negb (bool_decide (sr_State scene = SceneStateEnded))
      then mapped (ErrCode "SCENE_PUBLISH_INVALID_STATE" "scene must be in 'ended' state to publish")
      else
        counts <~ call (SCountAttempts sceneID) @@ mapped ;;
        if 0 <? ac_Published counts
        then mapped (ErrCode "SCENE_PUBLISH_ALREADY_PUBLISHED" "scene already has a published archive")
        else if 0 <? ac_Active counts
        then mapped (ErrCode "SCENE_PUBLISH_ALREADY_ACTIVE" "scene already has an active attempt")
        else
          maxAttempts <~ call (SGetSceneMaxPublishAttempts sceneID) @@ mapped ;;
          if maxAttempts <=? ac_Total counts
          then mapped (ErrCode "SCENE_PUBLISH_ATTEMPTS_EXHAUSTED" "scene has exhausted its publish-attempt budget")
          else
            pub <~ call (SCreatePublishAttempt
                           (mkCreateInput sceneID (ac_Total counts + 1) caller (sv_DefaultVoteWindow s)
                              (sv_DefaultCoolOffWindow s) maxAttempts)) @@ mapped ;;
            _ ← emitPublishStarted s pub;
            Done (Reply (ps_ID pub, ps_AttemptNumber pub))
  end.

(** ** Votes and transitions *)

(** The transition a trigger asks for, from the status just read. *)
Definition transition_for (from : PublishedSceneStatus) (t : PublishTrigger) (now : Z) : result TransitionInput :=
  match NextStatus from t with
  | None => Err (ErrCode "SCENE_PUBLISH_INVALID_TRANSITION" "illegal transition")
  | Some next =>
      match next with
      | StatusAttemptFailed =>
          match FailureReasonForTrigger t with
          | Some reason => Ok (mkTransition next (Some reason) None false (IsTerminal next))
          | None => Err (ErrCode "SCENE_PUBLISH_INVALID_TRANSITION"
                           "trigger carries no failure_reason; not applicable to applyTrigger")
          end
      | StatusCoolOff => Ok (mkTransition next None (Some now) false (IsTerminal next))
      | StatusCollecting =>
          Ok (mkTransition next None None (bool_decide (from = StatusCoolOff)) (IsTerminal next))
      | _ => Ok (mkTransition next None None false (IsTerminal next))
      end
  end.

Definition fails {A} (e : error) : prog (result A) := Done (Err e).

Definition applyTrigger (s : Svc) (attemptID : string) (t : PublishTrigger) : prog (result unit) :=
  pub <~ call (SGetPublishedSceneHeader attemptID) @@ fails ;;
  match pub with
  | None => fails (ErrCode "SCENE_PUBLISH_NOT_FOUND" "attempt vanished before transition")
  | Some pub =>
      now ← host HNow;
      match transition_for (ps_Status pub) t now with
      | Err e => fails e
      | Ok inp =>
          _ <~ call (STransitionStatus attemptID inp) @@ fails ;;
          _ ← (if bool_decide (ti_To inp = StatusCoolOff)
               then emitCoolOffStarted s attemptID (ps_CoolOffWindow pub) else Done tt);
          _ ← (if IsTerminal (ti_To inp)
               then r ← call (STallyVotes attemptID);
                    emitResolved s attemptID (ti_To inp) (ti_FailureReason inp)
                      (match r with Ok t => Some t | Err _ => None end)
               else Done tt);
          Done (Ok tt)
      end
  end.

Definition applyResolution (s : Svc) (pub : PublishedScene) : prog (result unit) :=
  t <~ call (STallyVotes (ps_ID pub)) @@ fails ;;
  match ps_Status pub with
  | StatusCollecting =>
      match ResolveFromTally t with
      | None => Done (Ok tt)
      | Some trig => applyTrigger s (ps_ID pub) trig
      end
  | StatusCoolOff =>
      if 0 <? No t then applyTrigger s (ps_ID pub) TriggerFlipNo else Done (Ok tt)
  | _ => Done (Ok tt)
  end.

Definition CastPublishSceneVote (s : Svc) (callerID attemptID : string) (vote : bool) : prog (rpc bool) :=
  match parseCallerCharacterID s callerID with
  | Err e => mapped e
  | Ok caller =>
      pub <~ call (SGetPublishedSceneHeader attemptID) @@ mapped ;;
      match pub with
      | None => mapped (ErrCode "SCENE_PUBLISH_NOT_FOUND" "publication attempt not found")
      | Some pub =>
          if IsTerminal (ps_Status pub)
          then mapped (ErrCode "SCENE_PUBLISH_INVALID_STATE" "vote on a terminal publication attempt is rejected")
          else
            res <~ call (SCastVote (ps_ID pub) caller vote) @@ mapped ;;
            _ ← applyResolution s pub;
            _ ← emitVoteCast s (ps_ID pub) caller res;
            Done (Reply (cv_IsChange res))
      end
  end.

Definition WithdrawScenePublish (s : Svc) (callerID attemptID : string) : prog (rpc unit) :=
  match parseCallerCharacterID s callerID with
  | Err e => mapped e
  | Ok caller =>
      pub <~ call (SGetPublishedSceneHeader attemptID) @@ mapped ;;
      match pub with
      | None => mapped (ErrCode "SCENE_PUBLISH_NOT_FOUND" "publication attempt not found")
      | Some pub =>
          if IsTerminal (ps_Status pub)
          then mapped (ErrCode "SCENE_PUBLISH_INVALID_STATE" "publication attempt is already terminal")
          else
            scene <~ call (SGet (ps_SceneID pub)) @@ mapped ;;
            if negb (String.eqb (sr_OwnerID scene) caller)
            then mapped (ErrCode "SCENE_PUBLISH_NOT_OWNER" "only the scene owner may withdraw a publication attempt")
            else
              _ <~ applyTrigger s (ps_ID pub) TriggerWithdraw @@ mapped ;;
              _ ← emitWithdrawn s (ps_ID pub) caller;
              Done (Reply tt)
      end
  end.

Definition ExtendScenePublishVoteAttempts (s : Svc) (callerID sceneID : string) (additional : Z) : prog (rpc Z) :=
  if additional <=? 0
  then mapped (ErrCode "SCENE_PUBLISH_EXTEND_INVALID" "extension count must be positive")
  else
    newMax <~ call (SExtendMaxPublishAttempts sceneID additional) @@ mapped ;;
    _ ← emitAttemptsExtended s sceneID callerID additional newMax;
    Done (Reply newMax).

(** ** Reading publications *)
Record GetPublishedSceneResponse : Type := mkPubResp {
  gr_Pub : PublishedScene; gr_Entries : list PublishedSceneEntry; gr_Tally : VoteTally
}.

(** The wire response carries the header's fields, the entries and the tally. *)
Definition assembleParticipantResponse (pub : PublishedScene) (entries : list PublishedSceneEntry)
    (t : VoteTally) : GetPublishedSceneResponse := mkPubResp pub entries t.

Definition blocked {A} : prog (rpc A) :=
  mapped (ErrCode "SCENE_PRIVACY_BOUNDARY_BLOCK" "scene not accessible").

Definition GetPublishedScene (s : Svc) (callerID attemptID : string) : prog (rpc GetPublishedSceneResponse) :=
  match parseCallerCharacterID s callerID with
  | Err e => mapped e
  | Ok caller =>
      pub <~ call (SGetPublishedSceneHeader attemptID) @@ mapped ;;
      match pub with
      | None => mapped (ErrCode "SCENE_PUBLISH_NOT_FOUND" "publication not found")
      | Some pub =>
          ok <~ call (SIsParticipant (ps_SceneID pub) caller) @@ internal ;;
          if negb ok then blocked
          else
            entries <~ (if bool_decide (ps_Status pub = StatusPublished)
                        then call (SGetPublishedSceneContent attemptID) else Done (Ok [])) @@ internal ;;
            t <~ call (STallyVotes (ps_ID pub)) @@ mapped ;;
            Done (Reply (assembleParticipantResponse pub entries t))
      end
  end.

Definition DownloadPublishedScene (s : Svc) (callerID attemptID format : string) : prog (rpc (string * string)) :=
  match parseCallerCharacterID s callerID with
  | Err e => mapped e
  | Ok caller =>
      match publishRenderMime format with
      | None => mapped (ErrCode "SCENE_PUBLISH_FORMAT_UNSUPPORTED" "unsupported download format")
      | Some mime =>
          pub <~ call (SGetPublishedSceneHeader attemptID) @@ mapped ;;
          match pub with
          | None => mapped (ErrCode "SCENE_PUBLISH_NOT_FOUND" "publication not found")
          | Some pub =>
              ok <~ call (SIsParticipant (ps_SceneID pub) caller) @@ internal ;;
              if negb ok then blocked
              else if negb (bool_decide (ps_Status pub = StatusPublished))
              then mapped (ErrCode "SCENE_PUBLISH_INVALID_STATE" "only a published scene can be downloaded")
              else
                entries <~ call (SGetPublishedSceneContent attemptID) @@ internal ;;
                content <~ Done (renderPublishedScene format entries) @@ internal ;;
                Done (Reply (content, mime))
          end
      end
  end.

Definition publicArchiveNotFound {A} : prog (rpc A) := Done (Status NotFound "scene archive not found").

Record GetPublicSceneArchiveResponse : Type := mkArchive {
  pa_Id : string;
  pa_TitleSnapshot : string;
  pa_ParticipantsSnapshot : list string;
  pa_ContentEntries : list PublishedSceneEntry;
  pa_PublishedAtUnixNs : Z
}.

Definition unixNanoOrZero (t : option Z) : Z := or_else t 0.

Definition assemblePublicResponse (pub : PublishedScene) (entries : list PublishedSceneEntry)
    : GetPublicSceneArchiveResponse :=
  mkArchive (ps_ID pub) (or_else (ps_TitleSnapshot pub) EmptyString) (ps_ParticipantsSnapshot pub) entries
    (unixNanoOrZero (ps_PublishedAt pub)).

Definition GetPublicSceneArchive (attemptID : string) : prog (rpc GetPublicSceneArchiveResponse) :=
  pub <~ call (SGetPublishedSceneHeader attemptID) @@ internal ;;
  match pub with
  | None => publicArchiveNotFound
  | Some pub =>
      if negb (bool_decide (ps_Status pub = StatusPublished)) then publicArchiveNotFound
      else
        entries <~ call (SGetPublishedSceneContent attemptID) @@ internal ;;
        Done (Reply (assemblePublicResponse pub entries))
  end.

Definition DownloadPublicSceneArchive (attemptID format : string) : prog (rpc (string * string)) :=
  match publishRenderMime format with
  | None => mapped (ErrCode "SCENE_PUBLISH_FORMAT_UNSUPPORTED" "unsupported download format")
  | Some mime =>
      pub <~ call (SGetPublishedSceneHeader attemptID) @@ internal ;;
      match pub with
      | None => publicArchiveNotFound
      | Some pub =>
          if negb (bool_decide (ps_Status pub = StatusPublished)) then publicArchiveNotFound
          else
            entries <~ call (SGetPublishedSceneContent attemptID) @@ internal ;;
            content <~ Done (renderPublishedScene format entries) @@ internal ;;
            Done (Reply (content, mime))
      end
  end.

Definition ListPublishedScenes_rpc (limit offset : Z) (tags : list string)
    : prog (rpc (list PublishedSceneArchiveSummary)) :=
  sums <~ call (SListPublishedScenes (mkPubQuery limit offset tags)) @@ internal ;;
  Done (Reply sums).

Definition ListScenePublishAttempts (s : Svc) (callerID sceneID : string) : prog (rpc (list PublishedScene)) :=
  match parseCallerCharacterID s callerID with
  | Err e => mapped e
  | Ok caller =>
      ok <~ call (SIsParticipant sceneID caller) @@ internal ;;
      if negb ok then blocked
      else
        attempts <~ call (SListSceneAttempts sceneID) @@ mapped ;;
        Done (Reply attempts)
  end.

(** ** Decryption of the log *)
Definition snapshotDecryptBatch : nat := 500.

Definition snapshotEventKinds (t : string) : option EntryKind :=
  if String.eqb t "core-scenes:scene_pose" then Some EntryKindPose
  else if String.eqb t "core-scenes:scene_say" then Some EntryKindSay
  else if String.eqb t "core-scenes:scene_emit" then Some EntryKindEmit
  else None.

Definition actorKindFromString (k : string) : ActorKind :=
  if str_mem k ["ACTOR_KIND_CHARACTER"; "character"] then ActorCharacter
  else if str_mem k ["ACTOR_KIND_SYSTEM"; "system"] then ActorSystem
  else if str_mem k ["ACTOR_KIND_PLUGIN"; "plugin"] then ActorPlugin
  else if str_mem k ["ACTOR_KIND_PLAYER"; "player"] then ActorPlayer
  else ActorUnspecified.

Definition actorProtoFromRow (kind id : string) : option (ActorKind * string) :=
  if is_empty kind && is_empty id then None else Some (actorKindFromString kind, id).

(** [int64] to [uint64] and [int32] to [uint32]. *)
Definition logRowToAuditRow (subject : string) (r : LogRow) : AuditRow :=
  mkAuditRow (lr_ID r) subject (lr_Type r) (Some (lr_Timestamp r))
    (actorProtoFromRow (lr_ActorKind r) (lr_ActorID r)) (lr_Codec r) (lr_Payload r) (lr_SchemaVer r)
    ((fun z => z mod 2 ^ 64) <$> lr_DEKRef r) ((fun z => z mod 2 ^ 32) <$> lr_DEKVersion r).

Definition decodeSnapshotEntry (s : Svc) (eventType plaintext : string) : result (option PublishedSceneEntry) :=
  match snapshotEventKinds eventType with
  | None => Ok None
  | Some kind =>
      match decode_payload s plaintext with
      | None => Err (ErrWrapCode "SCENE_PUBLISH_ENTRY_DECODE_FAILED" (ErrNew "json"))
      | Some (actor, text) => Ok (Some (mkEntry actor kind text))
      end
  end.

(** The results of one chunk, in order; the first refusal or undecodable row ends it. *)
Fixpoint decode_chunk (s : Svc) (chunk : list LogRow) (results : list RowResult)
    : PublishFailureReason + list PublishedSceneEntry :=
  match chunk, results with
  | row :: chunk', res :: results' =>
      if negb (is_empty (rr_NoPlaintextReason res)) then inl FailureSnapshotDecryptFailed
      else match decodeSnapshotEntry s (lr_Type row) (rr_Plaintext res) with
           | Err _ => inl FailureSnapshotRenderFailed
           | Ok None => inl FailureSnapshotRenderFailed
           | Ok (Some e) =>
               match decode_chunk s chunk' results' with
               | inl f => inl f
               | inr es => inr (e :: es)
               end
           end
  | _, _ => inr []
  end.

(** The chunks a loop with step [n] visits. *)
Fixpoint chunks {A} (fuel n : nat) (l : list A) : list (list A) :=
  match fuel, l with
  | S fuel', _ :: _ => take n l :: chunks fuel' n (drop n l)
  | _, _ => []
  end.

Fixpoint decrypt_loop (s : Svc) (subject : string) (cs : list (list LogRow))
    (entries : list PublishedSceneEntry) : prog (PublishFailureReason + list PublishedSceneEntry) :=
  match cs with
  | [] => Done (inr entries)
  | chunk :: cs' =>
      r ← host (HDecryptOwnAuditRows (map (logRowToAuditRow subject) chunk));
      match r with
      | Err _ => Done (inl FailureSnapshotDecryptFailed)
      | Ok results =>
          if negb (length results =? length chunk)%nat then Done (inl FailureSnapshotDecryptFailed)
          else match decode_chunk s chunk results with
               | inl f => Done (inl f)
               | inr es => decrypt_loop s subject cs' (entries ++ es)
               end
      end
  end.

Definition decryptAndRender (s : Svc) (subject : string) (rows : list LogRow)
    : prog (PublishFailureReason + list PublishedSceneEntry) :=
  decrypt_loop s subject (chunks (length rows) snapshotDecryptBatch rows) [].

(** ** The snapshot *)
Definition runSnapshot (s : Svc) (attemptID sceneID subject : string) : prog (result unit) :=
  if negb (sv_has_decryptor s)
  then fails (ErrCode "SCENE_PUBLISH_SNAPSHOT_NO_DECRYPTOR" "snapshot decryptor not configured")
  else
    rows <~ call (SReadSceneLogForSnapshot subject) @@ fails ;;
    d ← decryptAndRender s subject rows;
    let entries := match d with inr es => es | inl _ => [] end in
    let failReason := match d with inl f => Some f | inr _ => None end in
    o <~ call (SSnapshotTx attemptID sceneID entries failReason) @@ fails ;;
    match o with
    | SnapshotNoop => Done (Ok tt)
    | SnapshotFailed reason =>
        _ ← emitResolved s attemptID StatusAttemptFailed (Some reason) None; Done (Ok tt)
    | SnapshotPublished t _ =>
        _ ← emitResolved s attemptID StatusPublished None (Some t); Done (Ok tt)
    end.

(** ** The scheduler *)
Definition sweep_timeout (s : Svc) (a : scheduledAttempt) : prog unit :=
  _ ← applyTrigger s (sa_ID a) TriggerTimeout; Done tt.

Definition sweep_snapshot (s : Svc) (a : scheduledAttempt) : prog unit :=
  _ ← runSnapshot s (sa_ID a) (sa_SceneID a) (dotStyleSceneSubjectIC (sv_gameID s) (sa_SceneID a)); Done tt.

Definition sweep (s : Svc) : prog (result unit) :=
  nowNs ← host HNow;
  collecting <~ call (SListExpiredCollecting nowNs)
    @@ (fun e => fails (ErrWrapCode "SCENE_SCHEDULER_SCAN_COLLECTING_FAILED" e)) ;;
  _ ← forM_ collecting (sweep_timeout s);
  cooloff <~ call (SListExpiredCoolOff nowNs)
    @@ (fun e => fails (ErrWrapCode "SCENE_SCHEDULER_SCAN_COOLOFF_FAILED" e)) ;;
  _ ← forM_ cooloff (sweep_snapshot s);
  Done (Ok tt).

(** ** Export *)
Definition exportDecryptRows (s : Svc) (subject : string) (rows : list LogRow)
    : prog (rpc (list PublishedSceneEntry)) :=
  match rows with
  | [] => Done (Reply [])
  | _ =>
      if negb (sv_has_decryptor s) then Done internalErr
      else
        d ← decryptAndRender s subject rows;
        Done (match d with inr es => Reply es | inl _ => internalErr end)
  end.

Definition export_render (format : string) (entries : list PublishedSceneEntry) : result string :=
  if String.eqb format "markdown" then Ok (renderMarkdown entries)
  else if String.eqb format "jsonl" then renderJSONL entries
  else Err (ErrCode "SCENE_EXPORT_BAD_FORMAT" "unsupported export format (defensive)").

Definition ExportSceneLog (s : Svc) (sceneID characterID format : string) : prog (rpc (string * string * string)) :=
  match exportRenderMime format with
  | None => mapped (ErrCode "SCENE_EXPORT_BAD_FORMAT" "unsupported export format")
  | Some mime =>
      _ <~ call (SGetParticipant sceneID characterID)
        @@ (fun e => if has_code e "SCENE_PARTICIPANT_NOT_FOUND"
                     then mapped (ErrCode "SCENE_EXPORT_NOT_PARTICIPANT" "not a participant of this scene")
                     else internal e) ;;
      scene <~ call (SGet sceneID) @@ internal ;;
      let subject := dotStyleSceneSubjectIC (sv_gameID s) sceneID in
      rows <~ call (SReadSceneLogForExport subject) @@ mapped ;;
      d ← exportDecryptRows s subject rows;
      match d with
      | Status c m => Done (Status c m)
      | Reply entries =>
          content <~ Done (export_render format entries) @@ mapped ;;
          let slug := slugify (sr_Title scene) in
          Done (Reply (content, mime, (if is_empty slug then "scene" else slug) +:+ exportFileExt format))
      end
  end.

(** ** The audit server *)
Definition defaultActorKind : string := "system".
Definition auditMaxPageSize : Z := 200.
Definition auditDefaultPageSize : Z := 50.

(** [ActorKind.String()]. *)
Definition actorKind_string (k : ActorKind) : string :=
  match k with
  | ActorCharacter => "ACTOR_KIND_CHARACTER"
  | ActorPlayer => "ACTOR_KIND_PLAYER"
  | ActorSystem => "ACTOR_KIND_SYSTEM"
  | ActorPlugin => "ACTOR_KIND_PLUGIN"
  | ActorUnspecified => "ACTOR_KIND_UNSPECIFIED"
  end.

Fixpoint split_go (c : ascii) (cur s : string) : list string :=
  match s with
  | EmptyString => [str_rev cur]
  | String a s' => if Ascii.eqb a c then str_rev cur :: split_go c EmptyString s' else split_go c (String a cur) s'
  end.

(** [strings.Split] by a one-byte separator. *)
Definition Split (c : ascii) (s : string) : list string := split_go c EmptyString s.

Fixpoint has_wildcard (s : string) : bool :=
  match s with
  | EmptyString => false
  | String a s' => Ascii.eqb a "*" || Ascii.eqb a ">" || has_wildcard s'
  end.

Definition subject_invalid (m : string) : result string := Err (ErrCode "SCENE_AUDIT_SUBJECT_INVALID" m).

Definition parseSceneSubject (subject : string) : result string :=
  match Split "." subject with
  | ev :: game :: sc :: id :: rest =>
      if (length rest =? 0)%nat
      then subject_invalid "subject does not match events.<game>.scene.<id>.<channel>"
      else if negb (String.eqb ev "events") || negb (String.eqb sc "scene")
      then subject_invalid "subject not owned by core-scenes"
      else if existsb (fun p => is_empty p || has_wildcard p) (ev :: game :: sc :: id :: rest)
      then subject_invalid "empty or wildcard subject tokens not permitted for QueryHistory"
      else Ok id
  | _ => subject_invalid "subject does not match events.<game>.scene.<id>.<channel>"
  end.

(** [uint64] to [int64] and [uint32] to [int32]. *)
Definition to_signed (bits z : Z) : Z := if z <? 2 ^ (bits - 1) then z else z - 2 ^ bits.

Definition audit_error (code m : string) : prog (result unit) := Done (Err (ErrCode code m)).

Definition log_of_row (row : AuditRow) (actorKind actorID : string) (ts : Z) : log_rec :=
  mkLogRec (ar_Subject row) (ar_Type row) ts actorKind actorID (ar_Payload row) (ar_SchemaVer row)
    (ar_Codec row) (to_signed 64 <$> ar_DekRef row) (to_signed 32 <$> ar_DekVersion row).

Definition AuditEvent (s : Svc) (row : option AuditRow) : prog (result unit) :=
  match row with
  | None => audit_error "SCENE_AUDIT_MISSING_ROW" "AuditEventRequest.row required"
  | Some row =>
      if is_empty (ar_Codec row) then audit_error "SCENE_AUDIT_MISSING_FIELD" "codec"
      else if (ar_SchemaVer row <? 0) || (32767 <? ar_SchemaVer row)
      then audit_error "SCENE_AUDIT_BAD_SCHEMA_VERSION" "schema version out of range"
      else if is_empty (ar_Type row) then audit_error "SCENE_AUDIT_MISSING_FIELD" "type"
      else if is_empty (ar_Subject row) then audit_error "SCENE_AUDIT_MISSING_FIELD" "subject"
      else if negb (String.length (ar_Id row) =? 16)%nat
      then audit_error "SCENE_AUDIT_MISSING_ID" "row.id required (16-byte ULID)"
      else match ar_Timestamp row with
           | None => audit_error "SCENE_AUDIT_MISSING_FIELD" "timestamp"
           | Some ts =>
               let '(kind, actorID) := match ar_Actor row with
                                       | Some (k, id) => (actorKind_string k, id)
                                       | None => (EmptyString, EmptyString)
                                       end in
               let actorKind := if is_empty kind then defaultActorKind else kind in
               let l := log_of_row row actorKind actorID ts in
               if String.eqb (ar_Type row) "core-scenes:scene_pose" then
                 if negb (String.eqb actorKind (actorKind_string ActorCharacter))
                 then audit_error "SCENE_AUDIT_INVALID_ACTOR_KIND" "scene_pose requires character actor"
                 else if negb (String.length actorID =? 16)%nat
                 then audit_error "SCENE_AUDIT_INVALID_ACTOR_ID" "scene_pose requires 16-byte character ULID"
                 else match parseSceneSubject (ar_Subject row) with
                      | Err e => fails e
                      | Ok sceneID => call (SInsertScenePose (ar_Id row) l sceneID (ulid_text s actorID))
                      end
               else call (SAuditInsert (ar_Id row) l)
           end
  end.

Record QueryHistoryRequest : Type := mkHistoryReq {
  hq_Subject : string;
  hq_Caller : option (ActorKind * string);
  hq_PageSize : Z;
  hq_Direction : Z;
  hq_After : string;
  hq_Before : string;
  hq_NotBefore : option Z;
  hq_NotAfter : option Z
}.

Definition history_row (kv : string * log_rec) : AuditRow := logRowToAuditRow (lg_subject kv.2) (log_row kv).

Fixpoint send_rows (rows : list (string * log_rec)) : prog (rpc unit) :=
  match rows with
  | [] => Done (Reply tt)
  | r :: rows' =>
      _ <~ host (HSend (history_row r)) @@ (fun _ => Done (Status Internal "stream send failed")) ;;
      send_rows rows'
  end.

Definition history_page (n : Z) : Z :=
  let n := if n <=? 0 then auditDefaultPageSize else n in
  if auditMaxPageSize <? n then auditMaxPageSize else n.

(** [has_members] tells whether the membership lookup is wired. *)
Definition QueryHistory (s : Svc) (has_members : bool) (req : QueryHistoryRequest) : prog (rpc unit) :=
  if is_empty (hq_Subject req) then Done (Status InvalidArgument "subject required")
  else match hq_Caller req with
       | None => Done (Status PermissionDenied "caller required")
       | Some (kind, idb) =>
           if negb (bool_decide (kind = ActorCharacter))
           then Done (Status PermissionDenied "unsupported caller kind")
           else if negb (String.length idb =? 16)%nat || String.eqb idb zero_ulid
           then Done (Status PermissionDenied "caller id required")
           else match parseSceneSubject (hq_Subject req) with
                | Err _ => Done (Status InvalidArgument "subject")
                | Ok sceneID =>
                    if negb has_members then Done (Status Internal "membership lookup not configured")
                    else
                      ok <~ call (SIsMember sceneID (ulid_text s idb))
                        @@ (fun _ => Done (Status Internal "membership lookup failed")) ;;
                      if negb ok then Done (Status PermissionDenied "not a participant")
                      else
                        rows <~ call (SQueryLog (hq_Subject req) (hq_After req) (hq_Before req)
                                        (hq_NotBefore req) (hq_NotAfter req) (hq_Direction req =? 2)
                                        (history_page (hq_PageSize req)))
                          @@ (fun _ => Done (Status Unknown "query")) ;;
                        send_rows rows
                end
       end.
