(* ===== verification/SceneInv.v ===== *)
(** The invariant of the scenes plugin's tables and the steps they may take.

    [Inv] is what holds of the tables at all times; [R] relates the tables before
    and after any number of steps: scenes only move forward, attempts keep their
    identity and are frozen with their votes once terminal, rosters never change.
    The file shows of every store call that it keeps [Inv] and is an [R]-step,
    either for all arguments ([good]) or for those the handlers use. *)

From S2P Require Import Prelude GoStrings Sql SceneTypes SceneStore ScenePublishStore SceneProg.

Open Scope Z_scope.

(** ** The invariant *)

Definition scene_ok (id : string) (r : scene_rec) : Prop :=
  sr_ID (sc_row r) = id /\ SceneState_IsValid (sr_State (sc_row r)) = true
  /\ 0 < sc_max_publish_attempts r <= int4_max /\ 0 <= sc_total_pose_count r <= int4_max
  /\ sr_ArchivedAt (sc_row r) = None.

(** Pose numbers are positive, set with the time, and at most the scene's count. *)
Definition part_ok (total : Z) (p : part_rec) : Prop :=
  is_set (pt_last_pose_at p) = is_set (pt_last_pose_seq p)
  /\ forall s, pt_last_pose_seq p = Some s -> 0 < s <= total.

(** Fields of an attempt that go with its status. *)
Definition pub_ok (r : pub_rec) : Prop :=
  match pb_status r with
  | StatusCollecting =>
      pb_cooloff_started_at r = None /\ pb_resolved_at r = None /\ pb_content_entries r = None
      /\ pb_published_at r = None /\ pb_failure_reason r = None
  | StatusCoolOff =>
      is_set (pb_cooloff_started_at r) = true /\ pb_resolved_at r = None /\ pb_content_entries r = None
      /\ pb_published_at r = None /\ pb_failure_reason r = None
  | StatusPublished =>
      is_set (pb_resolved_at r) = true /\ is_set (pb_content_entries r) = true
      /\ is_set (pb_title_snapshot r) = true /\ is_set (pb_participants_snapshot r) = true
      /\ is_set (pb_published_at r) = true /\ pb_failure_reason r = None
  | StatusAttemptFailed =>
      is_set (pb_resolved_at r) = true /\ pb_content_entries r = None
      /\ pb_published_at r = None /\ is_set (pb_failure_reason r) = true
  | StatusOther _ => False
  end.

Definition closed_state (s : SceneState) : Prop := s = SceneStateEnded \/ s = SceneStateArchived.

Record Inv (db : DB) : Prop := {
  inv_scenes : forall id r, db_scenes db !! id = Some r -> scene_ok id r;
  inv_part : forall id c p, db_participants db !! (id, c) = Some p ->
    exists r, db_scenes db !! id = Some r /\ part_ok (sc_total_pose_count r) p;
  inv_owner : forall id r, db_scenes db !! id = Some r ->
    exists p, db_participants db !! (id, sr_OwnerID (sc_row r)) = Some p /\ pt_role p = ParticipantRoleOwner;
  inv_one_owner : forall id c r p, db_scenes db !! id = Some r -> db_participants db !! (id, c) = Some p ->
    pt_role p = ParticipantRoleOwner -> c = sr_OwnerID (sc_row r);
  inv_pose_distinct : forall id c c' p p' s,
    db_participants db !! (id, c) = Some p -> db_participants db !! (id, c') = Some p' ->
    pt_last_pose_seq p = Some s -> pt_last_pose_seq p' = Some s -> c = c';
  inv_pub : forall id r, db_published db !! id = Some r -> pub_ok r;
  inv_check : forall id r, db_published db !! id = Some r -> pub_check r = true;
  inv_pub_scene : forall id r, db_published db !! id = Some r ->
    exists sc, db_scenes db !! pb_scene_id r = Some sc
      /\ closed_state (sr_State (sc_row sc))
      /\ 0 < pb_attempt_number r <= sc_max_publish_attempts sc
      /\ (pb_status r = StatusPublished -> sr_State (sc_row sc) = SceneStateArchived);
  inv_numbers : forall id id' r r', db_published db !! id = Some r -> db_published db !! id' = Some r' ->
    pb_scene_id r = pb_scene_id r' -> pb_attempt_number r = pb_attempt_number r' -> id = id';
  inv_dense : forall id r n, db_published db !! id = Some r -> 0 < n < pb_attempt_number r ->
    exists id' r', db_published db !! id' = Some r' /\ pb_scene_id r' = pb_scene_id r
      /\ pb_attempt_number r' = n;
  inv_one_open : forall id id' r r', db_published db !! id = Some r -> db_published db !! id' = Some r' ->
    pb_scene_id r = pb_scene_id r' -> pb_status r <> StatusAttemptFailed ->
    pb_status r' <> StatusAttemptFailed -> id = id';
  inv_archived : forall id sc, db_scenes db !! id = Some sc -> sr_State (sc_row sc) = SceneStateArchived ->
    exists a r, db_published db !! a = Some r /\ pb_scene_id r = id /\ pb_status r = StatusPublished;
  inv_vote_fk : forall id c v, db_votes db !! (id, c) = Some v -> is_Some (db_published db !! id);
  inv_roster : forall id r, db_published db !! id = Some r -> exists c, is_Some (db_votes db !! (id, c));
  inv_unanimous : forall id c r v, db_published db !! id = Some r -> pb_status r = StatusPublished ->
    db_votes db !! (id, c) = Some v -> vr_vote v = Some true
}.

(** ** Steps *)

(** Scenes go back and forth between active and paused, then to ended, then to
    archived. *)
Definition state_le (s s' : SceneState) : Prop :=
  s = s' \/ live_state s = true \/ (s = SceneStateEnded /\ s' = SceneStateArchived).

Record R (db db' : DB) : Prop := {
  r_scene : forall id r, db_scenes db !! id = Some r -> exists r', db_scenes db' !! id = Some r'
    /\ state_le (sr_State (sc_row r)) (sr_State (sc_row r'))
    /\ sc_max_publish_attempts r <= sc_max_publish_attempts r'
    /\ sc_total_pose_count r <= sc_total_pose_count r';
  r_pub : forall id r, db_published db !! id = Some r -> exists r', db_published db' !! id = Some r'
    /\ pb_scene_id r' = pb_scene_id r /\ pb_attempt_number r' = pb_attempt_number r
    /\ pb_initiated_by r' = pb_initiated_by r /\ pb_initiated_at r' = pb_initiated_at r
    /\ pb_vote_window r' = pb_vote_window r /\ pb_cooloff_window r' = pb_cooloff_window r
    /\ (IsTerminal (pb_status r) = true -> r' = r);
  r_votes : forall id r c, db_published db !! id = Some r -> IsTerminal (pb_status r) = true ->
    db_votes db' !! (id, c) = db_votes db !! (id, c);
  r_roster : forall id r c, db_published db !! id = Some r ->
    is_Some (db_votes db' !! (id, c)) <-> is_Some (db_votes db !! (id, c))
}.

Lemma state_le_trans a b c : state_le a b -> state_le b c -> state_le a c.
Proof. unfold state_le. intros [->|[?|[-> ->]]] [<-|[?|[? ->]]]; simplify_eq; auto. Qed.

Lemma R_refl db : R db db.
Proof. split; [| |done|done]; intros id r ->; eexists; unfold state_le; repeat split; auto; lia. Qed.

Lemma R_trans db1 db2 db3 : R db1 db2 -> R db2 db3 -> R db1 db3.
Proof.
  intros [S1 P1 V1 W1] [S2 P2 V2 W2]. split.
  - intros id r Hr. destruct (S1 _ _ Hr) as (r1 & Hr1 & ? & ? & ?).
    destruct (S2 _ _ Hr1) as (r2 & Hr2 & ? & ? & ?).
    exists r2. repeat split; eauto using state_le_trans; lia.
  - intros id r Hr. destruct (P1 _ _ Hr) as (r1 & Hr1 & E1 & E2 & E3 & E4 & E5 & E6 & T1).
    destruct (P2 _ _ Hr1) as (r2 & Hr2 & F1 & F2 & F3 & F4 & F5 & F6 & T2).
    exists r2. split_and!; try congruence. intros T. specialize (T1 T). subst. auto.
  - intros id r c Hr T. destruct (P1 _ _ Hr) as (r1 & Hr1 & _ & _ & _ & _ & _ & _ & T1).
    specialize (T1 T). subst. rewrite (V2 id r c Hr1 T). by apply (V1 id r).
  - intros id r c Hr. destruct (P1 _ _ Hr) as (r1 & Hr1 & _).
    rewrite (W2 id r1 c Hr1). by apply (W1 id r).
Qed.

#[export] Instance R_preorder : PreOrder R.
Proof. split; [exact R_refl|exact R_trans]. Qed.

Definition keeps (db db' : DB) : Prop := Inv db' /\ R db db'.

Definition good {A} (c : store_call A) : Prop :=
  forall ck db, Inv db -> keeps db (run_call ck c db).2.

Lemma keeps_refl db : Inv db -> keeps db db.
Proof. split; [done|reflexivity]. Qed.

Lemma keeps_trans db1 db2 db3 : keeps db1 db2 -> keeps db2 db3 -> keeps db1 db3.
Proof. intros [? ?] [? ?]. split; [done|by transitivity db2]. Qed.

(** A statement outside a transaction: errors leave the tables alone. *)
Lemma keeps_run {A} (m : tx A) db :
  Inv db -> (forall a db', m db = (Ok a, db') -> keeps db db') ->
  (forall e db', m db = (Err e, db') -> db' = db) -> keeps db (m db).2.
Proof.
  intros HI H1 H2. destruct (m db) as [[a|e] db'] eqn:E; [by eapply H1|].
  rewrite (H2 _ _ eq_refl). by apply keeps_refl.
Qed.

(** Tables that the invariant does not look at. *)
Lemma keeps_same db db' :
  db_scenes db' = db_scenes db -> db_participants db' = db_participants db ->
  db_published db' = db_published db -> db_votes db' = db_votes db ->
  Inv db -> keeps db db'.
Proof.
  intros E1 E2 E3 E4 [].
  split; [split; rewrite ?E1, ?E2, ?E3, ?E4; eauto|].
  split; rewrite ?E1, ?E3, ?E4; [| |done|done]; intros id r ->; eexists; unfold state_le; repeat split; auto; lia.
Qed.

Lemma keeps_ops db db' l : keeps db db' -> keeps db (set_ops_events db' l).
Proof. intros H. eapply keeps_trans; [done|]. apply keeps_same; try done. apply H. Qed.

(** ** Transactions *)
Lemma atomically_Err {A} (m : tx A) db e db' :
  atomically m db = (Err e, db') -> db' = db /\ exists db1, m db = (Err e, db1).
Proof. unfold atomically. destruct (m db) as [[] ]; naive_solver. Qed.

(** To show that a transaction keeps the invariant, consider its successes. *)
Lemma keeps_atomically {A} (m : tx A) db :
  Inv db -> (forall a db', m db = (Ok a, db') -> keeps db db') -> keeps db (atomically m db).2.
Proof.
  intros HI H. rewrite atomically_2. destruct (m db) as [[a|e] db'] eqn:E; [by eapply H|by apply keeps_refl].
Qed.

Lemma recordOpsEventTx_Ok ck s k a t p db db' :
  recordOpsEventTx ck s k a t p db = (Ok tt, db') -> exists l, db' = set_ops_events db l.
Proof.
  unfold recordOpsEventTx, mbind, txn_bind, read, fail, write. repeat case_match; try done;
    intros [= <-]; eauto.
Qed.

(** Follows the steps of a successful transaction. *)
Ltac tx_step :=
  match goal with
  | H : (let _ := _ in _) _ = (Ok _, _) |- _ => cbv zeta in H
  | H : (mbind _ _) ?db = (Ok _, _) |- _ =>
      apply txn_bind_Ok in H as (? & ? & ? & ?)
  | H : read _ _ = (Ok _, _) |- _ => unfold read in H; injection H as <- <-
  | H : write _ _ = (Ok _, _) |- _ => unfold write in H; injection H as <- <-
  | H : put_scene _ _ _ = (Ok _, _) |- _ => unfold put_scene in H
  | H : put_part _ _ _ = (Ok _, _) |- _ => unfold put_part in H
  | H : del_part _ _ = (Ok _, _) |- _ => unfold del_part in H
  | H : fail _ _ = (Ok _, _) |- _ => discriminate H
  | H : mret _ _ = (Ok _, _) |- _ => unfold mret, txn_ret in H; injection H as <- <-
  | H : wrap_code _ _ _ = (Ok _, _) |- _ => apply wrap_code_Ok in H
  | H : recordOpsEventTx _ _ _ _ _ _ _ = (Ok ?u, _) |- _ =>
      destruct u; apply recordOpsEventTx_Ok in H as [? ->]
  | H : context [match ?x with _ => _ end] |- _ =>
      match type of H with
      | _ = (Ok _, _) => destruct x eqn:?; try discriminate H
      end
  end.

(** Shows that an error of a statement comes before its write. *)
Ltac tx_errs :=
  unfold read, fail, write, put_scene, put_part, mret, txn_ret, mbind, txn_bind; intros ? ?;
  repeat case_match; intros; simplify_eq; done.

Ltac tx_steps := repeat (tx_step; cbn beta in *); try done.

(** The classification of a miss never succeeds. *)
Lemma classifyTransitionMiss_Err {A} id op db (a : A) db' : classifyTransitionMiss id op db <> (Ok a, db').
Proof. intros H. unfold classifyTransitionMiss in H. tx_steps. Qed.

Lemma classifyJoinMiss_Err {A} s db (a : A) db' : classifyJoinMiss s db <> (Ok a, db').
Proof. intros H. unfold classifyJoinMiss in H. tx_steps. Qed.

Lemma classifyTransferMiss_Err {A} db0 s c n db (a : A) db' : classifyTransferMiss db0 s c n db <> (Ok a, db').
Proof. intros H. unfold classifyTransferMiss in H. tx_steps. Qed.

#[export] Hint Resolve classifyTransitionMiss_Err classifyJoinMiss_Err classifyTransferMiss_Err : holo.

(** ** Writes to one scene or participant *)
Lemma closed_le s s' : closed_state s -> state_le s s' -> closed_state s' /\ (s = SceneStateArchived -> s' = SceneStateArchived).
Proof. unfold closed_state, state_le. intros [-> | ->] [<-|[?|[? ->]]]; naive_solver. Qed.

Lemma keeps_scene db db' id r r' :
  Inv db -> db_scenes db !! id = Some r ->
  db_scenes db' = <[id := r']> (db_scenes db) -> db_participants db' = db_participants db ->
  db_published db' = db_published db -> db_votes db' = db_votes db ->
  scene_ok id r' -> sr_OwnerID (sc_row r') = sr_OwnerID (sc_row r) ->
  state_le (sr_State (sc_row r)) (sr_State (sc_row r')) ->
  (sr_State (sc_row r') = SceneStateArchived -> sr_State (sc_row r) = SceneStateArchived) ->
  sc_max_publish_attempts r <= sc_max_publish_attempts r' ->
  sc_total_pose_count r <= sc_total_pose_count r' ->
  keeps db db'.
Proof.
  intros HI Hr E1 E2 E3 E4 Hok Hown Hst Harch Hmax Hpose. pose proof HI as [].
  assert (Hlk : forall x y, <[id := r']> (db_scenes db) !! x = Some y ->
    exists y0, db_scenes db !! x = Some y0 /\ sr_OwnerID (sc_row y) = sr_OwnerID (sc_row y0)
      /\ (sr_State (sc_row y) = SceneStateArchived -> sr_State (sc_row y0) = SceneStateArchived) /\ scene_ok x y).
  { intros x y [[-> ->]|[? ?]]%lookup_insert_Some; eexists; eauto 10. }
  assert (Hfw : forall x y, db_scenes db !! x = Some y ->
    exists y', <[id := r']> (db_scenes db) !! x = Some y' /\ state_le (sr_State (sc_row y)) (sr_State (sc_row y'))
      /\ sc_max_publish_attempts y <= sc_max_publish_attempts y' /\ sc_total_pose_count y <= sc_total_pose_count y').
  { intros x y Hy. destruct (decide (x = id)) as [->|Hne].
    - simplify_eq. exists r'. rewrite lookup_insert_eq. auto.
    - exists y. rewrite lookup_insert_ne by done. unfold state_le. repeat split; auto; lia. }
  split.
  - split; rewrite ?E1, ?E2, ?E3, ?E4; eauto.
    + intros x y Hy. by apply Hlk in Hy as (? & ? & ? & ? & ?).
    + intros x c p Hp. destruct (inv_part0 x c p Hp) as (y & Hy & Hw & Hs).
      destruct (Hfw _ _ Hy) as (y' & Hy' & _ & _ & ?). exists y'. split; [done|]. split; [done|].
      intros s Hs'. specialize (Hs s Hs'). lia.
    + intros x y Hy. apply Hlk in Hy as (y0 & Hy0 & -> & _). eauto.
    + intros x c y p Hy. apply Hlk in Hy as (y0 & Hy0 & -> & _). eauto.
    + intros x y Hy. destruct (inv_pub_scene0 x y Hy) as (sc & Hsc & Hcl & Hn & Hpb).
      destruct (Hfw _ _ Hsc) as (sc' & Hsc' & Hle & Hm & _). exists sc'. split; [done|].
      destruct (closed_le _ _ Hcl Hle) as [Hc Ha]. repeat split; auto; lia.
    + intros x y Hy Ha. apply Hlk in Hy as (y0 & Hy0 & _ & Hb & _). eauto.
  - split; rewrite ?E1, ?E3, ?E4; [exact Hfw| |done|done]. intros x y ->. eexists; repeat split; auto.
Qed.

Lemma keeps_part db db' id c r p' :
  Inv db -> db_scenes db !! id = Some r -> db_scenes db' = db_scenes db ->
  db_participants db' = <[(id, c) := p']> (db_participants db) ->
  db_published db' = db_published db -> db_votes db' = db_votes db ->
  part_ok (sc_total_pose_count r) p' ->
  (pt_role p' = ParticipantRoleOwner <-> c = sr_OwnerID (sc_row r)) ->
  (forall s, pt_last_pose_seq p' = Some s ->
     exists p, db_participants db !! (id, c) = Some p /\ pt_last_pose_seq p = Some s) ->
  keeps db db'.
Proof.
  intros HI Hr E1 E2 E3 E4 Hok Hown Hpose. pose proof HI as [].
  split; [|split; rewrite ?E1, ?E3, ?E4; [| |done|done];
           intros x y ->; eexists; unfold state_le; repeat split; auto; lia].
  split; rewrite ?E1, ?E2, ?E3, ?E4; eauto.
  - intros x d p [[[= <- <-] <-]|[? ?]]%lookup_insert_Some; eauto.
  - intros x y Hy. destruct (decide ((id, c) = (x, sr_OwnerID (sc_row y)))) as [[= <- ->]|Hne].
    + simplify_eq. exists p'. rewrite lookup_insert_eq. naive_solver.
    + rewrite lookup_insert_ne by done. eauto.
  - intros x d y p Hy [[[= <- <-] <-]|[? ?]]%lookup_insert_Some Hrole; [simplify_eq; naive_solver|eauto].
  - intros x d d' p q s Hp Hq Hs1 Hs2. rewrite lookup_insert_Some in Hp, Hq.
    destruct Hp as [[Ek <-]|[Hn1 Hp]], Hq as [[Ek' <-]|[Hn2 Hq]]; simplify_eq; [done| | |eauto].
    + destruct (Hpose _ Hs1) as (p0 & Hp0 & Hs0). by eapply (inv_pose_distinct0 x d d').
    + destruct (Hpose _ Hs2) as (p0 & Hp0 & Hs0). by eapply (inv_pose_distinct0 x d d').
Qed.

Lemma keeps_part_delete db db' id c p :
  Inv db -> db_participants db !! (id, c) = Some p -> pt_role p <> ParticipantRoleOwner ->
  db_scenes db' = db_scenes db -> db_participants db' = delete (id, c) (db_participants db) ->
  db_published db' = db_published db -> db_votes db' = db_votes db ->
  keeps db db'.
Proof.
  intros HI Hp Hrole E1 E2 E3 E4. pose proof HI as [].
  split; [|split; rewrite ?E1, ?E3, ?E4; [| |done|done];
           intros x y ->; eexists; unfold state_le; repeat split; auto; lia].
  split; rewrite ?E1, ?E2, ?E3, ?E4; eauto.
  - intros x d q [_ ?]%lookup_delete_Some; eauto.
  - intros x y Hy. destruct (inv_owner0 x y Hy) as (q & Hq & Hr). exists q. split; [|done].
    rewrite lookup_delete_ne; [done|]. intros [= <- ->]. congruence.
  - intros x d y q Hy [_ ?]%lookup_delete_Some; eauto.
  - intros x d d' q q' s [_ ?]%lookup_delete_Some [_ ?]%lookup_delete_Some; eauto.
Qed.

(** ** Reads *)
Lemma good_read {A} (c : store_call A) :
  (forall ck db, (run_call ck c db).2 = db) -> good c.
Proof. intros H ck db HI. rewrite H. by apply keeps_refl. Qed.

(** A call none of whose branches writes. *)
Ltac solve_read :=
  apply good_read; intros; cbn [run_call];
  unfold GetWithMembershipAndObservers, GetWithMembership, Get, IsMember, IsParticipant, GetParticipant,
    ListParticipantsWithPoseMeta, ListBoard, ListCharacterScenes, GetSceneNotifyPref, ListMutedScenes,
    ListScenesIdlePastThreshold, ListPublishVoters, TallyVotes, GetPublishedSceneHeader,
    GetPublishedSceneContent, CountAttempts, GetSceneMaxPublishAttempts, ListSceneAttempts,
    ListPublishedScenes, ReadSceneLogForSnapshot, ReadSceneLogForExport, ListExpiredCollecting,
    ListExpiredCoolOff, expired, queryLog, read, fail, mret, txn_ret, mbind, txn_bind;
  repeat (cbn [fst snd] || case_match || simplify_eq); reflexivity.

Lemma good_Get id : good (SGet id). Proof. solve_read. Qed.
Lemma good_GetWithMembership id : good (SGetWithMembership id). Proof. solve_read. Qed.
Lemma good_GetWithMembershipAndObservers id : good (SGetWithMembershipAndObservers id). Proof. solve_read. Qed.
Lemma good_GetParticipant s c : good (SGetParticipant s c). Proof. solve_read. Qed.
Lemma good_IsMember s c : good (SIsMember s c). Proof. solve_read. Qed.
Lemma good_IsParticipant s c : good (SIsParticipant s c). Proof. solve_read. Qed.
Lemma good_ListPoseMeta s : good (SListParticipantsWithPoseMeta s). Proof. solve_read. Qed.
Lemma good_ListBoard q p : good (SListBoard q p). Proof. solve_read. Qed.
Lemma good_ListCharacterScenes c p : good (SListCharacterScenes c p). Proof. solve_read. Qed.
Lemma good_GetNotify c : good (SGetSceneNotifyPref c). Proof. solve_read. Qed.
Lemma good_ListMuted c : good (SListMutedScenes c). Proof. solve_read. Qed.
Lemma good_ListIdle n d : good (SListScenesIdlePastThreshold n d). Proof. solve_read. Qed.
Lemma good_ListVoters id : good (SListPublishVoters id). Proof. solve_read. Qed.
Lemma good_Tally id : good (STallyVotes id). Proof. solve_read. Qed.
Lemma good_Header id : good (SGetPublishedSceneHeader id). Proof. solve_read. Qed.
Lemma good_Content id : good (SGetPublishedSceneContent id). Proof. solve_read. Qed.
Lemma good_Count s : good (SCountAttempts s). Proof. solve_read. Qed.
Lemma good_GetMax s : good (SGetSceneMaxPublishAttempts s). Proof. solve_read. Qed.
Lemma good_ListAttempts s : good (SListSceneAttempts s). Proof. solve_read. Qed.
Lemma good_ListPublished q : good (SListPublishedScenes q). Proof. solve_read. Qed.
Lemma good_ReadSnapshot s : good (SReadSceneLogForSnapshot s). Proof. solve_read. Qed.
Lemma good_ReadExport s : good (SReadSceneLogForExport s). Proof. solve_read. Qed.
Lemma good_ExpiredCollecting n : good (SListExpiredCollecting n). Proof. solve_read. Qed.
Lemma good_ExpiredCoolOff n : good (SListExpiredCoolOff n). Proof. solve_read. Qed.
Lemma good_QueryLog s a b nb na r p : good (SQueryLog s a b nb na r p). Proof. solve_read. Qed.

Open Scope Z_scope.

Ltac miss := match goal with
  | H : classifyTransitionMiss _ _ _ = (Ok _, _) |- _ => by apply classifyTransitionMiss_Err in H
  | H : classifyJoinMiss _ _ = (Ok _, _) |- _ => by apply classifyJoinMiss_Err in H
  | H : classifyTransferMiss _ _ _ _ _ = (Ok _, _) |- _ => by apply classifyTransferMiss_Err in H
  end.

Ltac scene_fields :=
  unfold scene_ok, with_row, with_max, with_poses, set_ended, set_state, apply_update in *; cbn in *.

(** ** Scenes *)
Lemma live_spec s : live_state s = true <-> s = SceneStateActive \/ s = SceneStatePaused.
Proof. unfold live_state. rewrite orb_true_iff, !bool_decide_eq_true. done. Qed.

Lemma good_End id : good (SEnd id).
Proof.
  intros ck db HI. cbn [run_call]. apply keeps_atomically; [done|]. intros a db' H.
  tx_steps; try miss. pose proof (inv_scenes _ HI _ _ Heqo) as (? & ? & ? & ? & ?).
  eapply keeps_scene; [done|exact Heqo|reflexivity..| | | | | |]; scene_fields; try done.
  right. left. done.
Qed.

Lemma good_Pause id : good (SPause id).
Proof.
  intros ck db HI. cbn [run_call]. apply keeps_atomically; [done|]. intros a db' H.
  tx_steps; try miss. bool_prop. pose proof (inv_scenes _ HI _ _ Heqo) as (? & ? & ? & ? & ?).
  eapply keeps_scene; [done|exact Heqo|reflexivity..| | | | | |]; scene_fields; try done.
  right. left. rewrite Heqb. done.
Qed.

Lemma good_Resume id : good (SResume id).
Proof.
  intros ck db HI. cbn [run_call]. apply keeps_atomically; [done|]. intros a db' H.
  tx_steps; try miss. bool_prop. pose proof (inv_scenes _ HI _ _ Heqo) as (? & ? & ? & ? & ?).
  eapply keeps_scene; [done|exact Heqo|reflexivity..| | | | | |]; scene_fields; try done.
  right. left. rewrite Heqb. done.
Qed.

Lemma good_Update id u : good (SUpdate id u).
Proof.
  intros ck db HI. cbn [run_call]. unfold Update. destruct (HasChanges u); cbn [negb]; [|by apply (good_Get id ck)].
  apply keeps_atomically; [done|]. intros a db' H.
  tx_steps; try miss. pose proof (inv_scenes _ HI _ _ Heqo) as (? & ? & ? & ? & ?).
  eapply keeps_scene; [done|exact Heqo|reflexivity..| | | | | |]; scene_fields; try done.
  by left.
Qed.

Lemma good_Extend id n : 0 < n -> good (SExtendMaxPublishAttempts id n).
Proof.
  intros Hn ck db HI. cbn [run_call]. unfold ExtendMaxPublishAttempts.
  apply keeps_run; [done| |tx_errs]. intros a db' H. tx_steps.
  rewrite orb_false_iff, !negb_false_iff, Z.ltb_lt in Heqb.
  destruct Heqb as [Hi ?]. unfold int4_ok in Hi. rewrite andb_true_iff, !Z.leb_le in Hi.
  pose proof (inv_scenes _ HI _ _ Heqo) as (? & ? & ? & ? & ?).
  eapply keeps_scene; [done|exact Heqo|reflexivity..| | | | | |]; scene_fields; try done; try lia.
  - repeat split; try done; lia.
  - by left.
Qed.

(** ** Participants *)
Lemma upsert_member_ok ck total prior p b :
  (forall q, prior = Some q -> part_ok total q) -> upsert_member ck prior = (p, b) ->
  part_ok total p
  /\ (forall s, pt_last_pose_seq p = Some s -> exists q, prior = Some q /\ pt_last_pose_seq q = Some s)
  /\ (pt_role p = ParticipantRoleOwner <-> exists q, prior = Some q /\ pt_role q = ParticipantRoleOwner).
Proof.
  intros Hp. unfold upsert_member. destruct prior as [q|].
  - specialize (Hp q eq_refl). destruct (pt_role q) eqn:Hr; intros [= <- <-];
      (split; [done|split; [cbn; eauto|]]); cbn; split; try (by eauto); intros; destruct_and?; naive_solver congruence.
  - intros [= <- <-]. repeat split; cbn; naive_solver.
Qed.

Lemma good_AddParticipant s c : good (SAddParticipant s c).
Proof.
  intros ck db HI. cbn [run_call]. apply keeps_atomically; [done|]. intros a db' H.
  apply txn_bind_Ok in H as (? & ? & [= <- <-] & H). cbv zeta in H.
  destruct (may_join db s c) eqn:Hj; cbn [negb] in H; [|miss].
  unfold may_join in Hj. destruct (db_scenes db !! s) as [r|] eqn:Hr; [|done].
  destruct (upsert_member ck (db_participants db !! (s, c))) as [p b] eqn:Hu.
  assert (Hprior : forall q, db_participants db !! (s, c) = Some q -> part_ok (sc_total_pose_count r) q).
  { intros q Hq. destruct (inv_part _ HI _ _ _ Hq) as (r' & Hr' & ?). simplify_eq. done. }
  destruct (upsert_member_ok _ _ _ _ _ Hprior Hu) as (Hok & Hpose & Hrole).
  assert (keeps db (set_participants db (<[(s, c):=p]> (db_participants db)))) as Hk.
  { eapply (keeps_part db _ s c r p); try done. rewrite Hrole. split.
    - intros (q & Hq & Hqr). eapply inv_one_owner; eauto.
    - intros ->. destruct (inv_owner _ HI _ _ Hr) as (q & ? & ?). eauto. }
  tx_steps; by apply keeps_ops.
Qed.


Lemma good_AddObserver s c : good (SAddObserver s c).
Proof.
  intros ck db HI. cbn [run_call]. apply keeps_atomically; [done|]. intros a db' H.
  tx_steps; try by apply keeps_refl.
  pose proof (inv_scenes _ HI _ _ Heqo) as (? & ? & ? & ? & ?).
  eapply (keeps_part db _ s c); try done.
  cbn. split; [done|]. intros ->. destruct (inv_owner _ HI _ _ Heqo) as (q & ? & ?). congruence.
Qed.

Lemma good_RemoveParticipant s c : good (SRemoveParticipant s c).
Proof.
  intros ck db HI. cbn [run_call]. apply keeps_atomically; [done|]. intros a db' H.
  tx_steps. bool_prop. apply keeps_ops. by eapply keeps_part_delete.
Qed.

Lemma good_KickParticipant s k c : good (SKickParticipant s k c).
Proof.
  intros ck db HI. cbn [run_call]. apply keeps_atomically; [done|]. intros a db' H.
  tx_steps. bool_prop. apply keeps_ops. by eapply keeps_part_delete.
Qed.

Lemma good_InviteParticipant s i c : good (SInviteParticipant s i c).
Proof.
  intros ck db HI. cbn [run_call]. apply keeps_atomically; [done|]. intros a db' H.
  tx_steps; try by apply keeps_refl. apply negb_false_iff in Heqb.
  destruct (db_scenes db !! s) as [r|] eqn:Hr; [|done].
  pose proof (inv_scenes _ HI _ _ Hr) as (? & ? & ? & ? & ?).
  apply keeps_ops. eapply (keeps_part db _ s c); try done.
  cbn. split; [done|]. intros ->. destruct (inv_owner _ HI _ _ Hr) as (q & ? & ?). congruence.
Qed.

(** The three statements of a transfer leave exactly the new owner. *)
Lemma keeps_transfer db db' id r old new p q :
  Inv db -> db_scenes db !! id = Some r -> old <> new -> sr_OwnerID (sc_row r) = old ->
  live_state (sr_State (sc_row r)) = true ->
  db_participants db !! (id, old) = Some p -> db_participants db !! (id, new) = Some q ->
  db_scenes db' = <[id := with_row r (set_owner (sc_row r) new)]> (db_scenes db) ->
  db_participants db' = <[(id, new) := set_role q ParticipantRoleOwner]>
                        (<[(id, old) := set_role p ParticipantRoleMember]> (db_participants db)) ->
  db_published db' = db_published db -> db_votes db' = db_votes db ->
  keeps db db'.
Proof.
  intros HI Hr Hne Hown Hlive Hp Hq E1 E2 E3 E4.
  pose proof (inv_scenes _ HI) as I0. pose proof (inv_one_owner _ HI) as I1.
  pose proof (inv_pose_distinct _ HI) as I2. pose proof (inv_archived _ HI) as I3.
  assert (Hpt : forall x d y, db_participants db' !! (x, d) = Some y -> exists y0,
    db_participants db !! (x, d) = Some y0 /\ pt_last_pose_at y = pt_last_pose_at y0
    /\ pt_last_pose_seq y = pt_last_pose_seq y0
    /\ (pt_role y = ParticipantRoleOwner <-> if bool_decide (x = id) then d = new else pt_role y0 = ParticipantRoleOwner)).
  { intros x d y. rewrite E2, !lookup_insert_Some.
    intros [[[= <- <-] <-]|[? [[[= <- <-] <-]|[? Hy]]]]; eexists; (split; [done|]); cbn; split_and!; try done.
    - by rewrite bool_decide_true.
    - rewrite bool_decide_true by done. split; [done|]. intros ->. congruence.
    - case_bool_decide as Hx; [|done]. subst x. split; [|congruence].
      intros Ho. assert (d = old) by (rewrite <- Hown; eauto). congruence. }
  assert (Hsc : forall x y, db_scenes db' !! x = Some y -> exists y0, db_scenes db !! x = Some y0
    /\ sc_total_pose_count y = sc_total_pose_count y0 /\ sc_max_publish_attempts y = sc_max_publish_attempts y0
    /\ sr_State (sc_row y) = sr_State (sc_row y0) /\ scene_ok x y
    /\ sr_OwnerID (sc_row y) = if bool_decide (x = id) then new else sr_OwnerID (sc_row y0)).
  { intros x y. rewrite E1, lookup_insert_Some. intros [[<- <-]|[? Hy]].
    - exists r. rewrite bool_decide_true by done. split_and!; try done. by apply (inv_scenes _ HI _ _ Hr).
    - exists y. rewrite bool_decide_false by done. eauto 10. }
  assert (Hfw : forall x y, db_scenes db !! x = Some y -> exists y', db_scenes db' !! x = Some y'
    /\ sc_total_pose_count y' = sc_total_pose_count y /\ sc_max_publish_attempts y' = sc_max_publish_attempts y
    /\ sr_State (sc_row y') = sr_State (sc_row y)).
  { intros x y Hy. rewrite E1. destruct (decide (x = id)) as [->|].
    - simplify_eq. rewrite lookup_insert_eq. eauto 10.
    - rewrite lookup_insert_ne by done. eauto 10. }
  split.
  - split; rewrite ?E3, ?E4; try apply HI.
    + intros x y Hy. by destruct (Hsc _ _ Hy) as (? & ? & ? & ? & ? & ? & ?).
    + intros x d y Hy. destruct (Hpt _ _ _ Hy) as (y0 & Hy0 & Ea & Es & _).
      destruct (inv_part _ HI _ _ _ Hy0) as (z & Hz & Hw). destruct (Hfw _ _ Hz) as (z' & Hz' & Ht & _).
      exists z'. split; [done|]. unfold part_ok in *. rewrite Ea, Es, Ht. done.
    + intros x y Hy. destruct (Hsc _ _ Hy) as (y0 & Hy0 & _ & _ & _ & _ & ->).
      case_bool_decide as Hx.
      * subst x. exists (set_role q ParticipantRoleOwner). by rewrite E2, lookup_insert_eq.
      * destruct (inv_owner _ HI _ _ Hy0) as (o & Ho & ?). exists o. split; [|done].
        rewrite E2, !lookup_insert_ne by congruence. done.
    + intros x d y z Hy Hz Hrole. destruct (Hsc _ _ Hy) as (y0 & Hy0 & _ & _ & _ & _ & ->).
      destruct (Hpt _ _ _ Hz) as (z0 & Hz0 & _ & _ & Hiff). apply Hiff in Hrole.
      case_bool_decide; [done|]. eauto.
    + intros x d d' y y' s Hy Hy'. destruct (Hpt _ _ _ Hy) as (z & ? & _ & -> & _).
      destruct (Hpt _ _ _ Hy') as (z' & ? & _ & -> & _). eauto.
    + intros x y Hy. destruct (inv_pub_scene _ HI _ _ Hy) as (sc & Hsc0 & ?).
      destruct (Hfw _ _ Hsc0) as (sc' & ? & _ & Em & Es). exists sc'. by rewrite Em, Es.
    + intros x y Hy Ha. destruct (Hsc _ _ Hy) as (y0 & Hy0 & _ & _ & Es & _). rewrite Es in Ha. eauto.
  - split; rewrite ?E3, ?E4; [| |done|done].
    + intros x y Hy. destruct (Hfw _ _ Hy) as (y' & ? & Et & Em & Es). exists y'.
      rewrite Et, Em, Es. unfold state_le. repeat split; auto; lia.
    + intros x y ->. eexists; repeat split; auto.
Qed.

Lemma good_TransferOwnership s o n : good (STransferOwnership s o n).
Proof.
  intros ck db HI. cbn [run_call]. unfold TransferOwnership.
  destruct (String.eqb_spec o n) as [->|Hne]; [by apply keeps_refl|].
  apply keeps_atomically; [done|]. intros a db' H. tx_steps; try miss. cbn in *. bool_prop.
  rewrite lookup_insert_ne in Heqo1 by congruence.
  match goal with E : String.eqb _ _ = true |- _ => apply String.eqb_eq in E end.
  apply keeps_ops. by eapply keeps_transfer.
Qed.

(** ** Notifications and the log *)
Lemma good_SetMute c s m : good (SSetSceneMute c s m).
Proof. intros ck db HI. by apply keeps_same. Qed.
Lemma good_SetNotify c e : good (SSetSceneNotifyPref c e).
Proof. intros ck db HI. by apply keeps_same. Qed.

Lemma insertSceneLogTx_Ok id l db b db' :
  insertSceneLogTx id l db = (Ok b, db') ->
  if b then db_log db !! id = None /\ db' = set_log db (<[id := l]> (db_log db)) else db' = db.
Proof. intros H. unfold insertSceneLogTx in H. tx_steps. Qed.

Lemma good_AuditInsert id l : good (SAuditInsert id l).
Proof.
  intros ck db HI. cbn [run_call]. apply keeps_atomically; [done|]. intros a db' H.
  apply wrap_code_Ok, txn_bind_Ok in H as (b & db1 & Hl & H). apply insertSceneLogTx_Ok in Hl. tx_steps.
  destruct b; [destruct Hl as [_ ->]; by apply keeps_same|subst; by apply keeps_refl].
Qed.

(** A pose gives its author the scene's highest number. *)
Lemma keeps_pose db db' id c r p at_ :
  Inv db -> db_scenes db !! id = Some r -> db_participants db !! (id, c) = Some p ->
  db_scenes db' = <[id := with_poses r (sc_total_pose_count r + 1)]> (db_scenes db) ->
  db_participants db' = <[(id, c) := posed p at_ (sc_total_pose_count r + 1)]> (db_participants db) ->
  db_published db' = db_published db -> db_votes db' = db_votes db ->
  sc_total_pose_count r + 1 <= int4_max ->
  keeps db db'.
Proof.
  intros HI Hr Hp E1 E2 E3 E4 Hmax.
  set (db1 := set_scenes db (<[id := with_poses r (sc_total_pose_count r + 1)]> (db_scenes db))).
  change (db_scenes db' = db_scenes db1) in E1. change (db_published db' = db_published db1) in E3.
  change (db_votes db' = db_votes db1) in E4.
  assert (H1 : keeps db db1).
  { pose proof (inv_scenes _ HI _ _ Hr) as (? & ? & ? & ? & ?).
    eapply keeps_scene; [done|exact Hr|reflexivity..| | | | | |]; scene_fields; try done; try lia.
    - repeat split; try done; lia.
    - by left. }
  eapply keeps_trans; [exact H1|]. destruct H1 as [HI1 _].
  pose proof (inv_part _ HI1) as I0. pose proof (inv_one_owner _ HI1) as I1.
  pose proof (inv_pose_distinct _ HI1) as I2.
  assert (Hr1 : db_scenes db1 !! id = Some (with_poses r (sc_total_pose_count r + 1)))
    by (cbn; by rewrite lookup_insert_eq).
  assert (Hold : forall d y s, db_participants db !! (id, d) = Some y -> pt_last_pose_seq y = Some s -> s <= sc_total_pose_count r).
  { intros d y s Hy Hs. destruct (inv_part _ HI _ _ _ Hy) as (r' & Hr' & _ & Hle). simplify_eq. by apply Hle. }
  split; [|split; rewrite ?E1, ?E3, ?E4; [| |done|done];
           intros x y ->; eexists; unfold state_le; repeat split; auto; lia].
  split; rewrite ?E1, ?E2, ?E3, ?E4; try apply HI1.
  - intros x d y [[[= <- <-] <-]|[? ?]]%lookup_insert_Some; [|by eauto].
    eexists; split; [done|]. split; [done|]. cbn. intros s [= <-].
    destruct (inv_scenes _ HI _ _ Hr) as (_ & _ & _ & ? & _). lia.
  - intros x y Hy. destruct (inv_owner _ HI1 x y Hy) as (o & Ho & Hrole).
    destruct (decide ((id, c) = (x, sr_OwnerID (sc_row y)))) as [Heq|Hk].
    + rewrite <- Heq in Ho |- *. rewrite lookup_insert_eq. cbn in Ho. eexists; split; [done|]. cbn. congruence.
    + rewrite lookup_insert_ne by done. eauto.
  - intros x d y z Hy [[[= <- <-] <-]|[? ?]]%lookup_insert_Some Hrole; [|by eauto].
    eapply (inv_one_owner _ HI1 id c y p); eauto.
  - intros x d d' y y' s Hy Hy' Hs Hs'. rewrite lookup_insert_Some in Hy, Hy'.
    destruct Hy as [[Ek <-]|[? Hy]], Hy' as [[Ek' <-]|[? Hy']]; simplify_eq; [done| | |eauto].
    + cbn in Hs. simplify_eq. specialize (Hold _ _ _ Hy' Hs'). lia.
    + cbn in Hs'. simplify_eq. specialize (Hold _ _ _ Hy Hs). lia.
Qed.

Lemma good_InsertScenePose id l s c : good (SInsertScenePose id l s c).
Proof.
  intros ck db HI. cbn [run_call]. apply keeps_atomically; [done|]. intros a db' H.
  apply wrap_code_Ok, txn_bind_Ok in H as (b & db1 & Hl & H). apply insertSceneLogTx_Ok in Hl.
  destruct b; cbn [negb] in H; [|subst; tx_steps; by apply keeps_refl].
  destruct Hl as [_ ->]. set (db1 := set_log db _) in *.
  assert (H1 : keeps db db1) by (by apply keeps_same).
  tx_steps; eapply keeps_trans; try exact H1; destruct H1 as [HI1 _];
    apply negb_false_iff in Heqb; unfold int4_ok in Heqb; apply andb_true_iff in Heqb as [_ Hm%Z.leb_le].
  - by eapply keeps_pose.
  - pose proof (inv_scenes _ HI1 _ _ Heqo) as (? & ? & ? & ? & ?).
    eapply keeps_scene; [done|exact Heqo|reflexivity..| | | | | |]; scene_fields; try done; try lia.
    + repeat split; try done; lia.
    + by left.
Qed.
