(* ===== verification/ScenePubInv.v ===== *)
(** The writes to publication attempts and votes, and the creation of scenes, keep
    the invariant; those that do so only for the arguments the handlers pass state
    what the arguments must satisfy. *)

From S2P Require Import Prelude GoStrings Sql SceneTypes SceneStore ScenePublishStore SceneProg SceneInv ScenePublish.

Open Scope Z_scope.

(** ** Creating a scene *)
Lemma good_CreateWithOwner row : sr_State row = SceneStateActive -> good (SCreateWithOwner row).
Proof.
  intros Hst ck db HI. cbn [run_call]. apply keeps_atomically; [done|]. intros a db' H.
  unfold insert_scene in H. tx_steps. cbn in *. apply keeps_ops.
  apply orb_false_iff in Heqb as [Hs _]. destruct (db_scenes db !! sr_ID row) eqn:Hnone; [done|]. clear Hs.
  assert (Hnp : forall c p, db_participants db !! (sr_ID row, c) = Some p -> False).
  { intros c p Hp. destruct (inv_part _ HI _ _ _ Hp) as (? & ? & _). congruence. }
  set (new := mkSceneRec _ 3 0).
  assert (Hnew : scene_ok (sr_ID row) new) by (unfold scene_ok; cbn; rewrite Hst; done).
  pose proof (inv_scenes _ HI) as I0. pose proof (inv_part _ HI) as I1. pose proof (inv_owner _ HI) as I2.
  pose proof (inv_one_owner _ HI) as I3. pose proof (inv_pose_distinct _ HI) as I4.
  pose proof (inv_archived _ HI) as I5.
  split; [|split; cbn; [| |done|done]].
  - split; cbn; try apply HI.
    + intros id r [[<- <-]|[? ?]]%lookup_insert_Some; eauto.
    + intros id c p [[[= <- <-] <-]|[? Hp]]%lookup_insert_Some.
      * eexists. rewrite lookup_insert_eq. split; [done|]. done.
      * destruct (I1 _ _ _ Hp) as (r & Hr & ?). exists r. split; [|done].
        rewrite lookup_insert_ne; [done|]. intros <-. naive_solver.
    + intros id r [[<- <-]|[? Hr]]%lookup_insert_Some.
      * eexists. cbn. by rewrite lookup_insert_eq.
      * destruct (I2 _ _ Hr) as (p & Hp & ?). exists p. split; [|done].
        rewrite lookup_insert_ne; [done|]. intros [= <- _]. congruence.
    + intros id c r p Hr [[[= <- <-] <-]|[? Hp]]%lookup_insert_Some Hrole.
      * rewrite lookup_insert_eq in Hr. by injection Hr as <-.
      * apply lookup_insert_Some in Hr as [[<- <-]|[? Hr]]; [naive_solver|eauto].
    + intros id c c' p p' s Hp Hp' Hs Hs'. rewrite lookup_insert_Some in Hp, Hp'.
      destruct Hp as [[? <-]|[? ?]], Hp' as [[? <-]|[? ?]]; simplify_eq; eauto.
    + intros id r Hr. destruct (inv_pub_scene _ HI _ _ Hr) as (sc & Hsc & ?). exists sc. split; [|done].
      rewrite lookup_insert_ne; [done|]. intros Heq. congruence.
    + intros id sc [[<- <-]|[? ?]]%lookup_insert_Some; [cbn; congruence|eauto].
  - intros id r Hr. exists r. rewrite lookup_insert_ne by congruence. unfold state_le. repeat split; auto; lia.
  - intros id r ->. eexists; repeat split; auto.
Qed.

(** ** Votes *)
Lemma good_CastVote id c v : good (SCastVote id c v).
Proof.
  intros ck db HI. cbn [run_call]. apply keeps_atomically; [done|]. intros a db' H. tx_steps. cbn in *.
  assert (Hk : forall x d y, <[(id, c) := y]> (db_votes db) !! (x, d) = db_votes db !! (x, d) \/ x = id).
  { intros x d y. destruct (decide ((id, c) = (x, d))) as [[= <- <-]|]; [by right|].
    left. by rewrite lookup_insert_ne. }
  split; [split; cbn; try apply HI|split; cbn; [| |..]].
  - intros x d w [[[= <- <-] <-]|[? Hw]]%lookup_insert_Some; [eauto|by eapply inv_vote_fk].
  - intros x r Hr. destruct (inv_roster _ HI _ _ Hr) as [d Hd]. exists d.
    destruct (decide ((id, c) = (x, d))) as [<-|]; [rewrite lookup_insert_eq|rewrite lookup_insert_ne by done]; eauto.
  - intros x d r w Hr Hst [[[= <- <-] <-]|[? Hw]]%lookup_insert_Some; [|by eapply (inv_unanimous _ HI x d r)].
    simplify_eq. by rewrite Hst in Heqb.
  - intros x r ->. eexists; unfold state_le; repeat split; auto; lia.
  - intros x r ->. eexists; repeat split; auto.
  - intros x r d Hr Ht. match goal with |- <[_ := ?y]> _ !! _ = _ => destruct (Hk x d y) as [->| ->]; [done|] end.
    congruence.
  - intros x r d Hr. destruct (decide ((id, c) = (x, d))) as [[= <- <-]|].
    + rewrite lookup_insert_eq. split; eauto.
    + by rewrite lookup_insert_ne.
Qed.

(** ** Writes to one attempt *)
Lemma put_pub_Ok code id r db a db' :
  put_pub code id r db = (Ok a, db') ->
  pub_conflict (db_published db) id r = None /\ pub_check r = true /\ db' = set_published db (<[id := r]> (db_published db)).
Proof. unfold put_pub. intros H. tx_steps. apply negb_false_iff in Heqb. done. Qed.

Lemma put_pub_Err code id r db e db' : put_pub code id r db = (Err e, db') -> db' = db.
Proof. unfold put_pub. revert e db'. tx_errs. Qed.

(** The identity of an attempt. *)
Definition same_attempt (r r' : pub_rec) : Prop :=
  pb_scene_id r' = pb_scene_id r /\ pb_attempt_number r' = pb_attempt_number r
  /\ pb_initiated_by r' = pb_initiated_by r /\ pb_initiated_at r' = pb_initiated_at r
  /\ pb_vote_window r' = pb_vote_window r /\ pb_cooloff_window r' = pb_cooloff_window r.

Lemma R_pub db db' id r r' :
  db_published db !! id = Some r -> IsTerminal (pb_status r) = false -> same_attempt r r' ->
  db_published db' = <[id := r']> (db_published db) ->
  forall x y, db_published db !! x = Some y -> exists y', db_published db' !! x = Some y' /\ same_attempt y y'
    /\ (IsTerminal (pb_status y) = true -> y' = y).
Proof.
  intros Hr Ht Hs E x y Hy. rewrite E. destruct (decide (x = id)) as [->|].
  - simplify_eq. exists r'. rewrite lookup_insert_eq. split_and!; try done. congruence.
  - exists y. rewrite lookup_insert_ne by done. done.
Qed.

(** What the invariant says of the attempts of a scene among themselves. *)
Definition numbering (pubs : gmap string pub_rec) (votes : gmap (string * string) vote_rec) : Prop :=
  (forall id id' r r', pubs !! id = Some r -> pubs !! id' = Some r' ->
     pb_scene_id r = pb_scene_id r' -> pb_attempt_number r = pb_attempt_number r' -> id = id')
  /\ (forall id r n, pubs !! id = Some r -> 0 < n < pb_attempt_number r ->
     exists id' r', pubs !! id' = Some r' /\ pb_scene_id r' = pb_scene_id r /\ pb_attempt_number r' = n)
  /\ (forall id id' r r', pubs !! id = Some r -> pubs !! id' = Some r' ->
     pb_scene_id r = pb_scene_id r' -> pb_status r <> StatusAttemptFailed ->
     pb_status r' <> StatusAttemptFailed -> id = id')
  /\ (forall id c v, votes !! (id, c) = Some v -> is_Some (pubs !! id))
  /\ (forall id r, pubs !! id = Some r -> exists c, is_Some (votes !! (id, c))).

Lemma Inv_numbering db : Inv db -> numbering (db_published db) (db_votes db).
Proof. intros []. unfold numbering. auto. Qed.

(** It survives changes that keep identities and reopen no failed attempt. *)
Lemma numbering_same pubs pubs' votes :
  (forall x y, pubs !! x = Some y -> exists y', pubs' !! x = Some y' /\ same_attempt y y') ->
  (forall x y, pubs' !! x = Some y -> exists y0, pubs !! x = Some y0 /\ same_attempt y0 y
     /\ (pb_status y <> StatusAttemptFailed -> pb_status y0 <> StatusAttemptFailed)) ->
  numbering pubs votes -> numbering pubs' votes.
Proof.
  intros Hup Hdn (Hnum & Hden & Hone & Hfk & Hro). split_and!.
  - intros x x' y y' Hy Hy'. destruct (Hdn _ _ Hy) as (y0 & Hy0 & (-> & -> & _) & _).
    destruct (Hdn _ _ Hy') as (y0' & Hy0' & (-> & -> & _) & _). by apply (Hnum x x').
  - intros x y n Hy. destruct (Hdn _ _ Hy) as (y0 & Hy0 & (-> & -> & _) & _). intros Hn.
    destruct (Hden _ _ _ Hy0 Hn) as (z & w & Hw & Hws & Hwn).
    destruct (Hup _ _ Hw) as (w' & Hw' & (? & ? & _)). exists z, w'. split_and!; congruence.
  - intros x x' y y' Hy Hy'. destruct (Hdn _ _ Hy) as (y0 & Hy0 & (-> & _) & Hf).
    destruct (Hdn _ _ Hy') as (y0' & Hy0' & (-> & _) & Hf'). intros Hx Hn Hn'.
    eapply (Hone x x'); eauto.
  - intros x d v Hv. destruct (Hfk _ _ _ Hv) as [y Hy]. destruct (Hup _ _ Hy) as (? & ? & _). eauto.
  - intros x y Hy. destruct (Hdn _ _ Hy) as (y0 & Hy0 & _). by apply (Hro x y0).
Qed.

(** A change of status that does not publish. *)
Lemma keeps_pub db db' id r r' :
  Inv db -> db_published db !! id = Some r -> IsTerminal (pb_status r) = false ->
  same_attempt r r' -> pub_ok r' -> pub_check r' = true -> pb_status r' <> StatusPublished ->
  db_scenes db' = db_scenes db -> db_participants db' = db_participants db ->
  db_votes db' = db_votes db -> db_published db' = <[id := r']> (db_published db) ->
  keeps db db'.
Proof.
  intros HI Hr Ht Hs Hok Hck Hnp E1 E2 E3 E4. pose proof (R_pub db db' id r r' Hr Ht Hs E4) as HR.
  assert (Hlk : forall x y, db_published db' !! x = Some y -> exists y0, db_published db !! x = Some y0
    /\ same_attempt y0 y /\ pub_ok y /\ (pb_status y = StatusPublished -> pb_status y0 = StatusPublished /\ y = y0)
    /\ (pb_status y <> StatusAttemptFailed -> pb_status y0 <> StatusAttemptFailed)).
  { intros x y. rewrite E4, lookup_insert_Some. intros [[<- <-]|[? Hy]].
    - exists r. split_and!; try done. intros _ E. by rewrite E in Ht.
    - exists y. split_and!; try done. by apply (inv_pub _ HI x). }
  destruct (numbering_same (db_published db) (db_published db') (db_votes db)) as (N1 & N2 & N3 & N4 & N5);
    [naive_solver|naive_solver|by apply Inv_numbering|].
  split; [split; rewrite ?E1, ?E2, ?E3; try apply HI; try done|split; rewrite ?E1, ?E3; try done].
  - intros x y Hy. by destruct (Hlk _ _ Hy) as (? & ? & ? & ? & ?).
  - intros x y. rewrite E4, lookup_insert_Some. intros [[_ <-]|[_ Hy]]; [done|by eapply (inv_check _ HI)].
  - intros x y Hy. destruct (Hlk _ _ Hy) as (y0 & Hy0 & (-> & -> & _) & _ & Hp & _).
    destruct (inv_pub_scene _ HI _ _ Hy0) as (sc & ? & ? & ? & ?). exists sc. naive_solver.
  - intros x sc Hsc Ha. destruct (inv_archived _ HI _ _ Hsc Ha) as (z & w & Hw & Hsid & Hst).
    destruct (HR _ _ Hw) as (w' & Hw' & _ & Hfr). rewrite Hst in Hfr. specialize (Hfr eq_refl). subst w'. eauto.
  - intros x d y v Hy Hst Hv. destruct (Hlk _ _ Hy) as (y0 & Hy0 & _ & _ & Hp & _).
    destruct (Hp Hst) as [Hst0 _]. by eapply (inv_unanimous _ HI x d y0).
  - intros x y ->. eexists; unfold state_le; repeat split; auto; lia.
  - intros x y Hy. destruct (HR _ _ Hy) as (y' & ? & (? & ? & ? & ? & ? & ?) & ?). exists y'. auto 10.
Qed.

(** ** Transitions *)

(** The transitions [applyTrigger] asks for. *)
Definition ok_transition (t : TransitionInput) : Prop :=
  match ti_To t with
  | StatusCoolOff => ti_FailureReason t = None /\ is_set (ti_SetCoolOffAt t) = true /\ ti_Resolved t = false
  | StatusCollecting =>
      ti_FailureReason t = None /\ ti_SetCoolOffAt t = None /\ ti_ClearCoolOff t = true /\ ti_Resolved t = false
  | StatusAttemptFailed =>
      is_set (ti_FailureReason t) = true /\ ti_SetCoolOffAt t = None /\ ti_ClearCoolOff t = false /\ ti_Resolved t = true
  | _ => False
  end.

Lemma transition_for_ok from t now ti :
  t <> TriggerCoolOffElapsed -> transition_for from t now = Ok ti -> ok_transition ti.
Proof.
  intros Hne. unfold transition_for. destruct from, t; cbn; try done; intros [= <-]; cbn; done.
Qed.

Lemma transition_row_ok now t r :
  ok_transition t -> pb_status r ∈ legalFromStatuses (ti_To t) -> pub_ok r ->
  IsTerminal (pb_status r) = false /\ pub_ok (transition_row now t r) /\ ti_To t <> StatusPublished.
Proof.
  unfold ok_transition, transition_row, pub_ok. destruct t as [to fr sc cl rs]. cbn.
  intros Ht Hin%list_elem_of_In. destruct to; try done; cbn in Hin; destruct (pb_status r);
    destruct_or?; try done; intros; destruct_and?; subst; try done;
    match goal with o : option _ |- _ => by destruct o end.
Qed.

Lemma good_TransitionStatus id t : ok_transition t -> good (STransitionStatus id t).
Proof.
  intros Hok ck db HI. cbn [run_call]. unfold TransitionStatus.
  destruct (length _ =? 0)%nat; [by apply keeps_refl|].
  apply keeps_run; [done| |].
  - intros a db' H. apply txn_bind_Ok in H as (? & ? & [= <- <-] & H).
    destruct (db_published db !! id) as [r|] eqn:Hr; [|done].
    case_bool_decide as Hin; [|done]. apply put_pub_Ok in H as (_ & Hck & ->).
    destruct (transition_row_ok (ck_go ck) t r Hok Hin (inv_pub _ HI _ _ Hr)) as (? & ? & ?).
    by eapply (keeps_pub db _ id r (transition_row (ck_go ck) t r)).
  - intros e db' H. unfold mbind, txn_bind, read in H. cbn in H.
    destruct (db_published db !! id); [|by injection H]. case_bool_decide; [|by injection H].
    by eapply put_pub_Err.
Qed.

(** ** Counting rows *)
Lemma count_where_none {K V} `{Countable K} (P : K -> V -> bool) (m : gmap K V) k v :
  count_where P m <= 0 -> m !! k = Some v -> P k v = false.
Proof.
  unfold count_where. intros Hc Hk. destruct (P k v) eqn:E; [|done].
  pose proof (proj2 (rows_where_elem P m k v) (conj Hk E)) as Hin.
  destruct (rows_where P m); [by apply not_elem_of_nil in Hin|cbn in Hc; lia].
Qed.

(** Distinct positive numbers, closed downwards, are those from one to their count. *)
Lemma numbers_exact (l : list Z) k :
  NoDup l -> (forall x, x ∈ l -> 0 < x /\ forall y, 0 < y < x -> y ∈ l) ->
  0 < k <= Z.of_nat (length l) -> k ∈ l.
Proof.
  intros Hnd Hcl Hk. destruct (decide (k ∈ l)) as [|Hn]; [done|]. exfalso.
  assert (Hsub : l ⊆+ (Z.of_nat <$> seq 1 (Z.to_nat k - 1))).
  { apply NoDup_submseteq; [done|]. intros x Hx. destruct (Hcl x Hx) as [Hpos Hdown].
    assert (x < k). { destruct (Z.lt_trichotomy x k) as [|[->|]]; [done|done|]. exfalso. apply Hn, Hdown. lia. }
    apply list_elem_of_fmap. exists (Z.to_nat x). split; [lia|]. apply elem_of_seq. lia. }
  apply submseteq_length in Hsub. rewrite length_fmap, length_seq in Hsub. lia.
Qed.

(** ** Starting an attempt *)

(** The scene is closed and its budget covers attempt [num]. *)
Definition in_budget (db : DB) (sceneID : string) (num : Z) : Prop :=
  exists sc, db_scenes db !! sceneID = Some sc /\ closed_state (sr_State (sc_row sc))
    /\ 0 < num <= sc_max_publish_attempts sc.

(** Every number below [num] is a failed attempt of the scene. *)
Definition lower_failed (db : DB) (sceneID : string) (num : Z) : Prop :=
  forall n, 0 < n < num -> exists id r, db_published db !! id = Some r /\ pb_scene_id r = sceneID
    /\ pb_attempt_number r = n /\ pb_status r = StatusAttemptFailed.

Lemma in_budget_stable db db' s n : R db db' -> in_budget db s n -> in_budget db' s n.
Proof.
  intros HR (sc & Hsc & Hcl & Hn).
  destruct (r_scene _ _ HR _ _ Hsc) as (sc' & Hsc' & Hle & Hm & _). exists sc'.
  split; [done|]. split; [by eapply closed_le|lia].
Qed.

Lemma lower_failed_stable db db' s n : R db db' -> lower_failed db s n -> lower_failed db' s n.
Proof.
  intros HR Hf k Hk. destruct (Hf k Hk) as (id & r & Hr & Hs & Hnum & Hst).
  destruct (r_pub _ _ HR _ _ Hr) as (r' & Hr' & _ & _ & _ & _ & _ & _ & Hfr).
  rewrite Hst in Hfr. rewrite (Hfr eq_refl) in Hr'. eauto 10.
Qed.

(** The numbers of a scene's attempts. *)
Definition attempt_numbers (db : DB) (sceneID : string) : list Z :=
  map (fun kv => pb_attempt_number kv.2) (pubs_of db sceneID).

Lemma pubs_of_elem db s id r :
  (id, r) ∈ pubs_of db s <-> db_published db !! id = Some r /\ pb_scene_id r = s.
Proof. unfold pubs_of. by rewrite rows_where_elem, String.eqb_eq. Qed.

Lemma attempt_numbers_elem db s k :
  k ∈ attempt_numbers db s <-> exists id r, db_published db !! id = Some r /\ pb_scene_id r = s /\ pb_attempt_number r = k.
Proof.
  unfold attempt_numbers. rewrite list_elem_of_fmap. split.
  - intros ([id r] & -> & [? ?]%pubs_of_elem). eauto.
  - intros (id & r & ? & ? & <-). exists (id, r). by rewrite pubs_of_elem.
Qed.

Lemma total_numbers db s : ac_Total (attempt_counts db s) = Z.of_nat (length (attempt_numbers db s)).
Proof.
  unfold attempt_numbers, attempt_counts, pubs_of, count_where, rows_where. cbn [ac_Total]. rewrite length_map.
  do 2 f_equal. apply list_filter_iff. intros [? ?]. by rewrite andb_true_r.
Qed.

(** They run from one to the number of attempts. *)
Lemma attempt_numbers_exact db s k :
  Inv db -> k ∈ attempt_numbers db s <-> 0 < k <= ac_Total (attempt_counts db s).
Proof.
  intros HI. rewrite total_numbers.
  assert (Hcl : forall x, x ∈ attempt_numbers db s -> 0 < x /\ forall y, 0 < y < x -> y ∈ attempt_numbers db s).
  { intros x (id & r & Hr & Hs & <-)%attempt_numbers_elem.
    destruct (inv_pub_scene _ HI _ _ Hr) as (? & _ & _ & Hb & _). split; [lia|]. intros y Hy.
    destruct (inv_dense _ HI _ _ _ Hr Hy) as (j & r' & Hr' & Hs' & Hnum).
    apply attempt_numbers_elem. exists j, r'. split_and!; congruence. }
  split.
  - intros Hk. destruct (Hcl k Hk) as [Hpos Hdown]. split; [done|].
    assert (Hsub : (Z.of_nat <$> seq 1 (Z.to_nat k)) ⊆+ attempt_numbers db s).
    { apply NoDup_submseteq; [apply NoDup_fmap_2; [apply _|apply NoDup_seq]|].
      intros x (n & -> & Hn%elem_of_seq)%list_elem_of_fmap.
      destruct (decide (Z.of_nat n = k)) as [->|]; [done|apply Hdown; lia]. }
    apply submseteq_length in Hsub. rewrite length_fmap, length_seq in Hsub. lia.
  - apply numbers_exact; [|done]. apply NoDup_fmap_2_strong; [|apply NoDup_rows_where].
    intros [i r] [j r'] [Hr Hs]%pubs_of_elem [Hr' Hs']%pubs_of_elem Heq. cbn in Heq.
    assert (i = j) as -> by (eapply (inv_numbers _ HI); eauto; congruence). congruence.
Qed.

(** The counts [StartScenePublish] reads establish it for the number it picks. *)
Lemma counts_lower_failed db s :
  Inv db -> ac_Published (attempt_counts db s) <= 0 -> ac_Active (attempt_counts db s) <= 0 ->
  lower_failed db s (ac_Total (attempt_counts db s) + 1).
Proof.
  intros HI Hp Ha n Hn.
  assert (Hin : n ∈ attempt_numbers db s) by (apply attempt_numbers_exact; [done|lia]).
  apply attempt_numbers_elem in Hin as (i & r & Hr & Hs & Hnum). exists i, r. split_and!; try done.
  pose proof (count_where_none _ _ _ _ Hp Hr) as E1. pose proof (count_where_none _ _ _ _ Ha Hr) as E2.
  cbn in E1, E2. rewrite Hs, String.eqb_refl in E1, E2. pose proof (inv_pub _ HI _ _ Hr) as Hok.
  unfold pub_ok in Hok. destruct (pb_status r); done.
Qed.

(** At most one attempt of a scene has not failed. *)
Lemma open_attempts db s :
  Inv db -> ac_Active (attempt_counts db s) + ac_Published (attempt_counts db s) <= 1.
Proof.
  intros HI. cbn. unfold count_where.
  match goal with |- Z.of_nat (length ?a) + Z.of_nat (length ?b) <= 1 => set (l := a ++ b) end.
  assert (Hnd : NoDup l).
  { apply NoDup_app. split_and!; try apply NoDup_rows_where.
    intros [id r] [_ [_ H1]%andb_true_iff]%rows_where_elem [_ [_ H2]%andb_true_iff]%rows_where_elem.
    apply bool_decide_eq_true in H2. by rewrite H2 in H1. }
  assert (Hall : forall x, x ∈ l -> db_published db !! x.1 = Some x.2 /\ pb_scene_id x.2 = s
    /\ pb_status x.2 <> StatusAttemptFailed).
  { intros [id r] [[Hr [Hs Hst]%andb_true_iff]%rows_where_elem|[Hr [Hs Hst]%andb_true_iff]%rows_where_elem]%elem_of_app;
      cbn; apply String.eqb_eq in Hs; split_and!; try done; intros E; by rewrite E in Hst. }
  assert (length l <= 1)%nat; [|unfold l in *; rewrite length_app in *; lia].
  destruct l as [|[i r] [|[j r'] l']]; cbn; [lia..|]. exfalso.
  destruct (Hall (i, r)) as (Hi & Hs & Hf); [apply list_elem_of_here|].
  destruct (Hall (j, r')) as (Hj & Hs' & Hf'); [apply list_elem_of_further, list_elem_of_here|]. cbn in *.
  assert (i = j) as -> by (eapply (inv_one_open _ HI i j r r'); eauto; congruence). simplify_eq.
  apply NoDup_cons in Hnd as [Hn _]. apply Hn, list_elem_of_here.
Qed.

Lemma seed_votes_lookup id cs m x d :
  seed_votes id cs m !! (x, d) =
  if decide (x = id /\ d ∈ cs) then Some (mkVoteRec None None None) else m !! (x, d).
Proof.
  induction cs as [|c cs IH]; cbn.
  - case_decide as E; [|done]. destruct E as [_ E]. by apply not_elem_of_nil in E.
  - destruct (decide ((id, c) = (x, d))) as [[= <- <-]|Hne].
    + rewrite lookup_insert_eq. rewrite decide_True; [done|]. split; [done|apply list_elem_of_here].
    + rewrite lookup_insert_ne by done. etrans; [exact IH|]. repeat case_decide; set_solver.
Qed.

Lemma other_pub_false m id s P x r :
  other_pub m id s P = false -> m !! x = Some r -> x <> id -> pb_scene_id r = s -> P r = false.
Proof.
  unfold other_pub. intros H Hr Hne Hs.
  pose proof (proj1 (existsb_false _ _) H (x, r) (proj2 (elem_of_map_to_list _ _ _) Hr)) as Hx. cbn in Hx.
  by rewrite Hs, String.eqb_refl, (proj2 (String.eqb_neq _ _) Hne) in Hx.
Qed.

Lemma pub_conflict_number m id r x r' :
  pub_conflict m id r = None -> m !! x = Some r' -> x <> id -> pb_scene_id r' = pb_scene_id r ->
  pb_attempt_number r' <> pb_attempt_number r.
Proof.
  unfold pub_conflict. repeat case_match; try done. intros _ Hr Hne Hs.
  eapply other_pub_false in Hr; [|done..]. cbn in Hr. lia.
Qed.

(** When the number is free, every attempt of the scene is below it and failed. *)
Lemma create_lower db id new x y :
  Inv db -> 0 < pb_attempt_number new -> db_published db !! id = None -> pub_conflict (db_published db) id new = None ->
  (forall n, 0 < n < pb_attempt_number new -> exists id r, db_published db !! id = Some r
     /\ pb_scene_id r = pb_scene_id new /\ pb_attempt_number r = n /\ pb_status r = StatusAttemptFailed) ->
  db_published db !! x = Some y -> pb_scene_id y = pb_scene_id new ->
  pb_attempt_number y < pb_attempt_number new /\ pb_status y = StatusAttemptFailed.
Proof.
  intros HI Hpos0 Hid Hnc Hfail Hy Hs. assert (Hx : x <> id) by congruence.
  pose proof (pub_conflict_number _ _ _ _ _ Hnc Hy Hx Hs) as Hne.
  assert (pb_attempt_number y < pb_attempt_number new).
  { destruct (Z.lt_trichotomy (pb_attempt_number y) (pb_attempt_number new)) as [|[|Hgt]]; [done|done|].
    destruct (inv_dense _ HI x y (pb_attempt_number new) Hy) as (z & w & Hw & Hws & Hwn); [lia|].
    exfalso. eapply (pub_conflict_number _ _ _ z w Hnc); eauto; congruence. }
  split; [done|]. destruct (inv_pub_scene _ HI _ _ Hy) as (? & _ & _ & Hpos & _).
  destruct (Hfail (pb_attempt_number y)) as (z & w & Hw & Hws & Hwn & Hwf); [lia|].
  assert (x = z) as -> by (eapply (inv_numbers _ HI); eauto; congruence). congruence.
Qed.

Lemma keeps_CreatePublishAttempt ck inp db :
  Inv db -> in_budget db (ci_SceneID inp) (ci_AttemptNumber inp) ->
  lower_failed db (ci_SceneID inp) (ci_AttemptNumber inp) ->
  keeps db (run_call ck (SCreatePublishAttempt inp) db).2.
Proof.
  intros HI (sc & Hsc & Hcl & Hnum) Hfail. cbn [run_call]. apply keeps_atomically; [done|].
  intros a db' H. tx_steps. cbn in *. set (id := ck_id ck) in *. set (r := new_pub ck inp) in *.
  match goal with H : is_set _ = false |- _ => rename H into Hfresh end.
  match goal with H : pub_conflict _ _ _ = None |- _ => rename H into Hnc end.
  match goal with H : (length _ =? 0)%nat = false |- _ => rename H into Hvs end.
  set (vs := voters db (ci_SceneID inp)) in *.
  destruct (db_published db !! id) eqn:Hid; [done|]. clear Hfresh.
  assert (Hlow : forall x y, db_published db !! x = Some y -> pb_scene_id y = ci_SceneID inp ->
    pb_attempt_number y < ci_AttemptNumber inp /\ pb_status y = StatusAttemptFailed)
    by (intros x y; apply (create_lower db id r); try done; cbn; lia).
  split; [split; cbn; try apply HI|split; cbn].
  - intros x y [[<- <-]|[_ Hy]]%lookup_insert_Some; [done|by eapply (inv_pub _ HI)].
  - intros x y [[<- <-]|[_ Hy]]%lookup_insert_Some; [by apply negb_false_iff|by eapply (inv_check _ HI)].
  - intros x y [[<- <-]|[_ Hy]]%lookup_insert_Some; [|by eapply (inv_pub_scene _ HI)].
    exists sc. split_and!; try done; cbn; lia.
  - intros x x' y y' Hy Hy' Hs Hn. rewrite lookup_insert_Some in Hy, Hy'.
    destruct Hy as [[<- <-]|[_ Hy]], Hy' as [[<- <-]|[_ Hy']]; [done| | |by eapply (inv_numbers _ HI)].
    + destruct (Hlow _ _ Hy') as [? _]; [done|]. cbn in Hn. lia.
    + destruct (Hlow _ _ Hy) as [? _]; [done|]. cbn in Hn. lia.
  - intros x y n [[<- <-]|[_ Hy]]%lookup_insert_Some Hn.
    + destruct (Hfail n Hn) as (z & w & Hw & Hws & Hwn & _). exists z, w.
      rewrite lookup_insert_ne by congruence. auto.
    + destruct (inv_dense _ HI _ _ _ Hy Hn) as (z & w & Hw & ? & ?). exists z, w.
      rewrite lookup_insert_ne by congruence. auto.
  - intros x x' y y' Hy Hy' Hs Hn Hn'. rewrite lookup_insert_Some in Hy, Hy'.
    destruct Hy as [[<- <-]|[_ Hy]], Hy' as [[<- <-]|[_ Hy']]; [done| | |by eapply (inv_one_open _ HI x x' y y')].
    + by destruct (Hlow _ _ Hy') as [_ ?].
    + by destruct (Hlow _ _ Hy) as [_ ?].
  - intros x y Hy Ha. destruct (inv_archived _ HI _ _ Hy Ha) as (z & w & Hw & ? & ?). exists z, w.
    rewrite lookup_insert_ne by congruence. auto.
  - intros x d v. rewrite seed_votes_lookup. case_decide as E.
    + intros _. destruct E as [-> _]. rewrite lookup_insert_eq. eauto.
    + intros Hv. destruct (inv_vote_fk _ HI _ _ _ Hv) as [y Hy].
      rewrite lookup_insert_ne by congruence. eauto.
  - intros x y [[<- <-]|[Hne Hy]]%lookup_insert_Some.
    + destruct vs as [|c vs'] eqn:Evs; [done|]. exists c. rewrite seed_votes_lookup, decide_True; [eauto|].
      split; [done|apply list_elem_of_here].
    + destruct (inv_roster _ HI _ _ Hy) as [c Hc]. exists c. rewrite seed_votes_lookup.
      rewrite decide_False; [done|]. intros [-> _]. done.
  - intros x d y v [[<- <-]|[Hne Hy]]%lookup_insert_Some Hst; [done|].
    rewrite seed_votes_lookup, decide_False by (intros [-> _]; done). by eapply (inv_unanimous _ HI x d y).
  - intros x y ->. eexists; unfold state_le; repeat split; auto; lia.
  - intros x y Hy. exists y. rewrite lookup_insert_ne by congruence. repeat split; auto.
  - intros x y c Hy _. rewrite seed_votes_lookup, decide_False; [done|]. intros [-> _]. congruence.
  - intros x y c Hy. rewrite seed_votes_lookup, decide_False; [done|]. intros [-> _]. congruence.
Qed.

(** ** The snapshot *)
Lemma all_yes db id c v :
  (Yes (tally db id) =? 0) || (0 <? No (tally db id)) || (0 <? Pending (tally db id)) = false ->
  db_votes db !! (id, c) = Some v -> vr_vote v = Some true.
Proof.
  intros Ht Hv. rewrite !orb_false_iff in Ht. destruct Ht as [[_ Hno] Hpe]. cbn in Hno, Hpe. unfold count_votes in *.
  assert (H1 := count_where_none _ _ _ _ (proj1 (Z.ltb_ge _ _) Hno) Hv).
  assert (H2 := count_where_none _ _ _ _ (proj1 (Z.ltb_ge _ _) Hpe) Hv).
  cbn in H1, H2. rewrite String.eqb_refl in H1, H2. by destruct (vr_vote v) as [[]|].
Qed.

(** Publishing an attempt in cool-off, unanimously voted, and archiving its scene. *)
Lemma keeps_publish db db' id r r' sc sc' :
  Inv db -> db_published db !! id = Some r -> pb_status r = StatusCoolOff ->
  same_attempt r r' -> pub_ok r' -> pub_check r' = true -> pb_status r' = StatusPublished ->
  (forall c v, db_votes db !! (id, c) = Some v -> vr_vote v = Some true) ->
  db_scenes db !! pb_scene_id r = Some sc -> sc' = with_row sc (set_state (sc_row sc) SceneStateArchived) ->
  db_scenes db' = <[pb_scene_id r := sc']> (db_scenes db) -> db_participants db' = db_participants db ->
  db_votes db' = db_votes db -> db_published db' = <[id := r']> (db_published db) ->
  keeps db db'.
Proof.
  intros HI Hr Hst Hs Hok Hck Hst' Hyes Hsc -> E1 E2 E3 E4.
  assert (Ht : IsTerminal (pb_status r) = false) by (by rewrite Hst).
  pose proof (R_pub db db' id r r' Hr Ht Hs E4) as HR.
  assert (Hcl : closed_state (sr_State (sc_row sc))).
  { destruct (inv_pub_scene _ HI _ _ Hr) as (sc0 & ? & ? & _). simplify_eq. done. }
  assert (Hlk : forall x y, db_published db' !! x = Some y -> exists y0, db_published db !! x = Some y0
    /\ same_attempt y0 y /\ pub_ok y /\ (x = id \/ y = y0 /\ x <> id)
    /\ (pb_status y <> StatusAttemptFailed -> pb_status y0 <> StatusAttemptFailed)).
  { intros x y. rewrite E4, lookup_insert_Some. intros [[<- <-]|[? Hy]].
    - exists r. split_and!; auto. by rewrite Hst.
    - exists y. split_and!; auto; try done. by apply (inv_pub _ HI x). }
  assert (Hsd : forall x y, db_scenes db' !! x = Some y -> exists y0, db_scenes db !! x = Some y0
    /\ sr_OwnerID (sc_row y) = sr_OwnerID (sc_row y0) /\ scene_ok x y
    /\ (x = pb_scene_id r \/ y = y0)).
  { intros x y. rewrite E1, lookup_insert_Some. intros [[<- <-]|[? Hy]].
    - exists sc. split_and!; auto. destruct (inv_scenes _ HI _ _ Hsc) as (? & ? & ? & ? & ?). done.
    - exists y. split_and!; auto. by apply (inv_scenes _ HI). }
  assert (Hsu : forall x y, db_scenes db !! x = Some y -> exists y', db_scenes db' !! x = Some y'
    /\ state_le (sr_State (sc_row y)) (sr_State (sc_row y'))
    /\ sc_max_publish_attempts y' = sc_max_publish_attempts y
    /\ sc_total_pose_count y' = sc_total_pose_count y
    /\ (x = pb_scene_id r -> sr_State (sc_row y') = SceneStateArchived)
    /\ (closed_state (sr_State (sc_row y)) -> closed_state (sr_State (sc_row y')))).
  { intros x y Hy. rewrite E1. destruct (decide (x = pb_scene_id r)) as [->|Hne].
    - simplify_eq. eexists. rewrite lookup_insert_eq. split; [done|]. cbn. unfold state_le, closed_state in *.
      split_and!; auto. destruct Hcl as [-> | ->]; auto.
    - exists y. rewrite lookup_insert_ne by done. unfold state_le. split_and!; auto. done. }
  destruct (numbering_same (db_published db) (db_published db') (db_votes db)) as (N1 & N2 & N3 & N4 & N5);
    [naive_solver|naive_solver|by apply Inv_numbering|].
  split; [split; rewrite ?E2, ?E3; try apply HI; try done|split; rewrite ?E3; try done].
  - intros x y Hy. by apply Hsd in Hy as (? & ? & ? & ? & ?).
  - intros x c p Hp. destruct (inv_part _ HI _ _ _ Hp) as (y & Hy & Hpo).
    destruct (Hsu _ _ Hy) as (y' & Hy' & _ & _ & Ht' & _). exists y'. by rewrite Ht'.
  - intros x y Hy. destruct (Hsd _ _ Hy) as (y0 & Hy0 & -> & _). by apply (inv_owner _ HI).
  - intros x c y p Hy. destruct (Hsd _ _ Hy) as (y0 & Hy0 & -> & _). by apply (inv_one_owner _ HI).
  - intros x y Hy. by destruct (Hlk _ _ Hy) as (? & ? & ? & ? & ?).
  - intros x y. rewrite E4, lookup_insert_Some. intros [[_ <-]|[_ Hy]]; [done|by eapply (inv_check _ HI)].
  - intros x y Hy. destruct (Hlk _ _ Hy) as (y0 & Hy0 & (-> & -> & _) & _ & Hor & _).
    destruct (inv_pub_scene _ HI _ _ Hy0) as (s & Hs1 & Hs2 & Hs3 & Hs4).
    destruct (Hsu _ _ Hs1) as (s' & Hs' & Hle & Hmax & _ & Harch & Hcl'). exists s'. rewrite Hmax. split_and!; auto; [lia..|].
    intros Hpub. destruct Hor as [->|[-> _]]; [|by apply (closed_le _ _ Hs2 Hle), Hs4]. apply Harch. congruence.
  - intros x y Hy Ha. destruct (Hsd _ _ Hy) as (y0 & Hy0 & _ & _ & [->| ->]).
    + exists id, r'. rewrite E4, lookup_insert_eq. destruct Hs as [-> _]. done.
    + destruct (inv_archived _ HI _ _ Hy0 Ha) as (z & w & Hw & Hsid & Hws).
      destruct (HR _ _ Hw) as (w' & Hw' & _ & Hfr). rewrite Hws in Hfr. rewrite (Hfr eq_refl) in Hw'. eauto.
  - intros x d y v Hy Hys Hv. destruct (Hlk _ _ Hy) as (y0 & Hy0 & _ & _ & [->|[-> _]] & _); [eauto|].
    by eapply (inv_unanimous _ HI x d y0).
  - intros x y Hy. destruct (Hsu _ _ Hy) as (y' & ? & ? & ? & ? & _). exists y'. split_and!; auto; lia.
  - intros x y Hy. destruct (HR _ _ Hy) as (y' & ? & (? & ? & ? & ? & ? & ?) & ?). exists y'. auto 10.
Qed.

(** An attempt and the scene it belongs to. *)
Definition attempt_of (db : DB) (id sceneID : string) : Prop :=
  exists r, db_published db !! id = Some r /\ pb_scene_id r = sceneID.

Lemma attempt_of_stable db db' id s : R db db' -> attempt_of db id s -> attempt_of db' id s.
Proof.
  intros HR (r & Hr & Hs). destruct (r_pub _ _ HR _ _ Hr) as (r' & Hr' & ? & _). exists r'. split; congruence.
Qed.

Lemma keeps_FailAttemptTx ck id reason db a db' :
  Inv db -> FailAttemptTx ck id reason db = (Ok a, db') -> keeps db db'.
Proof.
  intros HI H. unfold FailAttemptTx in H. apply txn_bind_Ok in H as (? & ? & [= <- <-] & H).
  destruct (db_published db !! id) as [r|] eqn:Hr; [|done].
  case_bool_decide as Hst; [|done]. apply put_pub_Ok in H as (_ & Hck & ->).
  pose proof (inv_pub _ HI _ _ Hr) as Hok. unfold pub_ok in Hok. rewrite Hst in Hok.
  eapply (keeps_pub db _ id r (failed_row (ck_go ck) reason r)); try done; [by rewrite Hst|].
  unfold pub_ok. cbn. naive_solver.
Qed.

Lemma keeps_SnapshotTx ck id s es f db :
  Inv db -> attempt_of db id s -> keeps db (run_call ck (SSnapshotTx id s es f) db).2.
Proof.
  intros HI (r & Hr & Hs). cbn [run_call]. unfold snapshot_tx. apply keeps_atomically; [done|].
  intros o db' H. unfold LockForSnapshot, mbind at 1, txn_bind at 1, read at 1 in H. cbn [fst snd] in H.
  rewrite Hr in H. case_bool_decide as Hst; cbn in H; [|injection H as <- <-; by apply keeps_refl].
  unfold mret at 1, txn_ret at 1 in H. apply txn_bind_Ok in H as (t & db1 & [= <- <-] & H).
  change (ps_ID (header_of id r)) with id in H.
  destruct (_ || _) eqn:Ht.
  - apply txn_bind_Ok in H as (? & ? & H & [= _ <-]). by eapply keeps_FailAttemptTx.
  - destruct f as [reason|].
    + apply txn_bind_Ok in H as (? & ? & H & [= _ <-]). by eapply keeps_FailAttemptTx.
    + apply txn_bind_Ok in H as (m & ? & [= <- <-] & H). apply txn_bind_Ok in H as (? & db2 & Hm & H).
      unfold MarkPublished in Hm. apply txn_bind_Ok in Hm as (? & ? & [= <- <-] & Hm). rewrite Hr in Hm.
      rewrite bool_decide_true in Hm by done. apply put_pub_Ok in Hm as (_ & Hck & ->).
      destruct (inv_pub_scene _ HI _ _ Hr) as (sc & Hsc & _). rewrite Hs in Hsc.
      unfold ArchiveSceneStateForPublish in H. tx_steps; cbn in *; simplify_eq.
      pose proof (inv_pub _ HI _ _ Hr) as Hok. unfold pub_ok in Hok. rewrite Hst in Hok.
      eapply (keeps_publish db _ id r (published_row _ r)); try done.
      { unfold pub_ok. cbn. naive_solver. }
      intros c v. by apply all_yes.
Qed.
