(* ===== verification/SceneWorld.v ===== *)
(** The scenes plugin at work: any number of requests and scheduler sweeps, their
    calls interleaved in any order, each under any environment (clock, database
    faults, answers of the host).

    [wp] is a rely-guarantee logic for one handler: between any two of its calls
    the tables may take any number of [R]-steps.  Every handler is shown [safe] in
    it, so that the invariant [Inv] holds of every reachable world.

    At the end a run, from the empty tables to a published scene: two characters
    write a scene, end it and vote for its publication, and the scheduler publishes
    it. *)

From S2P Require Import Prelude GoStrings Sql SceneTypes SceneStore ScenePublishStore SceneProg SceneService ScenePublish SceneInv ScenePubInv.

Open Scope Z_scope.
Open Scope prog_scope.

(** ** Reasoning about one handler among others *)
Fixpoint wp {B} (p : prog B) (Q : DB -> B -> Prop) (db : DB) : Prop :=
  match p with
  | Done b => Q db b
  | Store c k => forall db1 en, R db db1 -> Inv db1 ->
      keeps db1 (exec_store en c db1).2 /\ wp (k (exec_store en c db1).1) Q (exec_store en c db1).2
  | Host c k => forall a, wp (k a) Q db
  end.

Definition safe {B} (db : DB) (p : prog B) : Prop := wp p (fun _ _ => True) db.

Lemma wp_rely {B} (p : prog B) (Q : DB -> B -> Prop) db db' :
  (forall d d' b, R d d' -> Q d b -> Q d' b) -> R db db' -> wp p Q db -> wp p Q db'.
Proof.
  intros HQ. revert db db'. induction p as [b|A c k IH|A c k IH]; intros db db' HR; cbn.
  - by apply HQ.
  - intros H db1 en HR1 HI. apply H; [|done]. by transitivity db'.
  - intros H a. eapply IH; eauto.
Qed.

Lemma safe_rely {B} (p : prog B) db db' : R db db' -> safe db p -> safe db' p.
Proof. apply wp_rely. done. Qed.

Lemma wp_bind {A B} (p : prog A) (f : A -> prog B) Q db :
  wp p (fun db a => wp (f a) Q db) db -> wp (p ≫= f) Q db.
Proof.
  unfold mbind, prog_mbind. revert db. induction p as [b|A' c k IH|A' c k IH]; intros db; cbn; [done| |].
  - intros H db1 en HR HI. destruct (H db1 en HR HI) as [? ?]. auto.
  - auto.
Qed.

Lemma wp_mono {B} (p : prog B) (Q Q' : DB -> B -> Prop) db :
  (forall d b, Q d b -> Q' d b) -> wp p Q db -> wp p Q' db.
Proof.
  intros HQ. revert db. induction p as [b|A' c k IH|A' c k IH]; intros db; cbn; [auto| |auto].
  intros H db1 en HR HI. destruct (H db1 en HR HI) as [? ?]. auto.
Qed.

(** A fault changes the answer of a call or suppresses it, not its effect. *)
Lemma exec_store_keeps en {A} (c : store_call A) db :
  Inv db -> (forall ck, keeps db (run_call ck c db).2) -> keeps db (exec_store en c db).2.
Proof. intros HI H. unfold exec_store. destruct (en_fault en); cbn; auto using keeps_refl. Qed.

Lemma exec_store_Ok en {A} (c : store_call A) db a db' :
  exec_store en c db = (Ok a, db') -> run_call (en_clock en) c db = (Ok a, db').
Proof. unfold exec_store. by destruct (en_fault en). Qed.

(** ** Handlers all of whose calls are good whatever was read *)
Fixpoint tame {B} (p : prog B) : Prop :=
  match p with
  | Done _ => True
  | Store c k => good c /\ forall r, tame (k r)
  | Host c k => forall a, tame (k a)
  end.

Lemma tame_safe {B} (p : prog B) db : tame p -> safe db p.
Proof.
  unfold safe. revert db. induction p as [b|A' c k IH|A' c k IH]; intros db; cbn; [done| |auto].
  intros [Hg Hk] db1 en HR HI. split; [|by apply IH]. apply exec_store_keeps; [done|]. intros ck. by apply Hg.
Qed.

Lemma tame_bind {A B} (p : prog A) (f : A -> prog B) : tame p -> (forall a, tame (f a)) -> tame (p ≫= f).
Proof. unfold mbind, prog_mbind. intros Hp Hf. induction p; cbn in *; naive_solver. Qed.

Lemma tame_try {A B} (m : prog (result A)) (h : error -> prog B) k :
  tame m -> (forall e, tame (h e)) -> (forall a, tame (k a)) -> tame (try_ m h k).
Proof. intros. apply tame_bind; [done|]. by intros []. Qed.

Lemma tame_forM {A} (l : list A) f : (forall a, a ∈ l -> tame (f a)) -> tame (forM_ l f).
Proof.
  induction l as [|a l IH]; intros Hf; cbn; [done|]. apply tame_bind; [apply Hf, list_elem_of_here|].
  intros _. apply IH. intros x Hx. apply Hf. by apply list_elem_of_further.
Qed.

Lemma tame_call {A} (c : store_call A) : good c -> tame (call c).
Proof. done. Qed.

Lemma tame_host {A} (c : host_call A) : tame (host c).
Proof. done. Qed.

Create HintDb tame.
#[export] Hint Resolve good_Get good_GetWithMembership good_GetWithMembershipAndObservers good_GetParticipant
  good_IsMember good_IsParticipant good_ListPoseMeta good_ListBoard good_ListCharacterScenes good_GetNotify
  good_ListMuted good_ListIdle good_ListVoters good_Tally good_Header good_Content good_Count good_GetMax
  good_ListAttempts good_ListPublished good_ReadSnapshot good_ReadExport good_ExpiredCollecting
  good_ExpiredCoolOff good_QueryLog good_End good_Pause good_Resume good_Update good_AddParticipant
  good_AddObserver good_RemoveParticipant good_KickParticipant good_InviteParticipant good_TransferOwnership
  good_SetMute good_SetNotify good_AuditInsert good_InsertScenePose good_CastVote : tame.

Ltac tame_step :=
  match goal with
  | |- tame (Done _) => exact I
  | |- tame (fails _) => exact I
  | |- tame (mapped _) => exact I
  | |- tame (internal _) => exact I
  | |- tame (transition_status _ _) => exact I
  | |- tame publicArchiveNotFound => exact I
  | |- tame blocked => exact I
  | |- tame (audit_error _ _) => exact I
  | |- tame (call _) => apply tame_call
  | |- tame (host _) => apply tame_host
  | |- tame (mbind _ _) => apply tame_bind; [|intros ?]
  | |- tame (try_ _ _ _) => apply tame_try; [|intros ?|intros ?]
  | |- tame (forM_ _ _) => apply tame_forM; intros ? ?
  | |- tame (match ?x with _ => _ end) => destruct x eqn:?
  | |- tame (let _ := _ in _) => cbv zeta
  | |- good _ => solve [eauto with tame]
  | |- tame _ => solve [eauto with tame]
  end.
Ltac solve_tame := repeat (cbn beta; tame_step).

(** ** The scene service *)
Section Service.
Context (s : Svc).

Lemma tame_notice i : tame (notice s i).
Proof. unfold notice. solve_tame. Qed.
Hint Resolve tame_notice : tame.

Lemma tame_gate {A} action sceneID denied (k : prog (rpc A)) : tame k -> tame (gate s action sceneID denied k).
Proof. intros. unfold gate. solve_tame. Qed.

Lemma tame_gated {A} ctx action c sceneID m d (k : prog (rpc A)) : tame k -> tame (gated s ctx action c sceneID m d k).
Proof. intros. unfold gated. destruct (mismatchedActingCharacter _ _); [done|by apply tame_gate]. Qed.

Lemma tame_validate cws : tame (validateContentWarnings s cws).
Proof. unfold validateContentWarnings, effectiveTaxonomy. solve_tame. Qed.
Hint Resolve tame_validate : tame.

Lemma tame_CreateScene ctx req : tame (CreateScene s ctx req).
Proof. unfold CreateScene. solve_tame. by apply good_CreateWithOwner. Qed.

Lemma tame_GetScene i c : tame (GetScene i c).
Proof. unfold GetScene. solve_tame. Qed.

Lemma tame_ListScenes req : tame (ListScenes s req).
Proof. unfold ListScenes, resolveBlockedCW, cw_block. solve_tame. Qed.

Lemma tame_ListCharacterScenes c : tame (ListCharacterScenes_rpc s c).
Proof. unfold ListCharacterScenes_rpc. solve_tame. Qed.

Lemma tame_EndScene ctx c i : tame (EndScene s ctx c i).
Proof. apply tame_gated. solve_tame. Qed.

Lemma tame_PauseScene ctx c i : tame (PauseScene s ctx c i).
Proof. apply tame_gated. solve_tame. Qed.

Lemma tame_ResumeScene ctx c i : tame (ResumeScene s ctx c i).
Proof. apply tame_gated. solve_tame. Qed.

Lemma tame_MuteScene ctx c i m : tame (MuteScene s ctx c i m).
Proof. apply tame_gated. solve_tame. Qed.

Lemma tame_SetSceneNotifyPref ctx c e : tame (SetSceneNotifyPref_rpc ctx c e).
Proof. unfold SetSceneNotifyPref_rpc. solve_tame. Qed.

Lemma tame_GetSceneNotifyPref ctx c : tame (GetSceneNotifyPref_rpc ctx c).
Proof. unfold GetSceneNotifyPref_rpc. solve_tame. Qed.

Lemma tame_ListMutedScenes ctx c : tame (ListMutedScenes_rpc ctx c).
Proof. unfold ListMutedScenes_rpc. solve_tame. Qed.

Lemma tame_UpdateScene ctx req : tame (UpdateScene s ctx req).
Proof. apply tame_gated. unfold emitScenePoseOrderChangedIC. solve_tame. Qed.

Lemma tame_JoinScene ctx c i : tame (JoinScene s ctx c i).
Proof. unfold JoinScene, emitSceneJoinIC. solve_tame. Qed.

Lemma tame_WatchScene ctx c i se : tame (WatchScene s ctx c i se).
Proof. unfold WatchScene. repeat (cbn beta; first [apply tame_gate|tame_step]). Qed.

Lemma tame_LeaveScene ctx c i : tame (LeaveScene s ctx c i).
Proof. apply tame_gated. unfold emitSceneLeaveIC. solve_tame. Qed.

Lemma tame_InviteToScene ctx c i t : tame (InviteToScene s ctx c i t).
Proof. apply tame_gated. solve_tame. Qed.

Lemma tame_KickFromScene ctx c i t : tame (KickFromScene s ctx c i t).
Proof. apply tame_gated. unfold emitSceneLeaveIC. solve_tame. Qed.

Lemma tame_TransferOwnership ctx c i n : tame (TransferOwnership_rpc s ctx c i n).
Proof. apply tame_gated. solve_tame. Qed.

Lemma tame_GetPoseOrder c i : tame (GetPoseOrder c i).
Proof. unfold GetPoseOrder. solve_tame. Qed.

Lemma tame_ResolveResource t i : tame (ResolveResource t i).
Proof. unfold ResolveResource. solve_tame. Qed.

Lemma tame_idle_sweep d n : tame (idle_sweep s d n).
Proof. unfold idle_sweep, idle_pause. solve_tame. Qed.

(** ** Publication *)
Lemma tame_notify a t p : tame (notify s a t p).
Proof. unfold notify. solve_tame. Qed.
Hint Resolve tame_notify : tame.

Lemma tame_emitPublishStarted p : tame (emitPublishStarted s p).
Proof. unfold emitPublishStarted. solve_tame. Qed.

Lemma tame_emitCoolOffStarted a w : tame (emitCoolOffStarted s a w).
Proof. unfold emitCoolOffStarted. solve_tame. Qed.

Lemma tame_emitResolved a f r t : tame (emitResolved s a f r t).
Proof. apply tame_notify. Qed.

Lemma tame_emitVoteCast a c r : tame (emitVoteCast s a c r).
Proof. apply tame_notify. Qed.

Lemma tame_emitWithdrawn a c : tame (emitWithdrawn s a c).
Proof. apply tame_notify. Qed.
Hint Resolve tame_emitPublishStarted tame_emitCoolOffStarted tame_emitResolved tame_emitVoteCast
  tame_emitWithdrawn : tame.

(** Only the snapshot leaves cool-off for published. *)
Lemma tame_applyTrigger a t : t <> TriggerCoolOffElapsed -> tame (applyTrigger s a t).
Proof.
  intros Ht. unfold applyTrigger. solve_tame.
  by eapply good_TransitionStatus, transition_for_ok.
Qed.
Hint Resolve tame_applyTrigger : tame.

Lemma ResolveFromTally_not_elapsed t trig : ResolveFromTally t = Some trig -> trig <> TriggerCoolOffElapsed.
Proof. unfold ResolveFromTally. repeat case_match; congruence. Qed.
Hint Resolve ResolveFromTally_not_elapsed : tame.

Lemma tame_applyResolution p : tame (applyResolution s p).
Proof. unfold applyResolution. solve_tame. Qed.
Hint Resolve tame_applyResolution : tame.

Lemma tame_CastPublishSceneVote c a v : tame (CastPublishSceneVote s c a v).
Proof. unfold CastPublishSceneVote. solve_tame. Qed.

Lemma tame_WithdrawScenePublish c a : tame (WithdrawScenePublish s c a).
Proof. unfold WithdrawScenePublish. solve_tame. Qed.

Lemma tame_ExtendScenePublishVoteAttempts c i n : tame (ExtendScenePublishVoteAttempts s c i n).
Proof.
  unfold ExtendScenePublishVoteAttempts, emitAttemptsExtended. solve_tame. apply good_Extend. lia.
Qed.

Lemma tame_GetPublishedScene c a : tame (GetPublishedScene s c a).
Proof. unfold GetPublishedScene. solve_tame. Qed.

Lemma tame_DownloadPublishedScene c a f : tame (DownloadPublishedScene s c a f).
Proof. unfold DownloadPublishedScene. solve_tame. Qed.

Lemma tame_GetPublicSceneArchive a : tame (GetPublicSceneArchive a).
Proof. unfold GetPublicSceneArchive. solve_tame. Qed.

Lemma tame_DownloadPublicSceneArchive a f : tame (DownloadPublicSceneArchive a f).
Proof. unfold DownloadPublicSceneArchive. solve_tame. Qed.

Lemma tame_ListPublishedScenes l o t : tame (ListPublishedScenes_rpc l o t).
Proof. unfold ListPublishedScenes_rpc. solve_tame. Qed.

Lemma tame_ListScenePublishAttempts c i : tame (ListScenePublishAttempts s c i).
Proof. unfold ListScenePublishAttempts. solve_tame. Qed.

Lemma tame_decryptAndRender su rows : tame (decryptAndRender s su rows).
Proof.
  unfold decryptAndRender. generalize (chunks (length rows) snapshotDecryptBatch rows) as cs.
  generalize (@nil PublishedSceneEntry) as es. intros es cs. revert es.
  induction cs; intros es; cbn [decrypt_loop]; solve_tame.
Qed.
Hint Resolve tame_decryptAndRender : tame.

Lemma tame_ExportSceneLog i c f : tame (ExportSceneLog s i c f).
Proof. unfold ExportSceneLog, exportDecryptRows. solve_tame. Qed.

Lemma tame_AuditEvent row : tame (AuditEvent s row).
Proof. unfold AuditEvent. solve_tame. Qed.

Lemma tame_send_rows rows : tame (send_rows rows).
Proof. induction rows; cbn [send_rows]; solve_tame. Qed.
Hint Resolve tame_send_rows : tame.

Lemma tame_QueryHistory m req : tame (QueryHistory s m req).
Proof. unfold QueryHistory. solve_tame. Qed.
End Service.

(** ** Handlers whose writes depend on what they read *)
Lemma wp_try_call {A B} (c : store_call A) (h : error -> prog B) k Q db :
  (forall ck db1, R db db1 -> Inv db1 -> keeps db1 (run_call ck c db1).2) ->
  (forall e db1, R db db1 -> wp (h e) Q db1) ->
  (forall ck db1 a db2, R db db1 -> Inv db1 -> run_call ck c db1 = (Ok a, db2) -> keeps db1 db2 ->
     wp (k a) Q db2) ->
  wp (try_ (call c) h k) Q db.
Proof.
  intros Hc Hh Hk. apply wp_bind. cbn. intros db1 en HR HI.
  pose proof (exec_store_keeps en c db1 HI (fun ck => Hc ck db1 HR HI)) as Hkeep. split; [done|].
  destruct (exec_store en c db1) as [[a|e] db2] eqn:E; cbn in *.
  - eapply Hk; eauto using exec_store_Ok.
  - apply Hh. transitivity db1; [done|apply Hkeep].
Qed.

Lemma safe_bind {A B} (p : prog A) (f : A -> prog B) db :
  safe db p -> (forall a db', safe db' (f a)) -> safe db (p ≫= f).
Proof. intros Hp Hf. apply wp_bind. eapply wp_mono; [|exact Hp]. intros d a _. apply Hf. Qed.

(** The tables a handler ends with are reached by steps. *)
Lemma wp_reached {B} (p : prog B) db : safe db p -> wp p (fun d _ => R db d) db.
Proof.
  unfold safe. assert (H : forall db0, R db0 db -> wp p (fun _ _ => True) db -> wp p (fun d _ => R db0 d) db).
  { induction p as [b|A' c k IH|A' c k IH] in db |- *; intros db0 HR0; cbn; [done| |auto].
    intros H db1 en HR HI. destruct (H db1 en HR HI) as [Hk Hw]. split; [done|]. apply IH; [|done].
    transitivity db; [done|]. transitivity db1; [done|apply Hk]. }
  by apply H.
Qed.

Lemma safe_forM {A} (l : list A) f db :
  (forall a db', a ∈ l -> R db db' -> safe db' (f a)) -> safe db (forM_ l f).
Proof.
  induction l as [|a l IH] in db |- *; intros Hf; cbn; [done|].
  apply wp_bind.
  assert (H : wp (f a) (fun d _ => R db d) db).
  { apply wp_reached. apply Hf; [apply list_elem_of_here|reflexivity]. }
  eapply wp_mono; [|exact H]. intros d b HR. cbn beta in HR. apply IH. intros x d' Hx HR'.
  apply Hf; [by apply list_elem_of_further|by transitivity d].
Qed.

(** Chains the steps in the context. *)
Ltac r_chain := repeat (etransitivity; [eassumption|]); reflexivity.

Section Publication.
Context (s : Svc).

Lemma safe_StartScenePublish c sceneID db : safe db (StartScenePublish s c sceneID).
Proof.
  unfold StartScenePublish, safe. destruct (parseCallerCharacterID s c) as [caller|e]; [|done].
  apply wp_try_call; [intros; by apply good_Get|done|]. intros ? db1 scene db1' _ HI1 Hget [_ HR1].
  apply wp_try_call; [intros; by apply good_IsParticipant|done|]. intros ? db2 isP db2' HR1' _ _ [_ HR2].
  destruct (negb isP); [done|]. case_bool_decide as Hend; [|done]. cbn [negb].
  apply wp_try_call; [intros; by apply good_Count|done|]. intros ? db3 counts db3' HR2' HI3 Hcnt [_ HR3].
  destruct (0 <? ac_Published counts) eqn:Hp; [done|]. destruct (0 <? ac_Active counts) eqn:Ha; [done|].
  apply wp_try_call; [intros; by apply good_GetMax|done|]. intros ? db4 mx db4' HR3' HI4 Hmax [_ HR4].
  destruct (mx <=? ac_Total counts) eqn:Hlim; [done|].
  injection Hcnt as <- <-. apply Z.ltb_ge in Hp, Ha. apply Z.leb_gt in Hlim.
  pose proof (counts_lower_failed db3 sceneID HI3 Hp Ha) as Hlow.
  assert (Hb : in_budget db4' sceneID (ac_Total (attempt_counts db3 sceneID) + 1)).
  { apply (in_budget_stable db4); [done|].
    cbn in Hget. unfold Get in Hget. tx_steps. cbn in Hmax. unfold GetSceneMaxPublishAttempts in Hmax. tx_steps.
    eexists. split; [done|]. assert (HR : R db1 db4) by r_chain.
    destruct (r_scene _ _ HR _ _ Heqo) as (r' & ? & Hle & _). simplify_eq. split.
    - eapply closed_le; [|done]. left. done.
    - cbn in *. unfold count_where in *. lia. }
  apply wp_try_call; [|done|].
  - intros ? db5 HR5 HI5. apply keeps_CreatePublishAttempt; [done| |].
    + by eapply in_budget_stable.
    + eapply lower_failed_stable; [|done]. r_chain.
  - intros ? ? pub db5' _ _ _ _. apply safe_bind; [|done]. by apply tame_safe, tame_emitPublishStarted.
Qed.

Lemma safe_runSnapshot a sceneID su db : attempt_of db a sceneID -> safe db (runSnapshot s a sceneID su).
Proof.
  intros Ha. unfold runSnapshot, safe. destruct (negb (sv_has_decryptor s)); [done|].
  apply wp_try_call; [intros; by apply good_ReadSnapshot|done|]. intros ? db1 rows db1' HR1 _ _ [_ HR1'].
  apply wp_bind. eapply wp_mono; [|apply wp_reached, tame_safe, tame_decryptAndRender].
  intros db2 d HR2. cbn beta in HR2. cbv zeta. apply wp_try_call; [|done|].
  - intros ? db3 HR3 HI3. apply keeps_SnapshotTx; [done|]. eapply attempt_of_stable; [|done].
    r_chain.
  - intros ? ? [] db3' _ _ _ _; [done| |]; (apply safe_bind; [|done]); apply tame_safe, tame_emitResolved.
Qed.

Lemma expired_attempts dl code st now db l db' :
  expired dl code st now db = (Ok l, db') ->
  forall a, a ∈ l -> attempt_of db (sa_ID a) (sa_SceneID a).
Proof.
  unfold expired. intros H. tx_steps. intros a Ha. apply list_elem_of_omap in Ha as ([k r] & Hin & Hd).
  apply rows_where_elem in Hin as [Hr _]. cbn in Hd. destruct (dl r) as [d|]; [|done]. cbn in Hd.
  case_match; simplify_eq. by exists r.
Qed.

Lemma safe_sweep db : safe db (sweep s).
Proof.
  unfold sweep, safe. apply wp_bind. intros now. cbn [wp].
  apply wp_try_call; [intros; by apply good_ExpiredCollecting|done|]. intros ? db1 col db1' _ _ _ _.
  apply safe_bind.
  { apply safe_forM. intros a db' _ _. apply tame_safe. unfold sweep_timeout. apply tame_bind; [|done].
    by apply tame_applyTrigger. }
  intros ? db2. apply wp_try_call; [intros; by apply good_ExpiredCoolOff|done|].
  intros ? db3 coo db3' _ _ Hexp [_ HR3]. apply safe_bind; [|done].
  apply safe_forM. intros x db4 Ha HR4. unfold sweep_snapshot. apply safe_bind; [|done].
  apply safe_runSnapshot. eapply attempt_of_stable; [|by eapply expired_attempts].
  by transitivity db3'.
Qed.
End Publication.

(** ** Worlds *)

(** What reaches the plugin: its RPCs, the audit RPCs, the attribute resolver and
    the ticks of its two schedulers. *)
Inductive request : Type :=
| RqCreateScene (ctx : Ctx) (req : CreateSceneRequest)
| RqGetScene (sceneID characterID : string)
| RqListScenes (req : ListScenesRequest)
| RqListCharacterScenes (characterID : string)
| RqEndScene (ctx : Ctx) (characterID sceneID : string)
| RqPauseScene (ctx : Ctx) (characterID sceneID : string)
| RqResumeScene (ctx : Ctx) (characterID sceneID : string)
| RqMuteScene (ctx : Ctx) (characterID sceneID : string) (muted : bool)
| RqSetSceneNotifyPref (ctx : Ctx) (characterID : string) (enabled : bool)
| RqGetSceneNotifyPref (ctx : Ctx) (characterID : string)
| RqListMutedScenes (ctx : Ctx) (characterID : string)
| RqUpdateScene (ctx : Ctx) (req : UpdateSceneRequest)
| RqJoinScene (ctx : Ctx) (characterID sceneID : string)
| RqWatchScene (ctx : Ctx) (characterID sceneID sessionID : string)
| RqLeaveScene (ctx : Ctx) (characterID sceneID : string)
| RqInviteToScene (ctx : Ctx) (characterID sceneID targetID : string)
| RqKickFromScene (ctx : Ctx) (characterID sceneID targetID : string)
| RqTransferOwnership (ctx : Ctx) (characterID sceneID newOwnerID : string)
| RqGetPoseOrder (characterID sceneID : string)
| RqStartScenePublish (callerID sceneID : string)
| RqCastPublishSceneVote (callerID attemptID : string) (vote : bool)
| RqWithdrawScenePublish (callerID attemptID : string)
| RqExtendScenePublishVoteAttempts (callerID sceneID : string) (additional : Z)
| RqGetPublishedScene (callerID attemptID : string)
| RqDownloadPublishedScene (callerID attemptID format : string)
| RqGetPublicSceneArchive (attemptID : string)
| RqDownloadPublicSceneArchive (attemptID format : string)
| RqListPublishedScenes (limit offset : Z) (tags : list string)
| RqListScenePublishAttempts (callerID sceneID : string)
| RqExportSceneLog (sceneID characterID format : string)
| RqAuditEvent (row : option AuditRow)
| RqQueryHistory (has_members : bool) (req : QueryHistoryRequest)
| RqResolveResource (resourceType resourceID : string)
| RqPublishTick
| RqIdleTick (dflt : Z) (nudge : bool).

Inductive thread : Type := | Thread {B : Type} (p : prog B).

Definition handle (s : Svc) (rq : request) : thread :=
  match rq with
  | RqCreateScene ctx req => Thread (CreateScene s ctx req)
  | RqGetScene i c => Thread (GetScene i c)
  | RqListScenes req => Thread (ListScenes s req)
  | RqListCharacterScenes c => Thread (ListCharacterScenes_rpc s c)
  | RqEndScene ctx c i => Thread (EndScene s ctx c i)
  | RqPauseScene ctx c i => Thread (PauseScene s ctx c i)
  | RqResumeScene ctx c i => Thread (ResumeScene s ctx c i)
  | RqMuteScene ctx c i m => Thread (MuteScene s ctx c i m)
  | RqSetSceneNotifyPref ctx c e => Thread (SetSceneNotifyPref_rpc ctx c e)
  | RqGetSceneNotifyPref ctx c => Thread (GetSceneNotifyPref_rpc ctx c)
  | RqListMutedScenes ctx c => Thread (ListMutedScenes_rpc ctx c)
  | RqUpdateScene ctx req => Thread (UpdateScene s ctx req)
  | RqJoinScene ctx c i => Thread (JoinScene s ctx c i)
  | RqWatchScene ctx c i se => Thread (WatchScene s ctx c i se)
  | RqLeaveScene ctx c i => Thread (LeaveScene s ctx c i)
  | RqInviteToScene ctx c i t => Thread (InviteToScene s ctx c i t)
  | RqKickFromScene ctx c i t => Thread (KickFromScene s ctx c i t)
  | RqTransferOwnership ctx c i n => Thread (TransferOwnership_rpc s ctx c i n)
  | RqGetPoseOrder c i => Thread (GetPoseOrder c i)
  | RqStartScenePublish c i => Thread (StartScenePublish s c i)
  | RqCastPublishSceneVote c a v => Thread (CastPublishSceneVote s c a v)
  | RqWithdrawScenePublish c a => Thread (WithdrawScenePublish s c a)
  | RqExtendScenePublishVoteAttempts c i n => Thread (ExtendScenePublishVoteAttempts s c i n)
  | RqGetPublishedScene c a => Thread (GetPublishedScene s c a)
  | RqDownloadPublishedScene c a f => Thread (DownloadPublishedScene s c a f)
  | RqGetPublicSceneArchive a => Thread (GetPublicSceneArchive a)
  | RqDownloadPublicSceneArchive a f => Thread (DownloadPublicSceneArchive a f)
  | RqListPublishedScenes l o t => Thread (ListPublishedScenes_rpc l o t)
  | RqListScenePublishAttempts c i => Thread (ListScenePublishAttempts s c i)
  | RqExportSceneLog i c f => Thread (ExportSceneLog s i c f)
  | RqAuditEvent row => Thread (AuditEvent s row)
  | RqQueryHistory m req => Thread (QueryHistory s m req)
  | RqResolveResource t i => Thread (ResolveResource t i)
  | RqPublishTick => Thread (sweep s)
  | RqIdleTick d n => Thread (idle_sweep s d n)
  end.

Record world : Type := mkWorld { w_db : DB; w_threads : list thread }.

Definition init_world : world := mkWorld empty_db [].

(** A request arrives, or a handler makes its next call. *)
Inductive step (w : world) : world -> Prop :=
| step_arrive s rq : step w (mkWorld (w_db w) (w_threads w ++ [handle s rq]))
| step_call i B (p : prog B) en :
    w_threads w !! i = Some (Thread p) ->
    step w (mkWorld (step_prog en p (w_db w)).2 (<[i := Thread (step_prog en p (w_db w)).1]> (w_threads w))).

Definition steps : relation world := rtc step.
Definition reachable (w : world) : Prop := steps init_world w.

Definition thread_safe (db : DB) (t : thread) : Prop := match t with Thread p => safe db p end.

Lemma handle_safe s rq db : thread_safe db (handle s rq).
Proof.
  destruct rq; cbn [handle thread_safe];
    first [apply safe_StartScenePublish | apply safe_sweep | apply tame_safe];
    auto using tame_CreateScene, tame_GetScene, tame_ListScenes, tame_ListCharacterScenes, tame_EndScene,
      tame_PauseScene, tame_ResumeScene, tame_MuteScene, tame_SetSceneNotifyPref, tame_GetSceneNotifyPref,
      tame_ListMutedScenes, tame_UpdateScene, tame_JoinScene, tame_WatchScene, tame_LeaveScene,
      tame_InviteToScene, tame_KickFromScene, tame_TransferOwnership, tame_GetPoseOrder,
      tame_CastPublishSceneVote, tame_WithdrawScenePublish, tame_ExtendScenePublishVoteAttempts,
      tame_GetPublishedScene, tame_DownloadPublishedScene, tame_GetPublicSceneArchive,
      tame_DownloadPublicSceneArchive, tame_ListPublishedScenes, tame_ListScenePublishAttempts,
      tame_ExportSceneLog, tame_AuditEvent, tame_QueryHistory, tame_ResolveResource, tame_idle_sweep.
Qed.

(** One call of a safe handler. *)
Lemma safe_step {B} en (p : prog B) db :
  Inv db -> safe db p -> keeps db (step_prog en p db).2 /\ safe (step_prog en p db).2 (step_prog en p db).1.
Proof.
  intros HI Hs. destruct p as [b|A c k|A c k]; cbn.
  - by split; [apply keeps_refl|].
  - destruct (Hs db en (R_refl db) HI) as [Hk Hw]. by destruct (exec_store en c db).
  - split; [by apply keeps_refl|apply Hs].
Qed.

Definition world_ok (w : world) : Prop := Inv (w_db w) /\ Forall (thread_safe (w_db w)) (w_threads w).

Lemma step_ok w w' : world_ok w -> step w w' -> world_ok w' /\ R (w_db w) (w_db w').
Proof.
  intros [HI Hts] Hst. destruct Hst as [s rq|i B p en Hi]; cbn.
  - split; [|reflexivity]. split; [done|]. cbn. apply Forall_app. split; [done|].
    apply Forall_singleton, handle_safe.
  - pose proof (Forall_lookup_1 _ _ _ _ Hts Hi) as Hp. destruct (safe_step en p (w_db w) HI Hp) as [[HI' HR] Hs'].
    split; [|done]. split; [done|]. cbn. apply Forall_insert; [|done].
    eapply Forall_impl; [exact Hts|]. intros [B' p']. cbn. by apply safe_rely.
Qed.

Lemma steps_ok w w' : world_ok w -> steps w w' -> world_ok w' /\ R (w_db w) (w_db w').
Proof.
  intros Hw Hs. induction Hs as [w|w w1 w2 H1 _ IH]; [split; [done|reflexivity]|].
  destruct (step_ok _ _ Hw H1) as [Hw1 HR1]. destruct (IH Hw1) as [Hw2 HR2].
  split; [done|by transitivity (w_db w1)].
Qed.

Lemma Inv_empty : Inv empty_db.
Proof. split; cbn; intros *; rewrite ?lookup_empty; done. Qed.

Lemma reachable_ok w : reachable w -> world_ok w.
Proof. intros Hw. apply (steps_ok init_world); [|done]. split; [apply Inv_empty|constructor]. Qed.

Lemma reachable_Inv w : reachable w -> Inv (w_db w).
Proof. apply reachable_ok. Qed.

Lemma reachable_R w w' : reachable w -> steps w w' -> R (w_db w) (w_db w').
Proof. intros Hw. by apply steps_ok, reachable_ok. Qed.

(** ** One handler in the world

    [serves w p w' p']: while the other handlers of [w] take any steps, the
    handler [p] makes some of its calls and [p'] is what is left of it. *)
Inductive serves {B} : world -> prog B -> world -> prog B -> Prop :=
| serves_refl w p : serves w p w p
| serves_other w w1 p w' p' : step w w1 -> serves w1 p w' p' -> serves w p w' p'
| serves_call w p en w' p' :
    serves (mkWorld (step_prog en p (w_db w)).2 (w_threads w)) (step_prog en p (w_db w)).1 w' p' ->
    serves w p w' p'.

(** What [wp] promises of a handler's answer holds when it answers. *)
Lemma serves_wp {B} w (p : prog B) w' b Q :
  (forall d d' x, R d d' -> Q d x -> Q d' x) ->
  world_ok w -> wp p Q (w_db w) -> serves w p w' (Done b) -> Inv (w_db w') /\ R (w_db w) (w_db w') /\ Q (w_db w') b.
Proof.
  intros HQ. remember (Done b) as p' eqn:Ep. intros Hw Hp Hs. induction Hs as [w p|w w1 p w' p' Hst Hs IH|w p en w' p' Hs IH].
  - subst. split_and!; [apply Hw|reflexivity|done].
  - destruct (step_ok _ _ Hw Hst) as [Hw1 HR]. destruct IH as (? & ? & ?); [done|done|by eapply wp_rely|].
    split_and!; [done|by etransitivity|done].
  - assert (Hk : keeps (w_db w) (step_prog en p (w_db w)).2 /\ wp (step_prog en p (w_db w)).1 Q (step_prog en p (w_db w)).2).
    { destruct p as [x|A c k|A c k]; cbn.
      - split; [apply keeps_refl, Hw|done].
      - destruct (Hp (w_db w) en (R_refl _)) as [? ?]; [apply Hw|]. by destruct (exec_store en c (w_db w)).
      - split; [apply keeps_refl, Hw|apply Hp]. }
    destruct Hk as [[HI HR] Hq]. destruct IH as (? & ? & ?); [done| |done|].
    + split; [done|]. cbn. eapply Forall_impl; [apply Hw|]. intros [B' q]. by apply safe_rely.
    + split_and!; [done|by etransitivity|done].
Qed.

Open Scope Z_scope.

(** ** Running a schedule *)
Inductive act : Type :=
| Arrive (s : Svc) (rq : request)
| Call (i : nat) (en : environment).

Definition do_act (w : world) (a : act) : world :=
  match a with
  | Arrive s rq => mkWorld (w_db w) (w_threads w ++ [handle s rq])
  | Call i en =>
      match w_threads w !! i with
      | Some (Thread p) =>
          let '(p', db') := step_prog en p (w_db w) in mkWorld db' (<[i := Thread p']> (w_threads w))
      | None => w
      end
  end.

Definition do_acts (w : world) (l : list act) : world := fold_left do_act l w.

Lemma do_act_steps w a : steps w (do_act w a).
Proof.
  destruct a as [s rq|i en]; cbn; [apply rtc_once, step_arrive|].
  destruct (w_threads w !! i) as [[B p]|] eqn:E; [|reflexivity].
  pose proof (step_call w i B p en E) as H. destruct (step_prog en p (w_db w)). by apply rtc_once.
Qed.

Lemma do_acts_steps w l : steps w (do_acts w l).
Proof.
  revert w. induction l as [|a l IH]; intros w; [reflexivity|]. cbn. etransitivity; [apply do_act_steps|apply IH].
Qed.

(** ** The environment *)
Definition demo_host (now : Z) (id : string) A (c : host_call A) : A :=
  match c in host_call A return A with
  | HEvaluate _ _ => Ok true
  | HGetSetting _ _ _ => Ok None
  | HDecryptOwnAuditRows rows => Ok (map (fun r => mkRowResult (ar_Payload r) EmptyString) rows)
  | HEmit _ => Ok tt
  | HJoinFocus _ _ => Ok tt
  | HSend _ => Ok tt
  | HNow => now
  | HNewID => Ok id
  end.

Definition at_ (now : Z) (id : string) : environment := mkEnv (mkClock now now id) NoFault (demo_host now id).

Definition sec : Z := 1000000000.

Definition demo : Svc :=
  mkSvc "main" (3600 * sec) (60 * sec) true true true true true (fun s => Some s) (fun b => b)
    (fun p => Some ("alice", p)).

(** Request number [i] served alone at time [now]. *)
Definition served (i : nat) (now : Z) (id : string) (rq : request) : list act :=
  Arrive demo rq :: repeat (Call i (at_ now id)) 25.

Definition a_pose : AuditRow :=
  mkAuditRow "0123456789abcdef" "events.main.scene.S1.ic" "core-scenes:scene_pose" (Some (3 * sec))
    (Some (ActorCharacter, "alice-----------")) "identity" "Alice waves." 1 None None.

Definition open_scene (owner : string) : CreateSceneRequest :=
  mkCreateReq owner "The Gate" EmptyString EmptyString EmptyString EmptyString [] [].

Definition demo_open : list act :=
  served 0 (1 * sec) "S1" (RqCreateScene None (open_scene "alice"))
  ++ served 1 (2 * sec) "E1" (RqJoinScene None "bob" "S1")
  ++ served 2 (3 * sec) "E2" (RqAuditEvent (Some a_pose))
  ++ served 3 (4 * sec) "E3" (RqEndScene None "alice" "S1")
  ++ served 4 (5 * sec) "A1" (RqStartScenePublish "alice" "S1")
  ++ served 5 (6 * sec) "E5" (RqCastPublishSceneVote "alice" "A1" true).

Definition open_world : world := do_acts init_world demo_open.

Definition voted_world : world :=
  do_acts open_world (served 6 (7 * sec) "E6" (RqCastPublishSceneVote "bob" "A1" true)).

Definition published_world : world := do_acts voted_world (served 7 (100 * sec) "E7" RqPublishTick).

Lemma reachable_acts w l : reachable w -> reachable (do_acts w l).
Proof. unfold reachable. intros H. etransitivity; [exact H|exact (do_acts_steps w l)]. Qed.

Lemma open_reachable : reachable open_world.
Proof. apply do_acts_steps. Qed.

Lemma voted_reachable : reachable voted_world.
Proof. apply reachable_acts, open_reachable. Qed.

Lemma published_reachable : reachable published_world.
Proof. apply reachable_acts, voted_reachable. Qed.

Lemma open_published : steps open_world published_world.
Proof.
  transitivity voted_world; [exact (do_acts_steps open_world _)|exact (do_acts_steps voted_world _)].
Qed.

Definition status_of (w : world) (id : string) : option PublishedSceneStatus :=
  pb_status <$> db_published (w_db w) !! id.

(** The statuses the attempt goes through, and the scene's end state. *)
Example demo_run :
  status_of open_world "A1" = Some StatusCollecting /\ status_of voted_world "A1" = Some StatusCoolOff
  /\ status_of published_world "A1" = Some StatusPublished
  /\ (sr_State ∘ sc_row) <$> db_scenes (w_db published_world) !! "S1" = Some SceneStateArchived
  /\ (db_published (w_db published_world) !! "A1" ≫= pb_content_entries)
     = Some [mkEntry "alice" EntryKindPose "Alice waves."].
Proof. vm_compute. done. Qed.
