(* ===== verification/SceneSafety.v ===== *)
(** What holds of the scenes plugin in every reachable world and along every run:
    publications are unanimous, decided attempts are final, budgets bound the
    attempts, scenes move forward only, every scene has one owner, pose numbers
    stay in range, and archives are read whole. *)

From S2P Require Import Prelude GoStrings Sql SceneTypes SceneRender PoseOrder SceneStore ScenePublishStore SceneProg SceneService ScenePublish SceneInv ScenePubInv SceneWorld.

Open Scope Z_scope.
Open Scope prog_scope.

(** ** Publication *)

(** C12: whatever requests are served, in whatever interleaving and under whatever
    database faults, a published attempt was approved by all of a non-empty
    roster, its content, title and participants are recorded, and its scene is
    archived. *)
Theorem published_unanimous w id r :
  reachable w -> db_published (w_db w) !! id = Some r -> pb_status r = StatusPublished ->
  (exists c, is_Some (db_votes (w_db w) !! (id, c)))
  /\ (forall c v, db_votes (w_db w) !! (id, c) = Some v -> vr_vote v = Some true)
  /\ is_set (pb_content_entries r) = true /\ is_set (pb_title_snapshot r) = true
  /\ is_set (pb_participants_snapshot r) = true /\ is_set (pb_published_at r) = true
  /\ exists sc, db_scenes (w_db w) !! pb_scene_id r = Some sc /\ sr_State (sc_row sc) = SceneStateArchived.
Proof.
  intros HI%reachable_Inv Hr Hst. pose proof (inv_pub _ HI _ _ Hr) as Hok. unfold pub_ok in Hok.
  rewrite Hst in Hok. destruct (inv_pub_scene _ HI _ _ Hr) as (sc & ? & _ & _ & Ha).
  split_and!; try naive_solver; eauto using inv_roster, inv_unanimous.
Qed.

Lemma published_unanimous_witness :
  reachable published_world /\ exists r, db_published (w_db published_world) !! "A1" = Some r
    /\ forall c v, db_votes (w_db published_world) !! ("A1", c) = Some v -> vr_vote v = Some true.
Proof.
  split; [apply published_reachable|]. eexists. split; [vm_compute; reflexivity|].
  eapply (published_unanimous published_world "A1"); [apply published_reachable|vm_compute; reflexivity|reflexivity].
Defined.

(** C17: a decided attempt is final: once published or failed, no later request,
    sweep or fault changes its row or any of its votes. *)
Theorem decided_attempts_final w w' id r :
  reachable w -> steps w w' -> db_published (w_db w) !! id = Some r -> IsTerminal (pb_status r) = true ->
  db_published (w_db w') !! id = Some r
  /\ forall c, db_votes (w_db w') !! (id, c) = db_votes (w_db w) !! (id, c).
Proof.
  intros Hw Hs Hr Ht. pose proof (reachable_R _ _ Hw Hs) as HR. split.
  - destruct (r_pub _ _ HR _ _ Hr) as (r' & Hr' & _ & _ & _ & _ & _ & _ & Hfr). by rewrite (Hfr Ht) in Hr'.
  - intros c. by apply (r_votes _ _ HR id r).
Qed.

Definition late_world : world :=
  do_acts published_world (served 8 (200 * sec) "E8" (RqCastPublishSceneVote "bob" "A1" false)).

Lemma decided_attempts_final_witness :
  exists r, db_published (w_db published_world) !! "A1" = Some r
    /\ db_published (w_db late_world) !! "A1" = Some r.
Proof.
  eexists. split; [vm_compute; reflexivity|].
  eapply (decided_attempts_final published_world late_world "A1");
    [apply published_reachable|apply do_acts_steps|vm_compute; reflexivity|reflexivity].
Defined.

(** C33: the attempts of a scene are numbered from one without gaps, their number
    never exceeds the scene's budget (an INTEGER), and at most one of them has not
    failed, in all interleavings of concurrent [StartScenePublish] calls. *)
Theorem attempts_bounded w sceneID sc :
  reachable w -> db_scenes (w_db w) !! sceneID = Some sc ->
  ac_Total (attempt_counts (w_db w) sceneID) <= sc_max_publish_attempts sc <= int4_max
  /\ ac_Active (attempt_counts (w_db w) sceneID) + ac_Published (attempt_counts (w_db w) sceneID) <= 1
  /\ forall k, 0 < k <= ac_Total (attempt_counts (w_db w) sceneID) <->
       exists id r, db_published (w_db w) !! id = Some r /\ pb_scene_id r = sceneID /\ pb_attempt_number r = k.
Proof.
  intros HI%reachable_Inv Hsc. destruct (inv_scenes _ HI _ _ Hsc) as (_ & _ & Hmax & _).
  split_and!; [|lia|by apply open_attempts|].
  - destruct (decide (0 < ac_Total (attempt_counts (w_db w) sceneID))) as [Hpos|]; [|lia].
    pose proof (proj2 (attempt_numbers_exact _ sceneID _ HI) (conj Hpos (Z.le_refl _))) as Hin.
    apply attempt_numbers_elem in Hin as (id & r & Hr & Hs & <-).
    destruct (inv_pub_scene _ HI _ _ Hr) as (sc' & Hsc' & _ & Hb & _). simplify_eq. lia.
  - intros k. by rewrite <- attempt_numbers_exact, attempt_numbers_elem.
Qed.

Lemma attempts_bounded_witness :
  exists sc, db_scenes (w_db published_world) !! "S1" = Some sc
    /\ ac_Total (attempt_counts (w_db published_world) "S1") <= sc_max_publish_attempts sc.
Proof.
  eexists. split; [vm_compute; reflexivity|].
  destruct (attempts_bounded published_world "S1" _ published_reachable
    ltac:(vm_compute; reflexivity)) as [[H _] _]. exact H.
Defined.

(** The roster of an attempt is fixed when it is created, and its identity
    (scene, number, initiator, windows) too: votes change, voters do not. *)
Theorem roster_fixed w w' id r :
  reachable w -> steps w w' -> db_published (w_db w) !! id = Some r ->
  (forall c, is_Some (db_votes (w_db w') !! (id, c)) <-> is_Some (db_votes (w_db w) !! (id, c)))
  /\ exists r', db_published (w_db w') !! id = Some r' /\ same_attempt r r'.
Proof.
  intros Hw Hs Hr. pose proof (reachable_R _ _ Hw Hs) as HR. split; [intros c; by eapply r_roster|].
  destruct (r_pub _ _ HR _ _ Hr) as (r' & ? & ? & ? & ? & ? & ? & ? & _). exists r'. by split_and!.
Qed.

Lemma roster_fixed_witness :
  forall c, is_Some (db_votes (w_db late_world) !! ("A1", c)) <-> is_Some (db_votes (w_db published_world) !! ("A1", c)).
Proof.
  eapply (roster_fixed published_world late_world "A1");
    [apply published_reachable|apply do_acts_steps|vm_compute; reflexivity].
Defined.

(** C40: the columns of an attempt go with its status: no content or publication
    time before it is published and all of them after, a failure reason exactly
    when it failed, a cool-off start in cool-off, a resolution time exactly when
    it is decided; every vote belongs to an attempt and every attempt to a closed
    scene. *)
Theorem attempt_rows_typed w id r :
  reachable w -> db_published (w_db w) !! id = Some r ->
  pub_ok r
  /\ (exists sc, db_scenes (w_db w) !! pb_scene_id r = Some sc /\ closed_state (sr_State (sc_row sc)))
  /\ (forall a c, is_Some (db_votes (w_db w) !! (a, c)) -> is_Some (db_published (w_db w) !! a)).
Proof.
  intros HI%reachable_Inv Hr. split_and!.
  - by eapply inv_pub.
  - destruct (inv_pub_scene _ HI _ _ Hr) as (sc & ? & ? & _). eauto.
  - intros a c [v Hv]. by eapply inv_vote_fk.
Qed.

Lemma attempt_rows_typed_witness : exists r, db_published (w_db voted_world) !! "A1" = Some r /\ pub_ok r.
Proof.
  eexists. split; [vm_compute; reflexivity|].
  eapply (attempt_rows_typed voted_world "A1"); [apply voted_reachable|vm_compute; reflexivity].
Defined.

(** ** Scenes *)
Definition valid_step (s s' : SceneState) : Prop := IsValidTransition s s' = true.

Lemma valid_state s : SceneState_IsValid s = true ->
  s = SceneStateActive \/ s = SceneStatePaused \/ s = SceneStateEnded \/ s = SceneStateArchived.
Proof. destruct s; naive_solver. Qed.

Lemma state_le_valid s s' :
  SceneState_IsValid s = true -> SceneState_IsValid s' = true -> state_le s s' -> rtc valid_step s s'.
Proof.
  assert (H1 : valid_step SceneStateActive SceneStatePaused) by done.
  assert (H2 : valid_step SceneStatePaused SceneStateActive) by done.
  assert (H3 : valid_step SceneStateActive SceneStateEnded) by done.
  assert (H4 : valid_step SceneStatePaused SceneStateEnded) by done.
  assert (H5 : valid_step SceneStateEnded SceneStateArchived) by done.
  intros Hv%valid_state Hv'%valid_state Hle. unfold state_le in Hle.
  destruct_or!; destruct_and?; simplify_eq; try done; eauto 7 using rtc_l, rtc_refl.
Qed.

(** Along every run a scene only makes the lifecycle's valid transitions, its
    budget and pose count never shrink, and it is archived exactly when one of its
    attempts is published. *)
Theorem scenes_move_forward w w' id sc :
  reachable w -> steps w w' -> db_scenes (w_db w) !! id = Some sc ->
  exists sc', db_scenes (w_db w') !! id = Some sc'
    /\ rtc valid_step (sr_State (sc_row sc)) (sr_State (sc_row sc'))
    /\ sc_max_publish_attempts sc <= sc_max_publish_attempts sc'
    /\ sc_total_pose_count sc <= sc_total_pose_count sc'
    /\ (sr_State (sc_row sc') = SceneStateArchived <->
        exists a r, db_published (w_db w') !! a = Some r /\ pb_scene_id r = id /\ pb_status r = StatusPublished).
Proof.
  intros Hw Hs Hsc. pose proof (reachable_R _ _ Hw Hs) as HR. pose proof (reachable_Inv _ Hw) as HI.
  assert (HI' : Inv (w_db w')) by (apply reachable_Inv; unfold reachable, steps in *; by etrans).
  destruct (r_scene _ _ HR _ _ Hsc) as (sc' & Hsc' & Hle & Hm & Hp). exists sc'. split_and!; try done.
  - apply state_le_valid; [|by eapply (inv_scenes _ HI')|done]. by eapply (inv_scenes _ HI).
  - split; [by apply (inv_archived _ HI')|]. intros (a & r & Hr & <- & Hst).
    destruct (inv_pub_scene _ HI' _ _ Hr) as (sc0 & ? & _ & _ & Ha). simplify_eq. auto.
Qed.

Lemma scenes_move_forward_witness :
  exists sc', db_scenes (w_db published_world) !! "S1" = Some sc'
    /\ rtc valid_step SceneStateEnded (sr_State (sc_row sc')).
Proof.
  destruct (scenes_move_forward open_world published_world "S1" _ open_reachable open_published
    ltac:(vm_compute; reflexivity)) as (sc' & H & Hst & _).
  exists sc'. split; [exact H|exact Hst].
Defined.

(** Every scene has exactly one participant with the owner's role, and it is
    the scene's [owner_id], through joins, kicks, invitations and transfers of
    ownership served concurrently. *)
Theorem one_owner w id sc :
  reachable w -> db_scenes (w_db w) !! id = Some sc ->
  forall c, c = sr_OwnerID (sc_row sc) <->
    exists p, db_participants (w_db w) !! (id, c) = Some p /\ pt_role p = ParticipantRoleOwner.
Proof.
  intros HI%reachable_Inv Hsc c. split; [intros ->; by apply inv_owner|].
  intros (p & Hp & Hr). by eapply inv_one_owner.
Qed.

Lemma one_owner_witness :
  exists sc, db_scenes (w_db voted_world) !! "S1" = Some sc /\
    exists p, db_participants (w_db voted_world) !! ("S1", sr_OwnerID (sc_row sc)) = Some p
      /\ pt_role p = ParticipantRoleOwner.
Proof.
  eexists. split; [vm_compute; reflexivity|].
  eapply (one_owner voted_world "S1"); [apply voted_reachable|vm_compute; reflexivity|reflexivity].
Defined.

(** ** Reading archives *)

(** The public archive of a published row. *)
Definition archive_of (id : string) (r : pub_rec) : GetPublicSceneArchiveResponse :=
  mkArchive id (or_else (pb_title_snapshot r) EmptyString) (or_else (pb_participants_snapshot r) [])
    (or_else (pb_content_entries r) []) (or_else (pb_published_at r) 0).

Definition shows_archive (a : string) (db : DB) (resp : rpc GetPublicSceneArchiveResponse) : Prop :=
  forall x, resp = Reply x -> exists r, db_published db !! a = Some r /\ pb_status r = StatusPublished
    /\ x = archive_of a r.

Lemma published_stable db db' a r :
  R db db' -> db_published db !! a = Some r -> pb_status r = StatusPublished -> db_published db' !! a = Some r.
Proof.
  intros HR Hr Hst. destruct (r_pub _ _ HR _ _ Hr) as (r' & Hr' & _ & _ & _ & _ & _ & _ & Hfr).
  rewrite Hst in Hfr. by rewrite (Hfr eq_refl) in Hr'.
Qed.

Lemma shows_archive_stable a db db' x : R db db' -> shows_archive a db x -> shows_archive a db' x.
Proof. intros HR H y ->. destruct (H y eq_refl) as (r & Hr & Hst & ->). exists r. eauto using published_stable. Qed.

Lemma wp_GetPublicSceneArchive a db : wp (GetPublicSceneArchive a) (shows_archive a) db.
Proof.
  unfold GetPublicSceneArchive. apply wp_try_call; [intros; by apply good_Header|done|].
  intros ? db1 h ? _ _ [= <- <-] _. destruct (db_published db1 !! a) as [r|] eqn:Hr; [|done]. cbn.
  case_bool_decide as Hst; [|done]. cbn [negb]. apply wp_try_call; [intros; by apply good_Content|done|].
  intros ? db2 es ? HR _ [= <- <-] _. intros x [= <-].
  pose proof (published_stable _ _ _ _ HR Hr Hst) as Hr2. exists r. by rewrite Hr2.
Qed.

(** A public archive is read whole: header and content come from two
    transactions, and yet, whatever other requests do in between, the answer is
    the title, participants, content and time of one published row, which is still
    there when the answer is given. *)
Theorem archive_read_whole w a w' resp :
  reachable w -> serves w (GetPublicSceneArchive a) w' (Done (Reply resp)) ->
  exists r, db_published (w_db w') !! a = Some r /\ pb_status r = StatusPublished /\ resp = archive_of a r.
Proof.
  intros Hw Hs. destruct (serves_wp w _ w' _ (shows_archive a)
    (fun d d' x => shows_archive_stable a d d' x) (reachable_ok _ Hw) (wp_GetPublicSceneArchive a _) Hs) as (_ & _ & H).
  by apply H.
Qed.

Definition demo_archive : GetPublicSceneArchiveResponse :=
  mkArchive "A1" "The Gate" ["alice"; "bob"] [mkEntry "alice" EntryKindPose "Alice waves."] (100 * sec).

Lemma archive_read_whole_witness :
  exists r, db_published (w_db published_world) !! "A1" = Some r /\ pb_status r = StatusPublished.
Proof.
  assert (Hs : serves published_world (GetPublicSceneArchive "A1") published_world (Done (Reply demo_archive))).
  { apply (serves_call _ _ (at_ 0 EmptyString)), (serves_call _ _ (at_ 0 EmptyString)).
    vm_compute. apply serves_refl. }
  destruct (archive_read_whole _ _ _ _ published_reachable Hs) as (r & Hr & Hst & _).
  exact (ex_intro _ r (conj Hr Hst)).
Defined.

(** The rows anyone may see. *)
Definition same_published (db db' : DB) : Prop :=
  forall a r, pb_status r = StatusPublished -> db_published db !! a = Some r <-> db_published db' !! a = Some r.

Lemma same_header (db db' : DB) a :
  same_published db db' ->
  (exists r, db_published db !! a = Some r /\ db_published db' !! a = Some r /\ pb_status r = StatusPublished)
  \/ ((forall r, db_published db !! a = Some r -> pb_status r <> StatusPublished)
      /\ (forall r, db_published db' !! a = Some r -> pb_status r <> StatusPublished)).
Proof.
  intros H. destruct (db_published db !! a) as [r|] eqn:E; [destruct (decide (pb_status r = StatusPublished))|].
  - left. exists r. split_and!; try done. by apply H.
  - right. split; [naive_solver|]. intros r' Hr' Hst. apply H in Hr'; [|done]. naive_solver.
  - right. split; [done|]. intros r' Hr' Hst. apply H in Hr'; [|done]. naive_solver.
Qed.

Lemma run_alone_done {B} ens (b : B) db : run_alone ens (Done b) db = (Done b, db).
Proof. induction ens; [done|by cbn]. Qed.

(** The answer to one call of a handler run alone. *)
Definition answer {A} (en : environment) (c : store_call A) (db : DB) : result A := (exec_store en c db).1.

Lemma run_alone_read {A B} en ens (c : store_call A) (h : error -> prog B) k db :
  (forall ck, (run_call ck c db).2 = db) ->
  run_alone (en :: ens) (try_ (call c) h k) db
  = run_alone ens (match answer en c db with Ok a => k a | Err e => h e end) db.
Proof.
  intros Hr. unfold answer. cbn. unfold exec_store.
  destruct (en_fault en); cbn; try rewrite Hr; try done.
  destruct (run_call (en_clock en) c db) as [r db'] eqn:E. pose proof (Hr (en_clock en)) as H. by rewrite E in H; cbn in H; subst.
Qed.

Section Opaque.
Context (a : string) (db db' : DB) (Hsame : same_published db db').

(** A handler that shows the header and content of published attempts only. *)
Context {B : Type} (h1 h2 : error -> prog B) (absent : B) (k : PublishedScene -> list PublishedSceneEntry -> prog B).

Definition public_read : prog B :=
  try_ (call (SGetPublishedSceneHeader a)) h1 (fun pub =>
    match pub with
    | None => Done absent
    | Some pub =>
        if negb (bool_decide (ps_Status pub = StatusPublished)) then Done absent
        else try_ (call (SGetPublishedSceneContent a)) h2 (k pub)
    end).

Lemma answer_same {A} en (c : store_call A) :
  (run_call (en_clock en) c db).1 = (run_call (en_clock en) c db').1 -> answer en c db = answer en c db'.
Proof. unfold answer, exec_store. by destruct (en_fault en). Qed.

Lemma absent_run ens en (x : DB) :
  (forall r, db_published x !! a = Some r -> pb_status r <> StatusPublished) ->
  (run_alone (en :: ens) public_read x).1
  = match en_fault en with
    | NoFault => Done absent
    | Refused e | Unanswered e => (run_alone ens (h1 e) x).1
    end.
Proof.
  intros Hx. unfold public_read. rewrite run_alone_read by done. unfold answer, exec_store.
  destruct (en_fault en); cbn; try done.
  destruct (db_published x !! a) as [r|] eqn:E; cbn; [|by rewrite run_alone_done].
  rewrite bool_decide_false by (by apply Hx). cbn. by rewrite run_alone_done.
Qed.

Context (Hh1 : forall e, exists b, h1 e = Done b) (Hh2 : forall e, exists b, h2 e = Done b)
  (Hk : forall pub es, exists b, k pub es = Done b).

Lemma public_read_same ens : (run_alone ens public_read db).1 = (run_alone ens public_read db').1.
Proof.
  destruct ens as [|en ens]; [done|].
  destruct (same_header db db' a Hsame) as [(r & Hr & Hr' & Hst)|[H H']].
  - unfold public_read. rewrite !run_alone_read by done.
    rewrite (answer_same en (SGetPublishedSceneHeader a)) by (cbn; by rewrite Hr, Hr').
    destruct (answer _ _ _) as [[pub|]|e]; [|by rewrite !run_alone_done|].
    + destruct (negb _); [by rewrite !run_alone_done|]. destruct ens as [|en2 ens]; [done|].
      rewrite !run_alone_read by done.
      rewrite (answer_same en2 (SGetPublishedSceneContent a)) by (cbn; by rewrite Hr, Hr').
      destruct (answer _ _ _) as [es|e];
        [destruct (Hk pub es) as [b ->]|destruct (Hh2 e) as [b ->]]; by rewrite !run_alone_done.
    + destruct (Hh1 e) as [b ->]. by rewrite !run_alone_done.
  - rewrite !absent_run by done. destruct (en_fault en) as [|e|e]; [done|..];
      destruct (Hh1 e) as [b ->]; by rewrite !run_alone_done.
Qed.
End Opaque.

(** The public endpoints reveal nothing of attempts that are not published:
    on any two states of the tables with the same published rows, and under the
    same faults, [GetPublicSceneArchive] and [DownloadPublicSceneArchive] answer
    alike; an unpublished attempt is as if it did not exist. *)
Theorem public_archive_opaque a format db db' ens :
  same_published db db' ->
  (run_alone ens (GetPublicSceneArchive a) db).1 = (run_alone ens (GetPublicSceneArchive a) db').1
  /\ (run_alone ens (DownloadPublicSceneArchive a format) db).1
     = (run_alone ens (DownloadPublicSceneArchive a format) db').1.
Proof.
  intros Hsame. split.
  - apply (public_read_same a db db' Hsame internal internal (Status NotFound "scene archive not found")
             (fun pub es => Done (Reply (assemblePublicResponse pub es)))); by eexists.
  - unfold DownloadPublicSceneArchive. destruct (publishRenderMime format) as [mime|]; [|by unfold mapped; rewrite !run_alone_done].
    apply (public_read_same a db db' Hsame internal internal (Status NotFound "scene archive not found")
             (fun _ es => content <~ Done (renderPublishedScene format es) @@ internal ;; Done (Reply (content, mime))));
      [by eexists..|]. intros _ es. unfold try_, mbind, prog_mbind. cbn.
    destruct (renderPublishedScene format es); by eexists.
Qed.

(** An attempt under vote and no attempt at all. *)
Lemma public_archive_opaque_witness :
  (run_alone [at_ 0 EmptyString] (GetPublicSceneArchive "A1") (w_db open_world)).1
  = (run_alone [at_ 0 EmptyString] (GetPublicSceneArchive "A1") empty_db).1.
Proof.
  apply (public_archive_opaque "A1" "markdown" (w_db open_world) empty_db [at_ 0 EmptyString]).
  assert (E : map_to_list (db_published (w_db open_world)) = [("A1", new_pub (mkClock (5 * sec) (5 * sec) "A1")
    (mkCreateInput "S1" 1 "alice" (3600 * sec) (60 * sec) 3))]) by (vm_compute; reflexivity).
  intros x r Hst. cbn [db_published empty_db]. rewrite lookup_empty. split; [|discriminate].
  intros Hin%elem_of_map_to_list. rewrite E in Hin.
  apply list_elem_of_singleton in Hin. injection Hin as -> ->. discriminate Hst.
Defined.

(** ** Joining *)

(** The row an upsert leaves and what is reported of it. *)
Lemma upsert_member_spec ck prior :
  let '(p, ins) := upsert_member ck prior in
  pt_role p = (match prior with
               | Some q => if bool_decide (pt_role q = ParticipantRoleOwner)
                           then ParticipantRoleOwner else ParticipantRoleMember
               | None => ParticipantRoleMember
               end)
  /\ (join_result ck prior p ins = OpInserted <-> prior = None).
Proof.
  destruct prior as [q|]; [|done]. cbn. destruct (pt_role q) eqn:E; rewrite ?E; (split; [done|]);
    unfold join_result; repeat case_match; split; congruence.
Qed.

(** Joining does exactly what it says: it succeeds only for a live scene that is
    open or lists the character already, makes the character a member (an owner
    stays owner) and changes no other participant; a failure changes nothing, and a
    character who may not join is told whether the scene is missing, closed or
    private. *)
Theorem AddParticipant_exact ck sceneID c db :
  let '(r, db') := AddParticipant ck sceneID c db in
  match r with
  | Ok (row, res) =>
      may_join db sceneID c = true
      /\ (exists p, db_participants db' = <[(sceneID, c) := p]> (db_participants db)
            /\ pt_role p = (match db_participants db !! (sceneID, c) with
                            | Some q => if bool_decide (pt_role q = ParticipantRoleOwner)
                                        then ParticipantRoleOwner else ParticipantRoleMember
                            | None => ParticipantRoleMember
                            end)
            /\ row = part_row (sceneID, c) p)
      /\ (res = OpInserted <-> db_participants db !! (sceneID, c) = None)
      /\ db_scenes db' = db_scenes db
  | Err e =>
      db' = db /\ (may_join db sceneID c = false ->
        has_code e (match db_scenes db !! sceneID with
                    | None => "SCENE_NOT_FOUND"
                    | Some sc => if live_state (sr_State (sc_row sc)) then "SCENE_JOIN_NOT_INVITED"
                                 else "SCENE_TRANSITION_FORBIDDEN"
                    end) = true)
  end.
Proof.
  destruct (AddParticipant ck sceneID c db) as [[[row res]|e] db'] eqn:E.
  - apply (proj1 (atomically_Ok _ _ _ _)) in E. tx_steps; cbn in *; simplify_eq.
    + by apply classifyJoinMiss_Err in H0.
    + apply negb_false_iff in Heqb. pose proof (upsert_member_spec ck (db_participants db !! (sceneID, c))) as Hu.
      rewrite Heqp in Hu. destruct Hu. eauto 10.
    + apply negb_false_iff in Heqb. pose proof (upsert_member_spec ck (db_participants db !! (sceneID, c))) as Hu.
      rewrite Heqp in Hu. destruct Hu. eauto 10.
  - apply atomically_Err in E as [-> [db1 Em]]. split; [done|]. intros Hj.
    unfold mbind at 1, txn_bind at 1, read in Em. rewrite Hj in Em. cbn [negb] in Em.
    unfold classifyJoinMiss, mbind, txn_bind, read, fail in Em. cbn in Em.
    destruct (db_scenes db !! sceneID) as [sc|]; [|by simplify_eq].
    by destruct (live_state (sr_State (sc_row sc))); injection Em as <- _.
Qed.
