(* ===== verification/ScenePoses.v ===== *)
(** Pose order in running scenes: what [InsertScenePose] keeps of the pose numbers
    makes the order of [poseorder.go] exact and free of deadlock. *)

From S2P Require Import Prelude GoStrings Sql SceneTypes SceneStore ScenePublishStore PoseOrder SceneProg SceneService ScenePublish SceneInv ScenePubInv SceneWorld.

From stdpp Require Import sorting.

Open Scope Z_scope.

(** The rows the pose metadata is made of. *)
Definition pose_rows (db : DB) (s : string) : list (string * string * part_rec) :=
  rows_where (fun k p => String.eqb k.1 s && IsEligibleVoterRole (pt_role p)) (db_participants db).

Definition pose_meta (kv : string * string * part_rec) : ParticipantWithPoseMeta :=
  mkPoseMeta kv.1.2 (pt_joined_at kv.2) (pt_last_pose_at kv.2) (pt_last_pose_seq kv.2).

Lemma pose_rows_elem db s k p :
  (k, p) ∈ pose_rows db s -> k.1 = s /\ db_participants db !! k = Some p.
Proof. intros [? [?%String.eqb_eq _]%andb_true_iff]%rows_where_elem. done. Qed.

Lemma pose_numbers_distinct db s :
  Inv db -> NoDup (omap pm_LastPoseSeq (map pose_meta (pose_rows db s))).
Proof.
  intros HI. assert (Hnd : NoDup (pose_rows db s)) by apply NoDup_rows_where.
  assert (Hin : forall k p, (k, p) ∈ pose_rows db s -> k.1 = s /\ db_participants db !! k = Some p)
    by (intros k p; apply pose_rows_elem).
  induction (pose_rows db s) as [|[k p] l IH]; cbn; [constructor|].
  apply NoDup_cons in Hnd as [Hn Hnd].
  assert (IH' : NoDup (omap pm_LastPoseSeq (map pose_meta l)))
    by (apply IH; [done|]; intros; apply Hin; by apply list_elem_of_further).
  destruct (pt_last_pose_seq p) as [q|] eqn:Hq; [|done]. constructor; [|done].
  intros (x & Hx & Hxq)%list_elem_of_omap. apply list_elem_of_fmap in Hx as ([k' p'] & -> & Hl). cbn in Hxq.
  destruct (Hin k p) as [Hs Hp]; [apply list_elem_of_here|].
  destruct (Hin k' p') as [Hs' Hp']; [by apply list_elem_of_further|].
  destruct k as [s1 c], k' as [s2 c']. cbn in *. subst s1 s2.
  assert (c = c') as -> by (by eapply (inv_pose_distinct _ HI s c c' p p' q)). simplify_eq. done.
Qed.

(** The pose metadata of a scene in tables that satisfy the invariant. *)
Lemma pose_meta_facts db s m :
  Inv db -> ListParticipantsWithPoseMeta s db = (Ok m, db) ->
  uint32 (pp_TotalPoseCount m)
  /\ Forall pose_wf (pp_Participants m)
  /\ Forall (fun p => forall q, pm_LastPoseSeq p = Some q -> 0 < q <= pp_TotalPoseCount m /\ int32 q) (pp_Participants m)
  /\ NoDup (omap pm_LastPoseSeq (pp_Participants m)).
Proof.
  intros HI H. unfold ListParticipantsWithPoseMeta, read in H. injection H as <-.
  destruct (db_scenes db !! s) as [r|] eqn:Hr; [|split_and!; [done|constructor..]].
  fold (pose_rows db s). change (map _ (pose_rows db s)) with (map pose_meta (pose_rows db s)).
  set (l := order_by _ _). assert (Hp : l ≡ₚ map pose_meta (pose_rows db s)) by apply merge_sort_Permutation.
  destruct (inv_scenes _ HI _ _ Hr) as (_ & _ & _ & Htot & _). unfold int4_max in Htot.
  assert (Hmod : sc_total_pose_count r mod 2 ^ 32 = sc_total_pose_count r) by (apply Z.mod_small; lia).
  assert (Hl : Forall (fun p => pose_wf p /\ forall q, pm_LastPoseSeq p = Some q -> 0 < q <= sc_total_pose_count r /\ int32 q) l).
  { rewrite Hp, Forall_map. apply Forall_forall. intros [k p] [Hs Hk]%pose_rows_elem. destruct k as [s' c]. cbn in Hs. subst s'.
    destruct (inv_part _ HI _ _ _ Hk) as (r' & Hr' & Hw & Hq). simplify_eq. split; [done|].
    intros q Hpq. specialize (Hq q Hpq). unfold int32. lia. }
  rewrite Forall_and in Hl. destruct Hl as [Hl1 Hl2].
  assert (Hnd : NoDup (omap pm_LastPoseSeq l)) by (rewrite Hp; by apply pose_numbers_distinct).
  destruct l; cbn [pp_TotalPoseCount pp_Participants]; [split_and!; [done|constructor..]|].
  rewrite Hmod. split_and!; try done. unfold uint32. lia.
Qed.

(** The rule of a mode that limits how soon one may pose again. *)
Definition pose_limit (mode : string) : option Z :=
  match PoseOrderMode_of mode with
  | PoseOrderMode3PR => Some 3
  | PoseOrderMode5PR => Some 5
  | _ => None
  end.

Lemma Compute_elem mode t ps names e :
  e ∈ Compute_ mode t ps names -> exists i p, p ∈ ps /\ e = pose_entry mode t names i p.
Proof.
  unfold Compute_. intros (i & p & -> & Hp)%elem_of_lookup_imap. exists i, p. split; [|done].
  rewrite <- (sort_for_perm mode). by eapply list_elem_of_lookup_2.
Qed.

(** Under the three- and five-pose rules the gap shown for each participant is
    the true number of poses since their last one: the unsigned subtraction never
    wraps, the gap is at most the scene's pose count, and exactly those who never
    posed or whose gap reaches the limit may pose. *)
Theorem pose_gaps_exact w sceneID m mode names k e :
  reachable w -> ListParticipantsWithPoseMeta sceneID (w_db w) = (Ok m, w_db w) -> pose_limit mode = Some k ->
  e ∈ Compute_ mode (pp_TotalPoseCount m) (pp_Participants m) names ->
  exists p, p ∈ pp_Participants m /\ po_CharacterID e = pm_CharacterID p
    /\ let gap := pp_TotalPoseCount m - or_else (pm_LastPoseSeq p) 0 in
       po_PosesSinceLast e = Some gap /\ 0 <= gap <= pp_TotalPoseCount m
       /\ (po_Eligible e = true <-> pm_LastPoseSeq p = None \/ k <= gap).
Proof.
  intros HI%reachable_Inv Hm Hk (i & p & Hp & ->)%Compute_elem.
  destruct (pose_meta_facts _ _ _ HI Hm) as (Ht & _ & Hq & _). rewrite Forall_forall in Hq. specialize (Hq p Hp).
  exists p. split; [done|]. split; [done|]. cbv zeta. cbn [po_PosesSinceLast po_Eligible pose_entry].
  unfold eligibility, pose_limit in *.
  assert (Hg := posesSinceLast_exact (pp_TotalPoseCount m) (pm_LastPoseSeq p) Ht (fun x E => proj2 (Hq x E))).
  assert (Hel := fun n => eligibleByThreshold_exact (pp_TotalPoseCount m) (pm_LastPoseSeq p) n Ht (fun x E => proj2 (Hq x E))).
  destruct Hg as [Hg _]. unfold uint32 in Ht.
  destruct (pm_LastPoseSeq p) as [q|]; cbn [or_else] in *.
  - destruct (Hq q eq_refl) as [Hq1 _]. rewrite (proj2 (Z.ltb_ge q 0)) in Hg by lia.
    rewrite Z.max_r in Hg by lia. rewrite Hg in *.
    destruct (PoseOrderMode_of mode); simplify_eq; (split_and!; [done|lia|lia|]); rewrite Hel by lia; naive_solver lia.
  - destruct (PoseOrderMode_of mode); simplify_eq; (split_and!; [f_equal; cbn; lia|lia|lia|]); naive_solver.
Qed.

Definition metas_of (s : string) (db : DB) : ParticipantsWithPoseMeta :=
  match (ListParticipantsWithPoseMeta s db).1 with Ok m => m | Err _ => mkPoseMetas 0 [] end.

Lemma metas_of_read s db : ListParticipantsWithPoseMeta s db = (Ok (metas_of s db), db).
Proof. reflexivity. Qed.

Lemma pose_gaps_exact_witness :
  exists m e, ListParticipantsWithPoseMeta "S1" (w_db open_world) = (Ok m, w_db open_world)
    /\ e ∈ Compute_ "3pr" (pp_TotalPoseCount m) (pp_Participants m) ∅
    /\ exists p, p ∈ pp_Participants m /\ po_CharacterID e = pm_CharacterID p.
Proof.
  pose (m := metas_of "S1" (w_db open_world)).
  pose proof (metas_of_read "S1" (w_db open_world)) as Hm. fold m in Hm.
  assert (He : exists e l, Compute_ "3pr" (pp_TotalPoseCount m) (pp_Participants m) ∅ = e :: l)
    by (do 2 eexists; vm_compute; reflexivity).
  destruct He as (e & l & He). exists m, e. split; [exact Hm|].
  assert (Hin : e ∈ Compute_ "3pr" (pp_TotalPoseCount m) (pp_Participants m) ∅) by (rewrite He; apply list_elem_of_here).
  split; [exact Hin|].
  destruct (pose_gaps_exact open_world "S1" m "3pr" ∅ 3 e open_reachable Hm eq_refl Hin) as (p & H1 & H2 & _).
  exact (ex_intro _ p (conj H1 H2)).
Defined.

Lemma Compute_length mode t ps names : length (Compute_ mode t ps names) = length ps.
Proof. unfold Compute_. rewrite length_imap. apply Permutation_length, sort_for_perm. Qed.

(** Some participant of a crowd may pose under a limit. *)
Lemma limit_eligible mode k db s m names :
  Inv db -> ListParticipantsWithPoseMeta s db = (Ok m, db) -> pose_limit mode = Some k ->
  k < Z.of_nat (length (pp_Participants m)) ->
  exists e, e ∈ Compute_ mode (pp_TotalPoseCount m) (pp_Participants m) names /\ po_Eligible e = true.
Proof.
  intros HI Hm Hk Hlen. destruct (pose_meta_facts _ _ _ HI Hm) as (Ht & _ & Hq & Hnd).
  destruct (someone_eligible (pp_TotalPoseCount m) (map pm_LastPoseSeq (pp_Participants m)) k) as (o & Ho & He);
    [done|unfold pose_limit in Hk; case_match; simplify_eq; lia|by rewrite Forall_map| |by rewrite length_map|].
  { clear -Hnd. revert Hnd. induction (pp_Participants m) as [|p l IH]; [done|]. cbn.
    destruct (pm_LastPoseSeq p); cbn; [|done]. intros [Hn Hd]%NoDup_cons. constructor; [|by apply IH].
    intros Hin. apply Hn. clear -Hin. apply list_elem_of_omap in Hin as (o & Ho & Hid).
    apply list_elem_of_fmap in Ho as (x & -> & Hx). apply list_elem_of_omap. eauto. }
  apply list_elem_of_fmap in Ho as (p & -> & Hp). rewrite <- (sort_for_perm mode) in Hp.
  apply list_elem_of_lookup in Hp as [i Hi].
  exists (pose_entry mode (pp_TotalPoseCount m) names i p). split.
  - apply elem_of_lookup_imap. eauto.
  - cbn. unfold eligibility, pose_limit in *. destruct (PoseOrderMode_of mode); by simplify_eq.
Qed.

(** Pose order never blocks a scene, in any reachable state: strict order lets
    exactly one participant pose, one who has waited longest; the three- and
    five-pose rules let somebody pose as soon as the scene has more participants
    than the limit; otherwise everybody may pose. *)
Theorem pose_order_never_stuck w sceneID m mode names :
  reachable w -> ListParticipantsWithPoseMeta sceneID (w_db w) = (Ok m, w_db w) -> pp_Participants m <> [] ->
  let es := Compute_ mode (pp_TotalPoseCount m) (pp_Participants m) names in
  match PoseOrderMode_of mode with
  | PoseOrderModeStrict =>
      exists p e es', es = e :: es' /\ po_Eligible e = true /\ Forall (fun x => po_Eligible x = false) es'
        /\ p ∈ pp_Participants m /\ po_CharacterID e = pm_CharacterID p
        /\ forall q, q ∈ pp_Participants m -> strict_less q p = false
  | PoseOrderMode3PR =>
      3 < Z.of_nat (length (pp_Participants m)) -> exists e, e ∈ es /\ po_Eligible e = true
  | PoseOrderMode5PR =>
      5 < Z.of_nat (length (pp_Participants m)) -> exists e, e ∈ es /\ po_Eligible e = true
  | _ => Forall (fun e => po_Eligible e = true) es
  end.
Proof.
  intros HI%reachable_Inv Hm Hne es. pose proof (fun k => limit_eligible mode k _ _ _ names HI Hm) as Hlim.
  destruct (pose_meta_facts _ _ _ HI Hm) as (_ & Hwf & _). unfold pose_limit in Hlim.
  destruct (PoseOrderMode_of mode) eqn:Emode; try (by apply (Hlim _ eq_refl)).
  - apply Forall_forall. intros e (i & p & _ & ->)%Compute_elem. cbn. unfold eligibility. by rewrite Emode.
  - subst es. unfold Compute_, sort_for. rewrite Emode.
    pose proof (strict_queue_ordered _ Hwf) as Hs. pose proof (sort_stable_perm strict_less (pp_Participants m)) as Hp.
    unfold sortStrictQueue in *. destruct (sort_stable strict_less (pp_Participants m)) as [|p l].
    { by apply Permutation_nil_l in Hp. }
    inversion Hs as [|? ? _ Hall]; subst. eexists p, _, _. cbn [imap]. split; [reflexivity|]. split_and!.
    + cbn. unfold eligibility. by rewrite Emode.
    + apply Forall_forall. intros e (i & x & -> & _)%elem_of_lookup_imap. cbn. unfold eligibility. by rewrite Emode.
    + rewrite <- Hp. apply list_elem_of_here.
    + done.
    + intros q Hq. rewrite <- Hp in Hq. apply elem_of_cons in Hq as [->|Hq]; [|by eapply Forall_forall in Hall].
      destruct (strict_less p p) eqn:E; [|done]. by rewrite (strict_less_asym _ _ E) in E.
  - apply Forall_forall. intros e (i & p & _ & ->)%Compute_elem. cbn. unfold eligibility. by rewrite Emode.
Qed.

Lemma pose_order_never_stuck_witness :
  exists m e es', ListParticipantsWithPoseMeta "S1" (w_db open_world) = (Ok m, w_db open_world)
    /\ Compute_ "strict" (pp_TotalPoseCount m) (pp_Participants m) ∅ = e :: es' /\ po_Eligible e = true.
Proof.
  pose (m := metas_of "S1" (w_db open_world)).
  pose proof (metas_of_read "S1" (w_db open_world)) as Hm. fold m in Hm.
  assert (Hne : pp_Participants m <> []) by (vm_compute; discriminate).
  destruct (pose_order_never_stuck open_world "S1" m "strict" ∅ open_reachable Hm Hne) as (p & e & es' & H1 & H2 & _).
  exact (ex_intro _ m (ex_intro _ e (ex_intro _ es' (conj Hm (conj H1 H2))))).
Defined.
