(* ===== verification/SceneGates.v ===== *)
(** Who may do what in the scenes plugin: in every trace of a handler's calls,
    whatever the store and the host answer, the calls that change a scene come
    after the policy's permit, and those that read private content come after the
    membership check. *)

From S2P Require Import Prelude GoStrings Sql SceneTypes SceneRender SceneStore ScenePublishStore SceneProg SceneService ScenePublish SceneWorld.

Open Scope Z_scope.
Open Scope prog_scope.

(** ** Traces *)
Inductive event : Type :=
| EStore {A : Type} (c : store_call A) (r : result A)
| EHost {A : Type} (c : host_call A) (a : A).

(** The calls of a handler with their answers, which may be any. *)
Inductive emits {B} : prog B -> list event -> prog B -> Prop :=
| emits_nil p : emits p [] p
| emits_store A (c : store_call A) k r l p' : emits (k r) l p' -> emits (Store c k) (EStore c r :: l) p'
| emits_host A (c : host_call A) k a l p' : emits (k a) l p' -> emits (Host c k) (EHost c a :: l) p'.

Definition thread_emits (t : thread) (l : list event) : Prop :=
  match t with Thread p => exists p', emits p l p' end.

(** [G h e]: the call [e] may be made after the calls [h], latest first;
    [Q h b]: the handler may answer [b] after them. *)
Definition guard : Type := list event -> event -> Prop.

Fixpoint guarded {B} (G : guard) (Q : list event -> B -> Prop) (h : list event) (p : prog B) : Prop :=
  match p with
  | Done b => Q h b
  | Store c k => forall r, G h (EStore c r) /\ guarded G Q (EStore c r :: h) (k r)
  | Host c k => forall a, G h (EHost c a) /\ guarded G Q (EHost c a :: h) (k a)
  end.

Definition any_answer {B} : list event -> B -> Prop := fun _ _ => True.

Lemma guarded_emits {B} G Q (p : prog B) l p' h l1 e l2 :
  guarded G Q h p -> emits p l p' -> l = l1 ++ e :: l2 -> G (reverse l1 ++ h) e.
Proof.
  intros Hg He. revert h l1 Hg. induction He as [p|A c k r l p' He IH|A c k r l p' He IH];
    intros h l1 Hg Hl; [by destruct l1|..]; destruct (Hg r) as [H1 H2]; destruct l1 as [|x l1];
    simplify_eq/=; try done; rewrite reverse_cons, <- app_assoc; by apply IH.
Qed.

Lemma guarded_answers {B} G Q (p : prog B) l b h :
  guarded G Q h p -> emits p l (Done b) -> Q (reverse l ++ h) b.
Proof.
  intros Hg He. remember (Done b) as p' eqn:E. revert h Hg.
  induction He as [p|A c k r l p' He IH|A c k r l p' He IH]; intros h Hg; subst; [done|..];
    destruct (Hg r) as [_ H2]; rewrite reverse_cons, <- app_assoc; by apply IH.
Qed.

(** ** Policy gate *)

(** Calls that change tables the scene's members share. *)
Definition mutates (e : event) : bool :=
  match e with
  | EStore c _ =>
      match c with
      | SCreateWithOwner _ | SAddObserver _ _ | SEnd _ | SPause _ | SResume _ | SUpdate _ _
      | SAddParticipant _ _ | SRemoveParticipant _ _ | SInviteParticipant _ _ _ | SKickParticipant _ _ _
      | STransferOwnership _ _ _ | SSetSceneMute _ _ _ | SSetSceneNotifyPref _ _ | SCreatePublishAttempt _
      | SCastVote _ _ _ | STransitionStatus _ _ | SExtendMaxPublishAttempts _ _ | SSnapshotTx _ _ _ _
      | SAuditInsert _ _ | SInsertScenePose _ _ _ _ => true
      | _ => false
      end
  | EHost c _ => match c with HEmit _ | HJoinFocus _ _ | HSend _ => true | _ => false end
  end.

(** The action and scene whose permit a request needs. *)
Definition required_permit (rq : request) : option (string * string) :=
  match rq with
  | RqEndScene _ _ i => Some ("end", i)
  | RqPauseScene _ _ i => Some ("pause", i)
  | RqResumeScene _ _ i => Some ("resume", i)
  | RqMuteScene _ _ i _ => Some ("mute", i)
  | RqUpdateScene _ req => Some ("update", uq_SceneId req)
  | RqWatchScene _ _ i _ => Some ("spectate", i)
  | RqLeaveScene _ _ i => Some ("leave", i)
  | RqInviteToScene _ _ i _ => Some ("invite", i)
  | RqKickFromScene _ _ i _ => Some ("kick", i)
  | RqTransferOwnership _ _ i _ => Some ("transfer-ownership", i)
  | _ => None
  end.

Definition permit (action sceneID : string) : event := EHost (HEvaluate action ("scene:" +:+ sceneID)) (Ok true).

Definition needs_permit (action sceneID : string) : guard :=
  fun h e => mutates e = true -> permit action sceneID ∈ h.

Lemma permitted {B} a i h (p : prog B) : permit a i ∈ h -> guarded (needs_permit a i) any_answer h p.
Proof.
  revert h. induction p as [b|A c k IH|A c k IH]; intros h Hh; cbn; [done|..];
    intros r; (split; [by intros _|]); apply IH; by apply list_elem_of_further.
Qed.

Lemma guarded_gate {A} s a i d (k : prog (rpc A)) h : guarded (needs_permit a i) any_answer h (gate s a i d k).
Proof.
  unfold gate. destruct (negb (sv_has_evaluator s)); [done|]. cbn. intros [[]|e]; (split; [done|]); cbn; [|done..].
  apply permitted, list_elem_of_here.
Qed.

Lemma guarded_gated {A} s ctx a c i m d (k : prog (rpc A)) h : guarded (needs_permit a i) any_answer h (gated s ctx a c i m d k).
Proof. unfold gated. destruct (mismatchedActingCharacter ctx c); [done|apply guarded_gate]. Qed.

Lemma guarded_watch s ctx c i se h : guarded (needs_permit "spectate" i) any_answer h (WatchScene s ctx c i se).
Proof.
  unfold WatchScene. destruct (mismatchedActingCharacter ctx c); [done|].
  cbn. intros [scene|e]; (split; [done|]); cbn; [|done]. destruct (_ || _); [done|]. apply guarded_gate.
Qed.

(** C28: a request that changes a scene or its membership under policy (end, pause,
    resume, mute, update, watch, leave, invite, kick, transfer) changes no table,
    emits no event and registers no focus before the policy engine permitted that
    action on that scene, whatever the store and the host answer. *)
Theorem mutations_need_permit s rq action sceneID l l1 e l2 :
  required_permit rq = Some (action, sceneID) -> thread_emits (handle s rq) l -> l = l1 ++ e :: l2 ->
  mutates e = true -> permit action sceneID ∈ l1.
Proof.
  intros Hreq Hem Hl Hmut.
  assert (Hin : permit action sceneID ∈ reverse l1 ++ []).
  { destruct rq; try discriminate Hreq; injection Hreq as <- <-; cbn [handle] in Hem; destruct Hem as [p' Hem];
      (eapply (guarded_emits (needs_permit _ _) any_answer _ _ _ []); [|exact Hem|exact Hl|exact Hmut]);
      first [apply guarded_watch|apply guarded_gated]. }
  by rewrite app_nil_r, elem_of_reverse in Hin.
Qed.

Definition demo_svc : Svc := mkSvc "g" 0 0 true true true true true Some id (fun _ => None).

Lemma mutations_need_permit_witness : permit "end" "S1" ∈ [permit "end" "S1"].
Proof.
  apply (mutations_need_permit demo_svc (RqEndScene None "alice" "S1") "end" "S1"
    ([permit "end" "S1"] ++ EStore (SEnd "S1") (Err (ErrNew "down")) :: [])
    [permit "end" "S1"] (EStore (SEnd "S1") (Err (ErrNew "down"))) []); [reflexivity| |reflexivity|reflexivity].
  eexists. cbn. eapply emits_host, emits_store. apply emits_nil.
Defined.

(** ** Private content *)

(** The caller was found to be a participant of the attempt's scene. *)
Definition admitted (s : Svc) (callerID a : string) (h : list event) : Prop :=
  exists caller pub, parseCallerCharacterID s callerID = Ok caller
    /\ EStore (SGetPublishedSceneHeader a) (Ok (Some pub)) ∈ h
    /\ EStore (SIsParticipant (ps_SceneID pub) caller) (Ok true) ∈ h.

Lemma admitted_reverse s c a l : admitted s c a (reverse l ++ []) -> admitted s c a l.
Proof.
  intros (caller & pub & Hp & H1 & H2). exists caller, pub.
  by rewrite app_nil_r, elem_of_reverse in H1, H2.
Qed.

Definition content_guard (s : Svc) (callerID a : string) : guard :=
  fun h e => match e with
             | EStore (SGetPublishedSceneContent a') _ => a' = a /\ admitted s callerID a h
             | _ => True
             end.

Definition content_answer {A} (s : Svc) (callerID a : string) (h : list event) (r : rpc A) : Prop :=
  match r with Reply _ => admitted s callerID a h | Status _ _ => True end.

(** Errors carry no content. *)
Lemma mapped_answer {A} s c a h e : content_answer s c a h (@mapStoreErr A e).
Proof. unfold mapStoreErr. by repeat case_match. Qed.

Ltac refused := first [done | apply mapped_answer].
Ltac emitted := repeat (first [apply list_elem_of_here | apply list_elem_of_further]).

Lemma guarded_GetPublishedScene s c a :
  guarded (content_guard s c a) (content_answer s c a) [] (GetPublishedScene s c a).
Proof.
  unfold GetPublishedScene. destruct (parseCallerCharacterID s c) as [caller|e] eqn:Hc; [|refused].
  cbn. intros [[pub|]|e]; (split; [done|]); cbn; [|refused..]. intros [[]|e]; (split; [done|]); cbn; [|refused..].
  assert (Hadm : forall h, admitted s c a (h ++ [EStore (SIsParticipant (ps_SceneID pub) caller) (Ok true);
                                                 EStore (SGetPublishedSceneHeader a) (Ok (Some pub))])).
  { intros h. exists caller, pub. rewrite !elem_of_app. split; [done|]. split; right; emitted. }
  case_bool_decide; cbn.
  - intros r. split; [split; [done|apply (Hadm [])]|]. destruct r; cbn; [|done].
    intros r. split; [done|]. destruct r; cbn; [apply (Hadm [_; _])|refused].
  - intros r. split; [done|]. destruct r; cbn; [apply (Hadm [_])|refused].
Qed.

Lemma guarded_DownloadPublishedScene s c a f :
  guarded (content_guard s c a) (content_answer s c a) [] (DownloadPublishedScene s c a f).
Proof.
  unfold DownloadPublishedScene. destruct (parseCallerCharacterID s c) as [caller|e] eqn:Hc; [|refused].
  destruct (publishRenderMime f); [|refused].
  cbn. intros [[pub|]|e]; (split; [done|]); cbn; [|refused..]. intros [[]|e]; (split; [done|]); cbn; [|refused..].
  assert (Hadm : forall h, admitted s c a (h ++ [EStore (SIsParticipant (ps_SceneID pub) caller) (Ok true);
                                                 EStore (SGetPublishedSceneHeader a) (Ok (Some pub))])).
  { intros h. exists caller, pub. rewrite !elem_of_app. split; [done|]. split; right; emitted. }
  case_bool_decide; cbn; [|refused]. intros r. split; [split; [done|apply (Hadm [])]|]. destruct r as [es|]; cbn; [|done].
  destruct (renderPublishedScene f es); cbn; [apply (Hadm [_])|done].
Qed.

(** Reads content and answers only for admitted callers. *)
Definition admits_first {A} (s : Svc) (callerID a : string) (p : prog (rpc A)) : Prop :=
  forall l p', emits p l p' ->
    (forall x, p' = Done (Reply x) -> admitted s callerID a l)
    /\ (forall l1 l2 a' r, l = l1 ++ EStore (SGetPublishedSceneContent a') r :: l2 ->
          a' = a /\ admitted s callerID a l1).

Lemma guarded_admits {A} s c a (p : prog (rpc A)) :
  guarded (content_guard s c a) (content_answer s c a) [] p -> admits_first s c a p.
Proof.
  intros Hg l p' Hem. split.
  - intros x ->. exact (admitted_reverse _ _ _ _ (guarded_answers _ _ _ _ _ _ Hg Hem)).
  - intros l1 l2 a' r Hl. destruct (guarded_emits _ _ _ _ _ _ _ _ _ Hg Hem Hl) as [? ?]. eauto using admitted_reverse.
Qed.

(** The content of a publication is read, and anything but an error answered,
    only after its header was found and the caller was found to be a participant
    of its scene, in [GetPublishedScene] and [DownloadPublishedScene], whatever the
    store answers. *)
Theorem private_content_gated s callerID a :
  admits_first s callerID a (GetPublishedScene s callerID a)
  /\ forall format, admits_first s callerID a (DownloadPublishedScene s callerID a format).
Proof.
  split; [|intros format]; apply guarded_admits; [apply guarded_GetPublishedScene|apply guarded_DownloadPublishedScene].
Qed.

(** ** The scene's log *)

(** The requests that read a scene's log and the row that admits them. *)
Definition history_guard (s : Svc) (req : QueryHistoryRequest) : guard :=
  fun h e => match e with
             | EStore c _ =>
                 match c with
                 | SQueryLog subject _ _ _ _ _ _ =>
                     subject = hq_Subject req
                     /\ exists sceneID idb, parseSceneSubject (hq_Subject req) = Ok sceneID
                          /\ hq_Caller req = Some (ActorCharacter, idb) /\ String.length idb = 16%nat
                          /\ EStore (SIsMember sceneID (ulid_text s idb)) (Ok true) ∈ h
                 | _ => True
                 end
             | EHost c _ =>
                 match c with
                 | HSend row => exists a b nb na rev n rows,
                     EStore (SQueryLog (hq_Subject req) a b nb na rev n) (Ok rows) ∈ h /\ row ∈ map history_row rows
                     /\ 0 < n <= auditMaxPageSize
                 | _ => True
                 end
             end.

Lemma history_page_bounds n : 0 < history_page n <= auditMaxPageSize.
Proof. unfold history_page, auditMaxPageSize, auditDefaultPageSize. repeat case_match; lia. Qed.

Lemma guarded_send_rows s req a b nb na rev n rows0 rows h :
  EStore (SQueryLog (hq_Subject req) a b nb na rev n) (Ok rows0) ∈ h -> 0 < n <= auditMaxPageSize ->
  (forall r, r ∈ rows -> r ∈ rows0) ->
  guarded (history_guard s req) any_answer h (send_rows rows).
Proof.
  intros Hh Hn. revert h Hh. induction rows as [|r rows IH]; intros h Hh Hr; [done|]. cbn. intros x. split.
  - exists a, b, nb, na, rev, n, rows0. split_and!; try done; try lia.
    apply (list_elem_of_fmap_2 history_row), Hr, list_elem_of_here.
  - destruct x; cbn; [|done]. apply IH; [by apply list_elem_of_further|].
    intros y Hy. apply Hr. by apply list_elem_of_further.
Qed.

Lemma guarded_QueryHistory s m req : guarded (history_guard s req) any_answer [] (QueryHistory s m req).
Proof.
  unfold QueryHistory. destruct (is_empty (hq_Subject req)); [done|].
  destruct (hq_Caller req) as [[kind idb]|] eqn:Hc; [|done]. case_bool_decide as Hk; [|done]. cbn [negb]. subst kind.
  destruct (String.length idb =? 16)%nat eqn:Hlen; [|done]. apply Nat.eqb_eq in Hlen. cbn [negb orb].
  destruct (String.eqb idb zero_ulid); [done|].
  destruct (parseSceneSubject (hq_Subject req)) as [sceneID|] eqn:Hs; [|done]. destruct m; [|done].
  cbn. intros [[]|e]; (split; [done|]); cbn; [|done..]. intros [rows|e]; (split; [split; [done|]|]); cbn.
  - exists sceneID, idb. split_and!; try done. apply list_elem_of_here.
  - eapply guarded_send_rows; [apply list_elem_of_here|apply history_page_bounds|done].
  - exists sceneID, idb. split_and!; try done. apply list_elem_of_here.
  - done.
Qed.

(** [QueryHistory] reads a scene's log only for a caller of character kind
    whose membership in the scene the subject names was confirmed by the store,
    and streams only rows that this read returned, having asked for at most 200. *)
Theorem history_private s m req l p' l1 e l2 :
  emits (QueryHistory s m req) l p' -> l = l1 ++ e :: l2 -> history_guard s req (reverse l1) e.
Proof.
  intros Hem Hl. rewrite <- (app_nil_r (reverse l1)).
  exact (guarded_emits _ _ _ _ _ _ _ _ _ (guarded_QueryHistory s m req) Hem Hl).
Qed.

Definition demo_history : QueryHistoryRequest :=
  mkHistoryReq "events.g.scene.S1.ic" (Some (ActorCharacter, "alice-----------")) 1000 0 EmptyString EmptyString None None.

Lemma history_private_witness :
  history_guard demo_svc demo_history [EStore (SIsMember "S1" "alice-----------") (Ok true)]
    (EStore (SQueryLog "events.g.scene.S1.ic" EmptyString EmptyString None None false 200) (Err (ErrNew "down"))).
Proof.
  refine (history_private demo_svc true demo_history _ _ [EStore (SIsMember "S1" "alice-----------") (Ok true)] _ [] _ eq_refl).
  cbn. eapply emits_store. cbn. eapply emits_store. apply emits_nil.
Defined.
