(* ===== verification/SceneSnapshot.v ===== *)
(** The snapshot pipeline and the publication scheduler: decryption in batches is
    decryption of the whole log, and a sweep decides every attempt whose time is
    up.  Then behaviour of the plugin that its comments or its interface do not lead
    one to expect, shown by theorems over all reachable states, or by runs. *)

From S2P Require Import Prelude GoStrings Sql SceneTypes SceneStore ScenePublishStore SceneProg SceneService ScenePublish SceneInv ScenePubInv SceneWorld.

Open Scope Z_scope.
Open Scope prog_scope.

(** ** Running a handler to its end under one environment *)
Fixpoint run_env {B} (en : environment) (p : prog B) (db : DB) : B * DB :=
  match p with
  | Done b => (b, db)
  | Store c k => let '(r, db') := exec_store en c db in run_env en (k r) db'
  | Host c k => run_env en (k (en_host en _ c)) db
  end.

Lemma run_env_bind {A B} en (p : prog A) (f : A -> prog B) db :
  run_env en (p ≫= f) db = let '(a, db') := run_env en p db in run_env en (f a) db'.
Proof.
  unfold mbind, prog_mbind. revert db. induction p as [a|A' c k IH|A' c k IH]; intros db; cbn; [done| |apply IH].
  destruct (exec_store en c db). apply IH.
Qed.

Lemma run_env_try {A B} en (c : store_call A) (h : error -> prog B) k db :
  run_env en (try_ (call c) h k) db
  = let '(r, db') := exec_store en c db in run_env en (match r with Ok a => k a | Err e => h e end) db'.
Proof. unfold try_. rewrite run_env_bind. cbn. by destruct (exec_store en c db). Qed.

Lemma run_env_safe {B} en (p : prog B) db : Inv db -> safe db p -> keeps db (run_env en p db).2.
Proof.
  unfold safe. revert db. induction p as [b|A c k IH|A c k IH]; intros db HI Hs; cbn.
  - by apply keeps_refl.
  - destruct (Hs db en (R_refl db) HI) as [Hk Hw]. destruct (exec_store en c db) as [r db']. cbn in *.
    eapply keeps_trans; [exact Hk|]. apply IH; [apply Hk|done].
  - apply IH; [done|apply Hs].
Qed.

(** Handlers that only read leave the tables alone. *)
Fixpoint reads {B} (p : prog B) : Prop :=
  match p with
  | Done _ => True
  | Store c k => (forall ck db, (run_call ck c db).2 = db) /\ forall r, reads (k r)
  | Host c k => forall a, reads (k a)
  end.

Lemma run_env_reads {B} en (p : prog B) db : reads p -> (run_env en p db).2 = db.
Proof.
  revert db. induction p as [b|A c k IH|A c k IH]; intros db; cbn; [done| |auto].
  intros [Hc Hk]. destruct (exec_store en c db) as [r db'] eqn:E.
  assert (db' = db) as ->; [|auto]. unfold exec_store in E.
  pose proof (Hc (en_clock en) db) as H. destruct (en_fault en); [|congruence|]; rewrite E in H || idtac; by simplify_eq/=.
Qed.

(** ** Batches *)

(** The host decrypts each row by itself. *)
Definition decrypts (en : environment) (dec : AuditRow -> RowResult) : Prop :=
  forall rows, en_host en _ (HDecryptOwnAuditRows rows) = Ok (map dec rows).

(** One row of the log, and the log, rendered without batches. *)
Definition render_row (s : Svc) (dec : AuditRow -> RowResult) (subject : string) (row : LogRow)
    : PublishFailureReason + PublishedSceneEntry :=
  let res := dec (logRowToAuditRow subject row) in
  if negb (is_empty (rr_NoPlaintextReason res)) then inl FailureSnapshotDecryptFailed
  else match decodeSnapshotEntry s (lr_Type row) (rr_Plaintext res) with
       | Ok (Some e) => inr e
       | _ => inl FailureSnapshotRenderFailed
       end.

Fixpoint render_log (s : Svc) (dec : AuditRow -> RowResult) (subject : string) (rows : list LogRow)
    : PublishFailureReason + list PublishedSceneEntry :=
  match rows with
  | [] => inr []
  | row :: rows' =>
      match render_row s dec subject row with
      | inl f => inl f
      | inr e => match render_log s dec subject rows' with inl f => inl f | inr es => inr (e :: es) end
      end
  end.

Lemma chunks_concat {A} fuel n (l : list A) :
  (0 < n)%nat -> (length l <= fuel)%nat -> concat (chunks fuel n l) = l /\ Forall (fun c => length c <= n)%nat (chunks fuel n l).
Proof.
  intros Hn. revert l. induction fuel as [|fuel IH]; intros l Hl; [destruct l; [done|cbn in Hl; lia]|].
  destruct l as [|a l]; [done|]. cbn [chunks concat].
  destruct (IH (drop n (a :: l))) as [E F]; [rewrite length_drop; cbn in *; lia|]. split.
  - by rewrite E, take_drop.
  - constructor; [|done]. rewrite length_take. lia.
Qed.

Lemma render_log_app s dec su a b :
  render_log s dec su (a ++ b) = match render_log s dec su a with
                                | inl f => inl f
                                | inr x => match render_log s dec su b with inl f => inl f | inr y => inr (x ++ y) end
                                end.
Proof.
  induction a as [|r a IH]; cbn; [by destruct (render_log s dec su b)|].
  destruct (render_row s dec su r); [done|]. rewrite IH. destruct (render_log s dec su a); [done|].
  by destruct (render_log s dec su b).
Qed.

Lemma decode_chunk_render s dec su c :
  decode_chunk s c (map dec (map (logRowToAuditRow su) c)) = render_log s dec su c.
Proof.
  induction c as [|r c IH]; [done|]. cbn. unfold render_row.
  destruct (negb _); [done|]. destruct (decodeSnapshotEntry s (lr_Type r) _) as [[e|]|]; [|done..]. by rewrite IH.
Qed.

Lemma decrypt_loop_render s en dec su cs es db :
  decrypts en dec ->
  run_env en (decrypt_loop s su cs es) db
  = (match render_log s dec su (concat cs) with inl f => inl f | inr x => inr (es ++ x) end, db).
Proof.
  intros Hd. revert es. induction cs as [|c cs IH]; intros es; cbn [decrypt_loop concat].
  - cbn. by rewrite app_nil_r.
  - rewrite run_env_bind. cbn. rewrite Hd, !length_map, Nat.eqb_refl. cbn [negb].
    rewrite decode_chunk_render, render_log_app. destruct (render_log s dec su c) as [f|x]; [done|].
    rewrite IH. destruct (render_log s dec su (concat cs)); [done|]. by rewrite app_assoc.
Qed.

(** Decrypting a scene's log in batches of 500 gives the entries, or the first
    failure, of decrypting it row by row, and leaves the tables alone; every batch
    is within the host's limit and none of the log is lost or repeated. *)
Theorem decryptAndRender_unbatched s en dec subject rows db :
  decrypts en dec ->
  run_env en (decryptAndRender s subject rows) db = (render_log s dec subject rows, db)
  /\ concat (chunks (length rows) snapshotDecryptBatch rows) = rows
  /\ Forall (fun c => length c <= 500)%nat (chunks (length rows) snapshotDecryptBatch rows).
Proof.
  intros Hd. destruct (chunks_concat (length rows) snapshotDecryptBatch rows) as [E F]; [unfold snapshotDecryptBatch; lia|lia|].
  split_and!; [|done|done]. unfold decryptAndRender. rewrite (decrypt_loop_render s en dec), E by done.
  by destruct (render_log s dec subject rows).
Qed.

Definition demo_row : LogRow :=
  mkLogRow "0123456789abcdef" "core-scenes:scene_pose" 3 "character" "alice" "Alice waves." 1 "identity" None None.

Lemma decryptAndRender_unbatched_witness :
  run_env (at_ 0 EmptyString) (decryptAndRender demo "events.main.scene.S1.ic" [demo_row]) empty_db
  = (inr [mkEntry "alice" EntryKindPose "Alice waves."], empty_db).
Proof.
  apply (decryptAndRender_unbatched demo (at_ 0 EmptyString) (fun r => mkRowResult (ar_Payload r) EmptyString)
    "events.main.scene.S1.ic" [demo_row] empty_db). intros rows. reflexivity.
Defined.

(** ** Deciding one attempt *)

(** Updates of one attempt that decide it meet no index. *)
Lemma put_pub_decides code id r r' db :
  Inv db -> db_published db !! id = Some r -> IsTerminal (pb_status r) = false -> same_attempt r r' ->
  pub_check r' = true -> IsTerminal (pb_status r') = true ->
  put_pub code id r' db = (Ok tt, set_published db (<[id := r']> (db_published db))).
Proof.
  intros HI Hr Ht Hs Hck Ht'. unfold put_pub, mbind, txn_bind, read, write. cbn. rewrite Hck. cbn.
  assert (Hnc : pub_conflict (db_published db) id r' = None); [|by rewrite Hnc].
  destruct Hs as (Hsid & Hnum & _). unfold pub_conflict.
  assert (Hex : forall P, (forall x y, x <> id -> db_published db !! x = Some y -> pb_scene_id y = pb_scene_id r -> P y = false) ->
    other_pub (db_published db) id (pb_scene_id r') P = false).
  { intros P HP. apply existsb_false. intros [x y] Hy%elem_of_map_to_list. cbn.
    destruct (String.eqb x id) eqn:E1; [done|]. destruct (String.eqb (pb_scene_id y) _) eqn:E2; [|done]. cbn.
    apply String.eqb_neq in E1. apply String.eqb_eq in E2. eapply HP; eauto. congruence. }
  assert (Hopen : pb_status r <> StatusAttemptFailed) by (intros E; by rewrite E in Ht).
  rewrite !Hex.
  - by rewrite !andb_false_r.
  - intros x y Hx Hy Hsy. apply Z.eqb_neq. intros E. apply Hx. eapply (inv_numbers _ HI); eauto. congruence.
  - intros x y Hx Hy Hsy. apply bool_decide_eq_false. intros E. apply Hx.
    eapply (inv_one_open _ HI x id); eauto. congruence.
  - intros x y Hx Hy Hsy. destruct (is_active (pb_status y)) eqn:E; [|done]. exfalso. apply Hx.
    eapply (inv_one_open _ HI x id); eauto. intros E'. by rewrite E' in E.
Qed.

(** [db'] is [db] with attempt [id] decided and the others as they were. *)
Definition decides (db db' : DB) (id : string) : Prop :=
  (exists r, db_published db' !! id = Some r /\ IsTerminal (pb_status r) = true)
  /\ forall x, x <> id -> db_published db' !! x = db_published db !! x.

Lemma decides_insert db db' id r :
  db_published db' = <[id := r]> (db_published db) -> IsTerminal (pb_status r) = true -> decides db db' id.
Proof.
  intros E Ht. split; rewrite E; [exists r; by rewrite lookup_insert_eq|]. intros x Hx. by rewrite lookup_insert_ne.
Qed.

Lemma check_failed r r' f :
  pub_check r = true -> pb_status r' = StatusAttemptFailed -> pb_failure_reason r' = Some f ->
  pb_attempt_number r' = pb_attempt_number r -> pb_max_attempts_snapshot r' = pb_max_attempts_snapshot r ->
  pub_check r' = true.
Proof.
  unfold pub_check. intros H Hs Hf -> ->. rewrite !andb_true_iff in *. rewrite Hs, Hf. naive_solver.
Qed.

Lemma FailAttemptTx_decides ck id reason db r :
  Inv db -> db_published db !! id = Some r -> pb_status r = StatusCoolOff ->
  exists db', FailAttemptTx ck id reason db = (Ok tt, db') /\ decides db db' id.
Proof.
  intros HI Hr Hst. eexists. split.
  - unfold FailAttemptTx, mbind at 1, txn_bind at 1, read. rewrite Hr, bool_decide_true by done.
    apply put_pub_decides with r; try done; [by rewrite Hst|].
    by eapply (check_failed r _ reason); [eapply (inv_check _ HI)|..].
  - by apply (decides_insert _ _ _ (failed_row (ck_go ck) reason r)).
Qed.

Lemma snapshot_tx_decides ck id s es f db r :
  Inv db -> db_published db !! id = Some r -> pb_status r = StatusCoolOff -> pb_scene_id r = s ->
  exists o db', snapshot_tx ck id s es f db = (Ok o, db') /\ decides db db' id.
Proof.
  intros HI Hr Hst Hs.
  assert (Hfail : forall reason, exists o db', atomically (_ ← FailAttemptTx ck id reason;
    mret (SnapshotFailed reason)) db = (Ok o, db') /\ decides db db' id).
  { intros reason. destruct (FailAttemptTx_decides ck id reason db r HI Hr Hst) as (db' & E & Hd).
    exists (SnapshotFailed reason), db'. split; [|done]. unfold atomically, mbind, txn_bind. by rewrite E. }
  unfold atomically in Hfail. unfold snapshot_tx, LockForSnapshot, atomically, mbind at 1, txn_bind at 1, read. cbn [fst snd].
  rewrite Hr, bool_decide_true by done. cbn [mret txn_ret]. unfold mbind at 1, txn_bind at 1, TallyVotesTx, read at 1.
  change (ps_ID (header_of id r)) with id. destruct (_ || _); [apply Hfail|].
  destruct f as [reason|]; [apply Hfail|]. clear Hfail.
  destruct (inv_pub_scene _ HI _ _ Hr) as (sc & Hsc & _). rewrite Hs in Hsc.
  unfold ReadSceneMetaForSnapshot, MarkPublished, mbind, txn_bind, read. rewrite Hr, bool_decide_true by done.
  pose proof (inv_pub _ HI _ _ Hr) as Hok. unfold pub_ok in Hok. rewrite Hst in Hok.
  destruct Hok as (_ & _ & _ & _ & Hnf).
  match goal with |- context [put_pub ?code id (published_row ?m r) db] =>
    rewrite (put_pub_decides code id r (published_row m r) db); try done end.
  - unfold ArchiveSceneStateForPublish, mbind, txn_bind, read, put_scene, write. cbn. rewrite Hsc. cbn.
    do 2 eexists. split; [reflexivity|]. by eapply decides_insert.
  - by rewrite Hst.
  - pose proof (inv_check _ HI _ _ Hr) as Hck. unfold pub_check in *. rewrite !andb_true_iff in *. cbn.
    rewrite Hnf. rewrite Hst in Hck. naive_solver.
Qed.

(** ** The scheduler's handlers, run without faults *)
Lemma reads_bind {A B} (p : prog A) (f : A -> prog B) : reads p -> (forall a, reads (f a)) -> reads (p ≫= f).
Proof. unfold mbind, prog_mbind. intros Hp Hf. induction p; cbn in *; naive_solver. Qed.

Lemma reads_notify s a t p : reads (notify s a t p).
Proof.
  unfold notify. destruct (negb (sv_has_sink s)); [done|]. cbn. split; [done|].
  intros [[pub|]|e]; cbn; [|done..]. unfold notice. by destruct (sv_has_sink s).
Qed.

Lemma reads_decrypt s su cs es : reads (decrypt_loop s su cs es).
Proof.
  revert es. induction cs as [|c cs IH]; intros es; cbn; [done|]. intros [rs|e]; cbn; [|done].
  destruct (negb _); [done|]. by destruct (decode_chunk s c rs).
Qed.

Section Sweep.
Context (s : Svc) (en : environment) (Hnf : en_fault en = NoFault).

Lemma exec_NoFault {A} (c : store_call A) db : exec_store en c db = run_call (en_clock en) c db.
Proof. unfold exec_store. by rewrite Hnf. Qed.

Lemma timeout_decides a db r :
  Inv db -> db_published db !! sa_ID a = Some r -> pb_status r = StatusCollecting ->
  decides db (run_env en (sweep_timeout s a) db).2 (sa_ID a).
Proof.
  intros HI Hr Hst. unfold sweep_timeout, applyTrigger. rewrite run_env_bind, run_env_try, exec_NoFault.
  cbn [run_call]. unfold GetPublishedSceneHeader, read. rewrite Hr. cbn [fmap option_fmap option_map].
  rewrite run_env_bind. cbn [run_env host]. cbn [ps_Status header_of]. rewrite Hst. cbn [transition_for NextStatus FailureReasonForTrigger].
  set (t := mkTransition _ _ _ _ _). rewrite run_env_try, exec_NoFault. cbn [run_call].
  set (r' := transition_row (ck_go (en_clock en)) t r).
  assert (E : TransitionStatus (en_clock en) (sa_ID a) t db = (Ok tt, set_published db (<[sa_ID a := r']> (db_published db)))).
  { unfold TransitionStatus, mbind, txn_bind, read. cbn. rewrite Hr, bool_decide_true by (rewrite Hst; set_solver).
    apply put_pub_decides with r; try done; [by rewrite Hst|].
    by eapply (check_failed r _ FailureTimeout); [eapply (inv_check _ HI)|..]. }
  rewrite E. match goal with |- decides _ (let '(_, _) := run_env en ?p ?d in _).2 _ =>
    assert (Hrd : (run_env en p d).2 = d); [|destruct (run_env en p d) as [x d']; cbn in Hrd |- *; subst d'] end.
  - apply run_env_reads. apply reads_bind; [done|]. intros _. apply reads_bind; [|done].
    cbn. split; [done|]. intros r0. apply reads_notify.
  - by apply (decides_insert _ _ _ r').
Qed.

Lemma snapshot_decides a db r :
  sv_has_decryptor s = true -> Inv db -> db_published db !! sa_ID a = Some r -> pb_status r = StatusCoolOff ->
  pb_scene_id r = sa_SceneID a ->
  decides db (run_env en (sweep_snapshot s a) db).2 (sa_ID a).
Proof.
  intros Hdec HI Hr Hst Hs. unfold sweep_snapshot, runSnapshot. rewrite Hdec. cbn [negb].
  rewrite run_env_bind, run_env_try, exec_NoFault. cbn [run_call]. unfold ReadSceneLogForSnapshot, read.
  rewrite run_env_bind. unfold decryptAndRender.
  match goal with |- context [run_env en (decrypt_loop s ?su ?cs ?es) db] =>
    pose proof (run_env_reads en (decrypt_loop s su cs es) db (reads_decrypt s su cs es)) as Hd;
    destruct (run_env en (decrypt_loop s su cs es) db) as [d db0]; cbn in Hd; subst db0 end.
  rewrite run_env_try, exec_NoFault. cbn [run_call].
  match goal with |- context [snapshot_tx ?ck ?id ?sc ?es ?f db] =>
    destruct (snapshot_tx_decides ck id sc es f db r HI Hr Hst Hs) as (o & db' & E & Hdc); rewrite E end.
  match goal with |- decides _ (let '(_, _) := run_env en ?p ?d in _).2 _ =>
    assert (Hrd : (run_env en p d).2 = d); [|destruct (run_env en p d) as [x d']; cbn in Hrd |- *; by subst d'] end.
  apply run_env_reads. destruct o; [done|..]; (apply reads_bind; [apply reads_notify|done]).
Qed.

(** A loop that decides each attempt of a list without repetitions. *)
Lemma forM_decides (f : scheduledAttempt -> prog unit) (st : PublishedSceneStatus) l db :
  IsTerminal st = false ->
  (forall a d, Inv d -> (exists r, db_published d !! sa_ID a = Some r /\ pb_status r = st /\ pb_scene_id r = sa_SceneID a) ->
     safe d (f a) /\ decides d (run_env en (f a) d).2 (sa_ID a)) ->
  NoDup (map sa_ID l) -> Inv db ->
  (forall a, a ∈ l -> exists r, db_published db !! sa_ID a = Some r /\ pb_status r = st /\ pb_scene_id r = sa_SceneID a) ->
  let db' := (run_env en (forM_ l f) db).2 in
  Inv db' /\ (forall a, a ∈ l -> exists r, db_published db' !! sa_ID a = Some r /\ IsTerminal (pb_status r) = true)
  /\ (forall x, x ∉ map sa_ID l -> db_published db' !! x = db_published db !! x).
Proof.
  intros Hst Hf. revert db. induction l as [|a l IH]; intros db Hnd HI Hl; cbn [forM_].
  { cbn. split_and!; [done| |done]. intros a Ha. by apply not_elem_of_nil in Ha. }
  apply NoDup_cons in Hnd as [Hn Hnd]. rewrite run_env_bind.
  destruct (Hf a db HI) as [Hs Hd]; [apply Hl, list_elem_of_here|].
  pose proof (run_env_safe en (f a) db HI Hs) as [HI1 _].
  destruct (run_env en (f a) db) as [u db1]. cbn [snd] in *. destruct Hd as [[r [Hr Ht]] Hoth].
  destruct (IH db1 Hnd HI1) as (HI' & Hin & Hout).
  { intros b Hb. rewrite Hoth; [by apply Hl, list_elem_of_further|].
    intros E. apply Hn. rewrite <- E. by apply list_elem_of_fmap_2. }
  split_and!; [done|..].
  - intros b [->|Hb]%elem_of_cons; [|by apply Hin]. exists r. split; [|done]. by rewrite Hout.
  - intros x [Hx1 Hx2]%not_elem_of_cons. rewrite Hout by done. by apply Hoth.
Qed.
End Sweep.

(** ** The scans *)
Definition due (dl : pub_rec -> option Z) (now : Z) (r : pub_rec) : Prop := exists d, dl r = Some d /\ d <= now.

Lemma expired_run dl code st now db :
  (forall id r, db_published db !! id = Some r -> pb_status r = st -> forall d, dl r = Some d -> int8_ok d = true) ->
  exists l, expired dl code st now db = (Ok l, db) /\ NoDup (map sa_ID l)
    /\ (forall a, a ∈ l -> exists r, db_published db !! sa_ID a = Some r /\ pb_status r = st /\ pb_scene_id r = sa_SceneID a)
    /\ (forall id r, db_published db !! id = Some r -> pb_status r = st -> due dl now r -> id ∈ map sa_ID l).
Proof.
  intros Hfit. unfold expired, mbind at 1, txn_bind, read. set (rows := rows_where _ _).
  assert (Hrows : forall id r, (id, r) ∈ rows <-> db_published db !! id = Some r /\ pb_status r = st).
  { intros id r. unfold rows. by rewrite rows_where_elem, bool_decide_eq_true. }
  rewrite (proj2 (forallb_forall _ _)).
  2: { intros [id r] Hin%list_elem_of_In. apply Hrows in Hin as [Hr Hst]. cbn. destruct (dl r) eqn:E; [eauto|done]. }
  eexists. split; [reflexivity|]. split_and!.
  - assert (Hnd : NoDup (map fst rows)).
    { apply NoDup_fmap_2_strong; [|apply NoDup_rows_where].
      intros [x r] [y r'] [Hx _]%Hrows [Hy _]%Hrows. cbn. intros ->. congruence. }
    clear -Hnd. induction rows as [|[x r] l IH]; [constructor|]. apply NoDup_cons in Hnd as [Hn Hnd].
    cbn. destruct (dl r) as [d|]; cbn; [|by apply IH]. destruct (d <=? now); [|by apply IH]. cbn. constructor; [|by apply IH].
    intros (a & E & Ha)%list_elem_of_fmap. apply list_elem_of_omap in Ha as ([y r'] & Hin & Hd). cbn in *.
    destruct (dl r'); [|done]. cbn in Hd. destruct (_ <=? now); [|done]. injection Hd as <-. cbn in E. subst y.
    apply Hn. by apply (list_elem_of_fmap_2 fst _ (x, r')).
  - intros a ([y r'] & Hin & Hd)%list_elem_of_omap. apply Hrows in Hin as [Hr Hst]. cbn in Hd.
    destruct (dl r'); [|done]. cbn in Hd. destruct (_ <=? now); [|done]. injection Hd as <-. by exists r'.
  - intros id r Hr Hst (d & Hd & Hle). apply list_elem_of_fmap. exists (mkScheduled id (pb_scene_id r)). split; [done|].
    apply list_elem_of_omap. exists (id, r). split; [by apply Hrows|]. cbn. rewrite Hd. cbn. by rewrite (proj2 (Z.leb_le _ _) Hle).
Qed.

Definition vote_due (r : pub_rec) : option Z := Some (vote_deadline r).
Definition cooloff_due (r : pub_rec) : option Z := cooloff_deadline r <$> pb_cooloff_started_at r.

(** The deadlines of an attempt are BIGINTs. *)
Definition deadlines_fit (db : DB) : Prop :=
  forall id r, db_published db !! id = Some r ->
    int8_ok (vote_deadline r) = true /\ forall d, cooloff_due r = Some d -> int8_ok d = true.

(** A sweep of tables that satisfy the invariant. *)
Lemma sweep_run s en db :
  en_fault en = NoFault -> sv_has_decryptor s = true -> Inv db -> deadlines_fit db ->
  let now := en_host en _ HNow in
  let '(res, db') := run_env en (sweep s) db in
  res = Ok tt
  /\ forall id r', db_published db' !! id = Some r' ->
       (IsTerminal (pb_status r') = true \/ db_published db !! id = Some r')
       /\ (pb_status r' = StatusCollecting -> now < vote_deadline r')
       /\ (pb_status r' = StatusCoolOff -> forall d, cooloff_due r' = Some d -> now < d).
Proof.
  intros Hnf Hdec HI Hfit now.
  destruct (expired_run vote_due "SCENE_SCHEDULER_LIST_EXPIRED_COLLECTING_FAILED" StatusCollecting now db)
    as (l1 & E1 & Hnd1 & Hin1 & Hdue1).
  { intros id r Hr _ d [= <-]. by apply (Hfit id). }
  destruct (forM_decides en (sweep_timeout s) StatusCollecting l1 db eq_refl) as (HI1 & Hdec1 & Hoth1); [|done..|].
  { intros a d Hd (r & Hr & Hst & _). split; [|by eapply timeout_decides].
    apply tame_safe. apply tame_bind; [by apply tame_applyTrigger|done]. }
  remember ((run_env en (forM_ l1 (sweep_timeout s)) db).2) as db1 eqn:Edb1.
  destruct (expired_run cooloff_due "SCENE_SCHEDULER_LIST_EXPIRED_COOLOFF_FAILED" StatusCoolOff now db1)
    as (l2 & E2 & Hnd2 & Hin2 & Hdue2).
  { intros id r Hr Hst d Hd. destruct (decide (id ∈ map sa_ID l1)) as [(a & -> & Ha)%list_elem_of_fmap|Hn].
    - destruct (Hdec1 a Ha) as (r0 & Hr0 & Ht). simplify_eq. by rewrite Hst in Ht.
    - rewrite Hoth1 in Hr by done. by eapply (Hfit id). }
  destruct (forM_decides en (sweep_snapshot s) StatusCoolOff l2 db1 eq_refl) as (HI2 & Hdec2 & Hoth2); [|done..|].
  { intros a d Hd (r & Hr & Hst & Hs). split; [|by eapply snapshot_decides].
    apply safe_bind; [|done]. apply safe_runSnapshot. by exists r. }
  unfold sweep. rewrite run_env_bind. cbn [run_env host]. fold now.
  rewrite run_env_try, exec_NoFault by done. cbn [run_call]. unfold ListExpiredCollecting. fold vote_due. rewrite E1.
  rewrite run_env_bind. destruct (run_env en (forM_ l1 (sweep_timeout s)) db) as [? dbx]. cbn in Edb1. subst dbx.
  rewrite run_env_try, exec_NoFault by done. cbn [run_call]. unfold ListExpiredCoolOff. fold cooloff_due. rewrite E2.
  rewrite run_env_bind. destruct (run_env en (forM_ l2 (sweep_snapshot s)) db1) as [? db2]. cbn [snd run_env] in *.
  split; [done|]. intros id r' Hr'.
  destruct (decide (id ∈ map sa_ID l2)) as [(a & -> & Ha)%list_elem_of_fmap|Hn2].
  { destruct (Hdec2 a Ha) as (r0 & Hr0 & Ht). simplify_eq. split; [by left|]. split; intros E; by rewrite E in Ht. }
  rewrite Hoth2 in Hr' by done.
  destruct (decide (id ∈ map sa_ID l1)) as [(a & -> & Ha)%list_elem_of_fmap|Hn1].
  { destruct (Hdec1 a Ha) as (r0 & Hr0 & Ht). simplify_eq. split; [by left|]. split; intros E; by rewrite E in Ht. }
  pose proof Hr' as Hr. rewrite Hoth1 in Hr by done. split_and!; [by right| |].
  - intros Hst. apply Z.lt_nge. intros Hle. apply Hn1, (Hdue1 id r' Hr Hst). by eexists.
  - intros Hst d Hd. apply Z.lt_nge. intros Hle. apply Hn2, (Hdue2 id r' Hr' Hst). by eexists.
Qed.

(** A sweep of the publication scheduler that meets no database fault decides
    every attempt whose time is up and touches no other: afterwards no vote window
    or cool-off that ended by the sweep's clock reading is still open, whatever the
    host answers when it decrypts and notifies. *)
Theorem sweep_decides_expired s en w :
  en_fault en = NoFault -> sv_has_decryptor s = true -> reachable w -> deadlines_fit (w_db w) ->
  let now := en_host en _ HNow in
  let '(res, db') := run_env en (sweep s) (w_db w) in
  res = Ok tt
  /\ forall id r', db_published db' !! id = Some r' ->
       (IsTerminal (pb_status r') = true \/ db_published (w_db w) !! id = Some r')
       /\ (pb_status r' = StatusCollecting -> now < vote_deadline r')
       /\ (pb_status r' = StatusCoolOff -> forall d, cooloff_due r' = Some d -> now < d).
Proof. intros Hnf Hdec Hw. apply sweep_run; [done|done|by apply reachable_Inv]. Qed.

Lemma sweep_decides_expired_witness : (run_env (at_ (100 * sec) EmptyString) (sweep demo) (w_db voted_world)).1 = Ok tt.
Proof.
  assert (Hfit : deadlines_fit (w_db voted_world)).
  { assert (E : forallb (fun kv => int8_ok (vote_deadline kv.2)
        && match cooloff_due kv.2 with Some d => int8_ok d | None => true end)
      (map_to_list (db_published (w_db voted_world))) = true) by (vm_compute; reflexivity).
    intros id r Hr%elem_of_map_to_list%list_elem_of_In. apply forallb_forall with (x := (id, r)) in E; [|exact Hr].
    apply andb_true_iff in E as [E1 E2]. split; [exact E1|]. intros d Hd. cbn in E2. rewrite Hd in E2. exact E2. }
  pose proof (sweep_decides_expired demo (at_ (100 * sec) EmptyString) voted_world eq_refl eq_refl voted_reachable Hfit) as H.
  cbv zeta in H. destruct (run_env (at_ (100 * sec) EmptyString) (sweep demo) (w_db voted_world)) as [res db'].
  exact (proj1 H).
Defined.

Open Scope Z_scope.

(** ** Archived scenes stay in a character's list *)

(** [archived_at] is never written: publishing archives a scene by its state only. *)
Theorem archived_at_never_set w id sc :
  reachable w -> db_scenes (w_db w) !! id = Some sc -> sr_ArchivedAt (sc_row sc) = None.
Proof. intros HI%reachable_Inv Hsc. by destruct (inv_scenes _ HI _ _ Hsc) as (_ & _ & _ & _ & ?). Qed.

(** So [ListCharacterScenes], which filters on it, lists the archived scene. *)
Example archived_scene_listed :
  match (ListCharacterScenes "alice" "events.main.scene." (w_db published_world)).1 with
  | Ok l => map (fun r => (sr_ID (cs_Scene r), sr_State (cs_Scene r))) l
  | Err _ => []
  end = [("S1", SceneStateArchived)].
Proof. vm_compute. reflexivity. Qed.

(** ** Export for invited characters *)
Definition invited_db : DB :=
  set_participants (w_db open_world)
    (<[("S1", "carol") := mkPart ParticipantRoleInvited 0 None None]> (db_participants (w_db open_world))).

(** An invited character may not query the scene's history but may export its log. *)
Example invited_exports :
  (IsMember "S1" "carol" invited_db).1 = Ok false
  /\ (run_env (at_ 0 EmptyString) (ExportSceneLog demo "S1" "carol" "markdown") invited_db).1
     = Reply ("**alice** Alice waves." +:+ SceneRender.nl +:+ SceneRender.nl, "text/markdown", "the-gate.md").
Proof. vm_compute. done. Qed.

(** ** Clearing a list *)
Definition clear_tags : UpdateSceneRequest :=
  mkUpdateReq "alice" "S1" ["tags"] EmptyString EmptyString EmptyString EmptyString EmptyString [] [].

Definition created_world : world :=
  do_acts init_world (served 0 (1 * sec) "S1" (RqCreateScene None (open_scene "alice"))).

(** An update whose mask names tags and whose list is empty writes NULL and fails. *)
Example clearing_tags_fails :
  (run_env (at_ (2 * sec) "E1") (UpdateScene demo None clear_tags) (w_db created_world)).1 = internalErr.
Proof. vm_compute. reflexivity. Qed.

(** ** Creation *)

(** The pose-order mode and tags of a creation request are ignored. *)
Lemma creation_ignores_mode_and_tags id title req :
  sr_PoseOrder (scene_of_request id title req) = "free" /\ sr_Tags (scene_of_request id title req) = [].
Proof. done. Qed.

(** ** Joining twice *)

(** A member whose row is as new as the transaction (a concurrent join that began
    later and committed first) is reported as promoted, with a second join event. *)
Example spurious_promotion :
  let db := w_db (do_acts created_world (served 1 (3 * sec) "E1" (RqJoinScene None "bob" "S1"))) in
  let '(r, db') := AddParticipant (mkClock (2 * sec) (2 * sec) "E2") "S1" "bob" db in
  match r with Ok (_, res) => res = OpPromoted | Err _ => False end
  /\ db_participants db' !! ("S1", "bob") = db_participants db !! ("S1", "bob")
  /\ length (db_ops_events db') = S (length (db_ops_events db)).
Proof. vm_compute. repeat split; reflexivity. Qed.

(** ** Concurrent votes *)

(** Bob's yes (request 6) is counted, and before its transition is applied his no
    (request 7) is recorded; the first then starts the cool-off and the second,
    which saw the attempt collecting, is not applied. *)
Definition race : list act :=
  [Arrive demo (RqCastPublishSceneVote "bob" "A1" true)]
  ++ repeat (Call 6 (at_ (7 * sec) "E6")) 3
  ++ [Arrive demo (RqCastPublishSceneVote "bob" "A1" false)]
  ++ repeat (Call 7 (at_ (8 * sec) "E7")) 2
  ++ repeat (Call 6 (at_ (9 * sec) "E6")) 25
  ++ repeat (Call 7 (at_ (9 * sec) "E7")) 25.

Definition raced_world : world := do_acts open_world race.

(** The attempt is cooling off with a no on record; a tick of the scheduler before
    the end of the cool-off changes nothing, the one after it fails the attempt. *)
Example cooloff_with_a_no :
  status_of raced_world "A1" = Some StatusCoolOff
  /\ No (tally (w_db raced_world) "A1") = 1
  /\ status_of (do_acts raced_world (served 8 (30 * sec) "E8" RqPublishTick)) "A1" = Some StatusCoolOff
  /\ (db_published (w_db (do_acts raced_world (served 8 (90 * sec) "E8" RqPublishTick))) !! "A1" ≫= pb_failure_reason)
     = Some FailureCoolOffInvariantBroken.
Proof. vm_compute. done. Qed.
