(* ===== verification/Programs.v ===== *)
(** Programs as sequences of calls, run concurrently.

    A program makes calls (to a database, to a cache, to another service) and
    continues with their answers; a call is atomic and nothing else is.  [E] is
    the signature of the calls, [exec] their effect on the shared state under an
    environment (clock, randomness, faults, answers of what is outside).  A
    machine runs any number of programs, their calls interleaved in any order; a
    program may be cut off between any two calls.  [wp] is a rely-guarantee logic
    for one program among others. *)

From S2P Require Import Prelude.
From stdpp Require Import relations.

(** ** Programs *)
Section Prog.
Context {E : Type -> Type}.

Inductive prog (B : Type) : Type :=
| Done (b : B)
| Call {A : Type} (c : E A) (k : A -> prog B).

Fixpoint prog_bind {A B} (p : prog A) (f : A -> prog B) : prog B :=
  match p with
  | Done _ a => f a
  | Call _ c k => Call _ c (fun r => prog_bind (k r) f)
  end.
End Prog.
Arguments prog E B : clear implicits.
Arguments Done {E B} b.
Arguments Call {E B A} c k.

#[export] Instance prog_ret E : MRet (prog E) := fun A a => Done a.
#[export] Instance prog_mbind E : MBind (prog E) := fun A B f p => prog_bind p f.

Definition call {E A} (c : E A) : prog E A := Call c Done.

(** [x, err := m; if err != nil { h }; k]. *)
Definition try_ {E A B} (m : prog E (result A)) (h : error -> prog E B) (k : A -> prog E B) : prog E B :=
  r ← m; match r with Ok a => k a | Err e => h e end.

Declare Scope prog_scope.
Notation "x <~ m @@ h ;; k" := (try_ m h (fun x => k))
  (at level 100, m at next level, h at next level, right associativity) : prog_scope.

Definition forget {E B} (p : prog E B) : prog E unit := _ ← p; Done tt.

Fixpoint forM_ {E A} (l : list A) (f : A -> prog E unit) : prog E unit :=
  match l with [] => Done tt | a :: l' => _ ← f a; forM_ l' f end.

(** ** Execution and reasoning *)
Section Logic.
Context {E : Type -> Type} {S En : Type}.
Context (exec : En -> forall A, E A -> S -> A * S).
Context (valid : S -> En -> Prop).
Context (Inv : S -> Prop) (R : S -> S -> Prop) `{!PreOrder R}.

(** A program run alone to its end, [ens] supplying the environment of each call. *)
Fixpoint run {B} (ens : nat -> En) (p : prog E B) (s : S) : B * S :=
  match p with
  | Done b => (b, s)
  | Call c k => let '(a, s') := exec (ens 0) _ c s in run (fun n => ens (Datatypes.S n)) (k a) s'
  end.

(** A sequence runs its parts one after the other; the second part's environments
    are those left by the first. *)
Lemma run_bind {A B} (p : prog E A) (f : A -> prog E B) ens s :
  exists n, run ens (p ≫= f) s = run (fun i => ens (n + i)%nat) (f (run ens p s).1) (run ens p s).2.
Proof.
  unfold mbind, prog_mbind. revert ens s. induction p as [a|A' c k IH]; intros ens s; cbn; [by exists 0%nat|].
  destruct (exec (ens 0%nat) A' c s) as [a s']. destruct (IH a (fun i => ens (Datatypes.S i)) s') as [n Hn].
  by exists (Datatypes.S n).
Qed.

Definition keeps (s s' : S) : Prop := Inv s' /\ R s s'.

Lemma rg_keeps_refl s : Inv s -> keeps s s.
Proof. split; [done|reflexivity]. Qed.

Lemma rg_keeps_trans s1 s2 s3 : keeps s1 s2 -> keeps s2 s3 -> keeps s1 s3.
Proof. intros [_ ?] [? ?]. split; [done|by transitivity s2]. Qed.

Fixpoint wp {B} (p : prog E B) (Q : S -> B -> Prop) (s : S) : Prop :=
  match p with
  | Done b => Q s b
  | Call c k => forall s1 en, R s s1 -> Inv s1 -> valid s1 en ->
      keeps s1 (exec en _ c s1).2 /\ wp (k (exec en _ c s1).1) Q (exec en _ c s1).2
  end.

Definition safe {B} (s : S) (p : prog E B) : Prop := wp p (fun _ _ => True) s.

Lemma rg_wp_rely {B} (p : prog E B) (Q : S -> B -> Prop) s s' :
  (forall d d' b, R d d' -> Q d b -> Q d' b) -> R s s' -> wp p Q s -> wp p Q s'.
Proof.
  intros HQ. destruct p as [b|A c k]; intros HR; cbn; [by apply HQ|].
  intros H s1 en HR1. apply H. by transitivity s'.
Qed.

Lemma rg_safe_rely {B} (p : prog E B) s s' : R s s' -> safe s p -> safe s' p.
Proof. apply rg_wp_rely. done. Qed.

Lemma rg_wp_mono {B} (p : prog E B) (Q Q' : S -> B -> Prop) s :
  (forall d b, Q d b -> Q' d b) -> wp p Q s -> wp p Q' s.
Proof.
  intros HQ. revert s. induction p as [b|A c k IH]; intros s; cbn; [auto|].
  intros H s1 en HR HI Hv. destruct (H s1 en HR HI Hv). auto.
Qed.

Lemma rg_wp_bind {A B} (p : prog E A) (f : A -> prog E B) Q s :
  wp p (fun s a => wp (f a) Q s) s -> wp (p ≫= f) Q s.
Proof.
  unfold mbind, prog_mbind. revert s. induction p as [b|A' c k IH]; intros s; cbn; [done|].
  intros H s1 en HR HI Hv. destruct (H s1 en HR HI Hv). auto.
Qed.

Lemma wp_try {A B} (m : prog E (result A)) (h : error -> prog E B) k Q s :
  wp m (fun s r => match r with Ok a => wp (k a) Q s | Err e => wp (h e) Q s end) s ->
  wp (try_ m h k) Q s.
Proof. intros H. apply rg_wp_bind. eapply rg_wp_mono; [|exact H]. by intros d []. Qed.

Lemma wp_call {A} (c : E A) Q s :
  (forall s1 en, R s s1 -> Inv s1 -> valid s1 en ->
     keeps s1 (exec en _ c s1).2 /\ Q (exec en _ c s1).2 (exec en _ c s1).1) ->
  wp (call c) Q s.
Proof. done. Qed.

Lemma wp_safe {B} (p : prog E B) Q s : wp p Q s -> safe s p.
Proof. by apply rg_wp_mono. Qed.

Lemma rg_safe_bind {A B} (p : prog E A) (f : A -> prog E B) s :
  safe s p -> (forall a s', safe s' (f a)) -> safe s (p ≫= f).
Proof. intros Hp Hf. apply rg_wp_bind. eapply rg_wp_mono; [|exact Hp]. intros d a _. apply Hf. Qed.

(** The state a program ends in is reached by steps. *)
Lemma rg_wp_reached {B} (p : prog E B) Q s : wp p Q s -> wp p (fun d b => R s d /\ Q d b) s.
Proof.
  enough (H : forall s0, R s0 s -> wp p Q s -> wp p (fun d b => R s0 d /\ Q d b) s) by by apply H.
  revert s. induction p as [b|A c k IH]; intros s s0 HR0; cbn; [done|].
  intros H s1 en HR HI Hv. destruct (H s1 en HR HI Hv) as [Hk Hw]. split; [done|]. apply IH; [|done].
  transitivity s; [done|]. transitivity s1; [done|apply Hk].
Qed.

(** Sequencing, with what holds when a step answers [Ok]. *)
Definition on_Ok {A} (P : S -> A -> Prop) (s : S) (r : result A) : Prop :=
  match r with Ok a => P s a | Err _ => True end.

Lemma rg_wp_seq {A B} (p : prog E A) (k : A -> prog E B) P Q s :
  wp p P s -> (forall d a, R s d -> P d a -> wp (k a) Q d) -> wp (p ≫= k) Q s.
Proof.
  intros Hp Hk. apply rg_wp_bind. eapply rg_wp_mono; [|apply (rg_wp_reached _ _ _ Hp)]. intros d a [HR HP]. by apply Hk.
Qed.

Lemma rg_seq_try {A B} (p : prog E (result A)) (h : error -> prog E B) (k : A -> prog E B) P Q s :
  wp p (on_Ok P) s -> (forall e d, wp (h e) Q d) -> (forall d a, R s d -> P d a -> wp (k a) Q d) ->
  wp (try_ p h k) Q s.
Proof. intros Hp Hh Hk. eapply rg_wp_seq; [exact Hp|]. intros d [a|e] HR HP; [by apply Hk|apply Hh]. Qed.

(** Calls that keep the invariant whatever was read before them. *)
Definition good {A} (c : E A) : Prop := forall s en, Inv s -> valid s en -> keeps s (exec en _ c s).2.

Fixpoint tame {B} (p : prog E B) : Prop :=
  match p with
  | Done _ => True
  | Call c k => good c /\ forall a, tame (k a)
  end.

Lemma rg_tame_safe {B} (p : prog E B) s : tame p -> safe s p.
Proof.
  unfold safe. revert s. induction p as [b|A c k IH]; intros s; cbn; [done|].
  intros [Hg Hk] s1 en HR HI Hv. split; [by apply Hg|by apply IH].
Qed.

Lemma rg_tame_bind {A B} (p : prog E A) (f : A -> prog E B) : tame p -> (forall a, tame (f a)) -> tame (p ≫= f).
Proof. unfold mbind, prog_mbind. intros Hp Hf. induction p; cbn in *; naive_solver. Qed.

Lemma rg_tame_try {A B} (m : prog E (result A)) (h : error -> prog E B) k :
  tame m -> (forall e, tame (h e)) -> (forall a, tame (k a)) -> tame (try_ m h k).
Proof. intros. apply rg_tame_bind; [done|]. by intros []. Qed.

Lemma rg_tame_call {A} (c : E A) : good c -> tame (call c).
Proof. done. Qed.

Lemma rg_tame_forM {A} (l : list A) (f : A -> prog E unit) : (forall a, a ∈ l -> tame (f a)) -> tame (forM_ l f).
Proof.
  induction l as [|a l IH]; intros Hf; cbn; [done|]. apply rg_tame_bind; [apply Hf, list_elem_of_here|].
  intros _. apply IH. intros x Hx. apply Hf. by apply list_elem_of_further.
Qed.

(** A program of tame calls learns nothing but that steps were taken. *)
Lemma tame_wp {B} (p : prog E B) s : tame p -> wp p (fun d _ => R s d) s.
Proof. intros H. eapply rg_wp_mono; [|apply rg_wp_reached, (rg_tame_safe p s H)]. by intros d b [? _]. Qed.

(** ** Progress

    A program run alone in [healthy] environments.  [ends p Q s]: from [s] it comes
    to an end with [Q].  That the invariant holds between the calls may be assumed:
    it is what [safe] shows. *)
Section Progress.
Context (healthy : En -> Prop).

Fixpoint ends {B} (p : prog E B) (Q : S -> B -> Prop) (s : S) : Prop :=
  match p with
  | Done b => Q s b
  | Call c k => forall en, healthy en -> keeps s (exec en _ c s).2 -> ends (k (exec en _ c s).1) Q (exec en _ c s).2
  end.

Lemma ends_mono {B} (p : prog E B) (Q Q' : S -> B -> Prop) s :
  (forall d b, Q d b -> Q' d b) -> ends p Q s -> ends p Q' s.
Proof. intros HQ. revert s. induction p as [b|A c k IH]; intros s; cbn; auto. Qed.

Lemma ends_bind {A B} (p : prog E A) (f : A -> prog E B) Q s :
  ends p (fun s a => ends (f a) Q s) s -> ends (p ≫= f) Q s.
Proof. unfold mbind, prog_mbind. revert s. induction p as [b|A' c k IH]; intros s; cbn; auto. Qed.

Lemma ends_reached {B} (p : prog E B) Q s :
  Inv s -> ends p Q s -> ends p (fun d b => keeps s d /\ Q d b) s.
Proof.
  intros HI. enough (H : forall s0, keeps s0 s -> ends p Q s -> ends p (fun d b => keeps s0 d /\ Q d b) s)
    by by apply H, rg_keeps_refl.
  clear HI. revert s. induction p as [b|A c k IH]; intros s s0 Hs; cbn; [done|].
  intros H en Hen Hk. apply IH; [by eapply rg_keeps_trans|auto].
Qed.

Lemma ends_seq {A B} (p : prog E A) (f : A -> prog E B) P Q s :
  Inv s -> ends p P s -> (forall d a, keeps s d -> P d a -> ends (f a) Q d) -> ends (p ≫= f) Q s.
Proof.
  intros HI Hp Hf. apply ends_bind. eapply ends_mono; [|by apply ends_reached]. intros d a [Hk HP]. by apply Hf.
Qed.

Lemma ends_run {B} (p : prog E B) Q (ens : nat -> En) s :
  (forall n, healthy (ens n)) -> (forall s n, valid s (ens n)) -> Inv s -> safe s p -> ends p Q s ->
  keeps s (run ens p s).2 /\ Q (run ens p s).2 (run ens p s).1.
Proof.
  revert ens s. induction p as [b|A c k IH]; intros ens s Hh Hv HI Hs He; cbn; [split; [by apply rg_keeps_refl|done]|].
  destruct (Hs s (ens 0) (reflexivity s) HI (Hv _ _)) as [Hk Hs']. specialize (He _ (Hh 0) Hk).
  destruct (exec (ens 0) A c s) as [a s']. cbn in *.
  destruct (IH a (fun n => ens (Datatypes.S n)) s' (fun n => Hh _) (fun s n => Hv s _) (proj1 Hk) Hs' He) as [K HQ].
  split; [by eapply rg_keeps_trans|done].
Qed.
End Progress.

(** ** Machines *)
Record machine : Type := mkMachine { m_state : S; m_procs : list (prog E unit) }.

Context (serves : prog E unit -> Prop) (outside : S -> S -> Prop).

Inductive mstep : machine -> machine -> Prop :=
| arrives s ps p : serves p -> mstep (mkMachine s ps) (mkMachine s (ps ++ [p]))
| proceeds s ps i A (c : E A) k en :
    ps !! i = Some (Call c k) -> valid s en ->
    mstep (mkMachine s ps) (mkMachine (exec en _ c s).2 (<[i := k (exec en _ c s).1]> ps))
| stops s ps i : mstep (mkMachine s ps) (mkMachine s (delete i ps))
| happens s s' ps : outside s s' -> mstep (mkMachine s ps) (mkMachine s' ps).

Definition sound (m : machine) : Prop := Inv (m_state m) /\ Forall (safe (m_state m)) (m_procs m).

Hypothesis Hserves : forall p s, serves p -> Inv s -> safe s p.
Hypothesis Houtside : forall s s', Inv s -> outside s s' -> keeps s s'.

Lemma Forall_safe_rely s s' (ps : list (prog E unit)) : R s s' -> Forall (safe s) ps -> Forall (safe s') ps.
Proof. intros HR H. eapply Forall_impl; [exact H|]. intros p. by apply rg_safe_rely. Qed.

Lemma mstep_sound m m' : mstep m m' -> sound m -> sound m' /\ R (m_state m) (m_state m').
Proof.
  intros Hst [HI Hps]. unfold sound. destruct Hst as [s ps p Hp|s ps i A c k en Hi Hv|s ps i|s s' ps Ho];
    cbn in *.
  - split; [|reflexivity]. split; [done|]. apply Forall_app. split; [done|]. constructor; [|done]. by apply Hserves.
  - pose proof (Forall_lookup_1 _ _ _ _ Hps Hi) as Hs.
    destruct (Hs s en (reflexivity s) HI Hv) as [[HI' HR'] Hk].
    split; [|done]. split; [done|]. apply Forall_insert; [|done]. by eapply Forall_safe_rely.
  - split; [|reflexivity]. split; [done|]. by apply Forall_delete.
  - destruct (Houtside _ _ HI Ho) as [HI' HR']. split; [|done]. split; [done|]. by eapply Forall_safe_rely.
Qed.

(** A program run alone is a run of the machine. *)
Lemma run_steps (ens : nat -> En) ps p s :
  (forall s n, valid s (ens n)) ->
  rtc mstep (mkMachine s (ps ++ [p])) (mkMachine (run ens p s).2 (ps ++ [Done (run ens p s).1])).
Proof.
  revert ens s. induction p as [b|A c k IH]; intros ens s Hv; cbn; [apply rtc_refl|].
  eapply rtc_l.
  - apply (proceeds s (ps ++ [Call c k]) (length ps) A c k (ens 0)); [by apply list_lookup_middle|apply Hv].
  - assert (Hi : <[length ps := k (exec (ens 0) A c s).1]> (ps ++ [Call c k]) = ps ++ [k (exec (ens 0) A c s).1]).
    { rewrite insert_app_r_alt by lia. by rewrite Nat.sub_diag. }
    rewrite Hi. destruct (exec (ens 0) A c s) as [a s']. cbn. apply (IH a (fun n => ens (Datatypes.S n))).
    intros. apply Hv.
Qed.

Lemma serve_alone (ens : nat -> En) ps p s :
  (forall s n, valid s (ens n)) -> serves p ->
  rtc mstep (mkMachine s ps) (mkMachine (run ens p s).2 ps).
Proof.
  intros Hv Hp. eapply rtc_l; [by apply arrives|]. etransitivity; [by apply run_steps|].
  apply rtc_once. pose proof (stops (run ens p s).2 (ps ++ [Done (run ens p s).1]) (length ps)) as Hst.
  by rewrite delete_middle, app_nil_r in Hst.
Qed.

(** From a sound machine every run keeps the invariant and takes steps of [R] only. *)
Theorem run_sound m m' : rtc mstep m m' -> sound m -> sound m' /\ R (m_state m) (m_state m').
Proof.
  induction 1 as [m|m m1 m' Hst _ IH]; intros Hm; [split; [done|reflexivity]|].
  destruct (mstep_sound _ _ Hst Hm) as [Hm1 HR1]. destruct (IH Hm1) as [Hm' HR'].
  split; [done|]. by transitivity (m_state m1).
Qed.

(** One program run to its end among the machine's others: before each of its calls
    the machine takes any number of steps. *)
Inductive runs {B} : prog E B -> machine -> B -> machine -> Prop :=
| runs_done b m : runs (Done b) m b m
| runs_call A (c : E A) k m s ps en b m' :
    rtc mstep m (mkMachine s ps) -> valid s en ->
    runs (k (exec en _ c s).1) (mkMachine (exec en _ c s).2 ps) b m' ->
    runs (Call c k) m b m'.

Lemma runs_wp {B} (p : prog E B) Q m b m' :
  runs p m b m' -> sound m -> wp p Q (m_state m) ->
  sound m' /\ R (m_state m) (m_state m') /\ Q (m_state m') b.
Proof.
  induction 1 as [b m|A c k m s ps en b m' Hst Hv _ IH]; intros Hm Hp; [by split_and!|].
  destruct (run_sound _ _ Hst Hm) as [[HI Hps] HR]. cbn in *. destruct (Hp _ _ HR HI Hv) as [[HI' HR'] Hk].
  destruct IH as (Hm' & HR2 & HQ); [|done|].
  - split; [done|]. cbn. by eapply Forall_safe_rely.
  - cbn in *. split; [done|]. split; [|done]. transitivity s; [done|]. by etransitivity.
Qed.

(** A program alone. *)
Lemma runs_alone {B} (ens : nat -> En) (p : prog E B) ps s :
  (forall s n, valid s (ens n)) -> runs p (mkMachine s ps) (run ens p s).1 (mkMachine (run ens p s).2 ps).
Proof.
  revert ens s. induction p as [b|A c k IH]; intros ens s Hv; cbn; [constructor|].
  eapply (runs_call _ _ _ _ _ _ (ens 0)); [apply rtc_refl|apply Hv|].
  destruct (exec (ens 0) A c s) as [a s']. cbn. apply (IH a (fun n => ens (Datatypes.S n)) s'). intros. apply Hv.
Qed.

(** *** Runs with the calls the program makes

    A call with its answer and the states before and after it. *)
Inductive took : Type :=
| Took {A : Type} (c : E A) (a : A) (before after : S).

Fixpoint logged {B} (p : prog E B) (m : machine) (l : list took) (b : B) (m' : machine) : Prop :=
  match p with
  | Done b' => l = [] /\ b = b' /\ m' = m
  | Call c k => exists s ps en l',
      rtc mstep m (mkMachine s ps) /\ valid s en /\
      l = Took c (exec en _ c s).1 s (exec en _ c s).2 :: l' /\
      logged (k (exec en _ c s).1) (mkMachine (exec en _ c s).2 ps) l' b m'
  end.

Lemma logged_runs {B} (p : prog E B) m l b m' : logged p m l b m' -> runs p m b m'.
Proof.
  revert m l. induction p as [b'|A c k IH]; intros m l; cbn; [intros (_ & -> & ->); constructor|].
  intros (s & ps & en & l' & Hst & Hv & _ & Hl). econstructor; [exact Hst|exact Hv|]. by eapply IH.
Qed.

Lemma logged_bind {A B} (p : prog E A) (f : A -> prog E B) m l b m' :
  logged (p ≫= f) m l b m' ->
  exists l1 a m1 l2, logged p m l1 a m1 /\ logged (f a) m1 l2 b m' /\ l = (l1 ++ l2)%list.
Proof.
  unfold mbind, prog_mbind. revert m l. induction p as [a|A' c k IH]; intros m l; cbn.
  - intros H. by exists [], a, m, l.
  - intros (s & ps & en & l' & Hst & Hv & -> & Hl). destruct (IH _ _ _ Hl) as (l1 & a & m1 & l2 & H1 & H2 & ->).
    exists (Took c (exec en _ c s).1 s (exec en _ c s).2 :: l1), a, m1, l2. split; [|done]. by exists s, ps, en, l1.
Qed.

(** The parts of a program that answers [Ok]. *)
Lemma logged_try {A B} (p : prog E (result A)) h (k : A -> prog E (result B)) m l b m' :
  (forall e, exists e', h e = Done (Err e')) -> logged (try_ p h k) m l (Ok b) m' ->
  exists l1 a m1 l2, logged p m l1 (Ok a) m1 /\ logged (k a) m1 l2 (Ok b) m' /\ l = (l1 ++ l2)%list.
Proof.
  intros Hh (l1 & [a|e] & m1 & l2 & H1 & H2 & ->)%logged_bind; [by exists l1, a, m1, l2|].
  destruct (Hh e) as [e' He]. rewrite He in H2. by destruct H2 as (_ & [=] & _).
Qed.

Lemma logged_wp {B} (p : prog E B) Q m l b m' :
  logged p m l b m' -> sound m -> wp p Q (m_state m) ->
  sound m' /\ R (m_state m) (m_state m') /\ Q (m_state m') b.
Proof. intros H%logged_runs. by apply runs_wp. Qed.

Lemma logged_alone {B} (ens : nat -> En) (p : prog E B) ps s :
  (forall s n, valid s (ens n)) ->
  exists l, logged p (mkMachine s ps) l (run ens p s).1 (mkMachine (run ens p s).2 ps).
Proof.
  intros Hv. revert ens Hv s. induction p as [b|A c k IH]; intros ens Hv s; cbn; [by exists []|].
  destruct (IH (exec (ens 0) A c s).1 (fun n => ens (Datatypes.S n)) (fun _ _ => Hv _ _) (exec (ens 0) A c s).2) as [l Hl].
  exists (Took c (exec (ens 0) A c s).1 s (exec (ens 0) A c s).2 :: l), s, ps, (ens 0), l.
  split; [apply rtc_refl|]. split; [apply Hv|]. split; [done|]. by destruct (exec (ens 0) A c s).
Qed.
End Logic.
Arguments took E S : clear implicits.
Arguments machine E S : clear implicits.
Arguments mkMachine {E S} m_state m_procs.
Arguments m_state {E S} m.
Arguments m_procs {E S} m.

(** ** Traces

    The calls of a program with their answers, each one of those [ans] allows.
    [gated G Q h p]: every call of [p] is one [G] allows after the calls [h], latest
    first, and [p] ends with what [Q] allows after them. *)
Section Traces.
Context {E : Type -> Type}.

Inductive answered : Type :=
| Answered {A : Type} (c : E A) (a : A).

Context (ans : forall A, E A -> A -> Prop).

Inductive trace {B} : prog E B -> list answered -> prog E B -> Prop :=
| trace_nil p : trace p [] p
| trace_call A (c : E A) k a l p' : ans A c a -> trace (k a) l p' -> trace (Call c k) (Answered c a :: l) p'.

Context (G : list answered -> answered -> Prop).

Fixpoint gated {B} (Q : list answered -> B -> Prop) (h : list answered) (p : prog E B) : Prop :=
  match p with
  | Done b => Q h b
  | Call c k => forall a, ans _ c a -> G h (Answered c a) /\ gated Q (Answered c a :: h) (k a)
  end.

Lemma gated_trace {B} Q (p : prog E B) l p' h l1 e l2 :
  gated Q h p -> trace p l p' -> l = l1 ++ e :: l2 -> G (reverse l1 ++ h) e.
Proof.
  intros Hg Ht. revert h l1 Hg. induction Ht as [p|A c k a l p' Ha Ht IH]; intros h l1 Hg Hl; [by destruct l1|].
  destruct (Hg a Ha) as [H1 H2]. destruct l1 as [|x l1]; simplify_eq/=; [done|].
  rewrite reverse_cons, <- app_assoc. by apply IH.
Qed.

Lemma gated_end {B} Q (p : prog E B) l b h : gated Q h p -> trace p l (Done b) -> Q (reverse l ++ h) b.
Proof.
  intros Hg Ht. remember (Done b) as p' eqn:Ep. revert h Hg.
  induction Ht as [p|A c k a l p' Ha Ht IH]; intros h Hg; subst; [done|].
  destruct (Hg a Ha) as [_ H2]. rewrite reverse_cons, <- app_assoc. by apply IH.
Qed.
End Traces.
Arguments answered E : clear implicits.
