(* ===== verification/DekTypes.v ===== *)
(** Data encryption keys, data: [internal/eventbus/crypto/dek], the checkpoint
    state machine [checkpoint_fsm.go], the types of [store.go], [checkpoint.go],
    [rekey.go], [rekey_run.go] and [audit_chain.go].

    Byte slices are byte strings; identifiers of rows are integers (BIGSERIAL);
    the JSONB column [phase5_missing_members] holds the decoded value. *)

From S2P Require Import Prelude GoStrings Sql.

Open Scope string_scope.
Open Scope Z_scope.

(** ** Contexts and participants *)
Record ContextID : Type := mkContext { cx_Type : string; cx_ID : string }.

#[export] Instance ContextID_eq_dec : EqDecision ContextID.
Proof. solve_decision. Defined.
#[export] Instance ContextID_countable : Countable ContextID :=
  inj_countable' (fun c => (cx_Type c, cx_ID c)) (fun p => mkContext p.1 p.2) ltac:(by intros []).

Record Participant : Type := mkParticipant {
  pa_PlayerID : string;
  pa_CharacterID : string;
  pa_BindingID : string;
  pa_JoinedAt : Z;
  pa_AddedVia : string
}.

(** ** The checkpoint state machine *)
Inductive CheckpointStatus : Type :=
| CheckpointStatusPending
| CheckpointStatusPhase1Auth
| CheckpointStatusPhase2MintDEK
| CheckpointStatusPhase3ReencryptCold
| CheckpointStatusPhase5Invalidate
| CheckpointStatusPhase6DestroyOld
| CheckpointStatusPhase7Audit
| CheckpointStatusComplete
| CheckpointStatusAborted
| CheckpointStatusOther (s : string)  (* any other string *).

#[export] Instance CheckpointStatus_eq_dec : EqDecision CheckpointStatus.
Proof. solve_decision. Defined.

Definition CheckpointStatus_String (s : CheckpointStatus) : string :=
  match s with
  | CheckpointStatusPending => "pending"
  | CheckpointStatusPhase1Auth => "phase1_auth"
  | CheckpointStatusPhase2MintDEK => "phase2_mint_dek"
  | CheckpointStatusPhase3ReencryptCold => "phase3_reencrypt_cold"
  | CheckpointStatusPhase5Invalidate => "phase5_invalidate"
  | CheckpointStatusPhase6DestroyOld => "phase6_destroy_old"
  | CheckpointStatusPhase7Audit => "phase7_audit"
  | CheckpointStatusComplete => "complete"
  | CheckpointStatusAborted => "aborted"
  | CheckpointStatusOther s => s
  end.

Definition validTransitions (s : CheckpointStatus) : option (list CheckpointStatus) :=
  match s with
  | CheckpointStatusPending => Some [CheckpointStatusPhase1Auth; CheckpointStatusAborted]
  | CheckpointStatusPhase1Auth => Some [CheckpointStatusPhase2MintDEK; CheckpointStatusAborted]
  | CheckpointStatusPhase2MintDEK => Some [CheckpointStatusPhase3ReencryptCold; CheckpointStatusAborted]
  | CheckpointStatusPhase3ReencryptCold => Some [CheckpointStatusPhase5Invalidate; CheckpointStatusAborted]
  | CheckpointStatusPhase5Invalidate => Some [CheckpointStatusPhase6DestroyOld; CheckpointStatusAborted]
  | CheckpointStatusPhase6DestroyOld => Some [CheckpointStatusPhase7Audit; CheckpointStatusAborted]
  | CheckpointStatusPhase7Audit => Some [CheckpointStatusComplete; CheckpointStatusAborted]
  | CheckpointStatusComplete => Some []
  | CheckpointStatusAborted => Some []
  | CheckpointStatusOther _ => None
  end.

Definition AllCheckpointStatuses : list CheckpointStatus :=
  [CheckpointStatusPending; CheckpointStatusPhase1Auth; CheckpointStatusPhase2MintDEK;
   CheckpointStatusPhase3ReencryptCold; CheckpointStatusPhase5Invalidate;
   CheckpointStatusPhase6DestroyOld; CheckpointStatusPhase7Audit;
   CheckpointStatusComplete; CheckpointStatusAborted].

Definition ValidTransitionPairs : list (CheckpointStatus * CheckpointStatus) :=
  from ← AllCheckpointStatuses;
  to ← default [] (validTransitions from);
  [(from, to)].

Definition AssertTransitionAllowed (from to : CheckpointStatus) : result unit :=
  match validTransitions from with
  | None => Err (ErrCode "DEK_REKEY_FSM_INVALID_TRANSITION" "CheckpointStatus is not a declared state")
  | Some targets =>
      if bool_decide (to ∈ targets) then Ok tt
      else Err (ErrCode "DEK_REKEY_FSM_INVALID_TRANSITION" "transition is not allowed by the CheckpointStatus FSM")
  end.

Definition IsTerminal (s : CheckpointStatus) : bool :=
  bool_decide (s = CheckpointStatusComplete) || bool_decide (s = CheckpointStatusAborted).

Definition newline : string := String (ascii_of_nat 10) EmptyString.

(** The Mermaid diagram. *)
Definition Diagram : string :=
  "stateDiagram-v2" +:+ newline +:+ "    [*] --> pending" +:+ newline
  +:+ String.concat EmptyString
        ((fun p => "    " +:+ CheckpointStatus_String p.1 +:+ " --> " +:+ CheckpointStatus_String p.2 +:+ newline)
         <$> ValidTransitionPairs)
  +:+ "    complete --> [*]" +:+ newline +:+ "    aborted --> [*]" +:+ newline.

(** ** Checkpoints *)
Record CheckpointOpenRequest : Type := mkOpenRequest {
  or_ContextType : string;
  or_ContextID : string;
  or_opArgsHash : string;
  or_policyHash : string;
  or_PrimaryPlayerID : string;
  or_OldDEKID : Z;
  or_Justification : string
}.

Definition NewCheckpointOpenRequest (contextType contextID opArgsHash policyHash primaryPlayerID : string)
    (oldDEKID : Z) (justification : string) : result CheckpointOpenRequest :=
  if negb (String.length opArgsHash =? 32)%nat
  then Err (ErrCode "DEK_REKEY_BAD_OP_ARGS_HASH" "op_args_hash must be 32 bytes")
  else if negb (String.length policyHash =? 32)%nat
  then Err (ErrCode "DEK_REKEY_BAD_POLICY_HASH" "policy_hash must be 32 bytes")
  else Ok (mkOpenRequest contextType contextID opArgsHash policyHash primaryPlayerID oldDEKID justification).

Record Checkpoint : Type := mkCheckpoint {
  ck_RequestID : string;
  ck_ContextType : string;
  ck_ContextID : string;
  ck_opArgsHash : string;
  ck_policyHash : string;
  ck_PrimaryPlayerID : string;
  ck_Justification : string;
  ck_Status : CheckpointStatus;
  ck_lastProcessedEventID : option string;
  ck_NewDEKID : option Z;
  ck_OldDEKID : Z;
  ck_Phase3RowsRewritten : Z;
  ck_Phase5AttemptCount : Z;
  ck_phase5MissingMembers : option (option (list string));
  ck_ForceDestroy : bool;
  ck_StartedAt : Z;
  ck_LastHeartbeatAt : Z;
  ck_CompletedAt : option Z;
  ck_AbortedAt : option Z;
  ck_AbortedReason : option string
}.

Definition ck_ctx (c : Checkpoint) : ContextID := mkContext (ck_ContextType c) (ck_ContextID c).

(** [copy(out[:], s)] into a zeroed array of [n] bytes. *)
Definition fixed_bytes (n : nat) (s : string) : string :=
  let t := str_take n s in
  t +:+ String.concat EmptyString (repeat (String Ascii.zero EmptyString) (n - String.length t)).

Definition PolicyHash (c : Checkpoint) : string := fixed_bytes 32 (ck_policyHash c).

Definition LastProcessedEventID (c : Checkpoint) : string * bool :=
  match ck_lastProcessedEventID c with
  | None => (fixed_bytes 16 EmptyString, false)
  | Some s => if is_empty s then (fixed_bytes 16 EmptyString, false) else (fixed_bytes 16 s, true)
  end.

(** [None] is the nil slice. *)
Definition Phase5MissingMembers (c : Checkpoint) : option (list string) := mjoin (ck_phase5MissingMembers c).

Definition Phase5HasMissingMembers (c : Checkpoint) : bool :=
  match ck_phase5MissingMembers c with
  | None => false           (* NULL *)
  | Some None => false      (* null *)
  | Some (Some []) => false
  | Some (Some (_ :: _)) => true
  end.

(** ** Requests and outcomes *)
Record OperatorIdentity : Type := mkOperator {
  oi_PlayerID : string;
  oi_OSUser : string;
  oi_TOTPVerified : bool;
  oi_AuthProviderName : string
}.

Record DualControlBinding : Type := mkDualControl {
  dc_ApprovalRequestID : string;
  dc_PartnerPlayerID : string
}.

Record RekeyRequest : Type := mkRekeyRequest {
  rq_ContextType : string;
  rq_ContextID : string;
  rq_Justification : string;
  rq_Operator : OperatorIdentity;
  rq_DualControl : option DualControlBinding;
  rq_ForceDestroy : bool
}.

Record RekeyOutcome : Type := mkRekeyOutcome {
  ro_RequestID : string;
  ro_AuditEventID : string;
  ro_Phase3RowCount : Z;
  ro_Phase5Attempts : Z;
  ro_ForceDestroyUsed : bool;
  ro_Resumed : bool;
  ro_DurationMs : Z;
  ro_StartedAt : Z;
  ro_CompletedAt : option Z
}.

Definition zero_id : string := fixed_bytes 16 EmptyString.

(** ** The audit payload *)
Record RekeyAuditDEK : Type := mkAuditDEK { ad_ID : Z; ad_Version : Z }.

Record RekeyAuditOp : Type := mkAuditOp {
  ao_PlayerID : string;
  ao_OSUser : string;
  ao_TOTPVerified : bool;
  ao_AuthProviderName : string
}.

Record RekeyAuditPart : Type := mkAuditPart { ap_PlayerID : string; ap_ApprovalRequestID : string }.

Record RekeyAuditPhases : Type := mkAuditPhases {
  ph_Phase3RowsRewritten : Z;
  ph_Phase5Attempts : Z;
  ph_Phase5FinalMissingMembers : option (list string);
  ph_Phase6DestroyedAt : Z
}.

Record RekeyChainBlock : Type := mkChainBlock {
  rc_Scope : string;
  rc_PrevHash : option string;
  rc_PrevEventID : string;
  rc_SelfHash : string
}.

Record RekeyAuditPayload : Type := mkAuditPayload {
  ra_RequestID : string;
  ra_Context : ContextID;
  ra_OldDEK : RekeyAuditDEK;
  ra_NewDEK : RekeyAuditDEK;
  ra_PrimaryOperator : RekeyAuditOp;
  ra_DualControlPartner : option RekeyAuditPart;
  ra_Justification : string;
  ra_PolicyHash : string;
  ra_PolicyChainGenesisID : string;
  ra_Phases : RekeyAuditPhases;
  ra_ForceDestroy : bool;
  ra_StartedAt : Z;
  ra_CompletedAt : Z;
  ra_ServerIdentity : string;
  ra_SpecVersion : string;
  ra_RekeyChainField : RekeyChainBlock
}.

Definition no_audit_dek : RekeyAuditDEK := mkAuditDEK 0 0.
Definition no_audit_op : RekeyAuditOp := mkAuditOp EmptyString EmptyString false EmptyString.
Definition no_audit_phases : RekeyAuditPhases := mkAuditPhases 0 0 None 0.
Definition no_chain_block : RekeyChainBlock := mkChainBlock EmptyString None EmptyString EmptyString.

(** ** Facts about the state machine *)

(** One edge of the machine. *)
Definition allowed (from to : CheckpointStatus) : Prop := AssertTransitionAllowed from to = Ok tt.

(** A row's status is unchanged or has moved along edges. *)
Definition moves : CheckpointStatus -> CheckpointStatus -> Prop := rtc allowed.

Lemma allowed_spec from to : allowed from to <-> exists ts, validTransitions from = Some ts /\ to ∈ ts.
Proof.
  unfold allowed, AssertTransitionAllowed. destruct (validTransitions from) as [ts|]; [|naive_solver].
  case_bool_decide; naive_solver.
Qed.

Lemma IsTerminal_spec s : IsTerminal s = true <-> s = CheckpointStatusComplete \/ s = CheckpointStatusAborted.
Proof. unfold IsTerminal. rewrite orb_true_iff, !bool_decide_eq_true. done. Qed.

Lemma terminal_stuck s t : IsTerminal s = true -> ~ allowed s t.
Proof. intros [-> | ->]%IsTerminal_spec (ts & [= <-] & Hin)%allowed_spec; set_solver. Qed.

Lemma moves_terminal s t : IsTerminal s = true -> moves s t -> t = s.
Proof. intros Ht Hm. inversion Hm as [|? ? ? Ha]; [done|]. by apply terminal_stuck in Ha. Qed.

(** How far a status is along the lifecycle. *)
Definition phase_rank (s : CheckpointStatus) : nat :=
  match s with
  | CheckpointStatusPending => 0
  | CheckpointStatusPhase1Auth => 1
  | CheckpointStatusPhase2MintDEK => 2
  | CheckpointStatusPhase3ReencryptCold => 3
  | CheckpointStatusPhase5Invalidate => 5
  | CheckpointStatusPhase6DestroyOld => 6
  | CheckpointStatusPhase7Audit => 7
  | CheckpointStatusComplete => 8
  | CheckpointStatusAborted => 9
  | CheckpointStatusOther _ => 10
  end.

Lemma allowed_rank s t : allowed s t -> (phase_rank s < phase_rank t)%nat.
Proof.
  intros (ts & Hts & Hin)%allowed_spec.
  destruct s; cbn in Hts; simplify_eq; repeat (apply elem_of_cons in Hin as [->|Hin]; [cbn; lia|]); set_solver.
Qed.

Lemma moves_rank s t : moves s t -> (phase_rank s <= phase_rank t)%nat.
Proof. induction 1 as [|s t u Ha _ IH]; [done|]. apply allowed_rank in Ha. lia. Qed.
