(* ===== verification/EventCrypto.v ===== *)
(** Encryption of event payloads: [internal/eventbus/codec] ([codec.go],
    [registry.go], [xchacha20poly1305.go]) and the authenticated metadata of
    [internal/eventbus/crypto/aad/aad.go].

    The AEAD of golang.org/x/crypto and the protobuf encoding are parameters
    ([CryptoLib]); what is used of them are the laws of [CryptoLaws].  The random
    nonce of an encryption is an argument. *)

From S2P Require Import Prelude GoStrings Sql.

Open Scope string_scope.
Open Scope Z_scope.

(** ** Events: [eventbusv1.Event]

    A timestamp is its [AsTime().UnixNano()]; the rendering metadata is kept as
    its encoding. *)
Record Actor : Type := mkActor { ac_Kind : Z; ac_Id : string }.

Record Event : Type := mkEvent {
  ev_Id : string;
  ev_Subject : string;
  ev_Type : string;
  ev_Timestamp : option Z;
  ev_Actor : option Actor;
  ev_Payload : string;
  ev_Rendering : option string
}.

Definition set_payload (e : Event) (p : string) : Event :=
  mkEvent (ev_Id e) (ev_Subject e) (ev_Type e) (ev_Timestamp e) (ev_Actor e) p (ev_Rendering e).

(** ** Libraries *)
Record CryptoLib : Type := mkCryptoLib {
  aead_seal : string -> string -> string -> string -> string;          (* key, nonce, plaintext, aad *)
  aead_open : string -> string -> string -> string -> option string;   (* key, nonce, sealed, aad *)
  marshalActor : option Actor -> result string;
  marshalEvent : Event -> result string;
  unmarshalEvent : string -> result Event;
  kek_wrap : string -> string -> string * string;                      (* randomness, secret *)
  kek_unwrap : string -> string -> option string                       (* wrapped, key id *)
}.

Class CryptoLaws (L : CryptoLib) : Prop := mkCryptoLaws {
  open_seal : forall k n p a, aead_open L k n (aead_seal L k n p a) a = Some p;
  seal_length : forall k n p a, String.length (aead_seal L k n p a) = (String.length p + 16)%nat;
  unmarshal_marshal : forall e b, marshalEvent L e = Ok b -> unmarshalEvent L b = Ok e;
  unwrap_wrap : forall r x, kek_unwrap L (kek_wrap L r x).1 (kek_wrap L r x).2 = Some x
}.

(** ** Codecs *)
Record Key : Type := mkKey { k_ID : Z; k_Version : Z; k_Bytes : string }.
Definition NoKey : Key := mkKey 0 0 EmptyString.

Definition NameIdentity : string := "identity".
Definition NameXChaCha20v1 : string := "xchacha20poly1305-v1".

Inductive Codec : Type := IdentityCodec | XChaCha20Poly1305v1.

(** The closed registry. *)
Definition codec_Resolve (name : string) : result Codec :=
  if String.eqb name NameIdentity then Ok IdentityCodec
  else if String.eqb name NameXChaCha20v1 then Ok XChaCha20Poly1305v1
  else Err (ErrNew "codec: unknown name").

Definition KeySize : nat := 32.
Definition NonceSizeX : nat := 24.
Definition Overhead : nat := 16.

Section Codec.
Context (L : CryptoLib).

(** [chacha20poly1305.NewX]. *)
Definition newX (key : string) : result unit :=
  if (String.length key =? KeySize)%nat then Ok tt else Err (ErrNew "chacha20poly1305: bad key length").

(** [nonce] is what [rand.Read] filled in: [NonceSizeX] bytes. *)
Definition Encode (c : Codec) (nonce plaintext : string) (key : Key) (aad : string) : result string :=
  match c with
  | IdentityCodec => Ok plaintext
  | XChaCha20Poly1305v1 =>
      match newX (k_Bytes key) with
      | Err e => Err (ErrWrap "xchacha20poly1305-v1: new aead" e)
      | Ok _ => Ok (nonce +:+ aead_seal L (k_Bytes key) nonce plaintext aad)
      end
  end.

Definition Decode (c : Codec) (ciphertext : string) (key : Key) (aad : string) : result string :=
  match c with
  | IdentityCodec => Ok ciphertext
  | XChaCha20Poly1305v1 =>
      match newX (k_Bytes key) with
      | Err e => Err (ErrWrap "xchacha20poly1305-v1: new aead" e)
      | Ok _ =>
          if (String.length ciphertext <? NonceSizeX + Overhead)%nat
          then Err (ErrNew "xchacha20poly1305-v1: ciphertext too short")
          else match aead_open L (k_Bytes key) (str_take NonceSizeX ciphertext) (str_drop NonceSizeX ciphertext) aad with
               | None => Err (ErrNew "xchacha20poly1305-v1: open")
               | Some pt => Ok pt
               end
      end
  end.

(** ** Additional authenticated data *)
Definition byte_of_Z (z : Z) : ascii := ascii_of_N (Z.to_N (z mod 256)).

(** The [n] low-order bytes of [z], big endian. *)
Fixpoint be_bytes (n : nat) (z : Z) : string :=
  match n with
  | O => EmptyString
  | S n' => be_bytes n' (z / 256) +:+ String (byte_of_Z z) EmptyString
  end.

Definition AppendUint32 (out : string) (z : Z) : string := out +:+ be_bytes 4 z.
Definition AppendUint64 (out : string) (z : Z) : string := out +:+ be_bytes 8 z.

Definition magic : string := "HMAAD" +:+ String (ascii_of_nat 1) EmptyString.
Definition maxFieldLen : Z := 2 ^ 32 - 1.

Definition zlen (s : string) : Z := Z.of_nat (String.length s).

Definition checkFieldLen (field : string) (n : Z) : result unit :=
  if (n <? 0) || (maxFieldLen <? n)
  then Err (ErrCode "AAD_FIELD_TOO_LARGE" ("AAD field " +:+ field +:+ " length exceeds uint32 prefix bound"))
  else Ok tt.

Definition appendLengthPrefixed (dst src : string) : string := AppendUint32 dst (zlen src) +:+ src.

Definition Build (event : Event) (codecName : string) (dekRef dekVersion : Z) : result string :=
  match marshalActor L (ev_Actor event) with
  | Err e => Err (ErrWrapCode "AAD_ACTOR_MARSHAL_FAILED" e)
  | Ok actorBytes =>
      let ts := default 0 (ev_Timestamp event) in
      _ ← checkFieldLen "event.id" (zlen (ev_Id event));
      _ ← checkFieldLen "event.subject" (zlen (ev_Subject event));
      _ ← checkFieldLen "event.type" (zlen (ev_Type event));
      _ ← checkFieldLen "actor_bytes" (zlen actorBytes);
      _ ← checkFieldLen "codec_name" (zlen codecName);
      let out := magic in
      let out := appendLengthPrefixed out (ev_Id event) in
      let out := appendLengthPrefixed out (ev_Subject event) in
      let out := appendLengthPrefixed out (ev_Type event) in
      let out := AppendUint64 out ts in
      let out := appendLengthPrefixed out actorBytes in
      let out := appendLengthPrefixed out codecName in
      let out := AppendUint64 out dekRef in
      Ok (AppendUint32 out dekVersion)
  end.
End Codec.

(** ** Fixed-width fields *)
Lemma length_be_bytes n z : String.length (be_bytes n z) = n.
Proof.
  revert z. induction n as [|n IH]; intros z; cbn; [done|]. rewrite length_app_str, IH. cbn. lia.
Qed.

Lemma byte_of_Z_inj a b : byte_of_Z a = byte_of_Z b -> a mod 256 = b mod 256.
Proof.
  unfold byte_of_Z. intros H. apply (f_equal N_of_ascii) in H.
  pose proof (Z.mod_pos_bound a 256). pose proof (Z.mod_pos_bound b 256).
  rewrite !N_ascii_embedding in H by lia. lia.
Qed.

Lemma app_inj_str a b c d : String.length a = String.length c -> a +:+ b = c +:+ d -> a = c /\ b = d.
Proof.
  revert c. induction a as [|x a IH]; intros [|y c] Hl H; try done.
  rewrite !app_cons_str in H. injection H as -> H. cbn in Hl. destruct (IH c) as [-> ->]; [lia|done|done].
Qed.

Lemma be_bytes_inj n a b : be_bytes n a = be_bytes n b -> a mod 256 ^ Z.of_nat n = b mod 256 ^ Z.of_nat n.
Proof.
  revert a b. induction n as [|n IH]; intros a b; [by rewrite !Z.mod_1_r|]. cbn [be_bytes]. intros H.
  apply app_inj_str in H as [H1 H2]; [|by rewrite !length_be_bytes].
  injection H2 as H2. apply byte_of_Z_inj in H2. apply IH in H1.
  rewrite Nat2Z.inj_succ, Z.pow_succ_r by lia.
  rewrite !Z.rem_mul_r by (try apply Z.pow_pos_nonneg; lia). congruence.
Qed.

(** The range of the fields' types. *)
Definition u32 (z : Z) : Prop := 0 <= z < 2 ^ 32.
Definition u64 (z : Z) : Prop := 0 <= z < 2 ^ 64.
Definition i64 (z : Z) : Prop := - 2 ^ 63 <= z < 2 ^ 63.

Lemma be_bytes4_inj a b : u32 a -> u32 b -> be_bytes 4 a = be_bytes 4 b -> a = b.
Proof.
  intros Ha Hb H%be_bytes_inj. unfold u32 in *. change (256 ^ Z.of_nat 4) with (2 ^ 32) in H.
  by rewrite !Z.mod_small in H by done.
Qed.

Lemma be_bytes8_inj a b : u64 a -> u64 b -> be_bytes 8 a = be_bytes 8 b -> a = b.
Proof.
  intros Ha Hb H%be_bytes_inj. unfold u64 in *. change (256 ^ Z.of_nat 8) with (2 ^ 64) in H.
  by rewrite !Z.mod_small in H by done.
Qed.

Lemma be_bytes8_inj_signed a b : i64 a -> i64 b -> be_bytes 8 a = be_bytes 8 b -> a = b.
Proof.
  intros Ha Hb H%be_bytes_inj. unfold i64 in *. change (256 ^ Z.of_nat 8) with (2 ^ 64) in H.
  assert (Hm : (a - b) mod 2 ^ 64 = 0) by by rewrite Zminus_mod, H, Z.sub_diag.
  apply Z.mod_divide in Hm as [q Hq]; [|done]. assert (q = 0) by nia. nia.
Qed.

(** A length-prefixed field can be cut off the front of what it starts. *)
Lemma prefixed_inj s t x y :
  zlen s <= maxFieldLen -> zlen t <= maxFieldLen ->
  be_bytes 4 (zlen s) +:+ s +:+ x = be_bytes 4 (zlen t) +:+ t +:+ y -> s = t /\ x = y.
Proof.
  intros Hs Ht H. apply app_inj_str in H as [Hl H]; [|by rewrite !length_be_bytes].
  apply be_bytes4_inj in Hl; [|unfold u32, zlen, maxFieldLen in *; lia..].
  apply app_inj_str in H; [done|]. unfold zlen in Hl. lia.
Qed.

Lemma checkFieldLen_Ok f n u : checkFieldLen f n = Ok u -> n <= maxFieldLen.
Proof. unfold checkFieldLen. destruct (_ || _) eqn:E; [done|]. bool_prop. lia. Qed.

(** The layout of a successfully built AAD. *)
Lemma Build_layout L e c r v out :
  Build L e c r v = Ok out ->
  exists ab, marshalActor L (ev_Actor e) = Ok ab
    /\ zlen (ev_Id e) <= maxFieldLen /\ zlen (ev_Subject e) <= maxFieldLen /\ zlen (ev_Type e) <= maxFieldLen
    /\ zlen ab <= maxFieldLen /\ zlen c <= maxFieldLen
    /\ out = magic +:+ (be_bytes 4 (zlen (ev_Id e)) +:+ ev_Id e +:+ (be_bytes 4 (zlen (ev_Subject e)) +:+ ev_Subject e
         +:+ (be_bytes 4 (zlen (ev_Type e)) +:+ ev_Type e +:+ (be_bytes 8 (default 0 (ev_Timestamp e))
         +:+ (be_bytes 4 (zlen ab) +:+ ab +:+ (be_bytes 4 (zlen c) +:+ c +:+ (be_bytes 8 r +:+ be_bytes 4 v))))))).
Proof.
  unfold Build. destruct (marshalActor L (ev_Actor e)) as [ab|]; [|done]. intros H.
  destruct (checkFieldLen "event.id" _) eqn:H1; [|done]. destruct (checkFieldLen "event.subject" _) eqn:H2; [|done].
  destruct (checkFieldLen "event.type" _) eqn:H3; [|done]. destruct (checkFieldLen "actor_bytes" _) eqn:H4; [|done].
  destruct (checkFieldLen "codec_name" _) eqn:H5; [|done]. apply checkFieldLen_Ok in H1, H2, H3, H4, H5.
  exists ab. repeat (split; [done|]). cbn in H. injection H as <-.
  unfold AppendUint32, AppendUint64, appendLengthPrefixed, AppendUint32. by rewrite !app_assoc_str.
Qed.

(** C39: the additional authenticated data of an event determines everything it is
    to bind: the event's id, subject, type and timestamp, the encoding of its
    actor, the codec and the key's id and version.  No two different combinations
    share an encoding, so a ciphertext opened under one cannot be passed off under
    another.  The hypotheses are the ranges of the Go types ([int64] nanoseconds,
    [uint64] key ids, [uint32] versions). *)
Theorem aad_injective L e1 c1 r1 v1 e2 c2 r2 v2 out :
  i64 (default 0 (ev_Timestamp e1)) -> i64 (default 0 (ev_Timestamp e2)) ->
  u64 r1 -> u64 r2 -> u32 v1 -> u32 v2 ->
  Build L e1 c1 r1 v1 = Ok out -> Build L e2 c2 r2 v2 = Ok out ->
  ev_Id e1 = ev_Id e2 /\ ev_Subject e1 = ev_Subject e2 /\ ev_Type e1 = ev_Type e2
  /\ default 0 (ev_Timestamp e1) = default 0 (ev_Timestamp e2)
  /\ marshalActor L (ev_Actor e1) = marshalActor L (ev_Actor e2)
  /\ c1 = c2 /\ r1 = r2 /\ v1 = v2.
Proof.
  intros Ht1 Ht2 Hr1 Hr2 Hv1 Hv2 (a1 & Ha1 & Hi1 & Hs1 & Hy1 & Hb1 & Hc1 & E1)%Build_layout
    (a2 & Ha2 & Hi2 & Hs2 & Hy2 & Hb2 & Hc2 & E2)%Build_layout.
  rewrite E1 in E2. clear E1. apply app_inj_l_str in E2.
  apply prefixed_inj in E2 as [HI E2]; [|done..]. apply prefixed_inj in E2 as [HS E2]; [|done..].
  apply prefixed_inj in E2 as [HY E2]; [|done..].
  apply app_inj_str in E2 as [HT E2]; [|by rewrite !length_be_bytes]. apply be_bytes8_inj_signed in HT; [|done..].
  apply prefixed_inj in E2 as [HA E2]; [|done..]. apply prefixed_inj in E2 as [HC E2]; [|done..].
  apply app_inj_str in E2 as [HR HV]; [|by rewrite !length_be_bytes].
  apply be_bytes8_inj in HR; [|done..]. apply be_bytes4_inj in HV; [|done..]. subst. by rewrite Ha1, Ha2.
Qed.

(** ** A library for concrete runs

    Sealing appends a tag made of key and aad, which opening checks; messages are
    encoded bit by bit. *)
Definition toy_tag (k a : string) : string := str_take 16 (k +:+ a +:+ "0123456789abcdef").
Definition toy_seal (k n p a : string) : string := p +:+ toy_tag k a.
Definition toy_open (k n c a : string) : option string :=
  let m := (String.length c - 16)%nat in
  if String.eqb (str_drop m c) (toy_tag k a) then Some (str_take m c) else None.

Fixpoint bits (p : positive) : string :=
  match p with
  | xH => EmptyString
  | xO q => String "0" (bits q)
  | xI q => String "1" (bits q)
  end.
Fixpoint of_bits (s : string) : positive :=
  match s with
  | EmptyString => xH
  | String c s' => if Ascii.eqb c "0" then xO (of_bits s') else xI (of_bits s')
  end.

#[export] Instance Actor_eq_dec : EqDecision Actor.
Proof. solve_decision. Defined.
#[export] Instance Event_eq_dec : EqDecision Event.
Proof. solve_decision. Defined.
#[export] Instance Actor_countable : Countable Actor :=
  inj_countable' (fun a => (ac_Kind a, ac_Id a)) (fun p => mkActor p.1 p.2) ltac:(by intros []).
#[export] Instance Event_countable : Countable Event :=
  inj_countable' (fun e => (ev_Id e, ev_Subject e, ev_Type e, ev_Timestamp e, ev_Actor e, ev_Payload e, ev_Rendering e))
    (fun '(i, s, t, ts, a, p, r) => mkEvent i s t ts a p r) ltac:(by intros []).

Definition toy_lib : CryptoLib :=
  mkCryptoLib toy_seal toy_open (fun a => Ok (bits (encode a))) (fun e => Ok (bits (encode e)))
    (fun b => match decode (of_bits b) with Some e => Ok e | None => Err (ErrNew "proto") end)
    (fun r x => (String "w" x, "kek-1"))
    (fun w kid => match w with
                  | String _ x => if String.eqb kid "kek-1" then Some x else None
                  | EmptyString => None
                  end).

Lemma length_str_take n s : (n <= String.length s)%nat -> String.length (str_take n s) = n.
Proof. revert s. induction n as [|n IH]; intros [|c s] H; cbn in *; try lia. rewrite IH; lia. Qed.

Lemma str_take_app a b : str_take (String.length a) (a +:+ b) = a.
Proof. induction a as [|c a IH]; [by destruct b|]. rewrite app_cons_str. cbn. by rewrite IH. Qed.

Lemma length_toy_tag k a : String.length (toy_tag k a) = 16%nat.
Proof. apply length_str_take. rewrite !length_app_str. cbn. lia. Qed.

Lemma of_bits_bits p : of_bits (bits p) = p.
Proof. induction p; cbn; congruence. Qed.

#[export] Instance toy_laws : CryptoLaws toy_lib.
Proof.
  split; cbn.
  - intros k n p a. unfold toy_open, toy_seal. rewrite length_app_str, length_toy_tag.
    replace (String.length p + 16 - 16)%nat with (String.length p) by lia.
    by rewrite str_drop_app, String.eqb_refl, str_take_app.
  - intros k n p a. unfold toy_seal. by rewrite length_app_str, length_toy_tag.
  - intros e b [= <-]. by rewrite of_bits_bits, decode_encode.
  - intros r x. done.
Qed.

Definition toy_event : Event :=
  mkEvent "0123456789abcdef" "events.g1.scene.s1" "scene.pose" (Some 5) (Some (mkActor 1 "alice")) "payload" None.

Definition toy_aad : string := match Build toy_lib toy_event NameXChaCha20v1 7 3 with Ok a => a | Err _ => EmptyString end.

Lemma aad_injective_witness :
  Build toy_lib toy_event NameXChaCha20v1 7 3 = Ok toy_aad
  /\ ev_Id toy_event = ev_Id toy_event /\ ev_Subject toy_event = ev_Subject toy_event
  /\ ev_Type toy_event = ev_Type toy_event
  /\ default 0 (ev_Timestamp toy_event) = default 0 (ev_Timestamp toy_event)
  /\ marshalActor toy_lib (ev_Actor toy_event) = marshalActor toy_lib (ev_Actor toy_event)
  /\ NameXChaCha20v1 = NameXChaCha20v1 /\ 7 = 7 /\ 3 = 3.
Proof.
  split; [vm_compute; reflexivity|].
  apply (aad_injective toy_lib toy_event NameXChaCha20v1 7 3 toy_event NameXChaCha20v1 7 3 toy_aad);
    first [vm_compute; reflexivity | vm_compute; split; congruence].
Defined.

(** ** Round trip *)

(** What a codec encodes it decodes, under the same key and metadata. *)
Lemma Decode_Encode L `{!CryptoLaws L} c nonce p key aad ct :
  String.length nonce = NonceSizeX -> Encode L c nonce p key aad = Ok ct -> Decode L c ct key aad = Ok p.
Proof.
  intros Hn. unfold Encode, Decode. destruct c; [by intros [= ->]|]. destruct (newX (k_Bytes key)); [|done]. intros [= <-].
  assert (Hl : (String.length (nonce +:+ aead_seal L (k_Bytes key) nonce p aad) <? NonceSizeX + Overhead)%nat = false).
  { apply Nat.ltb_ge. rewrite length_app_str, seal_length, Hn. unfold Overhead. lia. }
  rewrite Hl. rewrite <- Hn at 1. rewrite <- Hn at 1. by rewrite str_take_app, str_drop_app, open_seal.
Qed.

Lemma Build_payload L e p c r v : Build L (set_payload e p) c r v = Build L e c r v.
Proof. done. Qed.
