(* ===== verification/DekCache.v ===== *)
(** The in-process caches of key material and of participant sets:
    [internal/eventbus/crypto/dek/cache.go] and [participants_cache.go].

    Both are a doubly linked list of entries (container/list), most recently used
    first, an index from keys to list elements and a reverse index from contexts
    to keys.  List elements have an identity and their entries are updated in
    place, so entries live in a store [ca_elems] under the element's identity.
    Each method holds the mutex throughout; clock readings are arguments. *)

From S2P Require Import Prelude GoStrings Sql DekTypes.

Open Scope Z_scope.

Record CacheConfig : Type := mkCacheConfig { cf_Capacity : Z; cf_TTL : Z }.

Definition DefaultCacheCapacity : Z := 1024.
Definition DefaultCacheTTL : Z := 5 * 60 * 1000000000.

Definition applyDefaults (cfg : CacheConfig) : CacheConfig :=
  mkCacheConfig (if cf_Capacity cfg <=? 0 then DefaultCacheCapacity else cf_Capacity cfg)
    (if cf_TTL cfg <=? 0 then DefaultCacheTTL else cf_TTL cfg).

Section Cache.
Context {K : Type} `{Countable K} {V : Type}.

Record entry : Type := mkEntry {
  ce_key : K;
  ce_contextID : ContextID;
  ce_value : V;
  ce_expiresAt : Z
}.

Record cache : Type := mkCache {
  ca_cap : Z;
  ca_ttl : Z;
  ca_list : list nat;
  ca_elems : gmap nat entry;
  ca_byKey : gmap K nat;
  ca_byContext : gmap ContextID (gset K);
  ca_next : nat   (* the identity of the next element *)
}.

(** [NewCache], [NewParticipantsCache]. *)
Definition new_cache (cfg : CacheConfig) : cache :=
  let cfg := applyDefaults cfg in mkCache (cf_Capacity cfg) (cf_TTL cfg) [] ∅ ∅ ∅ 0.

Definition with_list (c : cache) l : cache :=
  mkCache (ca_cap c) (ca_ttl c) l (ca_elems c) (ca_byKey c) (ca_byContext c) (ca_next c).
Definition with_elems (c : cache) m : cache :=
  mkCache (ca_cap c) (ca_ttl c) (ca_list c) m (ca_byKey c) (ca_byContext c) (ca_next c).
Definition with_byKey (c : cache) m : cache :=
  mkCache (ca_cap c) (ca_ttl c) (ca_list c) (ca_elems c) m (ca_byContext c) (ca_next c).
Definition with_byContext (c : cache) m : cache :=
  mkCache (ca_cap c) (ca_ttl c) (ca_list c) (ca_elems c) (ca_byKey c) m (ca_next c).

(** ** container/list *)
Definition list_Remove (e : nat) (c : cache) : cache :=
  with_elems (with_list c (filter (fun x => x <> e) (ca_list c))) (delete e (ca_elems c)).
Definition list_MoveToFront (e : nat) (c : cache) : cache :=
  with_list c (e :: filter (fun x => x <> e) (ca_list c)).
Definition list_PushFront (en : entry) (c : cache) : nat * cache :=
  let e := ca_next c in
  (e, mkCache (ca_cap c) (ca_ttl c) (e :: ca_list c) (<[e := en]> (ca_elems c)) (ca_byKey c)
        (ca_byContext c) (S e)).

(** ** The reverse index *)

(** [delete(set, key); if len(set) == 0 { delete(c.byContext, ctx) }]. *)
Definition unindex (x : ContextID) (k : K) (c : cache) : cache :=
  match ca_byContext c !! x with
  | None => c
  | Some set =>
      let set' := set ∖ {[k]} in
      with_byContext c (if bool_decide (set' = ∅) then delete x (ca_byContext c)
                        else <[x := set']> (ca_byContext c))
  end.

Definition indexContextLocked (x : ContextID) (k : K) (c : cache) : cache :=
  with_byContext c (<[x := default ∅ (ca_byContext c !! x) ∪ {[k]}]> (ca_byContext c)).

(** [removeLocked]; also the inlined removals of [cache.go]. *)
Definition removeLocked (e : nat) (en : entry) (c : cache) : cache :=
  let c := list_Remove e c in
  let c := with_byKey c (delete (ce_key en) (ca_byKey c)) in
  unindex (ce_contextID en) (ce_key en) c.

Definition evictOldestLocked (c : cache) : cache :=
  match last (ca_list c) with
  | None => c
  | Some oldest =>
      match ca_elems c !! oldest with
      | None => c
      | Some en => removeLocked oldest en c
      end
  end.

(** ** Operations *)
Definition cache_Get (now : Z) (k : K) (c : cache) : option V * cache :=
  match ca_byKey c !! k with
  | None => (None, c)
  | Some e =>
      match ca_elems c !! e with
      | None => (None, c)
      | Some en =>
          if ce_expiresAt en <? now then (None, removeLocked e en c)
          else (Some (ce_value en), list_MoveToFront e c)
      end
  end.

(** The insertion of a new element, shared by the two [Put]s. *)
Definition push (k : K) (x : ContextID) (v : V) (expires : Z) (c : cache) : cache :=
  let '(e, c) := list_PushFront (mkEntry k x v expires) c in
  let c := with_byKey c (<[k := e]> (ca_byKey c)) in
  let c := indexContextLocked x k c in
  if ca_cap c <? Z.of_nat (length (ca_list c)) then evictOldestLocked c else c.

(** [Cache.Put]. *)
Definition cache_Put (now : Z) (k : K) (x : ContextID) (v : V) (c : cache) : cache :=
  match ca_byKey c !! k with
  | Some e =>
      let c := match ca_elems c !! e with
               | None => c
               | Some en =>
                   let c := if bool_decide (ce_contextID en = x) then c
                            else indexContextLocked x k (unindex (ce_contextID en) k c) in
                   with_elems c (<[e := mkEntry (ce_key en) x v (now + ca_ttl c)]> (ca_elems c))
               end in
      list_MoveToFront e c
  | None => push k x v (now + ca_ttl c) c
  end.

(** [ParticipantsCache.Put]: the context is part of the key, so an entry found
    keeps its own. *)
Definition part_Put (now : Z) (k : K) (x : ContextID) (v : V) (c : cache) : cache :=
  match ca_byKey c !! k with
  | Some e =>
      let c := match ca_elems c !! e with
               | None => c
               | Some en =>
                   with_elems c (<[e := mkEntry (ce_key en) (ce_contextID en) v (now + ca_ttl c)]> (ca_elems c))
               end in
      list_MoveToFront e c
  | None => push k x v (now + ca_ttl c) c
  end.

Definition cache_Invalidate (k : K) (c : cache) : cache :=
  match ca_byKey c !! k with
  | None => c
  | Some e =>
      match ca_elems c !! e with
      | None => c
      | Some en => removeLocked e en c
      end
  end.

(** The body of the loop of [InvalidateContext]. *)
Definition drop_key (c : cache) (k : K) : cache :=
  match ca_byKey c !! k with
  | None => c
  | Some e => let c := list_Remove e c in with_byKey c (delete k (ca_byKey c))
  end.

Definition cache_InvalidateContext (x : ContextID) (c : cache) : cache :=
  match ca_byContext c !! x with
  | None => c
  | Some set =>
      let c := fold_left drop_key (elements set) c in
      with_byContext c (delete x (ca_byContext c))
  end.

Definition cache_Len (c : cache) : Z := Z.of_nat (length (ca_list c)).
Definition contextIndexLen (c : cache) : Z := Z.of_nat (size (ca_byContext c)).

(** ** What a cache holds: its entries, most recently used first *)
Definition view (c : cache) : list entry := omap (fun e => ca_elems c !! e) (ca_list c).

Record wf (c : cache) : Prop := mkWf {
  wf_nodup : NoDup (ca_list c);
  wf_dom : forall e, e ∈ ca_list c <-> is_Some (ca_elems c !! e);
  wf_key : forall k e, ca_byKey c !! k = Some e <-> exists en, ca_elems c !! e = Some en /\ ce_key en = k;
  wf_ctx : forall x k, k ∈ default ∅ (ca_byContext c !! x)
             <-> exists e en, ca_elems c !! e = Some en /\ ce_key en = k /\ ce_contextID en = x;
  wf_nonempty : forall x set, ca_byContext c !! x = Some set -> set <> ∅;
  wf_next : forall e, is_Some (ca_elems c !! e) -> (e < ca_next c)%nat;
  wf_pos : 0 < ca_cap c
}.
End Cache.
Arguments entry K V : clear implicits.
Arguments cache K {_ _} V.

(** The keys of the two caches. *)
Record CacheKey : Type := mkCacheKey { kk_KeyID : Z; kk_Version : Z }.
#[export] Instance CacheKey_eq_dec : EqDecision CacheKey.
Proof. solve_decision. Defined.
#[export] Instance CacheKey_countable : Countable CacheKey :=
  inj_countable' (fun k => (kk_KeyID k, kk_Version k)) (fun p => mkCacheKey p.1 p.2) ltac:(by intros []).

Record ParticipantsCacheKey : Type := mkPartKey { pk_ContextType : string; pk_ContextID : string; pk_Version : Z }.
#[export] Instance ParticipantsCacheKey_eq_dec : EqDecision ParticipantsCacheKey.
Proof. solve_decision. Defined.
#[export] Instance ParticipantsCacheKey_countable : Countable ParticipantsCacheKey :=
  inj_countable' (fun k => (pk_ContextType k, pk_ContextID k, pk_Version k))
    (fun p => mkPartKey p.1.1 p.1.2 p.2) ltac:(by intros []).
