(* ===== verification/DekCacheFacts.v ===== *)
(** The caches of key material and participants implement least-recently-used
    lists of bounded length, with an exact reverse index. *)

From S2P Require Import Prelude GoStrings Sql DekTypes DekCache.

Open Scope Z_scope.

(** ** Lists *)
Lemma omap_filter {A B} (P : B -> Prop) (Q : A -> Prop) `{!forall x, Decision (P x), !forall x, Decision (Q x)}
    (f g : A -> option B) (l : list A) :
  (forall x, x ∈ l -> Q x -> g x = f x) -> (forall x y, x ∈ l -> f x = Some y -> (P y <-> Q x)) ->
  omap g (filter Q l) = filter P (omap f l).
Proof.
  induction l as [|a l IH]; intros Hg HPQ; [done|].
  assert (IHl : omap g (filter Q l) = filter P (omap f l)) by (apply IH; set_solver).
  rewrite filter_cons. cbn [omap list_omap]. destruct (decide (Q a)) as [HQ|HQ].
  - cbn [omap list_omap]. rewrite (Hg a) by set_solver. destruct (f a) as [y|] eqn:E; [|done].
    rewrite filter_cons_True by (apply (HPQ a y); [set_solver|done|done]). by rewrite <- IHl.
  - destruct (f a) as [y|] eqn:E; [|done].
    rewrite filter_cons_False; [done|]. intros HP. apply HQ. apply (HPQ a y); [set_solver|done|done].
Qed.

Lemma filter_all {A} (P : A -> Prop) `{!forall x, Decision (P x)} (l : list A) : (forall x, x ∈ l -> P x) -> filter P l = l.
Proof.
  induction l as [|a l IH]; intros HP; [done|].
  rewrite filter_cons_True by (apply HP; set_solver). f_equal. apply IH. set_solver.
Qed.

Lemma filter_iff_in {A} (P Q : A -> Prop) `{!forall x, Decision (P x), !forall x, Decision (Q x)} (l : list A) :
  (forall x, x ∈ l -> P x <-> Q x) -> filter P l = filter Q l.
Proof.
  induction l as [|a l IH]; intros HPQ; [done|]. rewrite !filter_cons, IH by set_solver.
  pose proof (HPQ a ltac:(set_solver)). do 2 destruct (decide _); tauto.
Qed.

Section Facts.
Context {K : Type} `{Countable K} {V : Type}.
Implicit Types c : cache K V.

(** ** The reverse index *)
Lemma elem_of_unindex x k c y j :
  j ∈ default ∅ (ca_byContext (unindex x k c) !! y) <->
  j ∈ default ∅ (ca_byContext c !! y) /\ ~ (y = x /\ j = k).
Proof.
  unfold unindex. destruct (ca_byContext c !! x) as [set|] eqn:E.
  - cbn. case_bool_decide as He.
    + destruct (decide (y = x)) as [->|Hy].
      * rewrite lookup_delete_eq, E. cbn. set_solver.
      * rewrite lookup_delete_ne by done. naive_solver.
    + destruct (decide (y = x)) as [->|Hy].
      * rewrite lookup_insert_eq, E. cbn. set_solver.
      * rewrite lookup_insert_ne by done. naive_solver.
  - split; [|naive_solver]. intros Hj. split; [done|]. intros [-> ->]. rewrite E in Hj. set_solver.
Qed.

Lemma unindex_nonempty x k c :
  (forall y set, ca_byContext c !! y = Some set -> set <> ∅) ->
  forall y set, ca_byContext (unindex x k c) !! y = Some set -> set <> ∅.
Proof.
  intros Hne y set. unfold unindex. destruct (ca_byContext c !! x) as [s|] eqn:E; [|by apply Hne].
  cbn. case_bool_decide as He.
  - rewrite lookup_delete_Some. naive_solver.
  - rewrite lookup_insert_Some. naive_solver.
Qed.

Lemma elem_of_indexContext x k c y j :
  j ∈ default ∅ (ca_byContext (indexContextLocked x k c) !! y) <->
  j ∈ default ∅ (ca_byContext c !! y) \/ (y = x /\ j = k).
Proof.
  cbn. destruct (decide (y = x)) as [->|Hy].
  - rewrite lookup_insert_eq. cbn. set_solver.
  - rewrite lookup_insert_ne by done. naive_solver.
Qed.

Lemma indexContext_nonempty x k c :
  (forall y set, ca_byContext c !! y = Some set -> set <> ∅) ->
  forall y set, ca_byContext (indexContextLocked x k c) !! y = Some set -> set <> ∅.
Proof. intros Hne y set. cbn. rewrite lookup_insert_Some. intros [[<- <-]|[? ?]]; [set_solver|by eapply Hne]. Qed.

Lemma unindex_same x k c : ca_list (unindex x k c) = ca_list c /\ ca_elems (unindex x k c) = ca_elems c
  /\ ca_byKey (unindex x k c) = ca_byKey c /\ ca_next (unindex x k c) = ca_next c /\ ca_cap (unindex x k c) = ca_cap c
  /\ ca_ttl (unindex x k c) = ca_ttl c.
Proof. unfold unindex. by destruct (ca_byContext c !! x). Qed.

(** ** Elements *)
Lemma wf_lookup c k e : wf c -> ca_byKey c !! k = Some e -> exists en, ca_elems c !! e = Some en /\ ce_key en = k.
Proof. intros Hc. apply (wf_key _ Hc). Qed.

Lemma wf_elem_inj c e e' en en' :
  wf c -> ca_elems c !! e = Some en -> ca_elems c !! e' = Some en' -> ce_key en = ce_key en' -> e = e'.
Proof.
  intros Hc He He' Hk. assert (ca_byKey c !! ce_key en = Some e) by (apply (wf_key _ Hc); eauto).
  assert (ca_byKey c !! ce_key en = Some e') by (apply (wf_key _ Hc); eauto). congruence.
Qed.

Lemma elem_of_view c en : wf c -> en ∈ view c <-> exists e, ca_elems c !! e = Some en.
Proof.
  intros Hc. unfold view. rewrite list_elem_of_omap. split; [naive_solver|].
  intros [e He]. exists e. split; [|done]. apply (wf_dom _ Hc). eauto.
Qed.

(** No key occurs twice. *)
Lemma view_keys_nodup c : wf c -> NoDup (ce_key <$> view c).
Proof.
  intros Hc. unfold view. pose proof (wf_nodup _ Hc) as Hn.
  assert (Hinj : forall e e' en en', e ∈ ca_list c -> e' ∈ ca_list c -> ca_elems c !! e = Some en ->
    ca_elems c !! e' = Some en' -> ce_key en = ce_key en' -> e = e') by (intros; by eapply wf_elem_inj).
  revert Hinj Hn. generalize (ca_list c) as l. induction l as [|e l IH]; intros Hinj Hn; [constructor|].
  apply NoDup_cons in Hn as [Hin Hn]. cbn.
  assert (IHl : NoDup (ce_key <$> omap (fun e => ca_elems c !! e) l)).
  { apply IH; [|done]. intros. eapply Hinj; eauto; set_solver. }
  destruct (ca_elems c !! e) as [en|] eqn:He; [|done]. cbn. apply NoDup_cons. split; [|done].
  intros (en' & Hk & (e' & Hin' & He')%list_elem_of_omap)%list_elem_of_fmap.
  apply Hin. by rewrite (Hinj e e' en en' ltac:(set_solver) ltac:(set_solver) He He' Hk).
Qed.

Lemma length_view c : wf c -> length (view c) = length (ca_list c).
Proof.
  intros Hc. unfold view. assert (Hs : forall e, e ∈ ca_list c -> is_Some (ca_elems c !! e)) by (intros e; apply (wf_dom _ Hc)).
  revert Hs. generalize (ca_list c) as l. induction l as [|e l IH]; intros Hs; [done|]. cbn.
  destruct (Hs e ltac:(set_solver)) as [en ->]. cbn. rewrite IH; [done|]. set_solver.
Qed.

(** ** Removal *)
Lemma removeLocked_wf e en c : wf c -> ca_elems c !! e = Some en -> wf (removeLocked e en c).
Proof.
  intros Hc He. unfold removeLocked. cbn zeta.
  set (c1 := with_byKey (list_Remove e c) (delete (ce_key en) (ca_byKey (list_Remove e c)))).
  destruct (unindex_same (ce_contextID en) (ce_key en) c1) as (Hl & Hel & Hk & Hnx & Hcp & _).
  assert (Hlook : forall e' en', ca_elems c1 !! e' = Some en' <-> e' <> e /\ ca_elems c !! e' = Some en').
  { intros. cbn. rewrite lookup_delete_Some. naive_solver. }
  split; rewrite ?Hl, ?Hel, ?Hk, ?Hnx, ?Hcp.
  - apply NoDup_filter, (wf_nodup _ Hc).
  - intros e'. cbn. rewrite list_elem_of_filter, (wf_dom _ Hc). unfold is_Some. setoid_rewrite lookup_delete_Some. naive_solver.
  - intros k e'. cbn. rewrite lookup_delete_Some, (wf_key _ Hc). setoid_rewrite lookup_delete_Some. split.
    + intros [Hne (en' & He' & Hk')]. exists en'. split; [split; [|done]|done]. intros <-. congruence.
    + intros (en' & [Hne He'] & Hk'). split; [|eauto]. intros Heq. apply Hne. eapply wf_elem_inj; eauto. congruence.
  - intros x k. rewrite elem_of_unindex. change (ca_byContext c1) with (ca_byContext c). rewrite (wf_ctx _ Hc).
    setoid_rewrite Hlook. split.
    + intros [(e' & en' & He' & Hk' & Hx') Hn]. exists e', en'. split; [|done]. split; [|done]. intros ->.
      rewrite He in He'. simplify_eq. naive_solver.
    + intros (e' & en' & [Hne He'] & Hk' & Hx'). split; [eauto|]. intros [-> ->]. apply Hne.
      eapply wf_elem_inj; eauto.
  - apply unindex_nonempty. apply (wf_nonempty _ Hc).
  - intros e'. unfold is_Some. setoid_rewrite Hlook. intros [en' [_ He']]. apply (wf_next _ Hc). eauto.
  - apply (wf_pos _ Hc).
Qed.

Lemma removeLocked_view e en c :
  wf c -> ca_elems c !! e = Some en -> view (removeLocked e en c) = filter (fun x => ce_key x <> ce_key en) (view c).
Proof.
  intros Hc He. unfold view, removeLocked. cbn zeta.
  set (c1 := with_byKey (list_Remove e c) (delete (ce_key en) (ca_byKey (list_Remove e c)))).
  destruct (unindex_same (ce_contextID en) (ce_key en) c1) as (Hl & Hel & _). rewrite Hl, Hel. cbn.
  apply omap_filter.
  - intros x _ Hx. by rewrite lookup_delete_ne.
  - intros x y _ Hy. split; [intros Hk ->; rewrite He in Hy; by simplify_eq|].
    intros Hne Hk. apply Hne. by eapply wf_elem_inj.
Qed.

Lemma removeLocked_length e en c : wf c -> ca_elems c !! e = Some en ->
  length (ca_list (removeLocked e en c)) = (length (ca_list c) - 1)%nat.
Proof.
  intros Hc He. unfold removeLocked. cbn zeta.
  set (c1 := with_byKey (list_Remove e c) (delete (ce_key en) (ca_byKey (list_Remove e c)))).
  destruct (unindex_same (ce_contextID en) (ce_key en) c1) as (Hl & _). rewrite Hl. cbn.
  assert (Hin : e ∈ ca_list c) by (apply (wf_dom _ Hc); eauto).
  pose proof (wf_nodup _ Hc) as Hn. revert Hin Hn. generalize (ca_list c) as l.
  induction l as [|a l IH]; intros Hin Hn; [set_solver|]. apply NoDup_cons in Hn as [Ha Hn].
  rewrite filter_cons. destruct (decide (a <> e)) as [Hne|Heq].
  - cbn. rewrite IH by set_solver. destruct l; [set_solver|cbn; lia].
  - apply dec_stable in Heq as ->. rewrite filter_all; [cbn; lia|]. intros x Hx ->. done.
Qed.

Lemma removeLocked_cap e en c : ca_cap (removeLocked e en c) = ca_cap c.
Proof. unfold removeLocked, unindex. by case_match. Qed.

Lemma removeLocked_ttl e en c : ca_ttl (removeLocked e en c) = ca_ttl c.
Proof. unfold removeLocked, unindex. by case_match. Qed.

(** ** Moving to the front *)
Lemma MoveToFront_wf e c : wf c -> e ∈ ca_list c -> wf (list_MoveToFront e c).
Proof.
  intros Hc Hin. split; cbn; try apply Hc.
  - apply NoDup_cons. split; [rewrite list_elem_of_filter; naive_solver|]. apply NoDup_filter, (wf_nodup _ Hc).
  - intros e'. rewrite elem_of_cons, list_elem_of_filter, <- (wf_dom _ Hc).
    destruct (decide (e' = e)) as [->|]; naive_solver.
Qed.

Lemma MoveToFront_view e en c :
  wf c -> ca_elems c !! e = Some en ->
  view (list_MoveToFront e c) = en :: filter (fun x => ce_key x <> ce_key en) (view c).
Proof.
  intros Hc He. unfold view. cbn. rewrite He. f_equal. apply omap_filter; [done|].
  intros x y _ Hy. split; [intros Hk ->; rewrite He in Hy; by simplify_eq|].
  intros Hne Hk. apply Hne. by eapply wf_elem_inj.
Qed.

Lemma MoveToFront_length e c : wf c -> e ∈ ca_list c -> length (ca_list (list_MoveToFront e c)) = length (ca_list c).
Proof.
  intros Hc Hin. pose proof (wf_nodup _ Hc) as Hn. cbn. revert Hin Hn. generalize (ca_list c) as l.
  induction l as [|a l IH]; intros Hin Hn; [set_solver|]. apply NoDup_cons in Hn as [Ha Hn].
  rewrite filter_cons. destruct (decide (a <> e)) as [Hne|Heq].
  - cbn. rewrite IH by set_solver. done.
  - apply dec_stable in Heq as ->. rewrite filter_all; [done|]. intros x Hx ->. done.
Qed.

(** ** Updating an element in place *)
Lemma update_wf c c' e en en' :
  wf c -> ca_elems c !! e = Some en -> ce_key en' = ce_key en ->
  ca_list c' = ca_list c -> ca_byKey c' = ca_byKey c -> ca_next c' = ca_next c -> ca_cap c' = ca_cap c ->
  ca_elems c' = <[e := en']> (ca_elems c) ->
  (forall x set, ca_byContext c' !! x = Some set -> set <> ∅) ->
  (forall x k, k ∈ default ∅ (ca_byContext c' !! x) <->
     k ∈ default ∅ (ca_byContext c !! x) /\ (k <> ce_key en \/ ce_contextID en' = ce_contextID en)
     \/ k = ce_key en /\ x = ce_contextID en') ->
  wf c'.
Proof.
  intros Hc He Hk Hl Hby Hnx Hcp Hel Hne Hix.
  assert (Hlook : forall e1 en1, ca_elems c' !! e1 = Some en1 <-> e1 = e /\ en1 = en' \/ e1 <> e /\ ca_elems c !! e1 = Some en1).
  { intros. rewrite Hel, lookup_insert_Some. naive_solver. }
  split; rewrite ?Hl, ?Hby, ?Hnx, ?Hcp; try done; try apply Hc.
  - intros e1. rewrite (wf_dom _ Hc), Hel. destruct (decide (e1 = e)) as [->|].
    + rewrite lookup_insert_eq, He. unfold is_Some. naive_solver.
    + by rewrite lookup_insert_ne.
  - intros k e1. rewrite (wf_key _ Hc). setoid_rewrite Hlook. split.
    + intros (en1 & He1 & Hk1). destruct (decide (e1 = e)) as [->|]; [|naive_solver].
      exists en'. split; [naive_solver|]. congruence.
    + intros (en1 & [[-> ->]|[? ?]] & Hk1); [|naive_solver]. exists en. split; [done|congruence].
  - intros x k. rewrite Hix, (wf_ctx _ Hc). setoid_rewrite Hlook. split.
    + intros [[(e1 & en1 & He1 & Hk1 & Hx1) Hor]|[-> ->]]; [|exists e, en'; naive_solver].
      destruct (decide (e1 = e)) as [->|Hn]; [|exists e1, en1; naive_solver].
      rewrite He in He1. simplify_eq. exists e, en'. destruct Hor as [|Hor]; naive_solver.
    + intros (e1 & en1 & [[-> ->]|[Hn He1]] & Hk1 & Hx1); [right; split; congruence|].
      left. split; [eauto|]. left. intros Hkk. apply Hn. eapply wf_elem_inj; eauto. congruence.
  - intros e1. unfold is_Some. setoid_rewrite Hlook. intros [en1 [[-> ->]|[? ?]]]; apply (wf_next _ Hc); eauto.
Qed.

(** ** Inserting *)
Definition pushed (k : K) (x : ContextID) (v : V) (t : Z) (c : cache K V) : cache K V :=
  let '(e, c) := list_PushFront (mkEntry k x v t) c in
  indexContextLocked x k (with_byKey c (<[k := e]> (ca_byKey c))).

Lemma pushed_wf k x v t c : wf c -> ca_byKey c !! k = None -> wf (pushed k x v t c).
Proof.
  intros Hc Hk.
  assert (Hfresh : ca_elems c !! ca_next c = None).
  { apply eq_None_not_Some. intros Hs%(wf_next _ Hc). lia. }
  assert (Hlook : forall e1 en1, <[ca_next c := mkEntry k x v t]> (ca_elems c) !! e1 = Some en1 <->
    e1 = ca_next c /\ en1 = mkEntry k x v t \/ ca_elems c !! e1 = Some en1).
  { intros. rewrite lookup_insert_Some. split; [naive_solver|]. intros [?|He1]; [naive_solver|].
    right. split; [|done]. intros <-. congruence. }
  assert (Hnk : forall e1 en1, ca_elems c !! e1 = Some en1 -> ce_key en1 <> k).
  { intros e1 en1 He1 Hk1. assert (ca_byKey c !! k = Some e1) by (apply (wf_key _ Hc); eauto). congruence. }
  split.
  - cbn. apply NoDup_cons. split; [rewrite (wf_dom _ Hc), Hfresh; by intros [? ?]|apply Hc].
  - intros e1. cbn. rewrite elem_of_cons, (wf_dom _ Hc). unfold is_Some. setoid_rewrite Hlook. naive_solver.
  - intros k1 e1. cbn. rewrite lookup_insert_Some, (wf_key _ Hc). setoid_rewrite Hlook. split.
    + intros [[<- <-]|[Hne (en1 & ? & ?)]]; [|naive_solver]. eexists. split; [by left|done].
    + intros (en1 & [[-> ->]|He1] & Hk1); [by left|]. right. split; [|eauto]. intros <-. by eapply Hnk.
  - intros y j. unfold pushed, list_PushFront. rewrite elem_of_indexContext. cbn. rewrite (wf_ctx _ Hc).
    setoid_rewrite Hlook. split.
    + intros [(e1 & en1 & ? & ? & ?)|[-> ->]]; [naive_solver|]. do 2 eexists. split; [by left|done].
    + intros (e1 & en1 & [[-> ->]|He1] & ? & ?); [right; naive_solver|left; eauto].
  - apply indexContext_nonempty. apply (wf_nonempty _ Hc).
  - intros e1. cbn. unfold is_Some. setoid_rewrite Hlook. intros [en1 [[-> _]|He1]]; [lia|].
    assert (e1 < ca_next c)%nat by (apply (wf_next _ Hc); eauto). lia.
  - apply Hc.
Qed.

Lemma pushed_view k x v t c : wf c -> view (pushed k x v t c) = mkEntry k x v t :: view c.
Proof.
  intros Hc. unfold view. cbn. rewrite lookup_insert_eq. f_equal.
  assert (Hn : forall e, e ∈ ca_list c -> e <> ca_next c).
  { intros e He ->. apply (wf_dom _ Hc), (wf_next _ Hc) in He. lia. }
  revert Hn. generalize (ca_list c) as l. induction l as [|e l IH]; intros Hn; [done|]. cbn.
  rewrite lookup_insert_ne by (intros Heq; symmetry in Heq; revert Heq; apply Hn; set_solver).
  rewrite IH by set_solver. done.
Qed.

Lemma push_pushed k x v t c :
  push k x v t c = if ca_cap c <? Z.of_nat (S (length (ca_list c))) then evictOldestLocked (pushed k x v t c)
                   else pushed k x v t c.
Proof. done. Qed.

Lemma filter_keys_removelast (l : list (entry K V)) en :
  NoDup (ce_key <$> l) -> last l = Some en -> filter (fun x => ce_key x <> ce_key en) l = take (length l - 1) l.
Proof.
  intros Hn Hl. destruct l as [|a l _] using rev_ind; [done|]. rewrite last_snoc in Hl. simplify_eq.
  rewrite fmap_app in Hn. apply NoDup_app in Hn as (_ & Hd & _).
  rewrite filter_app, filter_cons_False by (by intros Hx; apply Hx). cbn. rewrite app_nil_r, filter_all.
  - rewrite length_app. cbn. replace (length l + 1 - 1)%nat with (length l) by lia. by rewrite take_app_length.
  - intros y Hy Heq. apply (Hd (ce_key y)); [by apply list_elem_of_fmap_2|]. rewrite Heq. set_solver.
Qed.

Lemma last_view c e : wf c -> last (ca_list c) = Some e -> exists en, ca_elems c !! e = Some en /\ last (view c) = Some en.
Proof.
  intros Hc Hl. unfold view. assert (Hs : forall e, e ∈ ca_list c -> is_Some (ca_elems c !! e)) by (intros e'; apply (wf_dom _ Hc)).
  revert Hl Hs. generalize (ca_list c) as l. intros l. destruct l as [|a l _] using rev_ind; [done|].
  rewrite last_snoc. intros [= ->] Hs. destruct (Hs e ltac:(set_solver)) as [en He]. exists en. split; [done|].
  rewrite omap_app. cbn. rewrite He. apply last_snoc.
Qed.

Lemma evict_spec c : wf c -> (0 < length (ca_list c))%nat ->
  wf (evictOldestLocked c) /\ view (evictOldestLocked c) = take (length (view c) - 1) (view c)
  /\ length (ca_list (evictOldestLocked c)) = (length (ca_list c) - 1)%nat
  /\ ca_cap (evictOldestLocked c) = ca_cap c /\ ca_ttl (evictOldestLocked c) = ca_ttl c.
Proof.
  intros Hc Hlen. unfold evictOldestLocked. destruct (last (ca_list c)) as [e|] eqn:Hl.
  2:{ apply last_None in Hl. rewrite Hl in Hlen. cbn in Hlen. lia. }
  destruct (last_view _ _ Hc Hl) as (en & He & Hv). rewrite He.
  split_and!; [by apply removeLocked_wf| |by apply removeLocked_length|apply removeLocked_cap|apply removeLocked_ttl].
  rewrite (removeLocked_view _ _ _ Hc He). apply filter_keys_removelast; [by apply view_keys_nodup|done].
Qed.

(** ** The least-recently-used list *)
Definition without (k : K) (l : list (entry K V)) : list (entry K V) := filter (fun x => ce_key x <> k) l.

Definition find_key (k : K) (l : list (entry K V)) : option (entry K V) :=
  head (filter (fun x => ce_key x = k) l).

Inductive op : Type :=
| OpGet (now : Z) (k : K)
| OpPut (now : Z) (k : K) (x : ContextID) (v : V)
| OpInvalidate (k : K)
| OpInvalidateContext (x : ContextID).

Definition lru_op (cap ttl : Z) (o : op) (l : list (entry K V)) : option V * list (entry K V) :=
  match o with
  | OpGet now k =>
      match find_key k l with
      | None => (None, l)
      | Some en => if ce_expiresAt en <? now then (None, without k l) else (Some (ce_value en), en :: without k l)
      end
  | OpPut now k x v => (None, take (Z.to_nat cap) (mkEntry k x v (now + ttl) :: without k l))
  | OpInvalidate k => (None, without k l)
  | OpInvalidateContext x => (None, filter (fun en => ce_contextID en <> x) l)
  end.

Definition cache_op (o : op) (c : cache K V) : option V * cache K V :=
  match o with
  | OpGet now k => cache_Get now k c
  | OpPut now k x v => (None, cache_Put now k x v c)
  | OpInvalidate k => (None, cache_Invalidate k c)
  | OpInvalidateContext x => (None, cache_InvalidateContext x c)
  end.

(** A cache between operations. *)
Definition ok (c : cache K V) : Prop := wf c /\ Z.of_nat (length (ca_list c)) <= ca_cap c.

Lemma find_key_hit c k e en : wf c -> ca_elems c !! e = Some en -> ce_key en = k -> find_key k (view c) = Some en.
Proof.
  intros Hc He Hk. unfold find_key.
  assert (Hin : en ∈ filter (fun x => ce_key x = k) (view c)).
  { apply list_elem_of_filter. split; [done|]. apply elem_of_view; eauto. }
  assert (Hall : forall y, y ∈ filter (fun x => ce_key x = k) (view c) -> y = en).
  { intros y [Hy (e' & He')%elem_of_view]%list_elem_of_filter; [|done].
    assert (e' = e) as -> by (eapply wf_elem_inj; eauto; congruence). congruence. }
  destruct (filter _ (view c)) as [|y l]; [set_solver|]. cbn. f_equal. apply Hall. set_solver.
Qed.

Lemma find_key_miss c k : wf c -> ca_byKey c !! k = None -> find_key k (view c) = None /\ without k (view c) = view c.
Proof.
  intros Hc Hk. assert (Hn : forall y, y ∈ view c -> ce_key y <> k).
  { intros y (e & He)%elem_of_view Hy; [|done]. assert (ca_byKey c !! k = Some e) by (apply (wf_key _ Hc); eauto). congruence. }
  split; [|by apply filter_all]. unfold find_key. destruct (filter _ (view c)) as [|y l] eqn:E; [done|].
  assert (Hy : y ∈ filter (fun x => ce_key x = k) (view c)) by (rewrite E; set_solver).
  apply list_elem_of_filter in Hy as [? ?]. naive_solver.
Qed.

Lemma get_refines now k c : ok c ->
  ok (cache_Get now k c).2 /\ ca_cap (cache_Get now k c).2 = ca_cap c /\ ca_ttl (cache_Get now k c).2 = ca_ttl c
  /\ lru_op (ca_cap c) (ca_ttl c) (OpGet now k) (view c) = ((cache_Get now k c).1, view (cache_Get now k c).2).
Proof.
  intros [Hc Hlen]. unfold cache_Get, lru_op. destruct (ca_byKey c !! k) as [e|] eqn:Hk.
  - destruct (wf_lookup _ _ _ Hc Hk) as (en & He & Hke). rewrite He, (find_key_hit c k e en Hc He Hke).
    assert (Hin : e ∈ ca_list c) by (apply (wf_dom _ Hc); eauto).
    destruct (ce_expiresAt en <? now); cbn [fst snd].
    + rewrite (removeLocked_view _ _ _ Hc He), Hke. split_and!; [|apply removeLocked_cap|apply removeLocked_ttl|done].
      split; [by apply removeLocked_wf|]. rewrite removeLocked_length, removeLocked_cap by done. lia.
    + rewrite (MoveToFront_view _ _ _ Hc He), Hke. split_and!; [|done|done|done].
      split; [by apply MoveToFront_wf|]. by rewrite MoveToFront_length.
  - cbn. destruct (find_key_miss c k Hc Hk) as [-> _]. done.
Qed.

Lemma invalidate_refines k c : ok c ->
  ok (cache_Invalidate k c) /\ ca_cap (cache_Invalidate k c) = ca_cap c /\ ca_ttl (cache_Invalidate k c) = ca_ttl c
  /\ view (cache_Invalidate k c) = without k (view c).
Proof.
  intros [Hc Hlen]. unfold cache_Invalidate. destruct (ca_byKey c !! k) as [e|] eqn:Hk.
  - destruct (wf_lookup _ _ _ Hc Hk) as (en & He & Hke). rewrite He, (removeLocked_view _ _ _ Hc He), Hke.
    split_and!; [|apply removeLocked_cap|apply removeLocked_ttl|done]. split; [by apply removeLocked_wf|].
    rewrite removeLocked_length, removeLocked_cap by done. lia.
  - destruct (find_key_miss c k Hc Hk) as [_ ->]. done.
Qed.

Lemma push_refines k x v t c : ok c -> ca_byKey c !! k = None ->
  ok (push k x v t c) /\ ca_cap (push k x v t c) = ca_cap c /\ ca_ttl (push k x v t c) = ca_ttl c
  /\ view (push k x v t c) = take (Z.to_nat (ca_cap c)) (mkEntry k x v t :: without k (view c)).
Proof.
  intros [Hc Hlen] Hk. destruct (find_key_miss c k Hc Hk) as [_ ->]. rewrite push_pushed.
  pose proof (pushed_wf k x v t c Hc Hk) as Hw. pose proof (pushed_view k x v t c Hc) as Hv.
  pose proof (length_view c Hc) as Hlv. pose proof (wf_pos _ Hc) as Hpos.
  destruct (ca_cap c <? _) eqn:E.
  - apply Z.ltb_lt in E. destruct (evict_spec _ Hw ltac:(cbn; lia)) as (Hw' & Hv' & Hl' & Hcp & Htt).
    split_and!; [split; [done|]; rewrite Hl', Hcp; cbn; lia|done|done|].
    rewrite Hv', Hv. f_equal. cbn. lia.
  - apply Z.ltb_ge in E. split_and!; [split; [done|]; cbn in *; lia|done|done|].
    rewrite Hv. symmetry. apply take_ge. cbn. lia.
Qed.

Lemma without_update c c' e en en' :
  wf c -> ca_elems c !! e = Some en -> ce_key en' = ce_key en -> ca_list c' = ca_list c ->
  ca_elems c' = <[e := en']> (ca_elems c) -> without (ce_key en) (view c') = without (ce_key en) (view c).
Proof.
  intros Hc He Hk Hl Hel. unfold view. rewrite Hl, Hel. generalize (ca_list c) as l.
  induction l as [|a l IH]; [done|]. cbn. destruct (decide (a = e)) as [->|Hne].
  - rewrite lookup_insert_eq, He. unfold without in *. rewrite !filter_cons_False by (rewrite ?Hk; tauto). done.
  - rewrite lookup_insert_ne by done. destruct (ca_elems c !! a) as [y|]; [|done].
    unfold without in *. rewrite !filter_cons. destruct (decide _); [f_equal|]; apply IH.
Qed.

Lemma length_without c k e en : wf c -> ca_elems c !! e = Some en -> ce_key en = k ->
  S (length (without k (view c))) = length (ca_list c).
Proof.
  intros Hc He <-. assert (Hin : e ∈ ca_list c) by (apply (wf_dom _ Hc); eauto).
  pose proof (removeLocked_length e en c Hc He) as H1.
  rewrite <- (length_view _ (removeLocked_wf _ _ _ Hc He)), (removeLocked_view _ _ _ Hc He) in H1. unfold without.
  rewrite H1. destruct (ca_list c); [set_solver|cbn; lia].
Qed.

(** An entry updated in place and moved to the front. *)
Lemma update_refines c c' e en en' :
  ok c -> ca_elems c !! e = Some en -> ce_key en' = ce_key en -> wf c' -> ca_list c' = ca_list c ->
  ca_elems c' = <[e := en']> (ca_elems c) -> ca_cap c' = ca_cap c ->
  ok (list_MoveToFront e c') /\ view (list_MoveToFront e c') =
    take (Z.to_nat (ca_cap c)) (en' :: without (ce_key en) (view c)).
Proof.
  intros [Hc Hlen] He Hk Hc' Hl Hel Hcp. assert (Hin : e ∈ ca_list c') by (rewrite Hl; apply (wf_dom _ Hc); eauto).
  assert (He' : ca_elems c' !! e = Some en') by by rewrite Hel, lookup_insert_eq.
  split.
  - split; [by apply MoveToFront_wf|]. rewrite MoveToFront_length by done. cbn. by rewrite Hl, Hcp.
  - rewrite (MoveToFront_view _ _ _ Hc' He'), Hk. fold (without (ce_key en) (view c')).
    rewrite (without_update _ _ _ _ _ Hc He Hk Hl Hel). symmetry. apply take_ge. cbn.
    rewrite (length_without _ _ _ _ Hc He eq_refl). lia.
Qed.

Lemma put_refines now k x v c : ok c ->
  ok (cache_Put now k x v c) /\ ca_cap (cache_Put now k x v c) = ca_cap c /\ ca_ttl (cache_Put now k x v c) = ca_ttl c
  /\ view (cache_Put now k x v c) = take (Z.to_nat (ca_cap c)) (mkEntry k x v (now + ca_ttl c) :: without k (view c)).
Proof.
  intros Hok. unfold cache_Put. destruct (ca_byKey c !! k) as [e|] eqn:Hk; [|by apply push_refines].
  pose proof (proj1 Hok) as Hc. destruct (wf_lookup _ _ _ Hc Hk) as (en & He & <-). rewrite He. clear Hk.
  set (c1 := if bool_decide (ce_contextID en = x) then c
             else indexContextLocked x (ce_key en) (unindex (ce_contextID en) (ce_key en) c)).
  assert (Hsame : ca_list c1 = ca_list c /\ ca_elems c1 = ca_elems c /\ ca_byKey c1 = ca_byKey c
    /\ ca_next c1 = ca_next c /\ ca_cap c1 = ca_cap c /\ ca_ttl c1 = ca_ttl c).
  { unfold c1. case_bool_decide; [done|]. apply (unindex_same (ce_contextID en) (ce_key en) c). }
  destruct Hsame as (Hl & Hel & Hbk & Hnx & Hcp & Htt). cbn zeta. rewrite Htt.
  set (en' := mkEntry (ce_key en) x v (now + ca_ttl c)).
  assert (Hw : wf (with_elems c1 (<[e := en']> (ca_elems c1)))).
  { eapply (update_wf c _ e en en'); cbn; rewrite ?Hel; try done; unfold c1; case_bool_decide as Hx.
    - apply (wf_nonempty _ Hc).
    - apply indexContext_nonempty, unindex_nonempty, (wf_nonempty _ Hc).
    - intros y j. subst x. split; [naive_solver|]. intros [[? _]|[-> ->]]; [done|].
      apply (wf_ctx _ Hc). eauto.
    - intros y j. rewrite elem_of_indexContext, elem_of_unindex. split.
      + intros [[Hj Hn]|[-> ->]]; [|by right]. left. split; [done|]. left. intros ->. apply Hn.
        apply (wf_ctx _ Hc) in Hj as (e' & en1 & He' & Hk' & Hx').
        assert (e' = e) as -> by by eapply wf_elem_inj. split; [congruence|done].
      + intros [[Hj Hor]|[-> ->]]; [|by right]. left. split; [done|]. intros [-> ->]. destruct Hor; [done|congruence]. }
  destruct (update_refines c _ e en en' Hok He eq_refl Hw) as [Hok' Hv]; [done|by cbn; rewrite Hel|done|].
  split_and!; [done|done|done|done].
Qed.

(** ** Removing a context *)
Definition same_core (c c' : cache K V) : Prop :=
  ca_cap c = ca_cap c' /\ ca_ttl c = ca_ttl c' /\ ca_list c = ca_list c' /\ ca_elems c = ca_elems c'
  /\ ca_byKey c = ca_byKey c' /\ ca_next c = ca_next c'.

Lemma drop_key_core c c' k : wf c' -> same_core c c' -> same_core (drop_key c k) (cache_Invalidate k c').
Proof.
  intros Hc' (H1 & H2 & H3 & H4 & H5 & H6). unfold drop_key, cache_Invalidate. rewrite H5.
  destruct (ca_byKey c' !! k) as [e|] eqn:Hk; [|done].
  destruct (wf_lookup _ _ _ Hc' Hk) as (en & He & Hke). rewrite He. subst k. unfold removeLocked, same_core.
  cbn zeta. set (d := with_byKey (list_Remove e c') _).
  destruct (unindex_same (ce_contextID en) (ce_key en) d) as (-> & -> & -> & -> & -> & ->).
  unfold d. cbn. by rewrite H1, H2, H3, H4, H5, H6.
Qed.

Lemma drop_key_byContext c k : ca_byContext (drop_key c k) = ca_byContext c.
Proof. unfold drop_key. by case_match. Qed.

Lemma drop_keys_spec ks c c' : ok c' -> same_core c c' ->
  exists d, ok d /\ same_core (fold_left drop_key ks c) d /\ view d = filter (fun y => ce_key y ∉ ks) (view c')
    /\ ca_byContext (fold_left drop_key ks c) = ca_byContext c /\ ca_cap d = ca_cap c' /\ ca_ttl d = ca_ttl c'.
Proof.
  revert c c'. induction ks as [|k ks IH]; intros c c' Hok Hsame; cbn.
  - exists c'. split_and!; try done. symmetry. apply filter_all. set_solver.
  - destruct (invalidate_refines k c' Hok) as (Hok1 & Hcp & Htt & Hv).
    destruct (IH (drop_key c k) (cache_Invalidate k c') Hok1 (drop_key_core _ _ k (proj1 Hok) Hsame))
      as (d & Hd & Hs & Hvd & Hb & Hcd & Htd).
    exists d. split_and!; [done|done| |by rewrite Hb, drop_key_byContext|congruence|congruence].
    rewrite Hvd, Hv. unfold without. rewrite list_filter_filter. apply list_filter_iff. intros y. set_solver.
Qed.

Lemma invalidateContext_refines x c : ok c ->
  ok (cache_InvalidateContext x c) /\ ca_cap (cache_InvalidateContext x c) = ca_cap c
  /\ ca_ttl (cache_InvalidateContext x c) = ca_ttl c
  /\ view (cache_InvalidateContext x c) = filter (fun en => ce_contextID en <> x) (view c).
Proof.
  intros Hok. pose proof (proj1 Hok) as Hc. unfold cache_InvalidateContext.
  assert (Hset : forall y, y ∈ view c -> ce_key y ∈ default ∅ (ca_byContext c !! x) <-> ce_contextID y = x).
  { intros y (e & He)%elem_of_view; [|done]. rewrite (wf_ctx _ Hc). split; [|eauto].
    intros (e' & en' & He' & Hk & Hx). assert (e' = e) as -> by by eapply wf_elem_inj. congruence. }
  destruct (ca_byContext c !! x) as [set|] eqn:Hx; cbn in Hset.
  2:{ split_and!; try done. symmetry. apply filter_all. intros y Hy Hy'. apply Hset in Hy'; set_solver. }
  destruct (drop_keys_spec (elements set) c c Hok ltac:(done)) as (d & [Hd Hdl] & (H1 & H2 & H3 & H4 & H5 & H6) & Hv & Hb & Hcp & Htt).
  set (c1 := fold_left drop_key (elements set) c) in *. cbn zeta.
  assert (Hview : view (with_byContext c1 (delete x (ca_byContext c1))) = filter (fun en => ce_contextID en <> x) (view c)).
  { unfold view. cbn. rewrite H3, H4. fold (view d). rewrite Hv. apply filter_iff_in.
    intros y Hy. rewrite elem_of_elements, Hset by done. done. }
  split_and!; [|cbn; congruence|cbn; congruence|done].
  split; [|cbn; rewrite H3, H1; done].
  split; cbn; rewrite ?H1, ?H3, ?H4, ?H5, ?H6; try apply Hd.
  - intros y k. rewrite Hb. destruct (decide (x = y)) as [<-|Hne].
    + rewrite lookup_delete_eq. split; [set_solver|]. intros (e & en & He & Hk & Hxy).
      assert (Hen : en ∈ view d) by (apply elem_of_view; eauto). rewrite Hv in Hen.
      apply list_elem_of_filter in Hen as [Hn Hen]. exfalso. apply Hn. apply elem_of_elements. by apply Hset.
    + rewrite lookup_delete_ne by done. rewrite (wf_ctx _ Hc). split.
      * intros (e & en & He & Hk & Hy). assert (Hen : en ∈ view d).
        { rewrite Hv. apply list_elem_of_filter. split; [|apply elem_of_view; eauto].
          rewrite elem_of_elements, Hset; [congruence|]. apply elem_of_view; eauto. }
        apply elem_of_view in Hen as (e' & He'); [eauto|done].
      * intros (e & en & He & Hk & Hy). assert (Hen : en ∈ view d) by (apply elem_of_view; eauto).
        rewrite Hv in Hen. apply list_elem_of_filter in Hen as [_ (e' & He')%elem_of_view]; [eauto|done].
  - intros y s'. rewrite Hb, lookup_delete_Some. intros [_ Hs']. by apply (wf_nonempty _ Hc) in Hs'.
Qed.

(** The participants cache: an entry's context is that of its key. *)
Lemma part_put_refines (ctx_of : K -> ContextID) now k v c :
  ok c -> (forall en, en ∈ view c -> ce_contextID en = ctx_of (ce_key en)) ->
  ok (part_Put now k (ctx_of k) v c) /\ ca_cap (part_Put now k (ctx_of k) v c) = ca_cap c
  /\ ca_ttl (part_Put now k (ctx_of k) v c) = ca_ttl c
  /\ view (part_Put now k (ctx_of k) v c)
     = take (Z.to_nat (ca_cap c)) (mkEntry k (ctx_of k) v (now + ca_ttl c) :: without k (view c)).
Proof.
  intros Hok Hctx. unfold part_Put. destruct (ca_byKey c !! k) as [e|] eqn:Hk; [|by apply push_refines].
  pose proof (proj1 Hok) as Hc. destruct (wf_lookup _ _ _ Hc Hk) as (en & He & <-). rewrite He. clear Hk.
  rewrite (Hctx en) by (apply elem_of_view; eauto).
  set (en' := mkEntry (ce_key en) (ctx_of (ce_key en)) v (now + ca_ttl c)).
  assert (Hw : wf (with_elems c (<[e := en']> (ca_elems c)))).
  { eapply (update_wf c _ e en en'); try done; [apply (wf_nonempty _ Hc)|].
    intros y j. cbn. rewrite <- (Hctx en) by (apply elem_of_view; eauto).
    split; [naive_solver|]. intros [[? _]|[-> ->]]; [done|]. apply (wf_ctx _ Hc). eauto. }
  destruct (update_refines c _ e en en' Hok He eq_refl Hw) as [Hok' Hv]; done.
Qed.

(** ** Sequences of operations *)
Fixpoint run_cache (os : list op) (c : cache K V) : list (option V) * cache K V :=
  match os with
  | [] => ([], c)
  | o :: os' => let '(r, c1) := cache_op o c in let '(rs, c2) := run_cache os' c1 in (r :: rs, c2)
  end.

Fixpoint run_lru (cap ttl : Z) (os : list op) (l : list (entry K V)) : list (option V) * list (entry K V) :=
  match os with
  | [] => ([], l)
  | o :: os' => let '(r, l1) := lru_op cap ttl o l in let '(rs, l2) := run_lru cap ttl os' l1 in (r :: rs, l2)
  end.

Lemma op_refines o c : ok c ->
  ok (cache_op o c).2 /\ ca_cap (cache_op o c).2 = ca_cap c /\ ca_ttl (cache_op o c).2 = ca_ttl c
  /\ lru_op (ca_cap c) (ca_ttl c) o (view c) = ((cache_op o c).1, view (cache_op o c).2).
Proof.
  intros Hok. destruct o as [now k|now k x v|k|x]; cbn [cache_op fst snd lru_op].
  - by apply get_refines.
  - destruct (put_refines now k x v c Hok) as (? & ? & ? & ->). done.
  - destruct (invalidate_refines k c Hok) as (? & ? & ? & ->). done.
  - destruct (invalidateContext_refines x c Hok) as (? & ? & ? & ->). done.
Qed.

Lemma run_refines os c : ok c ->
  ok (run_cache os c).2 /\ ca_cap (run_cache os c).2 = ca_cap c
  /\ run_lru (ca_cap c) (ca_ttl c) os (view c) = ((run_cache os c).1, view (run_cache os c).2).
Proof.
  revert c. induction os as [|o os IH]; intros c Hok; cbn; [done|].
  destruct (op_refines o c Hok) as (Hok1 & Hcp & Htt & ->). destruct (cache_op o c) as [r c1]. cbn in *.
  destruct (IH c1 Hok1) as (Hok2 & Hcp2 & Heq). rewrite <- Hcp, <- Htt, Heq.
  destruct (run_cache os c1) as [rs c2]. cbn in *. split_and!; [done|congruence|done].
Qed.

Lemma new_cache_ok cfg : ok (new_cache cfg : cache K V).
Proof.
  assert (Hp : 0 < cf_Capacity (applyDefaults cfg)).
  { cbn. destruct (cf_Capacity cfg <=? 0) eqn:E; [done|]. apply Z.leb_gt in E. lia. }
  split; [|cbn in *; lia]. split; cbn; try done.
  - constructor.
  - intros e. rewrite lookup_empty. split; [set_solver|by intros [? ?]].
  - intros k e. setoid_rewrite lookup_empty. naive_solver.
  - intros x k. setoid_rewrite lookup_empty. cbn. split; [set_solver|naive_solver].
  - intros e. rewrite lookup_empty. by intros [? ?].
Qed.
End Facts.
Arguments op K V : clear implicits.

(** C36: the cache of key material ([dek.Cache]) is a least-recently-used list with
    expiry, whatever is done to it.  Every sequence of [Get], [Put], [Invalidate]
    and [InvalidateContext] on a new cache gives the answers of the abstract list
    and leaves its contents; no more than the capacity is held; and the reverse
    index names exactly the contexts of the entries held, so [InvalidateContext]
    leaves nothing of its context behind and no eviction leaks index entries. *)
Theorem cache_refines_lru {K : Type} `{Countable K} {V : Type} (cfg : CacheConfig) (os : list (op K V)) :
  let c := (run_cache os (new_cache cfg)).2 in
  let conf := applyDefaults cfg in
  run_lru (cf_Capacity conf) (cf_TTL conf) os [] = ((run_cache os (new_cache cfg)).1, view c)
  /\ cache_Len c = Z.of_nat (length (view c)) /\ cache_Len c <= cf_Capacity conf
  /\ forall x, is_Some (ca_byContext c !! x) <-> exists en, en ∈ view c /\ ce_contextID en = x.
Proof.
  cbn zeta. destruct (run_refines os (new_cache cfg) (new_cache_ok cfg)) as ([Hw Hl] & Hcp & Heq).
  set (c := (run_cache os (new_cache cfg)).2) in *.
  split_and!; [exact Heq|unfold cache_Len; by rewrite length_view|unfold cache_Len; by rewrite Hcp in Hl|].
  intros x. split.
  - intros [set Hx]. pose proof (wf_nonempty _ Hw _ _ Hx) as [k Hk]%set_choose_L.
    destruct (proj1 (wf_ctx _ Hw x k)) as (e & en & He & _ & Hc); [by rewrite Hx|].
    exists en. split; [apply elem_of_view; eauto|done].
  - intros (en & (e & He)%elem_of_view & <-); [|done].
    assert (Hk : ce_key en ∈ default ∅ (ca_byContext c !! ce_contextID en)) by (apply (wf_ctx _ Hw); eauto).
    destruct (ca_byContext c !! ce_contextID en); [eauto|set_solver].
Qed.
