(* ===== verification/DekStore.v ===== *)
(** The tables of the DEK subsystem and the statements on them:
    [internal/eventbus/crypto/dek/store.go] ([crypto_keys]) and [checkpoint.go]
    ([crypto_rekey_checkpoints]), with the constraints of
    [internal/store/migrations]; [events_audit] as far as re-encryption reads and
    writes it.

    [now] is the database's clock and [gonow] the server's, in nanoseconds.
    Identifiers come from a sequence that also advances when an insert is
    refused.  Participants are kept decoded; their strings are valid UTF-8. *)

From S2P Require Import Prelude GoStrings Sql DekTypes EventCrypto.

Open Scope string_scope.
Open Scope Z_scope.

(** ** Tables *)
Record row : Type := mkRow {
  r_ID : Z;
  r_ContextType : string;
  r_ContextID : string;
  r_Version : Z;
  r_WrappedDEK : string;
  r_WrapProvider : string;
  r_WrapKeyID : string;
  r_Participants : list Participant;
  r_CreatedAt : Z;
  r_RotatedAt : option Z
}.

Definition r_ctx (r : row) : ContextID := mkContext (r_ContextType r) (r_ContextID r).

(** [kr_rekeyed] is not a column: it remembers which of the two statements inserted
    the row, and no statement reads it. *)
Record key_rec : Type := mkKeyRec {
  kr_row : row;
  kr_superseded_by : option Z;
  kr_destroyed_at : option Z;
  kr_rekeyed : bool
}.

(** A row of [events_audit] but its key, the event's id; a NULL column is [None]. *)
Record audit_rec : Type := mkAuditRec {
  au_subject : string;
  au_type : string;
  au_timestamp : Z;
  au_actor_kind : string;
  au_actor_id : option string;
  au_envelope : string;
  au_schema_ver : Z;
  au_codec : string;
  au_js_seq : Z;
  au_rendering : string;
  au_dek_ref : option Z;
  au_dek_version : option Z
}.

Record DB : Type := mkDB {
  db_keys : gmap Z key_rec;
  db_key_seq : Z;
  db_ckpts : gmap string Checkpoint;
  db_audit : gmap string audit_rec
}.

Definition empty_db : DB := mkDB ∅ 0 ∅ ∅.

Definition set_keys (db : DB) m : DB := mkDB m (db_key_seq db) (db_ckpts db) (db_audit db).
Definition set_key_seq (db : DB) n : DB := mkDB (db_keys db) n (db_ckpts db) (db_audit db).
Definition set_ckpts (db : DB) m : DB := mkDB (db_keys db) (db_key_seq db) m (db_audit db).
Definition set_audit (db : DB) m : DB := mkDB (db_keys db) (db_key_seq db) (db_ckpts db) m.

Abbreviation tx := (txn DB).

(** ** [crypto_keys] *)
Definition u32_wrap (z : Z) : Z := z mod 2 ^ 32.

Definition of_ctx (x : ContextID) (k : key_rec) : bool := bool_decide (r_ctx (kr_row k) = x).
Definition is_active (k : key_rec) : bool :=
  bool_decide (r_RotatedAt (kr_row k) = None) && bool_decide (kr_destroyed_at k = None).

Definition newest_first (a b : Z * key_rec) : bool := r_Version (kr_row b.2) <=? r_Version (kr_row a.2).

(** [WHERE context = x AND rotated_at IS NULL AND destroyed_at IS NULL
    ORDER BY version DESC LIMIT 1]. *)
Definition active_key (x : ContextID) (db : DB) : option (Z * key_rec) :=
  head (order_by newest_first (rows_where (fun _ k => of_ctx x k && is_active k) (db_keys db))).

Definition selectActive (x : ContextID) : tx row :=
  db ← read (fun db => db);
  match active_key x db with
  | None => fail (ErrWrap "select_active_dek" ErrNoRows)
  | Some (_, k) => mret (kr_row k)
  end.

Definition selectByID (keyID version : Z) : tx row :=
  db ← read (fun db => db);
  match db_keys db !! keyID with
  | Some k =>
      if (r_Version (kr_row k) =? version) && bool_decide (kr_destroyed_at k = None)
      then mret (kr_row k) else fail (ErrWrap "select_dek_by_id" ErrNoRows)
  | None => fail (ErrWrap "select_dek_by_id" ErrNoRows)
  end.

Definition selectByPK (id : Z) : tx row :=
  db ← read (fun db => db);
  match db_keys db !! id with
  | Some k => mret (kr_row k)
  | None => fail (ErrWrap "select_dek_by_pk" ErrNoRows)
  end.

(** The exported view of [SelectAnyByID]. *)
Definition SelectAnyByID (keyID version : Z) : tx (row * option Z) :=
  db ← read (fun db => db);
  match db_keys db !! keyID with
  | Some k =>
      if r_Version (kr_row k) =? version then mret (kr_row k, kr_destroyed_at k)
      else fail (ErrWrap "select_any_dek_by_id" ErrNoRows)
  | None => fail (ErrWrap "select_any_dek_by_id" ErrNoRows)
  end.

Definition SelectAllParticipants (x : ContextID) : tx (list (list Participant)) :=
  read (fun db => (fun kv => r_Participants (kr_row kv.2)) <$> rows_where (fun _ k => of_ctx x k) (db_keys db)).

(** [participants @> '[{"binding_id": b}]']. *)
Definition selectByBindingID (b : string) : tx (list row) :=
  read (fun db =>
    (fun kv => kr_row kv.2)
    <$> order_by (fun a c => a.1 <=? c.1)
          (rows_where (fun _ k => existsb (fun p => String.eqb (pa_BindingID p) b) (r_Participants (kr_row k))
                                  && is_active k) (db_keys db))).

(** UNIQUE (context_type, context_id, version). *)
Definition version_taken (x : ContextID) (v : Z) (db : DB) : bool :=
  existsb (fun kv => of_ctx x kv.2 && (r_Version (kr_row kv.2) =? v)) (map_to_list (db_keys db)).

(** The INSERT shared by [insert] and [insertRekeyed]. *)
Definition insert_key (x : ContextID) (version : Z) (wrapped provider wrapKeyID : string)
    (ps : list Participant) (created : Z) (rekeyed : bool) : tx Z :=
  if negb (int4_ok version) then fail (sql_error "version is greater than maximum value for int4")
  else
    db ← read (fun db => db);
    let id := db_key_seq db + 1 in
    if negb (int8_ok id) then fail (sql_error "nextval: reached maximum value of sequence")
    else
      _ ← write (fun db => set_key_seq db id);
      if version_taken x version db
      then fail (unique_violation "crypto_keys_context_type_context_id_version_key")
      else
        _ ← write (fun db => set_keys db (<[id := mkKeyRec (mkRow id (cx_Type x) (cx_ID x) version wrapped provider
                                                           wrapKeyID ps created None) None None rekeyed]> (db_keys db)));
        mret id.


Definition insert (now : Z) (r : row) : tx Z :=
  on_error (ErrWrap "insert_dek")
    (insert_key (r_ctx r) (r_Version r) (r_WrappedDEK r) (r_WrapProvider r) (r_WrapKeyID r) (r_Participants r) now false).

Definition insertRekeyed (gonow : Z) (old : row) (wrapped wrapKeyID : string) : tx Z :=
  wrap_code "DEK_REKEY_INSERT_NEW_ROW_FAILED"
    (insert_key (r_ctx old) (u32_wrap (r_Version old + 1)) wrapped (r_WrapProvider old) wrapKeyID
       (r_Participants old) gonow true).

Definition set_row (k : key_rec) (r : row) : key_rec := mkKeyRec r (kr_superseded_by k) (kr_destroyed_at k) (kr_rekeyed k).
Definition with_participants (r : row) ps : row :=
  mkRow (r_ID r) (r_ContextType r) (r_ContextID r) (r_Version r) (r_WrappedDEK r) (r_WrapProvider r)
    (r_WrapKeyID r) ps (r_CreatedAt r) (r_RotatedAt r).
Definition with_rotated (r : row) t : row :=
  mkRow (r_ID r) (r_ContextType r) (r_ContextID r) (r_Version r) (r_WrappedDEK r) (r_WrapProvider r)
    (r_WrapKeyID r) (r_Participants r) (r_CreatedAt r) (Some t).

Definition put_key (id : Z) (k : key_rec) : tx unit :=
  write (fun db => set_keys db (<[id := k]> (db_keys db))).

Definition same_participant (p q : Participant) : bool :=
  String.eqb (pa_PlayerID q) (pa_PlayerID p) && String.eqb (pa_BindingID q) (pa_BindingID p).

(** The transaction of [updateParticipants]: the active row, locked; whether the
    participant was added. *)
Definition updateParticipants (x : ContextID) (p : Participant) : tx (row * bool) :=
  db ← read (fun db => db);
  match active_key x db with
  | None => fail (ErrWrap "select_active_dek_for_update" ErrNoRows)
  | Some (id, k) =>
      let r := kr_row k in
      if existsb (same_participant p) (r_Participants r) then mret (r, false)
      else
        let r' := with_participants r (r_Participants r ++ [p])%list in
        _ ← put_key id (set_row k r');
        mret (r', true)
  end.

Definition markRotated (gonow : Z) (keyID version supersededBy : Z) : tx unit :=
  db ← read (fun db => db);
  match db_keys db !! keyID with
  | Some k =>
      if (r_Version (kr_row k) =? version) && is_active k
      then if bool_decide (is_Some (db_keys db !! supersededBy))
           then put_key keyID (mkKeyRec (with_rotated (kr_row k) gonow) (Some supersededBy) (kr_destroyed_at k) (kr_rekeyed k))
           else fail (ErrWrapCode "DEK_MARK_ROTATED_FAILED" (sql_error "crypto_keys_superseded_by_fkey"))
      else fail (ErrCode "DEK_MARK_ROTATED_NOT_FOUND" "no unrotated row for key")
  | None => fail (ErrCode "DEK_MARK_ROTATED_NOT_FOUND" "no unrotated row for key")
  end.

Definition destroy (gonow : Z) (k : key_rec) : key_rec :=
  match kr_destroyed_at k with
  | Some _ => k
  | None => mkKeyRec (kr_row k) (kr_superseded_by k) (Some gonow) (kr_rekeyed k)
  end.

Definition markDestroyed (gonow : Z) (keyID version : Z) : tx unit :=
  db ← read (fun db => db);
  match db_keys db !! keyID with
  | Some k => if r_Version (kr_row k) =? version then put_key keyID (destroy gonow k) else mret tt
  | None => mret tt
  end.

Definition markDestroyedByPK (gonow : Z) (dekID : Z) : tx unit :=
  db ← read (fun db => db);
  match db_keys db !! dekID with
  | Some k => put_key dekID (destroy gonow k)
  | None => mret tt
  end.

(** [ResolveIntegrity]: the contexts with several active rows, and the update that
    marks all but the newest of one of them rotated. *)
Definition conflicted : tx (list ContextID) :=
  read (fun db =>
    let active := rows_where (fun _ k => is_active k) (db_keys db) in
    remove_dups ((fun kv => r_ctx (kr_row kv.2))
      <$> filter (fun kv => (1 < length (filter (fun kv' => r_ctx (kr_row kv'.2) = r_ctx (kr_row kv.2)) active))%nat)
            active)).

Definition rotate_older (gonow : Z) (x : ContextID) : tx unit :=
  write (fun db =>
    match active_key x db with
    | None => db
    | Some (_, newest) =>
        set_keys db ((fun k => if of_ctx x k && is_active k && (r_Version (kr_row k) <? r_Version (kr_row newest))
                               then set_row k (with_rotated (kr_row k) gonow) else k) <$> db_keys db)
    end).

(** ** [crypto_rekey_checkpoints] *)
Definition live (c : Checkpoint) : bool := negb (IsTerminal (ck_Status c)).

(** The CHECKs on the status. *)
Definition status_known (c : Checkpoint) : bool := bool_decide (ck_Status c ∈ AllCheckpointStatuses).
Definition terminal_consistent (c : Checkpoint) : bool :=
  match ck_Status c with
  | CheckpointStatusComplete =>
      bool_decide (is_Some (ck_CompletedAt c)) && bool_decide (ck_AbortedAt c = None) && bool_decide (ck_AbortedReason c = None)
  | CheckpointStatusAborted =>
      bool_decide (is_Some (ck_AbortedAt c)) && bool_decide (is_Some (ck_AbortedReason c)) && bool_decide (ck_CompletedAt c = None)
  | _ => bool_decide (ck_CompletedAt c = None) && bool_decide (ck_AbortedAt c = None) && bool_decide (ck_AbortedReason c = None)
  end.

(** [crypto_rekey_checkpoints_one_active_per_context]. *)
Definition other_live (rid : string) (x : ContextID) (db : DB) : bool :=
  existsb (fun kv => bool_decide (ck_ctx kv.2 = x) && live kv.2 && negb (String.eqb kv.1 rid))
    (map_to_list (db_ckpts db)).

(** A write of a row, refused as the constraints refuse it. *)
Definition put_ckpt (rid : string) (c : Checkpoint) : tx unit :=
  db ← read (fun db => db);
  if negb (status_known c && terminal_consistent c) then fail (sql_error "23514")
  else if negb (int4_ok (ck_Phase3RowsRewritten c) && int4_ok (ck_Phase5AttemptCount c))
  then fail (sql_error "22003")
  else if live c && other_live rid (ck_ctx c) db
  then fail (unique_violation "crypto_rekey_checkpoints_one_active_per_context")
  else write (fun db => set_ckpts db (<[rid := c]> (db_ckpts db))).

(** [isUniqueViolation] of [checkpoint.go]: a 23505 of the named index. *)
Fixpoint isUniqueViolation (e : error) (index : string) : bool :=
  match e with
  | ErrNew m => String.eqb m ("23505:" +:+ index)
  | ErrWrap _ e' | ErrWrapCode _ e' => isUniqueViolation e' index
  | ErrCode _ _ | ErrJoin _ => false
  end.

Definition Open (now : Z) (rid : string) (req : CheckpointOpenRequest) : tx string :=
  if negb (String.length (or_opArgsHash req) =? 32)%nat
  then fail (ErrCode "DEK_REKEY_BAD_OP_ARGS_HASH" "op_args_hash must be 32 bytes")
  else if negb (String.length (or_policyHash req) =? 32)%nat
  then fail (ErrCode "DEK_REKEY_BAD_POLICY_HASH" "policy_hash must be 32 bytes")
  else
    let c := mkCheckpoint rid (or_ContextType req) (or_ContextID req) (or_opArgsHash req) (or_policyHash req)
               (or_PrimaryPlayerID req) (or_Justification req) CheckpointStatusPending None None (or_OldDEKID req)
               0 0 None false now now None None None in
    on_error (fun e => if isUniqueViolation e "crypto_rekey_checkpoints_one_active_per_context"
                       then ErrWrapCode "DEK_REKEY_ALREADY_IN_PROGRESS" e
                       else ErrWrapCode "DEK_REKEY_CHECKPOINT_INSERT_FAILED" e)
      (db ← read (fun db => db);
       match db_ckpts db !! rid with
       | Some _ => fail (unique_violation "crypto_rekey_checkpoints_pkey")
       | None => _ ← put_ckpt rid c; mret rid
       end).

Definition Get (rid : string) : tx Checkpoint :=
  db ← read (fun db => db);
  match db_ckpts db !! rid with
  | Some c => mret c
  | None => fail (ErrCode "DEK_REKEY_CHECKPOINT_NOT_FOUND" "rekey checkpoint not found")
  end.

(** *** Updates

    [update rid P f code stale]: [UPDATE ... SET f WHERE request_id = rid AND P];
    an error of the statement is wrapped under [code], and [stale] is returned
    when no row was affected. *)
Definition update (rid : string) (P : Checkpoint -> bool) (f : Checkpoint -> Checkpoint)
    (code : string) (stale : option error) : tx unit :=
  db ← read (fun db => db);
  match db_ckpts db !! rid with
  | Some c =>
      if P c then wrap_code code (put_ckpt rid (f c))
      else match stale with Some e => fail e | None => mret tt end
  | None => match stale with Some e => fail e | None => mret tt end
  end.

Definition has_status (s : CheckpointStatus) (c : Checkpoint) : bool := bool_decide (ck_Status c = s).

Definition ck_set_status (s : CheckpointStatus) (c : Checkpoint) : Checkpoint :=
  mkCheckpoint (ck_RequestID c) (ck_ContextType c) (ck_ContextID c) (ck_opArgsHash c) (ck_policyHash c)
    (ck_PrimaryPlayerID c) (ck_Justification c) s (ck_lastProcessedEventID c) (ck_NewDEKID c) (ck_OldDEKID c)
    (ck_Phase3RowsRewritten c) (ck_Phase5AttemptCount c) (ck_phase5MissingMembers c) (ck_ForceDestroy c)
    (ck_StartedAt c) (ck_LastHeartbeatAt c) (ck_CompletedAt c) (ck_AbortedAt c) (ck_AbortedReason c).
Definition ck_beat (now : Z) (c : Checkpoint) : Checkpoint :=
  mkCheckpoint (ck_RequestID c) (ck_ContextType c) (ck_ContextID c) (ck_opArgsHash c) (ck_policyHash c)
    (ck_PrimaryPlayerID c) (ck_Justification c) (ck_Status c) (ck_lastProcessedEventID c) (ck_NewDEKID c) (ck_OldDEKID c)
    (ck_Phase3RowsRewritten c) (ck_Phase5AttemptCount c) (ck_phase5MissingMembers c) (ck_ForceDestroy c)
    (ck_StartedAt c) now (ck_CompletedAt c) (ck_AbortedAt c) (ck_AbortedReason c).
Definition ck_set_cursor (id : string) (c : Checkpoint) : Checkpoint :=
  mkCheckpoint (ck_RequestID c) (ck_ContextType c) (ck_ContextID c) (ck_opArgsHash c) (ck_policyHash c)
    (ck_PrimaryPlayerID c) (ck_Justification c) (ck_Status c) (Some id) (ck_NewDEKID c) (ck_OldDEKID c)
    (ck_Phase3RowsRewritten c) (ck_Phase5AttemptCount c) (ck_phase5MissingMembers c) (ck_ForceDestroy c)
    (ck_StartedAt c) (ck_LastHeartbeatAt c) (ck_CompletedAt c) (ck_AbortedAt c) (ck_AbortedReason c).
Definition ck_set_new (d : Z) (c : Checkpoint) : Checkpoint :=
  mkCheckpoint (ck_RequestID c) (ck_ContextType c) (ck_ContextID c) (ck_opArgsHash c) (ck_policyHash c)
    (ck_PrimaryPlayerID c) (ck_Justification c) (ck_Status c) (ck_lastProcessedEventID c) (Some d) (ck_OldDEKID c)
    (ck_Phase3RowsRewritten c) (ck_Phase5AttemptCount c) (ck_phase5MissingMembers c) (ck_ForceDestroy c)
    (ck_StartedAt c) (ck_LastHeartbeatAt c) (ck_CompletedAt c) (ck_AbortedAt c) (ck_AbortedReason c).
Definition ck_counts (p3 p5 : Z) (c : Checkpoint) : Checkpoint :=
  mkCheckpoint (ck_RequestID c) (ck_ContextType c) (ck_ContextID c) (ck_opArgsHash c) (ck_policyHash c)
    (ck_PrimaryPlayerID c) (ck_Justification c) (ck_Status c) (ck_lastProcessedEventID c) (ck_NewDEKID c) (ck_OldDEKID c)
    (ck_Phase3RowsRewritten c + p3) (ck_Phase5AttemptCount c + p5) (ck_phase5MissingMembers c) (ck_ForceDestroy c)
    (ck_StartedAt c) (ck_LastHeartbeatAt c) (ck_CompletedAt c) (ck_AbortedAt c) (ck_AbortedReason c).
Definition ck_set_missing (m : option (option (list string))) (c : Checkpoint) : Checkpoint :=
  mkCheckpoint (ck_RequestID c) (ck_ContextType c) (ck_ContextID c) (ck_opArgsHash c) (ck_policyHash c)
    (ck_PrimaryPlayerID c) (ck_Justification c) (ck_Status c) (ck_lastProcessedEventID c) (ck_NewDEKID c) (ck_OldDEKID c)
    (ck_Phase3RowsRewritten c) (ck_Phase5AttemptCount c) m (ck_ForceDestroy c)
    (ck_StartedAt c) (ck_LastHeartbeatAt c) (ck_CompletedAt c) (ck_AbortedAt c) (ck_AbortedReason c).
Definition ck_force (c : Checkpoint) : Checkpoint :=
  mkCheckpoint (ck_RequestID c) (ck_ContextType c) (ck_ContextID c) (ck_opArgsHash c) (ck_policyHash c)
    (ck_PrimaryPlayerID c) (ck_Justification c) (ck_Status c) (ck_lastProcessedEventID c) (ck_NewDEKID c) (ck_OldDEKID c)
    (ck_Phase3RowsRewritten c) (ck_Phase5AttemptCount c) (ck_phase5MissingMembers c) true
    (ck_StartedAt c) (ck_LastHeartbeatAt c) (ck_CompletedAt c) (ck_AbortedAt c) (ck_AbortedReason c).
Definition ck_end (completed aborted : option Z) (reason : option string) (c : Checkpoint) : Checkpoint :=
  mkCheckpoint (ck_RequestID c) (ck_ContextType c) (ck_ContextID c) (ck_opArgsHash c) (ck_policyHash c)
    (ck_PrimaryPlayerID c) (ck_Justification c) (ck_Status c) (ck_lastProcessedEventID c) (ck_NewDEKID c) (ck_OldDEKID c)
    (ck_Phase3RowsRewritten c) (ck_Phase5AttemptCount c) (ck_phase5MissingMembers c) (ck_ForceDestroy c)
    (ck_StartedAt c) (ck_LastHeartbeatAt c) completed aborted reason.

Definition stale_transition : option error := Some (ErrCode "DEK_REKEY_STALE_TRANSITION" "CAS predicate failed").

Definition UpdateStatus (now : Z) (rid : string) (from to : CheckpointStatus) : tx unit :=
  match AssertTransitionAllowed from to with
  | Err e => fail e
  | Ok _ =>
      update rid (has_status from) (fun c => ck_beat now (ck_set_status to c))
        "DEK_REKEY_UPDATE_STATUS_FAILED" stale_transition
  end.

Definition Heartbeat (now : Z) (rid : string) : tx unit :=
  update rid (fun _ => true) (ck_beat now) "DEK_REKEY_HEARTBEAT_FAILED" None.

Definition MarkAborted (now : Z) (rid reason : string) : tx unit :=
  update rid live
    (fun c => ck_end (ck_CompletedAt c) (Some now) (Some reason) (ck_set_status CheckpointStatusAborted c))
    "DEK_REKEY_MARK_ABORTED_FAILED"
    (Some (ErrCode "DEK_REKEY_CHECKPOINT_TERMINAL" "checkpoint not in abortable state")).

Definition MarkComplete (now : Z) (rid : string) : tx unit :=
  update rid (has_status CheckpointStatusPhase7Audit)
    (fun c => ck_end (Some now) (ck_AbortedAt c) (ck_AbortedReason c) (ck_set_status CheckpointStatusComplete c))
    "DEK_REKEY_MARK_COMPLETE_FAILED" stale_transition.

Definition SetForceDestroy (rid : string) : tx unit :=
  update rid (fun _ => true) ck_force "DEK_REKEY_SET_FORCE_DESTROY_FAILED" None.

Definition UpdateStatusForceDestroy (now : Z) (rid : string) : tx unit :=
  match AssertTransitionAllowed CheckpointStatusPhase5Invalidate CheckpointStatusPhase6DestroyOld with
  | Err e => fail e
  | Ok _ =>
      update rid (fun c => has_status CheckpointStatusPhase5Invalidate c && ck_ForceDestroy c)
        (fun c => ck_beat now (ck_set_status CheckpointStatusPhase6DestroyOld c))
        "DEK_REKEY_FORCE_DESTROY_UPDATE_FAILED" stale_transition
  end.

Definition IncrementPhase3Count (now : Z) (rid : string) (delta : Z) : tx unit :=
  update rid (has_status CheckpointStatusPhase3ReencryptCold) (fun c => ck_beat now (ck_counts delta 0 c))
    "DEK_REKEY_PHASE3_COUNT_INCREMENT_FAILED" stale_transition.

Definition AdvanceCursor (now : Z) (rid eventID : string) : tx unit :=
  update rid (has_status CheckpointStatusPhase3ReencryptCold) (fun c => ck_beat now (ck_set_cursor eventID c))
    "DEK_REKEY_ADVANCE_CURSOR_FAILED" stale_transition.

Definition SetNewDEKAndAdvance (now : Z) (rid : string) (newDEKID : Z) : tx unit :=
  update rid (has_status CheckpointStatusPhase1Auth)
    (fun c => ck_beat now (ck_set_status CheckpointStatusPhase2MintDEK (ck_set_new newDEKID c)))
    "DEK_REKEY_PHASE2_UPDATE_FAILED" stale_transition.

Definition in_phase5 (c : Checkpoint) : bool :=
  has_status CheckpointStatusPhase3ReencryptCold c || has_status CheckpointStatusPhase5Invalidate c.

Definition IncrementPhase5Attempt (now : Z) (rid : string) : tx unit :=
  update rid in_phase5 (fun c => ck_beat now (ck_counts 0 1 c)) "DEK_REKEY_PHASE5_ATTEMPT_INC_FAILED" None.

Definition RecordPhase5Timeout (now : Z) (rid : string) (missing : option (list string)) : tx unit :=
  update rid in_phase5
    (fun c => ck_beat now (ck_set_missing (Some missing) (ck_set_status CheckpointStatusPhase5Invalidate c)))
    "DEK_REKEY_PHASE5_RECORD_TIMEOUT_FAILED" stale_transition.

Definition RecordPhase5Success (now : Z) (rid : string) : tx unit :=
  update rid in_phase5
    (fun c => ck_beat now (ck_set_missing None (ck_set_status CheckpointStatusPhase5Invalidate c)))
    "DEK_REKEY_PHASE5_RECORD_SUCCESS_FAILED" stale_transition.

(** *** Queries *)
Definition FindByContextAndArgs (ctxType ctxID opArgsHash : string) : tx (option Checkpoint) :=
  read (fun db => snd <$> head (rows_where (fun _ c => bool_decide (ck_ctx c = mkContext ctxType ctxID)
    && String.eqb (ck_opArgsHash c) opArgsHash && live c) (db_ckpts db))).

Definition FindNonTerminalByContext (ctxType ctxID : string) : tx (option Checkpoint) :=
  read (fun db => snd <$> head (rows_where (fun _ c => bool_decide (ck_ctx c = mkContext ctxType ctxID)
    && live c) (db_ckpts db))).

Definition ListExpired (now ttl : Z) : tx (list Checkpoint) :=
  if negb (int8_ok (now - ttl)) then fail (ErrWrapCode "DEK_REKEY_LIST_EXPIRED_FAILED" (sql_error "22003"))
  else read (fun db => snd <$> rows_where (fun _ c => live c && (ck_LastHeartbeatAt c <? now - ttl)) (db_ckpts db)).

(** [s LIKE p] with the default escape character. *)
Fixpoint like (p s : string) : bool :=
  match p with
  | EmptyString => is_empty s
  | String "%" p' =>
      (fix any (s : string) : bool :=
         like p' s || match s with EmptyString => false | String _ s' => any s' end) s
  | String "_" p' => match s with EmptyString => false | String _ s' => like p' s' end
  | String "\" (String c p') => match s with EmptyString => false | String c' s' => Ascii.eqb c c' && like p' s' end
  | String c p' => match s with EmptyString => false | String c' s' => Ascii.eqb c c' && like p' s' end
  end.

Record CheckpointListFilter : Type := mkFilter {
  fl_IncludeTerminal : bool;
  fl_ContextPattern : option string;
  fl_Since : option Z;
  fl_Limit : Z
}.

Definition ListFiltered (f : CheckpointListFilter) : tx (list Checkpoint) :=
  let limit := if (fl_Limit f <=? 0) || (100 <? fl_Limit f) then 100 else fl_Limit f in
  read (fun db =>
    take (Z.to_nat limit)
      (order_by (fun a b => ck_StartedAt b <=? ck_StartedAt a)
        (snd <$> rows_where (fun _ c =>
           (fl_IncludeTerminal f || live c)
           && match fl_ContextPattern f with None => true | Some p => like p (ck_ContextID c) end
           && match fl_Since f with None => true | Some t => t <=? ck_StartedAt c end) (db_ckpts db)))).
