(* ===== verification/DekManager.v ===== *)
(** The calls of the DEK subsystem's programs with their effects, and the DEK manager
    [internal/eventbus/crypto/dek/manager.go] as programs of calls.

    A program runs on a server (replica).  It executes statements and
    transactions on the shared database ([Db]), operates on its own server's
    caches ([Local]), publishes audit events ([EmitAudit]) and asks for what lies
    outside ([Ask]): randomness, the key-encryption provider, the cluster's
    invalidation coordinator, bindings, the policy chain, the clock, the file
    system.  A database call may fail before taking effect or after ([fault]).
    A manager built by [NewManager] has all its collaborators, so its methods' nil
    checks do not fire. *)

From S2P Require Import Prelude GoStrings Sql Programs DekTypes EventCrypto DekCache DekStore.

Open Scope string_scope.
Open Scope Z_scope.

(** ** State *)
Definition KeyCache : Type := cache CacheKey string.
Definition PartCache : Type := cache ParticipantsCacheKey (list Participant).

Record St : Type := mkSt {
  st_db : DB;
  st_keys : gmap string KeyCache;      (* by server *)
  st_parts : gmap string PartCache;
  st_emitted : list RekeyAuditPayload
}.

Definition cacheConfig : CacheConfig := mkCacheConfig 1024 (5 * 60 * 1000000000).

Definition key_cache (srv : string) (s : St) : KeyCache := default (new_cache cacheConfig) (st_keys s !! srv).
Definition part_cache (srv : string) (s : St) : PartCache := default (new_cache cacheConfig) (st_parts s !! srv).

(** ** What is outside *)

(** The dynamic type of the value an error's context holds under
    ["missing_members"]. *)
Inductive missing_value : Type :=
| MissingAbsent
| MissingNil
| MissingStrings (l : list string)                (* []string *)
| MissingBytes (decoded : option (list string))   (* []byte, with its JSON decoding *)
| MissingAny (l : list string)                    (* []any, each element stringified *)
| MissingNamed (l : list string)                  (* a slice of a named string type *)
| MissingOther.

(** The coordinator's error: is it an oops error, and with what context. *)
Record coord_error : Type := mkCoordError { co_error : error; co_oops : bool; co_missing : missing_value }.

Inductive ask : Type -> Type :=
| ARandom (n : nat) : ask (result string)
| AWrap (secret : string) : ask (result (string * string))
| AUnwrap (wrapped keyID : string) : ask (result string)
| AInvalidate (x : ContextID) (action : string) (version successor : Z) : ask (option coord_error)
| ABinding (characterID : string) : ask (result (string * string))
| APolicyHash (policyName : string) : ask (result (option string))
| ANonce : ask string
| ACancelled : ask bool
| AWriteFallback (rid : string) (p : RekeyAuditPayload) : ask (result unit)
| ANow : ask Z.

(** Clock readings and the identifier a statement draws. *)
Record Clock : Type := mkClock { cl_db : Z; cl_go : Z; cl_id : string }.

Inductive call : Type -> Type :=
| Db {A : Type} (f : Clock -> DB -> result A * DB) : call (result A)
| LocalKeys {A : Type} (srv : string) (f : Z -> KeyCache -> A * KeyCache) : call A
| LocalParts {A : Type} (srv : string) (f : Z -> PartCache -> A * PartCache) : call A
| EmitAudit (p : RekeyAuditPayload) : call (string * RekeyAuditPayload * option error)
| Ask {A : Type} (q : ask A) : call A.

Inductive fault : Type :=
| NoFault
| Refused (e : error)     (* no effect *)
| Unanswered (e : error)  (* the effect, but an error for an answer *).

Record environment : Type := mkEnv {
  en_clock : Clock;
  en_fault : fault;
  en_emit : RekeyAuditPayload -> string * RekeyAuditPayload * option error;
  en_delivered : bool;   (* whether a failed emission reached the stream nonetheless *)
  en_ask : forall A, ask A -> A
}.

Definition exec (en : environment) (A : Type) (c : call A) (s : St) : A * St :=
  match c in call A return A * St with
  | @Db A f =>
      match en_fault en with
      | NoFault => let '(r, db') := f (en_clock en) (st_db s) in
                   (r, mkSt db' (st_keys s) (st_parts s) (st_emitted s))
      | Refused e => (Err e, s)
      | Unanswered e => (Err e, mkSt (f (en_clock en) (st_db s)).2 (st_keys s) (st_parts s) (st_emitted s))
      end
  | @LocalKeys A srv f =>
      let '(r, c') := f (cl_go (en_clock en)) (key_cache srv s) in
      (r, mkSt (st_db s) (<[srv := c']> (st_keys s)) (st_parts s) (st_emitted s))
  | @LocalParts A srv f =>
      let '(r, c') := f (cl_go (en_clock en)) (part_cache srv s) in
      (r, mkSt (st_db s) (st_keys s) (<[srv := c']> (st_parts s)) (st_emitted s))
  | EmitAudit p =>
      let '(id, p', err) := en_emit en p in
      ((id, p', err), mkSt (st_db s) (st_keys s) (st_parts s)
         (if bool_decide (err = None) || en_delivered en then st_emitted s ++ [p'] else st_emitted s)%list)
  | @Ask A q => (en_ask en A q, s)
  end.

(** ** Fate

    What goes wrong in a run, fixed beforehand: [late], the events that reach the
    archive after a rekey has replaced their key, or under the key of a withdrawn
    rotation; and [withdrawn], the rotations that the cluster does not acknowledge,
    whose new key the server then destroys again.  What is shown of a cluster is shown
    for whatever a run has of either. *)
Class Fate : Type := mkFate {
  late : string -> Prop;
  withdrawn : ContextID -> Z -> Prop
}.

(** A run without late events, and one without withdrawn rotations either. *)
Definition punctual (w : ContextID -> Z -> Prop) : Fate := mkFate (fun _ => False) w.
Definition no_fate : Fate := punctual (fun _ _ => False).

(** ** What the answers from outside satisfy

    Randomness has the length asked for; the provider wraps and unwraps as the
    library says, when it answers; the emitter only fills in the chain block. *)
Definition answer_ok `{fate : Fate} (L : CryptoLib) {A} (q : ask A) : A -> Prop :=
  match q in ask A return A -> Prop with
  | ARandom n => fun r => forall x, r = Ok x -> String.length x = n
  | AWrap secret => fun r => forall w, r = Ok w -> exists rnd, w = kek_wrap L rnd secret
  | AUnwrap wrapped kid => fun r => forall x, r = Ok x -> kek_unwrap L wrapped kid = Some x
  | ANonce => fun n => String.length n = NonceSizeX
  | AInvalidate x action _ successor => fun r => action = "rotate" -> is_Some r -> withdrawn x successor
  | ABinding _ => fun _ => True
  | APolicyHash _ => fun _ => True
  | ACancelled => fun _ => True
  | AWriteFallback _ _ => fun _ => True
  | ANow => fun _ => True
  end.

Record env_ok `{fate : Fate} (L : CryptoLib) (en : environment) : Prop := mkEnvOk {
  ok_ask : forall A (q : ask A), answer_ok L q (en_ask en A q);
  ok_emit : forall p, ra_RequestID (en_emit en p).1.2 = ra_RequestID p
}.

(** ** Programs *)
Abbreviation dprog := (prog call).

Definition db {A} (f : Clock -> tx A) : dprog (result A) := Programs.call (Db f).
Definition asks {A} (q : ask A) : dprog A := Programs.call (Ask q).

(** A server: its name, the library it links, its provider, and which
    collaborators were injected. *)
Record Server : Type := mkServer {
  sv_name : string;
  sv_lib : CryptoLib;
  sv_provider : string;
  sv_ulid_text : string -> string;
  sv_sha256 : string -> string;
  sv_marshal_args : string -> string -> string -> result string;
  sv_data_dir : string;
  sv_identity : string
}.

Open Scope string_scope.
Open Scope Z_scope.
Open Scope prog_scope.

Definition DEKByteLength : nat := 32.

(** The first missing collaborator, in the order of [NewManager]. *)
Definition NewManager (provider store cache partCache invalidate bindings : bool) : result unit :=
  match find (fun p => negb p.1)
          [(provider, "dek.NewManager requires a non-nil kek.Provider"); (store, "dek.NewManager requires a non-nil *Store");
           (cache, "dek.NewManager requires a non-nil *Cache"); (partCache, "dek.NewManager requires a non-nil *ParticipantsCache");
           (invalidate, "dek.NewManager requires a non-nil Invalidator");
           (bindings, "dek.NewManager requires a non-nil BindingResolver")] with
  | Some (_, msg) => Err (ErrCode "DEK_MANAGER_DEPENDENCY_NIL" msg)
  | None => Ok tt
  end.

Definition validateProviderWrapOutput (wrapped kekKeyID : string) : result unit :=
  if is_empty wrapped
  then Err (ErrCode "DEK_WRAP_OUTPUT_INVALID" "kek.Provider.Wrap returned an empty wrapped DEK")
  else if is_empty kekKeyID
  then Err (ErrCode "DEK_WRAP_OUTPUT_INVALID" "kek.Provider.Wrap returned an empty kek_key_id")
  else Ok tt.

Definition validateProviderUnwrapOutput (dekBytes : string) : result unit :=
  if (String.length dekBytes =? DEKByteLength)%nat then Ok tt
  else Err (ErrCode "DEK_UNWRAP_OUTPUT_INVALID" "provider.Unwrap returned bytes of another length").

Section Manager.
Context (sv : Server).
Let srv := sv_name sv.

Definition cacheGet (k : CacheKey) : dprog (option string) :=
  Programs.call (LocalKeys srv (fun now => cache_Get now k)).
Definition cachePut (k : CacheKey) (x : ContextID) (m : string) : dprog unit :=
  Programs.call (LocalKeys srv (fun now c => (tt, cache_Put now k x m c))).
Definition cacheInvalidate (k : CacheKey) : dprog unit :=
  Programs.call (LocalKeys srv (fun _ c => (tt, cache_Invalidate k c))).
Definition cacheInvalidateContext (x : ContextID) : dprog unit :=
  Programs.call (LocalKeys srv (fun _ c => (tt, cache_InvalidateContext x c))).

Definition pk_ctx (k : ParticipantsCacheKey) : ContextID := mkContext (pk_ContextType k) (pk_ContextID k).
Definition part_key (x : ContextID) (v : Z) : ParticipantsCacheKey := mkPartKey (cx_Type x) (cx_ID x) v.

Definition partGet (k : ParticipantsCacheKey) : dprog (option (list Participant)) :=
  Programs.call (LocalParts srv (fun now => cache_Get now k)).
Definition partPut (k : ParticipantsCacheKey) (ps : list Participant) : dprog unit :=
  Programs.call (LocalParts srv (fun now c => (tt, part_Put now k (pk_ctx k) ps c))).
Definition partInvalidate (k : ParticipantsCacheKey) : dprog unit :=
  Programs.call (LocalParts srv (fun _ c => (tt, cache_Invalidate k c))).
Definition partInvalidateContext (x : ContextID) : dprog unit :=
  Programs.call (LocalParts srv (fun _ c => (tt, cache_InvalidateContext x c))).

(** The failure of a step, as the method's own error. *)
Definition fails {A} (e : error) : dprog (result A) := Done (Err e).

Definition unwrapAndCache (r : row) : dprog (result Key) :=
  dekBytes <~ asks (AUnwrap (r_WrappedDEK r) (r_WrapKeyID r)) @@ (fun e => fails (ErrWrapCode "DEK_UNWRAP_FAILED" e));;
  match validateProviderUnwrapOutput dekBytes with
  | Err e => fails e
  | Ok _ =>
      _ ← cachePut (mkCacheKey (r_ID r) (r_Version r)) (r_ctx r) dekBytes;
      _ ← partPut (part_key (r_ctx r) (r_Version r)) (r_Participants r);
      Done (Ok (mkKey (r_ID r) (r_Version r) dekBytes))
  end.

(** A participant supplied without a binding gets the current one, and the
    binding's player if it names none. *)
Definition resolve_binding (p : Participant) : dprog (result Participant) :=
  if is_empty (pa_BindingID p) then
    bp <~ asks (ABinding (pa_CharacterID p)) @@ (fun e => fails (ErrWrapCode "DEK_BINDING_RESOLVE_FAILED" e));;
    Done (Ok (mkParticipant (if is_empty (pa_PlayerID p) then bp.2 else pa_PlayerID p) (pa_CharacterID p) bp.1
                (pa_JoinedAt p) (pa_AddedVia p)))
  else Done (Ok p).

Fixpoint resolve_bindings (ps : list Participant) : dprog (result (list Participant)) :=
  match ps with
  | [] => Done (Ok [])
  | p :: ps' =>
      p' <~ resolve_binding p @@ fails;;
      rest <~ resolve_bindings ps' @@ fails;;
      Done (Ok (p' :: rest))
  end.

(** Fresh key bytes and their wrapping, shared by the minting methods. *)
Definition fresh_dek (rng_code wrap_code : string) : dprog (result (string * string * string)) :=
  dekBytes <~ asks (ARandom DEKByteLength) @@ (fun e => fails (ErrWrapCode rng_code e));;
  w <~ asks (AWrap dekBytes) @@ (fun e => fails (ErrWrapCode wrap_code e));;
  match validateProviderWrapOutput w.1 w.2 with
  | Err e => fails e
  | Ok _ => Done (Ok (dekBytes, w.1, w.2))
  end.

Definition new_row (x : ContextID) (v : Z) (wrapped kid : string) (ps : list Participant) : row :=
  mkRow 0 (cx_Type x) (cx_ID x) v wrapped (sv_provider sv) kid ps 0 None.

Definition GetOrCreate (x : ContextID) (initial : list Participant) : dprog (result Key) :=
  r ← db (fun _ => selectActive x);
  match r with
  | Ok r => unwrapAndCache r
  | Err e =>
      if negb (is_no_rows e) then fails (ErrWrapCode "DEK_STORE_SELECT_FAILED" e)
      else
        d <~ fresh_dek "DEK_RNG_FAILED" "DEK_WRAP_FAILED" @@ fails;;
        resolved <~ resolve_bindings initial @@ fails;;
        i ← db (fun ck => insert (cl_db ck) (new_row x 1 d.1.2 d.2 resolved));
        match i with
        | Err e =>
            if is_unique_violation e then
              existing <~ db (fun _ => selectActive x) @@ (fun e => fails (ErrWrapCode "DEK_STORE_SELECT_FAILED" e));;
              unwrapAndCache existing
            else fails (ErrWrapCode "DEK_STORE_INSERT_FAILED" e)
        | Ok id =>
            _ ← cachePut (mkCacheKey id 1) x d.1.1;
            _ ← partPut (part_key x 1) resolved;
            Done (Ok (mkKey id 1 d.1.1))
        end
  end.

Definition select_error {A} (e : error) : dprog (result A) :=
  if is_no_rows e then fails (ErrCode "DEK_NOT_FOUND" "crypto_keys row not found")
  else fails (ErrWrapCode "DEK_STORE_SELECT_FAILED" e).

Definition Resolve (keyID version : Z) : dprog (result Key) :=
  m ← cacheGet (mkCacheKey keyID version);
  match m with
  | Some material => Done (Ok (mkKey keyID version material))
  | None =>
      r <~ db (fun _ => selectByID keyID version) @@ select_error;;
      unwrapAndCache r
  end.

Definition Participants (keyID version : Z) : dprog (result (list Participant)) :=
  r <~ db (fun _ => selectByID keyID version) @@ select_error;;
  let k := part_key (r_ctx r) version in
  cached ← partGet k;
  match cached with
  | Some ps => Done (Ok ps)
  | None => _ ← partPut k (r_Participants r); Done (Ok (r_Participants r))
  end.

(** The coordinator's answer, as the manager's error. *)
Definition invalidate (x : ContextID) (action : string) (version successor : Z) : dprog (result unit) :=
  a ← asks (AInvalidate x action version successor);
  Done (match a with None => Ok tt | Some ce => Err (co_error ce) end).

Definition Add (x : ContextID) (p : Participant) : dprog (result unit) :=
  p <~ resolve_binding p @@ fails;;
  ra <~ db (fun _ => atomically (updateParticipants x p)) @@ fails;;
  if negb ra.2 then Done (Ok tt)
  else
    _ ← partPut (part_key x (r_Version ra.1)) (r_Participants ra.1);
    invalidate x "participants_changed" (r_Version ra.1) 0.

Definition EnsureParticipant (x : ContextID) (p : Participant) : dprog (result unit) :=
  _ <~ GetOrCreate x [p] @@ fails;;
  Add x p.

Definition Rotate (x : ContextID) (newParticipants : list Participant) : dprog (result unit) :=
  active <~ db (fun _ => selectActive x) @@ fails;;
  d <~ fresh_dek "DEK_RNG_FAILED" "DEK_WRAP_FAILED" @@ fails;;
  let newVersion := u32_wrap (r_Version active + 1) in
  newID <~ db (fun ck => insert (cl_db ck) (new_row x newVersion d.1.2 d.2 newParticipants))
    @@ (fun e => fails (ErrWrapCode "DEK_STORE_INSERT_FAILED" e));;
  _ ← cachePut (mkCacheKey newID newVersion) x d.1.1;
  _ ← partPut (part_key x newVersion) newParticipants;
  i ← invalidate x "rotate" (r_Version active) newVersion;
  match i with
  | Err e =>
      _ ← cacheInvalidate (mkCacheKey newID newVersion);
      _ ← partInvalidate (part_key x newVersion);
      _ ← db (fun ck => markDestroyed (cl_go ck) newID newVersion);
      fails e
  | Ok _ => db (fun ck => markRotated (cl_go ck) (r_ID active) (r_Version active) newID)
  end.

Definition ActiveDEKRow (x : ContextID) : dprog (result (Z * Z)) :=
  r ← db (fun _ => selectActive x);
  match r with
  | Ok r => Done (Ok (r_ID r, r_Version r))
  | Err e => if is_no_rows e then fails (ErrWrapCode "DEK_NOT_FOUND" e)
             else fails (ErrWrapCode "DEK_STORE_SELECT_FAILED" e)
  end.

Definition MintNewDEKForRekey (oldDEKID : Z) : dprog (result Z) :=
  oldRow <~ db (fun _ => selectByPK oldDEKID) @@ (fun e => fails (ErrWrapCode "DEK_REKEY_OLD_ROW_LOOKUP_FAILED" e));;
  d <~ fresh_dek "DEK_REKEY_GEN_NEW_DEK_FAILED" "DEK_REKEY_WRAP_FAILED" @@ fails;;
  newID <~ db (fun ck => insertRekeyed (cl_go ck) oldRow d.1.2 d.2) @@ fails;;
  let newVersion := u32_wrap (r_Version oldRow + 1) in
  _ ← cachePut (mkCacheKey newID newVersion) (r_ctx oldRow) d.1.1;
  _ ← partPut (part_key (r_ctx oldRow) newVersion) (r_Participants oldRow);
  Done (Ok newID).

Definition DestroyDEK (dekID : Z) : dprog (result unit) := db (fun ck => markDestroyedByPK (cl_go ck) dekID).

Definition EvictCachedDEK (dekID : Z) : dprog (result unit) :=
  r ← db (fun _ => selectByPK dekID);
  match r with
  | Err e => if is_no_rows e then Done (Ok tt) else fails (ErrWrapCode "DEK_EVICT_CACHE_LOOKUP_FAILED" e)
  | Ok r =>
      _ ← cacheInvalidateContext (r_ctx r);
      _ ← partInvalidateContext (r_ctx r);
      Done (Ok tt)
  end.

Definition VersionForDEKID (dekID : Z) : dprog (result Z) :=
  r <~ db (fun _ => selectByPK dekID) @@ select_error;;
  Done (Ok (r_Version r)).

(** [Store.ResolveIntegrity]. *)
Definition ResolveIntegrity : dprog (result unit) :=
  xs <~ db (fun _ => conflicted) @@ (fun e => fails (ErrWrapCode "DEK_INTEGRITY_QUERY_FAILED" e));;
  (fix go (xs : list ContextID) : dprog (result unit) :=
     match xs with
     | [] => Done (Ok tt)
     | x :: xs' =>
         _ <~ db (fun ck => rotate_older (cl_go ck) x) @@ (fun e => fails (ErrWrapCode "DEK_INTEGRITY_RESOLVE_FAILED" e));;
         go xs'
     end) xs.
End Manager.
