(* ===== verification/Rekey.v ===== *)
(** The rekey orchestrator: [internal/eventbus/crypto/dek/rekey.go],
    [rekey_orchestrator.go] (phases 1 and 2), [rekey_phase3.go], [rekey_phase5.go],
    [rekey_phase6.go], [rekey_phase7.go], [rekey_run.go], the sweep of [sweep.go],
    and the operator's abort of [cmd/holomush/crypto_rekey_wiring.go], as programs
    of calls.  The orchestrator has all its collaborators; warnings that are only
    logged are dropped. *)

From S2P Require Import Prelude GoStrings GoText Sql Programs DekTypes EventCrypto DekCache DekStore DekManager.

Open Scope string_scope.
Open Scope Z_scope.
Open Scope prog_scope.

(** ** Pure helpers *)

(** [hex.EncodeToString]. *)
Fixpoint hexEncodeBytes (s : string) : string :=
  match s with
  | EmptyString => EmptyString
  | String c s' => String (hex_digit (N_of_ascii c / 16)) (String (hex_digit (N_of_ascii c mod 16)) (hexEncodeBytes s'))
  end.

(** A [uint32] stored in an [int32] column. *)
Definition int32_of (z : Z) : Z := (z + 2 ^ 31) mod 2 ^ 32 - 2 ^ 31.

(** [None] is the nil slice. *)
Definition extractMissingMembers (e : coord_error) : option (list string) :=
  if negb (co_oops e) then None
  else match co_missing e with
       | MissingAbsent | MissingNil | MissingOther => None
       | MissingStrings l => Some l
       | MissingBytes decoded => decoded
       | MissingAny l => Some l
       | MissingNamed [] => None
       | MissingNamed (m :: l) => Some (m :: l)
       end.

(** ** The resume dispatcher's decision *)
Inductive resumeEntry : Type :=
| resumeEntryPhase2
| resumeEntryPhase3
| resumeEntryPhase5Retry
| resumeEntryPhase5ForceDestroy
| resumeEntryPhase6
| resumeEntryPhase7
| resumeEntryComplete
| resumeEntryAborted
| resumeEntryManual.

Definition decideResumeEntry (status : CheckpointStatus) (hasMissingMembers forceDestroy : bool) : resumeEntry * bool :=
  match status with
  | CheckpointStatusPending | CheckpointStatusPhase1Auth => (resumeEntryPhase2, false)
  | CheckpointStatusPhase2MintDEK | CheckpointStatusPhase3ReencryptCold => (resumeEntryPhase3, false)
  | CheckpointStatusPhase5Invalidate =>
      if negb hasMissingMembers then (resumeEntryPhase6, false)
      else if forceDestroy then (resumeEntryPhase5ForceDestroy, false)
      else (resumeEntryPhase5Retry, false)
  | CheckpointStatusPhase6DestroyOld => (resumeEntryPhase7, false)
  | CheckpointStatusPhase7Audit => (resumeEntryManual, true)
  | CheckpointStatusComplete => (resumeEntryComplete, false)
  | CheckpointStatusAborted => (resumeEntryAborted, false)
  | CheckpointStatusOther _ => (resumeEntryManual, true)
  end.

(** ** Re-encryption of rows: the transaction's statements *)
Definition defaultPhase3BatchSize : nat := 1000.

(** [COALESCE($2, '\x00')], a nil or empty slice being NULL. *)
Definition cursor_bound (cursor : option string) : string :=
  match cursor with
  | None | Some EmptyString => String Ascii.zero EmptyString
  | Some c => c
  end.

Definition by_id (a b : string * audit_rec) : bool := String.leb a.1 b.1.

(** [WHERE dek_ref = old AND id > bound ORDER BY id ASC LIMIT n]. *)
Definition select_batch (old : Z) (cursor : option string) (n : nat) (db : DB) : list (string * audit_rec) :=
  take n (order_by by_id
    (rows_where (fun id r => bool_decide (au_dek_ref r = Some old) && String.ltb (cursor_bound cursor) id) (db_audit db))).

(** [SET envelope, dek_ref, dek_version WHERE id]. *)
Definition rewrite_row (w : string * string) (new newVersion : Z) (db : DB) : DB :=
  match db_audit db !! w.1 with
  | None => db
  | Some r =>
      set_audit db (<[w.1 := mkAuditRec (au_subject r) (au_type r) (au_timestamp r) (au_actor_kind r) (au_actor_id r) w.2
                               (au_schema_ver r) (au_codec r) (au_js_seq r) (au_rendering r) (Some new)
                               (Some (int32_of newVersion))]> (db_audit db))
  end.

Definition rewrite_rows (ws : list (string * string)) (new newVersion : Z) (db : DB) : DB :=
  fold_left (fun db w => rewrite_row w new newVersion db) ws db.

Definition commit_batch (now : Z) (rid : string) (ws : list (string * string)) (new newVersion : Z) (lastID : string) : tx unit :=
  _ ← write (rewrite_rows ws new newVersion);
  _ ← IncrementPhase3Count now rid (Z.of_nat (length ws));
  AdvanceCursor now rid lastID.

Definition or_fail {A B} (e : error -> error) (r : result A) (k : A -> dprog (result B)) : dprog (result B) :=
  match r with Ok a => k a | Err x => fails (e x) end.

(** ** Phases *)
Section Orchestrator.
Context (sv : Server).
Let srv := sv_name sv.
Let L := sv_lib sv.

Definition ComputeRekeyArgsHash (req : RekeyRequest) : result string :=
  match sv_marshal_args sv (rq_ContextType req) (rq_ContextID req) (rq_Justification req) with
  | Err e => Err (ErrWrapCode "DEK_REKEY_OP_ARGS_HASH_MARSHAL_FAILED" e)
  | Ok raw => Ok (sv_sha256 sv raw)
  end.

Definition RunPhase1Fresh (req : RekeyRequest) : dprog (result string) :=
  or_fail (fun e => e) (ComputeRekeyArgsHash req) (fun argsHash =>
  policyHash <~ asks (APolicyHash "dual_control_required") @@ (fun e => fails (ErrWrapCode "DEK_REKEY_POLICY_HASH_READ_FAILED" e));;
  let policyHash := default (fixed_bytes 32 EmptyString) policyHash in
  activeRow <~ db (fun _ => selectActive (mkContext (rq_ContextType req) (rq_ContextID req)))
    @@ (fun e => fails (ErrWrapCode "DEK_REKEY_ACTIVE_DEK_LOOKUP_FAILED" e));;
  or_fail (ErrWrapCode "DEK_REKEY_CHECKPOINT_OPEN_ARGS_INVALID")
    (NewCheckpointOpenRequest (rq_ContextType req) (rq_ContextID req) argsHash policyHash
       (oi_PlayerID (rq_Operator req)) (r_ID activeRow) (rq_Justification req)) (fun openReq =>
  rid <~ db (fun ck => Open (cl_db ck) (cl_id ck) openReq) @@ fails;;
  _ <~ db (fun ck => UpdateStatus (cl_db ck) rid CheckpointStatusPending CheckpointStatusPhase1Auth)
    @@ (fun e => fails (ErrWrapCode "DEK_REKEY_PHASE1_ADVANCE_FAILED" e));;
  Done (Ok rid))).

Definition precondition_failed {A} (msg : string) : dprog (result A) :=
  fails (ErrCode "DEK_REKEY_PHASE_PRECONDITION_FAILED" msg).

Definition RunPhase2 (rid : string) : dprog (result unit) :=
  ckpt <~ db (fun _ => Get rid) @@ fails;;
  if negb (has_status CheckpointStatusPhase1Auth ckpt) then precondition_failed "Phase 2 requires status=phase1_auth"
  else
    newDEKID <~ MintNewDEKForRekey sv (ck_OldDEKID ckpt) @@ (fun e => fails (ErrWrapCode "DEK_REKEY_MINT_NEW_DEK_FAILED" e));;
    db (fun ck => SetNewDEKAndAdvance (cl_db ck) rid newDEKID).

(** *** Phase 3 *)

(** One row of a batch: its envelope re-encrypted under the new key. *)
Definition rewrite_one (old new : Z) (newKey : Key) (newVersion : Z) (r : string * audit_rec) : dprog (result (string * string)) :=
  match au_dek_version r.2 with
  | None => fails (ErrWrapCode "DEK_REKEY_BATCH_SCAN_FAILED" (ErrNew "cannot scan NULL into *int32"))
  | Some v =>
      or_fail (ErrWrapCode "DEK_REKEY_ENVELOPE_UNMARSHAL_FAILED") (unmarshalEvent L (au_envelope r.2)) (fun envelope =>
      oldKey <~ Resolve sv old v @@ (fun e => fails (ErrWrapCode "DEK_REKEY_OLD_KEY_RESOLVE_FAILED" e));;
      or_fail (ErrWrapCode "DEK_REKEY_OLD_AAD_BUILD_FAILED") (Build L envelope (au_codec r.2) old v) (fun oldAAD =>
      or_fail (ErrWrapCode "DEK_REKEY_CODEC_UNKNOWN") (codec_Resolve (au_codec r.2)) (fun codecImpl =>
      or_fail (ErrWrapCode "DEK_REKEY_DECODE_FAILED") (Decode L codecImpl (ev_Payload envelope) oldKey oldAAD) (fun plaintext =>
      or_fail (ErrWrapCode "DEK_REKEY_NEW_AAD_BUILD_FAILED") (Build L envelope (au_codec r.2) new newVersion) (fun newAAD =>
      nonce ← asks ANonce;
      or_fail (ErrWrapCode "DEK_REKEY_ENCODE_FAILED") (Encode L codecImpl nonce plaintext newKey newAAD) (fun reencoded =>
      or_fail (ErrWrapCode "DEK_REKEY_ENVELOPE_MARSHAL_FAILED") (marshalEvent L (set_payload envelope reencoded)) (fun raw =>
      Done (Ok (r.1, raw)))))))))
  end.

Fixpoint rewrite_all (old new : Z) (newKey : Key) (newVersion : Z) (rs : list (string * audit_rec))
    : dprog (result (list (string * string))) :=
  match rs with
  | [] => Done (Ok [])
  | r :: rs' =>
      w <~ rewrite_one old new newKey newVersion r @@ fails;;
      ws <~ rewrite_all old new newKey newVersion rs' @@ fails;;
      Done (Ok (w :: ws))
  end.

(** The scan loop rejects a bad version column before any row is rewritten. *)
Fixpoint scan_versions (rs : list (string * audit_rec)) : result unit :=
  match rs with
  | [] => Ok tt
  | r :: rs' =>
      match au_dek_version r.2 with
      | None => Err (ErrWrapCode "DEK_REKEY_BATCH_SCAN_FAILED" (ErrNew "cannot scan NULL into *int32"))
      | Some v => if v <? 0 then Err (ErrCode "DEK_REKEY_BAD_DEK_VERSION" "events_audit row has negative dek_version")
                  else scan_versions rs'
      end
  end.

(** [None]: no row was left.  The SELECT and the UPDATEs run in one transaction;
    nothing of it is visible before the commit. *)
Definition processPhase3Batch (old new : Z) (newKey : Key) (newVersion : Z) (afterID : option string) (batchSize : nat)
    (rid : string) : dprog (result (option (nat * string))) :=
  batch <~ db (fun _ => read (select_batch old afterID batchSize)) @@ (fun e => fails (ErrWrapCode "DEK_REKEY_BATCH_QUERY_FAILED" e));;
  or_fail (fun e => e) (scan_versions batch) (fun _ =>
  match last batch with
  | None => Done (Ok None)
  | Some (lastID, _) =>
      ws <~ rewrite_all old new newKey newVersion batch @@ fails;;
      _ <~ db (fun ck => atomically (commit_batch (cl_db ck) rid ws new newVersion lastID)) @@ fails;;
      Done (Ok (Some (length batch, lastID)))
  end).

Definition phase3HeartbeatInterval : Z := 30 * 1000000000.

(** The batch loop; [fuel] bounds its iterations.  The rows rewritten by this
    invocation. *)
Fixpoint phase3_loop (fuel : nat) (rid : string) (old new : Z) (newKey : Key) (newVersion : Z)
    (cursor : option string) (total : nat) (lastHeartbeat : Z) : dprog (result nat) :=
  match fuel with
  | O => fails (ErrNew "out of fuel")
  | S fuel' =>
      cancelled ← asks ACancelled;
      if cancelled : bool then fails (ErrWrapCode "DEK_REKEY_PHASE3_CANCELED" (ErrNew "context canceled"))
      else
        b <~ processPhase3Batch old new newKey newVersion cursor defaultPhase3BatchSize rid @@ fails;;
        match b with
        | None => Done (Ok total)
        | Some (n, lastID) =>
            now ← asks ANow;
            if phase3HeartbeatInterval <? now - lastHeartbeat then
              _ ← db (fun ck => Heartbeat (cl_db ck) rid);
              now' ← asks ANow;
              phase3_loop fuel' rid old new newKey newVersion (Some lastID) (total + n)%nat now'
            else phase3_loop fuel' rid old new newKey newVersion (Some lastID) (total + n)%nat lastHeartbeat
        end
  end.

Definition RunPhase3 (fuel : nat) (rid : string) : dprog (result nat) :=
  ckpt <~ db (fun _ => Get rid) @@ fails;;
  if negb (has_status CheckpointStatusPhase2MintDEK ckpt || has_status CheckpointStatusPhase3ReencryptCold ckpt)
  then precondition_failed "Phase 3 requires status=phase2_mint_dek or phase3_reencrypt_cold"
  else match ck_NewDEKID ckpt with
  | None => fails (ErrCode "DEK_REKEY_NEW_DEK_MISSING" "Phase 3 requires new_dek_id set by Phase 2")
  | Some _ =>
      ckpt <~ (if has_status CheckpointStatusPhase2MintDEK ckpt then
                 _ <~ db (fun ck => UpdateStatus (cl_db ck) rid CheckpointStatusPhase2MintDEK CheckpointStatusPhase3ReencryptCold)
                   @@ (fun e => fails (ErrWrapCode "DEK_REKEY_PHASE3_STATUS_ADVANCE_FAILED" e));;
                 db (fun _ => Get rid)
               else Done (Ok ckpt)) @@ fails;;
      match ck_NewDEKID ckpt with
      | None => fails (ErrNew "nil pointer dereference")
      | Some new =>
          newVersion <~ VersionForDEKID new @@ (fun e => fails (ErrWrapCode "DEK_REKEY_NEW_DEK_VERSION_LOOKUP_FAILED" e));;
          newKey <~ Resolve sv new newVersion @@ (fun e => fails (ErrWrapCode "DEK_REKEY_NEW_KEY_RESOLVE_FAILED" e));;
          start ← asks ANow;
          phase3_loop fuel rid (ck_OldDEKID ckpt) new newKey newVersion (ck_lastProcessedEventID ckpt) 0 start
      end
  end.

(** *** Phase 5 *)
Definition RunPhase5 (rid : string) : dprog (result unit) :=
  ckpt <~ db (fun _ => Get rid) @@ fails;;
  if negb (in_phase5 ckpt) then precondition_failed "Phase 5 requires status=phase3_reencrypt_cold or phase5_invalidate"
  else match ck_NewDEKID ckpt with
  | None => fails (ErrCode "DEK_REKEY_NEW_DEK_MISSING" "Phase 5 requires new_dek_id set by Phase 2")
  | Some new =>
      _ ← db (fun ck => IncrementPhase5Attempt (cl_db ck) rid);
      oldRow <~ db (fun _ => selectByPK (ck_OldDEKID ckpt)) @@ (fun e => fails (ErrWrapCode "DEK_REKEY_PHASE5_OLD_ROW_LOOKUP_FAILED" e));;
      newRow <~ db (fun _ => selectByPK new) @@ (fun e => fails (ErrWrapCode "DEK_REKEY_PHASE5_NEW_ROW_LOOKUP_FAILED" e));;
      coordErr ← asks (AInvalidate (ck_ctx ckpt) "rekey" (r_Version oldRow) (r_Version newRow));
      match coordErr with
      | None =>
          _ <~ db (fun ck => RecordPhase5Success (cl_db ck) rid)
            @@ (fun e => fails (ErrWrapCode "DEK_REKEY_PHASE5_RECORD_SUCCESS_FAILED" e));;
          Done (Ok tt)
      | Some ce =>
          _ <~ db (fun ck => RecordPhase5Timeout (cl_db ck) rid (extractMissingMembers ce))
            @@ (fun e => fails (ErrWrapCode "DEK_REKEY_PHASE5_TIMEOUT_PERSIST_FAILED" e));;
          fails (ErrCode "DEK_REKEY_PHASE5_TIMEOUT" "partial ack from coordinator")
      end
  end.

Definition RunPhase5WithForceDestroy (rid : string) : dprog (result unit) :=
  ckpt <~ db (fun _ => Get rid) @@ fails;;
  if negb (has_status CheckpointStatusPhase5Invalidate ckpt) || negb (Phase5HasMissingMembers ckpt)
  then fails (ErrCode "DEK_REKEY_FORCE_DESTROY_FORBIDDEN"
                "--force-destroy requires checkpoint at phase5_invalidate with missing_members set")
  else
    _ <~ db (fun _ => SetForceDestroy rid) @@ (fun e => fails (ErrWrapCode "DEK_REKEY_FORCE_DESTROY_SET_FAILED" e));;
    _ <~ db (fun ck => UpdateStatusForceDestroy (cl_db ck) rid)
      @@ (fun e => fails (ErrWrapCode "DEK_REKEY_FORCE_DESTROY_UPDATE_FAILED" e));;
    Done (Ok tt).

(** *** Phase 6 *)
Definition RunPhase6 (rid : string) : dprog (result unit) :=
  ckpt <~ db (fun _ => Get rid) @@ fails;;
  match ck_Status ckpt with
  | CheckpointStatusPhase5Invalidate =>
      if Phase5HasMissingMembers ckpt
      then precondition_failed "Phase 6 requires phase5_invalidate with missing_members IS NULL"
      else
        _ <~ DestroyDEK (ck_OldDEKID ckpt) @@ (fun e => fails (ErrWrapCode "DEK_REKEY_DESTROY_FAILED" e));;
        _ ← EvictCachedDEK sv (ck_OldDEKID ckpt);
        db (fun ck => UpdateStatus (cl_db ck) rid CheckpointStatusPhase5Invalidate CheckpointStatusPhase6DestroyOld)
  | CheckpointStatusPhase6DestroyOld => Done (Ok tt)
  | _ => precondition_failed "Phase 6 requires status=phase5_invalidate or phase6_destroy_old"
  end.

(** *** Phase 7 *)
Definition writeFallbackLog (rid : string) (p : RekeyAuditPayload) : dprog (result unit) :=
  if is_empty (sv_data_dir sv)
  then fails (ErrCode "DEK_REKEY_FALLBACK_LOG_NO_DATA_DIR" "data_dir not configured; fallback log cannot be written")
  else asks (AWriteFallback rid p).

Definition sha256_text (hash : string) : string := "sha256:" +:+ hexEncodeBytes hash.

Definition phase7_payload (rid : string) (ckpt : Checkpoint) (req : RekeyRequest) (oldVersion newVersion t6 t7 : Z)
    : RekeyAuditPayload :=
  let op := rq_Operator req in
  mkAuditPayload (sv_ulid_text sv rid) (ck_ctx ckpt)
    (mkAuditDEK (ck_OldDEKID ckpt) oldVersion)
    (match ck_NewDEKID ckpt with None => no_audit_dek | Some new => mkAuditDEK new newVersion end)
    (mkAuditOp (oi_PlayerID op) (oi_OSUser op) (oi_TOTPVerified op) (oi_AuthProviderName op))
    ((fun d => mkAuditPart (dc_PartnerPlayerID d) (sv_ulid_text sv (dc_ApprovalRequestID d))) <$> rq_DualControl req)
    (rq_Justification req) (sha256_text (PolicyHash ckpt)) EmptyString
    (mkAuditPhases (ck_Phase3RowsRewritten ckpt) (ck_Phase5AttemptCount ckpt)
       (Some (default [] (Phase5MissingMembers ckpt))) t6)
    (ck_ForceDestroy ckpt) (ck_StartedAt ckpt) t7 (sv_identity sv)
    "2026-04-25-event-payload-crypto-design.md @ §6.3" no_chain_block.

Definition RunPhase7 (rid : string) (req : RekeyRequest) : dprog (result RekeyOutcome) :=
  ckpt <~ db (fun _ => Get rid) @@ fails;;
  if negb (has_status CheckpointStatusPhase6DestroyOld ckpt) then precondition_failed "Phase 7 requires status=phase6_destroy_old"
  else
    _ <~ db (fun ck => UpdateStatus (cl_db ck) rid CheckpointStatusPhase6DestroyOld CheckpointStatusPhase7Audit)
      @@ (fun e => fails (ErrWrapCode "DEK_REKEY_PHASE7_ADVANCE_FAILED" e));;
    ckpt <~ db (fun _ => Get rid) @@ fails;;
    oldRow <~ db (fun _ => selectByPK (ck_OldDEKID ckpt)) @@ (fun e => fails (ErrWrapCode "DEK_REKEY_PHASE7_OLD_ROW_LOOKUP_FAILED" e));;
    newVersion <~ match ck_NewDEKID ckpt with
                  | None => Done (Ok 0)
                  | Some new =>
                      newRow <~ db (fun _ => selectByPK new) @@ (fun e => fails (ErrWrapCode "DEK_REKEY_PHASE7_NEW_ROW_LOOKUP_FAILED" e));;
                      Done (Ok (r_Version newRow))
                  end @@ fails;;
    t6 ← asks ANow;
    t7 ← asks ANow;
    emitted ← Programs.call (EmitAudit (phase7_payload rid ckpt req (r_Version oldRow) newVersion t6 t7));
    match emitted with
    | (_, finalized, Some e) =>
        _ ← writeFallbackLog rid finalized;
        fails (ErrWrapCode "DEK_REKEY_PHASE7_AUDIT_FAILED" e)
    | (eventID, _, None) =>
        _ <~ db (fun ck => MarkComplete (cl_db ck) rid) @@ (fun e => fails (ErrWrapCode "DEK_REKEY_PHASE7_MARK_COMPLETE_FAILED" e));;
        completed ← asks ANow;
        since ← asks ANow;
        Done (Ok (mkRekeyOutcome rid eventID (ck_Phase3RowsRewritten ckpt) (ck_Phase5AttemptCount ckpt) (ck_ForceDestroy ckpt)
                    false (Z.quot (since - ck_StartedAt ckpt) 1000000) (ck_StartedAt ckpt) (Some completed)))
    end.

(** ** The dispatcher *)
Definition runPhase7AndSetResumed (rid : string) (req : RekeyRequest) (resumed : bool) : dprog (result RekeyOutcome) :=
  out <~ RunPhase7 rid req @@ fails;;
  Done (Ok (mkRekeyOutcome (ro_RequestID out) (ro_AuditEventID out) (ro_Phase3RowCount out) (ro_Phase5Attempts out)
              (ro_ForceDestroyUsed out) resumed (ro_DurationMs out) (ro_StartedAt out) (ro_CompletedAt out))).

(** Phases 6 and 7, the end of every path. *)
Definition finish (rid : string) (req : RekeyRequest) (resumed : bool) : dprog (result RekeyOutcome) :=
  _ <~ RunPhase6 rid @@ fails;;
  runPhase7AndSetResumed rid req resumed.

Definition from_phase5 (rid : string) (req : RekeyRequest) (resumed : bool) : dprog (result RekeyOutcome) :=
  _ <~ RunPhase5 rid @@ fails;;
  finish rid req resumed.

Definition from_phase3 (fuel : nat) (rid : string) (req : RekeyRequest) (resumed : bool) : dprog (result RekeyOutcome) :=
  _ <~ RunPhase3 fuel rid @@ fails;;
  from_phase5 rid req resumed.

Definition prior_outcome (rid : string) (ckpt : Checkpoint) : RekeyOutcome :=
  mkRekeyOutcome rid zero_id 0 (ck_Phase5AttemptCount ckpt) (ck_ForceDestroy ckpt) true
    (match ck_CompletedAt ckpt with None => 0 | Some t => Z.quot (t - ck_StartedAt ckpt) 1000000 end)
    (ck_StartedAt ckpt) (ck_CompletedAt ckpt).

Definition driveToCompletion (fuel : nat) (rid : string) (req : RekeyRequest) (resumed : bool) : dprog (result RekeyOutcome) :=
  ckpt <~ db (fun _ => Get rid) @@ fails;;
  match (decideResumeEntry (ck_Status ckpt) (Phase5HasMissingMembers ckpt) (rq_ForceDestroy req)).1 with
  | resumeEntryComplete => Done (Ok (prior_outcome rid ckpt))
  | resumeEntryAborted => fails (ErrCode "DEK_REKEY_CHECKPOINT_TERMINAL" "checkpoint already aborted")
  | resumeEntryManual =>
      fails (ErrCode "DEK_REKEY_PHASE7_AUDIT_RETRY_REQUIRED" "checkpoint is in phase7_audit; manual audit-emit recovery required")
  | resumeEntryPhase2 => _ <~ RunPhase2 rid @@ fails;; from_phase3 fuel rid req resumed
  | resumeEntryPhase3 => from_phase3 fuel rid req resumed
  | resumeEntryPhase5Retry => from_phase5 rid req resumed
  | resumeEntryPhase5ForceDestroy => _ <~ RunPhase5WithForceDestroy rid @@ fails;; finish rid req resumed
  | resumeEntryPhase6 => finish rid req resumed
  | resumeEntryPhase7 => runPhase7AndSetResumed rid req resumed
  end.

Definition operator_mismatch {A} : dprog (result A) :=
  fails (ErrCode "DEK_REKEY_RESUME_OPERATOR_MISMATCH" "only the original primary may resume").

Definition Run (fuel : nat) (req : RekeyRequest) : dprog (result RekeyOutcome) :=
  or_fail (fun e => e) (ComputeRekeyArgsHash req) (fun argsHash =>
  existing <~ db (fun _ => FindByContextAndArgs (rq_ContextType req) (rq_ContextID req) argsHash)
    @@ (fun e => fails (ErrWrapCode "DEK_REKEY_RESUME_LOOKUP_FAILED" e));;
  match existing with
  | Some existing =>
      if negb (String.eqb (ck_PrimaryPlayerID existing) (oi_PlayerID (rq_Operator req))) then operator_mismatch
      else driveToCompletion fuel (ck_RequestID existing) req true
  | None =>
      conflict <~ db (fun _ => FindNonTerminalByContext (rq_ContextType req) (rq_ContextID req))
        @@ (fun e => fails (ErrWrapCode "DEK_REKEY_CONFLICT_LOOKUP_FAILED" e));;
      match conflict with
      | Some _ => fails (ErrCode "DEK_REKEY_ARGS_CONFLICT" "a non-terminal rekey with different args is in progress; abort it first")
      | None =>
          rid <~ RunPhase1Fresh req @@ fails;;
          driveToCompletion fuel rid req false
      end
  end).

Definition RunByRequestID (fuel : nat) (rid : string) (req : RekeyRequest) : dprog (result RekeyOutcome) :=
  ckpt <~ db (fun _ => Get rid) @@ (fun e => fails (ErrWrapCode "DEK_REKEY_RESUME_CHECKPOINT_LOAD_FAILED" e));;
  match ck_Status ckpt with
  | CheckpointStatusComplete => fails (ErrCode "DEK_REKEY_CHECKPOINT_TERMINAL" "checkpoint already complete; no resume needed")
  | CheckpointStatusAborted =>
      fails (ErrCode "DEK_REKEY_CHECKPOINT_TERMINAL" "checkpoint already aborted; open a fresh rekey to retry")
  | _ =>
      if negb (String.eqb (ck_PrimaryPlayerID ckpt) (oi_PlayerID (rq_Operator req))) then operator_mismatch
      else
        driveToCompletion fuel rid
          (mkRekeyRequest (ck_ContextType ckpt) (ck_ContextID ckpt) (ck_Justification ckpt) (rq_Operator req) None
             (rq_ForceDestroy req)) true
  end.

(** ** The sweep *)
Definition sweep_payload (ckpt : Checkpoint) (reason : string) (t : Z) : RekeyAuditPayload :=
  mkAuditPayload (sv_ulid_text sv (ck_RequestID ckpt)) (ck_ctx ckpt) (mkAuditDEK (ck_OldDEKID ckpt) 0)
    (match ck_NewDEKID ckpt with None => no_audit_dek | Some new => mkAuditDEK new 0 end)
    no_audit_op None ("aborted by sweep: " +:+ reason) (sha256_text (PolicyHash ckpt)) EmptyString no_audit_phases
    false (ck_StartedAt ckpt) t EmptyString "2026-04-25-event-payload-crypto-design.md @ §6.3" no_chain_block.

Definition abortAndAudit (ckpt : Checkpoint) (reason : string) : dprog (result unit) :=
  _ <~ db (fun ck => MarkAborted (cl_db ck) (ck_RequestID ckpt) reason)
    @@ (fun e => fails (ErrWrapCode "DEK_REKEY_SWEEP_ABORT_FAILED" e));;
  t ← asks ANow;
  emitted ← Programs.call (EmitAudit (sweep_payload ckpt reason t));
  match emitted with
  | (_, _, Some e) => fails (ErrWrapCode "DEK_REKEY_SWEEP_AUDIT_FAILED" e)
  | (_, _, None) => Done (Ok tt)
  end.

Definition sweepOnce (ttl : Z) : dprog (result unit) :=
  expired <~ db (fun ck => ListExpired (cl_db ck) ttl) @@ fails;;
  _ ← forM_ expired (fun c => forget (abortAndAudit c "ttl_expired"));
  Done (Ok tt).

(** ** The operator's abort *)
Definition abort_payload (rid : string) (ckpt : Checkpoint) (player : string) (abortedAt : Z) : RekeyAuditPayload :=
  mkAuditPayload (sv_ulid_text sv rid) (ck_ctx ckpt) (mkAuditDEK (ck_OldDEKID ckpt) 0) no_audit_dek
    (mkAuditOp player EmptyString false EmptyString) None "aborted by operator" EmptyString EmptyString no_audit_phases
    false (ck_StartedAt ckpt) abortedAt EmptyString "abort" no_chain_block.

(** The abort time and the audit event's identifier. *)
Definition RunAbort (rid player : string) : dprog (result (Z * string)) :=
  _ <~ db (fun ck => MarkAborted (cl_db ck) rid ("operator:" +:+ player)) @@ fails;;
  ckpt <~ db (fun _ => Get rid) @@ fails;;
  now ← asks ANow;
  let abortedAt := default now (ck_AbortedAt ckpt) in
  emitted ← Programs.call (EmitAudit (abort_payload rid ckpt player abortedAt));
  match emitted with
  | (_, _, Some _) => Done (Ok (abortedAt, zero_id))
  | (id, _, None) => Done (Ok (abortedAt, id))
  end.
End Orchestrator.
