(* ===== verification/DekInv.v ===== *)
(** The invariant of the DEK subsystem and what each step of a program keeps.

    [inv] relates the key table, the checkpoints, the audit rows, the emitted
    audit events and the key caches; [grows] is what every step, of whatever
    program, may change.  The lemmas of this file show that the elementary
    changes of the tables keep both. *)

From S2P Require Import Prelude GoStrings Sql Programs DekTypes EventCrypto DekCache DekCacheFacts DekStore DekManager Rekey.

Open Scope string_scope.
Open Scope Z_scope.

(** ** Keys *)
Definition k_ctx (k : key_rec) : ContextID := r_ctx (kr_row k).
Definition k_ver (k : key_rec) : Z := r_Version (kr_row k).
Definition destroyed (k : key_rec) : Prop := is_Some (kr_destroyed_at k).

(** The columns that never change, and the participants, who are only added. *)
Definition same_key (k k' : key_rec) : Prop :=
  (r_ID (kr_row k') = r_ID (kr_row k) /\ kr_rekeyed k' = kr_rekeyed k) /\ k_ctx k' = k_ctx k /\ k_ver k' = k_ver k
  /\ r_WrappedDEK (kr_row k') = r_WrappedDEK (kr_row k) /\ r_WrapKeyID (kr_row k') = r_WrapKeyID (kr_row k)
  /\ r_Participants (kr_row k) ⊆ r_Participants (kr_row k').

(** A later version of the key in its context. *)
Definition newer (db : DB) (k : key_rec) : Prop :=
  exists id' k', db_keys db !! id' = Some k' /\ k_ctx k' = k_ctx k /\ k_ver k < k_ver k'.

(** A key that is not destroyed and is not to be destroyed by its own rotation. *)
Definition steady `{fate : Fate} (k : key_rec) : Prop :=
  ~ destroyed k /\ (kr_rekeyed k = false -> ~ withdrawn (k_ctx k) (k_ver k)).

(** No event that arrived in time is under the key. *)
Definition unreferenced `{fate : Fate} (db : DB) (o : Z) : Prop :=
  forall id r, db_audit db !! id = Some r -> ~ late id -> au_dek_ref r <> Some o.

Definition ok {A} (r : result A) : option A := match r with Ok a => Some a | Err _ => None end.

(** No event at all is under the key. *)
Definition emptied (db : DB) (o : Z) : Prop :=
  forall id r, db_audit db !! id = Some r -> au_dek_ref r <> Some o.

Section Inv.
Context `{fate : Fate} (L : CryptoLib) (ulid : string -> string).

(** The key material a row holds, wrapped. *)
Definition secret (k : key_rec) : option string := kek_unwrap L (r_WrappedDEK (kr_row k)) (r_WrapKeyID (kr_row k)).

(** ** Reading an archived event

    The row's key is looked up undestroyed under the row's version, and the
    payload is decoded with the metadata the envelope gives. *)
Definition open_row (keys : gmap Z key_rec) (r : audit_rec) : option Event :=
  o ← au_dek_ref r;
  v ← au_dek_version r;
  k ← keys !! o;
  if negb (k_ver k =? v) || bool_decide (destroyed k) then None
  else
    m ← secret k;
    e ← ok (unmarshalEvent L (au_envelope r));
    c ← ok (codec_Resolve (au_codec r));
    aad ← ok (Build L e (au_codec r) o v);
    p ← ok (Decode L c (ev_Payload e) (mkKey o v m) aad);
    Some (set_payload e p).

Definition open_event (db : DB) (id : string) : option Event :=
  r ← db_audit db !! id; open_row (db_keys db) r.

(** ** The invariant *)

(** Why a key may be destroyed: its rotation is withdrawn, or a rekey that started
    from it has minted its successor. *)
Definition doomed (s : St) (id : Z) (k : key_rec) : Prop :=
  kr_rekeyed k = false /\ withdrawn (k_ctx k) (k_ver k)
  \/ exists rid c, db_ckpts (st_db s) !! rid = Some c /\ ck_OldDEKID c = id /\ is_Some (ck_NewDEKID c).

Record key_ok (s : St) (id : Z) (k : key_rec) : Prop := mkKeyOk {
  ko_id : r_ID (kr_row k) = id;
  ko_seq : 0 < id <= db_key_seq (st_db s);
  ko_ver : 1 <= k_ver k <= int4_max;
  ko_secret : exists m, secret k = Some m /\ String.length m = DEKByteLength;
  ko_destroyed : destroyed k -> doomed s id k
}.

Record row_ok (s : St) (id : string) (r : audit_rec) : Prop := mkRowOk {
  rw_id : String.ltb (cursor_bound None) id = true;
  rw_ref : ~ late id -> forall o, au_dek_ref r = Some o -> exists k, db_keys (st_db s) !! o = Some k /\ steady k
}.

Abbreviation rank c := (phase_rank (ck_Status c)).

Record ckpt_ok (s : St) (rid : string) (c : Checkpoint) : Prop := mkCkptOk {
  cp_id : ck_RequestID c = rid;
  cp_known : status_known c = true;
  cp_keys : exists k, db_keys (st_db s) !! ck_OldDEKID c = Some k /\ k_ctx k = ck_ctx c
    /\ forall n, ck_NewDEKID c = Some n ->
         exists k', db_keys (st_db s) !! n = Some k' /\ k_ctx k' = ck_ctx c /\ k_ver k' = k_ver k + 1
           /\ kr_rekeyed k' = true;
  cp_early : (rank c < 2)%nat -> ck_NewDEKID c = None;
  cp_late : (2 <= rank c <= 8)%nat -> is_Some (ck_NewDEKID c);
  cp_cursor : forall id r, db_audit (st_db s) !! id = Some r -> ~ late id -> au_dek_ref r = Some (ck_OldDEKID c) ->
    String.ltb (cursor_bound (ck_lastProcessedEventID c)) id = true;
  cp_cursor_new : ck_NewDEKID c = None -> ck_lastProcessedEventID c = None;
  cp_clean : (5 <= rank c <= 8)%nat -> unreferenced (st_db s) (ck_OldDEKID c);
  cp_gone : (6 <= rank c <= 8)%nat ->
    ck_ForceDestroy c = true \/ exists k, db_keys (st_db s) !! ck_OldDEKID c = Some k /\ destroyed k;
  cp_done : ck_Status c = CheckpointStatusComplete -> exists p, p ∈ st_emitted s /\ ra_RequestID p = ulid rid
}.

(** A cached key is the one its row holds. *)
Definition material (db : DB) (id version : Z) (m : string) : Prop :=
  exists k, db_keys db !! id = Some k /\ k_ver k = version /\ secret k = Some m.

Definition cache_sound (db : DB) (c : KeyCache) : Prop :=
  DekCacheFacts.ok c
  /\ forall en, en ∈ view c -> material db (kk_KeyID (ce_key en)) (kk_Version (ce_key en)) (ce_value en).

(** Cached participants are participants of the row; later ones may be missing. *)
Definition enrolled (db : DB) (x : ContextID) (version : Z) (ps : list Participant) : Prop :=
  exists id k, db_keys db !! id = Some k /\ k_ctx k = x /\ k_ver k = version /\ ps ⊆ r_Participants (kr_row k).

Definition parts_sound (db : DB) (c : PartCache) : Prop :=
  DekCacheFacts.ok c
  /\ forall en, en ∈ view c -> ce_contextID en = pk_ctx (ce_key en)
       /\ enrolled db (pk_ctx (ce_key en)) (pk_Version (ce_key en)) (ce_value en).

Record inv (s : St) : Prop := mkInv {
  i_seq : 0 <= db_key_seq (st_db s) <= 2 ^ 63 - 1;
  i_keys : forall id k, db_keys (st_db s) !! id = Some k -> key_ok s id k;
  i_uniq : forall id id' k k', db_keys (st_db s) !! id = Some k -> db_keys (st_db s) !! id' = Some k' ->
    k_ctx k = k_ctx k' -> k_ver k = k_ver k' -> id = id';
  i_ckpts : forall rid c, db_ckpts (st_db s) !! rid = Some c -> ckpt_ok s rid c;
  i_live : forall rid rid' c c', db_ckpts (st_db s) !! rid = Some c -> db_ckpts (st_db s) !! rid' = Some c' ->
    live c = true -> live c' = true -> ck_ctx c = ck_ctx c' -> rid = rid';
  i_chain : forall rid rid' c c', db_ckpts (st_db s) !! rid = Some c -> db_ckpts (st_db s) !! rid' = Some c' ->
    ck_NewDEKID c = Some (ck_OldDEKID c') -> live c = false;
  i_rows : forall id r, db_audit (st_db s) !! id = Some r -> row_ok s id r;
  i_caches : forall srv c, st_keys s !! srv = Some c -> cache_sound (st_db s) c;
  i_parts : forall srv c, st_parts s !! srv = Some c -> parts_sound (st_db s) c
}.

(** ** What a step may change *)
Definition keys_grow (db db' : DB) : Prop :=
  forall id k, db_keys db !! id = Some k ->
    exists k', db_keys db' !! id = Some k' /\ same_key k k' /\ (destroyed k -> destroyed k').

Definition ckpt_grows (c c' : Checkpoint) : Prop :=
  moves (ck_Status c) (ck_Status c') /\ ck_ctx c' = ck_ctx c /\ ck_OldDEKID c' = ck_OldDEKID c
  /\ ck_PrimaryPlayerID c' = ck_PrimaryPlayerID c /\ ck_opArgsHash c' = ck_opArgsHash c
  /\ (forall n, ck_NewDEKID c = Some n -> ck_NewDEKID c' = Some n)
  /\ (ck_ForceDestroy c = true -> ck_ForceDestroy c' = true).

Record grows (s s' : St) : Prop := mkGrows {
  g_keys : keys_grow (st_db s) (st_db s');
  g_ckpts : forall rid c, db_ckpts (st_db s) !! rid = Some c ->
    exists c', db_ckpts (st_db s') !! rid = Some c' /\ ckpt_grows c c';
  g_open : forall rid c c', db_ckpts (st_db s) !! rid = Some c -> db_ckpts (st_db s') !! rid = Some c' ->
    live c' = true -> forall rid2 c2, db_ckpts (st_db s') !! rid2 = Some c2 -> ck_ctx c2 = ck_ctx c ->
    is_Some (db_ckpts (st_db s) !! rid2);
  g_refs : forall rid c, db_ckpts (st_db s) !! rid = Some c -> is_Some (ck_NewDEKID c) ->
    forall id r', db_audit (st_db s') !! id = Some r' -> ~ late id -> au_dek_ref r' = Some (ck_OldDEKID c) ->
    exists r, db_audit (st_db s) !! id = Some r /\ au_dek_ref r = Some (ck_OldDEKID c);
  g_rows : forall id r, db_audit (st_db s) !! id = Some r ->
    exists r', db_audit (st_db s') !! id = Some r' /\ au_codec r' = au_codec r /\ (au_dek_ref r = None -> r' = r)
      /\ (is_Some (au_dek_ref r) -> is_Some (au_dek_ref r'));
  g_events : forall id e, ~ late id -> open_event (st_db s) id = Some e -> open_event (st_db s') id = Some e;
  g_emitted : forall p, p ∈ st_emitted s -> p ∈ st_emitted s'
}.

Lemma same_key_refl k : same_key k k.
Proof. by repeat split. Qed.

Lemma same_key_trans k1 k2 k3 : same_key k1 k2 -> same_key k2 k3 -> same_key k1 k3.
Proof.
  intros ([I1 B1] & ? & ? & ? & ? & H) ([I2 B2] & ? & ? & ? & ? & H'). split; [split; congruence|]. do 4 (split; [congruence|]).
  intros p Hp. by apply H', H.
Qed.

Lemma keys_grow_refl db : keys_grow db db.
Proof. intros id k Hk. exists k. split; [done|]. split; [apply same_key_refl|done]. Qed.

Lemma keys_grow_trans db1 db2 db3 : keys_grow db1 db2 -> keys_grow db2 db3 -> keys_grow db1 db3.
Proof.
  intros H1 H2 id k Hk. destruct (H1 _ _ Hk) as (k' & Hk' & Hs & Hd). destruct (H2 _ _ Hk') as (k'' & Hk'' & Hs' & Hd').
  exists k''. split; [done|]. split; [by eapply same_key_trans|auto].
Qed.

Lemma ckpt_grows_refl c : ckpt_grows c c.
Proof. repeat split; done. Qed.

Lemma ckpt_grows_trans c1 c2 c3 : ckpt_grows c1 c2 -> ckpt_grows c2 c3 -> ckpt_grows c1 c3.
Proof.
  intros (M & C & O & P & A & N & F) (M' & C' & O' & P' & A' & N' & F').
  repeat split; try congruence; auto. by etransitivity.
Qed.

Lemma live_back c c' : ckpt_grows c c' -> live c' = true -> live c = true.
Proof.
  intros [Hm _] Hl. unfold live in *. apply negb_true_iff in Hl. apply negb_true_iff.
  apply not_true_iff_false. intros Ht. rewrite (moves_terminal _ _ Ht Hm) in Hl. congruence.
Qed.

#[local] Instance grows_preorder : PreOrder grows.
Proof.
  split.
  - intros s. constructor; eauto using keys_grow_refl, ckpt_grows_refl.
  - intros s1 s2 s3 [K C O F W E M] [K' C' O' F' W' E' M']. constructor; auto.
    + by eapply keys_grow_trans.
    + intros rid c Hc. destruct (C _ _ Hc) as (c' & Hc' & G). destruct (C' _ _ Hc') as (c'' & Hc'' & G').
      exists c''. split; [done|]. by eapply ckpt_grows_trans.
    + intros rid c c'' Hc Hc'' Hl rid2 c2 Hc2 Hx. destruct (C _ _ Hc) as (c' & Hc' & G).
      destruct (C' _ _ Hc') as (c3 & Hc3 & G'). assert (c3 = c'') as -> by congruence.
      assert (Hx' : ck_ctx c2 = ck_ctx c') by (destruct G as (_ & -> & _); exact Hx).
      destruct (O' _ _ _ Hc' Hc'' Hl _ _ Hc2 Hx') as [c2' Hc2'].
      destruct (C' _ _ Hc2') as (c4 & Hc4 & (_ & Hcx & _)). assert (c4 = c2) as -> by congruence.
      apply (O _ _ _ Hc Hc' (live_back _ _ G' Hl) _ _ Hc2'). congruence.
    + intros rid c Hc Hn id r'' Hr'' Hlate Href. destruct (C _ _ Hc) as (c' & Hc' & (_ & _ & Ho & _ & _ & N & _)).
      rewrite <- Ho in Href. destruct Hn as [n Hn].
      destruct (F' _ _ Hc' (mk_is_Some _ _ (N _ Hn)) _ _ Hr'' Hlate Href) as (r' & Hr' & Href').
      rewrite Ho in Href'. by apply (F _ _ Hc (mk_is_Some _ _ Hn) _ _ Hr' Hlate).
    + intros id r Hr. destruct (W _ _ Hr) as (r' & Hr' & E1 & N1 & S1). destruct (W' _ _ Hr') as (r'' & Hr'' & E2 & N2 & S2).
      exists r''. split; [done|]. split; [congruence|]. split; [|auto]. intros Hn. rewrite (N1 Hn) in N2. auto.
Qed.

(** ** Monotonicity *)
Lemma steady_same k k' : same_key k k' -> ~ destroyed k' -> steady k -> steady k'.
Proof. intros ((_ & Hr) & Hx & Hv & _) Hd [_ Hw]. split; [done|]. by rewrite Hr, Hx, Hv. Qed.

Lemma same_key_secret k k' : same_key k k' -> secret k' = secret k.
Proof. intros (_ & _ & _ & Hw & Hi & _). unfold secret. by rewrite Hw, Hi. Qed.

Lemma newer_grow db db' k k' : keys_grow db db' -> same_key k k' -> newer db k -> newer db' k'.
Proof.
  intros Hg (_ & Hc & Hv & _) (id1 & k1 & Hk1 & Hc1 & Hv1). destruct (Hg _ _ Hk1) as (k2 & Hk2 & (_ & Hc2 & Hv2 & _) & _).
  exists id1, k2. split; [done|]. rewrite Hc2, Hv2, Hc, Hv. done.
Qed.

Lemma material_grow db db' id v m : keys_grow db db' -> material db id v m -> material db' id v m.
Proof.
  intros Hg (k & Hk & Hv & Hs). destruct (Hg _ _ Hk) as (k' & Hk' & Hsk & _). exists k'.
  rewrite (same_key_secret _ _ Hsk). destruct Hsk as (_ & _ & Hvv & _). by rewrite Hvv.
Qed.

Lemma cache_sound_grow db db' c : keys_grow db db' -> cache_sound db c -> cache_sound db' c.
Proof. intros Hg [Hok Hm]. split; [done|]. intros en Hen. by eapply material_grow; [|apply Hm]. Qed.

Lemma enrolled_grow db db' x v ps : keys_grow db db' -> enrolled db x v ps -> enrolled db' x v ps.
Proof.
  intros Hg (id & k & Hk & Hx & Hv & Hp). destruct (Hg _ _ Hk) as (k' & Hk' & (_ & Hx' & Hv' & _ & _ & Hp') & _).
  exists id, k'. split; [done|]. split; [congruence|]. split; [congruence|]. by transitivity (r_Participants (kr_row k)).
Qed.

Lemma parts_sound_grow db db' c : keys_grow db db' -> parts_sound db c -> parts_sound db' c.
Proof.
  intros Hg [Hok Hm]. split; [done|]. intros en Hen. destruct (Hm _ Hen). split; [done|]. by eapply enrolled_grow.
Qed.

Lemma open_row_Some keys r e :
  open_row keys r = Some e <->
  exists o v k m ev c aad p,
    au_dek_ref r = Some o /\ au_dek_version r = Some v /\ keys !! o = Some k /\ k_ver k = v /\ ~ destroyed k
    /\ secret k = Some m /\ unmarshalEvent L (au_envelope r) = Ok ev /\ codec_Resolve (au_codec r) = Ok c
    /\ Build L ev (au_codec r) o v = Ok aad /\ Decode L c (ev_Payload ev) (mkKey o v m) aad = Ok p
    /\ e = set_payload ev p.
Proof.
  unfold open_row. split.
  - intros H. destruct (au_dek_ref r) as [o|]; [|done]. destruct (au_dek_version r) as [v|]; [|done]. cbn in H.
    destruct (keys !! o) as [k|] eqn:Hk; [|done]. cbn in H.
    destruct (negb (k_ver k =? v) || _) eqn:Hb; [done|]. apply orb_false_iff in Hb as [Hv Hd].
    apply negb_false_iff, Z.eqb_eq in Hv. apply bool_decide_eq_false in Hd.
    destruct (secret k) as [m|] eqn:Hm; [|done]. cbn in H.
    destruct (unmarshalEvent L (au_envelope r)) as [ev|]; [|done]. cbn in H.
    destruct (codec_Resolve (au_codec r)) as [c|]; [|done]. cbn in H.
    destruct (Build L ev (au_codec r) o v) as [aad|] eqn:Ha; [|done]. cbn in H.
    destruct (Decode L c (ev_Payload ev) _ aad) as [p|] eqn:Hp; [|done]. cbn in H. injection H as <-.
    exists o, v, k, m, ev, c, aad, p. done.
  - intros (o & v & k & m & ev & c & aad & p & -> & -> & Hk & Hv & Hd & Hm & He & Hc & Ha & Hp & ->). cbn.
    rewrite Hk. cbn. rewrite Hv, Z.eqb_refl, bool_decide_eq_false_2 by done. cbn.
    rewrite Hm. cbn. rewrite He. cbn. rewrite Hc. cbn. rewrite Ha. cbn. by rewrite Hp.
Qed.

(** A readable row stays readable while its key keeps its columns and is not
    destroyed. *)
Lemma open_row_grow keys keys' r e :
  (forall o k, au_dek_ref r = Some o -> keys !! o = Some k -> ~ destroyed k ->
     exists k', keys' !! o = Some k' /\ same_key k k' /\ ~ destroyed k') ->
  open_row keys r = Some e -> open_row keys' r = Some e.
Proof.
  rewrite !open_row_Some. intros Hg (o & v & k & m & ev & c & aad & p & Ho & Hv & Hk & Hkv & Hd & Hm & Hrest).
  destruct (Hg _ _ Ho Hk Hd) as (k' & Hk' & Hsk & Hd'). exists o, v, k', m, ev, c, aad, p.
  rewrite (same_key_secret _ _ Hsk). destruct Hsk as (_ & _ & -> & _). done.
Qed.
End Inv.
#[export] Existing Instance grows_preorder.
