(* ===== verification/DekInvOps.v ===== *)
(** The elementary changes of the DEK subsystem's state keep its invariant:
    changes of key rows, insertions of keys, updates and insertions of
    checkpoints, re-encryption of rows, arrival of rows, cache operations. *)

From S2P Require Import Prelude GoStrings Sql Programs DekTypes EventCrypto DekCache DekCacheFacts DekStore DekManager Rekey DekInv.

Open Scope string_scope.
Open Scope Z_scope.

Definition with_db (s : St) (db' : DB) : St := mkSt db' (st_keys s) (st_parts s) (st_emitted s).

Lemma with_db_self s : with_db s (st_db s) = s.
Proof. by destruct s. Qed.

Section Ops.
Context `{fate : Fate} (L : CryptoLib) (ulid : string -> string).
Local Abbreviation inv := (inv L ulid).
Local Abbreviation grows := (grows L).
Local Abbreviation keeps := (keeps inv grows).

Lemma refl_keeps s : inv s -> keeps s s.
Proof. apply (rg_keeps_refl inv grows). Qed.

Lemma trans_keeps s1 s2 s3 : keeps s1 s2 -> keeps s2 s3 -> keeps s1 s3.
Proof. apply (rg_keeps_trans inv grows). Qed.

Lemma key_ok_mono s s' id k k' :
  key_ok L s id k -> keys_grow (st_db s) (st_db s') -> db_key_seq (st_db s) <= db_key_seq (st_db s') ->
  (forall rid c, db_ckpts (st_db s) !! rid = Some c ->
     exists c', db_ckpts (st_db s') !! rid = Some c' /\ ck_OldDEKID c' = ck_OldDEKID c
       /\ (is_Some (ck_NewDEKID c) -> is_Some (ck_NewDEKID c'))) ->
  same_key k k' ->
  (destroyed k' -> destroyed k \/ doomed s id k) ->
  key_ok L s' id k'.
Proof.
  intros [Hid Hseq Hver Hsec Hdes] Hg Hsq Hck Hsk Hd. pose proof Hsk as ([Hi Hb] & Hx & Hv & _).
  constructor.
  - congruence.
  - lia.
  - by rewrite Hv.
  - destruct Hsec as (m & Hm & Hl). exists m. by rewrite (same_key_secret _ _ _ Hsk).
  - intros Ho. assert (Hex : doomed s id k) by (destruct (Hd Ho); auto).
    destruct Hex as [Hw|(rid & c & Hc & Ho' & Hn)]; [left; by rewrite Hb, Hx, Hv|right]. destruct (Hck _ _ Hc) as (c' & Hc' & Hoo & Hnn).
    exists rid, c'. split; [done|]. split; [congruence|auto].
Qed.

Lemma ckpt_ok_mono s s' rid c :
  ckpt_ok ulid s rid c -> keys_grow (st_db s) (st_db s') ->
  (forall id r', db_audit (st_db s') !! id = Some r' -> ~ late id -> au_dek_ref r' = Some (ck_OldDEKID c) ->
     (exists r, db_audit (st_db s) !! id = Some r /\ au_dek_ref r = Some (ck_OldDEKID c))
     \/ ck_NewDEKID c = None /\ String.ltb (cursor_bound None) id = true) ->
  (forall p, p ∈ st_emitted s -> p ∈ st_emitted s') ->
  ckpt_ok ulid s' rid c.
Proof.
  intros [Hid Hkn Hkeys He Hl Hcur Hcn Hcl Hgo Hdo] Hg Href Hem. constructor; auto.
  - destruct Hkeys as (k & Hk & Hx & Hn). destruct (Hg _ _ Hk) as (k2 & Hk2 & (_ & Hc2 & Hv2 & _) & _).
    exists k2. split; [done|]. split; [congruence|]. intros n Hnn. destruct (Hn _ Hnn) as (k' & Hk' & Hx' & Hv' & Hb').
    destruct (Hg _ _ Hk') as (k3 & Hk3 & ((_ & Hb3) & Hc3 & Hv3 & _) & _). exists k3.
    split; [done|]. split; [congruence|]. split; [lia|congruence].
  - intros id r' Hr' Hlate Hrf. destruct (Href _ _ Hr' Hlate Hrf) as [(r & Hr & Hro)|[Hnn Hlt]]; [by eapply Hcur|].
    by rewrite Hcn.
  - intros Hr id r' Hr' Hlate Hrf. destruct (Href _ _ Hr' Hlate Hrf) as [(r & Hr1 & Hro)|[Hnn _]].
    + exact (Hcl Hr _ _ Hr1 Hlate Hro).
    + destruct (Hl ltac:(lia)). congruence.
  - intros Hr. destruct (Hgo Hr) as [?|(k & Hk & Hd)]; [by left|right].
    destruct (Hg _ _ Hk) as (k' & Hk' & _ & Hdd). eauto.
  - intros Hs. destruct (Hdo Hs) as (p & Hp & Hrid). eauto.
Qed.

(** ** Key rows *)
Definition key_step (s : St) (id : Z) (k k' : key_rec) : Prop :=
  same_key k k' /\ (destroyed k -> destroyed k')
  /\ (destroyed k' -> destroyed k \/ unreferenced (st_db s) id /\ doomed s id k).

Lemma key_step_refl s id k : key_step s id k k.
Proof. repeat split; auto. Qed.

Lemma successor_newer s rid c k : inv s -> db_ckpts (st_db s) !! rid = Some c -> is_Some (ck_NewDEKID c) ->
  db_keys (st_db s) !! ck_OldDEKID c = Some k -> newer (st_db s) k.
Proof.
  intros HI Hc [n Hn] Hk. destruct (cp_keys _ _ _ _ (i_ckpts _ _ _ HI _ _ Hc)) as (k0 & Hk0 & Hx & Hs). simplify_eq.
  destruct (Hs _ Hn) as (k' & Hk' & Hx' & Hv' & _). exists n, k'. split; [done|]. split; [congruence|lia].
Qed.

Lemma keys_keep s keys' seq' :
  inv s -> db_key_seq (st_db s) <= seq' <= 2 ^ 63 - 1 ->
  let s' := with_db s (mkDB keys' seq' (db_ckpts (st_db s)) (db_audit (st_db s))) in
  keys_grow (st_db s) (st_db s') ->
  (forall id k, keys' !! id = Some k -> key_ok L s' id k) ->
  (forall id id' k k', keys' !! id = Some k -> keys' !! id' = Some k' -> k_ctx k = k_ctx k' -> k_ver k = k_ver k' -> id = id') ->
  (forall o k k', db_keys (st_db s) !! o = Some k -> keys' !! o = Some k' -> ~ destroyed k ->
     destroyed k' -> unreferenced (st_db s) o) ->
  keeps s s'.
Proof.
  intros HI Hseq s' Hg Hok Hun Hde.
  assert (Hrow : forall id r o k, db_audit (st_db s) !! id = Some r -> ~ late id -> au_dek_ref r = Some o ->
            db_keys (st_db s) !! o = Some k -> ~ destroyed k ->
            exists k', keys' !! o = Some k' /\ same_key k k' /\ ~ destroyed k').
  { intros id r o k Hr Hlate Ho Hk Hd. destruct (Hg _ _ Hk) as (k' & Hk' & Hsk & _). exists k'. split; [done|]. split; [done|].
    intros Hd'. exact (Hde _ _ _ Hk Hk' Hd Hd' _ _ Hr Hlate Ho). }
  split.
  - constructor; cbn; auto.
    + pose proof (i_seq _ _ _ HI). lia.
    + intros rid c Hc. apply (ckpt_ok_mono s); eauto using i_ckpts.
    + exact (i_live _ _ _ HI).
    + exact (i_chain _ _ _ HI).
    + intros id r Hr. destruct (i_rows _ _ _ HI _ _ Hr) as [Hid Hrf]. constructor; [done|].
      intros Hlate o Ho. destruct (Hrf Hlate _ Ho) as (k & Hk & Hst).
      destruct (Hrow _ _ _ _ Hr Hlate Ho Hk (proj1 Hst)) as (k' & Hk' & Hsk & Hnd). exists k'. split; [done|].
      by apply (steady_same k).
    + intros srv c Hc. eapply cache_sound_grow; [exact Hg|]. by apply (i_caches _ _ _ HI srv).
    + intros srv c Hc. eapply parts_sound_grow; [exact Hg|]. by apply (i_parts _ _ _ HI srv).
  - constructor; cbn; eauto using ckpt_grows_refl.
    intros id e Hlate. unfold open_event. cbn. intros He.
    destruct (db_audit (st_db s) !! id) as [r|] eqn:Hr; [|done]. cbn in *.
    eapply open_row_grow; [|exact He]. eauto.
Qed.

Lemma key_steps_keep s keys' :
  inv s -> (forall id, option_Forall2 (key_step s id) (db_keys (st_db s) !! id) (keys' !! id)) ->
  keeps s (with_db s (set_keys (st_db s) keys')).
Proof.
  intros HI Hst.
  assert (Hg : keys_grow (st_db s) (set_keys (st_db s) keys')).
  { intros id k Hk. specialize (Hst id). rewrite Hk in Hst. inversion Hst as [k0 k' Hks E1 E2|]; subst.
    exists k'. destruct Hks as (? & ? & _). done. }
  assert (Hb : forall id k', keys' !! id = Some k' -> exists k, db_keys (st_db s) !! id = Some k /\ key_step s id k k').
  { intros id k' Hk'. specialize (Hst id). rewrite Hk' in Hst. inversion Hst as [k k0 Hks E1 E2|]; subst. eauto. }
  apply keys_keep; [done|pose proof (i_seq _ _ _ HI); lia|done|..].
  - intros id k' Hk'. destruct (Hb _ _ Hk') as (k & Hk & Hsk & _ & Hd).
    apply (key_ok_mono s _ id k); [by apply (i_keys _ _ _ HI)|done|reflexivity|eauto|done|].
    intros [?|[_ ?]]%Hd; auto.
  - intros id id' k k' Hk Hk' Hx Hv. destruct (Hb _ _ Hk) as (k1 & Hk1 & (_ & Hx1 & Hv1 & _) & _).
    destruct (Hb _ _ Hk') as (k2 & Hk2 & (_ & Hx2 & Hv2 & _) & _).
    apply (i_uniq _ _ _ HI id id' k1 k2 Hk1 Hk2); congruence.
  - intros o k k' Hk Hk' Hnd Hd. destruct (Hb _ _ Hk') as (k0 & Hk0 & _ & _ & Hdd). simplify_eq.
    destruct (Hdd Hd) as [?|[? _]]; done.
Qed.

Lemma put_key_keep s id k k' :
  inv s -> db_keys (st_db s) !! id = Some k -> key_step s id k k' ->
  keeps s (with_db s (set_keys (st_db s) (<[id := k']> (db_keys (st_db s))))).
Proof.
  intros HI Hk Hst. apply key_steps_keep; [done|]. intros i. destruct (decide (i = id)) as [->|Hne].
  - rewrite lookup_insert_eq, Hk. by constructor.
  - rewrite lookup_insert_ne by done. destruct (db_keys (st_db s) !! i); constructor. apply key_step_refl.
Qed.

(** A key row with an identifier of the sequence and a version its context does not
    have. *)
Lemma insert_key_keep s k :
  inv s -> let id := db_key_seq (st_db s) + 1 in
  id <= 2 ^ 63 - 1 -> r_ID (kr_row k) = id -> 1 <= k_ver k <= int4_max ->
  (exists m, secret L k = Some m /\ String.length m = DEKByteLength) ->
  kr_destroyed_at k = None ->
  version_taken (k_ctx k) (k_ver k) (st_db s) = false ->
  keeps s (with_db s (set_keys (set_key_seq (st_db s) id) (<[id := k]> (db_keys (st_db s))))).
Proof.
  intros HI id Hmax Hid Hver Hsec Hnd Hvt.
  assert (Hfresh : db_keys (st_db s) !! id = None).
  { destruct (db_keys (st_db s) !! id) as [k0|] eqn:E; [|done]. pose proof (ko_seq _ _ _ _ (i_keys _ _ _ HI _ _ E)). lia. }
  assert (Hg : keys_grow (st_db s) (set_keys (set_key_seq (st_db s) id) (<[id := k]> (db_keys (st_db s))))).
  { intros i k0 Hk0. exists k0. cbn. rewrite lookup_insert_ne by congruence. split; [done|]. by split; [apply same_key_refl|]. }
  assert (Hvt' : forall i k0, db_keys (st_db s) !! i = Some k0 -> k_ctx k0 = k_ctx k -> k_ver k0 = k_ver k -> False).
  { intros i k0 Hk0 Hx Hv. apply not_true_iff_false in Hvt. apply Hvt. unfold version_taken. apply existsb_exists.
    exists (i, k0). split; [by apply list_elem_of_In, elem_of_map_to_list|]. apply andb_true_iff. split.
    - by apply bool_decide_eq_true.
    - by apply Z.eqb_eq. }
  apply (keys_keep s (<[id := k]> (db_keys (st_db s))) id); [done|unfold id; lia|done|..].
  - intros i k0. cbn. destruct (decide (i = id)) as [->|Hne].
    + rewrite lookup_insert_eq. intros [= <-]. pose proof (i_seq _ _ _ HI). constructor; cbn; try done.
      * unfold id. lia.
      * intros [? ?]. congruence.
    + rewrite lookup_insert_ne by done. intros Hk0. apply (key_ok_mono s _ i k0); cbn; eauto using same_key_refl, i_keys.
      unfold id. lia.
  - intros i i' k1 k2. cbn. destruct (decide (i = id)) as [->|H1]; destruct (decide (i' = id)) as [->|H2];
      rewrite ?lookup_insert_eq, ?lookup_insert_ne by done; [done|intros [= <-]|intros ? [= <-]|eauto using i_uniq].
    + intros Hk2 Hx Hv. destruct (Hvt' _ _ Hk2); congruence.
    + intros Hx Hv. edestruct Hvt'; eauto.
  - intros o k1 k2 Hk1. cbn. rewrite lookup_insert_ne by congruence. intros Hk2 Hn Hd. simplify_eq. done.
Qed.

Lemma seq_keep s : inv s -> db_key_seq (st_db s) + 1 <= 2 ^ 63 - 1 -> keeps s (with_db s (set_key_seq (st_db s) (db_key_seq (st_db s) + 1))).
Proof.
  intros HI Hmax. apply (keys_keep s (db_keys (st_db s)) (db_key_seq (st_db s) + 1)); [done|lia| |..].
  - exact (keys_grow_refl (st_db s)).
  - intros id k Hk. apply (key_ok_mono s _ id k); cbn; eauto using same_key_refl, i_keys, keys_grow_refl; [|lia].
    exact (keys_grow_refl (st_db s)).
  - exact (i_uniq _ _ _ HI).
  - intros o k k' Hk Hk' Hn Hd. simplify_eq. done.
Qed.

(** ** Checkpoints *)
Lemma ckpt_put_keep s rid c c' :
  inv s -> db_ckpts (st_db s) !! rid = Some c ->
  let s' := with_db s (set_ckpts (st_db s) (<[rid := c']> (db_ckpts (st_db s)))) in
  ckpt_grows c c' -> ckpt_ok ulid s rid c' ->
  (forall n, ck_NewDEKID c' = Some n -> ck_NewDEKID c = Some n
     \/ forall rid2 c2, db_ckpts (st_db s) !! rid2 = Some c2 -> ck_OldDEKID c2 <> n) ->
  keeps s s'.
Proof.
  intros HI Hc s' Hg Hok Hnew. pose proof Hg as (Hm & Hx & Ho & _ & _ & Hn & _).
  assert (Hb : forall r2 c2', db_ckpts (st_db s') !! r2 = Some c2' ->
            exists c2, db_ckpts (st_db s) !! r2 = Some c2 /\ ckpt_grows c2 c2' /\ (r2 = rid \/ c2' = c2)).
  { intros r2 c2' H2. cbn in H2. destruct (decide (r2 = rid)) as [->|Hne].
    - rewrite lookup_insert_eq in H2. simplify_eq. eauto.
    - rewrite lookup_insert_ne in H2 by done. eauto using ckpt_grows_refl. }
  assert (Hf : forall r2 c2, db_ckpts (st_db s) !! r2 = Some c2 ->
            exists c2', db_ckpts (st_db s') !! r2 = Some c2' /\ ckpt_grows c2 c2').
  { intros r2 c2 H2. cbn. destruct (decide (r2 = rid)) as [->|Hne].
    - rewrite lookup_insert_eq. simplify_eq. eauto.
    - rewrite lookup_insert_ne by done. eauto using ckpt_grows_refl. }
  split.
  - constructor; cbn.
    + exact (i_seq _ _ _ HI).
    + intros id k Hk. apply (key_ok_mono s s' id k k);
        [by apply (i_keys _ _ _ HI)|exact (keys_grow_refl (st_db s))|reflexivity| |apply same_key_refl|auto..].
      intros r2 c2 H2. destruct (Hf _ _ H2) as (c2' & H2' & (_ & _ & Ho2 & _ & _ & Hn2 & _)).
      exists c2'. split; [done|]. split; [done|]. intros [n Hnn]. exists n. auto.
    + exact (i_uniq _ _ _ HI).
    + intros r2 c2 H2. apply (ckpt_ok_mono s s'); [|exact (keys_grow_refl (st_db s))|eauto|done].
      destruct (decide (r2 = rid)) as [->|Hne].
      * rewrite lookup_insert_eq in H2. by simplify_eq.
      * rewrite lookup_insert_ne in H2 by done. by apply (i_ckpts _ _ _ HI).
    + intros r1 r2 c1' c2' H1 H2 Hl1 Hl2 Hxx. destruct (Hb _ _ H1) as (c1 & Hc1 & G1 & _).
      destruct (Hb _ _ H2) as (c2 & Hc2 & G2 & _).
      apply (i_live _ _ _ HI r1 r2 c1 c2 Hc1 Hc2); eauto using live_back.
      destruct G1 as (_ & Hx1 & _), G2 as (_ & Hx2 & _). congruence.
    + intros r1 r2 c1' c2' H1 H2 Hch. destruct (Hb _ _ H1) as (c1 & Hc1 & G1 & _).
      destruct (Hb _ _ H2) as (c2 & Hc2 & (_ & _ & Ho2 & _) & _). rewrite Ho2 in Hch.
      apply not_true_iff_false. intros Hl.
      destruct (decide (r1 = rid)) as [->|Hne].
      * cbn in H1. rewrite lookup_insert_eq in H1. injection H1 as <-. assert (c1 = c) as -> by congruence.
        destruct (Hnew _ Hch) as [Hch'|Hno]; [|by destruct (Hno _ _ Hc2)].
        pose proof (i_chain _ _ _ HI _ _ _ _ Hc1 Hc2 Hch'). pose proof (live_back _ _ G1 Hl). congruence.
      * cbn in H1. rewrite lookup_insert_ne in H1 by done. assert (c1' = c1) as -> by congruence.
        rewrite (i_chain _ _ _ HI _ _ _ _ Hc1 Hc2 Hch) in Hl. done.
    + intros id r Hr. destruct (i_rows _ _ _ HI _ _ Hr). by constructor.
    + exact (i_caches _ _ _ HI).
    + exact (i_parts _ _ _ HI).
  - constructor; cbn; auto using keys_grow_refl; eauto.
    + exact (keys_grow_refl (st_db s)).
    + intros r1 c1 c1' Hc1 Hc1' _ r2 c2 H2 _. destruct (Hb _ _ H2) as (c2' & ? & _). by eexists.
Qed.

Lemma other_live_false rid x db : other_live rid x db = false ->
  forall rid2 c2, db_ckpts db !! rid2 = Some c2 -> ck_ctx c2 = x -> live c2 = true -> rid2 = rid.
Proof.
  intros Hol rid2 c2 H2 Hx Hl. destruct (decide (rid2 = rid)) as [|Hne]; [done|]. exfalso.
  apply not_true_iff_false in Hol. apply Hol. apply existsb_exists. exists (rid2, c2).
  split; [by apply list_elem_of_In, elem_of_map_to_list|]. cbn.
  rewrite bool_decide_eq_true_2 by done. rewrite Hl. cbn. apply negb_true_iff. by apply String.eqb_neq.
Qed.

(** A fresh checkpoint, in a context without a live one. *)
Lemma ckpt_open_keep s rid c :
  inv s -> db_ckpts (st_db s) !! rid = None ->
  ck_RequestID c = rid -> ck_Status c = CheckpointStatusPending -> ck_NewDEKID c = None ->
  ck_lastProcessedEventID c = None ->
  (exists k, db_keys (st_db s) !! ck_OldDEKID c = Some k /\ k_ctx k = ck_ctx c) ->
  other_live rid (ck_ctx c) (st_db s) = false ->
  keeps s (with_db s (set_ckpts (st_db s) (<[rid := c]> (db_ckpts (st_db s))))).
Proof.
  intros HI Hfresh Hid Hst Hnew Hcur (k & Hk & Hkx) Hol. pose proof (other_live_false _ _ _ Hol) as Hno. split.
  - constructor; cbn.
    + exact (i_seq _ _ _ HI).
    + intros id k0 Hk0. apply (key_ok_mono s _ id k0 k0);
        [by apply (i_keys _ _ _ HI)|exact (keys_grow_refl (st_db s))|reflexivity| |apply same_key_refl|auto..].
      intros r2 c2 H2. exists c2. cbn. rewrite lookup_insert_ne by congruence. done.
    + exact (i_uniq _ _ _ HI).
    + intros r2 c2 H2. destruct (decide (r2 = rid)) as [->|Hne].
      * rewrite lookup_insert_eq in H2. injection H2 as <-. constructor; rewrite ?Hst, ?Hcur, ?Hnew; try done; cbn; try lia.
        -- unfold status_known. by rewrite Hst.
        -- exists k. split; [done|]. split; [done|]. intros n Hn. congruence.
        -- intros id r Hr _ _. exact (rw_id _ _ _ (i_rows _ _ _ HI _ _ Hr)).
      * rewrite lookup_insert_ne in H2 by done. apply (ckpt_ok_mono s); [by apply (i_ckpts _ _ _ HI)|exact (keys_grow_refl (st_db s))|eauto|done].
    + intros r1 r2 c1 c2 H1 H2 Hl1 Hl2 Hxx.
      rewrite lookup_insert_Some in H1, H2.
      destruct H1 as [[<- <-]|[N1 H1]], H2 as [[<- <-]|[N2 H2]]; [done|..].
      * symmetry. by apply (Hno r2 c2).
      * by apply (Hno r1 c1).
      * by apply (i_live _ _ _ HI r1 r2 c1 c2).
    + intros r1 r2 c1 c2 H1 H2 Hch. destruct (decide (r1 = rid)) as [->|N1].
      { rewrite lookup_insert_eq in H1. congruence. }
      rewrite lookup_insert_ne in H1 by done. destruct (decide (r2 = rid)) as [->|N2].
      * rewrite lookup_insert_eq in H2. injection H2 as <-.
        destruct (cp_keys _ _ _ _ (i_ckpts _ _ _ HI _ _ H1)) as (k1 & _ & _ & Hs).
        destruct (Hs _ Hch) as (k2 & Hk2 & Hx2 & _). assert (k2 = k) as -> by congruence.
        apply not_true_iff_false. intros Hl. apply N1, (Hno _ _ H1); congruence.
      * rewrite lookup_insert_ne in H2 by done. by apply (i_chain _ _ _ HI r1 r2 c1 c2).
    + intros id r Hr. destruct (i_rows _ _ _ HI _ _ Hr). by constructor.
    + exact (i_caches _ _ _ HI).
    + exact (i_parts _ _ _ HI).
  - constructor; cbn; auto; eauto.
    + exact (keys_grow_refl (st_db s)).
    + intros r1 c1 Hc1. exists c1. rewrite lookup_insert_ne by congruence. split; [done|apply ckpt_grows_refl].
    + intros r1 c1 c1' Hc1 Hc1' Hl r2 c2 H2 Hx. rewrite lookup_insert_ne in Hc1' by congruence.
      assert (c1' = c1) as -> by congruence.
      destruct (decide (r2 = rid)) as [->|N2].
      * rewrite lookup_insert_eq in H2. injection H2 as <-. exfalso.
        assert (r1 = rid) as -> by (apply (Hno _ _ Hc1); congruence). congruence.
      * rewrite lookup_insert_ne in H2 by done. by eexists.
Qed.

(** ** Audit rows *)

(** Rows re-encrypted into the new key of a live rekey, readable as before. *)
Definition row_step (s : St) (n : Z) (id : string) (r r' : audit_rec) : Prop :=
  r' = r \/ au_dek_ref r' = Some n /\ au_codec r' = au_codec r /\ is_Some (au_dek_ref r)
    /\ (~ late id -> forall e, open_row L (db_keys (st_db s)) r = Some e -> open_row L (db_keys (st_db s)) r' = Some e).

Lemma live_new_steady s rid c n k :
  inv s -> db_ckpts (st_db s) !! rid = Some c -> live c = true -> ck_NewDEKID c = Some n ->
  db_keys (st_db s) !! n = Some k -> steady k.
Proof.
  intros HI Hc Hl Hn Hk. destruct (cp_keys _ _ _ _ (i_ckpts _ _ _ HI _ _ Hc)) as (k0 & _ & _ & Hs).
  destruct (Hs _ Hn) as (k' & Hk' & _ & _ & Hb). assert (k' = k) as -> by congruence. split; [|congruence].
  intros Hd. destruct (ko_destroyed _ _ _ _ (i_keys _ _ _ HI _ _ Hk) Hd) as [[? _]|(r2 & c2 & Hc2 & Ho & _)]; [congruence|].
  pose proof (i_chain _ _ _ HI rid r2 c c2 Hc Hc2 ltac:(congruence)). congruence.
Qed.

Lemma live_new_undestroyed s rid c n k :
  inv s -> db_ckpts (st_db s) !! rid = Some c -> live c = true -> ck_NewDEKID c = Some n ->
  db_keys (st_db s) !! n = Some k -> ~ destroyed k.
Proof. intros. by eapply live_new_steady. Qed.

(** Nothing that arrived in time is under the key of a withdrawn rotation. *)
Lemma withdrawn_unreferenced s id k :
  inv s -> db_keys (st_db s) !! id = Some k -> kr_rekeyed k = false -> withdrawn (k_ctx k) (k_ver k) ->
  unreferenced (st_db s) id.
Proof.
  intros HI Hk Hb Hw i r Hr Hlate Ho. destruct (rw_ref _ _ _ (i_rows _ _ _ HI _ _ Hr) Hlate _ Ho) as (k' & Hk' & _ & Hn).
  assert (k' = k) as -> by congruence. by apply Hn.
Qed.

Lemma rows_keep s rid c n audit' :
  inv s -> db_ckpts (st_db s) !! rid = Some c -> live c = true -> ck_NewDEKID c = Some n ->
  (forall id, option_Forall2 (row_step s n id) (db_audit (st_db s) !! id) (audit' !! id)) ->
  keeps s (with_db s (set_audit (st_db s) audit')).
Proof.
  intros HI Hc Hl Hn Hst.
  assert (Hb : forall id r', audit' !! id = Some r' -> exists r, db_audit (st_db s) !! id = Some r /\ row_step s n id r r').
  { intros id r' Hr'. specialize (Hst id). rewrite Hr' in Hst. inversion Hst as [r r0 Hs E1 E2|]; subst. eauto. }
  assert (Href : forall rid2 c2 id r', db_ckpts (st_db s) !! rid2 = Some c2 -> audit' !! id = Some r' ->
            au_dek_ref r' = Some (ck_OldDEKID c2) ->
            exists r, db_audit (st_db s) !! id = Some r /\ au_dek_ref r = Some (ck_OldDEKID c2)).
  { intros rid2 c2 id r' Hc2 Hr' Ho. destruct (Hb _ _ Hr') as (r & Hr & [->|[Hn' _]]); [eauto|].
    rewrite Hn' in Ho. injection Ho as ->. rewrite (i_chain _ _ _ HI rid rid2 c c2 Hc Hc2 Hn) in Hl. done. }
  split.
  - constructor; cbn.
    + exact (i_seq _ _ _ HI).
    + intros id k Hk. destruct (i_keys _ _ _ HI _ _ Hk). by constructor.
    + exact (i_uniq _ _ _ HI).
    + intros r2 c2 H2. apply (ckpt_ok_mono s); [by apply (i_ckpts _ _ _ HI)|exact (keys_grow_refl (st_db s))| |done].
      cbn. eauto.
    + exact (i_live _ _ _ HI).
    + exact (i_chain _ _ _ HI).
    + intros id r' Hr'. destruct (Hb _ _ Hr') as (r & Hr & Hs). destruct (i_rows _ _ _ HI _ _ Hr) as [Hid Hrf].
      constructor; [done|]. intros Hlate o Ho. destruct Hs as [->|[Hn' _]]; [by apply Hrf|]. simplify_eq.
      destruct (cp_keys _ _ _ _ (i_ckpts _ _ _ HI _ _ Hc)) as (k & _ & _ & Hs). destruct (Hs _ Hn) as (k' & Hk' & _).
      exists k'. split; [done|]. by eapply live_new_steady.
    + exact (i_caches _ _ _ HI).
    + exact (i_parts _ _ _ HI).
  - constructor; cbn; eauto using ckpt_grows_refl.
    + exact (keys_grow_refl (st_db s)).
    + intros id r Hr. specialize (Hst id). rewrite Hr in Hst. inversion Hst as [r0 r' Hs E1 E2|]; subst.
      exists r'. split; [done|]. destruct Hs as [->|(Hn' & ? & [? Hd] & _)]; [done|]. split; [done|]. rewrite Hd, Hn'. split; [done|]. eauto.
    + intros id e Hlate. unfold open_event. cbn. specialize (Hst id). destruct Hst as [r r' Hs|]; [|done]. cbn.
      destruct Hs as [->|(_ & _ & _ & He)]; auto.
Qed.

(** The arrival of a row that was not there.  The projection asks nothing of its key: a
    row may come under any key, live, replaced or destroyed, and then its event is
    [late] unless the key is in use: not destroyed, not that of a withdrawn rotation,
    and without a successor minted by a rekey. *)
Definition in_use (s : St) (o : Z) : Prop :=
  (exists k, db_keys (st_db s) !! o = Some k /\ steady k)
  /\ forall rid c, db_ckpts (st_db s) !! rid = Some c -> ck_OldDEKID c = o -> ck_NewDEKID c = None.

Definition arrival_ok (s : St) (id : string) (r : audit_rec) : Prop :=
  db_audit (st_db s) !! id = None /\ String.length id = 16%nat
  /\ forall o, au_dek_ref r = Some o -> ~ late id -> in_use s o.

Lemma length16_after_zero id : String.length id = 16%nat -> String.ltb (cursor_bound None) id = true.
Proof.
  destruct id as [|a [|b id]]; [done..|]. intros _. unfold String.ltb, cursor_bound. cbn.
  unfold Ascii.compare. cbn. destruct (N_of_ascii a) eqn:E; done.
Qed.

Lemma arrival_keep s id r : inv s -> arrival_ok s id r ->
  keeps s (with_db s (set_audit (st_db s) (<[id := r]> (db_audit (st_db s))))).
Proof.
  intros HI (Hfresh & Hlen & Hkey).
  assert (Hold : forall rid c i r', db_ckpts (st_db s) !! rid = Some c -> <[id := r]> (db_audit (st_db s)) !! i = Some r' ->
            ~ late i -> au_dek_ref r' = Some (ck_OldDEKID c) ->
            (exists r0, db_audit (st_db s) !! i = Some r0 /\ au_dek_ref r0 = Some (ck_OldDEKID c))
            \/ ck_NewDEKID c = None /\ String.ltb (cursor_bound None) i = true).
  { intros rid c i r' Hc Hi Hlate Ho. destruct (decide (i = id)) as [->|Hne].
    - rewrite lookup_insert_eq in Hi. injection Hi as <-. right. split; [|by apply length16_after_zero].
      by apply (proj2 (Hkey _ Ho Hlate) rid c Hc).
    - rewrite lookup_insert_ne in Hi by done. left. eauto. }
  split.
  - constructor; cbn.
    + exact (i_seq _ _ _ HI).
    + intros i k Hk. destruct (i_keys _ _ _ HI _ _ Hk). by constructor.
    + exact (i_uniq _ _ _ HI).
    + intros r2 c2 H2. apply (ckpt_ok_mono s); [by apply (i_ckpts _ _ _ HI)|exact (keys_grow_refl (st_db s))| |done].
      cbn. eauto.
    + exact (i_live _ _ _ HI).
    + exact (i_chain _ _ _ HI).
    + intros i r'. destruct (decide (i = id)) as [->|Hne].
      * rewrite lookup_insert_eq. intros [= <-]. constructor; [by apply length16_after_zero|].
        intros Hlate o Ho. exact (proj1 (Hkey _ Ho Hlate)).
      * rewrite lookup_insert_ne by done. intros Hr. destruct (i_rows _ _ _ HI _ _ Hr). by constructor.
    + exact (i_caches _ _ _ HI).
    + exact (i_parts _ _ _ HI).
  - constructor; cbn; eauto using ckpt_grows_refl.
    + exact (keys_grow_refl (st_db s)).
    + intros rid c Hc [n Hn] i r' Hi Hlate Ho. destruct (Hold _ _ _ _ Hc Hi Hlate Ho) as [?|[? _]]; [done|congruence].
    + intros i r0 Hi. exists r0. rewrite lookup_insert_ne; [done|]. congruence.
    + intros i e _. unfold open_event. cbn. destruct (decide (i = id)) as [->|Hne]; [by rewrite Hfresh|].
      by rewrite lookup_insert_ne.
Qed.

(** ** Caches and emissions *)
Lemma same_db_keep s keys parts ps :
  inv s -> (forall srv c, keys !! srv = Some c -> cache_sound L (st_db s) c) ->
  (forall srv c, parts !! srv = Some c -> parts_sound (st_db s) c) ->
  (forall p, p ∈ st_emitted s -> p ∈ ps) -> keeps s (mkSt (st_db s) keys parts ps).
Proof.
  intros HI Hc Hpc Hps. split.
  - constructor; cbn; auto.
    + exact (i_seq _ _ _ HI).
    + intros id k Hk. destruct (i_keys _ _ _ HI _ _ Hk). by constructor.
    + exact (i_uniq _ _ _ HI).
    + intros rid c Hrid. apply (ckpt_ok_mono s); [by apply (i_ckpts _ _ _ HI)|exact (keys_grow_refl (st_db s))|eauto|done].
    + exact (i_live _ _ _ HI).
    + exact (i_chain _ _ _ HI).
    + intros id r Hr. destruct (i_rows _ _ _ HI _ _ Hr). by constructor.
  - constructor; cbn; eauto using ckpt_grows_refl. exact (keys_grow_refl (st_db s)).
Qed.

Lemma cache_keep s srv c : inv s -> cache_sound L (st_db s) c ->
  keeps s (mkSt (st_db s) (<[srv := c]> (st_keys s)) (st_parts s) (st_emitted s)).
Proof.
  intros HI Hs. apply same_db_keep; [done| |apply (i_parts _ _ _ HI)|done]. intros i c0.
  rewrite lookup_insert_Some. intros [[_ <-]|[_ Hc0]]; [done|]. by apply (i_caches _ _ _ HI i).
Qed.

Lemma parts_keep s srv c : inv s -> parts_sound (st_db s) c ->
  keeps s (mkSt (st_db s) (st_keys s) (<[srv := c]> (st_parts s)) (st_emitted s)).
Proof.
  intros HI Hs. apply same_db_keep; [done|apply (i_caches _ _ _ HI)| |done]. intros i c0.
  rewrite lookup_insert_Some. intros [[_ <-]|[_ Hc0]]; [done|]. by apply (i_parts _ _ _ HI i).
Qed.

Lemma emitted_keep s ps : inv s -> (forall p, p ∈ st_emitted s -> p ∈ ps) ->
  keeps s (mkSt (st_db s) (st_keys s) (st_parts s) ps).
Proof. intros HI Hps. apply same_db_keep; [done|apply (i_caches _ _ _ HI)|apply (i_parts _ _ _ HI)|done]. Qed.
End Ops.
