(* ===== verification/DekInvTx.v ===== *)
(** The statements on keys and checkpoints keep the invariant, under the
    conditions their callers establish.  Re-encryption: what a batch selects, what
    its rewriting does to the rows, and that the commit of a batch keeps the
    invariant. *)

From stdpp Require Import sorting.
From S2P Require Import Prelude GoStrings Sql Programs DekTypes EventCrypto DekCache DekCacheFacts DekStore DekManager Rekey DekInv DekInvOps.

Open Scope string_scope.
Open Scope Z_scope.

(** ** Transactions that do not write *)
Definition pure_tx {A} (m : tx A) : Prop := forall db, (m db).2 = db.

Lemma pure_read {A} (f : DB -> A) : pure_tx (read f).
Proof. done. Qed.

Lemma pure_bind {A B} (m : tx A) (f : A -> tx B) : pure_tx m -> (forall a, pure_tx (f a)) -> pure_tx (m ≫= f).
Proof.
  intros Hm Hf db. unfold mbind, txn_bind. specialize (Hm db). destruct (m db) as [[a|e] db']; cbn in *; [|done].
  rewrite Hf. done.
Qed.

Lemma pure_ret {A} (a : A) : pure_tx (mret a).
Proof. done. Qed.

Lemma pure_fail {A} (e : error) : pure_tx (fail e : tx A).
Proof. done. Qed.

Create HintDb pure_tx discriminated.
#[export] Hint Resolve pure_read pure_ret pure_fail : pure_tx.

Ltac pure_tx_tac :=
  repeat first [ solve [eauto with pure_tx] | apply pure_bind; [|intros] | case_match ].

Lemma pure_selectActive x : pure_tx (selectActive x).
Proof. unfold selectActive. pure_tx_tac. Qed.
Lemma pure_selectByID i v : pure_tx (selectByID i v).
Proof. unfold selectByID. pure_tx_tac. Qed.
Lemma pure_selectByPK i : pure_tx (selectByPK i).
Proof. unfold selectByPK. pure_tx_tac. Qed.
Lemma pure_Get rid : pure_tx (Get rid).
Proof. unfold Get. pure_tx_tac. Qed.
Lemma pure_FindByContextAndArgs t i h : pure_tx (FindByContextAndArgs t i h).
Proof. unfold FindByContextAndArgs. pure_tx_tac. Qed.
Lemma pure_FindNonTerminalByContext t i : pure_tx (FindNonTerminalByContext t i).
Proof. unfold FindNonTerminalByContext. pure_tx_tac. Qed.
Lemma pure_ListExpired now ttl : pure_tx (ListExpired now ttl).
Proof. unfold ListExpired. pure_tx_tac. Qed.
Lemma pure_conflicted : pure_tx conflicted.
Proof. done. Qed.
#[export] Hint Resolve pure_selectActive pure_selectByID pure_selectByPK pure_Get pure_FindByContextAndArgs
  pure_FindNonTerminalByContext pure_ListExpired pure_conflicted : pure_tx.

Lemma Get_Ok rid db c db' : Get rid db = (Ok c, db') -> db_ckpts db !! rid = Some c.
Proof.
  unfold Get. tx_cbn. destruct (db_ckpts db !! rid); [|done].
  by intros [= ->].
Qed.

Lemma selectByPK_Ok id db r db' : selectByPK id db = (Ok r, db') -> exists k, db_keys db !! id = Some k /\ kr_row k = r.
Proof. unfold selectByPK. tx_cbn. destruct (db_keys db !! id) as [k|]; [|done]. intros [= <- _]. eauto. Qed.

Lemma selectByID_Ok id v db r db' : selectByID id v db = (Ok r, db') ->
  exists k, db_keys db !! id = Some k /\ kr_row k = r /\ r_Version r = v.
Proof.
  unfold selectByID. tx_cbn. destruct (db_keys db !! id) as [k|]; [|done].
  destruct (r_Version (kr_row k) =? v) eqn:E; tx_cbn; [|done]. case_bool_decide; [|done]. intros [= <- _].
  apply Z.eqb_eq in E. eauto.
Qed.

Lemma active_key_Some x db id k : active_key x db = Some (id, k) ->
  db_keys db !! id = Some k /\ k_ctx k = x /\ r_RotatedAt (kr_row k) = None /\ kr_destroyed_at k = None.
Proof.
  unfold active_key. intros H%head_Some_elem_of. apply elem_of_order_by in H.
  apply rows_where_elem in H as [Hk Hb]. unfold of_ctx, is_active in Hb. bool_prop.
  naive_solver.
Qed.

Lemma selectActive_Ok x db r db' : selectActive x db = (Ok r, db') ->
  exists id k, db_keys db !! id = Some k /\ k_ctx k = x /\ kr_row k = r.
Proof.
  unfold selectActive. tx_cbn. destruct (active_key x db) as [[id k]|] eqn:E; [|done]. intros [= <- _].
  apply active_key_Some in E as (Hk & Hx & _). eauto.
Qed.

Section Tx.
Context `{fate : Fate} (L : CryptoLib) (ulid : string -> string).
Local Abbreviation inv := (inv L ulid).
Local Abbreviation grows := (grows L).
Local Abbreviation keeps := (keeps inv grows).

(** A transaction that keeps the invariant from [s]. *)
Definition tx_keeps {A} (s : St) (m : tx A) : Prop := keeps s (with_db s (m (st_db s)).2).

Lemma pure_keeps {A} s (m : tx A) : inv s -> pure_tx m -> tx_keeps s m.
Proof. intros HI Hp. unfold tx_keeps. rewrite Hp, with_db_self. by apply refl_keeps. Qed.

Lemma atomically_keeps {A} s (m : tx A) : inv s -> tx_keeps s m -> tx_keeps s (atomically m).
Proof.
  intros HI Hm. unfold tx_keeps in *. rewrite atomically_2. destruct (m (st_db s)) as [[a|e] db']; [done|].
  rewrite with_db_self. by apply refl_keeps.
Qed.

Lemma on_error_keeps {A} s f (m : tx A) : tx_keeps s m -> tx_keeps s (on_error f m).
Proof. unfold tx_keeps. by rewrite on_error_2. Qed.

Lemma wrap_code_2 {A} c (m : tx A) db : (wrap_code c m db).2 = (m db).2.
Proof. unfold wrap_code. by destruct (m db) as [[] ]. Qed.

Lemma tx_bind_keeps {A B} s (m : tx A) (f : A -> tx B) :
  tx_keeps s m ->
  (forall a db', m (st_db s) = (Ok a, db') -> keeps s (with_db s db') -> tx_keeps (with_db s db') (f a)) ->
  tx_keeps s (m ≫= f).
Proof.
  unfold tx_keeps, mbind, txn_bind. intros Hm Hf. destruct (m (st_db s)) as [[a|e] db'] eqn:E; cbn in *; [|done].
  eapply trans_keeps; [exact Hm|]. apply (Hf a db'); done.
Qed.

(** ** Keys *)
Lemma put_key_tx s id k k' : inv s -> db_keys (st_db s) !! id = Some k -> key_step s id k k' -> tx_keeps s (put_key id k').
Proof. intros. unfold tx_keeps. by apply put_key_keep with (k := k). Qed.

Lemma insert_key_tx s x v wrapped provider kid ps t b :
  inv s -> 1 <= v ->
  (exists m, kek_unwrap L wrapped kid = Some m /\ String.length m = DEKByteLength) ->
  tx_keeps s (insert_key x v wrapped provider kid ps t b).
Proof.
  intros HI Hv Hsec. unfold tx_keeps, insert_key. destruct (negb (int4_ok v)) eqn:Hi.
  { cbn. rewrite with_db_self. by apply refl_keeps. }
  apply negb_false_iff in Hi. tx_cbn. destruct (negb (int8_ok _)) eqn:Hq; [tx_cbn; rewrite with_db_self; by apply refl_keeps|].
  assert (Hmax : db_key_seq (st_db s) + 1 <= 2 ^ 63 - 1) by (apply negb_false_iff in Hq; unfold int8_ok in Hq; bool_prop; lia).
  tx_cbn.
  destruct (version_taken x v (st_db s)) eqn:Hvt; tx_cbn.
  - by apply seq_keep.
  - apply insert_key_keep; try done.
    + unfold k_ver. cbn. unfold int4_ok in Hi. bool_prop. lia.
    + unfold k_ctx, r_ctx, k_ver. cbn. by destruct x.
Qed.

Lemma insert_key_Ok x v wrapped provider kid ps t b db id db' :
  insert_key x v wrapped provider kid ps t b db = (Ok id, db') ->
  id = db_key_seq db + 1 /\ db_keys db' !! id = Some (mkKeyRec (mkRow id (cx_Type x) (cx_ID x) v wrapped provider kid ps t None) None None b)
  /\ db_ckpts db' = db_ckpts db.
Proof.
  unfold insert_key. destruct (negb (int4_ok v)); [done|]. tx_cbn. destruct (negb (int8_ok _)); [done|]. tx_cbn.
  destruct (version_taken _ _ _); [done|]. tx_cbn. intros [= <- <-]. cbn. by rewrite lookup_insert_eq.
Qed.

Lemma insert_tx s now r : inv s -> 1 <= r_Version r ->
  (exists m, kek_unwrap L (r_WrappedDEK r) (r_WrapKeyID r) = Some m /\ String.length m = DEKByteLength) ->
  tx_keeps s (insert now r).
Proof. intros. apply on_error_keeps. by apply insert_key_tx. Qed.

Lemma insertRekeyed_tx s now id k wrapped kid : inv s -> db_keys (st_db s) !! id = Some k ->
  (exists m, kek_unwrap L wrapped kid = Some m /\ String.length m = DEKByteLength) ->
  tx_keeps s (insertRekeyed now (kr_row k) wrapped kid).
Proof.
  intros HI Hk Hsec. unfold tx_keeps, insertRekeyed. rewrite wrap_code_2. apply insert_key_tx; [done| |done].
  pose proof (ko_ver _ _ _ _ (i_keys _ _ _ HI _ _ Hk)) as Hv. unfold k_ver, int4_max in Hv.
  unfold u32_wrap. rewrite Z.mod_small; lia.
Qed.

Lemma updateParticipants_tx s x p : inv s -> tx_keeps s (updateParticipants x p).
Proof.
  intros HI. unfold tx_keeps, updateParticipants. tx_cbn. destruct (active_key x (st_db s)) as [[id k]|] eqn:E; tx_cbn.
  - destruct (existsb _ _); tx_cbn; [rewrite with_db_self; by apply refl_keeps|].
    apply active_key_Some in E as (Hk & _). apply put_key_keep with (k := k); [done|done|].
    split; [|auto]. do 5 (split; [done|]). intros q Hq. apply elem_of_app. by left.
  - rewrite with_db_self. by apply refl_keeps.
Qed.

Lemma markDestroyedByPK_tx s t rid c :
  inv s -> db_ckpts (st_db s) !! rid = Some c -> is_Some (ck_NewDEKID c) ->
  unreferenced (st_db s) (ck_OldDEKID c) -> tx_keeps s (markDestroyedByPK t (ck_OldDEKID c)).
Proof.
  intros HI Hc Hn Hu. unfold tx_keeps, markDestroyedByPK. tx_cbn.
  destruct (db_keys (st_db s) !! ck_OldDEKID c) as [k|] eqn:Hk; tx_cbn.
  - apply put_key_keep with (k := k); [done|done|]. unfold destroy. destruct (kr_destroyed_at k) eqn:Hd.
    + apply key_step_refl.
    + repeat split; auto; cbn; [unfold destroyed; rewrite Hd; by intros []|]. intros _. right. split; [done|]. right. eauto.
  - rewrite with_db_self. by apply refl_keeps.
Qed.

Lemma rotate_older_tx s t x : inv s -> tx_keeps s (rotate_older t x).
Proof.
  intros HI. unfold tx_keeps, rotate_older. tx_cbn. destruct (active_key x (st_db s)) as [[id kn]|] eqn:E; tx_cbn;
    [|rewrite with_db_self; by apply refl_keeps].
  apply active_key_Some in E as (Hkn & Hx & _). apply key_steps_keep; [done|]. intros i. rewrite lookup_fmap.
  destruct (db_keys (st_db s) !! i) as [k|] eqn:Hk; constructor.
  destruct (of_ctx x k && is_active k && _) eqn:Hb; [|apply key_step_refl]. bool_prop.
  repeat split; auto.
Qed.

(** ** Checkpoints *)
Lemma update_tx s rid P f code stale :
  inv s ->
  (forall c, db_ckpts (st_db s) !! rid = Some c -> P c = true -> status_known (f c) = true ->
     ckpt_grows c (f c) /\ ckpt_ok ulid s rid (f c)
     /\ (forall n, ck_NewDEKID (f c) = Some n -> ck_NewDEKID c = Some n
           \/ forall rid2 c2, db_ckpts (st_db s) !! rid2 = Some c2 -> ck_OldDEKID c2 <> n)) ->
  tx_keeps s (update rid P f code stale).
Proof.
  intros HI Hf. unfold tx_keeps, update. tx_cbn.
  assert (Hs : keeps s (with_db s (st_db s))) by (rewrite with_db_self; by apply refl_keeps).
  destruct (db_ckpts (st_db s) !! rid) as [c|] eqn:Hc; [|by destruct stale].
  destruct (P c) eqn:HP; [|by destruct stale]. rewrite wrap_code_2. unfold put_ckpt. tx_cbn.
  destruct (status_known (f c)) eqn:Hk; cbn [negb andb]; [|done]. do 3 (case_match; [done|]). tx_cbn.
  destruct (Hf c eq_refl HP Hk) as (Hg & Hok & Hn). by apply ckpt_put_keep with (c := c).
Qed.

Abbreviation rank c := (phase_rank (ck_Status c)).

(** The columns that the simple updates leave alone. *)
Definition same_ckpt (c c' : Checkpoint) : Prop :=
  ck_RequestID c' = ck_RequestID c /\ ck_ctx c' = ck_ctx c /\ ck_OldDEKID c' = ck_OldDEKID c
  /\ ck_PrimaryPlayerID c' = ck_PrimaryPlayerID c /\ ck_opArgsHash c' = ck_opArgsHash c
  /\ ck_NewDEKID c' = ck_NewDEKID c /\ ck_lastProcessedEventID c' = ck_lastProcessedEventID c
  /\ (ck_ForceDestroy c = true -> ck_ForceDestroy c' = true).

Lemma simple_update_tx s rid P f code stale :
  inv s ->
  (forall c, db_ckpts (st_db s) !! rid = Some c -> P c = true -> ckpt_ok ulid s rid c ->
     same_ckpt c (f c) /\ moves (ck_Status c) (ck_Status (f c))
     /\ ((2 <= rank (f c) <= 8)%nat -> is_Some (ck_NewDEKID c))
     /\ ((5 <= rank (f c) <= 8)%nat -> unreferenced (st_db s) (ck_OldDEKID c))
     /\ ((6 <= rank (f c) <= 8)%nat ->
           ck_ForceDestroy (f c) = true \/ exists k, db_keys (st_db s) !! ck_OldDEKID c = Some k /\ destroyed k)
     /\ (ck_Status (f c) = CheckpointStatusComplete -> exists p, p ∈ st_emitted s /\ ra_RequestID p = ulid rid)) ->
  tx_keeps s (update rid P f code stale).
Proof.
  intros HI Hf. apply update_tx; [done|]. intros c Hc HP Hk. pose proof (i_ckpts _ _ _ HI _ _ Hc) as Hok.
  destruct (Hf c Hc HP Hok) as ((Hid & Hx & Ho & Hp & Ha & Hn & Hcu & Hfo) & Hm & Hl & Hcl & Hg & Hd).
  destruct Hok as [Oid Okn Okeys Oe Ol Ocur Ocn Ocl Og Od].
  split; [repeat split; auto; congruence|]. split; [|intros n; rewrite Hn; auto].
  constructor; try rewrite Ho; try rewrite Hn; try rewrite Hcu; try rewrite Hx; auto; [congruence|].
  intros Hr. apply Oe. pose proof (moves_rank _ _ Hm). lia.
Qed.

Lemma UpdateStatus_tx s now rid from to :
  inv s ->
  (forall c, db_ckpts (st_db s) !! rid = Some c -> ck_Status c = from -> ckpt_ok ulid s rid c ->
     ((2 <= phase_rank to <= 8)%nat -> is_Some (ck_NewDEKID c))
     /\ ((5 <= phase_rank to <= 8)%nat -> unreferenced (st_db s) (ck_OldDEKID c))
     /\ ((6 <= phase_rank to <= 8)%nat ->
           ck_ForceDestroy c = true \/ exists k, db_keys (st_db s) !! ck_OldDEKID c = Some k /\ destroyed k)) ->
  to <> CheckpointStatusComplete ->
  tx_keeps s (UpdateStatus now rid from to).
Proof.
  intros HI Hf Hnc. unfold UpdateStatus. destruct (AssertTransitionAllowed from to) as [[]|e] eqn:Ha;
    [|by apply pure_keeps; [|apply pure_fail]].
  apply simple_update_tx; [done|]. intros c Hc Hs Hok. unfold has_status in Hs. bool_prop.
  destruct (Hf c Hc Hs Hok) as (H1 & H2 & H3). cbn. repeat split; auto; try tauto.
  apply rtc_once. by rewrite Hs.
Qed.

(** Updates that keep the status. *)
Lemma same_status_tx s rid P f code stale :
  inv s -> (forall c, same_ckpt c (f c) /\ ck_Status (f c) = ck_Status c) -> tx_keeps s (update rid P f code stale).
Proof.
  intros HI Hf. apply simple_update_tx; [done|]. intros c Hc _ [Oid Okn Okeys Oe Ol Ocur Ocn Ocl Og Od].
  destruct (Hf c) as [Hsame Hst]. rewrite Hst. split; [done|]. split; [done|]. split; [done|]. split; [done|].
  split; [|done]. intros Hr. destruct (Og Hr) as [Hfd|?]; [|by right]. left. by apply Hsame.
Qed.

Lemma Heartbeat_tx s now rid : inv s -> tx_keeps s (Heartbeat now rid).
Proof. intros HI. by apply same_status_tx. Qed.
Lemma SetForceDestroy_tx s rid : inv s -> tx_keeps s (SetForceDestroy rid).
Proof. intros HI. by apply same_status_tx. Qed.
Lemma IncrementPhase5Attempt_tx s now rid : inv s -> tx_keeps s (IncrementPhase5Attempt now rid).
Proof. intros HI. by apply same_status_tx. Qed.
Lemma IncrementPhase3Count_tx s now rid d : inv s -> tx_keeps s (IncrementPhase3Count now rid d).
Proof. intros HI. by apply same_status_tx. Qed.

Lemma allowed_abort s : s ∈ AllCheckpointStatuses -> IsTerminal s = false -> allowed s CheckpointStatusAborted.
Proof.
  unfold AllCheckpointStatuses. intros Hs Ht. apply allowed_spec.
  repeat (apply elem_of_cons in Hs as [->|Hs]; [first [discriminate Ht | eexists; split; [reflexivity|set_solver] ]|]).
  set_solver.
Qed.

Lemma MarkAborted_tx s now rid reason : inv s -> tx_keeps s (MarkAborted now rid reason).
Proof.
  intros HI. apply simple_update_tx; [done|]. intros c Hc Hl Hok. cbn. repeat split; try (intros; lia); try done.
  apply rtc_once, allowed_abort; [|by apply negb_true_iff].
  pose proof (cp_known _ _ _ _ Hok) as Hk. unfold status_known in Hk. by bool_prop.
Qed.

Lemma MarkComplete_tx s now rid : inv s -> (exists p, p ∈ st_emitted s /\ ra_RequestID p = ulid rid) ->
  tx_keeps s (MarkComplete now rid).
Proof.
  intros HI Hp. apply simple_update_tx; [done|]. intros c Hc Hs Hok. unfold has_status in Hs. bool_prop.
  destruct Hok as [Oid Okn Okeys Oe Ol Ocur Ocn Ocl Og Od]. rewrite Hs in *. cbn in *.
  repeat split; auto; try (intros; first [apply Ol|apply Ocl|apply Og]; lia).
  apply rtc_once. apply allowed_spec. eexists. split; [done|set_solver].
Qed.

Lemma UpdateStatusForceDestroy_tx s now rid : inv s -> tx_keeps s (UpdateStatusForceDestroy now rid).
Proof.
  intros HI. unfold UpdateStatusForceDestroy. cbn [AssertTransitionAllowed validTransitions].
  case_match; [|by apply pure_keeps; [|apply pure_fail]].
  apply simple_update_tx; [done|]. intros c Hc [Hs Hfd]%andb_true_iff Hok. unfold has_status in Hs. bool_prop.
  destruct Hok as [Oid Okn Okeys Oe Ol Ocur Ocn Ocl Og Od]. rewrite Hs in *. cbn in *.
  repeat split; auto; try (intros; first [done|apply Ol; lia|apply Ocl; lia]).
  apply rtc_once. apply allowed_spec. eexists. split; [done|set_solver].
Qed.

(** Phase 5's records: no row may be left under the old key. *)
Lemma phase5_record_tx s rid f code stale :
  inv s ->
  (forall c, db_ckpts (st_db s) !! rid = Some c -> is_Some (ck_NewDEKID c) /\ unreferenced (st_db s) (ck_OldDEKID c)) ->
  (forall c, same_ckpt c (f c) /\ ck_Status (f c) = CheckpointStatusPhase5Invalidate) ->
  tx_keeps s (update rid in_phase5 f code stale).
Proof.
  intros HI Hc Hf. apply simple_update_tx; [done|]. intros c Hrid Hs Hok. destruct (Hf c) as [Hsame Hst].
  destruct (Hc _ Hrid) as [Hn Hu]. rewrite Hst. cbn.
  split; [done|]. split; [|repeat split; auto; intros; first [done|lia] ].
  unfold in_phase5, has_status in Hs. apply orb_true_iff in Hs as [Hs|Hs]; bool_prop; rewrite Hs; [|done].
  apply rtc_once. apply allowed_spec. eexists. split; [done|set_solver].
Qed.

(** Phase 2 sets the new key, which no rekey may have started from. *)
Lemma SetNewDEKAndAdvance_tx s now rid n :
  inv s ->
  (forall c, db_ckpts (st_db s) !! rid = Some c -> ck_Status c = CheckpointStatusPhase1Auth ->
     (exists k, db_keys (st_db s) !! ck_OldDEKID c = Some k /\ exists k', db_keys (st_db s) !! n = Some k'
        /\ k_ctx k' = ck_ctx c /\ k_ver k' = k_ver k + 1 /\ kr_rekeyed k' = true)
     /\ forall rid2 c2, db_ckpts (st_db s) !! rid2 = Some c2 -> ck_OldDEKID c2 <> n) ->
  tx_keeps s (SetNewDEKAndAdvance now rid n).
Proof.
  intros HI Hf. apply update_tx; [done|]. intros c Hc Hs Hk. unfold has_status in Hs. bool_prop.
  destruct (Hf c Hc Hs) as ((k & Ho & k' & Hk' & Hx' & Hv' & Hb') & Hno).
  pose proof (i_ckpts _ _ _ HI _ _ Hc) as [Oid Okn Okeys Oe Ol Ocur Ocn Ocl Og Od]. rewrite Hs in *. cbn in *.
  split; [repeat split; auto|split].
  - cbn. rewrite Hs. apply rtc_once. apply allowed_spec. eexists. split; [done|set_solver].
  - cbn. intros m Hm. rewrite Oe in Hm by lia. done.
  - constructor; cbn; auto; try done; try (intros; lia).
    + destruct Okeys as (k0 & Hk0 & Hx0 & _). exists k0. split; [done|]. split; [done|]. intros m [= <-].
      assert (k0 = k) as -> by congruence. eauto 6.
  - cbn. intros m [= <-]. by right.
Qed.

Lemma AdvanceCursor_tx s now rid last :
  inv s ->
  (forall c id r, db_ckpts (st_db s) !! rid = Some c -> db_audit (st_db s) !! id = Some r ->
     ~ late id -> au_dek_ref r = Some (ck_OldDEKID c) -> String.ltb (cursor_bound (Some last)) id = true) ->
  tx_keeps s (AdvanceCursor now rid last).
Proof.
  intros HI Hf. apply update_tx; [done|]. intros c Hc Hs Hk. unfold has_status in Hs. bool_prop.
  pose proof (i_ckpts _ _ _ HI _ _ Hc) as [Oid Okn Okeys Oe Ol Ocur Ocn Ocl Og Od].
  split; [by repeat split|]. split; [|cbn; auto].
  constructor; cbn; auto.
  - intros id r Hr Hlate Href. by apply (Hf c id r).
  - intros Hn. rewrite Hs in Ol. destruct Ol; [cbn; lia|]. congruence.
Qed.

(** A checkpoint opened on a key of its context. *)
Lemma put_ckpt_tx s rid c :
  inv s -> db_ckpts (st_db s) !! rid = None ->
  ck_RequestID c = rid -> ck_Status c = CheckpointStatusPending -> ck_NewDEKID c = None ->
  ck_lastProcessedEventID c = None ->
  (exists k, db_keys (st_db s) !! ck_OldDEKID c = Some k /\ k_ctx k = ck_ctx c) ->
  tx_keeps s (put_ckpt rid c).
Proof.
  intros HI Hfresh Hid Hst Hnew Hcur Hk. unfold tx_keeps, put_ckpt. tx_cbn.
  assert (Hs : keeps s (with_db s (st_db s))) by (rewrite with_db_self; by apply refl_keeps).
  do 2 (case_match; [done|]). assert (live c = true) as -> by (unfold live; by rewrite Hst).
  destruct (other_live rid (ck_ctx c) (st_db s)) eqn:Ho; [done|]. tx_cbn. by apply ckpt_open_keep.
Qed.

Lemma Open_tx s now rid req :
  inv s ->
  (exists k, db_keys (st_db s) !! or_OldDEKID req = Some k /\ k_ctx k = mkContext (or_ContextType req) (or_ContextID req)) ->
  tx_keeps s (Open now rid req).
Proof.
  intros HI Hk. unfold Open. do 2 (case_match; [by apply pure_keeps; [|apply pure_fail]|]).
  apply on_error_keeps. unfold tx_keeps. tx_cbn.
  destruct (db_ckpts (st_db s) !! rid) eqn:Hfresh.
  - tx_cbn. rewrite with_db_self. by apply refl_keeps.
  - apply (tx_bind_keeps s (put_ckpt rid _)); [by apply put_ckpt_tx|].
    intros [] db' _ [HI' _]. by apply pure_keeps.
Qed.

Lemma Open_Ok now rid req db r db' : Open now rid req db = (Ok r, db') ->
  r = rid /\ exists c, db_ckpts db' !! rid = Some c /\ ck_OldDEKID c = or_OldDEKID req
    /\ ck_ctx c = mkContext (or_ContextType req) (or_ContextID req).
Proof.
  unfold Open. do 2 (case_match; [done|]). intros Ho%on_error_Ok. rewrite read_bind in Ho.
  destruct (db_ckpts db !! rid); [done|]. apply txn_bind_Ok in Ho as ([] & db1 & Hp & [= <- <-]). split; [done|].
  unfold put_ckpt in Hp. rewrite read_bind in Hp. do 3 (case_match; [done|]). injection Hp as <-. cbn.
  eexists. by rewrite lookup_insert_eq.
Qed.
End Tx.

Open Scope string_scope.
Open Scope Z_scope.

(** ** What a batch selects *)
#[local] Instance by_id_dec a b : Decision (Is_true (by_id a b)).
Proof. apply _. Defined.

Definition wanted (old : Z) (cursor : option string) (id : string) (r : audit_rec) : bool :=
  bool_decide (au_dek_ref r = Some old) && String.ltb (cursor_bound cursor) id.

Lemma sorted_by_id l : StronglySorted (fun a b => Is_true (by_id a b)) (order_by by_id l).
Proof.
  apply Sorted_StronglySorted.
  - intros a b c. unfold by_id. rewrite !Is_true_true. apply str_leb_trans.
  - apply Sorted_merge_sort. intros a b. unfold by_id. rewrite !Is_true_true. apply String.leb_total.
Qed.

(** A row of a batch is one of the wanted rows. *)
Lemma select_batch_elem old cursor n db id r :
  (id, r) ∈ select_batch old cursor n db ->
  db_audit db !! id = Some r /\ au_dek_ref r = Some old /\ String.ltb (cursor_bound cursor) id = true.
Proof.
  unfold select_batch. intros Hin. apply (elem_of_submseteq _ (order_by by_id
    (rows_where (wanted old cursor) (db_audit db)))) in Hin; [|apply sublist_submseteq, sublist_take].
  apply elem_of_order_by, rows_where_elem in Hin as [Hr Hw]. unfold wanted in Hw. bool_prop. done.
Qed.

(** A wanted row is selected, unless the batch is full and the row comes after its last. *)
Lemma select_batch_complete old cursor n db id r :
  db_audit db !! id = Some r -> au_dek_ref r = Some old -> String.ltb (cursor_bound cursor) id = true ->
  id ∈ (select_batch old cursor n db).*1
  \/ length (select_batch old cursor n db) = n
     /\ forall last_id x, last (select_batch old cursor n db) = Some (last_id, x) -> String.ltb last_id id = true.
Proof.
  intros Hr Hold Hlt. unfold select_batch. fold (wanted old cursor).
  set (l := order_by by_id (rows_where (wanted old cursor) (db_audit db))).
  assert (Hin : (id, r) ∈ l).
  { apply elem_of_order_by, rows_where_elem. split; [done|]. unfold wanted. rewrite Hold, Hlt. by rewrite bool_decide_eq_true_2. }
  assert (Hsort : StronglySorted (fun a b => Is_true (by_id a b)) l) by apply sorted_by_id.
  assert (Hnd : NoDup l.*1).
  { unfold l, order_by. rewrite merge_sort_Permutation. apply NoDup_fmap_fst.
    - intros i x y. rewrite !rows_where_elem. intros [? _] [? _]. congruence.
    - apply NoDup_rows_where. }
  rewrite <- (take_drop n l) in Hin. apply elem_of_app in Hin as [Hin|Hin].
  { left. apply list_elem_of_fmap. by exists (id, r). }
  destruct (decide (id ∈ (take n l).*1)) as [|Hnin]; [by left|]. right.
  assert (Hlen : (n < length l)%nat).
  { destruct (decide (n < length l)%nat); [done|]. rewrite drop_ge in Hin by lia. by apply elem_of_nil in Hin. }
  split; [rewrite length_take; lia|]. intros lid x Hlast.
  apply last_Some_elem_of in Hlast as Hlin.
  assert (Hle : Is_true (by_id (lid, x) (id, r))).
  { rewrite <- (take_drop n l) in Hsort. clear -Hsort Hin Hlin.
    induction (take n l) as [|y t IH]; [by apply elem_of_nil in Hlin|].
    cbn in Hsort. apply StronglySorted_inv in Hsort as [Hs Hf]. apply elem_of_cons in Hlin as [->|Hlin]; [|auto].
    eapply Forall_forall in Hf; [exact Hf|]. apply elem_of_app. by right. }
  unfold by_id in Hle. cbn in Hle. apply Is_true_true, str_leb_ltb in Hle as [->|?]; [|done].
  destruct Hnin. apply list_elem_of_fmap. by exists (id, x).
Qed.

(** ** What the rewriting does *)
Definition rewritten (w : string) (n v : Z) (r : audit_rec) : audit_rec :=
  mkAuditRec (au_subject r) (au_type r) (au_timestamp r) (au_actor_kind r) (au_actor_id r) w (au_schema_ver r)
    (au_codec r) (au_js_seq r) (au_rendering r) (Some n) (Some (int32_of v)).

Lemma rewrite_row_tables w n v db :
  db_keys (rewrite_row w n v db) = db_keys db /\ db_key_seq (rewrite_row w n v db) = db_key_seq db
  /\ db_ckpts (rewrite_row w n v db) = db_ckpts db.
Proof. unfold rewrite_row. by destruct (db_audit db !! w.1). Qed.

Lemma rewrite_row_audit w n v db :
  db_audit (rewrite_row w n v db) = alter (rewritten w.2 n v) w.1 (db_audit db).
Proof.
  unfold rewrite_row. destruct (db_audit db !! w.1) as [r|] eqn:E; cbn.
  - apply map_eq. intros i. destruct (decide (i = w.1)) as [->|Hne].
    + by rewrite lookup_insert_eq, lookup_alter_eq, E.
    + by rewrite lookup_insert_ne, lookup_alter_ne.
  - apply map_eq. intros i. destruct (decide (i = w.1)) as [->|Hne].
    + by rewrite lookup_alter_eq, E.
    + by rewrite lookup_alter_ne.
Qed.

Definition rewrite_audit (ws : list (string * string)) (n v : Z) (m : gmap string audit_rec) : gmap string audit_rec :=
  fold_left (fun m w => alter (rewritten w.2 n v) w.1 m) ws m.

Lemma rewrite_rows_set ws n v db : rewrite_rows ws n v db = set_audit db (rewrite_audit ws n v (db_audit db)).
Proof.
  unfold rewrite_rows, rewrite_audit. revert db. induction ws as [|w ws IH]; intros db; cbn; [by destruct db|].
  rewrite IH. destruct (rewrite_row_tables w n v db) as (K & Q & C). unfold set_audit.
  by rewrite K, Q, C, rewrite_row_audit.
Qed.

(** The rows named are under the new key; the others are as they were. *)
Lemma rewrite_audit_lookup ws n v m id r' :
  rewrite_audit ws n v m !! id = Some r' ->
  exists r, m !! id = Some r /\ au_codec r' = au_codec r
    /\ (id ∈ ws.*1 -> exists w, (id, w) ∈ ws /\ r' = rewritten w n v r) /\ (id ∉ ws.*1 -> r' = r).
Proof.
  unfold rewrite_audit. revert r'. induction ws as [|w ws IH] using rev_ind; intros r'; cbn.
  - intros Hr. exists r'. split; [done|]. split; [done|]. split; [|done]. intros []%elem_of_nil.
  - rewrite fold_left_app, fmap_app. cbn. rewrite lookup_alter. case_decide as Hid.
    + subst id. destruct (fold_left _ ws m !! w.1) as [r0|] eqn:E; cbn; [|done]. intros [= <-].
      destruct (IH r0 eq_refl) as (r & Hr & Hc & Hin & Hout). exists r. split; [done|]. split; [done|]. split; [|set_solver].
      intros _. exists w.2. split; [apply elem_of_app; right; destruct w; apply list_elem_of_here|].
      destruct (decide (w.1 ∈ ws.*1)) as [Hi|Hi]; [|by rewrite (Hout Hi)].
      destruct (Hin Hi) as (w' & _ & ->). done.
    + intros Hr'. destruct (IH r' Hr') as (r & Hr & Hc & Hin & Hout). exists r. split; [done|]. split; [done|]. split.
      * intros [Hi|Hi]%elem_of_app; [|apply elem_of_cons in Hi as [->|Hi]; [done|by apply elem_of_nil in Hi] ].
        destruct (Hin Hi) as (w' & Hw' & ->). exists w'. split; [apply elem_of_app; by left|done].
      * intros Hi. apply Hout. set_solver.
Qed.

Lemma rewrite_audit_lookup_None ws n v m id : m !! id = None <-> rewrite_audit ws n v m !! id = None.
Proof.
  unfold rewrite_audit. revert m. induction ws as [|w ws IH]; intros m; cbn; [done|].
  rewrite <- IH, lookup_alter. case_decide as Hid; [|done]. subst. by destruct (m !! w.1).
Qed.

(** ** Commits *)
Lemma update_Ok rid P f code e db u db' :
  update rid P f code (Some e) db = (Ok u, db') ->
  exists c, db_ckpts db !! rid = Some c /\ P c = true /\ db' = set_ckpts db (<[rid := f c]> (db_ckpts db)).
Proof.
  unfold update. rewrite read_bind. destruct (db_ckpts db !! rid) as [c|]; [|done]. destruct (P c) eqn:HP; [|done].
  intros Hp%wrap_code_Ok. unfold put_ckpt in Hp. rewrite read_bind in Hp. do 3 (case_match; [done|]).
  injection Hp as _ <-. eauto.
Qed.

Section Rows.
Context `{fate : Fate} (L : CryptoLib) `{!CryptoLaws L} (ulid : string -> string).
Local Abbreviation inv := (inv L ulid).
Local Abbreviation grows := (grows L).
Local Abbreviation keeps := (keeps inv grows).

(** An envelope that opens to [E] under key [n], version [v], of material [m]. *)
Definition opens (n v : Z) (m codec raw : string) (E : Event) : Prop :=
  exists ev c aad p, unmarshalEvent L raw = Ok ev /\ codec_Resolve codec = Ok c
    /\ Build L ev codec n v = Ok aad /\ Decode L c (ev_Payload ev) (mkKey n v m) aad = Ok p /\ E = set_payload ev p.

(** What re-encryption has established of a row: it is under a key and, unless it was
    late, opens to some [E], to which its new envelope opens under the new key. *)
Definition rewrite_ok (s : St) (n v : Z) (m : string) (w : string * string) : Prop :=
  exists r, db_audit (st_db s) !! w.1 = Some r /\ is_Some (au_dek_ref r)
    /\ (~ late w.1 -> exists E, open_event L (st_db s) w.1 = Some E /\ opens n v m (au_codec r) w.2 E).

Lemma rewrite_ok_grow s s' n v m w : grows s s' -> rewrite_ok s n v m w -> rewrite_ok s' n v m w.
Proof.
  intros G (r & Hr & Hs & Ho). destruct (g_rows _ _ _ G _ _ Hr) as (r' & Hr' & Hc & _ & Hs'). exists r'.
  rewrite Hc. split; [done|]. split; [auto|]. intros Hl. destruct (Ho Hl) as (E & HE & Hopen). exists E.
  split; [|done]. by apply (g_events _ _ _ G).
Qed.

Lemma int32_of_id v : 1 <= v <= int4_max -> int32_of v = v.
Proof. unfold int32_of, int4_max. intros Hv. rewrite Z.mod_small; lia. Qed.

Lemma opens_row keys n v m k w E r :
  keys !! n = Some k -> k_ver k = v -> 1 <= v <= int4_max -> secret L k = Some m -> ~ destroyed k ->
  opens n v m (au_codec r) w E -> open_row L keys (rewritten w n v r) = Some E.
Proof.
  intros Hk Hkv Hv Hm Hd (ev & c & aad & p & He & Hc & Ha & Hp & HE). apply open_row_Some.
  exists n, v, k, m, ev, c, aad, p. cbn. by rewrite int32_of_id.
Qed.

Lemma rewrite_steps s rid c n v m ws :
  inv s -> db_ckpts (st_db s) !! rid = Some c -> live c = true -> ck_NewDEKID c = Some n ->
  material L (st_db s) n v m -> (forall w, w ∈ ws -> rewrite_ok s n v m w) ->
  keeps s (with_db s (rewrite_rows ws n v (st_db s))).
Proof.
  intros HI Hc Hl Hn (k & Hk & Hkv & Hm) Hws. rewrite rewrite_rows_set. eapply rows_keep; [done..|]. intros id.
  destruct (rewrite_audit ws n v (db_audit (st_db s)) !! id) as [r'|] eqn:E.
  - destruct (rewrite_audit_lookup _ _ _ _ _ _ E) as (r & Hr & Hco & Hin & Hout). rewrite Hr. constructor.
    destruct (decide (id ∈ ws.*1)) as [Hi|Hi]; [|left; by apply Hout].
    destruct (Hin Hi) as (w & Hw & ->). destruct (Hws _ Hw) as (r0 & Hr0 & Hs0 & Ho). cbn in *.
    assert (r0 = r) as -> by congruence. right. split; [done|]. split; [done|]. split; [done|].
    intros Hlate e He. destruct (Ho Hlate) as (E0 & HE0 & Hop).
    assert (e = E0) as -> by (unfold open_event in HE0; rewrite Hr in HE0; cbn in HE0; congruence).
    eapply opens_row; eauto.
    + subst v. exact (ko_ver _ _ _ _ (i_keys _ _ _ HI _ _ Hk)).
    + by eapply live_new_undestroyed.
  - apply rewrite_audit_lookup_None in E. rewrite E. constructor.
Qed.

(** The commit of a batch: all rows of it, the count and the cursor, or nothing. *)
Lemma commit_batch_keeps s now rid c old n v m ws lastID :
  inv s -> db_ckpts (st_db s) !! rid = Some c -> ck_OldDEKID c = old -> ck_NewDEKID c = Some n ->
  material L (st_db s) n v m -> (forall w, w ∈ ws -> rewrite_ok s n v m w) ->
  (forall id r, db_audit (st_db s) !! id = Some r -> ~ late id -> au_dek_ref r = Some old ->
     id ∈ ws.*1 \/ String.ltb lastID id = true) ->
  lastID <> EmptyString -> n <> old ->
  tx_keeps L ulid s (atomically (commit_batch now rid ws n v lastID)).
Proof.
  intros HI Hc Ho Hn Hmat Hws Hcov Hlast Hno. unfold tx_keeps. rewrite atomically_2.
  destruct (commit_batch now rid ws n v lastID (st_db s)) as [[u|e] db'] eqn:Ec;
    [|rewrite with_db_self; by apply refl_keeps].
  unfold commit_batch in Ec. rewrite write_bind in Ec. apply txn_bind_Ok in Ec as ([] & db1 & E1 & E2).
  set (s1 := with_db s (rewrite_rows ws n v (st_db s))).
  assert (Hck1 : db_ckpts (st_db s1) = db_ckpts (st_db s)) by (cbn; by rewrite rewrite_rows_set).
  assert (Hl : live c = true).
  { apply update_Ok in E1 as (c1 & Hc1 & Hs & _). cbn in Hck1. rewrite Hck1 in Hc1. assert (c1 = c) as -> by congruence.
    unfold has_status in Hs. bool_prop. unfold live. by rewrite Hs. }
  assert (K1 : keeps s s1) by by eapply rewrite_steps.
  assert (K2 : keeps s1 (with_db s1 (IncrementPhase3Count now rid (Z.of_nat (length ws)) (st_db s1)).2)).
  { apply IncrementPhase3Count_tx. apply K1. }
  change (st_db s1) with (rewrite_rows ws n v (st_db s)) in K2. rewrite E1 in K2. cbn in K2.
  apply (trans_keeps _ _ _ s1); [done|]. apply (trans_keeps _ _ _ (with_db s1 db1)); [done|].
  pose proof (AdvanceCursor_tx L ulid (with_db s1 db1) now rid lastID (proj1 K2)) as K3.
  unfold tx_keeps in K3. cbn in K3. rewrite E2 in K3. apply K3. clear K3.
  intros c2 id r Hc2 Hr Hlate Href. apply update_Ok in E1 as (c1 & Hc1 & _ & ->). cbn in Hr, Hc2.
  rewrite rewrite_rows_set in Hr, Hc1, Hc2. cbn in Hr, Hc1, Hc2.
  rewrite lookup_insert_eq in Hc2. injection Hc2 as <-. assert (c1 = c) as -> by congruence. cbn in Href.
  rewrite Ho in Href. destruct (rewrite_audit_lookup _ _ _ _ _ _ Hr) as (r0 & Hr0 & _ & Hin & Hout).
  destruct (decide (id ∈ ws.*1)) as [Hi|Hi].
  - destruct (Hin Hi) as (w & _ & ->). cbn in Href. congruence.
  - rewrite (Hout Hi) in Href. destruct (Hcov _ _ Hr0 Hlate Href) as [?|Hlt]; [done|]. by destruct lastID.
Qed.

Lemma commit_batch_Ok now rid ws n v lastID db u db' :
  atomically (commit_batch now rid ws n v lastID) db = (Ok u, db') ->
  db_audit db' = rewrite_audit ws n v (db_audit db).
Proof.
  intros Ha. assert (Hc : commit_batch now rid ws n v lastID db = (Ok u, db')).
  { unfold atomically in Ha. destruct (commit_batch _ _ _ _ _ _ db) as [[]]; congruence. }
  unfold commit_batch in Hc. rewrite write_bind in Hc. apply txn_bind_Ok in Hc as ([] & db1 & E1 & E2).
  apply update_Ok in E1 as (c1 & _ & _ & ->). apply update_Ok in E2 as (c2 & _ & _ & ->). cbn. by rewrite rewrite_rows_set.
Qed.
End Rows.
