(* ===== verification/DekSafety.v ===== *)
(** The programs of the manager and of the orchestrator keep the invariant, each
    running among any others. *)

From S2P Require Import Prelude GoStrings Sql Programs DekTypes EventCrypto DekCache DekCacheFacts DekStore DekManager Rekey DekInv DekInvOps DekInvTx.

Open Scope string_scope.
Open Scope Z_scope.
Open Scope prog_scope.

Abbreviation post := on_Ok.

Section Safety.
Context `{fate : Fate} (L : CryptoLib) `{!CryptoLaws L} (ulid : string -> string).
Local Abbreviation inv := (inv L ulid).
Local Abbreviation grows := (grows L).
Local Abbreviation keeps := (keeps inv grows).
Local Abbreviation wp := (wp exec (fun _ en => env_ok L en) inv grows).



Definition any {A} (s : St) (a : A) : Prop := True.

(** ** Sequencing *)
Lemma wp_seq {A B} (p : dprog A) (k : A -> dprog B) P Q s :
  wp p P s -> (forall d a, grows s d -> P d a -> wp (k a) Q d) -> wp (p ≫= k) Q s.
Proof. apply rg_wp_seq. apply _. Qed.

Lemma seq_try {A B} (p : dprog (result A)) (h : error -> dprog B) (k : A -> dprog B) P Q s :
  wp p (post P) s -> (forall e d, wp (h e) Q d) -> (forall d a, grows s d -> P d a -> wp (k a) Q d) ->
  wp (try_ p h k) Q s.
Proof. apply rg_seq_try. apply _. Qed.

(** ** Calls *)
Lemma wp_db {A} (f : Clock -> tx A) P s :
  (forall s1 ck, grows s s1 -> inv s1 -> tx_keeps L ulid s1 (f ck)
     /\ forall a db', f ck (st_db s1) = (Ok a, db') -> keeps s1 (with_db s1 db') -> P (with_db s1 db') a) ->
  wp (db f) (post P) s.
Proof.
  intros Hf. apply wp_call. intros s1 en HR HI Hok. destruct (Hf s1 (en_clock en) HR HI) as [Hk HP].
  unfold tx_keeps in Hk. cbn. destruct (en_fault en) as [|e|e].
  - destruct (f (en_clock en) (st_db s1)) as [[a|e] db'] eqn:E; cbn in *; [|done]. split; [done|]. by apply HP.
  - cbn. split; [by apply refl_keeps|done].
  - cbn. done.
Qed.

Lemma wp_db_pure {A} (f : Clock -> tx A) (P : St -> A -> Prop) s :
  (forall ck, pure_tx (f ck)) ->
  (forall s1 ck a, grows s s1 -> inv s1 -> f ck (st_db s1) = (Ok a, st_db s1) -> P s1 a) ->
  wp (db f) (post P) s.
Proof.
  intros Hp HP. apply wp_db. intros s1 ck HR HI. split; [by apply pure_keeps|].
  intros a db' E _. assert (db' = st_db s1) as -> by (rewrite <- (Hp ck (st_db s1)), E; done).
  rewrite with_db_self. by eapply HP.
Qed.

(** A statement of which nothing is known but that it keeps the invariant. *)
Lemma wp_db_any {A} (f : Clock -> tx A) s :
  (forall s1 ck, grows s s1 -> inv s1 -> tx_keeps L ulid s1 (f ck)) -> wp (db f) (post any) s.
Proof. intros Hf. apply wp_db. intros s1 ck HR HI. split; [by apply Hf|done]. Qed.

Lemma wp_ask {A} (q : ask A) (P : St -> A -> Prop) s :
  (forall s1 a, grows s s1 -> inv s1 -> answer_ok L q a -> P s1 a) -> wp (asks q) P s.
Proof.
  intros HP. apply wp_call. intros s1 en HR HI [Hok _]. cbn. split; [by apply refl_keeps|]. by apply HP.
Qed.

Lemma wp_ask_post {A} (q : ask (result A)) (P : St -> A -> Prop) s :
  (forall s1 a, grows s s1 -> inv s1 -> answer_ok L q (Ok a) -> P s1 a) -> wp (asks q) (post P) s.
Proof. intros HP. apply wp_ask. intros s1 [a|e] HR HI Hok; [by apply HP|done]. Qed.

(** *** Caches *)
Lemma key_cache_sound s srv : inv s -> cache_sound L (st_db s) (key_cache srv s).
Proof.
  intros HI. unfold key_cache. destruct (st_keys s !! srv) as [c|] eqn:E; [by apply (i_caches _ _ _ HI srv)|].
  cbn. split; [apply new_cache_ok|]. intros en Hen. cbn in Hen. by apply elem_of_nil in Hen.
Qed.

Lemma wp_LocalKeys {A} srv (f : Z -> KeyCache -> A * KeyCache) (P : St -> A -> Prop) s :
  (forall s1 now c, grows s s1 -> inv s1 -> cache_sound L (st_db s1) c ->
     cache_sound L (st_db s1) (f now c).2 /\ forall s2, st_db s2 = st_db s1 -> P s2 (f now c).1) ->
  wp (Programs.call (LocalKeys srv f)) P s.
Proof.
  intros Hf. apply wp_call. intros s1 en HR HI _.
  destruct (Hf s1 (cl_go (en_clock en)) (key_cache srv s1) HR HI (key_cache_sound _ _ HI)) as [Hs HP].
  cbn. destruct (f _ (key_cache srv s1)) as [a c'] eqn:E. cbn in *. split; [by apply cache_keep|by apply HP].
Qed.

Lemma part_cache_sound s srv : inv s -> parts_sound (st_db s) (part_cache srv s).
Proof.
  intros HI. unfold part_cache. destruct (st_parts s !! srv) as [c|] eqn:E; [by apply (i_parts _ _ _ HI srv)|].
  cbn. split; [apply new_cache_ok|]. intros en Hen. cbn in Hen. by apply elem_of_nil in Hen.
Qed.

Lemma wp_LocalParts {A} srv (f : Z -> PartCache -> A * PartCache) (P : St -> A -> Prop) s :
  (forall s1 now c, grows s s1 -> inv s1 -> parts_sound (st_db s1) c ->
     parts_sound (st_db s1) (f now c).2 /\ forall s2, st_db s2 = st_db s1 -> P s2 (f now c).1) ->
  wp (Programs.call (LocalParts srv f)) P s.
Proof.
  intros Hf. apply wp_call. intros s1 en HR HI _.
  destruct (Hf s1 (cl_go (en_clock en)) (part_cache srv s1) HR HI (part_cache_sound _ _ HI)) as [Hs HP].
  cbn. destruct (f _ (part_cache srv s1)) as [a c'] eqn:E. cbn in *. split; [by apply parts_keep|by apply HP].
Qed.

Lemma lru_op_elem {K} `{Countable K} {V} cap ttl (o : op K V) l en :
  en ∈ (lru_op cap ttl o l).2 -> en ∈ l \/ exists now k x v, o = OpPut now k x v /\ ce_key en = k /\ ce_value en = v.
Proof.
  destruct o as [now k|now k x v|k|x]; cbn; unfold without.
  - destruct (find_key k l) as [e|] eqn:Hf; [|by left].
    assert (Hin : e ∈ l) by (unfold find_key in Hf; apply head_Some_elem_of, list_elem_of_filter in Hf; tauto).
    destruct (ce_expiresAt e <? now); cbn; rewrite ?elem_of_cons, list_elem_of_filter; naive_solver.
  - intros Hin. assert (Hin' : en ∈ mkEntry k x v (now + ttl) :: filter (fun y => ce_key y <> k) l).
    { eapply elem_of_submseteq; [exact Hin|]. apply sublist_submseteq, sublist_take. }
    apply elem_of_cons in Hin' as [->|Hin']; [right; eauto 10|left]. by apply list_elem_of_filter in Hin' as [_ ?].
  - rewrite list_elem_of_filter. naive_solver.
  - rewrite list_elem_of_filter. naive_solver.
Qed.

Lemma cache_sound_op db (o : op CacheKey string) c :
  cache_sound L db c ->
  (forall now k x v, o = OpPut now k x v -> material L db (kk_KeyID k) (kk_Version k) v) ->
  cache_sound L db (cache_op o c).2.
Proof.
  intros [Hok Hm] Hput. destruct (op_refines o c Hok) as (Hok' & _ & _ & Heq). split; [done|].
  intros en Hen. replace (view (cache_op o c).2) with (lru_op (ca_cap c) (ca_ttl c) o (view c)).2 in Hen by by rewrite Heq.
  apply lru_op_elem in Hen as [Hen|(now & k & x & v & Ho & <- & <-)]; [by apply Hm|by eapply Hput].
Qed.

Lemma cache_get_hit db now k c m : cache_sound L db c -> (cache_Get now k c).1 = Some m ->
  material L db (kk_KeyID k) (kk_Version k) m.
Proof.
  intros [Hok Hm] Hg. destruct (get_refines now k c Hok) as (_ & _ & _ & Heq).
  rewrite Hg in Heq. unfold lru_op in Heq. destruct (find_key k (view c)) as [e|] eqn:Hf; [|congruence].
  unfold find_key in Hf. apply head_Some_elem_of, list_elem_of_filter in Hf as [<- Hin].
  destruct (ce_expiresAt e <? now); [congruence|]. injection Heq as <- _. by apply Hm.
Qed.

(** Operations but [Put] only drop entries. *)
Lemma parts_sound_op db (o : op ParticipantsCacheKey (list Participant)) c :
  parts_sound db c -> (forall now k x v, o <> OpPut now k x v) -> parts_sound db (cache_op o c).2.
Proof.
  intros [Hok Hm] Hput. destruct (op_refines o c Hok) as (Hok' & _ & _ & Heq). split; [done|].
  intros en Hen. replace (view (cache_op o c).2) with (lru_op (ca_cap c) (ca_ttl c) o (view c)).2 in Hen by by rewrite Heq.
  apply lru_op_elem in Hen as [Hen|(now & k & x & v & Ho & _)]; [by apply Hm|by destruct (Hput now k x v)].
Qed.

Lemma parts_sound_put db now k ps c :
  parts_sound db c -> enrolled db (pk_ctx k) (pk_Version k) ps -> parts_sound db (part_Put now k (pk_ctx k) ps c).
Proof.
  intros [Hok Hm] He. destruct (part_put_refines pk_ctx now k ps c Hok) as (Hok' & _ & _ & Hv); [apply Hm|].
  split; [done|]. rewrite Hv. intros en Hen.
  assert (Hin : en ∈ mkEntry k (pk_ctx k) ps (now + ca_ttl c) :: without k (view c)).
  { eapply elem_of_submseteq; [exact Hen|]. apply sublist_submseteq, sublist_take. }
  apply elem_of_cons in Hin as [->|Hin]; [done|]. apply list_elem_of_filter in Hin as [_ Hin]. by apply Hm.
Qed.

Lemma parts_get_hit db now k c ps : parts_sound db c -> (cache_Get now k c).1 = Some ps ->
  enrolled db (pk_ctx k) (pk_Version k) ps.
Proof.
  intros [Hok Hm] Hg. destruct (get_refines now k c Hok) as (_ & _ & _ & Heq).
  rewrite Hg in Heq. unfold lru_op in Heq. destruct (find_key k (view c)) as [e|] eqn:Hf; [|congruence].
  unfold find_key in Hf. apply head_Some_elem_of, list_elem_of_filter in Hf as [<- Hin].
  destruct (ce_expiresAt e <? now); [congruence|]. injection Heq as <- _. by apply Hm.
Qed.

Lemma wp_partGet sv k s :
  wp (partGet sv k) (fun d r => forall ps, r = Some ps -> enrolled (st_db d) (pk_ctx k) (pk_Version k) ps) s.
Proof.
  apply wp_LocalParts. intros s1 now c HR HI Hs. split.
  - by apply (parts_sound_op _ (OpGet now k)).
  - intros s2 -> ps Hps. by eapply parts_get_hit.
Qed.

Lemma wp_partPut sv x v ps s : enrolled (st_db s) x v ps -> wp (partPut sv (part_key x v) ps) any s.
Proof.
  intros He. apply wp_LocalParts. intros s1 now c HR HI Hs. split; [|done]. apply parts_sound_put; [done|].
  destruct x as [ty i]. eapply enrolled_grow; [apply HR|exact He].
Qed.

Lemma wp_partInvalidateContext sv x s : wp (partInvalidateContext sv x) any s.
Proof.
  apply wp_LocalParts. intros s1 now c HR HI Hs. split; [|done]. by apply (parts_sound_op _ (OpInvalidateContext x)).
Qed.

Lemma wp_cacheGet sv k s :
  wp (cacheGet sv k) (fun d r => forall m, r = Some m -> material L (st_db d) (kk_KeyID k) (kk_Version k) m) s.
Proof.
  apply wp_LocalKeys. intros s1 now c HR HI Hs. split.
  - by apply (cache_sound_op _ (OpGet now k)).
  - intros s2 -> m Hm. by eapply cache_get_hit.
Qed.

Lemma wp_cachePut sv k x m s : material L (st_db s) (kk_KeyID k) (kk_Version k) m -> wp (cachePut sv k x m) any s.
Proof.
  intros Hm. apply wp_LocalKeys. intros s1 now c HR HI Hs. split; [|done].
  apply (cache_sound_op _ (OpPut now k x m)); [done|]. intros ? ? ? ? [= <- <- <- <-].
  eapply material_grow; [apply HR|done].
Qed.

Lemma wp_cacheInvalidateContext sv x s : wp (cacheInvalidateContext sv x) any s.
Proof.
  apply wp_LocalKeys. intros s1 now c HR HI Hs. split; [|done]. by apply (cache_sound_op _ (OpInvalidateContext x)).
Qed.

(** ** The manager *)

(** A row as read: its key exists, with the columns read. *)
Definition row_of (s : St) (x : ContextID) (r : row) : Prop :=
  exists k, db_keys (st_db s) !! r_ID r = Some k /\ k_ctx k = x /\ r_ctx r = x /\ k_ver k = r_Version r
    /\ r_WrappedDEK (kr_row k) = r_WrappedDEK r /\ r_WrapKeyID (kr_row k) = r_WrapKeyID r
    /\ r_Participants r ⊆ r_Participants (kr_row k).

Lemma row_of_grow s s' x r : grows s s' -> row_of s x r -> row_of s' x r.
Proof.
  intros G (k & Hk & Hx & Hr & Hv & Hw & Hi & Hp).
  destruct (g_keys _ _ _ G _ _ Hk) as (k' & Hk' & (_ & Hx' & Hv' & Hw' & Hi' & Hp') & _).
  exists k'. rewrite Hx', Hv', Hw', Hi'. do 6 (split; [done|]). by transitivity (r_Participants (kr_row k)).
Qed.

Lemma row_of_enrolled s x r : row_of s x r -> enrolled (st_db s) x (r_Version r) (r_Participants r).
Proof. intros (k & Hk & Hx & _ & Hv & _ & _ & Hp). by exists (r_ID r), k. Qed.

Lemma row_of_lookup s id k : inv s -> db_keys (st_db s) !! id = Some k -> row_of s (k_ctx k) (kr_row k).
Proof. intros HI Hk. exists k. by rewrite (ko_id _ _ _ _ (i_keys _ _ _ HI _ _ Hk)). Qed.

(** A key as returned: its bytes are what its row wraps. *)
Definition key_sound (s : St) (key : Key) : Prop := material L (st_db s) (k_ID key) (k_Version key) (k_Bytes key).

Lemma key_sound_grow s s' key : grows s s' -> key_sound s key -> key_sound s' key.
Proof. intros G. apply material_grow, G. Qed.

Definition key_in (s : St) (x : ContextID) (key : Key) : Prop :=
  key_sound s key /\ exists k, db_keys (st_db s) !! k_ID key = Some k /\ k_ctx k = x.

Lemma wp_unwrapAndCache sv x r s : row_of s x r ->
  wp (unwrapAndCache sv r) (post (fun d key => key_in d x key /\ k_ID key = r_ID r /\ k_Version key = r_Version r)) s.
Proof.
  intros Hrow. unfold unwrapAndCache. eapply seq_try; [|done|].
  - apply (wp_ask_post _ (fun d m => row_of d x r /\ kek_unwrap L (r_WrappedDEK r) (r_WrapKeyID r) = Some m)).
    intros s1 m G _ Hok. split; [by eapply row_of_grow|]. by apply Hok.
  - intros d m _ [Hrow' Hm]. pose proof (row_of_enrolled _ _ _ Hrow') as He.
    destruct Hrow' as (k & Hk & Hx & Hrx & Hv & Hw & Hi & _). case_match; [|done].
    assert (Hmat : material L (st_db d) (r_ID r) (r_Version r) m).
    { exists k. split; [done|]. split; [done|]. unfold secret. by rewrite Hw, Hi. }
    eapply wp_seq; [by apply wp_cachePut|]. intros d1 _ G1 _.
    eapply wp_seq; [apply wp_partPut; rewrite Hrx; eapply enrolled_grow; [apply G1|done]|]. intros d2 _ G2 _.
    assert (G : grows d d2) by by etransitivity.
    cbn. split; [|done]. split; [by eapply (key_sound_grow d d2 (mkKey (r_ID r) (r_Version r) m))|].
    destruct (g_keys _ _ _ G _ _ Hk) as (k' & Hk' & (_ & Hx' & _) & _). exists k'. split; [done|congruence].
Qed.

Lemma wp_selectActive x s : wp (db (fun _ => selectActive x)) (post (fun d r => row_of d x r)) s.
Proof.
  apply wp_db_pure; [intros; apply pure_selectActive|]. intros s1 ck r G HI E.
  apply selectActive_Ok in E as (id & k & Hk & <- & <-). by eapply row_of_lookup.
Qed.

Lemma wp_selectByPK id s : wp (db (fun _ => selectByPK id)) (post (fun d r => exists k, db_keys (st_db d) !! id = Some k /\ kr_row k = r)) s.
Proof. apply wp_db_pure; [intros; apply pure_selectByPK|]. intros s1 ck r G HI E. by eapply selectByPK_Ok. Qed.

(** [Resolve]: the material wrapped in the row asked for. *)
Lemma wp_Resolve sv id v s :
  wp (Resolve sv id v) (post (fun d key => key_sound d key /\ k_ID key = id /\ k_Version key = v)) s.
Proof.
  unfold Resolve. eapply wp_seq; [apply wp_cacheGet|]. intros d [m|] G Hm.
  { cbn. split; [|done]. unfold key_sound. cbn. by apply (Hm m). }
  eapply (seq_try _ _ _ (fun d r => exists x, row_of d x r /\ r_ID r = id /\ r_Version r = v)).
  - apply wp_db_pure; [intros; apply pure_selectByID|]. intros s1 ck r G1 HI E.
    apply selectByID_Ok in E as (k & Hk & <- & Hv). exists (k_ctx k).
    split; [by eapply row_of_lookup|]. split; [by apply (ko_id _ _ _ _ (i_keys _ _ _ HI _ _ Hk))|done].
  - intros e d1. unfold select_error. by case_match.
  - intros d1 r G1 (x & Hr & Hid & Hv). eapply rg_wp_mono; [|by apply wp_unwrapAndCache].
    intros d2 [key|e]; cbn; [|done]. intros ([? _] & ? & ?). split; [done|]. split; congruence.
Qed.

(** Fresh key material: 32 bytes, and their wrapping. *)
Lemma wp_fresh_dek c1 c2 s :
  wp (fresh_dek c1 c2) (post (fun _ d => kek_unwrap L d.1.2 d.2 = Some d.1.1 /\ String.length d.1.1 = DEKByteLength)) s.
Proof.
  unfold fresh_dek. eapply seq_try; [|done|].
  - apply (wp_ask_post _ (fun _ x => String.length x = DEKByteLength)). intros s1 x _ _ Hok. by apply Hok.
  - intros d x _ Hx. eapply seq_try; [|done|].
    + apply (wp_ask_post _ (fun _ w => exists rnd, w = kek_wrap L rnd x)). intros s1 w _ _ Hok. by apply Hok.
    + intros d1 w _ [rnd ->]. destruct (validateProviderWrapOutput _ _); [|done]. split; [apply unwrap_wrap|done].
Qed.

Lemma wp_resolve_bindings ps s : wp (resolve_bindings ps) (post any) s.
Proof.
  revert s. induction ps as [|p ps IH]; intros s; cbn; [done|]. eapply (seq_try _ _ _ any); [|done|].
  - unfold resolve_binding. case_match; [|done]. eapply (seq_try _ _ _ any); [by apply (wp_ask_post _ any)|done|done].
  - intros d p' _ _. eapply (seq_try _ _ _ any); [apply IH|done|done].
Qed.

Lemma insert_row_Ok x v wrapped prov kid ps t b db id db' :
  insert_key x v wrapped prov kid ps t b db = (Ok id, db') ->
  exists k, db_keys db' !! id = Some k /\ k_ctx k = x /\ k_ver k = v /\ r_WrappedDEK (kr_row k) = wrapped
    /\ r_WrapKeyID (kr_row k) = kid /\ r_Participants (kr_row k) = ps /\ kr_rekeyed k = b.
Proof. intros (_ & Hk & _)%insert_key_Ok. eexists. split; [done|]. by destruct x. Qed.

Lemma wp_GetOrCreate sv x ps s : wp (GetOrCreate sv x ps) (post (fun d key => key_in d x key)) s.
Proof.
  assert (Hunwrap : forall r d, row_of d x r -> wp (unwrapAndCache sv r) (post (fun d key => key_in d x key)) d).
  { intros r d Hr. eapply rg_wp_mono; [|by apply wp_unwrapAndCache]. intros d' [key|]; cbn; [|done]. tauto. }
  unfold GetOrCreate. eapply wp_seq; [apply wp_selectActive|]. intros d [r|e] _ HP; [by apply Hunwrap|].
  case_match; [done|]. eapply seq_try; [apply wp_fresh_dek|done|]. intros d1 [[m w] kid] _ [Hw Hm].
  eapply (seq_try _ _ _ any); [apply wp_resolve_bindings|done|]. intros d2 resolved _ _.
  eapply (wp_seq _ _ (post (fun d id => key_in d x (mkKey id 1 m) /\ enrolled (st_db d) x 1 resolved))).
  - apply wp_db. intros s1 ck G1 HI. split; [apply insert_tx; [done|done|eauto] |].
    intros id db' Hi%on_error_Ok _. apply insert_row_Ok in Hi as (k & Hk & Hx & Hv & Hww & Hki & Hps & _). cbn in *.
    split; [|exists id, k; split; [done|]; split; [by destruct x|]; split; [done|by rewrite Hps] ].
    split; exists k; [|split; [done|by destruct x] ]. split; [done|]. split; [done|]. unfold secret. by rewrite Hww, Hki.
  - intros d3 [id|e'] _ Hin.
    + destruct Hin as [Hin He]. eapply wp_seq; [apply wp_cachePut, Hin|]. intros d4 _ G4 _.
      eapply wp_seq; [apply wp_partPut; eapply enrolled_grow; [apply G4|done]|]. intros d5 _ G5 _.
      assert (G : grows d3 d5) by by etransitivity. destruct Hin as [Hs (k & Hk & Hx)]. cbn. split.
      * by eapply (key_sound_grow d3 d5 (mkKey id 1 m)).
      * destruct (g_keys _ _ _ G _ _ Hk) as (k' & Hk' & (_ & Hx' & _) & _). exists k'. split; [done|congruence].
    + case_match; [|done]. eapply seq_try; [apply wp_selectActive|done|]. intros d4 r _ Hr. by apply Hunwrap.
Qed.

(** Stale participants are participants: whatever [Participants] returns, from the
    row or from the cache, is in the row of the key. *)
Definition listed (s : St) (id v : Z) (ps : list Participant) : Prop :=
  exists k, db_keys (st_db s) !! id = Some k /\ k_ver k = v /\ ps ⊆ r_Participants (kr_row k).

Lemma listed_grow s s' id v ps : grows s s' -> listed s id v ps -> listed s' id v ps.
Proof.
  intros G (k & Hk & Hv & Hp). destruct (g_keys _ _ _ G _ _ Hk) as (k' & Hk' & (_ & _ & Hv' & _ & _ & Hp') & _).
  exists k'. split; [done|]. split; [congruence|]. by transitivity (r_Participants (kr_row k)).
Qed.

Lemma wp_selectByID id v s :
  wp (db (fun _ => selectByID id v)) (post (fun d r => row_of d (r_ctx r) r /\ r_ID r = id /\ r_Version r = v)) s.
Proof.
  apply wp_db_pure; [intros; apply pure_selectByID|]. intros s1 ck r _ HI E.
  apply selectByID_Ok in E as (k & Hk & <- & Hv). split; [by eapply row_of_lookup|].
  split; [by apply (ko_id _ _ _ _ (i_keys _ _ _ HI _ _ Hk))|done].
Qed.

Lemma wp_Participants sv id v s : wp (Participants sv id v) (post (fun d ps => listed d id v ps)) s.
Proof.
  unfold Participants. eapply seq_try; [apply wp_selectByID| |].
  { intros e d. unfold select_error. by case_match. }
  intros d r _ (Hr & <- & <-). set (key := part_key (r_ctx r) (r_Version r)).
  eapply (wp_seq _ _ (fun d1 c => forall ps, c = Some ps -> listed d1 (r_ID r) (r_Version r) ps)).
  - apply wp_LocalParts. intros s1 now c G HI Hs. split; [by apply (parts_sound_op _ (OpGet now key))|].
    intros s2 Hdb ps Hg. destruct (parts_get_hit _ _ _ _ _ Hs Hg) as (i & k & Hk & Hx & Hv & Hp).
    destruct (row_of_grow _ _ _ _ G Hr) as (k0 & Hk0 & Hx0 & _ & Hv0 & _).
    assert (i = r_ID r) as ->.
    { apply (i_uniq _ _ _ HI _ _ _ _ Hk Hk0); [rewrite Hx, Hx0; by destruct r|]. rewrite Hv, Hv0. done. }
    exists k. rewrite Hdb. done.
  - intros d1 [ps|] G Hc; [by apply Hc|].
    pose proof (row_of_grow _ _ _ _ G Hr) as Hr1. eapply wp_seq; [by apply wp_partPut, row_of_enrolled|].
    intros d2 _ G2 _. cbn. apply (listed_grow d1); [done|].
    destruct Hr1 as (k & Hk & _ & _ & Hv & _ & _ & Hp). by exists k.
Qed.

Lemma updateParticipants_Ok x p d ra d' :
  atomically (updateParticipants x p) d = (Ok ra, d') -> enrolled d' x (r_Version ra.1) (r_Participants ra.1).
Proof.
  rewrite atomically_Ok. unfold updateParticipants. tx_cbn.
  destruct (active_key x d) as [[id k]|] eqn:E; [|done]. apply active_key_Some in E as (Hk & Hx & _).
  destruct (existsb _ _); tx_cbn; intros [= <- <-]; [by exists id, k|].
  exists id. eexists. cbn. rewrite lookup_insert_eq. split; [done|]. cbn. done.
Qed.

Lemma wp_Add sv x p s : wp (Add sv x p) (post any) s.
Proof.
  unfold Add. eapply (seq_try _ _ _ any); [|done|].
  { unfold resolve_binding. case_match; [|done]. eapply (seq_try _ _ _ any); [by apply (wp_ask_post _ any)|done|done]. }
  intros d p' _ _. eapply (seq_try _ _ _ (fun d ra => enrolled (st_db d) x (r_Version ra.1) (r_Participants ra.1))); [|done|].
  { apply wp_db. intros s1 ck _ HI. split; [apply atomically_keeps; [done|]; by apply updateParticipants_tx|].
    intros ra db' Hra _. by eapply updateParticipants_Ok. }
  intros d1 [r added] _ He. case_match; [done|]. eapply wp_seq; [by apply wp_partPut|]. intros d2 _ _ _.
  unfold invalidate. eapply (wp_seq _ _ any); [by apply wp_ask|]. by intros d3 [].
Qed.

Lemma wp_EnsureParticipant sv x p s : wp (EnsureParticipant sv x p) (post any) s.
Proof. eapply seq_try; [apply wp_GetOrCreate|done|]. intros. apply wp_Add. Qed.

(** *** Rotation

    A key minted by a rotation: its columns, and that no rekey minted it. *)
Definition rotated_in (s : St) (id : Z) (x : ContextID) (v : Z) : Prop :=
  exists k, db_keys (st_db s) !! id = Some k /\ k_ctx k = x /\ k_ver k = v /\ kr_rekeyed k = false.

Lemma rotated_in_grow s s' id x v : grows s s' -> rotated_in s id x v -> rotated_in s' id x v.
Proof.
  intros G (k & Hk & Hx & Hv & Hb). destruct (g_keys _ _ _ G _ _ Hk) as (k' & Hk' & ((_ & Hb') & Hx' & Hv' & _) & _).
  exists k'. split; [done|]. split; [congruence|]. split; congruence.
Qed.

Lemma wp_insert_rotated sv x v m w kid ps s :
  (forall s1, grows s s1 -> inv s1 -> 1 <= v) -> kek_unwrap L w kid = Some m -> String.length m = DEKByteLength ->
  wp (db (fun ck => insert (cl_db ck) (new_row sv x v w kid ps)))
    (post (fun d id => rotated_in d id x v /\ material L (st_db d) id v m /\ enrolled (st_db d) x v ps)) s.
Proof.
  intros Hv Hw Hm. apply wp_db. intros s1 ck G HI. split; [apply insert_tx; [done|by apply (Hv s1)|eauto] |].
  intros id db' Hi%on_error_Ok _. apply insert_row_Ok in Hi as (k & Hk & Hx & Hkv & Hww & Hki & Hps & Hb). cbn in *.
  assert (k_ctx k = x) by by destruct x. split; [by exists k|]. split.
  - exists k. split; [done|]. split; [done|]. unfold secret. by rewrite Hww, Hki.
  - exists id, k. split; [done|]. split; [done|]. split; [done|]. by rewrite Hps.
Qed.

(** The key of a withdrawn rotation is destroyed, any key marked rotated. *)
Lemma markDestroyed_tx s t id x v : inv s -> rotated_in s id x v -> withdrawn x v ->
  tx_keeps L ulid s (markDestroyed t id v).
Proof.
  intros HI (k & Hk & <- & <- & Hb) Hw. unfold tx_keeps, markDestroyed. tx_cbn. rewrite Hk.
  destruct (_ =? _); tx_cbn; [|rewrite with_db_self; by apply refl_keeps].
  apply put_key_keep with (k := k); [done|done|]. unfold destroy. destruct (kr_destroyed_at k) eqn:Hd; [apply key_step_refl|].
  repeat split; auto; cbn; [unfold destroyed; rewrite Hd; by intros []|]. intros _. right.
  split; [by eapply withdrawn_unreferenced|]. left. done.
Qed.

Lemma markRotated_tx s t id v n : inv s -> tx_keeps L ulid s (markRotated t id v n).
Proof.
  intros HI. unfold tx_keeps, markRotated. tx_cbn.
  assert (Hs : keeps s (with_db s (st_db s))) by (rewrite with_db_self; by apply refl_keeps).
  destruct (db_keys (st_db s) !! id) as [k|] eqn:Hk; [|done]. destruct (_ && _); [|done]. case_bool_decide; [|done].
  tx_cbn. apply put_key_keep with (k := k); [done|done|]. repeat split; auto.
Qed.

Lemma wp_cacheInvalidate sv k s : wp (cacheInvalidate sv k) any s.
Proof. apply wp_LocalKeys. intros s1 now c HR HI Hs. split; [|done]. by apply (cache_sound_op _ (OpInvalidate k)). Qed.

Lemma wp_partInvalidate sv k s : wp (partInvalidate sv k) any s.
Proof. apply wp_LocalParts. intros s1 now c HR HI Hs. split; [|done]. by apply (parts_sound_op _ (OpInvalidate k)). Qed.

Lemma wp_Rotate sv x ps s : wp (Rotate sv x ps) (post any) s.
Proof.
  unfold Rotate. eapply seq_try; [apply wp_selectActive|done|]. intros d active _ Hr.
  eapply seq_try; [apply wp_fresh_dek|done|]. intros d1 [[m w] kid] G1 [Hw Hm]. cbn in Hw, Hm.
  set (v := u32_wrap (r_Version active + 1)). cbn [fst snd].
  eapply seq_try; [apply (wp_insert_rotated sv x v m w kid ps); [|done|done]|done|].
  { intros s1 G HI. destruct (row_of_grow _ _ _ _ (transitivity G1 G) Hr) as (k & Hk & _ & _ & Hv & _).
    pose proof (ko_ver _ _ _ _ (i_keys _ _ _ HI _ _ Hk)) as Hb. rewrite Hv in Hb. unfold int4_max in Hb.
    unfold v, u32_wrap. rewrite Z.mod_small; lia. }
  intros d2 id _ (Hin & Hmat & He). eapply wp_seq; [by apply wp_cachePut|]. intros d3 _ G3 _.
  eapply wp_seq; [apply wp_partPut; eapply enrolled_grow; [apply G3|exact He]|]. intros d4 _ G4 _.
  pose proof (rotated_in_grow _ _ _ _ _ (transitivity G3 G4) Hin) as Hin4. unfold invalidate.
  eapply (wp_seq _ _ (fun _ i => forall e, i = Err e -> withdrawn x v)).
  { eapply (wp_seq _ _ (fun _ a => is_Some a -> withdrawn x v)); [apply wp_ask; intros s1 a _ _ Ha; by apply Ha|].
    intros d5 [ce|] _ Ha; [|done]. intros e _. by apply Ha. }
  intros d5 [u|e] G5 Hi; [apply wp_db_any; intros; by apply markRotated_tx|].
  eapply wp_seq; [apply wp_cacheInvalidate|]. intros d6 _ G6 _. eapply wp_seq; [apply wp_partInvalidate|].
  intros d7 _ G7 _. eapply (wp_seq _ _ (post any)); [|done]. apply wp_db_any. intros s1 ck G8 HI.
  apply markDestroyed_tx with (x := x); [done| |by eapply Hi].
  eapply rotated_in_grow; [|exact Hin4]. do 3 (etransitivity; [eassumption|]). done.
Qed.

Lemma wp_ActiveDEKRow x s : wp (ActiveDEKRow x) (post any) s.
Proof.
  unfold ActiveDEKRow. eapply wp_seq; [apply wp_selectActive|]. intros d [r|e] _ _; [done|]. by case_match.
Qed.

Lemma wp_VersionForDEKID id s :
  wp (VersionForDEKID id) (post (fun d v => exists k, db_keys (st_db d) !! id = Some k /\ k_ver k = v)) s.
Proof.
  unfold VersionForDEKID. eapply seq_try; [apply wp_selectByPK| |].
  - intros e d. unfold select_error. by case_match.
  - intros d r _ (k & Hk & <-). cbn. eauto.
Qed.

Lemma wp_EvictCachedDEK sv id s : wp (EvictCachedDEK sv id) (post any) s.
Proof.
  unfold EvictCachedDEK. eapply wp_seq; [apply wp_selectByPK|]. intros d [r|e] _ _; [|by case_match].
  eapply (wp_seq _ _ any); [apply wp_cacheInvalidateContext|]. intros d1 _ _ _.
  eapply (wp_seq _ _ any); [apply wp_partInvalidateContext|done].
Qed.

Lemma wp_ResolveIntegrity s : wp ResolveIntegrity (post any) s.
Proof.
  unfold ResolveIntegrity. eapply (seq_try _ _ _ any); [|done|].
  { apply wp_db_any. intros. apply pure_keeps; [done|apply pure_conflicted]. }
  intros d xs _ _. revert d. induction xs as [|x xs IH]; intros d; [done|].
  eapply (seq_try _ _ _ any); [|done|intros; apply IH]. apply wp_db_any. intros. by apply rotate_older_tx.
Qed.

(** *** Minting for a rekey

    The new key succeeds the old in its context, and no rekey had started from it
    when it was minted. *)
Definition succeeds (s : St) (o n : Z) : Prop :=
  exists k k', db_keys (st_db s) !! o = Some k /\ db_keys (st_db s) !! n = Some k'
    /\ k_ctx k' = k_ctx k /\ k_ver k' = k_ver k + 1 /\ kr_rekeyed k' = true.

Lemma succeeds_grow s s' o n : grows s s' -> succeeds s o n -> succeeds s' o n.
Proof.
  intros G (k & k' & Hk & Hk' & Hx & Hv & Hb). destruct (g_keys _ _ _ G _ _ Hk) as (k1 & Hk1 & (_ & X1 & V1 & _) & _).
  destruct (g_keys _ _ _ G _ _ Hk') as (k2 & Hk2 & ((_ & B2) & X2 & V2 & _) & _). exists k1, k2.
  split; [done|]. split; [done|]. split; [congruence|]. split; [lia|congruence].
Qed.

Definition unstarted (s : St) (n : Z) : Prop :=
  forall rid c, db_ckpts (st_db s) !! rid = Some c -> ck_OldDEKID c <> n.

Lemma wp_MintNewDEKForRekey sv o s :
  wp (MintNewDEKForRekey sv o)
     (post (fun d n => exists s0, grows s s0 /\ grows s0 d /\ unstarted s0 n /\ succeeds s0 o n)) s.
Proof.
  unfold MintNewDEKForRekey. eapply seq_try; [apply wp_selectByPK|done|]. intros d oldRow G0 (k & Hk & <-).
  eapply seq_try; [apply wp_fresh_dek|done|]. intros d1 [[m w] kid] G1 [Hw Hm].
  assert (Gd1 : grows s d1) by by etransitivity.
  eapply (seq_try _ _ _ (fun d2 n => exists s0, grows s s0 /\ grows s0 d2 /\ unstarted s0 n /\ succeeds s0 o n
            /\ material L (st_db s0) n (u32_wrap (r_Version (kr_row k) + 1)) m
            /\ enrolled (st_db s0) (r_ctx (kr_row k)) (u32_wrap (r_Version (kr_row k) + 1)) (r_Participants (kr_row k)))); [|done|].
  - apply wp_db. intros s1 ck G2 HI. assert (G : grows d s1) by by etransitivity.
    destruct (g_keys _ _ _ G _ _ Hk) as (k1 & Hk1 & Hsk & _). pose proof Hsk as (_ & Hx1 & Hv1 & _).
    assert (Hv : u32_wrap (r_Version (kr_row k) + 1) = k_ver k + 1).
    { pose proof (ko_ver _ _ _ _ (i_keys _ _ _ HI _ _ Hk1)) as Hr. rewrite Hv1 in Hr. unfold int4_max in Hr.
      unfold u32_wrap. fold (k_ver k). apply Z.mod_small. lia. }
    split.
    + unfold tx_keeps, insertRekeyed. rewrite wrap_code_2. apply insert_key_tx; [done| |eauto].
      rewrite Hv. pose proof (ko_ver _ _ _ _ (i_keys _ _ _ HI _ _ Hk1)). lia.
    + intros n db' Hi%wrap_code_Ok K. pose proof (insert_key_Ok _ _ _ _ _ _ _ _ _ _ _ Hi) as (Hn & _ & Hck).
      apply insert_row_Ok in Hi as (k' & Hk' & Hx' & Hv' & Hww & Hki & Hps & Hb'). cbn in *.
      exists (with_db s1 db'). split; [etransitivity; [exact Gd1|]; etransitivity; [exact G2|apply K]|].
      split; [reflexivity|]. split; [|split; [|split] ].
      * intros rid c Hc. cbn in Hc. rewrite Hck in Hc.
        destruct (cp_keys _ _ _ _ (i_ckpts _ _ _ HI _ _ Hc)) as (k0 & Hk0 & _).
        pose proof (ko_seq _ _ _ _ (i_keys _ _ _ HI _ _ Hk0)). lia.
      * destruct (g_keys _ _ _ (proj2 K) _ _ Hk1) as (k2 & Hk2 & (_ & Hx2 & Hv2 & _) & _).
        exists k2, k'. split; [done|]. split; [done|]. rewrite Hv' , Hv, Hv2, Hv1. split; [|done].
        rewrite Hx', Hx2, Hx1. done.
      * exists k'. split; [done|]. split; [done|]. unfold secret. by rewrite Hww, Hki.
      * exists n, k'. split; [done|]. split; [done|]. split; [done|]. by rewrite Hps.
  - intros d2 n G2 (s0 & Gs & Gs0 & Hun & Hsu & Hmat & He).
    eapply wp_seq; [apply wp_cachePut; eapply material_grow; [apply Gs0|done]|]. intros d3 _ G3 _.
    eapply wp_seq; [apply wp_partPut; eapply enrolled_grow; [|done]; eapply keys_grow_trans; [apply Gs0|apply G3] |].
    intros d4 _ G4 _. cbn. exists s0. split; [done|]. split; [|done].
    etransitivity; [exact Gs0|]. by etransitivity.
Qed.
End Safety.
