(* ===== verification/RekeySafety.v ===== *)
(** The orchestrator's phases, the sweep and the abort keep the invariant, each
    running among any other programs of any server. *)

From S2P Require Import Prelude GoStrings Sql Programs DekTypes EventCrypto DekCache DekCacheFacts DekStore DekManager Rekey DekInv DekInvOps DekInvTx DekSafety.

Open Scope string_scope.
Open Scope Z_scope.
Open Scope prog_scope.

Section Rekey.
Context `{fate : Fate} (L : CryptoLib) `{!CryptoLaws L} (ulid : string -> string).
Local Abbreviation inv := (inv L ulid).
Local Abbreviation grows := (grows L).
Local Abbreviation keeps := (keeps inv grows).
Local Abbreviation wp := (wp exec (fun _ en => env_ok L en) inv grows).

Lemma wp_or_fail {A B} f (r : result A) (k : A -> dprog (result B)) P s :
  (forall a, r = Ok a -> wp (k a) (post P) s) -> wp (or_fail f r k) (post P) s.
Proof. intros Hk. destruct r; cbn; [by apply Hk|done]. Qed.

Lemma seq_db {A B} (f : Clock -> tx A) (h : error -> dprog B) (k : A -> dprog B) Q s :
  (forall s1 ck, grows s s1 -> inv s1 -> tx_keeps L ulid s1 (f ck)) ->
  (forall e d, wp (h e) Q d) -> (forall d a, grows s d -> wp (k a) Q d) ->
  wp (try_ (db f) h k) Q s.
Proof. intros Hf Hh Hk. eapply (seq_try _ _ _ _ _ any); [by apply wp_db_any|done|auto]. Qed.

(** ** Facts about a checkpoint that stay true *)
Definition ckpt_has (s : St) (rid : string) (o n : Z) : Prop :=
  exists c, db_ckpts (st_db s) !! rid = Some c /\ ck_OldDEKID c = o /\ ck_NewDEKID c = Some n.

Lemma ckpt_has_grow s s' rid o n : grows s s' -> ckpt_has s rid o n -> ckpt_has s' rid o n.
Proof.
  intros G (c & Hc & Ho & Hn). destruct (g_ckpts _ _ _ G _ _ Hc) as (c' & Hc' & (_ & _ & Ho' & _ & _ & Hn' & _)).
  exists c'. split; [done|]. split; [congruence|auto].
Qed.

(** Rows under the old key, late ones aside, come after the cursor. *)
Definition covered (s : St) (o : Z) (cursor : option string) : Prop :=
  forall id r, db_audit (st_db s) !! id = Some r -> ~ late id -> au_dek_ref r = Some o ->
    String.ltb (cursor_bound cursor) id = true.

Lemma covered_grow s s' rid o n cursor : grows s s' -> ckpt_has s rid o n -> covered s o cursor -> covered s' o cursor.
Proof.
  intros G (c & Hc & Ho & Hn) Hcov id r' Hr' Hlate Href. rewrite <- Ho in Href.
  destruct (g_refs _ _ _ G _ _ Hc (mk_is_Some _ _ Hn) _ _ Hr' Hlate Href) as (r & Hr & Hro).
  eapply Hcov; [done|done|congruence].
Qed.

Lemma unreferenced_grow s s' rid o n : grows s s' -> ckpt_has s rid o n -> unreferenced (st_db s) o -> unreferenced (st_db s') o.
Proof.
  intros G (c & Hc & Ho & Hn) Hu id r' Hr' Hlate Href. rewrite <- Ho in Href.
  destruct (g_refs _ _ _ G _ _ Hc (mk_is_Some _ _ Hn) _ _ Hr' Hlate Href) as (r & Hr & Hro).
  apply (Hu _ _ Hr Hlate). congruence.
Qed.

Lemma ckpt_has_succeeds s rid o n : inv s -> ckpt_has s rid o n -> succeeds s o n.
Proof.
  intros HI (c & Hc & <- & Hn). destruct (cp_keys _ _ _ _ (i_ckpts _ _ _ HI _ _ Hc)) as (k & Hk & Hx & Hs).
  destruct (Hs _ Hn) as (k' & Hk' & Hx' & Hv' & Hb'). exists k, k'. split; [done|]. split; [done|]. split; [congruence|done].
Qed.

Lemma succeeds_ne s o n : succeeds s o n -> n <> o.
Proof. intros (k & k' & Hk & Hk' & _ & Hv & _) ->. assert (k = k') as -> by congruence. lia. Qed.

Lemma wp_Get rid s : wp (db (fun _ => Get rid)) (post (fun d c => inv d /\ db_ckpts (st_db d) !! rid = Some c)) s.
Proof. apply wp_db_pure; [intros; apply pure_Get|]. intros s1 ck c G HI E. split; [done|]. by eapply Get_Ok. Qed.

(** ** Phases 1 and 2 *)
Lemma wp_RunPhase1Fresh sv req s : wp (RunPhase1Fresh sv req) (post any) s.
Proof.
  unfold RunPhase1Fresh. apply wp_or_fail. intros h _. eapply (seq_try _ _ _ _ _ any); [by apply wp_ask_post|done|].
  intros d ph _ _. eapply seq_try; [apply wp_selectActive|done|]. intros d1 r G1 Hr. apply wp_or_fail.
  intros oreq Ho. eapply seq_db; [|done|].
  - intros s1 ck G2 HI. apply Open_tx; [done|].
    destruct (row_of_grow L _ _ _ _ G2 Hr) as (k & Hk & Hx & _). exists k.
    unfold NewCheckpointOpenRequest in Ho. repeat (case_match; [done|]). injection Ho as <-. done.
  - intros d2 rid _. eapply seq_db; [|done|done]. intros s1 ck _ HI. apply UpdateStatus_tx; [done| |done].
    intros c _ _ _. cbn. repeat split; intros; lia.
Qed.

Lemma wp_RunPhase2 sv rid s : wp (RunPhase2 sv rid) (post any) s.
Proof.
  unfold RunPhase2. eapply seq_try; [apply wp_Get|done|]. intros d c0 _ [HI0 Hc0].
  destruct (has_status CheckpointStatusPhase1Auth c0) eqn:Hst; cbn [negb]; [|done].
  eapply seq_try; [by apply wp_MintNewDEKForRekey|done|]. intros d1 n G1 (s0 & Gs & Gs0 & Hun & Hsu).
  apply wp_db_any. intros s1 ck G2 HI. assert (G : grows s0 s1) by by etransitivity.
  apply SetNewDEKAndAdvance_tx; [done|]. intros c Hc Hs.
  destruct (g_ckpts _ _ _ Gs _ _ Hc0) as (c1 & Hc1 & (_ & Hx1 & Ho1 & _)).
  destruct (g_ckpts _ _ _ G _ _ Hc1) as (c2 & Hc2 & (_ & Hx2 & Ho2 & _)). assert (c2 = c) as -> by congruence.
  destruct (succeeds_grow L _ _ _ _ G Hsu) as (k & k' & Hk & Hk' & Hx & Hv & Hb).
  destruct (cp_keys _ _ _ _ (i_ckpts _ _ _ HI _ _ Hc)) as (k0 & Hk0 & Hkx & _).
  assert (Ho : ck_OldDEKID c = ck_OldDEKID c0) by congruence. rewrite Ho in Hk0. assert (k0 = k) as -> by congruence.
  split.
  - exists k. rewrite Ho. split; [done|]. exists k'. split; [done|]. split; [congruence|done].
  - intros rid2 c3 Hc3 Hn. destruct (cp_keys _ _ _ _ (i_ckpts _ _ _ HI _ _ Hc3)) as (k3 & Hk3 & Hkx3 & _).
    rewrite Hn in Hk3. assert (k3 = k') as -> by congruence.
    assert (Hl : live c = true) by (unfold live; by rewrite Hs).
    destruct (g_open _ _ _ G _ _ _ Hc1 Hc Hl _ _ Hc3 ltac:(congruence)) as [c4 Hc4].
    apply (Hun _ _ Hc4). destruct (g_ckpts _ _ _ G _ _ Hc4) as (c5 & Hc5 & (_ & _ & Ho5 & _)). congruence.
Qed.

(** ** Phase 3 *)

(** A row as the batch read it, under the old key. *)
Definition seen (s : St) (o : Z) (r : string * audit_rec) : Prop :=
  exists s0, inv s0 /\ grows s0 s /\ db_audit (st_db s0) !! r.1 = Some r.2 /\ au_dek_ref r.2 = Some o.

Lemma seen_grow s s' o r : grows s s' -> seen s o r -> seen s' o r.
Proof. intros G (s0 & HI & G0 & Hr). exists s0. split; [done|]. split; [by etransitivity|done]. Qed.

Lemma opens_same_event s s0 o v m r ev c aad p :
  inv s0 -> ~ late r.1 -> grows s0 s -> db_audit (st_db s0) !! r.1 = Some r.2 -> au_dek_ref r.2 = Some o ->
  au_dek_version r.2 = Some v -> material L (st_db s) o v m ->
  unmarshalEvent L (au_envelope r.2) = Ok ev -> codec_Resolve (au_codec r.2) = Ok c ->
  Build L ev (au_codec r.2) o v = Ok aad -> Decode L c (ev_Payload ev) (mkKey o v m) aad = Ok p ->
  open_event L (st_db s) r.1 = Some (set_payload ev p).
Proof.
  intros HI Hlate G Hr Ho Hv (k' & Hk' & Hkv' & Hm) He Hc Ha Hp. apply (g_events _ _ _ G); [done|].
  unfold open_event. rewrite Hr. cbn.
  destruct (rw_ref _ _ _ (i_rows _ _ _ HI _ _ Hr) Hlate _ Ho) as (k & Hk & Hd & _).
  destruct (g_keys _ _ _ G _ _ Hk) as (k1 & Hk1 & Hsk & _). assert (k1 = k') as -> by congruence.
  apply open_row_Some. exists o, v, k, m, ev, c, aad, p. rewrite (same_key_secret L _ _ Hsk) in Hm.
  destruct Hsk as (_ & _ & Hvv & _). repeat split; try done. congruence.
Qed.

Lemma wp_rewrite_one sv o n v m r s :
  sv_lib sv = L -> seen s o r ->
  wp (rewrite_one sv o n (mkKey n v m) v r) (post (fun d w => w.1 = r.1 /\ rewrite_ok L d n v m w)) s.
Proof.
  intros Hlib Hseen. unfold rewrite_one. rewrite Hlib. destruct (au_dek_version r.2) as [ov|] eqn:Hov; [|done].
  apply wp_or_fail. intros ev He. eapply seq_try; [by apply wp_Resolve|done|].
  intros d [i v' om] G [Hmat [Hi Hv']]. cbn in Hi, Hv'. subst i v'.
  apply wp_or_fail. intros oaad Hoa. apply wp_or_fail. intros c Hc. apply wp_or_fail. intros p Hp.
  apply wp_or_fail. intros naad Hna. eapply (wp_seq _ _ _ _ (fun _ nonce => String.length nonce = NonceSizeX)).
  { apply wp_ask. intros s1 nonce _ _ Hn. exact Hn. }
  intros d1 nonce G1 Hnonce. apply wp_or_fail. intros ct Hct. apply wp_or_fail. intros raw Hraw. cbn.
  split; [done|].
  assert (G' : grows s d1) by by etransitivity.
  destruct (seen_grow _ _ _ _ G' Hseen) as (s0 & HI0 & G0 & Hr & Ho).
  destruct (g_rows _ _ _ G0 _ _ Hr) as (r' & Hr' & Hco & _ & Hs'). exists r'. cbn.
  split; [done|]. split; [apply Hs'; by rewrite Ho|]. intros Hlate. exists (set_payload ev p). split.
  { eapply opens_same_event; try done. eapply material_grow; [apply G1|exact Hmat]. }
  rewrite Hco. exists (set_payload ev ct), c, naad, p. split; [by eapply unmarshal_marshal|]. split; [done|].
  split; [done|]. split; [|done]. by eapply Decode_Encode.
Qed.

Lemma wp_rewrite_all sv o n v m rs s :
  sv_lib sv = L -> Forall (seen s o) rs ->
  wp (rewrite_all sv o n (mkKey n v m) v rs)
     (post (fun d ws => ws.*1 = rs.*1 /\ forall w, w ∈ ws -> rewrite_ok L d n v m w)) s.
Proof.
  intros Hlib. revert s. induction rs as [|r rs IH]; intros s Hs; cbn.
  - split; [done|]. intros w []%elem_of_nil.
  - inversion Hs as [|? ? Hr Hrs]; subst. eapply seq_try; [by apply wp_rewrite_one|done|].
    intros d w G [Hw Hok]. eapply seq_try; [apply IH|done|].
    + eapply Forall_impl; [exact Hrs|]. intros r'. by apply seen_grow.
    + intros d1 ws G1 [Hws Hall]. cbn. split; [by rewrite Hw, Hws|].
      intros w' [->|Hin]%elem_of_cons; [by eapply rewrite_ok_grow|by apply Hall].
Qed.

Lemma last_fmap_fst {A B} (l : list (A * B)) x : last l = Some x -> x.1 ∈ l.*1.
Proof. intros Hl%last_Some_elem_of. apply list_elem_of_fmap. eauto. Qed.

Lemma wp_processPhase3Batch sv rid o n v m cursor s :
  sv_lib sv = L -> ckpt_has s rid o n -> material L (st_db s) n v m -> covered s o cursor ->
  wp (processPhase3Batch sv o n (mkKey n v m) v cursor defaultPhase3BatchSize rid)
     (post (fun d b => match b with
                       | None => unreferenced (st_db d) o
                       | Some (_, lastID) => covered d o (Some lastID)
                       end)) s.
Proof.
  intros Hlib Hc Hmat Hcov. unfold processPhase3Batch.
  eapply (seq_try _ _ _ _ _ (fun d b => inv d /\ b = select_batch o cursor defaultPhase3BatchSize (st_db d))); [|done|].
  { apply wp_db_pure; [done|]. intros s1 ck b G HI [= <-]. done. }
  intros d b G [HI ->]. set (b := select_batch o cursor defaultPhase3BatchSize (st_db d)).
  pose proof (ckpt_has_grow _ _ _ _ _ G Hc) as Hcd. pose proof (covered_grow _ _ _ _ _ _ G Hc Hcov) as Hcovd.
  apply wp_or_fail. intros [] _. destruct (last b) as [[lastID lr]|] eqn:Hlast.
  2:{ cbn. intros id r Hr Hlate Href. apply last_None in Hlast.
      destruct (select_batch_complete o cursor defaultPhase3BatchSize _ _ _ Hr Href (Hcovd _ _ Hr Hlate Href)) as [Hin|[Hlen _]].
      - fold b in Hin. rewrite Hlast in Hin. by apply elem_of_nil in Hin.
      - fold b in Hlen. by rewrite Hlast in Hlen. }
  eapply seq_try; [apply wp_rewrite_all; [done|]|done|].
  { apply Forall_forall. intros [id r] Hin. apply select_batch_elem in Hin as (Hr & Href & _).
    exists d. split; [done|]. split; [reflexivity|done]. }
  intros d1 ws G1 [Hws Hok].
  assert (Hno : n <> o) by (eapply succeeds_ne, (ckpt_has_succeeds d); eauto).
  assert (Hcovl : forall s1, grows d1 s1 -> forall id r, db_audit (st_db s1) !! id = Some r -> ~ late id -> au_dek_ref r = Some o ->
            id ∈ ws.*1 \/ String.ltb lastID id = true).
  { intros s1 G2 id r Hr Hlate Href. destruct Hcd as (c & Hcc & <- & Hn). assert (G3 : grows d s1) by by etransitivity.
    destruct (g_refs _ _ _ G3 _ _ Hcc (mk_is_Some _ _ Hn) _ _ Hr Hlate Href) as (r0 & Hr0 & Href0). rewrite Hws.
    destruct (select_batch_complete _ cursor defaultPhase3BatchSize _ _ _ Hr0 Href0 (Hcovd _ _ Hr0 Hlate Href0)) as [?|[_ Hl]];
      [by left|right]. by eapply Hl. }
  assert (Hlne : lastID <> EmptyString).
  { apply last_Some_elem_of, select_batch_elem in Hlast as (_ & _ & Hlt). intros ->.
    unfold cursor_bound in Hlt. by destruct cursor as [ [|] |]. }
  eapply (seq_try _ _ _ _ _ (fun d2 _ => covered d2 o (Some lastID))); [|done|intros; done].
  apply wp_db. intros s1 ck G2 HI1. assert (G3 : grows s s1) by (do 2 (etransitivity; [eassumption|]); done).
  destruct (ckpt_has_grow _ _ _ _ _ G3 Hc) as (c1 & Hc1 & Ho1 & Hn1). split.
  - eapply commit_batch_keeps; try done.
    + eapply material_grow; [apply G3|done].
    + intros w Hw. eapply rewrite_ok_grow; [exact G2|by apply Hok].
    + intros id r. by apply Hcovl.
  - intros [] db' Hcm _. apply commit_batch_Ok in Hcm. intros id r Hr Hlate Href. cbn in Hr. rewrite Hcm in Hr.
    destruct (rewrite_audit_lookup _ _ _ _ _ _ Hr) as (r0 & Hr0 & _ & Hin & Hout).
    destruct (decide (id ∈ ws.*1)) as [Hi|Hi].
    + destruct (Hin Hi) as (w & _ & ->). cbn in Href. congruence.
    + rewrite (Hout Hi) in Href. destruct (Hcovl _ G2 _ _ Hr0 Hlate Href) as [?|Hlt]; [done|]. cbn. by destruct lastID.
Qed.

Lemma wp_phase3_loop sv fuel rid o n v m cursor total hb s :
  sv_lib sv = L -> ckpt_has s rid o n -> material L (st_db s) n v m -> covered s o cursor ->
  wp (phase3_loop sv fuel rid o n (mkKey n v m) v cursor total hb) (post (fun d _ => unreferenced (st_db d) o)) s.
Proof.
  intros Hlib. revert cursor total hb s. induction fuel as [|fuel IH]; intros cursor total hb s Hc Hmat Hcov; [done|].
  cbn [phase3_loop]. eapply (wp_seq _ _ _ _ any); [by apply wp_ask|]. intros d [|] G _; [done|].
  eapply seq_try; [apply wp_processPhase3Batch; try done|done|].
  { by eapply ckpt_has_grow. } { eapply material_grow; [apply G|done]. } { by eapply covered_grow. }
  assert (Hc' : ckpt_has d rid o n) by by eapply ckpt_has_grow.
  assert (Hmat' : material L (st_db d) n v m) by (eapply material_grow; [apply G|done]).
  assert (Hgo : forall d1 last tot h, grows d d1 -> covered d1 o (Some last) ->
            wp (phase3_loop sv fuel rid o n (mkKey n v m) v (Some last) tot h) (post (fun d _ => unreferenced (st_db d) o)) d1).
  { intros d1 last tot h G1 Hcov1. apply IH; [by eapply ckpt_has_grow|eapply material_grow; [apply G1|done]|done]. }
  intros d1 [[k last]|] G1 Hb; [|done].
  assert (Hc1 : ckpt_has d1 rid o n) by by eapply ckpt_has_grow.
  eapply (wp_seq _ _ _ _ any); [by apply wp_ask|]. intros d2 now G2 _.
  assert (Hb2 : covered d2 o (Some last)) by by eapply covered_grow.
  assert (Hc2 : ckpt_has d2 rid o n) by by eapply ckpt_has_grow.
  assert (Gd2 : grows d d2) by by etransitivity.
  case_match; [|by apply Hgo].
  eapply wp_seq; [apply wp_db_any; intros; by apply Heartbeat_tx|]. intros d3 _ G3 _.
  assert (Hc3 : ckpt_has d3 rid o n) by by eapply ckpt_has_grow.
  eapply (wp_seq _ _ _ _ any); [by apply wp_ask|]. intros d4 now' G4 _. apply Hgo.
  - do 2 (etransitivity; [eassumption|]). done.
  - eapply covered_grow; [exact G4|done|]. by eapply covered_grow.
Qed.

Definition done_with (s : St) (rid : string) : Prop := exists o n, ckpt_has s rid o n /\ unreferenced (st_db s) o.

Lemma done_with_grow s s' rid : grows s s' -> done_with s rid -> done_with s' rid.
Proof. intros G (o & n & Hc & Hu). exists o, n. split; [by eapply ckpt_has_grow|by eapply unreferenced_grow]. Qed.

Lemma wp_RunPhase3 sv fuel rid s : sv_lib sv = L -> wp (RunPhase3 sv fuel rid) (post (fun d _ => done_with d rid)) s.
Proof.
  intros Hlib. unfold RunPhase3. eapply seq_try; [apply wp_Get|done|]. intros d c0 _ [HI0 Hc0].
  case_match; [done|]. destruct (ck_NewDEKID c0) eqn:Hn0; [|done].
  eapply (seq_try _ _ _ _ _ (fun d c => inv d /\ db_ckpts (st_db d) !! rid = Some c)); [|done|].
  { destruct (has_status CheckpointStatusPhase2MintDEK c0); [|done].
    eapply seq_db; [|done|intros; apply wp_Get]. intros s1 ck _ HI. apply UpdateStatus_tx; [done| |done].
    intros c Hc Hs Hok. cbn. repeat split; try (intros; lia). intros _. apply (cp_late _ _ _ _ Hok). rewrite Hs. cbn. lia. }
  intros d1 c _ [HI Hc]. destruct (ck_NewDEKID c) as [n|] eqn:Hn; [|done].
  assert (Hh : ckpt_has d1 rid (ck_OldDEKID c) n) by (by exists c).
  assert (Hcov : covered d1 (ck_OldDEKID c) (ck_lastProcessedEventID c)).
  { intros id r. apply (cp_cursor _ _ _ _ (i_ckpts _ _ _ HI _ _ Hc)). }
  eapply seq_try; [by apply wp_VersionForDEKID|done|]. intros d2 v G2 _.
  eapply seq_try; [by apply wp_Resolve|done|]. intros d3 [i v' m] G3 [Hmat [Hi Hv]]. cbn in Hi, Hv. subst i v'.
  eapply (wp_seq _ _ _ _ any); [by apply wp_ask|]. intros d4 start G4 _.
  assert (G : grows d1 d4) by (do 2 (etransitivity; [eassumption|]); done).
  assert (Hh4 : ckpt_has d4 rid (ck_OldDEKID c) n) by by eapply ckpt_has_grow.
  assert (Hmat4 : material L (st_db d4) n v m) by (eapply material_grow; [apply G4|exact Hmat]).
  assert (Hcov4 : covered d4 (ck_OldDEKID c) (ck_lastProcessedEventID c)) by by eapply covered_grow.
  pose proof (wp_phase3_loop sv fuel rid _ n v m _ 0 start _ Hlib Hh4 Hmat4 Hcov4) as Hw.
  eapply rg_wp_mono; [|apply (rg_wp_reached _ _ _ _ _ _ _ Hw)].
  intros d5 [t|e] [G5 Hu]; [|done]. exists (ck_OldDEKID c), n. split; [by eapply ckpt_has_grow|done].
Qed.

(** ** Phase 5 *)
Lemma wp_RunPhase5 rid s : done_with s rid -> wp (RunPhase5 rid) (post any) s.
Proof.
  intros Hd. unfold RunPhase5. eapply seq_try; [apply wp_Get|done|]. intros d c0 G0 [HI0 Hc0].
  case_match; [done|]. destruct (ck_NewDEKID c0) as [n|] eqn:Hn; [|done].
  eapply wp_seq; [apply wp_db_any; intros; by apply IncrementPhase5Attempt_tx|]. intros d1 _ G1 _.
  eapply seq_try; [by apply wp_selectByPK|done|]. intros d2 oldRow G2 _.
  eapply seq_try; [by apply wp_selectByPK|done|]. intros d3 newRow G3 _.
  eapply (wp_seq _ _ _ _ any); [by apply wp_ask|]. intros d4 ce G4 _.
  assert (G : grows s d4) by (do 4 (etransitivity; [eassumption|]); done).
  assert (Hrec : forall f code s1, grows d4 s1 -> inv s1 ->
            (forall c, same_ckpt c (f c) /\ ck_Status (f c) = CheckpointStatusPhase5Invalidate) ->
            tx_keeps L ulid s1 (update rid in_phase5 f code stale_transition)).
  { intros f code s1 G5 HI Hf. apply phase5_record_tx; [done| |done]. intros c Hc.
    destruct (done_with_grow s s1 rid ltac:(by etransitivity) Hd) as (o & n' & (c' & Hc' & <- & Hn') & Hu).
    assert (c' = c) as -> by congruence. eauto. }
  destruct ce; (eapply seq_db; [|done|done]); intros s1 ck G5 HI; by apply Hrec.
Qed.

Lemma wp_RunPhase5WithForceDestroy rid s : wp (RunPhase5WithForceDestroy rid) (post any) s.
Proof.
  unfold RunPhase5WithForceDestroy. eapply seq_try; [apply wp_Get|done|]. intros d c0 _ _. case_match; [done|].
  eapply seq_db; [intros; by apply SetForceDestroy_tx|done|]. intros d1 _ _.
  eapply seq_db; [intros; by apply UpdateStatusForceDestroy_tx|done|done].
Qed.

(** ** Phase 6 *)
Lemma wp_RunPhase6 sv rid s : wp (RunPhase6 sv rid) (post any) s.
Proof.
  unfold RunPhase6. eapply seq_try; [apply wp_Get|done|]. intros d c0 G0 [HI0 Hc0].
  destruct (ck_Status c0) eqn:Hst; try done. case_match; [done|].
  pose proof (i_ckpts _ _ _ HI0 _ _ Hc0) as Hok0.
  destruct (cp_late _ _ _ _ Hok0 ltac:(rewrite Hst; cbn; lia)) as [n Hn].
  assert (Hd : done_with d rid).
  { exists (ck_OldDEKID c0), n. split; [by exists c0|]. apply (cp_clean _ _ _ _ Hok0). rewrite Hst. cbn. lia. }
  assert (Hcur : forall s1, grows d s1 -> inv s1 -> exists c, db_ckpts (st_db s1) !! rid = Some c
            /\ ck_OldDEKID c = ck_OldDEKID c0 /\ is_Some (ck_NewDEKID c) /\ unreferenced (st_db s1) (ck_OldDEKID c0)).
  { intros s1 G HI. destruct (done_with_grow d s1 rid G Hd) as (o & n' & (c & Hc & Ho & Hnn) & Hu).
    destruct (g_ckpts _ _ _ G _ _ Hc0) as (c' & Hc' & (_ & _ & Ho' & _)). assert (c' = c) as -> by congruence.
    exists c. split; [done|]. split; [done|]. split; [eauto|]. by rewrite <- Ho', Ho. }
  unfold DestroyDEK.
  eapply (seq_try _ _ _ _ _ (fun d1 _ => exists k, db_keys (st_db d1) !! ck_OldDEKID c0 = Some k /\ destroyed k)); [|done|].
  { apply wp_db. intros s1 ck G HI. destruct (Hcur s1 G HI) as (c & Hc & Ho & Hnn & Hu). rewrite <- Ho in *. split.
    - by eapply markDestroyedByPK_tx.
    - intros [] db' E K. destruct (cp_keys _ _ _ _ (i_ckpts _ _ _ HI _ _ Hc)) as (k & Hk & _).
      unfold markDestroyedByPK in E. rewrite read_bind, Hk in E. injection E as <-. cbn. rewrite lookup_insert_eq.
      eexists. split; [done|]. unfold destroyed, destroy. destruct (kr_destroyed_at k) eqn:E; [by rewrite E|done]. }
  intros d1 [] G1 (k & Hk & Hdk). eapply wp_seq; [apply wp_EvictCachedDEK|]. intros d2 _ G2 _.
  apply wp_db_any. intros s1 ck G3 HI. apply UpdateStatus_tx; [done| |done]. intros c Hc Hs Hok. cbn.
  assert (Gd : grows d s1) by (do 2 (etransitivity; [eassumption|]); done).
  destruct (Hcur s1 Gd HI) as (c' & Hc' & Ho & Hnn & Hu). assert (c' = c) as -> by congruence. rewrite Ho in *.
  split; [done|]. split; [done|]. intros _. right.
  assert (G13 : grows d1 s1) by by etransitivity.
  destruct (g_keys _ _ _ G13 _ _ Hk) as (k' & Hk' & _ & Hdd). eauto.
Qed.

(** ** Phase 7 *)
Lemma wp_emit p s :
  wp (Programs.call (EmitAudit p))
     (fun d r => r.2 = None -> exists q, q ∈ st_emitted d /\ ra_RequestID q = ra_RequestID p) s.
Proof.
  apply wp_call. intros s1 en HR HI [_ Hem]. specialize (Hem p). cbn. destruct (en_emit en p) as [[id q] err]. cbn in *.
  split.
  - apply emitted_keep; [done|]. intros p'. case_match; [|done]. intros Hp. apply elem_of_app. by left.
  - intros ->. exists q. split; [|done]. rewrite bool_decide_eq_true_2 by done. cbn. apply elem_of_app. right.
    apply list_elem_of_here.
Qed.

Lemma wp_emit_any p s : wp (Programs.call (EmitAudit p)) any s.
Proof. eapply rg_wp_mono; [|apply wp_emit]. done. Qed.

Lemma wp_RunPhase7 sv rid req s : sv_ulid_text sv = ulid -> wp (RunPhase7 sv rid req) (post any) s.
Proof.
  intros Hul. unfold RunPhase7. eapply seq_try; [apply wp_Get|done|]. intros d c0 _ _. case_match; [done|].
  eapply seq_db; [|done|].
  { intros s1 ck _ HI. apply UpdateStatus_tx; [done| |done]. intros c Hc Hs Hok. cbn.
    destruct Hok as [Oid Okn Okeys Oe Ol Ocur Ocn Ocl Og Od]. rewrite Hs in *. cbn in *.
    repeat split; intros; first [apply Ol|apply Ocl|apply Og]; lia. }
  intros d1 _ _. eapply seq_try; [apply wp_Get|done|]. intros d2 c _ _.
  eapply seq_try; [apply wp_selectByPK|done|]. intros d3 oldRow _ _.
  eapply (seq_try _ _ _ _ _ any); [|done|].
  { destruct (ck_NewDEKID c); [|done]. eapply seq_try; [apply wp_selectByPK|done|done]. }
  intros d4 nv _ _. eapply (wp_seq _ _ _ _ any); [by apply wp_ask|]. intros d5 t6 _ _.
  eapply (wp_seq _ _ _ _ any); [by apply wp_ask|]. intros d6 t7 _ _.
  eapply wp_seq; [apply wp_emit|]. intros d7 [[id fin] [e|]] G7 Hem.
  - eapply (wp_seq _ _ _ _ any); [|done]. unfold writeFallbackLog. case_match; [done|]. by apply wp_ask.
  - destruct (Hem eq_refl) as (q & Hq & Hrid). cbn in Hrid. rewrite Hul in Hrid. eapply seq_db; [|done|].
    { intros s1 ck G8 HI. apply MarkComplete_tx; [done|]. exists q. split; [by apply (g_emitted _ _ _ G8)|done]. }
    intros d8 _ _. eapply (wp_seq _ _ _ _ any); [by apply wp_ask|]. intros d9 t8 _ _.
    eapply (wp_seq _ _ _ _ any); [by apply wp_ask|]. done.
Qed.

(** ** The dispatcher, the sweep and the abort *)
Lemma wp_runPhase7AndSetResumed sv rid req b s : sv_ulid_text sv = ulid ->
  wp (runPhase7AndSetResumed sv rid req b) (post any) s.
Proof. intros Hul. eapply seq_try; [by apply wp_RunPhase7|done|done]. Qed.

Lemma wp_finish sv rid req b s : sv_ulid_text sv = ulid -> wp (finish sv rid req b) (post any) s.
Proof. intros Hul. eapply seq_try; [apply wp_RunPhase6|done|]. intros. by apply wp_runPhase7AndSetResumed. Qed.

Lemma wp_from_phase5 sv rid req b s : sv_ulid_text sv = ulid -> done_with s rid -> wp (from_phase5 sv rid req b) (post any) s.
Proof. intros Hul Hd. eapply seq_try; [by apply wp_RunPhase5|done|]. intros. by apply wp_finish. Qed.

Lemma wp_from_phase3 sv fuel rid req b s : sv_lib sv = L -> sv_ulid_text sv = ulid ->
  wp (from_phase3 sv fuel rid req b) (post any) s.
Proof. intros Hlib Hul. eapply seq_try; [by apply wp_RunPhase3|done|]. intros. by apply wp_from_phase5. Qed.

Lemma wp_driveToCompletion sv fuel rid req b s : sv_lib sv = L -> sv_ulid_text sv = ulid ->
  wp (driveToCompletion sv fuel rid req b) (post any) s.
Proof.
  intros Hlib Hul. unfold driveToCompletion. eapply seq_try; [apply wp_Get|done|]. intros d c _ [HI Hc].
  assert (H5 : ck_Status c = CheckpointStatusPhase5Invalidate -> done_with d rid).
  { intros Hst. pose proof (i_ckpts _ _ _ HI _ _ Hc) as Hok.
    destruct (cp_late _ _ _ _ Hok ltac:(rewrite Hst; cbn; lia)) as [n Hn]. exists (ck_OldDEKID c), n.
    split; [by exists c|]. apply (cp_clean _ _ _ _ Hok). rewrite Hst. cbn. lia. }
  destruct (ck_Status c); cbn [decideResumeEntry fst]; try done;
    try (eapply seq_try; [by apply wp_RunPhase2|done|intros; by apply wp_from_phase3]);
    try by apply wp_from_phase3.
  - destruct (Phase5HasMissingMembers c); cbn [negb fst]; [|by apply wp_finish].
    destruct (rq_ForceDestroy req); cbn [fst]; [|apply wp_from_phase5; auto].
    eapply seq_try; [apply wp_RunPhase5WithForceDestroy|done|]. intros. by apply wp_finish.
  - by apply wp_runPhase7AndSetResumed.
Qed.

Lemma wp_Run sv fuel req s : sv_lib sv = L -> sv_ulid_text sv = ulid -> wp (Run sv fuel req) (post any) s.
Proof.
  intros Hlib Hul. unfold Run. apply wp_or_fail. intros h _.
  eapply seq_db; [intros; apply pure_keeps; [done|apply pure_FindByContextAndArgs]|done|].
  intros d [c|] _; [case_match; [done|by apply wp_driveToCompletion]|].
  eapply seq_db; [intros; apply pure_keeps; [done|apply pure_FindNonTerminalByContext]|done|].
  intros d1 [c|] _; [done|]. eapply seq_try; [apply wp_RunPhase1Fresh|done|]. intros. by apply wp_driveToCompletion.
Qed.

Lemma wp_RunByRequestID sv fuel rid req s : sv_lib sv = L -> sv_ulid_text sv = ulid ->
  wp (RunByRequestID sv fuel rid req) (post any) s.
Proof.
  intros Hlib Hul. unfold RunByRequestID. eapply seq_try; [apply wp_Get|done|]. intros d c _ _.
  destruct (ck_Status c); try done; (case_match; [done|by apply wp_driveToCompletion]).
Qed.

Lemma wp_abortAndAudit sv c reason s : wp (abortAndAudit sv c reason) (post any) s.
Proof.
  unfold abortAndAudit. eapply seq_db; [intros; by apply MarkAborted_tx|done|]. intros d _ _.
  eapply (wp_seq _ _ _ _ any); [by apply wp_ask|]. intros d1 t _ _.
  eapply wp_seq; [apply wp_emit_any|]. by intros d2 [[id q] [e|]] _ _.
Qed.

Lemma wp_sweepOnce sv ttl s : wp (sweepOnce sv ttl) (post any) s.
Proof.
  unfold sweepOnce. eapply seq_db; [intros; apply pure_keeps; [done|apply pure_ListExpired]|done|].
  intros d cs _. eapply (wp_seq _ _ _ _ any); [|done]. revert d. induction cs as [|c cs IH]; intros d; cbn [forM_]; [done|].
  eapply (wp_seq _ _ _ _ any); [|intros; apply IH]. unfold forget. eapply wp_seq; [apply wp_abortAndAudit|done].
Qed.

Lemma wp_RunAbort sv rid player s : wp (RunAbort sv rid player) (post any) s.
Proof.
  unfold RunAbort. eapply seq_db; [intros; by apply MarkAborted_tx|done|]. intros d _ _.
  eapply seq_try; [apply wp_Get|done|]. intros d1 c _ _. eapply (wp_seq _ _ _ _ any); [by apply wp_ask|]. intros d2 t _ _.
  eapply wp_seq; [apply wp_emit_any|]. by intros d3 [[id q] [e|]] _ _.
Qed.
End Rekey.
