(* ===== verification/RekeyProgress.v ===== *)
(** A rekey that nothing disturbs runs to its end: programs run alone, by a server
    whose database, provider and cluster answer.

    [healthy] says what the environment then does at each call; under it the
    statements and the manager's methods succeed, and so does each phase. *)

From S2P Require Import Prelude GoStrings Sql Programs DekTypes EventCrypto DekCache DekCacheFacts DekStore DekManager Rekey DekInv DekInvOps DekInvTx DekSafety RekeySafety.
From stdpp Require Import sorting.

Open Scope string_scope.
Open Scope Z_scope.
Open Scope prog_scope.

(** ** The environment *)

(** Every question is answered, and not with a failure: what the provider wrapped it
    unwraps. *)
Definition answered (L : CryptoLib) {A} (q : ask A) : A -> Prop :=
  match q in ask A return A -> Prop with
  | ARandom _ => fun r => exists x, r = Ok x
  | AWrap _ => fun r => exists w k, r = Ok (w, k) /\ w <> EmptyString /\ k <> EmptyString
  | AUnwrap w kid => fun r => is_Some (kek_unwrap L w kid) -> exists x, r = Ok x
  | AInvalidate _ _ _ _ => fun r => r = None
  | ABinding _ => fun r => exists x, r = Ok x
  | APolicyHash _ => fun r => exists h, r = Ok h /\ forall x, h = Some x -> String.length x = 32%nat
  | ANonce => fun _ => True
  | ACancelled => fun b => b = false
  | AWriteFallback _ _ => fun r => r = Ok tt
  | ANow => fun _ => True
  end.

Record healthy (L : CryptoLib) (taken : string -> Prop) (en : environment) : Prop := mkHealthy {
  he_ok : @env_ok no_fate L en;
  he_fault : en_fault en = NoFault;
  he_ask : forall A (q : ask A), answered L q (en_ask en A q);
  he_emit : forall p, (en_emit en p).2 = None;
  he_id : ~ taken (cl_id (en_clock en))
}.

(** No question of a rekey's is about a rotation. *)
Lemma healthy_ok `{fate : Fate} L taken en : healthy L taken en -> env_ok L en.
Proof.
  intros [[Ha He] _ Hq _ _]. split; [|done]. intros A q. specialize (Ha A q). specialize (Hq A q). destruct q; try exact Ha.
  cbn in *. rewrite Hq. by intros _ [].
Qed.

Section Progress.
Context {lost : ContextID -> Z -> Prop} (L : CryptoLib) `{!CryptoLaws L} (ulid : string -> string) (taken : string -> Prop).
(** Nothing in the archive such a run starts from is late. *)
#[local] Instance fate : Fate := punctual lost.
Local Abbreviation inv := (inv L ulid).
Local Abbreviation grows := (grows L).
Local Abbreviation keeps := (keeps inv grows).
Local Abbreviation ends := (ends exec inv grows (healthy L taken)).

(** The program succeeds, with [P]. *)
Definition succ {A} (P : St -> A -> Prop) (s : St) (r : result A) : Prop := exists a, r = Ok a /\ P s a.

Lemma ends_then {A B} (p : dprog A) (f : A -> dprog B) P Q s :
  inv s -> ends p P s -> (forall d a, keeps s d -> P d a -> ends (f a) Q d) -> ends (p ≫= f) Q s.
Proof. apply (ends_seq _ _ _ _). Qed.

Lemma ends_try {A B} (p : dprog (result A)) (h : error -> dprog B) (k : A -> dprog B) P Q s :
  inv s -> ends p (succ P) s -> (forall d a, keeps s d -> P d a -> ends (k a) Q d) -> ends (try_ p h k) Q s.
Proof. intros HI Hp Hk. eapply ends_then; [done|exact Hp|]. intros d r K (a & -> & HP). by apply Hk. Qed.

Lemma ends_db {A} (f : Clock -> tx A) P s :
  (forall ck, ~ taken (cl_id ck) -> exists a db', f ck (st_db s) = (Ok a, db') /\ (keeps s (with_db s db') -> P (with_db s db') a)) ->
  ends (db f) (succ P) s.
Proof.
  intros Hf en [_ Hn _ _ Hid] K. destruct (Hf _ Hid) as (a & db' & E & HP). cbn in *. rewrite Hn, E in *. cbn in *.
  exists a. split; [done|]. by apply HP.
Qed.

(** A statement that only reads. *)
Lemma ends_read {A} (f : Clock -> tx A) (P : St -> A -> Prop) s a :
  (forall ck, f ck (st_db s) = (Ok a, st_db s)) -> P s a -> ends (db f) (succ P) s.
Proof.
  intros Hf HP. apply ends_db. intros ck _. exists a, (st_db s). split; [apply Hf|]. by rewrite with_db_self.
Qed.

Lemma ends_ask {A} (q : ask A) (P : St -> A -> Prop) s :
  (forall a, answer_ok L q a -> answered L q a -> P s a) -> ends (asks q) P s.
Proof. intros HP en Hh K. apply HP; [apply (ok_ask L en (healthy_ok L taken en Hh))|apply (he_ask _ _ _ Hh)]. Qed.

Lemma ends_LocalKeys {A} srv (f : Z -> KeyCache -> A * KeyCache) (P : St -> A -> Prop) s :
  (forall now s', st_db s' = st_db s -> keeps s s' -> P s' (f now (key_cache srv s)).1) ->
  ends (Programs.call (LocalKeys srv f)) P s.
Proof. intros HP en Hh. cbn. destruct (f _ _) as [a c'] eqn:E. cbn. intros K. specialize (HP (cl_go (en_clock en)) (mkSt _ _ _ _) eq_refl K). by rewrite E in HP. Qed.

Lemma ends_LocalParts {A} srv (f : Z -> PartCache -> A * PartCache) (P : St -> A -> Prop) s :
  (forall a s', st_db s' = st_db s -> keeps s s' -> P s' a) -> ends (Programs.call (LocalParts srv f)) P s.
Proof. intros HP en Hh. cbn. destruct (f _ _) as [a c']. cbn. intros K. by apply HP. Qed.

(** ** The manager *)
Lemma pr_selectActive x id k s : active_key x (st_db s) = Some (id, k) ->
  ends (db (fun _ => selectActive x)) (succ (fun d r => d = s /\ r = kr_row k)) s.
Proof. intros Ha. eapply ends_read; [|done]. intros _. unfold selectActive. by rewrite read_bind, Ha. Qed.

Lemma pr_selectByPK id k s : db_keys (st_db s) !! id = Some k ->
  ends (db (fun _ => selectByPK id)) (succ (fun d r => d = s /\ r = kr_row k)) s.
Proof. intros Hk. eapply ends_read; [|done]. intros _. unfold selectByPK. by rewrite read_bind, Hk. Qed.

Lemma pr_VersionForDEKID id k s : inv s -> db_keys (st_db s) !! id = Some k ->
  ends (VersionForDEKID id) (succ (fun d v => d = s /\ v = k_ver k)) s.
Proof.
  intros HI Hk. eapply ends_try; [done|by apply pr_selectByPK|]. intros d r _ [-> ->]. cbn. by eexists.
Qed.

Lemma pr_unwrapAndCache sv r m s : inv s -> kek_unwrap L (r_WrappedDEK r) (r_WrapKeyID r) = Some m ->
  String.length m = DEKByteLength ->
  ends (unwrapAndCache sv r) (succ (fun d key => st_db d = st_db s /\ key = mkKey (r_ID r) (r_Version r) m)) s.
Proof.
  intros HI Hm Hl. unfold unwrapAndCache. eapply ends_try; [done| |].
  - apply (ends_ask _ (succ (fun d x => d = s /\ x = m))). intros a Hok Ha. destruct (Ha (mk_is_Some _ _ Hm)) as [x ->].
    exists x. split; [done|]. split; [done|]. specialize (Hok _ eq_refl). congruence.
  - intros d x _ [-> ->]. unfold validateProviderUnwrapOutput. rewrite Hl. cbn [Nat.eqb DEKByteLength].
    eapply ends_then; [done|apply (ends_LocalKeys _ _ (fun d _ => st_db d = st_db s)); by intros|]. intros d _ [HId _] Hd.
    eapply ends_then; [done|apply (ends_LocalParts _ _ (fun d _ => st_db d = st_db s)); by intros; congruence|].
    intros d1 u K1 Hd1. cbn. eexists. done.
Qed.

(** A key that is there and not destroyed resolves to its material, cached or not. *)
Lemma pr_Resolve sv id k s : inv s -> db_keys (st_db s) !! id = Some k -> ~ destroyed k ->
  ends (Resolve sv id (k_ver k))
    (succ (fun d key => st_db d = st_db s /\ exists m, secret L k = Some m /\ String.length m = DEKByteLength
             /\ key = mkKey id (k_ver k) m)) s.
Proof.
  intros HI Hk Hd. destruct (ko_secret _ _ _ _ (i_keys _ _ _ HI _ _ Hk)) as (m & Hm & Hl). unfold Resolve.
  eapply ends_then; [done|apply (ends_LocalKeys _ _ (fun d r => st_db d = st_db s /\ forall x, r = Some x -> x = m))|].
  - intros now s' Hs' _. split; [done|]. intros x Hx.
    destruct (cache_get_hit L _ _ _ _ _ (key_cache_sound L ulid _ (sv_name sv) HI) Hx) as (k' & Hk' & _ & Hsx).
    cbn in Hk'. congruence.
  - intros d [x|] [HId _] [Hdb Hx].
    { cbn. eexists. split; [done|]. split; [done|]. exists m. by rewrite (Hx x eq_refl). }
    eapply ends_try; [done| |].
    + apply (ends_read _ (fun d' r => d' = d /\ r = kr_row k) _ (kr_row k)); [|done]. intros _. unfold selectByID.
      rewrite read_bind, Hdb, Hk. fold (k_ver k). rewrite Z.eqb_refl. rewrite bool_decide_eq_true_2; [done|].
      unfold destroyed in Hd. destruct (kr_destroyed_at k); [destruct Hd; eauto|done].
    + intros d' r _ [-> ->]. eapply ends_mono; [|by apply pr_unwrapAndCache].
      intros d2 r2 (key & -> & Hd2 & ->). eexists. split; [done|]. split; [congruence|]. exists m. split; [done|]. split; [done|].
      by rewrite (ko_id _ _ _ _ (i_keys _ _ _ HI _ _ Hk)).
Qed.
End Progress.

Open Scope string_scope.
Open Scope Z_scope.
Open Scope prog_scope.

(** ** Checkpoints, up to heartbeat and cursor *)
Definition core (c : Checkpoint) : Checkpoint := ck_beat 0 (ck_set_cursor EmptyString c).

Definition has (db : DB) (rid : string) (C : Checkpoint) : Prop :=
  exists c, db_ckpts db !! rid = Some c /\ core c = core C.

(** No other rekey of its context is live. *)
Definition alone (db : DB) (rid : string) (C : Checkpoint) : Prop :=
  forall rid2 c2, db_ckpts db !! rid2 = Some c2 -> ck_ctx c2 = ck_ctx C -> live c2 = true -> rid2 = rid.

(** The CHECK constraints of the table hold. *)
Definition sane (c : Checkpoint) : bool :=
  status_known c && terminal_consistent c && int4_ok (ck_Phase3RowsRewritten c) && int4_ok (ck_Phase5AttemptCount c).

Lemma core_core c : core (core c) = core c.
Proof. done. Qed.

Lemma core_beat now c : core (ck_beat now c) = core c.
Proof. done. Qed.

(** What does not depend on heartbeat and cursor. *)
Lemma core_field {A} (f : Checkpoint -> A) c C : (forall x, f (core x) = f x) -> core c = core C -> f c = f C.
Proof. intros Hf H. by rewrite <- (Hf c), H, Hf. Qed.

(** An update that does not look at them leaves equal checkpoints equal. *)
Lemma core_map (f : Checkpoint -> Checkpoint) c C :
  (forall x, core (f (core x)) = core (f x)) -> core c = core C -> core (f c) = core (f C).
Proof. intros Hf H. by rewrite <- (Hf c), H, Hf. Qed.

Section Progress.
Context {lost : ContextID -> Z -> Prop} (L : CryptoLib) `{!CryptoLaws L} (ulid : string -> string) (taken : string -> Prop).
(** Nothing in the archive such a run starts from is late. *)
#[local] Instance phase_fate : Fate := punctual lost.
Local Abbreviation inv := (inv L ulid).
Local Abbreviation grows := (grows L).
Local Abbreviation keeps := (keeps inv grows).
Local Abbreviation ends := (ends exec inv grows (healthy L taken)).

Lemma pr_Get rid C s : has (st_db s) rid C ->
  ends (db (fun _ => Get rid)) (succ (fun d c => d = s /\ db_ckpts (st_db s) !! rid = Some c /\ core c = core C)) s.
Proof.
  intros (c & Hc & Hcore). apply (ends_read _ _ _ _ _ _ c); [|done]. intros _. unfold Get. by rewrite read_bind, Hc.
Qed.

Lemma inv_alone s rid C : inv s -> has (st_db s) rid C -> live C = true -> alone (st_db s) rid C.
Proof.
  intros HI (c & Hc & Hcore) Hl rid2 c2 Hc2 Hx Hl2. eapply (i_live _ _ _ HI rid2 rid); eauto.
  - by rewrite (core_field live c C ltac:(done) Hcore).
  - rewrite Hx. symmetry. by apply core_field.
Qed.

Lemma put_ckpt_Ok db rid c C : alone db rid C -> ck_ctx c = ck_ctx C -> sane c = true ->
  put_ckpt rid c db = (Ok tt, set_ckpts db (<[rid := c]> (db_ckpts db))).
Proof.
  intros Ha Hx Hs. unfold sane in Hs. rewrite !andb_true_iff in Hs. destruct Hs as [[[H1 H2] H3] H4].
  unfold put_ckpt. rewrite read_bind, H1, H2, H3, H4. cbn [andb negb].
  replace (live c && other_live rid (ck_ctx c) db) with false; [done|]. symmetry. apply andb_false_iff. right.
  apply not_true_iff_false. unfold other_live. intros ([rid2 c2] & Hin & Ho)%existsb_exists.
  rewrite !andb_true_iff, bool_decide_eq_true, negb_true_iff in Ho. destruct Ho as [[Hx2 Hl2] Hr].
  apply list_elem_of_In, elem_of_map_to_list in Hin. apply String.eqb_neq in Hr. apply Hr.
  eapply Ha; eauto. cbn in *. congruence.
Qed.

(** An update that its condition admits: [F] is what it does, but for heartbeat and
    cursor. *)
Record admits (C : Checkpoint) (P : Checkpoint -> bool) (f F : Checkpoint -> Checkpoint) : Prop := mkAdmits {
  ad_where : P C = true;
  ad_where_core : forall x, P (core x) = P x;
  ad_does : forall x, core (f x) = core (F x);
  ad_core : forall x, core (F (core x)) = core (F x);
  ad_ctx : ck_ctx (F C) = ck_ctx C;
  ad_sane : sane (F C) = true
}.

Lemma update_run db rid C P f F code stale : has db rid C -> alone db rid C -> admits C P f F ->
  exists db', update rid P f code stale db = (Ok tt, db') /\ has db' rid (F C) /\ alone db' rid (F C)
    /\ exists m, db' = set_ckpts db m.
Proof.
  intros (c & Hc & Hcore) Ha [HP HPc Hf HF Hx Hs]. assert (Hfc : core (f c) = core (F C)) by (rewrite Hf; by apply core_map).
  exists (set_ckpts db (<[rid := f c]> (db_ckpts db))). split; [|split; [|split; [|by eexists]]].
  - unfold update. rewrite read_bind, Hc. rewrite (core_field P c C HPc Hcore), HP. unfold wrap_code.
    rewrite (put_ckpt_Ok db rid _ C); [done|done| |].
    + by rewrite (core_field ck_ctx _ _ ltac:(done) Hfc), Hx.
    + by rewrite (core_field sane _ _ ltac:(done) Hfc).
  - exists (f c). split; [apply lookup_insert_eq|done].
  - intros rid2 c2 Hc2 Hx2 Hl2. cbn in Hc2. destruct (decide (rid2 = rid)); [done|]. rewrite lookup_insert_ne in Hc2 by done.
    eapply Ha; eauto. congruence.
Qed.

Lemma pr_update_seq rid C g P (f : Clock -> Checkpoint -> Checkpoint) F code stale s :
  (forall ck, g ck (st_db s) = update rid P (f ck) code stale (st_db s)) ->
  inv s -> has (st_db s) rid C -> live C = true -> (forall ck, admits C P (f ck) F) ->
  ends (db g)
    (succ (fun d _ => db_key_seq (st_db d) = db_key_seq (st_db s) /\ has (st_db d) rid (F C)
             /\ db_keys (st_db d) = db_keys (st_db s) /\ db_audit (st_db d) = db_audit (st_db s))) s.
Proof.
  intros Hg HI Hh Hl Had. apply ends_db. intros ck _.
  destruct (update_run _ _ _ _ _ _ code stale Hh (inv_alone _ _ _ HI Hh Hl) (Had ck)) as (db' & E & H' & _ & m & ->).
  exists tt, (set_ckpts (st_db s) m). split; [by rewrite Hg|]. done.
Qed.

Lemma pr_update rid C g P (f : Clock -> Checkpoint -> Checkpoint) F code stale s :
  (forall ck, g ck (st_db s) = update rid P (f ck) code stale (st_db s)) ->
  inv s -> has (st_db s) rid C -> live C = true -> (forall ck, admits C P (f ck) F) ->
  ends (db g)
    (succ (fun d _ => has (st_db d) rid (F C) /\ db_keys (st_db d) = db_keys (st_db s)
             /\ db_audit (st_db d) = db_audit (st_db s))) s.
Proof.
  intros Hg HI Hh Hl Had. eapply ends_mono; [|by eapply pr_update_seq]. intros d r (u & -> & _ & H). by exists u.
Qed.

(** *** Rows that satisfy the CHECKs *)
Lemma sane_open C : live C = true -> sane C = true ->
  ck_CompletedAt C = None /\ ck_AbortedAt C = None /\ ck_AbortedReason C = None.
Proof.
  unfold live, sane, terminal_consistent. rewrite negb_true_iff, !andb_true_iff. intros Hl [[[_ Ht] _] _].
  assert (Hn : forall A (x : option A), bool_decide (x = None) = true -> x = None) by (intros ? ?; by rewrite bool_decide_eq_true).
  destruct (ck_Status C); try done; rewrite !andb_true_iff in Ht; destruct Ht as [[? ?] ?]; auto.
Qed.

Lemma sane_counters C : sane C = true -> int4_ok (ck_Phase3RowsRewritten C) = true /\ int4_ok (ck_Phase5AttemptCount C) = true.
Proof. unfold sane. rewrite !andb_true_iff. tauto. Qed.

Lemma sane_status st C : st ∈ AllCheckpointStatuses -> IsTerminal st = false -> live C = true -> sane C = true ->
  sane (ck_set_status st C) = true.
Proof.
  intros Hin Ht Hl Hs. destruct (sane_open C Hl Hs) as (H1 & H2 & H3). destruct (sane_counters C Hs) as [H4 H5].
  unfold sane, status_known, terminal_consistent. cbn. rewrite H1, H2, H3, H4, H5, (bool_decide_eq_true_2 (st ∈ _)) by done.
  unfold IsTerminal in Ht. by destruct st.
Qed.

Lemma sane_complete t C : live C = true -> sane C = true ->
  sane (ck_end (Some t) (ck_AbortedAt C) (ck_AbortedReason C) (ck_set_status CheckpointStatusComplete C)) = true.
Proof.
  intros Hl Hs. destruct (sane_open C Hl Hs) as (H1 & H2 & H3). destruct (sane_counters C Hs) as [H4 H5].
  unfold sane, status_known, terminal_consistent. cbn. by rewrite H2, H3, H4, H5.
Qed.

Lemma has_statusP st c : ck_Status c = st -> has_status st c = true.
Proof. unfold has_status. by rewrite bool_decide_eq_true. Qed.

(** The status moves along an edge. *)
Lemma pr_UpdateStatus rid C from to s :
  AssertTransitionAllowed from to = Ok tt -> IsTerminal to = false -> to ∈ AllCheckpointStatuses ->
  inv s -> has (st_db s) rid C -> live C = true -> sane C = true -> ck_Status C = from ->
  ends (db (fun ck => UpdateStatus (cl_db ck) rid from to))
    (succ (fun d _ => db_key_seq (st_db d) = db_key_seq (st_db s) /\ has (st_db d) rid (ck_set_status to C)
             /\ db_keys (st_db d) = db_keys (st_db s) /\ db_audit (st_db d) = db_audit (st_db s))) s.
Proof.
  intros Ha Ht Hin HI Hh Hl Hs Hst. unfold UpdateStatus. rewrite Ha.
  apply (pr_update_seq rid C _ (has_status from) (fun ck c => ck_beat (cl_db ck) (ck_set_status to c)) (ck_set_status to)
           "DEK_REKEY_UPDATE_STATUS_FAILED" stale_transition); try done.
  intros ck. split; try done; [by apply has_statusP|by apply sane_status].
Qed.

(** ** Re-encryption *)
Context (remarshal : forall raw e p, unmarshalEvent L raw = Ok e -> exists b, marshalEvent L (set_payload e p) = Ok b).

(** The rows under a key, and that they can be read. *)
Definition under (s : St) (o : Z) : gset string :=
  dom (filter (fun ir => au_dek_ref ir.2 = Some o) (db_audit (st_db s))).
Definition readable (s : St) (o : Z) : Prop :=
  forall id r, db_audit (st_db s) !! id = Some r -> au_dek_ref r = Some o -> is_Some (open_row L (db_keys (st_db s)) r).

Lemma elem_of_under s o id : id ∈ under s o <-> exists r, db_audit (st_db s) !! id = Some r /\ au_dek_ref r = Some o.
Proof.
  unfold under. rewrite elem_of_dom. unfold is_Some. setoid_rewrite map_lookup_filter_Some. done.
Qed.

(** The fields of the AAD fit whatever the key. *)
Lemma Build_any_key e c o v a n v' : Build L e c o v = Ok a -> exists a', Build L e c n v' = Ok a'.
Proof.
  unfold Build. destruct (marshalActor L (ev_Actor e)); [|done]. destruct (checkFieldLen "event.id" _); [|done].
  destruct (checkFieldLen "event.subject" _); [|done]. destruct (checkFieldLen "event.type" _); [|done].
  destruct (checkFieldLen "actor_bytes" _); [|done]. destruct (checkFieldLen "codec_name" _); [|done]. cbn. eauto.
Qed.

Lemma Encode_total c nonce p key a : String.length (k_Bytes key) = DEKByteLength -> exists ct, Encode L c nonce p key a = Ok ct.
Proof. intros Hl. destruct c; cbn; [eauto|]. unfold newX. rewrite Hl. cbn. eauto. Qed.

Lemma ends_or_fail {A B} f (r : result A) (k : A -> dprog (result B)) Q s a :
  r = Ok a -> ends (k a) Q s -> ends (or_fail f r k) Q s.
Proof. by intros ->. Qed.

Lemma pr_rewrite_one sv o n v m r s :
  sv_lib sv = L -> inv s -> is_Some (open_row L (db_keys (st_db s)) r.2) -> au_dek_ref r.2 = Some o ->
  String.length m = DEKByteLength ->
  ends (rewrite_one sv o n (mkKey n v m) v r) (succ (fun d w => st_db d = st_db s /\ w.1 = r.1)) s.
Proof.
  intros Hlib HI [e He] Ho Hl. apply open_row_Some in He as (o' & ov & k & om & ev & c & aad & p & Ho' & Hv & Hk & Hkv & Hd & Hm & Hev & Hc & Ha & Hp & _).
  assert (o' = o) as -> by congruence. unfold rewrite_one. rewrite Hv, Hlib. eapply ends_or_fail; [exact Hev|].
  eapply ends_try; [done|rewrite <- Hkv; by apply pr_Resolve|]. intros d key [HId _] (Hdb & om' & Hm' & _ & ->).
  assert (om' = om) as -> by congruence. rewrite Hkv.
  eapply ends_or_fail; [exact Ha|]. eapply ends_or_fail; [exact Hc|]. eapply ends_or_fail; [exact Hp|].
  destruct (Build_any_key _ _ _ _ _ n v Ha) as [aad' Ha']. eapply ends_or_fail; [exact Ha'|].
  eapply ends_then; [done|by apply (ends_ask L ulid taken _ (fun d' _ => d' = d))|]. intros d1 nonce _ ->.
  destruct (Encode_total c nonce p (mkKey n v m) aad' Hl) as [ct Hct]. eapply ends_or_fail; [exact Hct|].
  destruct (remarshal _ _ ct Hev) as [raw Hraw]. eapply ends_or_fail; [exact Hraw|]. cbn. by eexists.
Qed.

Lemma pr_rewrite_all sv o n v m rs s :
  sv_lib sv = L -> inv s -> String.length m = DEKByteLength ->
  Forall (fun r => is_Some (open_row L (db_keys (st_db s)) r.2) /\ au_dek_ref r.2 = Some o) rs ->
  ends (rewrite_all sv o n (mkKey n v m) v rs) (succ (fun d ws => st_db d = st_db s /\ ws.*1 = rs.*1)) s.
Proof.
  intros Hlib HI Hl. revert s HI. induction rs as [|r rs IH]; intros s HI Hrs; [cbn; by eexists|].
  apply Forall_cons in Hrs as [[Hr Ho] Hrs']. eapply ends_try; [done|by apply pr_rewrite_one|].
  intros d w [HId _] [Hdb Hw]. eapply ends_try; [done|apply IH; [done|by rewrite Hdb]|].
  intros d' ws _ [Hdb' Hws]. cbn. eexists. split; [done|]. rewrite Hdb', Hdb. split; [done|]. cbn. congruence.
Qed.

Lemma scan_versions_Ok s o rs : inv s ->
  Forall (fun r => is_Some (open_row L (db_keys (st_db s)) r.2) /\ au_dek_ref r.2 = Some o) rs -> scan_versions rs = Ok tt.
Proof.
  intros HI. induction 1 as [|r rs [[e He] _] _ IH]; [done|]. cbn.
  apply open_row_Some in He as (o' & ov & k & om & ev & c & aad & p & _ & Hv & Hk & Hkv & _). rewrite Hv.
  pose proof (ko_ver _ _ _ _ (i_keys _ _ _ HI _ _ Hk)). destruct (Z.ltb_spec ov 0); [lia|done].
Qed.

Lemma commit_batch_run db now rid C ws n v lastID :
  has db rid C -> alone db rid C -> ck_Status C = CheckpointStatusPhase3ReencryptCold ->
  sane (ck_counts (Z.of_nat (length ws)) 0 C) = true ->
  exists db', atomically (commit_batch now rid ws n v lastID) db = (Ok tt, db')
    /\ has db' rid (ck_counts (Z.of_nat (length ws)) 0 C) /\ db_keys db' = db_keys db
    /\ db_audit db' = rewrite_audit ws n v (db_audit db).
Proof.
  intros Hh Ha Hst Hs. set (db1 := rewrite_rows ws n v db).
  assert (Hdb1 : db1 = set_audit db (rewrite_audit ws n v (db_audit db))) by apply rewrite_rows_set.
  assert (Hst' : forall c, ck_Status c = CheckpointStatusPhase3ReencryptCold -> has_status CheckpointStatusPhase3ReencryptCold c = true).
  { intros c E. unfold has_status. by rewrite E. }
  destruct (update_run db1 rid C (has_status CheckpointStatusPhase3ReencryptCold)
    (fun c => ck_beat now (ck_counts (Z.of_nat (length ws)) 0 c)) (ck_counts (Z.of_nat (length ws)) 0)
    "DEK_REKEY_PHASE3_COUNT_INCREMENT_FAILED" stale_transition) as (db2 & E2 & H2 & A2 & m2 & Hm2).
  { by rewrite Hdb1. } { by rewrite Hdb1. } { split; try done. by apply Hst'. }
  destruct (update_run db2 rid (ck_counts (Z.of_nat (length ws)) 0 C) (has_status CheckpointStatusPhase3ReencryptCold)
    (fun c => ck_beat now (ck_set_cursor lastID c)) (fun c => c)
    "DEK_REKEY_ADVANCE_CURSOR_FAILED" stale_transition) as (db3 & E3 & H3 & A3 & m3 & Hm3).
  { done. } { done. } { split; try done. by apply Hst'. }
  exists db3. split; [|split; [done|]].
  - unfold atomically, commit_batch. rewrite write_bind. fold db1. unfold IncrementPhase3Count, AdvanceCursor, mbind, txn_bind.
    by rewrite E2, E3.
  - by rewrite Hm3, Hm2, Hdb1.
Qed.

Lemma select_batch_NoDup o cursor k db : NoDup (select_batch o cursor k db).*1.
Proof.
  unfold select_batch. eapply sublist_NoDup; [|apply fmap_sublist, sublist_take]. unfold order_by. rewrite merge_sort_Permutation.
  apply NoDup_fmap_fst; [|apply NoDup_rows_where]. intros i x y. rewrite !rows_where_elem. intros [? _] [? _]. congruence.
Qed.

Lemma sane_counts C k N : 0 <= k <= N -> sane C = true -> sane (ck_counts N 0 C) = true -> sane (ck_counts k 0 C) = true.
Proof.
  unfold sane, int4_ok. rewrite !andb_true_iff, !Z.leb_le. cbn [ck_counts ck_Phase3RowsRewritten ck_Phase5AttemptCount].
  intros Hk [[[H1 H2] H3] H4] [[[H5 H6] H7] H8]. split; [split; [split|]|]; [done|done|lia|done].
Qed.

Lemma ck_counts_add a b C : ck_counts a 0 (ck_counts b 0 C) = ck_counts (b + a) 0 C.
Proof. unfold ck_counts. cbn. f_equal; lia. Qed.

(** No row is late here: every row under the old key comes after the cursor. *)
Definition all_covered (s : St) (o : Z) (cursor : option string) : Prop :=
  forall id r, db_audit (st_db s) !! id = Some r -> au_dek_ref r = Some o -> String.ltb (cursor_bound cursor) id = true.

(** What the batch loop has at hand: the rekey is in Phase 3, the rows under its old
    key can be read, and they come after the cursor. *)
Record loop_state (s : St) (rid : string) (C : Checkpoint) (n : Z) (m : string) (cursor : option string) : Prop := mkLoop {
  lo_has : has (st_db s) rid C;
  lo_status : ck_Status C = CheckpointStatusPhase3ReencryptCold;
  lo_new : n <> ck_OldDEKID C;
  lo_sane : sane C = true;
  lo_room : sane (ck_counts (Z.of_nat (size (under s (ck_OldDEKID C)))) 0 C) = true;
  lo_material : String.length m = DEKByteLength;
  lo_readable : readable s (ck_OldDEKID C);
  lo_covered : all_covered s (ck_OldDEKID C) cursor
}.

Lemma loop_state_same s s' rid C n m cursor : st_db s' = st_db s -> loop_state s rid C n m cursor -> loop_state s' rid C n m cursor.
Proof.
  intros E [H1 H2 H3 H4 H5 H6 H7 H8]. split; try done; unfold under, readable, all_covered in *; by rewrite E.
Qed.

(** The rows a committed batch leaves under the old key. *)
Lemma batch_rows s db' o n v ws last_id x cursor k :
  (forall id r, db_audit (st_db s) !! id = Some r -> au_dek_ref r = Some o -> String.ltb (cursor_bound cursor) id = true) ->
  n <> o -> ws.*1 = (select_batch o cursor k (st_db s)).*1 -> last (select_batch o cursor k (st_db s)) = Some (last_id, x) ->
  db_audit db' = rewrite_audit ws n v (db_audit (st_db s)) ->
  forall id r, db_audit db' !! id = Some r -> au_dek_ref r = Some o ->
    db_audit (st_db s) !! id = Some r /\ id ∉ ws.*1 /\ String.ltb last_id id = true.
Proof.
  intros Hcov Hno Hws Hlast Hdb id r Hr Href. rewrite Hdb in Hr.
  destruct (rewrite_audit_lookup _ _ _ _ _ _ Hr) as (r0 & Hr0 & _ & Hin & Hout).
  destruct (decide (id ∈ ws.*1)) as [Hi|Hi]; [destruct (Hin Hi) as (w & _ & ->); cbn in Href; congruence|].
  rewrite (Hout Hi) in *. split; [done|]. split; [done|]. rewrite Hws in Hi.
  destruct (select_batch_complete o cursor k _ _ _ Hr0 Href (Hcov _ _ Hr0 Href)) as [?|[_ Hl]]; [done|]. by eapply Hl.
Qed.

Lemma under_shrinks s d o (ws : list (string * string)) : NoDup ws.*1 -> (forall i, i ∈ ws.*1 -> i ∈ under s o) ->
  (forall i, i ∈ under d o <-> i ∈ under s o /\ i ∉ ws.*1) ->
  size (under s o) = (length ws + size (under d o))%nat.
Proof.
  intros Hnd Hin Hd. assert (E : under d o = under s o ∖ list_to_set ws.*1) by set_solver. rewrite E.
  rewrite size_difference by set_solver. rewrite size_list_to_set by done. rewrite length_fmap.
  assert (size (list_to_set ws.*1 : gset string) <= size (under s o))%nat by (apply subseteq_size; set_solver).
  rewrite size_list_to_set, length_fmap in * by done. lia.
Qed.

Lemma pr_batch sv n v m rid C cursor s :
  sv_lib sv = L -> inv s -> loop_state s rid C n m cursor ->
  ends (processPhase3Batch sv (ck_OldDEKID C) n (mkKey n v m) v cursor defaultPhase3BatchSize rid)
    (succ (fun d b => match b with
       | None => st_db d = st_db s /\ size (under s (ck_OldDEKID C)) = 0%nat
       | Some (k, lastID) => (0 < k)%nat /\ db_keys (st_db d) = db_keys (st_db s)
           /\ loop_state d rid (ck_counts (Z.of_nat k) 0 C) n m (Some lastID)
           /\ size (under s (ck_OldDEKID C)) = (k + size (under d (ck_OldDEKID C)))%nat
       end)) s.
Proof.
  intros Hlib HI Hls. pose proof Hls as [Hh Hst Hno Hsane Hroom Hl Hrd Hcov]. set (o := ck_OldDEKID C) in *.
  unfold processPhase3Batch. set (batch := select_batch o cursor defaultPhase3BatchSize (st_db s)).
  eapply ends_try; [done|by apply (ends_read _ _ _ _ (fun d b => d = s /\ b = batch) _ batch)|]. intros d b _ [-> ->].
  assert (Hbatch : Forall (fun r => is_Some (open_row L (db_keys (st_db s)) r.2) /\ au_dek_ref r.2 = Some o) batch).
  { apply Forall_forall. intros [id r] Hin. apply select_batch_elem in Hin as (Hr & Href & _). split; [by eapply Hrd|done]. }
  eapply ends_or_fail; [by eapply scan_versions_Ok|]. destruct (last batch) as [[lastID lr]|] eqn:Hlast.
  2:{ cbn. eexists. split; [done|]. split; [done|]. apply last_None in Hlast. apply size_empty_iff. intros id.
      rewrite elem_of_under. split; [intros (r & Hr & Href)|set_solver].
      destruct (select_batch_complete o cursor defaultPhase3BatchSize _ _ _ Hr Href (Hcov _ _ Hr Href)) as [Hin|[Hlen _]].
      - fold batch in Hin. rewrite Hlast in Hin. by apply elem_of_nil in Hin.
      - fold batch in Hlen. by rewrite Hlast in Hlen. }
  eapply ends_try; [done|by apply pr_rewrite_all|]. intros d ws [HId _] [Hdb Hws].
  assert (Hsub : forall i, i ∈ ws.*1 -> i ∈ under s o).
  { intros i. rewrite Hws. intros ([i' r] & -> & Hin)%list_elem_of_fmap. apply select_batch_elem in Hin as (Hr & Href & _).
    apply elem_of_under. eauto. }
  assert (Hlne : lastID <> EmptyString).
  { apply last_Some_elem_of, select_batch_elem in Hlast as (_ & _ & Hlt). intros ->.
    unfold cursor_bound in Hlt. by destruct cursor as [ [|] |]. }
  assert (Hnd : NoDup ws.*1) by (rewrite Hws; apply select_batch_NoDup).
  assert (Hlen : length ws = length batch) by (rewrite <- (length_fmap fst ws), Hws; apply length_fmap).
  assert (Hpos : (0 < length batch)%nat) by (destruct batch; [done|cbn; lia]).
  assert (Hle : (length ws <= size (under s o))%nat).
  { rewrite <- (length_fmap fst ws), <- (size_list_to_set (C := gset string)) by done. apply subseteq_size. set_solver. }
  assert (Hsane1 : sane (ck_counts (Z.of_nat (length ws)) 0 C) = true) by (eapply sane_counts; [|done|exact Hroom]; lia).
  eapply ends_try; [done| |].
  { apply (ends_db _ _ _ _ (fun d1 _ => has (st_db d1) rid (ck_counts (Z.of_nat (length ws)) 0 C)
      /\ db_keys (st_db d1) = db_keys (st_db s) /\ db_audit (st_db d1) = rewrite_audit ws n v (db_audit (st_db s)))). intros ck _.
    destruct (commit_batch_run (st_db d) (cl_db ck) rid C ws n v lastID) as (db' & E & H1 & H2 & H3); [..|done|done|].
    - by rewrite Hdb. - rewrite Hdb. apply inv_alone; [done..|]. unfold live. by rewrite Hst.
    - exists tt, db'. split; [exact E|]. intros _. rewrite <- Hdb. done. }
  intros d1 [] _ (H1 & H2 & H3). exists (Some (length batch, lastID)). split; [done|]. rewrite <- Hlen.
  assert (Hrows : forall id r, db_audit (st_db d1) !! id = Some r -> au_dek_ref r = Some o ->
            db_audit (st_db s) !! id = Some r /\ id ∉ ws.*1 /\ String.ltb lastID id = true) by by eapply batch_rows.
  assert (Hunder : size (under s o) = (length ws + size (under d1 o))%nat).
  { apply under_shrinks; [done..|]. intros i. rewrite !elem_of_under. split.
    - intros (r & Hr & Href). destruct (Hrows _ _ Hr Href) as (Hr' & Hni & _). eauto.
    - intros [(r & Hr & Href) Hni]. exists r. split; [|done].
      destruct (db_audit (st_db d1) !! i) as [r'|] eqn:E; rewrite H3 in E.
      + destruct (rewrite_audit_lookup _ _ _ _ _ _ E) as (r0 & Hr0 & _ & _ & Hout). rewrite (Hout Hni). congruence.
      + apply rewrite_audit_lookup_None in E. congruence. }
  split; [lia|]. split; [done|]. split; [|done]. split; try done.
  - cbn [ck_counts ck_OldDEKID]. fold o. rewrite ck_counts_add.
    replace (Z.of_nat (length ws) + Z.of_nat (size (under d1 o))) with (Z.of_nat (size (under s o))) by lia. done.
  - intros id r Hr Href. destruct (Hrows _ _ Hr Href) as (Hr' & _). rewrite H2. by eapply Hrd.
  - intros id r Hr Href. destruct (Hrows _ _ Hr Href) as (_ & _ & Hlt). by destruct lastID.
Qed.

(** Enough fuel: one iteration per row, and one to find that none is left. *)
Lemma pr_phase3_loop sv fuel n v m rid C cursor total hb s :
  sv_lib sv = L -> inv s -> loop_state s rid C n m cursor -> (size (under s (ck_OldDEKID C)) < fuel)%nat ->
  let N := size (under s (ck_OldDEKID C)) in
  ends (phase3_loop sv fuel rid (ck_OldDEKID C) n (mkKey n v m) v cursor total hb)
    (succ (fun d t => t = (total + N)%nat /\ has (st_db d) rid (ck_counts (Z.of_nat N) 0 C)
             /\ db_keys (st_db d) = db_keys (st_db s))) s.
Proof.
  intros Hlib. cbn zeta. revert C cursor total hb s. induction fuel as [|fuel IH]; intros C cursor total hb s HI Hls Hf; [lia|].
  cbn [phase3_loop]. eapply ends_then; [done|apply (ends_ask _ _ _ _ (fun d a => d = s /\ a = false)); done|].
  intros d c _ [-> ->]. eapply ends_try; [done|by apply pr_batch|]. intros d [[k lastID]|] [HId _].
  2:{ intros [Hdb HN]. cbn. eexists. split; [done|]. rewrite HN, Hdb. split; [lia|]. split; [|done].
      destruct (lo_has _ _ _ _ _ _ Hls) as (c & Hc & Hcore). exists c. split; [done|]. rewrite Hcore.
      unfold ck_counts. rewrite !Z.add_0_r. by destruct C. }
  intros (Hk & Hkeys & Hls1 & HN).
  assert (Hgo : forall d', inv d' -> db_keys (st_db d') = db_keys (st_db d) -> loop_state d' rid (ck_counts (Z.of_nat k) 0 C) n m (Some lastID) ->
    size (under d' (ck_OldDEKID C)) = size (under d (ck_OldDEKID C)) -> forall h,
    ends (phase3_loop sv fuel rid (ck_OldDEKID C) n (mkKey n v m) v (Some lastID) (total + k)%nat h)
      (succ (fun d t => t = (total + size (under s (ck_OldDEKID C)))%nat
         /\ has (st_db d) rid (ck_counts (Z.of_nat (size (under s (ck_OldDEKID C)))) 0 C)
         /\ db_keys (st_db d) = db_keys (st_db s))) d').
  { intros d' HI' Hk' Hls' HN' h.
    eapply ends_mono; [|apply (IH (ck_counts (Z.of_nat k) 0 C)); [done|exact Hls'|cbn [ck_counts ck_OldDEKID]; lia] ].
    cbn [ck_counts ck_OldDEKID]. intros d2 r (t & -> & -> & Hh2 & Hk2). eexists. split; [done|]. rewrite HN', HN.
    split; [lia|]. split; [|congruence]. by rewrite ck_counts_add, <- Nat2Z.inj_add, HN' in Hh2. }
  eapply ends_then; [done|apply (ends_ask _ _ _ _ (fun d' _ => d' = d)); done|]. intros d1 now _ ->.
  case_match; [|by apply Hgo].
  eapply ends_then; [done|apply (pr_update rid (ck_counts (Z.of_nat k) 0 C) _ (fun _ => true) (fun ck => ck_beat (cl_db ck)) (fun c => c)
    "DEK_REKEY_HEARTBEAT_FAILED" None) |].
  - done. - done. - apply (lo_has _ _ _ _ _ _ Hls1).
  - unfold live. by rewrite (lo_status _ _ _ _ _ _ Hls1).
  - intros ck. split; try done. apply (lo_sane _ _ _ _ _ _ Hls1).
  - intros d1 r1 [HI1 _] (u & _ & Hh1 & Hk1 & Ha1).
    eapply ends_then; [done|apply (ends_ask _ _ _ _ (fun d' _ => d' = d1)); done|]. intros d2 now' _ ->. apply Hgo; try done.
    + destruct Hls1. split; try done; unfold under, readable, all_covered in *; rewrite ?Hk1, ?Ha1; done.
    + unfold under. by rewrite Ha1.
Qed.
End Progress.
