(* ===== verification/RekeyCompletes.v ===== *)
(** The phases of a rekey that nothing disturbs, put together: from each status the
    resume dispatcher can pick up, the rekey is driven to completion. *)

From S2P Require Import Prelude GoStrings Sql Programs DekTypes EventCrypto DekCache DekCacheFacts DekStore DekManager Rekey DekInv DekInvOps DekInvTx DekSafety RekeySafety RekeyProgress.

Open Scope string_scope.
Open Scope Z_scope.
Open Scope prog_scope.

(** Membership in the declared statuses. *)
Ltac declared := unfold AllCheckpointStatuses; set_solver.

Section Completes.
Context {lost : ContextID -> Z -> Prop} (L : CryptoLib) `{!CryptoLaws L} (ulid : string -> string) (taken : string -> Prop).
(** Nothing in the archive such a run starts from is late. *)
#[local] Instance fate : Fate := punctual lost.
Context (remarshal : forall raw e p, unmarshalEvent L raw = Ok e -> exists b, marshalEvent L (set_payload e p) = Ok b).
Local Abbreviation inv := (inv L ulid).
Local Abbreviation grows := (grows L).
Local Abbreviation keeps := (keeps inv grows).
Local Abbreviation ends := (ends exec inv grows (healthy L taken)).

(** A rekey under way: its row, and the rows of its keys. *)
Record under_way (s : St) (rid : string) (C : Checkpoint) (o n : Z) : Prop := mkUnderWay {
  uw_has : has (st_db s) rid C;
  uw_live : live C = true;
  uw_sane : sane C = true;
  uw_old : ck_OldDEKID C = o;
  uw_new : ck_NewDEKID C = Some n
}.

Lemma uw_keys s rid C o n : inv s -> under_way s rid C o n ->
  exists ko kn, db_keys (st_db s) !! o = Some ko /\ db_keys (st_db s) !! n = Some kn /\ n <> o /\ ~ destroyed kn.
Proof.
  intros HI [(c & Hc & Hcore) Hl _ Ho Hn]. assert (Hlc : live c = true) by by rewrite (core_field live c C ltac:(done) Hcore).
  rewrite <- (core_field ck_OldDEKID c C ltac:(done) Hcore) in Ho. rewrite <- (core_field ck_NewDEKID c C ltac:(done) Hcore) in Hn.
  destruct (cp_keys _ _ _ _ (i_ckpts _ _ _ HI _ _ Hc)) as (ko & Hko & _ & Hs). destruct (Hs _ Hn) as (kn & Hkn & _ & Hv).
  exists ko, kn. rewrite <- Ho. split; [done|]. split; [done|]. split.
  - intros E. rewrite E in Hkn. assert (kn = ko) as -> by congruence. lia.
  - by eapply live_new_undestroyed.
Qed.

Lemma uw_step s d rid C F o n : under_way s rid C o n -> has (st_db d) rid (F C) -> live (F C) = true -> sane (F C) = true ->
  ck_OldDEKID (F C) = ck_OldDEKID C -> ck_NewDEKID (F C) = ck_NewDEKID C -> under_way d rid (F C) o n.
Proof. intros [_ _ _ Ho Hn] H1 H2 H3 H4 H5. split; try done; congruence. Qed.

Lemma live_status st C : IsTerminal st = false -> live (ck_set_status st C) = true.
Proof. intros Ht. unfold live. cbn. by rewrite Ht. Qed.

(** Nothing but the row changed. *)
Definition same_rows (s d : St) : Prop := db_keys (st_db d) = db_keys (st_db s) /\ db_audit (st_db d) = db_audit (st_db s).

Lemma uw_status rid C from to o n s :
  AssertTransitionAllowed from to = Ok tt -> IsTerminal to = false -> to ∈ AllCheckpointStatuses ->
  inv s -> under_way s rid C o n -> ck_Status C = from ->
  ends (db (fun ck => UpdateStatus (cl_db ck) rid from to))
    (succ (fun d _ => under_way d rid (ck_set_status to C) o n /\ same_rows s d)) s.
Proof.
  intros Ha Ht Hin HI Hu Hst. pose proof Hu as [Hh Hl Hs _ _].
  eapply ends_mono; [|apply (pr_UpdateStatus L ulid taken rid C from to s); done].
  intros d r (u & -> & Hh' & Hk & Hau). exists u. split; [done|]. split; [|done].
  apply (uw_step s d rid C (ck_set_status to)); try done; [by apply live_status|by apply sane_status].
Qed.

(** ** Phase 3 *)
Definition after_phase3 (C : Checkpoint) (N : nat) : Checkpoint :=
  ck_counts (Z.of_nat N) 0 (ck_set_status CheckpointStatusPhase3ReencryptCold C).

Lemma pr_RunPhase3 sv fuel rid C o n s :
  sv_lib sv = L -> inv s -> under_way s rid C o n ->
  ck_Status C = CheckpointStatusPhase2MintDEK \/ ck_Status C = CheckpointStatusPhase3ReencryptCold ->
  readable L s o -> (size (under s o) < fuel)%nat ->
  int4_ok (ck_Phase3RowsRewritten C + Z.of_nat (size (under s o))) = true ->
  ends (RunPhase3 sv fuel rid) (succ (fun d t => t = size (under s o) /\ under_way d rid (after_phase3 C (size (under s o))) o n)) s.
Proof.
  intros Hlib HI Hu Hst Hrd Hfuel Hroom. set (N := size (under s o)) in *. unfold RunPhase3.
  eapply ends_try; [done|by apply pr_Get, (uw_has _ _ _ _ _ Hu)|]. intros d c _ (-> & Hc & Hcore).
  assert (Hsc : ck_Status c = ck_Status C) by by apply core_field.
  assert (Hnc : ck_NewDEKID c = Some n) by (rewrite (core_field ck_NewDEKID c C) by done; by destruct Hu).
  assert (Hb : has_status CheckpointStatusPhase2MintDEK c || has_status CheckpointStatusPhase3ReencryptCold c = true).
  { unfold has_status. rewrite orb_true_iff, !bool_decide_eq_true, Hsc. done. }
  rewrite Hb, Hnc. cbn [negb]. set (C3 := ck_set_status CheckpointStatusPhase3ReencryptCold C).
  assert (Hs3 : sane C3 = true) by (destruct Hu; apply sane_status; [declared|done..]).
  eapply (ends_try _ _ _ _ _ _ (fun d c => db_ckpts (st_db d) !! rid = Some c /\ core c = core C3 /\ same_rows s d)); [done| |].
  { unfold has_status at 1. rewrite Hsc. case_bool_decide as H2.
    - eapply ends_try; [done|apply (uw_status rid C _ _ o n); [done|done|declared|done..]|]. intros d _ [HId _] [Hu3 Hsr].
      eapply ends_mono; [|apply pr_Get, (uw_has _ _ _ _ _ Hu3)]. intros d' r (c' & -> & -> & Hc' & Hcore'). by exists c'.
    - cbn. exists c. split; [done|]. split; [done|]. split; [|done]. rewrite Hcore. unfold C3.
      destruct Hst as [?|E]; [done|]. rewrite <- E. by destruct C. }
  intros d c3 [HId _] (Hc3 & Hcore3 & Hk3 & Ha3). rewrite (core_field ck_NewDEKID c3 C3) by done.
  unfold C3 at 1. cbn [ck_set_status ck_NewDEKID]. rewrite (uw_new _ _ _ _ _ Hu).
  assert (Hu3 : under_way d rid C3 o n).
  { apply (uw_step s d rid C (ck_set_status CheckpointStatusPhase3ReencryptCold)); try done. by exists c3. }
  destruct (uw_keys _ _ _ _ _ HId Hu3) as (ko & kn & Hko & Hkn & Hno & Hdn).
  eapply ends_try; [done|by apply pr_VersionForDEKID|]. intros d1 v _ [-> ->].
  eapply ends_try; [done|by apply pr_Resolve|]. intros d1 key [HI1 _] (Hdb1 & m & _ & Hm & ->).
  eapply ends_then; [done|apply (ends_ask _ _ _ _ (fun d' _ => d' = d1)); done|]. intros d2 start _ ->.
  rewrite (core_field ck_OldDEKID c3 C3) by done. replace (ck_OldDEKID C3) with o by (symmetry; apply (uw_old _ _ _ _ _ Hu)).
  assert (Hund : size (under d1 o) = N) by (unfold under; by rewrite Hdb1, Ha3).
  assert (Hsane : sane (ck_counts (Z.of_nat N) 0 C3) = true).
  { unfold sane in *. cbn in *. rewrite !andb_true_iff in *. destruct Hs3 as [[[H1 H2] H3] H4].
    rewrite Z.add_0_r. done. }
  assert (Ho3 : ck_OldDEKID C3 = o) by apply (uw_old _ _ _ _ _ Hu).
  assert (Hls : loop_state L d1 rid C3 n m (ck_lastProcessedEventID c3)).
  { split; try done; rewrite ?Ho3, ?Hund; try done.
    - rewrite Hdb1. by exists c3.
    - intros id r Hr Href. rewrite Hdb1, Hk3. rewrite Hdb1, Ha3 in Hr. by eapply Hrd.
    - intros id r Hr Href. rewrite Hdb1 in Hr. apply (cp_cursor _ _ _ _ (i_ckpts _ _ _ HId _ _ Hc3) id r Hr (fun H => H)).
      by rewrite (core_field ck_OldDEKID c3 C3), Ho3. }
  pose proof (pr_phase3_loop L ulid taken remarshal sv fuel n (k_ver kn) m rid C3 (ck_lastProcessedEventID c3) 0 start d1 Hlib HI1 Hls) as Hp.
  rewrite Ho3, Hund in Hp. eapply ends_mono; [|by apply Hp]. intros d2 r (t & -> & -> & Hh2 & _).
  eexists. split; [done|]. split; [done|]. by apply (uw_step d d2 rid C3 (ck_counts (Z.of_nat N) 0)).
Qed.

(** ** Phase 5 *)
Definition after_phase5 (C : Checkpoint) : Checkpoint :=
  ck_set_missing None (ck_set_status CheckpointStatusPhase5Invalidate (ck_counts 0 1 C)).

Lemma sane_attempt C : sane C = true -> int4_ok (ck_Phase5AttemptCount C + 1) = true -> sane (ck_counts 0 1 C) = true.
Proof.
  unfold sane. rewrite !andb_true_iff. cbn. rewrite Z.add_0_r. tauto.
Qed.

Lemma pr_RunPhase5 rid C o n s :
  inv s -> under_way s rid C o n ->
  ck_Status C = CheckpointStatusPhase3ReencryptCold \/ ck_Status C = CheckpointStatusPhase5Invalidate ->
  int4_ok (ck_Phase5AttemptCount C + 1) = true ->
  ends (RunPhase5 rid) (succ (fun d _ => under_way d rid (after_phase5 C) o n)) s.
Proof.
  intros HI Hu Hst Hroom. unfold RunPhase5.
  eapply ends_try; [done|by apply pr_Get, (uw_has _ _ _ _ _ Hu)|]. intros d c _ (-> & Hc & Hcore).
  assert (Hin : forall x, ck_Status x = ck_Status C -> in_phase5 x = true).
  { intros x E. unfold in_phase5, has_status. by rewrite E, orb_true_iff, !bool_decide_eq_true. }
  rewrite Hin by by apply core_field. cbn [negb]. rewrite (core_field ck_NewDEKID c C) by done. rewrite (uw_new _ _ _ _ _ Hu).
  assert (Hs1 : sane (ck_counts 0 1 C) = true) by (destruct Hu; by apply sane_attempt).
  eapply ends_then; [done|apply (pr_update L ulid taken rid C _ in_phase5 (fun ck c => ck_beat (cl_db ck) (ck_counts 0 1 c)) (ck_counts 0 1)
    "DEK_REKEY_PHASE5_ATTEMPT_INC_FAILED" None); try done; [apply Hu..|]|].
  { intros ck. split; try done. by apply Hin. }
  intros d1 r1 [HI1 _] (u1 & -> & Hh1 & Hk1 & Ha1).
  assert (Hu1 : under_way d1 rid (ck_counts 0 1 C) o n) by (apply (uw_step s d1 rid C (ck_counts 0 1)); try done; apply Hu).
  destruct (uw_keys _ _ _ _ _ HI1 Hu1) as (ko & kn & Hko & Hkn & _).
  eapply ends_try; [done|apply pr_selectByPK; rewrite (core_field ck_OldDEKID c C) by done; by rewrite (uw_old _ _ _ _ _ Hu)|].
  intros d2 r2 _ [-> _]. eapply ends_try; [done|by apply pr_selectByPK|]. intros d3 r3 _ [-> _].
  eapply ends_then; [done|apply (ends_ask _ _ _ _ (fun d' a => d' = d1 /\ a = None)); done|]. intros d4 ce _ [-> ->].
  eapply (ends_try _ _ _ _ _ _ (fun d _ => under_way d rid (after_phase5 C) o n)); [done| |].
  - eapply ends_mono; [|apply (pr_update L ulid taken rid (ck_counts 0 1 C) _ in_phase5
      (fun ck c => ck_beat (cl_db ck) (ck_set_missing None (ck_set_status CheckpointStatusPhase5Invalidate c)))
      (fun c => ck_set_missing None (ck_set_status CheckpointStatusPhase5Invalidate c))
      "DEK_REKEY_PHASE5_RECORD_SUCCESS_FAILED" stale_transition); try done; [apply Hu1|] ].
    + intros d5 r5 (u5 & -> & Hh5 & _). eexists. split; [done|].
      apply (uw_step d1 d5 rid (ck_counts 0 1 C) (fun c => ck_set_missing None (ck_set_status CheckpointStatusPhase5Invalidate c))); try done.
      apply (sane_status CheckpointStatusPhase5Invalidate (ck_counts 0 1 C)); [declared|done|apply Hu1|done].
    + intros ck. split; try done; [by apply Hin|].
      apply (sane_status CheckpointStatusPhase5Invalidate (ck_counts 0 1 C)); [declared|done|apply Hu1|done].
  - intros d5 r5 _ Hu5. cbn. by exists tt.
Qed.

(** ** Phase 6 *)
Definition after_phase6 (C : Checkpoint) : Checkpoint := ck_set_status CheckpointStatusPhase6DestroyOld C.

Lemma pr_Evict sv id k s : inv s -> db_keys (st_db s) !! id = Some k ->
  ends (EvictCachedDEK sv id) (fun d _ => st_db d = st_db s) s.
Proof.
  intros HI Hk. unfold EvictCachedDEK. eapply ends_then; [done|by apply pr_selectByPK|]. intros d r _ (a & -> & -> & ->).
  eapply ends_then; [done|apply (ends_LocalKeys _ _ _ _ _ (fun d _ => st_db d = st_db s)); by intros|]. intros d u [HId _] Hd.
  eapply ends_then; [done|apply (ends_LocalParts _ _ _ _ _ (fun d _ => st_db d = st_db s)); by intros; congruence|].
  intros d2 u2 _ Hd2. done.
Qed.

Lemma pr_RunPhase6 sv rid C o n s :
  inv s -> under_way s rid C o n -> ck_Status C = CheckpointStatusPhase5Invalidate -> Phase5HasMissingMembers C = false ->
  ends (RunPhase6 sv rid) (succ (fun d _ => under_way d rid (after_phase6 C) o n)) s.
Proof.
  intros HI Hu Hst Hmiss. unfold RunPhase6.
  eapply ends_try; [done|by apply pr_Get, (uw_has _ _ _ _ _ Hu)|]. intros d c _ (-> & Hc & Hcore).
  rewrite (core_field ck_Status c C) by done. rewrite Hst, (core_field Phase5HasMissingMembers c C), Hmiss by done.
  rewrite (core_field ck_OldDEKID c C) by done. rewrite (uw_old _ _ _ _ _ Hu).
  destruct (uw_keys _ _ _ _ _ HI Hu) as (ko & kn & Hko & Hkn & _).
  eapply (ends_try _ _ _ _ _ _ (fun d _ => db_ckpts (st_db d) = db_ckpts (st_db s) /\ is_Some (db_keys (st_db d) !! o))); [done| |].
  { apply ends_db. intros ck _. unfold markDestroyedByPK. rewrite read_bind, Hko. eexists tt, _. split; [done|]. intros _.
    split; [done|]. cbn. rewrite lookup_insert_eq. eauto. }
  intros d u [HId _] [Hck [ko' Hko']]. eapply ends_then; [done|by eapply pr_Evict|]. intros d1 u1 [HI1 _] Hd1.
  assert (Hu1 : under_way d1 rid C o n).
  { apply (uw_step s d1 rid C (fun c => c)); try done; [|apply Hu..]. destruct (uw_has _ _ _ _ _ Hu) as (c' & Hc' & Hcore').
    exists c'. by rewrite Hd1, Hck. }
  eapply ends_mono; [|apply (uw_status rid C _ CheckpointStatusPhase6DestroyOld o n); [done|done|declared|done..] ].
  intros d2 r (u2 & -> & Hu2 & _). by eexists.
Qed.

(** ** Phase 7 *)

(** The rekey is complete, and the outcome says so. *)
Definition completed (rid : string) (C : Checkpoint) (o n : Z) (resumed : bool) (d : St) (out : RekeyOutcome) : Prop :=
  ro_RequestID out = rid /\ ro_Phase3RowCount out = ck_Phase3RowsRewritten C /\ ro_Phase5Attempts out = ck_Phase5AttemptCount C
  /\ ro_ForceDestroyUsed out = ck_ForceDestroy C /\ ro_Resumed out = resumed
  /\ exists c, db_ckpts (st_db d) !! rid = Some c /\ ck_Status c = CheckpointStatusComplete
       /\ ck_OldDEKID c = o /\ ck_NewDEKID c = Some n /\ ck_ForceDestroy c = ck_ForceDestroy C.

Lemma pr_emit p s : ends (Programs.call (EmitAudit p)) (fun d r => r.2 = None /\ st_db d = st_db s) s.
Proof.
  intros en [_ _ _ He _]. cbn. destruct (en_emit en p) as [[id q] err] eqn:E. cbn. intros _. split; [|done].
  specialize (He p). by rewrite E in He.
Qed.

Lemma pr_MarkComplete rid C o n s :
  inv s -> under_way s rid C o n -> ck_Status C = CheckpointStatusPhase7Audit ->
  ends (db (fun ck => MarkComplete (cl_db ck) rid))
    (succ (fun d _ => exists c, db_ckpts (st_db d) !! rid = Some c /\ ck_Status c = CheckpointStatusComplete
       /\ ck_OldDEKID c = o /\ ck_NewDEKID c = Some n /\ ck_ForceDestroy c = ck_ForceDestroy C)) s.
Proof.
  intros HI [Hh Hl Hs Ho Hn] Hst. apply ends_db. intros ck _.
  destruct (update_run _ _ C (has_status CheckpointStatusPhase7Audit)
    (fun c => ck_end (Some (cl_db ck)) (ck_AbortedAt c) (ck_AbortedReason c) (ck_set_status CheckpointStatusComplete c))
    (fun c => ck_end (Some (cl_db ck)) (ck_AbortedAt c) (ck_AbortedReason c) (ck_set_status CheckpointStatusComplete c))
    "DEK_REKEY_MARK_COMPLETE_FAILED" stale_transition Hh (inv_alone _ _ _ _ _ HI Hh Hl)) as (db' & E & (c & Hc & Hcore) & _).
  { split; try done; [by apply has_statusP|by apply sane_complete]. }
  exists tt, db'. split; [exact E|]. intros _. exists c. split; [done|].
  rewrite (core_field ck_Status _ _ ltac:(done) Hcore), (core_field ck_OldDEKID _ _ ltac:(done) Hcore),
    (core_field ck_NewDEKID _ _ ltac:(done) Hcore), (core_field ck_ForceDestroy _ _ ltac:(done) Hcore). done.
Qed.

Lemma pr_RunPhase7 sv rid req C o n resumed s :
  inv s -> under_way s rid C o n -> ck_Status C = CheckpointStatusPhase6DestroyOld ->
  ends (runPhase7AndSetResumed sv rid req resumed) (succ (completed rid C o n resumed)) s.
Proof.
  intros HI Hu Hst. unfold runPhase7AndSetResumed, RunPhase7.
  eapply (ends_try _ _ _ _ _ _ (completed rid C o n false)); [done| |].
  2:{ intros d out _ (H1 & H2 & H3 & H4 & _ & H6). cbn. by eexists. }
  eapply ends_try; [done|by apply pr_Get, (uw_has _ _ _ _ _ Hu)|]. intros d c _ (-> & Hc & Hcore).
  rewrite has_statusP by (rewrite (core_field ck_Status c C); done). cbn [negb].
  eapply ends_try; [done|apply (uw_status rid C _ CheckpointStatusPhase7Audit o n); [done|done|declared|done..]|].
  intros d u [HId _] [Hu7 [Hk7 _]]. set (C7 := ck_set_status CheckpointStatusPhase7Audit C) in *.
  eapply ends_try; [done|by apply pr_Get, (uw_has _ _ _ _ _ Hu7)|]. intros d1 c7 _ (-> & Hc7 & Hcore7).
  destruct (uw_keys _ _ _ _ _ HId Hu7) as (ko & kn & Hko & Hkn & _).
  eapply ends_try; [done|apply pr_selectByPK; rewrite (core_field ck_OldDEKID c7 C7) by done; by rewrite (uw_old _ _ _ _ _ Hu7)|].
  intros d2 r2 _ [-> _]. rewrite (core_field ck_NewDEKID c7 C7) by done. rewrite (uw_new _ _ _ _ _ Hu7).
  eapply (ends_try _ _ _ _ _ _ (fun d' _ => d' = d)); [done| |].
  { eapply ends_try; [done|by apply pr_selectByPK|]. intros d3 r3 _ [-> _]. cbn. by eexists. }
  intros d3 newVersion _ ->.
  do 2 (eapply ends_then; [done|apply (ends_ask _ _ _ _ (fun d' _ => d' = d)); done|]; intros ? ? _ ->).
  eapply ends_then; [done|apply pr_emit|]. intros d4 [[id q] err] [HI4 _] [He Hdb4]. cbn in He. subst err.
  eapply ends_try; [done|apply (pr_MarkComplete rid C7 o n); [done| |done]|].
  { apply (uw_step d d4 rid C7 (fun c => c)); try done; [rewrite Hdb4|..]; apply Hu7. }
  intros d5 u5 [HI5 _] Hdone.
  do 2 (eapply ends_then; [done|apply (ends_ask _ _ _ _ (fun d' _ => d' = d5)); done|]; intros ? ? _ ->).
  cbn. eexists. split; [done|]. unfold completed. cbn.
  rewrite (core_field ck_Phase3RowsRewritten _ _ ltac:(done) Hcore7), (core_field ck_Phase5AttemptCount _ _ ltac:(done) Hcore7),
    (core_field ck_ForceDestroy _ _ ltac:(done) Hcore7). done.
Qed.

(** ** The ends of the dispatcher's paths *)
Lemma pr_finish sv rid req C o n resumed s :
  inv s -> under_way s rid C o n -> ck_Status C = CheckpointStatusPhase5Invalidate -> Phase5HasMissingMembers C = false ->
  ends (finish sv rid req resumed) (succ (completed rid C o n resumed)) s.
Proof.
  intros HI Hu Hst Hm. eapply ends_try; [done|by apply pr_RunPhase6|]. intros d u [HId _] Hu6.
  eapply ends_mono; [|by apply (pr_RunPhase7 sv rid req (after_phase6 C) o n)].
  intros d1 r (out & -> & Hout). by eexists.
Qed.

Lemma pr_from_phase5 sv rid req C o n resumed s :
  inv s -> under_way s rid C o n ->
  ck_Status C = CheckpointStatusPhase3ReencryptCold \/ ck_Status C = CheckpointStatusPhase5Invalidate ->
  int4_ok (ck_Phase5AttemptCount C + 1) = true ->
  ends (from_phase5 sv rid req resumed) (succ (completed rid (after_phase5 C) o n resumed)) s.
Proof.
  intros HI Hu Hst Hr. eapply ends_try; [done|by apply pr_RunPhase5|]. intros d u [HId _] Hu5. by apply pr_finish.
Qed.

Lemma pr_from_phase3 sv fuel rid req C o n resumed s :
  sv_lib sv = L -> inv s -> under_way s rid C o n ->
  ck_Status C = CheckpointStatusPhase2MintDEK \/ ck_Status C = CheckpointStatusPhase3ReencryptCold ->
  readable L s o -> (size (under s o) < fuel)%nat ->
  int4_ok (ck_Phase3RowsRewritten C + Z.of_nat (size (under s o))) = true ->
  int4_ok (ck_Phase5AttemptCount C + 1) = true ->
  ends (from_phase3 sv fuel rid req resumed)
    (succ (completed rid (after_phase5 (after_phase3 C (size (under s o)))) o n resumed)) s.
Proof.
  intros Hlib HI Hu Hst Hrd Hf Hr3 Hr5. eapply ends_try; [done|by apply pr_RunPhase3|]. intros d t [HId _] [_ Hu3].
  apply pr_from_phase5; [done|done|by left|]. cbn. by rewrite Z.add_0_r.
Qed.

(** ** Phase 2 *)

(** The old key is the newest of its context, and a version and an identifier are
    left. *)
Definition mintable (s : St) (o : Z) : Prop :=
  db_key_seq (st_db s) < 2 ^ 63 - 1 /\
  exists k, db_keys (st_db s) !! o = Some k /\ k_ver k < int4_max /\ ~ newer (st_db s) k.

Lemma pr_fresh_dek c1 c2 s : inv s -> ends (fresh_dek c1 c2) (succ (fun d _ => d = s)) s.
Proof.
  intros HI. unfold fresh_dek. eapply ends_try; [done| |].
  - apply (ends_ask _ _ _ _ (succ (fun d _ => d = s))). intros a _ [x ->]. by exists x.
  - intros d x _ ->. eapply ends_try; [done| |].
    + apply (ends_ask _ _ _ _ (succ (fun d w => d = s /\ exists a b, w = (a, b) /\ a <> EmptyString /\ b <> EmptyString))).
      intros a _ (w & k & -> & Hw & Hk). exists (w, k). split; [done|]. split; [done|]. by exists w, k.
    + intros d [w k] _ [-> (a & b & [= -> ->] & Ha & Hb)]. destruct a, b; try done. cbn. by eexists.
Qed.

Lemma version_free db x v : (forall id k, db_keys db !! id = Some k -> k_ctx k = x -> k_ver k <> v) -> version_taken x v db = false.
Proof.
  intros Hf. apply not_true_iff_false. unfold version_taken. intros ([id k] & Hin & Ht)%existsb_exists.
  apply list_elem_of_In, elem_of_map_to_list in Hin. apply andb_true_iff in Ht as [Hx Hv].
  unfold of_ctx in Hx. apply bool_decide_eq_true in Hx. apply Z.eqb_eq in Hv. by apply (Hf _ _ Hin).
Qed.

Lemma pr_Mint sv o s : inv s -> mintable s o ->
  ends (MintNewDEKForRekey sv o)
    (succ (fun d n => db_ckpts (st_db d) = db_ckpts (st_db s) /\ db_audit (st_db d) = db_audit (st_db s))) s.
Proof.
  intros HI (Hseq & k & Hk & Hlt & Hnn). unfold MintNewDEKForRekey.
  eapply ends_try; [done|by apply pr_selectByPK|]. intros d r _ [-> ->].
  eapply ends_try; [done|by apply pr_fresh_dek|]. intros d [[m w] kid] _ ->.
  pose proof (ko_ver _ _ _ _ (i_keys _ _ _ HI _ _ Hk)) as Hv. unfold int4_max in *.
  assert (Hw : u32_wrap (r_Version (kr_row k) + 1) = k_ver k + 1).
  { unfold u32_wrap. fold (k_ver k). apply Z.mod_small. lia. }
  eapply ends_try; [done| |].
  - apply (ends_db _ _ _ _ (fun d _ => db_ckpts (st_db d) = db_ckpts (st_db s) /\ db_audit (st_db d) = db_audit (st_db s))).
    intros ck _. unfold insertRekeyed, insert_key, wrap_code. rewrite Hw.
    replace (int4_ok (k_ver k + 1)) with true by (symmetry; unfold int4_ok, int4_max; rewrite andb_true_iff, !Z.leb_le; lia).
    cbn [negb]. rewrite read_bind. pose proof (i_seq _ _ _ HI).
    replace (int8_ok _) with true by (symmetry; unfold int8_ok; rewrite andb_true_iff, !Z.leb_le; lia).
    cbn [negb]. rewrite write_bind. rewrite version_free.
    + rewrite write_bind. eexists _, _. split; [reflexivity|]. done.
    + cbn. intros id' k' Hk' Hx' Hv'. apply Hnn. exists id', k'. split; [done|]. split; [done|lia].
  - intros d n _ [H1 H2].
    assert (Hrest : forall d', st_db d' = st_db d -> db_ckpts (st_db d') = db_ckpts (st_db s) /\ db_audit (st_db d') = db_audit (st_db s)) by (intros ? ->; done).
    intros en Hen K1. intros en2 Hen2 K2. exists n. split; [done|]. apply Hrest. cbn.
    repeat (case_match; cbn). done.
Qed.

Definition after_phase2 (C : Checkpoint) (n : Z) : Checkpoint := ck_set_status CheckpointStatusPhase2MintDEK (ck_set_new n C).

(** What [readable] and [under] see of a state. *)
Lemma readable_later s d o : keeps s d -> db_audit (st_db d) = db_audit (st_db s) -> readable L s o -> readable L d o.
Proof.
  intros [_ G] Ha Hr id r Hi Href. rewrite Ha in Hi. destruct (Hr _ _ Hi Href) as [e He].
  assert (HE : open_event L (st_db s) id = Some e) by (unfold open_event; by rewrite Hi).
  apply (g_events _ _ _ G _ _ (fun H => H)) in HE. unfold open_event in HE. rewrite Ha, Hi in HE. eauto.
Qed.

Lemma pr_RunPhase2 sv rid C s :
  inv s -> has (st_db s) rid C -> live C = true -> sane C = true -> ck_Status C = CheckpointStatusPhase1Auth ->
  mintable s (ck_OldDEKID C) ->
  ends (RunPhase2 sv rid)
    (succ (fun d _ => exists n, under_way d rid (after_phase2 C n) (ck_OldDEKID C) n /\ db_audit (st_db d) = db_audit (st_db s))) s.
Proof.
  intros HI Hh Hl Hs Hst Hmint. unfold RunPhase2.
  eapply ends_try; [done|by apply pr_Get|]. intros d c _ (-> & Hc & Hcore).
  rewrite has_statusP by (rewrite (core_field ck_Status c C); done). cbn [negb].
  rewrite (core_field ck_OldDEKID c C) by done.
  eapply ends_try; [done|by apply pr_Mint|]. intros d n [HId _] [Hck Hau].
  assert (Hh' : has (st_db d) rid C) by (unfold has; by rewrite Hck).
  assert (Hs2 : sane (after_phase2 C n) = true) by (apply (sane_status _ (ck_set_new n C)); [declared|done|done|done]).
  eapply ends_mono; [|apply (pr_update L ulid taken rid C _ (has_status CheckpointStatusPhase1Auth)
    (fun ck c => ck_beat (cl_db ck) (ck_set_status CheckpointStatusPhase2MintDEK (ck_set_new n c))) (fun c => after_phase2 c n)
    "DEK_REKEY_PHASE2_UPDATE_FAILED" stale_transition); try done].
  - intros d2 r (u & -> & Hh2 & _ & Ha2). exists u. split; [done|]. exists n. split; [|congruence]. by split.
  - intros ck. split; try done. by apply has_statusP.
Qed.

(** ** The dispatcher *)

(** What a rekey still needs in order to complete, by the status it is at. *)
Definition can_finish (s : St) (C : Checkpoint) : Prop :=
  let o := ck_OldDEKID C in
  let re_encrypts := readable L s o /\ int4_ok (ck_Phase3RowsRewritten C + Z.of_nat (size (under s o))) = true
                     /\ int4_ok (ck_Phase5AttemptCount C + 1) = true in
  match ck_Status C with
  | CheckpointStatusPhase1Auth => mintable s o /\ re_encrypts
  | CheckpointStatusPhase2MintDEK | CheckpointStatusPhase3ReencryptCold => is_Some (ck_NewDEKID C) /\ re_encrypts
  | CheckpointStatusPhase5Invalidate => is_Some (ck_NewDEKID C)
      /\ (Phase5HasMissingMembers C = false \/ int4_ok (ck_Phase5AttemptCount C + 1) = true)
  | CheckpointStatusPhase6DestroyOld => is_Some (ck_NewDEKID C)
  | _ => False
  end.

(** The outcome of a rekey that started, or was resumed, at [C]. *)
Definition finished (s : St) (rid : string) (C : Checkpoint) (resumed : bool) (d : St) (out : RekeyOutcome) : Prop :=
  ro_RequestID out = rid /\ ro_Resumed out = resumed /\ ro_ForceDestroyUsed out = ck_ForceDestroy C
  /\ ((phase_rank (ck_Status C) <= 3)%nat ->
        ro_Phase3RowCount out = ck_Phase3RowsRewritten C + Z.of_nat (size (under s (ck_OldDEKID C))))
  /\ exists c, db_ckpts (st_db d) !! rid = Some c /\ ck_Status c = CheckpointStatusComplete
       /\ ck_OldDEKID c = ck_OldDEKID C /\ ck_ForceDestroy c = ck_ForceDestroy C.

Lemma finish_outcome s rid C C' o n resumed d r :
  succ (completed rid C' o n resumed) d r -> ck_OldDEKID C = o -> ck_ForceDestroy C' = ck_ForceDestroy C ->
  ((phase_rank (ck_Status C) <= 3)%nat -> ck_Phase3RowsRewritten C' = ck_Phase3RowsRewritten C + Z.of_nat (size (under s o))) ->
  succ (finished s rid C resumed) d r.
Proof.
  intros (out & -> & H1 & H2 & _ & H4 & H5 & c & Hc & Hs & Ho & _ & Hf) Hco HF Hn. exists out. split; [done|].
  split; [done|]. split; [done|]. split; [congruence|]. split; [intros Hr; rewrite H2, Hco; auto|].
  exists c. do 2 (split; [done|]). split; congruence.
Qed.

Lemma pr_drive sv fuel rid req C resumed s :
  sv_lib sv = L -> inv s -> has (st_db s) rid C -> sane C = true -> rq_ForceDestroy req = false ->
  can_finish s C -> (size (under s (ck_OldDEKID C)) < fuel)%nat ->
  ends (driveToCompletion sv fuel rid req resumed) (succ (finished s rid C resumed)) s.
Proof.
  intros Hlib HI Hh Hs Hreq Hcan Hf. unfold driveToCompletion.
  eapply ends_try; [done|by apply pr_Get|]. intros d c _ (-> & Hc & Hcore).
  rewrite (core_field ck_Status c C), (core_field Phase5HasMissingMembers c C), Hreq by done.
  assert (Huw : forall n, live C = true -> ck_NewDEKID C = Some n -> under_way s rid C (ck_OldDEKID C) n) by done.
  unfold can_finish in Hcan. destruct (ck_Status C) eqn:Hst; try done; cbn [decideResumeEntry fst].
  all: assert (Hl : live C = true) by (unfold live; by rewrite Hst).
  - destruct Hcan as (Hm & Hrd & H3 & H5). eapply ends_try; [done|by apply pr_RunPhase2|].
    intros d u Kd (n & Hu & Ha). assert (Hund : under d (ck_OldDEKID C) = under s (ck_OldDEKID C)) by (unfold under; by rewrite Ha).
    eapply ends_mono; [|apply (pr_from_phase3 sv fuel rid req (after_phase2 C n) (ck_OldDEKID C) n resumed);
      [done|apply Kd|done|by left|by eapply readable_later|by rewrite Hund|by rewrite Hund|done] ].
    intros d2 r Hr. eapply finish_outcome; [exact Hr|done|done|]. intros _. cbn. rewrite Hund. lia.
  - destruct Hcan as ([n Hn] & Hrd & H3 & H5). eapply ends_mono; [|apply (pr_from_phase3 sv fuel rid req C (ck_OldDEKID C) n resumed); auto].
    intros d2 r Hr. eapply finish_outcome; [exact Hr|done|done|]. intros _. cbn. lia.
  - destruct Hcan as ([n Hn] & Hrd & H3 & H5). eapply ends_mono; [|apply (pr_from_phase3 sv fuel rid req C (ck_OldDEKID C) n resumed); auto].
    intros d2 r Hr. eapply finish_outcome; [exact Hr|done|done|]. intros _. cbn. lia.
  - destruct Hcan as ([n Hn] & Hmiss). destruct (Phase5HasMissingMembers C) eqn:Hmm; cbn [negb fst].
    + destruct Hmiss as [?|H5]; [done|]. eapply ends_mono; [|apply (pr_from_phase5 sv rid req C (ck_OldDEKID C) n resumed); auto].
      intros d2 r Hr. eapply finish_outcome; [exact Hr|done|done|]. rewrite Hst. cbn. lia.
    + eapply ends_mono; [|by apply (pr_finish sv rid req C (ck_OldDEKID C) n resumed); auto].
      intros d2 r Hr. eapply finish_outcome; [exact Hr|done|done|]. rewrite Hst. cbn. lia.
  - destruct Hcan as [n Hn]. eapply ends_mono; [|by apply (pr_RunPhase7 sv rid req C (ck_OldDEKID C) n resumed); auto].
    intros d2 r Hr. eapply finish_outcome; [exact Hr|done|done|]. rewrite Hst. cbn. lia.
Qed.

(** ** A fresh rekey *)

(** No rekey of the context is live. *)
Definition idle (s : St) (x : ContextID) : Prop :=
  forall rid c, db_ckpts (st_db s) !! rid = Some c -> ck_ctx c = x -> live c = false.

Lemma idle_none s x (P : Checkpoint -> bool) : idle s x ->
  head (rows_where (fun _ c => bool_decide (ck_ctx c = x) && P c && live c) (db_ckpts (st_db s))) = None.
Proof.
  intros Hi. rewrite (proj2 (rows_where_nil _ _)); [done|]. intros rid c Hc.
  case_bool_decide as Hx; [|done]. by rewrite (Hi _ _ Hc Hx), andb_false_r.
Qed.

Lemma pr_Find s t i h : idle s (mkContext t i) ->
  ends (db (fun _ => FindByContextAndArgs t i h)) (succ (fun d r => d = s /\ r = None)) s.
Proof.
  intros Hi. eapply ends_read; [|done]. intros _. unfold FindByContextAndArgs, read.
  by rewrite (idle_none s _ (fun c => String.eqb (ck_opArgsHash c) h) Hi).
Qed.

Lemma pr_FindNonTerminal s t i : idle s (mkContext t i) ->
  ends (db (fun _ => FindNonTerminalByContext t i)) (succ (fun d r => d = s /\ r = None)) s.
Proof.
  intros Hi. eapply ends_read; [|done]. intros _. unfold FindNonTerminalByContext, read.
  rewrite (proj2 (rows_where_nil _ _)); [done|]. intros rid c Hc. case_bool_decide as Hx; [|done]. by rewrite (Hi _ _ Hc Hx).
Qed.

(** A row as Phase 1 leaves it. *)
Record opened (C : Checkpoint) (st : CheckpointStatus) (o : Z) : Prop := mkOpened {
  op_status : ck_Status C = st;
  op_sane : sane C = true;
  op_old : ck_OldDEKID C = o;
  op_rows : ck_Phase3RowsRewritten C = 0;
  op_attempts : ck_Phase5AttemptCount C = 0;
  op_force : ck_ForceDestroy C = false
}.

Lemma pr_Open s oreq : (forall rid, is_Some (db_ckpts (st_db s) !! rid) -> taken rid) ->
  String.length (or_opArgsHash oreq) = 32%nat -> String.length (or_policyHash oreq) = 32%nat ->
  idle s (mkContext (or_ContextType oreq) (or_ContextID oreq)) ->
  ends (db (fun ck => Open (cl_db ck) (cl_id ck) oreq))
    (succ (fun d rid => db_key_seq (st_db d) = db_key_seq (st_db s) /\ db_keys (st_db d) = db_keys (st_db s)
       /\ db_audit (st_db d) = db_audit (st_db s)
       /\ exists C, has (st_db d) rid C /\ opened C CheckpointStatusPending (or_OldDEKID oreq))) s.
Proof.
  intros Htaken H1 H2 Hi. apply ends_db. intros ck Hid. unfold Open. rewrite H1, H2. cbn [Nat.eqb negb].
  set (c := mkCheckpoint _ _ _ _ _ _ _ _ _ _ _ _ _ _ _ _ _ _ _ _). unfold on_error. rewrite read_bind.
  destruct (db_ckpts (st_db s) !! cl_id ck) eqn:E; [destruct Hid; eauto|]. unfold mbind, txn_bind.
  rewrite (put_ckpt_Ok _ (cl_id ck) c c); [|intros rid2 c2 Hc2 Hx Hl; by rewrite (Hi _ _ Hc2 Hx) in Hl|done|done].
  eexists _, _. split; [reflexivity|]. intros _. split; [done|]. split; [done|]. split; [done|].
  exists c. split; [exists c; split; [apply lookup_insert_eq|done]|done].
Qed.

Lemma length_policy_hash h : (forall x, h = Some x -> String.length x = 32%nat) -> String.length (default (fixed_bytes 32 EmptyString) h) = 32%nat.
Proof. intros Hh. destruct h as [x|]; [by apply Hh|done]. Qed.

Lemma pr_RunPhase1Fresh sv req h id k s :
  inv s -> (forall rid, is_Some (db_ckpts (st_db s) !! rid) -> taken rid) ->
  ComputeRekeyArgsHash sv req = Ok h -> String.length h = 32%nat ->
  idle s (mkContext (rq_ContextType req) (rq_ContextID req)) ->
  active_key (mkContext (rq_ContextType req) (rq_ContextID req)) (st_db s) = Some (id, k) ->
  ends (RunPhase1Fresh sv req)
    (succ (fun d rid => db_key_seq (st_db d) = db_key_seq (st_db s) /\ db_keys (st_db d) = db_keys (st_db s)
       /\ db_audit (st_db d) = db_audit (st_db s)
       /\ exists C, has (st_db d) rid C /\ opened C CheckpointStatusPhase1Auth id)) s.
Proof.
  intros HI Htaken Hh Hlen Hi Hact. unfold RunPhase1Fresh. eapply ends_or_fail; [exact Hh|].
  eapply ends_try; [done| |].
  { apply (ends_ask _ _ _ _ (succ (fun d p => d = s /\ forall x, p = Some x -> String.length x = 32%nat))).
    intros a _ (p & -> & Hp). by exists p. }
  intros d p _ [-> Hp]. eapply ends_try; [done|by apply (pr_selectActive _ _ _ _ id k)|]. intros d r _ [-> ->].
  apply active_key_Some in Hact as (Hk & _). rewrite (ko_id _ _ _ _ (i_keys _ _ _ HI _ _ Hk)).
  eapply ends_or_fail.
  { unfold NewCheckpointOpenRequest. rewrite Hlen, (length_policy_hash p Hp). reflexivity. }
  eapply ends_try; [done|apply pr_Open; [done|done|by apply length_policy_hash|done]|].
  intros d rid [HId _] (Hseq & Hkeys & Hau & C & Hh0 & [O1 O2 O3 O4 O5 O6]).
  eapply ends_try; [done|apply (pr_UpdateStatus L ulid taken rid C _ CheckpointStatusPhase1Auth);
    [done|done|declared|done|done|by unfold live; rewrite O1|done|done]|].
  intros d1 u _ (Hq1 & Hh1 & Hk1 & Ha1). cbn. eexists. split; [done|]. split; [congruence|]. split; [congruence|]. split; [congruence|].
  exists (ck_set_status CheckpointStatusPhase1Auth C). split; [done|]. split; try done.
  apply sane_status; [declared|done|by unfold live; rewrite O1|done].
Qed.

Lemma pr_Run sv fuel req h id k s :
  sv_lib sv = L -> inv s -> (forall rid, is_Some (db_ckpts (st_db s) !! rid) -> taken rid) ->
  ComputeRekeyArgsHash sv req = Ok h -> String.length h = 32%nat -> rq_ForceDestroy req = false ->
  idle s (mkContext (rq_ContextType req) (rq_ContextID req)) ->
  active_key (mkContext (rq_ContextType req) (rq_ContextID req)) (st_db s) = Some (id, k) ->
  mintable s id -> readable L s id -> int4_ok (Z.of_nat (size (under s id))) = true -> (size (under s id) < fuel)%nat ->
  ends (Run sv fuel req)
    (succ (fun d out => ro_Resumed out = false /\ ro_Phase3RowCount out = Z.of_nat (size (under s id))
       /\ exists c, db_ckpts (st_db d) !! ro_RequestID out = Some c /\ ck_Status c = CheckpointStatusComplete
            /\ ck_OldDEKID c = id /\ ck_ForceDestroy c = false)) s.
Proof.
  intros Hlib HI Htaken Hh Hlen Hreq Hi Hact (Hsq & k' & Hk' & Hv & Hnn) Hrd Hroom Hf. unfold Run. eapply ends_or_fail; [exact Hh|].
  eapply ends_try; [done|by apply pr_Find|]. intros d r _ [-> ->].
  eapply ends_try; [done|by apply pr_FindNonTerminal|]. intros d r _ [-> ->].
  eapply ends_try; [done|by apply (pr_RunPhase1Fresh sv req h id k)|]. intros d rid Kd (Hseq & Hkeys & Hau & C & Hh1 & [O1 O2 O3 O4 O5 O6]).
  assert (Hund : under d id = under s id) by (unfold under; by rewrite Hau).
  eapply ends_mono; [|apply (pr_drive sv fuel rid req C false d); [done|apply Kd|done|done|done| |by rewrite O3, Hund] ].
  - intros d1 r (out & -> & E1 & E2 & E3 & E4 & c & Hc & Hst & Ho & Hfo). exists out. split; [done|]. split; [done|].
    split; [rewrite E4 by (rewrite O1; cbn; lia); by rewrite O4, O3, Hund|].
    exists c. rewrite E1. split; [done|]. split; [done|]. split; congruence.
  - unfold can_finish. rewrite O1, O3, O4, O5, Hund. split; [|split; [by eapply readable_later|done]].
    split; [by rewrite Hseq|]. exists k'. rewrite Hkeys. split; [done|]. split; [done|]. intros (id2 & k2 & Hk2 & Hx2 & Hlt). apply Hnn.
    exists id2, k2. by rewrite Hkeys in Hk2.
Qed.

(** ** An explicit resume *)
Lemma pr_RunByRequestID sv fuel rid req C s :
  sv_lib sv = L -> inv s -> has (st_db s) rid C -> sane C = true -> rq_ForceDestroy req = false ->
  ck_PrimaryPlayerID C = oi_PlayerID (rq_Operator req) ->
  can_finish s C -> (size (under s (ck_OldDEKID C)) < fuel)%nat ->
  ends (RunByRequestID sv fuel rid req) (succ (finished s rid C true)) s.
Proof.
  intros Hlib HI Hh Hs Hreq Hop Hcan Hf. unfold RunByRequestID.
  eapply ends_try; [done|by apply pr_Get|]. intros d c _ (-> & Hc & Hcore).
  assert (Hst : ck_Status c = ck_Status C) by by apply core_field.
  assert (Hgo : ends (driveToCompletion sv fuel rid
      (mkRekeyRequest (ck_ContextType c) (ck_ContextID c) (ck_Justification c) (rq_Operator req) None (rq_ForceDestroy req)) true)
      (succ (finished s rid C true)) s) by by apply pr_drive.
  rewrite (core_field ck_PrimaryPlayerID c C), Hop, String.eqb_refl by done. cbn [negb].
  destruct (ck_Status c) eqn:E; try done; unfold can_finish in Hcan; by rewrite <- Hst in Hcan.
Qed.
End Completes.
