(* ===== verification/DekWorld.v ===== *)
(** The cluster: servers running the programs of the DEK subsystem against one
    database, their calls interleaved in any order, any program cut off anywhere,
    any database call failing before or after its effect, while events arrive and
    servers restart.  What holds in every state of it.  Then a concrete cluster: one
    server, a key, an event archived under it, and a rekey driven to its end. *)

From S2P Require Import Prelude GoStrings Sql Programs DekTypes EventCrypto DekCache DekCacheFacts DekStore DekManager Rekey DekInv DekInvOps DekInvTx DekSafety RekeySafety.
From stdpp Require Import relations.

Open Scope string_scope.
Open Scope Z_scope.

Section World.
Context `{fate : Fate} (L : CryptoLib) (ulid : string -> string).

(** The servers of one cluster link the same library. *)
Definition member (sv : Server) : Prop := sv_lib sv = L /\ sv_ulid_text sv = ulid.

(** What servers run: publishers and readers, rotations, the invalidation of caches,
    the operators' rekeys, resumptions and aborts, the sweep, the integrity check. *)
Inductive serves : dprog unit -> Prop :=
| sv_get_or_create sv x ps : member sv -> serves (forget (GetOrCreate sv x ps))
| sv_resolve sv id v : member sv -> serves (forget (Resolve sv id v))
| sv_participants sv id v : member sv -> serves (forget (Participants sv id v))
| sv_add sv x p : member sv -> serves (forget (DekManager.Add sv x p))
| sv_ensure sv x p : member sv -> serves (forget (EnsureParticipant sv x p))
| sv_active sv x : member sv -> serves (forget (ActiveDEKRow x))
| sv_rotate sv x ps : member sv -> serves (forget (Rotate sv x ps))
| sv_evict sv x : member sv -> serves (_ ← cacheInvalidateContext sv x; partInvalidateContext sv x)
| sv_rekey sv fuel req : member sv -> serves (forget (Run sv fuel req))
| sv_resume sv fuel rid req : member sv -> serves (forget (RunByRequestID sv fuel rid req))
| sv_abort sv rid player : member sv -> serves (forget (RunAbort sv rid player))
| sv_sweep sv ttl : member sv -> serves (forget (sweepOnce sv ttl))
| sv_integrity sv : member sv -> serves (forget ResolveIntegrity).

(** Events reach the audit table whenever, under whatever key they were sealed; a
    server that restarts has lost its caches. *)
Inductive outside : St -> St -> Prop :=
| event_arrives s id r : arrival_ok s id r ->
    outside s (with_db s (set_audit (st_db s) (<[id := r]> (db_audit (st_db s)))))
| server_restarts s srv :
    outside s (mkSt (st_db s) (delete srv (st_keys s)) (delete srv (st_parts s)) (st_emitted s)).

Definition valid (s : St) (en : environment) : Prop := env_ok L en.

Definition step : machine call St -> machine call St -> Prop := mstep exec valid serves outside.

Definition empty_st : St := mkSt empty_db ∅ ∅ [].
Definition initial : machine call St := mkMachine empty_st [].

(** A state of the cluster. *)
Definition reachable (m : machine call St) : Prop := rtc step initial m.

Lemma inv_empty : inv L ulid empty_st.
Proof.
  constructor; cbn; try done; intros *; try (rewrite lookup_empty; done).
Qed.

Lemma initial_sound : sound exec valid (inv L ulid) (grows L) initial.
Proof. split; [exact inv_empty|constructor]. Qed.

Lemma outside_keeps s s' : inv L ulid s -> outside s s' -> keeps (inv L ulid) (grows L) s s'.
Proof.
  intros HI Ho. destruct Ho as [s0 id r Ha|s0 srv].
  { exact (arrival_keep L ulid _ _ _ HI Ha). }
  apply same_db_keep; [done| | |done]; intros i c; rewrite lookup_delete_Some; intros [_ Hc];
    [by apply (i_caches _ _ _ HI i)|by apply (i_parts _ _ _ HI i)].
Qed.

Context `{!CryptoLaws L}.

Lemma safe_forget {A} (p : dprog A) P s :
  wp exec valid (inv L ulid) (grows L) p P s -> safe exec valid (inv L ulid) (grows L) s (forget p).
Proof. intros Hp. eapply wp_seq; [exact Hp|done]. Qed.

Lemma serves_safe p s : serves p -> safe exec valid (inv L ulid) (grows L) s p.
Proof.
  intros [sv x ps [Hl Hu]|sv id v [Hl Hu]|sv id v [Hl Hu]|sv x q [Hl Hu]|sv x q [Hl Hu]|sv x [Hl Hu]|sv x ps [Hl Hu]|sv x [Hl Hu]
    |sv fuel req [Hl Hu]|sv fuel rid req [Hl Hu]|sv rid pl [Hl Hu]|sv ttl [Hl Hu]|sv [Hl Hu] ].
  - eapply safe_forget. by apply wp_GetOrCreate.
  - eapply safe_forget. by apply wp_Resolve.
  - eapply safe_forget. by apply wp_Participants.
  - eapply safe_forget. by apply wp_Add.
  - eapply safe_forget. by apply wp_EnsureParticipant.
  - eapply safe_forget. by apply wp_ActiveDEKRow.
  - eapply safe_forget. by apply wp_Rotate.
  - eapply wp_seq; [apply wp_cacheInvalidateContext|]. intros. apply wp_partInvalidateContext.
  - eapply safe_forget. by apply wp_Run.
  - eapply safe_forget. by apply wp_RunByRequestID.
  - eapply safe_forget. by apply wp_RunAbort.
  - eapply safe_forget. by apply wp_sweepOnce.
  - eapply safe_forget. by apply wp_ResolveIntegrity.
Qed.

Lemma steps_sound m m' : rtc step m m' -> sound exec valid (inv L ulid) (grows L) m ->
  sound exec valid (inv L ulid) (grows L) m' /\ grows L (m_state m) (m_state m').
Proof.
  apply run_sound; [apply _|intros; by apply serves_safe|apply outside_keeps].
Qed.

Lemma reachable_inv m : reachable m -> inv L ulid (m_state m).
Proof. intros Hm. apply (steps_sound _ _ Hm initial_sound). Qed.

Lemma reachable_grows m m' : reachable m -> rtc step m m' -> grows L (m_state m) (m_state m').
Proof. intros Hm Hs. apply (steps_sound m m' Hs). by apply (steps_sound _ _ Hm initial_sound). Qed.
End World.

Open Scope string_scope.
Open Scope Z_scope.

Definition same_text (s : string) : string := s.

Definition node : Server :=
  mkServer "node-1" toy_lib "local-aead" same_text (fixed_bytes 32) (fun t i j => Ok (t +:+ i +:+ j)) "/data" "srv".

(** The answers of the [n]th call. *)
Definition toy_answer (n : nat) (A : Type) (q : ask A) : A :=
  match q in ask A return A with
  | ARandom k => Ok (fixed_bytes k (String (ascii_of_nat (97 + n)) EmptyString))
  | AWrap x => Ok (kek_wrap toy_lib EmptyString x)
  | AUnwrap w kid => match kek_unwrap toy_lib w kid with Some x => Ok x | None => Err (ErrNew "unwrap") end
  | AInvalidate _ _ _ _ => None
  | ABinding _ => Ok ("binding-1", "player-1")
  | APolicyHash _ => Ok None
  | ANonce => fixed_bytes 24 "n"
  | ACancelled => false
  | AWriteFallback _ _ => Ok tt
  | ANow => Z.of_nat n
  end.

Definition toy_env (n : nat) : environment :=
  mkEnv (mkClock (Z.of_nat n) (Z.of_nat n) "rekey-0123456789") NoFault (fun p => ("audit-0123456789", p, None)) true
    (toy_answer n).

Lemma concat_cons_nil s l : String.concat EmptyString (s :: l) = s +:+ String.concat EmptyString l.
Proof. destruct l; cbn; [by rewrite app_nil_r_str|done]. Qed.

Lemma length_fixed_bytes n s : String.length (fixed_bytes n s) = n.
Proof.
  unfold fixed_bytes. rewrite length_app_str.
  assert (Hr : forall k, String.length (String.concat EmptyString (repeat (String Ascii.zero EmptyString) k)) = k).
  { induction k as [|k IH]; [done|]. cbn [repeat]. by rewrite concat_cons_nil, length_app_str, IH. }
  rewrite Hr. assert (String.length (str_take n s) <= n)%nat; [|lia].
  revert s. induction n as [|n IH]; intros [|c s]; cbn; try lia. specialize (IH s). lia.
Qed.

Lemma toy_env_ok `{fate : Fate} s n : valid toy_lib s (toy_env n).
Proof.
  split; [|done]. intros A q. destruct q; cbn; try done; try (by intros _ []).
  - intros x [= <-]. apply length_fixed_bytes.
  - intros w [= <-]. by exists EmptyString.
  - intros x. unfold toy_lib. cbn. destruct wrapped; [done|]. destruct (String.eqb keyID "kek-1"); [|done]. by intros [= <-].
Qed.

Definition scene_ctx : ContextID := mkContext "scene" "s1".

(** The scene's first key. *)
Definition st_key : St := (run exec toy_env (forget (GetOrCreate node scene_ctx [])) empty_st).2.

(** An event sealed under it, archived. *)
Definition first_key : Key := mkKey 1 1 (fixed_bytes 32 "a").
Definition sealed (e : Event) (key : Key) : string :=
  match Build toy_lib e NameXChaCha20v1 (k_ID key) (k_Version key) with
  | Err _ => EmptyString
  | Ok aad => match Encode toy_lib XChaCha20Poly1305v1 (fixed_bytes 24 "m") (ev_Payload e) key aad with
              | Err _ => EmptyString
              | Ok ct => match marshalEvent toy_lib (set_payload e ct) with Ok raw => raw | Err _ => EmptyString end
              end
  end.
Definition archived_row : audit_rec :=
  mkAuditRec (ev_Subject toy_event) (ev_Type toy_event) 5 "character" None (sealed toy_event (mkKey 1 1 (fixed_bytes 32 "b"))) 1 NameXChaCha20v1 7 "{}" (Some 1) (Some 1).
Definition st_event : St := with_db st_key (set_audit (st_db st_key) (<["0123456789abcdef" := archived_row]> (db_audit (st_db st_key)))).

(** The rekey. *)
Definition rekey_req : RekeyRequest :=
  mkRekeyRequest "scene" "s1" "suspected leak" (mkOperator "op-1" "root" true "local") None false.
Definition st_rekeyed : St := (run exec toy_env (forget (Run node 5 rekey_req)) st_event).2.

(** ** The scenario as a run of the cluster *)
Definition m_key : machine call St := mkMachine st_key [].
Definition m_event : machine call St := mkMachine st_event [].
Definition m_rekeyed : machine call St := mkMachine st_rekeyed [].

Lemma node_member : member toy_lib same_text node.
Proof. done. Qed.

Section Scenario.
Context `{fate : Fate} (Hkept : ~ withdrawn scene_ctx 1).

Lemma m_key_reachable : reachable toy_lib same_text m_key.
Proof.
  unfold reachable, step, initial, m_key, st_key. apply serve_alone; [intros; apply toy_env_ok|].
  apply sv_get_or_create, node_member.
Qed.

Lemma arrival : outside st_key st_event.
Proof.
  apply event_arrives. split; [vm_compute; reflexivity|]. split; [reflexivity|]. intros o [= <-] _. split.
  - assert (Hk : exists k, db_keys (st_db st_key) !! 1 = Some k /\ kr_destroyed_at k = None /\ k_ctx k = scene_ctx /\ k_ver k = 1).
    { vm_compute. eauto 6. }
    destruct Hk as (k & Hk & Hd & Hx & Hv). exists k. split; [done|]. split; [unfold destroyed; rewrite Hd; by intros []|].
    intros _. by rewrite Hx, Hv.
  - intros rid c Hc. assert (E : map_to_list (db_ckpts (st_db st_key)) = []) by (vm_compute; reflexivity).
    apply map_to_list_empty_iff in E. by rewrite E, lookup_empty in Hc.
Qed.

Lemma m_event_reachable : reachable toy_lib same_text m_event.
Proof. eapply rtc_r; [exact m_key_reachable|]. apply happens, arrival. Qed.

Lemma m_rekeyed_later : rtc (step toy_lib same_text) m_event m_rekeyed.
Proof.
  unfold step, m_event, m_rekeyed, st_rekeyed. apply serve_alone; [intros; apply toy_env_ok|].
  apply sv_rekey, node_member.
Qed.

Lemma m_rekeyed_reachable : reachable toy_lib same_text m_rekeyed.
Proof. unfold reachable. etransitivity; [exact m_event_reachable|exact m_rekeyed_later]. Qed.
End Scenario.
