(* ===== verification/DekClaims.v ===== *)
(** What holds of keys in every run of the cluster, and that a rekey nothing disturbs
    comes to its end. *)

From S2P Require Import Prelude GoStrings Sql Programs DekTypes EventCrypto DekCache DekCacheFacts DekStore DekManager Rekey DekInv DekInvOps DekInvTx DekSafety RekeySafety RekeyProgress RekeyCompletes DekWorld.
From stdpp Require Import relations.

Open Scope string_scope.
Open Scope Z_scope.

(** C2: rekeying loses no event that was archived in time.  Whatever the servers of the
    cluster do -- publishers, rotations, rekeys started, resumed and aborted on several
    servers at once, sweeps, cache invalidations, crashes between any two calls,
    database errors before or after a statement took effect -- and whatever else
    reaches the archive meanwhile under whatever key, an event that can be read from
    the archive can be read, as the same event, in every later state, unless it was
    late: it had come under a key already destroyed, or already replaced by a rekey,
    or minted by a rotation that was then withdrawn.  Re-encryption never loses,
    changes or leaves behind the row of any other. *)
Theorem archived_events_stay_readable `{fate : Fate} L ulid `{!CryptoLaws L} m m' id e :
  reachable L ulid m -> rtc (step L ulid) m m' -> ~ late id ->
  open_event L (st_db (m_state m)) id = Some e -> open_event L (st_db (m_state m')) id = Some e.
Proof. intros Hm Hs. apply (reachable_grows L ulid m m' Hm Hs). Qed.

(** A run with a late event: it was sealed under the scene's first key, as the other
    was, and reaches the archive when the rekey has destroyed that key. *)
Definition late_id : string := "late-0123456789a".
Definition toy_fate : Fate := mkFate (eq late_id) (fun _ _ => False).
Definition st_late : St :=
  with_db st_rekeyed (set_audit (st_db st_rekeyed) (<[late_id := archived_row]> (db_audit (st_db st_rekeyed)))).
Definition m_late : machine call St := mkMachine st_late [].

Lemma toy_kept : ~ withdrawn (Fate := toy_fate) scene_ctx 1.
Proof. intros []. Qed.

Lemma m_late_later : rtc (step (fate := toy_fate) toy_lib same_text) m_event m_late.
Proof.
  eapply rtc_r; [apply m_rekeyed_later|]. apply happens. apply event_arrives.
  split; [vm_compute; reflexivity|]. split; [reflexivity|]. intros o _ Hl. by destruct Hl.
Qed.

Lemma archived_events_stay_readable_witness :
  open_event toy_lib (st_db st_event) "0123456789abcdef" = Some toy_event
  /\ open_event toy_lib (st_db st_late) "0123456789abcdef" = Some toy_event
  /\ open_event toy_lib (st_db st_late) late_id = None.
Proof.
  assert (H : open_event toy_lib (st_db st_event) "0123456789abcdef" = Some toy_event) by (vm_compute; reflexivity).
  split; [exact H|]. split; [|vm_compute; reflexivity].
  refine (archived_events_stay_readable (fate := toy_fate) toy_lib same_text m_event m_late _ _
    (m_event_reachable toy_kept) m_late_later _ H).
  discriminate.
Defined.

(** C20: what a completed rekey has achieved, however it was driven there.  Its new
    key is the next version of the key it started from, in the same context; no
    archived event is left under the old key but what came late, after the new key was
    minted; unless the operator forced it past
    the cluster's acknowledgements, the old key is destroyed; and its audit event
    was published. *)
Theorem completed_rekey_is_complete `{fate : Fate} L ulid `{!CryptoLaws L} m rid c :
  reachable L ulid m -> db_ckpts (st_db (m_state m)) !! rid = Some c -> ck_Status c = CheckpointStatusComplete ->
  let db := st_db (m_state m) in
  (exists n old new, ck_NewDEKID c = Some n /\ db_keys db !! ck_OldDEKID c = Some old /\ db_keys db !! n = Some new
     /\ k_ctx old = ck_ctx c /\ k_ctx new = ck_ctx c /\ k_ver new = k_ver old + 1
     /\ (ck_ForceDestroy c = false -> destroyed old))
  /\ unreferenced db (ck_OldDEKID c)
  /\ exists p, p ∈ st_emitted (m_state m) /\ ra_RequestID p = ulid rid.
Proof.
  intros Hm Hc Hs. pose proof (i_ckpts _ _ _ (reachable_inv L ulid m Hm) _ _ Hc) as [_ _ Hk _ Hl _ _ Hcl Hg Hd].
  rewrite Hs in *. cbn in *. destruct (Hl ltac:(lia)) as [n Hn]. destruct Hk as (old & Hold & Hx & Hnew).
  destruct (Hnew _ Hn) as (new & Hnk & Hnx & Hv & _). split; [|split; [apply Hcl; lia|by apply Hd] ].
  exists n, old, new. do 6 (split; [done|]). intros Hf. destruct (Hg ltac:(lia)) as [?|(k & Hk & Hdk)]; [congruence|].
  assert (k = old) as -> by congruence. done.
Qed.

Lemma completed_rekey_is_complete_witness :
  exists c, db_ckpts (st_db st_rekeyed) !! "rekey-0123456789" = Some c /\ ck_ForceDestroy c = false
    /\ unreferenced (fate := toy_fate) (st_db st_rekeyed) (ck_OldDEKID c)
    /\ exists p, p ∈ st_emitted st_rekeyed /\ ra_RequestID p = "rekey-0123456789".
Proof.
  assert (H : exists c, db_ckpts (st_db st_rekeyed) !! "rekey-0123456789" = Some c
    /\ ck_Status c = CheckpointStatusComplete /\ ck_ForceDestroy c = false) by (vm_compute; eauto).
  destruct H as (c & Hc & Hs & Hf). exists c. split; [exact Hc|]. split; [exact Hf|].
  exact (proj2 (completed_rekey_is_complete (fate := toy_fate) toy_lib same_text m_rekeyed _ c (m_rekeyed_reachable toy_kept) Hc Hs)).
Defined.

(** C29: keys are destroyed only when they are retired.  In every state of the cluster a
    destroyed key has no archived event under it but what came late, and it is either
    the key that some rekey, having minted its successor, started from, and not the
    newest of its context; or the key of a rotation that the cluster did not
    acknowledge. *)
Theorem destroyed_keys_are_retired `{fate : Fate} L ulid `{!CryptoLaws L} m id k :
  reachable L ulid m -> db_keys (st_db (m_state m)) !! id = Some k -> destroyed k ->
  let db := st_db (m_state m) in
  unreferenced db id
  /\ ((newer db k /\ exists rid c n, db_ckpts db !! rid = Some c /\ ck_OldDEKID c = id /\ ck_NewDEKID c = Some n)
      \/ kr_rekeyed k = false /\ withdrawn (k_ctx k) (k_ver k)).
Proof.
  intros Hm Hk Hd. pose proof (reachable_inv L ulid m Hm) as HI. split.
  - intros i r Hi Hl Href. destruct (rw_ref _ _ _ (i_rows _ _ _ HI _ _ Hi) Hl _ Href) as (k' & Hk' & Hnd & _). congruence.
  - destruct (ko_destroyed _ _ _ _ (i_keys _ _ _ HI _ _ Hk) Hd) as [?|(rid & c & Hc & <- & [n Hn])]; [by right|left].
    split; [|by exists rid, c, n]. by eapply successor_newer.
Qed.

Lemma destroyed_keys_are_retired_witness :
  exists k, db_keys (st_db st_late) !! 1 = Some k /\ unreferenced (fate := toy_fate) (st_db st_late) 1
    /\ ~ emptied (st_db st_late) 1 /\ newer (st_db st_late) k
    /\ exists rid c n, db_ckpts (st_db st_late) !! rid = Some c /\ ck_OldDEKID c = 1 /\ ck_NewDEKID c = Some n.
Proof.
  assert (H : exists k, db_keys (st_db st_late) !! 1 = Some k /\ exists t, kr_destroyed_at k = Some t) by (vm_compute; eauto).
  destruct H as (k & Hk & t & Ht). exists k. split; [exact Hk|].
  assert (Hd : destroyed k) by (unfold destroyed; rewrite Ht; eauto).
  destruct (destroyed_keys_are_retired (fate := toy_fate) toy_lib same_text m_late 1 k
    (transitivity (m_event_reachable toy_kept) m_late_later) Hk Hd) as [Hu [[Hn Hc]|[_ [] ] ] ].
  split; [exact Hu|]. split; [|split; [exact Hn|exact Hc] ].
  intros He. apply (He late_id archived_row); vm_compute; reflexivity.
Defined.

(** C37: the checkpoints follow the declared state machine.  From one state of the
    cluster to any later one every rekey keeps its context, its old key, its
    operator and arguments, and its new key once it has one; its status moves
    along the declared transitions only, never backwards; once complete or aborted
    it stays so; and a context never has two live rekeys. *)
Theorem rekeys_follow_the_state_machine `{fate : Fate} L ulid `{!CryptoLaws L} m m' rid c :
  reachable L ulid m -> rtc (step L ulid) m m' -> db_ckpts (st_db (m_state m)) !! rid = Some c ->
  exists c', db_ckpts (st_db (m_state m')) !! rid = Some c'
    /\ ck_ctx c' = ck_ctx c /\ ck_OldDEKID c' = ck_OldDEKID c
    /\ ck_PrimaryPlayerID c' = ck_PrimaryPlayerID c /\ ck_opArgsHash c' = ck_opArgsHash c
    /\ (forall n, ck_NewDEKID c = Some n -> ck_NewDEKID c' = Some n)
    /\ moves (ck_Status c) (ck_Status c')
    /\ (phase_rank (ck_Status c) <= phase_rank (ck_Status c'))%nat
    /\ (IsTerminal (ck_Status c) = true -> ck_Status c' = ck_Status c)
    /\ forall rid2 c2, db_ckpts (st_db (m_state m')) !! rid2 = Some c2 -> ck_ctx c2 = ck_ctx c ->
         live c' = true -> live c2 = true -> rid2 = rid.
Proof.
  intros Hm Hs Hc. pose proof (reachable_grows L ulid m m' Hm Hs) as G.
  assert (HI : inv L ulid (m_state m')) by (apply reachable_inv; [done|]; unfold reachable; by etransitivity).
  destruct (g_ckpts _ _ _ G _ _ Hc) as (c' & Hc' & (Hmv & Hx & Ho & Hp & Ha & Hn & _)).
  exists c'. do 7 (split; [done|]). split; [by apply moves_rank|]. split; [intros; by apply moves_terminal|].
  intros rid2 c2 Hc2 Hx2 Hl Hl2. apply (i_live _ _ _ HI rid2 rid c2 c'); try done. congruence.
Qed.

(** A key cache never answers with anything but the stored key.  In every state
    of the cluster, whatever was rotated, invalidated, evicted or restarted, a hit
    in a server's cache for an id and version is the material that the row of that
    id, of that version, wraps. *)
Theorem cached_keys_are_stored_keys `{fate : Fate} L ulid `{!CryptoLaws L} m srv now id version x :
  reachable L ulid m -> (cache_Get now (mkCacheKey id version) (key_cache srv (m_state m))).1 = Some x ->
  exists k, db_keys (st_db (m_state m)) !! id = Some k /\ k_ver k = version /\ secret L k = Some x.
Proof.
  intros Hm Hg. pose proof (reachable_inv L ulid m Hm) as HI.
  exact (cache_get_hit L _ _ _ _ _ (key_cache_sound L ulid _ srv HI) Hg).
Qed.

Lemma cached_keys_are_stored_keys_witness :
  exists x k, (cache_Get 100 (mkCacheKey 1 1) (key_cache "node-1" (m_state m_key))).1 = Some x
    /\ db_keys (st_db st_key) !! 1 = Some k /\ k_ver k = 1 /\ secret toy_lib k = Some x.
Proof.
  assert (H : exists x, (cache_Get 100 (mkCacheKey 1 1) (key_cache "node-1" (m_state m_key))).1 = Some x)
    by (vm_compute; eauto).
  destruct H as (x & Hx). exists x.
  destruct (cached_keys_are_stored_keys (fate := no_fate) toy_lib same_text m_key "node-1" 100 1 1 x m_key_reachable Hx)
    as (k & Hk & Hv & Hs).
  exists k. split; [exact Hx|]. split; [exact Hk|]. split; [exact Hv|exact Hs].
Defined.

Open Scope string_scope.
Open Scope Z_scope.

(** Identifiers of rekeys on record. *)
Definition recorded (s : St) (rid : string) : Prop := is_Some (db_ckpts (st_db s) !! rid).

(** What decodes from protobuf encodes again, with another payload. *)
Definition remarshals (L : CryptoLib) : Prop :=
  forall raw e p, unmarshalEvent L raw = Ok e -> exists b, marshalEvent L (set_payload e p) = Ok b.

(** What has become of a rekey's old key in [s'], and of the events of [s]. *)
Definition retired (L : CryptoLib) (s s' : St) (rid : string) (o : Z) : Prop :=
  (exists c k, db_ckpts (st_db s') !! rid = Some c /\ ck_Status c = CheckpointStatusComplete
     /\ db_keys (st_db s') !! o = Some k /\ destroyed k)
  /\ emptied (st_db s') o
  /\ forall i e, open_event L (st_db s) i = Some e -> open_event L (st_db s') i = Some e.

(** Nothing the archive holds came late. *)
Definition in_time `{fate : Fate} (s : St) : Prop := forall id r, db_audit (st_db s) !! id = Some r -> ~ late id.

(** Then the invariant holds of it as of a run without late events. *)
Lemma inv_in_time `{fate : Fate} L ulid s : inv L ulid s -> in_time s -> inv (fate := punctual withdrawn) L ulid s.
Proof.
  intros [Hq Hk Hu Hc Hl Hch Hr Hca Hp] Ht. constructor; try done.
  - intros id k Hik. destruct (Hk _ _ Hik). by constructor.
  - intros rid c Hrid. destruct (Hc _ _ Hrid) as [Oid Okn Okeys Oe Ol Ocur Ocn Ocl Og Od]. constructor; try done.
    + intros id r Hir _. apply (Ocur id r Hir), (Ht _ _ Hir).
    + intros Hrk id r Hir _. apply (Ocl Hrk id r Hir), (Ht _ _ Hir).
  - intros id r Hir. destruct (Hr _ _ Hir) as [Hid Href]. constructor; [done|]. intros _. apply Href, (Ht _ _ Hir).
Qed.

Section Liveness.
Context `{fate : Fate} (L : CryptoLib) `{!CryptoLaws L} (ulid : string -> string) (Hre : remarshals L).

(** Of what is run alone in such a state everything is shown as of a run without late
    events. *)
Local Abbreviation in_time_fate := (punctual withdrawn).
Local Abbreviation tinv := (inv (fate := in_time_fate) L ulid).
Local Abbreviation tgrows := (grows (fate := in_time_fate) L).

Lemma complete_retires s s' rid c o :
  keeps tinv tgrows s s' -> db_ckpts (st_db s') !! rid = Some c -> ck_Status c = CheckpointStatusComplete ->
  ck_OldDEKID c = o -> ck_ForceDestroy c = false -> retired L s s' rid o.
Proof.
  intros [HI G] Hc Hs <- Hf. pose proof (i_ckpts _ _ _ HI _ _ Hc) as Hok.
  split; [|split; [|intros i e; exact (g_events (fate := in_time_fate) _ _ _ G i e (fun H => H))] ].
  - destruct (cp_gone _ _ _ _ Hok ltac:(rewrite Hs; cbn; lia)) as [?|(k & Hk & Hd)]; [congruence|]. eauto 6.
  - intros i r Hr. refine (cp_clean (fate := in_time_fate) _ _ _ _ Hok _ i r Hr (fun H => H)). rewrite Hs. cbn. lia.
Qed.

(** A program run alone by a server of the cluster. *)
Lemma alone_ends {A} (p : dprog (result A)) P Q taken ens s :
  (forall n, healthy L taken (ens n)) -> tinv s -> wp exec (valid (fate := in_time_fate) L) tinv tgrows p P s ->
  ends exec tinv tgrows (healthy L taken) p (succ Q) s ->
  exists a, (run exec ens p s).1 = Ok a /\ Q (run exec ens p s).2 a
    /\ keeps tinv tgrows s (run exec ens p s).2.
Proof.
  intros Hh HI Hw He.
  destruct (ends_run exec (valid (fate := in_time_fate) L) tinv tgrows (healthy L taken) p (succ Q) ens s) as [K (a & Ha & HQ)];
    [done|intros d n; apply (healthy_ok L taken), Hh|done|by eapply wp_safe|done|]. eauto.
Qed.


End Liveness.

(** ** Concrete runs *)
Lemma all_rows {V} (P : string -> V -> Prop) (m : gmap string V) l :
  map_to_list m = l -> Forall (fun kv => P kv.1 kv.2) l -> forall k v, m !! k = Some v -> P k v.
Proof. intros <- Hl k v Hk. rewrite Forall_forall in Hl. by apply (Hl (k, v)), elem_of_map_to_list. Qed.

Lemma all_keys (P : Z -> key_rec -> Prop) (m : gmap Z key_rec) l :
  map_to_list m = l -> Forall (fun kv => P kv.1 kv.2) l -> forall k v, m !! k = Some v -> P k v.
Proof. intros <- Hl k v Hk. rewrite Forall_forall in Hl. by apply (Hl (k, v)), elem_of_map_to_list. Qed.

Lemma toy_remarshals : remarshals toy_lib.
Proof. intros raw e p _. eexists. reflexivity. Qed.

(** In these runs nothing is late. *)
#[local] Existing Instance no_fate.

Lemma kept : ~ withdrawn scene_ctx 1.
Proof. intros []. Qed.

Lemma toy_in_time s : in_time s.
Proof. intros id r _ []. Qed.

Lemma toy_healthy s n : db_ckpts (st_db s) !! "rekey-0123456789" = None -> healthy toy_lib (recorded s) (toy_env n).
Proof.
  intros Hs. split; [apply (toy_env_ok s n)|done| |done|].
  - intros A q. destruct q; cbn; try done; eauto 8.
    + intros [x Hx]. rewrite Hx. eauto.
    + exists None. done.
  - cbn. unfold recorded. rewrite Hs. by intros [].
Qed.

(** The rekey of the scenario, cut off by a cancellation before its first batch. *)
Definition cancelled (n : nat) : environment :=
  let en := toy_env n in
  mkEnv (en_clock en) NoFault (en_emit en) true
    (fun A q => match q in ask A return A with ACancelled => true | q => toy_answer n _ q end).
Definition st_cut : St := (run exec cancelled (forget (Run node 5 rekey_req)) st_event).2.
Definition m_cut : machine call St := mkMachine st_cut [].

Lemma m_cut_reachable : reachable toy_lib same_text m_cut.
Proof.
  unfold reachable. etransitivity; [exact (m_event_reachable kept)|]. unfold step, m_event, m_cut, st_cut.
  apply serve_alone; [|apply sv_rekey, node_member]. intros s n. destruct (toy_env_ok s n) as [Ha He].
  split; [|done]. intros A q. specialize (Ha A q). by destruct q.
Qed.

(** The one row under the first key, and that nothing is newer. *)
Lemma st_event_keys id k : db_keys (st_db st_event) !! id = Some k -> k_ver k <= 1.
Proof.
  revert id k. assert (E : exists l, map_to_list (db_keys (st_db st_event)) = l /\ Forall (fun kv => k_ver kv.2 <= 1) l)
    by (eexists; split; [vm_compute; reflexivity|repeat constructor; done]).
  destruct E as (l & E & Hl). exact (all_keys (fun _ k => k_ver k <= 1) _ l E Hl).
Qed.

Lemma readable_rows s : (exists l, map_to_list (db_audit (st_db s)) = l
    /\ Forall (fun ir => is_Some (open_row toy_lib (db_keys (st_db s)) ir.2)) l) -> readable toy_lib s 1.
Proof. intros (l & E & Hl) id r Hr _. exact (all_rows (fun _ r => is_Some (open_row toy_lib _ r)) _ l E Hl id r Hr). Qed.

Lemma st_event_readable : readable toy_lib st_event 1.
Proof. apply readable_rows. eexists. split; [vm_compute; reflexivity|]. repeat constructor. vm_compute. eauto. Qed.

Lemma st_cut_readable : readable toy_lib st_cut 1.
Proof. apply readable_rows. eexists. split; [vm_compute; reflexivity|]. repeat constructor. vm_compute. eauto. Qed.

Lemma st_event_idle : idle st_event scene_ctx.
Proof.
  intros rid c Hc _. assert (E : map_to_list (db_ckpts (st_db st_event)) = []) by (vm_compute; reflexivity).
  exact (all_rows (fun _ c => live c = false) _ [] E ltac:(constructor) rid c Hc).
Qed.

Lemma st_event_mintable k : active_key scene_ctx (st_db st_event) = Some (1, k) -> mintable st_event 1.
Proof.
  intros Ha. apply active_key_Some in Ha as (Hk & _). split; [vm_compute; reflexivity|]. exists k. split; [done|].
  assert (Hv : k_ver k = 1).
  { assert (E : exists k, db_keys (st_db st_event) !! 1 = Some k /\ k_ver k = 1) by (vm_compute; eauto).
    destruct E as (k' & Hk' & Hv). congruence. }
  rewrite Hv. split; [done|]. intros (id & k' & Hk' & _ & Hlt). apply st_event_keys in Hk'. lia.
Qed.


(** What the cancelled run left behind. *)
Lemma cut_checkpoint : exists c, db_ckpts (st_db st_cut) !! "rekey-0123456789" = Some c /\ sane c = true
  /\ ck_PrimaryPlayerID c = "op-1" /\ ck_Status c = CheckpointStatusPhase3ReencryptCold /\ ck_NewDEKID c = Some 2
  /\ ck_OldDEKID c = 1 /\ ck_Phase3RowsRewritten c = 0 /\ ck_Phase5AttemptCount c = 0 /\ ck_ForceDestroy c = false.
Proof. eexists. split; [vm_compute; reflexivity|]. by vm_compute. Qed.

Definition later_env (n : nat) : environment :=
  let en := toy_env n in mkEnv (mkClock 50 50 "another-0123456") NoFault (en_emit en) true (en_ask en).

Lemma later_healthy s n : db_ckpts (st_db s) !! "another-0123456" = None -> healthy toy_lib (recorded s) (later_env n).
Proof.
  intros Hs. destruct (toy_healthy st_event n ltac:(vm_compute; reflexivity)) as [[Ha1 Ha2] Hf Hask He _].
  split; [by split|done|done|done|]. cbn. unfold recorded. rewrite Hs. by intros [].
Qed.


(** The resumption, as a run of the cluster. *)
Definition st_resumed : St := (run exec later_env (forget (RunByRequestID node 5 "rekey-0123456789" rekey_req)) st_cut).2.
Definition m_resumed : machine call St := mkMachine st_resumed [].

Lemma m_resumed_later : rtc (step toy_lib same_text) m_cut m_resumed.
Proof.
  unfold step, m_cut, m_resumed, st_resumed. apply serve_alone; [|apply sv_resume, node_member].
  intros s n. destruct (toy_env_ok s n) as [Ha He]. by split.
Qed.

Lemma rekeys_follow_the_state_machine_witness :
  exists c c', db_ckpts (st_db st_cut) !! "rekey-0123456789" = Some c
    /\ db_ckpts (st_db st_resumed) !! "rekey-0123456789" = Some c'
    /\ ck_Status c = CheckpointStatusPhase3ReencryptCold /\ ck_Status c' = CheckpointStatusComplete
    /\ ck_NewDEKID c = Some 2 /\ ck_NewDEKID c' = Some 2 /\ ck_OldDEKID c' = 1
    /\ moves (ck_Status c) (ck_Status c') /\ (phase_rank (ck_Status c) <= phase_rank (ck_Status c'))%nat.
Proof.
  destruct cut_checkpoint as (c & Hc & _ & _ & Hst & Hn & Ho & _).
  assert (Hend : exists d, db_ckpts (st_db st_resumed) !! "rekey-0123456789" = Some d
    /\ ck_Status d = CheckpointStatusComplete) by (vm_compute; eauto).
  destruct Hend as (d & Hd & Hds).
  destruct (rekeys_follow_the_state_machine toy_lib same_text m_cut m_resumed _ c m_cut_reachable m_resumed_later Hc)
    as (c' & Hc' & _ & Ho' & _ & _ & Hn' & Hmv & Hrk & _).
  exists c, c'. split; [exact Hc|]. split; [exact Hc'|]. split; [exact Hst|].
  assert (E : d = c') by (apply (inj Some); rewrite <- Hd; exact Hc').
  split; [rewrite <- E; exact Hds|]. split; [exact Hn|]. split; [exact (Hn' 2 Hn)|].
  split; [rewrite Ho'; exact Ho|]. split; [exact Hmv|exact Hrk].
Defined.
