(* ===== verification/BusTypes.v ===== *)
(** The event bus: [internal/eventbus/types.go], [qualify.go], the header names
    and the conversions of [publisher.go], [envelope.go] and the session types of
    [subscriber_auth.go]; and the calls of the programs that publish, archive and
    read events.

    A ULID is its sixteen bytes.  ULID text, the JSON and wire form of rendering
    metadata and the key comparison of NATS headers belong to libraries
    ([BusLib], [BusLaws]).

    A call is one of the DEK subsystem's ([Dek]), an append to the stream
    ([PublishMsg]) or to the dead-letter stream ([CaptureDLQ]), a question to the
    policy engine or to the audit queue, or the emission of a decrypt record.  The
    streams, the decisions the engine logged and the decrypt records are state
    beside the DEK subsystem's.  [lift] runs a DEK program here. *)

From S2P Require Import Prelude GoStrings PolicyTypes Sql Programs DekTypes EventCrypto DekCache DekStore DekManager.

Open Scope string_scope.
Open Scope Z_scope.

(** ** Strings *)
Fixpoint Split (c : ascii) (s : string) : list string :=
  match s with
  | EmptyString => [EmptyString]
  | String x r =>
      if Ascii.eqb x c then EmptyString :: Split c r
      else match Split c r with h :: t => String x h :: t | [] => [] end
  end.

(** [strings.SplitN] for a positive [n]. *)
Fixpoint SplitN (n : nat) (c : ascii) (s : string) : list string :=
  match n with
  | O => []
  | S O => [s]
  | S n' => match cut c s with None => [s] | Some (a, b) => a :: SplitN n' c b end
  end.

Fixpoint all_bytes (p : ascii -> bool) (s : string) : bool :=
  match s with EmptyString => true | String c r => p c && all_bytes p r end.

Definition in_range (lo hi : ascii) (c : ascii) : bool := (code lo <=? code c)%N && (code c <=? code hi)%N.
Definition is_lower (c : ascii) : bool := in_range "a" "z" c.
Definition is_upper (c : ascii) : bool := in_range "A" "Z" c.
Definition is_digit (c : ascii) : bool := in_range "0" "9" c.
Fixpoint one_of (set : string) (c : ascii) : bool :=
  match set with EmptyString => false | String x r => Ascii.eqb x c || one_of r c end.

(** ** Subjects and types *)
Definition ErrInvalidSubject : error := ErrNew "eventbus: invalid subject".
Definition ErrInvalidType : error := ErrNew "eventbus: invalid event type".

(** [subjectTokenRe]. *)
Definition subject_token (t : string) : bool :=
  negb (is_empty t) && all_bytes (fun c => is_upper c || is_lower c || is_digit c || one_of "_-" c) t.

(** The checks of the loop over tokens; [n] tokens follow. *)
Fixpoint check_tokens (ts : list string) : result unit :=
  match ts with
  | [] => Ok tt
  | t :: ts' =>
      if is_empty t then Err (ErrWrap "empty token" ErrInvalidSubject)
      else if String.eqb t ">" then
        match ts' with [] => Ok tt | _ => Err (ErrWrap "'>' must be the last token" ErrInvalidSubject) end
      else if String.eqb t "*" then check_tokens ts'
      else if subject_token t then check_tokens ts'
      else Err (ErrWrap "token has invalid characters" ErrInvalidSubject)
  end.

Definition NewSubject (s : string) : result string :=
  if is_empty s then Err (ErrWrap "empty subject" ErrInvalidSubject)
  else
    let tokens := Split "." s in
    if (16 <? length tokens)%nat then Err (ErrWrap "token depth exceeds 16" ErrInvalidSubject)
    else if negb (bool_decide (head tokens = Some "events")) then Err (ErrWrap "must start with 'events.'" ErrInvalidSubject)
    else match check_tokens tokens with Err e => Err e | Ok _ => Ok s end.

(** [[a-z][a-z0-9_-]*]. *)
Definition verb_word (w : string) : bool :=
  match w with
  | EmptyString => false
  | String c r => is_lower c && all_bytes (fun c => is_lower c || is_digit c || one_of "_-" c) r
  end.

Definition NewType (s : string) : result string :=
  if is_empty s then Err (ErrWrap "empty type" ErrInvalidType)
  else if forallb verb_word (Split "." s)
       || match cut ":" s with Some (a, b) => verb_word a && verb_word b | None => false end
  then Ok s else Err (ErrWrap "type does not match" ErrInvalidType).

Definition Qualify (gameID relativeRef : string) : result string :=
  if is_empty relativeRef then Err (ErrNew "empty stream reference")
  else if HasPrefix relativeRef "events." then NewSubject relativeRef
  else if is_empty gameID then Err (ErrNew "game id required to qualify stream reference")
  else NewSubject ("events." +:+ gameID +:+ "." +:+ relativeRef).

(** ** Events *)
Inductive ActorKind : Type :=
| ActorKindUnknown | ActorKindCharacter | ActorKindPlayer | ActorKindSystem | ActorKindPlugin.

Inductive NoPlaintextReason : Type :=
| NoPlaintextReasonUnspecified | NoPlaintextReasonAuthGuardDeny | NoPlaintextReasonStaleDEK
| NoPlaintextReasonAuditQueueFull | NoPlaintextReasonDEKMissing | NoPlaintextReasonDEKBadColumns
| NoPlaintextReasonInternal | NoPlaintextReasonDowngradeRefused.

Record HostActor : Type := mkHostActor { ha_Kind : ActorKind; ha_ID : string }.

Record RenderingMetadata : Type := mkRendering {
  rm_Category : string;
  rm_Format : string;
  rm_Label : string;
  rm_DisplayTarget : Z;
  rm_SourcePlugin : string;
  rm_SourcePluginVersion : string
}.

(** [eventbus.Event], less the plugin's audit row.  Timestamps are nanoseconds. *)
Record HostEvent : Type := mkHostEvent {
  he_ID : string;
  he_Seq : Z;
  he_Subject : string;
  he_Type : string;
  he_Timestamp : Z;
  he_Actor : HostActor;
  he_Payload : string;
  he_Sensitive : bool;
  he_Rendering : option RenderingMetadata;
  he_Headers : gmap string string;
  he_MetadataOnly : bool;
  he_NoPlaintextReason : NoPlaintextReason
}.

#[export] Instance ActorKind_eq_dec : EqDecision ActorKind.
Proof. solve_decision. Defined.

Definition ActorKind_String (k : ActorKind) : string :=
  match k with
  | ActorKindCharacter => "character"
  | ActorKindPlayer => "player"
  | ActorKindSystem => "system"
  | ActorKindPlugin => "plugin"
  | ActorKindUnknown => "unknown"
  end.

(** The numbers of the proto enum. *)
Definition ActorKindToProto (k : ActorKind) : Z :=
  match k with
  | ActorKindCharacter => 1
  | ActorKindPlayer => 2
  | ActorKindSystem => 3
  | ActorKindPlugin => 4
  | ActorKindUnknown => 0
  end.

Definition ActorToProto (a : HostActor) : Actor :=
  mkActor (ActorKindToProto (ha_Kind a)) (if String.eqb (ha_ID a) zero_id then EmptyString else ha_ID a).

Definition actorFromEnvelope (a : option Actor) : HostActor :=
  match a with
  | None => mkHostActor ActorKindUnknown zero_id
  | Some a =>
      mkHostActor
        (if ac_Kind a =? 1 then ActorKindCharacter
         else if ac_Kind a =? 2 then ActorKindPlayer
         else if ac_Kind a =? 3 then ActorKindSystem
         else if ac_Kind a =? 4 then ActorKindPlugin
         else ActorKindUnknown)
        (if (String.length (ac_Id a) =? 16)%nat then ac_Id a else zero_id)
  end.

(** ** Libraries *)
Record BusLib : Type := mkBusLib {
  ulid_String : string -> string;
  ulid_Parse : string -> result string;
  rendering_encode : RenderingMetadata -> string;          (* the wire form inside an envelope *)
  rendering_decode : string -> RenderingMetadata;
  rendering_json : RenderingMetadata -> result string;     (* protojson, canonical options *)
  rendering_of_json : string -> result RenderingMetadata;  (* protojson, unknown fields dropped *)
  json_valid : string -> bool;                             (* a text Postgres casts to JSONB *)
  rendering_validate : RenderingMetadata -> result unit;   (* protovalidate *)
  nats_key : string -> string;                             (* the entry a header name denotes *)
  otel_inject : list (string * string)                     (* what the propagator writes *)
}.

(** [textproto.CanonicalMIMEHeaderKey]. *)
Definition header_byte (c : ascii) : bool :=
  is_upper c || is_lower c || is_digit c || one_of "!#$%&'*+-.^_`|~" c.

Fixpoint capitalise (upper : bool) (s : string) : string :=
  match s with
  | EmptyString => EmptyString
  | String c r =>
      let c' := if upper && is_lower c then ascii_of_N (code c - 32)
                else if negb upper && is_upper c then ascii_of_N (code c + 32) else c in
      String c' (capitalise (Ascii.eqb c' "-") r)
  end.

Definition CanonicalMIMEHeaderKey (k : string) : string :=
  if all_bytes header_byte k then capitalise true k else k.

(** The wire form of the optional metadata; the display target is an [EventChannel],
    a [uint8]. *)
Definition RenderingToProto (B : BusLib) (r : option RenderingMetadata) : option string := rendering_encode B <$> r.

Definition as_host_rendering (r : RenderingMetadata) : RenderingMetadata :=
  mkRendering (rm_Category r) (rm_Format r) (rm_Label r) (rm_DisplayTarget r mod 256) (rm_SourcePlugin r)
    (rm_SourcePluginVersion r).

Definition RenderingFromProto (B : BusLib) (r : option string) : option RenderingMetadata :=
  (fun s => as_host_rendering (rendering_decode B s)) <$> r.

(** ** Headers *)
Abbreviation Header := (gmap string string).

Definition HSet (B : BusLib) (k v : string) (h : Header) : Header := <[nats_key B k := v]> h.
(** The empty string when the header is absent. *)
Definition HGet (B : BusLib) (k : string) (h : Header) : string := default EmptyString (h !! nats_key B k).

Definition HeaderMsgID : string := "Nats-Msg-Id".
Definition HeaderSchemaVersion : string := "App-Schema-Version".
Definition HeaderEventType : string := "App-Event-Type".
Definition HeaderCodec : string := "App-Codec".
Definition HeaderActorKind : string := "App-Actor-Kind".
Definition HeaderActorID : string := "App-Actor-ID".
Definition HeaderDekRef : string := "App-Dek-Ref".
Definition HeaderDekVersion : string := "App-Dek-Version".
Definition headerRendering : string := "App-Rendering".
Definition SchemaVersion : string := "1".

(** The names an envelope's reader relies on, as they canonicalise to themselves. *)
Definition system_headers : list string :=
  [HeaderMsgID; HeaderSchemaVersion; HeaderEventType; HeaderCodec; HeaderActorKind; HeaderDekRef; HeaderDekVersion].

(** A message of the stream. *)
Record Msg : Type := mkMsg { msg_Subject : string; msg_Data : string; msg_Header : Header }.

(** What the modelled code relies on: identifiers and metadata survive their text
    forms; header names that denote one entry have one canonical form (true of a
    case-sensitive and of a canonicalising header map); the propagator writes its
    own headers. *)
Class BusLaws (B : BusLib) : Prop := mkBusLaws {
  parse_ulid : forall i, String.length i = 16%nat -> ulid_Parse B (ulid_String B i) = Ok i;
  ulid_text_nonempty : forall i, ulid_String B i <> EmptyString;
  parsed_length : forall s i, ulid_Parse B s = Ok i -> String.length i = 16%nat;
  decode_rendering : forall r, rendering_decode B (rendering_encode B r) = r;
  rendering_json_inv : forall r j, rendering_json B r = Ok j ->
    rendering_of_json B j = Ok r /\ json_valid B j = true /\ j <> EmptyString;
  one_entry : forall a b, nats_key B a = nats_key B b -> CanonicalMIMEHeaderKey a = CanonicalMIMEHeaderKey b;
  inject_own : forall k v, (k, v) ∈ otel_inject B -> CanonicalMIMEHeaderKey k ∉ headerRendering :: system_headers
}.

(** ** Sessions *)
Inductive IdentityKind : Type :=
| IdentityKindUnknown | IdentityKindCharacter | IdentityKindPlayer | IdentityKindPlugin | IdentityKindOperator.

(** [authguard.Identity] and [eventbus.SessionIdentity], which mirror each other. *)
Record Identity : Type := mkIdentity {
  id_Kind : IdentityKind;
  id_PlayerID : string;
  id_CharacterID : string;
  id_BindingID : string;
  id_PluginName : string;
  id_InstanceID : string
}.

Record PluginDecryptRecord : Type := mkDecryptRecord {
  pd_PluginName : string;
  pd_PluginInstanceID : string;
  pd_EventID : string;
  pd_EventSubject : string;
  pd_EventType : string;
  pd_DEKRef : Z;
  pd_DEKVersion : Z;
  pd_GrantID : string
}.

Open Scope string_scope.
Open Scope Z_scope.

Record Bus : Type := mkBus {
  bs_dek : St;
  bs_stream : list Msg;                            (* in stream order *)
  bs_dlq : list Msg;                               (* the dead-letter stream *)
  bs_decisions : list (AccessRequest * Decision);
  bs_decrypts : list PluginDecryptRecord
}.

Inductive bcall : Type -> Type :=
| Dek {A : Type} (c : call A) : bcall A
| PublishMsg (timeout : Z) (m : Msg) : bcall (option error)
| CaptureDLQ (m : Msg) : bcall (option error)
| EvaluateAccess (r : AccessRequest) : bcall (result Decision)
| ShouldThrottle (plugin : string) : bcall bool
| EmitPluginDecrypt (r : PluginDecryptRecord) : bcall (option error).

Record bus_env : Type := mkBusEnv {
  be_dek : environment;
  be_publish : option error;
  be_published : bool;      (* whether a failed publish reached the stream nonetheless *)
  be_dlq : option error;
  be_evaluate : AccessRequest -> result Decision;
  be_throttle : string -> bool;
  be_emit : option error
}.

Definition bus_exec (en : bus_env) (A : Type) (c : bcall A) (b : Bus) : A * Bus :=
  match c in bcall A return A * Bus with
  | @Dek A c => let '(a, s) := exec (be_dek en) A c (bs_dek b) in
                (a, mkBus s (bs_stream b) (bs_dlq b) (bs_decisions b) (bs_decrypts b))
  | PublishMsg _ m =>
      (be_publish en,
       mkBus (bs_dek b) (if bool_decide (be_publish en = None) || be_published en then bs_stream b ++ [m] else bs_stream b)
         (bs_dlq b) (bs_decisions b) (bs_decrypts b))%list
  | CaptureDLQ m =>
      (be_dlq en,
       mkBus (bs_dek b) (bs_stream b) (if bool_decide (be_dlq en = None) then bs_dlq b ++ [m] else bs_dlq b)
         (bs_decisions b) (bs_decrypts b))%list
  | EvaluateAccess r =>
      (be_evaluate en r,
       mkBus (bs_dek b) (bs_stream b) (bs_dlq b)
         (match be_evaluate en r with Ok d => bs_decisions b ++ [(r, d)] | Err _ => bs_decisions b end) (bs_decrypts b))%list
  | ShouldThrottle p => (be_throttle en p, b)
  | EmitPluginDecrypt r =>
      (be_emit en,
       mkBus (bs_dek b) (bs_stream b) (bs_dlq b) (bs_decisions b)
         (if bool_decide (be_emit en = None) then bs_decrypts b ++ [r] else bs_decrypts b))%list
  end.

Abbreviation bprog := (prog bcall).

(** A program of the DEK subsystem. *)
Fixpoint lift {A} (p : dprog A) : bprog A :=
  match p with
  | Done a => Done a
  | Call c k => Call (Dek c) (fun r => lift (k r))
  end.

Definition bfails {A} (e : error) : bprog (result A) := Done (Err e).

(** [if x, err := r; err != nil { return h(err) }] on a value already computed. *)
Definition given {A B} (r : result A) (h : error -> bprog (result B)) (k : A -> bprog (result B)) : bprog (result B) :=
  match r with Ok a => k a | Err e => h e end.
