(* ===== verification/EventPublish.v ===== *)
(** Publishing: [internal/eventbus/publisher.go] and [rendering_publisher.go].

    [Publish] validates the event, seals the payload of a sensitive one under the
    key of its context, binds the cleartext fields into the authentication tag,
    stamps the headers and appends to the stream.  Deduplication by the broker is
    left out: a repeated publish appends a second message with the same id.  The
    panic of a test binary on a reserved caller header is left out. *)

From S2P Require Import Prelude GoStrings Sql Programs DekTypes EventCrypto DekStore DekManager BusTypes.

Open Scope string_scope.
Open Scope Z_scope.
Open Scope prog_scope.

Definition MaxPayloadSize : Z := 64 * 1024.

(** ** Contexts *)
Definition contextIDFromSubject (s : string) : result ContextID :=
  if negb (HasPrefix s "events.") then Err (ErrNew "subject is not in events.<game>.<namespace>.<id>... form")
  else
    match SplitN 5 "." s with
    | _ :: _ :: namespace :: id :: _ =>
        if is_empty namespace then Err (ErrNew "subject namespace token must not be empty")
        else if is_empty id then Err (ErrNew "subject context id token must not be empty")
        else Ok (mkContext namespace id)
    | _ => Err (ErrNew "subject must have at least events.<game>.<namespace>.<id>")
    end.

Definition initialParticipantsForContext (x : ContextID) : bprog (list Participant) :=
  if String.eqb (cx_Type x) "character" then
    now ← lift (asks ANow);
    Done [mkParticipant EmptyString (cx_ID x) EmptyString now "publisher.genesis"]
  else Done [].

(** ** The publisher *)
Record Publisher : Type := mkPublisher {
  pb_server : Server;
  pb_js : bool;                                            (* the JetStream context is set *)
  pb_dekMgr : bool;                                        (* a DEK manager is wired *)
  pb_selector : string -> result (string * string);        (* subject to codec name and key label *)
  pb_keys : option (string -> result Key);                 (* the active key of a label *)
  pb_DupeWindow : Z;
  pb_safetyMargin : Z
}.

(** [SelectForEncrypt] of the default selector. *)
Definition identityKeySelector (subject : string) : result (string * string) := Ok (NameIdentity, EmptyString).

Definition dupeWindowDeadline (p : Publisher) : Z :=
  let d := pb_DupeWindow p - pb_safetyMargin p in if d <=? 0 then 1000000 else d.

Definition reservedHeaderKeys : list string :=
  [HeaderMsgID; HeaderCodec; HeaderSchemaVersion; HeaderEventType; HeaderActorKind; HeaderActorID; HeaderDekRef;
   HeaderDekVersion; "traceparent"; "tracestate"].

Definition reserved_header (k : string) : bool :=
  let canon := CanonicalMIMEHeaderKey k in
  bool_decide (canon ∈ reservedHeaderKeys) || HasPrefix canon "Nats-".

Section Publish.
Context (L : CryptoLib) (B : BusLib).

Definition mergeCallerHeaders (caller : list (string * string)) (h : Header) : Header :=
  fold_left (fun h kv => if reserved_header kv.1 then h else HSet B kv.1 kv.2 h) caller h.

Definition InjectHeaders (h : Header) : Header := fold_left (fun h kv => HSet B kv.1 kv.2 h) (otel_inject B) h.

Definition envelope_of (e : HostEvent) : Event :=
  mkEvent (he_ID e) (he_Subject e) (he_Type e) (Some (he_Timestamp e)) (Some (ActorToProto (he_Actor e)))
    (he_Payload e) (RenderingToProto B (he_Rendering e)).

(** The headers of the message; [dek] is set for a sensitive event. *)
Definition stamp_headers (e : HostEvent) (codecName : string) (dek : option (Z * Z)) : Header :=
  let h := HSet B HeaderMsgID (ulid_String B (he_ID e)) ∅ in
  let h := HSet B HeaderSchemaVersion SchemaVersion h in
  let h := HSet B HeaderEventType (he_Type e) h in
  let h := HSet B HeaderCodec codecName h in
  let h := match dek with
           | None => h
           | Some (ref, ver) => HSet B HeaderDekVersion (FormatUint ver) (HSet B HeaderDekRef (FormatUint ref) h)
           end in
  let h := HSet B HeaderActorKind (ActorKind_String (ha_Kind (he_Actor e))) h in
  let h := if String.eqb (ha_ID (he_Actor e)) zero_id then h
           else HSet B HeaderActorID (ulid_String B (ha_ID (he_Actor e))) h in
  InjectHeaders (mergeCallerHeaders (map_to_list (he_Headers e)) h).

(** The codec and the key label, and for a sensitive event the key itself. *)
Definition select_codec (p : Publisher) (e : HostEvent) : bprog (result (string * string * option Key)) :=
  if he_Sensitive e then
    if pb_dekMgr p then
      given (contextIDFromSubject (he_Subject e)) (fun x => bfails (ErrWrapCode "EVENTBUS_DEK_CONTEXT_ID_FAILED" x)) (fun ctxID =>
      initial ← initialParticipantsForContext ctxID;
      k <~ lift (GetOrCreate (pb_server p) ctxID initial)
        @@ (fun x => bfails (ErrWrapCode "EVENTBUS_DEK_GETORCREATE_FAILED" x));;
      Done (Ok (NameXChaCha20v1, EmptyString, Some k)))
    else bfails (ErrCode "EVENTBUS_SENSITIVE_EVENT_NO_DEK_MANAGER" "publisher has no DEK manager wired")
  else
    given (pb_selector p (he_Subject e)) (fun x => bfails (ErrWrapCode "EVENTBUS_CODEC_SELECT_FAILED" x)) (fun s =>
    Done (Ok (s.1, s.2, None))).

(** The key to encode with: the DEK, none for identity, or the label's. *)
Definition encode_key (p : Publisher) (codecName label : string) (dek : option Key) : result Key :=
  match dek with
  | Some k => Ok k
  | None =>
      if String.eqb codecName NameIdentity then Ok NoKey
      else match pb_keys p with
           | None => Err (ErrCode "EVENTBUS_KEY_PROVIDER_MISSING" "non-identity codec requires a KeyProvider")
           | Some active => match active label with
                            | Err x => Err (ErrWrapCode "EVENTBUS_KEY_FETCH_FAILED" x)
                            | Ok k => Ok k
                            end
           end
  end.

Definition validate_event (p : Publisher) (e : HostEvent) : result unit :=
  if negb (pb_js p) then Err (ErrCode "EVENTBUS_PUBLISHER_NOT_READY" "JetStream context is nil")
  else if String.eqb (he_ID e) zero_id then Err (ErrCode "EVENTBUS_EVENT_ID_REQUIRED" "event ID required")
  else
    match NewSubject (he_Subject e) with
    | Err x => Err x
    | Ok _ =>
        match NewType (he_Type e) with
        | Err x => Err x
        | Ok _ =>
            if MaxPayloadSize <? zlen (he_Payload e)
            then Err (ErrWrapCode "EVENTBUS_PAYLOAD_TOO_LARGE" (ErrNew "eventbus: payload exceeds MaxPayloadSize"))
            else Ok tt
        end
    end.

(** The AEAD draws a nonce, the identity codec does not. *)
Definition nonce_for (c : Codec) : bprog string :=
  match c with IdentityCodec => Done EmptyString | XChaCha20Poly1305v1 => lift (asks ANonce) end.

Definition publish_error (x : error) : error :=
  if error_Is "context deadline exceeded" x
  then ErrWrapCode "EVENTBUS_PUBLISH_EXPIRED" (ErrNew "eventbus: publish retry exceeded dedup window")
  else ErrWrapCode "EVENTBUS_PUBLISH_FAILED" x.

(** The message of an event under a codec, a key and a nonce. *)
Definition seal_event (e : HostEvent) (codecName : string) (c : Codec) (key : Key) (dek : option Key) (nonce : string) : result Msg :=
  let envelope := envelope_of e in
  match (if he_Sensitive e then Build L envelope codecName (k_ID key) (k_Version key) else Ok EmptyString) with
  | Err x => Err (ErrWrapCode "EVENTBUS_AAD_BUILD_FAILED" x)
  | Ok aad =>
      match Encode L c nonce (he_Payload e) key aad with
      | Err x => Err (ErrWrapCode "EVENTBUS_CODEC_ENCODE_FAILED" x)
      | Ok ciphertext =>
          match marshalEvent L (set_payload envelope ciphertext) with
          | Err x => Err (ErrWrapCode "EVENTBUS_ENVELOPE_MARSHAL_FAILED" x)
          | Ok data =>
              Ok (mkMsg (he_Subject e) data
                    (stamp_headers e codecName ((fun k => (k_ID k, k_Version k)) <$> dek)))
          end
      end
  end.

Definition Publish (p : Publisher) (e : HostEvent) : bprog (result unit) :=
  given (validate_event p e) bfails (fun _ =>
  sel <~ select_codec p e @@ bfails;;
  let '(codecName, label, dek) := sel in
  given (codec_Resolve codecName) (fun x => bfails (ErrWrapCode "EVENTBUS_CODEC_UNKNOWN" x)) (fun c =>
  given (encode_key p codecName label dek) bfails (fun key =>
  nonce ← nonce_for c;
  given (seal_event e codecName c key dek nonce) bfails (fun msg =>
  r ← Programs.call (PublishMsg (dupeWindowDeadline p) msg);
  match r with
  | Some x => bfails (publish_error x)
  | None => Done (Ok tt)
  end)))).

(** ** Rendering *)
Record VerbRegistration : Type := mkVerb {
  vr_Category : string;
  vr_Format : string;
  vr_Label : string;
  vr_DisplayTarget : Z;
  vr_Source : string
}.

(** [core.VerbRegistry] as its lookups. *)
Record VerbRegistry : Type := mkVerbRegistry {
  verb_Lookup : string -> option VerbRegistration;
  verb_SourceVersion : string -> string
}.

Definition with_rendering (e : HostEvent) (r : RenderingMetadata) (h : gmap string string) : HostEvent :=
  mkHostEvent (he_ID e) (he_Seq e) (he_Subject e) (he_Type e) (he_Timestamp e) (he_Actor e) (he_Payload e)
    (he_Sensitive e) (Some r) h (he_MetadataOnly e) (he_NoPlaintextReason e).

Definition rendering_for (reg : VerbRegistry) (v : VerbRegistration) : RenderingMetadata :=
  mkRendering (vr_Category v) (vr_Format v) (vr_Label v) (vr_DisplayTarget v mod 256) (vr_Source v)
    (verb_SourceVersion reg (vr_Source v)).

(** What the wrapper hands on. *)
Definition render (reg : VerbRegistry) (e : HostEvent) : result HostEvent :=
  match verb_Lookup reg (he_Type e) with
  | None => Err (ErrCode "EMIT_UNKNOWN_VERB" "verb registry has no entry for event type")
  | Some v =>
      let r := rendering_for reg v in
      match rendering_json B r with
      | Err x => Err (ErrWrapCode "EMIT_HEADER_MARSHAL_FAILED" x)
      | Ok json =>
          if bool_decide (is_Some (he_Headers e !! headerRendering))
          then Err (ErrCode "EMIT_RESERVED_HEADER" "caller header collides with reserved system header")
          else match rendering_validate B r with
               | Err x => Err (ErrWrapCode "EMIT_VALIDATION_FAILED" x)
               | Ok _ => Ok (with_rendering e r (<[headerRendering := json]> (he_Headers e)))
               end
      end
  end.

Definition RenderingPublish (reg : VerbRegistry) (p : Publisher) (e : HostEvent) : bprog (result unit) :=
  given (render reg e) bfails (fun e' =>
  _ <~ Publish p e' @@ (fun x => bfails (ErrWrapCode "EMIT_PUBLISH_FAILED" x));;
  Done (Ok tt)).
End Publish.
