(* ===== verification/AuditProjection.v ===== *)
(** The audit projection: [internal/eventbus/audit] -- the header parser
    ([auditheader/auditheader.go]), the owners of subjects ([manifest_subjects.go]),
    the writing of rows, the handling of deliveries ([projection.go]), dead letters
    ([dlq.go]) and their replay ([replay.go]).

    Partitions of [events_audit] are left out but for an insert that fails. *)

From S2P Require Import Prelude GoStrings Sql Programs DekTypes EventCrypto DekStore DekManager BusTypes.

Open Scope string_scope.
Open Scope Z_scope.
Open Scope prog_scope.

(** ** Owners of subjects *)
Record SubjectOwner : Type := mkOwner { so_PluginName : string; so_Pattern : string }.
Definition host_owner : SubjectOwner := mkOwner EmptyString EmptyString.

Record ownerEntry : Type := mkOwnerEntry { oe_tokens : list string; oe_owner : SubjectOwner }.

Definition token_contains (c : ascii) (t : string) : bool := match cut c t with Some _ => true | None => false end.

Fixpoint validate_tokens (ts : list string) : result unit :=
  match ts with
  | [] => Ok tt
  | t :: ts' =>
      if is_empty t then Err (ErrCode "AUDIT_INVALID_SUBJECT_PATTERN" "empty token in pattern")
      else if token_contains "*" t && negb (String.eqb t "*")
      then Err (ErrCode "AUDIT_INVALID_SUBJECT_PATTERN" "'*' wildcard MUST occupy an entire token")
      else if token_contains ">" t then
        if negb (String.eqb t ">") then Err (ErrCode "AUDIT_INVALID_SUBJECT_PATTERN" "'>' wildcard MUST occupy an entire token")
        else match ts' with [] => Ok tt | _ => Err (ErrCode "AUDIT_INVALID_SUBJECT_PATTERN" "'>' wildcard MUST be the last token") end
      else validate_tokens ts'
  end.

Definition validatePattern (pattern : string) : result unit :=
  if is_empty pattern then Err (ErrCode "AUDIT_INVALID_SUBJECT_PATTERN" "empty subject pattern")
  else validate_tokens (Split "." pattern).

(** The map [seen], as the declarations it holds. *)
Fixpoint collect_owners (decls : list SubjectOwner) (seen : list SubjectOwner) : result (list SubjectOwner) :=
  match decls with
  | [] => Ok seen
  | d :: ds =>
      match validatePattern (so_Pattern d) with
      | Err e => Err e
      | Ok _ =>
          match find (fun o => String.eqb (so_Pattern o) (so_Pattern d)) seen with
          | Some o =>
              if String.eqb (so_PluginName o) (so_PluginName d) then collect_owners ds seen
              else Err (ErrWrapCode "AUDIT_SUBJECT_OWNERSHIP_CONFLICT" (ErrNew "eventbus: subject ownership conflict at startup"))
          | None => collect_owners ds (seen ++ [d])%list
          end
      end
  end.

Definition literalScore (ts : list string) : nat :=
  length (filter (fun t => negb (String.eqb t "*") && negb (String.eqb t ">") = true) ts).

(** Deeper first, then more literal. *)
Definition entry_before (a b : ownerEntry) : bool :=
  (length (oe_tokens b) <? length (oe_tokens a))%nat
  || (length (oe_tokens b) =? length (oe_tokens a))%nat && (literalScore (oe_tokens b) <=? literalScore (oe_tokens a))%nat.

(** [iter] is the order in which the map is iterated. *)
Definition NewOwnerMap (iter : list SubjectOwner -> list SubjectOwner) (decls : list SubjectOwner) : result (list ownerEntry) :=
  match collect_owners decls [] with
  | Err e => Err e
  | Ok seen => Ok (order_by entry_before ((fun d => mkOwnerEntry (Split "." (so_Pattern d)) d) <$> iter seen))
  end.

Fixpoint matches (pattern concrete : list string) : bool :=
  match pattern, concrete with
  | [], [] => true
  | [], _ :: _ => false
  | p :: ps, [] => false
  | p :: ps, c :: cs =>
      if String.eqb p ">" then true
      else if String.eqb p "*" then matches ps cs
      else String.eqb p c && matches ps cs
  end.

Definition Resolve_owner (m : list ownerEntry) (subject : string) : SubjectOwner :=
  match find (fun e => matches (oe_tokens e) (Split "." subject)) m with
  | Some e => oe_owner e
  | None => host_owner
  end.

(** ** Headers *)
Record Metadata : Type := mkMetadata {
  md_Codec : string;
  md_SchemaVer : Z;
  md_DEKRef : option Z;
  md_DEKVersion : option Z
}.

Definition missing_header : error := ErrCode "AUDIT_MISSING_HEADER" "missing header".

(** An optional non-negative integer header. *)
Definition dek_header (code : string) (bits : Z) (v : string) : result (option Z) :=
  if is_empty v then Ok None
  else match ParseInt bits v with
       | Ok z => if z <? 0 then Err (ErrCode code "must be a non-negative integer") else Ok (Some z)
       | Err _ => Err (ErrCode code "must be a non-negative integer")
       end.

Section Projection.
Context (B : BusLib).

Definition Parse (h : Header) : result Metadata :=
  let codec := HGet B HeaderCodec h in
  if is_empty codec then Err missing_header
  else
    let schemaVerStr := HGet B HeaderSchemaVersion h in
    if is_empty schemaVerStr then Err missing_header
    else
      match ParseInt 32 schemaVerStr with
      | Err _ => Err (ErrCode "AUDIT_BAD_SCHEMA_VERSION" "schema version out of range or non-numeric")
      | Ok ver =>
          if (ver <? 0) || (32767 <? ver)
          then Err (ErrCode "AUDIT_BAD_SCHEMA_VERSION" "schema version out of range or non-numeric")
          else
            ref ← dek_header "AUDIT_DEK_REF_PARSE_FAILED" 64 (HGet B HeaderDekRef h);
            dekver ← dek_header "AUDIT_DEK_VERSION_PARSE_FAILED" 32 (HGet B HeaderDekVersion h);
            Ok (mkMetadata codec ver ref dekver)
      end.

(** ** Deliveries

    The stream's sequence number and store time of a message, and how often it was
    delivered. *)
Record MsgMetadata : Type := mkMsgMetadata { mm_Sequence : Z; mm_Timestamp : Z; mm_NumDelivered : Z }.

Record Delivery : Type := mkDelivery { dl_Msg : Msg; dl_Metadata : result MsgMetadata }.

(** The row of a message, by its event id. *)
Definition audit_row (subject : string) (d : Delivery) : result (string * audit_rec) :=
  let h := msg_Header (dl_Msg d) in
  let msgID := HGet B HeaderMsgID h in
  if is_empty msgID then Err missing_header
  else
    parsed ← Parse h;
    let eventType := HGet B HeaderEventType h in
    if is_empty eventType then Err missing_header
    else
      let renderingJSON := HGet B headerRendering h in
      if is_empty renderingJSON then Err missing_header
      else
        match dl_Metadata d with
        | Err x => Err (ErrWrapCode "AUDIT_METADATA_FAILED" x)
        | Ok meta =>
            let kind := HGet B HeaderActorKind h in
            let actorKind := if is_empty kind then "system" else kind in
            let v := HGet B HeaderActorID h in
            match (if is_empty v then Ok None else (i ← ulid_Parse B v; Ok (Some i))) with
            | Err x => Err (ErrWrapCode "AUDIT_BAD_ACTOR_ID" x)
            | Ok actorID =>
                match ulid_Parse B msgID with
                | Err x => Err (ErrWrapCode "AUDIT_BAD_MSG_ID" (ErrWrapCode "AUDIT_BAD_ULID" x))
                | Ok idBytes =>
                    Ok (idBytes, mkAuditRec subject eventType (mm_Timestamp meta) actorKind actorID (msg_Data (dl_Msg d))
                                   (md_SchemaVer parsed) (md_Codec parsed) (mm_Sequence meta) renderingJSON
                                   (md_DEKRef parsed) (md_DEKVersion parsed))
                end
            end
        end.

(** [INSERT ... ON CONFLICT (id, event_ms) DO NOTHING]; [event_ms] is a function of
    the id. *)
Definition insert_audit (id : string) (r : audit_rec) : tx unit :=
  if negb (int8_ok (au_js_seq r)) then fail (sql_error "js_seq is greater than maximum value for int8")
  else if negb (json_valid B (au_rendering r)) then fail (sql_error "invalid input syntax for type json")
  else write (fun db => if bool_decide (is_Some (db_audit db !! id)) then db else set_audit db (<[id := r]> (db_audit db))).

Definition writeAuditRow (subject : string) (d : Delivery) : bprog (result unit) :=
  given (audit_row subject d) bfails (fun row =>
  _ <~ lift (db (fun _ => insert_audit row.1 row.2)) @@ (fun x => bfails (ErrWrapCode "AUDIT_INSERT_FAILED" x));;
  Done (Ok tt)).

(** [persist] adds a deadline. *)
Definition persist (d : Delivery) : bprog (result unit) := writeAuditRow (msg_Subject (dl_Msg d)) d.

(** What the handler tells the broker. *)
Inductive ack : Type := Ack | Term | NoAck.

(** [dlqPublisher.Capture]. *)
Definition Capture (dlqSubject : string) (m : Msg) : bprog (result unit) :=
  r ← Programs.call (CaptureDLQ (mkMsg (dlqSubject +:+ "." +:+ msg_Subject m) (msg_Data m) (msg_Header m)));
  Done (match r with Some x => Err (ErrWrapCode "AUDIT_DLQ_PUBLISH_FAILED" x) | None => Ok tt end).

Definition handle (owners : option (list ownerEntry)) (maxDeliver : Z) (dlqSubject : string) (d : Delivery) : bprog ack :=
  let owned := match owners with
               | Some m => negb (is_empty (so_PluginName (Resolve_owner m (msg_Subject (dl_Msg d)))))
               | None => false
               end in
  if owned then Done Ack
  else
    r ← persist d;
    match r with
    | Ok _ => Done Ack
    | Err _ =>
        match dl_Metadata d with
        | Ok meta =>
            if (0 <? maxDeliver) && (maxDeliver <=? mm_NumDelivered meta) then
              c ← Capture dlqSubject (dl_Msg d);
              Done (match c with Ok _ => Term | Err _ => NoAck end)
            else Done NoAck
        | Err _ => Done NoAck
        end
    end.

(** ** Replay of dead letters *)
Definition originalSubject (dlqSubject prefix : string) : string * bool :=
  if is_empty prefix then (dlqSubject, false)
  else if HasPrefix dlqSubject (prefix +:+ ".") then
    let stripped := TrimPrefix dlqSubject (prefix +:+ ".") in
    if is_empty stripped then (dlqSubject, false) else (stripped, true)
  else (dlqSubject, false).

Record ReplayResult : Type := mkReplayResult { rr_Scanned : Z; rr_Replayed : Z; rr_Skipped : Z; rr_Failed : Z }.

Definition skipped (r : ReplayResult) : ReplayResult := mkReplayResult (rr_Scanned r) (rr_Replayed r) (rr_Skipped r + 1) (rr_Failed r).
Definition failed (r : ReplayResult) : ReplayResult := mkReplayResult (rr_Scanned r) (rr_Replayed r) (rr_Skipped r) (rr_Failed r + 1).
Definition replayed (r : ReplayResult) : ReplayResult := mkReplayResult (rr_Scanned r) (rr_Replayed r + 1) (rr_Skipped r) (rr_Failed r).

(** Whether to go on, and the counters; [ACancelled] is [ctx.Err()]. *)
Definition replayOne (wantMsgID prefix : string) (d : Delivery) (result : ReplayResult) : bprog (bool * ReplayResult) :=
  if negb (is_empty wantMsgID) && negb (String.eqb (HGet B HeaderMsgID (msg_Header (dl_Msg d))) wantMsgID)
  then Done (true, skipped result)
  else
    let '(subject, ok) := originalSubject (msg_Subject (dl_Msg d)) prefix in
    if negb ok then Done (true, failed result)
    else
      r ← writeAuditRow subject d;
      match r with
      | Ok _ => Done (true, replayed result)
      | Err _ =>
          cancelled ← lift (asks ACancelled);
          Done (if cancelled : bool then (false, result) else (true, failed result))
      end.
End Projection.
