(* ===== verification/AuthGuard.v ===== *)
(** Who may read a sensitive event: [internal/eventbus/authguard] -- identities
    ([identity.go]), the guard ([guard.go]) with its adapters, and the manifest
    declarations it consults ([internal/plugin/manager.go], [crypto_manifest.go]).

    The guard asks the DEK manager for the participants of the key, the manifests,
    the policy engine and the audit queue.  A panic of [access.PluginSubject] is an
    error of the check. *)

From S2P Require Import Prelude GoStrings Sql Programs EntityRef PolicyTypes DekTypes EventCrypto DekStore DekManager BusTypes.

Open Scope string_scope.
Open Scope Z_scope.
Open Scope prog_scope.

(** ** Identities *)
Definition invalid_identity (field : string) : error :=
  ErrCode "AUTHGUARD_IDENTITY_INVALID" ("identity requires non-empty " +:+ field).

Definition NewCharacterIdentity (playerID characterID bindingID : string) : result Identity :=
  if is_empty playerID then Err (invalid_identity "playerID")
  else if is_empty characterID then Err (invalid_identity "characterID")
  else if is_empty bindingID then Err (invalid_identity "bindingID")
  else Ok (mkIdentity IdentityKindCharacter playerID characterID bindingID EmptyString EmptyString).

Definition NewPlayerIdentity (playerID : string) : result Identity :=
  if is_empty playerID then Err (invalid_identity "playerID")
  else Ok (mkIdentity IdentityKindPlayer playerID EmptyString EmptyString EmptyString EmptyString).

Definition NewPluginIdentity (pluginName instanceID : string) : result Identity :=
  if is_empty pluginName then Err (invalid_identity "pluginName")
  else if is_empty instanceID then Err (invalid_identity "instanceID")
  else Ok (mkIdentity IdentityKindPlugin EmptyString EmptyString EmptyString pluginName instanceID).

Definition NewOperatorIdentity : Identity :=
  mkIdentity IdentityKindOperator EmptyString EmptyString EmptyString EmptyString EmptyString.

(** ** Manifests *)
Record CryptoEmit : Type := mkCryptoEmit { cem_EventType : string; cem_Readback : bool }.
Record CryptoConsume : Type := mkCryptoConsume { cc_Subjects : list string; cc_RequestsDecryption : list string }.
Record CryptoSection : Type := mkCryptoSection { cs_Emits : list CryptoEmit; cs_Consumes : list CryptoConsume }.
Record Manifest : Type := mkManifest { mf_Name : string; mf_Crypto : option CryptoSection }.

(** The plugin manager's tables, as far as they are read here. *)
Record PluginManager : Type := mkPluginManager { pm_loaded : gmap string Manifest; pm_inflight : gmap string Manifest }.

Definition lookupManifest (m : PluginManager) (name : string) : option Manifest :=
  match pm_loaded m !! name with Some mf => Some mf | None => pm_inflight m !! name end.

Definition PluginRequestsDecryption (m : PluginManager) (pluginName eventType : string) : bool :=
  match lookupManifest m pluginName with
  | Some mf =>
      match mf_Crypto mf with
      | Some cs => existsb (fun c => existsb (fun ref => String.eqb ref eventType) (cc_RequestsDecryption c)) (cs_Consumes cs)
      | None => false
      end
  | None => false
  end.

Definition emitEntryMatchesWireType (pluginName entryType wireType : string) : bool :=
  String.eqb entryType wireType
  || negb (is_empty pluginName) && String.eqb (pluginName +:+ ":" +:+ entryType) wireType.

(** The first entry that matches decides. *)
Definition PluginCanReadBack (m : PluginManager) (pluginName eventType : string) : bool :=
  match lookupManifest m pluginName with
  | Some mf =>
      match mf_Crypto mf with
      | Some cs => match find (fun e => emitEntryMatchesWireType (mf_Name mf) (cem_EventType e) eventType) (cs_Emits cs) with
                   | Some e => cem_Readback e
                   | None => false
                   end
      | None => false
      end
  | None => false
  end.

(** [ManifestLookup]; the adapter of an absent manager refuses. *)
Record ManifestLookup : Type := mkManifestLookup {
  ml_RequestsDecryption : string -> string -> bool;
  ml_CanReadBack : string -> string -> bool
}.

Definition NewPluginManifestLookup (mgr : option PluginManager) : ManifestLookup :=
  match mgr with
  | None => mkManifestLookup (fun _ _ => false) (fun _ _ => false)
  | Some m => mkManifestLookup (PluginRequestsDecryption m) (PluginCanReadBack m)
  end.

(** ** The guard *)
Record CheckRequest : Type := mkCheckRequest {
  cr_Identity : Identity;
  cr_KeyID : Z;
  cr_KeyVersion : Z;
  cr_EventType : string;
  cr_EventID : string;
  cr_ReadBack : bool
}.

Inductive DecisionCode : Type :=
| DecisionCodeUnknown | PermitParticipant | PermitPlayerHistory | PermitPluginGrant | DenyNotParticipant
| DenyPlayerNeverParticipated | DenyPlayerNoABACGrant | DenyManifestDeclarationMissing | DenyNoABACGrant
| DenyOperatorUseAdminRPC | DenyAuditBackpressure | DenyUnknownIdentityKind | PermitPluginReadbackGrant
| DenyReadbackManifestMissing.

Record GuardDecision : Type := mkGuardDecision {
  gd_Permit : bool;
  gd_Code : DecisionCode;
  gd_GrantID : string;
  gd_ABACDecision : option Decision
}.

Definition deny (c : DecisionCode) : GuardDecision := mkGuardDecision false c zero_id None.
Definition permit (c : DecisionCode) : GuardDecision := mkGuardDecision true c zero_id None.

(** The manager whose participants are asked, and the manifests. *)
Record Guard : Type := mkGuard { gu_server : Server; gu_manifest : ManifestLookup }.

(** [New]: the four dependencies are present. *)
Definition New_guard (parts manifest abac bp : bool) (g : Guard) : result Guard :=
  if negb parts then Err (ErrCode "AUTHGUARD_DEPENDENCY_NIL" "nil ParticipantLookup")
  else if negb manifest then Err (ErrCode "AUTHGUARD_DEPENDENCY_NIL" "nil ManifestLookup")
  else if negb abac then Err (ErrCode "AUTHGUARD_DEPENDENCY_NIL" "nil ABACEngine")
  else if negb bp then Err (ErrCode "AUTHGUARD_DEPENDENCY_NIL" "nil BackpressureChecker")
  else Ok g.

(** ["dek:<id>:<version>"]. *)
Definition dek_resource (keyID version : Z) : string := "dek:" +:+ FormatUint keyID +:+ ":" +:+ FormatUint version.

Section Guard.
Context (B : BusLib) (g : Guard).

Definition mustParseULID (s : string) : string :=
  if is_empty s then zero_id else match ulid_Parse B s with Ok i => i | Err _ => zero_id end.

(** [NewDEKParticipantLookup]. *)
Definition lookup_participants (keyID version : Z) : bprog (result (list Participant)) :=
  ps <~ lift (Participants (gu_server g) keyID version) @@ (fun e => bfails (ErrWrapCode "AUTHGUARD_DEK_PARTICIPANTS_FAILED" e));;
  Done (Ok ps).

(** The engine's answer to a request that could be built. *)
Definition evaluate (req : result AccessRequest) : bprog (result Decision) :=
  given req (fun e => bfails (ErrWrapCode "AUTHGUARD_ABAC_REQUEST_FAILED" e)) (fun req =>
  d <~ Programs.call (EvaluateAccess req) @@ (fun e => bfails (ErrWrapCode "AUTHGUARD_ABAC_EVAL_FAILED" e));;
  Done (Ok d)).

(** The decision after the engine answered. *)
Definition abac_decision (d : Decision) (allowed denied : DecisionCode) : GuardDecision :=
  if IsAllowed d then mkGuardDecision true allowed (mustParseULID (d_policyID d)) (Some d)
  else mkGuardDecision false denied zero_id (Some d).

Definition checkCharacter (req : CheckRequest) : bprog (result GuardDecision) :=
  ps <~ lookup_participants (cr_KeyID req) (cr_KeyVersion req) @@ (fun e => bfails (ErrWrapCode "AUTHGUARD_PARTICIPANTS_FAILED" e));;
  if existsb (fun p => negb (is_empty (pa_BindingID p)) && String.eqb (pa_BindingID p) (id_BindingID (cr_Identity req))) ps
  then Done (Ok (permit PermitParticipant))
  else Done (Ok (deny DenyNotParticipant)).

Definition player_request (req : CheckRequest) : result AccessRequest :=
  NewAccessRequest ("player:" +:+ id_PlayerID (cr_Identity req)) "read_own_history"
    (dek_resource (cr_KeyID req) (cr_KeyVersion req)) ∅.

Definition checkPlayer (req : CheckRequest) : bprog (result GuardDecision) :=
  ps <~ lookup_participants (cr_KeyID req) (cr_KeyVersion req) @@ (fun e => bfails (ErrWrapCode "AUTHGUARD_PARTICIPANTS_FAILED" e));;
  if negb (existsb (fun p => negb (is_empty (pa_PlayerID p)) && String.eqb (pa_PlayerID p) (id_PlayerID (cr_Identity req))) ps)
  then Done (Ok (deny DenyPlayerNeverParticipated))
  else
    d <~ evaluate (player_request req) @@ bfails;;
    Done (Ok (abac_decision d PermitPlayerHistory DenyPlayerNoABACGrant)).

Definition plugin_request (subject : string) (req : CheckRequest) : result AccessRequest :=
  NewAccessRequest subject "decrypt" (dek_resource (cr_KeyID req) (cr_KeyVersion req))
    (<["event_type" := AString (cr_EventType req)]>
       (<["plugin_name" := AString (id_PluginName (cr_Identity req))]>
          (<["plugin_inst" := AString (id_InstanceID (cr_Identity req))]> ∅))).

Definition checkPlugin (req : CheckRequest) : bprog (result GuardDecision) :=
  let name := id_PluginName (cr_Identity req) in
  throttled ← Programs.call (ShouldThrottle name);
  if throttled : bool then Done (Ok (deny DenyAuditBackpressure))
  else if negb (ml_RequestsDecryption (gu_manifest g) name (cr_EventType req))
  then Done (Ok (deny DenyManifestDeclarationMissing))
  else match PluginSubject name with
       | Panic msg => bfails (ErrNew msg)
       | Return subject =>
           d <~ evaluate (plugin_request subject req) @@ bfails;;
           Done (Ok (abac_decision d PermitPluginGrant DenyNoABACGrant))
       end.

Definition checkPluginReadback (req : CheckRequest) : bprog (result GuardDecision) :=
  let name := id_PluginName (cr_Identity req) in
  throttled ← Programs.call (ShouldThrottle name);
  if throttled : bool then Done (Ok (deny DenyAuditBackpressure))
  else if negb (ml_CanReadBack (gu_manifest g) name (cr_EventType req))
  then Done (Ok (deny DenyReadbackManifestMissing))
  else Done (Ok (permit PermitPluginReadbackGrant)).

(** Also [SessionBridgeGuard.Check], which converts types field by field. *)
Definition Check (req : CheckRequest) : bprog (result GuardDecision) :=
  match id_Kind (cr_Identity req) with
  | IdentityKindCharacter => checkCharacter req
  | IdentityKindPlayer => checkPlayer req
  | IdentityKindPlugin => if cr_ReadBack req then checkPluginReadback req else checkPlugin req
  | IdentityKindOperator => Done (Ok (deny DenyOperatorUseAdminRPC))
  | IdentityKindUnknown => Done (Ok (deny DenyUnknownIdentityKind))
  end.
End Guard.
