(* ===== verification/HistoryRead.v ===== *)
(** Reading one archived or streamed event: [internal/eventbus/history] --
    [dispatcher.go], the decoding functions of [cold_postgres.go] and
    [hot_jetstream.go] -- and the key resolvers of [history/source].

    A read of a sensitive event asks the guard, resolves the key (falling back from
    the stream to the archive), opens the payload under the authenticated metadata
    and, for a plugin, queues a decrypt record. *)

From S2P Require Import Prelude GoStrings Sql Programs DekTypes EventCrypto DekStore DekManager BusTypes AuthGuard.

Open Scope string_scope.
Open Scope Z_scope.
Open Scope prog_scope.

(** ** Envelopes handed to a resolver *)
Record Envelope : Type := mkEnvelope {
  en_EventID : string;
  en_Codec : string;
  en_KeyID : Z;
  en_KeyVersion : Z;
  en_Payload : string
}.

Inductive Tier : Type := TierHot | TierColdFallback.

Record ResolvedSource : Type := mkResolved {
  rs_Envelope : Envelope;
  rs_Key : Key;
  rs_KeyID : Z;
  rs_KeyVersion : Z;
  rs_SourceTier : Tier
}.

Definition ErrMetadataOnly : error := ErrNew "source: both tiers indecipherable; deliver metadata-only".

(** A resolver and the server whose DEK manager it asks. *)
Inductive Resolver : Type := SimpleResolver (sv : Server) | FallbackResolver (sv : Server).

Definition isDEKMissing (e : error) : bool := has_code e "DEK_NOT_FOUND" || has_code e "DEK_DESTROYED".

Definition u64_wrap (z : Z) : Z := z mod 2 ^ 64.

(** The SELECT of [LookupByID]; the version is scanned into an unsigned integer. *)
Definition select_envelope (id : string) : tx (option Envelope) :=
  db ← read (fun db => db);
  match db_audit db !! id with
  | None => mret None
  | Some r =>
      let version := default 0 (au_dek_version r) in
      if version <? 0 then fail (sql_error "cannot scan a negative integer into *uint32")
      else mret (Some (mkEnvelope id (au_codec r) (u64_wrap (default 0 (au_dek_ref r))) version (au_envelope r)))
  end.

Definition LookupByID (id : string) : bprog (result (option Envelope)) :=
  r <~ lift (db (fun _ => select_envelope id)) @@ (fun e => bfails (ErrWrapCode "COLD_LOOKUP_QUERY_FAILED" e));;
  Done (Ok r).

Definition resolved_hot (env : Envelope) (k : Key) : ResolvedSource :=
  mkResolved env k (en_KeyID env) (en_KeyVersion env) TierHot.

Definition SimpleResolve (sv : Server) (env : Envelope) : bprog (result ResolvedSource) :=
  if String.eqb (en_Codec env) NameIdentity then Done (Ok (mkResolved env NoKey 0 0 TierHot))
  else
    k <~ lift (Resolve sv (en_KeyID env) (en_KeyVersion env)) @@ bfails;;
    Done (Ok (resolved_hot env k)).

Definition FallbackResolve (sv : Server) (hot : Envelope) : bprog (result ResolvedSource) :=
  if String.eqb (en_Codec hot) NameIdentity then Done (Ok (mkResolved hot NoKey 0 0 TierHot))
  else
    r ← lift (Resolve sv (en_KeyID hot) (en_KeyVersion hot));
    match r with
    | Ok k => Done (Ok (resolved_hot hot k))
    | Err e =>
        if negb (isDEKMissing e) then bfails e
        else
          cold <~ LookupByID (en_EventID hot) @@ (fun x => bfails (ErrWrapCode "EVENTBUS_SOURCE_COLD_LOOKUP_FAILED" x));;
          match cold with
          | None => bfails ErrMetadataOnly
          | Some coldEnv =>
              ck ← lift (Resolve sv (en_KeyID coldEnv) (en_KeyVersion coldEnv));
              match ck with
              | Err x => if negb (isDEKMissing x) then bfails (ErrWrapCode "DEK_RESOLVE_TRANSIENT" x) else bfails ErrMetadataOnly
              | Ok k => Done (Ok (mkResolved coldEnv k (en_KeyID coldEnv) (en_KeyVersion coldEnv) TierColdFallback))
              end
          end
    end.

Definition resolve_source (r : Resolver) : Envelope -> bprog (result ResolvedSource) :=
  match r with SimpleResolver sv => SimpleResolve sv | FallbackResolver sv => FallbackResolve sv end.

(** ** Dispatch *)

(** What a tier is wired with; [None] is nil. *)
Record ReadConfig : Type := mkReadConfig {
  rc_authGuard : option Guard;
  rc_dekManager : option Server;
  rc_auditEmitter : bool;
  rc_resolver : option Resolver;
  rc_selector : option (string -> result Key)    (* [SelectForDecrypt], hot tier *)
}.

Section Read.
Context (L : CryptoLib) (B : BusLib) (cfg : ReadConfig).

Definition event_id_of (env : Event) : string :=
  if (String.length (ev_Id env) =? 16)%nat then ev_Id env else zero_id.

Definition buildHistoryEventFromEnvelope (id : string) (env : Event) (payload : string) : HostEvent :=
  mkHostEvent id 0 (ev_Subject env) (ev_Type env) (default 0 (ev_Timestamp env)) (actorFromEnvelope (ev_Actor env))
    payload false (RenderingFromProto B (ev_Rendering env)) ∅ false NoPlaintextReasonUnspecified.

Definition with_reason (e : HostEvent) (r : NoPlaintextReason) : HostEvent :=
  mkHostEvent (he_ID e) (he_Seq e) (he_Subject e) (he_Type e) (he_Timestamp e) (he_Actor e) (he_Payload e)
    (he_Sensitive e) (he_Rendering e) (he_Headers e) (he_MetadataOnly e) r.

(** The event without its payload, and why. *)
Definition redacted (id : string) (env : Event) (r : NoPlaintextReason) : HostEvent * bool :=
  (with_reason (buildHistoryEventFromEnvelope id env EmptyString) r, true).

Definition isHistoryAuditQueueFull (e : error) : bool := has_code e "AUDIT_QUEUE_FULL".

Definition is_plugin (i : Identity) : bool :=
  match id_Kind i with IdentityKindPlugin => true | _ => false end.

(** From the key to the event: both dispatchers end this way. *)
Definition open_and_audit (env : Event) (ciphertext codecName : string) (key : Key) (keyID keyVersion : Z)
    (eventID : string) (identity : Identity) (grant : string) : bprog (result (HostEvent * bool)) :=
  given (Build L env codecName keyID keyVersion) (fun e => bfails (ErrWrapCode "EVENTBUS_AAD_BUILD_FAILED" e)) (fun aad =>
  given (codec_Resolve codecName) (fun e => bfails (ErrWrapCode "EVENTBUS_HISTORY_UNKNOWN_CODEC" e)) (fun c =>
  given (Decode L c ciphertext key aad) (fun e => bfails (ErrWrapCode "EVENTBUS_CODEC_DECODE_FAILED" e)) (fun plaintext =>
  let delivered := (buildHistoryEventFromEnvelope eventID env plaintext, false) in
  if is_plugin identity then
    if negb (rc_auditEmitter cfg)
    then bfails (ErrCode "EVENTBUS_HISTORY_AUDIT_EMITTER_NIL" "no DecryptAuditEmitter configured")
    else
      r ← Programs.call (EmitPluginDecrypt (mkDecryptRecord (id_PluginName identity) (id_InstanceID identity) eventID
            (ev_Subject env) (ev_Type env) keyID keyVersion grant));
      match r with
      | None => Done (Ok delivered)
      | Some e =>
          if isHistoryAuditQueueFull e then Done (Ok (redacted eventID env NoPlaintextReasonAuditQueueFull))
          else bfails (ErrCode "EVENTBUS_HISTORY_AUDIT_EMIT_FAILED" "plugin decrypt audit emit failed")
      end
  else Done (Ok delivered)))).

(** The identity codec passes; otherwise the guard decides, and [k] goes on from
    its permit. *)
Definition authorised (env : Event) (codecName : string) (keyID keyVersion : Z) (identity : Identity) (readBack : bool)
    (k : string -> GuardDecision -> bprog (result (HostEvent * bool))) : bprog (result (HostEvent * bool)) :=
  let eventID := event_id_of env in
  if String.eqb codecName NameIdentity
  then Done (Ok (buildHistoryEventFromEnvelope eventID env (ev_Payload env), false))
  else
    match rc_authGuard cfg with
    | None => bfails (ErrCode "EVENTBUS_HISTORY_AUTH_GUARD_NIL" "encrypted history read requires AuthGuard")
    | Some g =>
        decision <~ Check B g (mkCheckRequest identity keyID keyVersion (ev_Type env) eventID readBack)
          @@ (fun e => bfails (ErrWrapCode "EVENTBUS_AUTHGUARD_CHECK_FAILED" e));;
        if negb (gd_Permit decision) then Done (Ok (redacted eventID env NoPlaintextReasonAuthGuardDeny))
        else k eventID decision
    end.

Definition DispatchFor (env : Event) (codecName : string) (keyID keyVersion : Z) (identity : Identity)
    : bprog (result (HostEvent * bool)) :=
  authorised env codecName keyID keyVersion identity false (fun eventID decision =>
  match rc_resolver cfg with
  | None => bfails (ErrCode "EVENTBUS_HISTORY_RESOLVER_NIL" "AuthGuard permitted decrypt but SourceResolver is nil")
  | Some res =>
      r ← resolve_source res (mkEnvelope eventID codecName keyID keyVersion (ev_Payload env));
      match r with
      | Err e =>
          if error_Is "source: both tiers indecipherable; deliver metadata-only" e
          then Done (Ok (redacted eventID env NoPlaintextReasonStaleDEK))
          else bfails (ErrWrapCode "EVENTBUS_SOURCE_RESOLVE_FAILED" e)
      | Ok resolved =>
          match rs_SourceTier resolved with
          | TierColdFallback =>
              given (unmarshalEvent L (en_Payload (rs_Envelope resolved)))
                (fun e => bfails (ErrWrapCode "EVENTBUS_SOURCE_COLD_UNMARSHAL_FAILED" e)) (fun coldProto =>
              open_and_audit coldProto (ev_Payload coldProto) codecName (rs_Key resolved) (rs_KeyID resolved)
                (rs_KeyVersion resolved) eventID identity (gd_GrantID decision))
          | TierHot =>
              open_and_audit env (en_Payload (rs_Envelope resolved)) codecName (rs_Key resolved) (rs_KeyID resolved)
                (rs_KeyVersion resolved) eventID identity (gd_GrantID decision)
          end
      end
  end).

Definition decodeAuthorizeAndDispatch (env : Event) (codecName : string) (keyID keyVersion : Z) (identity : Identity)
    (readBack : bool) : bprog (result (HostEvent * bool)) :=
  authorised env codecName keyID keyVersion identity readBack (fun eventID decision =>
  match rc_dekManager cfg with
  | None => bfails (ErrCode "EVENTBUS_HISTORY_DEK_MANAGER_NIL" "AuthGuard permitted decrypt but DEKManager is nil")
  | Some sv =>
      key <~ lift (Resolve sv keyID keyVersion) @@ (fun e => bfails (ErrWrapCode "EVENTBUS_DEK_RESOLVE_FAILED" e));;
      open_and_audit env (ev_Payload env) codecName key keyID keyVersion eventID identity (gd_GrantID decision)
  end).

(** ** Rows of the archive *)
Definition dispatch (env : Event) (codecName : string) (keyID keyVersion : Z) (identity : Identity)
    : bprog (result (HostEvent * bool)) :=
  match rc_resolver cfg with
  | Some _ => DispatchFor env codecName keyID keyVersion identity
  | None => decodeAuthorizeAndDispatch env codecName keyID keyVersion identity false
  end.

Definition decodeColdRow (row : audit_rec) (identity : Identity) : bprog (result (HostEvent * bool)) :=
  given (unmarshalEvent L (au_envelope row)) (fun e => bfails (ErrWrapCode "AUDIT_ENVELOPE_UNMARSHAL_FAILED" e)) (fun env =>
  if String.eqb (au_codec row) NameIdentity then dispatch env (au_codec row) 0 0 identity
  else
    match au_dek_ref row, au_dek_version row with
    | Some ref, Some version =>
        if (ref <? 0) || (version <? 0)
        then bfails (ErrCode "EVENTBUS_COLD_BAD_DEK_COLUMNS" "sensitive audit row has invalid (negative) DEK column values")
        else dispatch env (au_codec row) ref version identity
    | _, _ => bfails (ErrCode "EVENTBUS_COLD_DEK_COLUMNS_MISSING" "sensitive audit row missing required DEK columns")
    end).

(** ** Messages of the stream *)
Definition parseDEKHeaders (dekRef dekVersion : string) : result (Z * Z) :=
  match ParseUint 63 dekRef with
  | Err e => Err (ErrWrapCode "EVENTBUS_DEK_HEADER_PARSE_FAILED" e)
  | Ok ref => match ParseUint 32 dekVersion with
              | Err e => Err (ErrWrapCode "EVENTBUS_DEK_HEADER_PARSE_FAILED" e)
              | Ok ver => Ok (ref, ver)
              end
  end.

(** [decodeViaResolver] and [decodeAndAuthorizeHistory]. *)
Definition dispatch_message (h : Header) (env : Event) (codecName : string) (identity : Identity)
    : bprog (result (HostEvent * bool)) :=
  let dekRef := HGet B HeaderDekRef h in
  let dekVersion := HGet B HeaderDekVersion h in
  if is_empty dekRef || is_empty dekVersion
  then bfails (ErrCode "EVENTBUS_HISTORY_DEK_HEADER_MISSING" "sensitive codec event missing required DEK headers")
  else given (parseDEKHeaders dekRef dekVersion) bfails (fun kv => dispatch env codecName kv.1 kv.2 identity).

Definition with_metadata_only (e : HostEvent) (b : bool) : HostEvent :=
  mkHostEvent (he_ID e) (he_Seq e) (he_Subject e) (he_Type e) (he_Timestamp e) (he_Actor e) (he_Payload e)
    (he_Sensitive e) (he_Rendering e) (he_Headers e) b (he_NoPlaintextReason e).

Definition set_id (e : Event) (id : string) : Event :=
  mkEvent id (ev_Subject e) (ev_Type e) (ev_Timestamp e) (ev_Actor e) (ev_Payload e) (ev_Rendering e).

(** Without a guard: the selector's key and no authenticated metadata. *)
Definition decode_unguarded (c : Codec) (codecName payload : string) : result string :=
  match (match rc_selector cfg with Some sel => sel codecName | None => Ok NoKey end) with
  | Err e => Err (ErrWrapCode "EVENTBUS_HISTORY_KEY_FETCH_FAILED" e)
  | Ok key => match Decode L c payload key EmptyString with
              | Err e => Err (ErrWrapCode "EVENTBUS_HISTORY_DECODE_FAILED" e)
              | Ok p => Ok p
              end
  end.

Definition decodeJetStreamMessage (m : Msg) (identity : Identity) : bprog (result HostEvent) :=
  let h := msg_Header m in
  let msgID := HGet B HeaderMsgID h in
  let missing := bfails (ErrCode "EVENTBUS_HISTORY_MISSING_HEADER" "missing header") in
  if is_empty msgID then missing
  else given (ulid_Parse B msgID) (fun e => bfails (ErrWrapCode "EVENTBUS_HISTORY_BAD_MSG_ID" e)) (fun id =>
  let codecName := HGet B HeaderCodec h in
  if is_empty codecName then missing
  else given (codec_Resolve codecName) (fun e => bfails (ErrWrapCode "EVENTBUS_HISTORY_UNKNOWN_CODEC" e)) (fun c =>
  given (unmarshalEvent L (msg_Data m)) (fun e => bfails (ErrWrapCode "EVENTBUS_HISTORY_UNMARSHAL_FAILED" e)) (fun env =>
  let env := set_id env id in
  if String.eqb codecName NameIdentity then Done (Ok (buildHistoryEventFromEnvelope id env (ev_Payload env)))
  else
    match rc_authGuard cfg with
    | Some _ =>
        r <~ dispatch_message h env codecName identity @@ bfails;;
        Done (Ok (with_metadata_only r.1 r.2))
    | None =>
        given (decode_unguarded c codecName (ev_Payload env)) bfails (fun p =>
        Done (Ok (buildHistoryEventFromEnvelope id env p)))
    end))).
End Read.
