(* ===== verification/BusFacts.v ===== *)
(** Facts about messages, headers and envelopes: what a publisher stamped a reader
    finds, and what it sealed a reader can rebuild, of a message or a row, under the
    keys the database holds. *)

From S2P Require Import Prelude GoStrings Sql Programs DekTypes EventCrypto DekStore DekManager DekInv DekSafety BusTypes EventPublish AuditProjection HistoryRead.

Open Scope string_scope.
Open Scope Z_scope.

(** ** Headers *)
Section Headers.
Context (B : BusLib) `{!BusLaws B}.

Lemma HGet_HSet k v h : HGet B k (HSet B k v h) = v.
Proof. unfold HGet, HSet. by rewrite lookup_insert_eq. Qed.

Lemma HGet_HSet_ne a b v h : CanonicalMIMEHeaderKey a <> CanonicalMIMEHeaderKey b -> HGet B a (HSet B b v h) = HGet B a h.
Proof. intros Hne. unfold HGet, HSet. rewrite lookup_insert_ne; [done|]. intros E. by apply Hne, (one_entry (B:=B)). Qed.

Lemma HGet_empty k : HGet B k ∅ = EmptyString.
Proof. unfold HGet. by rewrite lookup_empty. Qed.

Lemma system_canonical k : k ∈ system_headers -> CanonicalMIMEHeaderKey k = k /\ k ∈ reservedHeaderKeys.
Proof.
  intros Hk. assert (E : Forall (fun k => CanonicalMIMEHeaderKey k = k /\ k ∈ reservedHeaderKeys) system_headers).
  { repeat constructor; set_solver. }
  by apply (proj1 (Forall_forall _ _) E).
Qed.

(** A fold that sets entries of other names leaves the entry. *)
Lemma fold_HSet_keeps k (skip : string -> bool) (l : list (string * string)) h :
  (forall kv, kv ∈ l -> skip kv.1 = false -> CanonicalMIMEHeaderKey kv.1 <> CanonicalMIMEHeaderKey k) ->
  HGet B k (fold_left (fun h kv => if skip kv.1 then h else HSet B kv.1 kv.2 h) l h) = HGet B k h.
Proof.
  revert h. induction l as [|kv l IH]; intros h Hl; [done|]. cbn [fold_left]. rewrite IH by set_solver.
  destruct (skip kv.1) eqn:E; [done|]. rewrite HGet_HSet_ne; [done|]. apply not_eq_sym, Hl; [apply list_elem_of_here|done].
Qed.

(** No caller and no propagator replaces a system header. *)
Lemma merge_keeps k caller h : k ∈ system_headers -> HGet B k (mergeCallerHeaders B caller h) = HGet B k h.
Proof.
  intros Hk. destruct (system_canonical k Hk) as [Hc Hr]. apply (fold_HSet_keeps k reserved_header). intros kv _.
  unfold reserved_header. rewrite orb_false_iff, bool_decide_eq_false, Hc. intros [Hn _] E. by rewrite E in Hn.
Qed.

Lemma inject_keeps k h : k ∈ system_headers -> HGet B k (InjectHeaders B h) = HGet B k h.
Proof.
  intros Hk. destruct (system_canonical k Hk) as [Hc Hr]. apply (fold_HSet_keeps k (fun _ => false)).
  intros [a v] Hkv _ E. apply (inject_own a v Hkv). cbn in *. rewrite E, Hc. by apply list_elem_of_further.
Qed.

(** The entry of one name after others were set. *)
Ltac headers := repeat first [rewrite HGet_HSet | rewrite HGet_HSet_ne by (vm_compute; discriminate)].

Lemma stamped e codecName dek k :
  k ∈ system_headers ->
  HGet B k (stamp_headers B e codecName dek)
  = if String.eqb k HeaderMsgID then ulid_String B (he_ID e)
    else if String.eqb k HeaderSchemaVersion then SchemaVersion
    else if String.eqb k HeaderEventType then he_Type e
    else if String.eqb k HeaderCodec then codecName
    else if String.eqb k HeaderActorKind then ActorKind_String (ha_Kind (he_Actor e))
    else if String.eqb k HeaderDekRef then from_option (fun d => FormatUint d.1) EmptyString dek
    else from_option (fun d => FormatUint d.2) EmptyString dek.
Proof.
  intros Hk. unfold stamp_headers. rewrite inject_keeps, merge_keeps by done.
  assert (Hactor : forall h, HGet B k (if String.eqb (ha_ID (he_Actor e)) zero_id then h
            else HSet B HeaderActorID (ulid_String B (ha_ID (he_Actor e))) h) = HGet B k h).
  { intros h. case_match; [done|]. rewrite HGet_HSet_ne; [done|]. destruct (system_canonical k Hk) as [-> _].
    intros E. rewrite E in Hk. vm_compute in Hk. set_solver. }
  rewrite Hactor. clear Hactor. unfold system_headers in Hk. rewrite !elem_of_cons, elem_of_nil in Hk.
  destruct dek as [ [ref ver] |]; decompose [or] Hk; subst; try done; headers; try done; by rewrite HGet_empty.
Qed.
End Headers.

(** ** What an event becomes *)
Record well_formed (e : HostEvent) : Prop := mkWellFormed {
  wf_id : String.length (he_ID e) = 16%nat;
  wf_actor : String.length (ha_ID (he_Actor e)) = 16%nat;
  wf_rendering : forall r, he_Rendering e = Some r -> 0 <= rm_DisplayTarget r < 256
}.

(** What a reader is handed of an event it may read. *)
Definition delivered (e : HostEvent) : HostEvent :=
  mkHostEvent (he_ID e) 0 (he_Subject e) (he_Type e) (he_Timestamp e) (he_Actor e) (he_Payload e) false
    (he_Rendering e) ∅ false NoPlaintextReasonUnspecified.

Section Messages.
Context (L : CryptoLib) (B : BusLib) `{!CryptoLaws L, !BusLaws B}.

Lemma event_id_stamped e ct : String.length (he_ID e) = 16%nat -> event_id_of (set_payload (envelope_of B e) ct) = he_ID e.
Proof. intros Hl. unfold event_id_of. cbn. by rewrite Hl. Qed.

(** The envelope carries the event. *)
Lemma build_delivered e ct : well_formed e ->
  buildHistoryEventFromEnvelope B (he_ID e) (set_payload (envelope_of B e) ct) (he_Payload e) = delivered e.
Proof.
  intros [Hi Ha Hr]. destruct e as [id sq su ty ts [k a] p se re hd mo np]. cbn in *.
  unfold buildHistoryEventFromEnvelope, delivered. cbn. f_equal.
  - unfold ActorToProto. cbn. unfold actorFromEnvelope. cbn. f_equal; [by destruct k|].
    destruct (String.eqb_spec a zero_id) as [->|Hne]; cbn; [done|]. by rewrite Ha.
  - destruct re as [r|]; [|done]. cbn. rewrite decode_rendering. specialize (Hr r eq_refl). destruct r as [c f l d s v].
    cbn in *. unfold as_host_rendering. cbn. do 2 f_equal. by apply Z.mod_small.
Qed.

(** The headers as the archive reads them. *)
Definition storable (dek : option (Z * Z)) : Prop :=
  forall d, dek = Some d -> 0 <= d.1 < 2 ^ 63 /\ 0 <= d.2 < 2 ^ 31.

Lemma dek_header_stamped code bits (z : option Z) :
  (forall x, z = Some x -> 0 <= x < 2 ^ (bits - 1)) ->
  dek_header code bits (from_option FormatUint EmptyString z) = Ok z.
Proof.
  intros Hz. unfold dek_header. destruct z as [x|]; [|done]. cbn. specialize (Hz x eq_refl).
  rewrite FormatUint_nonempty, ParseInt_FormatUint by done. destruct (Z.ltb_spec x 0); [lia|done].
Qed.

Lemma from_option_fst (dek : option (Z * Z)) : from_option (fun d => FormatUint d.1) EmptyString dek = from_option FormatUint EmptyString (fst <$> dek).
Proof. by destruct dek. Qed.
Lemma from_option_snd (dek : option (Z * Z)) : from_option (fun d => FormatUint d.2) EmptyString dek = from_option FormatUint EmptyString (snd <$> dek).
Proof. by destruct dek. Qed.

Ltac sys := unfold system_headers; set_solver.

Lemma Parse_stamped e codecName dek : storable dek -> codecName <> EmptyString ->
  Parse B (stamp_headers B e codecName dek) = Ok (mkMetadata codecName 1 (fst <$> dek) (snd <$> dek)).
Proof.
  intros Hd Hc. unfold Parse. rewrite !stamped by sys. cbn [String.eqb Ascii.eqb Bool.eqb HeaderCodec HeaderSchemaVersion HeaderMsgID HeaderEventType HeaderActorKind HeaderDekRef HeaderDekVersion].
  rewrite (proj2 (is_empty_false codecName) Hc). change (is_empty SchemaVersion) with false. change (ParseInt 32 SchemaVersion) with (Ok 1 : result Z).
  cbn [Z.ltb Z.compare orb]. rewrite from_option_fst, from_option_snd, !dek_header_stamped; [done|..].
  - intros x Hx. destruct dek as [d|]; [|done]. cbn in Hx. injection Hx as <-. destruct (Hd d eq_refl). lia.
  - intros x Hx. destruct dek as [d|]; [|done]. cbn in Hx. injection Hx as <-. destruct (Hd d eq_refl). lia.
Qed.

Definition row_of_message (e : HostEvent) (codecName : string) (dek : option (Z * Z)) (data : string) (r : audit_rec) : Prop :=
  au_subject r = he_Subject e /\ au_type r = he_Type e /\ au_envelope r = data /\ au_codec r = codecName
  /\ au_dek_ref r = fst <$> dek /\ au_dek_version r = snd <$> dek /\ au_schema_ver r = 1
  /\ au_actor_kind r = ActorKind_String (ha_Kind (he_Actor e)).

Lemma audit_row_stamped e codecName dek data d id row :
  String.length (he_ID e) = 16%nat -> storable dek -> codecName <> EmptyString ->
  dl_Msg d = mkMsg (he_Subject e) data (stamp_headers B e codecName dek) ->
  audit_row B (he_Subject e) d = Ok (id, row) ->
  id = he_ID e /\ row_of_message e codecName dek data row.
Proof.
  intros Hid Hd Hc Hm. unfold audit_row. rewrite Hm. cbn [msg_Header msg_Data]. rewrite Parse_stamped by done.
  rewrite (stamped B e _ _ HeaderMsgID), (stamped B e _ _ HeaderEventType), (stamped B e _ _ HeaderActorKind) by sys.
  cbn [String.eqb Ascii.eqb Bool.eqb HeaderCodec HeaderSchemaVersion HeaderMsgID HeaderEventType HeaderActorKind HeaderDekRef HeaderDekVersion].
  destruct (is_empty (ulid_String B (he_ID e))); [done|]. cbn [mbind result_bind].
  destruct (is_empty (he_Type e)); [done|]. destruct (is_empty (HGet B headerRendering _)); [done|].
  destruct (dl_Metadata d) as [meta|x]; [|done]. rewrite parse_ulid by done.
  destruct (if is_empty _ then Ok None else _) as [aid|x]; [|done]. intros [= <- <-]. split; [done|].
  unfold row_of_message. cbn. do 7 (split; [done|]). by destruct (ha_Kind (he_Actor e)).
Qed.
End Messages.

Open Scope string_scope.
Open Scope Z_scope.

Section Seal.
Context `{fate : Fate} (L : CryptoLib) (B : BusLib) `{!CryptoLaws L, !BusLaws B} (ulid : string -> string).

(** The payload of [env] opens to [p] under the stored material of a key. *)
Definition sealed_under (s : St) (env : Event) (codecName : string) (id v : Z) (p : string) : Prop :=
  exists m aad c, material L (st_db s) id v m /\ codec_Resolve codecName = Ok c
    /\ Build L env codecName id v = Ok aad /\ Decode L c (ev_Payload env) (mkKey id v m) aad = Ok p.

Lemma sealed_under_grow s s' env cn id v p : grows L s s' -> sealed_under s env cn id v p -> sealed_under s' env cn id v p.
Proof.
  intros G (m & aad & c & Hm & Hrest). exists m, aad, c. split; [|done]. eapply material_grow; [apply G|done].
Qed.

Lemma material_unique db id v m v' m' : material L db id v m -> material L db id v' m' -> v = v' /\ m = m'.
Proof. intros (k & Hk & Hv & Hm) (k' & Hk' & Hv' & Hm'). simplify_eq. split; congruence. Qed.

(** Whatever opens it under a sound key, opens it to [p]. *)
Lemma sealed_decodes s env cn id v p m aad c q :
  sealed_under s env cn id v p -> material L (st_db s) id v m ->
  Build L env cn id v = Ok aad -> codec_Resolve cn = Ok c ->
  Decode L c (ev_Payload env) (mkKey id v m) aad = Ok q -> q = p.
Proof.
  intros (m' & aad' & c' & Hm' & Hc' & Ha' & Hd') Hm Ha Hc Hd. destruct (material_unique _ _ _ _ _ _ Hm Hm') as [_ ->].
  congruence.
Qed.

(** The rows [open_row] opens. *)
Lemma open_row_sealed s r e : open_row L (db_keys (st_db s)) r = Some e ->
  exists env ref v p, unmarshalEvent L (au_envelope r) = Ok env /\ au_dek_ref r = Some ref /\ au_dek_version r = Some v
    /\ sealed_under s env (au_codec r) ref v p /\ e = set_payload env p.
Proof.
  intros (o & v & k & m & ev & c & aad & p & Ho & Hv & Hk & Hkv & Hd & Hm & He & Hc & Ha & Hp & ->)%open_row_Some.
  exists ev, o, v, p. do 3 (split; [done|]). split; [|done]. exists m, aad, c. split; [by exists k|done].
Qed.

Lemma sealed_open_row s r env ref v p k :
  unmarshalEvent L (au_envelope r) = Ok env -> au_dek_ref r = Some ref -> au_dek_version r = Some v ->
  sealed_under s env (au_codec r) ref v p -> db_keys (st_db s) !! ref = Some k -> ~ destroyed k ->
  open_row L (db_keys (st_db s)) r = Some (set_payload env p).
Proof.
  intros He Ho Hv (m & aad & c & (k' & Hk' & Hkv & Hm) & Hc & Ha & Hp) Hk Hd.
  assert (k' = k) as -> by congruence. apply open_row_Some. exists ref, v, k, m, env, c, aad, p. done.
Qed.

(** ** Publishing *)

(** A message that carries the event: in the clear, or sealed under a key of the
    event's context. *)
Inductive carries (s : St) (e : HostEvent) : Msg -> Prop :=
| carries_clear data :
    he_Sensitive e = false -> unmarshalEvent L data = Ok (envelope_of B e) ->
    carries s e (mkMsg (he_Subject e) data (stamp_headers B e NameIdentity None))
| carries_sealed data ct ref v x k :
    he_Sensitive e = true -> unmarshalEvent L data = Ok (set_payload (envelope_of B e) ct) ->
    sealed_under s (set_payload (envelope_of B e) ct) NameXChaCha20v1 ref v (he_Payload e) ->
    0 < ref < 2 ^ 63 -> 0 <= v < 2 ^ 31 ->
    contextIDFromSubject (he_Subject e) = Ok x -> db_keys (st_db s) !! ref = Some k -> k_ctx k = x ->
    carries s e (mkMsg (he_Subject e) data (stamp_headers B e NameXChaCha20v1 (Some (ref, v)))).

Lemma carries_grow s s' e msg : grows L s s' -> carries s e msg -> carries s' e msg.
Proof.
  intros G [data Hs Hu|data ct ref v x k Hs Hu Hse Hr Hv Hx Hk Hkx]; [by constructor|].
  destruct (g_keys _ _ _ G _ _ Hk) as (k' & Hk' & (_ & Hx' & _) & _).
  eapply carries_sealed; try done; [by eapply sealed_under_grow|congruence].
Qed.

Lemma seal_clear e c key nonce msg s :
  he_Sensitive e = false -> codec_Resolve NameIdentity = Ok c ->
  seal_event L B e NameIdentity c key None nonce = Ok msg -> carries s e msg.
Proof.
  intros Hs [= <-]. unfold seal_event. rewrite Hs. cbn. destruct (marshalEvent L _) as [data|] eqn:E; [|done].
  intros [= <-]. apply carries_clear; [done|]. apply unmarshal_marshal in E. by rewrite E.
Qed.

Lemma seal_sealed e c key nonce msg s x :
  he_Sensitive e = true -> codec_Resolve NameXChaCha20v1 = Ok c -> String.length nonce = NonceSizeX ->
  inv L ulid s -> key_in L s x key -> contextIDFromSubject (he_Subject e) = Ok x ->
  seal_event L B e NameXChaCha20v1 c key (Some key) nonce = Ok msg -> carries s e msg.
Proof.
  intros Hs Hc Hn HI [Hkey (k & Hk & Hx)] Hctx. unfold seal_event. rewrite Hs.
  destruct (Build L _ _ _ _) as [aad|] eqn:Ha; [|done]. destruct (Encode _ _ _ _ _ _) as [ct|] eqn:Hct; [|done].
  destruct (marshalEvent L _) as [data|] eqn:E; [|done]. intros [= <-]. apply unmarshal_marshal in E.
  pose proof (i_seq _ _ _ HI) as Hseq. destruct (i_keys _ _ _ HI _ _ Hk) as [_ Hsq Hver _ _ _].
  pose proof Hkey as (k' & Hk' & Hkv & _). simplify_eq. unfold int4_max in Hver.
  apply (carries_sealed s e data ct (k_ID key) (k_Version key) (k_ctx k) k); try done; [|lia|lia].
  exists (k_Bytes key), aad, c. split; [done|]. split; [done|]. split; [by rewrite Build_payload|].
  eapply Decode_Encode; [done|exact Hn|]. by destruct key.
Qed.
End Seal.
