(* ===== verification/BusSafety.v ===== *)
(** The cluster with its event bus: publishers, readers and the DEK subsystem's
    programs run against one database and one stream, their calls interleaved in
    any order.  [bus_grows] is what every step may change.  Then what publishing,
    the guard and reading achieve, each running among any other programs. *)

From S2P Require Import Prelude GoStrings EntityRef PolicyTypes Sql Programs DekTypes EventCrypto DekCache DekStore DekManager Rekey DekInv DekInvOps DekInvTx DekSafety DekWorld BusTypes EventPublish AuditProjection AuthGuard HistoryRead BusFacts.
From stdpp Require Import relations.

Open Scope string_scope.
Open Scope Z_scope.
Open Scope prog_scope.

Section World.
Context `{fate : Fate} (L : CryptoLib) (B : BusLib) (ulid : string -> string).

(** ** What holds and what may change *)
Definition bus_inv (b : Bus) : Prop := inv L ulid (bs_dek b).

Record bus_grows (b b' : Bus) : Prop := mkBusGrows {
  bg_dek : grows L (bs_dek b) (bs_dek b');
  bg_stream : bs_stream b `prefix_of` bs_stream b';
  bg_decisions : bs_decisions b `prefix_of` bs_decisions b';
  bg_decrypts : bs_decrypts b `prefix_of` bs_decrypts b'
}.

#[local] Instance bus_grows_preorder : PreOrder bus_grows.
Proof.
  split; [intros b; by constructor|]. intros b1 b2 b3 [G S D C] [G' S' D' C'].
  constructor; by etransitivity.
Qed.

Definition bus_valid (b : Bus) (en : bus_env) : Prop := env_ok L (be_dek en).

Local Abbreviation bwp := (wp bus_exec bus_valid bus_inv bus_grows).
Local Abbreviation dwp := (wp exec (fun _ en => env_ok L en) (inv L ulid) (grows L)).
Local Abbreviation bkeeps := (keeps bus_inv bus_grows).

(** ** Calls *)
Lemma wp_lift {A} (p : dprog A) Q b : dwp p Q (bs_dek b) -> bwp (lift p) (fun d a => Q (bs_dek d) a) b.
Proof.
  revert b. induction p as [a|A' c k IH]; intros b; cbn; [done|]. intros H b1 en [G _ _ _] HI Hv.
  destruct (H (bs_dek b1) (be_dek en) G HI Hv) as [Hk Hw]. destruct (exec (be_dek en) A' c (bs_dek b1)) as [a s].
  cbn in *. split; [|by apply IH]. split; [apply Hk|]. constructor; cbn; [apply Hk|done..].
Qed.

Lemma wp_lift_Ok {A} (p : dprog (result A)) P b :
  dwp p (on_Ok P) (bs_dek b) -> bwp (lift p) (on_Ok (fun d a => P (bs_dek d) a)) b.
Proof. intros H. eapply rg_wp_mono; [|apply (wp_lift _ _ _ H)]. by intros d []. Qed.

Lemma bwp_seq {A C} (p : bprog A) (k : A -> bprog C) P Q b :
  bwp p P b -> (forall d a, bus_grows b d -> P d a -> bwp (k a) Q d) -> bwp (p ≫= k) Q b.
Proof. apply rg_wp_seq. apply _. Qed.

Lemma bseq_try {A C} (p : bprog (result A)) (h : error -> bprog (result C)) (k : A -> bprog (result C)) P Q b :
  bwp p (on_Ok P) b -> (forall e d, bwp (h e) (on_Ok Q) d) ->
  (forall d a, bus_grows b d -> P d a -> bwp (k a) (on_Ok Q) d) -> bwp (try_ p h k) (on_Ok Q) b.
Proof. apply rg_seq_try. apply _. Qed.

Lemma bwp_given {A C} (r : result A) (h : error -> bprog (result C)) (k : A -> bprog (result C)) Q b :
  (forall e, bwp (h e) (on_Ok Q) b) -> (forall a, r = Ok a -> bwp (k a) (on_Ok Q) b) -> bwp (given r h k) (on_Ok Q) b.
Proof. intros Hh Hk. destruct r as [a|e]; [by apply Hk|apply Hh]. Qed.

(** A call that only appends to the bus's own lists. *)
Lemma bwp_append {A} (c : bcall A) (Q : Bus -> A -> Prop) b :
  (forall b1 en, bus_grows b b1 -> bus_inv b1 ->
     let '(a, b2) := bus_exec en A c b1 in bs_dek b2 = bs_dek b1 /\ bus_grows b1 b2 /\ Q b2 a) ->
  bwp (Programs.call c) Q b.
Proof.
  intros H. apply wp_call. intros b1 en HR HI _. specialize (H b1 en HR HI). destruct (bus_exec en A c b1) as [a b2].
  destruct H as (Hd & Hg & HQ). cbn. split; [|done]. split; [|done]. unfold bus_inv. by rewrite Hd.
Qed.

Lemma grows_append {A} (l l' : list A) (P : Prop) `{!Decision P} : l `prefix_of` (if bool_decide P then l ++ l' else l)%list.
Proof. case_bool_decide; [by apply prefix_app_r|done]. Qed.

Lemma wp_PublishMsg t m b :
  bwp (Programs.call (PublishMsg t m)) (fun d r => r = None -> m ∈ bs_stream d /\ bus_inv d) b.
Proof.
  apply bwp_append. intros b1 en HR HI. cbn. split; [done|]. split.
  - constructor; cbn; [reflexivity| |done..]. case_match; [by apply prefix_app_r|done].
  - intros ->. cbn. split; [|done]. rewrite elem_of_app. right. by apply list_elem_of_singleton.
Qed.

Lemma wp_EvaluateAccess r b :
  bwp (Programs.call (EvaluateAccess r)) (on_Ok (fun d dec => (r, dec) ∈ bs_decisions d)) b.
Proof.
  apply bwp_append. intros b1 en HR HI. cbn. split; [done|]. destruct (be_evaluate en r) as [dec|e]; cbn.
  - split; [by constructor; cbn; [reflexivity|done|apply prefix_app_r|]|]. rewrite elem_of_app. right.
    by apply list_elem_of_singleton.
  - split; [by constructor|done].
Qed.

Lemma wp_ShouldThrottle p b : bwp (Programs.call (ShouldThrottle p)) (fun _ _ => True) b.
Proof. apply bwp_append. intros b1 en HR HI. cbn. split; [done|]. by split. Qed.

Lemma wp_EmitPluginDecrypt r b :
  bwp (Programs.call (EmitPluginDecrypt r)) (fun d e => e = None -> r ∈ bs_decrypts d) b.
Proof.
  apply bwp_append. intros b1 en HR HI. cbn. split; [done|]. split.
  - constructor; cbn; [reflexivity|done|done|apply grows_append].
  - intros ->. cbn. rewrite elem_of_app. right. by apply list_elem_of_singleton.
Qed.
End World.
#[export] Existing Instance bus_grows_preorder.

Open Scope string_scope.
Open Scope Z_scope.
Open Scope prog_scope.

Section Safety.
Context `{fate : Fate} (L : CryptoLib) (B : BusLib) `{!CryptoLaws L, !BusLaws B} (ulid : string -> string).
Local Abbreviation bwp := (wp bus_exec (bus_valid L) (bus_inv L ulid) (bus_grows L)).
Local Abbreviation carries := (carries L B).

(** ** Publishing *)
Lemma wp_nonce c b : bwp (nonce_for c) (fun _ n => c = XChaCha20Poly1305v1 -> String.length n = NonceSizeX) b.
Proof.
  destruct c; cbn [nonce_for]; [done|]. eapply rg_wp_mono;
    [|apply (wp_lift L ulid (asks ANonce) (fun _ n => String.length n = NonceSizeX))]; [done|].
  apply wp_ask. intros s1 n _ _ Hn. exact Hn.
Qed.

(** A sensitive event is sealed under the newest key of its context. *)
Lemma wp_select_codec p e b : member L ulid (pb_server p) -> he_Sensitive e = true ->
  bwp (select_codec p e)
    (on_Ok (fun d sel => sel.1.1 = NameXChaCha20v1 /\ exists x key, sel.2 = Some key
       /\ contextIDFromSubject (he_Subject e) = Ok x /\ key_in L (bs_dek d) x key)) b.
Proof.
  intros [Hl Hu] Hs. unfold select_codec. rewrite Hs. destruct (pb_dekMgr p); [|done].
  apply bwp_given; [done|]. intros x Hx.
  eapply (bwp_seq L ulid _ _ (fun _ _ => True)).
  { unfold initialParticipantsForContext. case_match; [|done].
    eapply (bwp_seq L ulid _ _ (fun _ _ => True)); [|done].
    eapply rg_wp_mono; [|apply (wp_lift L ulid (asks ANow) (fun _ _ => True))]; [done|]. by apply wp_ask. }
  intros d ps _ _. eapply bseq_try; [apply wp_lift_Ok, (wp_GetOrCreate L ulid)|done|].
  intros d1 key _ Hkey. cbn. eauto 6.
Qed.

Lemma on_Ok_fails {A} e (Q : Bus -> A -> Prop) b : bwp (bfails e) (on_Ok Q) b.
Proof. done. Qed.

(** The last step: the message is in the stream when the broker acknowledged it. *)
Lemma wp_send t msg (Q : Bus -> unit -> Prop) b :
  (forall d, bus_grows L b d -> msg ∈ bs_stream d -> bus_inv L ulid d -> Q d tt) ->
  bwp (r ← Programs.call (PublishMsg t msg); match r with Some x => bfails (publish_error x) | None => Done (Ok tt) end)
    (on_Ok Q) b.
Proof.
  intros HQ. eapply bwp_seq; [apply wp_PublishMsg|]. intros d [x|] G Hd; [done|].
  destruct (Hd eq_refl) as [Hin HI]. by apply HQ.
Qed.

(** A published event is carried by a message of the stream. *)
Lemma wp_Publish p e b : member L ulid (pb_server p) -> pb_selector p = identityKeySelector ->
  bwp (Publish L B p e) (on_Ok (fun d _ => exists msg, msg ∈ bs_stream d /\ carries (bs_dek d) e msg)) b.
Proof.
  intros Hm Hsel. unfold Publish. apply bwp_given; [done|]. intros _ _. destruct (he_Sensitive e) eqn:Hs.
  - eapply bseq_try; [by apply wp_select_codec|done|]. intros d [ [cn label] dek] _ (Hcn & x & key & Hdek & Hx & Hkey).
    cbn in Hcn, Hdek. subst cn dek. apply bwp_given; [done|]. intros c Hc. apply bwp_given; [done|]. intros key' [= <-].
    eapply bwp_seq; [apply wp_nonce|]. intros d1 nonce G1 Hn.
    apply bwp_given; [done|]. intros msg Hmsg. apply wp_send. intros d2 G2 Hin HI. exists msg. split; [done|].
    assert (G : grows L (bs_dek d) (bs_dek d2)) by (etransitivity; [apply G1|apply G2]).
    eapply (seal_sealed L B ulid e c key nonce msg _ x Hs Hc); [|exact HI| |exact Hx|exact Hmsg].
    + apply Hn. by injection Hc as <-.
    + destruct Hkey as [Hk (k & Hkk & Hkx)]. split; [by eapply key_sound_grow|].
      destruct (g_keys _ _ _ G _ _ Hkk) as (k' & Hk' & (_ & Hx' & _) & _). exists k'. split; [done|congruence].
  - unfold select_codec. rewrite Hs, Hsel. cbn [given identityKeySelector try_ mbind prog_mbind prog_bind fst snd].
    apply bwp_given; [done|]. intros c Hc. apply bwp_given; [done|]. intros key' [= <-].
    eapply bwp_seq; [apply wp_nonce|]. intros d1 nonce G1 Hn.
    apply bwp_given; [done|]. intros msg Hmsg. apply wp_send. intros d2 G2 Hin HI. exists msg. split; [done|].
    by eapply seal_clear.
Qed.

(** ** The guard *)

(** A participant of the key, as its row lists them. *)
Definition participates (s : St) (id v : Z) (P : Participant -> Prop) : Prop :=
  exists k q, db_keys (st_db s) !! id = Some k /\ k_ver k = v /\ q ∈ r_Participants (kr_row k) /\ P q.

Lemma participates_grow s s' id v P : grows L s s' -> participates s id v P -> participates s' id v P.
Proof.
  intros G (k & q & Hk & Hv & Hq & HP). destruct (g_keys _ _ _ G _ _ Hk) as (k' & Hk' & (_ & _ & Hv' & _ & _ & Hp) & _).
  exists k', q. split; [done|]. split; [congruence|]. split; [by apply Hp|done].
Qed.

Lemma listed_participates s id v ps q (P : Participant -> Prop) :
  listed s id v ps -> q ∈ ps -> P q -> participates s id v P.
Proof. intros (k & Hk & Hv & Hp) Hq HP. exists k, q. split; [done|]. split; [done|]. split; [by apply Hp|done]. Qed.

Definition is_binding (i : Identity) (q : Participant) : Prop :=
  pa_BindingID q = id_BindingID i /\ pa_BindingID q <> EmptyString.
Definition is_player (i : Identity) (q : Participant) : Prop :=
  pa_PlayerID q = id_PlayerID i /\ pa_PlayerID q <> EmptyString.

(** The engine was asked and allowed. *)
Definition allowed_by_policy (b : Bus) (r : result AccessRequest) : Prop :=
  exists req d, r = Ok req /\ (req, d) ∈ bs_decisions b /\ IsAllowed d = true.

(** Who is entitled to the plaintext of an event under a key. *)
Definition entitled (g : Guard) (b : Bus) (r : CheckRequest) : Prop :=
  let i := cr_Identity r in
  match id_Kind i with
  | IdentityKindCharacter => participates (bs_dek b) (cr_KeyID r) (cr_KeyVersion r) (is_binding i)
  | IdentityKindPlayer =>
      participates (bs_dek b) (cr_KeyID r) (cr_KeyVersion r) (is_player i) /\ allowed_by_policy b (player_request r)
  | IdentityKindPlugin =>
      if cr_ReadBack r then ml_CanReadBack (gu_manifest g) (id_PluginName i) (cr_EventType r) = true
      else ml_RequestsDecryption (gu_manifest g) (id_PluginName i) (cr_EventType r) = true
           /\ exists subject, PluginSubject (id_PluginName i) = Return subject /\ allowed_by_policy b (plugin_request subject r)
  | IdentityKindOperator | IdentityKindUnknown => False
  end.

Lemma allowed_by_policy_grow b b' r : bus_grows L b b' -> allowed_by_policy b r -> allowed_by_policy b' r.
Proof.
  intros G (req & d & Hr & Hin & Ha). exists req, d. split; [done|]. split; [|done].
  destruct (bg_decisions _ _ _ G) as [l ->]. rewrite elem_of_app. by left.
Qed.

Lemma entitled_grow g b b' r : bus_grows L b b' -> entitled g b r -> entitled g b' r.
Proof.
  intros G. unfold entitled. destruct (id_Kind _); try done.
  - apply participates_grow, G.
  - intros [? ?]. split; [by eapply participates_grow; [apply G|]|by eapply allowed_by_policy_grow].
  - case_match; [done|]. intros [? (sub & ? & ?)]. split; [done|]. exists sub. split; [done|]. by eapply allowed_by_policy_grow.
Qed.

Lemma wp_lookup_participants g id v b : member L ulid (gu_server g) ->
  bwp (lookup_participants g id v) (on_Ok (fun d ps => listed (bs_dek d) id v ps)) b.
Proof.
  intros _. unfold lookup_participants. eapply bseq_try; [apply wp_lift_Ok, (wp_Participants L ulid)|done|].
  intros d ps _ H. exact H.
Qed.

(** The engine's answer is logged. *)
Lemma wp_evaluate r b :
  bwp (evaluate r) (on_Ok (fun d dec => IsAllowed dec = true -> allowed_by_policy d r)) b.
Proof.
  unfold evaluate. apply bwp_given; [done|]. intros req ->. eapply bseq_try; [apply wp_EvaluateAccess|done|].
  intros d dec _ Hin Ha. by exists req, dec.
Qed.

Lemma existsb_participates (f : Participant -> bool) s id v ps (P : Participant -> Prop) :
  listed s id v ps -> existsb f ps = true -> (forall q, f q = true -> P q) -> participates s id v P.
Proof.
  intros Hl (q & Hq & Hf)%existsb_exists HP. apply list_elem_of_In in Hq. eapply listed_participates; eauto.
Qed.

(** What the guard permits. *)
Lemma wp_Check g r b : member L ulid (gu_server g) ->
  bwp (Check B g r) (on_Ok (fun d dec => gd_Permit dec = true -> entitled g d r)) b.
Proof.
  intros Hm. unfold Check. destruct (id_Kind (cr_Identity r)) eqn:Hk; try done.
  - unfold checkCharacter. eapply bseq_try; [by apply wp_lookup_participants|done|]. intros d ps _ Hl.
    destruct (existsb _ ps) eqn:E; [|done]. intros _. unfold entitled. rewrite Hk.
    eapply existsb_participates; [exact Hl|exact E|]. intros q [Hne Heq]%andb_true_iff.
    apply String.eqb_eq in Heq. split; [done|]. by apply is_empty_false, negb_true_iff.
  - unfold checkPlayer. eapply bseq_try; [by apply wp_lookup_participants|done|]. intros d ps _ Hl.
    destruct (existsb _ ps) eqn:E; cbn [negb]; [|done]. eapply bseq_try; [apply wp_evaluate|done|].
    intros d1 dec G Ha. cbn. unfold abac_decision. destruct (IsAllowed dec) eqn:Hd; [|done]. intros _.
    unfold entitled. rewrite Hk. split; [|by apply Ha]. eapply participates_grow; [apply G|].
    eapply existsb_participates; [exact Hl|exact E|]. intros q [Hne Heq]%andb_true_iff.
    apply String.eqb_eq in Heq. split; [done|]. by apply is_empty_false, negb_true_iff.
  - destruct (cr_ReadBack r) eqn:Hr.
    + unfold checkPluginReadback. eapply bwp_seq; [apply wp_ShouldThrottle|]. intros d [|] _ _; [done|].
      destruct (ml_CanReadBack _ _ _) eqn:E; cbn [negb]; [|done]. intros _. unfold entitled. by rewrite Hk, Hr.
    + unfold checkPlugin. eapply bwp_seq; [apply wp_ShouldThrottle|]. intros d [|] _ _; [done|].
      destruct (ml_RequestsDecryption _ _ _) eqn:E; cbn [negb]; [|done].
      destruct (PluginSubject _) as [sub|msg] eqn:Es; [|done].
      eapply bseq_try; [apply wp_evaluate|done|]. intros d1 dec G Ha. cbn. unfold abac_decision.
      destruct (IsAllowed dec) eqn:Hd; [|done]. intros _. unfold entitled. rewrite Hk, Hr. split; [done|]. eauto.
Qed.

(** ** Reading *)

(** What a reader is wired with belongs to the cluster. *)
Record wired (cfg : ReadConfig) : Prop := mkWired {
  wd_guard : forall g, rc_authGuard cfg = Some g -> member L ulid (gu_server g);
  wd_manager : forall sv, rc_dekManager cfg = Some sv -> member L ulid sv;
  wd_resolver : forall sv, rc_resolver cfg = Some (SimpleResolver sv) \/ rc_resolver cfg = Some (FallbackResolver sv) ->
    member L ulid sv
}.

(** The plaintext is handed out only as [open_and_audit] opened it, and to a plugin
    only with a decrypt record queued. *)
Definition handed (cfg : ReadConfig) (env : Event) (ct cn : string) (key : Key) (id v : Z) (eventID : string)
    (i : Identity) (d : Bus) (r : HostEvent * bool) : Prop :=
  if r.2 then he_Payload r.1 = EmptyString else
  (exists aad c p, Build L env cn id v = Ok aad /\ codec_Resolve cn = Ok c /\ Decode L c ct key aad = Ok p
     /\ r.1 = buildHistoryEventFromEnvelope B eventID env p)
  /\ (is_plugin i = true -> exists rec, rec ∈ bs_decrypts d /\ pd_PluginName rec = id_PluginName i
        /\ pd_PluginInstanceID rec = id_InstanceID i /\ pd_EventID rec = eventID).

Lemma wp_open_and_audit cfg env ct cn key id v eventID i grant b :
  bwp (open_and_audit L B cfg env ct cn key id v eventID i grant) (on_Ok (handed cfg env ct cn key id v eventID i)) b.
Proof.
  unfold open_and_audit. apply bwp_given; [done|]. intros aad Ha. apply bwp_given; [done|]. intros c Hc.
  apply bwp_given; [done|]. intros p Hp. cbv zeta.
  assert (Hopen : exists aad c p', Build L env cn id v = Ok aad /\ codec_Resolve cn = Ok c /\ Decode L c ct key aad = Ok p'
     /\ buildHistoryEventFromEnvelope B eventID env p = buildHistoryEventFromEnvelope B eventID env p') by eauto 8.
  destruct (is_plugin i) eqn:Hi; [|split; [exact Hopen|by rewrite Hi] ]. destruct (rc_auditEmitter cfg); cbn [negb]; [|done].
  eapply bwp_seq; [apply wp_EmitPluginDecrypt|]. intros d [e|] _ Hd.
  - by case_match.
  - split; [exact Hopen|]. intros _. eexists. by split; [apply Hd|].
Qed.

(** [authorised]: the clear codec passes; otherwise the guard permitted what [k]
    goes on from. *)
Lemma wp_authorised cfg env cn id v i rb k (Q : Bus -> HostEvent * bool -> Prop) b :
  wired cfg ->
  (cn = NameIdentity -> forall d, Q d (buildHistoryEventFromEnvelope B (event_id_of env) env (ev_Payload env), false)) ->
  (forall d ev r, Q d (redacted B ev env r)) ->
  (cn <> NameIdentity -> forall g dec d, rc_authGuard cfg = Some g -> bus_grows L b d ->
     entitled g d (mkCheckRequest i id v (ev_Type env) (event_id_of env) rb) ->
     bwp (k (event_id_of env) dec) (on_Ok Q) d) ->
  bwp (authorised B cfg env cn id v i rb k) (on_Ok Q) b.
Proof.
  intros Hw Hclear Hred Hk. unfold authorised. destruct (String.eqb_spec cn NameIdentity) as [Hcn|Hcn]; [exact (Hclear Hcn b)|].
  destruct (rc_authGuard cfg) as [g|] eqn:Hg; [|done].
  eapply bseq_try; [apply wp_Check; by apply (wd_guard cfg Hw)|done|]. intros d dec G He.
  destruct (gd_Permit dec) eqn:Hp; cbn [negb]; [|exact (Hred d (event_id_of env) _)]. eapply Hk; [done|done|done|by apply He].
Qed.

(** *** Keys and archived copies *)
Lemma wp_bus_Resolve sv id v b :
  bwp (lift (Resolve sv id v)) (on_Ok (fun d key => key_sound L (bs_dek d) key /\ k_ID key = id /\ k_Version key = v)) b.
Proof.
  apply (wp_lift_Ok L ulid _ (fun s key => key_sound L s key /\ k_ID key = id /\ k_Version key = v)).
  by apply (wp_Resolve L ulid).
Qed.

(** The copy of an event in the archive, as [LookupByID] finds it. *)
Definition copy_of (s : St) (id : string) (env : Envelope) : Prop :=
  exists r, db_audit (st_db s) !! id = Some r /\ en_EventID env = id /\ en_Codec env = au_codec r
    /\ en_KeyID env = u64_wrap (default 0 (au_dek_ref r)) /\ en_KeyVersion env = default 0 (au_dek_version r)
    /\ en_Payload env = au_envelope r.

Lemma pure_select_envelope id : pure_tx (select_envelope id).
Proof.
  unfold select_envelope. apply pure_bind; [apply pure_read|]. intros db. destruct (_ !! id); [|apply pure_ret].
  case_match; [apply pure_fail|apply pure_ret].
Qed.

Lemma wp_LookupByID id b :
  bwp (LookupByID id) (on_Ok (fun d r => forall env, r = Some env ->
     exists s, grows L (bs_dek b) s /\ grows L s (bs_dek d) /\ inv L ulid s /\ copy_of s id env)) b.
Proof.
  unfold LookupByID. eapply bseq_try; [|done|].
  - apply wp_lift_Ok. apply (wp_db_pure L ulid _ (fun d r => forall env, r = Some env ->
      exists s, grows L (bs_dek b) s /\ grows L s d /\ inv L ulid s /\ copy_of s id env)).
    + intros ck. apply pure_select_envelope.
    + intros s1 ck r G HI E env ->. exists s1. split; [done|]. split; [reflexivity|]. split; [done|].
      unfold select_envelope in E. rewrite read_bind in E. unfold copy_of.
      destruct (db_audit (st_db s1) !! id) as [r|]; [|by injection E].
      destruct (_ <? 0); [done|]. injection E as <-. by exists r.
  - intros d r G H. exact H.
Qed.

(** What a resolver hands back: the key asked for with the envelope asked with, or
    the archived copy with its key. *)
Definition resolved_ok (b d : Bus) (env : Envelope) (rs : ResolvedSource) : Prop :=
  key_sound L (bs_dek d) (rs_Key rs) /\ k_ID (rs_Key rs) = rs_KeyID rs /\ k_Version (rs_Key rs) = rs_KeyVersion rs
  /\ match rs_SourceTier rs with
     | TierHot => rs_Envelope rs = env /\ rs_KeyID rs = en_KeyID env /\ rs_KeyVersion rs = en_KeyVersion env
     | TierColdFallback => exists s, grows L (bs_dek b) s /\ grows L s (bs_dek d) /\ inv L ulid s
         /\ copy_of s (en_EventID env) (rs_Envelope rs)
         /\ rs_KeyID rs = en_KeyID (rs_Envelope rs) /\ rs_KeyVersion rs = en_KeyVersion (rs_Envelope rs)
     end.

Lemma wp_resolve_source res env b : en_Codec env <> NameIdentity ->
  bwp (resolve_source res env) (on_Ok (fun d rs => resolved_ok b d env rs)) b.
Proof.
  intros Hc. apply String.eqb_neq in Hc. destruct res as [sv|sv]; cbn [resolve_source].
  - unfold SimpleResolve. rewrite Hc. eapply bseq_try; [apply wp_bus_Resolve|done|]. intros d k _ (Hs & Hi & Hv). by split_and!.
  - unfold FallbackResolve. rewrite Hc. eapply bwp_seq; [apply wp_bus_Resolve|]. intros d [k|e] G Hk.
    { destruct Hk as (Hs & Hi & Hv). by split_and!. }
    destruct (isDEKMissing e); cbn [negb]; [|done]. eapply bseq_try; [apply wp_LookupByID|done|].
    intros d1 [cold|] G1 Hl; [|done]. destruct (Hl cold eq_refl) as (s & Gs & Gs1 & HI & Hcopy).
    eapply bwp_seq; [apply wp_bus_Resolve|]. intros d2 [k|e2] G2 Hk2; [|by case_match].
    destruct Hk2 as (Hs & Hi & Hv). split; [done|]. split; [done|]. split; [done|]. cbn. exists s.
    split; [etransitivity; [apply G|done]|]. split; [etransitivity; [done|apply G2]|]. done.
Qed.

(** *** Dispatch *)

(** The archive holds the event, which came in time: [env] with payload [p], under a row
    of codec [cn]. *)
Definition archived_as (s : St) (id cn : string) (env : Event) (p : string) : Prop :=
  ~ late id
  /\ exists r, db_audit (st_db s) !! id = Some r /\ au_codec r = cn /\ open_row L (db_keys (st_db s)) r = Some (set_payload env p).

Lemma archived_as_grow s s' id cn env p : grows L s s' -> archived_as s id cn env p -> archived_as s' id cn env p.
Proof.
  intros G (Hl & r & Hr & Hc & Ho). destruct (g_rows _ _ _ G _ _ Hr) as (r' & Hr' & Hc' & _). split; [done|]. exists r'.
  split; [done|]. split; [congruence|]. pose proof (g_events _ _ _ G id (set_payload env p) Hl) as He.
  unfold open_event in He. rewrite Hr, Hr' in He. by apply He.
Qed.

(** What a dispatcher hands out with the payload. *)
Definition read_ok (cfg : ReadConfig) (b : Bus) (env : Event) (cn : string) (id v : Z) (i : Identity) (rb : bool)
    (d : Bus) (r : HostEvent * bool) : Prop :=
  if r.2 then he_Payload r.1 = EmptyString else
  (exists g, rc_authGuard cfg = Some g /\ entitled g d (mkCheckRequest i id v (ev_Type env) (event_id_of env) rb))
  /\ (is_plugin i = true -> exists rec, rec ∈ bs_decrypts d /\ pd_PluginName rec = id_PluginName i
        /\ pd_PluginInstanceID rec = id_InstanceID i /\ pd_EventID rec = event_id_of env)
  /\ forall p, sealed_under L (bs_dek b) env cn id v p -> archived_as (bs_dek b) (event_id_of env) cn env p ->
       r.1 = buildHistoryEventFromEnvelope B (event_id_of env) env p.

Lemma build_payload id env env' p p' : set_payload env p = set_payload env' p' ->
  buildHistoryEventFromEnvelope B id env p = buildHistoryEventFromEnvelope B id env' p'.
Proof. destruct env, env'. cbn. by intros [= -> -> -> -> -> -> ->]. Qed.

(** Under the key asked for. *)
Lemma handed_read cfg b d d' env cn key id v i rb g r :
  key_sound L (bs_dek d) key -> k_ID key = id -> k_Version key = v -> bus_grows L b d -> bus_grows L d d' ->
  rc_authGuard cfg = Some g -> entitled g d (mkCheckRequest i id v (ev_Type env) (event_id_of env) rb) ->
  handed cfg env (ev_Payload env) cn key id v (event_id_of env) i d' r ->
  read_ok cfg b env cn id v i rb d' r.
Proof.
  intros Hk <- <- G G' Hg He. destruct r as [ev [|] ]; [done|]. unfold handed, read_ok. cbn [fst snd].
  intros [(aad & c & q & Ha & Hc & Hd & Hb) Hrec].
  split; [exists g; split; [done|]; by eapply entitled_grow|]. split; [done|]. intros p Hs _. rewrite Hb. f_equal.
  eapply (sealed_decodes L (bs_dek d) env cn); [eapply sealed_under_grow; [apply G|done]|exact Hk|done|done|].
  by destruct key.
Qed.

(** Under the key of the archived copy. *)
Lemma handed_cold cfg b s d d' env cold cn key envl i rb g r id v :
  grows L (bs_dek b) s -> grows L s (bs_dek d) -> inv L ulid s -> copy_of s (event_id_of env) envl ->
  unmarshalEvent L (en_Payload envl) = Ok cold ->
  key_sound L (bs_dek d) key -> k_ID key = en_KeyID envl -> k_Version key = en_KeyVersion envl -> bus_grows L d d' ->
  rc_authGuard cfg = Some g -> entitled g d (mkCheckRequest i id v (ev_Type env) (event_id_of env) rb) ->
  handed cfg cold (ev_Payload cold) cn key (en_KeyID envl) (en_KeyVersion envl) (event_id_of env) i d' r ->
  read_ok cfg b env cn id v i rb d' r.
Proof.
  intros Gb Gs HI (row & Hrow & _ & _ & Hid & Hv & Hpl) Hu Hk Hki Hkv G Hg He.
  destruct r as [ev [|] ]; [done|]. unfold handed, read_ok. cbn [fst snd]. intros [(aad & c & q & Ha & Hc & Hd & Hb) Hrec].
  split; [exists g; split; [done|]; by eapply entitled_grow|]. split; [done|]. intros p _ Harch. rewrite Hb.
  destruct (archived_as_grow _ _ _ _ _ _ Gb Harch) as (_ & row' & Hrow' & Hcn & Ho). assert (row' = row) as -> by congruence.
  destruct (open_row_sealed L s row _ Ho) as (env' & ref & v' & p' & Hu' & Href & Hver & Hs & Heq).
  rewrite Hpl in Hu. assert (env' = cold) as -> by congruence. rewrite Href in Hid. rewrite Hver in Hv. cbn in Hid, Hv.
  assert (Hwrap : u64_wrap ref = ref).
  { destruct Hs as (m & _ & _ & (k & Hkk & _) & _). pose proof (ko_seq _ _ _ _ (i_keys _ _ _ HI _ _ Hkk)).
    pose proof (i_seq _ _ _ HI). apply Z.mod_small. lia. }
  rewrite Hwrap in Hid. rewrite Hid, Hv in *. apply build_payload. rewrite Heq. f_equal. rewrite Hcn in Hs.
  eapply (sealed_decodes L (bs_dek d) cold cn); [by eapply sealed_under_grow|by rewrite <- Hki, <- Hkv|done|done|].
  rewrite <- Hki, <- Hkv. by destruct key.
Qed.

Lemma wp_DispatchFor cfg env cn id v i b : wired cfg -> cn <> NameIdentity ->
  bwp (DispatchFor L B cfg env cn id v i) (on_Ok (read_ok cfg b env cn id v i false)) b.
Proof.
  intros Hw Hcn. unfold DispatchFor. apply wp_authorised; [done|done|done|]. intros _ g dec d Hg G He.
  destruct (rc_resolver cfg) as [res|]; [|done].
  eapply bwp_seq; [by apply (wp_resolve_source res _ d)|]. intros d1 [rs|e] G1 Hrs; [|by case_match].
  assert (He1 : entitled g d1 (mkCheckRequest i id v (ev_Type env) (event_id_of env) false)) by by eapply entitled_grow.
  destruct Hrs as (Hk & Hki & Hkv & Ht). destruct (rs_SourceTier rs).
  - destruct Ht as (Henv & Hid & Hver). rewrite Henv. cbn [en_Payload]. cbn in Hid, Hver. rewrite Hid, Hver in *.
    eapply rg_wp_mono; [|apply rg_wp_reached, wp_open_and_audit; apply _]. intros d2 [r|e] [G2 Hh]; [|done].
    eapply (handed_read cfg b d1 d2); try done. by transitivity d.
  - destruct Ht as (s & Gb & Gs & HI & Hcopy & Hid & Hver). cbn in Hcopy. rewrite Hid, Hver in *.
    apply bwp_given; [done|]. intros cold Hu.
    eapply rg_wp_mono; [|apply rg_wp_reached, wp_open_and_audit; apply _]. intros d2 [r|e] [G2 Hh]; [|done].
    eapply (handed_cold cfg b s d1 d2); try done. etransitivity; [apply G|done].
Qed.

Lemma wp_decodeAuthorizeAndDispatch cfg env cn id v i rb b : wired cfg -> cn <> NameIdentity ->
  bwp (decodeAuthorizeAndDispatch L B cfg env cn id v i rb) (on_Ok (read_ok cfg b env cn id v i rb)) b.
Proof.
  intros Hw Hcn. unfold decodeAuthorizeAndDispatch. apply wp_authorised; [done|done|done|].
  intros _ g dec d Hg G He. destruct (rc_dekManager cfg) as [sv|]; [|done].
  eapply bseq_try; [apply wp_bus_Resolve|done|]. intros d1 key G1 (Hk & Hki & Hkv).
  eapply rg_wp_mono; [|apply rg_wp_reached, wp_open_and_audit; apply _]. intros d2 [r|e] [G2 Hh]; [|done].
  eapply (handed_read cfg b d1 d2); try done; [by transitivity d|by eapply entitled_grow].
Qed.

Lemma wp_dispatch cfg env cn id v i b : wired cfg -> cn <> NameIdentity ->
  bwp (dispatch L B cfg env cn id v i) (on_Ok (read_ok cfg b env cn id v i false)) b.
Proof.
  intros Hw Hcn. unfold dispatch. case_match; [by apply wp_DispatchFor|by apply wp_decodeAuthorizeAndDispatch].
Qed.

(** *** Rows and messages *)
Definition clear_of (env : Event) : HostEvent := buildHistoryEventFromEnvelope B (event_id_of env) env (ev_Payload env).

Definition row_read_ok (cfg : ReadConfig) (b : Bus) (row : audit_rec) (i : Identity) (d : Bus) (r : HostEvent * bool) : Prop :=
  exists env, unmarshalEvent L (au_envelope row) = Ok env
    /\ (au_codec row = NameIdentity -> r = (clear_of env, false))
    /\ (au_codec row <> NameIdentity -> exists ref v, au_dek_ref row = Some ref /\ au_dek_version row = Some v
         /\ read_ok cfg b env (au_codec row) ref v i false d r).

Lemma wp_dispatch_clear cfg env id v i b :
  bwp (dispatch L B cfg env NameIdentity id v i) (on_Ok (fun _ r => r = (clear_of env, false))) b.
Proof. unfold dispatch, DispatchFor, decodeAuthorizeAndDispatch, authorised. by case_match. Qed.

Lemma wp_decodeColdRow cfg row i b : wired cfg ->
  bwp (decodeColdRow L B cfg row i) (on_Ok (row_read_ok cfg b row i)) b.
Proof.
  intros Hw. unfold decodeColdRow, row_read_ok. apply bwp_given; [done|]. intros env ->.
  destruct (String.eqb_spec (au_codec row) NameIdentity) as [Hc|Hc].
  - rewrite Hc. eapply rg_wp_mono; [|apply wp_dispatch_clear]. intros d [r|e] H; [|done]. by exists env.
  - destruct (au_dek_ref row) as [ref|]; [|done]. destruct (au_dek_version row) as [v|]; [|done].
    case_match; [done|]. eapply rg_wp_mono; [|by apply wp_dispatch]. intros d [r|e] Hr; [|done].
    exists env. split; [done|]. split; [done|]. intros _. by exists ref, v.
Qed.

(** Sealed and read without a guard: the payload as the selector's key opens it. *)
Definition unguarded_read (cfg : ReadConfig) (env : Event) (cn : string) (ev : HostEvent) : Prop :=
  exists c p, codec_Resolve cn = Ok c /\ decode_unguarded L cfg c cn (ev_Payload env) = Ok p
    /\ ev = buildHistoryEventFromEnvelope B (ev_Id env) env p.

Definition msg_read_ok (cfg : ReadConfig) (b : Bus) (m : Msg) (i : Identity) (d : Bus) (ev : HostEvent) : Prop :=
  exists id env, ulid_Parse B (HGet B HeaderMsgID (msg_Header m)) = Ok id /\ unmarshalEvent L (msg_Data m) = Ok env
    /\ let cn := HGet B HeaderCodec (msg_Header m) in
       (cn = NameIdentity -> ev = clear_of (set_id env id))
       /\ (cn <> NameIdentity -> rc_authGuard cfg = None -> unguarded_read cfg (set_id env id) cn ev)
       /\ (cn <> NameIdentity -> rc_authGuard cfg <> None -> exists ref v r,
            parseDEKHeaders (HGet B HeaderDekRef (msg_Header m)) (HGet B HeaderDekVersion (msg_Header m)) = Ok (ref, v)
            /\ ev = with_metadata_only r.1 r.2 /\ read_ok cfg b (set_id env id) cn ref v i false d r).

Lemma wp_decodeJetStreamMessage cfg m i b : wired cfg ->
  bwp (decodeJetStreamMessage L B cfg m i) (on_Ok (msg_read_ok cfg b m i)) b.
Proof.
  intros Hw. unfold decodeJetStreamMessage, msg_read_ok. case_match; [done|]. apply bwp_given; [done|]. intros id Hid.
  case_match; [done|]. apply bwp_given; [done|]. intros c Hc. apply bwp_given; [done|]. intros env Henv.
  destruct (String.eqb_spec (HGet B HeaderCodec (msg_Header m)) NameIdentity) as [Hcn|Hcn].
  { cbn. exists id, env. split; [done|]. split; [done|]. split; [|by split]. intros _.
    assert (Hl : event_id_of (set_id env id) = id) by (unfold event_id_of; cbn; by rewrite (parsed_length (B:=B) _ _ Hid)).
    unfold clear_of. by rewrite Hl. }
  destruct (rc_authGuard cfg) as [g|] eqn:Hg.
  - eapply (bseq_try L ulid _ _ _ (fun d r => exists ref v,
      parseDEKHeaders (HGet B HeaderDekRef (msg_Header m)) (HGet B HeaderDekVersion (msg_Header m)) = Ok (ref, v)
      /\ read_ok cfg b (set_id env id) (HGet B HeaderCodec (msg_Header m)) ref v i false d r)); [|done|].
    + unfold dispatch_message. case_match; [done|]. apply bwp_given; [done|]. intros [ref v] Hp.
      eapply rg_wp_mono; [|by apply wp_dispatch]. intros d [r|e] Hr; [|done]. by exists ref, v.
    + intros d r _ (ref & v & Hp & Hr). cbn. exists id, env. split; [done|]. split; [done|]. split; [done|].
      split; [done|]. intros _ _. by exists ref, v, r.
  - apply bwp_given; [done|]. intros q Hq. cbn. exists id, env. split; [done|]. split; [done|].
    split; [done|]. split; [|done]. intros _ _. exists c, q. by split_and!.
Qed.

(** ** A destroyed key

    The participants of a destroyed key cannot be looked up, so the guard answers
    characters and players with an error before any other tier is asked. *)
Definition gone (s : St) (id : Z) : Prop := exists k, db_keys (st_db s) !! id = Some k /\ destroyed k.
Definition never {A} (d : Bus) (a : A) : Prop := False.

Lemma gone_grow s s' id : grows L s s' -> gone s id -> gone s' id.
Proof. intros G (k & Hk & Hd). destruct (g_keys _ _ _ G _ _ Hk) as (k' & Hk' & _ & Hd'). exists k'. auto. Qed.

Lemma wp_Participants_gone sv id v s : gone s id ->
  wp exec (fun _ en => env_ok L en) (inv L ulid) (grows L) (Participants sv id v) (on_Ok (fun _ _ => False)) s.
Proof.
  intros Hg. unfold Participants. eapply (seq_try L ulid _ _ _ (fun _ _ => False)); [| |done].
  - apply wp_db_pure; [intros; apply pure_selectByID|]. intros s1 ck r G _ E.
    destruct (gone_grow _ _ _ G Hg) as (k & Hk & [t Hd]). unfold selectByID in E. rewrite read_bind, Hk, Hd in E.
    by rewrite andb_false_r in E.
  - intros e d. unfold select_error. by case_match.
Qed.

Lemma wp_Check_gone g r b : gone (bs_dek b) (cr_KeyID r) ->
  id_Kind (cr_Identity r) = IdentityKindCharacter \/ id_Kind (cr_Identity r) = IdentityKindPlayer ->
  bwp (Check B g r) (on_Ok never) b.
Proof.
  intros Hg Hk.
  assert (Hp : bwp (lookup_participants g (cr_KeyID r) (cr_KeyVersion r)) (on_Ok never) b).
  { unfold lookup_participants. eapply bseq_try; [by apply wp_lift_Ok, wp_Participants_gone|done|done]. }
  unfold Check. destruct Hk as [-> | ->]; [unfold checkCharacter|unfold checkPlayer];
    (eapply bseq_try; [exact Hp|done|done]).
Qed.

Lemma wp_dispatch_gone cfg env cn id v i b : cn <> NameIdentity -> gone (bs_dek b) id ->
  id_Kind i = IdentityKindCharacter \/ id_Kind i = IdentityKindPlayer ->
  bwp (dispatch L B cfg env cn id v i) (on_Ok never) b.
Proof.
  intros Hcn Hg Hk. apply String.eqb_neq in Hcn. unfold dispatch, DispatchFor, decodeAuthorizeAndDispatch, authorised.
  rewrite Hcn. case_match; (case_match; [|done]); (eapply bseq_try; [by apply wp_Check_gone|done|done]).
Qed.

Lemma wp_message_gone cfg m i ref v b : rc_authGuard cfg <> None ->
  HGet B HeaderCodec (msg_Header m) <> NameIdentity ->
  parseDEKHeaders (HGet B HeaderDekRef (msg_Header m)) (HGet B HeaderDekVersion (msg_Header m)) = Ok (ref, v) ->
  gone (bs_dek b) ref -> id_Kind i = IdentityKindCharacter \/ id_Kind i = IdentityKindPlayer ->
  bwp (decodeJetStreamMessage L B cfg m i) (on_Ok never) b.
Proof.
  intros Hg Hcn Hp Hgone Hk. unfold decodeJetStreamMessage. case_match; [done|]. apply bwp_given; [done|]. intros id Hid.
  case_match; [done|]. apply bwp_given; [done|]. intros c Hc. apply bwp_given; [done|]. intros env Henv.
  pose proof Hcn as Hcn'. apply String.eqb_neq in Hcn'. rewrite Hcn'. destruct (rc_authGuard cfg) as [g|]; [|done].
  eapply (bseq_try L ulid _ _ _ never); [|done|done]. unfold dispatch_message. case_match; [done|]. rewrite Hp. cbn [given].
  by apply wp_dispatch_gone.
Qed.
End Safety.
