(* ===== verification/BusCluster.v ===== *)
(** The machine of servers that publish and read, what its steps keep, and what a
    read of an archived event yields; then a concrete cluster, where a sensitive
    event is published, archived, and read from the stream after a rekey destroyed
    the key it was sealed under. *)

From S2P Require Import Prelude GoStrings EntityRef PolicyTypes Sql Programs DekTypes EventCrypto DekCache DekStore DekManager Rekey DekInv DekInvOps DekInvTx DekSafety DekWorld BusTypes EventPublish AuditProjection AuthGuard HistoryRead BusFacts BusSafety.
From stdpp Require Import relations.

Open Scope string_scope.
Open Scope Z_scope.

(** ** The cluster *)
Section Cluster.
Context `{fate : Fate} (L : CryptoLib) (B : BusLib) (ulid : string -> string).

(** What servers run: the programs of the DEK subsystem, publishers with the default
    codec selector, readers of the archive and of the stream. *)
Inductive bus_serves : bprog unit -> Prop :=
| bs_dek_program p : serves L ulid p -> bus_serves (lift p)
| bs_publish p e : member L ulid (pb_server p) -> pb_selector p = identityKeySelector -> bus_serves (forget (Publish L B p e))
| bs_publish_rendered reg p e : member L ulid (pb_server p) -> pb_selector p = identityKeySelector ->
    bus_serves (forget (RenderingPublish L B reg p e))
| bs_read_row cfg row i : wired L ulid cfg -> bus_serves (forget (decodeColdRow L B cfg row i))
| bs_read_message cfg m i : wired L ulid cfg -> bus_serves (forget (decodeJetStreamMessage L B cfg m i)).

Definition with_dek (b : Bus) (s : St) : Bus := mkBus s (bs_stream b) (bs_dlq b) (bs_decisions b) (bs_decrypts b).

(** Rows are archived and servers restart, as in the DEK subsystem's cluster. *)
Inductive bus_outside : Bus -> Bus -> Prop :=
| bs_outside b s : outside (bs_dek b) s -> bus_outside b (with_dek b s).

Definition bus_step : machine bcall Bus -> machine bcall Bus -> Prop :=
  mstep bus_exec (bus_valid L) bus_serves bus_outside.

Definition bus_initial : machine bcall Bus := mkMachine (mkBus empty_st [] [] [] []) [].
Definition bus_reachable (m : machine bcall Bus) : Prop := rtc bus_step bus_initial m.

(** A program run to its end among the others. *)
Definition bus_runs {A} : bprog A -> machine bcall Bus -> A -> machine bcall Bus -> Prop :=
  runs bus_exec (bus_valid L) bus_serves bus_outside.

(** A row is archived. *)
Definition archive (m : machine bcall Bus) (id : string) (r : audit_rec) : machine bcall Bus :=
  let s := bs_dek (m_state m) in
  mkMachine (with_dek (m_state m) (with_db s (set_audit (st_db s) (<[id := r]> (db_audit (st_db s)))))) (m_procs m).

Context `{!CryptoLaws L, !BusLaws B}.
Local Abbreviation bsound := (sound bus_exec (bus_valid L) (bus_inv L ulid) (bus_grows L)).
Local Abbreviation bsafe := (safe bus_exec (bus_valid L) (bus_inv L ulid) (bus_grows L)).
Local Abbreviation bwp := (wp bus_exec (bus_valid L) (bus_inv L ulid) (bus_grows L)).

Lemma bsafe_forget {A} (p : bprog A) P b : bwp p P b -> bsafe b (forget p).
Proof. intros Hp. eapply rg_wp_seq; [apply _|exact Hp|done]. Qed.

Lemma bus_serves_safe p b : bus_serves p -> bus_inv L ulid b -> bsafe b p.
Proof.
  intros Hp HI. destruct Hp as [p Hp|p e Hm Hs|reg p e Hm Hs|cfg row i Hw|cfg m i Hw].
  - eapply rg_wp_mono; [|apply (wp_lift L ulid p (fun _ _ => True)); by apply (serves_safe L ulid)]. done.
  - eapply bsafe_forget. by apply wp_Publish.
  - apply (bsafe_forget _ (on_Ok (fun _ _ => True))). unfold RenderingPublish. apply bwp_given; [done|]. intros e' _.
    eapply bseq_try; [by apply wp_Publish|done|done].
  - eapply bsafe_forget. by apply wp_decodeColdRow.
  - eapply bsafe_forget. by apply wp_decodeJetStreamMessage.
Qed.

Lemma bus_outside_keeps b b' : bus_inv L ulid b -> bus_outside b b' -> keeps (bus_inv L ulid) (bus_grows L) b b'.
Proof.
  intros HI Hst. destruct Hst as [b0 s Ho]. destruct (outside_keeps L ulid _ _ HI Ho) as [HI' G]. split; [done|]. by constructor.
Qed.

Lemma bus_steps_sound m m' : rtc bus_step m m' -> bsound m -> bsound m' /\ bus_grows L (m_state m) (m_state m').
Proof. apply run_sound; [apply _|apply bus_serves_safe|apply bus_outside_keeps]. Qed.

Lemma bus_reachable_sound m : bus_reachable m -> bsound m.
Proof.
  intros Hm. apply (bus_steps_sound _ _ Hm). split; [|constructor]. exact (inv_empty L ulid).
Qed.

Lemma bus_runs_wp {A} (p : bprog A) Q m a m' :
  bus_runs p m a m' -> bsound m -> bwp p Q (m_state m) ->
  bsound m' /\ bus_grows L (m_state m) (m_state m') /\ Q (m_state m') a.
Proof. apply runs_wp; [apply _|apply bus_serves_safe|apply bus_outside_keeps]. Qed.

Lemma archive_step m id r : arrival_ok (bs_dek (m_state m)) id r -> bus_step m (archive m id r).
Proof. intros Ha. destruct m as [b ps]. apply happens, bs_outside. by apply event_arrives. Qed.

(** ** Archived copies *)

(** The event's copy in the archive: in the clear, which no rekey touches, or
    sealed, under whatever key. *)
Inductive in_archive (s : St) (e : HostEvent) : Prop :=
| in_clear row :
    db_audit (st_db s) !! he_ID e = Some row -> au_codec row = NameIdentity -> au_dek_ref row = None ->
    unmarshalEvent L (au_envelope row) = Ok (envelope_of B e) -> he_Sensitive e = false -> in_archive s e
| in_cipher ct :
    archived_as L s (he_ID e) NameXChaCha20v1 (set_payload (envelope_of B e) ct) (he_Payload e) ->
    he_Sensitive e = true -> in_archive s e.

Lemma in_archive_grow s s' e : grows L s s' -> in_archive s e -> in_archive s' e.
Proof.
  intros G [row Hr Hc Href Hu Hs|ct Ha Hs].
  - destruct (g_rows _ _ _ G _ _ Hr) as (r' & Hr' & _ & Hsame). rewrite (proj1 Hsame Href) in Hr'. by apply (in_clear s' e row).
  - apply (in_cipher s' e ct); [|done]. by eapply archived_as_grow.
Qed.

(** A carried message, archived under its row, is in the archive. *)
Lemma archived_row_opens m e msg d id row :
  carries L B (bs_dek (m_state m)) e msg -> well_formed e -> dl_Msg d = msg ->
  audit_row B (msg_Subject msg) d = Ok (id, row) -> arrival_ok (bs_dek (m_state m)) id row -> ~ late id ->
  id = he_ID e /\ in_archive (bs_dek (m_state (archive m id row))) e.
Proof.
  intros Hc Hwf Hd Hrow (Hfresh & _ & Hkey) Hlate.
  destruct Hc as [data Hs Hu|data ct ref v x k Hs Hu Hse Hr Hv Hx Hk Hkx]; cbn [msg_Subject] in Hrow.
  - destruct (audit_row_stamped L B e NameIdentity None data d id row (wf_id e Hwf) ltac:(done) ltac:(done) Hd Hrow)
      as [-> (_ & _ & He & Hcn & Href & _)]. split; [done|]. rewrite <- He in Hu.
    apply (in_clear _ e row); try done. cbn. by rewrite lookup_insert_eq.
  - assert (Hst : storable (Some (ref, v))) by (intros ? [= <-]; cbn; lia).
    destruct (audit_row_stamped L B e NameXChaCha20v1 _ data d id row (wf_id e Hwf) Hst ltac:(done) Hd Hrow)
      as [-> (_ & _ & He & Hcn & Href & Hver & _)]. split; [done|]. apply (in_cipher _ e ct); [|done]. split; [done|]. exists row. cbn.
    rewrite lookup_insert_eq. split; [done|]. split; [done|].
    destruct (Hkey ref Href Hlate) as [(k' & Hk' & Hnd & _) _].
    eapply (sealed_open_row L (bs_dek (m_state m)) row); try done; [by rewrite He|by rewrite Hcn].
Qed.

Lemma archived_as_read s id cn env p row :
  archived_as L s id cn env p -> db_audit (st_db s) !! id = Some row ->
  au_codec row = cn /\ exists env', unmarshalEvent L (au_envelope row) = Ok env'
    /\ exists ref v p', au_dek_ref row = Some ref /\ au_dek_version row = Some v
       /\ sealed_under L s env' cn ref v p' /\ archived_as L s id cn env' p' /\ set_payload env p = set_payload env' p'.
Proof.
  intros (Hlate & r & Hr & Hc & Ho) Hrow. assert (r = row) as -> by congruence. split; [done|].
  destruct (open_row_sealed L s row _ Ho) as (env' & ref & v & p' & Hu & Href & Hver & Hs & Heq). exists env'.
  split; [done|]. exists ref, v, p'. rewrite <- Hc. do 3 (split; [done|]). split; [|done]. split; [done|]. exists row. by rewrite <- Heq.
Qed.

Lemma event_id_payload env env' p p' : set_payload env p = set_payload env' p' -> event_id_of env = event_id_of env'.
Proof. destruct env, env'. cbn. by intros [= -> _ _ _ _ _ _]. Qed.
(** ** Reading an archived event *)
Lemma clear_delivered e : well_formed e -> clear_of B (envelope_of B e) = delivered e.
Proof.
  intros Hwf. unfold clear_of, event_id_of. cbn. rewrite (wf_id e Hwf). cbn. by rewrite <- (build_delivered B e (he_Payload e) Hwf).
Qed.

Lemma cold_read m m' cfg i e row ev :
  bsound m -> well_formed e -> wired L ulid cfg -> in_archive (bs_dek (m_state m)) e ->
  db_audit (st_db (bs_dek (m_state m))) !! he_ID e = Some row ->
  bus_runs (decodeColdRow L B cfg row i) m (Ok (ev, false)) m' -> ev = delivered e.
Proof.
  intros Sm Hwf Hw Ha Hrow Hr.
  destruct (bus_runs_wp _ _ _ _ _ Hr Sm (wp_decodeColdRow L B ulid cfg row i _ Hw)) as (_ & _ & env & Henv & Hcl & Hread).
  destruct Ha as [r Hr0 Hcn Href Hu _|ct Ha _].
  - assert (r = row) as -> by congruence. assert (env = envelope_of B e) as -> by congruence.
    specialize (Hcl Hcn). rewrite clear_delivered in Hcl by done. congruence.
  - destruct (archived_as_read _ _ _ _ _ _ Ha Hrow) as (Hcn & env' & Hu' & ref & v & p' & Href & Hver & Hse & Hae & Heq).
    rewrite Hcn in Hread. destruct (Hread ltac:(done)) as (ref2 & v2 & Href2 & Hver2 & _ & _ & Hpl).
    assert (env = env') as -> by congruence. assert (ref2 = ref) as -> by congruence. assert (v2 = v) as -> by congruence.
    cbn [fst] in Hpl. pose proof (event_id_payload _ _ _ _ Heq) as Hev.
    rewrite (event_id_stamped B e ct (wf_id e Hwf)) in Hev. rewrite <- Hev in Hpl. rewrite (Hpl p' Hse Hae).
    rewrite <- (build_payload B _ _ _ _ _ Heq). by apply build_delivered.
Qed.

(** The headers of a carried message. *)
Lemma carried_id s e msg id : well_formed e -> carries L B s e msg ->
  ulid_Parse B (HGet B HeaderMsgID (msg_Header msg)) = Ok id -> id = he_ID e.
Proof.
  intros Hwf Hc. destruct Hc; cbn [msg_Header]; rewrite (stamped B e _ _ HeaderMsgID) by set_solver; cbn;
    rewrite parse_ulid by apply (wf_id e Hwf); by intros [= <-].
Qed.

(** A reader has a guard, or no keys to open anything with. *)
Definition guarded (cfg : ReadConfig) : Prop := rc_authGuard cfg = None -> rc_selector cfg = None.

(** Without a key nothing sealed is opened. *)
Lemma keyless_fails cfg env cn ev : rc_selector cfg = None -> cn <> NameIdentity -> ~ unguarded_read L B cfg env cn ev.
Proof.
  intros Hs Hcn (c & p & Hc & Hd & _). revert Hc Hd. unfold decode_unguarded. rewrite Hs. unfold codec_Resolve.
  apply String.eqb_neq in Hcn. rewrite Hcn. destruct (String.eqb cn NameXChaCha20v1); [|done]. by intros [= <-].
Qed.

Lemma hot_read m m' cfg i e msg ev :
  bsound m -> well_formed e -> wired L ulid cfg -> guarded cfg -> in_archive (bs_dek (m_state m)) e ->
  carries L B (bs_dek (m_state m)) e msg ->
  bus_runs (decodeJetStreamMessage L B cfg msg i) m (Ok ev) m' -> he_MetadataOnly ev = false -> ev = delivered e.
Proof.
  intros Sm Hwf Hw Hgd Ha Hc Hr Hmo.
  destruct (bus_runs_wp _ _ _ _ _ Hr Sm (wp_decodeJetStreamMessage L B ulid cfg msg i _ Hw))
    as (_ & _ & id & env & Hid & Henv & Hcl & Hun & Hread).
  pose proof (carried_id _ _ _ _ Hwf Hc Hid) as ->. clear Hid. destruct Hc as [data Hs Hu|data ct ref v x k Hs Hu Hse Hr63 Hv31 Hx Hk Hkx];
    cbn [msg_Header msg_Data] in *.
  - rewrite Hcl; [|by rewrite (stamped B e _ _ HeaderCodec) by set_solver].
    assert (env = envelope_of B e) as -> by congruence. by apply clear_delivered.
  - destruct Ha as [|ct' (Hl3 & r3 & Hr3 & Hc3 & Ho3) _]; [congruence|]. rewrite (stamped B e _ _ HeaderCodec) in Hun by set_solver.
    rewrite (stamped B e _ _ HeaderCodec), (stamped B e _ _ HeaderDekRef), (stamped B e _ _ HeaderDekVersion) in Hread by set_solver.
    destruct Hread as (ref2 & v2 & r & Hp2 & -> & Hok); [done| |].
    { intros Hn. eapply (keyless_fails cfg); [by apply Hgd| |by apply Hun]; done. } cbn in Hp2. unfold parseDEKHeaders in Hp2.
    rewrite !Parse_FormatUint in Hp2 by lia. injection Hp2 as <- <-.
    cbn in Hmo. unfold read_ok in Hok. rewrite Hmo in Hok. destruct Hok as (_ & _ & Hpl).
    assert (env = set_payload (envelope_of B e) ct) as -> by congruence.
    assert (Hset : set_id (set_payload (envelope_of B e) ct) (he_ID e) = set_payload (envelope_of B e) ct) by done.
    rewrite Hset, (event_id_stamped B e ct (wf_id e Hwf)) in Hpl.
    rewrite Hmo, (Hpl (he_Payload e) Hse), (build_delivered B e ct Hwf); [done|split; [done|by exists r3] ].
Qed.
End Cluster.

Open Scope string_scope.
Open Scope Z_scope.

(** ** Libraries *)
#[export] Instance Rendering_eq_dec : EqDecision RenderingMetadata.
Proof. solve_decision. Defined.
#[export] Instance Rendering_countable : Countable RenderingMetadata :=
  inj_countable' (fun r => (rm_Category r, rm_Format r, rm_Label r, rm_DisplayTarget r, rm_SourcePlugin r, rm_SourcePluginVersion r))
    (fun '(c, f, l, d, s, v) => mkRendering c f l d s v) ltac:(by intros []).

Definition no_rendering : RenderingMetadata := mkRendering EmptyString EmptyString EmptyString 0 EmptyString EmptyString.
Definition rendering_bits (r : RenderingMetadata) : string := bits (encode r).
Definition bits_rendering (s : string) : RenderingMetadata := default no_rendering (decode (of_bits s)).

Definition toy_bus : BusLib :=
  mkBusLib (fun i => String "U" i)
    (fun s => match s with
              | String _ i => if (String.length i =? 16)%nat then Ok i else Err (ErrNew "ulid")
              | EmptyString => Err (ErrNew "ulid")
              end)
    rendering_bits bits_rendering
    (fun r => Ok (String "J" (rendering_bits r)))
    (fun s => match s with String _ b => Ok (bits_rendering b) | EmptyString => Err (ErrNew "json") end)
    (fun s => HasPrefix s "J") (fun _ => Ok tt) CanonicalMIMEHeaderKey [("Traceparent", "00-trace-span-01")].

Lemma bits_rendering_bits r : bits_rendering (rendering_bits r) = r.
Proof. unfold bits_rendering, rendering_bits. by rewrite of_bits_bits, decode_encode. Qed.

#[export] Instance toy_bus_laws : BusLaws toy_bus.
Proof.
  split; unfold toy_bus; cbn [ulid_String ulid_Parse rendering_encode rendering_decode rendering_json rendering_of_json json_valid nats_key otel_inject].
  - intros i Hi. by rewrite Hi.
  - done.
  - intros [|c i'] i; [done|]. destruct (String.length i' =? 16)%nat eqn:E; [|done]. intros [= <-]. by apply Nat.eqb_eq.
  - apply bits_rendering_bits.
  - intros r j [= <-]. rewrite bits_rendering_bits. by destruct (rendering_bits r).
  - done.
  - intros k v [= -> ->]%list_elem_of_singleton. vm_compute. set_solver.
Qed.

(** ** The parts *)
Definition bus_toy_env (n : nat) : bus_env :=
  mkBusEnv (toy_env n) None true None (fun r => Ok (mkDecision true EffectAllow "policy" EmptyString [] None)) (fun _ => false) None.

Lemma bus_toy_env_ok `{fate : Fate} b n : bus_valid toy_lib b (bus_toy_env n).
Proof. apply (toy_env_ok (bs_dek b) n). Qed.

Definition alice : string := "alice-0123456789".
Definition pose_rendering : RenderingMetadata := mkRendering "rp" "plain" "poses" 1 "core-comm" "1.0".
Definition pose : HostEvent :=
  mkHostEvent "pose-00000000001" 0 "events.g1.character.alice" "character.pose" 5 (mkHostActor ActorKindCharacter alice)
    "waves." true (Some pose_rendering) {[ headerRendering := String "J" (rendering_bits pose_rendering) ]} false
    NoPlaintextReasonUnspecified.

Definition bus_publisher : Publisher := mkPublisher node true true identityKeySelector None 120 20.
Definition scribe_manager : PluginManager :=
  mkPluginManager {[ "scribe" := mkManifest "scribe" (Some (mkCryptoSection [] [mkCryptoConsume ["events.>"] ["character.pose"] ])) ]} ∅.
Definition reader : ReadConfig :=
  mkReadConfig (Some (mkGuard node (NewPluginManifestLookup (Some scribe_manager)))) (Some node) true (Some (FallbackResolver node)) None.
Definition alice_session : Identity := mkIdentity IdentityKindCharacter "player-1" alice "binding-1" EmptyString EmptyString.
Definition scribe_session : Identity := mkIdentity IdentityKindPlugin EmptyString EmptyString EmptyString "scribe" "inst-1".

(** ** The run *)
Definition st_published : Bus :=
  (run bus_exec bus_toy_env (Publish toy_lib toy_bus bus_publisher pose) (m_state bus_initial)).2.
Definition m_published : machine bcall Bus := mkMachine st_published [].

Definition pose_msg : Msg := default (mkMsg EmptyString EmptyString ∅) (head (bs_stream st_published)).
Definition pose_delivery : Delivery := mkDelivery pose_msg (Ok (mkMsgMetadata 1 7 1)).
Definition pose_row : audit_rec :=
  match audit_row toy_bus (msg_Subject pose_msg) pose_delivery with
  | Ok (_, r) => r
  | Err _ => archived_row
  end.

Definition m_archived : machine bcall Bus := archive m_published (he_ID pose) pose_row.

Definition alice_rekey : RekeyRequest :=
  mkRekeyRequest "character" "alice" "suspected leak" (mkOperator "op-1" "root" true "local") None false.
Definition bus_rekeyed : Bus := (run bus_exec bus_toy_env (lift (forget (Run node 5 alice_rekey))) (m_state m_archived)).2.

(** The server restarts: its caches are gone. *)
Definition bus_restarted : Bus :=
  let s := bs_dek bus_rekeyed in
  with_dek bus_rekeyed (mkSt (st_db s) (delete "node-1" (st_keys s)) (delete "node-1" (st_parts s)) (st_emitted s)).
Definition m_restarted : machine bcall Bus := mkMachine bus_restarted [].

Definition row_restarted : audit_rec := default pose_row (db_audit (st_db (bs_dek bus_restarted)) !! he_ID pose).
Definition read_row : result (HostEvent * bool) :=
  (run bus_exec bus_toy_env (decodeColdRow toy_lib toy_bus reader row_restarted alice_session) bus_restarted).1.
Definition read_msg (i : Identity) : result HostEvent :=
  (run bus_exec bus_toy_env (decodeJetStreamMessage toy_lib toy_bus reader pose_msg i) bus_restarted).1.

(** The published event's key is gone; its row, under the new key, is read by the
    participant, the message, through the archive, by the plugin. *)
Example scenario_checks :
  (run bus_exec bus_toy_env (Publish toy_lib toy_bus bus_publisher pose) (m_state bus_initial)).1 = Ok tt
  /\ au_dek_ref pose_row = Some 1 /\ au_dek_ref row_restarted = Some 2
  /\ kr_destroyed_at <$> db_keys (st_db (bs_dek bus_restarted)) !! 1 = Some (Some 36)
  /\ match read_row with Ok r => he_Payload r.1 = "waves." /\ r.2 = false | Err _ => False end
  /\ match read_msg scribe_session with Ok ev => he_Payload ev = "waves." /\ he_MetadataOnly ev = false | Err _ => False end.
Proof. split_and!; vm_compute; try split; reflexivity. Qed.

(** ** The scenario as a run of the cluster *)
Definition alice_ctx : ContextID := mkContext "character" "alice".

Section Scenario.
Context `{fate : Fate} (Hkept : ~ withdrawn alice_ctx 1).
Local Abbreviation steps := (rtc (bus_step toy_lib toy_bus same_text)).

Lemma published_run :
  bus_runs toy_lib toy_bus same_text (Publish toy_lib toy_bus bus_publisher pose) bus_initial (Ok tt) m_published.
Proof.
  destruct scenario_checks as [H _]. pose proof (runs_alone bus_exec (bus_valid toy_lib)
    (bus_serves toy_lib toy_bus same_text) bus_outside bus_toy_env (Publish toy_lib toy_bus bus_publisher pose) []
    (m_state bus_initial) bus_toy_env_ok) as Hr. rewrite H in Hr. exact Hr.
Qed.

Lemma pose_well_formed : well_formed pose.
Proof. split; [reflexivity..|]. intros r [= <-]. cbn. lia. Qed.

Lemma pose_audit_row : audit_row toy_bus (msg_Subject pose_msg) pose_delivery = Ok (he_ID pose, pose_row).
Proof.
  assert (H : match audit_row toy_bus (msg_Subject pose_msg) pose_delivery with Ok (i, _) => i = he_ID pose | Err _ => False end)
    by (vm_compute; reflexivity).
  unfold pose_row. destruct (audit_row _ _ _) as [[i r]|]; [by subst|done].
Qed.

Lemma pose_arrival : arrival_ok (bs_dek (m_state m_published)) (he_ID pose) pose_row.
Proof.
  split; [vm_compute; reflexivity|]. split; [reflexivity|].
  intros o Ho _. assert (o = 1) as -> by (destruct scenario_checks as (_ & H & _); congruence).
  split.
  - assert (Hk : exists k, db_keys (st_db (bs_dek (m_state m_published))) !! 1 = Some k /\ kr_destroyed_at k = None
      /\ k_ctx k = alice_ctx /\ k_ver k = 1) by (vm_compute; eauto 6).
    destruct Hk as (k & Hk & Hd & Hx & Hv). exists k. split; [done|]. split; [unfold destroyed; rewrite Hd; by intros []|].
    intros _. by rewrite Hx, Hv.
  - intros rid c Hc. assert (E : map_to_list (db_ckpts (st_db (bs_dek (m_state m_published)))) = []) by (vm_compute; reflexivity).
    apply map_to_list_empty_iff in E. by rewrite E, lookup_empty in Hc.
Qed.

Lemma restarted_later : steps m_archived m_restarted.
Proof.
  apply (rtc_r _ (mkMachine bus_rekeyed [])).
  - apply (serve_alone bus_exec (bus_valid toy_lib) (bus_serves toy_lib toy_bus same_text) bus_outside bus_toy_env []
      (lift (forget (Run node 5 alice_rekey))) (m_state m_archived) bus_toy_env_ok).
    apply bs_dek_program, (sv_rekey toy_lib same_text node 5 alice_rekey node_member).
  - apply happens. apply (bs_outside bus_rekeyed), server_restarts.
Qed.

Lemma run_forget {A} (p : bprog A) ens b : (run bus_exec ens (forget p) b).2 = (run bus_exec ens p b).2.
Proof.
  unfold forget, mbind, prog_mbind. revert b ens. induction p as [r|A' c k IH]; intros b ens; cbn; [done|].
  destruct (bus_exec (ens 0%nat) A' c b). apply IH.
Qed.

Lemma posed_reachable : bus_reachable toy_lib toy_bus same_text m_published.
Proof.
  unfold bus_reachable, m_published, st_published. rewrite <- run_forget.
  apply (serve_alone bus_exec (bus_valid toy_lib) (bus_serves toy_lib toy_bus same_text) bus_outside bus_toy_env []
    (forget (Publish toy_lib toy_bus bus_publisher pose)) (m_state bus_initial) bus_toy_env_ok).
  by apply bs_publish.
Qed.

Lemma restarted_reachable : bus_reachable toy_lib toy_bus same_text m_restarted.
Proof.
  unfold bus_reachable. etransitivity; [exact posed_reachable|]. etransitivity; [|exact restarted_later].
  apply rtc_once, archive_step, pose_arrival.
Qed.

Lemma reader_wired : wired toy_lib same_text reader.
Proof. split; [by intros ? [= <-]|by intros ? [= <-]|by intros ? [[=]|[= <-]] ]. Qed.

Lemma reader_guarded : guarded reader.
Proof. by intros [=]. Qed.

Lemma alone {A} (p : bprog A) r :
  (run bus_exec bus_toy_env p bus_restarted).1 = r ->
  bus_runs toy_lib toy_bus same_text p m_restarted r (mkMachine (run bus_exec bus_toy_env p bus_restarted).2 []).
Proof.
  intros <-. apply (runs_alone bus_exec (bus_valid toy_lib) _ _ bus_toy_env p [] bus_restarted bus_toy_env_ok).
Qed.

End Scenario.

Lemma row_restarted_lookup : db_audit (st_db (bs_dek (m_state m_restarted))) !! he_ID pose = Some row_restarted.
Proof.
  assert (H : match db_audit (st_db (bs_dek bus_restarted)) !! he_ID pose with Some _ => true | None => false end = true)
    by (vm_compute; reflexivity).
  unfold row_restarted. change (m_state m_restarted) with bus_restarted. revert H.
  by destruct (db_audit (st_db (bs_dek bus_restarted)) !! he_ID pose).
Qed.

Lemma row_restarted_sealed : au_codec row_restarted <> NameIdentity.
Proof. assert (H : au_codec row_restarted = NameXChaCha20v1) by (vm_compute; reflexivity). by rewrite H. Qed.

Lemma only_pose_published msg : msg ∈ bs_stream (m_state m_published) -> msg = pose_msg.
Proof.
  change (m_state m_published) with st_published. assert (H : length (bs_stream st_published) = 1%nat) by (vm_compute; reflexivity).
  unfold pose_msg. destruct (bs_stream st_published) as [|x [|y l] ]; [done| |done]. cbn. apply list_elem_of_singleton.
Qed.
