(* ===== verification/BusClaims.v ===== *)
(** What holds of publishing and reading in every run of the cluster, and that the
    projection loses no event: what it acknowledges is archived or owned by a plugin,
    what it gives up on is in the dead-letter stream, and a replay restores it under
    its own subject. *)

From S2P Require Import Prelude GoStrings EntityRef PolicyTypes Sql Programs DekTypes EventCrypto DekCache DekStore DekManager Rekey DekInv DekInvOps DekInvTx DekSafety DekWorld BusTypes EventPublish AuditProjection AuthGuard HistoryRead BusFacts BusSafety BusCluster.
From stdpp Require Import relations.

Open Scope string_scope.
Open Scope Z_scope.

(** C4: what was published is what is read.  When [Publish] reports success the
    stream holds a message of the event; once that message is archived in time -- while
    its key is neither destroyed nor replaced by a rekey, nor that of a rotation to be
    withdrawn -- then whatever the cluster does -- further publishes and reads, keys
    rotated, re-encrypted and destroyed by rekeys on any server, other events archived
    late, crashes, cache losses, database faults -- a read that hands out the payload,
    of the archived row as it then is or of the original message still in the stream,
    hands out the event as published: its id, subject, type, timestamp, actor,
    rendering and payload.  The event is well formed: its identifiers are ULIDs and its
    display target a byte; the selector is the one both deployments use; and the reader
    has a guard or, without one, no keys. *)
Theorem published_events_read_back `{fate : Fate} L B ulid `{!CryptoLaws L, !BusLaws B} p e m m1 :
  bus_reachable L B ulid m -> member L ulid (pb_server p) -> pb_selector p = identityKeySelector -> well_formed e ->
  bus_runs L B ulid (Publish L B p e) m (Ok tt) m1 ->
  exists msg, msg ∈ bs_stream (m_state m1) /\ msg_Subject msg = he_Subject e
    /\ forall d id row m2 m3 cfg i,
         dl_Msg d = msg -> audit_row B (msg_Subject msg) d = Ok (id, row) ->
         rtc (bus_step L B ulid) m1 m2 -> arrival_ok (bs_dek (m_state m2)) id row -> ~ late id ->
         rtc (bus_step L B ulid) (archive m2 id row) m3 -> wired L ulid cfg -> guarded cfg ->
         id = he_ID e
         /\ (forall row3 ev m4, db_audit (st_db (bs_dek (m_state m3))) !! id = Some row3 ->
               bus_runs L B ulid (decodeColdRow L B cfg row3 i) m3 (Ok (ev, false)) m4 -> ev = delivered e)
         /\ forall ev m4, bus_runs L B ulid (decodeJetStreamMessage L B cfg msg i) m3 (Ok ev) m4 ->
              he_MetadataOnly ev = false -> ev = delivered e.
Proof.
  intros Hm Hp Hsel Hwf Hrun. pose proof (bus_reachable_sound L B ulid m Hm) as Sm.
  destruct (bus_runs_wp L B ulid _ _ _ _ _ Hrun Sm (wp_Publish L B ulid p e _ Hp Hsel)) as (Sm1 & _ & msg & Hin & Hc).
  exists msg. split; [done|]. split; [by destruct Hc|].
  intros d id row m2 m3 cfg i Hd Hrow H12 Ha Hlate H23 Hw Hgd. destruct (bus_steps_sound L B ulid _ _ H12 Sm1) as [Sm2 G12].
  destruct (bus_steps_sound L B ulid _ _ (rtc_once _ _ (archive_step L B ulid _ _ _ Ha)) Sm2) as [Sma Ga].
  destruct (bus_steps_sound L B ulid _ _ H23 Sma) as [Sm3 G23].
  apply (carries_grow L B _ (bs_dek (m_state m2))) in Hc; [|apply G12].
  destruct (archived_row_opens L B m2 e msg d id row Hc Hwf Hd Hrow Ha Hlate) as [-> Hin3]. split; [done|].
  apply (in_archive_grow L B _ _ _ (bg_dek _ _ _ G23)) in Hin3.
  apply (carries_grow L B _ (bs_dek (m_state m3))) in Hc; [|etransitivity; [apply Ga|apply G23] ].
  split; intros; [by eapply cold_read|by eapply hot_read].
Qed.

(** The scenario's run has nothing late. *)
#[local] Existing Instance no_fate.

Lemma spared : ~ withdrawn alice_ctx 1.
Proof. intros []. Qed.

Lemma published_events_read_back_witness :
  exists r ev, read_row = Ok r /\ read_msg scribe_session = Ok ev /\ r = (delivered pose, false) /\ ev = delivered pose.
Proof.
  destruct scenario_checks as (_ & _ & _ & _ & Hr & Hm).
  destruct read_row as [ [ev1 w]|] eqn:E1; [|destruct Hr]. destruct (read_msg scribe_session) as [ev2|] eqn:E2; [|destruct Hm].
  cbn in Hr. destruct Hr as [_ ->]. destruct Hm as [_ Hm].
  destruct (published_events_read_back toy_lib toy_bus same_text bus_publisher pose bus_initial m_published
    (rtc_refl _ _) node_member eq_refl pose_well_formed published_run) as (msg & Hin & _ & Hread).
  pose proof (only_pose_published msg Hin) as ->.
  destruct (Hread pose_delivery (he_ID pose) pose_row m_published m_restarted reader alice_session eq_refl pose_audit_row
    (rtc_refl _ _) (pose_arrival spared) (fun H => H) restarted_later reader_wired reader_guarded) as (_ & Hcold & _).
  destruct (Hread pose_delivery (he_ID pose) pose_row m_published m_restarted reader scribe_session eq_refl pose_audit_row
    (rtc_refl _ _) (pose_arrival spared) (fun H => H) restarted_later reader_wired reader_guarded) as (_ & _ & Hhot).
  exists (ev1, false), ev2. do 2 (split; [reflexivity|]). split.
  - f_equal. eapply (Hcold row_restarted ev1); [exact row_restarted_lookup|apply alone; exact E1].
  - eapply Hhot; [apply alone; exact E2|exact Hm].
Defined.

(** The reader was entitled to the event under the key, and a plugin's reading was
    recorded. *)
Definition rightful (cfg : ReadConfig) (b : Bus) (i : Identity) (ref v : Z) (env : Event) : Prop :=
  (exists g, rc_authGuard cfg = Some g /\ entitled g b (mkCheckRequest i ref v (ev_Type env) (event_id_of env) false))
  /\ (is_plugin i = true -> exists rec, rec ∈ bs_decrypts b /\ pd_PluginName rec = id_PluginName i
        /\ pd_PluginInstanceID rec = id_InstanceID i /\ pd_EventID rec = event_id_of env).

(** C6: plaintext reaches only those entitled to it.  A read of an encrypted row, or of
    an encrypted message by a reader with a guard, by whatever session, either withholds
    the payload or hands it to a character whose binding the row of the key that the
    record or message names lists, to a player that row lists whom the policy engine,
    its decision logged, allowed, or to a plugin whose manifest asks for the type in the
    envelope read, whom the engine allowed and whose reading was queued as a decrypt
    record; never to an operator or an unknown session.  A reader without a guard reads
    no encrypted row, and of a message it hands out only what the key its selector
    supplies opens without authenticated metadata. *)
Theorem plaintext_only_to_the_entitled `{fate : Fate} L B ulid `{!CryptoLaws L, !BusLaws B} m cfg i :
  bus_reachable L B ulid m -> wired L ulid cfg ->
  (forall row ev withheld m', au_codec row <> NameIdentity ->
     bus_runs L B ulid (decodeColdRow L B cfg row i) m (Ok (ev, withheld)) m' ->
     if withheld : bool then he_Payload ev = EmptyString
     else exists ref v env, au_dek_ref row = Some ref /\ au_dek_version row = Some v
            /\ unmarshalEvent L (au_envelope row) = Ok env /\ rightful cfg (m_state m') i ref v env)
  /\ (forall msg ev m', HGet B HeaderCodec (msg_Header msg) <> NameIdentity ->
        bus_runs L B ulid (decodeJetStreamMessage L B cfg msg i) m (Ok ev) m' ->
        exists id env, ulid_Parse B (HGet B HeaderMsgID (msg_Header msg)) = Ok id /\ unmarshalEvent L (msg_Data msg) = Ok env
          /\ if bool_decide (rc_authGuard cfg = None)
             then unguarded_read L B cfg (set_id env id) (HGet B HeaderCodec (msg_Header msg)) ev
             else if he_MetadataOnly ev then he_Payload ev = EmptyString
             else exists ref v, parseDEKHeaders (HGet B HeaderDekRef (msg_Header msg)) (HGet B HeaderDekVersion (msg_Header msg)) = Ok (ref, v)
                    /\ rightful cfg (m_state m') i ref v (set_id env id)).
Proof.
  intros Hm Hw. pose proof (bus_reachable_sound L B ulid m Hm) as Sm. split.
  - intros row ev withheld m' Hcn Hr.
    destruct (bus_runs_wp L B ulid _ _ _ _ _ Hr Sm (wp_decodeColdRow L B ulid cfg row i _ Hw)) as (_ & _ & env & Henv & _ & Hread).
    destruct (Hread Hcn) as (ref & v & Href & Hver & Hok). unfold read_ok in Hok. cbn [fst snd] in Hok.
    destruct withheld; [done|]. destruct Hok as (Hg & Hrec & _). by exists ref, v, env.
  - intros msg ev m' Hcn Hr.
    destruct (bus_runs_wp L B ulid _ _ _ _ _ Hr Sm (wp_decodeJetStreamMessage L B ulid cfg msg i _ Hw))
      as (_ & _ & id & env & Hid & Henv & _ & Hun & Hread).
    exists id, env. split; [done|]. split; [done|]. case_bool_decide as Hg; [by apply Hun|].
    destruct (Hread Hcn Hg) as (ref & v & r & Hp & -> & Hok). unfold read_ok in Hok. cbn.
    destruct r as [ev [|] ]; cbn in *; [done|]. destruct Hok as (Hg' & Hrec & _). by exists ref, v.
Qed.

Lemma plaintext_only_to_the_entitled_witness :
  exists r, read_row = Ok r /\ exists ref v env (m' : machine bcall Bus), au_dek_ref row_restarted = Some ref
    /\ au_dek_version row_restarted = Some v /\ unmarshalEvent toy_lib (au_envelope row_restarted) = Ok env
    /\ rightful reader (m_state m') alice_session ref v env.
Proof.
  destruct scenario_checks as (_ & _ & _ & _ & Hr & _).
  destruct read_row as [ [ev w]|] eqn:E; [|destruct Hr]. cbn in Hr. destruct Hr as [_ ->].
  exists (ev, false). split; [reflexivity|].
  destruct (plaintext_only_to_the_entitled toy_lib toy_bus same_text m_restarted reader alice_session (restarted_reachable spared)
    reader_wired) as [Hrow _].
  destruct (Hrow row_restarted ev false _ row_restarted_sealed (alone _ _ E)) as (ref & v & env & H1 & H2 & H3 & H4).
  exists ref, v, env, (mkMachine (run bus_exec bus_toy_env (decodeColdRow toy_lib toy_bus reader row_restarted alice_session) bus_restarted).2 []).
  split; [exact H1|]. split; [exact H2|]. split; [exact H3|exact H4].
Defined.

(** Once a rekey has destroyed a key, the participants of the context cannot read
    the events still in the stream under it.  Whatever resolver the reader has, and
    although the event's archived copy is readable under the new key, a read of such
    a message by a character or a player ends in an error: the guard looks up the
    participants of the destroyed key before the resolver could fall back to the
    archive. *)
Theorem destroyed_key_bars_participants `{fate : Fate} L B ulid `{!CryptoLaws L, !BusLaws B} m cfg i msg ref v k r m' :
  bus_reachable L B ulid m -> rc_authGuard cfg <> None ->
  id_Kind i = IdentityKindCharacter \/ id_Kind i = IdentityKindPlayer ->
  HGet B HeaderCodec (msg_Header msg) <> NameIdentity ->
  parseDEKHeaders (HGet B HeaderDekRef (msg_Header msg)) (HGet B HeaderDekVersion (msg_Header msg)) = Ok (ref, v) ->
  db_keys (st_db (bs_dek (m_state m))) !! ref = Some k -> destroyed k ->
  bus_runs L B ulid (decodeJetStreamMessage L B cfg msg i) m r m' -> exists e, r = Err e.
Proof.
  intros Hm Hg Hi Hcn Hp Hk Hd Hr. assert (Hgone : gone (bs_dek (m_state m)) ref) by by exists k.
  destruct (bus_runs_wp L B ulid _ _ _ _ _ Hr (bus_reachable_sound L B ulid m Hm)
    (wp_message_gone L B ulid cfg msg i ref v _ Hg Hcn Hp Hgone Hi)) as (_ & _ & H).
  destruct r as [ev|e]; [destruct H|eauto].
Qed.

Lemma destroyed_key_bars_participants_witness :
  exists e, read_msg alice_session = Err e.
Proof.
  assert (Hk : match db_keys (st_db (bs_dek bus_restarted)) !! 1 with Some k => bool_decide (destroyed k) | None => false end = true)
    by (vm_compute; reflexivity).
  destruct (db_keys (st_db (bs_dek bus_restarted)) !! 1) as [k|] eqn:E; [|done]. apply bool_decide_eq_true in Hk.
  refine (destroyed_key_bars_participants toy_lib toy_bus same_text m_restarted reader alice_session pose_msg 1 1 k
    (read_msg alice_session) _ (restarted_reachable spared) _ _ _ _ E Hk (alone _ _ eq_refl)).
  - discriminate.
  - left. reflexivity.
  - assert (H : HGet toy_bus HeaderCodec (msg_Header pose_msg) = NameXChaCha20v1) by (vm_compute; reflexivity).
    rewrite H. discriminate.
  - vm_compute. reflexivity.
Defined.

Definition with_headers (e : HostEvent) (h : gmap string string) : HostEvent :=
  mkHostEvent (he_ID e) (he_Seq e) (he_Subject e) (he_Type e) (he_Timestamp e) (he_Actor e) (he_Payload e)
    (he_Sensitive e) (he_Rendering e) h (he_MetadataOnly e) (he_NoPlaintextReason e).

(** What the publisher itself writes under a system header. *)
Definition own_header (B : BusLib) (e : HostEvent) (codecName : string) (dek : option Key) (k : string) : string :=
  if String.eqb k HeaderMsgID then ulid_String B (he_ID e)
  else if String.eqb k HeaderSchemaVersion then SchemaVersion
  else if String.eqb k HeaderEventType then he_Type e
  else if String.eqb k HeaderCodec then codecName
  else if String.eqb k HeaderActorKind then ActorKind_String (ha_Kind (he_Actor e))
  else if String.eqb k HeaderDekRef then from_option (fun d => FormatUint (k_ID d)) EmptyString dek
  else from_option (fun d => FormatUint (k_Version d)) EmptyString dek.

(** C31: callers cannot forge the system headers.  In the message made of an event each
    of the seven -- its id, schema version, type, codec, actor kind, and the id and
    version of its key -- is what the publisher writes of the event, the codec and the
    key, whatever headers the caller attached and the propagator wrote, under whatever
    spelling; with other headers attached the message has the same seven, and the same
    envelope.  (The actor id and the trace context are not among them: see below.) *)
Theorem system_headers_unforgeable L B `{!BusLaws B} e codecName c key dek nonce msg k :
  seal_event L B e codecName c key dek nonce = Ok msg -> k ∈ system_headers ->
  HGet B k (msg_Header msg) = own_header B e codecName dek k
  /\ forall h, exists msg', seal_event L B (with_headers e h) codecName c key dek nonce = Ok msg'
       /\ msg_Data msg' = msg_Data msg /\ HGet B k (msg_Header msg') = HGet B k (msg_Header msg).
Proof.
  intros Hm Hk. assert (Hown : forall e', HGet B k (stamp_headers B e' codecName ((fun k => (k_ID k, k_Version k)) <$> dek))
                                = own_header B e' codecName dek k).
  { intros e'. rewrite stamped by done. unfold own_header. by destruct dek. }
  unfold seal_event in *. change (he_Sensitive (with_headers e _)) with (he_Sensitive e).
  destruct (if he_Sensitive e then _ else _) as [aad|] eqn:Ha; [|done].
  destruct (Encode L c nonce (he_Payload e) key aad) as [ct|] eqn:Hc; [|done].
  destruct (marshalEvent L (set_payload (envelope_of B e) ct)) as [data|] eqn:Hd; [|done]. injection Hm as <-.
  split; [apply Hown|]. intros h. eexists. change (envelope_of B (with_headers e h)) with (envelope_of B e).
  change (he_Payload (with_headers e h)) with (he_Payload e).
  rewrite Ha, Hc, Hd. split; [done|]. split; [done|]. cbn [msg_Header]. by rewrite !Hown.
Qed.

Definition forger : HostEvent := with_headers pose {[ "app-codec" := "identity" ]}.

Lemma system_headers_unforgeable_witness :
  exists msg, seal_event toy_lib toy_bus forger NameXChaCha20v1 XChaCha20Poly1305v1 first_key (Some first_key)
      (fixed_bytes 24 "n") = Ok msg
    /\ HGet toy_bus HeaderCodec (msg_Header msg) = NameXChaCha20v1
    /\ exists msg', seal_event toy_lib toy_bus (with_headers forger ∅) NameXChaCha20v1 XChaCha20Poly1305v1 first_key (Some first_key)
         (fixed_bytes 24 "n") = Ok msg' /\ msg_Data msg' = msg_Data msg.
Proof.
  assert (H : is_ok (seal_event toy_lib toy_bus forger NameXChaCha20v1 XChaCha20Poly1305v1 first_key (Some first_key)
    (fixed_bytes 24 "n")) = true) by (vm_compute; reflexivity).
  destruct (seal_event toy_lib toy_bus forger _ _ _ _ _) as [msg|] eqn:E; [|discriminate H]. exists msg. split; [reflexivity|].
  destruct (system_headers_unforgeable toy_lib toy_bus forger _ _ _ _ _ msg HeaderCodec E) as [Hown Hother]; [unfold system_headers; set_solver|].
  split; [exact Hown|]. destruct (Hother ∅) as (msg' & Hm & Hd & _). exists msg'. split; [exact Hm|exact Hd].
Defined.

(** The reservation does not reach the other names it lists: none of the actor id and
    the trace context is spelled the way it canonicalises.  Unless the propagator
    writes the header, a caller's value replaces the stamped one in the message; the
    projection archives the actor id from that header. *)
Lemma actor_id_header_forgeable B `{!BusLaws B} e codecName dek k v :
  k ∈ [HeaderActorID; "traceparent"; "tracestate"] ->
  (forall kv, kv ∈ otel_inject B -> CanonicalMIMEHeaderKey kv.1 <> CanonicalMIMEHeaderKey k) ->
  k ∈ reservedHeaderKeys
  /\ HGet B k (stamp_headers B (with_headers e {[ k := v ]}) codecName dek) = v.
Proof.
  intros Hk Hot. assert (Hr : k ∈ reservedHeaderKeys /\ reserved_header k = false).
  { rewrite !elem_of_cons, elem_of_nil in Hk. decompose [or] Hk; subst; try done; (split; [unfold reservedHeaderKeys; set_solver|reflexivity]). }
  destruct Hr as [Hr Hn]. split; [done|]. unfold stamp_headers, InjectHeaders.
  rewrite (fold_HSet_keeps B k (fun _ => false)) by (intros kv Hkv _; by apply Hot).
  cbn [with_headers he_Headers]. rewrite map_to_list_singleton. unfold mergeCallerHeaders. cbn [fold_left fst snd]. rewrite Hn.
  by apply HGet_HSet.
Qed.

Open Scope string_scope.
Open Scope Z_scope.

(** ** Running alone, whatever the environment answers *)
Definition always {A} (p : bprog A) (Q : Bus -> A -> Prop) (b : Bus) : Prop :=
  ends bus_exec (fun _ => True) (fun _ _ => True) (fun _ => True) p Q b.

Lemma always_run {A} (p : bprog A) Q ens b : always p Q b -> Q (run bus_exec ens p b).2 (run bus_exec ens p b).1.
Proof.
  revert ens b. induction p as [a|A' c k IH]; intros ens b; cbn; [done|]. intros H.
  specialize (H (ens 0%nat) I (conj I I)). destruct (bus_exec (ens 0%nat) A' c b) as [a b']. by apply (IH a (fun n => ens (S n))).
Qed.

Lemma always_bind {A C} (p : bprog A) (f : A -> bprog C) P Q b :
  always p P b -> (forall d a, P d a -> always (f a) Q d) -> always (p ≫= f) Q b.
Proof. intros Hp Hf. apply ends_bind. eapply ends_mono; [|exact Hp]. intros d a. apply Hf. Qed.

Section Projection.
Context (B : BusLib).

(** The row an insert leaves: its own, or the one that was there. *)
Definition stored (b b' : Bus) (id : string) (row : audit_rec) : Prop :=
  db_audit (st_db (bs_dek b')) !! id = Some (default row (db_audit (st_db (bs_dek b)) !! id)).

Lemma insert_audit_stores id row db u db' : insert_audit B id row db = (Ok u, db') ->
  db_audit db' !! id = Some (default row (db_audit db !! id)).
Proof.
  unfold insert_audit. destruct (negb (int8_ok _)); [done|]. destruct (negb (json_valid _ _)); [done|].
  intros [= _ <-]. case_bool_decide as H; [destruct H as [r Hr]; by rewrite Hr|].
  cbn. rewrite lookup_insert_eq. apply eq_None_not_Some in H. by rewrite H.
Qed.

Lemma always_writeAuditRow subject d b :
  always (writeAuditRow B subject d)
    (fun b' r => bs_dlq b' = bs_dlq b
       /\ (r = Ok tt -> exists id row, audit_row B subject d = Ok (id, row) /\ stored b b' id row)) b.
Proof.
  unfold writeAuditRow. destruct (audit_row B subject d) as [[id row]|e]; cbn [given fst snd]; [|by split].
  intros en _ _. cbn. destruct (en_fault (be_dek en)).
  - destruct (insert_audit B id row (st_db (bs_dek b))) as [[u|e] db'] eqn:E; cbn; [|by split].
    split; [done|]. intros _. exists id, row. split; [done|]. by apply insert_audit_stores in E.
  - cbn. by split.
  - cbn. by split.
Qed.

Definition owned_by_plugin (owners : option (list ownerEntry)) (subject : string) : Prop :=
  exists m, owners = Some m /\ so_PluginName (Resolve_owner m subject) <> EmptyString.

Definition dead_letter_of (dlq : string) (m : Msg) : Msg :=
  mkMsg (dlq +:+ "." +:+ msg_Subject m) (msg_Data m) (msg_Header m).

(** The last delivery the broker makes of a message. *)
Definition last_delivery (maxDeliver : Z) (d : Delivery) : Prop :=
  exists meta, dl_Metadata d = Ok meta /\ 0 < maxDeliver <= mm_NumDelivered meta.

(** The message has no row, or the database refused or lost the insert. *)
Definition unwritten (d : Delivery) (ens : nat -> bus_env) : Prop :=
  match audit_row B (msg_Subject (dl_Msg d)) d with
  | Err _ => True
  | Ok (_, row) => en_fault (be_dek (ens 0%nat)) <> NoFault \/ int8_ok (au_js_seq row) = false
                   \/ json_valid B (au_rendering row) = false
  end.

(** What the answer to the broker says of the event.  The first call a delivery of
    the host's makes is the insert; a second is the capture. *)
Definition accounted (owners : option (list ownerEntry)) (maxDeliver : Z) (dlq : string) (d : Delivery)
    (ens : nat -> bus_env) (b b' : Bus) (a : ack) : Prop :=
  let m := dl_Msg d in
  match a with
  | Ack => owned_by_plugin owners (msg_Subject m)
           \/ exists id row, audit_row B (msg_Subject m) d = Ok (id, row) /\ stored b b' id row
  | Term => ~ owned_by_plugin owners (msg_Subject m) /\ unwritten d ens /\ last_delivery maxDeliver d
            /\ dead_letter_of dlq m ∈ bs_dlq b'
  | NoAck => ~ owned_by_plugin owners (msg_Subject m) /\ unwritten d ens
             /\ (last_delivery maxDeliver d -> exists n, be_dlq (ens n) <> None)
  end.

Lemma run_insert subject d ens b e : (run bus_exec ens (writeAuditRow B subject d) b).1 = Err e ->
  msg_Subject (dl_Msg d) = subject -> unwritten d ens.
Proof.
  unfold writeAuditRow, unwritten. intros He ->. destruct (audit_row B subject d) as [[id row]|x]; [|done]. revert He. cbn.
  destruct (en_fault (be_dek (ens 0%nat))); [|by left|by left]. unfold insert_audit.
  destruct (int8_ok (au_js_seq row)); [|auto]. destruct (json_valid B (au_rendering row)); [done|auto].
Qed.

Lemma run_Capture dlq m ens b : let out := run bus_exec ens (Capture dlq m) b in
  match out.1 with Ok _ => dead_letter_of dlq m ∈ bs_dlq out.2 | Err _ => be_dlq (ens 0%nat) <> None end.
Proof.
  cbn. destruct (be_dlq (ens 0%nat)) as [x|]; [done|]. cbn. rewrite elem_of_app. right. by apply list_elem_of_singleton.
Qed.

Lemma last_delivery_spec maxDeliver d meta : dl_Metadata d = Ok meta ->
  last_delivery maxDeliver d <-> ((0 <? maxDeliver) && (maxDeliver <=? mm_NumDelivered meta))%bool = true.
Proof.
  intros E. unfold last_delivery. rewrite andb_true_iff, Z.ltb_lt, Z.leb_le. split.
  - intros (meta' & E' & H). rewrite E in E'. by simplify_eq.
  - eauto.
Qed.

Lemma host_owned_spec owners subject :
  match owners with Some m => negb (is_empty (so_PluginName (Resolve_owner m subject))) | None => false end = true
  <-> owned_by_plugin owners subject.
Proof.
  unfold owned_by_plugin. split.
  - destruct owners as [m|]; [|done]. intros H. exists m. split; [done|]. by apply is_empty_false, negb_true_iff.
  - intros (m & -> & H). by apply negb_true_iff, is_empty_false.
Qed.

Lemma run_handle owners maxDeliver dlq d ens b :
  let out := run bus_exec ens (handle B owners maxDeliver dlq d) b in
  accounted owners maxDeliver dlq d ens b out.2 out.1.
Proof.
  cbv zeta. unfold handle. pose proof (host_owned_spec owners (msg_Subject (dl_Msg d))) as Ho. revert Ho.
  set (owned := match owners with Some m => _ | None => false end). destruct owned; intros Ho; [left; by apply Ho|].
  assert (Hn : ~ owned_by_plugin owners (msg_Subject (dl_Msg d))) by (intros H; by apply Ho in H). clear Ho.
  match goal with |- context [run _ _ (?p ≫= ?f) _] => destruct (run_bind bus_exec p f ens b) as [n ->] end.
  pose proof (always_run _ _ ens b (always_writeAuditRow (msg_Subject (dl_Msg d)) d b)) as Hw.
  pose proof (run_insert (msg_Subject (dl_Msg d)) d ens b) as Hu. unfold persist.
  destruct (run bus_exec ens _ b) as [[u|e] b1]; cbn [fst snd] in *; [right; destruct u; by apply Hw|].
  specialize (Hu e eq_refl eq_refl). destruct (dl_Metadata d) as [meta|] eqn:Em.
  2:{ split; [done|]. split; [done|]. intros (meta & E & _). by rewrite Em in E. }
  pose proof (last_delivery_spec maxDeliver d meta Em) as Hlast. destruct (_ && _).
  2:{ split; [done|]. split; [done|]. intros H. by apply Hlast in H. }
  pose proof (run_Capture dlq (dl_Msg d) (fun i => ens (n + i)%nat) b1) as Hc.
  destruct (run_bind bus_exec (Capture dlq (dl_Msg d)) (fun c => Done (match c with Ok _ => Term | Err _ => NoAck end))
    (fun i => ens (n + i)%nat) b1) as [n' ->].
  destruct (run bus_exec _ (Capture dlq (dl_Msg d)) b1) as [[u|x] b2]; cbn [fst snd run] in *.
  - split; [done|]. split; [done|]. split; [by apply Hlast|done].
  - split; [done|]. split; [done|]. intros _. by eexists.
Qed.

(** ** Replay *)
Lemma originalSubject_captured dlq subject : dlq <> EmptyString -> subject <> EmptyString ->
  originalSubject (dlq +:+ "." +:+ subject) dlq = (subject, true).
Proof.
  intros Hd Hs. unfold originalSubject. rewrite (proj2 (is_empty_false dlq) Hd).
  rewrite <- app_assoc_str. rewrite TrimPrefix_app. unfold HasPrefix. rewrite GoStrings.prefix_app.
  by rewrite (proj2 (is_empty_false subject) Hs).
Qed.

Lemma always_replayOne dlq subject d res b :
  dlq <> EmptyString -> subject <> EmptyString -> msg_Subject (dl_Msg d) = dlq +:+ "." +:+ subject ->
  always (replayOne B EmptyString dlq d res)
    (fun b' r => rr_Replayed r.2 <> rr_Replayed res ->
       exists id row, audit_row B subject d = Ok (id, row) /\ stored b b' id row) b.
Proof.
  intros Hd Hs Hm. unfold replayOne. cbn [is_empty negb andb]. rewrite Hm, originalSubject_captured by done. cbn [negb].
  eapply always_bind; [apply always_writeAuditRow|]. intros d1 [u|e] [_ Hr].
  - intros _. destruct u. by apply Hr.
  - intros en _ _. cbn. destruct (en_ask _ _ _); cbn; done.
Qed.
End Projection.

(** A dead letter's row is its message's. *)
Lemma audit_row_captured B subject d d' s :
  dl_Msg d' = mkMsg s (msg_Data (dl_Msg d)) (msg_Header (dl_Msg d)) ->
  audit_row B subject d' = audit_row B subject (mkDelivery (dl_Msg d) (dl_Metadata d')).
Proof. intros E. unfold audit_row. by rewrite E. Qed.


(** A database that refuses, and a dead-letter stream that does or does not. *)
Definition refusing (dlq : option error) (n : nat) : bus_env :=
  mkBusEnv (mkEnv (mkClock 0 0 "rekey-0123456789") (Refused (ErrNew "down")) (fun p => ("audit-0123456789", p, None)) true (toy_answer n))
    None true dlq (fun _ => Err (ErrNew "down")) (fun _ => false) None.

Definition dead_letter : Delivery :=
  mkDelivery (dead_letter_of "dlq" pose_msg) (dl_Metadata pose_delivery).
Definition nothing_replayed : ReplayResult := mkReplayResult 0 0 0 0.

