(* ===== verification/DecryptAudit.v ===== *)
(** The emitter of decrypt records: [internal/eventbus/authguard/audit/emitter.go].

    One plugin's queue -- a bounded channel and the throttle flag -- is shared state;
    [EmitPluginDecrypt] and the body of the drain loop are programs of calls on it,
    interleaved in any order ([Programs]).  Queues of different plugins share
    nothing.  The drain threshold, the integer part of a float product, and the JSON
    of a record are parameters. *)

From S2P Require Import Prelude GoStrings Sql Programs EntityRef PolicyTypes DekTypes EventCrypto DekStore DekManager BusTypes EventPublish AuthGuard.
From stdpp Require Import relations.

Open Scope string_scope.
Open Scope Z_scope.
Open Scope prog_scope.

Record Emitter : Type := mkEmitter {
  em_gameID : string;
  em_capacity : Z;
  em_threshold : Z    (* int(float64(capacity) * threshold) *)
}.

(** [NewQueuedEmitter]; options with values out of range are ignored. *)
Definition NewQueuedEmitter (pub : bool) (scale : Z -> Z) (gameID : string) (capacity : Z) : result Emitter :=
  if negb pub then Err (ErrCode "AUDIT_EMITTER_DEPENDENCY_NIL" "nil Publisher")
  else
    let n := if 0 <? capacity then capacity else 10000 in
    Ok (mkEmitter (if is_empty gameID then "holomush" else gameID) n (scale n)).

(** A plugin's queue, with the records accepted and those taken by the drain. *)
Record PluginQueue : Type := mkQueue {
  pq_ch : list PluginDecryptRecord;
  pq_throttled : bool;
  pq_accepted : list PluginDecryptRecord;
  pq_taken : list PluginDecryptRecord
}.
Definition new_queue : PluginQueue := mkQueue [] false [] [].

Inductive qcall : Type -> Type :=
| TrySend (r : PluginDecryptRecord) : qcall bool            (* select with a default *)
| TryReceive : qcall (option PluginDecryptRecord)           (* None: nothing to take yet *)
| Len : qcall Z
| Load : qcall bool
| Store (b : bool) : qcall unit
| PublishEvent (e : HostEvent) : qcall (option error)
| Clock_ : qcall (Z * string)                               (* time.Now, idgen.New *).

Record qenv : Type := mkQEnv { qe_publish : HostEvent -> option error; qe_now : Z; qe_id : string }.

Section Emitter.
Context (q : Emitter) (json_record : PluginDecryptRecord -> Z -> result string).

Definition qexec (en : qenv) (A : Type) (c : qcall A) (s : PluginQueue) : A * PluginQueue :=
  match c in qcall A return A * PluginQueue with
  | TrySend r =>
      if Z.of_nat (length (pq_ch s)) <? em_capacity q
      then (true, mkQueue (pq_ch s ++ [r]) (pq_throttled s) (pq_accepted s ++ [r]) (pq_taken s))%list
      else (false, s)
  | TryReceive =>
      match pq_ch s with
      | [] => (None, s)
      | r :: l => (Some r, mkQueue l (pq_throttled s) (pq_accepted s) (pq_taken s ++ [r]))%list
      end
  | Len => (Z.of_nat (length (pq_ch s)), s)
  | Load => (pq_throttled s, s)
  | Store b => (tt, mkQueue (pq_ch s) b (pq_accepted s) (pq_taken s))
  | PublishEvent e => (qe_publish en e, s)
  | Clock_ => ((qe_now en, qe_id en), s)
  end.

Abbreviation qprog := (prog qcall).

Definition EmitPluginDecrypt_ (rec : PluginDecryptRecord) : qprog (option error) :=
  sent ← Programs.call (TrySend rec);
  if sent : bool then
    n ← Programs.call Len;
    if em_capacity q <=? n then _ ← Programs.call (Store true); Done None else Done None
  else
    _ ← Programs.call (Store true);
    Done (Some (ErrCode "AUDIT_QUEUE_FULL" "audit queue full for plugin")).

(** [ShouldThrottle]; a plugin without a queue is not throttled. *)
Definition ShouldThrottle_ : qprog bool := Programs.call Load.

Definition auditEventType : string := "audit:plugin_decrypt".

Definition buildEvent (pluginName : string) (rec : PluginDecryptRecord) (now : Z) (id : string) : HostEvent :=
  mkHostEvent id 0 ("audit." +:+ em_gameID q +:+ ".plugin_decrypt." +:+ pluginName) auditEventType now
    (mkHostActor ActorKindSystem zero_id)
    (match json_record rec now with Ok p => p | Err _ => "{}" end) false None ∅ false NoPlaintextReasonUnspecified.

Definition drain_threshold : Z := if em_threshold q <? 1 then 1 else em_threshold q.

(** One turn of the drain loop. *)
Definition drain (pluginName : string) : qprog unit :=
  r ← Programs.call TryReceive;
  match r with
  | None => Done tt
  | Some rec =>
      t ← Programs.call Clock_;
      _ ← Programs.call (PublishEvent (buildEvent pluginName rec t.1 t.2));
      throttled ← Programs.call Load;
      if throttled : bool then
        n ← Programs.call Len;
        if n <? drain_threshold then Programs.call (Store false) else Done tt
      else Done tt
  end.

(** ** The machine *)
Inductive qserves (pluginName : string) : qprog unit -> Prop :=
| qs_emit rec : qserves pluginName (forget (EmitPluginDecrypt_ rec))
| qs_drain : qserves pluginName (drain pluginName).

Definition qstep (pluginName : string) : machine qcall PluginQueue -> machine qcall PluginQueue -> Prop :=
  mstep qexec (fun _ _ => True) (qserves pluginName) (fun _ _ => False).

Definition q_initial : machine qcall PluginQueue := mkMachine new_queue [].

(** Nothing accepted is lost or reordered, and the queue is bounded. *)
Record queue_inv (s : PluginQueue) : Prop := mkQueueInv {
  qi_fifo : pq_accepted s = (pq_taken s ++ pq_ch s)%list;
  qi_bound : Z.of_nat (length (pq_ch s)) <= Z.max 0 (em_capacity q)
}.
Record queue_grows (s s' : PluginQueue) : Prop := mkQueueGrows {
  qg_accepted : pq_accepted s `prefix_of` pq_accepted s';
  qg_taken : pq_taken s `prefix_of` pq_taken s'
}.

#[local] Instance queue_grows_preorder : PreOrder queue_grows.
Proof. split; [by split|]. intros s1 s2 s3 [] []. split; by etransitivity. Qed.

Lemma qcall_good A (c : qcall A) : good qexec (fun _ _ => True) queue_inv queue_grows c.
Proof.
  intros s en [Hf Hb] _. unfold keeps. destruct c as [r| | | |b|e|]; cbn; try (split; [done|reflexivity]).
  - destruct (Z.ltb_spec (Z.of_nat (length (pq_ch s))) (em_capacity q)); cbn; [|split; [done|reflexivity] ].
    split; [|split; cbn; [by apply prefix_app_r|done] ]. split; cbn; [by rewrite Hf, app_assoc|].
    rewrite length_app. cbn. lia.
  - destruct (pq_ch s) as [|r l] eqn:E; cbn; [split; [by split; [rewrite E|rewrite E] |reflexivity]|].
    split; [|split; cbn; [done|by apply prefix_app_r] ]. cbn in Hb. split; cbn; [by rewrite Hf, <- app_assoc|lia].
  - by split; split.
Qed.

Lemma tame_all {C} (p : qprog C) : tame qexec (fun _ _ => True) queue_inv queue_grows p.
Proof. induction p as [b|A c k IH]; cbn; [done|]. split; [apply qcall_good|done]. Qed.

Lemma queue_sound plugin m m' : rtc (qstep plugin) m m' ->
  queue_inv (m_state m) -> queue_inv (m_state m') /\ queue_grows (m_state m) (m_state m').
Proof.
  intros Hst HI. assert (Hall : forall (p : qprog unit) s, safe qexec (fun _ _ => True) queue_inv queue_grows s p)
    by (intros; apply rg_tame_safe, tame_all).
  destruct (run_sound qexec (fun _ _ => True) queue_inv queue_grows (qserves plugin) (fun _ _ => False)
    (fun p s _ _ => Hall p s) ltac:(done) _ _ Hst) as [[? _] ?]; [|done].
  split; [done|]. apply Forall_forall. intros p _. apply Hall.
Qed.
End Emitter.

(** ** The throttle can stick

    An emitter that filled the queue is held up between reading its length and
    setting the flag; the drain empties the queue meanwhile and finds the flag
    clear; then the flag is set, with nothing left to take. *)
Section Stuck.
Context (q : Emitter) (json_record : PluginDecryptRecord -> Z -> result string) (plugin : string).
Context (rec : PluginDecryptRecord) (en : qenv).
Local Abbreviation qsteps := (rtc (qstep q json_record plugin)).
Local Abbreviation run_q p s := (run (qexec q) (fun _ => en) p s).

Lemma alone_steps p s ps : qserves q json_record plugin p -> qsteps (mkMachine s ps) (mkMachine (run_q p s).2 ps).
Proof. intros Hp. by apply serve_alone. Qed.

(** [n] records in the queue, none marked. *)
Definition filled (n : nat) (k : nat) : PluginQueue :=
  mkQueue (repeat rec n) false (repeat rec (k + n)) (repeat rec k).

Lemma repeat_snoc {A} (x : A) n : (repeat x n ++ [x])%list = repeat x (S n).
Proof. induction n as [|n IH]; [done|]. cbn. by rewrite IH. Qed.

Lemma fill n : Z.of_nat n < em_capacity q -> qsteps (q_initial) (mkMachine (filled n 0) []).
Proof.
  induction n as [|n IH]; intros Hn; [apply rtc_refl|]. etransitivity; [apply IH; lia|].
  assert (E : (run_q (forget (EmitPluginDecrypt_ q rec)) (filled n 0)).2 = filled (S n) 0).
  { unfold forget, EmitPluginDecrypt_. cbn. rewrite repeat_length, (proj2 (Z.ltb_lt _ _)) by lia. cbn.
    rewrite length_app, repeat_length. cbn. rewrite (proj2 (Z.leb_gt _ _)) by lia. cbn. unfold filled. cbn.
    by rewrite repeat_snoc. }
  rewrite <- E. apply alone_steps, qs_emit.
Qed.

Lemma drained n k ps : qsteps (mkMachine (filled n k) ps) (mkMachine (filled 0 (k + n)) ps).
Proof.
  revert k. induction n as [|n IH]; intros k; [rewrite Nat.add_0_r; apply rtc_refl|].
  etransitivity; [|specialize (IH (S k)); replace (k + S n)%nat with (S k + n)%nat by lia; exact IH].
  assert (E : (run_q (drain q json_record plugin) (filled (S n) k)).2 = filled n (S k)).
  { unfold drain, filled. cbn. rewrite repeat_snoc. cbn. by replace (k + S n)%nat with (S (k + n))%nat by lia. }
  rewrite <- E. apply alone_steps, qs_drain.
Qed.

Lemma emitted_late n : Z.of_nat (S n) = em_capacity q ->
  qsteps (mkMachine (filled n 0) []) (mkMachine (filled (S n) 0) [Call (Store true) (fun _ => Done tt)]).
Proof.
  intros Hn. eapply rtc_l; [apply arrives, (qs_emit q json_record plugin rec)|].
  eapply rtc_l; [eapply (proceeds _ _ _ _ _ _ 0 _ _ _ en); [reflexivity|done]|]. cbn.
  rewrite repeat_length, (proj2 (Z.ltb_lt _ _)) by lia. cbn.
  eapply rtc_l; [eapply (proceeds _ _ _ _ _ _ 0 _ _ _ en); [reflexivity|done]|]. cbn.
  rewrite length_app, repeat_length. cbn. rewrite (proj2 (Z.leb_le _ _)) by lia. rewrite repeat_snoc. cbn. apply rtc_refl.
Qed.

Lemma stuck_state : 1 <= em_capacity q ->
  exists s, qsteps q_initial (mkMachine s []) /\ pq_ch s = [] /\ pq_throttled s = true.
Proof.
  intros Hc. destruct (Z.to_nat (em_capacity q)) as [|n] eqn:E; [lia|]. assert (Hn : Z.of_nat (S n) = em_capacity q) by lia.
  exists (mkQueue [] true (repeat rec (S n)) (repeat rec (S n))). split; [|done].
  etransitivity; [apply (fill n); lia|]. etransitivity; [by apply emitted_late|]. etransitivity; [apply drained|].
  eapply rtc_l; [eapply (proceeds _ _ _ _ _ _ 0 _ _ _ en); [reflexivity|done]|]. cbn.
  apply rtc_once. unfold filled. cbn. rewrite Nat.add_0_r. apply (stops _ _ _ _ _ [Done tt] 0).
Qed.
End Stuck.

(** Backpressure on a plugin can outlast its cause for good.  For every capacity
    there is a run of the emitter after which the plugin's queue is empty, nothing is
    under way, and the throttle flag is set; turns of the drain loop, which clear the
    flag only after taking a record, leave that state as it is, and while the flag
    is set the guard denies the plugin every decryption, so that no record is ever
    emitted that could clear it. *)
Theorem throttle_can_stick q json_record plugin : 1 <= em_capacity q ->
  exists s, rtc (qstep q json_record plugin) q_initial (mkMachine s []) /\ pq_ch s = [] /\ pq_throttled s = true
    /\ (forall ens, (run (qexec q) ens (drain q json_record plugin) s).2 = s)
    /\ forall B g req ens b, id_Kind (cr_Identity req) = IdentityKindPlugin ->
         be_throttle (ens 0%nat) (id_PluginName (cr_Identity req)) = (run (qexec q) (fun _ => mkQEnv (fun _ => None) 0 zero_id) ShouldThrottle_ s).1 ->
         (run bus_exec ens (Check B g req) b).1 = Ok (deny DenyAuditBackpressure).
Proof.
  intros Hc. destruct (stuck_state q json_record plugin (mkDecryptRecord plugin EmptyString zero_id EmptyString EmptyString 0 0 zero_id)
    (mkQEnv (fun _ => None) 0 zero_id) Hc) as (s & Hs & Hch & Ht).
  exists s. do 3 (split; [done|]). split.
  - intros ens. unfold drain. cbn. by rewrite Hch.
  - intros B g req ens b Hk. cbn. rewrite Ht. intros Hth. unfold Check. rewrite Hk.
    destruct (cr_ReadBack req); [unfold checkPluginReadback|unfold checkPlugin]; cbn; by rewrite Hth.
Qed.

Definition small_emitter : Emitter := mkEmitter "g1" 1 1.

Lemma throttle_can_stick_witness :
  exists s, rtc (qstep small_emitter (fun _ _ => Ok "{}") "scribe") q_initial (mkMachine s []) /\ pq_throttled s = true.
Proof.
  destruct (throttle_can_stick small_emitter (fun _ _ => Ok "{}") "scribe" ltac:(vm_compute; discriminate)) as (s & Hs & _ & Ht & _).
  exists s. split; [exact Hs|exact Ht].
Defined.

(** A subject the validation rejects is not published. *)
Lemma Publish_bad_subject L B p e ens b : (exists x, NewSubject (he_Subject e) = Err x) ->
  exists x, run bus_exec ens (Publish L B p e) b = (Err x, b).
Proof.
  intros [x Hx]. unfold Publish, validate_event. destruct (pb_js p); [|by eexists].
  destruct (String.eqb (he_ID e) zero_id); [by eexists|]. rewrite Hx. by eexists.
Qed.

Lemma audit_subject_rejected rest : exists x, NewSubject ("audit." +:+ rest) = Err x.
Proof. unfold NewSubject. rewrite app_cons_str. cbn [is_empty]. case_match; by eexists. Qed.

(** No decrypt record is ever published.  The emitter's events carry a subject of
    the audit namespace, which the publisher's validation rejects, and the drain loop
    discards the error: whatever the record, the publisher, the verb registry of the
    wrapper around it and the state, publishing the event fails and leaves
    everything as it was. *)
Theorem decrypt_records_are_refused q json_record L B reg p plugin rec now id ens b :
  let e := buildEvent q json_record plugin rec now id in
  (exists x, run bus_exec ens (Publish L B p e) b = (Err x, b))
  /\ exists x, run bus_exec ens (RenderingPublish L B reg p e) b = (Err x, b).
Proof.
  cbv zeta. set (e := buildEvent q json_record plugin rec now id).
  assert (Hs : exists x, NewSubject (he_Subject e) = Err x) by apply audit_subject_rejected.
  split; [by apply Publish_bad_subject|]. unfold RenderingPublish.
  destruct (render B reg e) as [e'|x] eqn:E; [|by eexists]. cbn [given].
  assert (Hs' : exists x, NewSubject (he_Subject e') = Err x).
  { unfold render in E. repeat (case_match; try done). by injection E as <-. }
  unfold Publish, validate_event, try_. destruct Hs' as [x Hx].
  destruct (pb_js p); [|by eexists]. destruct (String.eqb (he_ID e') zero_id); [by eexists|]. rewrite Hx. by eexists.
Qed.
