(* ===== verification/GoJson.v ===== *)
(** [encoding/json]: values, the encoder and the decoder of Go's standard library.

    A number is kept as its literal and an object as its fields in order, so a
    [json.RawMessage] and a JSONB column hold the value their text denotes. *)

From S2P Require Import Prelude GoStrings GoText.
From Stdlib Require Import DecimalString DecimalN DecimalPos DecimalFacts.

Open Scope string_scope.
Open Scope list_scope.
Open Scope N_scope.

(** ** Values and the encoder *)
Inductive json : Type :=
| JNull
| JBool (b : bool)
| JNum (lit : string)
| JStr (s : string)
| JArr (l : list json)
| JObj (fields : list (string * json)).

Fixpoint commas (l : list string) : string :=
  match l with
  | [] => EmptyString
  | [s] => s
  | s :: l' => s +:+ "," +:+ commas l'
  end.

Fixpoint encode (j : json) : string :=
  match j with
  | JNull => "null"
  | JBool true => "true"
  | JBool false => "false"
  | JNum lit => lit
  | JStr s => json_string s
  | JArr l => "[" +:+ commas (map encode l) +:+ "]"
  | JObj fs => "{" +:+ commas (map (fun kv => match kv with (k, v) => json_string k +:+ ":" +:+ encode v end) fs) +:+ "}"
  end.

(** [strconv.FormatInt] in base 10. *)
Definition FormatInt (z : Z) : string := if (z <? 0)%Z then "-" +:+ FormatUint (- z) else FormatUint z.

Definition JInt (z : Z) : json := JNum (FormatInt z).

(** ** The decoder *)
Definition blank (a : ascii) : bool :=
  (code a =? 32) || (code a =? 9) || (code a =? 10) || (code a =? 13).

Fixpoint skip_blanks (s : string) : string :=
  match s with
  | String a r => if blank a then skip_blanks r else s
  | EmptyString => EmptyString
  end.

Definition hex_value (a : ascii) : option N :=
  let n := code a in
  if (48 <=? n) && (n <=? 57) then Some (n - 48)
  else if (97 <=? n) && (n <=? 102) then Some (n - 87)
  else if (65 <=? n) && (n <=? 70) then Some (n - 55)
  else None.

Definition hex4 (a b c d : ascii) : option N :=
  match hex_value a, hex_value b, hex_value c, hex_value d with
  | Some x, Some y, Some z, Some w => Some (((x * 16 + y) * 16 + z) * 16 + w)
  | _, _, _, _ => None
  end.

(** The letters after a backslash, other than [u]. *)
Definition simple_escape (a : ascii) : option N :=
  let n := code a in
  if (n =? 34) || (n =? 92) || (n =? 47) then Some n
  else if n =? 98 then Some 8
  else if n =? 102 then Some 12
  else if n =? 110 then Some 10
  else if n =? 114 then Some 13
  else if n =? 116 then Some 9
  else None.

(** A byte of the literal, or a code unit given by an escape. *)
Inductive piece : Type :=
| Raw (a : ascii)
| Unit (n : N).

(** The literal after its opening quote, and what follows its closing one. *)
Fixpoint scan_string (s : string) : option (list piece * string) :=
  match s with
  | EmptyString => None
  | String a r =>
      if Ascii.eqb a quote then Some ([], r)
      else if Ascii.eqb a backslash then
        match r with
        | EmptyString => None
        | String b r1 =>
            if Ascii.eqb b "u" then
              match r1 with
              | String h1 (String h2 (String h3 (String h4 r2))) =>
                  match hex4 h1 h2 h3 h4 with
                  | Some n => '(ps, t) ← scan_string r2; Some (Unit n :: ps, t)
                  | None => None
                  end
              | _ => None
              end
            else
              match simple_escape b with
              | Some n => '(ps, t) ← scan_string r1; Some (Unit n :: ps, t)
              | None => None
              end
        end
      else if (code a <? 32) then None
      else '(ps, t) ← scan_string r; Some (Raw a :: ps, t)
  end.

(** [utf8.AppendRune] of a code point. *)
Definition surrogate (n : N) : bool := (55296 <=? n) && (n <? 57344).

Definition utf8_encode (n : N) : string :=
  if n <? 128 then str1 (byte n)
  else if n <? 2048 then String (byte (192 + n / 64)) (str1 (byte (128 + n mod 64)))
  else if surrogate n then replacement
  else if n <? 65536 then
    String (byte (224 + n / 4096)) (String (byte (128 + n / 64 mod 64)) (str1 (byte (128 + n mod 64))))
  else
    String (byte (240 + n / 262144)) (String (byte (128 + n / 4096 mod 64))
      (String (byte (128 + n / 64 mod 64)) (str1 (byte (128 + n mod 64))))).

(** Raw bytes that are not UTF-8 become U+FFFD. *)
Definition fix_utf8 (s : string) : string := concat_str (map rune_bytes (runes s)).

(** [utf16.DecodeRune] of two code units. *)
Definition high_half (n : N) : bool := (55296 <=? n) && (n <? 56320).
Definition low_half (n : N) : bool := (56320 <=? n) && (n <? 57344).
Definition pair_value (h l : N) : N := (h - 55296) * 1024 + (l - 56320) + 65536.

(** [unquote]: [chunk] is the run of raw bytes read so far. *)
Fixpoint unquote (chunk : string) (ps : list piece) : string :=
  match ps with
  | [] => fix_utf8 chunk
  | Raw a :: ps' => unquote (chunk +:+ str1 a) ps'
  | Unit n :: ps' =>
      match ps' with
      | Unit m :: ps2 =>
          if high_half n && low_half m then fix_utf8 chunk +:+ utf8_encode (pair_value n m) +:+ unquote EmptyString ps2
          else fix_utf8 chunk +:+ utf8_encode n +:+ unquote EmptyString ps'
      | _ => fix_utf8 chunk +:+ utf8_encode n +:+ unquote EmptyString ps'
      end
  end.

(** Numbers: the longest run of number bytes, which must spell a number. *)
Definition digit (a : ascii) : bool := between 48 57 a.
Definition number_byte (a : ascii) : bool :=
  digit a || (code a =? 43) || (code a =? 45) || (code a =? 46) || (code a =? 101) || (code a =? 69).

Fixpoint span (P : ascii -> bool) (s : string) : string * string :=
  match s with
  | EmptyString => (EmptyString, EmptyString)
  | String a r => if P a then (String a (span P r).1, (span P r).2) else (EmptyString, s)
  end.

(** At least one digit, then [k] on the rest. *)
Definition digits1 (k : string -> bool) (s : string) : bool :=
  negb (is_empty (span digit s).1) && k (span digit s).2.

Definition exponent (s : string) : bool :=
  match s with
  | EmptyString => true
  | String e r =>
      ((code e =? 101) || (code e =? 69))
      && match r with
         | String sg r' => if (code sg =? 43) || (code sg =? 45) then digits1 is_empty r' else digits1 is_empty r
         | EmptyString => false
         end
  end.

Definition fraction (s : string) : bool :=
  match s with
  | String a r => if code a =? 46 then digits1 exponent r else exponent s
  | EmptyString => true
  end.

Definition magnitude (s : string) : bool :=
  match s with
  | String a r => if code a =? 48 then fraction r else digits1 fraction s
  | EmptyString => false
  end.

Definition is_number (s : string) : bool :=
  match s with
  | String a r => if code a =? 45 then magnitude r else magnitude s
  | EmptyString => false
  end.

(** [fuel] bounds the depth of the recursion; [String.length] is enough. *)
Fixpoint parse_value (fuel : nat) (s : string) : option (json * string) :=
  match fuel with
  | O => None
  | S fuel' =>
      match skip_blanks s with
      | EmptyString => None
      | String a r =>
          let t := String a r in
          if Ascii.eqb a quote then '(ps, u) ← scan_string r; Some (JStr (unquote EmptyString ps), u)
          else if Ascii.eqb a "[" then
            match skip_blanks r with
            | String c u => if Ascii.eqb c "]" then Some (JArr [], u)
                            else '(l, u) ← parse_elements fuel' r; Some (JArr l, u)
            | EmptyString => None
            end
          else if Ascii.eqb a "{" then
            match skip_blanks r with
            | String c u => if Ascii.eqb c "}" then Some (JObj [], u)
                            else '(l, u) ← parse_fields fuel' r; Some (JObj l, u)
            | EmptyString => None
            end
          else if HasPrefix t "null" then Some (JNull, str_drop 4 t)
          else if HasPrefix t "true" then Some (JBool true, str_drop 4 t)
          else if HasPrefix t "false" then Some (JBool false, str_drop 5 t)
          else
            let '(lit, u) := span number_byte t in
            if is_number lit then Some (JNum lit, u) else None
      end
  end
with parse_elements (fuel : nat) (s : string) : option (list json * string) :=
  match fuel with
  | O => None
  | S fuel' =>
      '(v, t) ← parse_value fuel' s;
      match skip_blanks t with
      | String c u => if Ascii.eqb c "," then '(l, w) ← parse_elements fuel' u; Some (v :: l, w)
                      else if Ascii.eqb c "]" then Some ([v], u) else None
      | EmptyString => None
      end
  end
with parse_fields (fuel : nat) (s : string) : option (list (string * json) * string) :=
  match fuel with
  | O => None
  | S fuel' =>
      match skip_blanks s with
      | String a r =>
          if negb (Ascii.eqb a quote) then None
          else
            '(ps, t) ← scan_string r;
            match skip_blanks t with
            | String c u =>
                if negb (Ascii.eqb c ":") then None
                else
                  '(v, w) ← parse_value fuel' u;
                  match skip_blanks w with
                  | String d x => if Ascii.eqb d "," then '(l, y) ← parse_fields fuel' x;
                                                         Some ((unquote EmptyString ps, v) :: l, y)
                                  else if Ascii.eqb d "}" then Some ([(unquote EmptyString ps, v)], x) else None
                  | EmptyString => None
                  end
            | EmptyString => None
            end
      | EmptyString => None
      end
  end.

(** [json.Unmarshal] into [any] or [json.RawMessage]; nothing but blanks may follow
    the value.  (Go also refuses more than 10000 nested values.) *)
Definition decode (s : string) : option json :=
  match parse_value (S (2 * String.length s)) s with
  | Some (j, t) => if is_empty (skip_blanks t) then Some j else None
  | None => None
  end.

Example decode_examples :
  decode "null" = Some JNull
  /\ decode "  [1, -2.5e+3,true ,{} ] " = Some (JArr [JNum "1"; JNum "-2.5e+3"; JBool true; JObj []])
  /\ decode "[01]" = None /\ decode "[1,]" = None /\ decode "{1:2}" = None /\ decode "1 2" = None
  /\ decode (encode (JObj [("a<b", JArr [JNull; JInt (-42)]); (EmptyString, JStr "x\y")])) =
       Some (JObj [("a<b", JArr [JNull; JInt (-42)]); (EmptyString, JStr "x\y")]).
Proof. vm_compute. repeat split. Qed.

(** ** Strings survive *)

(** The bytes of one rune, whatever follows them. *)
Definition rune_code (bs : string) : Prop := forall x, runes (bs +:+ x) = Rune bs :: runes x.

Lemma runes_coded s :
  Forall (fun r => match r with
                   | Rune bs => rune_code bs /\ ((exists a, bs = str1 a /\ (code a <? 128) = true)
                                                 \/ str_forall (fun c => negb (code c <? 128)) bs = true)
                   | BadByte _ => True end) (runes s).
Proof.
  induction s as [s IH] using string_len_ind. destruct s as [|a s]; [constructor|].
  destruct (runes_step a s) as [(bs & rest & E & R & Hne & Hs)|[R _]]; rewrite R; constructor; try done.
  - split; [|destruct Hs as [[-> ?]|?]; eauto]. clear IH Hs Hne. revert R. cbn [runes].
    destruct (code a <? 128) eqn:Ea.
    { intros [= <- _]. intros x. unfold str1; rewrite !app_cons_str; cbn [runes]. by rewrite Ea. }
    destruct s as [|b s2]; [done|].
    destruct (enc2 a b) eqn:E2.
    { intros [= <- _]. intros x. unfold str1; rewrite !app_cons_str; cbn [runes]. by rewrite Ea, E2. }
    destruct s2 as [|c s3]; [done|].
    destruct (enc3 a b c) eqn:E3.
    { intros [= <- _]. intros x. unfold str1; rewrite !app_cons_str; cbn [runes]. by rewrite Ea, E2, E3. }
    destruct s3 as [|d s4]; [done|].
    destruct (enc4 a b c d) eqn:E4; [|done].
    intros [= <- _]. intros x. unfold str1; rewrite !app_cons_str; cbn [runes]. by rewrite Ea, E2, E3, E4.
  - apply IH. rewrite E, length_app_str. destruct bs; [done|]. cbn. lia.
  - apply IH. cbn. lia.
Qed.

(** What scanning the encoding of a rune yields. *)
Inductive scanned : rune -> list piece -> Prop :=
| scanned_unit bs n : high_half n = false -> utf8_encode n = bs -> scanned (Rune bs) [Unit n]
| scanned_raw bs : scanned (Rune bs) (map Raw (String.list_ascii_of_string bs)).

Definition prepend (ps : list piece) (r : option (list piece * string)) : option (list piece * string) :=
  match r with Some (qs, t) => Some (ps ++ qs, t) | None => None end.

Lemma scan_raw a t :
  Ascii.eqb a quote = false -> Ascii.eqb a backslash = false -> (code a <? 32) = false ->
  scan_string (String a t) = prepend [Raw a] (scan_string t).
Proof. intros H1 H2 H3. cbn [scan_string]. rewrite H1, H2, H3. by destruct (scan_string t) as [[]|]. Qed.

Lemma scan_simple b n t :
  Ascii.eqb b "u" = false -> simple_escape b = Some n ->
  scan_string (String backslash (String b t)) = prepend [Unit n] (scan_string t).
Proof.
  intros H1 H2. cbn [scan_string]. change (Ascii.eqb backslash quote) with false.
  change (Ascii.eqb backslash backslash) with true. cbn match. rewrite H1, H2. by destruct (scan_string t) as [[]|].
Qed.

Lemma scan_u h1 h2 h3 h4 n t :
  hex4 h1 h2 h3 h4 = Some n ->
  scan_string (String backslash (String "u" (String h1 (String h2 (String h3 (String h4 t)))))) =
    prepend [Unit n] (scan_string t).
Proof.
  intros H1. cbn [scan_string]. change (Ascii.eqb backslash quote) with false.
  change (Ascii.eqb backslash backslash) with true. change (Ascii.eqb "u" "u") with true. cbn match. rewrite H1.
  by destruct (scan_string t) as [[]|].
Qed.

Lemma scan_high bs t :
  str_forall (fun c => negb (code c <? 128)) bs = true ->
  scan_string (bs +:+ t) = prepend (map Raw (String.list_ascii_of_string bs)) (scan_string t).
Proof.
  induction bs as [|a bs IH]; intros H.
  { change (EmptyString +:+ t) with t. by destruct (scan_string t) as [[]|]. }
  cbn [str_forall] in H. apply andb_true_iff in H as [Ha H].
  rewrite app_cons_str, scan_raw, IH; [by destruct (scan_string t) as [[]|]|done|..].
  - by destruct (Ascii.eqb_spec a quote) as [->|].
  - by destruct (Ascii.eqb_spec a backslash) as [->|].
  - apply negb_true_iff, N.ltb_ge in Ha. apply N.ltb_ge. lia.
Qed.

Lemma scan_ascii a t :
  (code a <? 128) = true ->
  exists ps, scanned (Rune (str1 a)) ps /\ scan_string (json_ascii a +:+ t) = prepend ps (scan_string t).
Proof.
  intros Ha.
  destruct a as [[] [] [] [] [] [] [] []]; try (exfalso; vm_compute in Ha; discriminate); clear Ha;
    match goal with |- context [json_ascii ?c] => let v := eval vm_compute in (json_ascii c) in change (json_ascii c) with v end;
    first [ eexists; split; [apply scanned_raw|by apply scan_raw]
          | eexists [Unit _]; split; cycle 1; [by eapply scan_simple|by apply scanned_unit]
          | eexists [Unit _]; split; cycle 1; [by eapply scan_u|by apply scanned_unit] ].
Qed.

Lemma prepend_app ps qs r : prepend ps (prepend qs r) = prepend (ps ++ qs) r.
Proof. destruct r as [[l t]|]; [|done]. cbn. by rewrite app_assoc. Qed.

Lemma scan_rune r t :
  match r with
  | Rune bs => rune_code bs /\ ((exists a, bs = str1 a /\ (code a <? 128) = true)
                                \/ str_forall (fun c => negb (code c <? 128)) bs = true)
  | BadByte _ => False end ->
  exists ps, scanned r ps /\ scan_string (json_rune r +:+ t) = prepend ps (scan_string t).
Proof.
  destruct r as [bs|]; [|done]. intros [_ [(a & -> & Ha)|Hh]]; [by apply scan_ascii|].
  assert (Hb : bs = EmptyString \/ (exists a, bs = str1 a) \/ exists a b s, bs = String a (String b s)).
  { destruct bs as [|a [|b s]]; [by left|right; left; by exists a|right; right; by exists a, b, s]. }
  destruct Hb as [->|[[a ->]|(a & b & s & E)]].
  - exists []. split; [apply (scanned_raw EmptyString)|].
    change (json_rune (Rune EmptyString) +:+ t) with t. by destruct (scan_string t) as [[]|].
  - cbn [str_forall str1] in Hh. exists (map Raw (String.list_ascii_of_string (str1 a))). split; [apply scanned_raw|].
    rewrite <- scan_high by done. f_equal. cbn [json_rune str1]. 
    destruct a as [[] [] [] [] [] [] [] []]; try (exfalso; vm_compute in Hh; discriminate); done.
  - rewrite E in *. cbn [json_rune].
    destruct (String.eqb_spec (String a (String b s)) (String (byte 226) (String (byte 128) (str1 (byte 168))))) as [->|_].
    { exists [Unit 8232]. split; [by constructor|]. by apply scan_u. }
    destruct (String.eqb_spec (String a (String b s)) (String (byte 226) (String (byte 128) (str1 (byte 169))))) as [->|_].
    { exists [Unit 8233]. split; [by constructor|]. by apply scan_u. }
    exists (map Raw (String.list_ascii_of_string (String a (String b s)))). split; [apply scanned_raw|]. by apply scan_high.
Qed.

(** A chunk of whole runes. *)
Definition closed (c : string) : Prop := forall x, fix_utf8 (c +:+ x) = c +:+ fix_utf8 x.

Lemma closed_nil : closed EmptyString.
Proof. done. Qed.

Lemma closed_snoc c bs : closed c -> rune_code bs -> closed (c +:+ bs).
Proof.
  intros Hc Hb x. rewrite app_assoc_str, Hc, app_assoc_str. f_equal. unfold fix_utf8. by rewrite Hb.
Qed.

Lemma closed_self c : closed c -> fix_utf8 c = c.
Proof. intros Hc. specialize (Hc EmptyString). by rewrite !app_nil_r_str in Hc. Qed.

Lemma unquote_raws chunk bs ps :
  unquote chunk (map Raw (String.list_ascii_of_string bs) ++ ps) = unquote (chunk +:+ bs) ps.
Proof.
  revert chunk. induction bs as [|a bs IH]; intros chunk; cbn [String.list_ascii_of_string map app unquote].
  - by rewrite app_nil_r_str.
  - rewrite IH, app_assoc_str. done.
Qed.

Lemma unquote_unit chunk n ps :
  high_half n = false ->
  unquote chunk (Unit n :: ps) = fix_utf8 chunk +:+ utf8_encode n +:+ unquote EmptyString ps.
Proof. intros Hn. cbn [unquote]. destruct ps as [|[a|m] ps]; [done|done|]. by rewrite Hn. Qed.

(** A valid string is read back from its encoding. *)
Lemma scan_runes rs t :
  Forall (fun r => match r with
                   | Rune bs => rune_code bs /\ ((exists a, bs = str1 a /\ (code a <? 128) = true)
                                                 \/ str_forall (fun c => negb (code c <? 128)) bs = true)
                   | BadByte _ => False end) rs ->
  exists ps, scan_string (concat_str (map json_rune rs) +:+ String quote t) = Some (ps, t)
    /\ forall chunk, closed chunk -> unquote chunk ps = chunk +:+ concat_str (map rune_bytes rs).
Proof.
  induction 1 as [|r rs Hr _ (ps & Hps & Hu)]; cbn [map concat_str].
  - exists []. split; [done|]. intros chunk Hc. cbn [unquote]. by rewrite app_nil_r_str, closed_self.
  - destruct (scan_rune r (concat_str (map json_rune rs) +:+ String quote t) Hr) as (qs & Hsc & Hq).
    rewrite app_assoc_str, Hq, Hps. cbn [prepend]. eexists. split; [done|]. intros chunk Hc.
    destruct r as [bs|]; [|done]. destruct Hr as [Hbs _]. cbn [rune_bytes].
    inversion Hsc as [? n Hn He|]; subst; cbn [app].
    + rewrite unquote_unit, Hu, closed_self by (done || apply closed_nil). done.
    + rewrite unquote_raws, Hu by by apply closed_snoc. by rewrite app_assoc_str.
Qed.

Lemma scan_json_string s t :
  valid_utf8 s = true ->
  exists ps, json_string s +:+ t = String quote (concat_str (map json_rune (runes s)) +:+ String quote t)
    /\ scan_string (concat_str (map json_rune (runes s)) +:+ String quote t) = Some (ps, t)
    /\ unquote EmptyString ps = s.
Proof.
  intros Hv. destruct (scan_runes (runes s) t) as (ps & Hps & Hu).
  { unfold valid_utf8 in Hv. pose proof (runes_coded s) as Hc. induction Hc as [|r rs Hr _ IH]; constructor.
    - destruct r; [done|discriminate].
    - apply IH. cbn [forallb] in Hv. by apply andb_true_iff in Hv as [_ ?]. }
  exists ps. split_and!; [|done|by rewrite Hu, runes_spell by (done || apply closed_nil)].
  unfold json_string, str1. rewrite !app_assoc_str. done.
Qed.

(** ** Values survive *)
Fixpoint json_ok (j : json) : bool :=
  match j with
  | JNum lit => is_number lit
  | JStr s => valid_utf8 s
  | JArr l => forallb json_ok l
  | JObj fs => forallb (fun kv => match kv with (k, v) => valid_utf8 k && json_ok v end) fs
  | _ => true
  end.

Section Ind.
Context (P : json -> Prop).
Context (Hnull : P JNull) (Hbool : forall b, P (JBool b)) (Hnum : forall lit, P (JNum lit)) (Hstr : forall s, P (JStr s)).
Context (Harr : forall l, Forall P l -> P (JArr l)).
Context (Hobj : forall fs, Forall (fun kv => P kv.2) fs -> P (JObj fs)).

Fixpoint json_nested_ind (j : json) : P j :=
  match j with
  | JNull => Hnull
  | JBool b => Hbool b
  | JNum lit => Hnum lit
  | JStr s => Hstr s
  | JArr l => Harr l ((fix go l : Forall P l :=
                         match l with [] => Forall_nil_2 _ | v :: l' => Forall_cons_2 _ _ _ (json_nested_ind v) (go l') end) l)
  | JObj fs => Hobj fs ((fix go fs : Forall (fun kv => P kv.2) fs :=
                           match fs with
                           | [] => Forall_nil_2 _
                           | (k, v) :: fs' => Forall_cons_2 (fun kv => P kv.2) (k, v) fs' (json_nested_ind v) (go fs')
                           end) fs)
  end.
End Ind.

(** The fuel a value takes. *)
Definition needs (l : list nat) : nat := fold_right (fun n m => S (Nat.max n m)) O l.

Fixpoint need (j : json) : nat :=
  match j with
  | JArr l => S (needs (map need l))
  | JObj fs => S (needs (map (fun kv => match kv with (_, v) => need v end) fs))
  | _ => 1%nat
  end.

(** What may follow a number. *)
Definition stops (t : string) : Prop :=
  match t with EmptyString => True | String a _ => number_byte a = false end.

Lemma span_stops P s t :
  str_forall P s = true -> match t with EmptyString => True | String a _ => P a = false end ->
  span P (s +:+ t) = (s, t).
Proof.
  intros Hs Ht. induction s as [|a s IH].
  - change (EmptyString +:+ t) with t. destruct t as [|a t]; [done|]. cbn [span]. by rewrite Ht.
  - cbn [str_forall] in Hs. apply andb_true_iff in Hs as [Ha Hs]. rewrite app_cons_str. cbn [span].
    rewrite Ha, IH by done. done.
Qed.

Lemma span_app P s : (span P s).1 +:+ (span P s).2 = s /\ str_forall P (span P s).1 = true.
Proof.
  induction s as [|a s [IH1 IH2]]; cbn [span]; [done|]. destruct (P a) eqn:Ha; cbn [fst snd]; [|done].
  rewrite app_cons_str, IH1. split; [done|]. cbn [str_forall]. by rewrite Ha.
Qed.

Lemma digit_number a : digit a = true -> number_byte a = true.
Proof. unfold number_byte. by intros ->. Qed.

Lemma digits1_bytes k s :
  (forall u, k u = true -> str_forall number_byte u = true) -> digits1 k s = true -> str_forall number_byte s = true.
Proof.
  unfold digits1. intros Hk H. apply andb_true_iff in H as [_ H].
  destruct (span_app digit s) as [E Hd]. rewrite <- E, str_forall_app, (Hk _ H).
  by rewrite (str_forall_impl _ _ _ digit_number Hd).
Qed.

Lemma number_byte_of a n : (code a =? n) = true -> number_byte (ascii_of_N n) = true -> number_byte a = true.
Proof. intros H. apply N.eqb_eq in H. rewrite <- H. unfold code. by rewrite ascii_N_embedding. Qed.

Lemma empty_bytes u : is_empty u = true -> str_forall number_byte u = true.
Proof. by destruct u. Qed.

Lemma exponent_bytes s : exponent s = true -> str_forall number_byte s = true.
Proof.
  destruct s as [|e r]; [done|]. cbn [exponent str_forall]. intros H. apply andb_true_iff in H as [He H].
  assert (number_byte e = true) as ->.
  { apply orb_true_iff in He as [He|He]; (eapply number_byte_of; [eassumption|reflexivity]). }
  destruct r as [|sg r']; [done|]. destruct ((code sg =? 43) || (code sg =? 45)) eqn:Hs.
  - cbn [str_forall]. rewrite (digits1_bytes is_empty r' empty_bytes H), andb_true_r. cbn [andb].
    apply orb_true_iff in Hs as [Hs|Hs]; (eapply number_byte_of; [eassumption|reflexivity]).
  - by rewrite (digits1_bytes is_empty _ empty_bytes H).
Qed.

Lemma fraction_bytes s : fraction s = true -> str_forall number_byte s = true.
Proof.
  destruct s as [|a r]; [done|]. cbn [fraction]. destruct (code a =? 46) eqn:Ha; [|apply exponent_bytes].
  intros H. cbn [str_forall]. rewrite (digits1_bytes exponent r exponent_bytes H), andb_true_r.
  (eapply number_byte_of; [eassumption|reflexivity]).
Qed.

Lemma magnitude_bytes s : magnitude s = true -> str_forall number_byte s = true.
Proof.
  destruct s as [|a r]; [done|]. cbn [magnitude]. destruct (code a =? 48) eqn:Ha.
  - intros H. cbn [str_forall]. rewrite (fraction_bytes r H), andb_true_r. (eapply number_byte_of; [eassumption|reflexivity]).
  - apply digits1_bytes, fraction_bytes.
Qed.

Lemma number_bytes s : is_number s = true -> str_forall number_byte s = true.
Proof.
  destruct s as [|a r]; [done|]. cbn [is_number]. destruct (code a =? 45) eqn:Ha; [|apply magnitude_bytes].
  intros H. cbn [str_forall]. rewrite (magnitude_bytes r H), andb_true_r. (eapply number_byte_of; [eassumption|reflexivity]).
Qed.

Lemma number_head lit : is_number lit = true -> exists a r, lit = String a r /\ (digit a = true \/ (code a =? 45) = true).
Proof.
  destruct lit as [|a r]; [done|]. cbn [is_number]. destruct (code a =? 45) eqn:Ha; [eauto 6|].
  cbn [magnitude]. destruct (code a =? 48) eqn:H0; intros H.
  - exists a, r. split; [done|]. left. apply N.eqb_eq in H0. unfold digit, between. by rewrite H0.
  - exists a, r. split; [done|]. left. unfold digits1 in H. cbn [span] in H. by destruct (digit a).
Qed.

(** No encoding starts with a blank or a closing bracket. *)
Definition opening (a : ascii) : bool := negb (blank a) && negb (Ascii.eqb a "]") && negb (Ascii.eqb a "}").

Lemma number_opening a : digit a = true \/ (code a =? 45) = true -> opening a = true.
Proof. destruct a as [[] [] [] [] [] [] [] []]; vm_compute; intros [?|?]; congruence. Qed.

Lemma encode_head j : json_ok j = true -> exists a r, encode j = String a r /\ opening a = true.
Proof.
  destruct j as [|[]|lit|s|l|fs]; cbn [json_ok encode]; intros H; try (eexists _, _; by split).
  destruct (number_head lit H) as (a & r & -> & Ha). exists a, r. split; [done|by apply number_opening].
Qed.

Lemma skip_opening a r : opening a = true -> skip_blanks (String a r) = String a r.
Proof. unfold opening. cbn [skip_blanks]. by destruct (blank a). Qed.

Lemma parse_number fuel lit t :
  is_number lit = true -> stops t -> parse_value (S fuel) (lit +:+ t) = Some (JNum lit, t).
Proof.
  intros H Ht. destruct (number_head lit H) as (a & r & E & Ha).
  assert (Hs : span number_byte (lit +:+ t) = (lit, t)) by (apply span_stops; [by apply number_bytes|by destruct t]).
  rewrite E in *. rewrite app_cons_str in *. cbn [parse_value].
  rewrite skip_opening by by apply number_opening.
  assert (Hd : Ascii.eqb a quote = false /\ Ascii.eqb a "[" = false /\ Ascii.eqb a "{" = false
    /\ Ascii.eqb "n" a = false /\ Ascii.eqb "t" a = false /\ Ascii.eqb "f" a = false).
  { clear -Ha. destruct a as [[] [] [] [] [] [] [] []]; vm_compute in Ha; destruct Ha; try discriminate; done. }
  destruct Hd as (-> & -> & -> & Hn & Htr & Hf).
  assert (Hp : forall c s u, Ascii.eqb c a = false -> HasPrefix (String a u) (String c s) = false).
  { intros c s u Hc. unfold HasPrefix. cbn [String.prefix]. destruct (ascii_dec c a) as [->|]; [|done].
    by rewrite Ascii.eqb_refl in Hc. }
  rewrite !Hp by done. rewrite Hs. cbn match. by rewrite H.
Qed.

(** The three words. *)
Lemma parse_word fuel j t :
  match j with JNull | JBool _ => True | _ => False end -> parse_value (S fuel) (encode j +:+ t) = Some (j, t).
Proof.
  intros Hj. pose proof (prefix_app (encode j) t) as Hp.
  destruct j as [|[]| | | |]; try done; cbn [encode] in *; rewrite !app_cons_str in *; change (EmptyString +:+ t) with t in *;
    cbn [parse_value]; rewrite skip_opening by done; unfold HasPrefix; rewrite ?Hp; reflexivity.
Qed.

Definition survives (j : json) : Prop :=
  json_ok j = true -> forall fuel t, (need j <= fuel)%nat -> stops t -> parse_value fuel (encode j +:+ t) = Some (j, t).

Lemma elements_survive l t fuel :
  Forall survives l -> l <> [] -> forallb json_ok l = true -> (needs (map need l) <= fuel)%nat ->
  parse_elements fuel (commas (map encode l) +:+ String "]" t) = Some (l, t).
Proof.
  intros Hl. revert fuel. induction Hl as [|v l Hv Hl IH]; intros fuel Hne Hok Hf; [done|].
  cbn [forallb] in Hok. apply andb_true_iff in Hok as [Hok1 Hok2].
  cbn [map needs fold_right] in Hf. fold (needs (map need l)) in Hf.
  destruct fuel as [|fuel]; [lia|]. cbn [parse_elements map]. destruct l as [|w l].
  - cbn [commas map]. rewrite Hv by (done || lia). done.
  - set (l' := w :: l) in *. assert (Hc : commas (encode v :: map encode l') = encode v +:+ "," +:+ commas (map encode l')) by done.
    rewrite Hc, !app_assoc_str, Hv by (done || lia). rewrite app_cons_str. cbn [skip_blanks mbind option_bind].
    change (blank ",") with false. cbn match. change (Ascii.eqb "," ",") with true. cbn match.
    change (EmptyString +:+ ?x) with x. rewrite IH by (done || lia). done.
Qed.

Lemma fields_survive fs t fuel :
  Forall (fun kv => survives kv.2) fs -> fs <> [] ->
  forallb (fun kv => match kv with (k, v) => valid_utf8 k && json_ok v end) fs = true ->
  (needs (map (fun kv : string * json => match kv with (_, v) => need v end) fs) <= fuel)%nat ->
  parse_fields fuel (commas (map (fun kv : string * json => match kv with (k, v) => json_string k +:+ ":" +:+ encode v end) fs)
                     +:+ String "}" t) = Some (fs, t).
Proof.
  intros Hl. revert fuel. induction Hl as [|[k v] l Hv Hl IH]; intros fuel Hne Hok Hf; [done|].
  cbn [forallb] in Hok. apply andb_true_iff in Hok as [Hok1 Hok2]. apply andb_true_iff in Hok1 as [Hk Hok1].
  cbn [snd] in Hv. cbn [map needs fold_right] in Hf.
  fold (needs (map (fun kv : string * json => match kv with (_, v) => need v end) l)) in Hf.
  destruct fuel as [|fuel]; [lia|]. cbn [parse_fields map]. destruct l as [|w l].
  - cbn [commas map]. rewrite !app_assoc_str.
    destruct (scan_json_string k (":" +:+ encode v +:+ String "}" t) Hk) as (ps & -> & Hps & Hu).
    rewrite skip_opening by done. change (Ascii.eqb quote quote) with true. cbn [negb]. rewrite Hps.
    cbn [mbind option_bind]. rewrite app_cons_str. cbn [skip_blanks]. change (blank ":") with false. cbn match.
    change (Ascii.eqb ":" ":") with true. cbn [negb]. change (EmptyString +:+ ?x) with x.
    rewrite Hv by (done || lia). rewrite Hu. done.
  - set (l' := w :: l) in *.
    set (enc := fun kv : string * json => match kv with (k, v) => json_string k +:+ ":" +:+ encode v end) in *.
    assert (Hc : forall x, commas (x :: map enc l') = x +:+ "," +:+ commas (map enc l')) by done.
    rewrite Hc, !app_assoc_str.
    destruct (scan_json_string k (":" +:+ encode v +:+ "," +:+ commas (map enc l') +:+ String "}" t) Hk) as (ps & -> & Hps & Hu).
    rewrite skip_opening by done. change (Ascii.eqb quote quote) with true. cbn [negb]. rewrite Hps.
    cbn [mbind option_bind]. rewrite app_cons_str. cbn [skip_blanks]. change (blank ":") with false. cbn match.
    change (Ascii.eqb ":" ":") with true. cbn [negb]. change (EmptyString +:+ ?x) with x.
    rewrite Hv by (done || lia). cbn [mbind option_bind]. rewrite ?app_cons_str. cbn [skip_blanks]. change (blank ",") with false. cbn match.
    change (Ascii.eqb "," ",") with true. cbn match. change (EmptyString +:+ ?x) with x.
    rewrite IH by (done || lia). by rewrite Hu.
Qed.

Lemma values_survive j : survives j.
Proof.
  induction j as [|b|lit|s|l Hl|fs Hfs] using json_nested_ind; intros Hok fuel t Hf Ht;
    cbn [need] in Hf; (destruct fuel as [|fuel]; [lia|]).
  - by apply parse_word.
  - destruct b; by apply parse_word.
  - by apply parse_number.
  - cbn [json_ok encode] in *. destruct (scan_json_string s t Hok) as (ps & -> & Hps & Hu).
    cbn [parse_value]. rewrite skip_opening by done. change (Ascii.eqb quote quote) with true. cbn match. by rewrite Hps; cbn; rewrite Hu.
  - cbn [json_ok encode] in *. rewrite !app_assoc_str. cbn [parse_value]. destruct l as [|v l]; [done|].
    rewrite app_cons_str, skip_opening by done. change (EmptyString +:+ ?x) with x.
    assert (He : exists a r, commas (map encode (v :: l)) +:+ "]" +:+ t = String a r /\ opening a = true).
    { cbn [forallb] in Hok. apply andb_true_iff in Hok as [Hv _]. destruct (encode_head v Hv) as (a & r & E & Ha).
      cbn [map]. destruct l; cbn [map commas]; rewrite E, ?app_assoc_str, app_cons_str; eauto. }
    destruct He as (a & r & E & Ha). change (Ascii.eqb "[" quote) with false. change (Ascii.eqb "[" "[") with true. cbn match.
    pose proof (elements_survive (v :: l) t fuel Hl ltac:(done) Hok ltac:(lia)) as He.
    change ("]" +:+ t) with (String "]" t) in *. rewrite He. rewrite E, skip_opening by done.
    unfold opening in Ha. destruct (Ascii.eqb a "]"); [by rewrite andb_false_r in Ha|]. done.
  - cbn [json_ok encode] in *. rewrite !app_assoc_str. cbn [parse_value]. destruct fs as [|[k v] l]; [done|].
    rewrite app_cons_str, skip_opening by done. change (EmptyString +:+ ?x) with x.
    change (Ascii.eqb "{" quote) with false. change (Ascii.eqb "{" "[") with false.
    change (Ascii.eqb "{" "{") with true. cbn match.
    pose proof (fields_survive ((k, v) :: l) t fuel Hfs ltac:(done) Hok ltac:(lia)) as He.
    change ("}" +:+ t) with (String "}" t) in *. rewrite He.
    assert (E : exists r, commas (map (fun kv : string * json => match kv with (k, v) => json_string k +:+ ":" +:+ encode v end) ((k, v) :: l))
                          +:+ String "}" t = String quote r).
    { cbn [map]. destruct l; cbn [map commas]; unfold json_string, str1; rewrite !app_assoc_str, app_cons_str; eauto. }
    destruct E as [r ->]. rewrite skip_opening by done. done.
Qed.

Lemma needs_bound {A} (e : A -> string) (n : A -> nat) l :
  Forall (fun v => (n v <= 2 * String.length (e v))%nat) l ->
  (needs (map n l) <= S (2 * String.length (commas (map e l))))%nat.
Proof.
  induction 1 as [|v l Hv _ IH]; cbn [map needs fold_right]; [lia|]. fold (needs (map n l)).
  destruct l as [|w l]; [cbn [map needs fold_right commas]; lia|].
  change (commas (e v :: map e (w :: l))) with (e v +:+ "," +:+ commas (map e (w :: l))).
  rewrite !length_app_str. cbn [String.length]. lia.
Qed.

Lemma need_bound j : json_ok j = true -> (need j <= 2 * String.length (encode j))%nat.
Proof.
  induction j as [|b|lit|s|l Hl|fs Hfs] using json_nested_ind; intros Hok;
    try (destruct (encode_head _ Hok) as (a & r & -> & _); cbn [need String.length]; lia).
  - cbn [need encode json_ok] in *. rewrite !length_app_str. cbn [String.length].
    enough (needs (map need l) <= S (2 * String.length (commas (map encode l))))%nat by lia.
    apply needs_bound. induction Hl as [|v l Hv _ IH]; constructor; cbn [forallb] in Hok;
      apply andb_true_iff in Hok as [H1 H2]; auto.
  - cbn [need encode json_ok] in *. rewrite !length_app_str. cbn [String.length].
    match goal with |- (S (needs (map ?n fs)) <= _ * (_ + (String.length (commas (map ?e fs)) + _)))%nat =>
      enough (needs (map n fs) <= S (2 * String.length (commas (map e fs))))%nat by lia end.
    apply needs_bound. induction Hfs as [|[k v] l Hv _ IH]; constructor; cbn [forallb] in Hok;
      apply andb_true_iff in Hok as [H1 H2]; auto.
    apply andb_true_iff in H1 as [_ H1]. cbn [snd] in Hv. specialize (Hv H1).
    rewrite !length_app_str. lia.
Qed.

Lemma decode_encode j : json_ok j = true -> decode (encode j) = Some j.
Proof.
  intros Hok. unfold decode. pose proof (need_bound j Hok) as Hn.
  pose proof (values_survive j Hok (S (2 * String.length (encode j))) EmptyString ltac:(lia) I) as H.
  rewrite app_nil_r_str in H. by rewrite H.
Qed.

(** Integers are numbers. *)
Lemma digits_of_pos p : exists d s, digits_of (Npos p) = String d s /\ (code d =? 48) = false /\ str_forall digit (String d s) = true.
Proof.
  assert (Hu : forall u, str_forall digit (NilEmpty.string_of_uint u) = true) by by induction u.
  unfold digits_of, N.to_uint.
  pose proof (DecimalPos.Unsigned.to_uint_nonzero p) as Hnz. pose proof (DecimalPos.Unsigned.to_uint_nonnil p) as Hnn.
  pose proof (DecimalPos.Unsigned.to_of (Pos.to_uint p)) as Hto.
  rewrite DecimalPos.Unsigned.of_to in Hto. cbn in Hto.
  destruct (Pos.to_uint p) as [|u|u|u|u|u|u|u|u|u|u] eqn:E; try done;
    try (eexists _, (NilEmpty.string_of_uint u); split_and!; [reflexivity|done|]; cbn [str_forall]; by rewrite Hu).
  exfalso. clear Hnn Hu. unfold Decimal.unorm in Hto. cbn in Hto.
  destruct (Decimal.nzhead u) eqn:Ez; try done; pose proof (DecimalFacts.nzhead_nonzero u); congruence.
Qed.

Lemma digits_number n : magnitude (digits_of n) = true /\ exists d s, digits_of n = String d s /\ digit d = true.
Proof.
  destruct n as [|p]; [split; [done|by exists "0"%char, EmptyString]|].
  destruct (digits_of_pos p) as (d & s & -> & Hd & Hs). split.
  - cbn [magnitude]. rewrite Hd. unfold digits1.
    pose proof (span_stops digit (String d s) EmptyString Hs I) as Hsp. rewrite app_nil_r_str in Hsp. by rewrite Hsp.
  - exists d, s. split; [done|]. cbn [str_forall] in Hs. by apply andb_true_iff in Hs as [? _].
Qed.

Lemma JInt_ok z : json_ok (JInt z) = true.
Proof.
  cbn [json_ok JInt]. unfold FormatInt, FormatUint. destruct (z <? 0)%Z.
  - destruct (digits_number (Z.to_N (- z))) as [H _]. by rewrite app_cons_str.
  - destruct (digits_number (Z.to_N z)) as [H (d & s & E & Hd)]. rewrite E in *. cbn [is_number].
    destruct (code d =? 45) eqn:E45; [|done]. apply N.eqb_eq in E45. unfold digit, between in Hd. by rewrite E45 in Hd.
Qed.

Lemma ParseInt_FormatInt bits z : (0 < bits)%Z -> (- 2 ^ (bits - 1) <= z < 2 ^ (bits - 1))%Z -> ParseInt bits (FormatInt z) = Ok z.
Proof.
  intros Hb Hz. unfold FormatInt. destruct (z <? 0)%Z eqn:Hneg; [|apply ParseInt_FormatUint; lia].
  unfold ParseInt, FormatUint. rewrite app_cons_str. cbn [sign_of]. change (Ascii.eqb "-" "-") with true. cbn match.
  change (EmptyString +:+ ?x) with x. rewrite value_digits, Z2N.id by lia. rewrite Z.opp_involutive.
  rewrite (proj2 (Z.leb_le _ _)), (proj2 (Z.ltb_lt _ _)) by lia. done.
Qed.
