(* ===== verification/WorldTypes.v ===== *)
(** The world model: [internal/world] (locations, exits, objects, characters,
    their validation and the payloads of change events) and
    [internal/world/wmodel] (what a write touched, and the envelope announcing it).

    An identifier is the text of its ULID; [IsZero] compares it with the text of
    the zero ULID.  Times are nanoseconds.  A JSON column or payload holds the
    value it denotes. *)

From S2P Require Import Prelude GoStrings GoText GoJson Sql.

#[local] Open Scope string_scope.
#[local] Open Scope Z_scope.

Abbreviation ULID := string.
Definition zeroULID : ULID := "00000000000000000000000000".
Definition IsZero (id : ULID) : bool := String.eqb id zeroULID.

(** Go's Unicode tables: [unicode.IsLetter] and [unicode.IsDigit], a rune given by
    its UTF-8 bytes. *)
Record Unicode : Type := mkUnicode { IsLetter : string -> bool; IsDigit : string -> bool }.

(** ** Errors: [errors.go] *)
Definition ErrNotFound : error := ErrNew "not found".
Definition ErrConcurrentEdit : error := ErrNew "concurrent edit".
Definition CodeConcurrentEdit : string := "WORLD_CONCURRENT_EDIT".
Definition ErrSelfReferentialExit : error :=
  ErrNew "self-referential exit: from and to locations cannot be the same".
Definition ErrInvalidContainment : error := ErrNew "object must be in exactly one place".
Definition ErrInvalidLocationType : error := ErrNew "invalid location type".
Definition ErrInvalidVisibility : error := ErrNew "invalid visibility".
Definition ErrInvalidLockType : error := ErrNew "invalid lock type".
Definition ErrPermissionDenied : error := ErrNew "permission denied".
Definition ErrAccessEvaluationFailed : error := ErrNew "access evaluation failed".

Definition is_not_found (e : error) : bool := error_Is "not found" e.
Definition is_conflict (e : error) : bool := error_Is "concurrent edit" e.

(** ** Validation: [validation.go] *)
Definition MaxNameLength : Z := 100.
Definition MaxDescriptionLength : Z := 4000.
Definition MaxAliasCount : Z := 10.
Definition MaxAliasLength : Z := 50.
Definition MaxVisibleToCount : Z := 100.
Definition MaxLockDataKeys : Z := 20.

Definition len (s : string) : Z := Z.of_nat (String.length s).

(** [ValidationError]. *)
Definition invalid {A} (field msg : string) : result A := Err (ErrNew (field +:+ ": " +:+ msg)).

Definition check (c : bool) (e : result unit) : result unit := if c then e else Ok tt.

(** [unicode.IsControl] (category Cc); [except] are the code points let through. *)
Definition is_control (except : list N) (r : rune) : bool :=
  match r with
  | Rune (String a EmptyString) => ((code a <? 32)%N || (code a =? 127)%N) && negb (existsb (N.eqb (code a)) except)
  | Rune (String a (String b EmptyString)) => (code a =? 194)%N && (code b <? 160)%N
  | _ => false
  end.
Definition hasControlChars (s : string) : bool := existsb (is_control []) (runes s).
Definition hasControlCharsExceptWhitespace (s : string) : bool := existsb (is_control [10; 13; 9]%N) (runes s).

Definition ValidateName (name : string) : result unit :=
  _ ← check (is_empty name) (invalid "name" "cannot be empty");
  _ ← check (negb (valid_utf8 name)) (invalid "name" "must be valid UTF-8");
  _ ← check (MaxNameLength <? len name) (invalid "name" "exceeds maximum length of 100");
  check (hasControlChars name) (invalid "name" "cannot contain control characters").

Definition ValidateDescription (desc : string) : result unit :=
  if is_empty desc then Ok tt
  else
    _ ← check (negb (valid_utf8 desc)) (invalid "description" "must be valid UTF-8");
    _ ← check (MaxDescriptionLength <? len desc) (invalid "description" "exceeds maximum length of 4000");
    check (hasControlCharsExceptWhitespace desc)
      (invalid "description" "cannot contain control characters (except newline/tab)").

Fixpoint validate_aliases_from (i : Z) (aliases : list string) : result unit :=
  match aliases with
  | [] => Ok tt
  | a :: rest =>
      let say m := invalid "aliases" ("alias " +:+ FormatInt i +:+ m) in
      _ ← check (is_empty a) (say " cannot be empty");
      _ ← check (negb (valid_utf8 a)) (say " must be valid UTF-8");
      _ ← check (MaxAliasLength <? len a) (say " exceeds maximum length of 50");
      _ ← check (hasControlChars a) (say " cannot contain control characters");
      validate_aliases_from (i + 1) rest
  end.

Definition ValidateAliases (aliases : list string) : result unit :=
  _ ← check (MaxAliasCount <? Z.of_nat (length aliases)) (invalid "aliases" "exceeds maximum count of 10");
  validate_aliases_from 0 aliases.

Fixpoint first_duplicate (seen ids : list ULID) : option ULID :=
  match ids with
  | [] => None
  | id :: rest => if str_mem id seen then Some id else first_duplicate (id :: seen) rest
  end.

Definition ValidateVisibleTo (ids : list ULID) : result unit :=
  _ ← check (MaxVisibleToCount <? Z.of_nat (length ids)) (invalid "visible_to" "exceeds maximum count of 100");
  match first_duplicate [] ids with
  | Some id => invalid "visible_to" ("duplicate ID: " +:+ id)
  | None => Ok tt
  end.

Definition underscore (r : rune) : bool := String.eqb (rune_bytes r) "_".

Definition isValidIdentifier (u : Unicode) (s : string) : bool :=
  match runes s with
  | [] => false
  | r :: rs =>
      (IsLetter u (rune_bytes r) || underscore r)
      && forallb (fun r => IsLetter u (rune_bytes r) || IsDigit u (rune_bytes r) || underscore r) rs
  end.

(** A value of a [map[string]any]: one [json.Marshal] accepts, or one it refuses. *)
Inductive lock_val : Type :=
| Serializable (j : json)
| Unserializable (why : string).

(** [json.Marshal] of the map, when it fails. *)
Definition refused_value (m : gmap string lock_val) : option string :=
  head (omap (fun kv => match kv.2 with Unserializable why => Some why | Serializable _ => None end) (map_to_list m)).

(** The keys of a map are visited in no fixed order, so which bad key is reported is
    not determined; here it is the first in the order of the map's elements. *)
Definition bad_key (u : Unicode) (k : string) : bool := is_empty k || negb (isValidIdentifier u k).

Definition ValidateLockData (u : Unicode) (lockData : option (gmap string lock_val)) : result unit :=
  match lockData with
  | None => Ok tt
  | Some m =>
      let entries := map_to_list m in
      _ ← check (MaxLockDataKeys <? Z.of_nat (length entries)) (invalid "lock_data" "exceeds maximum key count of 20");
      _ ← match find (bad_key u) (map fst entries) with
          | Some k => if is_empty k then invalid "lock_data" "key cannot be empty"
                      else invalid "lock_data" ("key " +:+ str1 quote +:+ k +:+ str1 quote +:+ " is not a valid identifier")
          | None => Ok tt
          end;
      match refused_value m with
      | Some why => invalid "lock_data" ("not JSON-serializable: " +:+ why)
      | None => Ok tt
      end
  end.

(** ** Locations: [location.go] *)
Definition LocationTypePersistent : string := "persistent".
Definition LocationTypeScene : string := "scene".
Definition LocationTypeInstance : string := "instance".

Definition LocationType_Validate (t : string) : result unit :=
  if str_mem t [LocationTypePersistent; LocationTypeScene; LocationTypeInstance] then Ok tt
  else Err ErrInvalidLocationType.

(** [Version] is the optimistic-concurrency version. *)
Record Location : Type := mkLocation {
  loc_ID : ULID;
  loc_Type : string;
  loc_ShadowsID : option ULID;
  loc_Name : string;
  loc_Description : string;
  loc_OwnerID : option ULID;
  loc_ReplayPolicy : string;
  loc_CreatedAt : Z;
  loc_ArchivedAt : option Z;
  loc_Version : Z
}.

Definition Location_Validate (l : Location) : result unit :=
  _ ← check (IsZero (loc_ID l)) (invalid "id" "cannot be zero");
  _ ← ValidateName (loc_Name l);
  _ ← ValidateDescription (loc_Description l);
  LocationType_Validate (loc_Type l).

Definition DefaultReplayPolicy (locType : string) : string :=
  if String.eqb locType LocationTypeScene then "last:-1" else "last:0".

Definition NewLocationWithID (now : Z) (id : ULID) (name description locType : string) : result Location :=
  let l := mkLocation id locType None name description None (DefaultReplayPolicy locType) now None 0 in
  _ ← Location_Validate l; Ok l.

Definition EffectiveDescription (l : Location) (parent : option Location) : string :=
  if negb (is_empty (loc_Description l)) then loc_Description l
  else match loc_ShadowsID l, parent with
       | Some _, Some p => loc_Description p
       | _, _ => loc_Description l
       end.

Definition EffectiveName (l : Location) (parent : option Location) : string :=
  if negb (is_empty (loc_Name l)) then loc_Name l
  else match loc_ShadowsID l, parent with
       | Some _, Some p => loc_Name p
       | _, _ => loc_Name l
       end.

(** [strconv.Atoi] is [ParseInt] at 64 bits. *)
Definition ParseReplayPolicy (policy : string) : result Z :=
  if negb (HasPrefix policy "last:")
  then Err (ErrCode "INVALID_REPLAY_POLICY" "invalid replay policy format: must start with 'last:'")
  else match ParseInt 64 (TrimPrefix policy "last:") with
       | Ok n => Ok n
       | Err e => Err (ErrWrapCode "INVALID_REPLAY_POLICY_COUNT" e)
       end.

(** ** Exits: [exit.go] *)
Definition VisibilityAll : string := "all".
Definition VisibilityOwner : string := "owner".
Definition VisibilityList : string := "list".
Definition LockTypeKey : string := "key".
Definition LockTypePassword : string := "password".
Definition LockTypeCondition : string := "condition".

Definition Visibility_Validate (v : string) : result unit :=
  if str_mem v [VisibilityAll; VisibilityOwner; VisibilityList] then Ok tt else Err ErrInvalidVisibility.
Definition LockType_Validate (l : string) : result unit :=
  if str_mem l [LockTypeKey; LockTypePassword; LockTypeCondition] then Ok tt else Err ErrInvalidLockType.

Record Exit : Type := mkExit {
  ex_ID : ULID;
  ex_FromLocationID : ULID;
  ex_ToLocationID : ULID;
  ex_Name : string;
  ex_Aliases : list string;
  ex_Bidirectional : bool;
  ex_ReturnName : string;
  ex_Visibility : string;
  ex_VisibleTo : list ULID;
  ex_Locked : bool;
  ex_LockType : string;
  ex_LockData : option (gmap string lock_val);
  ex_CreatedAt : Z;
  ex_Version : Z
}.

Definition Exit_Validate (u : Unicode) (e : Exit) : result unit :=
  _ ← check (IsZero (ex_ID e)) (invalid "id" "cannot be zero");
  _ ← ValidateName (ex_Name e);
  _ ← ValidateAliases (ex_Aliases e);
  _ ← Visibility_Validate (ex_Visibility e);
  _ ← check (negb (IsZero (ex_FromLocationID e)) && String.eqb (ex_FromLocationID e) (ex_ToLocationID e))
        (Err ErrSelfReferentialExit);
  _ ← (if ex_Locked e then _ ← LockType_Validate (ex_LockType e); ValidateLockData u (ex_LockData e) else Ok tt);
  if String.eqb (ex_Visibility e) VisibilityList then ValidateVisibleTo (ex_VisibleTo e) else Ok tt.

Definition IsVisibleTo (e : Exit) (charID : ULID) (locationOwnerID : option ULID) : bool :=
  if String.eqb (ex_Visibility e) VisibilityAll then true
  else if String.eqb (ex_Visibility e) VisibilityOwner then bool_decide (locationOwnerID = Some charID)
  else if String.eqb (ex_Visibility e) VisibilityList then str_mem charID (ex_VisibleTo e)
  else false.

(** A JSON round trip: the copy shares nothing with the original.  An object with a
    value [json.Marshal] refuses cannot be copied. *)
Definition deepCopyLockData (src : option (gmap string lock_val)) : result (option (gmap string lock_val)) :=
  match src with
  | None => Ok None
  | Some m =>
      match refused_value m with
      | Some why => Err (ErrWrapCode "LOCK_DATA_MARSHAL_FAILED" (ErrNew why))
      | None => Ok (Some m)
      end
  end.

(** The new exit has no identifier and no creation time yet. *)
Definition ReverseExit (e : Exit) : result (option Exit) :=
  if negb (ex_Bidirectional e) || is_empty (ex_ReturnName e) then Ok None
  else
    match deepCopyLockData (ex_LockData e) with
    | Err err => Err (ErrWrap "failed to deep copy lock data" err)
    | Ok lockData =>
        Ok (Some (mkExit zeroULID (ex_ToLocationID e) (ex_FromLocationID e) (ex_ReturnName e) [] true (ex_Name e)
                    (ex_Visibility e) (ex_VisibleTo e) (ex_Locked e) (ex_LockType e) lockData 0 0))
    end.

(** ** Objects: [object.go] *)
Record Containment : Type := mkContainment {
  cn_LocationID : option ULID;
  cn_CharacterID : option ULID;
  cn_ObjectID : option ULID
}.

Definition one {A} (o : option A) : Z := match o with Some _ => 1 | None => 0 end.

Definition Containment_Validate (c : Containment) : result unit :=
  check (negb (one (cn_LocationID c) + one (cn_CharacterID c) + one (cn_ObjectID c) =? 1)) (Err ErrInvalidContainment).

Definition ContainmentTypeNone : string := "none".

Definition Containment_Type (c : Containment) : string :=
  if is_set (cn_LocationID c) then "location"
  else if is_set (cn_CharacterID c) then "character"
  else if is_set (cn_ObjectID c) then "object" else ContainmentTypeNone.

Definition Containment_ID (c : Containment) : option ULID :=
  match cn_LocationID c, cn_CharacterID c with
  | Some i, _ => Some i
  | None, Some i => Some i
  | None, None => cn_ObjectID c
  end.

Record Object : Type := mkObject {
  obj_ID : ULID;
  obj_Name : string;
  obj_Description : string;
  obj_locationID : option ULID;
  obj_heldByCharacterID : option ULID;
  obj_containedInObjectID : option ULID;
  obj_IsContainer : bool;
  obj_OwnerID : option ULID;
  obj_CreatedAt : Z;
  obj_Version : Z
}.

Definition Object_Containment (o : Object) : Containment :=
  mkContainment (obj_locationID o) (obj_heldByCharacterID o) (obj_containedInObjectID o).

Definition Object_Validate (o : Object) : result unit :=
  _ ← check (IsZero (obj_ID o)) (invalid "id" "cannot be zero");
  _ ← ValidateName (obj_Name o);
  ValidateDescription (obj_Description o).

Definition ValidateContainment (o : Object) : result unit := Containment_Validate (Object_Containment o).

(** ** Characters: [character.go] *)
Record Character : Type := mkCharacter {
  ch_ID : ULID;
  ch_PlayerID : ULID;
  ch_Name : string;
  ch_Description : string;
  ch_LocationID : option ULID;
  ch_CreatedAt : Z;
  ch_Version : Z
}.

(** ** Properties: [property.go] *)
Record EntityProperty : Type := mkProperty {
  pr_ID : ULID;
  pr_ParentType : string;
  pr_ParentID : ULID;
  pr_Name : string;
  pr_Value : option string;
  pr_Owner : option string;
  pr_Visibility : string;
  pr_Flags : list string;
  pr_VisibleTo : option (list string);
  pr_ExcludedFrom : option (list string);
  pr_CreatedAt : Z;
  pr_UpdatedAt : Z
}.

(** ** Change events: [wmodel] *)

(** A string type with five constants; [AggregateOther] is any other string. *)
Inductive AggregateType : Type :=
| AggregateLocation | AggregateExit | AggregateCharacter | AggregateObject | AggregateScene
| AggregateOther (s : string).

#[export] Instance AggregateType_eq_dec : EqDecision AggregateType.
Proof. solve_decision. Defined.

Definition AggregateType_string (t : AggregateType) : string :=
  match t with
  | AggregateLocation => "location"
  | AggregateExit => "exit"
  | AggregateCharacter => "character"
  | AggregateObject => "object"
  | AggregateScene => "scene"
  | AggregateOther s => s
  end.

(** [BeforeVersion] is 0 for a creation, [AfterVersion] 0 for a deletion. *)
Record AffectedAggregate : Type := mkAffected {
  af_Type : AggregateType;
  af_ID : ULID;
  af_BeforeVersion : Z;
  af_AfterVersion : Z;
  af_Tombstone : bool
}.

Record MutationDelta : Type := mkDelta {
  md_Primary : AffectedAggregate;
  md_Affected : list AffectedAggregate
}.

Record EnvelopeIntent : Type := mkIntent {
  in_EventID : ULID;
  in_GameID : string;
  in_Kind : string;
  in_SchemaVersion : Z;
  in_Actor : string;
  in_CausationID : string;
  in_CorrelationID : string;
  in_AggregateType : AggregateType;
  in_AggregateID : ULID;
  in_Payload : json
}.

Record Envelope : Type := mkEnvelope {
  ev_EventID : ULID;
  ev_GameID : string;
  ev_Kind : string;
  ev_SchemaVersion : Z;
  ev_Actor : string;
  ev_CausationID : string;
  ev_CorrelationID : string;
  ev_AggregateType : AggregateType;
  ev_AggregateID : ULID;
  ev_Payload : json;
  ev_Epoch : Z;
  ev_FeedPosition : Z;
  ev_Affected : list AffectedAggregate
}.

(** Primary first, then the cascades. *)
Definition manifestFromDelta (delta : option MutationDelta) : list AffectedAggregate :=
  match delta with
  | None => []
  | Some d => md_Primary d :: md_Affected d
  end.

Definition Finalize (i : EnvelopeIntent) (delta : option MutationDelta) (epoch position : Z) : Envelope :=
  mkEnvelope (in_EventID i) (in_GameID i) (in_Kind i) (in_SchemaVersion i) (in_Actor i) (in_CausationID i)
    (in_CorrelationID i) (in_AggregateType i) (in_AggregateID i) (in_Payload i) epoch position (manifestFromDelta delta).

(** [NewEnvelopeIntent], the event's identifier given; no caller sets the linkage ids. *)
Definition NewEnvelopeIntent (eventID : ULID) (gameID kind : string) (schemaVersion : Z) (actor : string)
    (t : AggregateType) (id : ULID) (payload : json) : EnvelopeIntent :=
  mkIntent eventID gameID kind schemaVersion actor EmptyString EmptyString t id payload.

(** ** Payloads: [payloads.go], [service.go], [character_genesis.go] *)
Definition BuildLocationPayload (l : Location) : json :=
  JObj [("id", JStr (loc_ID l)); ("name", JStr (loc_Name l)); ("description", JStr (loc_Description l))].
Definition BuildExitPayload (e : Exit) : json :=
  JObj [("id", JStr (ex_ID e)); ("name", JStr (ex_Name e)); ("from_location_id", JStr (ex_FromLocationID e));
        ("to_location_id", JStr (ex_ToLocationID e))].
Definition BuildObjectPayload (o : Object) : json :=
  JObj [("id", JStr (obj_ID o)); ("name", JStr (obj_Name o)); ("description", JStr (obj_Description o))].

(** The fields marked [omitempty] are left out when empty. *)
Definition omitempty (k : string) (v : option string) : list (string * json) :=
  match v with Some s => [(k, JStr s)] | None => [] end.

Definition currentContainment (o : Object) : string * option ULID :=
  (Containment_Type (Object_Containment o), Containment_ID (Object_Containment o)).

Definition BuildObjectMovePayload (o : Object) (to : Containment) : json :=
  let from := currentContainment o in (* "none" and no id for an object nowhere *)
  JObj ([("object_id", JStr (obj_ID o)); ("to_type", JStr (Containment_Type to));
         ("to_id", JStr (default EmptyString (Containment_ID to)))]
        ++ (if String.eqb from.1 ContainmentTypeNone then [] else [("from_type", JStr from.1)] ++ omitempty "from_id" from.2)).

Definition BuildCharacterUpdatePayload (id : ULID) (description : string) : json :=
  JObj [("character_id", JStr id); ("description", JStr description)].
Definition BuildTombstonePayload (id : ULID) : json := JObj [("id", JStr id)].
Definition preferencesIntentPayload (id : ULID) (prefs : json) : json :=
  JObj [("character_id", JStr id); ("preferences", prefs)].
Definition moveIntentPayload (id to : ULID) (from : option ULID) : json :=
  JObj ([("character_id", JStr id); ("to_location_id", JStr to)] ++ omitempty "from_location_id" from).
Definition characterGenesisPayload (c : Character) : json :=
  JObj ([("character_id", JStr (ch_ID c)); ("player_id", JStr (ch_PlayerID c)); ("name", JStr (ch_Name c))]
        ++ omitempty "location_id" (ch_LocationID c)).
