(* ===== verification/WorldWire.v ===== *)
(** Envelopes on the wire: [internal/world/outbox/wire.go] and the taxonomy of kinds,
    [taxonomy.go].

    [json.Marshal] and [json.Unmarshal] are those of [GoJson]; the fields of an object
    are matched to a struct's as Go matches them (exactly, else up to case; [null]
    leaves a field as it was; of a name that occurs twice the last counts, a second
    [affected] being decoded afresh here).  [ulid.Parse] is a parameter. *)

From S2P Require Import Prelude GoStrings GoText GoJson Sql WorldTypes BusTypes.

#[local] Open Scope string_scope.
#[local] Open Scope Z_scope.

(** ** Encoding *)
Definition wireAffected (a : AffectedAggregate) : json :=
  JObj [("type", JStr (AggregateType_string (af_Type a))); ("id", JStr (af_ID a));
        ("before_version", JInt (af_BeforeVersion a)); ("after_version", JInt (af_AfterVersion a));
        ("tombstone", JBool (af_Tombstone a))].

Definition wireEnvelope (e : Envelope) : json :=
  JObj [("event_id", JStr (ev_EventID e)); ("game_id", JStr (ev_GameID e)); ("kind", JStr (ev_Kind e));
        ("schema_version", JInt (ev_SchemaVersion e)); ("actor", JStr (ev_Actor e));
        ("causation_id", JStr (ev_CausationID e)); ("correlation_id", JStr (ev_CorrelationID e));
        ("aggregate_type", JStr (AggregateType_string (ev_AggregateType e))); ("aggregate_id", JStr (ev_AggregateID e));
        ("epoch", JInt (ev_Epoch e)); ("feed_position", JInt (ev_FeedPosition e));
        ("affected", JArr (map wireAffected (ev_Affected e))); ("payload", ev_Payload e)].

(** It cannot fail: the payload of the model is a value. *)
Definition MarshalEnvelope (e : Envelope) : string := encode (wireEnvelope e).

(** ** Decoding *)
Definition AggregateType_of (s : string) : AggregateType :=
  if String.eqb s "location" then AggregateLocation
  else if String.eqb s "exit" then AggregateExit
  else if String.eqb s "character" then AggregateCharacter
  else if String.eqb s "object" then AggregateObject
  else if String.eqb s "scene" then AggregateScene
  else AggregateOther s.

(** [foldName]: letters in upper case; two letters outside ASCII fold to one inside. *)
Definition fold_rune (bs : string) : string :=
  match bs with
  | String a EmptyString => if in_range "a" "z" a then str1 (ascii_of_N (code a - 32)) else bs
  | _ => if String.eqb bs (String (ascii_of_N 197) (str1 (ascii_of_N 191))) then "S"
         else if String.eqb bs (String (ascii_of_N 226) (String (ascii_of_N 132) (str1 (ascii_of_N 170)))) then "K"
         else bs
  end.
Definition foldName (s : string) : string := concat_str (map (fun r => fold_rune (rune_bytes r)) (runes s)).

(** The field of a struct a key denotes. *)
Definition field_of (names : list string) (k : string) : option string :=
  if str_mem k names then Some k else find (fun n => String.eqb (foldName n) (foldName k)) names.

Definition type_error {A} : result A := Err (ErrNew "json: cannot unmarshal").

Definition put_string (j : json) (old : string) : result string :=
  match j with JStr s => Ok s | JNull => Ok old | _ => type_error end.
Definition put_int (j : json) (old : Z) : result Z :=
  match j with
  | JNum lit => match ParseInt 64 lit with Ok z => Ok z | Err _ => type_error end
  | JNull => Ok old
  | _ => type_error
  end.
Definition put_bool (j : json) (old : bool) : result bool :=
  match j with JBool b => Ok b | JNull => Ok old | _ => type_error end.

(** The two structs, fields of strings and of numbers apart. *)
Record affected_struct : Type := mkAffS { as_Type : string; as_ID : string; as_Before : Z; as_After : Z; as_Tombstone : bool }.
Definition affected_names : list string := ["type"; "id"; "before_version"; "after_version"; "tombstone"].

Definition set_affected (w : affected_struct) (kv : string * json) : result affected_struct :=
  match field_of affected_names kv.1 with
  | None => Ok w
  | Some n =>
      if String.eqb n "type" then x ← put_string kv.2 (as_Type w); Ok (mkAffS x (as_ID w) (as_Before w) (as_After w) (as_Tombstone w))
      else if String.eqb n "id" then x ← put_string kv.2 (as_ID w); Ok (mkAffS (as_Type w) x (as_Before w) (as_After w) (as_Tombstone w))
      else if String.eqb n "before_version" then x ← put_int kv.2 (as_Before w); Ok (mkAffS (as_Type w) (as_ID w) x (as_After w) (as_Tombstone w))
      else if String.eqb n "after_version" then x ← put_int kv.2 (as_After w); Ok (mkAffS (as_Type w) (as_ID w) (as_Before w) x (as_Tombstone w))
      else x ← put_bool kv.2 (as_Tombstone w); Ok (mkAffS (as_Type w) (as_ID w) (as_Before w) (as_After w) x)
  end.

Definition put_fields {W} (set : W -> string * json -> result W) (fs : list (string * json)) (w : W) : result W :=
  fold_left (fun acc kv => w ← acc; set w kv) fs (Ok w).

Definition put_struct {W} (set : W -> string * json -> result W) (j : json) (w : W) : result W :=
  match j with JObj fs => put_fields set fs w | JNull => Ok w | _ => type_error end.

Definition zero_affected : affected_struct := mkAffS EmptyString EmptyString 0 0 false.

Fixpoint put_all (l : list json) : result (list affected_struct) :=
  match l with
  | [] => Ok []
  | j :: rest => a ← put_struct set_affected j zero_affected; r ← put_all rest; Ok (a :: r)
  end.

Definition put_slice (j : json) : result (list affected_struct) :=
  match j with JArr l => put_all l | JNull => Ok [] | _ => type_error end.

Record envelope_struct : Type := mkEnvS {
  es_EventID : string; es_GameID : string; es_Kind : string; es_SchemaVersion : Z; es_Actor : string;
  es_CausationID : string; es_CorrelationID : string; es_AggregateType : string; es_AggregateID : string;
  es_Epoch : Z; es_FeedPosition : Z; es_Affected : list affected_struct; es_Payload : json
}.
Definition zero_envelope : envelope_struct :=
  mkEnvS EmptyString EmptyString EmptyString 0 EmptyString EmptyString EmptyString EmptyString EmptyString 0 0 [] JNull.

Definition envelope_names : list string :=
  ["event_id"; "game_id"; "kind"; "schema_version"; "actor"; "causation_id"; "correlation_id"; "aggregate_type";
   "aggregate_id"; "epoch"; "feed_position"; "affected"; "payload"].

Definition set_envelope (w : envelope_struct) (kv : string * json) : result envelope_struct :=
  let 'mkEnvS ei g k sv a ca co aty ai ep fp af pl := w in
  match field_of envelope_names kv.1 with
  | None => Ok w
  | Some n =>
      if String.eqb n "event_id" then x ← put_string kv.2 ei; Ok (mkEnvS x g k sv a ca co aty ai ep fp af pl)
      else if String.eqb n "game_id" then x ← put_string kv.2 g; Ok (mkEnvS ei x k sv a ca co aty ai ep fp af pl)
      else if String.eqb n "kind" then x ← put_string kv.2 k; Ok (mkEnvS ei g x sv a ca co aty ai ep fp af pl)
      else if String.eqb n "schema_version" then x ← put_int kv.2 sv; Ok (mkEnvS ei g k x a ca co aty ai ep fp af pl)
      else if String.eqb n "actor" then x ← put_string kv.2 a; Ok (mkEnvS ei g k sv x ca co aty ai ep fp af pl)
      else if String.eqb n "causation_id" then x ← put_string kv.2 ca; Ok (mkEnvS ei g k sv a x co aty ai ep fp af pl)
      else if String.eqb n "correlation_id" then x ← put_string kv.2 co; Ok (mkEnvS ei g k sv a ca x aty ai ep fp af pl)
      else if String.eqb n "aggregate_type" then x ← put_string kv.2 aty; Ok (mkEnvS ei g k sv a ca co x ai ep fp af pl)
      else if String.eqb n "aggregate_id" then x ← put_string kv.2 ai; Ok (mkEnvS ei g k sv a ca co aty x ep fp af pl)
      else if String.eqb n "epoch" then x ← put_int kv.2 ep; Ok (mkEnvS ei g k sv a ca co aty ai x fp af pl)
      else if String.eqb n "feed_position" then x ← put_int kv.2 fp; Ok (mkEnvS ei g k sv a ca co aty ai ep x af pl)
      else if String.eqb n "affected" then x ← put_slice kv.2; Ok (mkEnvS ei g k sv a ca co aty ai ep fp x pl)
      else Ok (mkEnvS ei g k sv a ca co aty ai ep fp af kv.2)
  end.

Section Wire.
(** [ulid.Parse], the identifier given by its text. *)
Context (parse : string -> result ULID).

Definition affected_of (a : affected_struct) : result AffectedAggregate :=
  match parse (as_ID a) with
  | Ok i => Ok (mkAffected (AggregateType_of (as_Type a)) i (as_Before a) (as_After a) (as_Tombstone a))
  | Err e => Err (ErrWrapCode "WORLD_OUTBOX_WIRE_BAD_AFFECTED_ID" e)
  end.

Fixpoint affected_all (l : list affected_struct) : result (list AffectedAggregate) :=
  match l with
  | [] => Ok []
  | a :: rest => x ← affected_of a; r ← affected_all rest; Ok (x :: r)
  end.

Definition UnmarshalEnvelope (payload : string) : result Envelope :=
  match decode payload with
  | None => Err (ErrWrapCode "WORLD_OUTBOX_WIRE_UNMARSHAL_FAILED" (ErrNew "json"))
  | Some j =>
      match put_struct set_envelope j zero_envelope with
      | Err e => Err (ErrWrapCode "WORLD_OUTBOX_WIRE_UNMARSHAL_FAILED" e)
      | Ok w =>
          match parse (es_EventID w) with
          | Err e => Err (ErrWrapCode "WORLD_OUTBOX_WIRE_BAD_EVENT_ID" e)
          | Ok eventID =>
              match parse (es_AggregateID w) with
              | Err e => Err (ErrWrapCode "WORLD_OUTBOX_WIRE_BAD_AGGREGATE_ID" e)
              | Ok aggID =>
                  affected ← affected_all (es_Affected w);
                  Ok (mkEnvelope eventID (es_GameID w) (es_Kind w) (es_SchemaVersion w) (es_Actor w) (es_CausationID w)
                        (es_CorrelationID w) (AggregateType_of (es_AggregateType w)) aggID (es_Payload w) (es_Epoch w)
                        (es_FeedPosition w) affected)
              end
          end
      end
  end.
End Wire.

(** ** Events

    [eventbus.Event], with the fields the adapter sets; the actor is the system. *)
Record WireEvent : Type := mkWireEvent {
  wv_ID : ULID;
  wv_Subject : string;
  wv_Type : string;
  wv_Timestamp : Z;
  wv_Payload : string
}.

Definition EnvelopeToEvent (now : Z) (e : Envelope) : result WireEvent :=
  let payload := MarshalEnvelope e in
  match Qualify (ev_GameID e) (AggregateType_string (ev_AggregateType e) +:+ "." +:+ ev_AggregateID e) with
  | Err err => Err (ErrWrapCode "WORLD_OUTBOX_QUALIFY_FAILED" err)
  | Ok subject =>
      match NewType (ev_Kind e) with
      | Err err => Err (ErrWrapCode "WORLD_OUTBOX_BAD_KIND" err)
      | Ok typ => Ok (mkWireEvent (ev_EventID e) subject typ now payload)
      end
  end.

(** ** The taxonomy: [taxonomy.go] *)
Definition AppSchemaVersion : Z := 1.
Definition KindLocationCreated : string := "location_created".
Definition KindLocationUpdated : string := "location_updated".
Definition KindLocationDeleted : string := "location_deleted".
Definition KindExitCreated : string := "exit_created".
Definition KindExitUpdated : string := "exit_updated".
Definition KindExitDeleted : string := "exit_deleted".
Definition KindObjectCreated : string := "object_created".
Definition KindObjectUpdated : string := "object_updated".
Definition KindObjectDeleted : string := "object_deleted".
Definition KindObjectMoved : string := "object_moved".
Definition KindCharacterGenesis : string := "character_genesis".
Definition KindCharacterUpdated : string := "character_updated".
Definition KindCharacterDeleted : string := "character_deleted".
Definition KindCharacterMoved : string := "character_moved".
Definition KindCharacterPreferencesUpdate : string := "character_preferences_update".

Record PayloadField : Type := mkField { pf_Name : string; pf_Type : string; pf_Optional : bool }.
Record KindSchema : Type := mkSchema {
  ks_Kind : string;
  ks_Aggregate : AggregateType;
  ks_SchemaVersion : Z;
  ks_Tombstone : bool;
  ks_Payload : list PayloadField
}.

Definition tombstonePayload : list PayloadField := [mkField "id" "ulid" false].
Definition locationPayload : list PayloadField :=
  [mkField "id" "ulid" false; mkField "name" "string" false; mkField "description" "string" false].
Definition exitPayload : list PayloadField :=
  [mkField "id" "ulid" false; mkField "name" "string" false; mkField "from_location_id" "ulid" false;
   mkField "to_location_id" "ulid" false].
Definition objectPayload : list PayloadField :=
  [mkField "id" "ulid" false; mkField "name" "string" false; mkField "description" "string" false].
Definition movePayload : list PayloadField :=
  [mkField "character_id" "ulid" false; mkField "to_location_id" "ulid" false; mkField "from_location_id" "ulid" true].
Definition genesisPayload : list PayloadField :=
  [mkField "character_id" "ulid" false; mkField "player_id" "ulid" false; mkField "name" "string" false;
   mkField "location_id" "ulid" true].
Definition characterUpdatePayload : list PayloadField :=
  [mkField "character_id" "ulid" false; mkField "description" "string" false].
Definition characterPreferencesPayload : list PayloadField :=
  [mkField "character_id" "ulid" false; mkField "preferences" "json" false].

Definition registry : list KindSchema :=
  [mkSchema KindLocationCreated AggregateLocation 1 false locationPayload;
   mkSchema KindLocationUpdated AggregateLocation 1 false locationPayload;
   mkSchema KindLocationDeleted AggregateLocation 1 true tombstonePayload;
   mkSchema KindExitCreated AggregateExit 1 false exitPayload;
   mkSchema KindExitUpdated AggregateExit 1 false exitPayload;
   mkSchema KindExitDeleted AggregateExit 1 true tombstonePayload;
   mkSchema KindObjectCreated AggregateObject 1 false objectPayload;
   mkSchema KindObjectUpdated AggregateObject 1 false objectPayload;
   mkSchema KindObjectDeleted AggregateObject 1 true tombstonePayload;
   mkSchema KindObjectMoved AggregateObject 1 false movePayload;
   mkSchema KindCharacterGenesis AggregateCharacter 1 false genesisPayload;
   mkSchema KindCharacterUpdated AggregateCharacter 1 false characterUpdatePayload;
   mkSchema KindCharacterDeleted AggregateCharacter 1 true tombstonePayload;
   mkSchema KindCharacterMoved AggregateCharacter 1 false movePayload;
   mkSchema KindCharacterPreferencesUpdate AggregateCharacter 1 false characterPreferencesPayload].

Definition Lookup (kind : string) : result KindSchema :=
  match find (fun k => String.eqb (ks_Kind k) kind) registry with
  | Some k => Ok k
  | None => Err (ErrCode "WORLD_TAXONOMY_UNKNOWN_KIND" "undeclared world-change kind")
  end.
Definition IsDeclared (kind : string) : bool := existsb (fun k => String.eqb (ks_Kind k) kind) registry.
Definition Kinds : list string := map ks_Kind registry.

(** ** The round trip *)
Definition int64_ok (z : Z) : bool := (- 2 ^ 63 <=? z) && (z <? 2 ^ 63).

(** An aggregate type is never another spelling of a constant. *)
Definition type_ok (t : AggregateType) : bool :=
  valid_utf8 (AggregateType_string t) && bool_decide (AggregateType_of (AggregateType_string t) = t).

Lemma put_fields_step {W} (set : W -> string * json -> result W) kv fs w w' :
  set w kv = Ok w' -> put_fields set (kv :: fs) w = put_fields set fs w'.
Proof. intros H. unfold put_fields. cbn. by rewrite H. Qed.

Lemma field_self names n : str_mem n names = true -> field_of names n = Some n.
Proof. unfold field_of. by intros ->. Qed.

Section RoundTrip.
Context (parse : string -> result ULID).

(** The text of an identifier: [ulid.Parse] gives it back. *)
Definition id_ok (i : ULID) : bool := valid_utf8 i && match parse i with Ok j => String.eqb i j | Err _ => false end.

Definition affected_ok (a : AffectedAggregate) : bool :=
  type_ok (af_Type a) && id_ok (af_ID a) && int64_ok (af_BeforeVersion a) && int64_ok (af_AfterVersion a).

(** Text in UTF-8, identifiers, numbers of 64 bits. *)
Definition envelope_ok (e : Envelope) : bool :=
  id_ok (ev_EventID e) && valid_utf8 (ev_GameID e) && valid_utf8 (ev_Kind e) && int64_ok (ev_SchemaVersion e)
  && valid_utf8 (ev_Actor e) && valid_utf8 (ev_CausationID e) && valid_utf8 (ev_CorrelationID e)
  && type_ok (ev_AggregateType e) && id_ok (ev_AggregateID e) && int64_ok (ev_Epoch e) && int64_ok (ev_FeedPosition e)
  && forallb affected_ok (ev_Affected e) && json_ok (ev_Payload e).

Lemma put_int_JInt z old : int64_ok z = true -> put_int (JInt z) old = Ok z.
Proof. unfold int64_ok. intros H. bool_prop. unfold put_int, JInt. by rewrite ParseInt_FormatInt by lia. Qed.

#[local] Arguments put_int : simpl never.

(** The next field of an object, into its place in the struct. *)
Ltac put_field := erewrite put_fields_step;
  [|unfold set_envelope, set_affected; cbn [fst snd]; rewrite field_self by reflexivity; cbn;
    rewrite ?put_int_JInt by done; reflexivity].

Lemma id_ok_parse i : id_ok i = true -> valid_utf8 i = true /\ parse i = Ok i.
Proof. unfold id_ok. intros H. bool_prop. split; [done|]. destruct (parse i) as [j|]; [|done].
  match goal with H : String.eqb _ _ = true |- _ => by apply String.eqb_eq in H as -> end. Qed.

Lemma type_ok_of t : type_ok t = true -> valid_utf8 (AggregateType_string t) = true /\ AggregateType_of (AggregateType_string t) = t.
Proof. unfold type_ok. intros H. by bool_prop. Qed.

Definition affected_struct_of (a : AffectedAggregate) : affected_struct :=
  mkAffS (AggregateType_string (af_Type a)) (af_ID a) (af_BeforeVersion a) (af_AfterVersion a) (af_Tombstone a).

Lemma affected_put a : affected_ok a = true -> put_struct set_affected (wireAffected a) zero_affected = Ok (affected_struct_of a).
Proof.
  unfold affected_ok. intros H. bool_prop. unfold put_struct, wireAffected, zero_affected. do 5 put_field. reflexivity.
Qed.

Lemma affected_put_all l : forallb affected_ok l = true -> put_all (map wireAffected l) = Ok (map affected_struct_of l).
Proof.
  induction l as [|a l IH]; [done|]. cbn [forallb map put_all]. intros H. bool_prop. rewrite affected_put by done. cbn [mbind result_bind].
  by rewrite IH.
Qed.

Lemma affected_back l : forallb affected_ok l = true -> affected_all parse (map affected_struct_of l) = Ok l.
Proof.
  induction l as [|a l IH]; [done|]. cbn [forallb map affected_all]. unfold affected_ok at 1. intros H. bool_prop.
  unfold affected_of at 1. cbn. rewrite (proj2 (id_ok_parse _ ltac:(eassumption))). cbn. rewrite IH by done. cbn.
  rewrite (proj2 (type_ok_of _ ltac:(eassumption))). by destruct a.
Qed.

Lemma affected_json_ok l : forallb affected_ok l = true -> forallb json_ok (map wireAffected l) = true.
Proof.
  induction l as [|a l IH]; [done|]. cbn [forallb map]. unfold affected_ok at 1. intros H. bool_prop; [|by apply IH].
  unfold wireAffected. cbn [json_ok forallb]. rewrite (proj1 (type_ok_of _ ltac:(eassumption))), (proj1 (id_ok_parse _ ltac:(eassumption))).
  by rewrite !JInt_ok.
Qed.

Definition envelope_struct_of (e : Envelope) : envelope_struct :=
  mkEnvS (ev_EventID e) (ev_GameID e) (ev_Kind e) (ev_SchemaVersion e) (ev_Actor e) (ev_CausationID e) (ev_CorrelationID e)
    (AggregateType_string (ev_AggregateType e)) (ev_AggregateID e) (ev_Epoch e) (ev_FeedPosition e)
    (map affected_struct_of (ev_Affected e)) (ev_Payload e).

Lemma envelope_put e : envelope_ok e = true -> put_struct set_envelope (wireEnvelope e) zero_envelope = Ok (envelope_struct_of e).
Proof.
  unfold envelope_ok. intros H. bool_prop. unfold put_struct, wireEnvelope, zero_envelope. do 11 put_field.
  erewrite put_fields_step; [|unfold set_envelope; cbn [fst snd]; rewrite field_self by reflexivity; cbn; rewrite affected_put_all by done; reflexivity].
  put_field. reflexivity.
Qed.

Lemma envelope_json_ok e : envelope_ok e = true -> json_ok (wireEnvelope e) = true.
Proof.
  unfold envelope_ok. intros H. bool_prop. unfold wireEnvelope. cbn [json_ok forallb].
  rewrite !JInt_ok, affected_json_ok by done.
  repeat match goal with
  | H : id_ok _ = true |- _ => apply id_ok_parse in H as [H _]; rewrite H; clear H
  | H : type_ok _ = true |- _ => apply type_ok_of in H as [H _]; rewrite H; clear H
  | H : valid_utf8 _ = true |- _ => rewrite H; clear H
  | H : json_ok _ = true |- _ => rewrite H; clear H
  end. reflexivity.
Qed.

Lemma unmarshal_marshal e : envelope_ok e = true -> UnmarshalEnvelope parse (MarshalEnvelope e) = Ok e.
Proof.
  intros He. unfold UnmarshalEnvelope, MarshalEnvelope. rewrite decode_encode by by apply envelope_json_ok.
  rewrite envelope_put by done. cbn. unfold envelope_ok in He. bool_prop.
  rewrite (proj2 (id_ok_parse (ev_EventID e) ltac:(assumption))), (proj2 (id_ok_parse (ev_AggregateID e) ltac:(assumption))).
  rewrite affected_back by done. cbn. rewrite (proj2 (type_ok_of _ ltac:(eassumption))). by destruct e.
Qed.

(** C32: What the consumer decodes is what the relay encoded: an envelope whose
    texts are UTF-8, whose identifiers are texts of ULIDs and whose numbers fit their 64
    bits is read back from its JSON unchanged, manifest and payload included. *)
Theorem wire_round_trip e : envelope_ok e = true -> UnmarshalEnvelope parse (MarshalEnvelope e) = Ok e.
Proof. apply unmarshal_marshal. Qed.
End RoundTrip.

Definition demo_envelope : Envelope :=
  mkEnvelope "01HZ" "main" KindObjectMoved 1 "character:01HA" EmptyString EmptyString AggregateObject "01HB"
    (JObj [("object_id", JStr "01HB"); ("to_type", JStr "location")]) 1 7
    [mkAffected AggregateObject "01HB" 2 3 false; mkAffected AggregateExit "01HC" 1 0 true].

Lemma wire_round_trip_witness :
  envelope_ok Ok demo_envelope = true /\ UnmarshalEnvelope Ok (MarshalEnvelope demo_envelope) = Ok demo_envelope.
Proof.
  assert (H : envelope_ok Ok demo_envelope = true) by (vm_compute; reflexivity).
  split; [exact H|]. exact (wire_round_trip Ok demo_envelope H).
Defined.
