(* ===== verification/WorldStore.v ===== *)
(** The tables of the world and the repositories of [internal/world/postgres], each
    method the statements it runs inside the ambient transaction; with the writes of
    [internal/auth/postgres/player_repo.go] that touch the same tables.

    Every write is refused as PostgreSQL refuses it: primary and unique keys, foreign
    keys (the cascading and nulling ones act), CHECKs, the ranges of the integer
    columns.  Every repository method that writes runs under [Transactor] (the
    re-entrant [withTx]), so it is a function on the tables that the caller's
    transaction commits or drops as a whole.  It stands at the transaction's commit:
    the rows it writes, and those it locks, are as the commit finds them.  One row is
    read without a lock and then announced, the return exit in [exit_Delete], which
    takes the rows seen then as an argument. *)

From S2P Require Import Prelude GoStrings GoText GoJson Sql WorldTypes WorldWire.

#[local] Open Scope Z_scope.

(** ** Tables *)
Record char_rec : Type := mkCharRec { cr_char : Character; cr_preferences : json }.
Record player_rec : Type := mkPlayerRec { pl_is_guest : bool; pl_reaping_at : option Z }.
Record binding_rec : Type := mkBinding {
  bd_player_id : ULID;
  bd_character_id : ULID;
  bd_ended_at : option Z;
  bd_ended_reason : option string
}.
Record outbox_rec : Type := mkOutbox {
  ob_envelope : Envelope;
  ob_published_at : option Z;
  ob_skip_marker : option ULID
}.
Record counter_rec : Type := mkCounter { fc_next_position : Z; fc_epoch : Z; fc_lease_generation : Z }.

(** Three of these are not tables.  [db_feed] lists every envelope ever inserted into
    [outbox], in order, and [db_gone] the players ever deleted; [db_wire] is the stream
    of the event bus, as far as it carries the feed. *)
Record WDB : Type := mkWDB {
  db_locations : gmap ULID Location;
  db_exits : gmap ULID Exit;
  db_objects : gmap ULID Object;
  db_characters : gmap ULID char_rec;
  db_properties : gmap ULID EntityProperty;
  db_players : gmap ULID player_rec;
  db_bindings : gmap ULID binding_rec;
  db_outbox : gmap ULID outbox_rec;
  db_counters : gmap string counter_rec;
  db_checkpoints : gset (string * Z * string * ULID);
  db_feed : list Envelope;
  db_gone : gset ULID;
  db_wire : list WireEvent
}.

Definition wtx : Type -> Type := txn WDB.

Definition set_locations (m : gmap ULID Location) (db : WDB) : WDB :=
  mkWDB m (db_exits db) (db_objects db) (db_characters db) (db_properties db) (db_players db) (db_bindings db)
    (db_outbox db) (db_counters db) (db_checkpoints db) (db_feed db) (db_gone db) (db_wire db).
Definition set_exits (m : gmap ULID Exit) (db : WDB) : WDB :=
  mkWDB (db_locations db) m (db_objects db) (db_characters db) (db_properties db) (db_players db) (db_bindings db)
    (db_outbox db) (db_counters db) (db_checkpoints db) (db_feed db) (db_gone db) (db_wire db).
Definition set_objects (m : gmap ULID Object) (db : WDB) : WDB :=
  mkWDB (db_locations db) (db_exits db) m (db_characters db) (db_properties db) (db_players db) (db_bindings db)
    (db_outbox db) (db_counters db) (db_checkpoints db) (db_feed db) (db_gone db) (db_wire db).
Definition set_characters (m : gmap ULID char_rec) (db : WDB) : WDB :=
  mkWDB (db_locations db) (db_exits db) (db_objects db) m (db_properties db) (db_players db) (db_bindings db)
    (db_outbox db) (db_counters db) (db_checkpoints db) (db_feed db) (db_gone db) (db_wire db).
Definition set_properties (m : gmap ULID EntityProperty) (db : WDB) : WDB :=
  mkWDB (db_locations db) (db_exits db) (db_objects db) (db_characters db) m (db_players db) (db_bindings db)
    (db_outbox db) (db_counters db) (db_checkpoints db) (db_feed db) (db_gone db) (db_wire db).
Definition set_players (m : gmap ULID player_rec) (db : WDB) : WDB :=
  mkWDB (db_locations db) (db_exits db) (db_objects db) (db_characters db) (db_properties db) m (db_bindings db)
    (db_outbox db) (db_counters db) (db_checkpoints db) (db_feed db) (db_gone db) (db_wire db).
Definition set_bindings (m : gmap ULID binding_rec) (db : WDB) : WDB :=
  mkWDB (db_locations db) (db_exits db) (db_objects db) (db_characters db) (db_properties db) (db_players db) m
    (db_outbox db) (db_counters db) (db_checkpoints db) (db_feed db) (db_gone db) (db_wire db).
Definition set_outbox (m : gmap ULID outbox_rec) (db : WDB) : WDB :=
  mkWDB (db_locations db) (db_exits db) (db_objects db) (db_characters db) (db_properties db) (db_players db)
    (db_bindings db) m (db_counters db) (db_checkpoints db) (db_feed db) (db_gone db) (db_wire db).
Definition set_counters (m : gmap string counter_rec) (db : WDB) : WDB :=
  mkWDB (db_locations db) (db_exits db) (db_objects db) (db_characters db) (db_properties db) (db_players db)
    (db_bindings db) (db_outbox db) m (db_checkpoints db) (db_feed db) (db_gone db) (db_wire db).
Definition set_checkpoints (m : gset (string * Z * string * ULID)) (db : WDB) : WDB :=
  mkWDB (db_locations db) (db_exits db) (db_objects db) (db_characters db) (db_properties db) (db_players db)
    (db_bindings db) (db_outbox db) (db_counters db) m (db_feed db) (db_gone db) (db_wire db).
Definition add_feed (e : Envelope) (db : WDB) : WDB :=
  mkWDB (db_locations db) (db_exits db) (db_objects db) (db_characters db) (db_properties db) (db_players db)
    (db_bindings db) (db_outbox db) (db_counters db) (db_checkpoints db) (db_feed db ++ [e]) (db_gone db) (db_wire db).
Definition add_gone (p : ULID) (db : WDB) : WDB :=
  mkWDB (db_locations db) (db_exits db) (db_objects db) (db_characters db) (db_properties db) (db_players db)
    (db_bindings db) (db_outbox db) (db_counters db) (db_checkpoints db) (db_feed db) ({[p]} ∪ db_gone db) (db_wire db).
Definition add_wire (v : WireEvent) (db : WDB) : WDB :=
  mkWDB (db_locations db) (db_exits db) (db_objects db) (db_characters db) (db_properties db) (db_players db)
    (db_bindings db) (db_outbox db) (db_counters db) (db_checkpoints db) (db_feed db) (db_gone db)
    (db_wire db ++ [v]).

(** What a transaction takes from outside: the time, fresh identifiers, the row a
    LIMIT without an order picks, and the database's LOWER. *)
Record Tick : Type := mkTick {
  tk_now : Z;
  tk_ids : nat -> ULID;
  tk_pick : nat;
  tk_lower : string -> string
}.

(** ** Statements *)
Definition refers {V} (m : gmap ULID V) (o : option ULID) : bool :=
  match o with Some i => is_set (m !! i) | None => true end.

Definition foreign_key : error := sql_error "23503".
Definition check_violation : error := sql_error "23514".
Definition out_of_range : error := sql_error "22003".

(** [if] a constraint does not hold, the statement fails. *)
Definition require (b : bool) (e : error) : wtx unit := if b then mret tt else fail e.

(** Whether some row satisfies [P]. *)
Definition any_row {V} (P : ULID -> V -> bool) (m : gmap ULID V) : bool :=
  existsb (fun kv => P kv.1 kv.2) (map_to_list m).

Definition points (o : option ULID) (id : ULID) : bool := bool_decide (o = Some id).

(** INSERT or UPDATE of one row of each table. *)
Definition put_location (l : Location) : wtx unit :=
  db ← read (fun db => db);
  _ ← require (int4_ok (loc_Version l)) out_of_range;
  _ ← require (refers (<[loc_ID l := l]> (db_locations db)) (loc_ShadowsID l)) foreign_key;
  _ ← require (refers (db_characters db) (loc_OwnerID l)) foreign_key;
  write (fun db => set_locations (<[loc_ID l := l]> (db_locations db)) db).

Definition put_exit (e : Exit) : wtx unit :=
  db ← read (fun db => db);
  _ ← require (int4_ok (ex_Version e)) out_of_range;
  _ ← require (negb (String.eqb (ex_FromLocationID e) (ex_ToLocationID e))) check_violation;
  _ ← require (negb (any_row (fun i r => negb (String.eqb i (ex_ID e))
                                && String.eqb (ex_FromLocationID r) (ex_FromLocationID e)
                                && String.eqb (ex_Name r) (ex_Name e)) (db_exits db)))
        (unique_violation "exits_from_location_id_name_key");
  _ ← require (refers (db_locations db) (Some (ex_FromLocationID e))
               && refers (db_locations db) (Some (ex_ToLocationID e))) foreign_key;
  write (fun db => set_exits (<[ex_ID e := e]> (db_exits db)) db).

Definition put_object (o : Object) : wtx unit :=
  db ← read (fun db => db);
  _ ← require (int4_ok (obj_Version o)) out_of_range;
  _ ← require (negb (points (obj_containedInObjectID o) (obj_ID o))
               && (one (obj_locationID o) + one (obj_heldByCharacterID o) + one (obj_containedInObjectID o) =? 1))
        check_violation;
  _ ← require (refers (db_locations db) (obj_locationID o) && refers (db_characters db) (obj_heldByCharacterID o)
               && refers (db_objects db) (obj_containedInObjectID o) && refers (db_characters db) (obj_OwnerID o))
        foreign_key;
  write (fun db => set_objects (<[obj_ID o := o]> (db_objects db)) db).

Definition put_character (r : char_rec) : wtx unit :=
  db ← read (fun db => db);
  let c := cr_char r in
  _ ← require (int4_ok (ch_Version c)) out_of_range;
  _ ← require (refers (db_players db) (Some (ch_PlayerID c)) && refers (db_locations db) (ch_LocationID c)) foreign_key;
  write (fun db => set_characters (<[ch_ID c := r]> (db_characters db)) db).

(** DELETE of one row.  A location takes its exits along; an object elsewhere that
    pointed to what is deleted would be left in no place, which the CHECK on
    containment refuses. *)
Definition touches (id : ULID) (e : Exit) : bool :=
  String.eqb (ex_FromLocationID e) id || String.eqb (ex_ToLocationID e) id.

Definition delete_location (id : ULID) : wtx unit :=
  db ← read (fun db => db);
  _ ← require (negb (any_row (fun i l => negb (String.eqb i id) && points (loc_ShadowsID l) id) (db_locations db))) foreign_key;
  _ ← require (negb (any_row (fun _ r => points (ch_LocationID (cr_char r)) id) (db_characters db))) foreign_key;
  _ ← require (negb (any_row (fun _ o => points (obj_locationID o) id) (db_objects db))) check_violation;
  write (fun db => set_exits (filter (fun kv => touches id kv.2 = false) (db_exits db))
                     (set_locations (delete id (db_locations db)) db)).

Definition delete_exit (id : ULID) : wtx unit := write (fun db => set_exits (delete id (db_exits db)) db).

Definition delete_object (id : ULID) : wtx unit :=
  db ← read (fun db => db);
  _ ← require (negb (any_row (fun i o => negb (String.eqb i id) && points (obj_containedInObjectID o) id) (db_objects db)))
        check_violation;
  write (fun db => set_objects (delete id (db_objects db)) db).

(** Whether rows outside [bindings] bar the deletion of the characters [P] selects. *)
Definition barred (db : WDB) (P : ULID -> bool) : bool :=
  any_row (fun _ l => match loc_OwnerID l with Some c => P c | None => false end) (db_locations db)
  || any_row (fun _ o => match obj_OwnerID o with Some c => P c | None => false end) (db_objects db)
  || any_row (fun _ o => match obj_heldByCharacterID o with Some c => P c | None => false end) (db_objects db).

Definition delete_character (id : ULID) : wtx unit :=
  db ← read (fun db => db);
  _ ← require (negb (barred db (String.eqb id))) foreign_key;
  _ ← require (negb (any_row (fun _ b => String.eqb (bd_character_id b) id) (db_bindings db))) foreign_key;
  write (fun db => set_characters (delete id (db_characters db)) db).

(** A player takes its characters and its bindings along. *)
Definition owned_by (db : WDB) (p id : ULID) : bool :=
  match db_characters db !! id with Some r => String.eqb (ch_PlayerID (cr_char r)) p | None => false end.

Definition delete_player (p : ULID) : wtx unit :=
  db ← read (fun db => db);
  _ ← require (negb (barred db (owned_by db p))) foreign_key;
  _ ← require (negb (any_row (fun _ b => negb (String.eqb (bd_player_id b) p) && owned_by db p (bd_character_id b))
                       (db_bindings db))) foreign_key;
  write (fun db => add_gone p
    (set_bindings (filter (fun kv => bd_player_id kv.2 <> p) (db_bindings db))
      (set_characters (filter (fun kv => ch_PlayerID (cr_char kv.2) <> p) (db_characters db))
        (set_players (delete p (db_players db)) db)))).

(** ** [helpers.go] *)

(** A write that matched no row: the row is gone, or its version is another. *)
Definition classifyCASZeroRow (currentVersion : option Z) (notFound : error) : error :=
  match currentVersion with
  | None => notFound
  | Some _ => ErrWrapCode CodeConcurrentEdit ErrConcurrentEdit
  end.

Definition primaryDeltaVersioned (t : AggregateType) (id : ULID) (tombstone : bool) (before after : Z) : MutationDelta :=
  mkDelta (mkAffected t id before after tombstone) [].

Definition not_found (code : string) : error := ErrWrapCode code ErrNotFound.

(** [WHERE id = $1] with [AND version = $n] when a version is expected: the row the
    statement matches. *)
Definition matched {V} (version : V -> Z) (expected : Z) (row : option V) : option V :=
  match row with
  | Some r => if (expected <=? 0) || (version r =? expected) then Some r else None
  | None => None
  end.

(** The check after [SELECT version ... FOR UPDATE]: the current version. *)
Definition locked {V} (version : V -> Z) (expected : Z) (code : string) (row : option V) : wtx Z :=
  match row with
  | None => fail (not_found code)
  | Some r =>
      if (0 <? expected) && negb (version r =? expected) then fail (ErrWrapCode CodeConcurrentEdit ErrConcurrentEdit)
      else mret (version r)
  end.

(** ** Locations: [location_repo.go] *)
Definition with_loc_Version (l : Location) (v : Z) : Location :=
  mkLocation (loc_ID l) (loc_Type l) (loc_ShadowsID l) (loc_Name l) (loc_Description l) (loc_OwnerID l)
    (loc_ReplayPolicy l) (loc_CreatedAt l) (loc_ArchivedAt l) v.

Definition location_Get (id : ULID) (db : WDB) : result Location :=
  match db_locations db !! id with Some l => Ok l | None => Err (not_found "LOCATION_NOT_FOUND") end.

(** [Create] and [Update] return the struct with its refreshed version as well. *)
Definition location_Create (l : Location) : wtx (Location * MutationDelta) :=
  db ← read (fun db => db);
  _ ← require (negb (is_set (db_locations db !! loc_ID l))) (unique_violation "locations_pkey");
  let l' := with_loc_Version l 1 in
  _ ← put_location l';
  mret (l', primaryDeltaVersioned AggregateLocation (loc_ID l) false 0 1).

Definition location_Update (l : Location) : wtx (Location * MutationDelta) :=
  db ← read (fun db => db);
  match matched loc_Version (loc_Version l) (db_locations db !! loc_ID l) with
  | None => fail (classifyCASZeroRow (loc_Version <$> db_locations db !! loc_ID l) (not_found "LOCATION_NOT_FOUND"))
  | Some r =>
      let n := loc_Version r + 1 in
      _ ← put_location (mkLocation (loc_ID l) (loc_Type l) (loc_ShadowsID l) (loc_Name l) (loc_Description l)
            (loc_OwnerID l) (loc_ReplayPolicy l) (loc_CreatedAt r) (loc_ArchivedAt l) n);
      mret (with_loc_Version l n, primaryDeltaVersioned AggregateLocation (loc_ID l) false (n - 1) n)
  end.

(** The exits the foreign keys will delete with the location. *)
Definition preselectCascadedExits (id : ULID) : wtx (list AffectedAggregate) :=
  read (fun db => map (fun kv => mkAffected AggregateExit kv.1 (ex_Version kv.2) 0 true)
                    (rows_where (fun _ e => touches id e) (db_exits db))).

Definition location_Delete (id : ULID) (expectedVersion : Z) : wtx MutationDelta :=
  db ← read (fun db => db);
  v ← locked loc_Version expectedVersion "LOCATION_NOT_FOUND" (db_locations db !! id);
  affected ← preselectCascadedExits id;
  _ ← delete_location id;
  mret (mkDelta (mkAffected AggregateLocation id v 0 true) affected).

(** [ORDER BY created_at DESC, id DESC]. *)
Definition newest_first {A} (created : A -> Z) (id : A -> ULID) (a b : A) : bool :=
  (created b <? created a) || ((created a =? created b) && String.leb (id b) (id a)).

Definition location_rows (db : WDB) (P : Location -> bool) : list Location :=
  order_by (newest_first loc_CreatedAt loc_ID) (map snd (rows_where (fun _ l => P l) (db_locations db))).

Definition location_ListByType (t : string) (db : WDB) : result (list Location) :=
  Ok (location_rows db (fun l => String.eqb (loc_Type l) t)).
Definition location_GetShadowedBy (id : ULID) (db : WDB) : result (list Location) :=
  Ok (location_rows db (fun l => points (loc_ShadowsID l) id)).

(** No order and no LIMIT: the first row delivered. *)
Definition pick {A} (n : nat) (l : list A) : option A := l !! (n mod length l)%nat.

Definition location_FindByName (tk : Tick) (name : string) (db : WDB) : result Location :=
  match pick (tk_pick tk) (rows_where (fun _ l => String.eqb (loc_Name l) name) (db_locations db)) with
  | Some (_, l) => Ok l
  | None => Err (not_found "LOCATION_NOT_FOUND")
  end.

(** ** Exits: [exit_repo.go] *)

(** [marshalLockData]: an empty map is stored as NULL and read back as nil. *)
Definition marshalLockData (data : option (gmap string lock_val)) : result (option (gmap string lock_val)) :=
  match data with
  | None => Ok None
  | Some m => if bool_decide (m = ∅) then Ok None else deepCopyLockData (Some m)
  end.

Definition with_ex (e : Exit) (id : ULID) (lockData : option (gmap string lock_val)) (created version : Z) : Exit :=
  mkExit id (ex_FromLocationID e) (ex_ToLocationID e) (ex_Name e) (ex_Aliases e) (ex_Bidirectional e) (ex_ReturnName e)
    (ex_Visibility e) (ex_VisibleTo e) (ex_Locked e) (ex_LockType e) lockData created version.

Definition of_result {A} (r : result A) : wtx A := match r with Ok a => mret a | Err e => fail e end.

Definition insertExitTx (e : Exit) : wtx unit :=
  lockData ← of_result (marshalLockData (ex_LockData e));
  db ← read (fun db => db);
  _ ← require (negb (is_set (db_exits db !! ex_ID e))) (unique_violation "exits_pkey");
  put_exit (with_ex e (ex_ID e) lockData (ex_CreatedAt e) 1).

Definition exit_Get (id : ULID) (db : WDB) : result Exit :=
  match db_exits db !! id with Some e => Ok e | None => Err (not_found "EXIT_NOT_FOUND") end.

Definition exit_Create (tk : Tick) (exit : Exit) : wtx (Exit * MutationDelta) :=
  let id := if IsZero (ex_ID exit) then tk_ids tk 0 else ex_ID exit in
  let created := if ex_CreatedAt exit =? 0 then tk_now tk else ex_CreatedAt exit in
  let exit := with_ex exit id (ex_LockData exit) created (ex_Version exit) in
  _ ← insertExitTx exit;
  reverseID ←
    (if ex_Bidirectional exit && negb (is_empty (ex_ReturnName exit)) then
       returnExit ← of_result (ReverseExit exit);
       match returnExit with
       | Some r =>
           let r := with_ex r (tk_ids tk 1) (ex_LockData r) (ex_CreatedAt exit) 0 in
           _ ← insertExitTx r;
           mret (Some (ex_ID r))
       | None => mret None
       end
     else mret None);
  mret (with_ex exit id (ex_LockData exit) created 1,
        mkDelta (mkAffected AggregateExit id 0 1 false)
          (match reverseID with Some r => [mkAffected AggregateExit r 0 1 false] | None => [] end)).

Definition exit_Update (e : Exit) : wtx (Exit * MutationDelta) :=
  lockData ← of_result (marshalLockData (ex_LockData e));
  db ← read (fun db => db);
  match matched ex_Version (ex_Version e) (db_exits db !! ex_ID e) with
  | None => fail (classifyCASZeroRow (ex_Version <$> db_exits db !! ex_ID e) (not_found "EXIT_NOT_FOUND"))
  | Some r =>
      let n := ex_Version r + 1 in
      _ ← put_exit (with_ex e (ex_ID e) lockData (ex_CreatedAt r) n);
      mret (with_ex e (ex_ID e) (ex_LockData e) (ex_CreatedAt e) n,
            primaryDeltaVersioned AggregateExit (ex_ID e) false (n - 1) n)
  end.

(** [findByNameTx]: any exit of the location whose name or one of whose aliases is
    [name] up to case. *)
Definition named (lower : string -> string) (name : string) (e : Exit) : bool :=
  String.eqb (lower (ex_Name e)) (lower name) || existsb (fun a => String.eqb (lower a) (lower name)) (ex_Aliases e).

Definition exit_FindByName (tk : Tick) (locationID : ULID) (name : string) (db : WDB) : result Exit :=
  match pick (tk_pick tk) (rows_where (fun _ e => String.eqb (ex_FromLocationID e) locationID && named (tk_lower tk) name e)
                             (db_exits db)) with
  | Some (_, e) => Ok e
  | None => Err (not_found "EXIT_NOT_FOUND")
  end.

(** [BidirectionalCleanupResult] with the one issue that does not abort the
    transaction: the return exit was not found. *)
Record CleanupNotice : Type := mkNotice { cu_ExitID : ULID; cu_ToLocationID : ULID; cu_ReturnName : string }.

(** The return exit is deleted with the exit if it leads back.  It is found without a
    lock: [seen] are the exits as they were when the transaction looked for it, which
    at READ COMMITTED need not be as the deletion finds them; whether the deletion
    matched a row is not looked at.  The severe issues (finding or deleting the return
    exit failed) are failures of the database like any other. *)
Definition exit_Delete (tk : Tick) (seen : gmap ULID Exit) (id : ULID) (expectedVersion : Z) : wtx (MutationDelta * option CleanupNotice) :=
  db ← read (fun db => db);
  v ← locked ex_Version expectedVersion "EXIT_NOT_FOUND" (db_exits db !! id);
  _ ← delete_exit id;
  let primary := mkAffected AggregateExit id v 0 true in
  match db_exits db !! id with
  | Some exit =>
      if ex_Bidirectional exit && negb (is_empty (ex_ReturnName exit)) then
        match exit_FindByName tk (ex_ToLocationID exit) (ex_ReturnName exit) (set_exits (delete id seen) db) with
        | Err _ => mret (mkDelta primary [], Some (mkNotice id (ex_ToLocationID exit) (ex_ReturnName exit)))
        | Ok r =>
            if String.eqb (ex_ToLocationID r) (ex_FromLocationID exit) then
              _ ← delete_exit (ex_ID r);
              mret (mkDelta primary [mkAffected AggregateExit (ex_ID r) (ex_Version r) 0 true], None)
            else mret (mkDelta primary [], None)
        end
      else mret (mkDelta primary [], None)
  | None => mret (mkDelta primary [], None)
  end.

Definition by_name (a b : Exit) : bool := String.leb (ex_Name a) (ex_Name b).

Definition exit_ListFromLocation (locationID : ULID) (db : WDB) : result (list Exit) :=
  Ok (order_by by_name (map snd (rows_where (fun _ e => String.eqb (ex_FromLocationID e) locationID) (db_exits db)))).

Definition exit_ListVisibleExits (locationID characterID : ULID) (db : WDB) : result (list Exit) :=
  Ok (order_by by_name
        (map snd (rows_where (fun _ e =>
           String.eqb (ex_FromLocationID e) locationID
           && match db_locations db !! locationID with
              | Some l => String.eqb (ex_Visibility e) "all"
                          || (String.eqb (ex_Visibility e) "owner" && points (loc_OwnerID l) characterID)
                          || (String.eqb (ex_Visibility e) "list" && str_mem characterID (ex_VisibleTo e))
              | None => false
              end) (db_exits db)))).

(** ** Objects: [object_repo.go] *)
Definition DefaultMaxNestingDepth : Z := 3.
Definition maxCTERecursionDepth : nat := 100.

Definition with_obj (o : Object) (c : Containment) (v : Z) : Object :=
  mkObject (obj_ID o) (obj_Name o) (obj_Description o) (cn_LocationID c) (cn_CharacterID c) (cn_ObjectID c)
    (obj_IsContainer o) (obj_OwnerID o) (obj_CreatedAt o) v.

Definition object_Get (id : ULID) (db : WDB) : result Object :=
  match db_objects db !! id with Some o => Ok o | None => Err (not_found "OBJECT_NOT_FOUND") end.

Definition object_Create (o : Object) : wtx (Object * MutationDelta) :=
  db ← read (fun db => db);
  _ ← require (negb (is_set (db_objects db !! obj_ID o))) (unique_violation "objects_pkey");
  let o' := with_obj o (Object_Containment o) 1 in
  _ ← put_object o';
  mret (o', primaryDeltaVersioned AggregateObject (obj_ID o) false 0 1).

Definition object_Update (o : Object) : wtx (Object * MutationDelta) :=
  db ← read (fun db => db);
  match matched obj_Version (obj_Version o) (db_objects db !! obj_ID o) with
  | None => fail (classifyCASZeroRow (obj_Version <$> db_objects db !! obj_ID o) (not_found "OBJECT_NOT_FOUND"))
  | Some r =>
      let n := obj_Version r + 1 in
      _ ← put_object (mkObject (obj_ID o) (obj_Name o) (obj_Description o) (obj_locationID o) (obj_heldByCharacterID o)
            (obj_containedInObjectID o) (obj_IsContainer o) (obj_OwnerID o) (obj_CreatedAt r) n);
      mret (with_obj o (Object_Containment o) n, primaryDeltaVersioned AggregateObject (obj_ID o) false (n - 1) n)
  end.

Definition object_Delete (id : ULID) (expectedVersion : Z) : wtx MutationDelta :=
  db ← read (fun db => db);
  v ← locked obj_Version expectedVersion "OBJECT_NOT_FOUND" (db_objects db !! id);
  _ ← delete_object id;
  mret (primaryDeltaVersioned AggregateObject id true v 0).

(** The recursive query from a container up: one row per level, at most [depth]. *)
Fixpoint containment_chain (depth : nat) (objects : gmap ULID Object) (id : ULID) : list Object :=
  match depth with
  | O => []
  | S d =>
      match objects !! id with
      | None => []
      | Some o => o :: match obj_containedInObjectID o with
                       | Some parent => containment_chain d objects parent
                       | None => []
                       end
      end
  end.

(** The recursive query from an object down, a level at a time: the deepest level
    that has rows, at most [depth]. *)
Definition children (objects : gmap ULID Object) (level : list ULID) : list ULID :=
  map fst (rows_where (fun _ o => match obj_containedInObjectID o with Some p => str_mem p level | None => false end) objects).

Fixpoint descendant_depth (depth : nat) (objects : gmap ULID Object) (level : list ULID) : Z :=
  match depth with
  | O => 0
  | S d => match children objects level with
           | [] => 0
           | next => 1 + descendant_depth d objects next
           end
  end.

Definition checkCircularContainmentTx (objectID targetContainerID : ULID) : wtx unit :=
  db ← read (fun db => db);
  if String.eqb objectID targetContainerID
  then fail (ErrCode "CIRCULAR_CONTAINMENT" "circular containment: cannot place object inside itself")
  else if existsb (fun o => points (obj_containedInObjectID o) objectID)
            (containment_chain maxCTERecursionDepth (db_objects db) targetContainerID)
  then fail (ErrCode "CIRCULAR_CONTAINMENT" "circular containment: target container is inside this object")
  else mret tt.

Definition checkNestingDepthTx (maxNestingDepth : Z) (objectID targetContainerID : ULID) : wtx unit :=
  db ← read (fun db => db);
  let targetDepth := Z.of_nat (length (containment_chain maxCTERecursionDepth (db_objects db) targetContainerID)) in
  let objectSubtreeDepth :=
    match db_objects db !! objectID with
    | Some _ => descendant_depth maxCTERecursionDepth (db_objects db) [objectID]
    | None => 0
    end in
  if maxNestingDepth <? targetDepth + objectSubtreeDepth + 1
  then fail (ErrCode "NESTING_DEPTH_EXCEEDED" "max nesting depth exceeded")
  else mret tt.

(** The object and the container are locked; the rows the two recursive queries walk
    are not. *)
Definition object_Move (maxNestingDepth : Z) (objectID : ULID) (to : Containment) (expectedVersion : Z) : wtx MutationDelta :=
  _ ← of_result (Containment_Validate to);
  db ← read (fun db => db);
  v ← locked obj_Version expectedVersion "OBJECT_NOT_FOUND" (db_objects db !! objectID);
  _ ← match cn_ObjectID to with
      | Some container =>
          match db_objects db !! container with
          | None => fail (not_found "CONTAINER_NOT_FOUND")
          | Some c =>
              if negb (obj_IsContainer c) then fail ErrInvalidContainment
              else _ ← checkCircularContainmentTx objectID container;
                   checkNestingDepthTx maxNestingDepth objectID container
          end
      | None => mret tt
      end;
  match db_objects db !! objectID with
  | None => fail (not_found "OBJECT_NOT_FOUND")
  | Some o =>
      _ ← put_object (with_obj o to (obj_Version o + 1));
      mret (primaryDeltaVersioned AggregateObject objectID false v (v + 1))
  end.

Definition object_rows (db : WDB) (P : Object -> bool) : list Object :=
  order_by (newest_first obj_CreatedAt obj_ID) (map snd (rows_where (fun _ o => P o) (db_objects db))).

Definition object_ListAtLocation (id : ULID) (db : WDB) : result (list Object) :=
  Ok (object_rows db (fun o => points (obj_locationID o) id)).
Definition object_ListHeldBy (id : ULID) (db : WDB) : result (list Object) :=
  Ok (object_rows db (fun o => points (obj_heldByCharacterID o) id)).
Definition object_ListContainedIn (id : ULID) (db : WDB) : result (list Object) :=
  Ok (object_rows db (fun o => points (obj_containedInObjectID o) id)).

(** ** Characters: [character_repo.go] *)
Definition with_ch (c : Character) (description : string) (location : option ULID) (v : Z) : Character :=
  mkCharacter (ch_ID c) (ch_PlayerID c) (ch_Name c) description location (ch_CreatedAt c) v.

Definition char_Version (r : char_rec) : Z := ch_Version (cr_char r).

Definition character_Get (id : ULID) (db : WDB) : result Character :=
  match db_characters db !! id with Some r => Ok (cr_char r) | None => Err (not_found "CHARACTER_NOT_FOUND") end.

Definition character_Create (c : Character) : wtx (Character * MutationDelta) :=
  wrap_code "CHARACTER_CREATE_FAILED" (
    db ← read (fun db => db);
    _ ← require (negb (is_set (db_characters db !! ch_ID c))) (unique_violation "characters_pkey");
    let c' := with_ch c (ch_Description c) (ch_LocationID c) 1 in
    _ ← put_character (mkCharRec c' (JObj []));
    mret (c', primaryDeltaVersioned AggregateCharacter (ch_ID c) false 0 1)).

(** The three guarded UPDATEs differ in the columns they set. *)
Definition update_character (code : string) (id : ULID) (expected : Z) (f : char_rec -> Z -> char_rec) : wtx MutationDelta :=
  db ← read (fun db => db);
  match matched char_Version expected (db_characters db !! id) with
  | None => fail (classifyCASZeroRow (char_Version <$> db_characters db !! id) (not_found "CHARACTER_NOT_FOUND"))
  | Some r =>
      let n := char_Version r + 1 in
      _ ← wrap_code code (put_character (f r n));
      mret (primaryDeltaVersioned AggregateCharacter id false (n - 1) n)
  end.

Definition character_Update (c : Character) : wtx MutationDelta :=
  update_character "CHARACTER_UPDATE_FAILED" (ch_ID c) (ch_Version c) (fun r n =>
    mkCharRec (mkCharacter (ch_ID (cr_char r)) (ch_PlayerID (cr_char r)) (ch_Name c) (ch_Description c) (ch_LocationID c)
                 (ch_CreatedAt (cr_char r)) n) (cr_preferences r)).

Definition character_UpdateLocation (id : ULID) (location : option ULID) (expectedVersion : Z) : wtx MutationDelta :=
  update_character "CHARACTER_MOVE_FAILED" id expectedVersion (fun r n =>
    mkCharRec (with_ch (cr_char r) (ch_Description (cr_char r)) location n) (cr_preferences r)).

(** The column takes any JSON text; a text that is none fails the statement. *)
Definition character_UpdatePreferences (id : ULID) (prefs : string) (expectedVersion : Z) : wtx MutationDelta :=
  match decode prefs with
  | None => fail (ErrWrapCode "CHARACTER_PREFERENCES_UPDATE_FAILED" (sql_error "22P02"))
  | Some j =>
      update_character "CHARACTER_PREFERENCES_UPDATE_FAILED" id expectedVersion (fun r n =>
        mkCharRec (with_ch (cr_char r) (ch_Description (cr_char r)) (ch_LocationID (cr_char r)) n) j)
  end.

Definition character_Delete (id : ULID) (expectedVersion : Z) : wtx MutationDelta :=
  db ← read (fun db => db);
  v ← locked char_Version expectedVersion "CHARACTER_NOT_FOUND" (db_characters db !! id);
  _ ← wrap_code "CHARACTER_DELETE_FAILED" (delete_character id);
  mret (primaryDeltaVersioned AggregateCharacter id true v 0).

Definition char_by_name (a b : Character) : bool := String.leb (ch_Name a) (ch_Name b).

Definition DefaultLimit : Z := 100.

Definition character_GetByLocation (locationID : ULID) (limit offset : Z) (db : WDB) : result (list Character) :=
  let limit := if limit <=? 0 then DefaultLimit else limit in
  if offset <? 0 then Err (ErrWrapCode "CHARACTER_QUERY_FAILED" (sql_error "2201X"))
  else Ok (take (Z.to_nat limit) (drop (Z.to_nat offset)
         (order_by char_by_name (map (fun kv => cr_char kv.2)
            (rows_where (fun _ r => points (ch_LocationID (cr_char r)) locationID) (db_characters db)))))).

Definition character_ListByPlayer (playerID : ULID) (db : WDB) : result (list Character) :=
  Ok (order_by char_by_name (map (fun kv => cr_char kv.2)
        (rows_where (fun _ r => String.eqb (ch_PlayerID (cr_char r)) playerID) (db_characters db)))).

Definition character_IsOwnedByPlayer (characterID playerID : ULID) (db : WDB) : result bool := Ok (owned_by db playerID characterID).

(** ** Properties: [property_repo.go] *)
Definition property_ListByParent (parentType : string) (parentID : ULID) (db : WDB) : result (list EntityProperty) :=
  Ok (order_by (fun a b => String.leb (pr_Name a) (pr_Name b)) (map snd
        (rows_where (fun _ p => String.eqb (pr_ParentType p) parentType && String.eqb (pr_ParentID p) parentID)
           (db_properties db)))).

Definition property_DeleteByParent (parentType : string) (parentID : ULID) : wtx unit :=
  write (fun db => set_properties
    (filter (fun kv => String.eqb (pr_ParentType kv.2) parentType && String.eqb (pr_ParentID kv.2) parentID = false)
       (db_properties db)) db).

(** ** Bindings: [binding_repo.go] *)
Definition binding_Create (tk : Tick) (playerID characterID reason : string) : wtx ULID :=
  if is_empty playerID || is_empty characterID
  then fail (ErrCode "BINDING_STORE_INVALID_INPUT" "playerID and characterID required")
  else
    wrap_code "BINDING_STORE_INSERT_FAILED" (
      let bindingID := tk_ids tk 0 in
      db ← read (fun db => db);
      _ ← require (negb (is_set (db_bindings db !! bindingID))) (unique_violation "player_character_bindings_pkey");
      _ ← require (negb (any_row (fun _ b => String.eqb (bd_character_id b) characterID && negb (is_set (bd_ended_at b)))
                           (db_bindings db))) (unique_violation "idx_pcb_active_per_character");
      _ ← require (refers (db_players db) (Some playerID) && refers (db_characters db) (Some characterID)) foreign_key;
      _ ← write (fun db => set_bindings
            (<[bindingID := mkBinding playerID characterID None (if is_empty reason then None else Some reason)]>
               (db_bindings db)) db);
      mret bindingID).

Definition binding_DeleteByCharacter (characterID : ULID) : wtx unit :=
  write (fun db => set_bindings (filter (fun kv => bd_character_id kv.2 <> characterID) (db_bindings db)) db).

Definition binding_Current (characterID : ULID) (db : WDB) : result (ULID * ULID) :=
  match rows_where (fun _ b => String.eqb (bd_character_id b) characterID && negb (is_set (bd_ended_at b))) (db_bindings db) with
  | (id, b) :: _ => Ok (id, bd_player_id b)
  | [] => Err (ErrCode "BINDING_NOT_FOUND" "no active binding for character")
  end.

Definition binding_End (tk : Tick) (bindingID reason : string) : wtx unit :=
  db ← read (fun db => db);
  match db_bindings db !! bindingID with
  | Some (mkBinding p c None _) =>
      write (fun db => set_bindings (<[bindingID := mkBinding p c (Some (tk_now tk)) (Some reason)]> (db_bindings db)) db)
  | Some _ => fail (ErrCode "BINDING_ALREADY_ENDED" "binding already ended")
  | None => fail (ErrCode "BINDING_NOT_FOUND" "binding not found")
  end.

(** ** Reaping: [reaping_guard.go] and [MarkReaping], [DeleteGuestPlayer] of
    [internal/auth/postgres/player_repo.go] *)
Definition EnsureNotReaping (playerID : ULID) : wtx unit :=
  db ← read (fun db => db);
  match db_players db !! playerID with
  | Some (mkPlayerRec _ (Some _)) => fail (ErrCode "PLAYER_REAPING" "player is being reaped; character creation rejected")
  | _ => mret tt
  end.

Definition MarkReaping (tk : Tick) (playerID : ULID) : wtx unit :=
  db ← read (fun db => db);
  match db_players db !! playerID with
  | Some (mkPlayerRec true _) =>
      write (fun db => set_players (<[playerID := mkPlayerRec true (Some (tk_now tk))]> (db_players db)) db)
  | _ => fail (not_found "GUEST_NOT_FOUND")
  end.

Definition player_DeleteGuestPlayer (playerID : ULID) : wtx unit :=
  db ← read (fun db => db);
  match db_players db !! playerID with
  | Some (mkPlayerRec true _) => wrap_code "GUEST_DELETE_FAILED" (delete_player playerID)
  | _ => fail (not_found "GUEST_NOT_FOUND")
  end.

(** ** The feed: [feed_counter.go] and [outbox_store.go] *)
Definition initial_counter : counter_rec := mkCounter 1 1 0.

(** [INSERT ... ON CONFLICT DO NOTHING], then the row. *)
Definition counter_of (game : string) (db : WDB) : counter_rec := default initial_counter (db_counters db !! game).
Definition put_counter (game : string) (c : counter_rec) : wtx unit :=
  _ ← require (int8_ok (fc_next_position c) && int8_ok (fc_epoch c) && int8_ok (fc_lease_generation c)) out_of_range;
  write (fun db => set_counters (<[game := c]> (db_counters db)) db).

Definition advance (c : counter_rec) : counter_rec :=
  mkCounter (fc_next_position c + 1) (fc_epoch c) (fc_lease_generation c).

Definition Allocate (game : string) : wtx (Z * Z) :=
  c ← read (counter_of game);
  _ ← put_counter game (advance c);
  mret (fc_epoch c, fc_next_position c).

Definition same_position (e e' : Envelope) : bool :=
  String.eqb (ev_GameID e) (ev_GameID e') && (ev_Epoch e =? ev_Epoch e') && (ev_FeedPosition e =? ev_FeedPosition e').

Definition insertOutboxRow (e : Envelope) : wtx unit :=
  db ← read (fun db => db);
  _ ← require (negb (is_set (db_outbox db !! ev_EventID e))) (unique_violation "outbox_pkey");
  _ ← require (negb (any_row (fun _ r => same_position (ob_envelope r) e) (db_outbox db)))
        (unique_violation "outbox_game_epoch_position_unique");
  _ ← require (int4_ok (ev_SchemaVersion e)) out_of_range;
  write (fun db => add_feed e (set_outbox (<[ev_EventID e := mkOutbox e None None]> (db_outbox db)) db)).

Definition WriteIntent (intent : EnvelopeIntent) (delta : option MutationDelta) : wtx Envelope :=
  ep ← Allocate (in_GameID intent);
  let env := Finalize intent delta ep.1 ep.2 in
  _ ← insertOutboxRow env;
  mret env.

(** ** Cutover and epochs: [genesis_store.go] *)
Record genesisAggregate : Type := mkGenesis {
  ga_type : AggregateType;
  ga_id : ULID;
  ga_kind : string;
  ga_version : Z;
  ga_payload : json
}.

Definition enumerateLocations (db : WDB) : list genesisAggregate :=
  map (fun kv => mkGenesis AggregateLocation kv.1 "location_created" (loc_Version kv.2) (BuildLocationPayload kv.2))
    (rows_where (fun _ l => negb (is_set (loc_ArchivedAt l))) (db_locations db)).
Definition enumerateExits (db : WDB) : list genesisAggregate :=
  map (fun kv => mkGenesis AggregateExit kv.1 "exit_created" (ex_Version kv.2) (BuildExitPayload kv.2))
    (map_to_list (db_exits db)).
Definition enumerateObjects (db : WDB) : list genesisAggregate :=
  map (fun kv => mkGenesis AggregateObject kv.1 "object_created" (obj_Version kv.2) (BuildObjectPayload kv.2))
    (map_to_list (db_objects db)).
Definition enumerateCharacters (db : WDB) : list genesisAggregate :=
  map (fun kv => mkGenesis AggregateCharacter kv.1 "character_genesis" (char_Version kv.2) (characterGenesisPayload (cr_char kv.2)))
    (map_to_list (db_characters db)).

Definition CurrentEpoch (game : string) : wtx Z :=
  c ← read (counter_of game);
  _ ← put_counter game c;
  mret (fc_epoch c).

(** One aggregate, in its own transaction: nothing is allocated when the checkpoint
    of the epoch is already there. *)
Definition emitOneGenesis (tk : Tick) (game : string) (a : genesisAggregate) : wtx (bool * Z) :=
  c ← read (counter_of game);
  _ ← put_counter game c;
  let key := (game, fc_epoch c, AggregateType_string (ga_type a), ga_id a) in
  db ← read (fun db => db);
  if bool_decide (key ∈ db_checkpoints db) then mret (false, fc_epoch c)
  else
    _ ← write (fun db => set_checkpoints ({[key]} ∪ db_checkpoints db) db);
    _ ← put_counter game (advance c);
    let intent := NewEnvelopeIntent (tk_ids tk 0) game (ga_kind a) 1 "system" (ga_type a) (ga_id a) (ga_payload a) in
    _ ← insertOutboxRow (Finalize intent (Some (primaryDeltaVersioned (ga_type a) (ga_id a) false 0 (ga_version a)))
                           (fc_epoch c) (fc_next_position c));
    mret (true, fc_epoch c).

Record EpochResetResult : Type := mkReset {
  rs_PreviousEpoch : Z;
  rs_NewEpoch : Z;
  rs_Quarantined : Z;
  rs_OriginPosition : Z
}.

Definition genesisFeedOrigin : Z := 1.

(** The rows of the old epoch still unpublished are marked published, which takes
    them off the relay's scan. *)
Definition stale (game : string) (epoch : Z) (r : outbox_rec) : bool :=
  String.eqb (ev_GameID (ob_envelope r)) game && (ev_Epoch (ob_envelope r) =? epoch) && negb (is_set (ob_published_at r)).

Definition quarantine (now : Z) (game : string) (epoch : Z) (r : outbox_rec) : outbox_rec :=
  if stale game epoch r then mkOutbox (ob_envelope r) (Some now) (ob_skip_marker r) else r.

Definition AdvanceEpoch (tk : Tick) (game : string) : wtx EpochResetResult :=
  c ← read (counter_of game);
  db ← read (fun db => db);
  let oldEpoch := fc_epoch c in
  let n := count_where (fun _ r => stale game oldEpoch r) (db_outbox db) in
  _ ← write (fun db => set_outbox (quarantine (tk_now tk) game oldEpoch <$> db_outbox db) db);
  _ ← put_counter game (mkCounter genesisFeedOrigin (oldEpoch + 1) (fc_lease_generation c));
  mret (mkReset oldEpoch (oldEpoch + 1) n genesisFeedOrigin).
