(* ===== verification/WorldService.v ===== *)
(** [world.Service] with its write executor ([internal/world/service.go],
    [mutator.go]), and the two services of [internal/auth] that write the same
    tables: character creation ([character_genesis.go]) and the reaping of guests
    ([character_reaping.go]).

    A command is a program whose calls are reads, transactions, questions to the
    policy engine, fresh identifiers, the clock and the movement hook.  A read or a transaction
    is atomic; either may fail without effect, and a transaction may also commit
    while its answer is lost. *)

From S2P Require Import Prelude GoStrings GoText GoJson EntityRef PolicyTypes Sql Programs WorldTypes WorldStore.

#[local] Open Scope string_scope.
#[local] Open Scope Z_scope.
#[local] Open Scope prog_scope.

(** ** Calls *)
Inductive wcall : Type -> Type :=
| WRead {A : Type} (f : Tick -> WDB -> result A) : wcall (result A)
| WTx {A : Type} (t : Tick -> wtx A) : wcall (result A)
| WEvaluate (req : AccessRequest) : wcall (result Decision)
| WHook (characterID locationID : ULID) : wcall (result unit)
| WNewID : wcall ULID
| WNow : wcall Z.

Inductive wfault : Type :=
| Served
| Refused (e : error)   (* no effect *)
| Lost (e : error)      (* the effect, but an error for an answer *).

Record wenv : Type := mkWEnv {
  we_tick : Tick;
  we_fault : wfault;
  we_decide : AccessRequest -> result Decision;
  we_hook : result unit;
  we_id : ULID
}.

Definition world_exec (en : wenv) (A : Type) (c : wcall A) (db : WDB) : A * WDB :=
  match c in wcall A return A * WDB with
  | WRead f => (match we_fault en with Served => f (we_tick en) db | Refused e | Lost e => Err e end, db)
  | WTx t =>
      match we_fault en with
      | Served => atomically (t (we_tick en)) db
      | Refused e => (Err e, db)
      | Lost e => (Err e, (atomically (t (we_tick en)) db).2)
      end
  | WEvaluate req => (we_decide en req, db)
  | WHook _ _ => (we_hook en, db)
  | WNewID => (we_id en, db)
  | WNow => (tk_now (we_tick en), db)
  end.

Abbreviation wprog := (prog wcall).

Definition failed {A} (e : error) : wprog (result A) := Done (Err e).

(** ** The service

    Which of its dependencies are not nil, the game it writes the feed of, and the
    nesting limit of its object repository. *)
Record Service : Type := mkService {
  s_gameID : string;
  s_unicode : Unicode;
  s_maxNestingDepth : Z;
  s_locationRepo : bool;
  s_exitRepo : bool;
  s_objectRepo : bool;
  s_characterRepo : bool;
  s_propertyRepo : bool;
  s_transactor : bool;
  s_mutator : bool
}.

Definition prefixLocation : string := "LOCATION".
Definition prefixExit : string := "EXIT".
Definition prefixObject : string := "OBJECT".
Definition prefixCharacter : string := "CHARACTER".
Definition prefixProperty : string := "PROPERTY".

Definition worldSchemaVersion : Z := 1.

Definition checkAccess (subject action resource prefix : string) : wprog (result unit) :=
  let failCode := prefix +:+ "_ACCESS_EVALUATION_FAILED" in
  match NewAccessRequest subject action resource ∅ with
  | Err e => failed (ErrWrapCode failCode (ErrJoin [ErrAccessEvaluationFailed; e]))
  | Ok req =>
      decision ← call (WEvaluate req);
      match decision with
      | Err e => failed (ErrWrapCode failCode (ErrJoin [ErrAccessEvaluationFailed; e]))
      | Ok d =>
          if IsAllowed d then Done (Ok tt)
          else if IsInfraFailure d then failed (ErrWrapCode failCode ErrAccessEvaluationFailed)
          else failed (ErrWrapCode (prefix +:+ "_ACCESS_DENIED") ErrPermissionDenied)
      end
  end.

(** [mutate]: the write and its envelope in one transaction. *)
Definition mutate_tx {A} (intent : EnvelopeIntent) (w : wtx (A * MutationDelta)) : wtx (A * MutationDelta) :=
  r ← w;
  _ ← WriteIntent intent (Some r.2);
  mret r.

Definition mutate {A} (intent : EnvelopeIntent) (w : Tick -> wtx (A * MutationDelta)) : wprog (result (A * MutationDelta)) :=
  call (WTx (fun tk => mutate_tx intent (w tk))).

Definition no_value (w : wtx MutationDelta) : wtx (unit * MutationDelta) := d ← w; mret (tt, d).

Definition buildIntent (s : Service) (kind : string) (t : AggregateType) (id : ULID) (actor : string) (payload : json)
    : wprog EnvelopeIntent :=
  eventID ← call WNewID;
  Done (NewEnvelopeIntent eventID (s_gameID s) kind worldSchemaVersion actor t id payload).

(** How the failures of a write are reported. *)
Definition write_error (notFound other : string) (e : error) : error :=
  if is_conflict e then ErrWrapCode CodeConcurrentEdit e
  else if is_not_found e then ErrWrapCode notFound e
  else ErrWrapCode other e.

(** Where no conflict is expected. *)
Definition read_error (notFound other : string) (e : error) : error :=
  if is_not_found e then ErrWrapCode notFound e else ErrWrapCode other e.

Definition no_mutator (code : string) : error :=
  ErrCode code "world write executor not configured (OutboxWriter + Transactor required)".
Definition no_repository (code what : string) : error := ErrCode code (what +:+ " repository not configured").

(** [if !c { return e }]. *)
Definition unless {A} (c : bool) (e : error) (k : wprog (result A)) : wprog (result A) := if c then k else failed e.

(** [if err := r; err != nil { return wrap(err) }]. *)
Definition passing {A} (r : result unit) (wrap : error -> error) (k : wprog (result A)) : wprog (result A) :=
  match r with Ok _ => k | Err e => failed (wrap e) end.

Definition fresh_unless_set (id : ULID) : wprog ULID := if IsZero id then call WNewID else Done id.

(** ** Locations *)
Definition with_loc_ID (l : Location) (id : ULID) : Location :=
  mkLocation id (loc_Type l) (loc_ShadowsID l) (loc_Name l) (loc_Description l) (loc_OwnerID l)
    (loc_ReplayPolicy l) (loc_CreatedAt l) (loc_ArchivedAt l) (loc_Version l).

Definition GetLocation (s : Service) (subject : string) (id : ULID) : wprog (result Location) :=
  unless (s_locationRepo s) (no_repository "LOCATION_GET_FAILED" "location") (
  _ <~ checkAccess subject "read" (ResourceLocation +:+ id) prefixLocation @@ failed ;;
  loc <~ call (WRead (fun _ => location_Get id)) @@ (fun e => failed (read_error "LOCATION_NOT_FOUND" "LOCATION_GET_FAILED" e)) ;;
  Done (Ok loc)).

Definition CreateLocation (s : Service) (subject : string) (loc : option Location) : wprog (result Location) :=
  unless (s_locationRepo s) (no_repository "LOCATION_CREATE_FAILED" "location") (
  _ <~ checkAccess subject "write" (ResourceLocation +:+ "*") prefixLocation @@ failed ;;
  match loc with
  | None => failed (ErrCode "LOCATION_INVALID" "location is nil")
  | Some loc =>
      id ← fresh_unless_set (loc_ID loc);
      let loc := with_loc_ID loc id in
      passing (Location_Validate loc) (ErrWrapCode "LOCATION_INVALID") (
      unless (s_mutator s) (no_mutator "LOCATION_CREATE_FAILED") (
      intent ← buildIntent s "location_created" AggregateLocation (loc_ID loc) subject (BuildLocationPayload loc);
      r <~ mutate intent (fun _ => location_Create loc) @@ (fun e => failed (ErrWrapCode "LOCATION_CREATE_FAILED" e)) ;;
      Done (Ok r.1)))
  end).

Definition UpdateLocation (s : Service) (subject : string) (loc : option Location) : wprog (result Location) :=
  unless (s_locationRepo s) (no_repository "LOCATION_UPDATE_FAILED" "location") (
  match loc with
  | None => failed (ErrCode "LOCATION_INVALID" "location is nil")
  | Some loc =>
      _ <~ checkAccess subject "write" (ResourceLocation +:+ loc_ID loc) prefixLocation @@ failed ;;
      passing (Location_Validate loc) (ErrWrapCode "LOCATION_INVALID") (
      unless (s_mutator s) (no_mutator "LOCATION_UPDATE_FAILED") (
      intent ← buildIntent s "location_updated" AggregateLocation (loc_ID loc) subject (BuildLocationPayload loc);
      r <~ mutate intent (fun _ => location_Update loc)
        @@ (fun e => failed (write_error "LOCATION_NOT_FOUND" "LOCATION_UPDATE_FAILED" e)) ;;
      Done (Ok r.1)))
  end).

Definition deleteLocation_tx (id : ULID) : wtx MutationDelta :=
  _ ← wrap_code "LOCATION_DELETE_FAILED" (property_DeleteByParent "location" id);
  location_Delete id 0.

Definition DeleteLocation (s : Service) (subject : string) (id : ULID) : wprog (result unit) :=
  unless (s_locationRepo s) (no_repository "LOCATION_DELETE_FAILED" "location") (
  unless (s_propertyRepo s) (ErrCode "LOCATION_DELETE_FAILED" "property repository required for cascade delete") (
  unless (s_transactor s) (ErrCode "LOCATION_DELETE_FAILED" "transactor required for transactional cascade delete") (
  _ <~ checkAccess subject "delete" (ResourceLocation +:+ id) prefixLocation @@ failed ;;
  unless (s_mutator s) (no_mutator "LOCATION_DELETE_FAILED") (
  intent ← buildIntent s "location_deleted" AggregateLocation id subject (BuildTombstonePayload id);
  _ <~ mutate intent (fun _ => no_value (deleteLocation_tx id))
    @@ (fun e => failed (read_error "LOCATION_NOT_FOUND" "LOCATION_DELETE_FAILED" e)) ;;
  Done (Ok tt))))).

Definition FindLocationByName (s : Service) (subject name : string) : wprog (result Location) :=
  unless (s_locationRepo s) (no_repository "LOCATION_FIND_FAILED" "location") (
  _ <~ checkAccess subject "read" (ResourceLocation +:+ "*") prefixLocation @@ failed ;;
  loc <~ call (WRead (fun tk => location_FindByName tk name))
    @@ (fun e => failed (read_error "LOCATION_NOT_FOUND" "LOCATION_FIND_FAILED" e)) ;;
  Done (Ok loc)).

(** ** Exits *)
Definition GetExit (s : Service) (subject : string) (id : ULID) : wprog (result Exit) :=
  unless (s_exitRepo s) (no_repository "EXIT_GET_FAILED" "exit") (
  _ <~ checkAccess subject "read" (ResourceExit +:+ id) prefixExit @@ failed ;;
  e <~ call (WRead (fun _ => exit_Get id)) @@ (fun e => failed (read_error "EXIT_NOT_FOUND" "EXIT_GET_FAILED" e)) ;;
  Done (Ok e)).

Definition CreateExit (s : Service) (subject : string) (exit : option Exit) : wprog (result Exit) :=
  unless (s_exitRepo s) (no_repository "EXIT_CREATE_FAILED" "exit") (
  _ <~ checkAccess subject "write" (ResourceExit +:+ "*") prefixExit @@ failed ;;
  match exit with
  | None => failed (ErrCode "EXIT_INVALID" "exit is nil")
  | Some exit =>
      id ← fresh_unless_set (ex_ID exit);
      let exit := with_ex exit id (ex_LockData exit) (ex_CreatedAt exit) (ex_Version exit) in
      passing (Exit_Validate (s_unicode s) exit) (ErrWrapCode "EXIT_INVALID") (
      unless (s_mutator s) (no_mutator "EXIT_CREATE_FAILED") (
      intent ← buildIntent s "exit_created" AggregateExit (ex_ID exit) subject (BuildExitPayload exit);
      r <~ mutate intent (fun tk => exit_Create tk exit) @@ (fun e => failed (ErrWrapCode "EXIT_CREATE_FAILED" e)) ;;
      Done (Ok r.1)))
  end).

Definition UpdateExit (s : Service) (subject : string) (exit : option Exit) : wprog (result Exit) :=
  unless (s_exitRepo s) (no_repository "EXIT_UPDATE_FAILED" "exit") (
  match exit with
  | None => failed (ErrCode "EXIT_INVALID" "exit is nil")
  | Some exit =>
      _ <~ checkAccess subject "write" (ResourceExit +:+ ex_ID exit) prefixExit @@ failed ;;
      passing (Exit_Validate (s_unicode s) exit) (ErrWrapCode "EXIT_INVALID") (
      unless (s_mutator s) (no_mutator "EXIT_UPDATE_FAILED") (
      intent ← buildIntent s "exit_updated" AggregateExit (ex_ID exit) subject (BuildExitPayload exit);
      r <~ mutate intent (fun _ => exit_Update exit)
        @@ (fun e => failed (write_error "EXIT_NOT_FOUND" "EXIT_UPDATE_FAILED" e)) ;;
      Done (Ok r.1)))
  end).

(** The notice of a return exit already gone is only logged.  The exits the
    transaction sees when it looks for the return exit are read in a step before it
    commits. *)
Definition deleteExit_tx (tk : Tick) (seen : gmap ULID Exit) (id : ULID) : wtx (option CleanupNotice * MutationDelta) :=
  r ← exit_Delete tk seen id 0; mret (r.2, r.1).

Definition DeleteExit (s : Service) (subject : string) (id : ULID) : wprog (result unit) :=
  unless (s_exitRepo s) (no_repository "EXIT_DELETE_FAILED" "exit") (
  _ <~ checkAccess subject "delete" (ResourceExit +:+ id) prefixExit @@ failed ;;
  unless (s_mutator s) (no_mutator "EXIT_DELETE_FAILED") (
  intent ← buildIntent s "exit_deleted" AggregateExit id subject (BuildTombstonePayload id);
  seen <~ call (WRead (fun _ db => Ok (db_exits db)))
    @@ (fun e => failed (read_error "EXIT_NOT_FOUND" "EXIT_DELETE_FAILED" e)) ;;
  _ <~ mutate intent (fun tk => deleteExit_tx tk seen id)
    @@ (fun e => failed (read_error "EXIT_NOT_FOUND" "EXIT_DELETE_FAILED" e)) ;;
  Done (Ok tt))).

Definition GetExitsByLocation (s : Service) (subject : string) (id : ULID) : wprog (result (list Exit)) :=
  unless (s_exitRepo s) (no_repository "EXIT_LIST_FAILED" "exit") (
  _ <~ checkAccess subject "read" (ResourceLocation +:+ id) prefixLocation @@ failed ;;
  l <~ call (WRead (fun _ => exit_ListFromLocation id)) @@ (fun e => failed (ErrWrapCode "EXIT_LIST_FAILED" e)) ;;
  Done (Ok l)).

(** ** Objects *)
Definition GetObject (s : Service) (subject : string) (id : ULID) : wprog (result Object) :=
  unless (s_objectRepo s) (no_repository "OBJECT_GET_FAILED" "object") (
  _ <~ checkAccess subject "read" (ResourceObject +:+ id) prefixObject @@ failed ;;
  o <~ call (WRead (fun _ => object_Get id)) @@ (fun e => failed (read_error "OBJECT_NOT_FOUND" "OBJECT_GET_FAILED" e)) ;;
  Done (Ok o)).

Definition with_obj_ID (o : Object) (id : ULID) : Object :=
  mkObject id (obj_Name o) (obj_Description o) (obj_locationID o) (obj_heldByCharacterID o) (obj_containedInObjectID o)
    (obj_IsContainer o) (obj_OwnerID o) (obj_CreatedAt o) (obj_Version o).

Definition CreateObject (s : Service) (subject : string) (obj : option Object) : wprog (result Object) :=
  unless (s_objectRepo s) (no_repository "OBJECT_CREATE_FAILED" "object") (
  _ <~ checkAccess subject "write" (ResourceObject +:+ "*") prefixObject @@ failed ;;
  match obj with
  | None => failed (ErrCode "OBJECT_INVALID" "object is nil")
  | Some obj =>
      id ← fresh_unless_set (obj_ID obj);
      let obj := with_obj_ID obj id in
      passing (Object_Validate obj) (ErrWrapCode "OBJECT_INVALID") (
      passing (ValidateContainment obj) (ErrWrapCode "OBJECT_INVALID") (
      unless (s_mutator s) (no_mutator "OBJECT_CREATE_FAILED") (
      intent ← buildIntent s "object_created" AggregateObject (obj_ID obj) subject (BuildObjectPayload obj);
      r <~ mutate intent (fun _ => object_Create obj) @@ (fun e => failed (ErrWrapCode "OBJECT_CREATE_FAILED" e)) ;;
      Done (Ok r.1))))
  end).

Definition UpdateObject (s : Service) (subject : string) (obj : option Object) : wprog (result Object) :=
  unless (s_objectRepo s) (no_repository "OBJECT_UPDATE_FAILED" "object") (
  match obj with
  | None => failed (ErrCode "OBJECT_INVALID" "object is nil")
  | Some obj =>
      _ <~ checkAccess subject "write" (ResourceObject +:+ obj_ID obj) prefixObject @@ failed ;;
      passing (Object_Validate obj) (ErrWrapCode "OBJECT_INVALID") (
      passing (ValidateContainment obj) (ErrWrapCode "OBJECT_INVALID") (
      unless (s_mutator s) (no_mutator "OBJECT_UPDATE_FAILED") (
      intent ← buildIntent s "object_updated" AggregateObject (obj_ID obj) subject (BuildObjectPayload obj);
      r <~ mutate intent (fun _ => object_Update obj)
        @@ (fun e => failed (write_error "OBJECT_NOT_FOUND" "OBJECT_UPDATE_FAILED" e)) ;;
      Done (Ok r.1))))
  end).

Definition deleteObject_tx (id : ULID) : wtx MutationDelta :=
  _ ← wrap_code "OBJECT_DELETE_FAILED" (property_DeleteByParent "object" id);
  object_Delete id 0.

Definition DeleteObject (s : Service) (subject : string) (id : ULID) : wprog (result unit) :=
  unless (s_objectRepo s) (no_repository "OBJECT_DELETE_FAILED" "object") (
  unless (s_propertyRepo s) (ErrCode "OBJECT_DELETE_FAILED" "property repository required for cascade delete") (
  unless (s_transactor s) (ErrCode "OBJECT_DELETE_FAILED" "transactor required for transactional cascade delete") (
  _ <~ checkAccess subject "delete" (ResourceObject +:+ id) prefixObject @@ failed ;;
  unless (s_mutator s) (no_mutator "OBJECT_DELETE_FAILED") (
  intent ← buildIntent s "object_deleted" AggregateObject id subject (BuildTombstonePayload id);
  _ <~ mutate intent (fun _ => no_value (deleteObject_tx id))
    @@ (fun e => failed (read_error "OBJECT_NOT_FOUND" "OBJECT_DELETE_FAILED" e)) ;;
  Done (Ok tt))))).

(** The source containment of the payload is what was read before the transaction. *)
Definition MoveObject (s : Service) (subject : string) (id : ULID) (to : Containment) : wprog (result unit) :=
  unless (s_objectRepo s) (no_repository "OBJECT_MOVE_FAILED" "object") (
  _ <~ checkAccess subject "write" (ResourceObject +:+ id) prefixObject @@ failed ;;
  passing (Containment_Validate to) (ErrWrapCode "OBJECT_INVALID") (
  obj <~ call (WRead (fun _ => object_Get id)) @@ (fun e => failed (read_error "OBJECT_NOT_FOUND" "OBJECT_MOVE_FAILED" e)) ;;
  unless (s_mutator s) (no_mutator "OBJECT_MOVE_FAILED") (
  intent ← buildIntent s "object_moved" AggregateObject id subject (BuildObjectMovePayload obj to);
  _ <~ mutate intent (fun _ => no_value (object_Move (s_maxNestingDepth s) id to 0))
    @@ (fun e => failed (write_error "OBJECT_NOT_FOUND" "OBJECT_MOVE_FAILED" e)) ;;
  Done (Ok tt)))).

Definition GetObjectsByLocation (s : Service) (subject : string) (id : ULID) : wprog (result (list Object)) :=
  unless (s_objectRepo s) (no_repository "OBJECT_QUERY_FAILED" "object") (
  _ <~ checkAccess subject "list_objects" (ResourceLocation +:+ id) prefixLocation @@ failed ;;
  l <~ call (WRead (fun _ => object_ListAtLocation id)) @@ (fun e => failed (ErrWrapCode "OBJECT_QUERY_FAILED" e)) ;;
  Done (Ok l)).

(** ** Characters *)
Definition GetCharacter (s : Service) (subject : string) (id : ULID) : wprog (result Character) :=
  unless (s_characterRepo s) (no_repository "CHARACTER_GET_FAILED" "character") (
  _ <~ checkAccess subject "read" (ResourceCharacter +:+ id) prefixCharacter @@ failed ;;
  c <~ call (WRead (fun _ => character_Get id))
    @@ (fun e => failed (read_error "CHARACTER_NOT_FOUND" "CHARACTER_GET_FAILED" e)) ;;
  Done (Ok c)).

Definition GetCharactersByLocation (s : Service) (subject : string) (id : ULID) (limit offset : Z)
    : wprog (result (list Character)) :=
  unless (s_characterRepo s) (no_repository "CHARACTER_QUERY_FAILED" "character") (
  _ <~ checkAccess subject "list_characters" (ResourceLocation +:+ id) prefixLocation @@ failed ;;
  l <~ call (WRead (fun _ => character_GetByLocation id limit offset))
    @@ (fun e => failed (ErrWrapCode "CHARACTER_QUERY_FAILED" e)) ;;
  Done (Ok l)).

Definition UpdateCharacterDescription (s : Service) (subject : string) (id : ULID) (description : string)
    : wprog (result unit) :=
  unless (s_characterRepo s) (no_repository "CHARACTER_UPDATE_FAILED" "character") (
  _ <~ checkAccess subject "write" (ResourceCharacter +:+ id) prefixCharacter @@ failed ;;
  c <~ call (WRead (fun _ => character_Get id))
    @@ (fun e => failed (read_error "CHARACTER_NOT_FOUND" "CHARACTER_GET_FAILED" e)) ;;
  unless (s_mutator s) (no_mutator "CHARACTER_UPDATE_FAILED") (
  let c := with_ch c description (ch_LocationID c) (ch_Version c) in
  intent ← buildIntent s "character_updated" AggregateCharacter id subject (BuildCharacterUpdatePayload id description);
  _ <~ mutate intent (fun _ => no_value (character_Update c))
    @@ (fun e => failed (write_error "CHARACTER_NOT_FOUND" "CHARACTER_UPDATE_FAILED" e)) ;;
  Done (Ok tt))).

(** No access check: the settings command in front of it has made the decision. *)
Definition UpdateCharacterPreferences (s : Service) (id : ULID) (prefs : string) : wprog (result unit) :=
  unless (s_characterRepo s) (no_repository "CHARACTER_PREFERENCES_UPDATE_FAILED" "character") (
  unless (s_mutator s) (no_mutator "CHARACTER_PREFERENCES_UPDATE_FAILED") (
  c <~ call (WRead (fun _ => character_Get id))
    @@ (fun e => failed (read_error "CHARACTER_NOT_FOUND" "CHARACTER_PREFERENCES_UPDATE_FAILED" e)) ;;
  match (if is_empty prefs then Some JNull else decode prefs) with
  | None => failed (ErrWrapCode "CHARACTER_PREFERENCES_UPDATE_FAILED" (ErrNew "json"))
  | Some raw =>
      intent ← buildIntent s "character_preferences_update" AggregateCharacter id (SubjectCharacter +:+ id)
                 (preferencesIntentPayload id raw);
      _ <~ mutate intent (fun _ => no_value (character_UpdatePreferences id prefs (ch_Version c)))
        @@ (fun e => failed (write_error "CHARACTER_NOT_FOUND" "CHARACTER_PREFERENCES_UPDATE_FAILED" e)) ;;
      Done (Ok tt)
  end)).

Definition deleteCharacter_tx (id : ULID) : wtx MutationDelta :=
  _ ← wrap_code "CHARACTER_DELETE_FAILED" (property_DeleteByParent "character" id);
  character_Delete id 0.

Definition DeleteCharacter (s : Service) (subject : string) (id : ULID) : wprog (result unit) :=
  unless (s_characterRepo s) (no_repository "CHARACTER_DELETE_FAILED" "character") (
  unless (s_propertyRepo s) (ErrCode "CHARACTER_DELETE_FAILED" "property repository required for cascade delete") (
  unless (s_transactor s) (ErrCode "CHARACTER_DELETE_FAILED" "transactor required for transactional cascade delete") (
  _ <~ checkAccess subject "delete" (ResourceCharacter +:+ id) prefixCharacter @@ failed ;;
  unless (s_mutator s) (no_mutator "CHARACTER_DELETE_FAILED") (
  intent ← buildIntent s "character_deleted" AggregateCharacter id subject (BuildTombstonePayload id);
  _ <~ mutate intent (fun _ => no_value (deleteCharacter_tx id))
    @@ (fun e => failed (read_error "CHARACTER_NOT_FOUND" "CHARACTER_DELETE_FAILED" e)) ;;
  Done (Ok tt))))).

(** The hook runs after the commit and its failure is only logged; a conflict is
    reported as any other failure. *)
Definition MoveCharacter (s : Service) (subject : string) (id toLocationID : ULID) : wprog (result unit) :=
  unless (s_characterRepo s) (no_repository "CHARACTER_MOVE_FAILED" "character") (
  _ <~ checkAccess subject "write" (ResourceCharacter +:+ id) prefixCharacter @@ failed ;;
  c <~ call (WRead (fun _ => character_Get id))
    @@ (fun e => failed (read_error "CHARACTER_NOT_FOUND" "CHARACTER_MOVE_FAILED" e)) ;;
  unless (s_locationRepo s) (no_repository "CHARACTER_MOVE_FAILED" "location") (
  _ <~ call (WRead (fun _ => location_Get toLocationID))
    @@ (fun e => failed (read_error "LOCATION_NOT_FOUND" "CHARACTER_MOVE_FAILED" e)) ;;
  unless (s_mutator s) (no_mutator "CHARACTER_MOVE_FAILED") (
  intent ← buildIntent s "character_moved" AggregateCharacter id subject (moveIntentPayload id toLocationID (ch_LocationID c));
  _ <~ mutate intent (fun _ => no_value (character_UpdateLocation id (Some toLocationID) (ch_Version c)))
    @@ (fun e => failed (read_error "CHARACTER_NOT_FOUND" "CHARACTER_MOVE_FAILED" e)) ;;
  _ ← call (WHook id toLocationID);
  Done (Ok tt)))).

(** ** Properties *)

(** A denied property is left out; any other failure of a check ends the call. *)
Fixpoint visible_properties (subject : string) (all : list EntityProperty) : wprog (result (list EntityProperty)) :=
  match all with
  | [] => Done (Ok [])
  | p :: rest =>
      r ← checkAccess subject "read" (ResourceProperty +:+ pr_ID p) prefixProperty;
      match r with
      | Ok _ => l <~ visible_properties subject rest @@ failed ;; Done (Ok (p :: l))
      | Err e => if error_Is "permission denied" e then visible_properties subject rest else failed e
      end
  end.

Definition ListPropertiesByParent (s : Service) (subject parentType : string) (parentID : ULID)
    : wprog (result (list EntityProperty)) :=
  unless (s_propertyRepo s) (no_repository "PROPERTY_QUERY_FAILED" "property") (
  all <~ call (WRead (fun _ => property_ListByParent parentType parentID))
    @@ (fun e => failed (ErrWrapCode "PROPERTY_QUERY_FAILED" e)) ;;
  visible_properties subject all).

(** ** Creation of characters: [character_genesis.go] *)
Definition genesisGameID : string := "main".

Definition genesis_tx (tk : Tick) (intent : EnvelopeIntent) (c : Character) (bindReason : string)
    : wtx (Character * MutationDelta) :=
  _ ← EnsureNotReaping (ch_PlayerID c);
  r ← wrap_code "CHARACTER_GENESIS_FAILED" (character_Create c);
  _ ← (if is_empty bindReason then mret tt
       else wrap_code "CHARACTER_GENESIS_BINDING_FAILED" (
              _ ← binding_Create tk (ch_PlayerID c) (ch_ID c) bindReason; mret tt));
  _ ← wrap_code "CHARACTER_GENESIS_ENVELOPE_FAILED" (WriteIntent intent (Some r.2));
  mret r.

Definition CharacterGenesis_Create (char : option Character) (bindReason : string) : wprog (result Character) :=
  match char with
  | None => failed (ErrCode "CHARACTER_GENESIS_FAILED" "character is required")
  | Some c =>
      eventID ← call WNewID;
      let intent := NewEnvelopeIntent eventID genesisGameID "character_genesis" 1 (ch_PlayerID c) AggregateCharacter (ch_ID c)
                      (characterGenesisPayload c) in
      r <~ call (WTx (fun tk => genesis_tx tk intent c bindReason)) @@ failed ;;
      Done (Ok r.1)
  end.

(** ** Reaping of guests: [character_reaping.go] *)
Definition reapingActor : string := "system".

Definition reap_tx (intent : EnvelopeIntent) (c : Character) : wtx MutationDelta :=
  _ ← wrap_code "GUEST_REAP_FAILED" (binding_DeleteByCharacter (ch_ID c));
  _ ← wrap_code "GUEST_REAP_FAILED" (property_DeleteByParent "character" (ch_ID c));
  delta ← character_Delete (ch_ID c) (ch_Version c);
  _ ← wrap_code "GUEST_REAP_FAILED" (WriteIntent intent (Some delta));
  mret delta.

Definition reapCharacter (c : Character) : wprog (result unit) :=
  eventID ← call WNewID;
  let intent := NewEnvelopeIntent eventID genesisGameID "character_deleted" 1 reapingActor AggregateCharacter (ch_ID c)
                  (BuildTombstonePayload (ch_ID c)) in
  _ <~ call (WTx (fun _ => reap_tx intent c)) @@ failed ;;
  Done (Ok tt).

Fixpoint reap_all (cs : list Character) : wprog (result unit) :=
  match cs with
  | [] => Done (Ok tt)
  | c :: rest => _ <~ reapCharacter c @@ failed ;; reap_all rest
  end.

Definition DeleteGuestPlayer (playerID : ULID) : wprog (result unit) :=
  let stage := fun e => failed (ErrWrapCode "GUEST_REAP_FAILED" e) in
  _ <~ call (WTx (fun tk => MarkReaping tk playerID)) @@ stage ;;
  chars <~ call (WRead (fun _ => character_ListByPlayer playerID)) @@ stage ;;
  _ <~ reap_all chars @@ failed ;;
  _ <~ call (WTx (fun _ => player_DeleteGuestPlayer playerID)) @@ stage ;;
  Done (Ok tt).

(** ** Operator commands: [outbox/genesis.go] over [genesis_store.go] *)
Fixpoint emit_all (game : string) (epoch emitted skipped : Z) (l : list genesisAggregate) : wprog (result (Z * Z * Z)) :=
  match l with
  | [] => Done (Ok (epoch, emitted, skipped))
  | a :: rest =>
      r <~ call (WTx (fun tk => emitOneGenesis tk game a)) @@ failed ;;
      if r.1 then emit_all game r.2 (emitted + 1) skipped rest else emit_all game r.2 emitted (skipped + 1) rest
  end.

(** The four enumerations are four queries. *)
Definition EmitGenesisSnapshot (game : string) : wprog (result (Z * Z * Z)) :=
  epoch <~ call (WTx (fun _ => CurrentEpoch game)) @@ failed ;;
  locs <~ call (WRead (fun _ db => Ok (enumerateLocations db))) @@ failed ;;
  exits <~ call (WRead (fun _ db => Ok (enumerateExits db))) @@ failed ;;
  objs <~ call (WRead (fun _ db => Ok (enumerateObjects db))) @@ failed ;;
  chars <~ call (WRead (fun _ db => Ok (enumerateCharacters db))) @@ failed ;;
  emit_all game epoch 0 0 (locs ++ exits ++ objs ++ chars).

Definition EmitSnapshot (game : string) : wprog (result (Z * Z * Z)) :=
  r <~ EmitGenesisSnapshot game @@ (fun e => failed (ErrWrapCode "WORLD_GENESIS_SNAPSHOT_FAILED" e)) ;; Done (Ok r).

Definition ResetEpoch (game : string) : wprog (result EpochResetResult) :=
  r <~ call (WTx (fun tk => AdvanceEpoch tk game)) @@ (fun e => failed (ErrWrapCode "WORLD_EPOCH_RESET_FAILED" e)) ;;
  Done (Ok r).

(** ** Requests *)
Inductive request : Type :=
| RqGetLocation (subject : string) (id : ULID)
| RqCreateLocation (subject : string) (loc : option Location)
| RqUpdateLocation (subject : string) (loc : option Location)
| RqDeleteLocation (subject : string) (id : ULID)
| RqFindLocationByName (subject name : string)
| RqGetExit (subject : string) (id : ULID)
| RqCreateExit (subject : string) (exit : option Exit)
| RqUpdateExit (subject : string) (exit : option Exit)
| RqDeleteExit (subject : string) (id : ULID)
| RqGetExitsByLocation (subject : string) (id : ULID)
| RqGetObject (subject : string) (id : ULID)
| RqCreateObject (subject : string) (obj : option Object)
| RqUpdateObject (subject : string) (obj : option Object)
| RqDeleteObject (subject : string) (id : ULID)
| RqMoveObject (subject : string) (id : ULID) (to : Containment)
| RqGetObjectsByLocation (subject : string) (id : ULID)
| RqGetCharacter (subject : string) (id : ULID)
| RqGetCharactersByLocation (subject : string) (id : ULID) (limit offset : Z)
| RqUpdateCharacterDescription (subject : string) (id : ULID) (description : string)
| RqUpdateCharacterPreferences (id : ULID) (prefs : string)
| RqDeleteCharacter (subject : string) (id : ULID)
| RqMoveCharacter (subject : string) (id toLocationID : ULID)
| RqListPropertiesByParent (subject parentType : string) (parentID : ULID)
| RqCreateCharacter (char : option Character) (bindReason : string)
| RqDeleteGuestPlayer (playerID : ULID)
| RqResetEpoch (game : string).

Definition answering {A} (p : wprog (result A)) : wprog (result unit) :=
  _ <~ p @@ failed ;; Done (Ok tt).

(** Whether the request succeeded; what it returned is dropped. *)
Definition handle (s : Service) (rq : request) : wprog (result unit) :=
  match rq with
  | RqGetLocation u i => answering (GetLocation s u i)
  | RqCreateLocation u l => answering (CreateLocation s u l)
  | RqUpdateLocation u l => answering (UpdateLocation s u l)
  | RqDeleteLocation u i => answering (DeleteLocation s u i)
  | RqFindLocationByName u n => answering (FindLocationByName s u n)
  | RqGetExit u i => answering (GetExit s u i)
  | RqCreateExit u e => answering (CreateExit s u e)
  | RqUpdateExit u e => answering (UpdateExit s u e)
  | RqDeleteExit u i => answering (DeleteExit s u i)
  | RqGetExitsByLocation u i => answering (GetExitsByLocation s u i)
  | RqGetObject u i => answering (GetObject s u i)
  | RqCreateObject u o => answering (CreateObject s u o)
  | RqUpdateObject u o => answering (UpdateObject s u o)
  | RqDeleteObject u i => answering (DeleteObject s u i)
  | RqMoveObject u i to => answering (MoveObject s u i to)
  | RqGetObjectsByLocation u i => answering (GetObjectsByLocation s u i)
  | RqGetCharacter u i => answering (GetCharacter s u i)
  | RqGetCharactersByLocation u i l o => answering (GetCharactersByLocation s u i l o)
  | RqUpdateCharacterDescription u i d => answering (UpdateCharacterDescription s u i d)
  | RqUpdateCharacterPreferences i p => answering (UpdateCharacterPreferences s i p)
  | RqDeleteCharacter u i => answering (DeleteCharacter s u i)
  | RqMoveCharacter u i l => answering (MoveCharacter s u i l)
  | RqListPropertiesByParent u t i => answering (ListPropertiesByParent s u t i)
  | RqCreateCharacter c r => answering (CharacterGenesis_Create c r)
  | RqDeleteGuestPlayer p => answering (DeleteGuestPlayer p)
  | RqResetEpoch g => answering (ResetEpoch g)
  end.

Definition serve (s : Service) (rq : request) : wprog unit := forget (handle s rq).
