(* ===== verification/Outbox.v ===== *)
(** The feed on its way out: the relay that publishes the outbox
    ([internal/world/outbox/relay.go]) over a lease on it
    ([internal/world/postgres/outbox_lease.go]), the operator's skip ([skip.go]), and
    the reference consumer ([consumer.go]) over its checkpoints
    ([consumer_checkpoint_store.go]).

    The broker is an interface of the relay: a publication appends to the stream, and
    may be refused, or accepted and its acknowledgement lost.  The advisory lock of a
    lease is the database session's and may be lost with it at any statement, so
    several relays may believe they hold it; what is left is the generation.  A JSONB
    column gives back the value written to it (the order of an object's keys, which it
    does not keep, is not modelled). *)

From S2P Require Import Prelude GoStrings GoText GoJson Sql Programs WorldTypes WorldWire WorldStore WorldService.

#[local] Open Scope string_scope.
#[local] Open Scope Z_scope.
#[local] Open Scope prog_scope.

(** ** Errors: [store.go] *)
Definition CodeStaleLease : string := "WORLD_OUTBOX_STALE_LEASE".
Definition CodeOutOfOrder : string := "WORLD_OUTBOX_OUT_OF_ORDER".
Definition ErrStaleLease : error := ErrNew "outbox: stale lease".
Definition errPoison : error := ErrNew "outbox: poison (permanently unpublishable) envelope".

Fixpoint hasCode (e : error) (code : string) : bool :=
  match e with
  | ErrCode c _ => String.eqb c code
  | ErrWrapCode c e' => String.eqb c code || hasCode e' code
  | ErrWrap _ e' => hasCode e' code
  | ErrNew _ | ErrJoin _ => false
  end.

Definition IsStaleLease (e : error) : bool := error_Is "outbox: stale lease" e || hasCode e CodeStaleLease.
Definition IsOutOfOrder (e : error) : bool :=
  error_Is "outbox: delivery beyond next contiguous position" e || hasCode e CodeOutOfOrder.

(** ** Leases *)
Record Lease : Type := mkLease { ls_gameID : string; ls_generation : Z }.

Definition errStaleLease : error := ErrWrapCode CodeStaleLease (ErrNew "world/postgres: stale outbox lease").

(** A connection, a lock, and whether they are still there. *)
Definition ask : wprog (result unit) := call (WRead (fun _ _ => Ok tt)).

Definition alive : wprog (result unit) := _ <~ ask @@ (fun _ => failed errStaleLease) ;; Done (Ok tt).

Definition bump_generation (game : string) : wtx Z :=
  db ← read (fun db => db);
  let c := match db_counters db !! game with
           | None => mkCounter 1 1 1
           | Some c => mkCounter (fc_next_position c) (fc_epoch c) (fc_lease_generation c + 1)
           end in
  _ ← put_counter game c;
  mret (fc_lease_generation c).

Definition AcquireLease (game : string) : wprog (result Lease) :=
  _ <~ ask @@ (fun e => failed (ErrWrapCode "WORLD_OUTBOX_LEASE_ACQUIRE_CONN_FAILED" e)) ;;
  _ <~ ask @@ (fun e => failed (ErrWrapCode "WORLD_OUTBOX_LEASE_LOCK_FAILED" e)) ;;
  generation <~ call (WTx (fun _ => bump_generation game))
    @@ (fun e => failed (ErrWrapCode "WORLD_OUTBOX_LEASE_BUMP_GENERATION_FAILED" e)) ;;
  Done (Ok (mkLease game generation)).

Definition feed_le (a b : outbox_rec) : bool :=
  (ev_Epoch (ob_envelope a) <? ev_Epoch (ob_envelope b))
  || ((ev_Epoch (ob_envelope a) =? ev_Epoch (ob_envelope b)) && (ev_FeedPosition (ob_envelope a) <=? ev_FeedPosition (ob_envelope b))).

Definition unpublished (game : string) (r : outbox_rec) : bool :=
  String.eqb (ev_GameID (ob_envelope r)) game && negb (is_set (ob_published_at r)).

Definition next_unpublished (game : string) (db : WDB) : option Envelope :=
  ob_envelope <$> head (order_by feed_le (map snd (rows_where (fun _ r => unpublished game r) (db_outbox db)))).

Definition NextUnpublished (l : Lease) : wprog (result (option Envelope)) :=
  _ <~ alive @@ failed ;;
  e <~ call (WRead (fun _ db => Ok (next_unpublished (ls_gameID l) db)))
    @@ (fun e => failed (ErrWrapCode "WORLD_OUTBOX_NEXT_UNPUBLISHED_QUERY_FAILED" e)) ;;
  Done (Ok e).

(** [UPDATE outbox SET published_at WHERE event_id AND published_at IS NULL]. *)
Definition set_published (now : Z) (id : ULID) : wtx unit :=
  write (fun db => set_outbox (alter (fun r => if is_set (ob_published_at r) then r
                                               else mkOutbox (ob_envelope r) (Some now) (ob_skip_marker r)) id (db_outbox db)) db).

(** Two statements: the generation may move between them. *)
Definition MarkPublished (l : Lease) (eventID : ULID) (generation : Z) : wprog (result unit) :=
  _ <~ alive @@ failed ;;
  stored <~ call (WRead (fun _ db => match db_counters db !! ls_gameID l with
                                     | Some c => Ok (fc_lease_generation c)
                                     | None => Err ErrNoRows
                                     end))
    @@ (fun e => failed (ErrWrapCode "WORLD_OUTBOX_MARK_READ_GENERATION_FAILED" e)) ;;
  if negb (stored =? generation) then failed errStaleLease else (
  _ <~ call (WTx (fun tk => set_published (tk_now tk) eventID))
    @@ (fun e => failed (ErrWrapCode "WORLD_OUTBOX_MARK_PUBLISHED_UPDATE_FAILED" e)) ;;
  Done (Ok tt)).

(** Nothing calls it. *)
Definition Prune (l : Lease) : wprog (result Z) :=
  _ <~ alive @@ failed ;;
  n <~ call (WTx (fun _ =>
         let gone := fun r => String.eqb (ev_GameID (ob_envelope r)) (ls_gameID l) && is_set (ob_published_at r) in
         db ← read (fun db => db);
         _ ← write (fun db => set_outbox (filter (fun kv => gone kv.2 = false) (db_outbox db)) db);
         mret (count_where (fun _ r => gone r) (db_outbox db))))
    @@ (fun e => failed (ErrWrapCode "WORLD_OUTBOX_PRUNE_FAILED" e)) ;;
  Done (Ok n).

(** The unpublished row at a position, of the lowest epoch that has one. *)
Definition blocked_at (game : string) (position : Z) (db : WDB) : option (ULID * outbox_rec) :=
  head (order_by (fun a b => ev_Epoch (ob_envelope a.2) <=? ev_Epoch (ob_envelope b.2))
          (rows_where (fun _ r => unpublished game r && (ev_FeedPosition (ob_envelope r) =? position)) (db_outbox db))).

Definition update_blocked (game : string) (position : Z) (f : outbox_rec -> outbox_rec) : wtx unit :=
  write (fun db => match blocked_at game position db with
                   | Some (id, r) => set_outbox (<[id := f r]> (db_outbox db)) db
                   | None => db
                   end).

Definition MarkSkipResolved (l : Lease) (position : Z) : wprog (result unit) :=
  _ <~ alive @@ failed ;;
  _ <~ call (WTx (fun tk => update_blocked (ls_gameID l) position
                              (fun r => mkOutbox (ob_envelope r) (Some (tk_now tk)) (ob_skip_marker r))))
    @@ (fun e => failed (ErrWrapCode "WORLD_OUTBOX_SKIP_RESOLVE_UPDATE_FAILED" e)) ;;
  Done (Ok tt).

Definition PersistSkipMarkerID (l : Lease) (position : Z) (eventID : ULID) : wprog (result unit) :=
  _ <~ alive @@ failed ;;
  _ <~ call (WTx (fun _ => update_blocked (ls_gameID l) position
                             (fun r => mkOutbox (ob_envelope r) (ob_published_at r) (Some eventID))))
    @@ (fun e => failed (ErrWrapCode "WORLD_OUTBOX_PERSIST_SKIP_MARKER_FAILED" e)) ;;
  Done (Ok tt).

Section Markers.
(** [ulid.Parse]. *)
Context (parse : string -> result ULID).

Definition SkipMarkerID (l : Lease) (position : Z) : wprog (result (option ULID)) :=
  _ <~ alive @@ failed ;;
  marker <~ call (WRead (fun _ db => Ok (match blocked_at (ls_gameID l) position db with
                                     | Some (_, r) => ob_skip_marker r
                                     | None => None
                                     end)))
    @@ (fun e => failed (ErrWrapCode "WORLD_OUTBOX_READ_SKIP_MARKER_FAILED" e)) ;;
  match marker with
  | None => Done (Ok None)
  | Some s =>
      if is_empty s then Done (Ok None) else
      match parse s with
      | Err e => failed (ErrWrapCode "WORLD_OUTBOX_BAD_SKIP_MARKER_ID" e)
      | Ok id => Done (Ok (Some id))
      end
  end.
End Markers.

(** Its failure is only logged. *)
Definition Release (l : Lease) : wprog unit := forget ask.

(** ** The relay *)
Record RelayConfig : Type := mkRelayConfig { rc_GameID : string; rc_MaxPublishAttempts : Z }.

Record Relay : Type := mkRelay {
  rl_cfg : RelayConfig;
  rl_lease : option Lease;
  rl_halted : bool;
  rl_haltPosition : Z
}.

Definition defaultMaxPublishAttempts : Z := 3.

Definition NewRelay (cfg : RelayConfig) : Relay :=
  mkRelay (mkRelayConfig (rc_GameID cfg)
             (if rc_MaxPublishAttempts cfg <=? 0 then defaultMaxPublishAttempts else rc_MaxPublishAttempts cfg))
    None false 0.

Definition set_lease (l : option Lease) (r : Relay) : Relay := mkRelay (rl_cfg r) l (rl_halted r) (rl_haltPosition r).
Definition halt (position : Z) (r : Relay) : Relay := mkRelay (rl_cfg r) (rl_lease r) true position.
Definition clearHalt (r : Relay) : Relay := mkRelay (rl_cfg r) (rl_lease r) false 0.

(** [ctx.Err()]. *)
Definition ctx_Err : wprog (result unit) := _ <~ ask @@ (fun _ => failed (ErrNew "context canceled")) ;; Done (Ok tt).
Definition cancelErr (e : error) : error := ErrWrapCode "WORLD_OUTBOX_CANCELLED" e.

Definition acquireLease (r : Relay) : wprog (result Lease) :=
  l <~ AcquireLease (rc_GameID (rl_cfg r)) @@ (fun e => failed (ErrWrapCode "WORLD_OUTBOX_ACQUIRE_LEASE_FAILED" e)) ;;
  Done (Ok l).

Definition ensureLease (r : Relay) : wprog (result Lease) :=
  match rl_lease r with Some l => Done (Ok l) | None => acquireLease r end.

Definition dropLease (r : Relay) : wprog Relay :=
  match rl_lease r with
  | None => Done r
  | Some l => _ ← Release l; Done (set_lease None r)
  end.

Definition Stop (r : Relay) : wprog Relay := dropLease r.

(** *** Backoff *)
Definition publishRetryBaseBackoff : Z := 50000000.
Definition publishRetryMaxBackoff : Z := 2000000000.

(** [int64] of a shift to the left. *)
Definition shl64 (x s : Z) : Z := let y := Z.shiftl x s mod 2 ^ 64 in if y <? 2 ^ 63 then y else y - 2 ^ 64.

(** [rnd] draws from [0, half], or fails. *)
Definition backoffDelay (rnd : Z -> option Z) (attempt : Z) : Z :=
  let shift := if attempt - 1 <? 0 then 0 else attempt - 1 in
  let base := if 62 <? shift then publishRetryMaxBackoff else shl64 publishRetryBaseBackoff shift in
  let base := if (base <=? 0) || (publishRetryMaxBackoff <? base) then publishRetryMaxBackoff else base in
  let half := Z.quot base 2 in
  match rnd half with None => base | Some n => half + n end.

(** How long it sleeps does not matter here. *)
Definition sleepWithBackoff (attempt : Z) : wprog (result unit) := _ <~ ctx_Err @@ (fun e => failed (cancelErr e)) ;; Done (Ok tt).

(** *** Publication *)
Definition isPermanentPublishErr (e : error) : bool :=
  let by_sentinel := error_Is "eventbus: payload exceeds MaxPayloadSize" e || error_Is "eventbus: invalid subject" e
                     || error_Is "eventbus: invalid event type" e in
  match oops_code e with
  | Some c =>
      if str_mem c ["EVENTBUS_PUBLISH_EXPIRED"; "EVENTBUS_PUBLISH_FAILED"; "EVENTBUS_PUBLISHER_NOT_READY"] then false
      else if str_mem c ["EVENTBUS_PAYLOAD_TOO_LARGE"; "EVENTBUS_EVENT_ID_REQUIRED"; "WORLD_OUTBOX_QUALIFY_FAILED";
                         "WORLD_OUTBOX_BAD_KIND"; "WORLD_OUTBOX_WIRE_MARSHAL_FAILED"] then true
      else by_sentinel
  | None => by_sentinel
  end.

(** The broker. *)
Definition Publish (ev : WireEvent) : wprog (result unit) := call (WTx (fun _ => write (add_wire ev))).

(** The attempts left, of [MaxPublishAttempts]. *)
Fixpoint publish_attempts (max : Z) (left : nat) (ev : WireEvent) : wprog (result unit) :=
  match left with
  | O => Done (Ok tt)
  | S left' =>
      _ <~ ctx_Err @@ (fun e => failed (cancelErr e)) ;;
      r ← Publish ev;
      match r with
      | Ok _ => Done (Ok tt)
      | Err e =>
          if isPermanentPublishErr e then failed (ErrWrap "publish rejected" errPoison)
          else match left' with
               | O => failed (ErrWrapCode "WORLD_OUTBOX_PUBLISH_TRANSIENT" e)
               | S _ => _ <~ sleepWithBackoff (max - Z.of_nat left') @@ failed ;; publish_attempts max left' ev
               end
      end
  end.

Definition publishOne (cfg : RelayConfig) (l : Lease) (env : Envelope) : wprog (result unit) :=
  now ← call WNow;
  match EnvelopeToEvent now env with
  | Err _ => failed (ErrWrap "build wire event" errPoison)
  | Ok ev =>
      _ <~ publish_attempts (rc_MaxPublishAttempts cfg) (Z.to_nat (rc_MaxPublishAttempts cfg)) ev @@ failed ;;
      _ <~ MarkPublished l (ev_EventID env) (ls_generation l)
        @@ (fun e => if IsStaleLease e then failed ErrStaleLease
                     else failed (ErrWrapCode "WORLD_OUTBOX_MARK_PUBLISHED_FAILED" e)) ;;
      Done (Ok tt)
  end.

(** *** A pass

    The relay afterwards, how many rows it published, and the error it returns.  The
    loop is bounded by [fuel], and answers [None] when that is used up. *)
Record drained : Type := mkDrained { dr_relay : Relay; dr_published : Z; dr_err : option error }.

Section Drain.
(** [continue] with a fresh lease, once the one held is stale. *)
Context (loop : Relay -> Lease -> Z -> wprog (option drained)).

Definition reacquire (r : Relay) (published : Z) : wprog (option drained) :=
  r' ← dropLease r;
  l <~ ensureLease r' @@ (fun e => Done (Some (mkDrained r' published (Some e)))) ;;
  loop (set_lease (Some l) r') l published.

Definition drain_step (r : Relay) (l : Lease) (published : Z) : wprog (option drained) :=
  let return_ := fun r err => Done (Some (mkDrained r published err)) in
  _ <~ ctx_Err @@ (fun e => return_ r (Some (cancelErr e))) ;;
  next <~ NextUnpublished l
    @@ (fun e => if IsStaleLease e then reacquire r published
                 else return_ r (Some (ErrWrapCode "WORLD_OUTBOX_NEXT_UNPUBLISHED_FAILED" e))) ;;
  let at_halt := match next with Some env => ev_FeedPosition env =? rl_haltPosition r | None => false end in
  if rl_halted r && at_halt then return_ r None else
  let r := if rl_halted r then clearHalt r else r in
  match next with
  | None => return_ r None
  | Some env =>
      _ <~ publishOne (rl_cfg r) l env
        @@ (fun e => if IsStaleLease e then reacquire r published
                     else if error_Is "outbox: poison (permanently unpublishable) envelope" e
                     then return_ (halt (ev_FeedPosition env) r) None
                     else return_ r None) ;;
      loop r l (published + 1)
  end.
End Drain.

Fixpoint drain_loop (fuel : nat) (r : Relay) (l : Lease) (published : Z) : wprog (option drained) :=
  match fuel with
  | O => Done None
  | S fuel' => drain_step (drain_loop fuel') r l published
  end.

Definition Drain (fuel : nat) (r : Relay) : wprog (option drained) :=
  l <~ ensureLease r @@ (fun e => Done (Some (mkDrained r 0 (Some e)))) ;;
  drain_loop fuel (set_lease (Some l) r) l 0.

(** ** The skip *)
Definition SkipMarkerKind : string := "world_skip_marker".

Definition buildMarker (poison : Envelope) (markerID : ULID) : Envelope :=
  mkEnvelope markerID (ev_GameID poison) SkipMarkerKind 1 "operator" EmptyString EmptyString (ev_AggregateType poison)
    (ev_AggregateID poison)
    (JObj [("skipped_event_id", JStr (ev_EventID poison)); ("reason", JStr "operator-authorized poison skip")])
    (ev_Epoch poison) (ev_FeedPosition poison) [].

Section Skip.
Context (parse : string -> result ULID).

Definition marker_for (l : Lease) (position : Z) : wprog (result ULID) :=
  known <~ SkipMarkerID parse l position @@ (fun e => failed (ErrWrapCode "WORLD_OUTBOX_SKIP_MARKER_READ_FAILED" e)) ;;
  match known with
  | Some id => Done (Ok id)
  | None =>
      id ← call WNewID;
      _ <~ PersistSkipMarkerID l position id @@ (fun e => failed (ErrWrapCode "WORLD_OUTBOX_SKIP_MARKER_PERSIST_FAILED" e)) ;;
      Done (Ok id)
  end.

Definition skip_under (l : Lease) (position : Z) : wprog (result unit) :=
  next <~ NextUnpublished l @@ (fun e => failed (ErrWrapCode "WORLD_OUTBOX_SKIP_NEXT_FAILED" e)) ;;
  match next with
  | None => failed (ErrCode "WORLD_OUTBOX_SKIP_NO_POISON" "no unpublished row")
  | Some env =>
      if negb (ev_FeedPosition env =? position) then failed (ErrCode "WORLD_OUTBOX_SKIP_POSITION_MISMATCH" "not the current feed blocker")
      else (
        markerID <~ marker_for l position @@ failed ;;
        now ← call WNow;
        match EnvelopeToEvent now (buildMarker env markerID) with
        | Err e => failed (ErrWrapCode "WORLD_OUTBOX_SKIP_MARKER_WIRE_FAILED" e)
        | Ok ev =>
            _ <~ Publish ev @@ (fun e => failed (ErrWrapCode "WORLD_OUTBOX_SKIP_PUBLISH_FAILED" e)) ;;
            _ <~ MarkSkipResolved l position @@ (fun e => failed (ErrWrapCode "WORLD_OUTBOX_SKIP_RESOLVE_FAILED" e)) ;;
            Done (Ok tt)
        end)
  end.

Definition Skip (game : string) (position : Z) : wprog (result unit) :=
  l <~ AcquireLease game @@ (fun e => failed (ErrWrapCode "WORLD_OUTBOX_SKIP_ACQUIRE_LEASE_FAILED" e)) ;;
  r ← skip_under l position;
  _ ← Release l;
  Done r.
End Skip.

(** ** Consumers

    [T] is what the effect writes; [ck_applied], which is no table, lists the envelopes
    whose effect was committed. *)
Section Consumer.
Context {T : Type}.

Record Checkpoints : Type := mkCheckpoints {
  ck_receipts : gset (string * ULID);
  ck_watermarks : gmap (string * string) (Z * Z);
  ck_state : T;
  ck_applied : list (string * Envelope)
}.

(** The UPSERT that never goes back. *)
Definition raise_watermark (consumer game : string) (epoch position : Z) (m : gmap (string * string) (Z * Z))
    : gmap (string * string) (Z * Z) :=
  match m !! (consumer, game) with
  | None => <[(consumer, game) := (epoch, position)]> m
  | Some (e, p) =>
      if (e <? epoch) || ((e =? epoch) && (p <? position)) then <[(consumer, game) := (epoch, position)]> m else m
  end.

Definition claim_receipt (consumer : string) (id : ULID) (c : Checkpoints) : Checkpoints :=
  mkCheckpoints ({[(consumer, id)]} ∪ ck_receipts c) (ck_watermarks c) (ck_state c) (ck_applied c).

Definition ErrOutOfOrder : error := ErrNew "world/postgres: delivery beyond next contiguous position".

(** Whether the effect ran. *)
Definition ApplyOnce (consumer : string) (env : Envelope) (effect : T -> result T) : txn Checkpoints bool :=
  c ← read (fun c => c);
  if bool_decide ((consumer, ev_EventID env) ∈ ck_receipts c) then mret false else
  _ ← write (claim_receipt consumer (ev_EventID env));
  let '(wmEpoch, wmPos) := default (ev_Epoch env, 0) (ck_watermarks c !! (consumer, ev_GameID env)) in
  if ev_Epoch env <? wmEpoch then mret false
  else if (ev_Epoch env =? wmEpoch) && (ev_FeedPosition env <=? wmPos) then mret false
  else if negb ((wmEpoch <? ev_Epoch env) || ((ev_Epoch env =? wmEpoch) && (ev_FeedPosition env =? wmPos + 1)))
  then fail (ErrWrapCode CodeOutOfOrder ErrOutOfOrder)
  else
    c ← read (fun c => c);
    match effect (ck_state c) with
    | Err e => fail (ErrWrapCode "WORLD_OUTBOX_EFFECT_FAILED" e)
    | Ok s =>
        _ ← write (fun c => mkCheckpoints (ck_receipts c)
                     (raise_watermark consumer (ev_GameID env) (ev_Epoch env) (ev_FeedPosition env) (ck_watermarks c))
                     s (ck_applied c ++ [(consumer, env)])%list);
        mret true
    end.

Definition InitWatermark (consumer game : string) (epoch position : Z) : txn Checkpoints unit :=
  write (fun c => mkCheckpoints (ck_receipts c) (raise_watermark consumer game epoch position (ck_watermarks c))
                    (ck_state c) (ck_applied c)).

Definition Watermark (consumer game : string) (c : Checkpoints) : option (Z * Z) := ck_watermarks c !! (consumer, game).

Record Consumer : Type := mkConsumer { co_name : string; co_effect : option (Envelope -> T -> result T) }.

Definition effect_of (k : Consumer) (env : Envelope) (s : T) : result T :=
  match co_effect k with Some f => f env s | None => Ok s end.

(** [fault] is what becomes of the transaction: an error with its effect or without. *)
Definition Consumer_Apply (fault : wfault) (k : Consumer) (env : Envelope) (c : Checkpoints) : result bool * Checkpoints :=
  let wrap := fun e => if IsOutOfOrder e then e else ErrWrapCode "WORLD_OUTBOX_CONSUMER_APPLY_FAILED" e in
  let t := atomically (ApplyOnce (co_name k) env (effect_of k env)) in
  match fault with
  | Served => match t c with (Ok b, c') => (Ok b, c') | (Err e, c') => (Err (wrap e), c') end
  | Refused e => (Err (wrap e), c)
  | Lost e => (Err (wrap e), (t c).2)
  end.

(** [cfg.Snapshot] and [cfg.EnsureDurable] are given, or not. *)
Definition Bootstrap (consumer game : string) (ensureDurable : option (result unit)) (snapshot : option (result (Z * Z)))
    (store : bool) : txn Checkpoints unit :=
  match ensureDurable with
  | Some (Err e) => fail (ErrWrapCode "WORLD_OUTBOX_BOOTSTRAP_DURABLE_FAILED" e)
  | _ =>
      match snapshot with
      | None => fail (ErrCode "WORLD_OUTBOX_BOOTSTRAP_NO_SNAPSHOT" "bootstrap requires a snapshot function")
      | Some high =>
          if negb store then fail (ErrCode "WORLD_OUTBOX_BOOTSTRAP_NO_STORE" "bootstrap requires a checkpoint store") else
          match high with
          | Err e => fail (ErrWrapCode "WORLD_OUTBOX_BOOTSTRAP_SNAPSHOT_FAILED" e)
          | Ok (epoch, highWater) =>
              wrap_code "WORLD_OUTBOX_BOOTSTRAP_INIT_WATERMARK_FAILED" (InitWatermark consumer game epoch highWater)
          end
      end
  end.
End Consumer.
Arguments Checkpoints T : clear implicits.
Arguments Consumer T : clear implicits.
