(* ===== verification/WorldInv.v ===== *)
(** The change feed of the world as a log of its rows: the invariant of the tables,
    the relation every step of the world is in, and that every write of a repository
    is described by the manifest it returns.

    The key of an aggregate is its type and identifier.  A feed replayed from the
    versions before it gives the versions after it. *)

From S2P Require Import Prelude GoStrings GoText GoJson Sql Programs WorldTypes WorldWire WorldStore WorldService Outbox.
From stdpp Require Import sorting.

#[local] Open Scope Z_scope.

(** ** Rows *)
Abbreviation key := (AggregateType * ULID)%type.

Inductive row : Type :=
| RowLocation (l : Location)
| RowExit (e : Exit)
| RowObject (o : Object)
| RowCharacter (r : char_rec).

Definition row_of (db : WDB) (k : key) : option row :=
  match k.1 with
  | AggregateLocation => RowLocation <$> db_locations db !! k.2
  | AggregateExit => RowExit <$> db_exits db !! k.2
  | AggregateObject => RowObject <$> db_objects db !! k.2
  | AggregateCharacter => RowCharacter <$> db_characters db !! k.2
  | AggregateScene | AggregateOther _ => None
  end.

Definition row_version (r : row) : Z :=
  match r with
  | RowLocation l => loc_Version l
  | RowExit e => ex_Version e
  | RowObject o => obj_Version o
  | RowCharacter c => char_Version c
  end.

Definition row_key (r : row) : key :=
  match r with
  | RowLocation l => (AggregateLocation, loc_ID l)
  | RowExit e => (AggregateExit, ex_ID e)
  | RowObject o => (AggregateObject, obj_ID o)
  | RowCharacter c => (AggregateCharacter, ch_ID (cr_char c))
  end.

Definition row_player (r : row) : option ULID :=
  match r with RowCharacter c => Some (ch_PlayerID (cr_char c)) | _ => None end.

Definition version_of (db : WDB) (k : key) : option Z := row_version <$> row_of db k.

(** ** Replay *)
Definition af_key (a : AffectedAggregate) : key := (af_Type a, af_ID a).

Definition apply_aff (v : key -> option Z) (a : AffectedAggregate) : key -> option Z := fun k =>
  if decide (k = af_key a) then if af_Tombstone a then None else Some (af_AfterVersion a) else v k.

Definition replay (v : key -> option Z) (l : list AffectedAggregate) : key -> option Z := fold_left apply_aff l v.

(** An entry that follows from the versions before it: a creation at version 1, the
    next version of what is there, or the end of what is there. *)
Definition follows (v : key -> option Z) (a : AffectedAggregate) : Prop :=
  if af_Tombstone a then v (af_key a) = Some (af_BeforeVersion a) /\ af_AfterVersion a = 0
  else (v (af_key a) = None /\ af_BeforeVersion a = 0 /\ af_AfterVersion a = 1) \/
       (v (af_key a) = Some (af_BeforeVersion a) /\ af_AfterVersion a = af_BeforeVersion a + 1).

(** The end of a return exit, as it was when the deletion looked for it: by now it may
    have changed, or be gone. *)
Definition return_exit (a : AffectedAggregate) : Prop :=
  af_Type a = AggregateExit /\ af_Tombstone a = true /\ 1 <= af_BeforeVersion a /\ af_AfterVersion a = 0.

Fixpoint steps (v : key -> option Z) (l : list AffectedAggregate) : Prop :=
  match l with
  | [] => True
  | a :: rest => follows v a /\ steps (apply_aff v a) rest
  end.

(** The manifest of an envelope: each entry follows from those before it, unless it is
    the end of an exit and of its return exit, where the first entry does. *)
Definition exit_pair (v : key -> option Z) (l : list AffectedAggregate) : Prop :=
  exists a r, l = [a; r] /\ follows v a /\ af_Type a = AggregateExit /\ af_Tombstone a = true /\ return_exit r.

Definition manifest_ok (v : key -> option Z) (l : list AffectedAggregate) : Prop := steps v l \/ exit_pair v l.

(** The entries of a list of envelopes. *)
Definition entries (evs : list Envelope) : list AffectedAggregate := concat (map ev_Affected evs).

(** Every envelope's manifest, from the versions those before it give. *)
Fixpoint chained (v : key -> option Z) (evs : list Envelope) : Prop :=
  match evs with
  | [] => True
  | e :: rest => manifest_ok v (ev_Affected e) /\ chained (replay v (ev_Affected e)) rest
  end.

Lemma entries_app e1 e2 : entries (e1 ++ e2) = entries e1 ++ entries e2.
Proof. unfold entries. by rewrite map_app, concat_app. Qed.

Section Replay.
Context (v w : key -> option Z) (Hvw : forall k, v k = w k).

Lemma apply_aff_ext a k : apply_aff v a k = apply_aff w a k.
Proof. unfold apply_aff. by case_decide. Qed.

Lemma follows_ext a : follows v a -> follows w a.
Proof. unfold follows. by rewrite Hvw. Qed.
End Replay.

Lemma replay_ext v w l k : (forall k, v k = w k) -> replay v l k = replay w l k.
Proof.
  revert v w. induction l as [|a l IH]; intros v w Hvw; [done|]. cbn. apply IH. by apply apply_aff_ext.
Qed.

Lemma steps_ext v w l : (forall k, v k = w k) -> steps v l -> steps w l.
Proof.
  revert v w. induction l as [|a l IH]; intros v w Hvw; [done|]. cbn. intros [Ha Hl]. split.
  - by eapply follows_ext.
  - eapply IH; [|exact Hl]. by apply apply_aff_ext.
Qed.

Lemma manifest_ext v w l : (forall k, v k = w k) -> manifest_ok v l -> manifest_ok w l.
Proof.
  intros Hvw [H|(a & r & -> & Ha & H)]; [left; by eapply steps_ext|].
  right. exists a, r. split; [done|]. split; [by eapply follows_ext|done].
Qed.

Lemma chained_ext v w l : (forall k, v k = w k) -> chained v l -> chained w l.
Proof.
  revert v w. induction l as [|e l IH]; intros v w Hvw; [done|]. cbn. intros [He Hl]. split.
  - by eapply manifest_ext.
  - eapply IH; [|exact Hl]. intros k. by apply replay_ext.
Qed.

Lemma replay_app v l1 l2 : replay v (l1 ++ l2) = replay (replay v l1) l2.
Proof. unfold replay. apply fold_left_app. Qed.

Lemma steps_app v l1 l2 : steps v (l1 ++ l2) <-> steps v l1 /\ steps (replay v l1) l2.
Proof.
  revert v. induction l1 as [|a l1 IH]; intros v; cbn [app steps]; [cbn; tauto|]. rewrite IH.
  change (replay v (a :: l1)) with (replay (apply_aff v a) l1). tauto.
Qed.

Lemma manifest_single v a : manifest_ok v [a] -> steps v [a].
Proof. intros [H|(? & ? & [=] & _)]. done. Qed.

Lemma chained_app v l1 l2 : chained v (l1 ++ l2) <-> chained v l1 /\ chained (replay v (entries l1)) l2.
Proof.
  revert v. induction l1 as [|e l1 IH]; intros v; cbn [app chained]; [cbn; tauto|]. rewrite IH.
  change (entries (e :: l1)) with (ev_Affected e ++ entries l1)%list. rewrite replay_app. tauto.
Qed.

Lemma replay_other v l k : (forall a, a ∈ l -> af_key a <> k) -> replay v l k = v k.
Proof.
  revert v. induction l as [|a l IH]; intros v Hl; [done|]. cbn. change (replay (apply_aff v a) l k = v k).
  rewrite IH by (intros; apply Hl; set_solver). unfold apply_aff. rewrite decide_False; [done|].
  intros ->. by apply (Hl a); [set_solver|].
Qed.

(** Without a tombstone a version only grows, and by one with each entry. *)
Definition no_tombstone (k : key) (l : list AffectedAggregate) : Prop :=
  forall a, a ∈ l -> af_key a = k -> af_Tombstone a = false.

Definition grown (v : key -> option Z) (k : key) (n : Z) (l : list AffectedAggregate) : Prop :=
  exists n', replay v l k = Some n' /\ n <= n' /\ (n' = n -> forall a, a ∈ l -> af_key a <> k).

Lemma grown_app v k n l1 l2 n1 :
  replay v l1 k = Some n1 -> n <= n1 -> (n1 = n -> forall a, a ∈ l1 -> af_key a <> k) -> grown (replay v l1) k n1 l2 ->
  grown v k n (l1 ++ l2).
Proof.
  intros Hr Hle Hs (n' & Hr' & Hle' & Hs'). exists n'. rewrite replay_app. split; [done|]. split; [lia|].
  intros -> a [Ha|Ha]%elem_of_app; [apply Hs|apply Hs']; done || lia.
Qed.

Lemma grown_other v k n l : v k = Some n -> (forall a, a ∈ l -> af_key a <> k) -> grown v k n l.
Proof. intros Hv Hl. exists n. split; [by rewrite replay_other|]. split; [lia|done]. Qed.

Lemma steps_grow v l k n : steps v l -> v k = Some n -> no_tombstone k l -> grown v k n l.
Proof.
  revert v n. induction l as [|a l IH]; intros v n; cbn.
  { intros _ Hv _. apply grown_other; [done|]. set_solver. }
  intros [Ha Hc] Hv Ht. assert (Hl : no_tombstone k l) by (intros b Hb; apply Ht; set_solver).
  destruct (decide (k = af_key a)) as [Hk|Hk].
  - assert (Hf : af_Tombstone a = false) by (apply Ht; [set_solver|done]).
    unfold follows in Ha. rewrite Hf, <- Hk, Hv in Ha. destruct Ha as [[? _]|[[= Hn] Hafter]]; [done|].
    change (a :: l) with ([a] ++ l)%list. apply (grown_app _ _ _ _ _ (af_AfterVersion a)); [|lia|lia|apply IH; [done| |done] ];
      cbn; unfold apply_aff; by rewrite decide_True, Hf.
  - change (a :: l) with ([a] ++ l)%list. apply (grown_app _ _ _ _ _ n); [|lia| |apply IH; [done| |done] ];
      [cbn; unfold apply_aff; by rewrite decide_False|intros _ b ->%list_elem_of_singleton; congruence
      |cbn; unfold apply_aff; by rewrite decide_False].
Qed.

Lemma manifest_grow v l k n : manifest_ok v l -> v k = Some n -> no_tombstone k l -> grown v k n l.
Proof.
  intros [H|(a & r & -> & _ & _ & Ha & _ & Hr & _)] Hv Ht; [by apply steps_grow|].
  apply grown_other; [done|]. intros b Hb Hk. pose proof (Ht b Hb Hk). set_unfold in Hb. destruct Hb as [->|[->|[] ] ]; congruence.
Qed.

Lemma chained_grows v evs k n : chained v evs -> v k = Some n -> no_tombstone k (entries evs) -> grown v k n (entries evs).
Proof.
  revert v n. induction evs as [|e evs IH]; intros v n; cbn.
  { intros _ Hv _. apply grown_other; [done|]. set_solver. }
  intros [He Hc] Hv. change (entries (e :: evs)) with (ev_Affected e ++ entries evs)%list. intros Ht.
  destruct (manifest_grow v (ev_Affected e) k n He Hv) as (n1 & H1 & Hle & Hs); [intros a Ha; apply Ht; set_solver|].
  eapply grown_app; [exact H1|done|done|]. apply IH; [done|done|]. intros a Ha. apply Ht. set_solver.
Qed.

(** ** Positions *)

(** [positions g e p evs e' p']: the envelopes of game [g] among [evs] take the
    positions from [p] of epoch [e] on, one after the other, up to the next position
    [p'] of epoch [e']; a new epoch starts over at 1. *)
Inductive positions (g : string) : Z -> Z -> list Envelope -> Z -> Z -> Prop :=
| pos_nil e p : positions g e p [] e p
| pos_next e p ev evs e' p' :
    ev_GameID ev = g -> ev_Epoch ev = e -> ev_FeedPosition ev = p -> positions g e (p + 1) evs e' p' ->
    positions g e p (ev :: evs) e' p'
| pos_other e p ev evs e' p' : ev_GameID ev <> g -> positions g e p evs e' p' -> positions g e p (ev :: evs) e' p'
| pos_epoch e p evs e' p' : positions g (e + 1) 1 evs e' p' -> positions g e p evs e' p'.

Lemma positions_app g e p l1 e1 p1 l2 e2 p2 :
  positions g e p l1 e1 p1 -> positions g e1 p1 l2 e2 p2 -> positions g e p (l1 ++ l2) e2 p2.
Proof. intros Hl Hr. induction Hl; cbn; eauto using positions. Qed.

Lemma positions_other g e p ev : ev_GameID ev <> g -> positions g e p [ev] e p.
Proof. intros. apply pos_other; [done|constructor]. Qed.

(** Places in a feed are ordered by epoch, then by position. *)
Definition before (e p e' p' : Z) : Prop := e < e' \/ e = e' /\ p < p'.

Lemma positions_mono g e p l e' p' : positions g e p l e' p' -> e < e' \/ e = e' /\ p <= p'.
Proof. induction 1; lia. Qed.

Lemma positions_between g e p l e' p' ev :
  positions g e p l e' p' -> ev ∈ l -> ev_GameID ev = g ->
  ~ before (ev_Epoch ev) (ev_FeedPosition ev) e p /\ before (ev_Epoch ev) (ev_FeedPosition ev) e' p'.
Proof.
  unfold before. induction 1 as [e p|e p x evs e' p' Hg He Hp Hr IH|e p x evs e' p' Hg Hr IH|e p evs e' p' Hr IH];
    intros Hin Hev.
  - set_solver.
  - apply elem_of_cons in Hin as [->|Hin].
    + apply positions_mono in Hr. lia.
    + destruct (IH Hin Hev). lia.
  - apply elem_of_cons in Hin as [->|Hin]; [done|]. auto.
  - destruct (IH Hin Hev). lia.
Qed.

(** ** The invariant *)
Definition here (db : WDB) (game : string) : Z * Z := (fc_epoch (counter_of game db), fc_next_position (counter_of game db)).

(** A player being reaped, or gone: no character can be created for it. *)
Definition marked (db : WDB) (p : ULID) : Prop :=
  match db_players db !! p with
  | Some r => is_Some (pl_reaping_at r)
  | None => p ∈ db_gone db
  end.

Definition row_ok (db : WDB) (k : key) (r : row) : Prop :=
  row_key r = k /\ 1 <= row_version r /\ (forall p, row_player r = Some p -> is_Some (db_players db !! p)).

Definition rows_ok (db : WDB) : Prop := forall k r, row_of db k = Some r -> row_ok db k r.

Record feed_ok (db : WDB) : Prop := {
  fo_outbox : forall id r, db_outbox db !! id = Some r -> ev_EventID (ob_envelope r) = id /\ ob_envelope r ∈ db_feed db;
  fo_feed : forall e, e ∈ db_feed db -> exists r, db_outbox db !! ev_EventID e = Some r /\ ob_envelope r = e;
  fo_nodup : NoDup (map ev_EventID (db_feed db));
  fo_positions : forall g, positions g 1 1 (db_feed db) (here db g).1 (here db g).2
}.

(** On the stream. *)
Definition on_wire (wire : list WireEvent) (e : Envelope) : Prop := exists v now, v ∈ wire /\ EnvelopeToEvent now e = Ok v.

(** Rows of the outbox not published are of the current epoch; those published are on
    the stream, unless a new epoch has put them aside; the stream carries envelopes of
    the feed only, and each envelope after those of its epoch that precede it. *)
Record wire_ok (db : WDB) : Prop := {
  wo_current : forall id r, db_outbox db !! id = Some r -> ob_published_at r = None ->
    ev_Epoch (ob_envelope r) = (here db (ev_GameID (ob_envelope r))).1;
  wo_sent : forall id r, db_outbox db !! id = Some r -> is_Some (ob_published_at r) ->
    on_wire (db_wire db) (ob_envelope r) \/ ev_Epoch (ob_envelope r) < (here db (ev_GameID (ob_envelope r))).1;
  wo_from : forall v, v ∈ db_wire db -> exists e now, e ∈ db_feed db /\ EnvelopeToEvent now e = Ok v;
  wo_order : forall i v now e e', db_wire db !! i = Some v -> EnvelopeToEvent now e = Ok v ->
    e ∈ db_feed db -> e' ∈ db_feed db -> ev_GameID e' = ev_GameID e -> ev_Epoch e' = ev_Epoch e ->
    ev_FeedPosition e' < ev_FeedPosition e -> on_wire (take i (db_wire db)) e'
}.

Record world_inv (db : WDB) : Prop := {
  wi_rows : rows_ok db;
  wi_feed : feed_ok db;
  wi_wire : wire_ok db;
  wi_gone : forall p, p ∈ db_gone db -> db_players db !! p = None
}.

(** What a step may do: extend the feed by envelopes that describe it. *)
Record extends (db : WDB) (evs : list Envelope) (db' : WDB) : Prop := {
  ex_feed : db_feed db' = db_feed db ++ evs;
  ex_versions : forall k, version_of db' k = replay (version_of db) (entries evs) k;
  ex_chained : chained (version_of db) evs;
  ex_rows : forall k, (forall a, a ∈ entries evs -> af_key a <> k) -> row_of db' k = row_of db k;
  ex_positions : forall g, positions g (here db g).1 (here db g).2 evs (here db' g).1 (here db' g).2;
  ex_owner : forall k r, row_of db k = Some r -> (forall a, a ∈ entries evs -> af_key a = k -> af_Tombstone a = false) ->
    exists r', row_of db' k = Some r' /\ row_player r' = row_player r;
  ex_wire : db_wire db `prefix_of` db_wire db';
  ex_marked : forall p, marked db p -> marked db' p;
  ex_owned : forall p c, marked db p -> owned_by db' p c = true -> owned_by db p c = true
}.

Definition world_grows (db db' : WDB) : Prop := exists evs, extends db evs db'.

Lemma extends_nil db : extends db [] db.
Proof. split; try done; [by rewrite app_nil_r|intros; constructor|]. eauto. Qed.

Lemma extends_app db1 e1 db2 e2 db3 : extends db1 e1 db2 -> extends db2 e2 db3 -> extends db1 (e1 ++ e2) db3.
Proof.
  intros [F1 V1 C1 R1 P1 W1 X1 M1 O1] [F2 V2 C2 R2 P2 W2 X2 M2 O2]. split.
  - by rewrite F2, F1, app_assoc.
  - intros k. rewrite V2, entries_app, replay_app. by apply replay_ext.
  - apply chained_app. split; [done|]. by eapply chained_ext.
  - intros k Hk. rewrite entries_app in Hk. rewrite R2, R1; [done| |]; intros a Ha; apply Hk; set_solver.
  - intros g. by eapply positions_app.
  - intros k r Hk Ht. rewrite entries_app in Ht. destruct (W1 k r) as (r1 & H1 & <-); [done|intros; apply Ht; set_solver|].
    apply W2; [done|]. intros. apply Ht; set_solver.
  - by etransitivity.
  - auto.
  - auto.
Qed.

#[export] Instance world_grows_pre : PreOrder world_grows.
Proof.
  split.
  - intros db. exists []. apply extends_nil.
  - intros db1 db2 db3 [e1 H1] [e2 H2]. exists (e1 ++ e2). by eapply extends_app.
Qed.

(** ** Writes to the rows

    What a repository's write does to the tables, [l] its manifest and [N] the
    players it may give characters to. *)
Definition books (db : WDB) :=
  (db_players db, db_outbox db, db_counters db, db_checkpoints db, db_feed db, db_gone db, db_wire db).

Record effect (N : ULID -> Prop) (db : WDB) (l : list AffectedAggregate) (db' : WDB) : Prop := {
  wr_books : books db' = books db;
  wr_rows : forall k, (forall a, a ∈ l -> af_key a <> k) -> row_of db' k = row_of db k;
  wr_versions : forall k, version_of db' k = replay (version_of db) l k;
  wr_ok : rows_ok db -> rows_ok db';
  wr_owner : forall k r, row_of db k = Some r -> (forall a, a ∈ l -> af_key a = k -> af_Tombstone a = false) ->
    exists r', row_of db' k = Some r' /\ row_player r' = row_player r;
  wr_owned : forall p c, owned_by db' p c = true -> owned_by db p c = true \/ N p
}.

Record wrote (N : ULID -> Prop) (db : WDB) (l : list AffectedAggregate) (db' : WDB) : Prop := {
  wr_effect :> effect N db l db';
  wr_manifest : manifest_ok (version_of db) l
}.

Definition nobody (p : ULID) : Prop := False.

Lemma effect_app N db1 l1 db2 l2 db3 : effect N db1 l1 db2 -> effect N db2 l2 db3 -> effect N db1 (l1 ++ l2) db3.
Proof.
  intros [B1 R1 V1 I1 W1 O1] [B2 R2 V2 I2 W2 O2]. split.
  - congruence.
  - intros k Hk. rewrite R2, R1; [done| |]; intros a Ha; apply Hk; set_solver.
  - intros k. rewrite V2, replay_app. by apply replay_ext.
  - auto.
  - intros k r Hk Ht. destruct (W1 k r) as (r1 & H1 & <-); [done|intros; apply Ht; set_solver|].
    apply W2; [done|]. intros. apply Ht; set_solver.
  - intros p c [Ho|Hn]%O2; [|by right]. by apply O1.
Qed.

Lemma wrote_nil N db : wrote N db [] db.
Proof. split; [split; eauto; done|by left]. Qed.

(** A write after a write, neither of which is that of an exit with its return exit. *)
Lemma wrote_app N db1 l1 db2 l2 db3 :
  wrote N db1 l1 db2 -> wrote N db2 l2 db3 -> steps (version_of db1) l1 -> steps (version_of db2) l2 ->
  wrote N db1 (l1 ++ l2) db3.
Proof.
  intros [E1 _] [E2 _] S1 S2. split; [by eapply effect_app|]. left. apply steps_app. split; [done|].
  eapply steps_ext; [|exact S2]. apply E1.
Qed.

(** A write of no row before another, and after it. *)
Lemma wrote_before N db1 db2 l db3 : wrote N db1 [] db2 -> wrote N db2 l db3 -> wrote N db1 l db3.
Proof.
  intros [E1 _] [E2 M2]. split; [by apply (effect_app _ _ [] _ _ _ E1 E2)|]. eapply manifest_ext; [|exact M2]. apply E1.
Qed.

Lemma wrote_after N db1 l db2 db3 : wrote N db1 l db2 -> wrote N db2 [] db3 -> wrote N db1 l db3.
Proof. intros [E1 M1] [E2 _]. split; [|done]. rewrite <- (app_nil_r l). by eapply effect_app. Qed.

Lemma owned_by_row db p c :
  owned_by db p c = true <-> exists r, row_of db (AggregateCharacter, c) = Some r /\ row_player r = Some p.
Proof.
  unfold owned_by, row_of. cbn. destruct (db_characters db !! c) as [r|]; cbn.
  - rewrite String.eqb_eq. split; [intros <-; eauto|]. intros (r' & [= <-] & [= Hp]). done.
  - split; [done|]. by intros (? & ? & _).
Qed.

(** Tables other than those of the rows. *)
Lemma wrote_same N db db' : (forall k, row_of db' k = row_of db k) -> books db' = books db -> wrote N db [] db'.
Proof.
  intros Hr Hb. assert (Hpl : db_players db' = db_players db) by (unfold books in Hb; congruence). split; [|by left]. split; try done.
  - intros k. unfold version_of. by rewrite Hr.
  - intros HI k r. rewrite Hr. unfold row_ok. rewrite Hpl. apply HI.
  - intros k r Hk _. rewrite Hr. eauto.
  - intros p c. rewrite !owned_by_row. rewrite Hr. by left.
Qed.

(** One row written or deleted. *)
Definition new_row_ok (N : ULID -> Prop) (db : WDB) (a : AffectedAggregate) (r : row) : Prop :=
  row_version r = af_AfterVersion a /\ row_key r = af_key a /\
  (forall p, row_player r = Some p -> is_Some (db_players db !! p)) /\
  match row_of db (af_key a) with
  | Some r0 => row_player r = row_player r0
  | None => forall p, row_player r = Some p -> N p
  end.

Definition deletes (a : AffectedAggregate) (db db' : WDB) : Prop :=
  books db' = books db /\ af_Tombstone a = true /\ forall k, row_of db' k = if decide (k = af_key a) then None else row_of db k.

(** A deletion, of what is there or not. *)
Lemma effect_delete N db a db' : deletes a db db' -> effect N db [a] db'.
Proof.
  intros (Hb & Ht & Hr). split; [done|..].
  - intros k Hk. rewrite Hr, decide_False; [done|]. intros ->. by apply (Hk a); [set_solver|].
  - intros k. cbn. unfold apply_aff, version_of. rewrite Hr, Ht. by case_decide.
  - intros HI k r. rewrite Hr. unfold row_ok. replace (db_players db') with (db_players db) by (unfold books in Hb; congruence).
    case_decide; [done|apply HI].
  - intros k r Hk Hn. rewrite Hr. case_decide as Hka; [|eauto]. subst. by rewrite (Hn a) in Ht by set_solver.
  - intros p c. rewrite !owned_by_row. intros (r & Hc & Hp). rewrite Hr in Hc. case_decide; [done|]. left. eauto.
Qed.

Lemma wrote_one N db a o db' :
  books db' = books db -> (forall k, row_of db' k = if decide (k = af_key a) then o else row_of db k) ->
  follows (version_of db) a ->
  (if af_Tombstone a then o = None else exists r, o = Some r /\ new_row_ok N db a r) ->
  wrote N db [a] db'.
Proof.
  intros Hb Hr Ha Ho. split; [|by left]. split; [done|..].
  - intros k Hk. rewrite Hr, decide_False; [done|]. intros ->. by apply (Hk a); [set_solver|].
  - intros k. cbn. unfold apply_aff, version_of. rewrite Hr. case_decide; [|done].
    destruct (af_Tombstone a); [by subst|]. destruct Ho as (r & -> & Hv & _). cbn. by rewrite Hv.
  - intros HI k r. rewrite Hr. unfold row_ok. replace (db_players db') with (db_players db) by (unfold books in Hb; congruence).
    case_decide; [|apply HI]. subst. intros ->. unfold follows in Ha. destruct (af_Tombstone a); [done|].
    destruct Ho as (r' & [= <-] & Hv & Hk & Hp & _). split_and!; [done| |done].
    unfold version_of in Ha. destruct Ha as [(_ & _ & Haft)|[H0 Haft]]; [lia|].
    apply fmap_Some in H0 as (r0 & H0 & Hb0). destruct (HI _ _ H0) as (_ & Hpos & _). lia.
  - intros k r Hk Ht. rewrite Hr. case_decide as Hka; [|eauto]. subst. rewrite (Ht a) in Ho by set_solver.
    destruct Ho as (r' & -> & _ & _ & _ & Hpl). rewrite Hk in Hpl. eauto.
  - intros p c. rewrite !owned_by_row. intros (r & Hc & Hp). rewrite Hr in Hc. case_decide as Hk; [|left; eauto].
    subst. destruct (af_Tombstone a); [by subst|]. destruct Ho as (r' & [= <-] & _ & _ & _ & Hpl). rewrite Hk.
    destruct (row_of db (af_key a)) as [r0|]; [left; exists r0; by rewrite <- Hpl|right; auto].
Qed.

(** Inversion of a transaction that succeeds. *)
Lemma require_Ok b e u db db' : require b e db = (Ok u, db') -> b = true /\ db' = db.
Proof. unfold require. destruct b; cbv; [|done]. by intros [= _ <-]. Qed.

Lemma of_result_Ok {A} (r : result A) a db db' : of_result r db = (Ok a, db') -> r = Ok a /\ db' = db.
Proof. destruct r; cbv; [|done]. by intros [= -> ->]. Qed.

Lemma write_Ok (f : WDB -> WDB) u db db' : write f db = (Ok u, db') -> db' = f db.
Proof. cbv. by intros [= _ ->]. Qed.

Lemma read_Ok {A} (f : WDB -> A) a db db' : read f db = (Ok a, db') -> a = f db /\ db' = db.
Proof. cbv. by intros [= -> ->]. Qed.

Lemma mret_Ok {A} (x a : A) (db db' : WDB) : (mret x : wtx A) db = (Ok a, db') -> a = x /\ db' = db.
Proof. cbv. by intros [= -> ->]. Qed.

Lemma read_first {A B} (f : WDB -> A) (k : A -> wtx B) b db db' : (read f ≫= k) db = (Ok b, db') -> k (f db) db = (Ok b, db').
Proof. done. Qed.

Ltac tx_move :=
  match goal with
  | H : (mbind _ _) _ = (Ok _, _) |- _ => apply txn_bind_Ok in H as (? & ? & ? & H)
  | H : read _ _ = (Ok _, _) |- _ => apply read_Ok in H as [? ?]; subst
  | H : write _ _ = (Ok _, _) |- _ => apply write_Ok in H
  | H : require _ _ _ = (Ok _, _) |- _ => apply require_Ok in H as [? ?]; subst
  | H : of_result _ _ = (Ok _, _) |- _ => apply of_result_Ok in H as [? ?]; subst
  | H : mret _ _ = (Ok _, _) |- _ => apply mret_Ok in H as [? ?]; subst
  | H : fail _ _ = (Ok _, _) |- _ => discriminate H
  | H : wrap_code _ _ _ = (Ok _, _) |- _ => apply wrap_code_Ok in H
  end; cbv beta zeta in *.

Lemma refers_Some {V} (m : gmap ULID V) i : refers m (Some i) = true <-> is_Some (m !! i).
Proof. unfold refers, is_set. destruct (m !! i); split; [eauto|done|done|by intros []]. Qed.

Lemma any_row_false {V} (P : ULID -> V -> bool) m :
  any_row P m = false <-> forall i v, m !! i = Some v -> P i v = false.
Proof.
  unfold any_row. rewrite existsb_false. split.
  - intros H i v Hi. by apply (H (i, v)), elem_of_map_to_list.
  - intros H [i v] Hi%elem_of_map_to_list. by apply H.
Qed.

(** *** The statements *)
Lemma put_location_Ok l u db db' :
  put_location l db = (Ok u, db') -> db' = set_locations (<[loc_ID l := l]> (db_locations db)) db.
Proof. unfold put_location. intros H. by repeat tx_move. Qed.

Lemma put_exit_Ok e u db db' : put_exit e db = (Ok u, db') -> db' = set_exits (<[ex_ID e := e]> (db_exits db)) db.
Proof. unfold put_exit. intros H. by repeat tx_move. Qed.

Lemma put_object_Ok o u db db' : put_object o db = (Ok u, db') -> db' = set_objects (<[obj_ID o := o]> (db_objects db)) db.
Proof. unfold put_object. intros H. by repeat tx_move. Qed.

Lemma put_character_Ok r u db db' :
  put_character r db = (Ok u, db') ->
  is_Some (db_players db !! ch_PlayerID (cr_char r)) /\
  db' = set_characters (<[ch_ID (cr_char r) := r]> (db_characters db)) db.
Proof. unfold put_character. intros H. repeat tx_move. bool_prop. split; [|done]. by apply refers_Some. Qed.

(** *** Their effect on the rows *)
Section Puts.
Context (db : WDB).

Ltac rows := intros [[] j]; unfold row_of; cbn; case_decide; simplify_eq; rewrite ?lookup_insert_eq, ?lookup_delete_eq; try done;
  rewrite ?lookup_insert_ne, ?lookup_delete_ne by congruence; done.

Lemma row_set_location i l k : row_of (set_locations (<[i := l]> (db_locations db)) db) k =
  if decide (k = (AggregateLocation, i)) then Some (RowLocation l) else row_of db k.
Proof. revert k. rows. Qed.
Lemma row_set_exit i e k : row_of (set_exits (<[i := e]> (db_exits db)) db) k =
  if decide (k = (AggregateExit, i)) then Some (RowExit e) else row_of db k.
Proof. revert k. rows. Qed.
Lemma row_set_object i o k : row_of (set_objects (<[i := o]> (db_objects db)) db) k =
  if decide (k = (AggregateObject, i)) then Some (RowObject o) else row_of db k.
Proof. revert k. rows. Qed.
Lemma row_set_character i r k : row_of (set_characters (<[i := r]> (db_characters db)) db) k =
  if decide (k = (AggregateCharacter, i)) then Some (RowCharacter r) else row_of db k.
Proof. revert k. rows. Qed.
Lemma row_del_location i k : row_of (set_locations (delete i (db_locations db)) db) k =
  if decide (k = (AggregateLocation, i)) then None else row_of db k.
Proof. revert k. rows. Qed.
Lemma row_del_exit i k : row_of (set_exits (delete i (db_exits db)) db) k =
  if decide (k = (AggregateExit, i)) then None else row_of db k.
Proof. revert k. rows. Qed.
Lemma row_del_object i k : row_of (set_objects (delete i (db_objects db)) db) k =
  if decide (k = (AggregateObject, i)) then None else row_of db k.
Proof. revert k. rows. Qed.
Lemma row_del_character i k : row_of (set_characters (delete i (db_characters db)) db) k =
  if decide (k = (AggregateCharacter, i)) then None else row_of db k.
Proof. revert k. rows. Qed.
End Puts.

(** *** The repositories

    The manifest a write returns describes it. *)
Definition described {A} (N : ULID -> Prop) (t : wtx (A * MutationDelta)) : Prop := forall db a d db',
  rows_ok db -> t db = (Ok (a, d), db') -> wrote N db (manifestFromDelta (Some d)) db'.

Lemma version_of_location db i : version_of db (AggregateLocation, i) = loc_Version <$> db_locations db !! i.
Proof. unfold version_of, row_of. cbn. by destruct (db_locations db !! i). Qed.
Lemma version_of_exit db i : version_of db (AggregateExit, i) = ex_Version <$> db_exits db !! i.
Proof. unfold version_of, row_of. cbn. by destruct (db_exits db !! i). Qed.
Lemma version_of_object db i : version_of db (AggregateObject, i) = obj_Version <$> db_objects db !! i.
Proof. unfold version_of, row_of. cbn. by destruct (db_objects db !! i). Qed.
Lemma version_of_character db i : version_of db (AggregateCharacter, i) = char_Version <$> db_characters db !! i.
Proof. unfold version_of, row_of. cbn. by destruct (db_characters db !! i). Qed.

Lemma is_set_false {A} (o : option A) : negb (is_set o) = true <-> o = None.
Proof. by destruct o. Qed.

Lemma matched_Some {V} (version : V -> Z) expected o r :
  matched version expected o = Some r -> o = Some r /\ (expected <= 0 \/ version r = expected).
Proof. unfold matched. destruct o as [x|]; [|done]. destruct (_ || _) eqn:E; [|done]. intros [= <-]. split; [done|]. lia. Qed.

Lemma locked_Ok {V} (version : V -> Z) expected code o v db db' :
  locked version expected code o db = (Ok v, db') -> db' = db /\ exists r, o = Some r /\ version r = v.
Proof.
  unfold locked. destruct o as [r|]; [|done]. case_match; [done|]. intros [-> ->]%mret_Ok. eauto.
Qed.

Lemma aff_create (v : key -> option Z) t i : v (t, i) = None -> follows v (mkAffected t i 0 1 false).
Proof. intros H. left. by split_and!. Qed.
Lemma aff_update (v : key -> option Z) t i n : v (t, i) = Some n -> follows v (mkAffected t i n (n + 1) false).
Proof. intros H. right. by split. Qed.
Lemma aff_delete (v : key -> option Z) t i n : v (t, i) = Some n -> follows v (mkAffected t i n 0 true).
Proof. intros H. by split. Qed.

(** The last statement of a write, and what it proves of the rows. *)
Ltac put_done :=
  match goal with
  | H : put_location _ _ = _ |- _ => apply put_location_Ok in H
  | H : put_exit _ _ = _ |- _ => apply put_exit_Ok in H
  | H : put_object _ _ = _ |- _ => apply put_object_Ok in H
  | H : put_character _ _ = _ |- _ => apply put_character_Ok in H as [? H]
  | H : locked _ _ _ _ _ = _ |- _ => apply locked_Ok in H as [? (? & ? & ?)]
  | H : negb (is_set _) = true |- _ => apply is_set_false in H
  end; simplify_eq.

Ltac tx_all := repeat first [tx_move | put_done]; simplify_eq/=.

Ltac row_lemma :=
  first [apply row_set_location | apply row_set_exit | apply row_set_object | apply row_set_character
        | apply row_del_location | apply row_del_exit | apply row_del_object | apply row_del_character].

(** The row before, for the entry. *)
Ltac before :=
  rewrite ?version_of_location, ?version_of_exit, ?version_of_object, ?version_of_character;
  match goal with H : _ !! _ = _ |- _ => by rewrite H end.

Ltac plain_row := eexists; split; [done|]; split_and!; [done|done|done|unfold row_of; cbn; by destruct (_ !! _)].

Lemma location_Create_described l : described nobody (location_Create l).
Proof.
  intros db a d db' _ H. unfold location_Create in H. tx_all.
  eapply wrote_one; [done|row_lemma|apply aff_create; before|plain_row].
Qed.

Lemma location_Update_described l : described nobody (location_Update l).
Proof.
  intros db a d db' _ H. unfold location_Update in H. tx_move. tx_move.
  destruct (matched _ _ _) as [r|] eqn:E; [|tx_all]. apply matched_Some in E as [E _]. tx_all.
  replace (loc_Version r + 1 - 1) with (loc_Version r) by lia.
  eapply wrote_one; [done|row_lemma|apply aff_update; before|plain_row].
Qed.

(** Several deletions at once. *)
Definition tombstones (t : AggregateType) (l : list (ULID * Z)) : list AffectedAggregate :=
  map (fun kv => mkAffected t kv.1 kv.2 0 true) l.

Lemma elem_tombstones t l a : a ∈ tombstones t l <-> exists i n, (i, n) ∈ l /\ a = mkAffected t i n 0 true.
Proof. unfold tombstones. rewrite list_elem_of_fmap. split; [intros ([i n] & -> & ?); eauto|intros (i & n & ? & ->); by exists (i, n)]. Qed.

Lemma replay_tombstones t l v k :
  replay v (tombstones t l) k = if decide (k.1 = t /\ k.2 ∈ l.*1) then None else v k.
Proof.
  revert v. induction l as [|[i n] l IH]; intros v; cbn.
  { rewrite decide_False; [done|]. intros [_ ?]. set_solver. }
  fold (tombstones t l). change (fold_left apply_aff (tombstones t l)) with (fun v => replay v (tombstones t l)). cbn.
  rewrite IH. destruct k as [t' j]. cbn. unfold apply_aff, af_key. cbn. repeat case_decide; set_solver.
Qed.

Lemma steps_tombstones t l v :
  NoDup (l.*1) -> (forall i n, (i, n) ∈ l -> v (t, i) = Some n) -> steps v (tombstones t l).
Proof.
  revert v. induction l as [|[i n] l IH]; intros v Hd Hv; cbn; [done|]. apply NoDup_cons in Hd as [Hi Hd]. split.
  - apply aff_delete, Hv. set_solver.
  - apply IH; [done|]. intros j m Hj. unfold apply_aff, af_key. cbn. rewrite decide_False; [apply Hv; set_solver|].
    intros [= ->]. apply Hi. apply list_elem_of_fmap. by exists (i, m).
Qed.

Lemma elem_rows_fst {V} (P : ULID -> V -> bool) (f : V -> Z) m i :
  i ∈ (map (fun kv => (kv.1, f kv.2)) (rows_where P m)).*1 <-> exists v, m !! i = Some v /\ P i v = true.
Proof.
  rewrite list_elem_of_fmap. split.
  - intros ([j n] & -> & ([j' v] & [= -> ->] & Hin)%list_elem_of_fmap). cbn. apply rows_where_elem in Hin. eauto.
  - intros (v & Hv & HP). exists (i, f v). split; [done|]. apply list_elem_of_fmap. exists (i, v). split; [done|].
    by apply rows_where_elem.
Qed.

Lemma NoDup_rows_fst {V} (P : ULID -> V -> bool) (f : V -> Z) (m : gmap ULID V) :
  NoDup ((map (fun kv => (kv.1, f kv.2)) (rows_where P m)).*1).
Proof.
  rewrite map_map. cbn. unfold rows_where. apply (NoDup_fmap_fst (filter _ (map_to_list m))).
  - intros i v w Hv Hw. apply list_elem_of_filter in Hv as [_ Hv%elem_of_map_to_list], Hw as [_ Hw%elem_of_map_to_list]. congruence.
  - apply NoDup_filter, NoDup_map_to_list.
Qed.

Definition exits_gone (P : Exit -> bool) (db : WDB) : WDB :=
  set_exits (filter (fun kv => P kv.2 = false) (db_exits db)) db.

Lemma exits_gone_lookup P db i :
  db_exits (exits_gone P db) !! i =
  match db_exits db !! i with Some e => if P e then None else Some e | None => None end.
Proof.
  unfold exits_gone. cbn. destruct (db_exits db !! i) as [e|] eqn:E; [|apply map_lookup_filter_None; by left].
  destruct (P e) eqn:EP; [apply map_lookup_filter_None; right; intros; simplify_eq/=; congruence|].
  by apply map_lookup_filter_Some.
Qed.

Definition gone_exits (P : Exit -> bool) (db : WDB) : list AffectedAggregate :=
  tombstones AggregateExit (map (fun kv => (kv.1, ex_Version kv.2)) (rows_where (fun _ e => P e) (db_exits db))).

Lemma gone_exits_steps P db : steps (version_of db) (gone_exits P db).
Proof.
  apply steps_tombstones; [apply NoDup_rows_fst|]. intros i n Hin. rewrite version_of_exit.
  apply list_elem_of_fmap in Hin as ([j e] & [= -> ->] & [He _]%rows_where_elem). by rewrite He.
Qed.

Lemma wrote_exits_gone N P db : wrote N db (gone_exits P db) (exits_gone P db).
Proof.
  split; [|left; apply gone_exits_steps]. unfold gone_exits. set (l := map _ _).
  assert (Hl : forall i, i ∈ l.*1 <-> exists e, db_exits db !! i = Some e /\ P e = true) by (intros; apply elem_rows_fst).
  assert (Hsub : forall k r, row_of (exits_gone P db) k = Some r -> row_of db k = Some r).
  { intros [[] i] r; try done. unfold row_of. cbn [fst snd]. rewrite exits_gone_lookup.
    destruct (db_exits db !! i) as [e|]; [|done]. by destruct (P e). }
  assert (Hrow : forall k, ~ (k.1 = AggregateExit /\ k.2 ∈ l.*1) -> row_of (exits_gone P db) k = row_of db k).
  { intros [[] i] Hk; try done. unfold row_of. cbn [fst snd] in *. rewrite exits_gone_lookup.
    destruct (db_exits db !! i) as [e|] eqn:E; [|done]. destruct (P e) eqn:EP; [|done]. destruct Hk. split; [done|]. apply Hl. eauto. }
  split; [done|..].
  - intros k Hk. apply Hrow. intros [Ht Hi]. apply list_elem_of_fmap in Hi as ([i n] & Hi & Hin).
    apply (Hk (mkAffected AggregateExit i n 0 true)); [apply elem_tombstones; eauto|]. destruct k. cbn in *. unfold af_key. cbn. congruence.
  - intros k. rewrite replay_tombstones. case_decide as Hk; [|unfold version_of; by rewrite Hrow].
    destruct k as [t i]. cbn in Hk. destruct Hk as [-> (e & He & HP)%Hl]. rewrite version_of_exit, exits_gone_lookup, He, HP. done.
  - intros HI k r Hk%Hsub. exact (HI k r Hk).
  - intros k r Hk Ht. rewrite Hrow; [eauto|]. intros [Hx Hi]. apply list_elem_of_fmap in Hi as ([i n] & Hi & Hin).
    enough (true = false) by done. apply (Ht (mkAffected AggregateExit i n 0 true)); [apply elem_tombstones; eauto|].
    destruct k. cbn in *. unfold af_key. cbn. congruence.
  - intros p c Ho. by left.
Qed.

Lemma delete_location_Ok id u db db' :
  delete_location id db = (Ok u, db') -> db' = exits_gone (touches id) (set_locations (delete id (db_locations db)) db).
Proof. unfold delete_location. intros H. by repeat tx_move. Qed.

Lemma location_Delete_described id v : described nobody (no_value (location_Delete id v)).
Proof.
  intros db a d db' _ H. unfold no_value, location_Delete, preselectCascadedExits in H. tx_all.
  match goal with H : delete_location _ _ = _ |- _ => apply delete_location_Ok in H end. subst. cbn.
  set (db1 := set_locations (delete id (db_locations db)) db).
  assert (Hl : map (fun kv => mkAffected AggregateExit kv.1 (ex_Version kv.2) 0 true) (rows_where (fun _ e => touches id e) (db_exits db))
    = gone_exits (touches id) db1) by (unfold gone_exits, tombstones; by rewrite map_map).
  rewrite Hl. change (?x :: ?l) with ([x] ++ l).
  assert (Hloc : wrote nobody db [mkAffected AggregateLocation id (loc_Version x) 0 true] db1)
    by (eapply wrote_one; [done|row_lemma|apply aff_delete; before|done]).
  eapply wrote_app; [exact Hloc|apply wrote_exits_gone|apply manifest_single, Hloc|apply gone_exits_steps].
Qed.

(** *** Exits *)
Lemma insertExitTx_wrote e u db db' :
  insertExitTx e db = (Ok u, db') -> wrote nobody db [mkAffected AggregateExit (ex_ID e) 0 1 false] db'.
Proof.
  unfold insertExitTx. intros H. tx_all. eapply wrote_one; [done|row_lemma|apply aff_create; before|plain_row].
Qed.

Lemma exit_Create_described tk e : described nobody (exit_Create tk e).
Proof.
  intros db a d db' _ H. unfold exit_Create in H. cbv zeta in H.
  set (e1 := with_ex e _ _ _ _) in H. apply txn_bind_Ok in H as (u & db1 & Hw%insertExitTx_wrote & H).
  apply txn_bind_Ok in H as (rev & db2 & Hr & H). tx_move. simplify_eq.
  destruct (_ && _) in Hr; [|apply mret_Ok in Hr as [-> ->]; exact Hw].
  apply txn_bind_Ok in Hr as ([r|] & db3 & [_ ->]%of_result_Ok & Hr); [|apply mret_Ok in Hr as [-> ->]; exact Hw].
  apply txn_bind_Ok in Hr as (u' & db4 & Hw'%insertExitTx_wrote & [-> ->]%mret_Ok).
  exact (wrote_app _ _ _ _ _ _ Hw Hw' (manifest_single _ _ (wr_manifest _ _ _ _ Hw)) (manifest_single _ _ (wr_manifest _ _ _ _ Hw'))).
Qed.

Lemma exit_Update_described e : described nobody (exit_Update e).
Proof.
  intros db a d db' _ H. unfold exit_Update in H. do 4 tx_move.
  destruct (matched _ _ _) as [r|] eqn:E; [|tx_all]. apply matched_Some in E as [E _]. tx_all.
  replace (ex_Version r + 1 - 1) with (ex_Version r) by lia.
  eapply wrote_one; [done|row_lemma|apply aff_update; before|plain_row].
Qed.

(** The exits seen are those of some moment. *)
Definition seen_ok (seen : gmap ULID Exit) : Prop := forall i e, seen !! i = Some e -> ex_ID e = i /\ 1 <= ex_Version e.

Lemma rows_seen db : rows_ok db -> seen_ok (db_exits db).
Proof.
  intros HI i e He. destruct (HI (AggregateExit, i) (RowExit e)) as ([= Hi] & Hv & _); [|done].
  unfold row_of. cbn. by rewrite He.
Qed.

Lemma exit_FindByName_seen tk l n seen id db e :
  seen_ok seen -> exit_FindByName tk l n (set_exits (delete id seen) db) = Ok e -> 1 <= ex_Version e.
Proof.
  intros Hs. unfold exit_FindByName, pick. destruct (_ !! _) as [[i e']|] eqn:E; [|done]. intros [= <-].
  apply list_elem_of_lookup_2, rows_where_elem in E as [E _]. cbn in E. apply lookup_delete_Some in E as [_ E]. by apply Hs in E as [_ E].
Qed.

Lemma delete_exit_deletes i n u db db' : delete_exit i db = (Ok u, db') -> deletes (mkAffected AggregateExit i n 0 true) db db'.
Proof. intros H%write_Ok. subst. split; [done|]. split; [done|]. apply row_del_exit. Qed.

Lemma exit_Delete_described tk seen id : seen_ok seen -> described nobody (deleteExit_tx tk seen id).
Proof.
  intros Hs db a d db' _ H. unfold deleteExit_tx, exit_Delete in H.
  apply txn_bind_Ok in H as (r & db1 & H & [[= -> ->] ->]%mret_Ok).
  apply read_first in H. apply txn_bind_Ok in H as (v & db0 & [-> (e & He & <-)]%locked_Ok & H).
  apply txn_bind_Ok in H as (u & db2 & Hw%(delete_exit_deletes _ (ex_Version e)) & H). rewrite He in H.
  assert (Hf : follows (version_of db) (mkAffected AggregateExit id (ex_Version e) 0 true)) by (apply aff_delete; before).
  assert (Hone : wrote nobody db [mkAffected AggregateExit id (ex_Version e) 0 true] db2)
    by (split; [by apply effect_delete|by left]).
  destruct (_ && _); [|apply mret_Ok in H as [-> ->]; exact Hone].
  destruct (exit_FindByName _ _ _ _) as [r'|] eqn:E; [|apply mret_Ok in H as [-> ->]; exact Hone].
  destruct (String.eqb _ _); [|apply mret_Ok in H as [-> ->]; exact Hone].
  apply txn_bind_Ok in H as (u' & db4 & Hd%(delete_exit_deletes _ (ex_Version r')) & [-> ->]%mret_Ok). split.
  - exact (effect_app _ _ _ _ _ _ Hone (effect_delete _ _ _ _ Hd)).
  - right. do 2 eexists. split; [reflexivity|]. split; [exact Hf|]. do 4 (split; [done|]).
    split; [by eapply exit_FindByName_seen|done].
Qed.

(** *** Objects *)
Lemma object_Create_described o : described nobody (object_Create o).
Proof.
  intros db a d db' _ H. unfold object_Create in H. tx_all.
  eapply wrote_one; [done|row_lemma|apply aff_create; before|plain_row].
Qed.

Lemma object_Update_described o : described nobody (object_Update o).
Proof.
  intros db a d db' _ H. unfold object_Update in H. tx_move. tx_move.
  destruct (matched _ _ _) as [r|] eqn:E; [|tx_all]. apply matched_Some in E as [E _]. tx_all.
  replace (obj_Version r + 1 - 1) with (obj_Version r) by lia.
  eapply wrote_one; [done|row_lemma|apply aff_update; before|plain_row].
Qed.

Lemma delete_object_Ok id u db db' : delete_object id db = (Ok u, db') -> db' = set_objects (delete id (db_objects db)) db.
Proof. unfold delete_object. intros H. by repeat tx_move. Qed.

Lemma object_Delete_described id v : described nobody (no_value (object_Delete id v)).
Proof.
  intros db a d db' _ H. unfold no_value, object_Delete in H. tx_all.
  match goal with H : delete_object _ _ = _ |- _ => apply delete_object_Ok in H end. subst.
  eapply wrote_one; [done|row_lemma|apply aff_delete; before|done].
Qed.

Lemma rows_ok_object db i o : rows_ok db -> db_objects db !! i = Some o -> obj_ID o = i.
Proof. intros HI He. destruct (HI (AggregateObject, i) (RowObject o)) as [[=] _]; [|done]. unfold row_of. cbn. by rewrite He. Qed.

(** What a successful move did. *)
Lemma object_Move_Ok n id to v db d db' : object_Move n id to v db = (Ok d, db') ->
  exists o, db_objects db !! id = Some o /\ Containment_Validate to = Ok tt /\
    d = primaryDeltaVersioned AggregateObject id false (obj_Version o) (obj_Version o + 1) /\
    put_object (with_obj o to (obj_Version o + 1)) db = (Ok tt, db') /\
    (forall c, cn_ObjectID to = Some c -> exists r, db_objects db !! c = Some r /\ obj_IsContainer r = true /\
       checkCircularContainmentTx id c db = (Ok tt, db) /\ checkNestingDepthTx n id c db = (Ok tt, db)).
Proof.
  unfold object_Move. intros H. apply txn_bind_Ok in H as ([] & db1 & [Hc ->]%of_result_Ok & H). apply read_first in H.
  apply txn_bind_Ok in H as (v' & db1 & [-> (o & Ho & <-)]%locked_Ok & H).
  apply txn_bind_Ok in H as ([] & db1 & Hto & H).
  assert (db1 = db /\ forall c, cn_ObjectID to = Some c -> exists r, db_objects db !! c = Some r /\ obj_IsContainer r = true /\
       checkCircularContainmentTx id c db = (Ok tt, db) /\ checkNestingDepthTx n id c db = (Ok tt, db)) as [-> Hchecks].
  { destruct (cn_ObjectID to) as [c|]; [|by apply mret_Ok in Hto as [_ ->]].
    destruct (db_objects db !! c) as [r|] eqn:Er; [|done]. destruct (negb _) eqn:En; [done|]. bool_prop.
    apply txn_bind_Ok in Hto as ([] & db2 & H1 & H2).
    assert (db2 = db) as -> by (unfold checkCircularContainmentTx in H1; apply read_first in H1; repeat case_match; by tx_all).
    assert (db1 = db) as -> by (unfold checkNestingDepthTx in H2; apply read_first in H2; repeat case_match; by tx_all).
    split; [done|]. intros c' [= <-]. eauto. }
  rewrite Ho in H. apply txn_bind_Ok in H as ([] & db2 & Hp & [-> ->]%mret_Ok). exists o. by split_and!.
Qed.

Lemma object_Move_described n id to v : described nobody (no_value (object_Move n id to v)).
Proof.
  intros db a d db' HI H. unfold no_value in H. apply txn_bind_Ok in H as (d' & db1 & H & [[= -> ->] ->]%mret_Ok).
  apply object_Move_Ok in H as (o & Ho & _ & -> & Hp%put_object_Ok & _). subst.
  pose proof (rows_ok_object _ _ _ HI Ho) as <-.
  eapply wrote_one; [done|cbn; row_lemma|apply aff_update; before|plain_row].
Qed.

(** *** Characters *)
Lemma character_Create_described c : described (eq (ch_PlayerID c)) (character_Create c).
Proof.
  intros db a d db' _ H. unfold character_Create in H. tx_all.
  eapply wrote_one; [done|row_lemma|apply aff_create; before|].
  eexists. split; [done|]. split_and!; [done|done|by intros p [= <-]|]. unfold row_of. cbn.
  match goal with H : db_characters _ !! _ = None |- _ => rewrite H end. cbn.
  by intros p [= <-].
Qed.

Lemma rows_ok_character db i r : rows_ok db -> db_characters db !! i = Some r -> ch_ID (cr_char r) = i.
Proof. intros HI He. destruct (HI (AggregateCharacter, i) (RowCharacter r)) as [[=] _]; [|done]. unfold row_of. cbn. by rewrite He. Qed.

Definition keeps_identity (f : char_rec -> Z -> char_rec) : Prop := forall r n,
  ch_ID (cr_char (f r n)) = ch_ID (cr_char r) /\ ch_PlayerID (cr_char (f r n)) = ch_PlayerID (cr_char r) /\ char_Version (f r n) = n.

(** What a guarded UPDATE of a character did. *)
Lemma update_character_Ok code id v f db d db' :
  rows_ok db -> keeps_identity f -> update_character code id v f db = (Ok d, db') ->
  exists r, db_characters db !! id = Some r /\ (v <= 0 \/ char_Version r = v) /\
    db' = set_characters (<[id := f r (char_Version r + 1)]> (db_characters db)) db /\
    is_Some (db_players db !! ch_PlayerID (cr_char r)) /\
    d = primaryDeltaVersioned AggregateCharacter id false (char_Version r) (char_Version r + 1).
Proof.
  intros HI Hf H. unfold update_character in H. apply read_first in H.
  destruct (matched _ _ _) as [r|] eqn:E; [|done]. apply matched_Some in E as [E Hv].
  apply txn_bind_Ok in H as ([] & db1 & [Hp ->]%wrap_code_Ok%put_character_Ok & [-> ->]%mret_Ok).
  destruct (Hf r (char_Version r + 1)) as (Hi & Hpl & _). rewrite Hi, (rows_ok_character _ _ _ HI E). rewrite Hpl in Hp.
  exists r. split_and!; try done. unfold primaryDeltaVersioned. do 2 f_equal. lia.
Qed.

Lemma update_character_described code id v f : keeps_identity f -> described nobody (no_value (update_character code id v f)).
Proof.
  intros Hf db a d db' HI H. unfold no_value in H. apply txn_bind_Ok in H as (d' & db1 & H & [[= -> ->] ->]%mret_Ok).
  apply update_character_Ok in H as (r & Hr & _ & -> & Hp & ->); [|done|done].
  destruct (Hf r (char_Version r + 1)) as (Hi & Hpl & Hn).
  eapply wrote_one; [done|row_lemma|apply aff_update; before|]. eexists. split; [done|]. split_and!; [done| | |].
  - cbn. unfold af_key. cbn. by rewrite Hi, (rows_ok_character _ _ _ HI Hr).
  - cbn. intros p [= <-]. by rewrite Hpl.
  - unfold row_of. cbn. rewrite Hr. cbn. by rewrite Hpl.
Qed.

Lemma character_Update_described c : described nobody (no_value (character_Update c)).
Proof. by apply update_character_described. Qed.
Lemma character_UpdateLocation_described id l v : described nobody (no_value (character_UpdateLocation id l v)).
Proof. by apply update_character_described. Qed.
Lemma character_UpdatePreferences_described id p v : described nobody (no_value (character_UpdatePreferences id p v)).
Proof.
  unfold character_UpdatePreferences. destruct (decode p); [by apply update_character_described|]. by intros db a d db' _ H.
Qed.

Lemma delete_character_Ok id u db db' : delete_character id db = (Ok u, db') -> db' = set_characters (delete id (db_characters db)) db.
Proof. unfold delete_character. intros H. by repeat tx_move. Qed.

Lemma character_Delete_described id v : described nobody (no_value (character_Delete id v)).
Proof.
  intros db a d db' _ H. unfold no_value, character_Delete in H. tx_all.
  match goal with H : delete_character _ _ = _ |- _ => apply delete_character_Ok in H end. subst.
  eapply wrote_one; [done|row_lemma|apply aff_delete; before|done].
Qed.

(** A write with other tables written before or after it. *)
Definition elsewhere {A} (u : wtx A) : Prop := forall N db x db', u db = (Ok x, db') -> wrote N db [] db'.

Lemma described_after {A} N (u : wtx unit) (t : wtx (A * MutationDelta)) :
  elsewhere u -> described N t -> described N (_ ← u; t).
Proof.
  intros Hu Ht db a d db' HI H. apply txn_bind_Ok in H as (x & db1 & Hw%(Hu N) & H2).
  eapply wrote_before; [exact Hw|].
  eapply Ht; [|exact H2]. by apply (wr_ok _ _ _ _ Hw).
Qed.

Lemma elsewhere_properties t i : elsewhere (property_DeleteByParent t i).
Proof. intros N db x db' H%write_Ok. subst. by apply wrote_same. Qed.

Lemma elsewhere_bindings i : elsewhere (binding_DeleteByCharacter i).
Proof. intros N db x db' H%write_Ok. subst. by apply wrote_same. Qed.

Lemma elsewhere_binding_Create tk p c r : elsewhere (binding_Create tk p c r).
Proof.
  intros N db x db'. unfold binding_Create. destruct (_ || _); [done|]. intros H. tx_all. by apply wrote_same.
Qed.

Lemma elsewhere_wrap {A} c (u : wtx A) : elsewhere u -> elsewhere (wrap_code c u).
Proof. intros Hu N db x db' H%wrap_code_Ok. by eapply Hu. Qed.

Lemma described_no_value_after N (u : wtx unit) (t : wtx MutationDelta) :
  elsewhere u -> described N (no_value t) -> described N (no_value (_ ← u; t)).
Proof.
  intros Hu Ht db a d db' HI H. eapply (described_after N u (no_value t) Hu Ht db a d db' HI).
  revert H. unfold no_value, mbind, txn_bind. by destruct (u db) as [[] ?].
Qed.

Lemma deleteLocation_described id : described nobody (no_value (deleteLocation_tx id)).
Proof.
  apply described_no_value_after; [apply elsewhere_wrap, elsewhere_properties|apply location_Delete_described].
Qed.
Lemma deleteObject_described id : described nobody (no_value (deleteObject_tx id)).
Proof.
  apply described_no_value_after; [apply elsewhere_wrap, elsewhere_properties|apply object_Delete_described].
Qed.
Lemma deleteCharacter_described id : described nobody (no_value (deleteCharacter_tx id)).
Proof.
  apply described_no_value_after; [apply elsewhere_wrap, elsewhere_properties|apply character_Delete_described].
Qed.

(** ** Envelopes *)
Definition appended (e : Envelope) (c : counter_rec) (db : WDB) : WDB :=
  add_feed e (set_outbox (<[ev_EventID e := mkOutbox e None None]> (db_outbox db))
    (set_counters (<[ev_GameID e := advance c]> (db_counters db)) db)).

Definition next_envelope (intent : EnvelopeIntent) (d : MutationDelta) (db : WDB) : Envelope :=
  Finalize intent (Some d) (here db (in_GameID intent)).1 (here db (in_GameID intent)).2.

Lemma WriteIntent_Ok intent d db e db' : WriteIntent intent (Some d) db = (Ok e, db') ->
  e = next_envelope intent d db /\ db_outbox db !! ev_EventID e = None /\
  db' = appended e (counter_of (in_GameID intent) db) db.
Proof.
  unfold WriteIntent, Allocate, put_counter, insertOutboxRow. intros H. tx_all. by split_and!.
Qed.

Lemma counter_insert g g' c db :
  counter_of g' (set_counters (<[g := c]> (db_counters db)) db) = if decide (g' = g) then c else counter_of g' db.
Proof.
  unfold counter_of. cbn. case_decide; subst; [by rewrite lookup_insert_eq|]. by rewrite lookup_insert_ne by done.
Qed.

Lemma here_appended e c g db :
  here (appended e c db) g = if decide (g = ev_GameID e) then (fc_epoch c, fc_next_position c + 1) else here db g.
Proof.
  unfold here, counter_of, appended. cbn. case_decide; subst; [by rewrite lookup_insert_eq|].
  by rewrite lookup_insert_ne by done.
Qed.

Lemma here_books db db' : books db' = books db -> here db' = here db.
Proof. intros Hb. unfold here, counter_of. by replace (db_counters db') with (db_counters db) by (unfold books in Hb; congruence). Qed.

Lemma marked_books db db' p : books db' = books db -> marked db' p <-> marked db p.
Proof.
  intros Hb. unfold marked. replace (db_players db') with (db_players db) by (unfold books in Hb; congruence).
  by replace (db_gone db') with (db_gone db) by (unfold books in Hb; congruence).
Qed.

Lemma feed_ok_books db db' : books db' = books db -> feed_ok db -> feed_ok db'.
Proof.
  intros Hb [A B C D]. pose proof (here_books _ _ Hb) as Hh. unfold books in Hb.
  replace (db_outbox db) with (db_outbox db') in * by congruence. replace (db_feed db) with (db_feed db') in * by congruence.
  split; [done|done|done|]. intros g. rewrite Hh. apply D.
Qed.

Lemma wire_ok_ext db db' :
  db_outbox db' = db_outbox db -> db_counters db' = db_counters db -> db_feed db' = db_feed db -> db_wire db' = db_wire db ->
  wire_ok db -> wire_ok db'.
Proof.
  intros Ho Hc Hf Hw [A B C D]. assert (Hh : here db' = here db) by (unfold here, counter_of; by rewrite Hc).
  split; rewrite ?Ho, ?Hf, ?Hw, ?Hh; done.
Qed.

(** The next position of the feed, for its game and for the others. *)
Lemma next_position g e db c :
  (ev_Epoch e, ev_FeedPosition e) = here db (ev_GameID e) -> c = counter_of (ev_GameID e) db ->
  positions g (here db g).1 (here db g).2 [e] (here (appended e c db) g).1 (here (appended e c db) g).2.
Proof.
  intros He ->. rewrite here_appended. case_decide as Hg; [|by apply positions_other; congruence].
  subst. rewrite <- He. unfold here in He. injection He as He Hp. cbn. rewrite He, Hp. apply pos_next; [done|done|done|].
  constructor.
Qed.

Lemma feed_ok_appended e db :
  feed_ok db -> (ev_Epoch e, ev_FeedPosition e) = here db (ev_GameID e) -> db_outbox db !! ev_EventID e = None ->
  feed_ok (appended e (counter_of (ev_GameID e) db) db).
Proof.
  intros [A B C D] He Hn. split.
  - intros id r. cbn. intros [[<- <-]|[Hid Hr]]%lookup_insert_Some; [split; [done|set_solver]|].
    destruct (A _ _ Hr) as [? ?]. split; [done|set_solver].
  - intros x. cbn. intros [Hx|Hx]%elem_of_app.
    + destruct (B _ Hx) as (r & Hr & <-). exists r. split; [|done]. rewrite lookup_insert_ne; [done|]. congruence.
    + apply list_elem_of_singleton in Hx as ->. rewrite lookup_insert_eq. eauto.
  - cbn. rewrite map_app. apply NoDup_app. split_and!; [done| |cbn; apply NoDup_singleton].
    intros i Hi. apply list_elem_of_fmap in Hi as (x & -> & Hx). destruct (B _ Hx) as (r & Hr & <-). cbn.
    intros Heq%list_elem_of_singleton. congruence.
  - intros g. cbn. eapply positions_app; [apply D|]. by apply next_position.
Qed.

Lemma on_wire_id e v now : EnvelopeToEvent now e = Ok v -> wv_ID v = ev_EventID e.
Proof.
  unfold EnvelopeToEvent. cbv zeta. intros H. repeat case_match; try done. by injection H as <-.
Qed.

Lemma wire_ok_appended e db :
  feed_ok db -> wire_ok db -> (ev_Epoch e, ev_FeedPosition e) = here db (ev_GameID e) -> db_outbox db !! ev_EventID e = None ->
  wire_ok (appended e (counter_of (ev_GameID e) db) db).
Proof.
  intros [_ FB _ FD] [A B C D] He Hn. set (c := counter_of _ _).
  assert (Hh : forall g, (here (appended e c db) g).1 = (here db g).1).
  { intros g. rewrite here_appended. case_decide; [by subst|done]. }
  assert (Hnew : ~ on_wire (db_wire db) e).
  { intros (v & now & Hv & Hev). destruct (C _ Hv) as (e0 & now0 & H0 & Hev0). destruct (FB _ H0) as (r & Hr & _).
    rewrite <- (on_wire_id _ _ _ Hev0), (on_wire_id _ _ _ Hev) in Hr. congruence. }
  split.
  - intros id r Hr Hp. rewrite Hh. cbn in Hr. apply lookup_insert_Some in Hr as [[<- <-]|[_ Hr]]; [|by eapply A].
    cbn [ob_envelope]. by rewrite <- He.
  - intros id r Hr Hp. rewrite Hh. cbn in Hr. apply lookup_insert_Some in Hr as [[<- <-]|[_ Hr]]; [by destruct Hp|]. by eapply B.
  - intros v Hv. destruct (C v Hv) as (e0 & now & H0 & H1). exists e0, now. split; [cbn; set_solver|done].
  - cbn. intros i v now x y Hv Hev [Hx|Hx%list_elem_of_singleton]%elem_of_app [Hy|Hy%list_elem_of_singleton]%elem_of_app Hg Hep Hpos;
      [by apply (D i v now x y)|exfalso; subst y|exfalso; subst x..];
      [|apply Hnew; exists v, now; split; [by eapply list_elem_of_lookup_2|done]..].
    pose proof (positions_between _ _ _ _ _ _ x (FD (ev_GameID e)) Hx ltac:(congruence)) as [_ Hb].
    rewrite <- He in Hb. unfold before in Hb. cbn in Hb. lia.
Qed.

(** A write, whatever else the transaction does to the tables of no aggregate, and
    its envelope. *)
Lemma wrote_appended N db db1 intent d e db' :
  world_inv db -> wrote N db (manifestFromDelta (Some d)) db1 -> (forall p, N p -> ~ marked db p) ->
  WriteIntent intent (Some d) db1 = (Ok e, db') ->
  world_inv db' /\ e = next_envelope intent d db /\ extends db [e] db'.
Proof.
  intros [Hr Hf Hwi Hg] Hw HN (He & Hn & ->)%WriteIntent_Ok. destruct Hw as [ [Hb Hrow Hv Hok Hw Ho] Hc].
  pose proof (here_books _ _ Hb) as Hh.
  assert (Heq : e = next_envelope intent d db) by (rewrite He; unfold next_envelope; by rewrite Hh).
  assert (Hpos : (ev_Epoch e, ev_FeedPosition e) = here db1 (ev_GameID e)) by (by rewrite He).
  assert (Hgame : in_GameID intent = ev_GameID e) by by rewrite He.
  assert (Hent : entries [e] = manifestFromDelta (Some d)) by (rewrite He; cbn; by rewrite app_nil_r).
  rewrite Hgame. set (db2 := appended _ _ db1).
  assert (Hpl : db_players db1 = db_players db) by (unfold books in Hb; congruence).
  assert (Hgn : db_gone db1 = db_gone db) by (unfold books in Hb; congruence).
  assert (Hfd : db_feed db1 = db_feed db) by (unfold books in Hb; congruence).
  split; [|split; [done|]].
  - assert (Hf1 : feed_ok db1) by by eapply feed_ok_books.
    assert (Hw1 : wire_ok db1) by (eapply wire_ok_ext; [..|exact Hwi]; unfold books in Hb; congruence).
    split; [exact (Hok Hr)|by apply feed_ok_appended|by apply wire_ok_appended|]. cbn. by rewrite Hpl, Hgn.
  - assert (Hm : forall p, marked db2 p <-> marked db p) by (intros; unfold marked; cbn; by rewrite Hpl, Hgn).
    split; rewrite ?Hent; [by cbn; rewrite Hfd|exact Hv|split; [by rewrite He|done]|exact Hrow| |exact Hw| | |].
    + intros g. rewrite <- Hh. by apply next_position.
    + cbn. by replace (db_wire db1) with (db_wire db) by (unfold books in Hb; congruence).
    + intros p. by rewrite Hm.
    + intros p c Hp Hown. destruct (Ho p c Hown) as [?|Hnp]; [done|]. by destruct (HN _ Hnp).
Qed.

(** ** Transactions *)
Definition world_keeps : WDB -> WDB -> Prop := keeps world_inv world_grows.

Definition sound_tx {A} (t : Tick -> wtx A) : Prop := forall tk db r db',
  world_inv db -> t tk db = (Ok r, db') -> world_keeps db db'.

Lemma keeps_extends db evs db' : world_inv db' -> extends db evs db' -> world_keeps db db'.
Proof. intros HI He. split; [done|]. by exists evs. Qed.

Lemma mutate_tx_Ok {A} intent (w : wtx (A * MutationDelta)) db r db' :
  world_inv db -> described nobody w -> mutate_tx intent w db = (Ok r, db') ->
  world_inv db' /\ extends db [next_envelope intent r.2 db] db'.
Proof.
  intros HI Hd H. unfold mutate_tx in H. apply txn_bind_Ok in H as ([a d] & db1 & Hw & H).
  apply txn_bind_Ok in H as (e & db2 & H & [-> ->]%mret_Ok). cbn in *.
  eapply Hd in Hw; [|apply HI]. eapply wrote_appended in H as (Hi & -> & He); [by split|done|exact Hw|done].
Qed.

Lemma genesis_tx_Ok tk intent c reason db r db' :
  world_inv db -> genesis_tx tk intent c reason db = (Ok r, db') ->
  world_inv db' /\ extends db [next_envelope intent r.2 db] db' /\ ~ marked db (ch_PlayerID c).
Proof.
  intros HI H. unfold genesis_tx in H. apply txn_bind_Ok in H as (u & db0 & Hg & H).
  apply txn_bind_Ok in H as ([c' d] & db1 & Hc%wrap_code_Ok & H). apply txn_bind_Ok in H as (u' & db2 & Hb & H).
  apply txn_bind_Ok in H as (e & db3 & H%wrap_code_Ok & [-> ->]%mret_Ok). cbn [fst snd] in *.
  assert (db0 = db /\ (is_Some (db_players db !! ch_PlayerID c) -> ~ marked db (ch_PlayerID c))) as [-> Hm].
  { unfold EnsureNotReaping in Hg. apply read_first in Hg. unfold marked.
    destruct (db_players db !! ch_PlayerID c) as [[g [t|]]|]; [done| |].
    - apply mret_Ok in Hg as [_ ->]. split; [done|]. by intros _ [].
    - apply mret_Ok in Hg as [_ ->]. split; [done|]. by intros []. }
  assert (Hp : is_Some (db_players db !! ch_PlayerID c)).
  { unfold character_Create in Hc. apply wrap_code_Ok in Hc. apply read_first in Hc.
    apply txn_bind_Ok in Hc as (? & ? & [_ ->]%require_Ok & Hc). apply txn_bind_Ok in Hc as (? & ? & [? _]%put_character_Ok & _). done. }
  assert (He : elsewhere (if is_empty reason then mret tt
       else wrap_code "CHARACTER_GENESIS_BINDING_FAILED" (_ ← binding_Create tk (ch_PlayerID c) (ch_ID c) reason; mret tt))).
  { intros N x y z. destruct (is_empty reason); [intros [_ ->]%mret_Ok; apply wrote_nil|]. intros Hx%wrap_code_Ok.
    apply txn_bind_Ok in Hx as (? & ? & Hx & [_ ->]%mret_Ok). by eapply elsewhere_binding_Create. }
  apply (character_Create_described c) in Hc; [|apply HI]. apply (He (eq (ch_PlayerID c))) in Hb.
  pose proof (wrote_after _ _ _ _ _ Hc Hb) as Hw.
  eapply wrote_appended in H as (Hi & -> & Hx); [|done|exact Hw|by intros p <-; apply Hm]. auto.
Qed.

Lemma reap_tx_Ok intent c db d db' :
  world_inv db -> reap_tx intent c db = (Ok d, db') ->
  world_inv db' /\ extends db [next_envelope intent d db] db' /\ db_characters db' !! ch_ID c = None.
Proof.
  intros HI H. unfold reap_tx in H. apply txn_bind_Ok in H as (u & db1 & Hb%(elsewhere_wrap _ _ (elsewhere_bindings _) nobody) & H).
  apply txn_bind_Ok in H as (u' & db2 & Hp%(elsewhere_wrap _ _ (elsewhere_properties _ _) nobody) & H).
  apply txn_bind_Ok in H as (d' & db3 & Hd & H). apply txn_bind_Ok in H as (e & db4 & H%wrap_code_Ok & [-> ->]%mret_Ok).
  assert (Hgone : db_characters db3 !! ch_ID c = None).
  { unfold character_Delete in Hd. apply read_first in Hd. apply txn_bind_Ok in Hd as (v & dbx & [-> _]%locked_Ok & Hd).
    apply txn_bind_Ok in Hd as (? & ? & ->%wrap_code_Ok%delete_character_Ok & [_ ->]%mret_Ok). cbn. apply lookup_delete_eq. }
  assert (Hn : no_value (character_Delete (ch_ID c) (ch_Version c)) db2 = (Ok (tt, d'), db3)).
  { unfold no_value, mbind, txn_bind. by rewrite Hd. }
  pose proof (wrote_before _ _ _ _ _ Hb Hp) as Hw. apply character_Delete_described in Hn; [|apply (wr_ok _ _ _ _ Hw), HI].
  pose proof (wrote_before _ _ _ _ _ Hw Hn) as Hw2.
  pose proof H as (_ & _ & Heq)%WriteIntent_Ok.
  eapply wrote_appended in H as (Hi & -> & Hx); [|done|exact Hw2|done]. split_and!; [done|done|]. by rewrite Heq.
Qed.

(** Steps that touch no aggregate. *)
Lemma extends_quiet db db' :
  (forall k, row_of db' k = row_of db k) -> db_feed db' = db_feed db ->
  (forall g, positions g (here db g).1 (here db g).2 [] (here db' g).1 (here db' g).2) ->
  db_wire db `prefix_of` db_wire db' -> (forall p, marked db p -> marked db' p) -> extends db [] db'.
Proof.
  intros Hr Hf Hp Hw Hm. split; [by rewrite app_nil_r|..|done| |done|done|].
  - intros k. unfold version_of. by rewrite Hr.
  - done.
  - intros k _. apply Hr.
  - intros k r Hk _. rewrite Hr. eauto.
  - intros p c _. rewrite !owned_by_row. by rewrite Hr.
Qed.

(** The same rows under other players. *)
Lemma rows_ok_players db db' :
  (forall k, row_of db' k = row_of db k) ->
  (forall k r p, row_of db k = Some r -> row_player r = Some p -> is_Some (db_players db !! p) -> is_Some (db_players db' !! p)) ->
  rows_ok db -> rows_ok db'.
Proof.
  intros Hr Hp HI k r. rewrite Hr. intros Hk. destruct (HI _ _ Hk) as (? & ? & Hpl). split_and!; [done|done|]. eauto.
Qed.

Lemma MarkReaping_Ok tk p db u db' :
  world_inv db -> MarkReaping tk p db = (Ok u, db') -> world_inv db' /\ extends db [] db' /\ marked db' p.
Proof.
  intros [Hr Hf Hwi Hg] H. unfold MarkReaping in H. apply read_first in H.
  destruct (db_players db !! p) as [[[] t]|] eqn:E; [|done..]. apply write_Ok in H. subst.
  set (db' := set_players _ db).
  assert (Hm : marked db' p) by (unfold marked; cbn; rewrite lookup_insert_eq; eauto).
  split_and!; [split| |done].
  - apply (rows_ok_players db); [done| |done]. cbn. intros k r q _ _ Hq. destruct (decide (q = p)) as [->|]; [rewrite lookup_insert_eq; eauto|].
    by rewrite lookup_insert_ne.
  - destruct Hf as [A B C D]. by split.
  - by eapply wire_ok_ext; [..|exact Hwi].
  - intros q Hq. cbn in *. pose proof (Hg _ Hq). rewrite lookup_insert_ne by congruence. auto.
  - apply extends_quiet; [done|done|intros; constructor|done|]. intros q. destruct (decide (q = p)) as [->|]; [done|].
    unfold marked. cbn. by rewrite lookup_insert_ne.
Qed.

(** A player without characters. *)
Lemma player_DeleteGuestPlayer_Ok p db u db' :
  world_inv db -> (forall c, owned_by db p c = false) -> player_DeleteGuestPlayer p db = (Ok u, db') ->
  world_inv db' /\ extends db [] db'.
Proof.
  intros [Hr Hf Hwi Hg] Hno H. unfold player_DeleteGuestPlayer in H. apply read_first in H.
  destruct (db_players db !! p) as [[[] t]|] eqn:E; [|done..]. apply wrap_code_Ok in H. unfold delete_player in H.
  apply read_first in H. apply txn_bind_Ok in H as (? & ? & [_ ->]%require_Ok & H).
  apply txn_bind_Ok in H as (? & ? & [_ ->]%require_Ok & H). apply write_Ok in H.
  assert (Hrows : forall k, row_of db' k = row_of db k).
  { intros [[] i]; subst; try done. unfold row_of. cbn. destruct (db_characters db !! i) as [r|] eqn:Ei.
    - erewrite (proj2 (map_lookup_filter_Some _ _ _ _)); [done|]. split; [exact Ei|]. cbn. specialize (Hno i).
      unfold owned_by in Hno. rewrite Ei in Hno. by apply String.eqb_neq in Hno.
    - by rewrite (proj2 (map_lookup_filter_None _ _ _)); [|left]. }
  assert (Hp : forall q, q <> p -> db_players db' !! q = db_players db !! q) by (intros; subst; cbn; by rewrite lookup_delete_ne).
  assert (Hnp : forall k r, row_of db k = Some r -> row_player r <> Some p).
  { intros [[] i] r Hk Hpl; unfold row_of in Hk; cbn in Hk; apply fmap_Some in Hk as (y & Hy & ->) || done; cbn in Hpl; try done.
    specialize (Hno i). unfold owned_by in Hno. rewrite Hy in Hno. injection Hpl as Hpl. by rewrite Hpl, String.eqb_refl in Hno. }
  split; [split|].
  - apply (rows_ok_players db); [done| |done]. intros k r q Hk Hq Hs. rewrite Hp; [done|]. intros ->. by eapply Hnp.
  - subst. destruct Hf as [A B C D]. by split.
  - subst. by eapply wire_ok_ext; [..|exact Hwi].
  - subst. cbn. intros q [->%elem_of_singleton|Hq]%elem_of_union; [apply lookup_delete_eq|].
    pose proof (Hg _ Hq). rewrite lookup_delete_ne; [done|congruence].
  - apply extends_quiet; [done|by subst|subst; intros; constructor|by subst|]. intros q. unfold marked.
    destruct (decide (q = p)) as [->|]; [|rewrite Hp by done]; subst; cbn; [|by destruct (db_players db !! q); set_solver].
    rewrite lookup_delete_eq. set_solver.
Qed.

Definition reset (now : Z) (g : string) (db : WDB) : WDB :=
  let c := counter_of g db in
  set_counters (<[g := mkCounter genesisFeedOrigin (fc_epoch c + 1) (fc_lease_generation c)]> (db_counters db))
    (set_outbox (quarantine now g (fc_epoch c) <$> db_outbox db) db).

Lemma here_reset now g g' db :
  (here (reset now g db) g').1 = if decide (g' = g) then (here db g).1 + 1 else (here db g').1.
Proof.
  unfold here, counter_of, reset. cbn. case_decide; subst; [by rewrite lookup_insert_eq|]. by rewrite lookup_insert_ne by done.
Qed.

Lemma wire_ok_reset now g db : wire_ok db -> wire_ok (reset now g db).
Proof.
  intros [A B C D]. split; [| |done|done].
  - intros id x. rewrite here_reset. cbn. rewrite lookup_fmap. intros (r & Hr & ->)%fmap_Some Hp. unfold quarantine in *.
    destruct (stale g _ r) eqn:Es; [done|]. pose proof (A _ _ Hr Hp) as Hcur. case_decide as Hg; [exfalso|done].
    unfold stale in Es. rewrite Hp, Hg, String.eqb_refl in Es. rewrite Hg in Hcur. unfold here in Hcur. cbn in Hcur.
    rewrite Hcur, Z.eqb_refl in Es. done.
  - intros id x. rewrite here_reset. cbn. rewrite lookup_fmap. intros (r & Hr & ->)%fmap_Some Hp. unfold quarantine in *.
    destruct (stale g _ r) eqn:Es; cbn in *.
    + right. apply andb_prop in Es as [[Eg%String.eqb_eq Ee%Z.eqb_eq]%andb_prop _].
      rewrite decide_True by done. unfold here. cbn. lia.
    + destruct (B _ _ Hr Hp) as [?|Hlt]; [by left|]. right. case_decide as Hg; [rewrite Hg in Hlt; lia|done].
Qed.

Lemma AdvanceEpoch_Ok tk g db r db' :
  world_inv db -> AdvanceEpoch tk g db = (Ok r, db') -> world_inv db' /\ extends db [] db'.
Proof.
  intros [Hr Hf Hwi Hg] H. unfold AdvanceEpoch, put_counter in H. tx_all. change (set_counters _ _) with (reset (tk_now tk) g db). set (db' := reset _ _ _).
  assert (Hpos : forall g', positions g' (here db g').1 (here db g').2 [] (here db' g').1 (here db' g').2).
  { intros g'. unfold here, counter_of, db'. cbn. destruct (decide (g' = g)) as [->|].
    - rewrite lookup_insert_eq. cbn. apply pos_epoch. unfold genesisFeedOrigin. constructor.
    - rewrite lookup_insert_ne by done. constructor. }
  split; [split|]; [done| |by apply wire_ok_reset|done|by apply extends_quiet].
  destruct Hf as [A B C D]. split.
  - intros id x. cbn. rewrite lookup_fmap. intros (y & Hy & ->)%fmap_Some. unfold quarantine. case_match; cbn; by apply A.
  - intros e He. cbn. destruct (B _ He) as (y & Hy & <-). rewrite lookup_fmap, Hy. cbn. eexists. split; [done|].
    unfold quarantine. by case_match.
  - done.
  - intros g'. rewrite <- (app_nil_r (db_feed _)). eapply positions_app; [apply D|apply Hpos].
Qed.

(** ** The relay *)
Lemma on_wire_grows w w' e : w `prefix_of` w' -> on_wire w e -> on_wire w' e.
Proof. intros [l ->] (v & now & Hv & He). exists v, now. split; [set_solver|done]. Qed.

Lemma feed_same_id db e e' :
  feed_ok db -> e ∈ db_feed db -> e' ∈ db_feed db -> ev_EventID e = ev_EventID e' -> e = e'.
Proof. intros [_ B _ _] He He' Hid. destruct (B _ He) as (r & Hr & <-), (B _ He') as (r' & Hr' & <-). congruence. Qed.

(** What comes before a published envelope does not grow. *)
Lemma earlier_is_old db db' e e' :
  world_inv db -> world_grows db db' -> e ∈ db_feed db -> e' ∈ db_feed db' ->
  ev_GameID e' = ev_GameID e -> ev_Epoch e' = ev_Epoch e -> ev_FeedPosition e' < ev_FeedPosition e -> e' ∈ db_feed db.
Proof.
  intros HI [evs Hx] He He' Hg Hep Hpos. rewrite (ex_feed _ _ _ Hx) in He'. apply elem_of_app in He' as [?|Hn]; [done|exfalso].
  destruct (positions_between _ _ _ _ _ _ _ (fo_positions _ (wi_feed _ HI) (ev_GameID e)) He eq_refl) as [_ Hlt].
  destruct (positions_between _ _ _ _ _ _ _ (ex_positions _ _ _ Hx (ev_GameID e)) Hn Hg) as [Hge _].
  unfold before in *. lia.
Qed.

(** All that precedes [e] in its epoch is on the stream. *)
Definition due (e : Envelope) (db : WDB) : Prop :=
  e ∈ db_feed db /\ forall e', e' ∈ db_feed db -> ev_GameID e' = ev_GameID e -> ev_Epoch e' = ev_Epoch e ->
    ev_FeedPosition e' < ev_FeedPosition e -> on_wire (db_wire db) e'.

Lemma due_grows db db' e : world_inv db -> world_grows db db' -> due e db -> due e db'.
Proof.
  intros HI Hg [He Hd]. pose proof Hg as [evs Hx]. split; [rewrite (ex_feed _ _ _ Hx); set_solver|].
  intros e' He' Hgm Hep Hpos. eapply on_wire_grows; [exact (ex_wire _ _ _ Hx)|]. eapply Hd; [|done..]. by eapply earlier_is_old.
Qed.

Lemma feed_le_total a b : feed_le a b = true \/ feed_le b a = true.
Proof. unfold feed_le. destruct (Z.ltb_spec (ev_Epoch (ob_envelope a)) (ev_Epoch (ob_envelope b))); [by left|].
  destruct (Z.ltb_spec (ev_Epoch (ob_envelope b)) (ev_Epoch (ob_envelope a))); [by right|].
  assert (Heq : ev_Epoch (ob_envelope a) = ev_Epoch (ob_envelope b)) by lia. rewrite Heq, Z.eqb_refl. cbn.
  destruct (Z.leb_spec (ev_FeedPosition (ob_envelope a)) (ev_FeedPosition (ob_envelope b))); [by left|right; lia].
Qed.

Lemma feed_le_trans a b c : feed_le a b = true -> feed_le b c = true -> feed_le a c = true.
Proof. unfold feed_le. lia. Qed.

(** The first row is a least one. *)
Lemma next_unpublished_first g db e :
  next_unpublished g db = Some e ->
  (exists id r, db_outbox db !! id = Some r /\ unpublished g r = true /\ ob_envelope r = e) /\
  forall id r, db_outbox db !! id = Some r -> unpublished g r = true ->
    ev_Epoch e < ev_Epoch (ob_envelope r) \/ (ev_Epoch e = ev_Epoch (ob_envelope r) /\ ev_FeedPosition e <= ev_FeedPosition (ob_envelope r)).
Proof.
  unfold next_unpublished. set (l := map snd _). intros (r & Hr & ->)%fmap_Some.
  assert (Hin : forall x, x ∈ l <-> exists id, db_outbox db !! id = Some x /\ unpublished g x = true).
  { intros x. unfold l. rewrite list_elem_of_fmap. split.
    - intros ([id y] & -> & Hy). exists id. by apply rows_where_elem in Hy.
    - intros [id Hx]. exists (id, x). split; [done|]. by apply rows_where_elem. }
  destruct (order_by feed_le l) as [|x rest] eqn:E; [done|]. injection Hr as ->.
  assert (Hx : r ∈ l) by (apply (elem_of_order_by feed_le); rewrite E; set_solver). split; [apply Hin in Hx as (id & ? & ?); eauto|].
  intros id y Hy Hu. assert (Hyl : y ∈ r :: rest) by (rewrite <- E; apply elem_of_order_by, Hin; eauto).
  enough (Hle : feed_le r y = true) by (unfold feed_le in Hle; lia).
  apply elem_of_cons in Hyl as [->|Hyr]; [destruct (feed_le_total r r); done|].
  assert (Hs : StronglySorted (fun a b => Is_true (feed_le a b)) (r :: rest)).
  { rewrite <- E. unfold order_by. apply StronglySorted_merge_sort.
    - intros a b c. rewrite !Is_true_true. apply feed_le_trans.
    - intros a b. rewrite !Is_true_true. apply feed_le_total. }
  apply StronglySorted_inv in Hs as [_ Hall]. apply Is_true_true. exact (proj1 (Forall_forall _ _) Hall _ Hyr).
Qed.

Lemma next_unpublished_due g db e : world_inv db -> next_unpublished g db = Some e -> due e db.
Proof.
  intros HI ((id & r & Hr & Hu & <-) & Hmin)%next_unpublished_first. destruct HI as [_ Hf Hw _].
  destruct (fo_outbox _ Hf _ _ Hr) as [_ Hin]. apply andb_prop in Hu as [Hg%String.eqb_eq Hp].
  assert (Hnone : ob_published_at r = None) by by destruct (ob_published_at r).
  pose proof (wo_current _ Hw _ _ Hr Hnone) as Hcur. split; [done|]. intros e' He' Hgm Hep Hpos.
  destruct (fo_feed _ Hf _ He') as (r' & Hr' & <-). destruct (ob_published_at r') as [t|] eqn:Ep.
  - destruct (wo_sent _ Hw _ _ Hr') as [?|Hlt]; [by rewrite Ep|done|]. rewrite Hgm in Hlt. lia.
  - exfalso. destruct (Hmin _ _ Hr'); [|lia|lia]. unfold unpublished. rewrite Hgm, Hg, String.eqb_refl, Ep. done.
Qed.

(** A publication of what is due. *)
Lemma publish_keeps now e v db :
  world_inv db -> due e db -> EnvelopeToEvent now e = Ok v -> world_keeps db (add_wire v db).
Proof.
  intros [Hr Hf Hw Hg] [He Hd] Hv. eapply keeps_extends; [|apply extends_quiet; try done; [intros; constructor|by exists [v]]].
  split; [done|by destruct Hf| |done]. assert (Hpre : db_wire db `prefix_of` db_wire (add_wire v db)) by by exists [v].
  destruct Hw as [A B C D]. split.
  - done.
  - intros id r H Hp. destruct (B _ _ H Hp) as [?|?]; [left; by eapply on_wire_grows|by right].
  - cbn. intros x [Hx|Hx%list_elem_of_singleton]%elem_of_app; [by apply C|]. subst x. eauto.
  - intros i v' now' x y Hin Hv' Hx Hy Hgm Hep Hpos. cbn in *. apply lookup_snoc_Some in Hin as [[Hi Hin]|[-> <-]].
    + rewrite take_app_le by lia. by apply (D i v' now' x y).
    + rewrite take_app_length. assert (x = e) as ->.
      { eapply feed_same_id; [done..|]. by rewrite <- (on_wire_id _ _ _ Hv'), (on_wire_id _ _ _ Hv). }
      by apply Hd.
Qed.

(** The mark on what is on the stream. *)
Lemma set_published_keeps now e db u db' :
  world_inv db -> e ∈ db_feed db -> on_wire (db_wire db) e -> set_published now (ev_EventID e) db = (Ok u, db') -> world_keeps db db'.
Proof.
  intros [Hr Hf Hw Hg] He Hon H%write_Ok. subst.
  eapply keeps_extends; [|apply extends_quiet; try done; intros; constructor].
  destruct (fo_feed _ Hf _ He) as (r0 & Hr0 & Henv).
  assert (Hrow : forall id r, alter (fun r => if is_set (ob_published_at r) then r
                   else mkOutbox (ob_envelope r) (Some now) (ob_skip_marker r)) (ev_EventID e) (db_outbox db) !! id = Some r ->
    exists r', db_outbox db !! id = Some r' /\ ob_envelope r = ob_envelope r' /\
      (ob_published_at r = ob_published_at r' \/ (ob_envelope r = e /\ is_Some (ob_published_at r)))).
  { intros id r [[<- (x & Hx & ->)]|[_ Hx]]%lookup_alter_Some; [|by exists r; auto]. exists x. split; [done|].
    destruct (is_set (ob_published_at x)); [by auto|]. split; [done|right]. split; [|by eexists]. cbn. congruence. }
  split; [done| | |done].
  - destruct Hf as [A B C D]. split; [| |done|done].
    + intros id r (r' & Hr' & -> & _)%Hrow. by apply A.
    + intros x Hx. destruct (B _ Hx) as (r & Hrx & <-). cbn. destruct (decide (ev_EventID (ob_envelope r) = ev_EventID e)) as [Hid|Hid].
      * rewrite Hid, lookup_alter_eq, <- Hid, Hrx. eexists. split; [done|]. by case_match.
      * rewrite lookup_alter_ne by done. eauto.
  - destruct Hw as [A B C D]. split; [| |done|done].
    + intros id r (r' & Hr' & -> & [Hp|[_ [t Hp]]])%Hrow Hn; [|congruence]. eapply A; [done|congruence].
    + intros id r (r' & Hr' & Henv' & [Hp|[Hre _]])%Hrow Hs; [|left; by rewrite Hre]. rewrite Henv'. eapply B; [done|congruence].
Qed.

Lemma bump_generation_keeps g db n db' : world_inv db -> bump_generation g db = (Ok n, db') -> world_keeps db db'.
Proof.
  intros [Hr Hf Hw Hg] H. unfold bump_generation in H. apply read_first in H. unfold put_counter in H. tx_all.
  set (c := match _ with Some _ => _ | None => _ end). set (db' := set_counters _ db).
  assert (Hh : forall g', here db' g' = here db g').
  { intros g'. unfold here, counter_of, db', c. cbn. destruct (decide (g' = g)) as [->|]; [|by rewrite lookup_insert_ne].
    rewrite lookup_insert_eq. by destruct (db_counters db !! g). }
  eapply keeps_extends; [|apply extends_quiet; try done; intros; rewrite Hh; constructor].
  split; [done| | |done].
  - destruct Hf as [A B C D]. split; [done..|]. intros g'. rewrite Hh. apply D.
  - destruct Hw as [A B C D]. split; [| |done|done]; intros id r H; rewrite Hh; by eauto.
Qed.
