(* ===== verification/WorldFacts.v ===== *)
(** What the commands of the world do, run among any others: every write is announced
    by one envelope of the feed, needs a permit, and is not lost; the reaping of a
    guest announces every character it removes. *)

From S2P Require Import Prelude GoStrings GoText GoJson EntityRef PolicyTypes Sql Programs WorldTypes WorldWire WorldStore WorldService Outbox WorldInv.

#[local] Open Scope string_scope.
#[local] Open Scope Z_scope.
#[local] Open Scope prog_scope.

(** ** Commands

    A command looks around, asks for a permit, makes one write with its envelope, and
    answers. *)
Definition looks {A} (c : wcall A) : Prop := match c with WTx _ => False | _ => True end.

(** The answers a call can get. *)
Definition possible A (c : wcall A) (a : A) : Prop := exists en db, world_inv db /\ a = (world_exec en A c db).1.

Inductive quiet {B} (P : B -> Prop) : wprog B -> Prop :=
| quiet_done b : P b -> quiet P (Done b)
| quiet_look A (c : wcall A) k : looks c -> (forall a, quiet P (k a)) -> quiet P (Call c k).

(** The aggregate the envelope names is the one the manifest starts with. *)
Definition names_primary {A} (intent : EnvelopeIntent) (w : wtx (A * MutationDelta)) : Prop := forall db a d db',
  w db = (Ok (a, d), db') -> af_key (md_Primary d) = (in_AggregateType intent, in_AggregateID intent).

(** [acc] is the subject, action and resource to be permitted, [ok] whether they are. *)
Inductive command {B} (I : EnvelopeIntent -> Prop) (acc : option (string * string * string))
    : bool -> wprog (result B) -> Prop :=
| cmd_fail ok e : command I acc ok (Done (Err e))
| cmd_look ok A (c : wcall A) k : looks c -> (forall a, possible A c a -> command I acc ok (k a)) -> command I acc ok (Call c k)
| cmd_ask u a r req k :
    acc = Some (u, a, r) -> NewAccessRequest u a r ∅ = Ok req ->
    (forall d, IsAllowed d = true -> command I acc true (k (Ok d))) ->
    (forall d, IsAllowed d = false -> quiet (fun r => is_ok r = false) (k (Ok d))) ->
    (forall e, quiet (fun r => is_ok r = false) (k (Err e))) ->
    command I acc false (Call (WEvaluate req) k)
| cmd_write A intent (w : Tick -> wtx (A * MutationDelta)) k :
    I intent -> (forall tk, described nobody (w tk)) -> (forall tk, names_primary intent (w tk)) ->
    (forall e, quiet (fun r => is_ok r = false) (k (Err e))) -> (forall r, quiet (fun r => is_ok r = true) (k (Ok r))) ->
    command I acc true (Call (WTx (fun tk => mutate_tx intent (w tk))) k).

Lemma quiet_bind {A B} (P : A -> Prop) (Q : B -> Prop) (p : wprog A) (f : A -> wprog B) :
  quiet P p -> (forall a, P a -> quiet Q (f a)) -> quiet Q (p ≫= f).
Proof.
  intros Hp Hf. unfold mbind, prog_mbind. induction Hp as [b Hb|A' c k Hc Hk IH]; cbn; [by apply Hf|].
  by apply quiet_look.
Qed.

Lemma quiet_answering {A} b (p : wprog (result A)) :
  quiet (fun r => is_ok r = b) p -> quiet (fun r => is_ok r = b) (answering p).
Proof.
  intros H. unfold answering, try_. eapply quiet_bind; [exact H|]. intros [a|e] Hr; by constructor.
Qed.

Section Command.
Context {B : Type} (I : EnvelopeIntent -> Prop).

Lemma command_answering acc ok (p : wprog (result B)) : command I acc ok p -> command I acc ok (answering p).
Proof.
  unfold answering, try_, mbind, prog_mbind.
  induction 1 as [ok e|ok A c k Hc Hk IH|u a r req k Ha Hreq Ht IH Hf He|A intent w k HI Hd Hn He Ho]; cbn.
  - constructor.
  - by apply cmd_look.
  - eapply cmd_ask; [done|done|done|..]; intros; apply quiet_answering; auto.
  - apply cmd_write; [done|done|done|..]; intros; apply quiet_answering; auto.
Qed.

Lemma command_unless acc ok c e (k : wprog (result B)) : command I acc ok k -> command I acc ok (unless c e k).
Proof. intros H. unfold unless. destruct c; [done|constructor]. Qed.

Lemma command_passing acc ok r wrap (k : wprog (result B)) :
  (r = Ok tt -> command I acc ok k) -> command I acc ok (passing r wrap k).
Proof. intros H. unfold passing. destruct r as [[]|]; [by apply H|constructor]. Qed.

Lemma command_access u a r prefix (k : unit -> wprog (result B)) :
  command I (Some (u, a, r)) true (k tt) -> command I (Some (u, a, r)) false (try_ (checkAccess u a r prefix) failed k).
Proof.
  intros H. unfold checkAccess, try_. destruct (NewAccessRequest u a r ∅) as [req|e] eqn:E; [|constructor].
  unfold mbind, prog_mbind, call. cbn. eapply cmd_ask; [done|done|..].
  - intros d Hd. by rewrite Hd.
  - intros d Hd. rewrite Hd. by destruct (IsInfraFailure d); constructor.
  - intros e. by constructor.
Qed.

Lemma command_read {A} acc ok (f : Tick -> WDB -> result A) h (k : A -> wprog (result B)) :
  (forall e, exists e', h e = failed e') ->
  (forall tk db a, world_inv db -> f tk db = Ok a -> command I acc ok (k a)) -> command I acc ok (try_ (call (WRead f)) h k).
Proof.
  intros Hh Hk. unfold try_, mbind, prog_mbind, call. cbn. apply cmd_look; [done|].
  intros [a|e] (en & db & HI & Ha); [|destruct (Hh e) as [e' ->]; constructor].
  cbn in Ha. destruct (we_fault en); [|done..]. by eapply Hk.
Qed.

Lemma command_id acc ok id (k : ULID -> wprog (result B)) :
  (forall i, (IsZero id = false -> i = id) -> command I acc ok (k i)) -> command I acc ok (fresh_unless_set id ≫= k).
Proof.
  intros Hk. unfold fresh_unless_set. destruct (IsZero id) eqn:E.
  - unfold mbind, prog_mbind, call. cbn. apply cmd_look; [done|]. intros i _. by apply Hk.
  - by apply Hk.
Qed.

Lemma command_intent acc ok s kind t id actor payload (k : EnvelopeIntent -> wprog (result B)) :
  (forall i, command I acc ok (k (NewEnvelopeIntent i (s_gameID s) kind worldSchemaVersion actor t id payload))) ->
  command I acc ok (buildIntent s kind t id actor payload ≫= k).
Proof. intros Hk. unfold buildIntent, mbind, prog_mbind, call. cbn. by apply cmd_look. Qed.

Lemma command_mutate {A} acc intent (w : Tick -> wtx (A * MutationDelta)) h (k : A * MutationDelta -> wprog (result B)) :
  I intent -> (forall tk, described nobody (w tk)) -> (forall tk, names_primary intent (w tk)) ->
  (forall e, exists e', h e = failed e') -> (forall r, quiet (fun r => is_ok r = true) (k r)) ->
  command I acc true (try_ (mutate intent w) h k).
Proof.
  intros HI Hd Hn Hh Hk. unfold try_, mutate, mbind, prog_mbind, call. cbn. apply cmd_write; try done.
  intros e. destruct (Hh e) as [e' ->]. by constructor.
Qed.
End Command.

(** ** What each command announces, and what it must be permitted *)
Record announcement : Type := mkAnnouncement {
  an_Kind : string;
  an_Actor : string;
  an_Type : AggregateType;
  an_ID : option ULID  (* unless drawn for the command *)
}.

Definition given (id : ULID) : option ULID := if IsZero id then None else Some id.

Definition announces (rq : request) : option announcement :=
  match rq with
  | RqCreateLocation u l => Some (mkAnnouncement "location_created" u AggregateLocation (l ≫= fun l => given (loc_ID l)))
  | RqUpdateLocation u l => Some (mkAnnouncement "location_updated" u AggregateLocation (loc_ID <$> l))
  | RqDeleteLocation u i => Some (mkAnnouncement "location_deleted" u AggregateLocation (Some i))
  | RqCreateExit u e => Some (mkAnnouncement "exit_created" u AggregateExit (e ≫= fun e => given (ex_ID e)))
  | RqUpdateExit u e => Some (mkAnnouncement "exit_updated" u AggregateExit (ex_ID <$> e))
  | RqDeleteExit u i => Some (mkAnnouncement "exit_deleted" u AggregateExit (Some i))
  | RqCreateObject u o => Some (mkAnnouncement "object_created" u AggregateObject (o ≫= fun o => given (obj_ID o)))
  | RqUpdateObject u o => Some (mkAnnouncement "object_updated" u AggregateObject (obj_ID <$> o))
  | RqDeleteObject u i => Some (mkAnnouncement "object_deleted" u AggregateObject (Some i))
  | RqMoveObject u i _ => Some (mkAnnouncement "object_moved" u AggregateObject (Some i))
  | RqUpdateCharacterDescription u i _ => Some (mkAnnouncement "character_updated" u AggregateCharacter (Some i))
  | RqUpdateCharacterPreferences i _ =>
      Some (mkAnnouncement "character_preferences_update" (SubjectCharacter +:+ i) AggregateCharacter (Some i))
  | RqDeleteCharacter u i => Some (mkAnnouncement "character_deleted" u AggregateCharacter (Some i))
  | RqMoveCharacter u i _ => Some (mkAnnouncement "character_moved" u AggregateCharacter (Some i))
  | _ => None
  end.

Definition access (rq : request) : option (string * string * string) :=
  match rq with
  | RqCreateLocation u _ => Some (u, "write", ResourceLocation +:+ "*")
  | RqUpdateLocation u (Some l) => Some (u, "write", ResourceLocation +:+ loc_ID l)
  | RqDeleteLocation u i => Some (u, "delete", ResourceLocation +:+ i)
  | RqCreateExit u _ => Some (u, "write", ResourceExit +:+ "*")
  | RqUpdateExit u (Some e) => Some (u, "write", ResourceExit +:+ ex_ID e)
  | RqDeleteExit u i => Some (u, "delete", ResourceExit +:+ i)
  | RqCreateObject u _ => Some (u, "write", ResourceObject +:+ "*")
  | RqUpdateObject u (Some o) => Some (u, "write", ResourceObject +:+ obj_ID o)
  | RqDeleteObject u i => Some (u, "delete", ResourceObject +:+ i)
  | RqMoveObject u i _ => Some (u, "write", ResourceObject +:+ i)
  | RqUpdateCharacterDescription u i _ => Some (u, "write", ResourceCharacter +:+ i)
  | RqDeleteCharacter u i => Some (u, "delete", ResourceCharacter +:+ i)
  | RqMoveCharacter u i _ => Some (u, "write", ResourceCharacter +:+ i)
  | _ => None
  end.

Definition fits (s : Service) (an : announcement) (i : EnvelopeIntent) : Prop :=
  in_GameID i = s_gameID s /\ in_Kind i = an_Kind an /\ in_Actor i = an_Actor an /\ in_SchemaVersion i = 1 /\
  in_AggregateType i = an_Type an /\ forall id, an_ID an = Some id -> in_AggregateID i = id.

(** *** The aggregate of each write *)
Ltac named := unfold af_key; cbn; congruence.

Lemma names_no_value i (t : wtx MutationDelta) :
  (forall db d db', t db = (Ok d, db') -> af_key (md_Primary d) = (in_AggregateType i, in_AggregateID i)) ->
  names_primary i (no_value t).
Proof. intros H db a d db' Ht. unfold no_value in Ht. apply txn_bind_Ok in Ht as (? & ? & ? & [[= -> ->] ->]%mret_Ok). eauto. Qed.

Lemma location_Create_names l i : (in_AggregateType i, in_AggregateID i) = (AggregateLocation, loc_ID l) -> names_primary i (location_Create l).
Proof. intros Hi db a d db' H. unfold location_Create in H. tx_all. named. Qed.
Lemma location_Update_names l i : (in_AggregateType i, in_AggregateID i) = (AggregateLocation, loc_ID l) -> names_primary i (location_Update l).
Proof. intros Hi db a d db' H. unfold location_Update in H. apply read_first in H. destruct (matched _ _ _); tx_all. named. Qed.
Lemma object_Create_names o i : (in_AggregateType i, in_AggregateID i) = (AggregateObject, obj_ID o) -> names_primary i (object_Create o).
Proof. intros Hi db a d db' H. unfold object_Create in H. tx_all. named. Qed.
Lemma object_Update_names o i : (in_AggregateType i, in_AggregateID i) = (AggregateObject, obj_ID o) -> names_primary i (object_Update o).
Proof. intros Hi db a d db' H. unfold object_Update in H. apply read_first in H. destruct (matched _ _ _); tx_all. named. Qed.
Lemma exit_Update_names e i : (in_AggregateType i, in_AggregateID i) = (AggregateExit, ex_ID e) -> names_primary i (exit_Update e).
Proof.
  intros Hi db a d db' H. unfold exit_Update in H. apply txn_bind_Ok in H as (? & ? & [_ ->]%of_result_Ok & H). apply read_first in H.
  destruct (matched _ _ _); tx_all. named.
Qed.
Lemma exit_Create_names tk e i :
  IsZero (ex_ID e) = false -> (in_AggregateType i, in_AggregateID i) = (AggregateExit, ex_ID e) -> names_primary i (exit_Create tk e).
Proof.
  intros Hz Hi db a d db' H. unfold exit_Create in H. rewrite Hz in H. apply txn_bind_Ok in H as (? & ? & _ & H).
  apply txn_bind_Ok in H as (? & ? & _ & [[= -> ->] ->]%mret_Ok). by rewrite Hi.
Qed.
Lemma exit_Delete_names tk seen id i : (in_AggregateType i, in_AggregateID i) = (AggregateExit, id) -> names_primary i (deleteExit_tx tk seen id).
Proof.
  intros Hi db a d db' H. unfold deleteExit_tx, exit_Delete in H.
  apply txn_bind_Ok in H as (r & db1 & H & [[= -> ->] ->]%mret_Ok). apply read_first in H.
  apply txn_bind_Ok in H as (v & ? & _ & H). apply txn_bind_Ok in H as (? & ? & _ & H).
  rewrite Hi. repeat case_match; try (by apply mret_Ok in H as [-> _]).
Qed.
Lemma deleteLocation_names id i : (in_AggregateType i, in_AggregateID i) = (AggregateLocation, id) -> names_primary i (no_value (deleteLocation_tx id)).
Proof. intros Hi. apply names_no_value. intros db d db' H. unfold deleteLocation_tx, location_Delete in H. tx_all. named. Qed.
Lemma deleteObject_names id i : (in_AggregateType i, in_AggregateID i) = (AggregateObject, id) -> names_primary i (no_value (deleteObject_tx id)).
Proof. intros Hi. apply names_no_value. intros db d db' H. unfold deleteObject_tx, object_Delete in H. tx_all. named. Qed.
Lemma deleteCharacter_names id i : (in_AggregateType i, in_AggregateID i) = (AggregateCharacter, id) -> names_primary i (no_value (deleteCharacter_tx id)).
Proof. intros Hi. apply names_no_value. intros db d db' H. unfold deleteCharacter_tx, character_Delete in H. tx_all. named. Qed.
Lemma object_Move_names n id to v i : (in_AggregateType i, in_AggregateID i) = (AggregateObject, id) -> names_primary i (no_value (object_Move n id to v)).
Proof. intros Hi. apply names_no_value. intros db d db' (o & _ & _ & -> & _)%object_Move_Ok. by rewrite Hi. Qed.
Lemma update_character_names code id v f i :
  (in_AggregateType i, in_AggregateID i) = (AggregateCharacter, id) -> names_primary i (no_value (update_character code id v f)).
Proof.
  intros Hi. apply names_no_value. intros db d db' H. unfold update_character in H. apply read_first in H.
  destruct (matched _ _ _); tx_all. named.
Qed.
Lemma UpdatePreferences_names id p v i :
  (in_AggregateType i, in_AggregateID i) = (AggregateCharacter, id) -> names_primary i (no_value (character_UpdatePreferences id p v)).
Proof. intros Hi. unfold character_UpdatePreferences. destruct (decode p); [by apply update_character_names|]. by intros db a d db'. Qed.

(** *** Every command is one *)
Ltac cmd_step := first
  [ apply command_unless
  | apply command_passing; intros
  | apply command_access
  | apply command_read; [intros; by eexists|intros]
  | apply command_id; intros
  | apply command_intent; intros
  | apply cmd_fail ].

Ltac cmd_write := apply command_mutate; [split_and!; try done| | |intros; by eexists|intros; by repeat constructor].

Create HintDb described discriminated.
#[export] Hint Resolve location_Create_described location_Update_described deleteLocation_described exit_Create_described
  exit_Update_described exit_Delete_described object_Create_described object_Update_described deleteObject_described
  object_Move_described character_Update_described character_UpdateLocation_described
  character_UpdatePreferences_described deleteCharacter_described : described.
#[export] Hint Resolve location_Create_names location_Update_names deleteLocation_names exit_Update_names exit_Delete_names
  object_Create_names object_Update_names deleteObject_names object_Move_names update_character_names UpdatePreferences_names
  deleteCharacter_names : described.

Lemma given_Some i id j : given i = Some j -> (IsZero i = false -> id = i) -> id = j.
Proof. unfold given. destruct (IsZero i); [done|]. intros [= <-]. auto. Qed.

Lemma Exit_Validate_set u e : Exit_Validate u e = Ok tt -> IsZero (ex_ID e) = false.
Proof. unfold Exit_Validate. by destruct (IsZero (ex_ID e)). Qed.

Lemma character_Get_ID id db c : world_inv db -> character_Get id db = Ok c -> ch_ID c = id.
Proof.
  unfold character_Get. intros HI. destruct (db_characters db !! id) as [r|] eqn:E; [|done]. intros [= <-].
  by eapply rows_ok_character; [apply HI|].
Qed.

Lemma handle_command s rq an :
  announces rq = Some an -> command (fits s an) (access rq) (negb (is_set (access rq))) (handle s rq).
Proof.
  intros Han. destruct rq; cbn in Han; try done; injection Han as <-; cbn [handle]; apply command_answering.
  - unfold CreateLocation. do 2 cmd_step. destruct loc as [l|]; [|cmd_step]. repeat cmd_step.
    cmd_write; [|eauto with described|eauto with described]. cbn. intros id Hid. by eapply given_Some.
  - unfold UpdateLocation. cmd_step. destruct loc as [l|]; [|cmd_step]. cbn [access is_set negb]. repeat cmd_step.
    cmd_write; [|eauto with described|eauto with described]. by intros id [= <-].
  - unfold DeleteLocation. repeat cmd_step. cmd_write; [|eauto with described|eauto with described]. by intros ? [= <-].
  - unfold CreateExit. do 2 cmd_step. destruct exit as [e|]; [|cmd_step]. repeat cmd_step.
    cmd_write; [|eauto with described|]. { cbn. intros id Hid. by eapply given_Some. }
    intros tk. apply exit_Create_names; [|done]. by eapply Exit_Validate_set.
  - unfold UpdateExit. cmd_step. destruct exit as [e|]; [|cmd_step]. cbn [access is_set negb]. repeat cmd_step.
    cmd_write; [|eauto with described|eauto with described]. by intros id [= <-].
  - unfold DeleteExit. repeat cmd_step. cmd_write; [by intros ? [= <-]| |eauto with described].
    intros tk'. apply exit_Delete_described. match goal with H : Ok _ = Ok _ |- _ => injection H as <- end. by apply rows_seen, wi_rows.
  - unfold CreateObject. do 2 cmd_step. destruct obj as [o|]; [|cmd_step]. repeat cmd_step.
    cmd_write; [|eauto with described|eauto with described]. cbn. intros id Hid. by eapply given_Some.
  - unfold UpdateObject. cmd_step. destruct obj as [o|]; [|cmd_step]. cbn [access is_set negb]. repeat cmd_step.
    cmd_write; [|eauto with described|eauto with described]. by intros id [= <-].
  - unfold DeleteObject. repeat cmd_step. cmd_write; [|eauto with described|eauto with described]. by intros ? [= <-].
  - unfold MoveObject. repeat cmd_step. cmd_write; [|eauto with described|eauto with described]. by intros ? [= <-].
  - unfold UpdateCharacterDescription. repeat cmd_step. cmd_write; [|eauto with described|].
    { by intros ? [= <-]. } intros tk'. apply update_character_names. cbn. f_equal. by symmetry; eapply character_Get_ID.
  - unfold UpdateCharacterPreferences. repeat cmd_step. destruct (if is_empty prefs then _ else _) as [raw|]; [|cmd_step].
    repeat cmd_step. cmd_write; [|eauto with described|eauto with described]. by intros ? [= <-].
  - unfold DeleteCharacter. repeat cmd_step. cmd_write; [|eauto with described|eauto with described]. by intros ? [= <-].
  - unfold MoveCharacter. repeat cmd_step. cmd_write; [|eauto with described|].
    { by intros ? [= <-]. } intros tk'. by apply update_character_names.
Qed.

(** ** Commands among others *)
Definition anytime (db : WDB) (en : wenv) : Prop := True.

Abbreviation wwp := (wp world_exec anytime world_inv world_grows).

Lemma looks_still {A} (c : wcall A) en db : looks c -> (world_exec en A c db).2 = db.
Proof. by destruct c. Qed.

Lemma looks_keeps {A} (c : wcall A) en db : looks c -> world_inv db -> world_keeps db (world_exec en A c db).2.
Proof. intros Hc HI. rewrite looks_still by done. split; [done|reflexivity]. Qed.

(** A transaction that is sound when it succeeds, whatever its answer. *)
Lemma tx_keeps {A} (t : Tick -> wtx A) en db :
  world_inv db -> (forall tk r db', t tk db = (Ok r, db') -> world_keeps db db') ->
  world_keeps db (world_exec en _ (WTx t) db).2.
Proof.
  intros HI Ht. assert (Hr : world_keeps db db) by (split; [done|reflexivity]).
  assert (Ha : world_keeps db (atomically (t (we_tick en)) db).2).
  { rewrite atomically_2. destruct (t (we_tick en) db) as [[r|e] db'] eqn:E; [by eapply Ht|done]. }
  cbn. by destruct (we_fault en).
Qed.

(** ... and what its success tells. *)
Lemma tx_answers {A} (t : Tick -> wtx A) en db r :
  (world_exec en _ (WTx t) db).1 = Ok r -> t (we_tick en) db = (Ok r, (world_exec en _ (WTx t) db).2).
Proof.
  cbn. destruct (we_fault en); [|done..]. unfold atomically. destruct (t (we_tick en) db) as [[r'|e] db'] eqn:E; [|done].
  cbn. by intros [= ->].
Qed.

Lemma quiet_wp {B} P (p : wprog B) s : quiet P p -> wwp p (fun d r => world_grows s d /\ P r) s.
Proof.
  intros Hq. enough (H : forall s0, world_grows s0 s -> wwp p (fun d r => world_grows s0 d /\ P r) s) by by apply H.
  revert s. induction Hq as [b Hb|A c k Hc Hk IH]; intros s s0 Hs; cbn; [done|].
  intros s1 en HR HI _. split; [by apply looks_keeps|]. rewrite looks_still by done. apply IH. by transitivity s.
Qed.

(** One envelope for the command, among those of the others. *)
Definition made (I : EnvelopeIntent -> Prop) (db db' : WDB) (e : Envelope) : Prop :=
  extends db [e] db' /\ exists intent delta, I intent /\ e = next_envelope intent delta db /\
    af_key (md_Primary delta) = (ev_AggregateType e, ev_AggregateID e).

Definition announced (I : EnvelopeIntent -> Prop) (db d : WDB) : Prop := exists db1 e db2,
  world_grows db db1 /\ made I db1 db2 e /\ world_grows db2 d.

Lemma mutate_made {A} I intent (w : wtx (A * MutationDelta)) db r db' :
  world_inv db -> I intent -> described nobody w -> names_primary intent w -> mutate_tx intent w db = (Ok r, db') ->
  world_inv db' /\ made I db db' (next_envelope intent r.2 db).
Proof.
  intros HI Hi Hd Hn H. destruct (mutate_tx_Ok _ _ _ _ _ HI Hd H) as [HI' He]. split; [done|]. split; [done|].
  exists intent, r.2. split_and!; [done|done|]. unfold mutate_tx in H. apply txn_bind_Ok in H as ([a d] & ? & Hw & H).
  apply txn_bind_Ok in H as (? & ? & _ & [-> _]%mret_Ok). cbn. by eapply Hn.
Qed.

Lemma mutate_keeps {A} intent (w : wtx (A * MutationDelta)) db r db' :
  world_inv db -> described nobody w -> mutate_tx intent w db = (Ok r, db') -> world_keeps db db'.
Proof. intros HI Hd H. destruct (mutate_tx_Ok _ _ _ _ _ HI Hd H) as [HI' He]. by eapply keeps_extends. Qed.

Lemma made_grows I db db' e : made I db db' e -> world_grows db db'.
Proof. intros [He _]. by exists [e]. Qed.

Lemma command_wp {B} I acc ok (p : wprog (result B)) s0 s :
  command I acc ok p -> world_grows s0 s -> wwp p (fun d r => is_ok r = true -> announced I s0 d) s.
Proof.
  intros Hp. revert s. induction Hp as [ok e|ok A c k Hc Hk IH|u a r req k Ha Hreq Ht IH Hf He|A intent w k HI Hd Hn He Ho];
    intros s Hs; [done|..]; intros s1 en HR Hi _.
  - split; [by apply looks_keeps|]. assert (Hposs : possible A c (world_exec en A c s1).1) by (exists en, s1; done).
    rewrite looks_still by done. apply IH; [done|]. by transitivity s.
  - split; [by apply (looks_keeps (WEvaluate req))|]. cbn. destruct (we_decide en req) as [d|e].
    + destruct (IsAllowed d) eqn:Ed; [apply IH; [done|]; by transitivity s|].
      eapply rg_wp_mono; [|apply quiet_wp, Hf; done]. intros x y [_ Hy]. by rewrite Hy.
    + eapply rg_wp_mono; [|apply quiet_wp, He; done]. intros x y [_ Hy]. by rewrite Hy.
  - split; [apply tx_keeps; [done|]; intros; by eapply mutate_keeps|].
    destruct ((world_exec en _ (WTx (fun tk => mutate_tx intent (w tk))) s1).1) as [r|e] eqn:E.
    + apply tx_answers in E. destruct (mutate_made I _ _ _ _ _ Hi HI (Hd _) (Hn _) E) as [_ Hm].
      eapply rg_wp_mono; [|apply quiet_wp, Ho]. intros x y [Hx _] _. do 3 eexists. split; [|split; [exact Hm|exact Hx]].
      by transitivity s.
    + eapply rg_wp_mono; [|apply quiet_wp, He; done]. intros x y [_ Hy]. by rewrite Hy.
Qed.

(** ** The other requests *)
Definition whatever {B} (b : B) : Prop := True.

Lemma quiet_access u a r prefix : quiet whatever (checkAccess u a r prefix).
Proof.
  unfold checkAccess. destruct (NewAccessRequest u a r ∅); [|by constructor].
  unfold mbind, prog_mbind, call. cbn. apply quiet_look; [done|]. intros [d|e]; [|by constructor].
  repeat case_match; by constructor.
Qed.

Lemma quiet_unless {B} c e (k : wprog (result B)) : quiet whatever k -> quiet whatever (unless c e k).
Proof. intros H. unfold unless. destruct c; [done|by constructor]. Qed.

Lemma quiet_try {A B} (m : wprog (result A)) h (k : A -> wprog (result B)) :
  quiet whatever m -> (forall e, quiet whatever (h e)) -> (forall a, quiet whatever (k a)) -> quiet whatever (try_ m h k).
Proof. intros Hm Hh Hk. eapply quiet_bind; [exact Hm|]. by intros []. Qed.

Lemma quiet_read {A} (f : Tick -> WDB -> result A) : quiet whatever (call (WRead f)).
Proof. apply quiet_look; [done|]. intros. by constructor. Qed.

Ltac quiet_step := first
  [ apply quiet_unless | apply quiet_access | apply quiet_read | apply quiet_try; [|intros|intros] | by constructor ].

Lemma quiet_properties u l : quiet whatever (visible_properties u l).
Proof.
  induction l as [|p l IH]; cbn; [by constructor|]. eapply quiet_bind; [apply quiet_access|].
  intros [a|e] _; [by repeat quiet_step|]. destruct (error_Is _ _); [done|by constructor].
Qed.

Definition reads (rq : request) : bool :=
  match rq with
  | RqGetLocation _ _ | RqFindLocationByName _ _ | RqGetExit _ _ | RqGetExitsByLocation _ _ | RqGetObject _ _
  | RqGetObjectsByLocation _ _ | RqGetCharacter _ _ | RqGetCharactersByLocation _ _ _ _ | RqListPropertiesByParent _ _ _ => true
  | _ => false
  end.

Lemma reads_quiet s rq : reads rq = true -> quiet whatever (handle s rq).
Proof.
  destruct rq; cbn [reads]; intros H; try done; clear H; cbn [handle]; unfold answering; (apply quiet_try; [|by constructor|by constructor]);
    unfold GetLocation, FindLocationByName, GetExit, GetExitsByLocation, GetObject, GetObjectsByLocation, GetCharacter,
      GetCharactersByLocation, ListPropertiesByParent; repeat quiet_step. apply quiet_properties.
Qed.

Lemma wp_tx {A} (t : Tick -> wtx A) (Q : WDB -> result A -> Prop) s :
  (forall s1 tk r db', world_grows s s1 -> world_inv s1 -> t tk s1 = (Ok r, db') -> world_keeps s1 db' /\ Q db' (Ok r)) ->
  (forall d e, Q d (Err e)) -> wwp (call (WTx t)) Q s.
Proof.
  intros Ht He. apply wp_call. intros s1 en HR HI _. split.
  - apply tx_keeps; [done|]. intros tk r db' H. by eapply Ht.
  - destruct ((world_exec en _ (WTx t) s1).1) as [r|e] eqn:E; [|apply He]. apply tx_answers in E. by eapply Ht.
Qed.

Lemma wp_id (Q : WDB -> ULID -> Prop) s :
  (forall d i, world_grows s d -> Q d i) -> wwp (call WNewID) Q s.
Proof. intros H. apply wp_call. intros s1 en HR HI _. split; [by apply (looks_keeps WNewID)|by apply H]. Qed.

Lemma wp_read {A} (f : Tick -> WDB -> result A) (Q : WDB -> result A -> Prop) s :
  (forall d tk a, world_grows s d -> world_inv d -> f tk d = Ok a -> Q d (Ok a)) -> (forall d e, world_grows s d -> Q d (Err e)) ->
  wwp (call (WRead f)) Q s.
Proof.
  intros H He. apply wp_call. intros s1 en HR HI _. split; [by apply (looks_keeps (WRead f))|]. cbn.
  destruct (we_fault en); [|by apply He..]. destruct (f (we_tick en) s1) eqn:E; [by eapply H|by apply He].
Qed.

Lemma wseq {A B} (p : wprog A) (k : A -> wprog B) P Q s :
  wwp p P s -> (forall d a, world_grows s d -> P d a -> wwp (k a) Q d) -> wwp (p ≫= k) Q s.
Proof. apply rg_wp_seq, _. Qed.

Lemma wtry {A B} (p : wprog (result A)) h (k : A -> wprog B) P Q s :
  wwp p (on_Ok P) s -> (forall e d, wwp (h e) Q d) -> (forall d a, world_grows s d -> P d a -> wwp (k a) Q d) ->
  wwp (try_ p h k) Q s.
Proof. apply rg_seq_try, _. Qed.

(** *** Creation of a character *)
Definition genesis_fits (c : Character) (i : EnvelopeIntent) : Prop :=
  in_GameID i = genesisGameID /\ in_Kind i = "character_genesis" /\ in_Actor i = ch_PlayerID c /\
  in_AggregateType i = AggregateCharacter /\ in_AggregateID i = ch_ID c /\ in_Payload i = characterGenesisPayload c.

Lemma genesis_tx_primary tk intent c reason db r db' :
  genesis_tx tk intent c reason db = (Ok r, db') -> af_key (md_Primary r.2) = (AggregateCharacter, ch_ID c).
Proof.
  unfold genesis_tx. intros H. apply txn_bind_Ok in H as (? & ? & _ & H).
  apply txn_bind_Ok in H as ([c' d] & ? & Hc%wrap_code_Ok & H). apply txn_bind_Ok in H as (? & ? & _ & H).
  apply txn_bind_Ok in H as (? & ? & _ & [-> _]%mret_Ok). unfold character_Create in Hc. tx_all. done.
Qed.

Lemma CharacterGenesis_wp c reason s :
  wwp (CharacterGenesis_Create (Some c) reason) (fun d r => is_ok r = true -> announced (genesis_fits c) s d) s.
Proof.
  unfold CharacterGenesis_Create. apply (wseq _ _ (fun d _ => world_grows s d)); [by apply wp_id|]. intros d0 i _ H0.
  apply (wtry _ _ _ (fun d _ => announced (genesis_fits c) s d)); [|done|by intros d r _ H _].
  apply wp_tx; [|done]. intros s1 tk r db' HR HI H. pose proof H as (HI' & He & _)%genesis_tx_Ok; [|done].
  split; [by eapply keeps_extends|]. cbn. do 3 eexists. split; [by transitivity d0|]. split; [|reflexivity].
  split; [exact He|]. do 2 eexists. split; [|split; [reflexivity|by eapply genesis_tx_primary]]. by split_and!.
Qed.

(** *** Reaping of a guest *)
Lemma marked_shrinks p c db db' :
  world_grows db db' -> marked db p -> marked db' p /\ (owned_by db p c = false -> owned_by db' p c = false).
Proof.
  intros [evs He] Hm. split; [by apply (ex_marked _ _ _ He)|]. rewrite <- !not_true_iff_false. intros Hn Ho.
  apply Hn. by apply (ex_owned _ _ _ He).
Qed.

(** Every character the player has is among [cs]. *)
Definition covers (p : ULID) (cs : list Character) (db : WDB) : Prop :=
  marked db p /\ forall c, owned_by db p c = true -> c ∈ map ch_ID cs.

Lemma covers_grows p cs db db' : world_grows db db' -> covers p cs db -> covers p cs db'.
Proof.
  intros Hg [Hm Hc]. split; [by apply (marked_shrinks p EmptyString _ _ Hg)|]. intros c Ho. apply Hc.
  destruct (marked_shrinks p c _ _ Hg Hm) as [_ H]. destruct (owned_by db p c); [done|]. by rewrite H in Ho.
Qed.

Lemma reapCharacter_wp p c cs s :
  covers p (c :: cs) s -> wwp (reapCharacter c) (on_Ok (fun d _ => covers p cs d)) s.
Proof.
  intros Hc. unfold reapCharacter. apply (wseq _ _ (fun d _ => world_grows s d)); [by apply wp_id|]. intros d0 i _ H0.
  apply (wtry _ _ _ (fun d _ => covers p cs d)); [|done|by intros].
  apply wp_tx; [|done]. intros s1 _ r db' HR HI H. apply reap_tx_Ok in H as (HI' & He & Hgone); [|done].
  assert (Hg : world_grows s1 db') by (eexists; exact He). split; [by split|]. cbn.
  apply (covers_grows p (c :: cs) s db') in Hc as [Hm Hc]; [|by transitivity d0; [|transitivity s1]].
  split; [done|]. intros x Ho. specialize (Hc _ Ho). cbn in Hc. apply elem_of_cons in Hc as [->|]; [|done].
  unfold owned_by in Ho. by rewrite Hgone in Ho.
Qed.

Lemma reap_all_wp p cs s :
  covers p cs s -> wwp (reap_all cs) (on_Ok (fun d _ => covers p [] d)) s.
Proof.
  revert s. induction cs as [|c cs IH]; intros s Hc; cbn [reap_all]; [done|].
  apply (wtry _ _ _ (fun d _ => covers p cs d)); [by apply reapCharacter_wp|done|]. intros d _ _ Hd. by apply IH.
Qed.

(** The player is gone, and with it its characters. *)
Definition reaped (p : ULID) (db : WDB) : Prop := p ∈ db_gone db.

Lemma DeleteGuestPlayer_wp p s : wwp (DeleteGuestPlayer p) (on_Ok (fun d _ => reaped p d)) s.
Proof.
  unfold DeleteGuestPlayer. apply (wtry _ _ _ (fun d _ => marked d p)); [|done|].
  { apply wp_tx; [|done]. intros s1 tk u db' _ HI (HI' & He & Hm)%MarkReaping_Ok; [|done]. split; [by eapply keeps_extends|done]. }
  intros d _ _ Hm. apply (wtry _ _ _ (fun d cs => covers p cs d)); [|done|].
  { apply wp_read; [|done]. intros d1 _ cs Hg HI [= <-]. cbn. split; [by eapply (marked_shrinks p EmptyString)|].
    intros c Ho. apply list_elem_of_fmap. unfold owned_by in Ho. destruct (db_characters d1 !! c) as [r|] eqn:E; [|done].
    exists (cr_char r). split; [symmetry; by eapply rows_ok_character; [apply HI|]|]. apply elem_of_order_by, list_elem_of_fmap.
    exists (c, r). split; [done|]. by apply rows_where_elem. }
  intros d1 cs _ Hc. apply (wtry _ _ _ (fun d _ => covers p [] d)); [by apply reap_all_wp|done|].
  intros d2 _ _ Hc2. apply (wtry _ _ _ (fun d _ => reaped p d)); [|done|by intros].
  apply wp_tx; [|done]. intros s1 _ u db' Hg HI H. pose proof (covers_grows _ _ _ _ Hg Hc2) as [_ Hno].
  assert (Hno' : forall c, owned_by s1 p c = false).
  { intros c. apply not_true_iff_false. intros Ho. specialize (Hno _ Ho). set_solver. }
  pose proof H as [HI' He]%player_DeleteGuestPlayer_Ok; [|done|done]. split; [by eapply keeps_extends|]. cbn.
  unfold player_DeleteGuestPlayer in H. apply read_first in H. destruct (db_players s1 !! p) as [[[] t]|]; [|done..].
  apply wrap_code_Ok in H. unfold delete_player in H. apply read_first in H. tx_all. unfold reaped. cbn. set_solver.
Qed.

(** ** The relay *)
Lemma wp_quiet_true {B} (p : wprog B) (Q : WDB -> B -> Prop) s :
  quiet (fun _ => True) p -> (forall d b, world_grows s d -> Q d b) -> wwp p Q s.
Proof. intros Hq HQ. eapply rg_wp_mono; [|by apply quiet_wp]. intros d b [Hg _]. by apply HQ. Qed.

Lemma quiet_ask {B} (h : error -> wprog B) (k : unit -> wprog B) P :
  (forall e, quiet P (h e)) -> (forall u, quiet P (k u)) -> quiet P (try_ ask h k).
Proof. intros Hh Hk. apply quiet_look; [done|]. intros [u|e]; [apply Hk|apply Hh]. Qed.

Lemma ctx_Err_quiet : quiet (fun _ => True) ctx_Err.
Proof. apply quiet_ask; intros; by constructor. Qed.

Lemma sleep_quiet n : quiet (fun _ => True) (sleepWithBackoff n).
Proof. eapply quiet_bind; [apply ctx_Err_quiet|]. intros [] _; by constructor. Qed.

Lemma alive_quiet : quiet (fun _ => True) alive.
Proof. apply quiet_ask; intros; by constructor. Qed.

(** A step that only looks, and then [Ok]. *)
Lemma wlook {A B} (p : wprog (result A)) h (k : A -> wprog B) Q s :
  quiet (fun _ => True) p -> (forall e d, world_grows s d -> wwp (h e) Q d) ->
  (forall d a, world_grows s d -> wwp (k a) Q d) -> wwp (try_ p h k) Q s.
Proof.
  intros Hq Hh Hk. eapply wseq; [apply wp_quiet_true; [exact Hq|by intros; exact I]|]. intros d [a|e] Hg _; [by apply Hk|by apply Hh].
Qed.

Lemma acquireLease_wp r s : wwp (acquireLease r) (fun _ _ => True) s.
Proof.
  unfold acquireLease, AcquireLease. apply (wtry _ _ _ (fun _ _ => True)); [|done|done].
  apply wlook; [apply quiet_look; [done|by constructor]|done|]. intros d _ _.
  apply wlook; [apply quiet_look; [done|by constructor]|done|]. intros d1 _ _.
  apply (wtry _ _ _ (fun _ _ => True)); [|done|done]. apply wp_tx; [|done].
  intros s1 tk n db' _ HI H. split; [by eapply bump_generation_keeps|done].
Qed.

Lemma dropLease_wp r s : wwp (dropLease r) (fun _ r' => rl_cfg r' = rl_cfg r) s.
Proof.
  unfold dropLease. destruct (rl_lease r) as [l|]; [|done]. eapply wseq; [|intros d u _ _; reflexivity].
  apply wp_quiet_true; [|by intros; exact I]. apply quiet_look; [done|by constructor].
Qed.

(** Due now, or before. *)
Definition was_due (e : Envelope) (s : WDB) : Prop := exists s0, world_inv s0 /\ due e s0 /\ world_grows s0 s.

Lemma was_due_grows e s s' : world_grows s s' -> was_due e s -> was_due e s'.
Proof. intros Hg (s0 & HI & Hd & Hg0). exists s0. split_and!; [done|done|by transitivity s]. Qed.

Lemma was_due_due e s : was_due e s -> due e s.
Proof. intros (s0 & HI & Hd & Hg). by eapply due_grows. Qed.

Lemma on_wire_world_grows e s s' : world_grows s s' -> on_wire (db_wire s) e -> on_wire (db_wire s') e.
Proof. intros [evs Hx]. eapply on_wire_grows, ex_wire, Hx. Qed.

Lemma NextUnpublished_wp l s : wwp (NextUnpublished l) (on_Ok (fun d o => forall e, o = Some e -> was_due e d)) s.
Proof.
  unfold NextUnpublished. apply wlook; [apply alive_quiet|done|]. intros d _ _.
  apply (wtry _ _ _ (fun d o => forall e, o = Some e -> was_due e d)); [|done|done].
  apply wp_read; [|done]. intros d1 tk o _ HI [= <-] e He. exists d1. split_and!; [done|by eapply next_unpublished_due|reflexivity].
Qed.

Lemma Publish_wp now e v s :
  was_due e s -> EnvelopeToEvent now e = Ok v -> wwp (Publish v) (on_Ok (fun d _ => on_wire (db_wire d) e)) s.
Proof.
  intros Hd Hv. apply wp_tx; [|done]. intros s1 _ u db' Hg HI H%write_Ok. subst. split.
  - eapply publish_keeps; [done| |done]. by eapply was_due_due, was_due_grows.
  - exists v, now. split; [cbn; set_solver|done].
Qed.

Lemma publish_attempts_wp max left now e v s :
  was_due e s -> EnvelopeToEvent now e = Ok v -> left <> O ->
  wwp (publish_attempts max left v) (on_Ok (fun d _ => on_wire (db_wire d) e)) s.
Proof.
  intros Hd Hv. revert s Hd. induction left as [|left IH]; intros s Hd Hn; [done|]. cbn [publish_attempts].
  apply wlook; [apply ctx_Err_quiet|done|]. intros d _ Hg. pose proof (was_due_grows _ _ _ Hg Hd) as Hd1.
  eapply wseq; [by eapply Publish_wp|]. intros d' [u|err] Hg' Hr; [done|].
  destruct (isPermanentPublishErr err); [done|]. destruct left as [|left']; [done|].
  apply wlook; [apply sleep_quiet|done|]. intros d2 _ Hg2. apply IH; [|done].
  eapply was_due_grows, Hd1. by transitivity d'.
Qed.

Lemma MarkPublished_wp l e s :
  was_due e s -> on_wire (db_wire s) e -> wwp (MarkPublished l (ev_EventID e) (ls_generation l)) (fun _ _ => True) s.
Proof.
  intros Hd Hon. unfold MarkPublished. apply wlook; [apply alive_quiet|done|]. intros d _ Hg.
  apply wlook; [apply quiet_look; [done|by constructor]|done|]. intros d1 n Hg1. destruct (negb _); [done|].
  apply (wtry _ _ _ (fun _ _ => True)); [|done|done]. apply wp_tx; [|done]. intros s1 tk u db' Hg2 HI H.
  assert (Hgs : world_grows s s1) by (transitivity d; [|transitivity d1]; done). split; [|done].
  eapply set_published_keeps; [done| | |exact H].
  - apply (was_due_due e s1). by eapply was_due_grows.
  - by eapply on_wire_world_grows.
Qed.

Lemma publishOne_wp cfg l e s :
  0 < rc_MaxPublishAttempts cfg -> was_due e s -> wwp (publishOne cfg l e) (fun _ _ => True) s.
Proof.
  intros Hmax Hd. unfold publishOne. eapply wseq; [apply wp_quiet_true; [apply quiet_look; [done|by constructor]|by intros; exact I]|].
  intros d now Hg _. destruct (EnvelopeToEvent now e) as [v|err] eqn:Hv; [|done].
  pose proof (was_due_grows _ _ _ Hg Hd) as Hd1.
  apply (wtry _ _ _ (fun d _ => on_wire (db_wire d) e)); [eapply publish_attempts_wp; [done|done|lia]|done|].
  intros d2 _ Hg2 Hon. eapply wseq; [apply MarkPublished_wp; [by eapply was_due_grows|done]|].
  intros d3 [u|err] _ _; [done|]. by destruct (IsStaleLease err).
Qed.

Lemma drain_loop_wp fuel r l n s :
  0 < rc_MaxPublishAttempts (rl_cfg r) -> wwp (drain_loop fuel r l n) (fun _ _ => True) s.
Proof.
  revert r l n s. induction fuel as [|fuel IH]; intros r l n s Hmax; [done|]. cbn [drain_loop].
  assert (Hre : forall r' n s, rl_cfg r' = rl_cfg r -> wwp (reacquire (drain_loop fuel) r' n) (fun _ _ => True) s).
  { intros r' n' s' Hc. unfold reacquire. eapply wseq; [apply dropLease_wp|]. intros d r2 _ Hr2.
    apply (wtry _ _ _ (fun _ _ => True)); [|done|].
    - unfold ensureLease. destruct (rl_lease r2); [done|]. eapply rg_wp_mono; [|apply acquireLease_wp]. by intros d0 [].
    - intros d2 l2 _ _. apply IH. cbn. by rewrite Hr2, Hc. }
  unfold drain_step. apply wlook; [apply ctx_Err_quiet|done|]. intros d _ Hg.
  apply (wtry _ _ _ (fun d o => forall e, o = Some e -> was_due e d)); [apply NextUnpublished_wp| |].
  - intros e d'. destruct (IsStaleLease e); [by apply Hre|done].
  - intros d2 o Hg2 Ho. destruct (rl_halted r && _); [done|]. destruct o as [env|]; [|done].
    set (r' := if rl_halted r then clearHalt r else r). assert (Hc : rl_cfg r' = rl_cfg r) by (unfold r'; by destruct (rl_halted r)).
    eapply wseq; [apply publishOne_wp; [by rewrite Hc|by apply Ho]|]. intros d3 [u|e] _ _; [apply IH; by rewrite Hc|].
    destruct (IsStaleLease e); [by apply Hre|]. by destruct (error_Is _ e).
Qed.

Lemma Drain_wp fuel r s : 0 < rc_MaxPublishAttempts (rl_cfg r) -> wwp (Drain fuel r) (fun _ _ => True) s.
Proof.
  intros Hmax. unfold Drain. apply (wtry _ _ _ (fun _ _ => True)); [|done|].
  - unfold ensureLease. destruct (rl_lease r); [done|]. eapply rg_wp_mono; [|apply acquireLease_wp]. by intros d [].
  - intros d l _ _. by apply drain_loop_wp.
Qed.

Lemma NewRelay_attempts cfg : 0 < rc_MaxPublishAttempts (rl_cfg (NewRelay cfg)).
Proof. cbn. destruct (Z.leb_spec (rc_MaxPublishAttempts cfg) 0); unfold defaultMaxPublishAttempts; lia. Qed.

(** ** The machine *)
Lemma ResetEpoch_wp g s : wwp (ResetEpoch g) (fun _ _ => True) s.
Proof.
  unfold ResetEpoch. apply (wtry _ _ _ (fun _ _ => True)); [|done|done]. apply wp_tx; [|done].
  intros s1 tk r db' _ HI [HI' He]%AdvanceEpoch_Ok; [|done]. split; [by eapply keeps_extends|done].
Qed.

Lemma request_safe s rq db : safe world_exec anytime world_inv world_grows db (handle s rq).
Proof.
  destruct (announces rq) as [an|] eqn:Ha.
  { eapply wp_safe, command_wp; [by apply handle_command|reflexivity]. }
  destruct (reads rq) eqn:Hr; [eapply wp_safe, quiet_wp; by apply reads_quiet|].
  destruct rq; try done; cbn [handle]; apply (wtry _ _ _ (fun _ _ => True)); try done.
  - destruct char as [c|]; [|done]. eapply rg_wp_mono; [|apply CharacterGenesis_wp]. by intros d [].
  - eapply rg_wp_mono; [|apply DeleteGuestPlayer_wp]. by intros d [].
  - eapply rg_wp_mono; [|apply ResetEpoch_wp]. by intros d [].
Qed.

(** What the rest of the system does to these tables: players register under
    identifiers no player ever had. *)
Inductive elsewhere_step : WDB -> WDB -> Prop :=
| registers db p r :
    db_players db !! p = None -> p ∉ db_gone db -> elsewhere_step db (set_players (<[p := r]> (db_players db)) db).

Lemma elsewhere_keeps db db' : world_inv db -> elsewhere_step db db' -> world_keeps db db'.
Proof.
  intros [Hr Hf Hwi Hg] Hs. destruct Hs as [db p r Hp Hn].
  eapply keeps_extends; [split|apply extends_quiet; try done; [intros; constructor|]].
  - apply (rows_ok_players db); [done| |done]. cbn. intros k x q _ _ Hq. destruct (decide (q = p)) as [->|]; [rewrite lookup_insert_eq; eauto|].
    by rewrite lookup_insert_ne.
  - destruct Hf as [A B C D]. by split.
  - by eapply wire_ok_ext; [..|exact Hwi].
  - cbn. intros q Hq. rewrite lookup_insert_ne by (intros ->; done). auto.
  - intros q Hq. unfold marked in *. cbn. destruct (decide (q = p)) as [->|]; [by rewrite Hp in Hq|]. by rewrite lookup_insert_ne.
Qed.

(** A pass of a relay made by [NewRelay], whatever lease and halt it has come to. *)
Definition passes (p : wprog unit) : Prop := exists cfg r fuel, rl_cfg r = rl_cfg (NewRelay cfg) /\ p = forget (Drain fuel r).

Definition world_serves (s : Service) (p : wprog unit) : Prop := (exists rq, p = serve s rq) \/ passes p.

(** Any number of requests and of relays, their calls interleaved, any of them cut off
    between two calls, with the rest of the system beside them. *)
Abbreviation world_step s := (mstep world_exec anytime (world_serves s) elsewhere_step).

Lemma world_serves_safe s p db : world_serves s p -> world_inv db -> safe world_exec anytime world_inv world_grows db p.
Proof.
  intros [[rq ->]|(cfg & r & fuel & Hc & ->)] _; unfold serve, forget; apply (wseq _ _ (fun _ _ => True)); try done.
  - apply request_safe.
  - apply Drain_wp. rewrite Hc. apply NewRelay_attempts.
Qed.

Lemma world_run_sound s m m' :
  rtc (world_step s) m m' -> sound world_exec anytime world_inv world_grows m ->
  sound world_exec anytime world_inv world_grows m' /\ world_grows (m_state m) (m_state m').
Proof. apply run_sound; [apply _|intros; by eapply world_serves_safe|apply elsewhere_keeps]. Qed.

Lemma idle_sound db : world_inv db -> sound world_exec anytime world_inv world_grows (mkMachine db []).
Proof. by split. Qed.

(** One request run to its end among the others. *)
Abbreviation world_runs s := (runs world_exec anytime (world_serves s) elsewhere_step).

Lemma world_runs_wp s {B} (p : wprog B) Q db b m' :
  world_runs s p (mkMachine db []) b m' -> world_inv db -> wwp p Q db ->
  world_inv (m_state m') /\ world_grows db (m_state m') /\ Q (m_state m') b.
Proof.
  intros Hr HI Hp. eapply runs_wp in Hr as ([HI' _] & HR & HQ); [by split|apply _|intros; by eapply world_serves_safe|apply elsewhere_keeps|
    by apply idle_sound|exact Hp].
Qed.

(** ** Commands alone *)
Definition not_lost (en : wenv) : Prop := forall e, we_fault en <> Lost e.

Abbreviation wends := (ends world_exec world_inv world_grows not_lost).

Lemma quiet_ends {B} P (p : wprog B) s : quiet P p -> wends p (fun d r => d = s /\ P r) s.
Proof.
  intros Hq. induction Hq as [b Hb|A c k Hc Hk IH]; cbn; [done|]. intros en _ _. rewrite looks_still by done. apply IH.
Qed.

(** A transaction whose answer is not lost has an effect exactly when it succeeds. *)
Lemma tx_refused {A} (t : Tick -> wtx A) en db e :
  not_lost en -> (world_exec en _ (WTx t) db).1 = Err e -> (world_exec en _ (WTx t) db).2 = db.
Proof.
  intros Hn. cbn. destruct (we_fault en) as [|e'|e'] eqn:E; [|done|by destruct (Hn e' E)].
  unfold atomically. by destruct (t (we_tick en) db) as [[] ?].
Qed.

Definition atomic (I : EnvelopeIntent -> Prop) (db : WDB) (d : WDB) {B} (r : result B) : Prop :=
  match r with Ok _ => exists e, made I db d e | Err _ => d = db end.

Lemma command_ends {B} I acc ok (p : wprog (result B)) s :
  command I acc ok p -> world_inv s -> wends p (fun d r => atomic I s d r) s.
Proof.
  intros Hp Hi. induction Hp as [ok e|ok A c k Hc Hk IH|u a r req k Ha Hreq Ht IH Hf He|A intent w k HI Hd Hn He Ho];
    [done|..]; intros en Hen _.
  - assert (Hposs : possible A c (world_exec en A c s).1) by (exists en, s; done). rewrite looks_still by done. by apply IH.
  - assert (Hno : forall k' : wprog (result B), quiet (fun r => is_ok r = false) k' -> wends k' (fun d r => atomic I s d r) s).
    { intros k' Hq. eapply ends_mono; [|apply quiet_ends, Hq]. intros d [y|e] [-> Hy]; [done|reflexivity]. }
    cbn. destruct (we_decide en req) as [d|e]; [|by apply Hno]. destruct (IsAllowed d) eqn:Ed; [by apply IH|by apply Hno, Hf].
  - destruct ((world_exec en _ (WTx (fun tk => mutate_tx intent (w tk))) s).1) as [r|e] eqn:E.
    + apply tx_answers in E. destruct (mutate_made I _ _ _ _ _ Hi HI (Hd _) (Hn _) E) as [_ Hm].
      eapply ends_mono; [|apply quiet_ends, Ho]. intros d [y|e] [-> Hy]; [by eexists|done].
    + rewrite (tx_refused _ _ _ _ Hen E). eapply ends_mono; [|apply quiet_ends, He]. intros d [y|e'] [-> Hy]; [done|reflexivity].
Qed.

(** ** Permits *)
Definition permitted (acc : option (string * string * string)) (h : list (answered wcall)) : Prop :=
  forall u a r, acc = Some (u, a, r) -> exists req d,
    NewAccessRequest u a r ∅ = Ok req /\ Answered (WEvaluate req) (Ok d) ∈ h /\ IsAllowed d = true.

(** A transaction comes after the permit. *)
Definition after_permit acc (h : list (answered wcall)) (e : answered wcall) : Prop :=
  match e with Answered c _ => looks c \/ permitted acc h end.

Lemma quiet_gated {B} P acc h (p : wprog B) : quiet P p -> gated possible (after_permit acc) (fun _ _ => True) h p.
Proof. intros Hq. revert h. induction Hq as [b Hb|A c k Hc Hk IH]; intros h; cbn; [done|]. intros a _. split; [by left|apply IH]. Qed.

Lemma command_gated {B} I acc ok (p : wprog (result B)) h :
  command I acc ok p -> (ok = true -> permitted acc h) -> gated possible (after_permit acc) (fun _ _ => True) h p.
Proof.
  intros Hp. revert h. induction Hp as [ok e|ok A c k Hc Hk IH|u a r req k Ha Hreq Ht IH Hf He|A intent w k HI Hd Hn He Ho];
    intros h Hh; [done|..]; intros x Hx.
  - split; [by left|]. apply IH; [done|]. intros Hok u a r Hacc. destruct (Hh Hok _ _ _ Hacc) as (req & d & H1 & H2 & H3).
    exists req, d. split_and!; [done|set_solver|done].
  - split; [by left|]. destruct x as [d|e]; [|eapply quiet_gated, He]. destruct (IsAllowed d) eqn:Ed; [|eapply quiet_gated, Hf; done].
    apply IH; [done|]. intros _ u' a' r' Hacc. simplify_eq. exists req, d. split_and!; [done|set_solver|done].
  - split; [right; by apply Hh|]. destruct x as [d|e]; eapply quiet_gated; [apply Ho|apply He].
Qed.

(** ** Containment

    [nested os x y n]: [x] is in [y], [n] levels down. *)
Inductive nested (os : gmap ULID Object) : ULID -> ULID -> nat -> Prop :=
| nested_here x : nested os x x 0
| nested_in x o p y n : os !! x = Some o -> obj_containedInObjectID o = Some p -> nested os p y n -> nested os x y (S n).

Definition acyclic (os : gmap ULID Object) : Prop := forall x n, ~ nested os x x (S n).

Lemma nested_trans os x y z n m : nested os x y n -> nested os y z m -> nested os x z (n + m).
Proof. induction 1; intros; cbn; [done|]. econstructor; eauto. Qed.

Lemma nested_last os x y n : nested os x y (S n) -> exists z o, nested os x z n /\ os !! z = Some o /\ obj_containedInObjectID o = Some y.
Proof.
  revert x. induction n as [|n IH]; intros x H; inversion H as [|? o p ? ? Ho Hp Hn]; subst.
  - inversion Hn; subst. exists x, o. split_and!; [constructor|done|done].
  - destruct (IH _ Hn) as (z & o' & Hz & Ho' & Hp'). exists z, o'. split; [|done]. by econstructor.
Qed.

(** The query up a chain sees it, up to its depth. *)
Lemma chain_length os d x y n :
  nested os x y n -> is_Some (os !! y) -> (Nat.min (S n) d <= length (containment_chain d os x))%nat.
Proof.
  revert x n. induction d as [|d IH]; intros x n Hn [oy Hy]; [lia|]. cbn [containment_chain].
  destruct Hn as [x|x o p y n Ho Hp Hn].
  - rewrite Hy. cbn [length]. lia.
  - rewrite Ho, Hp. cbn [length]. specialize (IH p n Hn ltac:(eauto)). lia.
Qed.

Lemma chain_finds os d x y n :
  nested os x y (S n) -> (n < d)%nat -> existsb (fun o => points (obj_containedInObjectID o) y) (containment_chain d os x) = true.
Proof.
  revert x n. induction d as [|d IH]; intros x n Hn Hd; [lia|]. cbn. inversion Hn as [|? o p ? ? Ho Hp Hn']; subst.
  rewrite Ho. cbn. rewrite Hp. destruct n as [|n].
  - inversion Hn'; subst. unfold points. by rewrite bool_decide_eq_true_2.
  - rewrite (IH p n) by (done || lia). apply orb_true_r.
Qed.

(** The query down sees the levels below, up to its depth. *)
Lemma descendant_depth_pos os d level : 0 <= descendant_depth d os level.
Proof. revert level. induction d as [|d IH]; intros level; cbn; [lia|]. destruct (children os level) as [|c l]; [lia|]. specialize (IH (c :: l)). lia. Qed.

Lemma descendants_seen os d level x y n :
  nested os x y n -> y ∈ level -> Z.of_nat (Nat.min n d) <= descendant_depth d os level.
Proof.
  revert level y n. induction d as [|d IH]; intros level y n Hn Hy; cbn [descendant_depth]; [lia|].
  destruct n as [|n]; [pose proof (descendant_depth_pos os (S d) level) as H; cbn [descendant_depth] in H; lia|].
  apply nested_last in Hn as (z & o & Hz & Ho & Hp).
  assert (Hc : z ∈ children os level).
  { unfold children. apply list_elem_of_fmap. exists (z, o). split; [done|]. apply rows_where_elem. split; [done|].
    rewrite Hp. by apply str_mem_spec. }
  specialize (IH (children os level) z n Hz Hc). destruct (children os level) eqn:E; [set_solver|]. lia.
Qed.

(** Moving one object: the ways up lead as before, or through it to its new place. *)
Section Moved.
Context (os : gmap ULID Object) (id : ULID) (o : Object) (to : option ULID) (Ho : obj_containedInObjectID o = to).

Lemma nested_moved x y n : nested (<[id := o]> os) x y n ->
  nested os x y n \/ exists c n1 n2, to = Some c /\ nested os x id n1 /\ nested (<[id := o]> os) c y n2 /\ n = (n1 + S n2)%nat.
Proof.
  induction 1 as [x|x ox p y n Hx Hp Hn IH]; [left; constructor|]. destruct (decide (x = id)) as [->|Hne].
  - rewrite lookup_insert_eq in Hx. injection Hx as <-. right. exists p, 0%nat, n. split_and!; [congruence|constructor|done|done].
  - rewrite lookup_insert_ne in Hx by done. destruct IH as [IH|(c & n1 & n2 & Hto & H1 & H2 & ->)].
    + left. by econstructor.
    + right. exists c, (S n1), n2. split_and!; [done|by econstructor|done|lia].
Qed.

Lemma acyclic_moved : acyclic os -> (forall c n, to = Some c -> ~ nested os c id n) -> acyclic (<[id := o]> os).
Proof.
  intros Ha Hc x n [H|(c & n1 & n2 & Hto & H1 & H2 & _)]%nested_moved; [by eapply Ha|].
  apply nested_moved in H2 as [H2|(c' & n1' & n2' & Hto' & H2 & _)].
  - eapply (Hc c); [done|]. by eapply nested_trans.
  - rewrite Hto in Hto'. injection Hto' as <-. by eapply (Hc c).
Qed.
End Moved.

Lemma checkCircular_Ok id c db :
  checkCircularContainmentTx id c db = (Ok tt, db) ->
  id <> c /\ existsb (fun o => points (obj_containedInObjectID o) id) (containment_chain maxCTERecursionDepth (db_objects db) c) = false.
Proof.
  unfold checkCircularContainmentTx. intros H. apply read_first in H. destruct (String.eqb id c) eqn:E; [done|].
  apply String.eqb_neq in E. by destruct (existsb _ _).
Qed.

Lemma checkNesting_Ok n id c db o :
  db_objects db !! id = Some o -> checkNestingDepthTx n id c db = (Ok tt, db) ->
  Z.of_nat (length (containment_chain maxCTERecursionDepth (db_objects db) c))
    + descendant_depth maxCTERecursionDepth (db_objects db) [id] + 1 <= n.
Proof.
  intros Ho. unfold checkNestingDepthTx. intros H. apply read_first in H. cbv zeta in H. rewrite Ho in H.
  destruct (n <? _) eqn:E; [done|]. lia.
Qed.

(** What a move checked before placing [id] in [c]: [c] is not in [id], whatever is in
    [id] is at most [D] levels down, whatever [c] is in at most [L] levels up, and the
    three fit. *)
Lemma move_checks n id c db o :
  n <= Z.of_nat maxCTERecursionDepth -> db_objects db !! id = Some o -> is_Some (db_objects db !! c) ->
  checkCircularContainmentTx id c db = (Ok tt, db) -> checkNestingDepthTx n id c db = (Ok tt, db) ->
  (forall k, ~ nested (db_objects db) c id k) /\
  forall x j root k, nested (db_objects db) x id j -> nested (db_objects db) c root k -> is_Some (db_objects db !! root) ->
    Z.of_nat (j + S k) + 1 <= n.
Proof.
  intros Hn Ho [oc Hc] [Hne Hcirc]%checkCircular_Ok Hd. eapply checkNesting_Ok in Hd; [|done].
  pose proof (descendant_depth_pos (db_objects db) maxCTERecursionDepth [id]) as HD.
  split.
  - intros k Hk. pose proof (chain_length _ maxCTERecursionDepth _ _ _ Hk ltac:(eauto)) as HL.
    destruct k as [|k]; [inversion Hk; congruence|]. erewrite chain_finds in Hcirc; [done|exact Hk|lia].
  - intros x j root k Hx Hroot Hs. pose proof (chain_length _ maxCTERecursionDepth _ _ _ Hroot Hs) as HL.
    pose proof (descendants_seen _ maxCTERecursionDepth [id] _ _ _ Hx ltac:(set_solver)) as Hj. lia.
Qed.

(** One move of an object, with nothing written between its queries and its commit:
    containment stays a forest (with a nesting limit of at most 100; the default is 3),
    and if the object is placed in a container, everything in it then has at most [n]
    objects on its way up, itself included.  The two recursive queries that decide this
    stop at depth 100, which is enough: a chain they cut off is longer than the limit
    allows.  Nothing of the kind is claimed of moves at the same time: each locks the
    object and the container only, and two of them can close a cycle. *)
Theorem moves_keep_containment n id to v db d db' :
  rows_ok db -> n <= Z.of_nat maxCTERecursionDepth -> acyclic (db_objects db) ->
  object_Move n id to v db = (Ok d, db') ->
  acyclic (db_objects db') /\
  (is_Some (cn_ObjectID to) -> forall x j root k,
     nested (db_objects db') x id j -> nested (db_objects db') id root k -> is_Some (db_objects db' !! root) ->
     Z.of_nat (j + k) + 1 <= n).
Proof.
  intros HI Hn Ha (o & Ho & _ & _ & Hp%put_object_Ok & Hto)%object_Move_Ok. cbn in Hp.
  rewrite (rows_ok_object _ _ _ HI Ho) in Hp. subst. cbn. set (o' := with_obj _ _ _).
  assert (Ho' : obj_containedInObjectID o' = cn_ObjectID to) by done.
  assert (Ha' : acyclic (<[id := o']> (db_objects db))).
  { eapply acyclic_moved; [exact Ho'|done|]. intros c k Hc. destruct (Hto _ Hc) as (r & Hr & _ & H1 & H2).
    by eapply (move_checks n id c db o). }
  split; [done|]. intros [c Hc] x j root k Hx Hroot Hs. destruct (Hto _ Hc) as (r & Hr & _ & H1 & H2).
  destruct (move_checks n id c db o Hn Ho ltac:(eauto) H1 H2) as [Hno Hfit].
  assert (Hroot' : is_Some (db_objects db !! root)).
  { destruct (decide (root = id)) as [->|]; [eauto|]. by rewrite lookup_insert_ne in Hs. }
  assert (Hx0 : nested (db_objects db) x id j).
  { apply (nested_moved _ _ _ _ Ho') in Hx as [Hx|(c' & n1 & n2 & Hc' & _ & Hx & _)]; [done|]. rewrite Hc in Hc'. injection Hc' as <-.
    destruct (Ha' id n2). eapply nested_in; [apply lookup_insert_eq|by rewrite Ho'|done]. }
  destruct k as [|k].
  { pose proof (Hfit x j c 0%nat Hx0 (nested_here _ _) ltac:(eauto)). lia. }
  inversion Hroot as [|? o0 p ? ? Hl Hp Hup]; subst. rewrite lookup_insert_eq in Hl. injection Hl as <-.
  rewrite Ho', Hc in Hp. injection Hp as <-.
  apply (nested_moved _ _ _ _ Ho') in Hup as [Hup|(c' & n1 & n2 & Hc' & Hup & _)]; [|by destruct (Hno n1)].
  pose proof (Hfit x j root k Hx0 Hup Hroot'). lia.
Qed.

(** ** Edits of what was read before *)

(** What a request makes of a character, and the payload that says so. *)
Definition edit (rq : request) : option (ULID * (char_rec -> char_rec) * (char_rec -> json)) :=
  let next r desc loc prefs := mkCharRec (with_ch (cr_char r) desc loc (char_Version r + 1)) prefs in
  match rq with
  | RqUpdateCharacterDescription _ id d =>
      Some (id, fun r => next r d (ch_LocationID (cr_char r)) (cr_preferences r), fun _ => BuildCharacterUpdatePayload id d)
  | RqUpdateCharacterPreferences id p =>
      match decode p with
      | Some j => Some (id, fun r => next r (ch_Description (cr_char r)) (ch_LocationID (cr_char r)) j, fun _ => preferencesIntentPayload id j)
      | None => None
      end
  | RqMoveCharacter _ id to =>
      Some (id, fun r => next r (ch_Description (cr_char r)) (Some to) (cr_preferences r),
            fun r => moveIntentPayload id to (ch_LocationID (cr_char r)))
  | _ => None
  end.

Definition not_deleted (id : ULID) (evs : list Envelope) : Prop :=
  forall a, a ∈ entries evs -> af_key a = (AggregateCharacter, id) -> af_Tombstone a = false.

(** Besides its one write the command only looks. *)
Definition looked (x : took wcall WDB) : Prop := let '(Took c _ _ _) := x in looks c.

(** Of the calls a command made, one read the character and a later one wrote it.  The
    row that write replaced is the one that read found, the payload describes it, and
    nothing else of the row changed. *)
Definition edited (id : ULID) (f : char_rec -> char_rec) (payload : char_rec -> json) (calls : list (took wcall WDB)) : Prop :=
  exists l1 c d0 l2 A (t : Tick -> wtx A) x d1 d2 l3 r evs e,
    calls = (l1 ++ Took (WRead (fun _ => character_Get id)) (Ok c) d0 d0 :: l2 ++ Took (WTx t) (Ok x) d1 d2 :: l3)%list /\
    Forall looked (l1 ++ l2 ++ l3) /\
    db_characters d0 !! id = Some r /\ cr_char r = c /\ extends d0 evs d1 /\ extends d1 [e] d2 /\
    (not_deleted id evs ->
       db_characters d1 !! id = Some r /\ ev_Payload e = payload r /\ db_characters d2 !! id = Some (f r)).

Lemma unchanged_since id evs d0 d1 r0 r1 :
  extends d0 evs d1 -> not_deleted id evs -> db_characters d0 !! id = Some r0 -> db_characters d1 !! id = Some r1 ->
  char_Version r1 = char_Version r0 -> r1 = r0.
Proof.
  intros He Hnd H0 H1 Hv.
  destruct (chained_grows _ _ (AggregateCharacter, id) (char_Version r0) (ex_chained _ _ _ He)) as (n & Hn & _ & Hsame).
  { by rewrite version_of_character, H0. } { exact Hnd. }
  rewrite <- (ex_versions _ _ _ He), version_of_character, H1 in Hn. injection Hn as Hn.
  pose proof (ex_rows _ _ _ He (AggregateCharacter, id) (Hsame ltac:(lia))) as Hrow.
  unfold row_of in Hrow. cbn in Hrow. rewrite H0, H1 in Hrow. by injection Hrow.
Qed.

Lemma write_replaces id d0 evs d r0 intent code g (f : char_rec -> char_rec) payload r db' :
  world_inv d0 -> db_characters d0 !! id = Some r0 -> extends d0 evs d -> world_inv d -> keeps_identity g ->
  g r0 (char_Version r0 + 1) = f r0 -> in_Payload intent = payload r0 ->
  mutate_tx intent (no_value (update_character code id (char_Version r0) g)) d = (Ok r, db') ->
  exists e, extends d [e] db' /\
    (not_deleted id evs -> db_characters d !! id = Some r0 /\ ev_Payload e = payload r0 /\ db_characters db' !! id = Some (f r0)).
Proof.
  intros HI0 Hr0 He' HI Hg Hf Hpl H. pose proof H as [_ He]%mutate_tx_Ok; [|done|by apply update_character_described].
  eexists. split; [exact He|]. intros Hnd. unfold mutate_tx, no_value in H. apply txn_bind_Ok in H as (x & d1 & Hw & H).
  apply txn_bind_Ok in Hw as (dl & d2 & Hu & [-> ->]%mret_Ok). apply txn_bind_Ok in H as (env & d3 & Hwi & [-> ->]%mret_Ok).
  apply update_character_Ok in Hu as (r1 & Hr1 & Hv & -> & _ & ->); [|apply HI|done].
  assert (Hpos : 1 <= char_Version r0).
  { destruct (wi_rows _ HI0 (AggregateCharacter, id) (RowCharacter r0)) as (_ & Hp & _); [unfold row_of; cbn; by rewrite Hr0|done]. }
  assert (r1 = r0) as -> by (eapply unchanged_since; [exact He'|exact Hnd|exact Hr0|exact Hr1|lia]).
  split; [done|]. split; [exact Hpl|]. apply WriteIntent_Ok in Hwi as (_ & _ & ->). cbn. by rewrite lookup_insert_eq, Hf.
Qed.

(** *** The calls of the parts *)
Abbreviation wlogged s := (logged world_exec anytime (world_serves s) elsewhere_step).
Abbreviation wsound := (sound world_exec anytime world_inv world_grows).

Lemma wlogged_wp s {B} (p : wprog B) Q m l b m' :
  wlogged s p m l b m' -> wsound m -> wwp p Q (m_state m) -> wsound m' /\ world_grows (m_state m) (m_state m') /\ Q (m_state m') b.
Proof. apply logged_wp; [apply _|intros; by eapply world_serves_safe|apply elsewhere_keeps]. Qed.

Lemma quiet_looked s {B} P (p : wprog B) m l b m' : quiet P p -> wlogged s p m l b m' -> Forall looked l.
Proof.
  intros Hq. revert m l. induction Hq as [b' Hb|A c k Hc Hk IH]; intros m l; cbn; [by intros (-> & _)|].
  intros (st & ps & en & l' & _ & _ & -> & Hl). constructor; [done|]. by eapply IH.
Qed.

Lemma quiet_logged s {B} P (p : wprog B) m l b m' :
  quiet P p -> wlogged s p m l b m' -> wsound m -> wsound m' /\ world_grows (m_state m) (m_state m') /\ Forall looked l.
Proof.
  intros Hq Hl Hm. destruct (wlogged_wp _ _ _ _ _ _ _ Hl Hm (quiet_wp _ _ _ Hq)) as (? & ? & _).
  split; [done|]. split; [done|]. by eapply quiet_looked.
Qed.

Lemma read_logged s {A} (f : Tick -> WDB -> result A) m l a m' :
  wlogged s (call (WRead f)) m l (Ok a) m' -> wsound m ->
  exists tk d, l = [Took (WRead f) (Ok a) d d] /\ f tk d = Ok a /\ world_inv d /\ world_grows (m_state m) d /\
    m_state m' = d /\ wsound m'.
Proof.
  intros Hl Hm. destruct (wlogged_wp _ _ (fun _ _ => True) _ _ _ _ Hl Hm) as (Hm' & _ & _).
  { apply wp_read; by intros. }
  destruct Hl as (d & ps & en & l' & Hst & _ & -> & -> & Ha & ->). destruct (world_run_sound _ _ _ Hst Hm) as [[HI _] Hg].
  exists (we_tick en), d. cbn in *. destruct (we_fault en); [|discriminate Ha..].
  rewrite <- Ha. by split_and!.
Qed.

Lemma tx_logged s {A} (t : Tick -> wtx A) m l a m' :
  wlogged s (call (WTx t)) m l (Ok a) m' -> wsound m ->
  exists tk d d', l = [Took (WTx t) (Ok a) d d'] /\ t tk d = (Ok a, d') /\ world_inv d /\ world_grows (m_state m) d.
Proof.
  intros (d & ps & en & l' & Hst & _ & -> & -> & Ha & ->) Hm. destruct (world_run_sound _ _ _ Hst Hm) as [[HI _] Hg].
  symmetry in Ha. exists (we_tick en), d, (world_exec en _ (WTx t) d).2. rewrite Ha. split; [done|].
  split; [by apply tx_answers|done].
Qed.

Lemma unless_logged s {B} c e (k : wprog (result B)) m l b m' :
  wlogged s (unless c e k) m l (Ok b) m' -> wlogged s k m l (Ok b) m'.
Proof. unfold unless. destruct c; [done|]. by intros (_ & [=] & _). Qed.

(** The write among the calls after the read, which found [r0] in [d0]. *)
Definition replaced (id : ULID) (f : char_rec -> char_rec) (payload : char_rec -> json) (d0 : WDB) (r0 : char_rec)
    (calls : list (took wcall WDB)) : Prop :=
  exists l2 A (t : Tick -> wtx A) x d1 d2 l3 evs e,
    calls = (l2 ++ Took (WTx t) (Ok x) d1 d2 :: l3)%list /\ Forall looked (l2 ++ l3) /\ extends d0 evs d1 /\ extends d1 [e] d2 /\
    (not_deleted id evs -> db_characters d1 !! id = Some r0 /\ ev_Payload e = payload r0 /\ db_characters d2 !! id = Some (f r0)).

Lemma intent_logged s kind t id actor pl m l intent m' :
  wlogged s (buildIntent s kind t id actor pl) m l intent m' -> wsound m ->
  in_Payload intent = pl /\ Forall looked l /\ wsound m' /\ world_grows (m_state m) (m_state m').
Proof.
  intros Hi Hm. assert (Hq : quiet whatever (buildIntent s kind t id actor pl)).
  { unfold buildIntent. apply quiet_look; [done|]. intros. by constructor. }
  destruct (quiet_logged _ _ _ _ _ _ _ Hq Hi Hm) as (? & ? & ?).
  apply logged_bind in Hi as (? & ? & ? & ? & _ & (_ & -> & _) & _). by split_and!.
Qed.

(** The write, its envelope's identifier drawn just before. *)
Lemma write_logged s id kind actor pl code g f payload d0 r0 h (k : unit * MutationDelta -> wprog (result unit)) m l m' :
  wlogged s (intent ← buildIntent s kind AggregateCharacter id actor pl;
             r <~ mutate intent (fun _ => no_value (update_character code id (char_Version r0) g)) @@ h ;; k r) m l (Ok tt) m' ->
  wsound m -> world_inv d0 -> db_characters d0 !! id = Some r0 -> world_grows d0 (m_state m) -> keeps_identity g ->
  g r0 (char_Version r0 + 1) = f r0 -> pl = payload r0 ->
  (forall e, exists e', h e = failed e') -> (forall r, quiet (fun r => is_ok r = true) (k r)) ->
  replaced id f payload d0 r0 l.
Proof.
  intros (l1 & intent & m1 & l2 & Hi & H & ->)%logged_bind Hm HI Hr Hg Hk Hf Hpl Hh Hq.
  destruct (intent_logged _ _ _ _ _ _ _ _ _ _ Hi Hm) as (Hp & Hlk & Hm1 & Hg1). apply logged_try in H as (l3 & r & m2 & l4 & Hw & Hend & ->); [|exact Hh].
  unfold mutate in Hw. pose proof (wlogged_wp _ _ (fun _ _ => True) _ _ _ _ Hw Hm1) as (Hm2 & _ & _).
  { apply wp_tx; [|done]. intros. split; [|done]. eapply mutate_keeps; [done|by apply update_character_described|done]. }
  destruct (tx_logged _ _ _ _ _ _ Hw Hm1) as (tk & d1 & d2 & -> & Ht & HI1 & Hg2).
  destruct (quiet_logged _ _ _ _ _ _ _ (Hq r) Hend Hm2) as (_ & _ & Hlk4).
  assert (Hex : world_grows d0 d1) by (transitivity (m_state m); [done|]; by transitivity (m_state m1)). destruct Hex as [evs Hex].
  destruct (write_replaces id d0 evs d1 r0 intent code g f payload r d2) as (e & He & Hrow); [done..|by rewrite Hp|exact Ht|].
  eexists l1, _, _, r, d1, d2, l4, evs, e. split; [done|]. split; [by apply Forall_app|]. by split_and!.
Qed.

Lemma character_read s id m l c m' :
  wlogged s (call (WRead (fun _ => character_Get id))) m l (Ok c) m' -> wsound m ->
  exists d0 r0, l = [Took (WRead (fun _ => character_Get id)) (Ok c) d0 d0] /\ world_inv d0 /\
    db_characters d0 !! id = Some r0 /\ cr_char r0 = c /\ ch_ID c = id /\ m_state m' = d0 /\ wsound m'.
Proof.
  intros H Hm. destruct (read_logged _ _ _ _ _ _ H Hm) as (_ & d0 & -> & Hc & HI & _ & Hd & Hm'). pose proof Hc as Hid%character_Get_ID; [|done].
  unfold character_Get in Hc. destruct (db_characters d0 !! id) as [r0|] eqn:E; [|done]. injection Hc as Hc. by exists d0, r0.
Qed.

Lemma permit_logged s {B} u a r prefix (k : unit -> wprog (result B)) m l b m' :
  wlogged s (try_ (checkAccess u a r prefix) failed k) m l (Ok b) m' -> wsound m ->
  exists l1 m1 l2, Forall looked l1 /\ wsound m1 /\ wlogged s (k tt) m1 l2 (Ok b) m' /\ l = (l1 ++ l2)%list.
Proof.
  intros (l1 & [] & m1 & l2 & H1 & H2 & ->)%logged_try Hm; [|by eexists].
  destruct (quiet_logged _ _ _ _ _ _ _ (quiet_access _ _ _ _) H1 Hm) as (? & _ & ?). by exists l1, m1, l2.
Qed.

(** ** A small world *)
Definition demo_service : Service :=
  mkService "main" (mkUnicode (fun _ => true) (fun _ => false)) DefaultMaxNestingDepth true true true true true true true.

Definition demo_id (n : nat) : ULID := "id" +:+ FormatInt (Z.of_nat n).

(** The calls of the [k]-th request: the engine allows everything. *)
Definition demo_env (k n : nat) : wenv :=
  mkWEnv (mkTick 7 (fun i => demo_id (1000 * k + 100 * n + i)) 0 (fun s => s)) Served
    (fun _ => Ok (NewDecision EffectAllow "policy" "p")) (Ok tt) (demo_id (1000 * k + 100 * n + 50)).

Fixpoint demo_run (k : nat) (rqs : list request) (db : WDB) : WDB :=
  match rqs with
  | [] => db
  | rq :: rest => demo_run (S k) rest (run world_exec (demo_env k) (serve demo_service rq) db).2
  end.

Lemma demo_reach k rqs db : rtc (world_step demo_service) (mkMachine db []) (mkMachine (demo_run k rqs db) []).
Proof.
  revert k db. induction rqs as [|rq rqs IH]; intros k db; cbn [demo_run]; [apply rtc_refl|].
  etransitivity; [|apply IH]. apply serve_alone; [done|]. left. by exists rq.
Qed.

(** A guest has registered; nothing else is there. *)
Definition demo_world : WDB :=
  mkWDB ∅ ∅ ∅ ∅ ∅ {["player" := mkPlayerRec true None]} ∅ ∅ ∅ ∅ [] ∅ [].

Lemma demo_world_inv : world_inv demo_world.
Proof.
  split; [|split|split|].
  - intros [[] i] r; unfold row_of; cbn; by rewrite ?lookup_empty.
  - intros id r. cbn. by rewrite lookup_empty.
  - cbn. set_solver.
  - constructor.
  - intros g. unfold here, counter_of. cbn. rewrite lookup_empty. constructor.
  - intros id r. cbn. by rewrite lookup_empty.
  - intros id r. cbn. by rewrite lookup_empty.
  - cbn. set_solver.
  - cbn. set_solver.
  - cbn. set_solver.
Qed.

Definition demo_hall : Location := mkLocation "hall" "persistent" None "Hall" "A hall." None "last:0" 0 None 0.
Definition demo_yard : Location := mkLocation "yard" "persistent" None "Yard" "A yard." None "last:0" 0 None 0.
Definition demo_char : Character := mkCharacter "char" "player" "Alice" "A guest." (Some "hall") 0 0.

Definition demo_requests : list request :=
  [RqCreateLocation "system" (Some demo_hall); RqCreateLocation "system" (Some demo_yard);
   RqCreateCharacter (Some demo_char) "created"; RqMoveCharacter "character:char" "char" "yard"].

Definition demo_db : WDB := demo_run 0 demo_requests demo_world.

(** ** Claims *)

(** *** Two deletions at once

    The exit from the hall to the yard has a return exit, which leads back but names
    none itself. *)
Definition demo_exit (id from to name back : string) : Exit :=
  mkExit id from to name [] (negb (is_empty back)) back "all" [] false EmptyString None 0 1.

Definition demo_paths : WDB :=
  mkWDB {["hall" := with_loc_Version demo_hall 1; "yard" := with_loc_Version demo_yard 1]}
    {["out" := demo_exit "out" "hall" "yard" "gate" "door"; "in" := demo_exit "in" "yard" "hall" "door" EmptyString]}
    ∅ ∅ ∅ ∅ ∅ ∅ ∅ ∅ [] ∅ [].

Lemma demo_paths_inv : world_inv demo_paths.
Proof.
  split; [|split|split|].
  - intros [[] i] r; unfold row_of; cbn; rewrite ?lookup_empty; try done; intros (x & Hx & ->)%fmap_Some;
      (apply lookup_insert_Some in Hx as [[<- <-]|[_ [<- <-]%lookup_singleton_Some] ]); by split_and!.
  - intros id r. cbn. by rewrite lookup_empty.
  - cbn. set_solver.
  - constructor.
  - intros g. unfold here, counter_of. cbn. rewrite lookup_empty. constructor.
  - intros id r. cbn. by rewrite lookup_empty.
  - intros id r. cbn. by rewrite lookup_empty.
  - cbn. set_solver.
  - cbn. set_solver.
  - cbn. set_solver.
Qed.

(** The deletion of the way out looks for the return exit; the return exit is deleted;
    the first deletion commits. *)
Definition demo_in_gone : WDB := (run world_exec (demo_env 1) (serve demo_service (RqDeleteExit "system" "in")) demo_paths).2.
Definition demo_both_gone : WDB :=
  (mutate_tx (NewEnvelopeIntent (demo_id 150) "main" "exit_deleted" 1 "system" AggregateExit "out" (BuildTombstonePayload "out"))
     (deleteExit_tx (we_tick (demo_env 0 3)) (db_exits demo_paths) "out") demo_in_gone).2.

Lemma demo_race : rtc (world_step demo_service) (mkMachine demo_paths []) (mkMachine demo_both_gone []).
Proof.
  eapply rtc_l; [eapply (arrives _ _ _ _ _ [] (serve demo_service (RqDeleteExit "system" "out"))); left; by eexists|]. cbn [app].
  eapply rtc_l; [eapply (proceeds _ _ _ _ _ _ 0 _ _ _ (demo_env 0 0)); [reflexivity|done]|].
  eapply rtc_l; [eapply (proceeds _ _ _ _ _ _ 0 _ _ _ (demo_env 0 1)); [reflexivity|done]|].
  eapply rtc_l; [eapply (proceeds _ _ _ _ _ _ 0 _ _ _ (demo_env 0 2)); [reflexivity|done]|].
  etransitivity; [eapply (serve_alone _ _ _ _ (demo_env 1) _ (serve demo_service (RqDeleteExit "system" "in"))); [done|left; by eexists]|].
  eapply rtc_l; [eapply (proceeds _ _ _ _ _ _ 0 _ _ _ (demo_env 0 3)); [reflexivity|done]|].
  eapply rtc_l; [eapply (stops _ _ _ _ _ _ 0)|]. cbn [list_insert insert delete list_delete].
  match goal with |- rtc _ (mkMachine ?a []) (mkMachine ?b []) => replace a with b; [apply rtc_refl|] end.
  vm_compute. reflexivity.
Qed.

(** The end of the return exit has been announced by both. *)
Definition ends_of (k : key) (evs : list Envelope) : list AffectedAggregate :=
  filter (fun a => af_key a = k /\ af_Tombstone a = true) (entries evs).

Lemma return_exit_announced_twice :
  length (ends_of (AggregateExit, "in") (db_feed demo_both_gone)) = 2%nat /\ db_exits demo_both_gone = ∅.
Proof. split; vm_compute; reflexivity. Qed.



(** The envelope is the one the request announces. *)
Definition announcing (s : Service) (an : announcement) (e : Envelope) : Prop :=
  ev_GameID e = s_gameID s /\ ev_Kind e = an_Kind an /\ ev_Actor e = an_Actor an /\ ev_AggregateType e = an_Type an /\
  (forall id, an_ID an = Some id -> ev_AggregateID e = id) /\
  exists a rest, ev_Affected e = a :: rest /\ af_key a = (ev_AggregateType e, ev_AggregateID e).

Lemma made_announcing s an db db' e : made (fits s an) db db' e -> announcing s an e.
Proof.
  intros (_ & i & d & (Hg & Hk & Ha & _ & Ht & Hid) & -> & Hp). split_and!; try done. by exists (md_Primary d), (md_Affected d).
Qed.

(** C14: Every write command that succeeds, whatever ran beside it, has put one
    envelope into the feed that names the command's kind, its subject as the actor, and
    the aggregate it changed, which is also the first entry of the envelope's
    manifest. *)
Theorem commands_are_announced s rq an db m' :
  world_inv db -> announces rq = Some an -> world_runs s (handle s rq) (mkMachine db []) (Ok tt) m' ->
  exists evs1 e evs2, db_feed (m_state m') = (db_feed db ++ evs1 ++ e :: evs2)%list /\ announcing s an e.
Proof.
  intros HI Ha Hr. eapply world_runs_wp in Hr as (_ & _ & HQ); [|done|by eapply command_wp; [by apply handle_command|reflexivity]].
  destruct (HQ eq_refl) as (db1 & e & db2 & [evs1 H1] & Hm & [evs2 H2]).
  exists evs1, e, evs2. split; [|by eapply made_announcing]. destruct Hm as [He _].
  rewrite (ex_feed _ _ _ H2), (ex_feed _ _ _ He), (ex_feed _ _ _ H1). by rewrite <- !app_assoc.
Qed.

Definition demo_create : request := RqCreateLocation "system" (Some demo_hall).

Lemma commands_are_announced_witness :
  exists (m' : machine wcall WDB) an, announces demo_create = Some an /\ an_Kind an = "location_created" /\
    exists evs1 e evs2, db_feed (m_state m') = (db_feed demo_world ++ evs1 ++ e :: evs2)%list /\ announcing demo_service an e.
Proof.
  eexists (mkMachine (run world_exec (demo_env 0) (handle demo_service demo_create) demo_world).2 []), _.
  split; [reflexivity|]. split; [reflexivity|].
  eapply (commands_are_announced demo_service demo_create); [apply demo_world_inv|reflexivity|].
  assert (Hr : Ok tt = (run world_exec (demo_env 0) (handle demo_service demo_create) demo_world).1) by (vm_compute; reflexivity).
  rewrite Hr. apply runs_alone. done.
Defined.

(** C19: A write command that runs alone, with no answer of the database lost, is
    all or nothing: if it succeeds it has added exactly its own envelope to the feed and
    changed no aggregate but those the envelope lists, and if it fails, for whatever reason
    (a refused permit, a conflict, a constraint, a fault), nothing at all has changed. *)
Theorem commands_are_atomic s rq an ens db :
  world_inv db -> announces rq = Some an -> (forall n e, we_fault (ens n) <> Lost e) ->
  match run world_exec ens (handle s rq) db with
  | (Ok _, db') => exists e, db_feed db' = (db_feed db ++ [e])%list /\ announcing s an e /\
      forall k, (forall a, a ∈ ev_Affected e -> af_key a <> k) -> row_of db' k = row_of db k
  | (Err _, db') => db' = db
  end.
Proof.
  intros HI Ha Hl.
  destruct (ends_run world_exec anytime world_inv world_grows not_lost (handle s rq) (fun d r => atomic (fits s an) db d r) ens db)
    as [_ Hat]; [done|done|done|by apply request_safe|by eapply command_ends; [apply handle_command|]|].
  destruct (run world_exec ens (handle s rq) db) as [[[]|e] db']; cbn in Hat; [|done].
  destruct Hat as [e Hm]. exists e. pose proof (made_announcing _ _ _ _ _ Hm) as Han. destruct Hm as [He _].
  split; [apply He|]. split; [done|]. intros k Hk. apply (ex_rows _ _ _ He). intros a Hin. apply Hk.
  unfold entries in Hin. cbn in Hin. by rewrite app_nil_r in Hin.
Qed.

Lemma commands_are_atomic_witness :
  is_ok (run world_exec (demo_env 0) (handle demo_service demo_create) demo_world).1 = true /\
  exists an, match run world_exec (demo_env 0) (handle demo_service demo_create) demo_world with
  | (Ok _, db') => exists e, db_feed db' = (db_feed demo_world ++ [e])%list /\ announcing demo_service an e /\
      forall k, (forall a, a ∈ ev_Affected e -> af_key a <> k) -> row_of db' k = row_of demo_world k
  | (Err _, db') => db' = demo_world
  end.
Proof.
  split; [vm_compute; reflexivity|]. eexists.
  apply (commands_are_atomic demo_service demo_create); [apply demo_world_inv|reflexivity|]. intros n e. discriminate.
Defined.

Lemma access_announces rq x : access rq = Some x -> is_Some (announces rq).
Proof. destruct rq; cbn; (done || eauto). Qed.

(** C10: No write without a permit: in every run of a command that needs one, and
    whatever the answers of the database and the policy engine are, each transaction comes
    after the engine has allowed exactly the command's subject, action and resource. *)
Theorem writes_need_permit s rq u a r l p' l1 A (t : Tick -> wtx A) x l2 :
  access rq = Some (u, a, r) -> trace possible (handle s rq) l p' -> l = (l1 ++ Answered (WTx t) x :: l2)%list ->
  exists req d, NewAccessRequest u a r ∅ = Ok req /\ Answered (WEvaluate req) (Ok d) ∈ l1 /\ IsAllowed d = true.
Proof.
  intros Ha Ht Hl. destruct (access_announces _ _ Ha) as [an Han].
  assert (Hg : gated possible (after_permit (access rq)) (fun _ _ => True) [] (handle s rq)).
  { eapply command_gated; [by apply handle_command|]. by rewrite Ha. }
  pose proof (gated_trace _ _ _ _ _ _ _ _ _ _ Hg Ht Hl) as [H|H]; [done|].
  destruct (H _ _ _ Ha) as (req & d & H1 & H2 & H3). exists req, d. split_and!; [done| |done].
  rewrite app_nil_r in H2. exact (proj1 (elem_of_reverse _ _) H2).
Qed.

Definition demo_trace : list (answered wcall) :=
  match NewAccessRequest "system" "write" (ResourceLocation +:+ "*") ∅ with
  | Ok req => [Answered (WEvaluate req) (Ok (NewDecision EffectAllow "policy" "p")); Answered WNewID "e"]
  | Err _ => []
  end.

Lemma writes_need_permit_witness :
  exists p' A (t : Tick -> wtx A) x l2 req d,
    trace possible (handle demo_service demo_create) (demo_trace ++ Answered (WTx t) x :: l2)%list p' /\
    NewAccessRequest "system" "write" (ResourceLocation +:+ "*") ∅ = Ok req /\
    Answered (WEvaluate req) (Ok d) ∈ demo_trace /\ IsAllowed d = true.
Proof.
  assert (H : exists p' A (t : Tick -> wtx A) x l2,
    trace possible (handle demo_service demo_create) (demo_trace ++ Answered (WTx t) x :: l2)%list p').
  { do 5 eexists. eapply trace_call; [exists (demo_env 0 0), demo_world; split; [apply demo_world_inv|reflexivity]|].
    eapply trace_call; [exists (mkWEnv (we_tick (demo_env 0 0)) Served (we_decide (demo_env 0 0)) (Ok tt) "e"), demo_world;
      split; [apply demo_world_inv|reflexivity]|].
    eapply trace_call; [exists (demo_env 0 0), demo_world; split; [apply demo_world_inv|reflexivity]|]. apply trace_nil. }
  destruct H as (p' & A & t & x & l2 & H).
  destruct (writes_need_permit demo_service demo_create _ _ _ _ _ _ _ _ _ _ eq_refl H eq_refl) as (req & d & ? & ? & ?).
  by exists p', A, t, x, l2, req, d.
Defined.

(** C23: When the reaping of a guest player succeeds, whatever else was served
    meanwhile (creations of characters for that very player included), the player is gone,
    no character of it is left, and every character it had has its tombstone in the feed:
    the cascade of the foreign key, which would remove characters silently, never has any
    to remove. *)
Theorem reaped_guests_are_announced s p db m' :
  world_inv db -> world_runs s (DeleteGuestPlayer p) (mkMachine db []) (Ok tt) m' ->
  db_players (m_state m') !! p = None /\ (forall c, owned_by (m_state m') p c = false) /\
  exists evs, db_feed (m_state m') = (db_feed db ++ evs)%list /\
    forall c, owned_by db p c = true ->
      exists a, a ∈ entries evs /\ af_key a = (AggregateCharacter, c) /\ af_Tombstone a = true.
Proof.
  intros HI Hr. eapply world_runs_wp in Hr as (HI' & [evs He] & Hgone); [|done|apply DeleteGuestPlayer_wp]. cbn in Hgone.
  pose proof (wi_gone _ HI' _ Hgone) as Hp.
  assert (Hno : forall c, owned_by (m_state m') p c = false).
  { intros c. apply not_true_iff_false. intros (r & Hc & Hpl)%owned_by_row.
    destruct (wi_rows _ HI' _ _ Hc) as (_ & _ & Hs). destruct (Hs _ Hpl) as [x Hx]. congruence. }
  split_and!; [done|done|]. exists evs. split; [apply He|]. intros c Ho. apply owned_by_row in Ho as (r & Hc & Hpl).
  destruct (decide (Forall (fun a => af_key a = (AggregateCharacter, c) -> af_Tombstone a = false) (entries evs))) as [Hf|Hf].
  - rewrite Forall_forall in Hf. destruct (ex_owner _ _ _ He _ _ Hc Hf) as (r' & Hr' & Hpl').
    specialize (Hno c). apply not_true_iff_false in Hno. destruct Hno. apply owned_by_row. exists r'. by rewrite Hpl'.
  - apply not_Forall_Exists in Hf; [|apply _]. apply Exists_exists in Hf as (a & Ha & Hn). exists a. split; [done|].
    destruct (decide (af_key a = (AggregateCharacter, c))) as [Hk|Hk]; [|by destruct Hn]. split; [done|].
    unfold compose in Hn. destruct (af_Tombstone a); [done|]. by destruct Hn.
Qed.

Lemma demo_db_inv : world_inv demo_db.
Proof. apply (world_run_sound demo_service _ _ (demo_reach 0 demo_requests demo_world) (idle_sound _ demo_world_inv)). Qed.

Definition demo_reaped : result unit * WDB := run world_exec (demo_env 9) (DeleteGuestPlayer "player") demo_db.

Lemma demo_reaped_runs : world_runs demo_service (DeleteGuestPlayer "player") (mkMachine demo_db []) demo_reaped.1 (mkMachine demo_reaped.2 []).
Proof. exact (runs_alone _ _ _ _ (demo_env 9) (DeleteGuestPlayer "player") [] demo_db (fun _ _ => I)). Qed.

Lemma reaped_guests_are_announced_witness :
  owned_by demo_db "player" "char" = true /\
  db_players demo_reaped.2 !! "player" = None /\ (forall c, owned_by demo_reaped.2 "player" c = false) /\
  exists evs, db_feed demo_reaped.2 = (db_feed demo_db ++ evs)%list /\
    forall c, owned_by demo_db "player" c = true ->
      exists a, a ∈ entries evs /\ af_key a = (AggregateCharacter, c) /\ af_Tombstone a = true.
Proof.
  split; [vm_compute; reflexivity|]. pose proof demo_reaped_runs as Hr.
  assert (E : demo_reaped.1 = Ok tt) by (vm_compute; reflexivity). rewrite E in Hr. clear E.
  exact (reaped_guests_are_announced demo_service "player" demo_db (mkMachine demo_reaped.2 []) demo_db_inv Hr).
Defined.

(** *** The three commands *)

(** The read, the calls between, the write. *)
Lemma edited_calls id f payload l1 c d0 l2 l3 r calls :
  Forall looked l1 -> Forall looked l2 -> db_characters d0 !! id = Some r -> cr_char r = c ->
  replaced id f payload d0 r l3 ->
  calls = (l1 ++ [Took (WRead (fun _ => character_Get id)) (Ok c) d0 d0] ++ l2 ++ l3)%list ->
  edited id f payload calls.
Proof.
  intros H1 H2 Hr Hc (l2' & A & t & x & d1 & d2 & l3' & evs & e & -> & H3 & He & He' & Hrow) ->.
  apply Forall_app in H3 as [H3 H4].
  exists l1, c, d0, (l2 ++ l2')%list, A, t, x, d1, d2, l3', r, evs, e. split; [by rewrite <- !app_assoc|].
  split; [by repeat (apply Forall_app; split)|]. by split_and!.
Qed.

Lemma answering_logged s {A} (p : wprog (result A)) m l m' :
  wlogged s (answering p) m l (Ok tt) m' -> exists a, wlogged s p m l (Ok a) m'.
Proof.
  intros (l1 & a & m1 & l2 & H1 & (-> & _ & ->) & ->)%logged_try; [|by eexists]. rewrite app_nil_r. by exists a.
Qed.

Ltac next H := apply logged_try in H as (? & ? & ? & ? & ?Hc & H & ->); [|by eexists].

Lemma edit_logged s rq id f payload m l m' :
  edit rq = Some (id, f, payload) -> wsound m -> wlogged s (handle s rq) m l (Ok tt) m' -> edited id f payload l.
Proof.
  intros Hrq Hm. destruct rq; try done; cbn [handle]; intros [[] H]%answering_logged; cbn in Hrq.
  - injection Hrq as <- <- <-. unfold UpdateCharacterDescription in H. apply unless_logged in H.
    apply permit_logged in H as (l1 & m1 & l2 & Hl1 & Hm1 & H & ->); [|done]. next H.
    apply character_read in Hc as (d0 & r0 & -> & HI & Hr & <- & Hid & <- & Hm2); [|done]. apply unless_logged in H.
    unfold character_Update in H. cbn [with_ch ch_ID ch_Version] in H. rewrite Hid in H.
    eapply (edited_calls _ _ _ l1 _ _ []); [done|done|exact Hr|done| |reflexivity].
    eapply write_logged; [exact H|..]; try done; [intros; by eexists|intros; by repeat constructor].
  - destruct (decode prefs) as [j|] eqn:Ej; [|done]. injection Hrq as <- <- <-. unfold UpdateCharacterPreferences in H.
    do 2 apply unless_logged in H. next H.
    apply character_read in Hc as (d0 & r0 & -> & HI & Hr & <- & Hid & <- & Hm2); [|done].
    destruct (is_empty prefs) eqn:Ep; [by destruct prefs|]. unfold character_UpdatePreferences in H. rewrite Ej in H.
    eapply (edited_calls _ _ _ [] _ _ []); [done|done|exact Hr|done| |reflexivity].
    eapply write_logged; [exact H|..]; try done; [intros; by eexists|intros; by repeat constructor].
  - injection Hrq as <- <- <-. unfold MoveCharacter in H. apply unless_logged in H.
    apply permit_logged in H as (l1 & m1 & l2 & Hl1 & Hm1 & H & ->); [|done]. next H.
    apply character_read in Hc as (d0 & r0 & -> & HI & Hr & <- & Hid & <- & Hm2); [|done]. apply unless_logged in H. next H.
    apply read_logged in Hc as (tk & d1 & Hl & _ & _ & Hg & <- & Hm3); [|done]. apply unless_logged in H.
    eapply (edited_calls _ _ _ l1); [done| |exact Hr|done| |reflexivity]; [rewrite Hl; by apply Forall_singleton|].
    eapply write_logged; [exact H|..]; try done; [intros; by eexists|].
    intros r. apply quiet_look; [done|]. by repeat constructor.
Qed.

(** C18: No update of a character is lost: a command that changes the description, the
    preferences or the place of a character reads the row in one call and writes it in
    a later one, and has no other write.  If it succeeds, whatever ran meanwhile, then
    unless the character was deleted in between, the row its write replaced is the very
    row its read had found; only the field it changes and the version differ; and the
    payload of its envelope (for a move, the place the character came from) is true of
    the row replaced. *)
Theorem updates_are_not_lost s rq id f payload db calls m' :
  world_inv db -> edit rq = Some (id, f, payload) -> wlogged s (handle s rq) (mkMachine db []) calls (Ok tt) m' ->
  edited id f payload calls.
Proof. intros HI He Hr. eapply edit_logged; [done|by apply idle_sound|done]. Qed.

Definition demo_move : request := RqMoveCharacter "character:char" "char" "hall".
Definition demo_moved : result unit * WDB := run world_exec (demo_env 9) (handle demo_service demo_move) demo_db.

Lemma demo_moved_runs : exists calls,
  wlogged demo_service (handle demo_service demo_move) (mkMachine demo_db []) calls demo_moved.1 (mkMachine demo_moved.2 []).
Proof. exact (logged_alone _ _ _ _ (demo_env 9) (handle demo_service demo_move) [] demo_db (fun _ _ => I)). Qed.

Lemma updates_are_not_lost_witness :
  exists f payload calls, edit demo_move = Some ("char", f, payload) /\
    version_of demo_moved.2 (AggregateCharacter, "char") = Some 3 /\
    wlogged demo_service (handle demo_service demo_move) (mkMachine demo_db []) calls (Ok tt) (mkMachine demo_moved.2 []) /\
    edited "char" f payload calls.
Proof.
  destruct demo_moved_runs as [calls Hr]. assert (E : demo_moved.1 = Ok tt) by (vm_compute; reflexivity). rewrite E in Hr. clear E.
  do 2 eexists. exists calls. split; [reflexivity|]. split; [vm_compute; reflexivity|]. split; [exact Hr|].
  exact (updates_are_not_lost demo_service demo_move _ _ _ demo_db calls (mkMachine demo_moved.2 []) demo_db_inv eq_refl Hr).
Defined.

(** A chest in the hall, and a pouch and a coin next to it. *)
Definition demo_object (id : ULID) (container : bool) : Object :=
  mkObject id "thing" EmptyString (Some "hall") None None container None 0 1.
Definition demo_things : gmap ULID Object :=
  <["chest" := demo_object "chest" true]> (<["pouch" := demo_object "pouch" true]> {["coin" := demo_object "coin" false]}).
Definition demo_store : WDB :=
  mkWDB {["hall" := with_loc_Version demo_hall 1]} ∅ demo_things ∅ ∅ ∅ ∅ ∅ ∅ ∅ [] ∅ [].

Lemma demo_things_row i o : demo_things !! i = Some o -> exists b, o = demo_object i b.
Proof.
  unfold demo_things. intros [[<- <-]|[_ [[<- <-]|[_ [<- <-]%lookup_singleton_Some]]%lookup_insert_Some]]%lookup_insert_Some; eauto.
Qed.

Lemma demo_store_ok : rows_ok demo_store /\ acyclic demo_things.
Proof.
  split.
  - intros [[] i] r; unfold row_of; cbn; try done; intros (x & Hx & ->)%fmap_Some.
    + apply lookup_singleton_Some in Hx as [<- <-]. by split_and!.
    + apply demo_things_row in Hx as [b ->]. by split_and!.
  - intros x n H. inversion H as [|? o p ? ? Ho Hp]; subst. by apply demo_things_row in Ho as [b ->].
Qed.

Definition demo_place : result MutationDelta * WDB :=
  object_Move DefaultMaxNestingDepth "pouch" (mkContainment None None (Some "chest")) 0 demo_store.

Lemma moves_keep_containment_witness :
  is_ok demo_place.1 = true /\ acyclic (db_objects demo_place.2) /\
  (is_Some (cn_ObjectID (mkContainment None None (Some "chest"))) -> forall x j root k,
     nested (db_objects demo_place.2) x "pouch" j -> nested (db_objects demo_place.2) "pouch" root k ->
     is_Some (db_objects demo_place.2 !! root) -> Z.of_nat (j + k) + 1 <= DefaultMaxNestingDepth).
Proof.
  assert (E : is_ok demo_place.1 = true) by (vm_compute; reflexivity). split; [exact E|].
  destruct demo_place as [[d|e] db'] eqn:Ep; [|discriminate E].
  exact (moves_keep_containment DefaultMaxNestingDepth "pouch" (mkContainment None None (Some "chest")) 0 demo_store d db'
           (proj1 demo_store_ok) ltac:(vm_compute; discriminate) (proj2 demo_store_ok) Ep).
Defined.
