(* ===== verification/OutboxFacts.v ===== *)
(** The feed from the outbox to its consumers: what the stream carries and in which
    order, that an undisturbed pass of the relay publishes all there is, that a skip can
    be tried again, and what a consumer applies. *)

From S2P Require Import Prelude GoStrings GoText GoJson Sql Programs WorldTypes WorldWire WorldStore WorldService Outbox WorldInv WorldFacts.

#[local] Open Scope string_scope.
#[local] Open Scope Z_scope.
#[local] Open Scope prog_scope.

(** ** Backoff *)
Lemma backoff_base shift : 0 <= shift <= 62 ->
  let base := shl64 publishRetryBaseBackoff shift in
  (if (base <=? 0) || (publishRetryMaxBackoff <? base) then publishRetryMaxBackoff else base)
  = Z.min (publishRetryBaseBackoff * 2 ^ shift) publishRetryMaxBackoff.
Proof.
  intros Hs. replace shift with (Z.of_nat (Z.to_nat shift)) by lia. remember (Z.to_nat shift) as n eqn:Hn.
  assert (n < 63)%nat as Hb by lia. clear Hn Hs.
  do 63 (destruct n as [|n]; [vm_compute; reflexivity|]). lia.
Qed.

(** The wait before the next attempt doubles from 50ms and never exceeds 2s: it
    lies between half of [min (50ms * 2^(attempt-1)) 2s] and all of it, for every
    attempt, the shift of a 64-bit integer never wrapping into a short wait. *)
Theorem backoff_doubles_up_to_cap rnd attempt :
  1 <= attempt -> (forall half n, rnd half = Some n -> 0 <= n <= half) ->
  let cap := Z.min (publishRetryBaseBackoff * 2 ^ (attempt - 1)) publishRetryMaxBackoff in
  cap / 2 <= backoffDelay rnd attempt <= cap.
Proof.
  intros Ha Hr. cbv zeta. unfold backoffDelay. cbv zeta. rewrite (proj2 (Z.ltb_ge (attempt - 1) 0)) by lia.
  set (cap := Z.min _ _).
  match goal with |- context [if (?b <=? 0) || _ then _ else _] =>
    set (base := if (b <=? 0) || (publishRetryMaxBackoff <? b) then publishRetryMaxBackoff else b) end.
  assert (Hcap : base = cap).
  { unfold base, cap. destruct (Z.ltb_spec 62 (attempt - 1)) as [Hl|Hl]; [|by apply backoff_base; lia].
    cbn. rewrite Z.min_r; [done|]. transitivity (publishRetryBaseBackoff * 2 ^ 62); [vm_compute; discriminate|].
    apply Z.mul_le_mono_nonneg_l; [vm_compute; discriminate|]. apply Z.pow_le_mono_r; lia. }
  assert (Hpos : 0 < cap).
  { unfold cap, publishRetryBaseBackoff, publishRetryMaxBackoff. pose proof (Z.pow_pos_nonneg 2 (attempt - 1)). lia. }
  rewrite Hcap, Z.quot_div_nonneg by lia. pose proof (Z.div_mod cap 2). pose proof (Z.mod_pos_bound cap 2).
  destruct (rnd (cap / 2)) as [n|] eqn:E; [apply Hr in E; lia|lia].
Qed.

Definition demo_draw (half : Z) : option Z := if half <? 0 then None else Some half.

Lemma backoff_doubles_up_to_cap_witness :
  Z.min (publishRetryBaseBackoff * 2 ^ (2 - 1)) publishRetryMaxBackoff / 2 <= backoffDelay demo_draw 2
    <= Z.min (publishRetryBaseBackoff * 2 ^ (2 - 1)) publishRetryMaxBackoff
  /\ backoffDelay (fun _ => Some 0) 7 = 1000000000 /\ backoffDelay (fun _ => None) 60 = 2000000000.
Proof.
  split; [|split; vm_compute; reflexivity]. apply (backoff_doubles_up_to_cap demo_draw 2).
  - lia.
  - unfold demo_draw. intros half n. destruct (Z.ltb_spec half 0); [done|]. intros [= <-]. lia.
Defined.

(** ** The stream *)
Definition waits (db : WDB) (e : Envelope) : Prop :=
  exists r, db_outbox db !! ev_EventID e = Some r /\ ob_envelope r = e /\ ob_published_at r = None.

(** C8: Nothing is lost between the outbox and the stream, and nothing overtakes.
    After any number of requests and of relays run concurrently, their publications
    refused or their acknowledgements lost, their leases stale, any of them cut off: an
    envelope of the feed is on the stream, or waits in the outbox unpublished, or its
    epoch has been reset; the stream carries only envelopes of the feed; and every
    event of it comes after one for each envelope that precedes its own in its epoch. *)
Theorem stream_follows_feed s db m :
  world_inv db -> rtc (world_step s) (mkMachine db []) m ->
  (forall e, e ∈ db_feed (m_state m) ->
     on_wire (db_wire (m_state m)) e \/ waits (m_state m) e \/ ev_Epoch e < (here (m_state m) (ev_GameID e)).1) /\
  (forall v, v ∈ db_wire (m_state m) -> exists e now, e ∈ db_feed (m_state m) /\ EnvelopeToEvent now e = Ok v) /\
  (forall i v now e e', db_wire (m_state m) !! i = Some v -> EnvelopeToEvent now e = Ok v ->
     e ∈ db_feed (m_state m) -> e' ∈ db_feed (m_state m) -> ev_GameID e' = ev_GameID e -> ev_Epoch e' = ev_Epoch e ->
     ev_FeedPosition e' < ev_FeedPosition e -> on_wire (take i (db_wire (m_state m))) e').
Proof.
  intros HI Hr. destruct (world_run_sound s _ _ Hr (idle_sound db HI)) as [[[_ Hf Hw _] _] _]. cbn in *.
  split_and!; [|apply Hw|apply Hw]. intros e He. destruct (fo_feed _ Hf _ He) as (r & Hrow & <-).
  destruct (ob_published_at r) as [t|] eqn:Ep; [|right; left; by exists r].
  destruct (wo_sent _ Hw _ _ Hrow) as [?|?]; [by rewrite Ep|by left|by right; right].
Qed.

(** Two locations, a character and its move, and a pass of the relay. *)
Definition demo_relay : Relay := NewRelay (mkRelayConfig "main" 0).
Definition demo_passed : WDB := (run world_exec (demo_env 9) (forget (Drain 9 demo_relay)) demo_db).2.

Lemma demo_passed_reach : rtc (world_step demo_service) (mkMachine demo_world []) (mkMachine demo_passed []).
Proof.
  etransitivity; [apply (demo_reach 0 demo_requests demo_world)|]. apply serve_alone; [done|]. right.
  by exists (mkRelayConfig "main" 0), demo_relay, 9%nat.
Qed.

Lemma stream_follows_feed_witness :
  map wv_ID (db_wire demo_passed) = map ev_EventID (db_feed demo_passed) /\ length (db_feed demo_passed) = 4%nat /\
  (forall e, e ∈ db_feed demo_passed ->
     on_wire (db_wire demo_passed) e \/ waits demo_passed e \/ ev_Epoch e < (here demo_passed (ev_GameID e)).1).
Proof.
  split; [vm_compute; reflexivity|]. split; [vm_compute; reflexivity|].
  exact (proj1 (stream_follows_feed demo_service demo_world (mkMachine demo_passed []) demo_world_inv demo_passed_reach)).
Defined.

(** ** Consumers *)
Definition game_of (g : string) (l : list Envelope) : list Envelope := filter (fun e => ev_GameID e = g) l.

(** [successive o e]: [e] may be applied after [o], or as the first. *)
Definition successive (o : option Envelope) (e : Envelope) : Prop :=
  match o with
  | None => ev_FeedPosition e = 1
  | Some p => ev_Epoch p < ev_Epoch e \/ (ev_Epoch e = ev_Epoch p /\ ev_FeedPosition e = ev_FeedPosition p + 1)
  end.

Inductive gapless : list Envelope -> Prop :=
| gapless_nil : gapless []
| gapless_snoc l e : gapless l -> successive (last l) e -> gapless (l ++ [e]).

Section Consumed.
Context {T : Type} (k : Consumer T) (parse : string -> result ULID) (s : Service).

Fixpoint effects (l : list Envelope) (st : T) : result T :=
  match l with [] => Ok st | e :: l' => st' ← effect_of k e st; effects l' st' end.

Lemma effects_snoc l e st : effects (l ++ [e]) st = (st' ← effects l st; effect_of k e st').
Proof.
  revert st. induction l as [|x l IH]; intros st; cbn; [by destruct (effect_of k e st)|].
  destruct (effect_of k x st); cbn; [apply IH|done].
Qed.

Definition applied (c : Checkpoints T) : list Envelope := map snd (ck_applied c).

Definition mark_of (o : option Envelope) : option (Z * Z) := (fun e => (ev_Epoch e, ev_FeedPosition e)) <$> o.

(** What holds of the checkpoints of the consumer, the only one here. *)
Record consumed (st0 : T) (feed : list Envelope) (c : Checkpoints T) : Prop := {
  cn_state : effects (applied c) st0 = Ok (ck_state c);
  cn_marks : forall g, ck_watermarks c !! (co_name k, g) = mark_of (last (game_of g (applied c)));
  cn_gapless : forall g, gapless (game_of g (applied c));
  cn_feed : forall e, e ∈ applied c -> e ∈ feed;
  cn_receipts : forall e, e ∈ applied c -> (co_name k, ev_EventID e) ∈ ck_receipts c;
  cn_once : NoDup (map ev_EventID (applied c))
}.

(** What a committed [ApplyOnce] did. *)
Lemma ApplyOnce_Ok e c b c' : ApplyOnce (co_name k) e (effect_of k e) c = (Ok b, c') ->
  ck_receipts c ⊆ ck_receipts c' /\
  ((b = false /\ ck_watermarks c' = ck_watermarks c /\ ck_state c' = ck_state c /\ ck_applied c' = ck_applied c) \/
   (b = true /\ ~ (co_name k, ev_EventID e) ∈ ck_receipts c /\ (co_name k, ev_EventID e) ∈ ck_receipts c' /\
    (match ck_watermarks c !! (co_name k, ev_GameID e) with
     | None => ev_FeedPosition e = 1
     | Some (we, wp) => we < ev_Epoch e \/ (ev_Epoch e = we /\ ev_FeedPosition e = wp + 1)
     end) /\
    ck_watermarks c' = <[(co_name k, ev_GameID e) := (ev_Epoch e, ev_FeedPosition e)]> (ck_watermarks c) /\
    effect_of k e (ck_state c) = Ok (ck_state c') /\ ck_applied c' = (ck_applied c ++ [(co_name k, e)])%list)).
Proof.
  unfold ApplyOnce. rewrite read_bind. destruct (bool_decide _) eqn:Er; [intros [= <- <-]; split; [done|by left]|].
  apply bool_decide_eq_false in Er. rewrite write_bind.
  set (wm := ck_watermarks c !! _). destruct (default _ wm) as [we wp] eqn:Ew.
  destruct (Z.ltb_spec (ev_Epoch e) we); [intros [= <- <-]; cbn; split; [set_solver|by left]|].
  destruct (_ && _) eqn:E1; [intros [= <- <-]; cbn; split; [set_solver|by left]|].
  destruct (negb _) eqn:E2; [done|]. rewrite read_bind. cbn [ck_state claim_receipt].
  destruct (effect_of k e (ck_state c)) as [st|] eqn:Ee; [|done]. rewrite write_bind. intros [= <- <-].
  cbn. split; [set_solver|right]. split_and!; [done|done|set_solver| | |done|done].
  - destruct wm as [[we' wp']|]; cbn in Ew; injection Ew as <- <-; lia.
  - unfold raise_watermark. fold wm. destruct wm as [[we' wp']|]; cbn in Ew; injection Ew as <- <-; [|done].
    by replace (_ || _) with true by lia.
Qed.

Lemma game_of_snoc g l e : game_of g (l ++ [e]) = if decide (ev_GameID e = g) then (game_of g l ++ [e])%list else game_of g l.
Proof. unfold game_of. rewrite filter_app. cbn. destruct (decide _); [done|by rewrite app_nil_r]. Qed.

Lemma ApplyOnce_consumed st0 feed e c b c' :
  consumed st0 feed c -> e ∈ feed -> ApplyOnce (co_name k) e (effect_of k e) c = (Ok b, c') -> consumed st0 feed c'.
Proof.
  intros [A B C D E F] He H%ApplyOnce_Ok.
  destruct H as [Hrc [(-> & Hw & Hst & Ha)|(-> & Hnew & Hin & Hm & Hw & Hst & Ha)]].
  - split; unfold applied in *; rewrite ?Ha, ?Hst, ?Hw; try done. intros x Hx. apply Hrc. by apply E.
  - assert (Hap : applied c' = (applied c ++ [e])%list) by (unfold applied; by rewrite Ha, map_app).
    assert (Hs : successive (last (game_of (ev_GameID e) (applied c))) e).
    { rewrite B in Hm. by destruct (last (game_of (ev_GameID e) (applied c))) as [p|]. }
    split; rewrite ?Hap.
    + by rewrite effects_snoc, A.
    + intros g. rewrite game_of_snoc, Hw. destruct (decide (ev_GameID e = g)) as [<-|Hg].
      * by rewrite lookup_insert_eq, last_snoc.
      * rewrite lookup_insert_ne by congruence. apply B.
    + intros g. rewrite game_of_snoc. destruct (decide (ev_GameID e = g)) as [<-|]; [by constructor|done].
    + intros x [?|Hx%list_elem_of_singleton]%elem_of_app; [auto|by subst].
    + intros x [?|Hx%list_elem_of_singleton]%elem_of_app; [auto|by subst].
    + rewrite map_app. apply NoDup_app. split_and!; [done| |apply NoDup_singleton].
      intros i (x & -> & Hx)%list_elem_of_fmap Hi%list_elem_of_singleton. apply Hnew. rewrite <- Hi. by apply E.
Qed.

(** ** The whole way *)
Record system : Type := mkSystem { y_world : machine wcall WDB; y_checks : Checkpoints T }.

(** The broker delivers what it has, in any order and any number of times. *)
Inductive sys_step : system -> system -> Prop :=
| works m m' c : world_step s m m' -> sys_step (mkSystem m c) (mkSystem m' c)
| delivers m c v e fault :
    v ∈ db_wire (m_state m) -> UnmarshalEnvelope parse (wv_Payload v) = Ok e ->
    sys_step (mkSystem m c) (mkSystem m (Consumer_Apply fault k e c).2).

Definition fresh (st0 : T) : Checkpoints T := mkCheckpoints ∅ ∅ st0 [].

Lemma fresh_consumed st0 feed : consumed st0 feed (fresh st0).
Proof.
  split; cbn; [done|done|constructor|set_solver|set_solver|constructor].
Qed.

Lemma Consumer_Apply_consumed st0 feed fault e c :
  consumed st0 feed c -> e ∈ feed -> consumed st0 feed (Consumer_Apply fault k e c).2.
Proof.
  intros Hc He. unfold Consumer_Apply, atomically.
  destruct (ApplyOnce (co_name k) e (effect_of k e) c) as [[b|err] c'] eqn:E; destruct fault; cbn; try done;
    by eapply ApplyOnce_consumed.
Qed.

Lemma consumed_grows st0 feed feed' c : (forall e, e ∈ feed -> e ∈ feed') -> consumed st0 feed c -> consumed st0 feed' c.
Proof. intros Hf [A B C D E F]. split; auto. Qed.

Lemma wire_payload now e v : EnvelopeToEvent now e = Ok v -> wv_Payload v = MarshalEnvelope e.
Proof. unfold EnvelopeToEvent. cbv zeta. intros H. repeat case_match; try done. by injection H as <-. Qed.

Definition readable (db : WDB) : Prop := forall e, e ∈ db_feed db -> envelope_ok parse e = true.

Lemma sys_run st0 db y :
  world_inv db -> rtc sys_step (mkSystem (mkMachine db []) (fresh st0)) y ->
  sound world_exec anytime world_inv world_grows (y_world y) /\
  (readable (m_state (y_world y)) -> consumed st0 (db_feed (m_state (y_world y))) (y_checks y)).
Proof.
  intros HI Hr. revert y Hr. apply rtc_ind_r.
  { split; [by apply idle_sound|]. intros _. apply fresh_consumed. }
  intros y y' _ Hst [Hs Hc]. destruct Hst as [m m' c Hst|m c v e fault Hv He]; cbn in *.
  - destruct (world_run_sound s m m' (rtc_once _ _ Hst) Hs) as [Hs' [evs Hx]]. split; [done|]. intros Hok.
    assert (Hin : forall e, e ∈ db_feed (m_state m) -> e ∈ db_feed (m_state m')) by (rewrite (ex_feed _ _ _ Hx); set_solver).
    eapply consumed_grows; [exact Hin|]. apply Hc. intros e He. by apply Hok, Hin.
  - split; [done|]. intros Hok. apply Consumer_Apply_consumed; [by apply Hc|].
    destruct Hs as [[_ _ Hw _] _]. destruct (wo_from _ Hw _ Hv) as (e' & now & He' & Hev).
    rewrite (wire_payload _ _ _ Hev), unmarshal_marshal in He by by apply Hok. by injection He as <-.
Qed.
End Consumed.

(** Positions from 1 on, as long as the epoch has not changed. *)
Lemma positions_epoch_le g e p l e' p' : positions g e p l e' p' -> e <= e'.
Proof. induction 1; lia. Qed.

Lemma positions_at g e p l e' p' i x :
  positions g e p l e' p' -> e' = e -> game_of g l !! i = Some x -> ev_Epoch x = e /\ ev_FeedPosition x = p + Z.of_nat i.
Proof.
  intros H. revert i. induction H as [e p|e p y evs e' p' Hg He Hp Hr IH|e p y evs e' p' Hg Hr IH|e p evs e' p' Hr IH];
    intros i Ee; unfold game_of; cbn.
  - done.
  - rewrite decide_True by done. destruct i as [|i]; cbn; [intros [= <-]; split; [done|lia]|].
    intros Hx. destruct (IH i Ee Hx). split; [done|lia].
  - rewrite decide_False by done. by apply IH.
  - apply positions_epoch_le in Hr. lia.
Qed.

Lemma gapless_at l i x :
  gapless l -> (forall e, e ∈ l -> ev_Epoch e = 1) -> l !! i = Some x -> ev_FeedPosition x = 1 + Z.of_nat i.
Proof.
  intros Hl. revert i x. induction Hl as [|l e Hl IH Hs]; intros i x He; [done|].
  assert (Hel : forall e, e ∈ l -> ev_Epoch e = 1) by (intros; apply He; set_solver).
  intros [[_ Hx]|[-> <-]]%lookup_snoc_Some; [by apply IH|].
  destruct (last l) as [p|] eqn:E; cbn in Hs; [|apply last_None in E as ->; cbn; lia].
  pose proof (He e ltac:(set_solver)). pose proof (Hel p ltac:(by apply last_Some_elem_of)).
  rewrite last_lookup in E. pose proof (IH _ _ Hel E). apply lookup_lt_Some in E. lia.
Qed.

Lemma take_of_lookup {A} (l l' : list A) : (forall i x, l !! i = Some x -> l' !! i = Some x) -> l = take (length l) l'.
Proof.
  intros H. apply list_eq. intros i. destruct (l !! i) as [x|] eqn:E.
  - rewrite lookup_take_lt; [symmetry; by apply H|by eapply lookup_lt_Some].
  - symmetry. apply lookup_take_ge. by apply lookup_ge_None.
Qed.

Lemma consumed_prefix {T} (k : Consumer T) st0 db c g :
  world_inv db -> consumed k st0 (db_feed db) c -> (here db g).1 = 1 ->
  game_of g (applied c) = take (length (game_of g (applied c))) (game_of g (db_feed db)).
Proof.
  intros HI Hc He. pose proof (fo_positions _ (wi_feed _ HI) g) as Hp. apply take_of_lookup. intros i x Hx.
  assert (Hin : forall e, e ∈ game_of g (applied c) -> exists j, game_of g (db_feed db) !! j = Some e).
  { intros e [Hg H]%list_elem_of_filter. apply list_elem_of_lookup. apply list_elem_of_filter. split; [done|]. by apply (cn_feed _ _ _ _ Hc). }
  destruct (Hin x) as [j Hj]; [by eapply list_elem_of_lookup_2|]. destruct (positions_at _ _ _ _ _ _ _ _ Hp He Hj) as [_ Hpos].
  assert (Hpi : ev_FeedPosition x = 1 + Z.of_nat i).
  { eapply gapless_at; [apply (cn_gapless _ _ _ _ Hc)| |exact Hx]. intros e He'. destruct (Hin e He') as [j' Hj'].
    by destruct (positions_at _ _ _ _ _ _ _ _ Hp He Hj'). }
  by replace i with j by lia.
Qed.

(** C5: A consumer applies each change once and in order, from the database to its own
    state.  Whatever the requests, the relays and the broker do (events delivered in
    any order and repeatedly, transactions of the consumer refused or their commit
    unacknowledged), its state is the effects of a list of envelopes of the feed, no two
    with one identifier, those of a game without a gap inside an epoch; and for a game
    whose epoch was never reset they are the first ones of its feed. *)
Theorem consumer_applies_feed {T} (k : Consumer T) parse s st0 db y :
  world_inv db -> rtc (sys_step k parse s) (mkSystem (mkMachine db []) (fresh st0)) y ->
  readable parse (m_state (y_world y)) ->
  effects k (applied (y_checks y)) st0 = Ok (ck_state (y_checks y)) /\
  NoDup (map ev_EventID (applied (y_checks y))) /\
  (forall e, e ∈ applied (y_checks y) -> e ∈ db_feed (m_state (y_world y))) /\
  forall g, gapless (game_of g (applied (y_checks y))) /\
    ((here (m_state (y_world y)) g).1 = 1 ->
     exists n, game_of g (applied (y_checks y)) = take n (game_of g (db_feed (m_state (y_world y))))).
Proof.
  intros HI Hr Hok. destruct (sys_run k parse s st0 db y HI Hr) as [[HI' _] Hc]. specialize (Hc Hok).
  split_and!; [apply Hc..|]. intros g. split; [apply Hc|]. intros He. eexists. by eapply consumed_prefix.
Qed.

(** ** A consumer at work *)
Section DemoDeliveries.
Context {T : Type} (k : Consumer T).

Fixpoint deliver_all (wire : list WireEvent) (order : list nat) (c : Checkpoints T) : Checkpoints T :=
  match order with
  | [] => c
  | i :: rest =>
      deliver_all wire rest
        (match wire !! i with
         | Some v => match UnmarshalEnvelope Ok (wv_Payload v) with
                     | Ok e => (Consumer_Apply Served k e c).2
                     | Err _ => c
                     end
         | None => c
         end)
  end.

Lemma deliver_all_reach s m order c :
  rtc (sys_step k Ok s) (mkSystem m c) (mkSystem m (deliver_all (db_wire (m_state m)) order c)).
Proof.
  revert c. induction order as [|i order IH]; intros c; cbn; [apply rtc_refl|]. etransitivity; [|apply IH].
  destruct (db_wire (m_state m) !! i) as [v|] eqn:Hi; [|apply rtc_refl].
  destruct (UnmarshalEnvelope Ok (wv_Payload v)) as [e|] eqn:He; [|apply rtc_refl].
  apply rtc_once. apply (delivers k Ok s m c v e Served); [by eapply list_elem_of_lookup_2|done].
Qed.

Lemma works_reach s m m' c : rtc (world_step s) m m' -> rtc (sys_step k Ok s) (mkSystem m c) (mkSystem m' c).
Proof. induction 1 as [m|m m1 m' Hst _ IH]; [apply rtc_refl|]. eapply rtc_l; [by apply works|done]. Qed.
End DemoDeliveries.

(** It keeps the kinds of what it has seen. *)
Definition demo_consumer : Consumer (list string) :=
  mkConsumer "world-reference" (Some (fun e l => Ok (l ++ [ev_Kind e])%list)).

(** Out of order and repeatedly. *)
Definition demo_consumed : Checkpoints (list string) :=
  deliver_all demo_consumer (db_wire demo_passed) [1; 0; 0; 1; 3; 2]%nat (fresh []).

Lemma readable_forallb parse db : forallb (envelope_ok parse) (db_feed db) = true -> readable parse db.
Proof. intros H e He. apply (proj1 (forallb_forall _ _) H). by apply list_elem_of_In. Qed.

Lemma demo_readable : readable Ok demo_passed.
Proof. apply readable_forallb. vm_compute. reflexivity. Qed.

Lemma consumer_applies_feed_witness :
  ck_state demo_consumed = ["location_created"; "location_created"; "character_genesis"] /\
  exists n, game_of "main" (applied demo_consumed) = take n (game_of "main" (db_feed demo_passed)).
Proof.
  split; [vm_compute; reflexivity|].
  assert (Hr : rtc (sys_step demo_consumer Ok demo_service) (mkSystem (mkMachine demo_world []) (fresh []))
                 (mkSystem (mkMachine demo_passed []) demo_consumed)).
  { etransitivity; [exact (works_reach demo_consumer demo_service _ _ (fresh []) demo_passed_reach)|].
    exact (deliver_all_reach demo_consumer demo_service (mkMachine demo_passed []) [1; 0; 0; 1; 3; 2]%nat (fresh [])). }
  assert (He : (here demo_passed "main").1 = 1) by (vm_compute; reflexivity).
  exact (proj2 (proj2 (proj2 (proj2 (consumer_applies_feed demo_consumer Ok demo_service [] demo_world
    (mkSystem (mkMachine demo_passed []) demo_consumed) demo_world_inv Hr demo_readable))) "main") He).
Defined.

(** ** After a reset *)
Definition demo_pass (k : nat) (db : WDB) : WDB := (run world_exec (demo_env k) (forget (Drain 9 demo_relay)) db).2.

Lemma demo_pass_reach k db : rtc (world_step demo_service) (mkMachine db []) (mkMachine (demo_pass k db) []).
Proof. apply serve_alone; [done|]. right. by exists (mkRelayConfig "main" 0), demo_relay, 9%nat. Qed.

(** One change, published and consumed; a new epoch; two changes, published. *)
Definition demo_one : list request := [RqCreateLocation "system" (Some demo_hall)].
Definition demo_two : list request :=
  [RqResetEpoch "main"; RqCreateLocation "system" (Some demo_yard); RqCreateCharacter (Some demo_char) "created"].
Definition demo_first : WDB := demo_pass 8 (demo_run 0 demo_one demo_world).
Definition demo_first_seen : Checkpoints (list string) := deliver_all demo_consumer (db_wire demo_first) [0]%nat (fresh []).
Definition demo_reset : WDB :=
  demo_pass 9 (demo_run 4 demo_two demo_first).
Definition demo_reset_seen : Checkpoints (list string) :=
  deliver_all demo_consumer (db_wire demo_reset) [2; 1]%nat demo_first_seen.

Definition demo_reset_system : system := mkSystem (mkMachine demo_reset []) demo_reset_seen.

Lemma demo_reset_reach :
  rtc (sys_step demo_consumer Ok demo_service) (mkSystem (mkMachine demo_world []) (fresh [])) demo_reset_system.
Proof.
  etransitivity; [exact (works_reach demo_consumer demo_service _ _ _ (demo_reach 0 demo_one demo_world))|].
  etransitivity; [exact (works_reach demo_consumer demo_service _ _ _ (demo_pass_reach 8 (demo_run 0 demo_one demo_world)))|].
  etransitivity; [exact (deliver_all_reach demo_consumer demo_service (mkMachine demo_first []) [0]%nat (fresh []))|].
  etransitivity; [exact (works_reach demo_consumer demo_service _ _ _ (demo_reach 4 demo_two demo_first))|].
  etransitivity; [exact (works_reach demo_consumer demo_service _ _ _ (demo_pass_reach 9 (demo_run 4 demo_two demo_first)))|].
  exact (deliver_all_reach demo_consumer demo_service (mkMachine demo_reset []) [2; 1]%nat demo_first_seen).
Qed.

(** The first event of a new epoch need not be its first: a consumer takes any
    position after a reset, and discards for good the earlier ones it has not seen.  A
    change of the current epoch is on the stream and was delivered, its receipt is
    there, and it was not and will not be applied. *)
Theorem reset_can_lose_a_change :
  exists y i e, rtc (sys_step demo_consumer Ok demo_service) (mkSystem (mkMachine demo_world []) (fresh [])) y /\
    db_feed (m_state (y_world y)) !! i = Some e /\ ev_Epoch e = (here (m_state (y_world y)) "main").1 /\ ev_FeedPosition e = 1 /\
    bool_decide (("world-reference", ev_EventID e) ∈ ck_receipts (y_checks y)) = true /\
    str_mem (ev_EventID e) (map ev_EventID (applied (y_checks y))) = false /\
    Consumer_Apply Served demo_consumer e (y_checks y) = (Ok false, y_checks y).
Proof.
  exists demo_reset_system, 1%nat. eexists. split; [apply demo_reset_reach|].
  split; [vm_compute; reflexivity|]. repeat split; vm_compute; reflexivity.
Qed.

(** ** An undisturbed pass *)
Definition served (en : wenv) : Prop := we_fault en = Served.

Abbreviation sends := (ends world_exec world_inv world_grows served).

Lemma served_read {A B} (f : Tick -> WDB -> result A) (k : result A -> wprog B) Q s :
  (forall tk, sends (k (f tk s)) Q s) -> sends (Call (WRead f) k) Q s.
Proof. intros H en Hen _. cbn. rewrite Hen. apply H. Qed.

Lemma served_tx {A B} (t : Tick -> wtx A) (k : result A -> wprog B) Q s :
  (forall tk, world_inv (atomically (t tk) s).2 -> sends (k (atomically (t tk) s).1) Q (atomically (t tk) s).2) ->
  sends (Call (WTx t) k) Q s.
Proof. intros H en Hen [HI _]. cbn in *. rewrite Hen in *. by apply H. Qed.

Lemma served_ctx {B} h (k : unit -> wprog B) Q s : sends (k tt) Q s -> sends (try_ ctx_Err h k) Q s.
Proof. intros H. apply ends_bind. by apply served_read. Qed.

Lemma served_alive {B} h (k : unit -> wprog B) Q s : sends (k tt) Q s -> sends (try_ alive h k) Q s.
Proof. intros H. apply ends_bind. by apply served_read. Qed.

Lemma served_next {B} l h (k : option Envelope -> wprog B) Q s :
  sends (k (next_unpublished (ls_gameID l) s)) Q s -> sends (try_ (NextUnpublished l) h k) Q s.
Proof. intros H. apply ends_bind. apply served_alive. by apply served_read. Qed.

Lemma served_publish {B} max left v h (k : unit -> wprog B) Q s :
  (world_inv (add_wire v s) -> sends (k tt) Q (add_wire v s)) -> sends (try_ (publish_attempts max (S left) v) h k) Q s.
Proof. intros H. apply ends_bind. cbn [publish_attempts]. apply served_ctx. apply served_tx. cbn. intros _. by apply H. Qed.

Definition published_now (now : Z) (id : ULID) (db : WDB) : WDB := (set_published now id db).2.

Lemma served_mark {B} l id c h (k : unit -> wprog B) Q s :
  db_counters s !! ls_gameID l = Some c -> fc_lease_generation c = ls_generation l ->
  (forall now, world_inv (published_now now id s) -> sends (k tt) Q (published_now now id s)) ->
  sends (try_ (MarkPublished l id (ls_generation l)) h k) Q s.
Proof.
  intros Hc Hgen H. apply ends_bind. apply served_alive. apply served_read. intros _. rewrite Hc.
  cbv beta iota. rewrite Hgen, Z.eqb_refl. cbv beta iota delta [negb]. apply served_tx. intros tk. by apply H.
Qed.

(** What is still to be published. *)
Definition backlog (g : string) (db : WDB) : gmap ULID outbox_rec :=
  filter (fun kv => unpublished g kv.2 = true) (db_outbox db).

Definition publishable (e : Envelope) : bool := match EnvelopeToEvent 0 e with Ok _ => true | Err _ => false end.

Lemma publishable_any e now : publishable e = true -> exists v, EnvelopeToEvent now e = Ok v.
Proof. unfold publishable, EnvelopeToEvent. cbv zeta. intros H. repeat case_match; try done; eauto. Qed.

Lemma backlog_none g db : next_unpublished g db = None -> backlog g db = ∅.
Proof.
  unfold next_unpublished. intros H%fmap_None. apply map_eq. intros id. rewrite lookup_empty.
  apply map_lookup_filter_None. right. intros r Hr Hu. cbn in Hu.
  assert (Hin : r ∈ order_by feed_le (map snd (rows_where (fun _ r => unpublished g r) (db_outbox db)))).
  { apply elem_of_order_by, list_elem_of_fmap. exists (id, r). split; [done|]. by apply rows_where_elem. }
  destruct (order_by _ _); [set_solver|done].
Qed.

Lemma backlog_some g db e : world_inv db -> next_unpublished g db = Some e ->
  exists r, backlog g db !! ev_EventID e = Some r /\ ob_envelope r = e /\ ev_GameID e = g.
Proof.
  intros HI ((id & r & Hr & Hu & <-) & _)%next_unpublished_first. destruct (fo_outbox _ (wi_feed _ HI) _ _ Hr) as [Hid _].
  exists r. rewrite Hid. split_and!; [by apply map_lookup_filter_Some|done|]. apply andb_prop in Hu as [Hu _]. by apply String.eqb_eq.
Qed.

Lemma backlog_published now g id db : backlog g (published_now now id db) = delete id (backlog g db).
Proof.
  apply map_eq. intros i. unfold backlog, published_now. cbn. destruct (decide (i = id)) as [->|Hi].
  - rewrite lookup_delete_eq. apply map_lookup_filter_None. right. intros r. rewrite lookup_alter_eq.
    intros (x & Hx & ->)%fmap_Some. cbn. unfold unpublished. destruct (ob_published_at x) as [t|] eqn:E; cbn; [rewrite E|]; cbn;
      by rewrite andb_false_r.
  - rewrite lookup_delete_ne by done. rewrite !map_lookup_filter, lookup_alter_ne by done. done.
Qed.

Lemma drain_loop_ends fuel r l c n s :
  rl_halted r = false -> 0 < rc_MaxPublishAttempts (rl_cfg r) ->
  db_counters s !! ls_gameID l = Some c -> fc_lease_generation c = ls_generation l -> world_inv s ->
  (forall id row, backlog (ls_gameID l) s !! id = Some row -> publishable (ob_envelope row) = true) ->
  (size (backlog (ls_gameID l) s) < fuel)%nat ->
  sends (drain_loop fuel r l n)
    (fun d o => backlog (ls_gameID l) d = ∅ /\ o = Some (mkDrained r (n + Z.of_nat (size (backlog (ls_gameID l) s))) None)) s.
Proof.
  intros Hh Hmax. revert n s. induction fuel as [|fuel IH]; intros n s Hc Hgen HI Hp Hf; [lia|]. cbn [drain_loop]. unfold drain_step.
  apply served_ctx, served_next. rewrite Hh. cbn [andb].
  destruct (next_unpublished (ls_gameID l) s) as [e|] eqn:En.
  - destruct (backlog_some _ _ _ HI En) as (row & Hrow & He & Hg). pose proof (Hp _ _ Hrow) as Hpub. rewrite He in Hpub.
    apply ends_bind. unfold publishOne. apply ends_bind. intros en _ _. cbn [world_exec fst snd].
    destruct (publishable_any e (tk_now (we_tick en)) Hpub) as [v Hv]. cbn [ends]. rewrite Hv.
    destruct (Z.to_nat (rc_MaxPublishAttempts (rl_cfg r))) as [|left] eqn:El; [lia|].
    apply served_publish. intros HI1. eapply served_mark; [exact Hc|exact Hgen|]. intros now HI2. cbn [ends].
    pose proof (backlog_published now (ls_gameID l) (ev_EventID e) (add_wire v s)) as Hb.
    change (backlog (ls_gameID l) (add_wire v s)) with (backlog (ls_gameID l) s) in Hb.
    assert (Hs : size (backlog (ls_gameID l) s) = S (size (backlog (ls_gameID l) (published_now now (ev_EventID e) (add_wire v s))))).
    { rewrite Hb, map_size_delete_Some by by rewrite Hrow. assert (size (backlog (ls_gameID l) s) <> 0)%nat; [|lia].
      intros Hz%map_size_empty_inv. by rewrite Hz, lookup_empty in Hrow. }
    eapply ends_mono; [|apply (IH (n + 1)); [exact Hc|exact Hgen|done| |lia]].
    + intros d o [Hd ->]. split; [done|]. f_equal. f_equal. lia.
    + intros id x. rewrite Hb. intros [_ Hx]%lookup_delete_Some. by eapply Hp.
  - cbn. apply backlog_none in En. rewrite En, map_size_empty. split; [done|]. f_equal. f_equal. lia.
Qed.

(** The room a lease needs in its row. *)
Definition lease_room (g : string) (db : WDB) : Prop :=
  let c := counter_of g db in
  int8_ok (fc_next_position c) && int8_ok (fc_epoch c) && int8_ok (fc_lease_generation c + 1) = true.

Lemma served_acquire {B} r h (k : Lease -> wprog B) Q s :
  lease_room (rc_GameID (rl_cfg r)) s ->
  (forall l c s', ls_gameID l = rc_GameID (rl_cfg r) -> db_counters s' !! ls_gameID l = Some c ->
     fc_lease_generation c = ls_generation l -> world_inv s' -> db_outbox s' = db_outbox s -> sends (k l) Q s') ->
  sends (try_ (acquireLease r) h k) Q s.
Proof.
  intros Hroom H. apply ends_bind, ends_bind. do 2 (apply served_read; intros _). apply served_tx. intros tk.
  assert (Hb : exists c, bump_generation (rc_GameID (rl_cfg r)) s =
            (Ok (fc_lease_generation c), set_counters (<[rc_GameID (rl_cfg r) := c]> (db_counters s)) s)).
  { unfold lease_room, counter_of in Hroom. set (g := rc_GameID (rl_cfg r)) in *.
    exists (match db_counters s !! g with
            | None => mkCounter 1 1 1
            | Some c => mkCounter (fc_next_position c) (fc_epoch c) (fc_lease_generation c + 1)
            end).
    unfold bump_generation, put_counter, require, read, mbind, txn_bind.
    destruct (db_counters s !! g) as [c|]; cbn in *; [by rewrite Hroom|done]. }
  destruct Hb as [c Hb]. rewrite (proj2 (atomically_Ok _ _ _ _) Hb). intros HI. cbn [fst snd] in *.
  apply (H (mkLease (rc_GameID (rl_cfg r)) (fc_lease_generation c)) c); [done|cbn; apply lookup_insert_eq|done|done|done].
Qed.

(** C24: A pass of the relay that nothing disturbs publishes everything: it returns
    without error after as many publications as there were unpublished envelopes, and
    then every envelope of the current epoch is on the stream.  One turn of the loop
    more than there are rows is enough. *)
Theorem drain_publishes_all cfg fuel (ens : nat -> wenv) db :
  world_inv db -> (forall n, served (ens n)) -> lease_room (rc_GameID cfg) db ->
  (forall id row, backlog (rc_GameID cfg) db !! id = Some row -> publishable (ob_envelope row) = true) ->
  (size (backlog (rc_GameID cfg) db) < fuel)%nat ->
  let '(o, db') := run world_exec ens (Drain fuel (NewRelay cfg)) db in
  (exists d, o = Some d /\ dr_err d = None /\ dr_published d = Z.of_nat (size (backlog (rc_GameID cfg) db))) /\
  backlog (rc_GameID cfg) db' = ∅ /\
  forall e, e ∈ db_feed db' -> ev_GameID e = rc_GameID cfg -> ev_Epoch e = (here db' (rc_GameID cfg)).1 -> on_wire (db_wire db') e.
Proof.
  intros HI Hs Hroom Hp Hf. set (g := rc_GameID cfg) in *.
  assert (He : sends (Drain fuel (NewRelay cfg))
    (fun d o => backlog g d = ∅ /\ exists r, o = Some (mkDrained r (Z.of_nat (size (backlog g db))) None)) db).
  { unfold Drain, ensureLease. cbn [NewRelay rl_lease]. apply served_acquire; [exact Hroom|]. cbn [NewRelay rl_cfg rc_GameID].
    intros l c s' Hl Hc Hgen HI' Ho.
    assert (Hb : backlog (ls_gameID l) s' = backlog g db) by (unfold backlog; rewrite Ho, Hl; done).
    eapply ends_mono; [|eapply drain_loop_ends; [done|apply (NewRelay_attempts cfg)|exact Hc|exact Hgen|done|by rewrite Hb|by rewrite Hb]].
    rewrite Hb, Hl. intros d o [Hd ->]. split; [done|]. by eexists. }
  pose proof (ends_run world_exec anytime world_inv world_grows served _ _ ens db Hs ltac:(done) HI
    (Drain_wp fuel (NewRelay cfg) db (NewRelay_attempts cfg)) He) as [[HI' _] [Hb [r Ho]]].
  destruct (run _ _ _ _) as [o db']. cbn in *. split; [by eexists|]. split; [done|]. intros e Hin Hg Hep.
  destruct (fo_feed _ (wi_feed _ HI') _ Hin) as (row & Hrow & <-). destruct (ob_published_at row) as [t|] eqn:Et.
  - destruct (wo_sent _ (wi_wire _ HI') _ _ Hrow) as [?|Hlt]; [by rewrite Et|done|]. rewrite Hg in Hlt. unfold here in Hlt. cbn in Hlt. lia.
  - exfalso. assert (Hx : backlog g db' !! ev_EventID (ob_envelope row) = Some row); [|by rewrite Hb in Hx].
    apply map_lookup_filter_Some. split; [done|]. cbn. unfold unpublished. rewrite Hg, String.eqb_refl, Et. done.
Qed.

(** The four changes of the small world. *)
Lemma drain_publishes_all_witness :
  size (backlog "main" demo_db) = 4%nat /\
  let '(o, db') := run world_exec (demo_env 9) (Drain 5 (NewRelay (mkRelayConfig "main" 0))) demo_db in
  (exists d, o = Some d /\ dr_err d = None /\ dr_published d = Z.of_nat (size (backlog "main" demo_db))) /\
  backlog "main" db' = ∅ /\
  forall e, e ∈ db_feed db' -> ev_GameID e = "main" -> ev_Epoch e = (here db' "main").1 -> on_wire (db_wire db') e.
Proof.
  assert (Hsz : size (backlog "main" demo_db) = 4%nat) by (vm_compute; reflexivity). split; [exact Hsz|].
  assert (HI : world_inv demo_db).
  { destruct (world_run_sound demo_service _ _ (demo_reach 0 demo_requests demo_world) (idle_sound demo_world demo_world_inv)) as [[H _] _].
    exact H. }
  assert (Hp : forallb (fun kv => publishable (ob_envelope kv.2)) (map_to_list (backlog "main" demo_db)) = true)
    by (vm_compute; reflexivity).
  apply (drain_publishes_all (mkRelayConfig "main" 0) 5 (demo_env 9) demo_db HI).
  - intros n. reflexivity.
  - vm_compute. reflexivity.
  - intros id row Hrow. apply elem_of_map_to_list, list_elem_of_In in Hrow. exact (proj1 (forallb_forall _ _) Hp _ Hrow).
  - cbn [rc_GameID]. rewrite Hsz. lia.
Defined.

(** ** Skips *)
Lemma positions_unique g e p l e' p' x y :
  positions g e p l e' p' -> x ∈ l -> y ∈ l -> ev_GameID x = g -> ev_GameID y = g ->
  ev_Epoch x = ev_Epoch y -> ev_FeedPosition x = ev_FeedPosition y -> x = y.
Proof.
  induction 1 as [e p|e p z evs e' p' Hg He Hp Hr IH|e p z evs e' p' Hg Hr IH|e p evs e' p' Hr IH];
    intros Hx Hy Hgx Hgy Hep Hpos.
  - set_solver.
  - assert (Hlater : forall u, u ∈ evs -> ev_GameID u = g -> ev_Epoch u = ev_Epoch z -> ev_FeedPosition u <> ev_FeedPosition z).
    { intros u Hu Hgu Heu Hpu. destruct (positions_between _ _ _ _ _ _ u Hr Hu Hgu) as [Hb _]. unfold before in Hb. lia. }
    apply elem_of_cons in Hx as [->|Hx], Hy as [->|Hy]; [done|..|by apply IH]; exfalso; eapply Hlater; eauto.
  - apply elem_of_cons in Hx as [->|Hx], Hy as [->|Hy]; try done. by apply IH.
  - by apply IH.
Qed.

Abbreviation alone := (ends world_exec (fun _ => True) (fun _ _ => True)).

Section Skips.
Context (parse : string -> result ULID) (g : string) (e : Envelope) (db0 : WDB).
Context (HI : world_inv db0) (Hnext : next_unpublished g db0 = Some e).

Definition good_id (i : ULID) : Prop := i <> EmptyString /\ parse i = Ok i.
Definition fresh_ids (en : wenv) : Prop := good_id (we_id en).

Definition marker_event (m : ULID) (w : WireEvent) : Prop := exists now, EnvelopeToEvent now (buildMarker e m) = Ok w.

(** The row of [e] and what the skips added to the stream. *)
Record skipped (row : outbox_rec) (ws : list WireEvent) (db : WDB) : Prop := {
  sk_row : db_outbox db !! ev_EventID e = Some row;
  sk_env : ob_envelope row = e;
  sk_rest : forall id, id <> ev_EventID e -> db_outbox db !! id = db_outbox db0 !! id;
  sk_wire : db_wire db = (db_wire db0 ++ ws)%list;
  sk_good : forall m, ob_skip_marker row = Some m -> good_id m;
  sk_one : forall w, w ∈ ws -> exists m, ob_skip_marker row = Some m /\ marker_event m w;
  sk_mark : is_Some (ob_published_at row) -> ws <> []
}.

Definition skipping (db : WDB) : Prop := exists row ws, skipped row ws db.

(** Any other unpublished row of the game is elsewhere in the feed. *)
Lemma e_facts : ev_GameID e = g /\ e ∈ db_feed db0 /\
  (forall id r, db_outbox db0 !! id = Some r -> unpublished g r = true -> id <> ev_EventID e ->
     ev_FeedPosition e < ev_FeedPosition (ob_envelope r) /\ ev_Epoch (ob_envelope r) = ev_Epoch e).
Proof.
  destruct (next_unpublished_first _ _ _ Hnext) as [(id0 & r0 & Hr0 & Hu0 & He0) Hmin].
  destruct HI as [_ Hf Hw _]. destruct (fo_outbox _ Hf _ _ Hr0) as [Hid0 Hin0]. rewrite He0 in Hid0, Hin0.
  assert (Hun : forall r, unpublished g r = true -> ev_GameID (ob_envelope r) = g /\ ob_published_at r = None).
  { intros r [Hg Hp]%andb_prop. split; [by apply String.eqb_eq|by destruct (ob_published_at r)]. }
  destruct (Hun _ Hu0) as [Hg0 Hn0]. rewrite He0 in Hg0. split_and!; [done|done|]. intros id r Hr Hu Hid.
  destruct (Hun _ Hu) as [Hg Hn]. destruct (fo_outbox _ Hf _ _ Hr) as [Hidr Hin].
  pose proof (wo_current _ Hw _ _ Hr Hn) as Hc. pose proof (wo_current _ Hw _ _ Hr0 Hn0) as Hc0. rewrite He0, Hg0 in Hc0. rewrite Hg in Hc.
  assert (Hep : ev_Epoch (ob_envelope r) = ev_Epoch e) by lia. split; [|done]. destruct (Hmin _ _ Hr Hu) as [?|[_ Hle]]; [lia|].
  destruct (decide (ev_FeedPosition e = ev_FeedPosition (ob_envelope r))) as [Heq|]; [|lia]. exfalso. apply Hid.
  rewrite <- Hidr. f_equal. symmetry. eapply positions_unique; [apply (fo_positions _ Hf g)|done..].
Qed.

Lemma skipped_rows row ws db id r :
  skipped row ws db -> db_outbox db !! id = Some r -> unpublished g r = true ->
  (id = ev_EventID e /\ r = row) \/ ev_FeedPosition e < ev_FeedPosition (ob_envelope r).
Proof.
  intros Hk Hr Hu. destruct (decide (id = ev_EventID e)) as [->|Hid].
  - left. split; [done|]. rewrite (sk_row _ _ _ Hk) in Hr. congruence.
  - right. rewrite (sk_rest _ _ _ Hk) in Hr by done. by apply (proj2 (proj2 e_facts) id r Hr Hu Hid).
Qed.

(** Whatever is the next row at the position is [e], which then waits. *)
Lemma skipped_next row ws db env :
  skipped row ws db -> next_unpublished g db = Some env -> ev_FeedPosition env = ev_FeedPosition e ->
  env = e /\ ob_published_at row = None.
Proof.
  intros Hk ((id & r & Hr & Hu & <-) & _)%next_unpublished_first Hpos.
  destruct (skipped_rows _ _ _ _ _ Hk Hr Hu) as [[-> ->]|]; [|lia]. split; [apply Hk|].
  apply andb_prop in Hu as [_ Hu]. by destruct (ob_published_at row).
Qed.

Lemma skipped_blocked row ws db :
  skipped row ws db -> ob_published_at row = None -> blocked_at g (ev_FeedPosition e) db = Some (ev_EventID e, row).
Proof.
  intros Hk Hn. assert (Hu : unpublished g row = true).
  { unfold unpublished. rewrite Hn, (sk_env _ _ _ Hk), (proj1 e_facts), String.eqb_refl. done. }
  unfold blocked_at. set (l := rows_where _ _).
  assert (Hl : forall x, x ∈ l <-> x = (ev_EventID e, row)).
  { intros [i x]. unfold l. rewrite rows_where_elem. split.
    - intros [Hx [Hux Hpx%Z.eqb_eq]%andb_prop]. destruct (skipped_rows _ _ _ _ _ Hk Hx Hux) as [[-> ->]|]; [done|lia].
    - intros [= -> ->]. split; [apply Hk|]. rewrite Hu. cbn. apply Z.eqb_eq. by rewrite (sk_env _ _ _ Hk). }
  pose proof (NoDup_rows_where (fun _ r => unpublished g r && (ev_FeedPosition (ob_envelope r) =? ev_FeedPosition e)) (db_outbox db)) as Hnd.
  fold l in Hnd. destruct l as [|x l']; [pose proof (proj2 (Hl (ev_EventID e, row)) eq_refl); set_solver|].
  assert (x = (ev_EventID e, row)) as -> by (apply Hl; set_solver). destruct l' as [|y l']; [done|].
  assert (y = (ev_EventID e, row)) as -> by (apply Hl; set_solver). apply NoDup_cons in Hnd as [Hn' _]. set_solver.
Qed.

(** Alone, whatever the answers. *)
Abbreviation skips := (alone fresh_ids).

Lemma alone_read {A B} (f : Tick -> WDB -> result A) (k : result A -> wprog B) Q s :
  (forall tk, skips (k (f tk s)) Q s) -> (forall err, skips (k (Err err)) Q s) -> skips (Call (WRead f) k) Q s.
Proof. intros H He en _ _. cbn. by destruct (we_fault en). Qed.

Lemma alone_write {B} (f : Tick -> WDB -> WDB) (k : result unit -> wprog B) Q s :
  (forall tk, skips (k (Ok tt)) Q (f tk s) /\ forall err, skips (k (Err err)) Q (f tk s)) -> (forall err, skips (k (Err err)) Q s) ->
  skips (Call (WTx (fun tk => write (f tk))) k) Q s.
Proof. intros H He en _ _. cbn. destruct (we_fault en); [apply H|apply He|apply H]. Qed.

Lemma alone_alive {B} (k : unit -> wprog B) (h : error -> wprog B) (Q : WDB -> B -> Prop) s :
  (forall err, skips (h err) Q s) -> skips (k tt) Q s -> skips (try_ alive h k) Q s.
Proof. intros Hh Hk. apply ends_bind. apply alone_read; [done|]. intros err. apply Hh. Qed.

(** An update of the row of [e] alone. *)
Lemma skipped_update row ws db row' :
  skipped row ws db -> ob_envelope row' = e -> (forall m, ob_skip_marker row' = Some m -> good_id m) ->
  (forall w, w ∈ ws -> exists m, ob_skip_marker row' = Some m /\ marker_event m w) -> (is_Some (ob_published_at row') -> ws <> []) ->
  skipped row' ws (set_outbox (<[ev_EventID e := row']> (db_outbox db)) db).
Proof.
  intros [A B C D E F G] He Hm Hw Hp. split; cbn; try done; [by rewrite lookup_insert_eq|].
  intros id Hid. rewrite lookup_insert_ne by done. by apply C.
Qed.

Lemma skipped_publish row ws db m w :
  skipped row ws db -> ob_skip_marker row = Some m -> marker_event m w -> skipped row (ws ++ [w]) (add_wire w db).
Proof.
  intros [A B C D E F G] Hm Hw. split; cbn; try done.
  - by rewrite D, app_assoc.
  - intros x [Hx|Hx%list_elem_of_singleton]%elem_of_app; [by apply F|]. subst. eauto.
  - intros _. by destruct ws.
Qed.

Definition kept {B} (d : WDB) (_ : B) : Prop := skipping d.

(** An update of the row that blocks the feed, by a call that may fail. *)
Lemma alone_update {B} (f : Tick -> outbox_rec -> outbox_rec) row ws db (k : result unit -> wprog B) Q :
  skipped row ws db -> ob_published_at row = None ->
  (forall tk, let d := set_outbox (<[ev_EventID e := f tk row]> (db_outbox db)) db in
     skips (k (Ok tt)) Q d /\ forall err, skips (k (Err err)) Q d) ->
  (forall err, skips (k (Err err)) Q db) ->
  skips (Call (WTx (fun tk => update_blocked g (ev_FeedPosition e) (f tk))) k) Q db.
Proof.
  intros Hk Hn Hw He. pose proof (skipped_blocked _ _ _ Hk Hn) as Hb. unfold update_blocked.
  apply (alone_write (fun tk db => match blocked_at g (ev_FeedPosition e) db with
                                   | Some (id, r) => set_outbox (<[id := f tk r]> (db_outbox db)) db
                                   | None => db
                                   end)); [|done]. intros tk. rewrite Hb. apply Hw.
Qed.

Lemma marker_for_keeps {B} l row ws db (k : ULID -> wprog (result B)) :
  ls_gameID l = g -> skipped row ws db -> ob_published_at row = None ->
  (forall d row' m, skipped row' ws d -> ob_skip_marker row' = Some m -> ob_published_at row' = None -> skips (k m) kept d) ->
  skips (try_ (marker_for parse l (ev_FeedPosition e)) failed k) kept db.
Proof.
  intros Hl Hk Hn Hc. assert (Hs : skipping db) by by exists row, ws.
  apply ends_bind. unfold marker_for. apply ends_bind. unfold SkipMarkerID. apply alone_alive; [done..|].
  apply alone_read; [|done]. intros _. rewrite Hl, (skipped_blocked _ _ _ Hk Hn). cbv beta iota.
  destruct (ob_skip_marker row) as [m|] eqn:Em.
  - destruct (sk_good _ _ _ Hk m Em) as [Hne Hp]. rewrite (proj2 (is_empty_false m) Hne), Hp. cbn [ends]. by eapply Hc.
  - cbn [ends]. intros en Hen _. cbn [world_exec fst snd]. apply ends_bind. unfold PersistSkipMarkerID. apply alone_alive; [done..|].
    rewrite Hl. eapply alone_update; [exact Hk|exact Hn| |done]. intros tk d.
    assert (Hd : skipped (mkOutbox (ob_envelope row) (ob_published_at row) (Some (we_id en))) ws d).
    { apply (skipped_update row); [done|apply Hk| | |apply Hk].
      - cbn. by intros m [= <-].
      - intros w Hw. destruct (sk_one _ _ _ Hk _ Hw) as (m & Hm & _). congruence. }
    split; [|by intros; exists (mkOutbox (ob_envelope row) (ob_published_at row) (Some (we_id en))), ws].
    cbn [ends]. by eapply Hc.
Qed.

Lemma skip_under_keeps l row ws db :
  ls_gameID l = g -> skipped row ws db -> skips (skip_under parse l (ev_FeedPosition e)) kept db.
Proof.
  intros Hl Hk. assert (Hs : skipping db) by by exists row, ws. unfold skip_under. apply ends_bind. unfold NextUnpublished.
  apply alone_alive; [done..|]. apply alone_read; [|done]. intros _. rewrite Hl. cbn [ends].
  destruct (next_unpublished g db) as [env|] eqn:En; [|done].
  destruct (Z.eqb_spec (ev_FeedPosition env) (ev_FeedPosition e)) as [Hpos|]; cbn [negb]; [|done].
  destruct (skipped_next _ _ _ _ Hk En Hpos) as [-> Hn]. eapply marker_for_keeps; [done|exact Hk|exact Hn|].
  intros d row' m Hd Hm Hn'. assert (Hsd : skipping d) by by exists row', ws.
  apply ends_bind. intros en _ _. cbn [world_exec fst snd ends].
  destruct (EnvelopeToEvent _ (buildMarker e m)) as [w|err] eqn:Ew; [|done].
  assert (Hp : skipped row' (ws ++ [w]) (add_wire w d)) by (eapply skipped_publish; [done|done|by eexists]).
  assert (Hsp : skipping (add_wire w d)) by by exists row', (ws ++ [w])%list.
  apply (alone_write (fun _ => add_wire w)); [|done]. intros _. split; [|done].
  apply ends_bind. unfold MarkSkipResolved. apply alone_alive; [done..|]. rewrite Hl.
  eapply (alone_update (fun tk r => mkOutbox (ob_envelope r) (Some (tk_now tk)) (ob_skip_marker r))); [exact Hp|exact Hn'| |done].
  intros tk d'.
  assert (Hd' : skipping d').
  { exists (mkOutbox (ob_envelope row') (Some (tk_now tk)) (ob_skip_marker row')), (ws ++ [w])%list.
    apply (skipped_update row'); [done|apply Hp|apply Hp|apply Hp|]. intros _. by destruct ws. }
  by split.
Qed.

Lemma Skip_keeps db : skipping db -> skips (Skip parse g (ev_FeedPosition e)) kept db.
Proof.
  intros (row & ws & Hk). assert (Hs : skipping db) by by exists row, ws. unfold Skip. apply ends_bind. unfold AcquireLease.
  do 2 (apply alone_read; [intros _|done]). intros en _ _.
  assert (Hany : forall d o, db_outbox d = db_outbox db -> db_wire d = db_wire db ->
            skips (match o with Ok n => Done (Ok (mkLease g n)) | Err er => failed (ErrWrapCode "WORLD_OUTBOX_LEASE_BUMP_GENERATION_FAILED" er) end)
              (fun s r => skips (match r with
                                 | Ok l => r ← skip_under parse l (ev_FeedPosition e); _ ← Release l; Done r
                                 | Err er => failed (ErrWrapCode "WORLD_OUTBOX_SKIP_ACQUIRE_LEASE_FAILED" er)
                                 end) kept s) d).
  { intros d o Ho Hw. assert (Hkd : skipped row ws d).
    { destruct Hk as [A B C D E F G]. split; rewrite ?Ho, ?Hw; done. }
    destruct o as [n|er]; cbn [ends]; [|by exists row, ws]. apply ends_bind.
    eapply ends_mono; [|by eapply skip_under_keeps]. intros d' r Hd'. apply alone_read; [done|]. intros _. exact Hd'. }
  assert (Hb : db_outbox (atomically (bump_generation g) db).2 = db_outbox db /\ db_wire (atomically (bump_generation g) db).2 = db_wire db).
  { rewrite atomically_2. destruct (bump_generation g db) as [[n|er] d] eqn:Eb; [|done].
    unfold bump_generation in Eb. apply read_first in Eb. unfold put_counter in Eb. by tx_all. }
  destruct Hb as [Hb1 Hb2]. cbn [world_exec]. destruct (we_fault en) as [|er|er]; cbn [fst snd].
  - by apply Hany.
  - by apply (Hany _ (Err er)).
  - by apply (Hany _ (Err er)).
Qed.
End Skips.

#[local] Instance trivially_pre : PreOrder (fun _ _ : WDB => True).
Proof. done. Qed.

Lemma trivially_safe {B} (p : wprog B) s : safe world_exec (fun _ _ => True) (fun _ => True) (fun _ _ => True) s p.
Proof. unfold safe. revert s. induction p as [b|A c k IH]; intros s; cbn; [done|]. intros s1 en _ _ _. split; [done|apply IH]. Qed.

Fixpoint skip_again (parse : string -> result ULID) (g : string) (position : Z) (enss : list (nat -> wenv)) (db : WDB) : WDB :=
  match enss with
  | [] => db
  | ens :: rest => skip_again parse g position rest (run world_exec ens (Skip parse g position) db).2
  end.

(** A skip can be tried again.  Nothing else running, of any number of attempts to
    skip the envelope that blocks a feed, each failing at any call or losing its answer:
    all they add to the stream are copies of one marker, with one identifier and at the
    position of the envelope; the envelope counts as published only once the marker is
    on the stream; and no other row changes. *)
Theorem skips_publish_one_marker parse g e db enss :
  world_inv db -> next_unpublished g db = Some e ->
  (forall row m, db_outbox db !! ev_EventID e = Some row -> ob_skip_marker row = Some m -> good_id parse m) ->
  Forall (fun ens => forall n, good_id parse (we_id (ens n))) enss ->
  let db' := skip_again parse g (ev_FeedPosition e) enss db in
  exists row ws, db_outbox db' !! ev_EventID e = Some row /\ db_wire db' = (db_wire db ++ ws)%list /\
    (forall w, w ∈ ws -> exists m now, ob_skip_marker row = Some m /\ EnvelopeToEvent now (buildMarker e m) = Ok w) /\
    (is_Some (ob_published_at row) -> ws <> []) /\
    forall id, id <> ev_EventID e -> db_outbox db' !! id = db_outbox db !! id.
Proof.
  intros HI Hnext Hgood Hens. cbv zeta.
  assert (Hall : forall d, skipping parse e db d -> skipping parse e db (skip_again parse g (ev_FeedPosition e) enss d)).
  { clear Hgood. induction Hens as [|ens enss Hen _ IH]; intros d Hd; cbn [skip_again]; [done|]. apply IH.
    apply (ends_run world_exec (fun _ _ => True) (fun _ => True) (fun _ _ => True) (fresh_ids parse)
      (Skip parse g (ev_FeedPosition e)) (fun d _ => skipping parse e db d) ens d); try done.
    - apply trivially_safe.
    - by apply Skip_keeps. }
  destruct (backlog_some _ _ _ HI Hnext) as (row0 & [Hrow Hu]%map_lookup_filter_Some & Henv & _). cbn in Hu.
  assert (Hn : ob_published_at row0 = None) by (apply andb_prop in Hu as [_ Hu]; by destruct (ob_published_at row0)).
  assert (H : skipping parse e db db).
  { exists row0, []. split; [done|done|done|by rewrite app_nil_r|by intros m; apply Hgood|set_solver|]. rewrite Hn. by intros []. }
  apply Hall in H.
  destruct H as (row & ws & [A B C D E F G]). exists row, ws. split_and!; try done.
  intros w Hw. destruct (F w Hw) as (m & Hm & now & Hev). eauto.
Qed.

(** Three attempts: the answer to the publication lost, the mark refused, and one that
    succeeds. *)
Definition with_fault (f : wfault) (en : wenv) : wenv := mkWEnv (we_tick en) f (we_decide en) (we_hook en) (we_id en).
Definition demo_attempt (k i : nat) (f : wfault) (n : nat) : wenv :=
  if Nat.eqb n i then with_fault f (demo_env k n) else demo_env k n.
Definition demo_attempts : list (nat -> wenv) :=
  [demo_attempt 20 11 (Lost (ErrNew "timeout")); demo_attempt 21 10 (Refused (ErrNew "timeout")); demo_attempt 22 0 Served].

Definition demo_blocker : option Envelope := next_unpublished "main" demo_db.
Definition demo_skipped : WDB := skip_again Ok "main" 1 demo_attempts demo_db.

Lemma demo_attempt_id k i f n : we_id (demo_attempt k i f n) = demo_id (1000 * k + 100 * n + 50).
Proof. unfold demo_attempt. by destruct (Nat.eqb n i). Qed.

Lemma skips_publish_one_marker_witness :
  map wv_ID (db_wire demo_skipped) = [demo_id 20750; demo_id 20750; demo_id 20750] /\
  exists e, demo_blocker = Some e /\ exists row ws, db_outbox demo_skipped !! ev_EventID e = Some row /\
    db_wire demo_skipped = (db_wire demo_db ++ ws)%list /\
    (forall w, w ∈ ws -> exists m now, ob_skip_marker row = Some m /\ EnvelopeToEvent now (buildMarker e m) = Ok w).
Proof.
  split; [vm_compute; reflexivity|].
  assert (Hb : exists e, demo_blocker = Some e /\ ev_FeedPosition e = 1 /\ default None (ob_skip_marker <$> db_outbox demo_db !! ev_EventID e) = None)
    by (vm_compute; eexists; split; [reflexivity|split; reflexivity]).
  destruct Hb as (e & He & Hp & Hm). exists e. split; [exact He|].
  destruct (skips_publish_one_marker Ok "main" e demo_db demo_attempts demo_db_inv He) as (row & ws & H1 & H2 & H3 & _).
  - intros row m Hrow Hs. rewrite Hrow in Hm. cbn in Hm. congruence.
  - assert (Hid : forall k i f n, good_id Ok (we_id (demo_attempt k i f n))) by (intros; rewrite demo_attempt_id; by split).
    repeat constructor; intros; apply Hid.
  - rewrite Hp in H1, H2. exists row, ws. split; [exact H1|]. split; [exact H2|exact H3].
Defined.
