(* ===== verification/AuthStore.v ===== *)
(** The accounts, second factors, operator sessions and approvals: the tables behind
    [internal/auth], [internal/totp], [internal/store/role_store.go] and
    [internal/admin/approval], with the statements of their repositories.

    Every write is refused as PostgreSQL refuses it: primary keys, foreign keys, the
    ranges of the integer columns.  Times are nanoseconds, identifiers the text of their
    ULID.  A statement that returns rows in no stated order returns them in any order:
    [rank] is an argument of the functions that run one. *)

From S2P Require Import Prelude GoStrings GoText GoJson Sql WorldTypes.

#[local] Open Scope string_scope.
#[local] Open Scope Z_scope.

(** ** Rows *)
Record Player : Type := mkPlayer {
  py_ID : ULID;
  py_Username : string;
  py_PasswordHash : string;
  py_Email : option string;
  py_EmailVerified : bool;
  py_FailedAttempts : Z;
  py_LockedUntil : option Z;
  py_DefaultCharacterID : option ULID;
  py_Preferences : json;
  py_IsGuest : bool;
  py_CreatedAt : Z;
  py_UpdatedAt : Z
}.

Record totp_rec : Type := mkTotpRec {
  tr_wrapped_secret : string;
  tr_wrap_key_id : string;
  tr_enrolled_at : Z;
  tr_last_verified_at : option Z;
  tr_last_used_step : option Z;
  tr_failed_attempts : Z;
  tr_locked_until : option Z
}.

Record code_rec : Type := mkCodeRec {
  rc_player_id : ULID;
  rc_code_hash : string;
  rc_created_at : Z;
  rc_consumed_at : option Z
}.

Record bootstrap_rec : Type := mkBootstrapRec { bs_consumed_at : Z; bs_consumed_by_player_id : ULID }.

Record approval_rec : Type := mkApprovalRec {
  ap_primary_player_id : ULID;
  ap_op_kind : string;
  ap_op_args_hash : string;
  ap_expires_at : Z;
  ap_approved_at : option Z;
  ap_approved_by_player_id : option ULID;
  ap_created_at : Z
}.

Record PeerCred : Type := mkPeerCred { pc_UID : Z; pc_GID : Z; pc_PID : Z }.

Record OperatorIdentity : Type := mkIdentity {
  oi_PlayerID : ULID;
  oi_PeerCred : PeerCred;
  oi_TOTPVerified : bool;
  oi_AuthProviderName : string;
  oi_ProviderSpecificID : string
}.

Record sessionEntry : Type := mkSessionEntry { se_Identity : OperatorIdentity; se_ExpiresAt : Z }.

(** What the writes below did, latest first.  No operation reads it. *)
Inductive auth_event : Type :=
| EvClaimed (key : string) (player : ULID)
| EvEnrolled (player : ULID)
| EvGuessed (player : ULID) (at_ : Z)
| EvVerified (player : ULID) (step at_ : Z)
| EvConsumed (id player : ULID)
| EvCleared (player : ULID)
| EvApproved (request : string) (by_ : ULID) (at_ : Z)
| EvIssued (token : string) (identity : OperatorIdentity).

(** [ad_characters] gives the player of a character.  [ad_sessions] is the memory of the
    process, and [ad_log] a history. *)
Record AuthDB : Type := mkAuthDB {
  ad_players : gmap ULID Player;
  ad_characters : gmap ULID ULID;
  ad_roles : gset (ULID * string);
  ad_totp : gmap ULID totp_rec;
  ad_codes : gmap ULID code_rec;
  ad_bootstrap : gmap string bootstrap_rec;
  ad_approvals : gmap string approval_rec;
  ad_sessions : gmap string sessionEntry;
  ad_log : list auth_event
}.

Definition atx : Type -> Type := txn AuthDB.

Definition with_players (m : gmap ULID Player) (db : AuthDB) : AuthDB :=
  mkAuthDB m (ad_characters db) (ad_roles db) (ad_totp db) (ad_codes db) (ad_bootstrap db) (ad_approvals db)
    (ad_sessions db) (ad_log db).
Definition with_roles (m : gset (ULID * string)) (db : AuthDB) : AuthDB :=
  mkAuthDB (ad_players db) (ad_characters db) m (ad_totp db) (ad_codes db) (ad_bootstrap db) (ad_approvals db)
    (ad_sessions db) (ad_log db).
Definition with_totp (m : gmap ULID totp_rec) (db : AuthDB) : AuthDB :=
  mkAuthDB (ad_players db) (ad_characters db) (ad_roles db) m (ad_codes db) (ad_bootstrap db) (ad_approvals db)
    (ad_sessions db) (ad_log db).
Definition with_codes (m : gmap ULID code_rec) (db : AuthDB) : AuthDB :=
  mkAuthDB (ad_players db) (ad_characters db) (ad_roles db) (ad_totp db) m (ad_bootstrap db) (ad_approvals db)
    (ad_sessions db) (ad_log db).
Definition with_bootstrap (m : gmap string bootstrap_rec) (db : AuthDB) : AuthDB :=
  mkAuthDB (ad_players db) (ad_characters db) (ad_roles db) (ad_totp db) (ad_codes db) m (ad_approvals db)
    (ad_sessions db) (ad_log db).
Definition with_approvals (m : gmap string approval_rec) (db : AuthDB) : AuthDB :=
  mkAuthDB (ad_players db) (ad_characters db) (ad_roles db) (ad_totp db) (ad_codes db) (ad_bootstrap db) m
    (ad_sessions db) (ad_log db).
Definition with_sessions (m : gmap string sessionEntry) (db : AuthDB) : AuthDB :=
  mkAuthDB (ad_players db) (ad_characters db) (ad_roles db) (ad_totp db) (ad_codes db) (ad_bootstrap db)
    (ad_approvals db) m (ad_log db).
Definition logged (e : auth_event) (db : AuthDB) : AuthDB :=
  mkAuthDB (ad_players db) (ad_characters db) (ad_roles db) (ad_totp db) (ad_codes db) (ad_bootstrap db)
    (ad_approvals db) (ad_sessions db) (e :: ad_log db).

(** [if !c { return err }]. *)
Definition demand (c : bool) (e : error) : atx unit := if c then mret tt else fail e.

Definition fk_violation (constraint : string) : error := ErrNew ("23503:" +:+ constraint).
Definition out_of_range : error := ErrNew "22003".
Definition has {V} (m : gmap string V) (k : string) : bool := bool_decide (is_Some (m !! k)).

(** ** Players: [internal/auth/postgres/player_repo.go] *)
Definition ErrNotFound : error := ErrNew "not found".
Definition player_not_found : error := ErrWrapCode "PLAYER_NOT_FOUND" ErrNotFound.

(** [lower] is the database's LOWER. *)
Definition GetByUsername (rank : ULID -> Z) (lower : string -> string) (username : string) : atx Player :=
  ps ← read (fun db => order_by (fun a b => rank a.1 <=? rank b.1)
    (rows_where (fun _ p => String.eqb (lower (py_Username p)) (lower username)) (ad_players db)));
  match ps with
  | [] => fail player_not_found
  | (_, p) :: _ => mret p
  end.

(** The whole row but for its creation time. *)
Definition Update (p : Player) : atx unit :=
  o ← read (fun db => ad_players db !! py_ID p);
  match o with
  | None => fail player_not_found
  | Some old =>
      _ ← demand (int4_ok (py_FailedAttempts p)) (ErrWrapCode "PLAYER_UPDATE_FAILED" out_of_range);
      write (fun db => with_players (<[py_ID p :=
        mkPlayer (py_ID p) (py_Username p) (py_PasswordHash p) (py_Email p) (py_EmailVerified p) (py_FailedAttempts p)
          (py_LockedUntil p) (py_DefaultCharacterID p) (py_Preferences p) (py_IsGuest p) (py_CreatedAt old)
          (py_UpdatedAt p)]> (ad_players db)) db)
  end.

Definition UpdatePasswordAndClearLockout (now : Z) (id : ULID) (passwordHash : string) : atx unit :=
  o ← read (fun db => ad_players db !! id);
  match o with
  | None => fail player_not_found
  | Some p =>
      write (fun db => with_players (<[id :=
        mkPlayer (py_ID p) (py_Username p) passwordHash (py_Email p) (py_EmailVerified p) 0 None
          (py_DefaultCharacterID p) (py_Preferences p) (py_IsGuest p) (py_CreatedAt p) now]> (ad_players db)) db)
  end.

(** ** Roles: [internal/store/role_store.go] *)
Definition AddRole (characterID role : string) : atx unit :=
  _ ← (c ← read (fun db => has (ad_characters db) characterID); demand c (ErrWrap EmptyString (fk_violation "character_roles")));
  write (fun db => with_roles ({[(characterID, role)]} ∪ ad_roles db) db).

Definition RemoveRole (characterID role : string) : atx unit :=
  write (fun db => with_roles (ad_roles db ∖ {[(characterID, role)]}) db).

Definition PlayerHasRole (playerID role : string) (db : AuthDB) : bool :=
  existsb (fun cr => String.eqb cr.2 role && bool_decide (ad_characters db !! cr.1 = Some playerID)) (elements (ad_roles db)).

(** ** Second factors: [internal/totp/repo.go] *)
Record HashedRecoveryCode : Type := mkHashedCode { hc_ID : ULID; hc_CodeHash : string; hc_CreatedAt : Z }.

Record EnrollmentRecord : Type := mkEnrollmentRecord {
  er_PlayerID : ULID;
  er_WrappedSecret : string;
  er_WrapKeyID : string;
  er_EnrolledAt : Z;
  er_RecoveryCodes : list HashedRecoveryCode
}.

Record VerifyState : Type := mkVerifyState {
  vs_PlayerID : ULID;
  vs_WrappedSecret : string;
  vs_WrapKeyID : string;
  vs_LastUsedStep : option Z;
  vs_FailedAttempts : Z;
  vs_LockedUntil : option Z
}.

Definition ErrBootstrapAlreadyConsumed : error := ErrCode "TOTP_BOOTSTRAP_CONSUMED" "TOTP bootstrap already consumed".
Definition ErrAlreadyEnrolled : error := ErrCode "TOTP_ALREADY_ENROLLED" "TOTP already enrolled for this player".
Definition ErrNotEnrolled : error := ErrCode "TOTP_NOT_ENROLLED" "TOTP not enrolled for this player".
Definition ErrInvalidRecoveryCode : error := ErrCode "TOTP_INVALID_RECOVERY_CODE" "invalid recovery attempt".

Definition BootstrapClaim (key : string) (playerID : ULID) (at_ : Z) : atx bool :=
  taken ← read (fun db => has (ad_bootstrap db) key);
  if taken : bool then mret false
  else
    _ ← (p ← read (fun db => has (ad_players db) playerID);
         demand p (ErrWrapCode "TOTP_REPO_BOOTSTRAP_CLAIM" (fk_violation "crypto_bootstrap_state")));
    _ ← write (fun db => logged (EvClaimed key playerID)
                (with_bootstrap (<[key := mkBootstrapRec at_ playerID]> (ad_bootstrap db)) db));
    mret true.

Definition PlayerExists (playerID : ULID) (db : AuthDB) : bool := has (ad_players db) playerID.

Definition PlayerIDFromUsername (username : string) : atx ULID :=
  ps ← read (fun db => rows_where (fun _ p => String.eqb (py_Username p) username) (ad_players db));
  match ps with
  | [] => fail (ErrCode "TOTP_REPO_PLAYER_NOT_FOUND" "player not found")
  | (id, _) :: _ => mret id
  end.

Definition repo_IsEnrolled (playerID : ULID) (db : AuthDB) : bool := has (ad_totp db) playerID.

Definition insert_totp (e : EnrollmentRecord) : atx unit :=
  let refuse x := ErrWrapCode "TOTP_REPO_INSERT_TOTP" x in
  _ ← (t ← read (fun db => has (ad_totp db) (er_PlayerID e)); demand (negb t) (refuse (unique_violation "player_totp_pkey")));
  _ ← (p ← read (fun db => has (ad_players db) (er_PlayerID e)); demand p (refuse (fk_violation "player_totp")));
  write (fun db => logged (EvEnrolled (er_PlayerID e))
    (with_totp (<[er_PlayerID e :=
       mkTotpRec (er_WrappedSecret e) (er_WrapKeyID e) (er_EnrolledAt e) None None 0 None]> (ad_totp db)) db)).

Definition insert_code (playerID : ULID) (c : HashedRecoveryCode) : atx unit :=
  let refuse x := ErrWrapCode "TOTP_REPO_INSERT_RECOVERY_CODE" x in
  _ ← (t ← read (fun db => has (ad_codes db) (hc_ID c));
       demand (negb t) (refuse (unique_violation "player_totp_recovery_codes_pkey")));
  _ ← (p ← read (fun db => has (ad_players db) playerID); demand p (refuse (fk_violation "player_totp_recovery_codes")));
  write (fun db => with_codes (<[hc_ID c := mkCodeRec playerID (hc_CodeHash c) (hc_CreatedAt c) None]> (ad_codes db)) db).

(** The statements of [InsertEnrollment], in their order; on the connection pool each
    is a transaction of its own. *)
Definition InsertEnrollment_statements (e : EnrollmentRecord) : list (atx unit) :=
  insert_totp e :: map (insert_code (er_PlayerID e)) (er_RecoveryCodes e).

Fixpoint all_of (l : list (atx unit)) : atx unit :=
  match l with [] => mret tt | t :: l' => _ ← t; all_of l' end.

Definition InsertEnrollment (e : EnrollmentRecord) : atx unit := all_of (InsertEnrollment_statements e).

Definition BootstrapEnrollAtomic (key : string) (playerID : ULID) (rec : EnrollmentRecord) : atx unit :=
  claimed ← BootstrapClaim key playerID (er_EnrolledAt rec);
  if claimed : bool then InsertEnrollment rec else fail ErrBootstrapAlreadyConsumed.

Definition state_of (playerID : ULID) (r : totp_rec) : VerifyState :=
  mkVerifyState playerID (tr_wrapped_secret r) (tr_wrap_key_id r) (tr_last_used_step r) (tr_failed_attempts r)
    (tr_locked_until r).

Definition LoadEnrollment (playerID : ULID) : atx VerifyState :=
  o ← read (fun db => ad_totp db !! playerID);
  match o with
  | None => fail ErrNotEnrolled
  | Some r => mret (state_of playerID r)
  end.

Definition IncrementFailedAttempts (playerID : ULID) (threshold lockoutDuration now : Z) : atx VerifyState :=
  let refuse x := ErrWrapCode "TOTP_REPO_INCREMENT_FAILED" x in
  o ← read (fun db => ad_totp db !! playerID);
  match o with
  | None => fail (refuse ErrNoRows)
  | Some r =>
      let n := tr_failed_attempts r + 1 in
      let locks := threshold <=? n in
      _ ← demand (int4_ok n && (negb locks || int8_ok (now + lockoutDuration))) (refuse out_of_range);
      let r' := mkTotpRec (tr_wrapped_secret r) (tr_wrap_key_id r) (tr_enrolled_at r) (tr_last_verified_at r)
                  (tr_last_used_step r) n (if locks then Some (now + lockoutDuration) else tr_locked_until r) in
      _ ← write (fun db => logged (EvGuessed playerID now) (with_totp (<[playerID := r']> (ad_totp db)) db));
      mret (state_of playerID r')
  end.

Definition MarkVerified (playerID : ULID) (step at_ : Z) : atx unit :=
  write (fun db =>
    match ad_totp db !! playerID with
    | None => db
    | Some r =>
        logged (EvVerified playerID step at_)
          (with_totp (<[playerID := mkTotpRec (tr_wrapped_secret r) (tr_wrap_key_id r) (tr_enrolled_at r) (Some at_)
                                      (Some step) 0 None]> (ad_totp db)) db)
    end).

(** [verify] is the hasher's [Verify].  The identifier of a code is one the service
    drew, so it parses. *)
Definition consumeRecoveryCodeInTx (rank : ULID -> Z) (verify : string -> string -> result bool)
    (playerID : ULID) (rawCode : string) (at_ : Z) : atx ULID :=
  cands ← read (fun db => order_by (fun a b => rank a.1 <=? rank b.1)
    (rows_where (fun _ c => String.eqb (rc_player_id c) playerID && bool_decide (rc_consumed_at c = None)) (ad_codes db)));
  match List.find (fun ic => match verify rawCode (rc_code_hash ic.2) with Ok ok => ok | Err _ => false end) cands with
  | None => fail ErrInvalidRecoveryCode
  | Some (id, c) =>
      _ ← write (fun db => logged (EvConsumed id playerID)
        (with_codes (<[id := mkCodeRec (rc_player_id c) (rc_code_hash c) (rc_created_at c) (Some at_)]> (ad_codes db)) db));
      mret id
  end.

Definition clearEnrollmentInTx (playerID : ULID) : atx bool :=
  wasEnrolled ← read (repo_IsEnrolled playerID);
  _ ← write (fun db => logged (EvCleared playerID) (with_totp (delete playerID (ad_totp db)) db));
  _ ← write (fun db => with_codes
        (filter (fun ic => ~ (rc_player_id ic.2 = playerID /\ rc_consumed_at ic.2 = None)) (ad_codes db)) db);
  mret wasEnrolled.

Definition RecoverAndClearAtomic (rank : ULID -> Z) (verify : string -> string -> result bool)
    (playerID : ULID) (rawCode : string) (at_ : Z) : atx (ULID * bool) :=
  id ← consumeRecoveryCodeInTx rank verify playerID rawCode at_;
  wasEnrolled ← clearEnrollmentInTx playerID;
  mret (id, wasEnrolled).

(** ** Approvals: [internal/admin/approval/repo.go]

    [now] is the database's.  A request identifier is its sixteen bytes. *)
Record OpenRequest : Type := mkOpenRequest { oq_PrimaryPlayerID : ULID; oq_OpKind : string; oq_OpArgsHash : string }.

Record Approval : Type := mkApproval {
  av_RequestID : string;
  av_PrimaryPlayerID : ULID;
  av_OpKind : string;
  av_OpArgsHash : string;
  av_ExpiresAt : Z;
  av_ApprovedAt : option Z;
  av_ApprovedByPlayerID : string;
  av_CreatedAt : Z
}.

Definition snapshot_of (id : string) (r : approval_rec) : Approval :=
  mkApproval id (ap_primary_player_id r) (ap_op_kind r) (ap_op_args_hash r) (ap_expires_at r) (ap_approved_at r)
    (default EmptyString (ap_approved_by_player_id r)) (ap_created_at r).

Definition fiveMinutes : Z := 300 * 10 ^ 9.

Definition Open (now : Z) (id : string) (req : OpenRequest) : atx unit :=
  let refuse x := ErrWrapCode "APPROVAL_OPEN_FAILED" x in
  _ ← (t ← read (fun db => has (ad_approvals db) id); demand (negb t) (refuse (unique_violation "admin_approvals_pkey")));
  _ ← (p ← read (fun db => has (ad_players db) (oq_PrimaryPlayerID req)); demand p (refuse (fk_violation "admin_approvals")));
  write (fun db => with_approvals (<[id :=
    mkApprovalRec (oq_PrimaryPlayerID req) (oq_OpKind req) (oq_OpArgsHash req) (now + fiveMinutes) None None now]>
    (ad_approvals db)) db).

Definition approval_missing : error := ErrCode "APPROVAL_NOT_FOUND" "admin_approvals row not found".

Definition Get (now : Z) (id : string) : atx Approval :=
  o ← read (fun db => ad_approvals db !! id);
  match o with
  | Some r => if now <? ap_expires_at r then mret (snapshot_of id r) else fail approval_missing
  | None => fail approval_missing
  end.

Definition getRaw (id : string) : atx Approval :=
  o ← read (fun db => ad_approvals db !! id);
  match o with
  | Some r => mret (snapshot_of id r)
  | None => fail approval_missing
  end.

Definition GetByOpArgsHash (now : Z) (rank : string -> Z) (opKind opArgsHash excludePlayerID : string) : atx Approval :=
  if is_empty (TrimSpace excludePlayerID) then fail (ErrCode "APPROVAL_INVALID_ARGUMENT" "exclude_player_id is required")
  else
    rs ← read (fun db => order_by
      (fun a b => let approved x := default 0 (ap_approved_at x) in
         (approved b.2 <? approved a.2) || (approved b.2 =? approved a.2) && (rank a.1 <=? rank b.1))
      (rows_where (fun _ r =>
         String.eqb (ap_op_kind r) opKind && String.eqb (ap_op_args_hash r) opArgsHash && (now <? ap_expires_at r)
         && bool_decide (is_Some (ap_approved_at r)) && negb (String.eqb (ap_primary_player_id r) excludePlayerID))
         (ad_approvals db)));
    match rs with
    | [] => fail (ErrCode "APPROVAL_NOT_FOUND" "no matching fresh approved row found")
    | (id, r) :: _ => mret (snapshot_of id r)
    end.

(** The UPDATE of [MarkApproved]: whether it changed a row. *)
Definition approve_statement (now : Z) (id : string) (secondOpPlayerID : ULID) : atx bool :=
  let refuse x := ErrWrapCode "APPROVAL_MARK_FAILED" x in
  o ← read (fun db => ad_approvals db !! id);
  match o with
  | Some r =>
      if bool_decide (ap_approved_at r = None) && (now <? ap_expires_at r)
         && negb (String.eqb (ap_primary_player_id r) secondOpPlayerID)
      then
        _ ← (p ← read (fun db => has (ad_players db) secondOpPlayerID); demand p (refuse (fk_violation "admin_approvals")));
        _ ← write (fun db => logged (EvApproved id secondOpPlayerID now) (with_approvals (<[id :=
              mkApprovalRec (ap_primary_player_id r) (ap_op_kind r) (ap_op_args_hash r) (ap_expires_at r) (Some now)
                (Some secondOpPlayerID) (ap_created_at r)]> (ad_approvals db)) db));
        mret true
      else mret false
  | None => mret false
  end.

(** The SELECT that tells which condition failed. *)
Definition differentiate (id : string) : atx approval_rec :=
  o ← read (fun db => ad_approvals db !! id);
  match o with
  | Some r => mret r
  | None => fail (ErrCode "DENY_APPROVAL_NOT_FOUND" "admin_approvals row not found")
  end.
