(* ===== verification/OperatorAuth.v ===== *)
(** Signing in, second factors and the operators' door: [auth.Service.ValidateCredentials]
    ([internal/auth/registration.go]), [totp.Service] ([internal/totp/service.go]) with its
    audit decorator ([internal/admin/totp_audit]), the operator sessions and handlers of
    [internal/admin/auth] and [internal/admin/approval], and the dual control of
    [internal/admin/readstream/handler.go].

    A request is a program whose calls are statements and transactions, accesses to the
    session store, the clock, random bytes, the key provider, the hasher, the attribute
    resolver, the bus and the response stream.  A transaction is atomic; it may fail
    without effect, and it may commit while its answer is lost.

    The one-time code of RFC 4226, the password hasher, the parser of ULIDs, the database's
    LOWER and what the key provider unwraps are parameters ([AuthLib]). *)

From S2P Require Import Prelude GoStrings GoText GoJson EntityRef PolicyTypes Sql Programs Rekey BusTypes WorldTypes AuthStore.

#[local] Open Scope string_scope.
#[local] Open Scope Z_scope.
#[local] Open Scope prog_scope.

(** ** Calls *)
Record AuthLib : Type := mkAuthLib {
  al_lower : string -> string;
  al_hotp : string -> Z -> result string;              (* secret, counter *)
  al_verify : string -> string -> result bool;         (* password, hash *)
  al_parse_ulid : string -> result ULID;
  al_unwrap : string -> string -> option string        (* wrapped, key id *)
}.

Inductive afault : Type :=
| AServed
| ARefused (e : error)
| ALost (e : error).

(** An event of the system. *)
Record AuditEvent : Type := mkAuditEvent { ae_Subject : string; ae_Type : string; ae_Payload : json; ae_Timestamp : Z }.

Inductive Frame : Type :=
| PendingApproval (requestID : string) (expiresAt : Z)
| ReadFinished (reason : string) (at_ : Z).

Record oenv : Type := mkOEnv {
  oe_now : Z;
  oe_dbnow : Z;
  oe_fault : afault;
  oe_rank : string -> Z;
  oe_unwrap : string -> string -> result string;
  oe_wrap : string -> result (string * string);
  oe_hash : string -> result string;
  oe_id : ULID;
  oe_token : result string;
  oe_random : nat -> result string;
  oe_resolve : string -> string -> option AttributeBags * option error;
  oe_publish : result unit;
  oe_send : result unit;
  oe_cancelled : option error
}.

Inductive acall : Type -> Type :=
| ATx {A : Type} (t : oenv -> atx A) : acall (result A)
| ARead {A : Type} (f : AuthDB -> A) : acall (result A)
| ASessionGet (token : string) : acall (option sessionEntry)
| ASessionPut (token : string) (e : sessionEntry) : acall unit
| ASessionDelete (token : string) : acall unit
| ANow : acall Z
| ANewID : acall ULID
| AMintToken : acall (result string)
| ARandom (n : nat) : acall (result string)
| AWrapKey (secret : string) : acall (result (string * string))
| AHash (password : string) : acall (result string)
| AResolve (subject action : string) : acall (option AttributeBags * option error)
| APublish (e : AuditEvent) : acall (result unit)
| ASend (f : Frame) : acall (result unit)
| ASleep (d : Z) : acall (option error).

Definition auth_exec (en : oenv) (A : Type) (c : acall A) (db : AuthDB) : A * AuthDB :=
  match c in acall A return A * AuthDB with
  | ATx t =>
      match oe_fault en with
      | AServed => atomically (t en) db
      | ARefused e => (Err e, db)
      | ALost e => (Err e, (atomically (t en) db).2)
      end
  | ARead f => (match oe_fault en with AServed => Ok (f db) | ARefused e | ALost e => Err e end, db)
  | ASessionGet token => (ad_sessions db !! token, db)
  | ASessionPut token e => (tt, logged (EvIssued token (se_Identity e)) (with_sessions (<[token := e]> (ad_sessions db)) db))
  | ASessionDelete token => (tt, with_sessions (delete token (ad_sessions db)) db)
  | ANow => (oe_now en, db)
  | ANewID => (oe_id en, db)
  | AMintToken => (oe_token en, db)
  | ARandom n => (oe_random en n, db)
  | AWrapKey secret => (oe_wrap en secret, db)
  | AHash password => (oe_hash en password, db)
  | AResolve subject action => (oe_resolve en subject action, db)
  | APublish _ => (oe_publish en, db)
  | ASend _ => (oe_send en, db)
  | ASleep _ => (oe_cancelled en, db)
  end.

Abbreviation aprog := (prog acall).

Definition refused {A} (e : error) : aprog (result A) := Done (Err e).
Definition wrapped {A} (e : error) : aprog (result A) := Done (Err (ErrWrap EmptyString e)).
Definition coded {A} (code : string) (e : error) : aprog (result A) := Done (Err (ErrWrapCode code e)).

(** ** Credentials: [internal/auth] *)
Definition LockoutDuration : Z := 15 * 60 * 10 ^ 9.
Definition LockoutThreshold : Z := 7.

Definition IsLockedOut (now : Z) (lockedUntil : option Z) : bool :=
  match lockedUntil with None => false | Some t => now <? t end.

Definition ComputeLockoutTime (now failures : Z) : option Z :=
  if failures <? LockoutThreshold then None else Some (now + LockoutDuration).

Definition with_failures (p : Player) (n : Z) (lockedUntil : option Z) (now : Z) : Player :=
  mkPlayer (py_ID p) (py_Username p) (py_PasswordHash p) (py_Email p) (py_EmailVerified p) n lockedUntil
    (py_DefaultCharacterID p) (py_Preferences p) (py_IsGuest p) (py_CreatedAt p) now.

Definition RecordFailure (now : Z) (p : Player) : Player :=
  let n := py_FailedAttempts p + 1 in with_failures p n (ComputeLockoutTime now n) now.

Definition RecordSuccess (now : Z) (p : Player) : Player := with_failures p 0 None now.

Definition MaxPasswordLength : Z := 128.
Definition dummyPasswordHash : string :=
  "$argon2id$v=19$m=65536,t=1,p=4$AAAAAAAAAAAAAAAAAAAAAA$AAAAAAAAAAAAAAAAAAAAAAAAAAAAAAAAAAAAAAAAAAA".

Definition invalid_credentials : error := ErrCode "AUTH_INVALID_CREDENTIALS" "invalid username or password".

(** [s.players.Update(ctx, player)], its failure only logged. *)
Definition save_player (p : Player) : aprog unit := forget (call (ATx (fun _ => Update p))).

(** One clock reading for what the code reads in one go. *)
Definition ValidateCredentials (L : AuthLib) (username password : string) : aprog (result Player) :=
  if MaxPasswordLength <? Z.of_nat (String.length password) then refused invalid_credentials
  else
    lookup ← call (ATx (fun en => GetByUsername (oe_rank en) (al_lower L) username));
    match lookup with
    | Err e =>
        if error_Is "not found" e then
          (* the dummy is verified and its answer not used *)
          match al_verify L password dummyPasswordHash with Ok _ | Err _ => refused invalid_credentials end
        else coded "AUTH_LOGIN_FAILED" e
    | Ok player =>
        match al_verify L password (py_PasswordHash player) with
        | Err e => coded "AUTH_LOGIN_FAILED" e
        | Ok false =>
            now ← call ANow;
            _ ← save_player (RecordFailure now player);
            refused invalid_credentials
        | Ok true =>
            now ← call ANow;
            if IsLockedOut now (py_LockedUntil player)
            then refused (ErrCode "AUTH_ACCOUNT_LOCKED" "account is temporarily locked")
            else
              let p := RecordSuccess now player in
              _ ← save_player p;
              Done (Ok p)
        end
    end.

(** ** Second factors: [internal/totp] *)
Record Config : Type := mkConfig {
  cf_GameID : string;
  cf_LockoutThreshold : Z;
  cf_LockoutDuration : Z;
  cf_SkewSteps : Z;
  cf_RecoveryCodeCount : Z
}.

Definition recoveryCodesPerEnrollment : Z := 10.
Definition or_default (d v : Z) : Z := if v =? 0 then d else v.

Definition applyDefaults (c : Config) : Config :=
  mkConfig (cf_GameID c) (or_default 5 (cf_LockoutThreshold c)) (or_default (15 * 60 * 10 ^ 9) (cf_LockoutDuration c))
    (or_default 1 (cf_SkewSteps c)) (or_default recoveryCodesPerEnrollment (cf_RecoveryCodeCount c)).

Definition NewService (c : Config) : result Config :=
  if is_empty (cf_GameID c) then Err (ErrCode "TOTP_CFG_GAME_ID_REQUIRED" "Config.GameID is required")
  else Ok (applyDefaults c).

Inductive VerifyOutcome : Type := OutcomeOK | OutcomeNotEnrolled | OutcomeLocked | OutcomeInvalidCode | OutcomeCodeReuse.

Record VerifyResult : Type := mkVerifyResult {
  vr_Outcome : VerifyOutcome;
  vr_LockedUntil : option Z;
  vr_LockoutTransition : bool;
  vr_AuditAt : Z
}.

Definition totpStepSeconds : Z := 30.
Definition errCodeReuseRollback : error := ErrNew "totp: rollback for code reuse".
Definition isNotEnrolledErr (e : error) : bool := has_code e "TOTP_NOT_ENROLLED".

(** [int64(now.Unix()) / 30], the counters of the window, and the last of them whose
    code is [code], or -1. *)
Definition step_of (now : Z) : Z := Z.quot (now / 10 ^ 9) totpStepSeconds.
Definition window (skew step : Z) : list Z := map (fun o => step + o) (seqZ (- skew) (2 * skew + 1)).

Definition code_at (L : AuthLib) (secret : string) (step : Z) : result string := al_hotp L secret (step mod 2 ^ 64).

Definition matches (L : AuthLib) (secret code : string) (step : Z) : bool :=
  match code_at L secret step with Ok expected => String.eqb code expected | Err _ => false end.

Definition matchedStep (L : AuthLib) (secret code : string) (skew step : Z) : Z :=
  fold_left (fun m s => if matches L secret code s then s else m) (window skew step) (-1).

Definition after (now : Z) (t : option Z) : bool := match t with Some t => now <? t | None => false end.

(** The transaction of [Verify]; [unwrap] is the key provider's answer. *)
Definition verify_tx (L : AuthLib) (cfg : Config) (playerID : ULID) (code : string) (now : Z)
    (unwrap : string -> string -> result string) : atx VerifyResult :=
  let answer o until tr := mret (mkVerifyResult o until tr now) : atx VerifyResult in
  fun db =>
    match LoadEnrollment playerID db with
    | (Err e, db) =>
        if isNotEnrolledErr e then answer OutcomeNotEnrolled None false db else (Err (ErrWrap EmptyString e), db)
    | (Ok state, db) =>
        (if after now (vs_LockedUntil state) then answer OutcomeLocked (vs_LockedUntil state) false
         else
           match unwrap (vs_WrappedSecret state) (vs_WrapKeyID state) with
           | Err e => fail (ErrWrapCode "TOTP_KEK_UNWRAP_FAILED" e)
           | Ok secret =>
               let m := matchedStep L secret code (cf_SkewSteps cfg) (step_of now) in
               if m =? -1 then
                 post ← on_error (ErrWrap EmptyString)
                          (IncrementFailedAttempts playerID (cf_LockoutThreshold cfg) (cf_LockoutDuration cfg) now);
                 answer OutcomeInvalidCode (vs_LockedUntil post)
                   (bool_decide (vs_LockedUntil state = None) && after now (vs_LockedUntil post))
               else if match vs_LastUsedStep state with Some last => m <=? last | None => false end
               then fail errCodeReuseRollback
               else
                 _ ← on_error (ErrWrap EmptyString) (MarkVerified playerID m now);
                 answer OutcomeOK None false
           end) db
    end.

Definition Verify (L : AuthLib) (cfg : Config) (playerID : ULID) (code : string) : aprog (result VerifyResult) :=
  now ← call ANow;
  r ← call (ATx (fun en => verify_tx L cfg playerID code now (oe_unwrap en)));
  match r with
  | Ok res => Done (Ok res)
  | Err e =>
      if error_Is "totp: rollback for code reuse" e then Done (Ok (mkVerifyResult OutcomeCodeReuse None false now))
      else wrapped e
  end.

Definition IsEnrolled (playerID : ULID) : aprog (result bool) :=
  r <~ call (ARead (repo_IsEnrolled playerID)) @@ wrapped;;
  Done (Ok r).

(** *** Enrolment: [provisioning.go], and the two phases of [service.go] *)
Definition bits_of (a : ascii) : list bool :=
  map (N.testbit (N_of_ascii a)) [7; 6; 5; 4; 3; 2; 1; 0]%N.

Definition quintet (b4 b3 b2 b1 b0 : bool) : N :=
  (16 * N.b2n b4 + 8 * N.b2n b3 + 4 * N.b2n b2 + 2 * N.b2n b1 + N.b2n b0)%N.

Fixpoint quintets (l : list bool) : list N :=
  match l with
  | a :: b :: c :: d :: e :: l' => quintet a b c d e :: quintets l'
  | [] => []
  | [a] => [quintet a false false false false]
  | [a; b] => [quintet a b false false false]
  | [a; b; c] => [quintet a b c false false]
  | [a; b; c; d] => [quintet a b c d false]
  end.

(** [base32.StdEncoding.WithPadding(base32.NoPadding).EncodeToString]. *)
Definition base32_letter (n : N) : ascii := ascii_of_N (if (n <? 26)%N then 65 + n else 24 + n)%N.
Definition base32_encode (s : string) : string :=
  String.string_of_list_ascii (map base32_letter (quintets (concat (map bits_of (String.list_ascii_of_string s))))).

Definition secretBytes : nat := 20.
Definition recoveryCodeBytes : nat := 8.

Definition generateSecret : aprog (result string) :=
  buf <~ call (ARandom secretBytes) @@ coded "TOTP_SECRET_GEN_FAILED";;
  Done (Ok (base32_encode buf)).

(** [url.PathEscape] and [url.QueryEscape]. *)
Definition unreserved (a : ascii) : bool :=
  let n := N_of_ascii a in
  ((65 <=? n) && (n <=? 90) || (97 <=? n) && (n <=? 122) || (48 <=? n) && (n <=? 57)
   || (n =? 45) || (n =? 95) || (n =? 46) || (n =? 126))%N%bool.
Definition upper_hex (n : N) : ascii := ascii_of_N (if (n <? 10)%N then 48 + n else 55 + n)%N.
Definition percent (a : ascii) (rest : string) : string :=
  String "%" (String (upper_hex (N_of_ascii a / 16)) (String (upper_hex (N_of_ascii a mod 16)) rest)).

Fixpoint PathEscape (s : string) : string :=
  match s with
  | EmptyString => EmptyString
  | String a r =>
      if unreserved a || existsb (Ascii.eqb a) (String.list_ascii_of_string "$&+=:@") then String a (PathEscape r)
      else percent a (PathEscape r)
  end.

Fixpoint QueryEscape (s : string) : string :=
  match s with
  | EmptyString => EmptyString
  | String a r =>
      if Ascii.eqb a " " then String "+" (QueryEscape r)
      else if unreserved a then String a (QueryEscape r) else percent a (QueryEscape r)
  end.

Definition buildProvisioningURI (username gameID secret : string) : result string :=
  if is_empty username || is_empty gameID || is_empty secret
  then Err (ErrCode "TOTP_URI_INVALID_INPUT" "username, gameID, and secret all required")
  else
    let issuer := "holomush-" +:+ gameID in
    Ok ("otpauth://totp/" +:+ PathEscape (issuer +:+ ":" +:+ username) +:+ "?issuer=" +:+ QueryEscape issuer
        +:+ "&secret=" +:+ QueryEscape secret).

Definition recovery_code (buf : string) : string :=
  let raw := hexEncodeBytes buf in
  String.substring 0 4 raw +:+ "-" +:+ String.substring 4 4 raw +:+ "-" +:+ String.substring 8 4 raw +:+ "-"
  +:+ String.substring 12 4 raw.

Fixpoint generateRecoveryCodes (n : nat) : aprog (result (list string)) :=
  match n with
  | O => Done (Ok [])
  | S n' =>
      buf <~ call (ARandom recoveryCodeBytes) @@ coded "TOTP_RECOVERY_GEN_FAILED";;
      rest <~ generateRecoveryCodes n' @@ refused;;
      Done (Ok (recovery_code buf :: rest))
  end.

Record Enrollment : Type := mkEnrollment { en_Secret : string; en_ProvisioningURI : string; en_RecoveryCodes : list string }.

Fixpoint hash_codes (now : Z) (codes : list string) : aprog (result (list HashedRecoveryCode)) :=
  match codes with
  | [] => Done (Ok [])
  | c :: codes' =>
      h <~ call (AHash c) @@ coded "TOTP_RECOVERY_HASH_FAILED";;
      id ← call ANewID;
      rest <~ hash_codes now codes' @@ refused;;
      Done (Ok (mkHashedCode id h now :: rest))
  end.

Definition buildEnrollment (cfg : Config) (playerID : ULID) (now : Z) : aprog (result (Enrollment * EnrollmentRecord)) :=
  secret <~ generateSecret @@ refused;;
  w <~ call (AWrapKey secret) @@ coded "TOTP_KEK_WRAP_FAILED";;
  match buildProvisioningURI playerID (cf_GameID cfg) secret with
  | Err e => refused e
  | Ok uri =>
      codes <~ generateRecoveryCodes (Z.to_nat (cf_RecoveryCodeCount cfg)) @@ refused;;
      hashed <~ hash_codes now codes @@ refused;;
      Done (Ok (mkEnrollment secret uri codes, mkEnrollmentRecord playerID w.1 w.2 now hashed))
  end.

(** [BootstrapPreparation] and [EnrollPreparation]. *)
Record Preparation : Type := mkPreparation {
  pr_Enrollment : Enrollment;
  pr_playerID : ULID;
  pr_record : EnrollmentRecord;
  pr_now : Z
}.

Definition prepared (cfg : Config) (playerID : ULID) : aprog (result Preparation) :=
  now ← call ANow;
  er <~ buildEnrollment cfg playerID now @@ refused;;
  Done (Ok (mkPreparation er.1 playerID er.2 now)).

Definition PrepareBootstrap (cfg : Config) (playerID : ULID) : aprog (result Preparation) :=
  exists_ <~ call (ARead (PlayerExists playerID)) @@ wrapped;;
  if exists_ : bool then prepared cfg playerID else refused (ErrCode "TOTP_PLAYER_NOT_FOUND" "player not found").

Definition bootstrapKey : string := "totp_v1".

Record BootstrapResult : Type := mkBootstrapResult {
  br_Enrollment : Enrollment;
  br_AuditConsumedAt : Z;
  br_AuditPlayerID : ULID;
  br_BootstrapKey : string
}.
Record EnrollResult : Type := mkEnrollResult { el_Enrollment : Enrollment; el_AuditEnrolledAt : Z; el_AuditPlayerID : ULID }.

Definition CommitBootstrap (prep : Preparation) : aprog (result BootstrapResult) :=
  _ <~ call (ATx (fun _ => BootstrapEnrollAtomic bootstrapKey (pr_playerID prep) (pr_record prep))) @@ wrapped;;
  Done (Ok (mkBootstrapResult (pr_Enrollment prep) (pr_now prep) (pr_playerID prep) bootstrapKey)).

Definition BootstrapEnroll (cfg : Config) (playerID : ULID) : aprog (result BootstrapResult) :=
  prep <~ PrepareBootstrap cfg playerID @@ refused;;
  CommitBootstrap prep.

Definition PrepareEnroll (cfg : Config) (playerID : ULID) : aprog (result Preparation) :=
  enrolled <~ call (ARead (repo_IsEnrolled playerID)) @@ wrapped;;
  if enrolled : bool then refused ErrAlreadyEnrolled else prepared cfg playerID.

(** [InsertEnrollment] outside a transaction: one statement after the other. *)
Fixpoint one_by_one (l : list (atx unit)) : aprog (result unit) :=
  match l with
  | [] => Done (Ok tt)
  | t :: l' => _ <~ call (ATx (fun _ => t)) @@ refused;; one_by_one l'
  end.

Definition CommitEnroll (prep : Preparation) : aprog (result EnrollResult) :=
  _ <~ one_by_one (InsertEnrollment_statements (pr_record prep)) @@ wrapped;;
  Done (Ok (mkEnrollResult (pr_Enrollment prep) (pr_now prep) (pr_playerID prep))).

Definition Enroll (cfg : Config) (playerID : ULID) : aprog (result EnrollResult) :=
  prep <~ PrepareEnroll cfg playerID @@ refused;;
  CommitEnroll prep.

(** *** Recovery *)
Record ConsumeRecoveryResult : Type := mkConsumeResult {
  cr_RecoveryCodeID : ULID;
  cr_AuditConsumedAt : Z;
  cr_AuditPlayerID : ULID
}.
Record RecoverAndClearResult : Type := mkRecoverResult {
  rr_RecoveryCodeID : ULID;
  rr_WasEnrolled : bool;
  rr_AuditConsumedAt : Z;
  rr_AuditClearedAt : Z;
  rr_AuditPlayerID : ULID
}.
Record ClearResult : Type := mkClearResult {
  cl_ClearedBy : string;
  cl_AuditClearedAt : Z;
  cl_AuditPlayerID : ULID;
  cl_WasEnrolled : bool
}.

Definition ClearReasonRecoveryCode : string := "recovery_code".
Definition ClearReasonAdminReset : string := "admin_reset".

Definition ConsumeRecoveryCode (L : AuthLib) (playerID : ULID) (code : string) : aprog (result ConsumeRecoveryResult) :=
  now ← call ANow;
  id <~ call (ATx (fun en => consumeRecoveryCodeInTx (oe_rank en) (al_verify L) playerID code now)) @@ wrapped;;
  Done (Ok (mkConsumeResult id now playerID)).

Definition RecoverAndClear (L : AuthLib) (playerID : ULID) (code : string) : aprog (result RecoverAndClearResult) :=
  now ← call ANow;
  r <~ call (ATx (fun en => RecoverAndClearAtomic (oe_rank en) (al_verify L) playerID code now)) @@ wrapped;;
  Done (Ok (mkRecoverResult r.1 r.2 now now playerID)).

Definition ClearTOTP (playerID : ULID) (clearedBy : string) : aprog (result ClearResult) :=
  was <~ call (ATx (fun _ => clearEnrollmentInTx playerID)) @@ wrapped;;
  now ← call ANow;
  Done (Ok (mkClearResult clearedBy now playerID was)).

(** *** Auditing: [internal/admin/totp_audit/auditing.go]

    A failure to publish is only logged.  A time in a payload is written as its
    nanoseconds. *)
Definition EventTypeCleared : string := "crypto.totp_cleared".
Definition EventTypeRecoveryConsumed : string := "crypto.totp_recovery_code_consumed".
Definition EventTypeLocked : string := "crypto.totp_locked".

Definition totp_subject (gameID playerID what : string) : string :=
  "events." +:+ gameID +:+ ".system.crypto_totp." +:+ playerID +:+ "." +:+ what.
Definition SubjectCleared (gameID playerID : string) : string := totp_subject gameID playerID "cleared".
Definition SubjectRecoveryConsumed (gameID playerID : string) : string := totp_subject gameID playerID "recovery_consumed".
Definition SubjectLocked (gameID playerID : string) : string := totp_subject gameID playerID "locked".

Definition emit (subject eventType : string) (payload : json) : aprog unit :=
  match NewSubject subject, NewType eventType with
  | Ok subj, Ok ty =>
      now ← call ANow;
      _ ← call (APublish (mkAuditEvent subj ty payload now));
      Done tt
  | _, _ => Done tt
  end.

Definition zeroTime : Z := -62135596800 * 10 ^ 9.

Definition audited_Verify (L : AuthLib) (cfg : Config) (pid : ULID) (code : string) : aprog (result VerifyResult) :=
  res <~ Verify L cfg pid code @@ wrapped;;
  _ ← (if vr_LockoutTransition res then
         now ← call ANow;
         emit (SubjectLocked (cf_GameID cfg) pid) EventTypeLocked
           (JObj [("player_id", JStr pid); ("locked_at", JInt now);
                  ("locked_until", JInt (default zeroTime (vr_LockedUntil res))); ("reason", JStr "brute_force_protection")])
       else Done tt);
  Done (Ok res).

Definition emit_consumed (cfg : Config) (pid id : ULID) (at_ : Z) : aprog unit :=
  emit (SubjectRecoveryConsumed (cf_GameID cfg) pid) EventTypeRecoveryConsumed
    (JObj [("player_id", JStr pid); ("consumed_at", JInt at_); ("recovery_code_id", JStr id)]).

Definition emit_cleared (cfg : Config) (pid : ULID) (at_ : Z) (by_ : string) : aprog unit :=
  emit (SubjectCleared (cf_GameID cfg) pid) EventTypeCleared
    (JObj [("player_id", JStr pid); ("cleared_at", JInt at_); ("cleared_by", JStr by_)]).

Definition audited_ConsumeRecoveryCode (L : AuthLib) (cfg : Config) (pid : ULID) (code : string)
    : aprog (result ConsumeRecoveryResult) :=
  res <~ ConsumeRecoveryCode L pid code @@ wrapped;;
  _ ← emit_consumed cfg pid (cr_RecoveryCodeID res) (cr_AuditConsumedAt res);
  Done (Ok res).

Definition audited_ClearTOTP (cfg : Config) (pid : ULID) (by_ : string) : aprog (result ClearResult) :=
  res <~ ClearTOTP pid by_ @@ wrapped;;
  _ ← emit_cleared cfg pid (cl_AuditClearedAt res) by_;
  Done (Ok res).

Definition audited_RecoverAndClear (L : AuthLib) (cfg : Config) (pid : ULID) (code : string)
    : aprog (result RecoverAndClearResult) :=
  res <~ RecoverAndClear L pid code @@ wrapped;;
  _ ← emit_consumed cfg pid (rr_RecoveryCodeID res) (rr_AuditConsumedAt res);
  _ ← emit_cleared cfg pid (rr_AuditClearedAt res) ClearReasonRecoveryCode;
  Done (Ok res).

Definition audited_IsEnrolled (pid : ULID) : aprog (result bool) :=
  r <~ IsEnrolled pid @@ wrapped;;
  Done (Ok r).

(** ** Operator sessions: [internal/admin/auth/session.go] *)
Definition session_TTL : Z := 10 * 60 * 10 ^ 9.

Definition Issue (ttl : Z) (id : OperatorIdentity) : aprog (result (string * Z)) :=
  now ← call ANow;
  token <~ call AMintToken @@ coded "SESSION_TOKEN_MINT_FAILED";;
  _ ← call (ASessionPut token (mkSessionEntry id (now + ttl)));
  Done (Ok (token, now + ttl)).

Definition session_Get (token : string) : aprog (result OperatorIdentity) :=
  o ← call (ASessionGet token);
  match o with
  | None => refused (ErrCode "DENY_SESSION_INVALID" "session token not found")
  | Some e =>
      now ← call ANow;
      if now <? se_ExpiresAt e then Done (Ok (se_Identity e))
      else
        _ ← call (ASessionDelete token);
        refused (ErrCode "DENY_SESSION_EXPIRED" "session token expired")
  end.

Definition Revoke (token : string) : aprog (result unit) :=
  _ ← call (ASessionDelete token);
  Done (Ok tt).

(** ** The two gates: [operator_admin.go] *)
Definition CapabilityCryptoOperator : string := "crypto.operator".
Definition RoleAdmin : string := "admin".

(** [access.HasPlayerGrant], which does not resolve for an empty identifier. *)
Definition player_grant (playerID grant : string) : aprog (result bool) :=
  r ← match PlayerSubject playerID with
      | Return subject => call (AResolve subject EmptyString)
      | Panic _ => Done (None, None)
      end;
  match HasPlayerGrant (fun _ _ => r) playerID grant with
  | Return (b, None) => Done (Ok b)
  | Return (_, Some e) => refused e
  | Panic m => refused (ErrNew m)
  end.

Definition AssertOperatorAdmin (playerID : string) : aprog (result unit) :=
  hasCap <~ player_grant playerID CapabilityCryptoOperator @@ coded "INGAME_GRANT_LOOKUP_FAILED";;
  if negb hasCap then refused (ErrCode "DENY_NOT_OPERATOR" "crypto.operator capability absent")
  else
    hasRole <~ call (ARead (PlayerHasRole playerID RoleAdmin)) @@ coded "INGAME_ROLE_LOOKUP_FAILED";;
    if negb hasRole then refused (ErrCode "DENY_NOT_ADMIN_ROLE" "admin role absent") else Done (Ok tt).

(** ** Authentication: [ingame.go] *)
Record AuthRequest : Type := mkAuthRequest {
  aq_Username : string;
  aq_Password : string;
  aq_TOTPCode : string;
  aq_PeerCred : PeerCred
}.

Definition providerName : string := "ingame-creds-totp".

Definition Authenticate (L : AuthLib) (cfg : Config) (req : AuthRequest) : aprog (result OperatorIdentity) :=
  player <~ ValidateCredentials L (aq_Username req) (aq_Password req) @@ coded "DENY_INVALID_CREDENTIALS";;
  enrolled <~ audited_IsEnrolled (py_ID player) @@ coded "INGAME_TOTP_LOOKUP_FAILED";;
  if negb enrolled then refused (ErrCode "DENY_NOT_ENROLLED" "player has not enrolled TOTP")
  else
    res <~ audited_Verify L cfg (py_ID player) (aq_TOTPCode req) @@ coded "INGAME_TOTP_VERIFY_FAILED";;
    match vr_Outcome res with
    | OutcomeOK =>
        _ <~ AssertOperatorAdmin (py_ID player) @@ refused;;
        Done (Ok (mkIdentity (py_ID player) (aq_PeerCred req) true providerName EmptyString))
    | OutcomeLocked => refused (ErrCode "DENY_LOCKED" "player TOTP is locked")
    | _ => refused (ErrCode "DENY_BAD_TOTP" "TOTP verify failed")
    end.

(** ** Handlers: [handler.go], [reset_handler.go], [approval/handler.go] *)
Inductive ConnectCode : Type :=
| CodeUnauthenticated
| CodeFailedPrecondition
| CodeUnavailable
| CodePermissionDenied
| CodeInvalidArgument
| CodeInternal.

Inductive rpc (A : Type) : Type :=
| Reply (a : A)
| Refusal (code : ConnectCode) (e : error).
Arguments Reply {A} a.
Arguments Refusal {A} code e.

Definition denyCodeToConnect : list (string * ConnectCode) :=
  [ ("DENY_INVALID_CREDENTIALS", CodeUnauthenticated); ("DENY_NOT_ENROLLED", CodeFailedPrecondition);
    ("DENY_BAD_TOTP", CodeUnauthenticated); ("DENY_LOCKED", CodeUnavailable);
    ("DENY_NOT_OPERATOR", CodePermissionDenied); ("DENY_NOT_ADMIN_ROLE", CodePermissionDenied);
    ("DENY_SESSION_INVALID", CodeUnauthenticated); ("DENY_SESSION_EXPIRED", CodeUnauthenticated);
    ("DENY_DUAL_CONTROL_SELF", CodeFailedPrecondition); ("DENY_DUAL_CONTROL_REQUIRED", CodeFailedPrecondition);
    ("DENY_APPROVAL_ARGS_MISMATCH", CodeFailedPrecondition); ("DENY_APPROVAL_EXPIRED", CodeFailedPrecondition);
    ("DENY_APPROVAL_ALREADY_APPROVED", CodeFailedPrecondition); ("DENY_POLICY_HASH_UNKNOWN", CodeFailedPrecondition) ].

Definition connect_code (e : error) : ConnectCode :=
  match oops_code e with
  | None => CodeInternal
  | Some c =>
      match List.find (fun kv => String.eqb kv.1 c) denyCodeToConnect with
      | Some (_, cc) => cc
      | None => CodeInternal
      end
  end.

Definition MapDenyToConnect {A} (e : error) : aprog (rpc A) := Done (Refusal (connect_code e) e).

Record AuthenticateResponse : Type := mkAuthenticateResponse { ar_SessionToken : string; ar_ExpiresAt : Z; ar_PlayerId : ULID }.

Definition AuthenticateHandler (L : AuthLib) (cfg : Config) (ttl : Z) (req : AuthRequest) : aprog (rpc AuthenticateResponse) :=
  identity <~ Authenticate L cfg req @@ MapDenyToConnect;;
  issued <~ Issue ttl identity @@ (fun e => Done (Refusal CodeInternal (ErrWrap EmptyString e)));;
  Done (Reply (mkAuthenticateResponse issued.1 issued.2 (oi_PlayerID identity))).

Definition ResetTOTP (L : AuthLib) (cfg : Config) (token targetPlayerID : string) : aprog (rpc bool) :=
  identity <~ session_Get token @@ MapDenyToConnect;;
  _ <~ AssertOperatorAdmin (oi_PlayerID identity) @@ MapDenyToConnect;;
  match al_parse_ulid L targetPlayerID with
  | Err e => Done (Refusal CodeInvalidArgument (ErrCode "RESET_INVALID_TARGET_PID" "target_player_id MUST be a ULID"))
  | Ok target =>
      if IsZero target
      then Done (Refusal CodeInvalidArgument (ErrCode "RESET_INVALID_TARGET_PID" "target_player_id MUST be a non-zero ULID"))
      else
        res <~ audited_ClearTOTP cfg target ClearReasonAdminReset @@ (fun e => Done (Refusal CodeInternal (ErrWrap EmptyString e)));;
        Done (Reply (cl_WasEnrolled res))
  end.

(** [MarkApproved]: the UPDATE, and on no row the SELECT that explains it. *)
Definition MarkApproved (id : string) (secondOpPlayerID : ULID) : aprog (result unit) :=
  changed <~ call (ATx (fun en => approve_statement (oe_dbnow en) id secondOpPlayerID)) @@ refused;;
  if changed : bool then Done (Ok tt)
  else
    r <~ call (ATx (fun _ => differentiate id)) @@ refused;;
    if String.eqb (ap_primary_player_id r) secondOpPlayerID
    then refused (ErrCode "DENY_DUAL_CONTROL_SELF" "second-op player_id equals primary_player_id")
    else if bool_decide (is_Some (ap_approved_at r))
    then refused (ErrCode "DENY_APPROVAL_ALREADY_APPROVED" "approval already granted")
    else
      now ← call ANow;
      if negb (now <? ap_expires_at r) then refused (ErrCode "DENY_APPROVAL_EXPIRED" "approval window expired")
      else refused (ErrCode "DENY_APPROVAL_FAILED" "approval failed; race-window fallback").

Fixpoint all_zero (s : string) : bool :=
  match s with EmptyString => true | String a r => Ascii.eqb a zero && all_zero r end.

Definition bad_request_id : error := ErrCode "APPROVE_INVALID_REQUEST_ID" "request_id must be a non-zero 16-byte ULID".

Definition Approve (token requestID : string) : aprog (rpc unit) :=
  identity <~ session_Get token @@ MapDenyToConnect;;
  _ <~ AssertOperatorAdmin (oi_PlayerID identity) @@ MapDenyToConnect;;
  if negb (String.length requestID =? 16)%nat || all_zero requestID then Done (Refusal CodeInvalidArgument bad_request_id)
  else
    _ <~ MarkApproved requestID (oi_PlayerID identity) @@ MapDenyToConnect;;
    Done (Reply tt).

(** ** Dual control: [approval.WaitForApproval] and [acquireApproval]

    [polls] bounds the iterations of the loop, [still_waiting] is no answer of the code:
    a loop that has not ended. *)
Definition pollInterval : Z := 500 * 10 ^ 6.
Definition still_waiting : error := ErrNew "still waiting".
Definition isApprovalNotFound (e : error) : bool := has_code e "APPROVAL_NOT_FOUND".

Fixpoint WaitForApproval (polls : nat) (id : string) (deadline : Z) : aprog (result Approval) :=
  match polls with
  | O => refused still_waiting
  | S polls' =>
      let again :=
        c ← call (ASleep pollInterval);
        match c with
        | Some e => coded "APPROVAL_WAIT_CANCELLED" e
        | None => WaitForApproval polls' id deadline
        end in
      now ← call ANow;
      if negb (now <? deadline) then refused (ErrCode "APPROVAL_WAIT_DEADLINE" "WaitForApproval deadline passed")
      else
        r ← call (ATx (fun _ => getRaw id));
        match r with
        | Ok a =>
            now' ← call ANow;
            if negb (now' <? av_ExpiresAt a) then refused (ErrCode "DENY_APPROVAL_EXPIRED" "approval window expired")
            else if bool_decide (is_Some (av_ApprovedAt a)) then Done (Ok a)
            else again
        | Err e => if isApprovalNotFound e then again else refused e
        end
  end.

Record approvalRecord : Type := mkApprovalRecord { ar_RequestID : string; ar_ApprovedBy : option ULID }.

Definition record_of (L : AuthLib) (id approvedBy : string) : approvalRecord :=
  mkApprovalRecord id
    (if is_empty approvedBy then None else match al_parse_ulid L approvedBy with Ok u => Some u | Err _ => None end).

Definition opKind_readstream : string := "readstream".

Definition acquireApproval (L : AuthLib) (polls : nat) (ttl : Z) (playerID opArgsHash : string)
    : aprog (result approvalRecord) :=
  existing ← call (ATx (fun en => GetByOpArgsHash (oe_dbnow en) (oe_rank en) opKind_readstream opArgsHash playerID));
  match existing with
  | Ok a => Done (Ok (record_of L (av_RequestID a) (av_ApprovedByPlayerID a)))
  | Err e =>
      if negb (has_code e "APPROVAL_NOT_FOUND") then wrapped e
      else
        rid ← call ANewID;
        _ <~ call (ATx (fun en => Open (oe_dbnow en) rid (mkOpenRequest playerID opKind_readstream opArgsHash))) @@ wrapped;;
        now ← call ANow;
        let deadline := now + ttl in
        _ <~ call (ASend (PendingApproval rid deadline)) @@ wrapped;;
        waited ← WaitForApproval polls rid deadline;
        match waited with
        | Ok a => Done (Ok (record_of L rid (av_ApprovedByPlayerID a)))
        | Err e =>
            if has_code e "APPROVAL_WAIT_DEADLINE"
            then refused (ErrCode "READSTREAM_DUAL_CONTROL_TIMEOUT" "dual-control approval timeout")
            else
              t ← call ANow;
              _ ← call (ASend (ReadFinished "TERMINATED_BY_SERVER_ERROR" t));
              coded "READSTREAM_DUAL_CONTROL_ERROR" e
        end
  end.
