(* ===== verification/OperatorFacts.v ===== *)
(** What the operators' door promises, any number of requests running at once: a
    one-time code opens it at most once, wrong codes are spaced by the lockout, a
    recovery code is spent once and the bootstrap happens once, a session takes all the
    factors, and an approval takes two people. *)

From S2P Require Import Prelude GoStrings GoText GoJson EntityRef PolicyTypes Sql Programs Rekey BusTypes WorldTypes AuthStore OperatorAuth.
From stdpp Require Import relations.

#[local] Open Scope string_scope.
#[local] Open Scope Z_scope.
#[local] Open Scope prog_scope.
#[local] Open Scope list_scope.

(** ** The history of a second factor

    What a player's row must be after the events of the log: the abstract machine the
    table implements. *)
Record factor : Type := mkFactor { fa_last : option Z; fa_failures : Z; fa_locked : option Z }.

Definition factor_of_row (r : totp_rec) : factor := mkFactor (tr_last_used_step r) (tr_failed_attempts r) (tr_locked_until r).

Section Facts.
Context (L : AuthLib) (cfg : Config).

Definition factor_step (p : ULID) (e : auth_event) (f : option factor) : option factor :=
  match e with
  | EvEnrolled q => if String.eqb q p then Some (mkFactor None 0 None) else f
  | EvGuessed q t =>
      if String.eqb q p
      then f ≫= fun f => let n := fa_failures f + 1 in
        Some (mkFactor (fa_last f) n (if cf_LockoutThreshold cfg <=? n then Some (t + cf_LockoutDuration cfg) else fa_locked f))
      else f
  | EvVerified q s _ => if String.eqb q p then f ≫= fun _ => Some (mkFactor (Some s) 0 None) else f
  | EvCleared q => if String.eqb q p then None else f
  | _ => f
  end.

Fixpoint factor_of (p : ULID) (log : list auth_event) : option factor :=
  match log with [] => None | e :: l => factor_step p e (factor_of p l) end.

(** An event that may follow the log [l]. *)
Definition admissible (l : list auth_event) (e : auth_event) : Prop :=
  match e with
  | EvClaimed k _ => forall q, EvClaimed k q ∉ l
  | EvEnrolled p => factor_of p l = None
  | EvGuessed p t => exists f, factor_of p l = Some f /\ after t (fa_locked f) = false
  | EvVerified p s t =>
      exists f, factor_of p l = Some f /\ after t (fa_locked f) = false /\ (forall x, fa_last f = Some x -> x < s)
  | EvConsumed i _ => forall q, EvConsumed i q ∉ l
  | EvCleared _ => True
  | EvApproved r q _ =>
      (forall q' t', EvApproved r q' t' ∉ l) /\ exists tok id, EvIssued tok id ∈ l /\ oi_PlayerID id = q
  | EvIssued _ id => oi_TOTPVerified id = true /\ exists s t, EvVerified (oi_PlayerID id) s t ∈ l
  end.

Fixpoint lawful (l : list auth_event) : Prop :=
  match l with [] => True | e :: l' => admissible l' e /\ lawful l' end.

(** ** The invariant *)
Definition approval_ok (r : approval_rec) : Prop :=
  match ap_approved_at r, ap_approved_by_player_id r with
  | None, None => True
  | Some t, Some q => q <> ap_primary_player_id r /\ t < ap_expires_at r
  | _, _ => False
  end.

Record auth_inv (db : AuthDB) : Prop := mkAuthInv {
  ai_lawful : lawful (ad_log db);
  ai_factors : forall p, factor_of_row <$> (ad_totp db !! p) = factor_of p (ad_log db);
  ai_codes : forall i q, EvConsumed i q ∈ ad_log db ->
    exists c, ad_codes db !! i = Some c /\ rc_player_id c = q /\ is_Some (rc_consumed_at c);
  ai_claims : forall k p, EvClaimed k p ∈ ad_log db -> is_Some (ad_bootstrap db !! k);
  ai_approvals : forall i r, ad_approvals db !! i = Some r -> approval_ok r;
  ai_approved : forall i r q t, ad_approvals db !! i = Some r -> ap_approved_by_player_id r = Some q ->
    ap_approved_at r = Some t -> EvApproved i q t ∈ ad_log db;
  ai_logged : forall i q t, EvApproved i q t ∈ ad_log db ->
    exists r, ad_approvals db !! i = Some r /\ ap_approved_at r = Some t;
  ai_sessions : forall tok e, ad_sessions db !! tok = Some e -> EvIssued tok (se_Identity e) ∈ ad_log db
}.

(** The log only grows, and an approval keeps what it is for, and who gave it. *)
Definition later (r r' : approval_rec) : Prop :=
  ap_primary_player_id r' = ap_primary_player_id r /\ ap_op_kind r' = ap_op_kind r /\
  ap_op_args_hash r' = ap_op_args_hash r /\ ap_expires_at r' = ap_expires_at r /\
  (is_Some (ap_approved_at r) -> r' = r).

Definition auth_grows (db db' : AuthDB) : Prop :=
  (exists l, ad_log db' = l ++ ad_log db) /\
  (forall i r, ad_approvals db !! i = Some r -> exists r', ad_approvals db' !! i = Some r' /\ later r r').

#[export] Instance auth_grows_preorder : PreOrder auth_grows.
Proof.
  split.
  - intros db. split; [by exists []|]. intros i r Hr. exists r. by repeat split.
  - intros d1 d2 d3 [[l1 H1] A1] [[l2 H2] A2]. split; [exists (l2 ++ l1); by rewrite H2, H1, app_assoc|].
    intros i r Hr. destruct (A1 _ _ Hr) as (r1 & Hr1 & E1). destruct (A2 _ _ Hr1) as (r2 & Hr2 & E2).
    exists r2. split; [done|]. destruct E1 as (?&?&?&?&K1), E2 as (?&?&?&?&K2). repeat split; try congruence.
    intros Ha. rewrite (K1 Ha) in *. by apply K2.
Qed.

Lemma grows_log db db' e : auth_grows db db' -> e ∈ ad_log db -> e ∈ ad_log db'.
Proof. intros [[l ->] _] He. apply elem_of_app. by right. Qed.

Abbreviation keeps := (keeps auth_inv auth_grows).

Lemma auth_keeps_refl db : auth_inv db -> keeps db db.
Proof. apply (rg_keeps_refl auth_inv auth_grows). Qed.

Lemma auth_keeps_trans d1 d2 d3 : keeps d1 d2 -> keeps d2 d3 -> keeps d1 d3.
Proof. apply (rg_keeps_trans auth_inv auth_grows). Qed.

(** The tables but for players, characters and roles. *)
Definition books (db : AuthDB) :=
  (ad_totp db, ad_codes db, ad_bootstrap db, ad_approvals db, ad_sessions db, ad_log db).

Lemma keeps_books db db' : auth_inv db -> books db' = books db -> keeps db db'.
Proof.
  intros [H1 H2 H3 H4 H5 H6 H7 H8] H. unfold books in H. destruct db, db'. cbn in *. simplify_eq.
  split; [by split|]. split; [by exists []|]. intros i r Hr. exists r. by repeat split.
Qed.

(** One event and the change of tables it stands for. *)
Lemma grows_logged e db db' :
  ad_log db' = e :: ad_log db -> ad_approvals db' = ad_approvals db -> auth_grows db db'.
Proof. intros H1 H2. split; [by exists [e]|]. rewrite H2. intros i r Hr. exists r. by repeat split. Qed.

Lemma logged_same e db : ad_log (logged e db) = e :: ad_log db.
Proof. done. Qed.

Ltac old_events := repeat match goal with
  | H : ?x ∈ _ :: _ |- _ => apply elem_of_cons in H as [H|H]; [try discriminate H|]
  end.

(** A change of one second factor. *)
Lemma keeps_factor p e (o : option totp_rec) db :
  auth_inv db -> admissible (ad_log db) e ->
  match e with EvEnrolled q | EvGuessed q _ | EvVerified q _ _ | EvCleared q => q = p | _ => False end ->
  factor_of_row <$> o = factor_step p e (factor_of p (ad_log db)) ->
  keeps db (logged e (with_totp (partial_alter (fun _ => o) p (ad_totp db)) db)).
Proof.
  intros HI Ha Hp Ho. destruct HI as [H1 H2 H3 H4 H5 H6 H7 H8].
  split; [|by eapply grows_logged].
  split; cbn [logged with_totp ad_log ad_totp ad_codes ad_bootstrap ad_approvals ad_sessions].
  - by split.
  - intros q. destruct (decide (q = p)) as [->|Hne]; [by rewrite lookup_partial_alter_eq|].
    rewrite lookup_partial_alter_ne by done. rewrite H2. cbn. unfold factor_step.
    destruct e; try done; subst; by rewrite (proj2 (String.eqb_neq _ _)) by done.
  - intros i q Hin. destruct e; try done; old_events; eauto.
  - intros k q Hin. destruct e; try done; old_events; eauto.
  - done.
  - intros i r q t Hr Hb Ht. apply elem_of_cons. right. eauto.
  - intros i q t Hin. destruct e; try done; old_events; eauto.
  - intros tok s Hs. apply elem_of_cons. right. eauto.
Qed.

(** The other changes. *)
Lemma keeps_claim k p at_ db :
  auth_inv db -> ad_bootstrap db !! k = None ->
  keeps db (logged (EvClaimed k p) (with_bootstrap (<[k := mkBootstrapRec at_ p]> (ad_bootstrap db)) db)).
Proof.
  intros [H1 H2 H3 H4 H5 H6 H7 H8] Hk. split; [|by eapply grows_logged].
  split; cbn [logged with_bootstrap ad_log ad_totp ad_codes ad_bootstrap ad_approvals ad_sessions].
  - split; [|done]. intros q Hq. destruct (H4 _ _ Hq) as [x Hx]. congruence.
  - done.
  - intros i q Hin. old_events. eauto.
  - intros k' q Hin. destruct (decide (k' = k)) as [->|Hne]; [by rewrite lookup_insert_eq|].
    rewrite lookup_insert_ne by done. apply elem_of_cons in Hin as [Hin|Hin]; [congruence|eauto].
  - done.
  - intros i r q t Hr Hb Ht. apply elem_of_cons. right. eauto.
  - intros i q t Hin. old_events. eauto.
  - intros tok e He. apply elem_of_cons. right. eauto.
Qed.

Lemma keeps_consume i c at_ db :
  auth_inv db -> ad_codes db !! i = Some c -> rc_consumed_at c = None ->
  keeps db (logged (EvConsumed i (rc_player_id c))
    (with_codes (<[i := mkCodeRec (rc_player_id c) (rc_code_hash c) (rc_created_at c) (Some at_)]> (ad_codes db)) db)).
Proof.
  intros [H1 H2 H3 H4 H5 H6 H7 H8] Hi Hc. split; [|by eapply grows_logged].
  split; cbn [logged with_codes ad_log ad_totp ad_codes ad_bootstrap ad_approvals ad_sessions].
  - split; [|done]. intros q Hq. destruct (H3 _ _ Hq) as (c' & Hc' & _ & [t Ht]). congruence.
  - done.
  - intros j q Hin. apply elem_of_cons in Hin as [Hin|Hin].
    + injection Hin as -> ->. rewrite lookup_insert_eq. by eexists.
    + destruct (H3 _ _ Hin) as (c' & Hc' & Hp & Ht). destruct (decide (j = i)) as [->|Hne].
      * destruct Ht. congruence.
      * rewrite lookup_insert_ne by done. eauto.
  - intros k q Hin. old_events. eauto.
  - done.
  - intros j r q t Hr Hb Ht. apply elem_of_cons. right. eauto.
  - intros j q t Hin. old_events. eauto.
  - intros tok e He. apply elem_of_cons. right. eauto.
Qed.

(** Consumed codes stay. *)
Lemma keeps_codes m db :
  auth_inv db -> (forall i c, ad_codes db !! i = Some c -> is_Some (rc_consumed_at c) -> m !! i = Some c) ->
  keeps db (with_codes m db).
Proof.
  intros [H1 H2 H3 H4 H5 H6 H7 H8] Hm. split.
  - split; try done. intros i q Hin. destruct (H3 _ _ Hin) as (c & Hc & Hp & Ht). exists c. split; [by apply Hm|done].
  - split; [by exists []|]. intros i r Hr. exists r. by repeat split.
Qed.

Lemma keeps_open i r db :
  auth_inv db -> ad_approvals db !! i = None -> ap_approved_at r = None -> ap_approved_by_player_id r = None ->
  keeps db (with_approvals (<[i := r]> (ad_approvals db)) db).
Proof.
  intros [H1 H2 H3 H4 H5 H6 H7 H8] Hi Ha Hb. split.
  - split; try done; cbn [with_approvals ad_log ad_approvals].
    + intros j x Hx. apply lookup_insert_Some in Hx as [[<- <-]|[_ Hx]]; [|by eapply H5].
      unfold approval_ok. by rewrite Ha, Hb.
    + intros j x q t Hx Hq Ht. apply lookup_insert_Some in Hx as [[<- <-]|[_ Hx]]; [congruence|by eapply H6].
    + intros j q t Hin. destruct (H7 _ _ _ Hin) as (x & Hx & Ht). exists x.
      rewrite lookup_insert_ne by congruence. done.
  - split; [by exists []|]. cbn [with_approvals ad_approvals]. intros j x Hx. exists x.
    rewrite lookup_insert_ne by congruence. by repeat split.
Qed.

Lemma keeps_approve i r q now tok id db :
  auth_inv db -> ad_approvals db !! i = Some r -> ap_approved_at r = None -> now < ap_expires_at r ->
  ap_primary_player_id r <> q -> EvIssued tok id ∈ ad_log db -> oi_PlayerID id = q ->
  keeps db (logged (EvApproved i q now) (with_approvals (<[i :=
    mkApprovalRec (ap_primary_player_id r) (ap_op_kind r) (ap_op_args_hash r) (ap_expires_at r) (Some now) (Some q)
      (ap_created_at r)]> (ad_approvals db)) db)).
Proof.
  intros [H1 H2 H3 H4 H5 H6 H7 H8] Hi Ha He Hq Hs Hid. split.
  - split; cbn [logged with_approvals ad_log ad_totp ad_codes ad_bootstrap ad_approvals ad_sessions].
    + split; [|done]. split; [|by eauto]. intros q' t' Hin. destruct (H7 _ _ _ Hin) as (x & Hx & Ht). congruence.
    + done.
    + intros j p Hin. old_events. eauto.
    + intros k p Hin. old_events. eauto.
    + intros j x Hx. apply lookup_insert_Some in Hx as [[<- <-]|[_ Hx]]; [|by eapply H5]. by split.
    + intros j x q' t Hx Hq' Ht. apply elem_of_cons.
      apply lookup_insert_Some in Hx as [[<- <-]|[_ Hx]]; cbn in *; [left; congruence|right; by eapply H6].
    + intros j q' t Hin. apply elem_of_cons in Hin as [Hin|Hin].
      * injection Hin as -> -> ->. rewrite lookup_insert_eq. by eexists.
      * destruct (H7 _ _ _ Hin) as (x & Hx & Ht). exists x. rewrite lookup_insert_ne by congruence. done.
    + intros tok' e Hin. apply elem_of_cons. right. eauto.
  - split; [by exists [EvApproved i q now]|]. cbn [logged with_approvals ad_approvals]. intros j x Hx.
    destruct (decide (j = i)) as [->|Hne]; [|rewrite lookup_insert_ne by done; exists x; by repeat split].
    rewrite lookup_insert_eq. eexists. split; [done|]. simplify_eq. repeat split. cbn. intros [? ?]. congruence.
Qed.

Lemma keeps_issue tok e s t db :
  auth_inv db -> oi_TOTPVerified (se_Identity e) = true -> EvVerified (oi_PlayerID (se_Identity e)) s t ∈ ad_log db ->
  keeps db (logged (EvIssued tok (se_Identity e)) (with_sessions (<[tok := e]> (ad_sessions db)) db)).
Proof.
  intros [H1 H2 H3 H4 H5 H6 H7 H8] Hv Hin. split; [|by eapply grows_logged].
  split; cbn [logged with_sessions ad_log ad_totp ad_codes ad_bootstrap ad_approvals ad_sessions].
  - split; [|done]. split; [done|by eauto].
  - done.
  - intros i q Hx. old_events. eauto.
  - intros k q Hx. old_events. eauto.
  - done.
  - intros i r q t' Hr Hb Ht. apply elem_of_cons. right. eauto.
  - intros i q t' Hx. old_events. eauto.
  - intros tok' e' Hx. apply elem_of_cons. apply lookup_insert_Some in Hx as [[<- <-]|[_ Hx]]; [by left|right; eauto].
Qed.

Lemma keeps_session_delete tok db : auth_inv db -> keeps db (with_sessions (delete tok (ad_sessions db)) db).
Proof.
  intros [H1 H2 H3 H4 H5 H6 H7 H8]. split.
  - split; try done. cbn. intros tok' e He. apply lookup_delete_Some in He as [_ He]. eauto.
  - split; [by exists []|]. intros i r Hr. exists r. by repeat split.
Qed.

(** ** Transactions *)
Definition tx_keeps {A} (t : atx A) : Prop := forall db a db', auth_inv db -> t db = (Ok a, db') -> keeps db db'.

Lemma auth_keeps_atomically {A} (t : atx A) db : tx_keeps t -> auth_inv db -> keeps db (atomically t db).2.
Proof.
  intros Ht HI. rewrite atomically_2. destruct (t db) as [[a|e] db'] eqn:E; [by eapply Ht|by apply auth_keeps_refl].
Qed.

Lemma tx_keeps_bind {A B} (t : atx A) (f : A -> atx B) : tx_keeps t -> (forall a, tx_keeps (f a)) -> tx_keeps (t ≫= f).
Proof.
  intros Ht Hf db b db' HI H. apply txn_bind_Ok in H as (a & d & Ha & Hb).
  pose proof (Ht _ _ _ HI Ha) as K. eapply auth_keeps_trans; [exact K|]. eapply Hf; [apply K|exact Hb].
Qed.

Lemma tx_keeps_ret {A} (a : A) : tx_keeps (mret a : atx A).
Proof. intros db b db' HI [= _ <-]. by apply auth_keeps_refl. Qed.

Lemma tx_keeps_fail {A} e : tx_keeps (fail e : atx A).
Proof. by intros db b db' HI. Qed.

Lemma tx_keeps_read {A} (f : AuthDB -> A) : tx_keeps (read f).
Proof. intros db b db' HI [= _ <-]. by apply auth_keeps_refl. Qed.

Lemma tx_keeps_demand c e : tx_keeps (demand c e).
Proof. unfold demand. destruct c; [apply tx_keeps_ret|apply tx_keeps_fail]. Qed.

Lemma tx_keeps_on_error {A} f (t : atx A) : tx_keeps t -> tx_keeps (on_error f t).
Proof. intros Ht db a db' HI H. apply on_error_Ok in H. by eapply Ht. Qed.

Lemma demand_Ok c e u db db' : demand c e db = (Ok u, db') -> c = true /\ db' = db.
Proof. unfold demand. destruct c; [|done]. by intros [= _ <-]. Qed.

Lemma has_false {V} (m : gmap string V) k : has m k = false <-> m !! k = None.
Proof. unfold has. rewrite bool_decide_eq_false. by rewrite eq_None_not_Some. Qed.

(** Unfolds the steps of a transaction that succeeded. *)
Ltac tx_ok := repeat match goal with
  | H : (read _ ≫= _) _ = (Ok _, _) |- _ => rewrite read_bind in H; cbn beta in H
  | H : (write _ ≫= _) _ = (Ok _, _) |- _ => rewrite write_bind in H; cbn beta in H
  | H : demand _ _ _ = (Ok _, _) |- _ => apply demand_Ok in H as [? ->]
  | H : (_ ≫= _) _ = (Ok _, _) |- _ => apply txn_bind_Ok in H as (? & ? & ? & H)
  | H : mret _ _ = (Ok _, _) |- _ => injection H as <- <-
  | H : read _ _ = (Ok _, _) |- _ => injection H as <- <-
  | H : write _ _ = (Ok _, _) |- _ => injection H as <-; subst
  | H : fail _ _ = (Ok _, _) |- _ => discriminate H
  end.

Create HintDb auth_tx.
#[local] Hint Resolve tx_keeps_ret tx_keeps_fail tx_keeps_read tx_keeps_demand tx_keeps_on_error : auth_tx.
Ltac tx_auto := repeat (apply tx_keeps_bind; [|intros ?]); try case_match; eauto with auth_tx.

Lemma tx_GetByUsername rank lower u : tx_keeps (GetByUsername rank lower u).
Proof. unfold GetByUsername. tx_auto. case_match. tx_auto. Qed.

Lemma tx_players (f : AuthDB -> gmap ULID Player) : tx_keeps (write (fun db => with_players (f db) db)).
Proof. intros db a db' HI [= _ <-]. by apply keeps_books. Qed.

Lemma tx_roles (f : AuthDB -> gset (ULID * string)) : tx_keeps (write (fun db => with_roles (f db) db)).
Proof. intros db a db' HI [= _ <-]. by apply keeps_books. Qed.
#[local] Hint Resolve tx_players tx_roles : auth_tx.

Lemma tx_Update p : tx_keeps (Update p).
Proof. unfold Update. tx_auto. tx_auto. Qed.

Lemma tx_UpdatePassword now id h : tx_keeps (UpdatePasswordAndClearLockout now id h).
Proof. unfold UpdatePasswordAndClearLockout. tx_auto. Qed.

Lemma tx_AddRole c r : tx_keeps (AddRole c r).
Proof. unfold AddRole. tx_auto. Qed.

Lemma tx_RemoveRole c r : tx_keeps (RemoveRole c r).
Proof. unfold RemoveRole. tx_auto. Qed.

Lemma tx_BootstrapClaim k p at_ : tx_keeps (BootstrapClaim k p at_).
Proof.
  intros db a db' HI H. unfold BootstrapClaim in H. tx_ok. destruct (has (ad_bootstrap db) k) eqn:Eh; tx_ok.
  - by apply auth_keeps_refl.
  - apply keeps_claim; [done|by apply has_false].
Qed.

Lemma tx_insert_totp e : tx_keeps (insert_totp e).
Proof.
  intros db a db' HI H. unfold insert_totp in H. tx_ok. bool_prop.
  rewrite has_false in *. apply (keeps_factor (er_PlayerID e) (EvEnrolled (er_PlayerID e)) (Some _)); [done| |done|].
  - cbn. rewrite <- (ai_factors _ HI). by simplify_option_eq.
  - cbn. by rewrite String.eqb_refl.
Qed.

Lemma tx_insert_code p c : tx_keeps (insert_code p c).
Proof.
  intros db a db' HI H. unfold insert_code in H. tx_ok. bool_prop. rewrite has_false in *.
  apply keeps_codes; [done|]. intros i y Hy _. by rewrite lookup_insert_ne by congruence.
Qed.

Lemma tx_all_of l : Forall tx_keeps l -> tx_keeps (all_of l).
Proof.
  induction 1 as [|t l Ht Hl IH]; cbn [all_of]; [apply tx_keeps_ret|]. by apply tx_keeps_bind.
Qed.

Lemma statements_keep e : Forall tx_keeps (InsertEnrollment_statements e).
Proof.
  unfold InsertEnrollment_statements. constructor; [apply tx_insert_totp|]. apply Forall_map, Forall_true. apply tx_insert_code.
Qed.

Lemma tx_InsertEnrollment e : tx_keeps (InsertEnrollment e).
Proof. apply tx_all_of, statements_keep. Qed.

Lemma tx_BootstrapEnrollAtomic k p e : tx_keeps (BootstrapEnrollAtomic k p e).
Proof.
  unfold BootstrapEnrollAtomic. apply tx_keeps_bind; [apply tx_BootstrapClaim|]. intros [].
  - apply tx_InsertEnrollment.
  - apply tx_keeps_fail.
Qed.

Lemma clear_totp_keeps p db : auth_inv db -> keeps db (logged (EvCleared p) (with_totp (delete p (ad_totp db)) db)).
Proof.
  intros HI. apply (keeps_factor p (EvCleared p) None); [done..|]. cbn. by rewrite String.eqb_refl.
Qed.

Lemma tx_clear p : tx_keeps (clearEnrollmentInTx p).
Proof.
  intros db a db' HI H. unfold clearEnrollmentInTx in H. tx_ok.
  pose proof (clear_totp_keeps p db HI) as K. eapply auth_keeps_trans; [exact K|]. apply keeps_codes; [apply K|].
  intros i c Hc Ht. apply map_lookup_filter_Some. split; [done|]. cbn. intros [_ Hn]. rewrite Hn in Ht. by destruct Ht.
Qed.

Lemma find_cand rank (verify : string -> string -> result bool) p raw db i c :
  List.find (fun ic => match verify raw (rc_code_hash ic.2) with Ok ok => ok | Err _ => false end)
    (order_by (fun a b => rank a.1 <=? rank b.1)
       (rows_where (fun _ c => String.eqb (rc_player_id c) p && bool_decide (rc_consumed_at c = None)) (ad_codes db))) = Some (i, c) ->
  ad_codes db !! i = Some c /\ rc_player_id c = p /\ rc_consumed_at c = None /\ verify raw (rc_code_hash c) = Ok true.
Proof.
  intros H. apply List.find_some in H as [Hin Hv]. apply list_elem_of_In, elem_of_order_by, rows_where_elem in Hin as [Hi Hc].
  bool_prop. apply String.eqb_eq in H. cbn in Hv. split_and!; [done..|]. destruct (verify raw _) as [[]|]; done.
Qed.

Lemma tx_consume rank verify p raw at_ : tx_keeps (consumeRecoveryCodeInTx rank verify p raw at_).
Proof.
  intros db a db' HI H. unfold consumeRecoveryCodeInTx in H. tx_ok.
  destruct (List.find _ _) as [[i c]|] eqn:Ef; tx_ok. apply find_cand in Ef as (Hi & <- & Hc & _). by apply keeps_consume.
Qed.

Lemma tx_RecoverAndClear rank verify p raw at_ : tx_keeps (RecoverAndClearAtomic rank verify p raw at_).
Proof.
  unfold RecoverAndClearAtomic. apply tx_keeps_bind; [apply tx_consume|]. intros i.
  apply tx_keeps_bind; [apply tx_clear|]. intros b. apply tx_keeps_ret.
Qed.

Lemma tx_Open now i rq : tx_keeps (Open now i rq).
Proof.
  intros db a db' HI H. unfold Open in H. tx_ok. bool_prop. rewrite has_false in *. by apply keeps_open.
Qed.

Lemma tx_getRaw i : tx_keeps (getRaw i).
Proof. unfold getRaw. tx_auto. Qed.

Lemma tx_differentiate i : tx_keeps (differentiate i).
Proof. unfold differentiate. tx_auto. Qed.

Lemma tx_GetByOpArgsHash now rank k h x : tx_keeps (GetByOpArgsHash now rank k h x).
Proof. unfold GetByOpArgsHash. destruct (is_empty _); tx_auto. case_match. tx_auto. Qed.

Definition signed_in (q : ULID) (db : AuthDB) : Prop := exists tok id, EvIssued tok id ∈ ad_log db /\ oi_PlayerID id = q.

Lemma approve_keeps now i q db a db' :
  auth_inv db -> signed_in q db -> approve_statement now i q db = (Ok a, db') -> keeps db db'.
Proof.
  intros HI (tok & id & Hin & Hid) H. unfold approve_statement in H. tx_ok.
  destruct (ad_approvals db !! i) as [r|] eqn:Er; tx_ok; [|by apply auth_keeps_refl].
  destruct (_ && _) eqn:Ec; tx_ok; [|by apply auth_keeps_refl]. bool_prop.
  repeat match goal with H : String.eqb _ _ = false |- _ => apply String.eqb_neq in H | H : (_ <? _) = true |- _ => apply Z.ltb_lt in H end.
  by eapply keeps_approve.
Qed.

(** *** [Verify] *)
Lemma matchedStep_spec secret code skew step :
  let m := matchedStep L secret code skew step in
  m = -1 \/ m ∈ window skew step /\ matches L secret code m = true.
Proof.
  unfold matchedStep. cbv zeta.
  enough (H : forall l a, let m := fold_left (fun m s => if matches L secret code s then s else m) l a in
    m = a \/ m ∈ l /\ matches L secret code m = true) by apply H.
  induction l as [|s l IH]; intros a; cbn; [by left|].
  destruct (IH (if matches L secret code s then s else a)) as [Hm|[Hm Hv]].
  - rewrite Hm. destruct (matches L secret code s) eqn:E; [right; split; [apply list_elem_of_here|done]|by left].
  - right. split; [by apply list_elem_of_further|done].
Qed.

(** What an accepted code is. *)
Definition accepted (p : ULID) (code : string) (s now : Z) (unwrap : string -> string -> result string) (db db' : AuthDB) : Prop :=
  exists r secret, ad_totp db !! p = Some r /\ unwrap (tr_wrapped_secret r) (tr_wrap_key_id r) = Ok secret /\
    s ∈ window (cf_SkewSteps cfg) (step_of now) /\ code_at L secret s = Ok code /\
    ad_log db' = EvVerified p s now :: ad_log db.

Lemma verify_tx_spec p code now unwrap db res db' :
  auth_inv db -> verify_tx L cfg p code now unwrap db = (Ok res, db') ->
  keeps db db' /\ (vr_Outcome res = OutcomeOK -> exists s, accepted p code s now unwrap db db').
Proof.
  intros HI. unfold verify_tx, LoadEnrollment. rewrite read_bind.
  pose proof (ai_factors _ HI p) as Hf. destruct (ad_totp db !! p) as [r|] eqn:Er; cbn.
  2:{ intros [= <- <-]. split; [by apply auth_keeps_refl|done]. }
  destruct (after now (tr_locked_until r)) eqn:El.
  { intros [= <- <-]. split; [by apply auth_keeps_refl|done]. }
  destruct (unwrap _ _) as [secret|e] eqn:Eu; [|done]. cbv zeta.
  pose proof (matchedStep_spec secret code (cf_SkewSteps cfg) (step_of now)) as Hm. cbv zeta in Hm.
  set (m := matchedStep L secret code (cf_SkewSteps cfg) (step_of now)) in *.
  destruct (Z.eqb_spec m (-1)) as [Hn|Hn].
  - intros H. apply txn_bind_Ok in H as (post & d & Hi & H). injection H as <- <-. split; [|done].
    apply on_error_Ok in Hi. unfold IncrementFailedAttempts in Hi. tx_ok. rewrite Er in Hi. tx_ok.
    apply (keeps_factor p (EvGuessed p now) (Some _)); [done| |done|].
    + cbn. exists (factor_of_row r). by rewrite <- Hf.
    + cbn. rewrite String.eqb_refl, <- Hf. done.
  - destruct Hm as [Hm|[Hw Hm]]; [done|]. destruct (match tr_last_used_step r with Some _ => _ | None => _ end) eqn:Elast; [done|].
    intros H. apply txn_bind_Ok in H as ([] & d & Hi & H). injection H as <- <-. apply on_error_Ok in Hi.
    unfold MarkVerified in Hi. injection Hi as <-. rewrite Er. split.
    + apply (keeps_factor p (EvVerified p m now) (Some _)); [done| |done|].
      * cbn. exists (factor_of_row r). split_and!; [by rewrite <- Hf|done|]. cbn. intros x Hx. rewrite Hx in Elast. lia.
      * cbn. rewrite String.eqb_refl, <- Hf. done.
    + intros _. exists m, r, secret. split_and!; try done. unfold matches in Hm.
      destruct (code_at L secret m) as [x|]; [|done]. apply String.eqb_eq in Hm. by subst.
Qed.

(** ** Programs

    What the key provider unwraps is what was wrapped. *)
Definition env_ok (_ : AuthDB) (en : oenv) : Prop :=
  forall w k x, oe_unwrap en w k = Ok x -> al_unwrap L w k = Some x.

Abbreviation awp := (wp auth_exec env_ok auth_inv auth_grows).
Abbreviation tame := (tame auth_exec env_ok auth_inv auth_grows).
Abbreviation good := (good auth_exec env_ok auth_inv auth_grows).

Lemma aw_seq {A B} (p : aprog A) (k : A -> aprog B) P Q s :
  awp p P s -> (forall d a, auth_grows s d -> P d a -> awp (k a) Q d) -> awp (p ≫= k) Q s.
Proof. apply rg_wp_seq, _. Qed.

Lemma aw_try {A B} (p : aprog (result A)) (h : error -> aprog B) (k : A -> aprog B) P Q s :
  awp p (on_Ok P) s -> (forall e d, awp (h e) Q d) -> (forall d a, auth_grows s d -> P d a -> awp (k a) Q d) ->
  awp (try_ p h k) Q s.
Proof. apply rg_seq_try, _. Qed.

Lemma aw_tame {A} (p : aprog A) s : tame p -> awp p (fun d _ => auth_grows s d) s.
Proof. apply tame_wp, _. Qed.

Lemma good_tx {A} (t : oenv -> atx A) : (forall en, tx_keeps (t en)) -> good (ATx t).
Proof.
  intros Ht db en HI _. cbn. destruct (oe_fault en); cbn; [|by apply auth_keeps_refl|]; by apply auth_keeps_atomically.
Qed.

(** The calls that change nothing. *)
Definition idle {A} (c : acall A) : Prop :=
  match c with ATx _ | ASessionPut _ _ | ASessionDelete _ => False | _ => True end.

Lemma good_idle {A} (c : acall A) : idle c -> good c.
Proof. intros Hc db en HI _. destruct c; try done; by apply auth_keeps_refl. Qed.

Lemma good_delete tok : good (ASessionDelete tok).
Proof. intros db en HI _. by apply keeps_session_delete. Qed.

#[local] Hint Resolve tx_GetByUsername tx_Update tx_UpdatePassword tx_AddRole tx_RemoveRole tx_BootstrapEnrollAtomic
  tx_clear tx_consume tx_RecoverAndClear tx_Open tx_getRaw tx_differentiate tx_GetByOpArgsHash : auth_tx.

Lemma tx_verify p code now unwrap : tx_keeps (verify_tx L cfg p code now unwrap).
Proof. intros db a db' HI H. by eapply verify_tx_spec. Qed.
#[local] Hint Resolve tx_verify : auth_tx.

(** Closes the goal that a program makes only calls that keep the invariant. *)
Ltac tame_step :=
  match goal with
  | |- tame (try_ _ _ _) => apply rg_tame_try; [|intros ?|intros ?]
  | |- tame (_ ≫= _) => apply rg_tame_bind; [|intros ?]
  | |- tame (call (ATx _)) => apply rg_tame_call, good_tx; intros ?; eauto with auth_tx
  | |- tame (call (ASessionDelete _)) => apply rg_tame_call, good_delete
  | |- tame (call _) => apply rg_tame_call, good_idle; exact I
  | |- tame (Done _) => exact I
  | |- tame (refused _) => exact I
  | |- tame (wrapped _) => exact I
  | |- tame (coded _ _) => exact I
  | |- tame (MapDenyToConnect _) => exact I
  | |- tame (match ?x with _ => _ end) => destruct x
  | |- tame (let _ := _ in _) => cbv zeta
  end.
Ltac tame_auto := repeat tame_step; eauto with auth_tame.
Create HintDb auth_tame.

Lemma tame_save p : tame (save_player p).
Proof. unfold save_player, forget. tame_auto. Qed.
#[local] Hint Resolve tame_save : auth_tame.

Lemma tame_ValidateCredentials u pw : tame (ValidateCredentials L u pw).
Proof. unfold ValidateCredentials. tame_auto. Qed.

Lemma tame_Verify p code : tame (Verify L cfg p code).
Proof. unfold Verify. tame_auto. Qed.

Lemma tame_generateRecoveryCodes n : tame (generateRecoveryCodes n).
Proof. induction n; cbn [generateRecoveryCodes]; tame_auto. Qed.

Lemma tame_hash_codes now l : tame (hash_codes now l).
Proof. induction l; cbn [hash_codes]; tame_auto. Qed.
#[local] Hint Resolve tame_ValidateCredentials tame_Verify tame_generateRecoveryCodes tame_hash_codes : auth_tame.

Lemma tame_prepared p : tame (prepared cfg p).
Proof. unfold prepared, buildEnrollment, generateSecret. tame_auto. Qed.

Lemma tame_one_by_one l : Forall tx_keeps l -> tame (one_by_one l).
Proof. induction 1; cbn [one_by_one]; tame_auto. Qed.
#[local] Hint Resolve tame_prepared : auth_tame.

Lemma tame_BootstrapEnroll p : tame (BootstrapEnroll cfg p).
Proof. unfold BootstrapEnroll, PrepareBootstrap, CommitBootstrap. tame_auto. Qed.

Lemma tame_Enroll p : tame (Enroll cfg p).
Proof.
  unfold Enroll, PrepareEnroll, CommitEnroll. tame_auto. apply tame_one_by_one, statements_keep.
Qed.

Lemma tame_emit s t j : tame (emit s t j).
Proof. unfold emit. tame_auto. Qed.
#[local] Hint Resolve tame_emit : auth_tame.

Lemma tame_audited_ClearTOTP p by_ : tame (audited_ClearTOTP cfg p by_).
Proof. unfold audited_ClearTOTP, ClearTOTP, emit_cleared. tame_auto. Qed.

Lemma tame_audited_Consume p code : tame (audited_ConsumeRecoveryCode L cfg p code).
Proof. unfold audited_ConsumeRecoveryCode, ConsumeRecoveryCode, emit_consumed. tame_auto. Qed.

Lemma tame_audited_Recover p code : tame (audited_RecoverAndClear L cfg p code).
Proof. unfold audited_RecoverAndClear, RecoverAndClear, emit_consumed, emit_cleared. tame_auto. Qed.

Lemma tame_audited_Verify p code : tame (audited_Verify L cfg p code).
Proof. unfold audited_Verify. tame_auto. Qed.

Lemma tame_session_Get tok : tame (session_Get tok).
Proof. unfold session_Get. tame_auto. Qed.

Lemma tame_AssertOperatorAdmin p : tame (AssertOperatorAdmin p).
Proof. unfold AssertOperatorAdmin, player_grant. tame_auto. Qed.

Lemma tame_Wait n i dl : tame (WaitForApproval n i dl).
Proof. revert i dl. induction n; intros i dl; cbn [WaitForApproval]; tame_auto. Qed.
#[local] Hint Resolve tame_audited_ClearTOTP tame_audited_Verify tame_session_Get tame_AssertOperatorAdmin tame_Wait : auth_tame.

Lemma tame_ResetTOTP tok target : tame (ResetTOTP L cfg tok target).
Proof. unfold ResetTOTP. tame_auto. Qed.

Lemma tame_acquire n ttl p h : tame (acquireApproval L n ttl p h).
Proof. unfold acquireApproval. tame_auto. Qed.

(** ** What a request learns

    [d0] is a state the tables were in since [s], when the request began. *)
Definition holds_device (s d : AuthDB) (p : ULID) (code : string) : Prop :=
  exists d0 r secret step now l, auth_grows s d0 /\ ad_totp d0 !! p = Some r /\
    al_unwrap L (tr_wrapped_secret r) (tr_wrap_key_id r) = Some secret /\
    step ∈ window (cf_SkewSteps cfg) (step_of now) /\ code_at L secret step = Ok code /\
    ad_log d = l ++ EvVerified p step now :: ad_log d0.

Lemma holds_device_later s0 s d d' p code :
  auth_grows s0 s -> auth_grows d d' -> holds_device s d p code -> holds_device s0 d' p code.
Proof.
  intros H0 [[l' Hl] _] (d0 & r & secret & step & now & l & G0 & H1 & H2 & H3 & H4 & H5).
  exists d0, r, secret, step, now, (l' ++ l). split; [by transitivity s|]. split_and!; try done.
  by rewrite Hl, H5, app_assoc.
Qed.

Lemma aw_call {A} (c : acall A) (Q : AuthDB -> A -> Prop) s :
  (forall d en, auth_grows s d -> auth_inv d -> env_ok d en ->
     keeps d (auth_exec en _ c d).2 /\ Q (auth_exec en _ c d).2 (auth_exec en _ c d).1) ->
  awp (call c) Q s.
Proof. apply wp_call. Qed.

Lemma aw_idle {A} (c : acall A) (Q : AuthDB -> A -> Prop) s :
  idle c -> (forall d en, auth_grows s d -> auth_inv d -> env_ok d en -> Q d (auth_exec en _ c d).1) -> awp (call c) Q s.
Proof.
  intros Hc H. apply aw_call. intros d en HR HI He. split; [by apply good_idle|].
  assert (Hd : (auth_exec en A c d).2 = d) by by destruct c. rewrite Hd. by apply H.
Qed.

(** A transaction that answers [Ok] committed. *)
Lemma aw_tx {A} (t : oenv -> atx A) (P : AuthDB -> A -> Prop) s :
  (forall en, tx_keeps (t en)) ->
  (forall d en a d', auth_grows s d -> auth_inv d -> env_ok d en -> t en d = (Ok a, d') -> keeps d d' -> P d' a) ->
  awp (call (ATx t)) (on_Ok P) s.
Proof.
  intros Ht H. apply aw_call. intros d en HR HI He. split; [by apply good_tx|].
  cbn. destruct (oe_fault en); [|done..]. unfold atomically. destruct (t en d) as [[a|e] d'] eqn:E; [|done].
  cbn. eapply H; try done. by eapply Ht.
Qed.

Lemma GetByUsername_Ok rank lower u db pl db' :
  GetByUsername rank lower u db = (Ok pl, db') ->
  db' = db /\ exists k, ad_players db !! k = Some pl /\ lower (py_Username pl) = lower u.
Proof.
  unfold GetByUsername. intros H. tx_ok. destruct (order_by _ _) as [|[k x] l] eqn:E; tx_ok. split; [done|]. exists k.
  assert (Hin : (k, x) ∈ order_by (fun a b : string * Player => rank a.1 <=? rank b.1)
    (rows_where (fun _ p => String.eqb (lower (py_Username p)) (lower u)) (ad_players db))) by (rewrite E; apply list_elem_of_here).
  apply elem_of_order_by, rows_where_elem in Hin as [Hk Hu]. split; [done|]. by apply String.eqb_eq.
Qed.

Lemma wp_Verify p code s :
  awp (Verify L cfg p code) (on_Ok (fun d res => vr_Outcome res = OutcomeOK -> holds_device s d p code)) s.
Proof.
  unfold Verify. eapply aw_seq; [apply (aw_idle ANow (fun _ _ => True)); done|]. intros d now HR _.
  eapply aw_seq; [apply (aw_tx _ (fun d' res => vr_Outcome res = OutcomeOK -> holds_device s d' p code))|].
  - intros en. apply tx_verify.
  - intros d1 en res d' HR1 HI He H _ Ho. destruct (verify_tx_spec _ _ _ _ _ _ _ HI H) as [_ Ha].
    destruct (Ha Ho) as (step & r & secret & Hr & Hu & Hw & Hc & Hl). apply He in Hu.
    exists d1, r, secret, step, now, []. split_and!; try done. by transitivity d.
  - intros d1 [res|e] HR1 H; [exact H|]. by case_match.
Qed.

Lemma wp_audited_Verify p code s :
  awp (audited_Verify L cfg p code) (on_Ok (fun d res => vr_Outcome res = OutcomeOK -> holds_device s d p code)) s.
Proof.
  unfold audited_Verify. eapply aw_try; [apply wp_Verify|done|]. intros d res HR H.
  eapply aw_seq; [apply aw_tame; tame_auto|]. intros d1 x HR1 _. cbn. intros Ho.
  eapply holds_device_later; [reflexivity|exact HR1|by apply H].
Qed.

Lemma wp_Authenticate req s :
  awp (Authenticate L cfg req) (on_Ok (fun d id => holds_device s d (oi_PlayerID id) (aq_TOTPCode req) /\ oi_TOTPVerified id = true)) s.
Proof.
  unfold Authenticate. eapply (aw_try _ _ _ (fun _ _ => True)); [|done|].
  { eapply rg_wp_mono; [|apply aw_tame; tame_auto]. by intros d []. }
  intros d1 pl H1 _. eapply (aw_try _ _ _ (fun d _ => True)); [|done|].
  { unfold audited_IsEnrolled, IsEnrolled. eapply rg_wp_mono; [|apply aw_tame; tame_auto]. by intros d []. }
  intros d2 [] H2 _; [|done]. cbn [negb].
  eapply aw_try; [apply wp_audited_Verify|done|]. intros d3 res H3 Hv. destruct (vr_Outcome res) eqn:Eo; try done.
  specialize (Hv Eo). eapply (aw_try _ _ _ (fun d _ => auth_grows d3 d)); [|done|].
  { eapply rg_wp_mono; [|apply aw_tame; tame_auto]. by intros d []. }
  intros d4 u _ H4. cbn. split; [|done]. eapply holds_device_later; [|exact H4|exact Hv]. by transitivity d1.
Qed.

Definition on_Reply {A} (P : AuthDB -> A -> Prop) (d : AuthDB) (r : rpc A) : Prop :=
  match r with Reply a => P d a | Refusal _ _ => True end.

Lemma wp_Issue ttl id step t s :
  oi_TOTPVerified id = true -> EvVerified (oi_PlayerID id) step t ∈ ad_log s ->
  awp (Issue ttl id) (on_Ok (fun d r => EvIssued r.1 id ∈ ad_log d)) s.
Proof.
  intros Hv Hin. unfold Issue. eapply aw_seq; [apply (aw_idle ANow (fun _ _ => True)); done|]. intros d now HR _.
  eapply (aw_try _ _ _ (fun _ _ => True)); [apply aw_idle; [done|]; intros d1 en _ _ _; cbn; by destruct (oe_token en)|done|].
  intros d1 tok HR1 _. eapply aw_seq; [apply (aw_call _ (fun d _ => EvIssued tok id ∈ ad_log d))|].
  - intros d2 en HR2 HI _. split; [|apply list_elem_of_here]. eapply keeps_issue; [done..|].
    eapply grows_log; [|exact Hin]. transitivity d; [done|]. by transitivity d1.
  - intros d2 u _ H. exact H.
Qed.

Lemma holds_device_event s d p code : holds_device s d p code -> exists step t, EvVerified p step t ∈ ad_log d.
Proof.
  intros (d0 & r & secret & step & now & l & _ & _ & _ & _ & _ & ->). exists step, now.
  apply elem_of_app. right. apply list_elem_of_here.
Qed.

(** A session of the player under the token. *)
Definition opened (d : AuthDB) (resp : AuthenticateResponse) : Prop :=
  exists id, EvIssued (ar_SessionToken resp) id ∈ ad_log d /\ oi_PlayerID id = ar_PlayerId resp.

Lemma wp_AuthenticateHandler ttl req s :
  awp (AuthenticateHandler L cfg ttl req)
    (on_Reply (fun d resp => holds_device s d (ar_PlayerId resp) (aq_TOTPCode req) /\ opened d resp)) s.
Proof.
  unfold AuthenticateHandler. eapply aw_try; [apply wp_Authenticate|done|]. intros d id HR (Hh & Hv).
  destruct (holds_device_event _ _ _ _ Hh) as (step & t & Hin).
  eapply aw_try; [by eapply wp_Issue|done|]. intros d1 [tok ex] HR1 Hi. cbn. split.
  - eapply holds_device_later; [reflexivity|exact HR1|exact Hh].
  - by exists id.
Qed.

Lemma wp_session_Get tok s : awp (session_Get tok) (on_Ok (fun d id => signed_in (oi_PlayerID id) d)) s.
Proof.
  unfold session_Get. eapply aw_seq; [apply (aw_idle (ASessionGet tok) (fun d o => forall e, o = Some e -> EvIssued tok (se_Identity e) ∈ ad_log d)); [done|]|].
  - intros d en _ HI _ e He. by apply (ai_sessions _ HI).
  - intros d [e|] _ He; [|done]. specialize (He e eq_refl). eapply aw_seq; [apply (aw_idle ANow (fun _ _ => True)); done|].
    intros d1 now HR1 _. destruct (now <? se_ExpiresAt e); [|eapply aw_seq; [apply aw_tame; tame_auto|done]].
    cbn. exists tok, (se_Identity e). split; [by eapply grows_log|done].
Qed.

Lemma signed_in_later q d d' : auth_grows d d' -> signed_in q d -> signed_in q d'.
Proof. intros HR (tok & id & Hin & Hid). exists tok, id. split; [by eapply grows_log|done]. Qed.

Lemma wp_MarkApproved i q s : signed_in q s -> awp (MarkApproved i q) (fun _ _ => True) s.
Proof.
  intros Hq. unfold MarkApproved. eapply (aw_try _ _ _ (fun _ _ => True)).
  - apply aw_call. intros d en HR HI _. split; [|by destruct (auth_exec _ _ _ _).1].
    assert (K : keeps d (atomically (approve_statement (oe_dbnow en) i q) d).2).
    { rewrite atomically_2. destruct (approve_statement _ _ _ _) as [[a|e] d'] eqn:E; [|by apply auth_keeps_refl].
      eapply approve_keeps; [done| |exact E]. by eapply signed_in_later. }
    cbn. destruct (oe_fault en); cbn; [exact K|by apply auth_keeps_refl|exact K].
  - done.
  - intros d b _ _. eapply rg_wp_mono; [|apply aw_tame; tame_auto]. done.
Qed.

Lemma safe_Approve tok rid s : awp (Approve tok rid) (fun _ _ => True) s.
Proof.
  unfold Approve. eapply aw_try; [apply wp_session_Get|done|]. intros d id HR Hs.
  eapply (aw_try _ _ _ (fun d1 _ => auth_grows d d1)); [|done|].
  { eapply rg_wp_mono; [|apply aw_tame; tame_auto]. by intros d1 []. }
  intros d1 u _ HR1. destruct (_ || _); [done|].
  eapply (aw_try _ _ _ (fun _ _ => True)); [|done|done]. eapply rg_wp_mono; [|apply wp_MarkApproved].
  - by intros d2 [].
  - by eapply signed_in_later.
Qed.

(** ** Dual control *)
Lemma WaitForApproval_spec n i dl s :
  awp (WaitForApproval n i dl) (on_Ok (fun d a => exists r, ad_approvals d !! i = Some r /\ is_Some (ap_approved_at r))) s.
Proof.
  revert s. induction n as [|n IH]; intros s; cbn [WaitForApproval]; [done|].
  assert (Hagain : forall s, awp (c ← call (ASleep pollInterval);
      match c with Some e => coded "APPROVAL_WAIT_CANCELLED" e | None => WaitForApproval n i dl end)
      (on_Ok (fun d a => exists r, ad_approvals d !! i = Some r /\ is_Some (ap_approved_at r))) s).
  { intros s0. eapply aw_seq; [apply (aw_idle (ASleep pollInterval) (fun _ _ => True)); done|].
    intros d [e|] _ _; [done|apply IH]. }
  eapply aw_seq; [apply (aw_idle ANow (fun _ _ => True)); done|]. intros d now _ _. destruct (negb _); [done|].
  eapply aw_seq; [apply (aw_tx _ (fun d a => exists r, ad_approvals d !! i = Some r /\ a = snapshot_of i r))|].
  - intros en. apply tx_getRaw.
  - intros d1 en a d' _ _ _ H _. unfold getRaw in H. tx_ok. destruct (ad_approvals d1 !! i) eqn:E; tx_ok. eauto.
  - intros d1 [a|e] _ Ha; [|destruct (isApprovalNotFound e); [apply Hagain|done]]. destruct Ha as (r & Hr & ->).
    eapply aw_seq; [apply (aw_idle ANow (fun d2 _ => auth_grows d1 d2)); [done|by intros]|]. intros d2 now' _ HR2.
    destruct (negb _); [done|]. case_bool_decide as Hap; [|apply Hagain]. cbn in *.
    destruct (proj2 HR2 _ _ Hr) as (r' & Hr' & (_ & _ & _ & _ & Hk)). exists r'. split; [done|]. by rewrite (Hk Hap).
Qed.

Lemma approved_by_other d rid r :
  auth_inv d -> ad_approvals d !! rid = Some r -> is_Some (ap_approved_at r) ->
  exists q t, ap_approved_by_player_id r = Some q /\ ap_approved_at r = Some t /\ t < ap_expires_at r /\ q <> ap_primary_player_id r.
Proof.
  intros HI Hr [t Ht]. pose proof (ai_approvals _ HI _ _ Hr) as Ho. unfold approval_ok in Ho. rewrite Ht in Ho.
  destruct (ap_approved_by_player_id r) as [q|]; [|done]. destruct Ho. by exists q, t.
Qed.

Definition dually (d : AuthDB) (playerID opArgsHash : string) (rec : approvalRecord) : Prop :=
  exists r, ad_approvals d !! ar_RequestID rec = Some r /\ is_Some (ap_approved_at r) /\
    ap_op_kind r = opKind_readstream /\ ap_op_args_hash r = opArgsHash.

Lemma GetByOpArgsHash_Ok now rank k h x db a db' :
  GetByOpArgsHash now rank k h x db = (Ok a, db') ->
  exists r, ad_approvals db !! av_RequestID a = Some r /\ is_Some (ap_approved_at r) /\ ap_op_kind r = k /\
    ap_op_args_hash r = h /\ now < ap_expires_at r /\ ap_primary_player_id r <> x.
Proof.
  unfold GetByOpArgsHash. destruct (is_empty _); [done|]. rewrite read_bind.
  destruct (order_by _ _) as [|[i r] l] eqn:E; [done|]. intros H. tx_ok.
  match type of E with order_by ?le ?rows = _ => assert (Hin : (i, r) ∈ order_by le rows) by (rewrite E; apply list_elem_of_here) end.
  apply elem_of_order_by, rows_where_elem in Hin as [Hi Hc]. bool_prop. exists r.
  repeat match goal with
    | H : String.eqb _ _ = true |- _ => apply String.eqb_eq in H
    | H : String.eqb _ _ = false |- _ => apply String.eqb_neq in H
    | H : (_ <? _) = true |- _ => apply Z.ltb_lt in H
    end. by split_and!.
Qed.

Lemma wp_acquire n ttl p h s :
  awp (acquireApproval L n ttl p h) (on_Ok (fun d rec => dually d p h rec)) s.
Proof.
  unfold acquireApproval.
  eapply aw_seq; [apply (aw_tx _ (fun d a => exists r, ad_approvals d !! av_RequestID a = Some r /\ is_Some (ap_approved_at r) /\
    ap_op_kind r = opKind_readstream /\ ap_op_args_hash r = h))|].
  - intros en. apply tx_GetByOpArgsHash.
  - intros d en a d' _ _ _ H K. apply GetByOpArgsHash_Ok in H as (r & Hr & Ha & Hk & Hh & _ & _).
    destruct (proj2 (proj2 K) _ _ Hr) as (r' & Hr' & (_ & _ & _ & _ & Hl)). exists r'. rewrite (Hl Ha). by rewrite Hr', (Hl Ha).
  - intros d [a|e] _ Ha; [exact Ha|]. destruct (negb _); [done|].
    eapply aw_seq; [apply (aw_idle ANewID (fun _ _ => True)); done|]. intros d1 rid _ _.
    eapply (aw_try _ _ _ (fun d _ => exists r, ad_approvals d !! rid = Some r /\ ap_op_kind r = opKind_readstream /\ ap_op_args_hash r = h)).
    + apply aw_tx; [intros en; apply tx_Open|]. intros d2 en u d' _ _ _ H _. unfold Open in H. tx_ok.
      cbn. rewrite lookup_insert_eq. by eexists.
    + done.
    + intros d2 u _ (r & Hr & Hk & Hh). eapply aw_seq; [apply (aw_idle ANow (fun d _ => auth_grows d2 d)); [done|by intros]|].
      intros d3 now _ HR3. eapply (aw_try _ _ _ (fun d _ => auth_grows d2 d)); [|done|].
      { apply aw_idle; [done|]. intros d4 en HR4 _ _. cbn. destruct (oe_send en); [|done]. cbn. by transitivity d3. }
      intros d4 u' _ HR4. eapply aw_seq; [apply WaitForApproval_spec|]. intros d5 [a|e'] HR5 Hw.
      * cbn. destruct Hw as (r5 & Hr5 & Ha5). exists r5. split_and!; [done|done|..];
          destruct (proj2 (transitivity HR4 HR5) _ _ Hr) as (r' & Hr' & (_ & E1 & E2 & _)); simplify_eq; congruence.
      * destruct (has_code e' _); [done|]. eapply aw_seq; [apply (aw_idle ANow (fun _ _ => True)); done|]. intros d6 t _ _.
        eapply aw_seq; [apply (aw_idle (ASend _) (fun _ _ => True)); done|]. done.
Qed.

(** ** The machine *)
Inductive auth_request : Type :=
| RqSignIn (username password : string)
| RqAuthenticate (ttl : Z) (req : AuthRequest)
| RqVerify (player : ULID) (code : string)
| RqEnroll (player : ULID)
| RqBootstrap (player : ULID)
| RqConsume (player : ULID) (code : string)
| RqRecover (player : ULID) (code : string)
| RqClear (player : ULID) (by_ : string)
| RqReset (token target : string)
| RqApprove (token request : string)
| RqAcquire (polls : nat) (ttl : Z) (player : ULID) (opArgsHash : string)
| RqRevoke (token : string)
| RqPassword (player : ULID) (hash : string)
| RqAddRole (character role : string)
| RqRemoveRole (character role : string).

Definition serve (rq : auth_request) : aprog unit :=
  match rq with
  | RqSignIn u pw => forget (ValidateCredentials L u pw)
  | RqAuthenticate ttl req => forget (AuthenticateHandler L cfg ttl req)
  | RqVerify p code => forget (audited_Verify L cfg p code)
  | RqEnroll p => forget (Enroll cfg p)
  | RqBootstrap p => forget (BootstrapEnroll cfg p)
  | RqConsume p code => forget (audited_ConsumeRecoveryCode L cfg p code)
  | RqRecover p code => forget (audited_RecoverAndClear L cfg p code)
  | RqClear p by_ => forget (audited_ClearTOTP cfg p by_)
  | RqReset tok target => forget (ResetTOTP L cfg tok target)
  | RqApprove tok rid => forget (Approve tok rid)
  | RqAcquire n ttl p h => forget (acquireApproval L n ttl p h)
  | RqRevoke tok => forget (Revoke tok)
  | RqPassword p h => forget (call (ATx (fun en => UpdatePasswordAndClearLockout (oe_now en) p h)))
  | RqAddRole c r => forget (call (ATx (fun _ => AddRole c r)))
  | RqRemoveRole c r => forget (call (ATx (fun _ => RemoveRole c r)))
  end.

(** Accounts, characters and roles change by other hands too. *)
Definition auth_step : machine acall AuthDB -> machine acall AuthDB -> Prop :=
  mstep auth_exec env_ok (fun p => exists rq, p = serve rq) (fun db db' => books db' = books db).
Abbreviation auth_sound := (sound auth_exec env_ok auth_inv auth_grows).

Lemma auth_safe_forget {A} (p : aprog A) Q s : awp p Q s -> awp (forget p) (fun _ _ => True) s.
Proof. intros H. unfold forget. eapply aw_seq; [exact H|]. done. Qed.

Lemma safe_tame {A} (p : aprog A) s : tame p -> awp (forget p) (fun _ _ => True) s.
Proof. intros H. by eapply auth_safe_forget, aw_tame. Qed.

#[local] Hint Resolve tame_BootstrapEnroll tame_Enroll tame_audited_Consume tame_audited_Recover tame_ResetTOTP tame_acquire : auth_tame.

Lemma serve_safe rq s : safe auth_exec env_ok auth_inv auth_grows s (serve rq).
Proof.
  unfold safe. destruct rq; cbn [serve]; try (apply safe_tame; unfold Revoke; by tame_auto).
  - eapply auth_safe_forget, wp_AuthenticateHandler.
  - eapply auth_safe_forget, safe_Approve.
Qed.

Lemma auth_run_sound m m' : rtc auth_step m m' -> auth_sound m -> auth_sound m' /\ auth_grows (m_state m) (m_state m').
Proof.
  apply run_sound.
  - apply _.
  - intros p d [rq ->] _. apply serve_safe.
  - intros d d' HI H. by apply keeps_books.
Qed.

Lemma auth_idle db : auth_inv db -> auth_sound (mkMachine db []).
Proof. intros HI. by split. Qed.

Lemma reached_inv db m : auth_inv db -> rtc auth_step (mkMachine db []) m -> auth_inv (m_state m).
Proof. intros HI Hr. apply (auth_run_sound _ _ Hr (auth_idle db HI)). Qed.

(** ** What the log allows *)
Lemma lawful_app l1 l2 : lawful (l1 ++ l2) -> lawful l2.
Proof. induction l1 as [|e l1 IH]; cbn; [done|]. intros [_ H]. by apply IH. Qed.

Lemma lawful_split l1 e l2 : lawful (l1 ++ e :: l2) -> admissible l2 e /\ lawful l2.
Proof. intros H. apply (lawful_app l1 (e :: l2) H). Qed.

Ltac same_player := repeat match goal with
  | |- context [String.eqb ?q ?p] => destruct (String.eqb_spec q p); subst
  | H : context [String.eqb ?q ?p] |- _ => destruct (String.eqb_spec q p); subst
  end.

(** The last used step does not go back while the enrolment lasts. *)
Lemma last_step_grows p s1 t1 l1 l2 :
  lawful (l2 ++ EvVerified p s1 t1 :: l1) -> EvCleared p ∉ l2 ->
  exists f x, factor_of p (l2 ++ EvVerified p s1 t1 :: l1) = Some f /\ fa_last f = Some x /\ s1 <= x.
Proof.
  induction l2 as [|e l2 IH]; cbn [app lawful factor_of].
  - intros [(f & Hf & _) _] _. cbn. rewrite String.eqb_refl, Hf. cbn. eexists _, s1. split; [done|]. split; [done|lia].
  - intros [Ha Hl] Hn. apply not_elem_of_cons in Hn as [Hne Hn]. destruct (IH Hl Hn) as (f & x & Hf & Hx & Hle).
    rewrite Hf. destruct e as [k q|q|q t|q s t|i q|q|r q t|tok id]; cbn [factor_step];
      try (by exists f, x); destruct (String.eqb_spec q p) as [->|Hq]; try (by exists f, x).
    + cbn in Ha. congruence.
    + cbn. eexists (mkFactor (fa_last f) _ _), x. split; [reflexivity|by split].
    + destruct Ha as (f' & Hf' & _ & Hs). rewrite Hf in Hf'. injection Hf' as <-. specialize (Hs _ Hx).
      exists (mkFactor (Some s) 0 None), s. split; [done|]. split; [done|lia].
Qed.

(** Wrong codes in a row, and when the last was tried. *)
Fixpoint failures (p : ULID) (l : list auth_event) : Z :=
  match l with
  | [] => 0
  | EvGuessed q _ :: l' => if String.eqb q p then failures p l' + 1 else failures p l'
  | (EvEnrolled q | EvVerified q _ _ | EvCleared q) :: l' => if String.eqb q p then 0 else failures p l'
  | _ :: l' => failures p l'
  end.

Fixpoint last_guess (p : ULID) (l : list auth_event) : option Z :=
  match l with
  | [] => None
  | EvGuessed q t :: l' => if String.eqb q p then Some t else last_guess p l'
  | _ :: l' => last_guess p l'
  end.

Lemma factor_failures p l f :
  1 <= cf_LockoutThreshold cfg -> factor_of p l = Some f ->
  fa_failures f = failures p l /\
  (cf_LockoutThreshold cfg <= failures p l -> exists t, last_guess p l = Some t /\ fa_locked f = Some (t + cf_LockoutDuration cfg)).
Proof.
  intros H1. revert f. induction l as [|e l IH]; intros f; cbn [factor_of]; [done|].
  destruct e as [k q|q|q t|q s t|i q|q|r q t|tok id]; cbn [factor_step failures last_guess]; try apply IH; same_player; try apply IH.
  - intros [= <-]. cbn. split; [done|]. lia.
  - destruct (factor_of p l) as [f0|]; [|done]. cbn. intros [= <-]. cbn. destruct (IH f0 eq_refl) as [-> _].
    split; [done|]. intros Hn. exists t. split; [done|]. by rewrite (proj2 (Z.leb_le _ _) Hn).
  - destruct (factor_of p l) as [f0|]; [|done]. cbn. intros [= <-]. cbn. split; [done|]. lia.
  - done.
Qed.

(** ** Claims *)
Abbreviation auth_runs p m b m' :=
  (runs auth_exec env_ok (fun x => exists rq, x = serve rq) (fun d d' => books d' = books d) p m b m').

Lemma auth_runs_wp {B} (p : aprog B) Q db m b m' :
  auth_inv db -> rtc auth_step (mkMachine db []) m -> auth_runs p m b m' -> awp p Q (m_state m) ->
  auth_inv (m_state m') /\ Q (m_state m') b.
Proof.
  intros HI Hr Hp Hw.
  destruct (runs_wp auth_exec env_ok auth_inv auth_grows _ _ (fun p d (H : exists rq, p = serve rq) _ =>
    match H with ex_intro _ rq E => eq_ind_r _ (serve_safe rq d) E end) (fun d d' HI H => keeps_books d d' HI H)
    p Q m b m' Hp (proj1 (auth_run_sound _ _ Hr (auth_idle db HI))) Hw) as ([HI' _] & _ & HQ). done.
Qed.

(** C13: A one-time code opens the door once.  After any number of requests run
    concurrently, answers lost, requests cut off: of two accepted codes of one
    enrolment, the later one is for a later time step, so no code, and no code of an
    earlier step, is ever accepted again. *)
Theorem totp_codes_are_not_replayed db m p s1 t1 s2 t2 l1 l2 l3 :
  auth_inv db -> rtc auth_step (mkMachine db []) m ->
  ad_log (m_state m) = l3 ++ EvVerified p s2 t2 :: l2 ++ EvVerified p s1 t1 :: l1 -> EvCleared p ∉ l2 ->
  s1 < s2.
Proof.
  intros HI Hr Hl Hn. pose proof (ai_lawful _ (reached_inv _ _ HI Hr)) as Hw. rewrite Hl in Hw.
  apply lawful_split in Hw as [(f & Hf & _ & Hs) Hw]. destruct (last_step_grows _ _ _ _ _ Hw Hn) as (f' & x & Hf' & Hx & Hle).
  rewrite Hf in Hf'. injection Hf' as <-. specialize (Hs _ Hx). lia.
Qed.

(** C22: Guessing is slow.  However many requests run at once: once a player's wrong
    codes in a row reach the threshold, no code of theirs is tried, right or wrong,
    before the lockout since the last one has passed; and so again after every further
    wrong code. *)
Theorem wrong_codes_are_spaced db m p e l1 l2 t1 t :
  auth_inv db -> rtc auth_step (mkMachine db []) m -> 1 <= cf_LockoutThreshold cfg ->
  ad_log (m_state m) = l2 ++ e :: l1 -> e = EvGuessed p t \/ (exists s, e = EvVerified p s t) ->
  cf_LockoutThreshold cfg <= failures p l1 -> last_guess p l1 = Some t1 ->
  t1 + cf_LockoutDuration cfg <= t.
Proof.
  intros HI Hr H1 Hl He Hn Hg. pose proof (ai_lawful _ (reached_inv _ _ HI Hr)) as Hw. rewrite Hl in Hw.
  apply lawful_split in Hw as [Ha _].
  assert (exists f, factor_of p l1 = Some f /\ after t (fa_locked f) = false) as (f & Hf & Hafter).
  { destruct He as [->|[s ->]]; cbn in Ha; [exact Ha|]. destruct Ha as (f & ? & ? & _). eauto. }
  destruct (factor_failures p l1 f H1 Hf) as [_ Hlock]. destruct (Hlock Hn) as (t0 & Ht0 & Hk).
  rewrite Hg in Ht0. injection Ht0 as <-. rewrite Hk in Hafter. cbn in Hafter. by apply Z.ltb_ge in Hafter.
Qed.

(** C27: What may be spent once is spent once.  However many requests run at once, a
    recovery code is consumed at most once, by whomever; the bootstrap of the
    installation is claimed at most once; and a request for approval is granted at most
    once. *)
Theorem secrets_are_spent_once db m e l1 l2 :
  auth_inv db -> rtc auth_step (mkMachine db []) m -> ad_log (m_state m) = l2 ++ e :: l1 ->
  match e with
  | EvConsumed i _ => forall q, EvConsumed i q ∉ l1
  | EvClaimed k _ => forall q, EvClaimed k q ∉ l1
  | EvApproved r _ _ => forall q t, EvApproved r q t ∉ l1
  | _ => True
  end.
Proof.
  intros HI Hr Hl. pose proof (ai_lawful _ (reached_inv _ _ HI Hr)) as Hw. rewrite Hl in Hw.
  apply lawful_split in Hw as [Ha _]. destruct e; cbn in Ha; try done. apply Ha.
Qed.

(** *** The calls of a sign-in *)
Abbreviation alogged := (Programs.logged auth_exec env_ok (fun x => exists rq, x = serve rq) (fun d d' => books d' = books d)).
Abbreviation auth_calls := (list (took acall AuthDB)).

(** The request began by reading the account of that name, whose hash the password
    verifies, and then the clock, at which the account was not locked out. *)
Definition password_accepted (username password : string) (p : ULID) (calls : auth_calls) : Prop :=
  exists pl k d now d1 rest,
    calls = Took (ATx (fun en => GetByUsername (oe_rank en) (al_lower L) username)) (Ok pl) d d :: Took ANow now d1 d1 :: rest /\
    ad_players d !! k = Some pl /\ py_ID pl = p /\ al_lower L (py_Username pl) = al_lower L username /\
    al_verify L password (py_PasswordHash pl) = Ok true /\ IsLockedOut now (py_LockedUntil pl) = false.

(** The attribute resolver was asked for the player and found the capability among its
    grants; the roles were read, and the admin role was there. *)
Definition operator_granted (p : ULID) (calls : auth_calls) : Prop :=
  exists subject b gs d, PlayerSubject p = Return subject /\ Took (AResolve subject EmptyString) (Some b, None) d d ∈ calls /\
    Subject b !! PlayerGrantsAttribute = Some (AStrings gs) /\ str_mem CapabilityCryptoOperator gs = true.

Definition admin_role_read (p : ULID) (calls : auth_calls) : Prop :=
  exists d, Took (ARead (PlayerHasRole p RoleAdmin)) (Ok true) d d ∈ calls /\ PlayerHasRole p RoleAdmin d = true.

Lemma HasPlayerGrant_Ok r p subject :
  PlayerSubject p = Return subject -> HasPlayerGrant (fun _ _ => r) p CapabilityCryptoOperator = Return (true, None) ->
  exists b gs, r = (Some b, None) /\ Subject b !! PlayerGrantsAttribute = Some (AStrings gs) /\ str_mem CapabilityCryptoOperator gs = true.
Proof.
  intros Hs. unfold HasPlayerGrant. rewrite Hs. destruct (is_empty p); [done|]. cbn. destruct r as [[b|] [e|]]; try done.
  destruct (Subject b !! PlayerGrantsAttribute) as [[]|] eqn:Eb; try done. intros [= H]. by repeat eexists.
Qed.

Lemma call_logged {A B} (c : acall A) (k : A -> aprog B) m l b m' :
  alogged (call c ≫= k) m l b m' -> exists d en m1 l1,
    l = Took c (auth_exec en _ c d).1 d (auth_exec en _ c d).2 :: l1 /\ alogged (k (auth_exec en _ c d).1) m1 l1 b m'.
Proof.
  intros (l1 & a & m1 & l2 & (d & ps & en & l' & _ & _ & -> & -> & -> & _) & H & ->)%logged_bind. by exists d, en, m1, l2.
Qed.

(** A refusal is no reply. *)
Ltac refuses H := by destruct H as (_ & [=] & _).

Lemma lookup_logged u m l r m' (k : result Player -> aprog (result Player)) :
  alogged (call (ATx (fun en => GetByUsername (oe_rank en) (al_lower L) u)) ≫= k) m l r m' ->
  exists m1 l1, (exists e, alogged (k (Err e)) m1 l1 r m') \/
    exists pl i d, l = Took (ATx (fun en => GetByUsername (oe_rank en) (al_lower L) u)) (Ok pl) d d :: l1 /\
      ad_players d !! i = Some pl /\ al_lower L (py_Username pl) = al_lower L u /\ alogged (k (Ok pl)) m1 l1 r m'.
Proof.
  intros (d & en & m1 & l1 & -> & H)%call_logged. exists m1, l1. cbn in *. destruct (oe_fault en); [|left; eauto..].
  unfold atomically in *. destruct (GetByUsername _ _ _ d) as [[pl|e] d'] eqn:E; [|left; eauto]. right.
  apply GetByUsername_Ok in E as [-> (i & Hi & Hu)]. by exists pl, i, d.
Qed.

Lemma ValidateCredentials_calls u pw m l p m' :
  alogged (ValidateCredentials L u pw) m l (Ok p) m' -> password_accepted u pw (py_ID p) l.
Proof.
  unfold ValidateCredentials. destruct (_ <? _); [intros H; refuses H|].
  intros (m1 & l1 & [[e H]|(pl & i & d & -> & Hi & Hu & H)])%lookup_logged.
  { destruct (error_Is _ e); [case_match|]; refuses H. }
  destruct (al_verify L pw (py_PasswordHash pl)) as [[]|e] eqn:Ev; [| |refuses H].
  - apply call_logged in H as (d1 & en & m2 & l2 & -> & H). cbn [auth_exec fst snd] in *.
    destruct (IsLockedOut _ _) eqn:El; [refuses H|]. apply logged_bind in H as (l3 & u' & m3 & l4 & _ & (_ & [= ->] & _) & ->).
    exists pl, i, d, (oe_now en), d1, (l3 ++ l4)%list. by split_and!.
  - apply call_logged in H as (d1 & en & m2 & l2 & -> & H). apply logged_bind in H as (l3 & u' & m3 & l4 & _ & H & _). refuses H.
Qed.

Lemma player_grant_calls p m l m' :
  alogged (player_grant p CapabilityCryptoOperator) m l (Ok true) m' -> operator_granted p l.
Proof.
  unfold player_grant. destruct (PlayerSubject p) as [subject|x] eqn:Es.
  2:{ cbn. unfold HasPlayerGrant. rewrite Es. destruct (is_empty p); intros H; refuses H. }
  intros (d & en & m1 & l1 & -> & H)%call_logged. cbn [auth_exec fst snd] in *.
  destruct (HasPlayerGrant _ _ _) as [[b [e|]]|x] eqn:Eg; [refuses H| |refuses H]. destruct H as (_ & [= <-] & _).
  apply (HasPlayerGrant_Ok _ _ _ Es) in Eg as (b & gs & Er & Hb & Hm).
  exists subject, b, gs, d. rewrite <- Er. split; [done|]. split; [apply list_elem_of_here|done].
Qed.

Lemma AssertOperatorAdmin_calls p m l m' :
  alogged (AssertOperatorAdmin p) m l (Ok tt) m' -> operator_granted p l /\ admin_role_read p l.
Proof.
  intros (l1 & b & m1 & l2 & Hg & H & ->)%logged_try; [|by eexists]. destruct b; cbn [negb] in H; [|refuses H].
  apply player_grant_calls in Hg. apply logged_try in H as (l3 & b & m2 & l4 & Hr & H & ->); [|by eexists].
  destruct b; [|refuses H]. split.
  - destruct Hg as (subject & b & gs & d & Hs & Hin & Hb). exists subject, b, gs, d. split; [done|]. split; [set_solver|done].
  - destruct Hr as (d & ps & en & l' & _ & _ & -> & _ & Ha & _). exists d. split.
    + apply elem_of_app. right. apply elem_of_app. left. rewrite <- Ha. apply list_elem_of_here.
    + cbn in Ha. destruct (oe_fault en); [|discriminate Ha..]. by injection Ha.
Qed.

Lemma AuthenticateHandler_calls ttl req m l resp m' :
  alogged (AuthenticateHandler L cfg ttl req) m l (Reply resp) m' ->
  password_accepted (aq_Username req) (aq_Password req) (ar_PlayerId resp) l /\
  operator_granted (ar_PlayerId resp) l /\ admin_role_read (ar_PlayerId resp) l.
Proof.
  intros (l1 & [id|e] & m1 & l2 & H & Hi & ->)%logged_bind; [|by destruct Hi as (_ & [=] & _)].
  apply logged_bind in Hi as (l3 & [iss|e] & m2 & l4 & _ & (_ & [= ->] & _) & ->). cbn [ar_PlayerId].
  apply logged_try in H as (l5 & pl & m3 & l6 & Hp%ValidateCredentials_calls & H & ->); [|by eexists].
  apply logged_try in H as (l7 & enrolled & m4 & l8 & _ & H & ->); [|by eexists].
  destruct enrolled; cbn [negb] in H; [|by destruct H as (_ & [=] & _)].
  apply logged_try in H as (l9 & res & m5 & l10 & _ & H & ->); [|by eexists].
  destruct (vr_Outcome res); try by destruct H as (_ & [=] & _).
  apply logged_try in H as (l11 & [] & m6 & l12 & Ha%AssertOperatorAdmin_calls & (_ & [= ->] & _) & ->); [|by eexists].
  cbn [oi_PlayerID]. destruct Ha as [(sub & b & gs & d & Hs & Hin & Hb) (d' & Hin' & Hrole)]. split_and!.
  - destruct Hp as (pl' & k & d0 & now & d1 & rest & -> & Hrow). do 5 eexists. eexists. split; [reflexivity|exact Hrow].
  - exists sub, b, gs, d. split; [done|]. split; [set_solver|done].
  - exists d'. split; [set_solver|done].
Qed.

(** C9: An operator's session takes all the factors.  When the door answers a request
    with a token, whatever else ran meanwhile: the request read the account of the name
    it gave, whose hash its password verifies, and then a clock at which that account
    was not locked out; the player was enrolled, and the code is the one of the enrolled
    secret for a step within the window around the clock, accepted during this very
    request; the attribute resolver, asked about the player, granted the operators'
    capability, and the roles it then read held the admin role; and the token is a
    session of that player. *)
Theorem operator_sessions_take_all_factors db m ttl req calls resp m' :
  auth_inv db -> rtc auth_step (mkMachine db []) m ->
  alogged (AuthenticateHandler L cfg ttl req) m calls (Reply resp) m' ->
  password_accepted (aq_Username req) (aq_Password req) (ar_PlayerId resp) calls /\
  holds_device (m_state m) (m_state m') (ar_PlayerId resp) (aq_TOTPCode req) /\
  operator_granted (ar_PlayerId resp) calls /\ admin_role_read (ar_PlayerId resp) calls /\
  opened (m_state m') resp.
Proof.
  intros HI Hr Hp. destruct (AuthenticateHandler_calls _ _ _ _ _ _ Hp) as (? & ? & ?). apply logged_runs in Hp.
  destruct (auth_runs_wp _ _ _ _ _ _ HI Hr Hp (wp_AuthenticateHandler ttl req (m_state m))) as [_ [? ?] ]. by split_and!.
Qed.

Lemma lawful_elem e l : lawful l -> e ∈ l -> exists l1 l2, l = l1 ++ e :: l2 /\ admissible l2 e /\ lawful l2.
Proof. intros H He. apply list_elem_of_split in He as (l1 & l2 & ->). exists l1, l2. split; [done|]. by apply lawful_split in H. Qed.

(** C16: Under dual control it takes two.  When [acquireApproval] lets an operator's read
    proceed, whatever else ran meanwhile, there is an approval for exactly these
    arguments, granted before it expired by someone other than the one who asked for it,
    and the one who granted it had opened a session of their own, and for it had a
    one-time code accepted. *)
Theorem dual_control_takes_two db m polls ttl p h rec m' :
  auth_inv db -> rtc auth_step (mkMachine db []) m ->
  auth_runs (acquireApproval L polls ttl p h) m (Ok rec) m' ->
  exists r q t tok id step t', ad_approvals (m_state m') !! ar_RequestID rec = Some r /\
    ap_op_kind r = opKind_readstream /\ ap_op_args_hash r = h /\
    ap_approved_by_player_id r = Some q /\ ap_approved_at r = Some t /\ t < ap_expires_at r /\
    q <> ap_primary_player_id r /\
    EvIssued tok id ∈ ad_log (m_state m') /\ oi_PlayerID id = q /\ EvVerified q step t' ∈ ad_log (m_state m').
Proof.
  intros HI Hr Hp. destruct (auth_runs_wp _ _ _ _ _ _ HI Hr Hp (wp_acquire polls ttl p h (m_state m))) as [HI' H].
  destruct H as (r & Hrow & Ha & Hk & Hh). destruct (approved_by_other _ _ _ HI' Hrow Ha) as (q & t & Hq & Ht & He & Hne).
  pose proof (ai_approved _ HI' _ _ _ _ Hrow Hq Ht) as Hin. pose proof (ai_lawful _ HI') as Hw.
  destruct (lawful_elem _ _ Hw Hin) as (l1 & l2 & Hl & (_ & tok & id & Hi & Hid) & Hw2).
  destruct (lawful_elem _ _ Hw2 Hi) as (l3 & l4 & Hl2 & (_ & step & t' & Hv) & _). rewrite Hid in Hv.
  exists r, q, t, tok, id, step, t'. split_and!; try done; rewrite Hl; apply elem_of_app; right; apply elem_of_cons; right;
    [done|]. rewrite Hl2. apply elem_of_app. right. apply elem_of_cons. by right.
Qed.

(** ** Waiting ends

    The clock between two calls: it does not go back, a poll waits its interval out
    unless cancelled, and no statement fails with the error that stands for waiting. *)
Definition passes {A} (c : acall A) (t : Z) (a : A) (t' : Z) : Prop :=
  match c in acall A return A -> Prop with
  | ANow => fun a => t <= a /\ t' = a
  | ASleep d => fun a => match a with None => t + d <= t' | Some _ => t <= t' end
  | ATx _ => fun a => t <= t' /\ a <> Err still_waiting
  | _ => fun _ => t <= t'
  end a.

Fixpoint timed {B} (p : aprog B) (t : Z) (Q : B -> Prop) : Prop :=
  match p with
  | Done b => Q b
  | Call c k => forall a t', passes c t a t' -> timed (k a) t' Q
  end.

(** [WaitForApproval] comes to an end: one poll per interval until the deadline, and one
    more, are enough for an answer. *)
Theorem waiting_ends n i deadline t :
  deadline <= t + Z.of_nat n * pollInterval ->
  timed (WaitForApproval (S n) i deadline) t (fun r => r <> Err still_waiting).
Proof.
  revert t. induction n as [|n IH]; intros t Hd; cbn [WaitForApproval]; unfold mbind, prog_mbind, call; cbn.
  - intros now t' [Hn ->]. rewrite (proj2 (Z.ltb_ge now deadline)) by lia. done.
  - intros now t' [Hn ->]. destruct (Z.ltb_spec now deadline) as [Hlt|]; [|done]. cbn.
    assert (Hagain : forall t2, now <= t2 -> forall a t3, match a with None => t2 + pollInterval <= t3 | Some _ => t2 <= t3 end ->
      timed (match a with Some e => coded "APPROVAL_WAIT_CANCELLED" e | None => WaitForApproval (S n) i deadline end) t3
        (fun r => r <> Err still_waiting)).
    { intros t2 H2 [e|] t3 H3; [done|]. apply IH. lia. }
    intros [a|e] t2 [H2 He].
    + cbn. intros now' t3 [H3 ->]. destruct (now' <? av_ExpiresAt a); [|done]. cbn. case_bool_decide; [done|].
      cbn. intros x t4. apply Hagain. lia.
    + destruct (isApprovalNotFound e); cbn; [|done]. intros x t3. by apply Hagain.
Qed.

(** ** Error codes, and writes of whole rows *)

(** A wrong password is reported as an internal error: the code put around the error of
    [ValidateCredentials] does not show, and the one that shows is not in the table. *)
Theorem wrong_password_is_internal ttl u pw code peer ens db :
  (forall n, oe_fault (ens n) = AServed) -> (forall h, al_verify L pw h = Ok false) ->
  exists e, (run auth_exec ens (AuthenticateHandler L cfg ttl (mkAuthRequest u pw code peer)) db).1 = Refusal CodeInternal e.
Proof.
  intros Hf Hv. unfold AuthenticateHandler, Authenticate, try_, ValidateCredentials, mbind, prog_mbind. cbn [aq_Username aq_Password].
  destruct (MaxPasswordLength <? _); cbn; [by eexists|]. rewrite Hf.
  destruct (atomically _ db) as [[pl|e] d] eqn:Eg; cbn.
  - rewrite Hv. cbn. rewrite Hf. destruct (atomically _ d) as [r d2]. cbn. by eexists.
  - assert (He : e = player_not_found).
    { unfold atomically in Eg. destruct (GetByUsername _ _ _ db) as [[x|x] d'] eqn:E; [done|]. injection Eg as <- <-.
      unfold GetByUsername in E. rewrite read_bind in E. destruct (order_by _ _) as [|[]]; [by injection E|done]. }
    subst e. cbn. rewrite Hv. cbn. by eexists.
Qed.

(** A sign-in that read the account before its password was changed writes the old hash
    back: [Update] writes the whole row. *)
Theorem stale_sign_in_restores_password lower rank u p d0 now hash d1 now' d2 :
  GetByUsername rank lower u d0 = (Ok p, d0) -> ad_players d0 !! py_ID p = Some p ->
  UpdatePasswordAndClearLockout now (py_ID p) hash d0 = (Ok tt, d1) ->
  Update (RecordFailure now' p) d1 = (Ok tt, d2) \/ Update (RecordSuccess now' p) d1 = (Ok tt, d2) ->
  exists p1 p2, ad_players d1 !! py_ID p = Some p1 /\ py_PasswordHash p1 = hash /\
    ad_players d2 !! py_ID p = Some p2 /\ py_PasswordHash p2 = py_PasswordHash p.
Proof.
  intros _ Hp H1 H2. unfold UpdatePasswordAndClearLockout in H1. tx_ok. rewrite Hp in H1. tx_ok.
  destruct H2 as [H2|H2]; unfold Update in H2; tx_ok; cbn in H2; rewrite lookup_insert_eq in H2; tx_ok;
    cbn; rewrite !lookup_insert_eq; by repeat eexists.
Qed.

(** The code that marks a failed wait hides behind the code of any coded error. *)
Theorem dual_control_error_code_hidden e c :
  oops_code e = Some c -> has_code (ErrWrapCode "READSTREAM_DUAL_CONTROL_ERROR" e) c = true.
Proof. intros H. unfold has_code. cbn. rewrite H. by apply bool_decide_eq_true. Qed.
End Facts.

(** ** A scenario *)
Definition demo_lib : AuthLib :=
  mkAuthLib (fun s => s) (fun secret c => Ok (secret +:+ FormatInt c)) (fun pw h => Ok (String.eqb pw h)) (fun s => Ok s)
    (fun w _ => Some w).
Definition demo_cfg : Config := applyDefaults (mkConfig "main" 0 0 0 1).

Definition demo_resolve (subject _ : string) : option AttributeBags * option error :=
  (Some (mkBags (if String.eqb subject "player:ann" || String.eqb subject "player:bob"
                 then {[PlayerGrantsAttribute := AStrings [CapabilityCryptoOperator]]} else ∅) ∅ ∅ ∅), None).

(** Second [60 * k + n] since the epoch, at the [n]th call. *)
Definition demo_oenv (k n : nat) : oenv :=
  let t := (60 * Z.of_nat k + Z.of_nat n) * 10 ^ 9 in
  mkOEnv t t AServed (fun _ => 0) (fun w _ => Ok w) (fun s => Ok (s, "kek")) (fun pw => Ok pw)
    (if (k =? 5)%nat then "sixteen--letters" else "id" +:+ FormatInt (Z.of_nat (k * 100 + n))) (Ok ("token" +:+ FormatInt (Z.of_nat k)))
    (fun m => Ok "secretsecretsecretse") demo_resolve (Ok tt) (Ok tt) None.

Lemma demo_oenv_ok k n db : env_ok demo_lib db (demo_oenv k n).
Proof. intros w key x. cbn. congruence. Qed.

Definition demo_player (name : string) : Player :=
  mkPlayer name name "pass" None false 0 None None JNull false 0 0.
Definition demo_auth : AuthDB :=
  mkAuthDB {["ann" := demo_player "ann"; "bob" := demo_player "bob"]} {["annchar" := "ann"; "bobchar" := "bob"]}
    {[("annchar", RoleAdmin); ("bobchar", RoleAdmin)]} ∅ ∅ ∅ ∅ ∅ [].

Lemma demo_auth_inv : auth_inv demo_cfg demo_auth.
Proof.
  split; cbn; try done; try (intros; by rewrite lookup_empty in *); intros * Hin; by apply not_elem_of_nil in Hin.
Qed.

Fixpoint demo_serve (k : nat) (rqs : list auth_request) (db : AuthDB) : AuthDB :=
  match rqs with
  | [] => db
  | rq :: rest => demo_serve (S k) rest (run auth_exec (demo_oenv k) (serve demo_lib demo_cfg rq) db).2
  end.

Lemma demo_serve_reach k rqs db :
  rtc (auth_step demo_lib demo_cfg) (mkMachine db []) (mkMachine (demo_serve k rqs db) []).
Proof.
  revert k db. induction rqs as [|rq rqs IH]; intros k db; cbn [demo_serve]; [apply rtc_refl|].
  etransitivity; [|apply IH]. apply serve_alone; [|by exists rq]. intros. apply demo_oenv_ok.
Qed.

Definition demo_code (k n : nat) : string := "ONSWG4TFORZWKY3SMV2HGZLDOJSXI43F" +:+ FormatInt (step_of (oe_now (demo_oenv k n))).

(** A code, the same again, and a later one. *)
Definition demo_replay : AuthDB := demo_serve 1 [RqEnroll "ann"; RqVerify "ann" (demo_code 2 0); RqVerify "ann" (demo_code 2 0);
  RqVerify "ann" (demo_code 4 0)] demo_auth.

Lemma totp_codes_are_not_replayed_witness :
  ad_log demo_replay = [EvVerified "ann" 8 (240 * 10 ^ 9); EvGuessed "ann" (180 * 10 ^ 9);
    EvVerified "ann" 4 (120 * 10 ^ 9); EvEnrolled "ann"] /\ 4 < 8.
Proof.
  split; [vm_compute; reflexivity|].
  apply (totp_codes_are_not_replayed demo_lib demo_cfg demo_auth (mkMachine demo_replay []) "ann" 4 (120 * 10 ^ 9) 8
    (240 * 10 ^ 9) [EvEnrolled "ann"] [EvGuessed "ann" (180 * 10 ^ 9)] []).
  - apply demo_auth_inv.
  - apply demo_serve_reach.
  - vm_compute. reflexivity.
  - intros Hin. apply list_elem_of_singleton in Hin. discriminate Hin.
Defined.

(** Five wrong codes, one while locked, and one when the lockout has passed. *)
Definition demo_locked : AuthDB := demo_serve 1
  (RqEnroll "ann" :: replicate 6 (RqVerify "ann" "wrong") ++ replicate 13 (RqRevoke "none") ++ [RqVerify "ann" "wrong"]) demo_auth.

Lemma wrong_codes_are_spaced_witness :
  let past := [EvGuessed "ann" (360 * 10 ^ 9); EvGuessed "ann" (300 * 10 ^ 9); EvGuessed "ann" (240 * 10 ^ 9);
               EvGuessed "ann" (180 * 10 ^ 9); EvGuessed "ann" (120 * 10 ^ 9); EvEnrolled "ann"] in
  ad_log demo_locked = EvGuessed "ann" (1260 * 10 ^ 9) :: past /\ failures "ann" past = 5 /\
  360 * 10 ^ 9 + cf_LockoutDuration demo_cfg <= 1260 * 10 ^ 9.
Proof.
  cbv zeta. split; [vm_compute; reflexivity|]. split; [vm_compute; reflexivity|].
  apply (wrong_codes_are_spaced demo_lib demo_cfg demo_auth (mkMachine demo_locked []) "ann"
    (EvGuessed "ann" (1260 * 10 ^ 9)) (tail (ad_log demo_locked)) [] (360 * 10 ^ 9) (1260 * 10 ^ 9)).
  - apply demo_auth_inv.
  - apply demo_serve_reach.
  - vm_compute. discriminate.
  - vm_compute. reflexivity.
  - by left.
  - vm_compute. discriminate.
  - vm_compute. reflexivity.
Defined.

(** The bootstrap, and a recovery code tried twice. *)
Definition demo_spent : AuthDB := demo_serve 1 [RqBootstrap "ann"; RqBootstrap "bob"; RqConsume "ann" "7365-6372-6574-7365";
  RqConsume "ann" "7365-6372-6574-7365"] demo_auth.

Lemma secrets_are_spent_once_witness :
  ad_log demo_spent = [EvConsumed "id106" "ann"; EvEnrolled "ann"; EvClaimed "totp_v1" "ann"] /\
  forall q, EvConsumed "id106" q ∉ [EvEnrolled "ann"; EvClaimed "totp_v1" "ann"].
Proof.
  split; [vm_compute; reflexivity|].
  apply (secrets_are_spent_once demo_lib demo_cfg demo_auth (mkMachine demo_spent []) (EvConsumed "id106" "ann")
    [EvEnrolled "ann"; EvClaimed "totp_v1" "ann"] []).
  - apply demo_auth_inv.
  - apply demo_serve_reach.
  - vm_compute. reflexivity.
Defined.

(** Bob signs in as an operator. *)
Definition demo_request : AuthRequest := mkAuthRequest "bob" "pass" (demo_code 2 0) (mkPeerCred 0 0 1).
Definition demo_enrolled : AuthDB := demo_serve 1 [RqEnroll "bob"] demo_auth.
Definition demo_signed : rpc AuthenticateResponse * AuthDB :=
  run auth_exec (demo_oenv 2) (AuthenticateHandler demo_lib demo_cfg session_TTL demo_request) demo_enrolled.
Definition demo_response : AuthenticateResponse := mkAuthenticateResponse "token2" (728 * 10 ^ 9) "bob".

Abbreviation demo_logged := (Programs.logged auth_exec (env_ok demo_lib) (fun x => exists rq, x = serve demo_lib demo_cfg rq)
  (fun d d' => books d' = books d)).

Lemma operator_sessions_take_all_factors_witness :
  demo_signed.1 = Reply demo_response /\ exists calls,
    demo_logged (AuthenticateHandler demo_lib demo_cfg session_TTL demo_request) (mkMachine demo_enrolled []) calls
      (Reply demo_response) (mkMachine demo_signed.2 []) /\
    password_accepted demo_lib "bob" "pass" "bob" calls /\
    holds_device demo_lib demo_cfg demo_enrolled demo_signed.2 "bob" (demo_code 2 0) /\
    operator_granted "bob" calls /\ admin_role_read "bob" calls /\ opened demo_signed.2 demo_response.
Proof.
  assert (Hr : demo_signed.1 = Reply demo_response) by (vm_compute; reflexivity). split; [exact Hr|].
  destruct (logged_alone auth_exec (env_ok demo_lib) (fun x => exists rq, x = serve demo_lib demo_cfg rq)
    (fun d d' => books d' = books d) (demo_oenv 2) (AuthenticateHandler demo_lib demo_cfg session_TTL demo_request) []
    demo_enrolled (fun s n => demo_oenv_ok 2 n s)) as [calls Hl].
  change (run auth_exec (demo_oenv 2) _ demo_enrolled) with demo_signed in Hl. rewrite Hr in Hl. exists calls. split; [exact Hl|].
  apply (operator_sessions_take_all_factors demo_lib demo_cfg demo_auth (mkMachine demo_enrolled []) session_TTL
    demo_request calls demo_response (mkMachine demo_signed.2 [])).
  - apply demo_auth_inv.
  - apply demo_serve_reach.
  - exact Hl.
Defined.

(** Ann asks, Bob approves, and the read proceeds. *)
Definition demo_approved : AuthDB := demo_serve 1 [RqEnroll "bob"; RqAuthenticate session_TTL demo_request; RqRevoke "none";
  RqRevoke "none"; RqAcquire 0 0 "ann" "args"; RqApprove "token2" "sixteen--letters"] demo_auth.
Definition demo_read : result approvalRecord * AuthDB :=
  run auth_exec (demo_oenv 7) (acquireApproval demo_lib 1 0 "bob" "args") demo_approved.
Definition demo_record : approvalRecord := mkApprovalRecord "sixteen--letters" (Some "bob").

Lemma dual_control_takes_two_witness :
  demo_read.1 = Ok demo_record /\
  exists r q t tok id step t', ad_approvals demo_read.2 !! "sixteen--letters" = Some r /\
    ap_op_kind r = opKind_readstream /\ ap_op_args_hash r = "args" /\
    ap_approved_by_player_id r = Some q /\ ap_approved_at r = Some t /\ t < ap_expires_at r /\
    q <> ap_primary_player_id r /\
    EvIssued tok id ∈ ad_log demo_read.2 /\ oi_PlayerID id = q /\ EvVerified q step t' ∈ ad_log demo_read.2.
Proof.
  assert (Hr : demo_read.1 = Ok demo_record) by (vm_compute; reflexivity). split; [exact Hr|].
  apply (dual_control_takes_two demo_lib demo_cfg demo_auth (mkMachine demo_approved []) 1 0 "bob" "args"
    demo_record (mkMachine demo_read.2 [])).
  - apply demo_auth_inv.
  - apply demo_serve_reach.
  - rewrite <- Hr. apply (runs_alone _ _ _ _ (demo_oenv 7)). intros. apply demo_oenv_ok.
Defined.

(** [CommitEnroll] is not atomic: when the second of its statements fails, the enrolment
    stands without its recovery codes, the caller is told it failed, and trying again is
    refused. *)
Definition demo_broken (n : nat) : oenv :=
  let e := demo_oenv 1 n in
  mkOEnv (oe_now e) (oe_dbnow e) (if (n =? 8)%nat then ARefused (sql_error "connection reset") else AServed) (oe_rank e) (oe_unwrap e)
    (oe_wrap e) (oe_hash e) (oe_id e) (oe_token e) (oe_random e) (oe_resolve e) (oe_publish e) (oe_send e) (oe_cancelled e).

Example enrolment_can_lose_its_recovery_codes :
  let '(r, db) := run auth_exec demo_broken (Enroll demo_cfg "ann") demo_auth in
  is_ok r = false /\ repo_IsEnrolled "ann" db = true /\ map_to_list (ad_codes db) = [] /\
  (run auth_exec (demo_oenv 2) (Enroll demo_cfg "ann") db).1 = Err ErrAlreadyEnrolled.
Proof. vm_compute. by repeat split. Qed.
